(* ===== verification/_CoqProject ===== *)
-Q . S2P
Prelude.v
Interfaces.v
PmmCore.v
Kheap.v
Vma.v
VmaSpec.v
VmaProps.v
Memory.v
Kstring.v
Ksort.v
Bcache.v
BcacheSpec.v
BcacheProps.v
Kprintf.v
Sched.v
SchedInv.v
SchedAbs.v
SchedOps.v
SchedLife.v
SchedProps.v
SchedSignal.v
Ring.v
Blocking.v
Pty.v
PtyProps.v
Pipe.v
PipeProps.v
Tty.v
TtyProps.v
Inputdev.v
Klog.v
Slab.v
SlabProps.v
Commit.v
Blkdev.v
Paging.v
PagingSpec.v
PagingInv.v
PagingSteps.v
PagingOps.v
PagingSpaces.v
PagingClone.v
PagingFork.v
Fault.v
Uaccess.v
FaultSpec.v
FaultOps.v
PagingDemo.v
PagingProps.v
FaultProps.v
UaccessSpec.v
UaccessProps.v
Mmsys.v
MmsysOps.v
MmsysPages.v
MmsysProps.v
MmsysBrk.v
MmsysDemo.v
Vfs.v
VfsPath.v
VfsSpec.v
VfsProps.v
VfsMount.v
VfsDents.v
VfsDemo.v
Bytes.v
Dufs.v
DufsSpec.v
DufsGrow.v
DufsWrite.v
DufsFile.v
DufsFree.v
DufsDir.v
DufsApi.v
DufsDirSpec.v
DufsDirProps.v
DufsSim.v
DufsProps.v
DufsDemo.v
StoreCache.v
