(* ===== verification/Prelude.v ===== *)
(** * Drunix: a verification development of the portable kernel

    Drunix is a small Unix-like kernel in C for 32-bit x86 and arm64.  The
    kernel, under src/kernel, is layered as follows.
    The physical page allocator (mm/pmm_core.c) hands out reference-counted
    pages; the kernel heap (mm/kheap.c) and the slab allocator (mm/slab.c)
    build object allocation on a fixed region and on pages.  Every process
    keeps a table of areas (mm/vma.c), a count of committed pages
    (mm/commit.c) and a page directory (arch/x86/mm/paging.c behind
    arch/x86/arch.c).  Fork shares pages copy-on-write between directories;
    the page fault handler (mm/fault.c) copies them and fills areas lazily;
    the kernel reaches user memory through proc/uaccess.c, and brk, mmap,
    munmap and mprotect (proc/syscall/mem.c) change areas, committed pages
    and page tables together.
    The scheduler (proc/sched.c, proc/task_group.c) owns processes,
    thread groups, wait queues and signals; pipes, pseudo-terminals,
    terminals and input devices keep ring buffers and put their readers and
    writers to sleep on the scheduler's queues.  The virtual file system
    (fs/vfs/) keeps the tree of mounts and sends every path to the file system
    it belongs to.  The buffer cache
    (blk/bcache.c) sits between file systems and the block device registry
    (drivers/blkdev.c, blkdev_part.c).  lib/ holds string routines, sorting,
    formatted output and the kernel log that everything else calls.

    ** Conventions

    C integers are [Z] with the truncation of their width written at every
    operation that can leave it ([+u], [-u], [*u], [u32], ...).  Pointers are
    32-bit addresses, 0 being the null pointer.  Arrays are lists accessed
    with the total lookup and update of this file; a statement about an
    operation always includes that its indices are in range.  Mutable
    objects reached through pointers (heap block headers, slab headers, LRU
    links, wait queue links) are records in a finite map or table keyed by
    address or slot, so sharing is the sharing of the code.  Fallible
    operations return [option] or the error value of the C function together
    with the state the failing path leaves behind.

    A loop of the code whose bound is visible is a structural fixpoint on
    that bound.  Where the bound depends on the state the fixpoint takes
    fuel, and the theorem about it gives fuel that is enough: the number of
    heap blocks for the walks of the heap, the number of slots for LRU and
    wait-queue walks, the number of remaining bytes for ring transfers, the
    element count for sorting, the length of the range for the chunks of a user
    copy and the pages of the range for stack growth.  A run out of fuel is
    [None], and the theorems on the operation state that it does not happen.
    Three loops do not always end; theorems say exactly when ([grow_capacity_terminates_iff],
    [acquire_slot_terminates], [bcache_miss_diverges]).

    ** Files

    - [Prelude]: machine integers, arrays, bit operations, the tactics
      [zsolve], [bcase] and relatives, hint databases.
    - [Interfaces]: the classes [PageAllocator], [KAllocator] and
      [BlockDevice] with their laws: what the allocators and the disk driver
      promise to their clients.
    - [PmmCore] (mm/pmm_core.c): bitmap and reference counts; every operation
      refines the list of reference counts; instance of [PageAllocator].
    - [Kheap] (mm/kheap.c): the block list in memory; kmalloc is first fit
      with splitting, kfree coalesces; instance of [KAllocator].
    - [Slab], [SlabProps] (mm/slab.c): slab pages with embedded free chains
      over [PageAllocator] and the heap; the set of live objects as contract.
    - [Commit] (mm/commit.c): committed pages.
    - [Vma], [VmaSpec], [VmaProps] (mm/vma.c): the area table over
      [KAllocator]; the contract is a map from addresses to attributes.
    - [Memory], [Kstring] (lib/kstring.c): a byte memory and the memory and
      string routines on it, with alignment and overlap.
    - [Paging] (arch/x86/mm/paging.c, arch/x86/arch.c): page directories and
      tables as words of the byte memory, over [PageAllocator]; [PagingSpec]
      the bits of an entry and the hardware's walk, [PagingInv] the invariant
      [vm_ok] of all address spaces (which frame is owned how often),
      [PagingSteps] and [PagingOps] its preservation entry by entry,
      [PagingSpaces] creation and destruction, [PagingClone] and [PagingFork]
      the two passes of fork, [PagingProps] the theorems in terms of what user
      programs read ([user_load]), [PagingDemo] a machine with one process.
    - [Fault] (mm/fault.c): the page fault handler on [Paging] and the area
      table, with file reads as the interface [FileReader]; [FaultSpec] copy on
      write and lazy pages, [FaultOps] files and stacks, [FaultProps] the
      theorems.
    - [Uaccess] (proc/uaccess.c): checked copies from and to user memory, over
      [Fault]; [UaccessSpec] one page at a time, [UaccessProps] the copies.
    - [Mmsys] (proc/syscall/mem.c): brk, mmap, mmap2, munmap and mprotect on a
      state of memory, heap and calling process; [MmsysOps] counts the bytes
      charged to a process and how the area operations move the count,
      [MmsysPages] the page loops, [MmsysProps] and [MmsysBrk] the theorems,
      [MmsysDemo] concrete instances and three call sequences that go wrong.
    - [Ksort] (lib/ksort.c): heap sort in memory.
    - [Kprintf] (lib/kprintf.c): formatted output against a renderer.
    - [Klog] (lib/klog.c): the log ring and its rendering, on [Kprintf].
    - [Bcache], [BcacheSpec], [BcacheProps] (blk/bcache.c): slots, LRU list,
      write-back; the contract is a map from blocks to contents.
    - [Blkdev] (drivers/blkdev.c, blkdev_part.c): registry, MBR scan,
      partition I/O.
    - [Sched] (proc/sched.c, proc/task_group.c): the process table, wait
      queues, groups and every operation; [SchedInv] its invariant, [SchedAbs]
      the abstract transitions of processes, queues and groups, [SchedOps]
      and [SchedLife] preservation, [SchedProps] the theorems, [SchedSignal]
      the choice and delivery of signals.
    - [Ring], [Blocking]: ring buffers as queues, and processes that run in
      stretches between calls of sched_block: an arbitrary interleaving, wake
      ups, spurious wake ups by signals and re-initialised queues.
    - [Pty], [PtyProps] (proc/pty.c); [Pipe], [PipeProps] (proc/pipe.c and
      the pipe branches of proc/syscall/fd.c, helpers.c, proc/resources.c):
      both as clients of [Blocking].
    - [Tty], [TtyProps] (drivers/tty.c): the line discipline against an
      abstract terminal.
    - [Inputdev] (drivers/inputdev.c): the keyboard and mouse event rings.
    - [Vfs] (fs/vfs/core.c, mutation.c, lookup.c): registered file systems,
      the table of mounts, path normalisation, and the operations that route a
      path, over [KAllocator] and the operation tables of the file systems
      (classes [FsOps], [PseudoFs]); [VfsPath] paths as lists of components,
      [VfsSpec] the invariant [vfs_ok] and the relation [routes] of a path to
      its mount, [VfsProps] normalisation, routing and mutations, [VfsMount]
      heap use and mounting, [VfsDents] listings, [VfsDemo] a system with a
      root and a device file system.
    - [Bytes]: words in byte buffers; the class of a store of blocks and sectors
      whose reads and writes may fail, with its laws and the count of what
      failed, and the shadow of a store, on which every write succeeds.
    - [Dufs] (fs/fs.c): the on-disk records, bitmaps, block pointers through
      one and two tables, and file data of one mounted DUFS; [DufsSpec] the
      pointers of an inode as positions ([ptr], [owned]: no block has two
      owners and every owner's bit is set) and the steps that change nothing,
      [DufsGrow] allocation and growing a file, [DufsWrite] and [DufsFile] the
      loops, [DufsFree] releasing the blocks of an inode.
    - [DufsDir] (fs/fs.c): directory blocks, symlinks and path resolution;
      [DufsApi] the operations on paths; [DufsDirSpec] a directory as a finite
      map ([dir_is]), [DufsDirProps] lookup, insertion and removal against it.
    - [DufsSim], [DufsProps]: the files above reason on stores that take every
      write; [DufsSim] shows that an operation does on the shadow of a store what
      it does on the store, as long as nothing fails, and [DufsProps] has the
      theorems on files and directories for stores that fail; [DufsDemo] a disk
      in memory that fails by a plan.
    - [StoreCache]: the store that DUFS runs on, [Bcache] over a [BlockDevice],
      has the laws of [Bytes].

    ** What the theorems show

    Invariants: every state reached from boot by any sequence of scheduler
    calls is well formed (queues, running process, sleepers, group counts);
    the block device registry stays consistent; the area table stays sorted
    and disjoint; page tables and reference counts of all address spaces stay
    consistent under mapping, fork, faults, user copies, memory system calls
    and exit; the committed pages of a process are always those its areas and
    heap need.  Address spaces: a fork shows the child what the parent read; no
    process sees what another writes to a private page; faults and copies
    change nothing another process reads; munmap and brk remove exactly their
    pages.  Refinement: the page allocator, the heap, the terminal,
    the event rings and the buffer cache do on their arrays, links and
    indices what a list or map specification does.  Streams: pipes and
    pseudo-terminals deliver exactly the bytes written, in order, under every
    interleaving, and a sleeper of a pseudo-terminal never misses its wake
    up.  Liveness and termination: schedule runs every ready process within
    MAX_PROCS calls; victim search, heap walks and sorting end.  Paths: normalisation computes the
    component path, a path belongs to the deepest mount above it, the file
    system gets the rest of the path and nothing else, mounting keeps all other
    routes, listings show the directory as the mounts hide it, and no call loses
    a heap block.  DUFS: a write puts its bytes into the file and leaves every
    other byte and every other file alone, what was written is read back,
    truncation keeps the rest, freeing releases the blocks of one inode only,
    and directories are finite maps.  Each of these theorems covers failed reads
    and allocations ([starved]) with what is left behind, and says which results
    are possible when a write to the disk failed ([write_failed]); of the
    contents of the disk nothing is then said, since a failed write of a block may
    leave some of its sectors written and, by [bcache_write_through], a cached
    copy that differs from them.  Error
    behaviour: failing operations leave the stated state; the theorems named
    [..._deadlocks], [..._diverges], [..._wraps], [..._traps], [..._shares],
    [..._loses_page], [..._loses_name], [..._loses_bitmap], [..._keeps_name],
    [..._result_leaks], [clone_shares_empty_table], [shadow_fault_refused] and
    [pty_release_frees_open_pair] state what the code does where it departs
    from its comments or its purpose.

    ** Not modelled

    Boot code with the first page directory, the switch of the active
    directory, the TLB and the memory-type registers, the arm64 page tables,
    interrupt entry, context switch and device drivers under arch/ (assembly
    and device registers; the portable code sees them through the parameters
    above); process creation, exec and core dumps (they build register frames
    through arch/); of the file systems behind the mounts, fs/ext3,
    fs/procfs.c and fs/sysfs.c, which the switch sees as parameters, and the
    choice between the two static DUFS mounts with its table of operations;
    the system calls other than those on memory and pipes; the window manager, frame buffer and
    console output; user programs; tests and host tools.  Time, signals of
    other processes, user memory and disks are inputs or parameters of the
    operations that use them.  A stretch of kernel code between two sleeps is
    one step: interrupts and preemption inside it are not modelled. *)

From Stdlib Require Export ZArith Lia.
From stdpp Require Export numbers prelude gmap list.
Export ListNotations.

#[global] Open Scope Z_scope.

(** ** Machine integers

    A C [uint8_t] / [uint16_t] / [uint32_t] / [uint64_t] value is a [Z] in
    range; every operation that can leave the range is followed by the
    truncation written here. *)

Definition u8 (x : Z) : Z := x mod 2 ^ 8.
Definition u16 (x : Z) : Z := x mod 2 ^ 16.
Definition u32 (x : Z) : Z := x mod 2 ^ 32.
Definition u64 (x : Z) : Z := x mod 2 ^ 64.

(** Two's complement reading of a 32-bit word ([(int32_t)x]). *)
Definition s32 (x : Z) : Z := (x + 2 ^ 31) mod 2 ^ 32 - 2 ^ 31.

Definition UINT32_MAX : Z := 0xFFFFFFFF.
Definition PAGE_SIZE : Z := 4096.

(** [~x] on an [uint32_t]. *)
Definition not32 (x : Z) : Z := u32 (Z.lnot x).

Declare Scope cint_scope.
Delimit Scope cint_scope with cint.
Notation "x +u y" := (u32 (x + y)) (at level 50, left associativity) : cint_scope.
Notation "x -u y" := (u32 (x - y)) (at level 50, left associativity) : cint_scope.
Notation "x *u y" := (u32 (x * y)) (at level 40, left associativity) : cint_scope.
Notation "x &u y" := (Z.land x y) (at level 45, left associativity) : cint_scope.
Notation "x |u y" := (Z.lor x y) (at level 48, left associativity) : cint_scope.
#[global] Open Scope cint_scope.

Definition is_u8 (x : Z) : Prop := 0 <= x < 2 ^ 8.
Definition is_u16 (x : Z) : Prop := 0 <= x < 2 ^ 16.
Definition is_u32 (x : Z) : Prop := 0 <= x < 2 ^ 32.
Definition is_u64 (x : Z) : Prop := 0 <= x < 2 ^ 64.

#[global] Instance is_u8_dec x : Decision (is_u8 x) := _.
#[global] Instance is_u16_dec x : Decision (is_u16 x) := _.
#[global] Instance is_u32_dec x : Decision (is_u32 x) := _.
#[global] Instance is_u64_dec x : Decision (is_u64 x) := _.

(** ** Automation *)

Create HintDb cint.
Create Rewrite HintDb arr.

Ltac unfold_ints :=
  unfold is_u8, is_u16, is_u32, is_u64, UINT32_MAX, PAGE_SIZE in *.

(** Linear arithmetic with the definitions of the machine ranges, division and
    remainder made visible. *)
Ltac zsolve :=
  unfold_ints; unfold u8, u16, u32, u64, s32 in *;
  change (2 ^ 8) with 256 in *; change (2 ^ 16) with 65536 in *;
  change (2 ^ 31) with 2147483648 in *;
  change (2 ^ 32) with 4294967296 in *;
  change (2 ^ 64) with 18446744073709551616 in *;
  Z.div_mod_to_equations; lia.

(** Case split on the boolean comparisons of [Z] in the goal or hypotheses. *)
Ltac bcase :=
  repeat match goal with
  | |- context [?a =? ?b] => destruct (Z.eqb_spec a b)
  | |- context [?a <? ?b] => destruct (Z.ltb_spec a b)
  | |- context [?a <=? ?b] => destruct (Z.leb_spec a b)
  end.

(** The same, dropping impossible combinations as they appear. *)
Ltac bcase_lia :=
  repeat match goal with
  | |- context [?a =? ?b] => destruct (Z.eqb_spec a b); try (exfalso; lia)
  | |- context [?a <? ?b] => destruct (Z.ltb_spec a b); try (exfalso; lia)
  | |- context [?a <=? ?b] => destruct (Z.leb_spec a b); try (exfalso; lia)
  end; cbn [andb orb negb].

Ltac bcase_in H :=
  repeat match type of H with
  | context [?a =? ?b] => destruct (Z.eqb_spec a b)
  | context [?a <? ?b] => destruct (Z.ltb_spec a b)
  | context [?a <=? ?b] => destruct (Z.leb_spec a b)
  end.

(** Discharge [Forall P] on a concrete list. *)
Ltac forall_list := repeat first [apply Forall_nil_2 | apply Forall_cons_2].

(** Turn boolean hypotheses into propositions. *)
Ltac bprop :=
  repeat match goal with
  | H : (_ && _)%bool = true |- _ => apply andb_true_iff in H; destruct H
  | H : (_ || _)%bool = false |- _ => apply orb_false_iff in H; destruct H
  | H : negb _ = true |- _ => apply negb_true_iff in H
  | H : negb _ = false |- _ => apply negb_false_iff in H
  | H : (_ =? _) = true |- _ => apply Z.eqb_eq in H
  | H : (_ =? _) = false |- _ => apply Z.eqb_neq in H
  | H : (_ <? _) = true |- _ => apply Z.ltb_lt in H
  | H : (_ <? _) = false |- _ => apply Z.ltb_ge in H
  | H : (_ <=? _) = true |- _ => apply Z.leb_le in H
  | H : (_ <=? _) = false |- _ => apply Z.leb_gt in H
  end.

(** ** Facts on machine integers *)

Lemma u8_range x : is_u8 (u8 x).
Proof. unfold is_u8, u8. apply Z.mod_pos_bound. lia. Qed.
Lemma u32_range x : is_u32 (u32 x).
Proof. unfold is_u32, u32. apply Z.mod_pos_bound. lia. Qed.
Lemma u64_range x : is_u64 (u64 x).
Proof. unfold is_u64, u64. apply Z.mod_pos_bound. lia. Qed.
Lemma u8_small x : is_u8 x → u8 x = x.
Proof. unfold is_u8, u8. intros. by apply Z.mod_small. Qed.
Lemma u16_small x : is_u16 x → u16 x = x.
Proof. unfold is_u16, u16. intros. by apply Z.mod_small. Qed.
Lemma u32_small x : is_u32 x → u32 x = x.
Proof. unfold is_u32, u32. intros. by apply Z.mod_small. Qed.
Lemma u64_small x : is_u64 x → u64 x = x.
Proof. unfold is_u64, u64. intros. by apply Z.mod_small. Qed.

#[export] Hint Resolve u8_range u32_range u64_range : cint.

Lemma testbit_u8 x m : Z.testbit (u8 x) m = (m <? 8) && Z.testbit x m.
Proof. unfold u8. by rewrite Z.testbit_mod_pow2 by lia. Qed.
Lemma testbit_u32 x m : Z.testbit (u32 x) m = (m <? 32) && Z.testbit x m.
Proof. unfold u32. by rewrite Z.testbit_mod_pow2 by lia. Qed.

Lemma testbit_not32 x m :
  0 <= m → Z.testbit (not32 x) m = (m <? 32) && negb (Z.testbit x m).
Proof. intros. unfold not32. rewrite testbit_u32, Z.lnot_spec by done. done. Qed.

Lemma testbit_high n x m : 0 <= n → 0 <= x < 2 ^ n → n <= m → Z.testbit x m = false.
Proof.
  intros Hn Hx Hm. rewrite <-(Z.mod_small x (2 ^ n)) by done.
  rewrite Z.testbit_mod_pow2 by done. destruct (Z.ltb_spec m n); [lia|done].
Qed.

(** Clearing the low [k] bits of a word is rounding down to a multiple of
    [2^k]: the [x & ~mask] idiom. *)
Lemma land_not32_mask k x :
  0 <= k <= 32 → is_u32 x → Z.land x (not32 (Z.ones k)) = x - x mod 2 ^ k.
Proof.
  intros Hk Hx.
  replace (x - x mod 2 ^ k) with (Z.shiftl (Z.shiftr x k) k).
  2:{ rewrite Z.shiftl_mul_pow2, Z.shiftr_div_pow2 by lia.
      pose proof (Z.div_mod x (2 ^ k)). nia. }
  apply Z.bits_inj'. intros m Hm.
  rewrite Z.land_spec, testbit_not32, Z.testbit_ones_nonneg by lia.
  rewrite Z.shiftl_spec by done.
  destruct (Z.ltb_spec m k).
  - rewrite (Z.testbit_neg_r _ (m - k)) by lia. by rewrite !andb_false_r.
  - rewrite Z.shiftr_spec by lia. replace (m - k + k) with m by lia.
    destruct (Z.ltb_spec m 32); simpl; [by rewrite andb_true_r|].
    by rewrite (testbit_high 32 x m) by (unfold is_u32 in Hx; lia).
Qed.

Lemma land_bit_zero a k :
  0 <= k → (Z.land a (Z.shiftl 1 k) =? 0) = negb (Z.testbit a k).
Proof.
  intros Hk. rewrite Z.shiftl_1_l. destruct (Z.testbit a k) eqn:E; simpl.
  - apply Z.eqb_neq. intros H.
    assert (Z.testbit (Z.land a (2 ^ k)) k = false) as Hb by by rewrite H, Z.bits_0.
    rewrite Z.land_spec, E, Z.pow2_bits_true in Hb by done. done.
  - apply Z.eqb_eq. apply Z.bits_inj'. intros m Hm.
    rewrite Z.land_spec, Z.bits_0, Z.pow2_bits_eqb by done.
    destruct (Z.eqb_spec k m); subst; [by rewrite E|by rewrite andb_false_r].
Qed.

Lemma land_range n a b : 0 <= n → 0 <= a < 2 ^ n → 0 <= b → 0 <= Z.land a b < 2 ^ n.
Proof.
  intros Hn Ha Hb.
  replace (Z.land a b) with (Z.land a b mod 2 ^ n); [apply Z.mod_pos_bound; lia|].
  rewrite <-Z.land_ones, <-(Z.land_comm b a), <-Z.land_assoc, Z.land_ones by done.
  by rewrite Z.mod_small.
Qed.

Lemma lor_range n a b : 0 <= n → 0 <= a < 2 ^ n → 0 <= b < 2 ^ n → 0 <= Z.lor a b < 2 ^ n.
Proof.
  intros Hn Ha Hb.
  replace (Z.lor a b) with (Z.lor a b mod 2 ^ n); [apply Z.mod_pos_bound; lia|].
  rewrite <-Z.land_ones, Z.land_lor_distr_l, !Z.land_ones by done.
  by rewrite !Z.mod_small.
Qed.

Lemma lor_u8 a b : is_u8 a → is_u8 b → is_u8 (Z.lor a b).
Proof. apply lor_range; lia. Qed.
Lemma land_u8 a b : is_u8 a → 0 <= b → is_u8 (Z.land a b).
Proof. apply land_range; lia. Qed.
Lemma lor_u32 a b : is_u32 a → is_u32 b → is_u32 (Z.lor a b).
Proof. apply lor_range; lia. Qed.
Lemma land_u32 a b : is_u32 a → 0 <= b → is_u32 (Z.land a b).
Proof. apply land_range; lia. Qed.
#[export] Hint Resolve lor_u8 land_u8 lor_u32 land_u32 : cint.

(** ** Arrays

    A C array is a list read and written by index.  Reading past the end gives
    the default value and writing past the end changes nothing; the component
    invariants show that the code stays inside. *)

Definition arr_get {A} `{Inhabited A} (l : list A) (i : Z) : A := l !!! Z.to_nat i.
Definition arr_set {A} (l : list A) (i : Z) (x : A) : list A := <[Z.to_nat i := x]> l.
Notation "l .[ i ]" := (arr_get l i) (at level 1, left associativity, format "l .[ i ]") : cint_scope.
Notation "l .[ i <- x ]" := (arr_set l i x)
  (at level 1, left associativity, format "l .[ i  <-  x ]") : cint_scope.

Section arrays.
Context {A : Type} `{Inhabited A}.
Implicit Types (l : list A) (i j : Z) (x : A).

Lemma length_arr_set l i x : length (arr_set l i x) = length l.
Proof. apply length_insert. Qed.

Lemma arr_get_set_eq l i x :
  0 <= i < Z.of_nat (length l) → (arr_set l i x).[i] = x.
Proof.
  intros. unfold arr_get, arr_set. apply list_lookup_total_insert_eq. lia.
Qed.

Lemma arr_get_set_ne l i j x :
  0 <= i → 0 <= j → i ≠ j → (arr_set l i x).[j] = l.[j].
Proof.
  intros. unfold arr_get, arr_set. apply list_lookup_total_insert_ne. lia.
Qed.

Lemma arr_get_set l i j x :
  0 <= i < Z.of_nat (length l) → 0 <= j →
  (arr_set l i x).[j] = if i =? j then x else l.[j].
Proof.
  intros. bcase; subst; [by apply arr_get_set_eq|apply arr_get_set_ne; lia].
Qed.

Lemma arr_set_get l i : arr_set l i l.[i] = l.
Proof.
  unfold arr_set, arr_get. destruct (decide (Z.to_nat i < length l)%nat).
  - apply list_insert_id. by apply list_lookup_lookup_total_lt.
  - apply list_insert_ge. lia.
Qed.

Lemma arr_get_replicate n x i :
  0 <= i < Z.of_nat n → (replicate n x).[i] = x.
Proof. intros. unfold arr_get. apply lookup_total_replicate_2. lia. Qed.
End arrays.

#[export] Hint Rewrite @length_arr_set @length_replicate : arr.

(** ** Loops

    [for_loop i n body s] is [for (k = i; k < i + n; k++) s = body k s];
    [for_exit] is the same loop whose body may leave it with a value ([inl]),
    which is how [return] and [break] inside a loop are written. *)

Fixpoint for_loop {S} (i : Z) (n : nat) (body : Z → S → S) (s : S) : S :=
  match n with
  | O => s
  | Datatypes.S n => for_loop (i + 1) n body (body i s)
  end.

Fixpoint for_exit {S R} (i : Z) (n : nat) (body : Z → S → R + S) (s : S) : R + S :=
  match n with
  | O => inr s
  | Datatypes.S n =>
      match body i s with
      | inl r => inl r
      | inr s' => for_exit (i + 1) n body s'
      end
  end.

(** The invariant rule of a counted loop. *)
Lemma for_loop_inv {S} (I : Z → S → Prop) (body : Z → S → S) i n s :
  (∀ k s, i <= k < i + Z.of_nat n → I k s → I (k + 1) (body k s)) →
  I i s → I (i + Z.of_nat n) (for_loop i n body s).
Proof.
  revert i s. induction n as [|n IH]; intros i s Hstep Hi; simpl.
  - by rewrite Z.add_0_r.
  - replace (i + Z.of_nat (Datatypes.S n)) with (i + 1 + Z.of_nat n) by lia.
    apply IH; [|apply Hstep; [lia|done]].
    intros k s' Hk. apply Hstep. lia.
Qed.

(** The invariant rule of a counted loop with an exit: either some iteration
    leaves with a value that satisfies [Q], or the invariant holds at the end. *)
Lemma for_exit_inv {S R} (I : Z → S → Prop) (Q : R → Prop) (body : Z → S → R + S) i n s :
  (∀ k s, i <= k < i + Z.of_nat n → I k s →
     match body k s with inl r => Q r | inr s' => I (k + 1) s' end) →
  I i s →
  match for_exit i n body s with inl r => Q r | inr s' => I (i + Z.of_nat n) s' end.
Proof.
  revert i s. induction n as [|n IH]; intros i s Hstep Hi; simpl.
  - by rewrite Z.add_0_r.
  - pose proof (Hstep i s ltac:(lia) Hi) as Hb. destruct (body i s) as [r|s']; [done|].
    replace (i + Z.of_nat (Datatypes.S n)) with (i + 1 + Z.of_nat n) by lia.
    apply IH; [|done]. intros k s'' Hk. apply Hstep. lia.
Qed.

Lemma for_exit_ext {S R} (f g : Z → S → R + S) i n s :
  (∀ k s, f k s = g k s) → for_exit i n f s = for_exit i n g s.
Proof.
  intros E. revert i s. induction n as [|n IH]; intros i s; simpl; [done|].
  rewrite E. by destruct (g i s).
Qed.

Lemma for_exit_ext_in {S R} (f g : Z → S → R + S) i n s :
  (∀ k s, i <= k < i + Z.of_nat n → f k s = g k s) → for_exit i n f s = for_exit i n g s.
Proof.
  revert i s. induction n as [|n IH]; intros i s E; simpl; [done|].
  rewrite E by lia. destruct (g i s); [done|]. apply IH. intros. apply E. lia.
Qed.

Lemma for_loop_app {S} (body : Z → S → S) i n m s :
  for_loop i (n + m) body s = for_loop (i + Z.of_nat n) m body (for_loop i n body s).
Proof.
  revert i s. induction n as [|n IH]; intros i s; simpl; [by rewrite Z.add_0_r|].
  rewrite IH. f_equal. lia.
Qed.

(** ** Prefixes of arrays *)

Section prefixes.
Context {A : Type} `{Inhabited A}.
Implicit Types (l : list A) (x : A).

Lemma arr_get_lookup l i x : 0 <= i → l !! Z.to_nat i = Some x → l.[i] = x.
Proof. intros _ Hx. unfold arr_get. by apply list_lookup_total_correct. Qed.

Lemma arr_lookup l i : 0 <= i < Z.of_nat (length l) → l !! Z.to_nat i = Some l.[i].
Proof. intros Hi. unfold arr_get. apply list_lookup_lookup_total_lt. lia. Qed.

(** Arrays of the same length with the same entries are equal. *)
Lemma arr_ext l1 l2 :
  length l1 = length l2 → (∀ k, 0 <= k < Z.of_nat (length l1) → l1.[k] = l2.[k]) → l1 = l2.
Proof.
  intros Hl Hk. apply list_eq_same_length with (n := length l1); [done|done|].
  intros i x y Hi Hx Hy. specialize (Hk (Z.of_nat i) ltac:(lia)).
  unfold arr_get in Hk. rewrite Nat2Z.id in Hk.
  by rewrite (list_lookup_total_correct _ _ _ Hx), (list_lookup_total_correct _ _ _ Hy) in Hk.
Qed.

Lemma take_arr_set_ge l n i x :
  Z.of_nat n <= i → take n (arr_set l i x) = take n l.
Proof. intros. unfold arr_set. apply take_insert_ge. lia. Qed.

Lemma take_arr_snoc l i x :
  0 <= i < Z.of_nat (length l) →
  take (Z.to_nat (i + 1)) (arr_set l i x) = take (Z.to_nat i) l ++ [x].
Proof.
  intros Hi. replace (Z.to_nat (i + 1)) with (S (Z.to_nat i)) by lia.
  rewrite (take_S_r _ _ x); [by rewrite take_arr_set_ge by lia|].
  unfold arr_set. apply list_lookup_insert_eq. lia.
Qed.

Lemma take_arr_next l i :
  0 <= i < Z.of_nat (length l) →
  take (Z.to_nat (i + 1)) l = take (Z.to_nat i) l ++ [l.[i]].
Proof.
  intros Hi. replace (Z.to_nat (i + 1)) with (S (Z.to_nat i)) by lia.
  apply take_S_r. by apply arr_lookup.
Qed.

Lemma drop_arr_set_lt l n i x : 0 <= i < Z.of_nat n → drop n (arr_set l i x) = drop n l.
Proof. intros. unfold arr_set. apply drop_insert_lt. lia. Qed.
End prefixes.

(** A counted loop over an array prefix is a fold over the prefix, when the body
    only reads the array. *)
Lemma for_exit_fold {A S R} `{Inhabited A} (l : list A) (f : A → S → R + S) (n : nat) (s : S) :
  (n <= length l)%nat →
  for_exit 0 n (λ i, f l.[i]) s =
  foldl (λ acc a, match acc with inl r => inl r | inr s => f a s end) (inr s) (take n l).
Proof.
  intros Hn.
  assert (∀ (k : list A) r, foldl (λ acc a, match acc with inl r => inl r | inr s => f a s end)
            (inl r) k = inl r) as Hinl.
  { induction k; intros; simpl; auto. }
  enough (∀ m i s, (i + m <= length l)%nat →
    for_exit (Z.of_nat i) m (λ i, f l.[i]) s =
    foldl (λ acc a, match acc with inl r => inl r | inr s => f a s end) (inr s)
      (take m (drop i l))) as Hgen.
  { specialize (Hgen n 0%nat s ltac:(lia)). by rewrite drop_0 in Hgen. }
  induction m as [|m IH]; intros i s' Hi; simpl; [done|].
  destruct (lookup_lt_is_Some_2 l i) as [x Hx]; [lia|].
  rewrite (drop_S _ _ _ Hx). simpl.
  assert (l.[Z.of_nat i] = x) as -> by (apply arr_get_lookup; [lia|by rewrite Nat2Z.id]).
  destruct (f x s') as [r|s'']; [by rewrite Hinl|].
  replace (Z.of_nat i + 1) with (Z.of_nat (Datatypes.S i)) by lia. apply IH. lia.
Qed.
