(* ===== verification/Interfaces.v ===== *)
(** * What the components promise each other

    The memory-management clients (slab caches, fault handling, VMA tables) do
    not look inside the allocators they call.  Their theorems are stated over
    the classes below; [PmmCore] and [Kheap] give the instances. *)

From S2P Require Import Prelude.

(** The page allocator seen by its callers: [pmm_alloc_page],
    [pmm_incref], [pmm_decref] (= [pmm_free_page]), [pmm_refcount] and
    [pmm_free_page_count]. *)
Class PageAllocator (S : Type) := {
  pa_alloc : S → Z * S;
  pa_incref : S → Z → S;
  pa_decref : S → Z → S;
  pa_refcount : S → Z → Z;
  pa_free_count : S → Z;
}.

Definition same_page (a b : Z) : Prop := a / PAGE_SIZE = b / PAGE_SIZE.
#[global] Instance same_page_dec a b : Decision (same_page a b).
Proof. unfold same_page. apply _. Defined.

(** Dropping one reference: reserved (0xFF) and free (0) counts do not move. *)
Definition dec_count (c : Z) : Z := if (c =? 0xFF) || (c =? 0) then c else c - 1.
Definition inc_count (c : Z) : Z := if c =? 0xFF then c else c + 1.

Class PageAllocatorLaws (S : Type) `{PageAllocator S} (pa_inv : S → Prop)
    (pa_managed : S → Z → Prop) := {
  pa_alloc_inv s : pa_inv s → pa_inv (pa_alloc s).2;
  pa_alloc_managed s a : pa_managed (pa_alloc s).2 a ↔ pa_managed s a;
  pa_alloc_fail s : pa_inv s → (pa_alloc s).1 = 0 → (pa_alloc s).2 = s;
  pa_alloc_ok s a s' :
    pa_inv s → pa_alloc s = (a, s') → a ≠ 0 →
    is_u32 a ∧ a mod PAGE_SIZE = 0 ∧ pa_managed s a ∧
    pa_refcount s a = 0 ∧ pa_refcount s' a = 1 ∧
    ∀ b, is_u32 b → ¬ same_page a b → pa_refcount s' b = pa_refcount s b;
  pa_incref_inv s a : pa_inv s → is_u32 a → pa_inv (pa_incref s a);
  pa_decref_inv s a : pa_inv s → is_u32 a → pa_inv (pa_decref s a);
  pa_decref_managed s a b : is_u32 a → pa_inv s → pa_managed (pa_decref s a) b ↔ pa_managed s b;
  pa_incref_managed s a b : is_u32 a → pa_inv s → pa_managed (pa_incref s a) b ↔ pa_managed s b;
  pa_incref_count s a b :
    pa_inv s → is_u32 a → is_u32 b → pa_managed s b →
    pa_refcount (pa_incref s a) b =
      if decide (same_page a b) then inc_count (pa_refcount s b) else pa_refcount s b;
  pa_decref_count s a b :
    pa_inv s → is_u32 a → is_u32 b →
    pa_refcount (pa_decref s a) b =
      if decide (same_page a b) then dec_count (pa_refcount s b) else pa_refcount s b;
}.

(** The kernel heap seen by its callers: [kmalloc] and [kfree].  [ka_live] is
    the set of payload addresses handed out and not yet freed, [ka_room] the
    payload bytes behind one of them. *)
Class KAllocator (H : Type) := {
  ka_malloc : H → Z → Z * H;
  ka_free : H → Z → H;
}.

Class KAllocatorLaws (H : Type) `{KAllocator H} (ka_inv : H → Prop)
    (ka_live : H → gset Z) (ka_room : H → Z → Z) := {
  ka_malloc_inv h n : ka_inv h → is_u32 n → ka_inv (ka_malloc h n).2;
  ka_malloc_fail h n : ka_inv h → is_u32 n → (ka_malloc h n).1 = 0 → (ka_malloc h n).2 = h;
  ka_malloc_ok h n p h' :
    ka_inv h → is_u32 n → ka_malloc h n = (p, h') → p ≠ 0 →
    p ∉ ka_live h ∧ ka_live h' = {[p]} ∪ ka_live h ∧
    (n <= 2 ^ 32 - 4 → n <= ka_room h' p) ∧
    ∀ q, q ∈ ka_live h → ka_room h' q = ka_room h q;
  ka_free_null h : ka_free h 0 = h;
  ka_free_inv h p : ka_inv h → p ∈ ka_live h → ka_inv (ka_free h p);
  ka_free_live h p : ka_inv h → p ∈ ka_live h → ka_live (ka_free h p) = ka_live h ∖ {[p]};
  ka_free_room h p q :
    ka_inv h → p ∈ ka_live h → q ∈ ka_live h → q ≠ p → ka_room (ka_free h p) q = ka_room h q;
  ka_live_nonzero h : ka_inv h → 0 ∉ ka_live h;
}.

(** A block device seen by the block cache: the [read_sector] and
    [write_sector] entries of a [blkdev_ops_t], indexed by the address of the
    table.  A missing [write_sector] is [bd_can_write = false]; an operation
    that reports an error returns [None] or [false]. *)
Definition BLKDEV_SECTOR_SIZE : Z := 512.

Class BlockDevice (D : Type) := {
  bd_read : D → Z → Z → option (list Z);
  bd_can_write : D → Z → bool;
  bd_write : D → Z → Z → list Z → bool * D;
}.

(** [bd_media d dev lba] is what the platter holds.  A failed write may leave
    anything in its own sector and nothing else. *)
Class BlockDeviceLaws (D : Type) `{BlockDevice D} (bd_media : D → Z → Z → list Z) := {
  bd_media_length d dev lba : length (bd_media d dev lba) = Z.to_nat BLKDEV_SECTOR_SIZE;
  bd_read_ok d dev lba s : bd_read d dev lba = Some s → s = bd_media d dev lba;
  bd_write_ok d dev lba s d' :
    bd_write d dev lba s = (true, d') → length s = Z.to_nat BLKDEV_SECTOR_SIZE →
    bd_media d' dev lba = s;
  bd_write_frame d dev lba s dev' lba' :
    dev ≠ dev' ∨ lba ≠ lba' → bd_media (bd_write d dev lba s).2 dev' lba' = bd_media d dev' lba';
}.
