(* ===== verification/PmmCore.v ===== *)
(** * Physical page allocator core (kernel/mm/pmm_core.c)

    A bitmap with one bit per page (1 = not free) and an 8-bit reference count
    per page, in which [0xFF] means "reserved or saturated: never counted".
    A NULL storage pointer is the empty array (bound storage is never empty,
    since [max_pages > 0]); the [state] argument itself is never NULL. *)

From S2P Require Import Prelude Interfaces.

Record pmm_range := { base : Z; length_ : Z }.

Record pmm_core_state := mk_pmm {
  bitmap : list Z;
  refcounts : list Z;
  max_pages : Z;
}.

(** ** Operations *)

Definition pmm_core_has_storage (st : pmm_core_state) : bool :=
  negb (bool_decide (bitmap st = [])) && negb (bool_decide (refcounts st = [])) &&
  (0 <? max_pages st).

Definition pmm_core_bitmap_bytes (max_pages : Z) : Z := (max_pages +u 7) / 8.
Definition pmm_core_refcount_bytes (max_pages : Z) : Z := max_pages.

Definition pmm_core_bind_storage (st : pmm_core_state) (bm rc : list Z) (n : Z) : pmm_core_state :=
  mk_pmm bm rc n.

Definition pmm_core_bitmap_set (st : pmm_core_state) (page : Z) : pmm_core_state :=
  let i := page / 8 in
  mk_pmm ((bitmap st).[i <- (bitmap st).[i] |u u8 (Z.shiftl 1 (page mod 8))])
    (refcounts st) (max_pages st).

Definition pmm_core_bitmap_clear (st : pmm_core_state) (page : Z) : pmm_core_state :=
  let i := page / 8 in
  mk_pmm ((bitmap st).[i <- (bitmap st).[i] &u u8 (not32 (Z.shiftl 1 (page mod 8)))])
    (refcounts st) (max_pages st).

Definition pmm_core_bitmap_test (st : pmm_core_state) (page : Z) : bool :=
  negb ((bitmap st).[page / 8] &u u8 (Z.shiftl 1 (page mod 8)) =? 0).

Definition set_refcount (st : pmm_core_state) (page v : Z) : pmm_core_state :=
  mk_pmm (bitmap st) ((refcounts st).[page <- v]) (max_pages st).

Definition pmm_core_mark_page (used : bool) (page : Z) (st : pmm_core_state) : pmm_core_state :=
  let page32 := u32 page in
  if used then set_refcount (pmm_core_bitmap_set st page32) page32 0xFF
  else set_refcount (pmm_core_bitmap_clear st page32) page32 0.

Definition pmm_core_mark_range (st : pmm_core_state) (base length : Z) (used : bool) : pmm_core_state :=
  if negb (pmm_core_has_storage st) || (length =? 0) then st
  else
    let start_page := base / PAGE_SIZE in
    let end_page := u64 (base + length + PAGE_SIZE - 1) / PAGE_SIZE in
    if max_pages st <=? start_page then st
    else
      let end_page := if max_pages st <? end_page then max_pages st else end_page in
      for_loop start_page (Z.to_nat (end_page - start_page)) (pmm_core_mark_page used) st.

Definition pmm_core_mark_used st base length := pmm_core_mark_range st base length true.
Definition pmm_core_mark_free st base length := pmm_core_mark_range st base length false.

Definition pmm_core_init (st : pmm_core_state) (usable reserved : list pmm_range) : pmm_core_state :=
  if negb (pmm_core_has_storage st) then st
  else
    let bitmap_bytes := pmm_core_bitmap_bytes (max_pages st) in
    let bm := for_loop 0 (Z.to_nat bitmap_bytes) (λ i b, b.[i <- 0xFF]) (bitmap st) in
    let rc := for_loop 0 (Z.to_nat (max_pages st)) (λ i r, r.[i <- 0xFF]) (refcounts st) in
    let st := mk_pmm bm rc (max_pages st) in
    let st := foldl (λ st r, pmm_core_mark_range st (base r) (length_ r) false) st usable in
    foldl (λ st r, pmm_core_mark_range st (base r) (length_ r) true) st reserved.

(** The inner scan of one bitmap byte: [inl] is a [return] from the function. *)
Definition pmm_core_alloc_bit (i bit : Z) (st : pmm_core_state)
    : (Z * pmm_core_state) + pmm_core_state :=
  let page := (i *u 8) +u bit in
  if max_pages st <=? page then inl (0, st)
  else if (bitmap st).[i] &u Z.shiftl 1 bit =? 0 then
    inl (page *u PAGE_SIZE, set_refcount (pmm_core_bitmap_set st page) page 1)
  else inr st.

Definition pmm_core_alloc_byte (i : Z) (st : pmm_core_state)
    : (Z * pmm_core_state) + pmm_core_state :=
  if (bitmap st).[i] =? 0xFF then inr st
  else for_exit 0 8 (pmm_core_alloc_bit i) st.

Definition pmm_core_alloc_page (st : pmm_core_state) : Z * pmm_core_state :=
  if negb (pmm_core_has_storage st) then (0, st)
  else
    let bitmap_bytes := pmm_core_bitmap_bytes (max_pages st) in
    match for_exit 0 (Z.to_nat bitmap_bytes) pmm_core_alloc_byte st with
    | inl r => r
    | inr st => (0, st)
    end.

Definition pmm_core_incref (st : pmm_core_state) (phys_addr : Z) : pmm_core_state :=
  if negb (pmm_core_has_storage st) then st
  else
    let page := phys_addr / PAGE_SIZE in
    if (max_pages st <=? page) || ((refcounts st).[page] =? 0xFF) then st
    else
      let st := if (refcounts st).[page] =? 0 then pmm_core_bitmap_set st page else st in
      if (refcounts st).[page] <? 0xFF
      then set_refcount st page (u8 ((refcounts st).[page] + 1)) else st.

Definition pmm_core_decref (st : pmm_core_state) (phys_addr : Z) : pmm_core_state :=
  if negb (pmm_core_has_storage st) then st
  else
    let page := phys_addr / PAGE_SIZE in
    if (max_pages st <=? page) || ((refcounts st).[page] =? 0xFF) ||
       ((refcounts st).[page] =? 0) then st
    else
      let st := set_refcount st page (u8 ((refcounts st).[page] - 1)) in
      if (refcounts st).[page] =? 0 then pmm_core_bitmap_clear st page else st.

Definition pmm_core_free_page (st : pmm_core_state) (phys_addr : Z) : pmm_core_state :=
  pmm_core_decref st phys_addr.

Definition pmm_core_refcount (st : pmm_core_state) (phys_addr : Z) : Z :=
  if negb (pmm_core_has_storage st) then 0
  else
    let page := phys_addr / PAGE_SIZE in
    if max_pages st <=? page then 0 else (refcounts st).[page].

Definition pmm_core_free_page_count (st : pmm_core_state) : Z :=
  if negb (pmm_core_has_storage st) then 0
  else for_loop 0 (Z.to_nat (max_pages st))
         (λ page count, if pmm_core_bitmap_test st page then count else count +u 1) 0.

(** ** Well-formedness *)

Definition page_bit (st : pmm_core_state) (p : Z) : bool :=
  Z.testbit (bitmap st).[p / 8] (p mod 8).

(** Storage sized for [max_pages], bytes in range, and the bitmap telling the
    truth about the counts: a page's bit is set exactly when its count is not
    zero.  [max_pages <= 2^20] is what makes every page address a [uint32_t]. *)
Record pmm_wf (st : pmm_core_state) : Prop := {
  wf_max : 0 < max_pages st <= 2 ^ 20;
  wf_bitmap_len : Z.of_nat (length (bitmap st)) = (max_pages st + 7) / 8;
  wf_refcounts_len : Z.of_nat (length (refcounts st)) = max_pages st;
  wf_bitmap_u8 : ∀ i, 0 <= i < (max_pages st + 7) / 8 → is_u8 (bitmap st).[i];
  wf_refcounts_u8 : ∀ p, 0 <= p < max_pages st → is_u8 (refcounts st).[p];
  wf_agree : ∀ p, 0 <= p < max_pages st →
    page_bit st p = negb ((refcounts st).[p] =? 0);
}.

Lemma bitmap_bytes_small n : 0 < n <= 2 ^ 20 → pmm_core_bitmap_bytes n = (n + 7) / 8.
Proof. intros. unfold pmm_core_bitmap_bytes. rewrite u32_small; [done|zsolve]. Qed.

Lemma wf_has_storage st : pmm_wf st → pmm_core_has_storage st = true.
Proof.
  intros [Hm Hb Hr _ _ _]. unfold pmm_core_has_storage.
  rewrite !bool_decide_eq_false_2.
  - simpl. apply Z.ltb_lt; lia.
  - intros E. rewrite E in Hr. simpl in Hr. lia.
  - intros E. rewrite E in Hb. simpl in Hb. zsolve.
Qed.

Lemma page_byte_range n p : 0 <= p < n → 0 <= p / 8 < (n + 7) / 8.
Proof. intros. zsolve. Qed.

Lemma page_split p q : p / 8 = q / 8 → p mod 8 = q mod 8 → p = q.
Proof. intros. zsolve. Qed.

Lemma bit_mask_u8 k : 0 <= k < 8 → u8 (Z.shiftl 1 k) = Z.shiftl 1 k.
Proof.
  intros Hk. apply u8_small. unfold is_u8. rewrite Z.shiftl_1_l.
  split; [apply Z.pow_nonneg; lia|apply Z.pow_lt_mono_r; lia].
Qed.

Lemma mod8_range p : 0 <= p mod 8 < 8.
Proof. apply Z.mod_pos_bound. lia. Qed.
#[local] Hint Resolve mod8_range : cint.

Lemma bitmap_test_bit st p : pmm_core_bitmap_test st p = page_bit st p.
Proof.
  unfold pmm_core_bitmap_test, page_bit. pose proof (mod8_range p).
  rewrite bit_mask_u8, land_bit_zero, negb_involutive by lia. done.
Qed.

Lemma page_bit_set st p q :
  0 <= p < 8 * Z.of_nat (length (bitmap st)) → 0 <= q →
  page_bit (pmm_core_bitmap_set st p) q = (p =? q) || page_bit st q.
Proof.
  intros Hp Hq. unfold page_bit, pmm_core_bitmap_set; cbn [bitmap].
  pose proof (mod8_range p). pose proof (mod8_range q).
  rewrite arr_get_set by zsolve. rewrite bit_mask_u8 by done.
  destruct (Z.eqb_spec (p / 8) (q / 8)) as [E|E].
  - rewrite Z.lor_spec, Z.shiftl_1_l, Z.pow2_bits_eqb by lia. rewrite E, orb_comm. f_equal.
    destruct (Z.eqb_spec (p mod 8) (q mod 8)), (Z.eqb_spec p q); try done; subst; try done.
    exfalso. eauto using page_split.
  - destruct (Z.eqb_spec p q); [congruence|done].
Qed.

Lemma page_bit_clear st p q :
  0 <= p < 8 * Z.of_nat (length (bitmap st)) → 0 <= q →
  page_bit (pmm_core_bitmap_clear st p) q = negb (p =? q) && page_bit st q.
Proof.
  intros Hp Hq. unfold page_bit, pmm_core_bitmap_clear; cbn [bitmap].
  pose proof (mod8_range p). pose proof (mod8_range q).
  rewrite arr_get_set by zsolve.
  destruct (Z.eqb_spec (p / 8) (q / 8)) as [E|E].
  - rewrite Z.land_spec, testbit_u8, testbit_not32, Z.shiftl_1_l, Z.pow2_bits_eqb by lia.
    rewrite E. destruct (Z.ltb_spec (q mod 8) 8); [|lia].
    destruct (Z.ltb_spec (q mod 8) 32); [|lia]. cbn. rewrite andb_comm. f_equal.
    destruct (Z.eqb_spec (p mod 8) (q mod 8)), (Z.eqb_spec p q); try done; subst; try done.
    exfalso. eauto using page_split.
  - destruct (Z.eqb_spec p q); [congruence|done].
Qed.

(** The three ways in which the code changes one page: pin or take it (bit set,
    non-zero count), release it (bit cleared, zero count), or move its count
    between non-zero values. *)

Lemma take_page_wf st p v :
  pmm_wf st → 0 <= p < max_pages st → is_u8 v → v ≠ 0 →
  pmm_wf (set_refcount (pmm_core_bitmap_set st p) p v).
Proof.
  intros [Hm Hb Hr Hbu Hru Ha] Hp Hv Hv0.
  pose proof (page_byte_range _ _ Hp).
  split; cbn [max_pages bitmap refcounts set_refcount pmm_core_bitmap_set];
    rewrite ?length_arr_set; try done.
  - intros i Hi. rewrite arr_get_set by lia. bcase; [|by apply Hbu].
    apply lor_u8; [by apply Hbu|apply u8_range].
  - intros q Hq. rewrite arr_get_set by lia. bcase; [done|by apply Hru].
  - intros q Hq. change (page_bit (pmm_core_bitmap_set st p) q = negb ((refcounts st).[p<-v].[q] =? 0)).
    rewrite page_bit_set, arr_get_set by zsolve. rewrite Ha by done.
    destruct (Z.eqb_spec p q); [|done]. destruct (Z.eqb_spec v 0); done.
Qed.

Lemma release_page_wf st p :
  pmm_wf st → 0 <= p < max_pages st →
  pmm_wf (set_refcount (pmm_core_bitmap_clear st p) p 0).
Proof.
  intros [Hm Hb Hr Hbu Hru Ha] Hp.
  pose proof (page_byte_range _ _ Hp).
  split; cbn [max_pages bitmap refcounts set_refcount pmm_core_bitmap_clear];
    rewrite ?length_arr_set; try done.
  - intros i Hi. rewrite arr_get_set by lia. bcase; [|by apply Hbu].
    apply land_u8; [by apply Hbu|apply u8_range].
  - intros q Hq. rewrite arr_get_set by lia. bcase; [done|by apply Hru].
  - intros q Hq. change (page_bit (pmm_core_bitmap_clear st p) q = negb ((refcounts st).[p<-0].[q] =? 0)).
    rewrite page_bit_clear, arr_get_set by zsolve. rewrite Ha by done.
    destruct (Z.eqb_spec p q); done.
Qed.

Lemma recount_page_wf st p v :
  pmm_wf st → 0 <= p < max_pages st → is_u8 v → v ≠ 0 → (refcounts st).[p] ≠ 0 →
  pmm_wf (set_refcount st p v).
Proof.
  intros [Hm Hb Hr Hbu Hru Ha] Hp Hv Hv0 Hold.
  split; cbn [max_pages bitmap refcounts set_refcount]; rewrite ?length_arr_set; try done.
  - intros q Hq. rewrite arr_get_set by lia. bcase; [done|by apply Hru].
  - intros q Hq. change (page_bit st q = negb ((refcounts st).[p<-v].[q] =? 0)).
    rewrite arr_get_set, Ha by lia.
    destruct (Z.eqb_spec p q); [subst|done].
    destruct (Z.eqb_spec v 0), (Z.eqb_spec (refcounts st).[q] 0); done.
Qed.

#[export] Hint Resolve take_page_wf release_page_wf recount_page_wf wf_has_storage : cint.

(** ** Marking ranges *)

Definition mark_value (used : bool) : Z := if used then 0xFF else 0.

Lemma mark_page_spec used p st :
  pmm_wf st → 0 <= p < max_pages st →
  pmm_wf (pmm_core_mark_page used p st) ∧
  max_pages (pmm_core_mark_page used p st) = max_pages st ∧
  refcounts (pmm_core_mark_page used p st) = (refcounts st).[p <- mark_value used].
Proof.
  intros Hwf Hp. pose proof (wf_max _ Hwf). unfold pmm_core_mark_page.
  rewrite u32_small by zsolve.
  destruct used; (split; [|done]); eauto with cint.
  apply take_page_wf; try done.
Qed.

(** The pages a byte range touches, clipped to the managed pages. *)
Definition in_range (n base length p : Z) : bool :=
  (0 <? length) && (base / PAGE_SIZE <=? p) &&
  (p <? Z.min n ((base + length + PAGE_SIZE - 1) / PAGE_SIZE)).

Lemma mark_loop_spec used st i n :
  pmm_wf st → 0 <= i → i + Z.of_nat n <= max_pages st →
  let st' := for_loop i n (pmm_core_mark_page used) st in
  pmm_wf st' ∧ max_pages st' = max_pages st ∧
  ∀ q, 0 <= q → (refcounts st').[q] =
    if (i <=? q) && (q <? i + Z.of_nat n) then mark_value used else (refcounts st).[q].
Proof.
  intros Hwf Hi Hn st'.
  apply (for_loop_inv (λ k s, pmm_wf s ∧ max_pages s = max_pages st ∧
    ∀ q, 0 <= q → (refcounts s).[q] =
      if (i <=? q) && (q <? k) then mark_value used else (refcounts st).[q])).
  - intros k s Hk (Hs & Hmax & Hq).
    destruct (mark_page_spec used k s Hs ltac:(lia)) as (H1 & H2 & H3).
    split; [done|]. split; [congruence|]. intros q Hq0. rewrite H3.
    pose proof (wf_refcounts_len _ Hs). rewrite arr_get_set, Hq by lia.
    bcase; simpl; try done; lia.
  - split; [done|]. split; [done|]. intros q Hq. bcase; simpl; try done; lia.
Qed.

Lemma mark_range_spec st b len used :
  pmm_wf st → is_u32 b → is_u32 len →
  let st' := pmm_core_mark_range st b len used in
  pmm_wf st' ∧ max_pages st' = max_pages st ∧
  ∀ q, 0 <= q < max_pages st → (refcounts st').[q] =
    if in_range (max_pages st) b len q then mark_value used else (refcounts st).[q].
Proof.
  intros Hwf Hb Hlen. unfold pmm_core_mark_range, in_range.
  rewrite wf_has_storage by done. simpl.
  rewrite u64_small by zsolve.
  set (e := (b + len + PAGE_SIZE - 1) / PAGE_SIZE). set (s := b / PAGE_SIZE).
  assert (0 <= s) by (subst s; zsolve).
  destruct (Z.eqb_spec len 0) as [->|Hl0]; simpl; [done|].
  replace (0 <? len) with true by (symmetry; apply Z.ltb_lt; unfold is_u32 in *; lia). simpl.
  assert (s < e) by (subst s e; zsolve).
  pose proof (wf_max _ Hwf).
  destruct (Z.leb_spec (max_pages st) s) as [Hs|Hs].
  { split; [done|]. split; [done|]. intros q Hq. bcase; simpl; try done; lia. }
  replace (if max_pages st <? e then max_pages st else e) with (Z.min (max_pages st) e)
    by (bcase; lia).
  destruct (mark_loop_spec used st s (Z.to_nat (Z.min (max_pages st) e - s)))
    as (K1 & K2 & K3); try done; [lia|].
  split; [done|]. split; [done|]. intros q Hq. rewrite K3 by lia.
  replace (s + Z.of_nat (Z.to_nat (Z.min (max_pages st) e - s)))
    with (Z.min (max_pages st) e) by lia. done.
Qed.

(** ** Initialisation *)

Lemma fill_loop (l : list Z) v n :
  n = length l → for_loop 0 n (λ i b, b.[i <- v]) l = replicate n v.
Proof.
  intros ->. set (m := length l).
  enough (length (for_loop 0 m (λ i b, b.[i<-v]) l) = m ∧
    ∀ k, 0 <= k < 0 + Z.of_nat m → (for_loop 0 m (λ i b, b.[i<-v]) l).[k] = v) as [H1 H2].
  { apply list_eq_same_length with m; [by rewrite length_replicate|done|].
    intros k x y Hk Hx Hy. apply lookup_replicate in Hy as [-> _].
    specialize (H2 (Z.of_nat k) ltac:(lia)). unfold arr_get in H2.
    rewrite Nat2Z.id in H2. erewrite list_lookup_total_correct in H2 by done. done. }
  apply (for_loop_inv (λ k s, length s = m ∧ ∀ j, 0 <= j < k → s.[j] = v)).
  - intros k s Hk [Hs Hj]. rewrite length_arr_set. split; [done|].
    intros j Hj'. rewrite arr_get_set by lia. bcase; [done|apply Hj; lia].
  - split; [done|]. lia.
Qed.

Lemma init_blank_wf n :
  0 < n <= 2 ^ 20 →
  pmm_wf (mk_pmm (replicate (Z.to_nat ((n + 7) / 8)) 0xFF) (replicate (Z.to_nat n) 0xFF) n).
Proof.
  intros Hn. assert (0 <= (n + 7) / 8) by zsolve.
  split; cbn [max_pages bitmap refcounts]; rewrite ?length_replicate; try lia.
  - intros i Hi. rewrite arr_get_replicate by lia. zsolve.
  - intros p Hp. rewrite arr_get_replicate by lia. zsolve.
  - intros p Hp. unfold page_bit; cbn [bitmap].
    pose proof (page_byte_range _ _ Hp). rewrite !arr_get_replicate by lia.
    change 0xFF with (Z.ones 8). pose proof (mod8_range p).
    rewrite Z.ones_spec_low by lia. done.
Qed.

Definition range_ok (r : pmm_range) : Prop := is_u32 (base r) ∧ is_u32 (length_ r).

Lemma mark_ranges_spec rs used st :
  pmm_wf st → Forall range_ok rs →
  let st' := foldl (λ st r, pmm_core_mark_range st (base r) (length_ r) used) st rs in
  pmm_wf st' ∧ max_pages st' = max_pages st ∧
  ∀ q, 0 <= q < max_pages st → (refcounts st').[q] =
    if existsb (λ r, in_range (max_pages st) (base r) (length_ r) q) rs
    then mark_value used else (refcounts st).[q].
Proof.
  revert st. induction rs as [|r rs IH]; intros st Hwf Hrs; simpl; [done|].
  apply Forall_cons_1 in Hrs as [[Hb Hl] Hrs].
  destruct (mark_range_spec st (base r) (length_ r) used Hwf Hb Hl) as (H1 & H2 & H3).
  destruct (IH _ H1 Hrs) as (I1 & I2 & I3). split; [done|]. split; [congruence|].
  intros q Hq. rewrite I3, H2, H3 by congruence.
  destruct (existsb _ rs), (in_range _ _ _ _); done.
Qed.

Lemma init_spec bm rc n usable reserved :
  0 < n <= 2 ^ 20 → Z.of_nat (length bm) = (n + 7) / 8 → Z.of_nat (length rc) = n →
  Forall range_ok usable → Forall range_ok reserved →
  let st := pmm_core_init (mk_pmm bm rc n) usable reserved in
  pmm_wf st ∧ max_pages st = n ∧
  ∀ q, 0 <= q < n → (refcounts st).[q] =
    if existsb (λ r, in_range n (base r) (length_ r) q) reserved then 0xFF
    else if existsb (λ r, in_range n (base r) (length_ r) q) usable then 0 else 0xFF.
Proof.
  intros Hn Hbm Hrc Hu Hr. unfold pmm_core_init.
  assert (pmm_core_has_storage (mk_pmm bm rc n) = true) as ->.
  { unfold pmm_core_has_storage; cbn [bitmap refcounts max_pages].
    rewrite !bool_decide_eq_false_2; simpl; [apply Z.ltb_lt; lia|..];
      intros ->; simpl in *; zsolve. }
  cbn [bitmap refcounts max_pages negb]. rewrite bitmap_bytes_small by done.
  rewrite !fill_loop by lia.
  destruct (mark_ranges_spec usable false _ (init_blank_wf n Hn) Hu) as (H1 & H2 & H3).
  cbn [max_pages] in H2, H3.
  destruct (mark_ranges_spec reserved true _ H1 Hr) as (I1 & I2 & I3).
  split; [done|]. split; [congruence|]. intros q Hq.
  rewrite I3, H2 by (rewrite H2; done).
  destruct (existsb _ reserved); [done|]. rewrite H3 by done. cbn [refcounts].
  destruct (existsb _ usable); [done|]. rewrite arr_get_replicate by lia. done.
Qed.

(** ** Allocation: the bitmap scan is first fit over the counts *)

Definition first_free (rc : list Z) : option nat := fst <$> list_find (λ c, c = 0) rc.

Lemma first_free_None rc :
  (∀ p, 0 <= p < Z.of_nat (length rc) → rc.[p] ≠ 0) → first_free rc = None.
Proof.
  intros H. unfold first_free. replace (list_find _ rc) with (@None (nat * Z)); [done|].
  symmetry. apply list_find_None, Forall_lookup. intros i x Hx Hx0.
  apply (H (Z.of_nat i)); [apply lookup_lt_Some in Hx; lia|].
  unfold arr_get. rewrite Nat2Z.id. by rewrite (list_lookup_total_correct _ _ _ Hx).
Qed.

Lemma first_free_Some rc p :
  0 <= p < Z.of_nat (length rc) → rc.[p] = 0 → (∀ q, 0 <= q < p → rc.[q] ≠ 0) →
  first_free rc = Some (Z.to_nat p).
Proof.
  intros Hp H0 Hlt. unfold first_free.
  destruct (lookup_lt_is_Some_2 rc (Z.to_nat p)) as [x Hx]; [lia|].
  assert (x = 0) as ->.
  { unfold arr_get in H0. by rewrite (list_lookup_total_correct _ _ _ Hx) in H0. }
  assert (list_find (λ c, c = 0) rc = Some (Z.to_nat p, 0)) as ->; [|done].
  apply list_find_Some. split; [done|]. split; [done|].
  intros j y Hj Hjp Hy. apply (Hlt (Z.of_nat j)); [lia|].
  unfold arr_get. rewrite Nat2Z.id. by rewrite (list_lookup_total_correct _ _ _ Hj).
Qed.

(** What allocation does, read off the counts alone. *)
Definition alloc_outcome (st : pmm_core_state) (r : Z * pmm_core_state) : Prop :=
  match first_free (refcounts st) with
  | Some p => let p := Z.of_nat p in
      r = (p * PAGE_SIZE, set_refcount (pmm_core_bitmap_set st p) p 1)
  | None => r = (0, st)
  end.

Definition none_free_below (st : pmm_core_state) (n : Z) : Prop :=
  ∀ p, 0 <= p < n → p < max_pages st → (refcounts st).[p] ≠ 0.

Lemma page_bit_at st i bit :
  0 <= bit < 8 → page_bit st (i * 8 + bit) = Z.testbit (bitmap st).[i] bit.
Proof.
  intros Hb. unfold page_bit. f_equal; [f_equal|]; zsolve.
Qed.

Lemma alloc_bit_spec st i bit :
  pmm_wf st → 0 <= i < (max_pages st + 7) / 8 → 0 <= bit < 8 →
  none_free_below st (i * 8 + bit) →
  match pmm_core_alloc_bit i bit st with
  | inl r => alloc_outcome st r
  | inr s => s = st ∧ none_free_below st (i * 8 + (bit + 1))
  end.
Proof.
  intros Hwf Hi Hb Hnf. pose proof (wf_max _ Hwf). pose proof (wf_refcounts_len _ Hwf).
  unfold pmm_core_alloc_bit.
  rewrite (u32_small (i * 8)), u32_small by zsolve.
  set (p := i * 8 + bit) in *.
  destruct (Z.leb_spec (max_pages st) p) as [Hp|Hp].
  { unfold alloc_outcome. rewrite first_free_None; [done|].
    intros q Hq. apply Hnf; lia. }
  rewrite land_bit_zero, <-page_bit_at, wf_agree by (try done; lia).
  fold p. destruct (Z.eqb_spec (refcounts st).[p] 0) as [E|E]; simpl.
  - unfold alloc_outcome. rewrite (first_free_Some _ p) by (try done; try lia; intros; apply Hnf; lia).
    rewrite Z2Nat.id by lia. rewrite u32_small; [done|zsolve].
  - split; [done|]. intros q Hq Hqm. destruct (Z.eq_dec q p) as [->|]; [done|apply Hnf; lia].
Qed.

Lemma alloc_byte_spec st i :
  pmm_wf st → 0 <= i < (max_pages st + 7) / 8 → none_free_below st (i * 8) →
  match pmm_core_alloc_byte i st with
  | inl r => alloc_outcome st r
  | inr s => s = st ∧ none_free_below st ((i + 1) * 8)
  end.
Proof.
  intros Hwf Hi Hnf. unfold pmm_core_alloc_byte.
  destruct (Z.eqb_spec (bitmap st).[i] 0xFF) as [E|E].
  - split; [done|]. intros q Hq Hqm. destruct (Z.lt_ge_cases q (i * 8)); [apply Hnf; lia|].
    pose proof (wf_agree _ Hwf q ltac:(lia)) as Ha.
    replace q with (i * 8 + (q - i * 8)) in Ha at 1 by lia.
    rewrite page_bit_at, E in Ha by lia. change 0xFF with (Z.ones 8) in Ha.
    rewrite Z.ones_spec_low in Ha by lia. by destruct (Z.eqb_spec (refcounts st).[q] 0).
  - pose proof (for_exit_inv (λ k s, s = st ∧ none_free_below st (i * 8 + k))
      (alloc_outcome st) (pmm_core_alloc_bit i) 0 8 st) as Hloop.
    replace ((i + 1) * 8) with (i * 8 + (0 + Z.of_nat 8)) by lia.
    apply Hloop; [|split; [done|]; by rewrite Z.add_0_r].
    intros k s Hk [-> Hk']. apply alloc_bit_spec; try done.
Qed.

Lemma alloc_page_outcome st : pmm_wf st → alloc_outcome st (pmm_core_alloc_page st).
Proof.
  intros Hwf. pose proof (wf_max _ Hwf). unfold pmm_core_alloc_page.
  rewrite wf_has_storage, bitmap_bytes_small by done. simpl.
  pose proof (for_exit_inv (λ k s, s = st ∧ none_free_below st (k * 8))
    (alloc_outcome st) pmm_core_alloc_byte 0 (Z.to_nat ((max_pages st + 7) / 8)) st) as Hloop.
  assert (0 <= (max_pages st + 7) / 8) by zsolve.
  lapply Hloop; clear Hloop.
  2:{ intros k s Hk [-> Hk']. apply alloc_byte_spec; try done. lia. }
  intros Hloop. lapply Hloop; [clear Hloop|by split; [|intros p Hp; lia]].
  destruct (for_exit _ _ _ _) as [r|s]; [done|]. intros [-> Hnf].
  unfold alloc_outcome. rewrite first_free_None; [done|].
  intros p Hp. rewrite wf_refcounts_len in Hp by done. apply Hnf; zsolve.
Qed.

(** ** Reference counting *)

Definition spec_incref (rc : list Z) (p : Z) : list Z :=
  if (p <? Z.of_nat (length rc)) && negb (rc.[p] =? 0xFF) then rc.[p <- rc.[p] + 1] else rc.

Definition spec_decref (rc : list Z) (p : Z) : list Z :=
  if (p <? Z.of_nat (length rc)) && negb (rc.[p] =? 0xFF) && negb (rc.[p] =? 0)
  then rc.[p <- rc.[p] - 1] else rc.

Lemma incref_spec st a :
  pmm_wf st → is_u32 a →
  pmm_wf (pmm_core_incref st a) ∧ max_pages (pmm_core_incref st a) = max_pages st ∧
  refcounts (pmm_core_incref st a) = spec_incref (refcounts st) (a / PAGE_SIZE).
Proof.
  intros Hwf Ha. unfold pmm_core_incref, spec_incref.
  rewrite wf_has_storage, wf_refcounts_len by done. simpl. set (p := a / PAGE_SIZE).
  assert (0 <= p) by (subst p; zsolve).
  destruct (Z.leb_spec (max_pages st) p), (Z.ltb_spec p (max_pages st)); try lia; simpl; [done|].
  pose proof (wf_refcounts_u8 _ Hwf p ltac:(lia)).
  destruct (Z.eqb_spec (refcounts st).[p] 0xFF) as [E|E]; simpl; [done|].
  destruct (Z.eqb_spec (refcounts st).[p] 0) as [E0|E0]; cbn [refcounts pmm_core_bitmap_set];
    (destruct (Z.ltb_spec (refcounts st).[p] 0xFF); [|zsolve]);
    rewrite u8_small by zsolve; (split; [|done]).
  - apply take_page_wf; try done; zsolve.
  - apply recount_page_wf; try done; zsolve.
Qed.

Lemma decref_spec st a :
  pmm_wf st → is_u32 a →
  pmm_wf (pmm_core_decref st a) ∧ max_pages (pmm_core_decref st a) = max_pages st ∧
  refcounts (pmm_core_decref st a) = spec_decref (refcounts st) (a / PAGE_SIZE).
Proof.
  intros Hwf Ha. unfold pmm_core_decref, spec_decref.
  rewrite wf_has_storage, wf_refcounts_len by done. simpl. set (p := a / PAGE_SIZE).
  assert (0 <= p) by (subst p; zsolve).
  destruct (Z.leb_spec (max_pages st) p), (Z.ltb_spec p (max_pages st)); try lia; simpl; [done|].
  pose proof (wf_refcounts_u8 _ Hwf p ltac:(lia)).
  destruct (Z.eqb_spec (refcounts st).[p] 0xFF) as [E|E]; simpl; [done|].
  destruct (Z.eqb_spec (refcounts st).[p] 0) as [E0|E0]; simpl; [done|].
  pose proof (wf_refcounts_len _ Hwf).
  rewrite u8_small by zsolve. rewrite arr_get_set_eq by lia.
  destruct (Z.eqb_spec ((refcounts st).[p] - 1) 0) as [E1|E1]; (split; [|done]).
  - rewrite E1. by apply (release_page_wf st p).
  - apply recount_page_wf; try done. zsolve.
Qed.

(** ** Counting free pages *)

Definition count_free (rc : list Z) : nat := length (filter (λ c, c = 0) rc).

Lemma free_page_count_spec st :
  pmm_wf st → pmm_core_free_page_count st = Z.of_nat (count_free (refcounts st)).
Proof.
  intros Hwf. unfold pmm_core_free_page_count, count_free.
  rewrite wf_has_storage by done. cbn [negb].
  pose proof (wf_refcounts_len _ Hwf) as Hlen. pose proof (wf_max _ Hwf) as Hmax.
  rewrite <-Hlen, Nat2Z.id.
  pose proof (for_loop_inv
    (λ k c, c = Z.of_nat (length (filter (λ c, c = 0) (take (Z.to_nat k) (refcounts st)))))
    (λ page count, if pmm_core_bitmap_test st page then count else count +u 1)
    0 (length (refcounts st)) 0) as Hloop. cbv beta in Hloop.
  rewrite Hloop; [by rewrite Z.add_0_l, Nat2Z.id, firstn_all| |done].
  intros k s Hk ->. rewrite bitmap_test_bit, wf_agree by (try done; lia).
  destruct (lookup_lt_is_Some_2 (refcounts st) (Z.to_nat k)) as [x Hx]; [lia|].
  replace (Z.to_nat (k + 1)) with (S (Z.to_nat k)) by lia.
  rewrite (take_S_r _ _ _ Hx), filter_app, length_app.
  unfold arr_get. rewrite (list_lookup_total_correct _ _ _ Hx).
  rewrite filter_cons, filter_nil.
  pose proof (length_filter (λ c, c = 0) (take (Z.to_nat k) (refcounts st))).
  rewrite length_take in *.
  destruct (Z.eqb_spec x 0); case_decide; try done; simpl; [|lia].
  rewrite u32_small; [lia|zsolve].
Qed.

(** ** The abstract allocator

    The counts alone are the specification state: [0] is free, [0xFF] is
    reserved, anything else is the number of users of the page. *)

Inductive pmm_op :=
  | OpAlloc
  | OpIncref (a : Z)
  | OpDecref (a : Z)
  | OpFree (a : Z)
  | OpMarkUsed (b len : Z)
  | OpMarkFree (b len : Z).

Definition pmm_op_ok (o : pmm_op) : Prop :=
  match o with
  | OpAlloc => True
  | OpIncref a | OpDecref a | OpFree a => is_u32 a
  | OpMarkUsed b l | OpMarkFree b l => is_u32 b ∧ is_u32 l
  end.

Definition pmm_exec (o : pmm_op) (st : pmm_core_state) : pmm_core_state :=
  match o with
  | OpAlloc => (pmm_core_alloc_page st).2
  | OpIncref a => pmm_core_incref st a
  | OpDecref a => pmm_core_decref st a
  | OpFree a => pmm_core_free_page st a
  | OpMarkUsed b l => pmm_core_mark_used st b l
  | OpMarkFree b l => pmm_core_mark_free st b l
  end.

Definition spec_mark (rc : list Z) (b l v : Z) : list Z :=
  imap (λ q c, if in_range (Z.of_nat (length rc)) b l (Z.of_nat q) then v else c) rc.

Definition spec_alloc (rc : list Z) : list Z :=
  match first_free rc with Some p => <[p := 1]> rc | None => rc end.

Definition spec_exec (o : pmm_op) (rc : list Z) : list Z :=
  match o with
  | OpAlloc => spec_alloc rc
  | OpIncref a => spec_incref rc (a / PAGE_SIZE)
  | OpDecref a | OpFree a => spec_decref rc (a / PAGE_SIZE)
  | OpMarkUsed b l => spec_mark rc b l 0xFF
  | OpMarkFree b l => spec_mark rc b l 0
  end.

Lemma first_free_bound rc p :
  first_free rc = Some p → (p < length rc)%nat ∧ rc !! p = Some 0 ∧
    ∀ q c, (q < p)%nat → rc !! q = Some c → c ≠ 0.
Proof.
  unfold first_free. intros H. apply fmap_Some in H as ([i x] & Hf & ->).
  apply list_find_Some in Hf as (Hx & -> & Hlt). simpl.
  split; [by apply lookup_lt_Some in Hx|]. split; [done|]. eauto.
Qed.

Lemma mark_refines st b l used :
  pmm_wf st → is_u32 b → is_u32 l →
  refcounts (pmm_core_mark_range st b l used) = spec_mark (refcounts st) b l (mark_value used).
Proof.
  intros Hwf Hb Hl. destruct (mark_range_spec st b l used Hwf Hb Hl) as (H1 & H2 & H3).
  pose proof (wf_refcounts_len _ Hwf) as L1. pose proof (wf_refcounts_len _ H1) as L2.
  unfold spec_mark. apply list_eq_same_length with (length (refcounts st));
    [rewrite length_imap; lia|lia|].
  intros i x y Hi Hx Hy. rewrite list_lookup_imap in Hy.
  apply fmap_Some in Hy as (c & Hc & ->).
  specialize (H3 (Z.of_nat i) ltac:(lia)). unfold arr_get in H3. rewrite Nat2Z.id in H3.
  rewrite (list_lookup_total_correct _ _ _ Hx), (list_lookup_total_correct _ _ _ Hc) in H3.
  rewrite L1. done.
Qed.

Lemma pmm_exec_wf o st :
  pmm_wf st → pmm_op_ok o →
  pmm_wf (pmm_exec o st) ∧ max_pages (pmm_exec o st) = max_pages st.
Proof.
  intros Hwf Ho. destruct o; simpl in *.
  - pose proof (alloc_page_outcome st Hwf) as Ha. unfold alloc_outcome in Ha.
    destruct (first_free (refcounts st)) as [p|] eqn:E; rewrite Ha; [|done].
    apply first_free_bound in E as (Hp & _). pose proof (wf_refcounts_len _ Hwf).
    split; [|done]. apply take_page_wf; try done. lia.
  - destruct (incref_spec st a) as (? & ? & ?); done.
  - destruct (decref_spec st a) as (? & ? & ?); done.
  - destruct (decref_spec st a) as (? & ? & ?); done.
  - destruct (mark_range_spec st b len true) as (? & ? & ?); tauto.
  - destruct (mark_range_spec st b len false) as (? & ? & ?); tauto.
Qed.

Lemma pmm_exec_refines o st :
  pmm_wf st → pmm_op_ok o → refcounts (pmm_exec o st) = spec_exec o (refcounts st).
Proof.
  intros Hwf Ho. destruct o; simpl in *.
  - pose proof (alloc_page_outcome st Hwf) as Ha. unfold alloc_outcome, spec_alloc in *.
    destruct (first_free (refcounts st)) as [p|]; rewrite Ha; [|done].
    simpl. unfold arr_set. by rewrite Nat2Z.id.
  - destruct (incref_spec st a) as (? & ? & ?); done.
  - destruct (decref_spec st a) as (? & ? & ?); done.
  - destruct (decref_spec st a) as (? & ? & ?); done.
  - apply (mark_refines st b len true); tauto.
  - apply (mark_refines st b len false); tauto.
Qed.

Lemma pmm_run_refines os st :
  pmm_wf st → Forall pmm_op_ok os →
  pmm_wf (foldl (flip pmm_exec) st os) ∧
  refcounts (foldl (flip pmm_exec) st os) = foldl (flip spec_exec) (refcounts st) os.
Proof.
  revert st. induction os as [|o os IH]; intros st Hwf Hos; simpl; [done|].
  apply Forall_cons in Hos as [Ho Hos].
  destruct (pmm_exec_wf o st Hwf Ho) as [H1 _].
  change (flip spec_exec (refcounts st) o) with (spec_exec o (refcounts st)).
  rewrite <-pmm_exec_refines by done. by apply IH.
Qed.

(** ** The interface instance *)

#[export] Instance pmm_page_allocator : PageAllocator pmm_core_state := {
  pa_alloc := pmm_core_alloc_page;
  pa_incref := pmm_core_incref;
  pa_decref := pmm_core_decref;
  pa_refcount := pmm_core_refcount;
  pa_free_count := pmm_core_free_page_count;
}.

(** Page 0 must be reserved: an allocation that returns address 0 is the
    failure value. *)
Definition pmm_inv (st : pmm_core_state) : Prop :=
  pmm_wf st ∧ (refcounts st).[0] = 0xFF.

Definition pmm_managed (st : pmm_core_state) (a : Z) : Prop := a / PAGE_SIZE < max_pages st.

Lemma refcount_at st a :
  pmm_wf st → pmm_core_refcount st a =
    if a / PAGE_SIZE <? max_pages st then (refcounts st).[a / PAGE_SIZE] else 0.
Proof.
  intros. unfold pmm_core_refcount. rewrite wf_has_storage by done. simpl.
  bcase; done || lia.
Qed.

Lemma page_of_mul p : p * PAGE_SIZE / PAGE_SIZE = p.
Proof. apply Z.div_mul. done. Qed.

Lemma alloc_ok_page st a st' :
  pmm_inv st → pmm_core_alloc_page st = (a, st') → a ≠ 0 →
  ∃ p, a = p * PAGE_SIZE ∧ 0 < p < max_pages st ∧ (refcounts st).[p] = 0 ∧
    st' = set_refcount (pmm_core_bitmap_set st p) p 1.
Proof.
  intros [Hwf H0] E Ha. pose proof (alloc_page_outcome st Hwf) as Ho.
  unfold alloc_outcome in Ho. rewrite E in Ho.
  destruct (first_free (refcounts st)) as [p|] eqn:Ef; [|by inversion Ho].
  injection Ho as -> ->. apply first_free_bound in Ef as (Hp & Hp0 & _).
  pose proof (wf_refcounts_len _ Hwf). exists (Z.of_nat p). split; [done|].
  split; [zsolve|]. split; [|done].
  unfold arr_get. by rewrite Nat2Z.id, (list_lookup_total_correct _ _ _ Hp0).
Qed.

Lemma alloc_null_unchanged st :
  pmm_inv st → (pmm_core_alloc_page st).1 = 0 → (pmm_core_alloc_page st).2 = st.
Proof.
  intros [Hwf H0] Ha. pose proof (alloc_page_outcome st Hwf) as Ho.
  unfold alloc_outcome in Ho. destruct (first_free (refcounts st)) as [p|] eqn:Ef;
    rewrite Ho in Ha |- *; simpl in *; [|done].
  apply first_free_bound in Ef as (Hp & Hp0 & _).
  assert (p = 0%nat) as -> by zsolve.
  unfold arr_get in H0. rewrite (list_lookup_total_correct _ _ _ Hp0) in H0. done.
Qed.

Lemma decref_get st a q :
  pmm_wf st → is_u32 a → 0 <= q < max_pages st →
  (refcounts (pmm_core_decref st a)).[q] =
    if a / PAGE_SIZE =? q then dec_count (refcounts st).[q] else (refcounts st).[q].
Proof.
  intros Hwf Ha Hq. destruct (decref_spec st a Hwf Ha) as (_ & _ & ->).
  unfold spec_decref, dec_count. pose proof (wf_refcounts_len _ Hwf) as Hl. rewrite Hl.
  set (p := a / PAGE_SIZE). assert (0 <= p) by (subst p; zsolve).
  destruct (Z.eqb_spec p q) as [->|Hne].
  - destruct (Z.ltb_spec q (max_pages st)); [|lia].
    destruct (Z.eqb_spec (refcounts st).[q] 0xFF), (Z.eqb_spec (refcounts st).[q] 0); simpl; try done.
    by rewrite arr_get_set_eq by lia.
  - destruct (_ && _); [|done]. by rewrite arr_get_set_ne by lia.
Qed.

Lemma incref_get st a q :
  pmm_wf st → is_u32 a → 0 <= q < max_pages st →
  (refcounts (pmm_core_incref st a)).[q] =
    if a / PAGE_SIZE =? q then inc_count (refcounts st).[q] else (refcounts st).[q].
Proof.
  intros Hwf Ha Hq. destruct (incref_spec st a Hwf Ha) as (_ & _ & ->).
  unfold spec_incref, inc_count. pose proof (wf_refcounts_len _ Hwf) as Hl. rewrite Hl.
  set (p := a / PAGE_SIZE). assert (0 <= p) by (subst p; zsolve).
  destruct (Z.eqb_spec p q) as [->|Hne].
  - destruct (Z.ltb_spec q (max_pages st)); [|lia].
    destruct (Z.eqb_spec (refcounts st).[q] 0xFF); simpl; [done|].
    by rewrite arr_get_set_eq by lia.
  - destruct (_ && _); [|done]. by rewrite arr_get_set_ne by lia.
Qed.

#[export] Instance pmm_page_allocator_laws :
  PageAllocatorLaws pmm_core_state pmm_inv pmm_managed.
Proof.
  split; simpl.
  - intros st [Hwf H0]. destruct (pmm_exec_wf OpAlloc st Hwf I) as [H1 H2].
    destruct (Z.eq_dec (pmm_core_alloc_page st).1 0) as [E|E].
    { by rewrite alloc_null_unchanged. }
    destruct (alloc_ok_page st _ _ (conj Hwf H0) (surjective_pairing _) E)
      as (p & _ & Hp & _ & Hst). split; [done|]. rewrite Hst. simpl.
    by rewrite arr_get_set_ne by lia.
  - intros st a. unfold pmm_managed, pmm_core_alloc_page.
    enough (max_pages (pmm_core_alloc_page st).2 = max_pages st) as H.
    { unfold pmm_core_alloc_page in H. by rewrite H. }
    unfold pmm_core_alloc_page. destruct (pmm_core_has_storage st); [simpl|done].
    pose proof (for_exit_inv (λ _ s, max_pages s = max_pages st)
      (λ r, max_pages r.2 = max_pages st) pmm_core_alloc_byte 0
      (Z.to_nat (pmm_core_bitmap_bytes (max_pages st))) st) as Hl.
    lapply Hl; clear Hl.
    { intros Hl. specialize (Hl eq_refl). destruct (for_exit _ _ _ _); done. }
    intros k s _ Hs. unfold pmm_core_alloc_byte. destruct (_ =? _); [done|].
    apply (for_exit_inv (λ _ s, max_pages s = max_pages st)
      (λ r, max_pages r.2 = max_pages st) (pmm_core_alloc_bit k) 0 8 s); [|done].
    intros j s' _ Hs'. unfold pmm_core_alloc_bit. by repeat case_match; simplify_eq/=.
  - by apply alloc_null_unchanged.
  - intros st a st' Hinv E Ha.
    destruct (alloc_ok_page st a st' Hinv E Ha) as (p & -> & Hp & Hp0 & ->).
    destruct Hinv as [Hwf H0]. pose proof (wf_max _ Hwf). pose proof (wf_refcounts_len _ Hwf).
    assert (pmm_wf (set_refcount (pmm_core_bitmap_set st p) p 1)) as Hwf'
      by (apply take_page_wf; try done; lia).
    rewrite !refcount_at, page_of_mul by done. cbn [max_pages refcounts set_refcount pmm_core_bitmap_set].
    destruct (Z.ltb_spec p (max_pages st)); [|lia]. rewrite arr_get_set_eq by lia.
    split; [zsolve|]. split; [apply Z.mod_mul; done|].
    split; [unfold pmm_managed; by rewrite page_of_mul|]. split; [done|]. split; [done|].
    intros b Hb Hne. rewrite !refcount_at by done.
    cbn [max_pages refcounts set_refcount pmm_core_bitmap_set].
    unfold same_page in Hne. rewrite page_of_mul in Hne. rewrite arr_get_set_ne; [done|lia|zsolve|done].
  - intros st a [Hwf H0] Ha. destruct (incref_spec st a Hwf Ha) as (H1 & _). split; [done|].
    pose proof (wf_max _ Hwf). rewrite incref_get, H0 by (done || lia). by case_match.
  - intros st a [Hwf H0] Ha. destruct (decref_spec st a Hwf Ha) as (H1 & _). split; [done|].
    pose proof (wf_max _ Hwf). rewrite decref_get, H0 by (done || lia). by case_match.
  - intros st a b Ha [Hwf _]. unfold pmm_managed.
    destruct (decref_spec st a Hwf Ha) as (_ & -> & _). done.
  - intros st a b Ha [Hwf _]. unfold pmm_managed.
    destruct (incref_spec st a Hwf Ha) as (_ & -> & _). done.
  - intros st a b [Hwf _] Ha Hb Hm. unfold pmm_managed, same_page in *.
    destruct (incref_spec st a Hwf Ha) as (H1 & H2 & _). rewrite !refcount_at by done.
    rewrite H2. destruct (Z.ltb_spec (b / PAGE_SIZE) (max_pages st)); [|lia].
    rewrite incref_get by (done || zsolve). case_decide; case_match; bprop; done.
  - intros st a b [Hwf _] Ha Hb. unfold same_page in *.
    destruct (decref_spec st a Hwf Ha) as (H1 & H2 & _). rewrite !refcount_at by done.
    rewrite H2. destruct (Z.ltb_spec (b / PAGE_SIZE) (max_pages st)).
    + rewrite decref_get by (done || zsolve). case_decide; case_match; bprop; done.
    + by case_decide.
Qed.

Lemma count_free_insert rc (p : nat) (c v : Z) :
  rc !! p = Some c →
  (count_free (<[p := v]> rc) + (if decide (c = 0%Z) then 1 else 0) =
   count_free rc + (if decide (v = 0%Z) then 1 else 0))%nat.
Proof.
  intros Hp. pose proof (lookup_lt_Some _ _ _ Hp). unfold count_free.
  rewrite insert_take_drop by done. rewrite <-(take_drop_middle rc p c Hp) at 3.
  rewrite !filter_app, !filter_cons, !length_app. repeat case_decide; simpl; lia.
Qed.

(** ** Properties *)

(** C11: after [pmm_core_init] on storage of the right size, every sequence of
    allocator calls keeps the bitmap and the reference counts consistent (a
    page's bit is set exactly when its count is non-zero) and changes the
    counts exactly as the abstract allocator, which has no bitmap, does. *)
Theorem pmm_refines_spec bm rc n usable reserved os :
  0 < n <= 2 ^ 20 →
  Z.of_nat (length bm) = pmm_core_bitmap_bytes n →
  Z.of_nat (length rc) = pmm_core_refcount_bytes n →
  Forall range_ok usable → Forall range_ok reserved → Forall pmm_op_ok os →
  let st := pmm_core_init (pmm_core_bind_storage (mk_pmm [] [] 0) bm rc n) usable reserved in
  let st' := foldl (flip pmm_exec) st os in
  pmm_wf st' ∧ refcounts st' = foldl (flip spec_exec) (refcounts st) os.
Proof.
  intros Hn Hb Hr Hu Hre Hos. rewrite bitmap_bytes_small in Hb by done.
  destruct (init_spec bm rc n usable reserved Hn Hb Hr Hu Hre) as (Hwf & _ & _).
  by apply pmm_run_refines.
Qed.

(** A 13-page machine whose pages 1 to 10 are usable and page 2 reserved. *)
Definition demo_pmm : pmm_core_state :=
  pmm_core_init (pmm_core_bind_storage (mk_pmm [] [] 0) (replicate 2 0) (replicate 13 0) 13)
    [ {| base := 4096; length_ := 40960 |} ] [ {| base := 8192; length_ := 1 |} ].

Lemma demo_pmm_inv : pmm_inv demo_pmm.
Proof.
  split; [|done].
  destruct (init_spec (replicate 2 0) (replicate 13 0) 13
    [ {| base := 4096; length_ := 40960 |} ] [ {| base := 8192; length_ := 1 |} ]) as [H _];
    [lia|done|done|forall_list; split; simpl; zsolve|forall_list; split; simpl; zsolve|exact H].
Qed.

Lemma pmm_refines_spec_witness :
  let st' := foldl (flip pmm_exec) demo_pmm
    [OpAlloc; OpIncref 4096; OpAlloc; OpFree 4096; OpMarkFree 8000 100; OpDecref 4096] in
  pmm_wf st' ∧ refcounts st' = [255; 0; 255; 1; 0; 0; 0; 0; 0; 0; 0; 255; 255].
Proof.
  pose proof (pmm_refines_spec (replicate 2 0) (replicate 13 0) 13
    [ {| base := 4096; length_ := 40960 |} ] [ {| base := 8192; length_ := 1 |} ]
    [OpAlloc; OpIncref 4096; OpAlloc; OpFree 4096; OpMarkFree 8000 100; OpDecref 4096]) as H.
  intros st'. destruct H as [H1 H2]; [lia|reflexivity|reflexivity|..].
  1-2: forall_list; split; simpl; zsolve.
  1: forall_list; simpl; first [exact I | zsolve | split; zsolve].
  split; [exact H1|]. etrans; [exact H2|]. vm_compute. reflexivity.
Defined.

(** [pmm_core_alloc_page]'s scan (skip 0xFF bytes, then test bit by bit)
    is first fit: it returns the address of the lowest page whose count is 0,
    gives that page count 1 and touches no other count; it returns 0 and
    changes nothing exactly when no managed page is free. *)
Theorem pmm_alloc_first_fit st :
  pmm_wf st →
  match first_free (refcounts st) with
  | Some p =>
      (pmm_core_alloc_page st).1 = Z.of_nat p * PAGE_SIZE ∧
      refcounts (pmm_core_alloc_page st).2 = <[p := 1]> (refcounts st) ∧
      pmm_core_bitmap_test (pmm_core_alloc_page st).2 (Z.of_nat p) = true
  | None => pmm_core_alloc_page st = (0, st) ∧ ∀ q, 0 <= q < max_pages st → (refcounts st).[q] ≠ 0
  end.
Proof.
  intros Hwf. pose proof (alloc_page_outcome st Hwf) as Ha. unfold alloc_outcome in Ha.
  pose proof (wf_refcounts_len _ Hwf). pose proof (wf_bitmap_len _ Hwf).
  destruct (first_free (refcounts st)) as [p|] eqn:E; rewrite Ha; simpl.
  - apply first_free_bound in E as (Hp & _). split; [done|].
    split; [unfold arr_set; by rewrite Nat2Z.id|].
    rewrite bitmap_test_bit. change (page_bit (pmm_core_bitmap_set st (Z.of_nat p)) (Z.of_nat p) = true).
    rewrite page_bit_set by zsolve. by rewrite Z.eqb_refl.
  - split; [done|]. intros q Hq Hq0. unfold first_free in E. apply fmap_None, list_find_None in E.
    rewrite Forall_lookup in E.
    destruct (lookup_lt_is_Some_2 (refcounts st) (Z.to_nat q)) as [x Hx]; [lia|].
    apply (E _ _ Hx). unfold arr_get in Hq0. by rewrite (list_lookup_total_correct _ _ _ Hx) in Hq0.
Qed.

Lemma pmm_alloc_first_fit_witness : (pmm_core_alloc_page demo_pmm).1 = 4096.
Proof. exact (proj1 (pmm_alloc_first_fit demo_pmm (proj1 demo_pmm_inv))). Defined.

(** a reserved page (count 0xFF: firmware, kernel image, or a count that
    saturated) stays reserved under every sequence of allocations, reference
    drops and bumps and reservations; only an explicit [mark_free] can release
    it, so it is never handed out by [pmm_core_alloc_page]. *)
Theorem pmm_reserved_stays_reserved st os q :
  pmm_wf st → Forall pmm_op_ok os →
  Forall (λ o, match o with OpMarkFree _ _ => False | _ => True end) os →
  0 <= q < max_pages st → (refcounts st).[q] = 0xFF →
  (refcounts (foldl (flip pmm_exec) st os)).[q] = 0xFF.
Proof.
  revert st. induction os as [|o os IH]; intros st Hwf Hos Hnf Hq Hff; simpl; [done|].
  apply Forall_cons in Hos as [Ho Hos]. apply Forall_cons in Hnf as [Hn Hnf].
  destruct (pmm_exec_wf o st Hwf Ho) as [H1 H2]. apply IH; try done; [simpl; lia|].
  unfold flip. destruct o; simpl in *; try done.
  - pose proof (alloc_page_outcome st Hwf) as Ha. unfold alloc_outcome in Ha.
    destruct (first_free (refcounts st)) as [p|] eqn:E; rewrite Ha; simpl; [|done].
    apply first_free_bound in E as (Hp & Hp0 & _). rewrite arr_get_set_ne; try done; try lia.
    intros <-. unfold arr_get in Hff. rewrite Nat2Z.id, (list_lookup_total_correct _ _ _ Hp0) in Hff. done.
  - rewrite incref_get, Hff by done. by case_match.
  - rewrite decref_get, Hff by done. by case_match.
  - unfold pmm_core_free_page. rewrite decref_get, Hff by done. by case_match.
  - destruct (mark_range_spec st b len true) as (_ & _ & K3); try tauto.
    unfold pmm_core_mark_used. rewrite K3 by done. by case_match.
Qed.

Lemma pmm_reserved_stays_reserved_witness :
  (refcounts (foldl (flip pmm_exec) demo_pmm (OpIncref 8192 :: OpFree 8192 :: OpDecref 8192 :: OpFree 0 :: replicate 9 OpAlloc))).[2] = 0xFF.
Proof.
  apply pmm_reserved_stays_reserved; [apply demo_pmm_inv|..];
    forall_list; simpl; try done; zsolve.
Defined.

(** [pmm_core_free_page_count] counts the pages whose count is zero, a
    successful allocation lowers it by one, and dropping a reference raises it
    by one exactly when it was the last one. *)
Theorem pmm_free_count_accounting st a :
  pmm_inv st → is_u32 a →
  pmm_core_free_page_count st = Z.of_nat (count_free (refcounts st)) ∧
  ((pmm_core_alloc_page st).1 ≠ 0 →
    pmm_core_free_page_count (pmm_core_alloc_page st).2 = pmm_core_free_page_count st - 1) ∧
  pmm_core_free_page_count (pmm_core_decref st a) =
    pmm_core_free_page_count st + (if pmm_core_refcount st a =? 1 then 1 else 0).
Proof.
  intros Hinv Ha. pose proof Hinv as [Hwf _]. pose proof (wf_refcounts_len _ Hwf) as Hlen.
  destruct (pmm_exec_wf OpAlloc st Hwf I) as [Hwfa _].
  destruct (decref_spec st a Hwf Ha) as (Hwfd & _ & Hrd).
  split; [by apply free_page_count_spec|]. split.
  - intros Hne. destruct (alloc_ok_page st _ _ Hinv (surjective_pairing _) Hne) as (p & _ & Hp & Hp0 & Hst).
    simpl in Hwfa. rewrite !free_page_count_spec, Hst by done. simpl. unfold arr_set.
    destruct (lookup_lt_is_Some_2 (refcounts st) (Z.to_nat p)) as [x Hx]; [lia|].
    unfold arr_get in Hp0. rewrite (list_lookup_total_correct _ _ _ Hx) in Hp0. subst x.
    pose proof (count_free_insert _ _ _ 1 Hx). simpl in *. lia.
  - rewrite !free_page_count_spec, refcount_at, Hrd by done. unfold spec_decref. rewrite Hlen.
    set (p := a / PAGE_SIZE). assert (0 <= p) by (subst p; zsolve).
    destruct (Z.ltb_spec p (max_pages st)); simpl; [|lia].
    destruct (lookup_lt_is_Some_2 (refcounts st) (Z.to_nat p)) as [x Hx]; [lia|].
    assert ((refcounts st).[p] = x) as -> by (unfold arr_get; by apply list_lookup_total_correct).
    pose proof (count_free_insert _ _ _ (x - 1) Hx) as Hc.
    destruct (Z.eqb_spec x 0xFF), (Z.eqb_spec x 0), (Z.eqb_spec x 1); simpl;
      try (subst; simpl in *; lia); unfold arr_set; repeat case_decide; lia.
Qed.

Lemma pmm_free_count_accounting_witness :
  pmm_core_free_page_count (pmm_core_decref (pmm_core_alloc_page demo_pmm).2 4096) = 9.
Proof.
  destruct (pmm_free_count_accounting demo_pmm 4096 demo_pmm_inv) as (H & _); [zsolve|].
  rewrite <-(eq_refl : Z.of_nat (count_free (refcounts demo_pmm)) = 9), <-H. vm_compute. done.
Defined.
