(* ===== verification/Kheap.v ===== *)
(** * Kernel heap (kernel/mm/kheap.c)

    The heap is a singly linked list of block headers living in memory.  The
    model keeps the memory: a finite map from addresses to the headers written
    there (a header absorbed by coalescing stays behind, as it does in RAM),
    and every traversal chases [next] pointers with fuel.  Sizes are those of
    the i386 build: [sizeof(heap_block_t)] = 16, [HEAP_ALIGN] = 4.  Memory
    that was never written as a header is taken not to read as [HEAP_MAGIC]. *)

From S2P Require Import Prelude Interfaces.

Record heap_block := mk_block {
  magic : Z;
  size_ : Z;
  free_ : Z;
  next_ : Z;
}.

Record kheap := mk_kheap { heap_head : Z; hmem : gmap Z heap_block }.

Definition HEAP_MAGIC : Z := 0xDEADBEEF.
Definition HDR : Z := 16.
Definition HEAP_MIN_SPLIT : Z := HDR + 16.
Definition HEAP_ALIGN : Z := 4.

(** ** Operations *)

Definition heap_align_size (size : Z) : Z :=
  ((size +u HEAP_ALIGN) -u 1) &u not32 (HEAP_ALIGN - 1).

Definition kheap_init (m : gmap Z heap_block) (base size : Z) : kheap :=
  mk_kheap base (<[base := mk_block HEAP_MAGIC (size -u HDR) 1 0]> m).

(** The branch that takes block [cur] (header [b]) for [size] bytes. *)
Definition kmalloc_take (m : gmap Z heap_block) (cur : Z) (b : heap_block) (size : Z)
    : gmap Z heap_block :=
  if (size +u HEAP_MIN_SPLIT) <=? size_ b then
    let next := (cur +u HDR) +u size in
    let m := <[next := mk_block HEAP_MAGIC ((size_ b -u size) -u HDR) 1 (next_ b)]> m in
    <[cur := mk_block (magic b) size 0 next]> m
  else <[cur := mk_block (magic b) (size_ b) 0 (next_ b)]> m.

Fixpoint kmalloc_loop (fuel : nat) (m : gmap Z heap_block) (cur size : Z)
    : Z * gmap Z heap_block :=
  match fuel with
  | O => (0, m)
  | S fuel =>
      if cur =? 0 then (0, m)
      else match m !! cur with
           | None => (0, m)
           | Some b =>
               if negb (magic b =? HEAP_MAGIC) then (0, m)
               else if negb (free_ b =? 0) && (size <=? size_ b) then
                 (cur +u HDR, kmalloc_take m cur b size)
               else kmalloc_loop fuel m (next_ b) size
           end
  end.

(** One visit per header and one for the terminating NULL. *)
Definition kheap_fuel (h : kheap) : nat := S (size (hmem h)).

Definition kmalloc (h : kheap) (size : Z) : Z * kheap :=
  let r := kmalloc_loop (kheap_fuel h) (hmem h) (heap_head h) (heap_align_size size) in
  (r.1, mk_kheap (heap_head h) r.2).

Fixpoint kfree_coalesce (fuel : nat) (m : gmap Z heap_block) (cur : Z) : gmap Z heap_block :=
  match fuel with
  | O => m
  | S fuel =>
      if cur =? 0 then m
      else match m !! cur with
           | None => m
           | Some c =>
               if next_ c =? 0 then m
               else match m !! next_ c with
                    | None => m
                    | Some n =>
                        if negb (free_ c =? 0) && negb (free_ n =? 0) then
                          let m := <[cur := mk_block (magic c) (size_ c +u (HDR + size_ n))
                                               (free_ c) (next_ n)]> m in
                          kfree_coalesce fuel m cur
                        else kfree_coalesce fuel m (next_ c)
                    end
           end
  end.

Definition kfree (h : kheap) (ptr : Z) : kheap :=
  if ptr =? 0 then h
  else
    let block := ptr -u HDR in
    match hmem h !! block with
    | None => h
    | Some b =>
        if negb (magic b =? HEAP_MAGIC) then h
        else
          let m := <[block := mk_block (magic b) (size_ b) 1 (next_ b)]> (hmem h) in
          mk_kheap (heap_head h) (kfree_coalesce (kheap_fuel h) m (heap_head h))
    end.

Fixpoint kheap_free_loop (fuel : nat) (m : gmap Z heap_block) (cur total : Z) : Z :=
  match fuel with
  | O => total
  | S fuel =>
      if cur =? 0 then total
      else match m !! cur with
           | None => total
           | Some b =>
               kheap_free_loop fuel m (next_ b)
                 (if negb (free_ b =? 0) then total +u size_ b else total)
           end
  end.

Definition kheap_free_bytes (h : kheap) : Z :=
  kheap_free_loop (kheap_fuel h) (hmem h) (heap_head h) 0.

(** ** The block list behind the headers *)

Record ablk := mk_ablk { a_addr : Z; a_size : Z; a_free : bool }.

#[global] Instance ablk_eq_dec : EqDecision ablk.
Proof. solve_decision. Defined.

Definition a_end (b : ablk) : Z := a_addr b + HDR + a_size b.

Definition hdr_of (b : ablk) (next : Z) : heap_block :=
  mk_block HEAP_MAGIC (a_size b) (if a_free b then 1 else 0) next.

(** [repr m lo bs hi]: the headers of [bs] are in [m], linked in order, and the
    blocks tile the bytes [lo, hi) exactly. *)
Fixpoint repr (m : gmap Z heap_block) (lo : Z) (bs : list ablk) (hi : Z) : Prop :=
  match bs with
  | [] => lo = hi
  | b :: bs' =>
      a_addr b = lo ∧ 0 <= a_size b ∧ a_size b mod HEAP_ALIGN = 0 ∧
      m !! lo = Some (hdr_of b (match bs' with [] => 0 | _ => a_end b end)) ∧
      repr m (a_end b) bs' hi
  end.

Record heap_repr (base total : Z) (h : kheap) (bs : list ablk) : Prop := {
  hr_head : heap_head h = base;
  hr_base : HDR <= base;
  hr_top : base + total < 2 ^ 32;
  hr_blocks : repr (hmem h) base bs (base + total);
  hr_nonempty : bs ≠ [];
}.

(** First fit with splitting, on the block list. *)
Definition take_block (b : ablk) (size : Z) : list ablk :=
  if size + HEAP_MIN_SPLIT <=? a_size b then
    [mk_ablk (a_addr b) size false;
     mk_ablk (a_addr b + HDR + size) (a_size b - size - HDR) true]
  else [mk_ablk (a_addr b) (a_size b) false].

Fixpoint ff_alloc (size : Z) (bs : list ablk) : option (Z * list ablk) :=
  match bs with
  | [] => None
  | b :: bs' =>
      if a_free b && (size <=? a_size b) then Some (a_addr b + HDR, take_block b size ++ bs')
      else match ff_alloc size bs' with
           | Some (p, r) => Some (p, b :: r)
           | None => None
           end
  end.

Definition mark_freed (a : Z) (b : ablk) : ablk :=
  if a_addr b =? a then mk_ablk (a_addr b) (a_size b) true else b.

Fixpoint coalesce (cur : ablk) (bs : list ablk) : list ablk :=
  match bs with
  | [] => [cur]
  | n :: bs' =>
      if a_free cur && a_free n
      then coalesce (mk_ablk (a_addr cur) (a_size cur + (HDR + a_size n)) true) bs'
      else cur :: coalesce n bs'
  end.

Definition coalesce_all (bs : list ablk) : list ablk :=
  match bs with [] => [] | b :: bs' => coalesce b bs' end.

(** ** Facts about represented heaps *)

Lemma repr_le m lo bs hi : repr m lo bs hi → lo <= hi.
Proof.
  revert lo. induction bs as [|b bs IH]; simpl; intros lo H; [lia|].
  destruct H as (<- & ? & _ & _ & H). apply IH in H. unfold a_end, HDR in H. lia.
Qed.

Lemma repr_in m lo bs hi b :
  repr m lo bs hi → b ∈ bs →
  lo <= a_addr b ∧ a_end b <= hi ∧ 0 <= a_size b ∧ a_size b mod HEAP_ALIGN = 0 ∧
  ∃ n, m !! a_addr b = Some (hdr_of b n).
Proof.
  revert lo. induction bs as [|c bs IH]; simpl; intros lo H Hb; [set_solver|].
  destruct H as (<- & Hs & Ha & Hm & H). pose proof (repr_le _ _ _ _ H).
  apply elem_of_cons in Hb as [->|Hb].
  - eauto 10 with lia.
  - destruct (IH _ H Hb) as (? & ?). unfold a_end, HDR in *. repeat split; try lia; tauto.
Qed.

Lemma repr_frame m lo bs hi k x :
  k < lo → repr (<[k := x]> m) lo bs hi ↔ repr m lo bs hi.
Proof.
  revert lo. induction bs as [|b bs IH]; simpl; intros lo Hk; [done|].
  rewrite lookup_insert_ne by lia.
  assert (a_addr b = lo ∧ 0 <= a_size b → k < a_end b) as Hk'.
  { unfold a_end, HDR. lia. }
  split; intros (? & ? & ? & ? & H); specialize (Hk' ltac:(done)); apply IH in H; eauto 10.
Qed.

Lemma repr_agree m m' lo bs hi :
  (∀ k, lo <= k < hi → m' !! k = m !! k) → repr m lo bs hi → repr m' lo bs hi.
Proof.
  revert lo. induction bs as [|b bs IH]; simpl; intros lo Hag H; [done|].
  destruct H as (Hlo & Hs & Ha & Hm & H). pose proof (repr_le _ _ _ _ H).
  unfold a_end, HDR in *. repeat split; try done.
  - rewrite Hag by lia. done.
  - apply IH; [|done]. intros k Hk. apply Hag. lia.
Qed.

Lemma repr_addrs m lo bs hi :
  repr m lo bs hi →
  NoDup (a_addr <$> bs) ∧ (list_to_set (a_addr <$> bs) : gset Z) ⊆ dom m.
Proof.
  revert lo. induction bs as [|b bs IH]; intros lo H; [simpl; split; [constructor|set_solver]|].
  destruct H as (<- & Hs & Ha & Hm & H). destruct (IH _ H) as [Hnd Hsub]. csimpl. split.
  - constructor; [|done]. intros Hin. apply list_elem_of_fmap in Hin as (c & Hc & Hin).
    destruct (repr_in _ _ _ _ _ H Hin) as (? & _). unfold a_end, HDR in *. lia.
  - apply elem_of_dom_2 in Hm. apply union_subseteq. split; [|done].
    by apply singleton_subseteq_l.
Qed.

Lemma repr_length m lo bs hi : repr m lo bs hi → (length bs <= size m)%nat.
Proof.
  intros [Hnd Hsub]%repr_addrs. apply subseteq_size in Hsub.
  rewrite size_list_to_set, length_fmap in Hsub by done. by rewrite size_dom in Hsub.
Qed.

(** Headers in use never share a byte: two blocks of the list are disjoint. *)
Lemma repr_disjoint m lo bs hi b c :
  repr m lo bs hi → b ∈ bs → c ∈ bs → b ≠ c → a_end b <= a_addr c ∨ a_end c <= a_addr b.
Proof.
  revert lo. induction bs as [|d bs IH]; intros lo H Hb Hc Hne; [set_solver|].
  destruct H as (<- & Hs & Ha & Hm & H).
  apply elem_of_cons in Hb as [->|Hb]; apply elem_of_cons in Hc as [->|Hc]; try done.
  - left. by destruct (repr_in _ _ _ _ _ H Hc).
  - right. by destruct (repr_in _ _ _ _ _ H Hb).
  - by eapply IH.
Qed.

Lemma heap_align_size_spec n :
  is_u32 n → heap_align_size n = ((n + 3) / 4 * 4) mod 2 ^ 32.
Proof.
  intros Hn. unfold heap_align_size. change (HEAP_ALIGN - 1) with (Z.ones 2).
  rewrite land_not32_mask by (try apply u32_range; lia).
  replace (u32 (u32 (n + HEAP_ALIGN) - 1)) with ((n + 3) mod 2 ^ 32).
  2:{ unfold u32, HEAP_ALIGN. rewrite Zminus_mod_idemp_l. f_equal. lia. }
  change (2 ^ 2) with 4. zsolve.
Qed.

Lemma heap_align_size_ok n :
  0 <= n <= 2 ^ 32 - 4 →
  n <= heap_align_size n < n + 4 ∧ heap_align_size n mod HEAP_ALIGN = 0 ∧ is_u32 (heap_align_size n).
Proof.
  intros Hn. rewrite heap_align_size_spec by zsolve. unfold HEAP_ALIGN.
  rewrite Z.mod_small by zsolve. zsolve.
Qed.

Lemma heap_align_size_aligned n :
  is_u32 n → heap_align_size n mod HEAP_ALIGN = 0 ∧ is_u32 (heap_align_size n).
Proof.
  intros Hn. rewrite heap_align_size_spec by done. unfold HEAP_ALIGN. split.
  - generalize ((n + 3) / 4). intros k. zsolve.
  - apply u32_range.
Qed.

(** ** Allocation refines first fit *)

Definition cursor (lo : Z) (bs : list ablk) : Z := match bs with [] => 0 | _ => lo end.

Lemma take_block_nonempty b s bs : take_block b s ++ bs ≠ [].
Proof. unfold take_block. by case_match. Qed.

Lemma kmalloc_take_repr m lo b bs hi s :
  HDR <= lo → hi < 2 ^ 32 → 0 <= s → s mod HEAP_ALIGN = 0 →
  repr m lo (b :: bs) hi → a_free b = true → s <= a_size b →
  let m' := kmalloc_take m lo (hdr_of b (cursor (a_end b) bs)) s in
  repr m' lo (take_block b s ++ bs) hi ∧ ∀ k, k < lo → m' !! k = m !! k.
Proof.
  intros Hlo Hhi Hs Hal (<- & Hsz & Ha & Hm & H) Hf Hfit.
  pose proof (repr_le _ _ _ _ H) as Hle. unfold a_end in Hle.
  unfold kmalloc_take, take_block, HEAP_MIN_SPLIT, HDR, HEAP_ALIGN in *.
  cbn [size_ next_ magic hdr_of]. rewrite !(u32_small (s + (16 + 16))) by zsolve.
  destruct (Z.leb_spec (s + (16 + 16)) (a_size b)) as [Hsp|Hsp].
  - rewrite (u32_small (a_addr b + 16)) by zsolve.
    rewrite (u32_small (a_addr b + 16 + s)), (u32_small (a_size b - s)) by zsolve.
    rewrite u32_small by zsolve. cbn zeta. split.
    2:{ intros k Hk. rewrite !lookup_insert_ne by lia. done. }
    unfold HEAP_ALIGN in *. cbn. unfold a_end, HDR; cbn.
    rewrite lookup_insert_eq, lookup_insert_ne, lookup_insert_eq by lia.
    replace (a_addr b + 16 + s + 16 + (a_size b - s - 16)) with (a_addr b + 16 + a_size b) by lia.
    repeat split; try done; try lia; [unfold HEAP_ALIGN; zsolve|].
    rewrite !repr_frame by lia. done.
  - cbn zeta. split; [|intros k Hk; by rewrite !lookup_insert_ne by lia].
    cbn. unfold a_end, HDR in *; cbn. rewrite lookup_insert_eq.
    repeat split; try done. rewrite repr_frame by lia. done.
Qed.

Lemma kmalloc_loop_spec fuel m lo bs hi s :
  HDR <= lo → hi < 2 ^ 32 → is_u32 s → s mod HEAP_ALIGN = 0 →
  repr m lo bs hi → (length bs < fuel)%nat →
  match ff_alloc s bs with
  | None => kmalloc_loop fuel m (cursor lo bs) s = (0, m)
  | Some (p, bs') => ∃ m', kmalloc_loop fuel m (cursor lo bs) s = (p, m') ∧
      repr m' lo bs' hi ∧ bs' ≠ [] ∧ ∀ k, k < lo → m' !! k = m !! k
  end.
Proof.
  revert fuel lo. induction bs as [|b bs IH]; intros [|fuel] lo Hlo Hhi Hs Hal H Hf; simpl in Hf; try lia.
  { done. }
  pose proof H as (Hb & Hsz & Ha & Hm & H'). pose proof (repr_le _ _ _ _ H') as Hle.
  unfold a_end, HDR in Hle. cbn [kmalloc_loop cursor].
  rewrite (proj2 (Z.eqb_neq lo 0)) by (unfold HDR in *; lia). rewrite Hm. cbn [magic hdr_of free_ size_ next_].
  rewrite Z.eqb_refl. cbn [negb ff_alloc].
  replace (negb ((if a_free b then 1 else 0) =? 0)) with (a_free b) by by destruct (a_free b).
  destruct (a_free b && (s <=? a_size b)) eqn:E.
  - bprop. destruct (kmalloc_take_repr m lo b bs hi s) as [K1 K2]; try done; [zsolve|].
    eexists. split; [|split; [exact K1|]; split; [apply take_block_nonempty|exact K2]].
    apply pair_eq; split; [rewrite u32_small; unfold HDR in *; zsolve|by destruct bs].
  - specialize (IH fuel (a_end b)).
    assert (∀ bs, match bs with [] => 0 | _ => a_end b end = cursor (a_end b) bs) as -> by by intros [].
    assert (HDR <= a_end b) by (unfold a_end, HDR in *; lia).
    destruct (ff_alloc s bs) as [[p bs']|] eqn:Ef.
    + destruct IH as (m' & E' & Hr & Hne & Hag); try done; [lia|].
      exists m'. split; [exact E'|]. split; [|split; [done|]].
      2:{ intros k Hk. apply Hag. unfold a_end, HDR in *. lia. }
      simpl. repeat split; try done. rewrite Hag by (unfold a_end, HDR in *; lia). rewrite Hm.
      do 2 f_equal. destruct bs; [done|]. by destruct bs'.
    + rewrite IH; try done. lia.
Qed.

(** ** Freeing refines the block-list coalescing pass *)

Lemma kfree_coalesce_spec fuel m lo b bs hi :
  HDR <= lo → hi < 2 ^ 32 → repr m lo (b :: bs) hi → (length bs < fuel)%nat →
  repr (kfree_coalesce fuel m lo) lo (coalesce b bs) hi ∧
  ∀ k, k < lo → kfree_coalesce fuel m lo !! k = m !! k.
Proof.
  revert fuel m lo b. induction bs as [|n bs IH]; intros [|fuel] m lo b Hlo Hhi H Hf; simpl in Hf; try lia.
  - pose proof H as (Hb & Hsz & Ha & Hm & H'). cbn.
    rewrite (proj2 (Z.eqb_neq lo 0)), Hm by (unfold HDR in *; lia). cbn. split; [|done].
    by repeat split.
  - pose proof H as (Hb & Hsz & Ha & Hm & Htl).
    pose proof Htl as (Hn & Hnsz & Hna & Hnm & H').
    pose proof (repr_le _ _ _ _ H') as Hle. cbn [kfree_coalesce].
    rewrite (proj2 (Z.eqb_neq lo 0)), Hm by (unfold HDR in *; lia). cbn [next_ hdr_of].
    rewrite (proj2 (Z.eqb_neq (a_end b) 0)), Hnm by (unfold a_end, HDR in *; lia).
    cbn [free_ hdr_of magic size_ next_ coalesce].
    replace (negb ((if a_free b then 1 else 0) =? 0)) with (a_free b) by by destruct (a_free b).
    replace (negb ((if a_free n then 1 else 0) =? 0)) with (a_free n) by by destruct (a_free n).
    destruct (a_free b && a_free n) eqn:E.
    + bprop. rewrite H0. set (c := mk_ablk (a_addr b) (a_size b + (HDR + a_size n)) true).
      set (m' := <[lo := _]> m).
      assert (repr m' lo (c :: bs) hi) as Hr.
      { subst m' c. cbn. unfold a_end, HDR, HEAP_ALIGN in *; cbn. rewrite lookup_insert_eq.
        replace (a_addr b + 16 + (a_size b + (16 + a_size n)))
          with (a_addr n + 16 + a_size n) by lia.
        rewrite u32_small by zsolve. split; [done|]. split; [lia|]. split; [zsolve|].
        split; [done|]. rewrite repr_frame by lia. done. }
      destruct (IH fuel m' lo c Hlo Hhi Hr ltac:(lia)) as [K1 K2]. split; [done|].
      intros k Hk. rewrite K2 by done. subst m'. by rewrite lookup_insert_ne by lia.
    + assert (HDR <= a_end b) by (unfold a_end, HDR in *; lia).
      destruct (IH fuel m (a_end b) n) as [K1 K2]; try done; try lia.
      split; [|intros k Hk; apply K2; unfold a_end, HDR in *; lia].
      simpl. repeat split; try done. rewrite K2 by (unfold a_end, HDR in *; lia).
      rewrite Hm. do 2 f_equal.
      assert (coalesce n bs ≠ []) as Hne; [|by destruct (coalesce n bs)].
      clear. revert n. induction bs as [|c bs IH]; intros n; simpl; [done|]. by case_match.
Qed.

Lemma mark_freed_repr m lo bs hi b n :
  repr m lo bs hi → b ∈ bs → m !! a_addr b = Some (hdr_of b n) →
  repr (<[a_addr b := mk_block HEAP_MAGIC (a_size b) 1 n]> m) lo (mark_freed (a_addr b) <$> bs) hi.
Proof.
  revert lo. induction bs as [|c bs IH]; intros lo H Hb Hm; [set_solver|].
  destruct H as (Hc & Hs & Ha & Hcm & H). csimpl.
  apply elem_of_cons in Hb as [->|Hb].
  - subst lo. assert (mark_freed (a_addr c) c = mk_ablk (a_addr c) (a_size c) true) as ->.
    { unfold mark_freed. by rewrite Z.eqb_refl. }
    cbn [repr a_addr a_size]. rewrite lookup_insert_eq. unfold a_end at 2. cbn [a_addr a_size].
    change (a_addr c + HDR + a_size c) with (a_end c).
    rewrite Hcm in Hm. simplify_eq. repeat split; try done.
    { do 2 f_equal. destruct bs; [done|]. by rewrite fmap_cons. }
    rewrite repr_frame by (unfold a_end, HDR; lia).
    replace (mark_freed (a_addr c) <$> bs) with bs; [done|].
    symmetry. etrans; [|apply list_fmap_id]. apply list_fmap_ext. intros i d Hd.
    apply list_elem_of_lookup_2 in Hd. destruct (repr_in _ _ _ _ _ H Hd) as (? & _).
    unfold mark_freed. destruct (Z.eqb_spec (a_addr d) (a_addr c)); [|done].
    unfold a_end, HDR in *. lia.
  - destruct (repr_in _ _ _ _ _ H Hb) as (Hlt & _).
    assert (mark_freed (a_addr b) c = c) as ->.
    { unfold mark_freed. destruct (Z.eqb_spec (a_addr c) (a_addr b)); [|done].
      unfold a_end, HDR in *. lia. }
    rewrite lookup_insert_ne by (unfold a_end, HDR in *; lia).
    repeat split; try done; [|by apply IH].
    rewrite Hcm. do 2 f_equal. destruct bs; [done|]. by rewrite fmap_cons.
Qed.

Definition freed (p : Z) (bs : list ablk) : list ablk :=
  coalesce_all (mark_freed (p - HDR) <$> bs).

Lemma kfree_repr base total h bs b :
  heap_repr base total h bs → b ∈ bs →
  heap_repr base total (kfree h (a_addr b + HDR)) (freed (a_addr b + HDR) bs).
Proof.
  intros [Hh Hb Ht Hr Hne] Hin. destruct (repr_in _ _ _ _ _ Hr Hin) as (Hlo & Hhi & Hs & Ha & n & Hm).
  unfold kfree, freed. rewrite (proj2 (Z.eqb_neq (a_addr b + HDR) 0)) by (unfold HDR in *; lia).
  replace (a_addr b + HDR - HDR) with (a_addr b) by lia.
  rewrite u32_small by (unfold a_end, HDR in *; zsolve). rewrite Hm. cbn [magic hdr_of negb].
  rewrite Z.eqb_refl. cbn [negb size_ next_].
  pose proof (mark_freed_repr _ _ _ _ _ _ Hr Hin Hm) as Hr'.
  destruct bs as [|c bs]; [done|]. rewrite fmap_cons in *. cbn [coalesce_all].
  apply repr_length in Hr as Hlen.
  destruct (kfree_coalesce_spec (kheap_fuel h) _ _ _ _ _ Hb Ht Hr') as [K1 K2].
  { unfold kheap_fuel. rewrite length_fmap. simpl in *. lia. }
  split; try done; cbn [heap_head hmem]; [by rewrite Hh|].
  assert (∀ (c : ablk) bs, coalesce c bs ≠ []) as Hn; [|apply Hn].
  clear. intros c bs. revert c. induction bs as [|d bs IH]; intros c; simpl; [done|]. by case_match.
Qed.

Lemma kmalloc_repr base total h bs n :
  heap_repr base total h bs → is_u32 n →
  match ff_alloc (heap_align_size n) bs with
  | None => kmalloc h n = (0, h)
  | Some (p, bs') => (kmalloc h n).1 = p ∧ heap_repr base total (kmalloc h n).2 bs'
  end.
Proof.
  intros [Hh Hb Ht Hr Hne] Hn. destruct (heap_align_size_aligned n Hn) as [Hal Hu].
  pose proof (kmalloc_loop_spec (kheap_fuel h) (hmem h) base bs (base + total)
    (heap_align_size n) Hb Ht Hu Hal Hr) as Hl.
  apply repr_length in Hr as Hlen.
  assert (cursor base bs = heap_head h) as Hc by (rewrite Hh; by destruct bs). rewrite Hc in Hl.
  specialize (Hl ltac:(unfold kheap_fuel; lia)). unfold kmalloc.
  destruct (ff_alloc (heap_align_size n) bs) as [[p bs']|].
  - destruct Hl as (m' & -> & Hr' & Hne' & _). split; [done|]. by split.
  - rewrite Hl. by destruct h.
Qed.

(** ** First fit on the list *)

Lemma ff_alloc_Some s bs p bs' :
  ff_alloc s bs = Some (p, bs') →
  ∃ l b r, bs = l ++ b :: r ∧ bs' = l ++ take_block b s ++ r ∧ p = a_addr b + HDR ∧
    a_free b = true ∧ s <= a_size b ∧ Forall (λ c, a_free c = true → a_size c < s) l.
Proof.
  revert p bs'. induction bs as [|b bs IH]; intros p bs' H; simpl in H; [done|].
  destruct (a_free b && (s <=? a_size b)) eqn:E.
  - simplify_eq. bprop. exists [], b, bs. eauto 10.
  - destruct (ff_alloc s bs) as [[q r]|]; simplify_eq.
    destruct (IH _ _ eq_refl) as (l & c & r' & -> & -> & -> & Hf & Hs & Hl).
    exists (b :: l), c, r'. repeat split; try done. constructor; [|done].
    intros Hb. rewrite Hb in E. simpl in E. bprop. lia.
Qed.

Lemma ff_alloc_None s bs :
  ff_alloc s bs = None ↔ Forall (λ c, a_free c = true → a_size c < s) bs.
Proof.
  induction bs as [|b bs IH]; simpl; [done|].
  rewrite Forall_cons, <-IH.
  destruct (a_free b) eqn:Ef; simpl.
  - destruct (Z.leb_spec s (a_size b)); [split; [done|intros [H' _]; specialize (H' eq_refl); lia]|].
    destruct (ff_alloc s bs) as [[]|]; naive_solver.
  - destruct (ff_alloc s bs) as [[]|]; naive_solver.
Qed.

(** ** Blocks in use *)

Definition used (bs : list ablk) : list ablk := filter (λ b, a_free b = false) bs.

Lemma used_app l r : used (l ++ r) = used l ++ used r.
Proof. apply filter_app. Qed.

Lemma used_cons b bs : used (b :: bs) = (if a_free b then [] else [b]) ++ used bs.
Proof. unfold used. rewrite filter_cons. destruct (a_free b); case_decide; done. Qed.

Lemma coalesce_used b bs : used (coalesce b bs) = used (b :: bs).
Proof.
  revert b. induction bs as [|n bs IH]; intros b; simpl; [done|].
  destruct (a_free b && a_free n) eqn:E; rewrite ?(used_cons b), IH, !used_cons; simpl; [|done].
  bprop. rewrite H, H0. done.
Qed.

Lemma mark_freed_used a bs :
  used (mark_freed a <$> bs) = filter (λ b, a_addr b ≠ a) (used bs).
Proof.
  induction bs as [|b bs IH]; [done|]. rewrite fmap_cons, !used_cons, IH, filter_app.
  f_equal. unfold mark_freed. destruct (Z.eqb_spec (a_addr b) a); destruct (a_free b) eqn:E; simpl;
    rewrite ?E; try done; unfold filter; simpl; case_decide; done.
Qed.

Lemma freed_used p bs : used (freed p bs) = filter (λ b, a_addr b ≠ p - HDR) (used bs).
Proof.
  unfold freed. rewrite <-mark_freed_used. destruct (_ <$> bs) as [|c cs]; [done|].
  apply coalesce_used.
Qed.

Definition taken_size (b : ablk) (s : Z) : Z :=
  if s + HEAP_MIN_SPLIT <=? a_size b then s else a_size b.

Lemma ff_alloc_used s bs p bs' :
  ff_alloc s bs = Some (p, bs') →
  ∃ l r sz, used bs = l ++ r ∧ used bs' = l ++ mk_ablk (p - HDR) sz false :: r ∧ s <= sz ∧
    ∃ b, b ∈ bs ∧ a_addr b = p - HDR ∧ a_free b = true.
Proof.
  intros (l & b & r & -> & -> & -> & Hf & Hs & _)%ff_alloc_Some.
  exists (used l), (used r), (taken_size b s). replace (a_addr b + HDR - HDR) with (a_addr b) by lia.
  unfold take_block, taken_size. rewrite used_app, used_cons, Hf. split; [done|]. split.
  - rewrite used_app. case_match; simpl; rewrite !used_cons; done.
  - split; [case_match; lia|]. exists b. set_solver.
Qed.

(** The block list read back from memory. *)
Fixpoint walk (fuel : nat) (m : gmap Z heap_block) (cur : Z) : list ablk :=
  match fuel with
  | O => []
  | S fuel =>
      if cur =? 0 then []
      else match m !! cur with
           | None => []
           | Some b => mk_ablk cur (size_ b) (negb (free_ b =? 0)) :: walk fuel m (next_ b)
           end
  end.

Definition blocks_of (h : kheap) : list ablk := walk (kheap_fuel h) (hmem h) (heap_head h).

Lemma walk_repr fuel m lo bs hi :
  0 < lo → repr m lo bs hi → (length bs < fuel)%nat → walk fuel m (cursor lo bs) = bs.
Proof.
  revert fuel lo. induction bs as [|b bs IH]; intros [|fuel] lo Hlo H Hf; simpl in Hf; try lia; [done|].
  destruct H as (Hb & Hs & Ha & Hm & H). simpl.
  rewrite (proj2 (Z.eqb_neq lo 0)), Hm by lia. cbn [size_ free_ hdr_of next_]. f_equal.
  - destruct b as [a z []]; simpl in *; by subst.
  - rewrite <-(IH fuel (a_end b)) at 2 by (try done; unfold a_end, HDR in *; lia).
    by destruct bs.
Qed.

Lemma blocks_of_repr base total h bs : heap_repr base total h bs → blocks_of h = bs.
Proof.
  intros [Hh Hb Ht Hr Hne]. unfold blocks_of. apply repr_length in Hr as Hl.
  assert (cursor base bs = heap_head h) as <- by (rewrite Hh; by destruct bs).
  eapply walk_repr; [unfold HDR in *; lia|done|unfold kheap_fuel; lia].
Qed.

(** ** No two neighbouring free blocks *)

Fixpoint no_adjacent_free (bs : list ablk) : Prop :=
  match bs with
  | b :: ((c :: _) as bs') => ¬ (a_free b = true ∧ a_free c = true) ∧ no_adjacent_free bs'
  | _ => True
  end.

Lemma coalesce_head b bs : ∃ c cs, coalesce b bs = c :: cs ∧ (a_free c = a_free b).
Proof.
  revert b. induction bs as [|n bs IH]; intros b; simpl; [eauto|].
  destruct (a_free b && a_free n) eqn:E; [|eauto].
  destruct (IH (mk_ablk (a_addr b) (a_size b + (HDR + a_size n)) true)) as (c & cs & -> & Hc).
  bprop. exists c, cs. simpl in Hc. split; congruence.
Qed.

Lemma coalesce_no_adjacent b bs : no_adjacent_free (coalesce b bs).
Proof.
  revert b. induction bs as [|n bs IH]; intros b; simpl; [done|].
  destruct (a_free b && a_free n) eqn:E; [apply IH|].
  destruct (coalesce_head n bs) as (c & cs & Ec & Hc). specialize (IH n). rewrite Ec in *.
  simpl. split; [|done]. rewrite Hc. intros [H1 H2]. by rewrite H1, H2 in E.
Qed.

Lemma coalesce_id b bs : no_adjacent_free (b :: bs) → coalesce b bs = b :: bs.
Proof.
  revert b. induction bs as [|n bs IH]; intros b; [done|]. intros [H1 H2]. apply IH in H2. simpl.
  destruct (a_free b && a_free n) eqn:E; [bprop; tauto|by rewrite H2].
Qed.

Lemma retake_coalesce l b r s :
  no_adjacent_free (l ++ b :: r) → a_free b = true →
  coalesce_all (l ++ (mark_freed (a_addr b) <$> take_block b s) ++ r) = l ++ b :: r.
Proof.
  intros Hna Hf.
  assert (∃ x xs, (mark_freed (a_addr b) <$> take_block b s) ++ r = x :: xs ∧ a_free x = true ∧
            coalesce x xs = b :: r) as (x & xs & E & Hx & Hc).
  { assert (no_adjacent_free (b :: r)) as Hbr.
    { clear Hf. induction l as [|c l IH]; [done|]. apply IH. destruct (l ++ b :: r) eqn:E; [done|].
      simpl in Hna. rewrite E in Hna. by destruct Hna. }
    unfold take_block. destruct (Z.leb_spec (s + HEAP_MIN_SPLIT) (a_size b)); csimpl.
    - unfold mark_freed; simpl. rewrite Z.eqb_refl. eexists _, _. split; [done|]. split; [done|].
      simpl. destruct (Z.eqb_spec (a_addr b + HDR + s) (a_addr b)); simpl;
      replace (s + (HDR + (a_size b - s - HDR))) with (a_size b) by lia;
      destruct b; simpl in *; subst; by apply coalesce_id.
    - unfold mark_freed; simpl. rewrite Z.eqb_refl. eexists _, _. split; [done|]. split; [done|].
      destruct b; simpl in *; subst; by apply coalesce_id. }
  rewrite E. clear E. induction l as [|c l IH]; [done|].
  assert (no_adjacent_free (l ++ b :: r)) as Hna' by (destruct l; apply Hna).
  specialize (IH Hna').
  destruct l as [|d l]; simpl in Hna, IH |- *; destruct Hna as [Hcd _].
  - destruct (a_free c); simpl; [exfalso; by apply Hcd|]. by rewrite IH.
  - destruct (a_free c && a_free d) eqn:E; [bprop; tauto|]. by rewrite IH.
Qed.

(** ** The interface instance *)

Definition heap_inv (h : kheap) : Prop := ∃ base total, heap_repr base total h (blocks_of h).

Definition heap_live (h : kheap) : gset Z :=
  list_to_set ((λ b, a_addr b + HDR) <$> used (blocks_of h)).

Definition heap_room (h : kheap) (p : Z) : Z :=
  match filter (λ b, a_addr b = p - HDR) (used (blocks_of h)) with
  | b :: _ => a_size b
  | [] => 0
  end.

#[export] Instance kheap_allocator : KAllocator kheap := {
  ka_malloc := kmalloc;
  ka_free := kfree;
}.

Lemma heap_repr_inv base total h bs : heap_repr base total h bs → heap_inv h.
Proof. intros H. exists base, total. by rewrite (blocks_of_repr _ _ _ _ H). Qed.

Lemma elem_of_live h p : p ∈ heap_live h ↔ ∃ b, b ∈ used (blocks_of h) ∧ a_addr b = p - HDR.
Proof.
  unfold heap_live. rewrite elem_of_list_to_set, list_elem_of_fmap.
  split; intros (b & H1 & H2); exists b; split; try done; lia.
Qed.

Lemma elem_of_used b bs : b ∈ used bs ↔ a_free b = false ∧ b ∈ bs.
Proof. unfold used. by rewrite list_elem_of_filter. Qed.

Lemma repr_addr_inj base total h bs b c :
  heap_repr base total h bs → b ∈ bs → c ∈ bs → a_addr b = a_addr c → b = c.
Proof.
  intros Hr Hb Hc E. destruct (decide (b = c)) as [|Hne]; [done|]. destruct Hr as [_ _ _ Hr _].
  destruct (repr_in _ _ _ _ _ Hr Hb) as (_ & _ & ? & _), (repr_in _ _ _ _ _ Hr Hc) as (_ & _ & ? & _).
  destruct (repr_disjoint _ _ _ _ _ _ Hr Hb Hc Hne); unfold a_end, HDR in *; lia.
Qed.

Lemma kmalloc_ok_used h n p h' :
  heap_inv h → is_u32 n → kmalloc h n = (p, h') → p ≠ 0 →
  heap_inv h' ∧ p ∉ heap_live h ∧
  ∃ l r sz, used (blocks_of h) = l ++ r ∧ heap_align_size n <= sz ∧
    used (blocks_of h') = l ++ mk_ablk (p - HDR) sz false :: r.
Proof.
  intros (base & total & Hr) Hn E Hp. pose proof (kmalloc_repr _ _ _ _ _ Hr Hn) as Hk.
  rewrite E in Hk. destruct (ff_alloc _ _) as [[q bs']|] eqn:Ef; [|by simplify_eq].
  destruct Hk as [Hq Hr']. simpl in *. subst q. split; [by eapply heap_repr_inv|].
  rewrite (blocks_of_repr _ _ _ _ Hr').
  destruct (ff_alloc_used _ _ _ _ Ef) as (l & r & sz & Hu & Hu' & Hsz & b & Hb & Hba & Hbf).
  split; [|by exists l, r, sz].
  rewrite elem_of_live. intros (c & Hc & Hca). apply elem_of_used in Hc as [Hcf Hc].
  assert (b = c) as -> by (eapply repr_addr_inj; [exact Hr|done|done|congruence]). congruence.
Qed.

#[export] Instance kheap_allocator_laws : KAllocatorLaws kheap heap_inv heap_live heap_room.
Proof.
  split; cbn [ka_malloc ka_free kheap_allocator].
  - intros h n Hi Hn. destruct (Z.eq_dec (kmalloc h n).1 0) as [E|E].
    + destruct Hi as (base & total & Hr). pose proof (kmalloc_repr _ _ _ _ _ Hr Hn) as Hk.
      destruct (ff_alloc _ _) as [[p bs']|]; [|rewrite Hk; by eexists _, _].
      destruct Hk as [_ Hk]. by eapply heap_repr_inv.
    + by apply (kmalloc_ok_used h n _ _ Hi Hn (surjective_pairing _) E).
  - intros h n (base & total & Hr) Hn E. pose proof (kmalloc_repr _ _ _ _ _ Hr Hn) as Hk.
    destruct (ff_alloc _ _) as [[p bs']|] eqn:Ef; [|by rewrite Hk]. exfalso.
    destruct Hk as [Hp _]. apply ff_alloc_Some in Ef as (l & b & r & Hbs & _ & Hpb & _).
    destruct Hr as [_ Hb _ Hr _]. destruct (repr_in _ _ _ _ b Hr) as (Hlo & _); [rewrite Hbs; set_solver|].
    unfold HDR in *. lia.
  - intros h n p h' Hi Hn E Hp.
    destruct (kmalloc_ok_used h n p h' Hi Hn E Hp) as (Hi' & Hnl & l & r & sz & Hu & Hsz & Hu').
    split; [done|]. split; [|split].
    + apply set_eq. intros q. rewrite elem_of_union, elem_of_singleton, !elem_of_live, Hu, Hu'.
      split.
      * intros (b & Hb & Hba). apply elem_of_app in Hb as [Hb|Hb]; [right; set_solver|].
        apply elem_of_cons in Hb as [->|Hb]; [left; simpl in *; lia|right; set_solver].
      * intros [->|(b & Hb & Hba)].
        2:{ exists b. split; [|done]. rewrite !elem_of_app in *. rewrite elem_of_cons. tauto. }
        exists (mk_ablk (p - HDR) sz false). split; [|done]. rewrite elem_of_app, elem_of_cons. auto.
    + intros Hn'. unfold heap_room. rewrite Hu', filter_app.
      assert (filter (λ b, a_addr b = p - HDR) l = []) as ->.
      { destruct (filter (λ b, a_addr b = p - HDR) l) as [|b bs] eqn:Ef; [done|].
        exfalso. apply Hnl. rewrite elem_of_live, Hu.
        assert (b ∈ filter (λ b, a_addr b = p - HDR) l) as Hb by (rewrite Ef; set_solver).
        apply list_elem_of_filter in Hb. set_solver. }
      rewrite filter_cons_True by done. simpl.
      destruct (heap_align_size_ok n) as (? & _); [zsolve|lia].
    + intros q Hq. unfold heap_room. rewrite Hu, Hu', !filter_app, filter_cons.
      case_decide as Hd; [|done]. simpl in Hd. exfalso. apply Hnl. replace p with q by lia. done.
  - done.
  - intros h p (base & total & Hr) Hp. apply elem_of_live in Hp as (b & Hb & Hba).
    apply elem_of_used in Hb as [_ Hb].
    replace p with (a_addr b + HDR) by lia. eapply heap_repr_inv, kfree_repr; done.
  - intros h p (base & total & Hr) Hp. apply elem_of_live in Hp as (b & Hb & Hba).
    apply elem_of_used in Hb as [_ Hb]. replace p with (a_addr b + HDR) by lia.
    pose proof (kfree_repr _ _ _ _ _ Hr Hb) as Hr'.
    apply set_eq. intros q. rewrite elem_of_difference, elem_of_singleton, !elem_of_live.
    rewrite (blocks_of_repr _ _ _ _ Hr'), freed_used.
    setoid_rewrite list_elem_of_filter. split.
    + intros (c & [Hc1 Hc2] & Hc). apply elem_of_used in Hc2. split; [by exists c|lia].
    + intros [(c & Hc1 & Hc2) Hne]. exists c. rewrite elem_of_used. split; [split; [lia|done]|done].
  - intros h p q (base & total & Hr) Hp Hq Hne. apply elem_of_live in Hp as (b & Hb & Hba).
    apply elem_of_used in Hb as [_ Hb]. replace p with (a_addr b + HDR) in * by lia.
    pose proof (kfree_repr _ _ _ _ _ Hr Hb) as Hr'. unfold heap_room.
    rewrite (blocks_of_repr _ _ _ _ Hr'), freed_used. rewrite list_filter_filter_l; [done|].
    intros c Hc. lia.
  - intros h (base & total & [_ Hb _ Hr _]). rewrite elem_of_live. intros (b & Hb' & Hba).
    apply elem_of_used in Hb' as [_ Hb']. destruct (repr_in _ _ _ _ _ Hr Hb') as (? & _).
    unfold HDR in *. lia.
Qed.

Lemma kheap_init_repr m base size :
  HDR <= base → HDR <= size → base + size < 2 ^ 32 → size mod HEAP_ALIGN = 0 →
  heap_repr base size (kheap_init m base size) [mk_ablk base (size - HDR) true].
Proof.
  intros Hb Hs Ht Ha. unfold HDR, HEAP_ALIGN in *. split; try done; cbn.
  rewrite lookup_insert_eq. unfold HDR, HEAP_ALIGN, hdr_of, a_end; cbn. unfold HDR.
  rewrite u32_small by zsolve. repeat split; try done; zsolve.
Qed.

Definition free_total (bs : list ablk) : Z :=
  foldr (λ b t, if a_free b then a_size b + t else t) 0 bs.

Lemma kheap_free_loop_spec fuel m lo bs hi total :
  0 < lo → hi < 2 ^ 32 → 0 <= total → total + (hi - lo) < 2 ^ 32 →
  repr m lo bs hi → (length bs < fuel)%nat →
  kheap_free_loop fuel m (cursor lo bs) total = total + free_total bs.
Proof.
  revert fuel lo total. induction bs as [|b bs IH];
    intros [|fuel] lo total Hlo Hhi H0 Ht H Hf; simpl in Hf; try lia; [simpl; lia|].
  pose proof H as (Hb & Hs & Ha & Hm & H'). pose proof (repr_le _ _ _ _ H') as Hle.
  unfold a_end, HDR in Hle. simpl.
  rewrite (proj2 (Z.eqb_neq lo 0)), Hm by lia. cbn [next_ hdr_of free_ size_].
  assert (∀ bs, match bs with [] => 0 | _ => a_end b end = cursor (a_end b) bs) as -> by by intros [].
  destruct (a_free b); cbn.
  - rewrite u32_small by zsolve. rewrite IH; try done; unfold a_end, HDR in *; lia.
  - rewrite IH; try done; unfold a_end, HDR in *; lia.
Qed.

(** ** Properties *)

(** The payload is inside the heap and overlaps no block in use. *)
Lemma kmalloc_in_heap base total h bs n p bs' :
  heap_repr base total h bs → 0 <= n <= 2 ^ 32 - 4 → (kmalloc h n).1 = p → heap_repr base total (kmalloc h n).2 bs' →
  ff_alloc (heap_align_size n) bs = Some (p, bs') →
  base + HDR <= p ∧ p + n <= base + total ∧
  ∀ c, c ∈ used bs → c ∈ used bs' ∧ (a_end c <= p ∨ p + n <= a_addr c).
Proof.
  intros Hr Hn Hp Hr' Ef. assert (is_u32 n) as Hu by zsolve. pose proof (hr_base _ _ _ _ Hr) as Hb.
  destruct (ff_alloc_used _ _ _ _ Ef) as (l & r & sz & H1 & H2 & Hsz & _).
  destruct (heap_align_size_ok n Hn) as [Hal _].
  assert (mk_ablk (p - HDR) sz false ∈ used bs') as Hin by (rewrite H2, elem_of_app, elem_of_cons; auto).
  pose proof (proj2 (proj1 (elem_of_used _ _) Hin)) as Hin'.
  destruct (repr_in _ _ _ _ _ (hr_blocks _ _ _ _ Hr') Hin') as (Hlo & Hhi & _).
  unfold a_end in Hhi; simpl in Hlo, Hhi. split; [lia|]. split; [lia|]. intros c Hc.
  assert (c ∈ used bs') as Hc'.
  { rewrite H2, elem_of_app, elem_of_cons. rewrite H1, elem_of_app in Hc. tauto. }
  split; [done|]. apply elem_of_used in Hc' as [_ Hc'].
  destruct (decide (c = mk_ablk (p - HDR) sz false)) as [->|Hne].
  { exfalso. assert (p ≠ 0) as Hp0 by (unfold HDR in *; lia).
    destruct (kmalloc_ok_used h n p (kmalloc h n).2 (heap_repr_inv _ _ _ _ Hr) Hu) as (_ & Hnl & _);
      [rewrite <-Hp; by destruct (kmalloc h n)|done|].
    apply Hnl. rewrite elem_of_live, (blocks_of_repr _ _ _ _ Hr).
    by exists (mk_ablk (p - HDR) sz false). }
  destruct (repr_disjoint _ _ _ _ _ _ (hr_blocks _ _ _ _ Hr') Hc' Hin' Hne) as [Hd|Hd];
    unfold a_end, HDR in *; simpl in Hd; lia.
Qed.

(** C12: [kmalloc] on a well-formed heap, for sizes up to 2^32 - 4 (above, the
    rounding of the size wraps, see [kmalloc_size_wraps]).  It is first fit with
    splitting: when it succeeds, the block it takes is free and large enough,
    every free block before it is too small, and the new block list differs in
    this block alone, which becomes a used block of the rounded size followed by
    a free block when there is room for a header and 16 bytes, and a used block
    of its old size otherwise.  The payload returned is that of this block: it
    lies inside the heap, holds at least the bytes asked for, and overlaps no
    block that was in use; the heap stays a chain of headers that tiles the arena
    exactly.  When it fails nothing changes, and no free block is large enough. *)
Theorem kmalloc_correct base total h bs n :
  heap_repr base total h bs → 0 <= n <= 2 ^ 32 - 4 →
  let size := heap_align_size n in
  ∃ bs', heap_repr base total (kmalloc h n).2 bs' ∧
  let p := (kmalloc h n).1 in
  (p ≠ 0 → n <= size < n + 4 ∧
     (∃ l b r, bs = l ++ b :: r ∧ (∀ c, c ∈ l → a_free c = true → a_size c < size) ∧
        a_free b = true ∧ size <= a_size b ∧ p = a_addr b + HDR ∧
        bs' = l ++ (if size + (HDR + 16) <=? a_size b
                    then [mk_ablk (a_addr b) size false; mk_ablk (a_addr b + HDR + size) (a_size b - size - HDR) true]
                    else [mk_ablk (a_addr b) (a_size b) false]) ++ r) ∧
     base + HDR <= p ∧ p + n <= base + total ∧
     (∀ c, c ∈ used bs → c ∈ used bs' ∧ (a_end c <= p ∨ p + n <= a_addr c))) ∧
  (p = 0 → kmalloc h n = (0, h) ∧ bs' = bs ∧
     ∀ b, b ∈ bs → a_free b = true → a_size b < size).
Proof.
  intros Hr Hn size. assert (is_u32 n) as Hu by zsolve.
  pose proof (kmalloc_repr _ _ _ _ _ Hr Hu) as Hk. pose proof (hr_base _ _ _ _ Hr) as Hb.
  fold size in Hk. destruct (ff_alloc _ _) as [[p bs']|] eqn:Ef.
  - destruct Hk as [Hp Hr']. exists bs'. split; [done|]. cbn zeta. rewrite Hp.
    destruct (kmalloc_in_heap base total h bs n p bs' Hr Hn Hp Hr' Ef) as (Hlo & Hhi & Hother).
    destruct (ff_alloc_Some _ _ _ _ Ef) as (l & b & r & E1 & E2 & E3 & Hf & Hs & Hl). rewrite Forall_forall in Hl.
    destruct (heap_align_size_ok n Hn) as (Hal & Hal2 & _). split; [|unfold HDR in *; lia]. intros _.
    split; [unfold size; lia|]. split; [|done]. exists l, b, r. done.
  - exists bs. rewrite Hk. split; [done|]. cbn. split; [done|]. intros _.
    split; [done|]. split; [done|]. intros b Hb' Hf.
    apply ff_alloc_None in Ef. rewrite Forall_forall in Ef. by apply Ef.
Qed.

(** The x86 arena: 0x52000 to 0x9F000 (kernel/arch/x86/arch_layout.h). *)
Definition demo_heap : kheap := kheap_init ∅ 0x52000 (0x9F000 - 0x52000).

Lemma demo_heap_repr :
  heap_repr 0x52000 0x4D000 demo_heap [mk_ablk 0x52000 (0x4D000 - HDR) true].
Proof. by apply kheap_init_repr. Qed.

Lemma kmalloc_correct_witness :
  (kmalloc demo_heap 100).1 = 0x52010 ∧
  ∃ bs', heap_repr 0x52000 0x4D000 (kmalloc demo_heap 100).2 bs'.
Proof.
  split; [vm_compute; reflexivity|].
  destruct (kmalloc_correct _ _ _ _ 100 demo_heap_repr) as (bs' & H & _); [lia|by exists bs'].
Defined.

(** C30: [kfree] of a block in use keeps the heap a well-formed tiling, removes
    exactly that block from the blocks in use (all others keep address and
    size), and leaves no two neighbouring free blocks: one forward pass is
    enough to merge everything. *)
Theorem kfree_correct base total h bs b :
  heap_repr base total h bs → b ∈ used bs →
  ∃ bs', heap_repr base total (kfree h (a_addr b + HDR)) bs' ∧
    no_adjacent_free bs' ∧ used bs' = filter (λ c, c ≠ b) (used bs).
Proof.
  intros Hr Hb. apply elem_of_used in Hb as [Hf Hb].
  exists (freed (a_addr b + HDR) bs). split; [by apply kfree_repr|]. split.
  - unfold freed. destruct (_ <$> bs) as [|c cs]; [done|]. apply coalesce_no_adjacent.
  - rewrite freed_used. replace (a_addr b + HDR - HDR) with (a_addr b) by lia.
    unfold used. rewrite !list_filter_filter.
    assert (∀ cs, cs ⊆ bs →
      filter (λ x, a_addr x ≠ a_addr b ∧ a_free x = false) cs =
      filter (λ x, x ≠ b ∧ a_free x = false) cs) as Hall; [|by apply Hall].
    induction cs as [|c cs IH]; intros Hsub; [done|].
    rewrite !filter_cons, IH by set_solver.
    assert (a_addr c ≠ a_addr b ↔ c ≠ b) as Hiff.
    { split; [by intros ? ->|]. intros Hne E. apply Hne.
      eapply repr_addr_inj; [exact Hr|set_solver|done|done]. }
    repeat case_decide; try done; exfalso; tauto.
Qed.

Lemma kfree_correct_witness :
  let h := (kmalloc (kmalloc demo_heap 8).2 24).2 in
  ∃ bs', heap_repr 0x52000 0x4D000 (kfree h 0x52010) bs' ∧ no_adjacent_free bs'.
Proof.
  destruct (kmalloc_repr _ _ _ _ 8 demo_heap_repr) as [_ H1]; [zsolve|].
  destruct (kmalloc_repr _ _ _ _ 24 H1) as [_ H2]; [zsolve|].
  destruct (kfree_correct _ _ _ _ (mk_ablk 0x52000 8 false) H2) as (bs' & H & Hn & _);
    [vm_compute; left|].
  exists bs'. split; [exact H|exact Hn].
Defined.

(** Round trip.  On a heap with no two neighbouring free blocks, freeing
    the pointer just returned by [kmalloc] restores exactly the block list the
    heap had before: splitting and coalescing are inverse. *)
Theorem kmalloc_kfree_roundtrip base total h bs n :
  heap_repr base total h bs → no_adjacent_free bs → is_u32 n →
  (kmalloc h n).1 ≠ 0 →
  heap_repr base total (kfree (kmalloc h n).2 (kmalloc h n).1) bs.
Proof.
  intros Hr Hna Hn Hp. pose proof (kmalloc_repr _ _ _ _ _ Hr Hn) as Hk.
  destruct (ff_alloc _ _) as [[p bs']|] eqn:Ef; [|by rewrite Hk in Hp].
  destruct Hk as [Hpe Hr']. rewrite Hpe.
  apply ff_alloc_Some in Ef as (l & b & r & -> & -> & -> & Hf & Hs & _).
  assert (∃ c, c ∈ take_block b (heap_align_size n) ∧ a_addr c = a_addr b) as (c & Hc & Hca).
  { unfold take_block. case_match; eexists; (split; [left|done]). }
  assert (freed (a_addr b + HDR) (l ++ take_block b (heap_align_size n) ++ r) = l ++ b :: r) as <-.
  2:{ rewrite <-Hca. apply kfree_repr; [done|]. rewrite !elem_of_app. auto. }
  rewrite <-(retake_coalesce l b r (heap_align_size n) Hna Hf). unfold freed.
  replace (a_addr b + HDR - HDR) with (a_addr b) by lia.
  rewrite !fmap_app. f_equal.
  assert (∀ cs : list ablk, (∀ x, x ∈ cs → x ∈ l ++ b :: r ∧ a_addr x ≠ a_addr b) →
            mark_freed (a_addr b) <$> cs = cs) as Hid.
  { intros cs Hcs. etrans; [|apply list_fmap_id]. apply list_fmap_ext. intros i x Hx.
    apply list_elem_of_lookup_2, Hcs in Hx as [_ Hx]. unfold mark_freed.
    by rewrite (proj2 (Z.eqb_neq _ _) Hx). }
  assert (∀ x, x ∈ l ∨ x ∈ r → a_addr x ≠ a_addr b) as Hne.
  { intros x Hx E. destruct (repr_addrs _ _ _ _ (hr_blocks _ _ _ _ Hr)) as [Hnd _].
    rewrite fmap_app, fmap_cons in Hnd. apply NoDup_app in Hnd as (_ & Hd & Hnd).
    apply NoDup_cons in Hnd as [Hnb _]. destruct Hx as [Hx|Hx].
    - apply (Hd (a_addr x)); [by apply list_elem_of_fmap_2|]. rewrite E. left.
    - apply Hnb. rewrite <-E. by apply list_elem_of_fmap_2. }
  rewrite (Hid l), (Hid r); [done|..]; intros x Hx; rewrite elem_of_app, elem_of_cons;
    (split; [tauto|apply Hne; tauto]).
Qed.

Lemma kmalloc_kfree_roundtrip_witness :
  heap_repr 0x52000 0x4D000 (kfree (kmalloc demo_heap 77).2 (kmalloc demo_heap 77).1)
    [mk_ablk 0x52000 (0x4D000 - HDR) true].
Proof.
  apply (kmalloc_kfree_roundtrip _ _ _ _ 77 demo_heap_repr); [exact I|zsolve|vm_compute; discriminate].
Defined.

(** the size rounding wraps.  A request within 3 bytes of [2^32] is
    rounded up to 0, so [kmalloc] hands out a pointer with no room for the
    request instead of failing, whenever the heap has any free block. *)
Theorem kmalloc_size_wraps base total h bs n :
  heap_repr base total h bs → 2 ^ 32 - 3 <= n < 2 ^ 32 → (∃ b, b ∈ bs ∧ a_free b = true) →
  heap_align_size n = 0 ∧ (kmalloc h n).1 ≠ 0.
Proof.
  intros Hr Hn (b & Hb & Hf).
  assert (is_u32 n) as Hu by zsolve.
  assert (heap_align_size n = 0) as E.
  { rewrite heap_align_size_spec by done. zsolve. }
  split; [done|]. pose proof (kmalloc_repr _ _ _ _ _ Hr Hu) as Hk. rewrite E in Hk.
  destruct (ff_alloc 0 bs) as [[p bs']|] eqn:Ef.
  - destruct Hk as [-> _]. apply ff_alloc_Some in Ef as (l & c & r & Hbs & _ & -> & _).
    destruct (repr_in _ _ _ _ c (hr_blocks _ _ _ _ Hr)) as (Hlo & _).
    { rewrite Hbs, elem_of_app, elem_of_cons. auto. }
    pose proof (hr_base _ _ _ _ Hr). unfold HDR in *. lia.
  - exfalso. apply ff_alloc_None in Ef. rewrite Forall_forall in Ef. specialize (Ef b Hb Hf).
    destruct (repr_in _ _ _ _ _ (hr_blocks _ _ _ _ Hr) Hb) as (_ & _ & ? & _). lia.
Qed.

Lemma kmalloc_size_wraps_witness : (kmalloc demo_heap 0xFFFFFFFF).1 ≠ 0.
Proof.
  apply (kmalloc_size_wraps _ _ _ _ 0xFFFFFFFF demo_heap_repr); [lia|].
  eexists. split; [left|reflexivity].
Defined.

(** [kheap_free_bytes] returns the exact sum of the free payloads; the
    32-bit accumulator cannot overflow. *)
Theorem kheap_free_bytes_correct base total h bs :
  heap_repr base total h bs → kheap_free_bytes h = free_total bs.
Proof.
  intros [Hh Hb Ht Hr Hne]. unfold kheap_free_bytes. apply repr_length in Hr as Hl.
  assert (cursor base bs = heap_head h) as <- by (rewrite Hh; by destruct bs).
  pose proof (repr_le _ _ _ _ Hr). unfold HDR in *.
  erewrite kheap_free_loop_spec; try done; unfold kheap_fuel; lia.
Qed.

Lemma kheap_free_bytes_correct_witness : kheap_free_bytes demo_heap = 0x4CFF0.
Proof. exact (kheap_free_bytes_correct _ _ _ _ demo_heap_repr). Defined.
