(* ===== verification/Vma.v ===== *)
(** * Virtual memory areas: the model (kernel/mm/vma.c, kernel/mm/vm_layout.h)

    A process keeps its areas in a table of fixed capacity, sorted by start
    address, of which the first [vma_count] entries are live.  The table is the
    heap-allocated one of the address space when there is one, and the embedded
    array of [PROCESS_MAX_VMAS] entries otherwise.  The model keeps tables,
    counts and capacities as the code does: in-place loops, [memmove] and the
    rebuilt scratch table of unmap and protect.  [kmalloc] and [kfree] go
    through the [KAllocator] interface, whose state is threaded through every
    operation.  A pointer argument that is never NULL is a value. *)

From S2P Require Import Prelude Interfaces.

(** ** Data *)

Definition VMA_FLAG_READ : Z := 0x01.
Definition VMA_FLAG_WRITE : Z := 0x02.
Definition VMA_FLAG_EXEC : Z := 0x04.
Definition VMA_FLAG_ANON : Z := 0x08.
Definition VMA_FLAG_PRIVATE : Z := 0x10.
Definition VMA_FLAG_GROWSDOWN : Z := 0x20.
Definition VMA_PROT_FLAGS : Z := VMA_FLAG_READ |u VMA_FLAG_WRITE |u VMA_FLAG_EXEC.

Definition VMA_KIND_GENERIC : Z := 0.
Definition VMA_KIND_HEAP : Z := 1.
Definition VMA_KIND_STACK : Z := 2.
Definition VMA_KIND_IMAGE : Z := 3.

Definition PROCESS_MAX_VMAS : Z := 16.
Definition VM_MMAP_MIN : Z := 0x40000000.
Definition VM_STACK_GUARD_GAP : Z := 1024 * 1024.

(** [sizeof(vm_area_t)]: eight 32-bit fields. *)
Definition SIZEOF_VMA : Z := 32.

Record vfs_file_ref := mk_ref { mount_id : Z; inode_num : Z }.

Record vm_area := mk_vma {
  start : Z;
  end_ : Z;
  flags : Z;
  kind : Z;
  file_offset : Z;
  file_size : Z;
  file_ref : vfs_file_ref;
}.

#[global] Instance vfs_file_ref_eq_dec : EqDecision vfs_file_ref.
Proof. solve_decision. Defined.
#[global] Instance vm_area_eq_dec : EqDecision vm_area.
Proof. solve_decision. Defined.

(** [memset(.., 0, ..)] *)
Definition vma_zero : vm_area := mk_vma 0 0 0 0 0 0 (mk_ref 0 0).
#[global] Instance vm_area_inhabited : Inhabited vm_area := populate vma_zero.

Record address_space := mk_as {
  as_vmas : list vm_area;
  as_vmas_ptr : Z;
  as_vma_count : Z;
  as_vma_capacity : Z;
  as_brk : Z;
  as_committed_pages : Z;
}.

Record process := mk_proc {
  as_ : option address_space;
  p_vmas : list vm_area;
  p_vma_count : Z;
  p_brk : Z;
  p_stack_low_limit : Z;
}.

(** ** Page rounding (vm_layout.h) *)

Definition vm_page_align_down (value : Z) : Z := value &u not32 0xFFF.
Definition vm_page_align_up (value : Z) : Z :=
  if (UINT32_MAX - 0xFFF) <? value then 0 else (value +u 0xFFF) &u not32 0xFFF.

(** ** The table of a process *)

Definition vma_table (p : process) : list vm_area :=
  match as_ p with Some a => as_vmas a | None => p_vmas p end.
Definition vma_count (p : process) : Z :=
  match as_ p with Some a => as_vma_count a | None => p_vma_count p end.
Definition vma_capacity (p : process) : Z :=
  match as_ p with Some a => as_vma_capacity a | None => PROCESS_MAX_VMAS end.
Definition vma_brk (p : process) : Z :=
  match as_ p with Some a => as_brk a | None => p_brk p end.

(** Stores through the pointers [vma_table(proc)] and [vma_count_ptr(proc)]. *)
Definition set_table (p : process) (t : list vm_area) (n : Z) : process :=
  match as_ p with
  | Some a => mk_proc (Some (mk_as t (as_vmas_ptr a) n (as_vma_capacity a) (as_brk a)
                               (as_committed_pages a)))
                (p_vmas p) (p_vma_count p) (p_brk p) (p_stack_low_limit p)
  | None => mk_proc None t n (p_brk p) (p_stack_low_limit p)
  end.

Definition zeros (n : Z) : list vm_area := replicate (Z.to_nat n) vma_zero.

(** ** Predicates on areas *)

Definition vma_overlaps (lhs : vm_area) (s e : Z) : bool := (s <? end_ lhs) && (start lhs <? e).

Definition vma_is_file_backed (v : vm_area) : bool :=
  (kind v =? VMA_KIND_GENERIC) && (flags v &u VMA_FLAG_ANON =? 0).

Definition vma_slice (v : vm_area) (s e : Z) : vm_area :=
  mk_vma s e (flags v) (kind v)
    (if vma_is_file_backed v && (start v <? s) then file_offset v +u (s -u start v) else file_offset v)
    (file_size v) (file_ref v).

Definition vma_replace_prot_flags (old_flags new_flags : Z) : Z :=
  (old_flags &u not32 VMA_PROT_FLAGS) |u (new_flags &u VMA_PROT_FLAGS).

Definition vma_can_merge (lhs rhs : vm_area) : bool :=
  if vma_is_file_backed lhs || vma_is_file_backed rhs then false
  else (end_ lhs =? start rhs) && (flags lhs =? flags rhs) && (kind lhs =? kind rhs) &&
       (file_offset lhs =? file_offset rhs) && (file_size lhs =? file_size rhs) &&
       (mount_id (file_ref lhs) =? mount_id (file_ref rhs)) &&
       (inode_num (file_ref lhs) =? inode_num (file_ref rhs)).

Definition set_end (v : vm_area) (e : Z) : vm_area :=
  mk_vma (start v) e (flags v) (kind v) (file_offset v) (file_size v) (file_ref v).
Definition set_flags (v : vm_area) (f : Z) : vm_area :=
  mk_vma (start v) (end_ v) f (kind v) (file_offset v) (file_size v) (file_ref v).

(** ** Capacity *)

(** The doubling loop: [inl c] is a new capacity, [inr tt] the [-1] exit; with
    no fuel left there is no result. *)
Fixpoint grow_capacity (fuel : nat) (next_cap needed : Z) : option (Z + unit) :=
  match fuel with
  | O => None
  | S fuel =>
      if next_cap <? needed then
        if 0x80000000 <? next_cap then Some (inr ())
        else grow_capacity fuel (next_cap *u 2) needed
      else Some (inl next_cap)
  end.

(** 33 rounds: 32 doublings leave any non-zero 32-bit capacity. *)
Definition GROW_FUEL : nat := 33.

Section with_heap.
Context {H : Type} `{KAllocator H}.
Implicit Types (h : H) (p : process).

Definition vma_ensure_capacity h p (needed : Z) : Z * H * process :=
  match as_ p with
  | None => ((if needed <=? PROCESS_MAX_VMAS then 0 else -1), h, p)
  | Some a =>
      if needed <=? as_vma_capacity a then (0, h, p)
      else
        let cap := if as_vma_capacity a =? 0 then 32 else as_vma_capacity a in
        match grow_capacity GROW_FUEL cap needed with
        | Some (inl next_cap) =>
            let '(ptr, h) := ka_malloc h (SIZEOF_VMA *u next_cap) in
            if ptr =? 0 then (-1, h, p)
            else
              let next := zeros next_cap in
              let next :=
                if negb (as_vmas_ptr a =? 0) && (0 <? as_vma_count a)
                then take (Z.to_nat (as_vma_count a)) (as_vmas a) ++
                     drop (Z.to_nat (as_vma_count a)) next
                else next in
              let h := ka_free h (as_vmas_ptr a) in
              (0, h, mk_proc (Some (mk_as next ptr (as_vma_count a) next_cap (as_brk a)
                                      (as_committed_pages a)))
                       (p_vmas p) (p_vma_count p) (p_brk p) (p_stack_low_limit p))
        | _ => (-1, h, p)
        end
  end.

Definition vma_init p : process :=
  let t := vma_table p in
  let capacity := vma_capacity p in
  set_table p (if negb (bool_decide (t = [])) && (0 <? capacity)
               then zeros capacity ++ drop (Z.to_nat capacity) t else t) 0.

(** ** Coalescing in place *)

Definition vma_coalesce_step (i : Z) (s : list vm_area * Z) : list vm_area * Z :=
  let '(vmas, out) := s in
  if (0 <? out) && vma_can_merge vmas.[out - 1] vmas.[i] then
    (vmas.[out - 1 <- set_end vmas.[out - 1] (end_ vmas.[i])], out)
  else
    ((if negb (out =? i) then vmas.[out <- vmas.[i]] else vmas), out +u 1).

Definition vma_coalesce p : process :=
  let old_count := vma_count p in
  let '(vmas, new_count) :=
    for_loop 0 (Z.to_nat old_count) vma_coalesce_step (vma_table p, 0) in
  let vmas := for_loop new_count (Z.to_nat (old_count - new_count))
                (λ out v, v.[out <- vma_zero]) vmas in
  set_table p vmas new_count.

(** Append to a scratch table, merging with its last entry when possible. *)
Definition vma_append_area (dst : list vm_area) (count capacity : Z) (area : vm_area)
    : option (list vm_area * Z) :=
  if end_ area <? start area then None
  else if (0 <? count) && vma_can_merge dst.[count - 1] area then
    Some (dst.[count - 1 <- set_end dst.[count - 1] (end_ area)], count)
  else if capacity <=? count then None
  else Some (dst.[count <- area], count +u 1).

Definition vma_range_is_free p (s e : Z) : bool :=
  if e <=? s then false
  else
    match for_exit 0 (Z.to_nat (vma_count p))
            (λ i _, if vma_overlaps (vma_table p).[i] s e then inl false else inr ()) () with
    | inl r => r
    | inr _ => true
    end.

(** ** Insertion *)

(** [while (insert_at < count && vmas[insert_at].start <= area->start)]:
    [inl tt] is the overlap exit, [inr (inl i)] the loop's end at [i]. *)
Definition vma_insert_scan (vmas : list vm_area) (count : Z) (area : vm_area) : unit + Z :=
  match for_exit 0 (Z.to_nat count)
          (λ i (_ : unit),
             if start vmas.[i] <=? start area then
               if vma_overlaps vmas.[i] (start area) (end_ area) then inl (inl ()) else inr ()
             else inl (inr i)) () with
  | inl (inl _) => inl ()
  | inl (inr i) => inr i
  | inr _ => inr count
  end.

(** [k_memmove(&t[dst], &t[src], n * sizeof t[0])] *)
Definition table_memmove (t : list vm_area) (dst src n : Z) : list vm_area :=
  take (Z.to_nat dst) t ++ take (Z.to_nat n) (drop (Z.to_nat src) t) ++
  drop (Z.to_nat (dst + n)) t.

Definition vma_insert_area h p (area : vm_area) : Z * H * process :=
  if end_ area <? start area then (-1, h, p)
  else
    let '(rc, h, p) := vma_ensure_capacity h p (vma_count p +u 1) in
    if negb (rc =? 0) then (-1, h, p)
    else
      let vmas := vma_table p in
      let count := vma_count p in
      match vma_insert_scan vmas count area with
      | inl _ => (-1, h, p)
      | inr insert_at =>
          if (insert_at <? count) && vma_overlaps vmas.[insert_at] (start area) (end_ area)
          then (-1, h, p)
          else
            let vmas := if insert_at <? count
                        then table_memmove vmas (insert_at + 1) insert_at (count - insert_at)
                        else vmas in
            let vmas := vmas.[insert_at <- area] in
            (0, h, vma_coalesce (set_table p vmas (count +u 1)))
      end.

Definition vma_add h p (s e fl k : Z) : Z * H * process :=
  vma_insert_area h p (mk_vma s e fl k 0 0 (mk_ref 0 0)).

(** ** Lookup *)

(** The index of the entry, which is what the returned pointer denotes. *)
Definition vma_find p (addr : Z) : option Z :=
  match for_exit 0 (Z.to_nat (vma_count p))
          (λ i (_ : unit), let v := (vma_table p).[i] in
             if (start v <=? addr) && (addr <? end_ v) then inl i else inr ()) () with
  | inl i => Some i
  | inr _ => None
  end.

Definition vma_find_const p (addr : Z) : option vm_area :=
  match for_exit 0 (Z.to_nat (vma_count p))
          (λ i (_ : unit), let v := (vma_table p).[i] in
             if (start v <=? addr) && (addr <? end_ v) then inl v else inr ()) () with
  | inl v => Some v
  | inr _ => None
  end.

Definition vma_find_kind p (k : Z) : option Z :=
  match for_exit 0 (Z.to_nat (vma_count p))
          (λ i (_ : unit), if kind (vma_table p).[i] =? k then inl i else inr ()) () with
  | inl i => Some i
  | inr _ => None
  end.

Definition vma_find_kind_const p (k : Z) : option vm_area :=
  match for_exit 0 (Z.to_nat (vma_count p))
          (λ i (_ : unit), let v := (vma_table p).[i] in if kind v =? k then inl v else inr ()) () with
  | inl v => Some v
  | inr _ => None
  end.

(** ** Top-down placement *)

(** The scan over the table from the last entry to the first; the loop counter
    [j] stands for [i = count - j]. *)
Definition vma_gap_step (vmas : list vm_area) (count low len : Z) (j : Z) (scan_end : Z) : Z + Z :=
  let v := vmas.[count - j - 1] in
  if scan_end <=? start v then inr scan_end
  else
    let gap_start := if low <? end_ v then vm_page_align_up (end_ v) else low in
    if (gap_start <? scan_end) && (len <=? scan_end -u gap_start) then inl (scan_end -u len)
    else inr (vm_page_align_down (start v)).

Definition vma_find_topdown_gap p (hint length : Z) : option Z :=
  if length =? 0 then None
  else
    let len := vm_page_align_up length in
    if len =? 0 then None
    else
      match vma_find_kind_const p VMA_KIND_STACK with
      | None => None
      | Some stack_vma =>
          let low := vm_page_align_up (vma_brk p) in
          let low := if low <? VM_MMAP_MIN then VM_MMAP_MIN else low in
          let high := start stack_vma in
          let high := if VM_STACK_GUARD_GAP <? high then high -u VM_STACK_GUARD_GAP else high in
          if (high <=? low) || (high -u low <? len) then None
          else if negb (hint =? 0) && (hint &u (PAGE_SIZE - 1) =? 0) && (low <=? hint) &&
                  (hint <? (hint +u len)) && ((hint +u len) <=? high) &&
                  vma_range_is_free p hint (hint +u len)
          then Some hint
          else
            match for_exit 0 (Z.to_nat (vma_count p))
                    (vma_gap_step (vma_table p) (vma_count p) low len) high with
            | inl s => Some s
            | inr scan_end =>
                if (low <? scan_end) && (len <=? scan_end -u low) then Some (scan_end -u len)
                else None
            end
      end.

Definition vma_map_anonymous h p (hint length fl : Z) : option Z * H * process :=
  match vma_find_topdown_gap p hint length with
  | None => (None, h, p)
  | Some s =>
      let len := vm_page_align_up length in
      let '(rc, h, p) := vma_add h p s (s +u len) fl VMA_KIND_GENERIC in
      if negb (rc =? 0) then (None, h, p) else (Some s, h, p)
  end.

Definition vma_map_file_private h p (hint length fl : Z) (ref : vfs_file_ref) (off size : Z)
    : option Z * H * process :=
  match vma_find_topdown_gap p hint length with
  | None => (None, h, p)
  | Some s =>
      let len := vm_page_align_up length in
      let '(rc, h, p) :=
        vma_insert_area h p (mk_vma s (s +u len) fl VMA_KIND_GENERIC off size ref) in
      if negb (rc =? 0) then (None, h, p) else (Some s, h, p)
  end.

(** ** Unmapping *)

Definition overlap_start (s : Z) (v : vm_area) : Z := if start v <? s then s else start v.
Definition overlap_end (e : Z) (v : vm_area) : Z := if e <? end_ v then e else end_ v.

Definition unmap_count_step (vmas : list vm_area) (s e : Z) (i : Z) (needed : Z) : unit + Z :=
  let v := vmas.[i] in
  if negb (vma_overlaps v s e) then inr (needed +u 1)
  else if negb (kind v =? VMA_KIND_GENERIC) then inl ()
  else
    let needed := if start v <? overlap_start s v then needed +u 1 else needed in
    inr (if overlap_end e v <? end_ v then needed +u 1 else needed).

(** [vma_append_area] followed by the error exit ([kfree(rebuilt); return -1]). *)
Definition append_or_exit (capacity : Z) (area : vm_area) (r : list vm_area * Z)
    : unit + (list vm_area * Z) :=
  match vma_append_area r.1 r.2 capacity area with
  | Some r => inr r
  | None => inl ()
  end.

Definition seq_exit {R S} (a : R + S) (k : S → R + S) : R + S :=
  match a with inl r => inl r | inr s => k s end.

Definition unmap_rebuild_step (vmas : list vm_area) (capacity s e : Z) (i : Z)
    (r : list vm_area * Z) : unit + (list vm_area * Z) :=
  let v := vmas.[i] in
  if negb (vma_overlaps v s e) then append_or_exit capacity v r
  else
    seq_exit
      (if start v <? overlap_start s v
       then append_or_exit capacity (vma_slice v (start v) (overlap_start s v)) r else inr r)
      (λ r, if overlap_end e v <? end_ v
            then append_or_exit capacity (vma_slice v (overlap_end e v) (end_ v)) r else inr r).

(** The common tail of unmap and protect: clear the table, copy the rebuilt
    entries over it and free the scratch table. *)
Definition install_rebuilt h p (capacity ptr : Z) (r : list vm_area * Z) : Z * H * process :=
  let t := zeros capacity ++ drop (Z.to_nat capacity) (vma_table p) in
  let t := if 0 <? r.2 then take (Z.to_nat r.2) r.1 ++ drop (Z.to_nat r.2) t else t in
  (0, ka_free h ptr, set_table p t r.2).

Definition vma_unmap_range h p (s e : Z) : Z * H * process :=
  if e <=? s then (-1, h, p)
  else
    let old_count := vma_count p in
    match for_exit 0 (Z.to_nat old_count) (unmap_count_step (vma_table p) s e) 0 with
    | inl _ => (-1, h, p)
    | inr needed_count =>
        let '(rc, h, p) := vma_ensure_capacity h p needed_count in
        if negb (rc =? 0) then (-1, h, p)
        else
          let capacity := vma_capacity p in
          let '(ptr, h) := ka_malloc h (SIZEOF_VMA *u capacity) in
          if ptr =? 0 then (-1, h, p)
          else
            match for_exit 0 (Z.to_nat old_count)
                    (unmap_rebuild_step (vma_table p) capacity s e) (zeros capacity, 0) with
            | inl _ => (-1, ka_free h ptr, p)
            | inr r => install_rebuilt h p capacity ptr r
            end
    end.

(** ** Changing protection *)

Definition protect_count_step (vmas : list vm_area) (s e : Z) (i : Z) (st : Z * Z)
    : unit + (Z * Z) :=
  let '(needed, cursor) := st in
  let v := vmas.[i] in
  if negb (vma_overlaps v s e) then inr (needed +u 1, cursor)
  else if negb (kind v =? VMA_KIND_GENERIC) then inl ()
  else if negb (overlap_start s v =? cursor) then inl ()
  else
    let needed := if start v <? overlap_start s v then needed +u 1 else needed in
    let needed := needed +u 1 in
    let needed := if overlap_end e v <? end_ v then needed +u 1 else needed in
    inr (needed, overlap_end e v).

Definition protect_rebuild_step (vmas : list vm_area) (capacity s e new_flags : Z) (i : Z)
    (st : (list vm_area * Z) * Z) : unit + ((list vm_area * Z) * Z) :=
  let '(r, cursor) := st in
  let v := vmas.[i] in
  if negb (vma_overlaps v s e) then
    match append_or_exit capacity v r with inl x => inl x | inr r => inr (r, cursor) end
  else if negb (overlap_start s v =? cursor) then inl ()
  else
    match
      seq_exit
        (if start v <? overlap_start s v
         then append_or_exit capacity (vma_slice v (start v) (overlap_start s v)) r else inr r)
        (λ r, seq_exit
           (append_or_exit capacity
              (set_flags (vma_slice v (overlap_start s v) (overlap_end e v))
                 (vma_replace_prot_flags (flags v) new_flags)) r)
           (λ r, if overlap_end e v <? end_ v
                 then append_or_exit capacity (vma_slice v (overlap_end e v) (end_ v)) r
                 else inr r))
    with
    | inl x => inl x
    | inr r => inr (r, overlap_end e v)
    end.

Definition vma_protect_range h p (s e new_flags : Z) : Z * H * process :=
  if e <=? s then (-1, h, p)
  else
    let old_count := vma_count p in
    match for_exit 0 (Z.to_nat old_count) (protect_count_step (vma_table p) s e) (0, s) with
    | inl _ => (-1, h, p)
    | inr (needed_count, cursor) =>
        if negb (cursor =? e) then (-1, h, p)
        else
          let '(rc, h, p) := vma_ensure_capacity h p needed_count in
          if negb (rc =? 0) then (-1, h, p)
          else
            let capacity := vma_capacity p in
            let '(ptr, h) := ka_malloc h (SIZEOF_VMA *u capacity) in
            if ptr =? 0 then (-1, h, p)
            else
              match for_exit 0 (Z.to_nat old_count)
                      (protect_rebuild_step (vma_table p) capacity s e new_flags)
                      ((zeros capacity, 0), s) with
              | inl _ => (-1, ka_free h ptr, p)
              | inr (r, _) => install_rebuilt h p capacity ptr r
              end
    end.
End with_heap.
