(* ===== verification/VmaSpec.v ===== *)
(** * Virtual memory areas: specification and proofs

    What a table of areas means is a partial map from addresses to attributes
    ([vma_at]).  The in-place and scratch-table algorithms of [Vma] are shown
    to compute list functions ([push], [coalesce_list], piecewise slicing), and
    those to change the address map exactly as insertion, unmapping and
    protection promise. *)

From stdpp Require Import sorting.
From S2P Require Import Prelude Interfaces Vma.

(** ** Meaning of a list of areas *)

(** What a fault on an address needs to know: flags, kind, and where the page
    comes from.  For a file-backed area the offset is that of the address
    itself, so it does not depend on how the area has been cut. *)
Record vattr := mk_attr {
  at_flags : Z;
  at_kind : Z;
  at_offset : Z;
  at_size : Z;
  at_ref : vfs_file_ref;
}.

Definition covers (v : vm_area) (x : Z) : bool := (start v <=? x) && (x <? end_ v).

Definition vattr_of (v : vm_area) (x : Z) : vattr :=
  mk_attr (flags v) (kind v)
    (if vma_is_file_backed v then u32 (file_offset v + (x - start v)) else file_offset v)
    (file_size v) (file_ref v).

Fixpoint vma_at (l : list vm_area) (x : Z) : option vattr :=
  match l with
  | [] => None
  | v :: l => if covers v x then Some (vattr_of v x) else vma_at l x
  end.

Lemma vma_at_app l1 l2 x :
  vma_at (l1 ++ l2) x = match vma_at l1 x with Some r => Some r | None => vma_at l2 x end.
Proof. induction l1 as [|v l1 IH]; simpl; [done|]. by destruct (covers v x). Qed.

(** ** Well-formed tables *)

Definition valid_area (v : vm_area) : Prop :=
  0 <= start v ∧ start v <= end_ v ∧ end_ v < 2 ^ 32 ∧
  is_u32 (flags v) ∧ is_u32 (file_offset v) ∧ is_u32 (file_size v).

(** Every earlier area ends before a later non-empty one starts. *)
Definition before (a b : vm_area) : Prop := end_ a <= start b ∨ end_ b <= start b.

Definition live (p : process) : list vm_area := take (Z.to_nat (vma_count p)) (vma_table p).

Record vma_inv (p : process) : Prop := {
  vi_len : Z.of_nat (length (vma_table p)) = vma_capacity p;
  vi_count : 0 <= vma_count p <= vma_capacity p;
  vi_cap : vma_capacity p < 2 ^ 32;
  vi_valid : Forall valid_area (live p);
  vi_sorted : StronglySorted before (live p);
  vi_ptr : match as_ p with Some a => as_vmas_ptr a ≠ 0 | None => True end;
}.

Lemma vma_at_elem l x r :
  vma_at l x = Some r → ∃ v, v ∈ l ∧ covers v x = true ∧ r = vattr_of v x.
Proof.
  induction l as [|v l IH]; simpl; [done|]. destruct (covers v x) eqn:E.
  - intros [= <-]. exists v. split; [left|done].
  - intros H. destruct (IH H) as (w & Hw & ?). exists w. split; [by right|done].
Qed.

Lemma vma_at_None l x : vma_at l x = None ↔ Forall (λ v, covers v x = false) l.
Proof.
  induction l as [|v l IH]; simpl; [done|]. rewrite Forall_cons, <-IH.
  destruct (covers v x); naive_solver.
Qed.

Lemma covers_spec v x : covers v x = true ↔ start v <= x < end_ v.
Proof. unfold covers. rewrite andb_true_iff, Z.leb_le, Z.ltb_lt. done. Qed.

Lemma before_covers a b x : before a b → covers a x = true → covers b x = true → False.
Proof. unfold before. rewrite !covers_spec. lia. Qed.

(** In a sorted table at most one area covers an address, so lookup does not
    depend on where the area stands. *)
Lemma vma_at_middle l1 v l2 x :
  StronglySorted before (l1 ++ v :: l2) →
  vma_at (l1 ++ v :: l2) x = if covers v x then Some (vattr_of v x) else vma_at (l1 ++ l2) x.
Proof.
  intros Hs. rewrite !vma_at_app. simpl. destruct (covers v x) eqn:E; [|done].
  replace (vma_at l1 x) with (@None vattr); [done|]. symmetry. apply vma_at_None, Forall_forall.
  intros w Hw. destruct (covers w x) eqn:Ew; [|done]. exfalso.
  apply StronglySorted_app in Hs as (Hb & _ & _). eapply before_covers; [|exact Ew|exact E].
  apply Hb; [done|left].
Qed.

(** ** Appending with merging *)

Definition push (dst : list vm_area) (a : vm_area) : list vm_area :=
  match last dst with
  | Some l => if vma_can_merge l a
              then take (length dst - 1) dst ++ [set_end l (end_ a)] else dst ++ [a]
  | None => dst ++ [a]
  end.

Definition coalesce_list (l : list vm_area) : list vm_area := foldl push [] l.

Lemma push_snoc d l a :
  push (d ++ [l]) a = if vma_can_merge l a then d ++ [set_end l (end_ a)] else (d ++ [l]) ++ [a].
Proof.
  unfold push. rewrite last_snoc, length_app. simpl.
  replace (length d + 1 - 1)%nat with (length d) by lia. by rewrite take_app_length.
Qed.

Lemma push_nil a : push [] a = [a].
Proof. done. Qed.

Lemma can_merge_spec l a :
  vma_can_merge l a = true →
  vma_is_file_backed l = false ∧ vma_is_file_backed a = false ∧ end_ l = start a ∧
  flags l = flags a ∧ kind l = kind a ∧ file_offset l = file_offset a ∧
  file_size l = file_size a ∧ file_ref l = file_ref a.
Proof.
  unfold vma_can_merge. destruct (_ || _) eqn:E; [done|]. intros Hm. bprop.
  repeat split; try done. destruct (file_ref l), (file_ref a); simpl in *; congruence.
Qed.

Lemma set_end_backed l e : vma_is_file_backed (set_end l e) = vma_is_file_backed l.
Proof. done. Qed.

Lemma push_at dst a x :
  Forall valid_area dst → valid_area a → vma_at (push dst a) x = vma_at (dst ++ [a]) x.
Proof.
  intros Hd Ha. destruct dst as [|l d _] using rev_ind; [done|]. rewrite push_snoc.
  destruct (vma_can_merge l a) eqn:E; [|done].
  apply can_merge_spec in E as (Hl & Hab & Hend & Hfl & Hk & Ho & Hsz & Hr).
  apply Forall_app in Hd as [_ Hlv]. apply Forall_cons in Hlv as [Hlv _].
  rewrite <-app_assoc, !vma_at_app. destruct (vma_at d x); [done|]. simpl.
  unfold valid_area in *. unfold vattr_of. rewrite set_end_backed, Hl, Hab.
  assert (covers (set_end l (end_ a)) x = covers l x || covers a x) as ->.
  { unfold covers. cbn [start end_ set_end]. bcase; simpl; try done; lia. }
  cbn [flags kind file_offset file_size file_ref set_end].
  destruct (covers l x); simpl; [done|]. destruct (covers a x); [|done]. congruence.
Qed.

Lemma push_valid dst a :
  Forall valid_area dst → valid_area a → Forall valid_area (push dst a).
Proof.
  intros Hd Ha. destruct dst as [|l d _] using rev_ind; [by apply Forall_singleton|]. rewrite push_snoc.
  destruct (vma_can_merge l a) eqn:E; [|apply Forall_app; split; [done|by apply Forall_singleton]].
  apply can_merge_spec in E as (_ & _ & Hend & _).
  apply Forall_app in Hd as [Hd Hl]. apply Forall_cons in Hl as [Hl _]. apply Forall_app. split; [done|].
  apply Forall_singleton. unfold valid_area, set_end, is_u32 in *; simpl. lia.
Qed.

Lemma push_sorted dst a :
  Forall valid_area dst → valid_area a →
  StronglySorted before (dst ++ [a]) → StronglySorted before (push dst a).
Proof.
  intros Hd Ha Hs. destruct dst as [|l d _] using rev_ind; [done|]. rewrite push_snoc.
  destruct (vma_can_merge l a) eqn:E; [|done].
  apply can_merge_spec in E as (_ & _ & Hend & _).
  apply Forall_app in Hd as [Hd Hl]. apply Forall_cons in Hl as [Hl _].
  rewrite <-app_assoc in Hs. apply StronglySorted_app in Hs as (Hb & Hsd & _).
  apply StronglySorted_app. split; [|split; [done|repeat constructor]].
  intros e y He Hy. apply list_elem_of_singleton in Hy as ->.
  pose proof (Hb e l He ltac:(left)) as H1. pose proof (Hb e a He ltac:(right; left)) as H2.
  unfold before, valid_area, set_end in *; simpl. lia.
Qed.

(** A later area that follows [dst] and [a] also follows [push dst a]. *)
Lemma push_before dst a w :
  (∀ e, e ∈ dst → before e w) → before a w → ∀ e, e ∈ push dst a → before e w.
Proof.
  intros Hd Ha e. destruct dst as [|l d _] using rev_ind.
  { intros He. apply list_elem_of_singleton in He as ->. done. }
  rewrite push_snoc. destruct (vma_can_merge l a) eqn:E.
  - rewrite elem_of_app, list_elem_of_singleton. intros [He| ->]; [apply Hd; set_solver|].
    unfold before, set_end in *; simpl. done.
  - rewrite elem_of_app, list_elem_of_singleton. intros [He| ->]; auto.
Qed.

Lemma push_length dst a : (length (push dst a) <= S (length dst))%nat.
Proof.
  destruct dst as [|l d _] using rev_ind; [done|]. rewrite push_snoc.
  case_match; rewrite !length_app; simpl; lia.
Qed.

Lemma fold_push_length qs d : (length (foldl push d qs) <= length d + length qs)%nat.
Proof.
  revert d. induction qs as [|q qs IH]; intros d; simpl; [lia|].
  specialize (IH (push d q)). pose proof (push_length d q). lia.
Qed.

(** Folding [push] over a list keeps the address map, validity and order. *)
Lemma fold_push_ok acc l :
  Forall valid_area (acc ++ l) → StronglySorted before (acc ++ l) →
  let r := foldl push acc l in
  (∀ x, vma_at r x = vma_at (acc ++ l) x) ∧ Forall valid_area r ∧ StronglySorted before r ∧
  (length r <= length acc + length l)%nat.
Proof.
  revert acc. induction l as [|a l IH]; intros acc Hv Hs; simpl.
  { rewrite app_nil_r in *. repeat split; try done. lia. }
  assert (Forall valid_area acc ∧ valid_area a ∧ Forall valid_area l) as (Hacc & Ha & Hl).
  { apply Forall_app in Hv as [? Hv]. by apply Forall_cons in Hv. }
  assert (StronglySorted before (push acc a ++ l)) as Hs'.
  { rewrite (cons_middle a), app_assoc in Hs. apply StronglySorted_app in Hs as (Hb & Hs1 & Hs2).
    apply StronglySorted_app. split; [|split; [by apply push_sorted|done]].
    intros e w He Hw. revert e He. apply push_before.
    - intros e He. apply Hb; [rewrite elem_of_app; auto|done].
    - apply Hb; [rewrite elem_of_app, list_elem_of_singleton; auto|done]. }
  destruct (IH (push acc a)) as (H1 & H2 & H3 & H4).
  { apply Forall_app. split; [by apply push_valid|done]. }
  { done. }
  repeat split; try done.
  - intros x. rewrite H1, !vma_at_app, push_at by done. rewrite vma_at_app. simpl.
    destruct (vma_at acc x); [done|]. by destruct (covers a x).
  - pose proof (push_length acc a). lia.
Qed.

(** ** The table routines compute these list functions *)

Lemma last_take (l : list vm_area) n :
  0 < n <= Z.of_nat (length l) → last (take (Z.to_nat n) l) = Some l.[n - 1].
Proof.
  intros Hn. replace n with (n - 1 + 1) at 1 by lia.
  rewrite take_arr_next by lia. apply last_snoc.
Qed.

Lemma push_take (l : list vm_area) n a :
  0 < n <= Z.of_nat (length l) →
  push (take (Z.to_nat n) l) a =
    if vma_can_merge l.[n - 1] a
    then take (Z.to_nat n) (l.[n - 1 <- set_end l.[n - 1] (end_ a)])
    else take (Z.to_nat n) l ++ [a].
Proof.
  intros Hn. unfold push. rewrite last_take by done. case_match; [|done].
  rewrite length_take_le by lia.
  replace (take (Z.to_nat n) (l.[n-1<-_]))
    with (take (Z.to_nat (n - 1 + 1)) (l.[n-1<-set_end l.[n - 1] (end_ a)])) by (do 2 f_equal; lia).
  rewrite take_arr_snoc by lia. rewrite take_take. do 2 f_equal. lia.
Qed.

Lemma append_area_push dst count cap a :
  Z.of_nat (length dst) = cap → 0 <= count <= cap → cap < 2 ^ 32 → valid_area a →
  match vma_append_area dst count cap a with
  | Some (dst', c') =>
      Z.of_nat (length dst') = cap ∧ 0 <= c' <= cap ∧
      take (Z.to_nat c') dst' = push (take (Z.to_nat count) dst) a
  | None => cap <= count
  end.
Proof.
  intros Hl Hc Hcap Ha. unfold vma_append_area.
  destruct (Z.ltb_spec (end_ a) (start a)); [unfold valid_area in Ha; lia|].
  destruct (Z.ltb_spec 0 count); simpl.
  - pose proof (push_take dst count a ltac:(lia)) as Hp.
    destruct (vma_can_merge dst.[count - 1] a).
    { rewrite length_arr_set, Hp. done. }
    destruct (Z.leb_spec cap count); [done|]. rewrite u32_small, length_arr_set, Hp by zsolve.
    repeat split; try lia. rewrite take_arr_snoc by lia. done.
  - replace count with 0 by lia. destruct (Z.leb_spec cap 0); [lia|].
    rewrite u32_small, length_arr_set by zsolve. repeat split; try lia.
    rewrite take_arr_snoc by lia. done.
Qed.

Lemma coalesce_loop_spec (orig : list vm_area) (n : nat) :
  (n <= length orig)%nat → Z.of_nat (length orig) < 2 ^ 32 →
  let '(t, out) := for_loop 0 n vma_coalesce_step (orig, 0) in
  length t = length orig ∧ 0 <= out <= Z.of_nat n ∧
  take (Z.to_nat out) t = coalesce_list (take n orig).
Proof.
  intros Hn Hcap.
  pose proof (for_loop_inv (λ i (s : list vm_area * Z),
    length s.1 = length orig ∧ 0 <= s.2 <= i ∧
    take (Z.to_nat s.2) s.1 = coalesce_list (take (Z.to_nat i) orig) ∧
    drop (Z.to_nat i) s.1 = drop (Z.to_nat i) orig) vma_coalesce_step 0 n (orig, 0)) as Hloop.
  cbv beta in Hloop. destruct (for_loop 0 n vma_coalesce_step (orig, 0)) as [t out].
  cbn [fst snd] in Hloop. rewrite Z.add_0_l, Nat2Z.id in Hloop. destruct Hloop as (H1 & H2 & H3 & _); [|split; [done|]; split; [lia|done]|done].
  intros i [s o] Hi (Hl & Ho & Ht & Hd). simpl in *.
  assert (s.[i] = orig.[i]) as Hsi.
  { apply arr_get_lookup; [lia|]. rewrite <-(Nat.add_0_r (Z.to_nat i)), <-lookup_drop, Hd, lookup_drop.
    rewrite Nat.add_0_r. apply arr_lookup. lia. }
  assert (coalesce_list (take (Z.to_nat (i + 1)) orig) = push (take (Z.to_nat o) s) orig.[i]) as ->.
  { rewrite take_arr_next by lia. unfold coalesce_list. rewrite foldl_snoc. by rewrite Ht. }
  assert (∀ s' : list vm_area, drop (Z.to_nat i) s' = drop (Z.to_nat i) orig →
            drop (Z.to_nat (i + 1)) s' = drop (Z.to_nat (i + 1)) orig) as Hnext.
  { intros s' E. replace (Z.to_nat (i + 1)) with (Z.to_nat i + 1)%nat by lia.
    by rewrite <-!drop_drop, E. }
  unfold vma_coalesce_step. rewrite Hsi.
  destruct (Z.ltb_spec 0 o) as [Hpos|Hpos]; cbn [andb].
  - pose proof (push_take s o orig.[i] ltac:(lia)) as Hp. rewrite Hp.
    destruct (vma_can_merge s.[o - 1] orig.[i]); simpl.
    + rewrite length_arr_set. repeat split; try done; try lia. apply Hnext.
      by rewrite drop_arr_set_lt by lia.
    + rewrite u32_small by zsolve.
      destruct (Z.eqb_spec o i) as [->|Hoi]; simpl; rewrite ?length_arr_set;
        repeat split; try done; try lia.
      * rewrite take_arr_next, Hsi by lia. done.
      * by apply Hnext.
      * rewrite take_arr_snoc by lia. done.
      * replace (Z.to_nat (i + 1)) with (S (Z.to_nat i)) by lia.
        rewrite drop_arr_set_lt by lia. replace (S (Z.to_nat i)) with (Z.to_nat (i + 1)) by lia. by apply Hnext.
  - replace o with 0 in * by lia. rewrite u32_small by zsolve. cbn [fst snd].
    destruct (Z.eqb_spec 0 i) as [<-|Hoi]; cbn [negb fst snd]; rewrite ?length_arr_set;
      repeat split; try done; try lia.
    + change (Z.to_nat 1) with (Z.to_nat (0 + 1)). rewrite take_arr_next, Hsi by lia. done.
    + by apply (Hnext s).
    + change (Z.to_nat 1) with (Z.to_nat (0 + 1)). rewrite take_arr_snoc by lia. done.
    + rewrite drop_arr_set_lt by lia. by apply Hnext.
Qed.

Lemma zero_loop_length (t : list vm_area) i n :
  length (for_loop i n (λ out v, v.[out <- vma_zero]) t) = length t ∧
  ∀ k, Z.of_nat k <= i → take k (for_loop i n (λ out v, v.[out <- vma_zero]) t) = take k t.
Proof.
  revert i t. induction n as [|n IH]; intros i t; simpl; [done|].
  destruct (IH (i + 1) (t.[i <- vma_zero])) as [H1 H2]. rewrite length_arr_set in H1.
  split; [done|]. intros k Hk. rewrite H2 by lia. by rewrite take_arr_set_ge by lia.
Qed.

Lemma set_table_get p t n :
  vma_table (set_table p t n) = t ∧ vma_count (set_table p t n) = n ∧
  vma_capacity (set_table p t n) = vma_capacity p ∧ vma_brk (set_table p t n) = vma_brk p.
Proof. unfold set_table, vma_table, vma_count, vma_capacity, vma_brk. by destruct (as_ p) eqn:E; simpl; rewrite ?E. Qed.

Lemma set_table_ptr p t n :
  match as_ (set_table p t n) with Some a => as_vmas_ptr a ≠ 0 | None => True end ↔
  match as_ p with Some a => as_vmas_ptr a ≠ 0 | None => True end.
Proof. unfold set_table. by destruct (as_ p). Qed.

Lemma coalesce_list_ok l :
  Forall valid_area l → StronglySorted before l →
  (∀ x, vma_at (coalesce_list l) x = vma_at l x) ∧ Forall valid_area (coalesce_list l) ∧
  StronglySorted before (coalesce_list l).
Proof.
  intros Hv Hs. destruct (fold_push_ok [] l Hv Hs) as (H1 & H2 & H3 & _). done.
Qed.

Lemma vma_coalesce_live p :
  Z.of_nat (length (vma_table p)) = vma_capacity p → 0 <= vma_count p <= vma_capacity p →
  vma_capacity p < 2 ^ 32 →
  let p' := vma_coalesce p in
  live p' = coalesce_list (live p) ∧ Z.of_nat (length (vma_table p')) = vma_capacity p' ∧
  vma_capacity p' = vma_capacity p ∧ 0 <= vma_count p' <= vma_count p ∧
  (match as_ p' with Some a => as_vmas_ptr a ≠ 0 | None => True end ↔
   match as_ p with Some a => as_vmas_ptr a ≠ 0 | None => True end).
Proof.
  intros Hl Hc Hcap. unfold vma_coalesce, live.
  pose proof (coalesce_loop_spec (vma_table p) (Z.to_nat (vma_count p)) ltac:(lia) ltac:(lia)) as Hco.
  destruct (for_loop 0 _ vma_coalesce_step _) as [t out]. destruct Hco as (H1 & H2 & H3).
  destruct (zero_loop_length t out (Z.to_nat (vma_count p - out))) as [Hz1 Hz2].
  set (t' := for_loop out _ _ t) in *. cbn zeta.
  destruct (set_table_get p t' out) as (-> & -> & -> & _).
  rewrite Hz2, H3, Hz1, H1 by lia. repeat split; try done; try lia; apply set_table_ptr.
Qed.

(** ** Growing the table *)

Lemma grow_capacity_ok fuel cap needed :
  0 < cap < 2 ^ 32 → needed <= 2 ^ 31 → needed <= cap * 2 ^ Z.of_nat fuel →
  ∃ c, grow_capacity (S fuel) cap needed = Some (inl c) ∧ needed <= c ∧ cap <= c < 2 ^ 32.
Proof.
  revert cap. induction fuel as [|fuel IH]; intros cap Hc Hn Hf; cbn [grow_capacity].
  - rewrite Z.pow_0_r in Hf. destruct (Z.ltb_spec cap needed); [lia|]. exists cap. split; [done|lia].
  - destruct (Z.ltb_spec cap needed); [|exists cap; split; [done|lia]].
    destruct (Z.ltb_spec 0x80000000 cap); [lia|].
    rewrite u32_small by zsolve.
    destruct (IH (cap * 2)) as (c & Hg & ? & ?); [lia|done| |].
    { rewrite Nat2Z.inj_succ, Z.pow_succ_r in Hf by lia. lia. }
    exists c. split; [done|]. lia.
Qed.

(** ** Insertion *)

Lemma insert_scan_spec vmas count area :
  0 <= count <= Z.of_nat (length vmas) →
  match vma_insert_scan vmas count area with
  | inl _ => ∃ i, 0 <= i < count ∧ vma_overlaps vmas.[i] (start area) (end_ area) = true
  | inr k => 0 <= k <= count ∧
      (∀ i, 0 <= i < k → start vmas.[i] <= start area ∧
         vma_overlaps vmas.[i] (start area) (end_ area) = false) ∧
      (k < count → start area < start vmas.[k])
  end.
Proof.
  intros Hc. unfold vma_insert_scan.
  set (body := λ (i : Z) (_ : unit),
    if start vmas.[i] <=? start area then
      if vma_overlaps vmas.[i] (start area) (end_ area)
      then inl (inl () : unit + Z) else inr ()
    else inl (inr i)).
  pose proof (for_exit_inv
    (λ k (_ : unit), ∀ i, 0 <= i < k → start vmas.[i] <= start area ∧
         vma_overlaps vmas.[i] (start area) (end_ area) = false)
    (λ r, match r with
          | inl _ => ∃ i, 0 <= i < count ∧ vma_overlaps vmas.[i] (start area) (end_ area) = true
          | inr k => 0 <= k < count ∧ (∀ i, 0 <= i < k → start vmas.[i] <= start area ∧
               vma_overlaps vmas.[i] (start area) (end_ area) = false) ∧
               start area < start vmas.[k]
          end)
    body 0 (Z.to_nat count) ()) as Hl.
  lapply Hl; clear Hl.
  - intros Hl. specialize (Hl ltac:(intros; lia)).
    destruct (for_exit 0 _ body ()) as [[[]|k]|[]]; [done| |].
    + destruct Hl as (? & ? & ?). split; [lia|]. done.
    + split; [lia|]. split; [|lia]. intros i Hi. apply Hl. lia.
  - intros k [] Hk Hi. subst body. cbv beta.
    destruct (Z.leb_spec (start vmas.[k]) (start area)).
    + destruct (vma_overlaps _ _ _) eqn:E; [exists k; split; [lia|done]|].
      intros i Hi'. destruct (Z.eq_dec i k) as [->|]; [done|]. apply Hi. lia.
    + split; [lia|]. done.
Qed.

Lemma overlaps_false v s e :
  vma_overlaps v s e = false ↔ end_ v <= s ∨ e <= start v.
Proof. unfold vma_overlaps. rewrite andb_false_iff, !Z.ltb_ge. done. Qed.

Lemma insert_sorted l1 l2 area :
  Forall valid_area (l1 ++ l2) → valid_area area → StronglySorted before (l1 ++ l2) →
  (∀ v, v ∈ l1 → start v <= start area ∧ vma_overlaps v (start area) (end_ area) = false) →
  match l2 with
  | [] => True
  | v :: _ => start area < start v ∧ vma_overlaps v (start area) (end_ area) = false
  end →
  StronglySorted before (l1 ++ area :: l2).
Proof.
  intros Hv Ha Hs H1 H2. apply Forall_app in Hv as [Hv1 Hv2].
  apply StronglySorted_app in Hs as (Hb & Hs1 & Hs2).
  apply StronglySorted_app. split; [|split; [done|]].
  - intros v w Hv Hw. apply elem_of_cons in Hw as [->|Hw]; [|by apply Hb].
    destruct (H1 v Hv) as [Hst Hov]. apply overlaps_false in Hov.
    unfold before, valid_area in *. lia.
  - constructor; [done|]. destruct l2 as [|v l2]; [done|].
    destruct H2 as [Hst Hov]. apply overlaps_false in Hov.
    apply Forall_cons in Hv2 as [Hvv _].
    assert (end_ area <= start v) by (unfold valid_area in *; lia).
    apply StronglySorted_inv in Hs2 as [_ Hall]. constructor; [left; lia|].
    eapply Forall_impl; [exact Hall|]. intros w Hw. unfold before, valid_area in *. lia.
Qed.

Lemma insert_table t count k area :
  0 <= k <= count → count < Z.of_nat (length t) →
  let t' := (if k <? count then table_memmove t (k + 1) k (count - k) else t).[k <- area] in
  length t' = length t ∧
  take (Z.to_nat (count + 1)) t' =
    take (Z.to_nat k) t ++ area :: take (Z.to_nat (count - k)) (drop (Z.to_nat k) t).
Proof.
  intros Hk Hl. cbv zeta. destruct (Z.ltb_spec k count).
  - assert (length (table_memmove t (k + 1) k (count - k)) = length t) as HL.
    { unfold table_memmove. rewrite !length_app, !length_take, !length_drop. lia. }
    rewrite length_arr_set, HL. split; [done|].
    replace (table_memmove t (k + 1) k (count - k)).[k<-area]
      with (take (Z.to_nat k) t ++ [area] ++ take (Z.to_nat (count - k)) (drop (Z.to_nat k) t) ++
            drop (Z.to_nat (count + 1)) t).
    2:{ unfold table_memmove. rewrite take_arr_next by lia.
        unfold arr_set. rewrite <-!app_assoc, insert_app_r_alt by (rewrite length_take; lia).
        rewrite length_take_le, Nat.sub_diag by lia. simpl.
        replace (k + 1 + (count - k)) with (count + 1) by lia. done. }
    rewrite take_app_ge by (rewrite length_take; lia). rewrite length_take_le by lia. f_equal.
    replace (Z.to_nat (count + 1) - Z.to_nat k)%nat with (S (Z.to_nat (count - k))) by lia.
    simpl. f_equal. rewrite take_app_le by (rewrite length_take, length_drop; lia).
    rewrite take_take. f_equal. lia.
  - rewrite length_arr_set. split; [done|]. replace k with count by lia.
    rewrite take_arr_snoc by lia. by replace (Z.to_nat (count - count)) with 0%nat by lia.
Qed.

Lemma live_split p k :
  0 <= k <= vma_count p → vma_count p <= Z.of_nat (length (vma_table p)) →
  live p = take (Z.to_nat k) (vma_table p) ++
           take (Z.to_nat (vma_count p - k)) (drop (Z.to_nat k) (vma_table p)).
Proof.
  intros Hk Hl. unfold live. rewrite <-(take_drop (Z.to_nat k) (take _ _)).
  rewrite take_take, skipn_firstn_comm. f_equal; [f_equal; lia|]. f_equal. lia.
Qed.

Lemma live_lookup p i v :
  vma_count p <= Z.of_nat (length (vma_table p)) →
  live p !! i = Some v ↔ Z.of_nat i < vma_count p ∧ vma_table p !! i = Some v.
Proof.
  intros Hl. unfold live. rewrite lookup_take_Some. split; intros [??]; split; try done; lia.
Qed.

(** The heap block the process owns for its table. *)
Definition own (p : process) : gset Z :=
  match as_ p with Some a => {[as_vmas_ptr a]} | None => ∅ end.

Lemma own_set_table p t n : own (set_table p t n) = own p.
Proof. unfold own, set_table. by destruct (as_ p). Qed.

(** The entries before and from the insertion point satisfy what
    [insert_sorted] needs. *)
Lemma insert_point p area k :
  0 <= k <= vma_count p → vma_count p <= Z.of_nat (length (vma_table p)) →
  (∀ i, 0 <= i < k → start (vma_table p).[i] <= start area ∧
     vma_overlaps (vma_table p).[i] (start area) (end_ area) = false) →
  (k < vma_count p → start area < start (vma_table p).[k]) →
  (k <? vma_count p) && vma_overlaps (vma_table p).[k] (start area) (end_ area) = false →
  (∀ v, v ∈ take (Z.to_nat k) (vma_table p) → start v <= start area ∧
     vma_overlaps v (start area) (end_ area) = false) ∧
  match take (Z.to_nat (vma_count p - k)) (drop (Z.to_nat k) (vma_table p)) with
  | [] => True
  | v :: _ => start area < start v ∧ vma_overlaps v (start area) (end_ area) = false
  end.
Proof.
  intros Hk Hl Hlow Hhigh Eov. split.
  - intros v Hin. apply list_elem_of_lookup in Hin as (i & Hin).
    apply lookup_take_Some in Hin as [Hin Hik].
    specialize (Hlow (Z.of_nat i) ltac:(lia)). rewrite (arr_get_lookup _ _ v) in Hlow; [done|lia|].
    by rewrite Nat2Z.id.
  - destruct (take _ (drop _ _)) as [|v l2'] eqn:El2; [done|].
    assert (take (Z.to_nat (vma_count p - k)) (drop (Z.to_nat k) (vma_table p)) !! 0%nat = Some v)
      as Hv0 by by rewrite El2.
    apply lookup_take_Some in Hv0 as [Hv0 Hlt0]. rewrite lookup_drop, Nat.add_0_r in Hv0.
    assert (k < vma_count p) as Hkc by lia.
    rewrite (proj2 (Z.ltb_lt _ _) Hkc) in Eov. cbn [andb] in Eov. specialize (Hhigh Hkc).
    rewrite (arr_get_lookup _ _ v) in Hhigh, Eov by (done || lia). done.
Qed.

Lemma coalesce_own_brk p : own (vma_coalesce p) = own p ∧ vma_brk (vma_coalesce p) = vma_brk p.
Proof.
  unfold vma_coalesce. destruct (for_loop 0 _ _ _) as [l z]. split; [apply own_set_table|].
  apply set_table_get.
Qed.

(** Shifting the tail, storing the area and coalescing. *)
Lemma insert_install p area k :
  vma_inv p → vma_count p < vma_capacity p → valid_area area → 0 <= k <= vma_count p →
  (∀ i, 0 <= i < k → start (vma_table p).[i] <= start area ∧
     vma_overlaps (vma_table p).[i] (start area) (end_ area) = false) →
  (k < vma_count p → start area < start (vma_table p).[k]) →
  (k <? vma_count p) && vma_overlaps (vma_table p).[k] (start area) (end_ area) = false →
  vma_count p < 2 ^ 32 - 1 →
  let t' := (if k <? vma_count p
             then table_memmove (vma_table p) (k + 1) k (vma_count p - k)
             else vma_table p).[k <- area] in
  let p2 := vma_coalesce (set_table p t' (vma_count p +u 1)) in
  vma_inv p2 ∧ own p2 = own p ∧ vma_brk p2 = vma_brk p ∧
  (∀ x, covers area x = true → vma_at (live p) x = None) ∧
  ∀ x, vma_at (live p2) x = if covers area x then Some (vattr_of area x) else vma_at (live p) x.
Proof.
  intros [Hlen Hc Hcap Hv Hs Hp] Hroom Ha Hk Hlow Hhigh Eov Hmax t' p2.
  destruct (insert_table (vma_table p) (vma_count p) k area Hk ltac:(lia)) as [HtL HtT].
  destruct (insert_point p area k) as [Hl1 Hl2']; try done; [lia|].
  fold t' in HtL, HtT. rewrite <-(u32_small (vma_count p + 1)) in HtT by zsolve.
  destruct (set_table_get p t' (vma_count p +u 1)) as (Hg1 & Hg2 & Hg3 & Hg4).
  assert (0 <= (vma_count p +u 1) <= vma_capacity p) by (rewrite u32_small; zsolve).
  destruct (vma_coalesce_live (set_table p t' (vma_count p +u 1))) as (Hl2 & Hlen2 & Hcap2 & Hc2 & Hp2);
    rewrite ?Hg1, ?Hg2, ?Hg3; try lia.
  fold p2 in Hl2, Hlen2, Hcap2, Hc2, Hp2. pose proof (live_split p k Hk ltac:(lia)) as Hsp.
  set (l1 := take (Z.to_nat k) (vma_table p)) in *.
  set (l2 := take (Z.to_nat (vma_count p - k)) (drop (Z.to_nat k) (vma_table p))) in *.
  assert (live (set_table p t' (vma_count p +u 1)) = l1 ++ area :: l2) as Hlt
    by (unfold live; by rewrite Hg1, Hg2).
  assert (Forall valid_area (l1 ++ area :: l2)) as Hva.
  { rewrite Hsp in Hv. apply Forall_app in Hv as [??]. apply Forall_app. split; [done|by constructor]. }
  assert (StronglySorted before (l1 ++ area :: l2)) as Hsa
    by (rewrite Hsp in Hv, Hs; by apply insert_sorted).
  destruct (coalesce_list_ok (l1 ++ area :: l2) Hva Hsa) as (Hat & Hcv & Hcs).
  rewrite Hlt in Hl2. split; [split; rewrite ?Hl2; try done; try lia|].
  { apply Hp2. by apply set_table_ptr. }
  destruct (coalesce_own_brk (set_table p t' (vma_count p +u 1))) as [Ho1 Ho2].
  split; [rewrite own_set_table in Ho1; done|]. split; [by rewrite Hg4 in Ho2|]. rewrite Hsp. split.
  - intros x Hx. pose proof (vma_at_middle l1 area l2 x Hsa) as Hm. rewrite Hx in Hm.
    apply vma_at_None, Forall_forall. intros v Hin. destruct (covers v x) eqn:E; [exfalso|done].
    apply StronglySorted_app in Hsa as (Hb1 & _ & Hsa).
    apply StronglySorted_inv in Hsa as [_ Hb2]. rewrite Forall_forall in Hb2.
    apply elem_of_app in Hin as [Hin|Hin].
    + eapply before_covers; [apply Hb1; [exact Hin|left]|done|done].
    + eapply before_covers; [by apply Hb2|done|done].
  - intros x. rewrite Hl2, Hat, vma_at_middle by done. done.
Qed.

(** ** Cutting areas into pieces *)

Definition unmap_pieces (s e : Z) (v : vm_area) : list vm_area :=
  if vma_overlaps v s e then
    (if start v <? overlap_start s v then [vma_slice v (start v) (overlap_start s v)] else []) ++
    (if overlap_end e v <? end_ v then [vma_slice v (overlap_end e v) (end_ v)] else [])
  else [v].

Definition protect_pieces (s e new_flags : Z) (v : vm_area) : list vm_area :=
  if vma_overlaps v s e then
    (if start v <? overlap_start s v then [vma_slice v (start v) (overlap_start s v)] else []) ++
    [set_flags (vma_slice v (overlap_start s v) (overlap_end e v))
       (vma_replace_prot_flags (flags v) new_flags)] ++
    (if overlap_end e v <? end_ v then [vma_slice v (overlap_end e v) (end_ v)] else [])
  else [v].

(** A way of cutting is good when it gives valid, ordered parts of the area. *)
Definition good_cut (f : vm_area → list vm_area) : Prop :=
  ∀ v, valid_area v →
    Forall (λ q, valid_area q ∧ start v <= start q ∧ end_ q <= end_ v) (f v) ∧
    StronglySorted before (f v).

Lemma slice_valid v a b :
  valid_area v → start v <= a → a <= b → b <= end_ v → valid_area (vma_slice v a b).
Proof.
  unfold valid_area, vma_slice; simpl. intros (? & ? & ? & ? & Hoff & ?) ? ? ?.
  do 4 (split; [done || lia|]). split; [|done]. destruct (_ && _); [apply u32_range|done].
Qed.

Lemma slice_attr v a b x :
  valid_area v → start v <= a → a <= x → x < end_ v → vattr_of (vma_slice v a b) x = vattr_of v x.
Proof.
  intros Hv Ha Hx Hxe. unfold vattr_of.
  change (vma_is_file_backed (vma_slice v a b)) with (vma_is_file_backed v).
  destruct (vma_is_file_backed v) eqn:E; [|by unfold vma_slice; simpl; rewrite E].
  unfold vma_slice; cbn [file_offset start flags kind file_size file_ref]. rewrite E. cbn [andb].
  f_equal. unfold valid_area in Hv. destruct (Z.ltb_spec (start v) a); [|do 2 f_equal; lia].
  rewrite (u32_small (a - start v)) by zsolve. unfold u32 at 1 3. unfold u32.
  rewrite Zplus_mod_idemp_l. f_equal. lia.
Qed.

Lemma slice_covers v a b x : covers (vma_slice v a b) x = (a <=? x) && (x <? b).
Proof. done. Qed.

Lemma overlap_bounds s e v :
  s < e → vma_overlaps v s e = true →
  s < end_ v ∧ start v < e ∧ start v <= overlap_start s v ∧ s <= overlap_start s v ∧
  (overlap_start s v = s ∨ overlap_start s v = start v) ∧
  overlap_end e v <= end_ v ∧ overlap_end e v <= e ∧
  (overlap_end e v = e ∨ overlap_end e v = end_ v).
Proof.
  unfold vma_overlaps, overlap_start, overlap_end. intros Hse Ho. bprop. bcase; lia.
Qed.

Lemma unmap_pieces_good s e : s < e → good_cut (unmap_pieces s e).
Proof.
  intros Hse v Hv. unfold unmap_pieces. destruct (vma_overlaps v s e) eqn:E.
  2:{ split; [apply Forall_singleton; split; [done|lia]|repeat constructor]. }
  apply (overlap_bounds s e v Hse) in E. pose proof Hv as (Hv0 & Hv1 & Hv2 & _).
  destruct (Z.ltb_spec (start v) (overlap_start s v)), (Z.ltb_spec (overlap_end e v) (end_ v));
    cbn [app]; split;
    try (forall_list; simpl; (split; [apply slice_valid; try done; lia|lia]));
    repeat constructor; unfold before, vma_slice; simpl; lia.
Qed.

Lemma prot_flags_u32 a b : is_u32 a → is_u32 b → is_u32 (vma_replace_prot_flags a b).
Proof.
  intros Ha Hb. unfold vma_replace_prot_flags. apply lor_u32.
  - apply land_u32; [done|]. apply u32_range.
  - apply land_u32; [done|]. done.
Qed.

Lemma protect_pieces_good s e fl : s < e → is_u32 fl → good_cut (protect_pieces s e fl).
Proof.
  intros Hse Hfl v Hv. unfold protect_pieces. destruct (vma_overlaps v s e) eqn:E.
  2:{ split; [apply Forall_singleton; split; [done|lia]|repeat constructor]. }
  apply (overlap_bounds s e v Hse) in E. pose proof Hv as (Hv0 & Hv1 & Hv2 & Hvf & Hvo & Hvs).
  assert (overlap_start s v <= overlap_end e v) by lia.
  assert (valid_area (set_flags (vma_slice v (overlap_start s v) (overlap_end e v))
            (vma_replace_prot_flags (flags v) fl))) as Hmid.
  { destruct (slice_valid v (overlap_start s v) (overlap_end e v)) as (? & ? & ? & _ & ? & ?);
      try done; try lia.
    do 3 (split; [done|]). split; [by apply prot_flags_u32|done]. }
  destruct (Z.ltb_spec (start v) (overlap_start s v)), (Z.ltb_spec (overlap_end e v) (end_ v));
    cbn [app]; split;
    try (forall_list; simpl; (split; [first [exact Hmid | apply slice_valid; try done; lia]|lia]));
    repeat constructor; unfold before, vma_slice, set_flags; simpl; lia.
Qed.

Lemma unmap_pieces_at s e v x :
  s < e → valid_area v →
  vma_at (unmap_pieces s e v) x =
    if covers v x && negb ((s <=? x) && (x <? e)) then Some (vattr_of v x) else None.
Proof.
  intros Hse Hv. unfold unmap_pieces. destruct (vma_overlaps v s e) eqn:E.
  - apply (overlap_bounds s e v Hse) in E. pose proof Hv as (Hv0 & Hv1 & Hv2 & _).
    assert (∀ a b, start v <= a → b <= end_ v → vma_at [vma_slice v a b] x =
      if (a <=? x) && (x <? b) then Some (vattr_of v x) else None) as Hsl.
    { intros a b Ha Hb. cbn [vma_at]. rewrite slice_covers.
      destruct ((a <=? x) && (x <? b)) eqn:Ex; [|done]. bprop. by rewrite slice_attr by (done || lia). }
    assert (∀ (c : bool) a b, start v <= a → b <= end_ v → vma_at (if c then [vma_slice v a b] else []) x =
      if c && ((a <=? x) && (x <? b)) then Some (vattr_of v x) else None) as Hif.
    { intros [] a b Ha Hb; [by apply Hsl|done]. }
    rewrite vma_at_app, !Hif by lia. unfold covers. bcase; simpl; try done; lia.
  - simpl. destruct (covers v x) eqn:Ec; [|done]. apply covers_spec in Ec.
    apply overlaps_false in E. bcase; simpl; try done; lia.
Qed.

(** What protection does to an attribute: only the three permission bits move. *)
Definition protect_attr (new_flags : Z) (a : vattr) : vattr :=
  mk_attr (vma_replace_prot_flags (at_flags a) new_flags) (at_kind a) (at_offset a) (at_size a) (at_ref a).

Lemma replace_prot_anon a b :
  0 <= a → Z.land (vma_replace_prot_flags a b) VMA_FLAG_ANON = Z.land a VMA_FLAG_ANON.
Proof.
  intros Ha. unfold vma_replace_prot_flags. change VMA_FLAG_ANON with (Z.shiftl 1 3).
  apply Z.bits_inj'. intros m Hm. rewrite !Z.land_spec, Z.lor_spec, !Z.land_spec.
  rewrite Z.shiftl_1_l, Z.pow2_bits_eqb by lia. destruct (Z.eqb_spec 3 m) as [<-|]; [|by rewrite !andb_false_r].
  rewrite testbit_not32 by lia. change VMA_PROT_FLAGS with 7. simpl.
  by rewrite andb_false_r, orb_false_r, !andb_true_r.
Qed.

Lemma protect_pieces_at s e fl v x :
  s < e → valid_area v →
  vma_at (protect_pieces s e fl v) x =
    if covers v x then
      Some (if (s <=? x) && (x <? e) then protect_attr fl (vattr_of v x) else vattr_of v x)
    else None.
Proof.
  intros Hse Hv. unfold protect_pieces. destruct (vma_overlaps v s e) eqn:E.
  - apply (overlap_bounds s e v Hse) in E. pose proof Hv as (Hv0 & Hv1 & Hv2 & [Hvf _] & _).
    assert (∀ (c : bool) a b, start v <= a → b <= end_ v → vma_at (if c then [vma_slice v a b] else []) x =
      if c && ((a <=? x) && (x <? b)) then Some (vattr_of v x) else None) as Hif.
    { intros [] a b Ha Hb; [|done]. cbn [vma_at]. rewrite slice_covers. cbn [andb].
      destruct ((a <=? x) && (x <? b)) eqn:Ex; [|done]. bprop. by rewrite slice_attr by (done || lia). }
    rewrite !vma_at_app, !Hif by lia. cbn [vma_at].
    change (covers (set_flags ?w ?f) x) with (covers w x). rewrite slice_covers.
    assert (overlap_start s v <= x < overlap_end e v →
      vattr_of (set_flags (vma_slice v (overlap_start s v) (overlap_end e v))
        (vma_replace_prot_flags (flags v) fl)) x = protect_attr fl (vattr_of v x)) as Hmid.
    { intros Hx. rewrite <-(slice_attr v (overlap_start s v) (overlap_end e v) x) by (done || lia).
      unfold vattr_of, protect_attr, vma_is_file_backed; cbn.
      by rewrite replace_prot_anon by done. }
    unfold covers. bcase; simpl; try done; try lia; f_equal; apply Hmid; lia.
  - simpl. destruct (covers v x) eqn:Ec; [|done]. apply covers_spec in Ec.
    apply overlaps_false in E. bcase; simpl; try done; lia.
Qed.

(** ** Rebuilding the table piece by piece *)

Definition cut_all (f : vm_area → list vm_area) (l : list vm_area) : list vm_area := l ≫= f.

Lemma cut_all_cons f v l : cut_all f (v :: l) = f v ++ cut_all f l.
Proof. done. Qed.

Lemma cut_all_valid f l : good_cut f → Forall valid_area l → Forall valid_area (cut_all f l).
Proof.
  intros Hf Hl. induction Hl as [|v l Hv Hl IH]; [constructor|]. rewrite cut_all_cons.
  apply Forall_app. split; [|done]. destruct (Hf v Hv) as [Hp _].
  eapply Forall_impl; [exact Hp|]. by intros q (? & _).
Qed.

Lemma cut_all_in f l q :
  good_cut f → Forall valid_area l → q ∈ cut_all f l →
  ∃ v, v ∈ l ∧ start v <= start q ∧ end_ q <= end_ v.
Proof.
  intros Hf Hl. induction Hl as [|v l Hv Hl IH]; [intros Hq; by apply not_elem_of_nil in Hq|].
  rewrite cut_all_cons, elem_of_app. intros [Hq|Hq].
  - destruct (Hf v Hv) as [Hp _]. rewrite Forall_forall in Hp. destruct (Hp q Hq) as (_ & ? & ?).
    exists v. split; [left|done].
  - destruct (IH Hq) as (w & ? & ?). exists w. split; [by right|done].
Qed.

Lemma cut_all_sorted f l :
  good_cut f → Forall valid_area l → StronglySorted before l → StronglySorted before (cut_all f l).
Proof.
  intros Hf Hl. induction Hl as [|v l Hv Hl IH]; intros Hs; [constructor|].
  apply StronglySorted_inv in Hs as [Hs Hall]. rewrite Forall_forall in Hall.
  rewrite cut_all_cons. destruct (Hf v Hv) as [Hp Hps].
  apply StronglySorted_app. split; [|split; [done|by apply IH]].
  intros a b Ha Hb. rewrite Forall_forall in Hp. destruct (Hp a Ha) as (_ & ? & ?).
  destruct (cut_all_in f l b Hf Hl Hb) as (w & Hw & ? & ?). specialize (Hall w Hw).
  unfold before in *. lia.
Qed.

(** The scratch table: [d] is its live prefix. *)
Record scratch (cap : Z) (d : list vm_area) (r : list vm_area * Z) : Prop := {
  sc_len : Z.of_nat (length r.1) = cap;
  sc_count : 0 <= r.2 <= cap;
  sc_live : take (Z.to_nat r.2) r.1 = d;
}.

Definition append_all (cap : Z) (qs : list vm_area) (r : list vm_area * Z)
    : unit + (list vm_area * Z) :=
  foldl (λ acc q, match acc with inl x => inl x | inr r => append_or_exit cap q r end) (inr r) qs.

Lemma scratch_count cap d r : scratch cap d r → r.2 = Z.of_nat (length d).
Proof. intros [Hl Hc <-]. rewrite length_take. lia. Qed.

Lemma append_all_ok cap qs d r :
  cap < 2 ^ 32 → scratch cap d r → Forall valid_area qs →
  Z.of_nat (length d) + Z.of_nat (length qs) <= cap →
  ∃ r', append_all cap qs r = inr r' ∧ scratch cap (foldl push d qs) r'.
Proof.
  intros Hcap. revert d r. induction qs as [|q qs IH]; intros d r Hr Hv Hroom; [by exists r|].
  apply Forall_cons in Hv as [Hq Hv]. simpl in Hroom. cbn [append_all foldl].
  pose proof (scratch_count _ _ _ Hr) as Hn. pose proof Hr as [Hl Hc Hlive].
  pose proof (append_area_push r.1 r.2 cap q Hl Hc Hcap Hq) as Ha.
  unfold append_or_exit at 2. destruct (vma_append_area r.1 r.2 cap q) as [[dst c]|]; [|lia].
  destruct Ha as (H1 & H2 & H3). pose proof (push_length d q).
  destruct (IH (push d q) (dst, c)) as (r' & E & Hr'); [split; try done; by rewrite <-Hlive|done|lia|].
  by exists r'.
Qed.

Lemma append_all_app cap qs1 qs2 r :
  append_all cap (qs1 ++ qs2) r = seq_exit (append_all cap qs1 r) (append_all cap qs2).
Proof.
  unfold append_all. rewrite foldl_app.
  destruct (foldl _ (inr r) qs1) as [x|r']; [|done]. simpl.
  induction qs2 as [|q qs2 IH]; simpl; auto.
Qed.

Lemma append_all_one cap q r : append_all cap [q] r = append_or_exit cap q r.
Proof. done. Qed.

Lemma append_all_if cap (c : bool) q r :
  append_all cap (if c then [q] else []) r = if c then append_or_exit cap q r else inr r.
Proof. by destruct c. Qed.

Lemma unmap_step_append t cap s e i r :
  unmap_rebuild_step t cap s e i r = append_all cap (unmap_pieces s e t.[i]) r.
Proof.
  unfold unmap_rebuild_step, unmap_pieces.
  destruct (vma_overlaps _ _ _); cbn [negb]; [|by rewrite append_all_one].
  rewrite append_all_app, append_all_if. unfold seq_exit. case_match; [done|].
  by rewrite append_all_if.
Qed.

(** Number of entries the rebuilt table needs at most. *)
Definition cut_count (f : vm_area → list vm_area) (l : list vm_area) : Z :=
  Z.of_nat (length (cut_all f l)).

Lemma rebuild_ok f (step : vm_area → list vm_area * Z → unit + (list vm_area * Z)) cap l d r :
  (∀ v r, step v r = append_all cap (f v) r) →
  good_cut f → cap < 2 ^ 32 → Forall valid_area l → scratch cap d r →
  Z.of_nat (length d) + cut_count f l <= cap →
  ∃ r', foldl (λ acc v, match acc with inl x => inl x | inr r => step v r end) (inr r) l = inr r' ∧
    scratch cap (foldl push d (cut_all f l)) r'.
Proof.
  intros Hstep Hf Hcap Hl. revert d r. induction Hl as [|v l Hv Hl IH]; intros d r Hr Hroom; [by exists r|].
  unfold cut_count in *. rewrite cut_all_cons, length_app in *. cbn [foldl]. rewrite Hstep.
  destruct (append_all_ok cap (f v) d r Hcap Hr) as (r1 & -> & Hr1); [|lia|].
  { destruct (Hf v Hv) as [Hp _]. eapply Forall_impl; [exact Hp|]. by intros ? (? & _). }
  rewrite foldl_app. apply IH; [done|].
  pose proof (fold_push_length (f v) d). lia.
Qed.

Lemma scratch_zeros cap : 0 <= cap → scratch cap [] (zeros cap, 0).
Proof. intros. split; simpl; [unfold zeros; rewrite length_replicate|..]; lia || done. Qed.

(** ** The counting passes *)

Lemma unmap_pieces_length s e v : (length (unmap_pieces s e v) <= 2)%nat.
Proof. unfold unmap_pieces. repeat case_match; simpl; lia. Qed.

Lemma unmap_count_spec s e l n :
  0 <= n → n + 2 * Z.of_nat (length l) < 2 ^ 32 →
  match foldl (λ acc v, match acc with
                        | inl x => inl x
                        | inr n => unmap_count_step [v] s e 0 n
                        end) (inr n) l with
  | inl _ => ∃ v, v ∈ l ∧ vma_overlaps v s e = true ∧ kind v ≠ VMA_KIND_GENERIC
  | inr m => m = n + cut_count (unmap_pieces s e) l ∧
      ∀ v, v ∈ l → vma_overlaps v s e = true → kind v = VMA_KIND_GENERIC
  end.
Proof.
  revert n. induction l as [|v l IH]; intros n Hn Hb; cbn [foldl].
  { unfold cut_count; simpl. split; [lia|]. intros v Hv. by apply not_elem_of_nil in Hv. }
  assert (∀ (x : unit) k, foldl (λ (acc : unit + Z) v, match acc with
            | inl x => inl x | inr n => unmap_count_step [v] s e 0 n end) (inl x) k = inl x) as Hinl.
  { induction k; simpl; auto. }
  simpl in Hb. unfold cut_count in *.
  assert ((∃ m, unmap_count_step [v] s e 0 n = inr m ∧ m = n + Z.of_nat (length (unmap_pieces s e v)) ∧
            (vma_overlaps v s e = true → kind v = VMA_KIND_GENERIC)) ∨
          (unmap_count_step [v] s e 0 n = inl () ∧ vma_overlaps v s e = true ∧ kind v ≠ VMA_KIND_GENERIC))
    as [(m & -> & -> & Hg)|(-> & Ho & Hk)].
  { unfold unmap_count_step, unmap_pieces. change ([v].[0]) with v.
    destruct (vma_overlaps v s e); cbn [negb].
    2:{ left. eexists. split; [done|]. simpl. split; [rewrite u32_small; zsolve|done]. }
    destruct (Z.eqb_spec (kind v) VMA_KIND_GENERIC); cbn [negb]; [left|by right].
    eexists. split; [done|]. split; [|done]. rewrite length_app.
    destruct (start v <? _), (_ <? end_ v); simpl; rewrite ?u32_small by zsolve; zsolve. }
  - pose proof (unmap_pieces_length s e v).
    specialize (IH (n + Z.of_nat (length (unmap_pieces s e v))) ltac:(lia) ltac:(lia)).
    destruct (foldl _ (inr _) l) as [?|m'].
    + destruct IH as (w & Hw & ?). exists w. split; [by right|done].
    + destruct IH as [-> IH]. rewrite cut_all_cons, length_app. split; [lia|].
      intros w Hw. apply elem_of_cons in Hw as [->|Hw]; auto.
  - rewrite Hinl. exists v. split; [left|done].
Qed.

(** ** The protect passes *)

Definition fold_exit {A S R} (f : A → S → R + S) (s : S) (l : list A) : R + S :=
  foldl (λ acc a, match acc with inl r => inl r | inr s => f a s end) (inr s) l.

Lemma fold_exit_cons {A S R} (f : A → S → R + S) s a l :
  fold_exit f s (a :: l) = match f a s with inl r => inl r | inr s => fold_exit f s l end.
Proof.
  unfold fold_exit. simpl. destruct (f a s) as [r|s']; [|done].
  induction l; simpl; auto.
Qed.

(** Where the cursor goes after an area, when the area fits the cursor. *)
Definition next_cursor (s e : Z) (v : vm_area) (c : Z) : Z :=
  if vma_overlaps v s e then overlap_end e v else c.

Lemma protect_pieces_length s e fl v : (length (protect_pieces s e fl v) <= 3)%nat.
Proof. unfold protect_pieces. repeat case_match; simpl; lia. Qed.

Lemma protect_count_one s e fl v n c :
  0 <= n → n + 3 < 2 ^ 32 →
  match protect_count_step [v] s e 0 (n, c) with
  | inl _ => vma_overlaps v s e = true ∧ (kind v ≠ VMA_KIND_GENERIC ∨ overlap_start s v ≠ c)
  | inr (m, c') => m = n + Z.of_nat (length (protect_pieces s e fl v)) ∧ c' = next_cursor s e v c ∧
      (vma_overlaps v s e = true → kind v = VMA_KIND_GENERIC ∧ overlap_start s v = c)
  end.
Proof.
  intros Hn Hb. unfold protect_count_step, protect_pieces, next_cursor. change ([v].[0]) with v.
  destruct (vma_overlaps v s e); cbn [negb].
  2:{ simpl. rewrite u32_small by zsolve. done. }
  destruct (Z.eqb_spec (kind v) VMA_KIND_GENERIC); cbn [negb]; [|auto].
  destruct (Z.eqb_spec (overlap_start s v) c); cbn [negb]; [|auto].
  rewrite !length_app. split; [|done].
  destruct (start v <? _), (_ <? end_ v); simpl; rewrite ?u32_small by (rewrite ?u32_small; zsolve); zsolve.
Qed.

Lemma protect_rebuild_one t cap s e fl i r c :
  (vma_overlaps t.[i] s e = true → overlap_start s t.[i] = c) →
  protect_rebuild_step t cap s e fl i (r, c) =
    match append_all cap (protect_pieces s e fl t.[i]) r with
    | inl x => inl x
    | inr r => inr (r, next_cursor s e t.[i] c)
    end.
Proof.
  intros Hc. unfold protect_rebuild_step, protect_pieces, next_cursor.
  destruct (vma_overlaps t.[i] s e); cbn [negb]; [|by rewrite append_all_one].
  rewrite (Hc eq_refl), Z.eqb_refl. cbn [negb].
  rewrite append_all_app, append_all_if. unfold seq_exit.
  destruct (if start t.[i] <? c then _ else _) as [?|r1]; [done|].
  rewrite append_all_app, append_all_one. unfold seq_exit.
  destruct (append_or_exit _ _ r1) as [?|r2]; [done|]. by rewrite append_all_if.
Qed.

(** The counting pass over the whole table. *)
Lemma protect_count_spec s e fl l n c :
  s < e → 0 <= n → n + 3 * Z.of_nat (length l) < 2 ^ 32 →
  match fold_exit (λ v, protect_count_step [v] s e 0) (n, c) l with
  | inl _ => True
  | inr (m, c') => m = n + cut_count (protect_pieces s e fl) l ∧
      (∀ v, v ∈ l → vma_overlaps v s e = true → kind v = VMA_KIND_GENERIC) ∧
      (∀ x, c <= x < c' → is_Some (vma_at l x))
  end.
Proof.
  intros Hse. revert n c. induction l as [|v l IH]; intros n c Hn Hb.
  { unfold cut_count; simpl. split; [lia|]. split; [intros v Hv; by apply not_elem_of_nil in Hv|lia]. }
  simpl in Hb. rewrite fold_exit_cons.
  pose proof (protect_count_one s e fl v n c Hn ltac:(lia)) as H1.
  destruct (protect_count_step [v] s e 0 (n, c)) as [?|[m c1]]; [done|].
  destruct H1 as (-> & -> & Hv). pose proof (protect_pieces_length s e fl v).
  specialize (IH (n + Z.of_nat (length (protect_pieces s e fl v))) (next_cursor s e v c)
    ltac:(lia) ltac:(lia)).
  destruct (fold_exit _ _ l) as [?|[m c']]; [done|]. destruct IH as (-> & Hk & Hcov).
  unfold cut_count in *. rewrite cut_all_cons, length_app. split; [lia|]. split.
  - intros w Hw. apply elem_of_cons in Hw as [->|Hw]; [|by apply Hk]. intros Ho. by apply Hv.
  - intros x Hx. simpl. destruct (covers v x) eqn:Ex; [eauto|]. apply Hcov. split; [|lia].
    unfold next_cursor. destruct (vma_overlaps v s e) eqn:Eo; [|lia].
    destruct (Hv eq_refl) as [_ Hst]. apply (overlap_bounds s e v Hse) in Eo.
    unfold covers in Ex. bcase_in Ex; simpl in Ex; try done; lia.
Qed.

Lemma protect_rebuild_spec cap s e fl l n c m c' d r :
  s < e → is_u32 fl → cap < 2 ^ 32 → Forall valid_area l →
  0 <= n → n + 3 * Z.of_nat (length l) < 2 ^ 32 →
  fold_exit (λ v, protect_count_step [v] s e 0) (n, c) l = inr (m, c') →
  scratch cap d r → Z.of_nat (length d) + cut_count (protect_pieces s e fl) l <= cap →
  ∃ r', fold_exit (λ v, protect_rebuild_step [v] cap s e fl 0) (r, c) l = inr (r', c') ∧
    scratch cap (foldl push d (cut_all (protect_pieces s e fl) l)) r'.
Proof.
  intros Hse Hfl Hcap Hl. revert n c d r. induction Hl as [|v l Hv Hl IH]; intros n c d r Hn Hb Ec Hr Hroom.
  { unfold fold_exit in *; simpl in *. simplify_eq. by exists r. }
  simpl in Hb. rewrite fold_exit_cons in Ec. rewrite fold_exit_cons.
  pose proof (protect_count_one s e fl v n c Hn ltac:(lia)) as H1.
  destruct (protect_count_step [v] s e 0 (n, c)) as [?|[m1 c1]]; [done|].
  destruct H1 as (-> & -> & Hvc). pose proof (protect_pieces_length s e fl v).
  unfold cut_count in *. rewrite cut_all_cons, length_app in *.
  rewrite protect_rebuild_one by (change ([v].[0]) with v; intros Ho; by apply Hvc).
  change ([v].[0]) with v.
  destruct (protect_pieces_good s e fl Hse Hfl v Hv) as [Hp _].
  destruct (append_all_ok cap (protect_pieces s e fl v) d r Hcap Hr) as (r1 & -> & Hr1); [|lia|].
  { eapply Forall_impl; [exact Hp|]. by intros ? (? & _). }
  rewrite foldl_app. eapply IH; [|..|exact Ec|done|]; [lia|lia|].
  pose proof (fold_push_length (protect_pieces s e fl v) d). lia.
Qed.

(** Why the counting pass of protect refuses a range. *)
Definition protect_refused (l : list vm_area) (s e : Z) : Prop :=
  (∃ v, v ∈ l ∧ vma_overlaps v s e = true ∧ (kind v ≠ VMA_KIND_GENERIC ∨ start v = end_ v)) ∨
  (∃ x, s <= x < e ∧ vma_at l x = None).

Lemma overlap_start_ge s v c : s <= c → start v < end_ v → c <= start v ∨ c = s → c <= overlap_start s v.
Proof. unfold overlap_start. intros. bcase; lia. Qed.

Lemma not_covered v x : end_ v <= x ∨ x < start v → covers v x = false.
Proof. intros. unfold covers. bcase; simpl; try done; lia. Qed.

Lemma vma_at_below l x :
  Forall (λ w, x < start w ∨ end_ w <= start w) l → vma_at l x = None.
Proof.
  intros Hl. apply vma_at_None. eapply Forall_impl; [exact Hl|]. intros w Hw. cbn in Hw.
  unfold covers. bcase; simpl; try done; lia.
Qed.

Lemma protect_count_fail s e (fl : Z) l n c :
  s < e → s <= c <= e → 0 <= n → n + 3 * Z.of_nat (length l) < 2 ^ 32 →
  Forall valid_area l → StronglySorted before l →
  (c = s ∨ Forall (λ w, c <= start w ∨ end_ w <= start w) l) →
  match fold_exit (λ v, protect_count_step [v] s e 0) (n, c) l with
  | inl _ =>
      (∃ v, v ∈ l ∧ vma_overlaps v s e = true ∧ (kind v ≠ VMA_KIND_GENERIC ∨ start v = end_ v)) ∨
      (∃ x, c <= x < e ∧ vma_at l x = None)
  | inr (_, c') => c <= c' <= e ∧ (c' < e → vma_at l c' = None)
  end.
Proof.
  intros Hse. revert n c. induction l as [|v l IH]; intros n c Hc Hn Hb Hva Hso Hge.
  { unfold fold_exit; simpl. split; [lia|done]. }
  apply Forall_cons in Hva as [Hv Hva]. apply StronglySorted_inv in Hso as [Hso Hbef].
  simpl in Hb. rewrite fold_exit_cons.
  pose proof (protect_count_one s e fl v n c Hn ltac:(lia)) as H1.
  pose proof (protect_pieces_length s e fl v).
  destruct (protect_count_step [v] s e 0 (n, c)) as [?|[m c1]].
  - destruct H1 as [Ho [Hk|Hst]]; [left; exists v; split; [left|auto]|].
    destruct (Z.eq_dec (start v) (end_ v)); [left; exists v; split; [left|auto]|].
    right. exists c. destruct Hv as (? & ? & _).
    assert (c <= overlap_start s v) as Hcs.
    { apply overlap_start_ge; [lia|lia|]. destruct Hge as [->|Hge]; [by right|].
      apply Forall_cons in Hge as [[?|?] _]; [by left|lia]. }
    assert (c < start v ∧ c < e) as [Hlt ?].
    { unfold overlap_start, vma_overlaps in *. bprop. bcase_in Hst; bcase_in Hcs; lia. }
    split; [lia|]. simpl. rewrite not_covered by lia. apply vma_at_below.
    eapply Forall_impl; [exact Hbef|]. intros w [?|?]; lia.
  - destruct H1 as (-> & -> & Hvc). set (c1 := next_cursor s e v c).
    assert (c <= c1 <= e ∧ (vma_overlaps v s e = true → c1 = overlap_end e v)) as [Hc1 Ho1].
    { subst c1. unfold next_cursor. destruct (vma_overlaps v s e) eqn:Eo; [|split; [lia|done]].
      destruct (Hvc eq_refl) as [_ <-]. destruct Hv as (? & ? & _). split; [|done].
      unfold vma_overlaps, overlap_start, overlap_end in *. bprop. bcase; lia. }
    assert (∀ x, c1 <= x < e → covers v x = false) as Hnc.
    { intros x Hx. destruct (covers v x) eqn:Ex; [|done]. apply covers_spec in Ex.
      assert (vma_overlaps v s e = true) as Eo by (unfold vma_overlaps; bcase; simpl; try done; lia).
      specialize (Ho1 Eo). unfold overlap_end in Ho1. bcase_in Ho1; lia. }
    specialize (IH (n + Z.of_nat (length (protect_pieces s e fl v))) c1
      ltac:(lia) ltac:(lia) ltac:(lia) Hva Hso).
    lapply IH; clear IH.
    2:{ destruct (vma_overlaps v s e) eqn:Eo.
        - right. rewrite (Ho1 eq_refl). eapply Forall_impl; [exact Hbef|].
          unfold overlap_end. intros w [?|?]; [left; bcase; lia|by right].
        - subst c1. unfold next_cursor. rewrite Eo. destruct Hge as [->|Hge]; [by left|].
          right. by apply Forall_cons in Hge as [_ ?]. }
    intros IH. destruct (fold_exit _ _ l) as [?|[m c']].
    + destruct IH as [(w & Hw & ?)|(x & Hx & Hxa)]; [left; exists w; split; [by right|done]|].
      right. exists x. split; [lia|]. simpl. by rewrite Hnc by lia.
    + destruct IH as [? Hnone]. split; [lia|]. intros ?. simpl. rewrite Hnc by lia. auto.
Qed.

Section heap.
Context {H : Type} {KA : KAllocator H} {ka_inv : H → Prop} {ka_live : H → gset Z}
  {ka_room : H → Z → Z} {KL : KAllocatorLaws H ka_inv ka_live ka_room}.

(** The heap is sound and holds the table of [p]. *)
Definition owns (h : H) (p : process) : Prop := ka_inv h ∧ own p ⊆ ka_live h.

(** Nothing leaked: outside the table of the process, the same blocks are live. *)
Definition balanced (h : H) (p : process) (h' : H) (p' : process) : Prop :=
  ka_live h' ∖ own p' = ka_live h ∖ own p.

Lemma balanced_refl h p : balanced h p h p.
Proof. done. Qed.

Lemma ensure_spec h p needed :
  vma_inv p → needed <= 2 ^ 31 → owns h p →
  let '(rc, h', p') := vma_ensure_capacity h p needed in
  (rc = 0 ∧ needed <= vma_capacity p' ∧ vma_inv p' ∧ live p' = live p ∧
   vma_count p' = vma_count p ∧ vma_brk p' = vma_brk p ∧ owns h' p' ∧ balanced h p h' p') ∨
  (rc = -1 ∧ p' = p ∧ h' = h).
Proof.
  intros Hi Hn [Hh Ho]. unfold vma_ensure_capacity. pose proof Hi as [Hlen Hc Hcap Hv Hs Hp].
  destruct (as_ p) as [a|] eqn:Eas.
  2:{ destruct (Z.leb_spec needed PROCESS_MAX_VMAS); [left|by right].
      repeat split; try done; try (unfold vma_capacity; by rewrite Eas); tauto. }
  destruct (Z.leb_spec needed (as_vma_capacity a)) as [Hle|Hlt].
  { left. repeat split; try done; try (unfold vma_capacity; by rewrite Eas); tauto. }
  unfold vma_capacity, vma_count, vma_table in *. rewrite Eas in *.
  set (cap := if as_vma_capacity a =? 0 then 32 else as_vma_capacity a).
  assert (0 < cap < 2 ^ 32 ∧ as_vma_capacity a <= cap) as [Hcap' Hcc].
  { subst cap. destruct (Z.eqb_spec (as_vma_capacity a) 0); lia. }
  destruct (grow_capacity_ok 32 cap needed Hcap' Hn) as (c & Hg & Hnc & Hcr);
    [change (2 ^ Z.of_nat 32) with (2 ^ 32); lia|].
  unfold GROW_FUEL. rewrite Hg.
  destruct (ka_malloc h (SIZEOF_VMA *u c)) as [ptr h1] eqn:Em.
  pose proof (u32_range (SIZEOF_VMA * c)) as Hu.
  destruct (Z.eqb_spec ptr 0) as [->|Hptr].
  { right. repeat split. pose proof (ka_malloc_fail h _ Hh Hu) as Hf. rewrite Em in Hf. by apply Hf. }
  left. pose proof (ka_malloc_inv h _ Hh Hu) as Hh1. rewrite Em in Hh1.
  destruct (ka_malloc_ok _ _ _ _ Hh Hu Em Hptr) as (Hfresh & Hlive & _ & _).
  assert (as_vmas_ptr a ∈ ka_live h1) as Hold.
  { rewrite Hlive. unfold own in Ho. rewrite Eas, singleton_subseteq_l in Ho.
    by apply elem_of_union_r. }
  assert (as_vmas_ptr a ≠ ptr) as Hne.
  { intros <-. apply Hfresh. unfold own in Ho. by rewrite Eas, singleton_subseteq_l in Ho. }
  set (t := if negb (as_vmas_ptr a =? 0) && (0 <? as_vma_count a) then _ else zeros c).
  assert (length t = Z.to_nat c ∧ take (Z.to_nat (as_vma_count a)) t = live p) as [Ht1 Ht2].
  { subst t. unfold live, vma_table, vma_count, zeros. rewrite Eas.
    rewrite (proj2 (Z.eqb_neq _ _) Hp). cbn [negb andb].
    destruct (Z.ltb_spec 0 (as_vma_count a)).
    - rewrite length_app, length_take, length_drop, length_replicate. split; [lia|].
      rewrite take_app_le by (rewrite length_take; lia). rewrite take_take. f_equal. lia.
    - rewrite length_replicate. replace (as_vma_count a) with 0 by lia. done. }
  cbn [as_ as_vmas as_vma_count as_vma_capacity].
  split; [done|]. split; [done|]. split; [split|]; cbn; try done; try lia.
  1,2: unfold live, vma_table, vma_count; cbn; rewrite Ht2; done.
  split; [unfold live at 1, vma_table, vma_count; cbn; exact Ht2|].
  split; [done|]. split; [unfold vma_brk; cbn; by rewrite Eas|].
  split; [split|].
  - by apply ka_free_inv.
  - unfold own; cbn. rewrite ka_free_live, Hlive by done.
    apply singleton_subseteq_l, elem_of_difference. rewrite elem_of_union, !elem_of_singleton. auto.
  - unfold balanced, own; cbn. rewrite Eas, ka_free_live, Hlive by done.
    apply set_eq. intros x. rewrite !elem_of_difference, elem_of_union, !elem_of_singleton.
    split; [tauto|]. intros [Hx ?]. split; [tauto|]. by intros ->.
Qed.

(** The outcome of an insertion: on success the address map gains exactly the
    area, otherwise it is unchanged. *)
Lemma insert_spec h p area :
  vma_inv p → vma_count p < 2 ^ 29 → owns h p → valid_area area →
  let '(rc, h', p') := vma_insert_area h p area in
  vma_inv p' ∧ owns h' p' ∧ balanced h p h' p' ∧ vma_brk p' = vma_brk p ∧
  ((rc = 0 ∧ (∀ x, covers area x = true → vma_at (live p) x = None) ∧
    ∀ x, vma_at (live p') x = if covers area x then Some (vattr_of area x) else vma_at (live p) x) ∨
   (rc = -1 ∧ live p' = live p ∧
    ((∃ v, v ∈ live p ∧ vma_overlaps v (start area) (end_ area) = true) ∨
     (vma_ensure_capacity h p (vma_count p + 1)).1.1 ≠ 0))).
Proof.
  intros Hi Hcnt Ho Ha. unfold vma_insert_area. pose proof Hi as [Hlen Hc _ _ _ _].
  destruct (Z.ltb_spec (end_ area) (start area)); [unfold valid_area in Ha; lia|].
  rewrite u32_small by zsolve.
  pose proof (ensure_spec h p (vma_count p + 1) Hi ltac:(lia) Ho) as He.
  destruct (vma_ensure_capacity h p (vma_count p + 1)) as [[rc h1] p1].
  destruct He as [(-> & Hcap & Hi1 & Hlive & Hcnt1 & Hbrk & Ho1 & Hbal)|(-> & -> & ->)].
  2:{ cbn. do 4 (split; [done|]). right. auto. }
  cbn [Z.eqb negb fst]. pose proof (vi_len _ Hi1) as Hlen1. pose proof (vi_count _ Hi1) as Hc1.
  assert (∀ i, 0 <= i < vma_count p1 → (vma_table p1).[i] ∈ live p) as Hin.
  { intros i Hii. rewrite <-Hlive. apply list_elem_of_lookup. exists (Z.to_nat i).
    apply live_lookup; [lia|]. split; [lia|]. apply arr_lookup. lia. }
  pose proof (insert_scan_spec (vma_table p1) (vma_count p1) area ltac:(lia)) as Hscan.
  destruct (vma_insert_scan _ _ _) as [?|k].
  { do 4 (split; [done|]). right. do 2 (split; [done|]). left.
    destruct Hscan as (i & Hii & ?). exists (vma_table p1).[i]. auto. }
  destruct (_ && _) eqn:Eov.
  { do 4 (split; [done|]). right. do 2 (split; [done|]). left. bprop.
    exists (vma_table p1).[k]. split; [apply Hin; lia|done]. }
  destruct Hscan as (Hk & Hlow & Hhigh).
  destruct (insert_install p1 area k) as (Hi2 & Hown & Hbrk2 & Hfree & Hat); try done; [lia|lia|].
  split; [done|]. split; [unfold owns; by rewrite Hown|].
  split; [unfold balanced; by rewrite Hown|]. split; [congruence|]. left. rewrite <-Hlive. done.
Qed.

Lemma install_ok h p ptr d r :
  vma_inv p → scratch (vma_capacity p) d r → Forall valid_area d → StronglySorted before d →
  let '(rc, h', p') := install_rebuilt h p (vma_capacity p) ptr r in
  rc = 0 ∧ h' = ka_free h ptr ∧ vma_inv p' ∧ live p' = d ∧ own p' = own p ∧ vma_brk p' = vma_brk p.
Proof.
  intros [Hlen Hc Hcap Hv Hs Hp] [Hrl Hrc Hrd] Hdv Hds. unfold install_rebuilt.
  set (z := zeros _ ++ _). set (t := if 0 <? r.2 then _ else z).
  destruct (set_table_get p t r.2) as (Hg1 & Hg2 & Hg3 & Hg4).
  assert (length z = length (vma_table p)) as Hz.
  { subst z. unfold zeros. rewrite length_app, length_replicate, length_drop. lia. }
  assert (length t = length (vma_table p) ∧ take (Z.to_nat r.2) t = d) as [Ht1 Ht2].
  { subst t. destruct (Z.ltb_spec 0 r.2).
    - rewrite length_app, length_take, length_drop. split; [lia|].
      rewrite take_app_le by (rewrite length_take; lia). rewrite take_take, Nat.min_id. done.
    - replace r.2 with 0 in * by lia. split; [done|]. by rewrite <-Hrd. }
  assert (live (set_table p t r.2) = d) as Hl by (unfold live; by rewrite Hg1, Hg2).
  split; [done|]. split; [done|]. split; [split|]; rewrite ?Hl, ?Hg1, ?Hg2, ?Hg3; try done; try lia.
  - by apply set_table_ptr.
  - split; [done|]. split; [apply own_set_table|done].
Qed.

(** A scratch buffer is allocated and freed again: nothing leaks. *)
Lemma scratch_alloc h p n ptr h1 :
  owns h p → is_u32 n → ka_malloc h n = (ptr, h1) → ptr ≠ 0 →
  owns (ka_free h1 ptr) p ∧ balanced h p (ka_free h1 ptr) p.
Proof.
  intros [Hh Ho] Hn Em Hp.
  pose proof (ka_malloc_inv h n Hh Hn) as Hh1. rewrite Em in Hh1. cbn in Hh1.
  destruct (ka_malloc_ok _ _ _ _ Hh Hn Em Hp) as (Hfresh & Hlive & _ & _).
  assert (ptr ∈ ka_live h1) as Hin by (rewrite Hlive; apply elem_of_union_l; by apply elem_of_singleton).
  assert (ka_live (ka_free h1 ptr) = ka_live h) as E.
  { rewrite ka_free_live, Hlive by done. apply set_eq. intros x.
    rewrite elem_of_difference, elem_of_union, elem_of_singleton.
    split; [tauto|]. intros Hx. split; [tauto|]. by intros ->. }
  unfold owns, balanced. rewrite E. split; [|done]. split; [by apply ka_free_inv|done].
Qed.

Lemma malloc_null h n ptr h1 :
  ka_inv h → is_u32 n → ka_malloc h n = (ptr, h1) → ptr = 0 → h1 = h.
Proof.
  intros Hh Hn Em ->. pose proof (ka_malloc_fail h n Hh Hn) as Hf. rewrite Em in Hf. by apply Hf.
Qed.

Lemma balanced_trans h1 p1 h2 p2 h3 p3 :
  balanced h1 p1 h2 p2 → balanced h2 p2 h3 p3 → balanced h1 p1 h3 p3.
Proof. unfold balanced. congruence. Qed.

Lemma balanced_own h p h' p' q : own p' = own q → balanced h p h' p' → balanced h p h' q.
Proof. unfold balanced. by intros ->. Qed.

(** Why a rebuild could not be carried out: no room in the embedded table, or
    no memory. *)
Definition no_memory (h : H) (p : process) (needed : Z) : Prop :=
  let '(rc, h1, p1) := vma_ensure_capacity h p needed in
  rc ≠ 0 ∨ (ka_malloc h1 (SIZEOF_VMA *u vma_capacity p1)).1 = 0.

Lemma unmap_at s e l x :
  s < e → Forall valid_area l →
  vma_at (cut_all (unmap_pieces s e) l) x = if (s <=? x) && (x <? e) then None else vma_at l x.
Proof.
  intros Hse Hl. induction Hl as [|v l Hv Hl IH]; [by case_match|].
  rewrite cut_all_cons, vma_at_app, IH, unmap_pieces_at by done. simpl.
  destruct (covers v x), ((s <=? x) && (x <? e)); done.
Qed.

(** The last part of unmap and protect, once the pieces are in the scratch
    table. *)
Lemma finish_rebuild f h p n ptr h2 r :
  vma_inv p → owns h p → is_u32 n → ka_malloc h n = (ptr, h2) → ptr ≠ 0 → good_cut f →
  scratch (vma_capacity p) (foldl push [] (cut_all f (live p))) r →
  let '(rc, h', p') := install_rebuilt h2 p (vma_capacity p) ptr r in
  rc = 0 ∧ vma_inv p' ∧ owns h' p' ∧ balanced h p h' p' ∧
  ∀ x, vma_at (live p') x = vma_at (cut_all f (live p)) x.
Proof.
  intros Hi Ho Hu Em Hptr Hf Hr.
  destruct (scratch_alloc h p n ptr h2 Ho Hu Em Hptr) as [Ho2 Hbal2].
  destruct (fold_push_ok [] (cut_all f (live p))) as (Hat & Hpv & Hps & _).
  { apply cut_all_valid; [done|apply Hi]. }
  { apply cut_all_sorted; [done|apply Hi|apply Hi]. }
  pose proof (install_ok h2 p ptr _ r Hi Hr Hpv Hps) as Hin.
  destruct (install_rebuilt h2 p (vma_capacity p) ptr r) as [[rc h3] p3].
  destruct Hin as (-> & -> & Hi3 & Hl3 & Hown & _).
  split; [done|]. split; [done|]. split; [unfold owns; by rewrite Hown|].
  split; [by eapply balanced_own|]. intros x. by rewrite Hl3, Hat.
Qed.

Lemma live_length p : vma_inv p → Z.of_nat (length (live p)) = vma_count p.
Proof. intros [? ? _ _ _ _]. unfold live. rewrite length_take. lia. Qed.

Lemma unmap_count_live p s e :
  vma_inv p → vma_count p < 2 ^ 29 →
  match for_exit 0 (Z.to_nat (vma_count p)) (unmap_count_step (vma_table p) s e) 0 with
  | inl _ => ∃ v, v ∈ live p ∧ vma_overlaps v s e = true ∧ kind v ≠ VMA_KIND_GENERIC
  | inr m => m = cut_count (unmap_pieces s e) (live p) ∧ m <= 2 ^ 31 ∧
      ∀ v, v ∈ live p → vma_overlaps v s e = true → kind v = VMA_KIND_GENERIC
  end.
Proof.
  intros Hi Hcnt. pose proof (live_length p Hi) as Hll. pose proof (vi_len _ Hi). pose proof (vi_count _ Hi).
  assert (for_exit 0 (Z.to_nat (vma_count p)) (unmap_count_step (vma_table p) s e) 0 =
    foldl (λ acc v, match acc with inl x => inl x | inr n => unmap_count_step [v] s e 0 n end)
      (inr 0) (live p)) as ->.
  { exact (for_exit_fold (vma_table p) (λ v, unmap_count_step [v] s e 0)
      (Z.to_nat (vma_count p)) 0 ltac:(lia)). }
  pose proof (unmap_count_spec s e (live p) 0 ltac:(lia) ltac:(lia)) as Hcount.
  destruct (foldl _ (inr 0) (live p)) as [?|m]; [done|]. destruct Hcount as [-> Hg].
  rewrite Z.add_0_l. split; [done|]. split; [|done]. unfold cut_count.
  assert (∀ l, (length (cut_all (unmap_pieces s e) l) <= 2 * length l)%nat) as Hb.
  { induction l as [|v l IH]; [done|]. rewrite cut_all_cons, length_app. simpl.
    pose proof (unmap_pieces_length s e v). lia. }
  specialize (Hb (live p)). lia.
Qed.

Lemma unmap_rebuild_live p s e :
  vma_inv p → s < e → cut_count (unmap_pieces s e) (live p) <= vma_capacity p →
  ∃ r, for_exit 0 (Z.to_nat (vma_count p)) (unmap_rebuild_step (vma_table p) (vma_capacity p) s e)
         (zeros (vma_capacity p), 0) = inr r ∧
       scratch (vma_capacity p) (foldl push [] (cut_all (unmap_pieces s e) (live p))) r.
Proof.
  intros Hi Hse Hroom. pose proof Hi as [Hlen Hc Hcap Hv Hs Hp].
  destruct (rebuild_ok (unmap_pieces s e)
    (λ v, append_all (vma_capacity p) (unmap_pieces s e v)) (vma_capacity p) (live p) []
    (zeros (vma_capacity p), 0)) as (r & Er & Hr); try done.
  { by apply unmap_pieces_good. }
  { apply scratch_zeros. lia. }
  exists r. split; [|done]. rewrite <-Er. unfold live.
  rewrite <-(for_exit_fold (vma_table p) (λ v, append_all (vma_capacity p) (unmap_pieces s e v))) by lia.
  apply for_exit_ext. intros. apply unmap_step_append.
Qed.

Lemma unmap_spec h p s e :
  vma_inv p → vma_count p < 2 ^ 29 → owns h p →
  let '(rc, h', p') := vma_unmap_range h p s e in
  vma_inv p' ∧ owns h' p' ∧ balanced h p h' p' ∧
  ((rc = 0 ∧ s < e ∧
    (∀ v, v ∈ live p → vma_overlaps v s e = true → kind v = VMA_KIND_GENERIC) ∧
    ∀ x, vma_at (live p') x = if (s <=? x) && (x <? e) then None else vma_at (live p) x) ∨
   (rc = -1 ∧ live p' = live p ∧
    (e <= s ∨ (∃ v, v ∈ live p ∧ vma_overlaps v s e = true ∧ kind v ≠ VMA_KIND_GENERIC) ∨
     no_memory h p (cut_count (unmap_pieces s e) (live p))))).
Proof.
  intros Hi Hcnt Ho. unfold vma_unmap_range.
  destruct (Z.leb_spec e s) as [Hes|Hse]; [do 3 (split; [done|]); right; auto|].
  pose proof (unmap_count_live p s e Hi Hcnt) as Hcount.
  destruct (for_exit 0 _ (unmap_count_step _ s e) 0) as [?|needed].
  { do 3 (split; [done|]). right. auto. }
  destruct Hcount as (-> & Hneed & Hgen). set (needed := cut_count _ _) in *.
  pose proof (ensure_spec h p needed Hi Hneed Ho) as He.
  unfold no_memory. destruct (vma_ensure_capacity h p needed) as [[rc h1] p1]. cbn [fst snd].
  destruct He as [(-> & Hroom & Hi1 & Hlive & Hcnt1 & Hbrk & Ho1 & Hbal)|(-> & -> & ->)].
  2:{ cbn. do 3 (split; [done|]). right. do 2 (split; [done|]). right. right. by left. }
  cbn [Z.eqb negb]. destruct (ka_malloc h1 (SIZEOF_VMA *u vma_capacity p1)) as [ptr h2] eqn:Em.
  pose proof (u32_range (SIZEOF_VMA * vma_capacity p1)) as Hu.
  destruct (Z.eqb_spec ptr 0) as [Hz|Hptr].
  { pose proof (malloc_null _ _ _ _ (proj1 Ho1) Hu Em Hz) as ->. do 3 (split; [done|]). right.
    do 2 (split; [done|]). right. right. by right. }
  subst needed. rewrite <-Hlive, <-Hcnt1 in *.
  destruct (unmap_rebuild_live p1 s e Hi1 Hse Hroom) as (r & -> & Hr).
  pose proof (finish_rebuild (unmap_pieces s e) h1 p1 _ ptr h2 r Hi1 Ho1 Hu Em Hptr
    (unmap_pieces_good s e Hse) Hr) as Hfin.
  destruct (install_rebuilt h2 p1 (vma_capacity p1) ptr r) as [[rc h3] p3].
  destruct Hfin as (-> & Hi3 & Ho3 & Hbal3 & Hat).
  split; [done|]. split; [done|]. split; [by eapply balanced_trans|].
  left. do 3 (split; [done|]). intros x. rewrite Hat, unmap_at by (done || apply Hi1). done.
Qed.

Lemma protect_at s e fl l x :
  s < e → Forall valid_area l →
  vma_at (cut_all (protect_pieces s e fl) l) x =
    if (s <=? x) && (x <? e) then protect_attr fl <$> vma_at l x else vma_at l x.
Proof.
  intros Hse Hl. induction Hl as [|v l Hv Hl IH]; [by case_match|].
  rewrite cut_all_cons, vma_at_app, IH, protect_pieces_at by done. simpl.
  destruct (covers v x), ((s <=? x) && (x <? e)); done.
Qed.

Lemma protect_count_live p s e :
  vma_inv p →
  for_exit 0 (Z.to_nat (vma_count p)) (protect_count_step (vma_table p) s e) (0, s) =
  fold_exit (λ v, protect_count_step [v] s e 0) (0, s) (live p).
Proof.
  intros [? ? _ _ _ _].
  exact (for_exit_fold (vma_table p) (λ v, protect_count_step [v] s e 0)
    (Z.to_nat (vma_count p)) (0, s) ltac:(lia)).
Qed.

Lemma protect_rebuild_live p s e fl r0 :
  vma_inv p →
  for_exit 0 (Z.to_nat (vma_count p)) (protect_rebuild_step (vma_table p) (vma_capacity p) s e fl) r0 =
  fold_exit (λ v, protect_rebuild_step [v] (vma_capacity p) s e fl 0) r0 (live p).
Proof.
  intros [? ? _ _ _ _].
  exact (for_exit_fold (vma_table p) (λ v, protect_rebuild_step [v] (vma_capacity p) s e fl 0)
    (Z.to_nat (vma_count p)) r0 ltac:(lia)).
Qed.

Lemma protect_spec h p s e fl :
  vma_inv p → vma_count p < 2 ^ 29 → owns h p → is_u32 fl →
  let '(rc, h', p') := vma_protect_range h p s e fl in
  vma_inv p' ∧ owns h' p' ∧ balanced h p h' p' ∧
  ((rc = 0 ∧ s < e ∧
    (∀ x, s <= x < e → is_Some (vma_at (live p) x)) ∧
    (∀ v, v ∈ live p → vma_overlaps v s e = true → kind v = VMA_KIND_GENERIC) ∧
    ∀ x, vma_at (live p') x =
      if (s <=? x) && (x <? e) then protect_attr fl <$> vma_at (live p) x else vma_at (live p) x) ∨
   (rc = -1 ∧ live p' = live p ∧
    (e <= s ∨ protect_refused (live p) s e ∨
     no_memory h p (cut_count (protect_pieces s e fl) (live p))))).
Proof.
  intros Hi Hcnt Ho Hfl. unfold vma_protect_range.
  destruct (Z.leb_spec e s) as [Hes|Hse]; [do 3 (split; [done|]); right; auto|].
  pose proof (live_length p Hi) as Hll. rewrite protect_count_live by done.
  assert (0 + 3 * Z.of_nat (length (live p)) < 2 ^ 32) as H3 by lia.
  pose proof (protect_count_spec s e fl (live p) 0 s Hse ltac:(lia) ltac:(lia)) as Hcount.
  pose proof (protect_count_fail s e fl (live p) 0 s Hse ltac:(lia) ltac:(lia) ltac:(lia)
    (vi_valid _ Hi) (vi_sorted _ Hi) (or_introl eq_refl)) as Hfail.
  destruct (fold_exit _ (0, s) (live p)) as [?|[needed c]] eqn:Ec.
  { do 3 (split; [done|]). right. auto. }
  destruct Hcount as (-> & Hgen & Hcov). rewrite Z.add_0_l in *.
  destruct (Z.eqb_spec c e) as [->|]; cbn [negb].
  2:{ do 3 (split; [done|]). right. do 2 (split; [done|]). right. left. right. exists c.
      destruct Hfail as [? Hnone]. split; [lia|]. apply Hnone. lia. }
  set (needed := cut_count _ _) in *.
  assert (needed <= 2 ^ 31) as Hneed.
  { subst needed. unfold cut_count.
    assert (∀ l, (length (cut_all (protect_pieces s e fl) l) <= 3 * length l)%nat) as Hb.
    { induction l as [|v l IH]; [done|]. rewrite cut_all_cons, length_app. simpl.
      pose proof (protect_pieces_length s e fl v). lia. }
    specialize (Hb (live p)). lia. }
  pose proof (ensure_spec h p needed Hi Hneed Ho) as He.
  unfold no_memory. destruct (vma_ensure_capacity h p needed) as [[rc h1] p1].
  destruct He as [(-> & Hroom & Hi1 & Hlive & Hcnt1 & Hbrk & Ho1 & Hbal)|(-> & -> & ->)].
  2:{ cbn. do 3 (split; [done|]). right. do 2 (split; [done|]). right. right. by left. }
  cbn [Z.eqb negb]. destruct (ka_malloc h1 (SIZEOF_VMA *u vma_capacity p1)) as [ptr h2] eqn:Em.
  pose proof (u32_range (SIZEOF_VMA * vma_capacity p1)) as Hu.
  destruct (Z.eqb_spec ptr 0) as [Hz|Hptr].
  { pose proof (malloc_null _ _ _ _ (proj1 Ho1) Hu Em Hz) as ->. do 3 (split; [done|]). right.
    do 2 (split; [done|]). right. right. by right. }
  subst needed. rewrite <-Hlive, <-Hcnt1 in *. rewrite protect_rebuild_live by done.
  pose proof Hi1 as [Hlen1 Hc1 Hcap1 Hv1 Hs1 Hp1].
  destruct (protect_rebuild_spec (vma_capacity p1) s e fl (live p1) 0 s _ _ [] (zeros (vma_capacity p1), 0)
    Hse Hfl Hcap1 Hv1 ltac:(lia) H3 Ec (scratch_zeros (vma_capacity p1) ltac:(lia)) Hroom) as (r & -> & Hr).
  pose proof (finish_rebuild _ h1 p1 _ ptr h2 r Hi1 Ho1 Hu Em Hptr
    (protect_pieces_good s e fl Hse Hfl) Hr) as Hfin.
  destruct (install_rebuilt h2 p1 (vma_capacity p1) ptr r) as [[rc h3] p3].
  destruct Hfin as (-> & Hi3 & Ho3 & Hbal3 & Hat).
  split; [done|]. split; [done|]. split; [by eapply balanced_trans|].
  left. do 4 (split; [done|]). intros x. by rewrite Hat, protect_at.
Qed.
End heap.
