(* ===== verification/VmaProps.v ===== *)
(** * Virtual memory areas: properties

    Lookup, placement of anonymous and file mappings, and the claims about the
    table operations, with the kernel heap of [Kheap] as the allocator in the
    concrete instances. *)

From stdpp Require Import sorting.
From S2P Require Import Prelude Interfaces Kheap Vma VmaSpec.

(** ** Lookup *)

(** The search loops stop at the first live entry that satisfies a test. *)
Definition first_live (P : vm_area → bool) (p : process) : option vm_area :=
  match fold_exit (λ v (_ : unit), if P v then inl v else inr ()) () (live p) with
  | inl v => Some v
  | inr _ => None
  end.

Lemma first_live_loop (P : vm_area → bool) p :
  vma_inv p →
  match for_exit 0 (Z.to_nat (vma_count p))
          (λ i (_ : unit), if P (vma_table p).[i] then inl (vma_table p).[i] else inr ()) () with
  | inl v => Some v
  | inr _ => None
  end = first_live P p.
Proof.
  intros Hi. pose proof (vi_len _ Hi). pose proof (vi_count _ Hi). unfold first_live, fold_exit, live.
  by rewrite <-(for_exit_fold (vma_table p) (λ v (_ : unit), if P v then inl v else inr ())) by lia.
Qed.

Lemma find_const_fold p x : vma_inv p → vma_find_const p x = first_live (λ v, covers v x) p.
Proof. intros Hi. by rewrite <-first_live_loop. Qed.

Lemma find_kind_fold p k : vma_inv p → vma_find_kind_const p k = first_live (λ v, kind v =? k) p.
Proof. intros Hi. by rewrite <-first_live_loop. Qed.

Lemma first_live_Some P p v : first_live P p = Some v → v ∈ live p ∧ P v = true.
Proof.
  unfold first_live. generalize (live p). induction l as [|w l IH]; [done|]. rewrite fold_exit_cons.
  destruct (P w) eqn:E.
  - intros [= <-]. split; [left|done].
  - intros Hv. destruct (IH Hv). split; [by right|done].
Qed.

Lemma find_const_at p x :
  vma_inv p → vma_at (live p) x = (λ v, vattr_of v x) <$> vma_find_const p x.
Proof.
  intros Hi. rewrite find_const_fold by done.
  unfold first_live. generalize (live p). induction l as [|v l IH]; [done|]. rewrite fold_exit_cons. simpl.
  by destruct (covers v x).
Qed.

Lemma find_const_in p x v :
  vma_inv p → vma_find_const p x = Some v → v ∈ live p ∧ covers v x = true.
Proof.
  intros Hi. rewrite find_const_fold by done.
  apply first_live_Some.
Qed.

(** ** Page rounding *)

Lemma page_align_down_spec v : is_u32 v → vm_page_align_down v = v / 4096 * 4096.
Proof.
  intros Hv. unfold vm_page_align_down. change 0xFFF with (Z.ones 12).
  rewrite land_not32_mask by (done || lia). change (2 ^ 12) with 4096. zsolve.
Qed.

Lemma page_align_up_spec v :
  0 <= v <= 0xFFFFF000 → vm_page_align_up v = (v + 4095) / 4096 * 4096.
Proof.
  intros Hv. unfold vm_page_align_up. destruct (Z.ltb_spec (UINT32_MAX - 0xFFF) v); [zsolve|].
  rewrite u32_small by zsolve. change 0xFFF with (Z.ones 12) at 2.
  rewrite land_not32_mask by (lia || zsolve). change (2 ^ 12) with 4096. zsolve.
Qed.

(** ** Placement *)

Definition VM_TASK_SIZE : Z := 0xC0000000.

(** The window searched by [vma_find_topdown_gap]. *)
Definition gap_low (p : process) : Z := Z.max VM_MMAP_MIN (vm_page_align_up (vma_brk p)).
Definition gap_high (stack : vm_area) : Z :=
  if VM_STACK_GUARD_GAP <? start stack then start stack - VM_STACK_GUARD_GAP else start stack.

Lemma gap_step_bounds t count low len j scan_end :
  0 <= low → low mod 4096 = 0 → 0 < len → len mod 4096 = 0 →
  0 <= scan_end <= VM_TASK_SIZE → scan_end mod 4096 = 0 →
  (0 <= start t.[count - j - 1] ∧ 0 <= end_ t.[count - j - 1] <= VM_TASK_SIZE) →
  match vma_gap_step t count low len j scan_end with
  | inl s => low <= s ∧ s + len <= scan_end ∧ s mod 4096 = 0
  | inr se => 0 <= se <= scan_end ∧ se mod 4096 = 0
  end.
Proof.
  intros Hlow Hlowa Hlen Hlena Hse Hsea [Hst Hen]. unfold vma_gap_step, VM_TASK_SIZE in *.
  set (v := t.[count - j - 1]) in *.
  destruct (Z.leb_spec scan_end (start v)); [split; [lia|done]|].
  assert (low <= (if low <? end_ v then vm_page_align_up (end_ v) else low) <= 0xC0000000 ∨
          low <= (if low <? end_ v then vm_page_align_up (end_ v) else low)) as Hg.
  { right. destruct (Z.ltb_spec low (end_ v)); [|lia]. rewrite page_align_up_spec by lia. zsolve. }
  assert (low <= (if low <? end_ v then vm_page_align_up (end_ v) else low)) as Hgs by lia.
  clear Hg. set (g := if low <? end_ v then _ else _) in *.
  destruct ((g <? scan_end) && (len <=? (scan_end -u g))) eqn:E.
  - bprop. rewrite u32_small in * by zsolve. rewrite ?u32_small by zsolve. zsolve.
  - rewrite page_align_down_spec by zsolve. zsolve.
Qed.

Lemma gap_spec p hint length s :
  vma_inv p → is_u32 hint → is_u32 length → is_u32 (vma_brk p) →
  Forall (λ v, end_ v <= VM_TASK_SIZE ∧ start v mod 4096 = 0) (live p) →
  vma_find_topdown_gap p hint length = Some s →
  ∃ stack, vma_find_kind_const p VMA_KIND_STACK = Some stack ∧
    0 < vm_page_align_up length ∧ length <= vm_page_align_up length ∧
    gap_low p <= s ∧ s + vm_page_align_up length <= gap_high stack ∧
    s mod 4096 = 0 ∧ gap_high stack <= VM_TASK_SIZE.
Proof.
  intros Hi Hh Hl Hbrk Hall. unfold vma_find_topdown_gap.
  pose proof (vi_len _ Hi) as Hlen. pose proof (vi_count _ Hi) as Hc.
  destruct (Z.eqb_spec length 0) as [|Hl0]; [done|].
  assert (Hlu : vm_page_align_up length ≠ 0 →
    length <= vm_page_align_up length < 2 ^ 32 ∧ vm_page_align_up length mod 4096 = 0).
  { destruct (Z.le_gt_cases length 0xFFFFF000).
    - rewrite page_align_up_spec by zsolve. zsolve.
    - unfold vm_page_align_up. destruct (Z.ltb_spec (UINT32_MAX - 0xFFF) length); [done|zsolve]. }
  set (len := vm_page_align_up length) in *.
  destruct (Z.eqb_spec len 0) as [|Hlen0]; [done|]. specialize (Hlu Hlen0).
  assert (0 < len) as Hlpos by (unfold is_u32 in *; lia).
  destruct (vma_find_kind_const p VMA_KIND_STACK) as [stack|] eqn:Est; [|done].
  assert (stack ∈ live p) as Hin.
  { rewrite find_kind_fold in Est by done. by apply first_live_Some in Est as [? _]. }
  rewrite Forall_forall in Hall. destruct (Hall stack Hin) as [Hse Hsa].
  pose proof (vi_valid _ Hi) as Hv. rewrite Forall_forall in Hv. pose proof (Hv stack Hin) as (Hs0 & Hs1 & _).
  assert (is_u32 (vm_page_align_up (vma_brk p)) ∧ vm_page_align_up (vma_brk p) mod 4096 = 0) as [Hbu Hba].
  { destruct (Z.le_gt_cases (vma_brk p) 0xFFFFF000).
    - rewrite page_align_up_spec by zsolve. zsolve.
    - unfold vm_page_align_up. destruct (Z.ltb_spec (UINT32_MAX - 0xFFF) (vma_brk p)); [done|zsolve]. }
  unfold VM_STACK_GUARD_GAP, VM_TASK_SIZE in *.
  replace (if vm_page_align_up (vma_brk p) <? VM_MMAP_MIN then VM_MMAP_MIN else vm_page_align_up (vma_brk p))
    with (gap_low p) by (unfold gap_low; bcase; lia).
  assert (gap_low p mod 4096 = 0 ∧ VM_MMAP_MIN <= gap_low p < 2 ^ 32) as [Hla Hlb].
  { unfold gap_low, VM_MMAP_MIN. unfold is_u32 in *. destruct (Z.max_spec 0x40000000 (vm_page_align_up (vma_brk p))) as [[? ->]|[? ->]];
      [lia|]. split; [done|lia]. }
  replace (if 1024 * 1024 <? start stack then start stack -u (1024 * 1024) else start stack)
    with (gap_high stack).
  2:{ unfold gap_high, VM_STACK_GUARD_GAP. bcase; [rewrite u32_small; zsolve|lia]. }
  assert (0 <= gap_high stack <= 0xC0000000 ∧ gap_high stack mod 4096 = 0) as [Hhb Hha].
  { unfold gap_high, VM_STACK_GUARD_GAP. bcase; zsolve. }
  set (low := gap_low p) in *. set (high := gap_high stack) in *. unfold VM_MMAP_MIN in Hlb.
  destruct ((high <=? low) || (high -u low <? len)) eqn:E0; [done|]. bprop. rewrite u32_small in * by zsolve.
  destruct (_ && vma_range_is_free p hint (hint +u len)) eqn:Eh.
  - intros [= <-]. bprop. exists stack. split; [done|].
    assert (hint mod 4096 = 0) as Hhm.
    { change (PAGE_SIZE - 1) with (Z.ones 12) in *. rewrite Z.land_ones in * by lia. done. }
    assert (hint + len < 2 ^ 32).
    { destruct (Z.lt_ge_cases (hint + len) (2 ^ 32)); [done|]. exfalso. zsolve. }
    rewrite u32_small in * by zsolve. repeat split; try done; lia.
  - clear Eh.
    pose proof (for_exit_inv (λ _ se, 0 <= se <= high ∧ se mod 4096 = 0)
      (λ s, low <= s ∧ s + len <= high ∧ s mod 4096 = 0)
      (vma_gap_step (vma_table p) (vma_count p) low len) 0 (Z.to_nat (vma_count p)) high) as Hloop.
    lapply Hloop; clear Hloop.
    2:{ intros j se Hj [Hse' Hsea']. rewrite Z2Nat.id in Hj by lia.
        pose proof (arr_lookup (vma_table p) (vma_count p - j - 1) ltac:(lia)) as Hlk.
        assert ((vma_table p).[vma_count p - j - 1] ∈ live p) as Hin'.
        { apply list_elem_of_lookup. exists (Z.to_nat (vma_count p - j - 1)).
          apply live_lookup; [lia|]. split; [lia|done]. }
        pose proof (gap_step_bounds (vma_table p) (vma_count p) low len j se) as Hst.
        destruct (Hall _ Hin'). destruct (Hv _ Hin') as (? & ? & _).
        unfold VM_TASK_SIZE in Hst. specialize (Hst ltac:(lia) Hla ltac:(lia) ltac:(tauto) ltac:(lia) Hsea' ltac:(lia)).
        destruct (vma_gap_step _ _ _ _ _ _); lia. }
    intros Hloop. specialize (Hloop ltac:(lia)).
    destruct (for_exit _ _ _ high) as [s'|se].
    + intros [= <-]. exists stack. split; [done|]. repeat split; lia.
    + destruct ((low <? se) && (len <=? se -u low)) eqn:E; [|done]. bprop. intros [= <-].
      rewrite u32_small in * by zsolve. rewrite ?u32_small by zsolve.
      exists stack. split; [done|]. repeat split; try lia. zsolve.
Qed.

(** ** Claims *)

(** Facts about a table a process can have: it fits 32-bit counting with room
    for the pieces of a split. *)
Definition small_table (p : process) : Prop := vma_count p < 2 ^ 29.

(** User areas end below the kernel half and start on page boundaries. *)
Definition user_areas (p : process) : Prop :=
  Forall (λ v, end_ v <= VM_TASK_SIZE ∧ start v mod 4096 = 0) (live p).

(** The address map of [p'] is that of [p] with [area] added. *)
Definition gains (p p' : process) (area : vm_area) : Prop :=
  (∀ x, covers area x = true → vma_at (live p) x = None) ∧
  ∀ x, vma_at (live p') x = if covers area x then Some (vattr_of area x) else vma_at (live p) x.

Lemma grow_zero fuel needed : 0 < needed → grow_capacity fuel 0 needed = None.
Proof.
  intros Hn. induction fuel as [|fuel IH]; [done|]. cbn [grow_capacity].
  destruct (Z.ltb_spec 0 needed); [|lia]. cbn [Z.ltb Z.compare]. exact IH.
Qed.

Lemma grow_pow2_diverges (k : nat) fuel needed :
  (k <= 31)%nat → 2 ^ 31 < needed → grow_capacity fuel (2 ^ (31 - Z.of_nat k)) needed = None.
Proof.
  intros Hk Hn. revert k Hk. induction fuel as [|fuel IH]; intros k Hk; [done|].
  assert (0 < 2 ^ (31 - Z.of_nat k) <= 2 ^ 31) as [Hlo Hhi].
  { split; [apply Z.pow_pos_nonneg; lia|apply Z.pow_le_mono_r; lia]. }
  cbn [grow_capacity]. destruct (Z.ltb_spec (2 ^ (31 - Z.of_nat k)) needed); [|lia].
  destruct (Z.ltb_spec 0x80000000 (2 ^ (31 - Z.of_nat k))); [lia|].
  destruct k as [|k]; [apply grow_zero; lia|].
  replace (2 ^ (31 - Z.of_nat (S k)) *u 2) with (2 ^ (31 - Z.of_nat k)); [apply IH; lia|].
  replace (31 - Z.of_nat k) with (Z.succ (31 - Z.of_nat (S k))) by lia.
  assert (2 ^ (31 - Z.of_nat (S k)) <= 2 ^ 30) by (apply Z.pow_le_mono_r; lia).
  rewrite Z.pow_succ_r by lia. rewrite u32_small; [lia|]. unfold is_u32. lia.
Qed.

(** The doubling loop of [vma_ensure_capacity] on a fresh table (initial
    capacity 32) terminates exactly for requests of at most [2^31] entries: past
    that the doubled capacity wraps to 0 before the overflow guard
    [next_cap > 0x80000000] sees it, and the loop spins for ever. *)
Theorem grow_capacity_terminates_iff needed :
  (∃ fuel r, grow_capacity fuel 32 needed = Some r) ↔ needed <= 2 ^ 31.
Proof.
  split.
  - intros (fuel & r & Hr). destruct (Z.le_gt_cases needed (2 ^ 31)); [done|].
    change 32 with (2 ^ (31 - Z.of_nat 26)) in Hr. rewrite grow_pow2_diverges in Hr by lia. done.
  - intros Hn. destruct (grow_capacity_ok 32 32 needed) as (c & Hg & _); try lia. eauto.
Qed.

Section claims.
Context {H : Type} {KA : KAllocator H} {ka_inv : H → Prop} {ka_live : H → gset Z}
  {ka_room : H → Z → Z} {KL : KAllocatorLaws H ka_inv ka_live ka_room}.
Notation owns := (owns (ka_inv := ka_inv) (ka_live := ka_live)).
Notation balanced := (balanced (ka_live := ka_live)).

(** The shared core of the two mmap entry points. *)
Lemma map_at_gap h p hint length mk s :
  vma_inv p → small_table p → user_areas p → owns h p →
  is_u32 hint → is_u32 length → is_u32 (vma_brk p) →
  vma_find_topdown_gap p hint length = Some s →
  (∀ a b, start (mk a b) = a ∧ end_ (mk a b) = b) →
  (∀ a b, 0 <= a <= b → b < 2 ^ 32 → valid_area (mk a b)) →
  let area := mk s (s + vm_page_align_up length) in
  ∃ stack, vma_find_kind_const p VMA_KIND_STACK = Some stack ∧
    s mod PAGE_SIZE = 0 ∧ length <= vm_page_align_up length ∧
    gap_low p <= s ∧ s + vm_page_align_up length <= gap_high stack ∧
    s +u vm_page_align_up length = s + vm_page_align_up length ∧
    let '(rc, h', p') := vma_insert_area h p area in
    vma_inv p' ∧ owns h' p' ∧ balanced h p h' p' ∧
    (rc = 0 ∧ gains p p' area ∨ rc = -1 ∧ live p' = live p).
Proof.
  intros Hi Hc Hu Ho Hh Hl Hb Hgap Hmk Hval area.
  destruct (gap_spec p hint length s Hi Hh Hl Hb Hu Hgap) as
    (stack & Est & Hpos & Hle & Hlow & Hhigh & Hal & Htop).
  assert (0x40000000 <= gap_low p) by (unfold gap_low, VM_MMAP_MIN; lia).
  unfold VM_TASK_SIZE in *. exists stack. do 5 (split; [done|]).
  split; [apply u32_small; zsolve|].
  pose proof (insert_spec h p area Hi Hc Ho (Hval s (s + vm_page_align_up length) ltac:(lia) ltac:(lia))) as Hins.
  destruct (vma_insert_area h p area) as [[rc h'] p'].
  destruct Hins as (? & ? & ? & _ & [(-> & ? & ?)|(-> & ? & _)]).
  - do 3 (split; [done|]). left. done.
  - do 3 (split; [done|]). right. done.
Qed.

(** [vma_add] (and the insertion it is built on) keeps the table sorted,
    disjoint and well formed, leaks no memory, and on success the address map
    gains exactly the new range, which was unmapped before; a refusal leaves
    every address as it was and happens only when the range overlaps an area
    or the table cannot grow. *)
Theorem vma_add_correct h p s e fl k :
  vma_inv p → small_table p → owns h p → is_u32 fl → 0 <= s <= e → e < 2 ^ 32 →
  let area := mk_vma s e fl k 0 0 (mk_ref 0 0) in
  let '(rc, h', p') := vma_add h p s e fl k in
  vma_inv p' ∧ owns h' p' ∧ balanced h p h' p' ∧ vma_brk p' = vma_brk p ∧
  (rc = 0 ∧ gains p p' area ∨
   rc = -1 ∧ live p' = live p ∧
     ((∃ v, v ∈ live p ∧ vma_overlaps v s e = true) ∨
      (vma_ensure_capacity h p (vma_count p + 1)).1.1 ≠ 0)).
Proof.
  intros Hi Hc Ho Hfl Hse He area. unfold vma_add. fold area.
  pose proof (insert_spec h p area Hi Hc Ho) as Hins. lapply Hins; [clear Hins; intros Hins|].
  - destruct (vma_insert_area h p area) as [[rc h'] p'].
    destruct Hins as (? & ? & ? & ? & [(-> & ? & ?)|(-> & ? & ?)]); do 4 (split; [done|]).
    + left. done.
    + right. done.
  - subst area. unfold valid_area; cbn. zsolve.
Qed.

(** C27: [vma_unmap_range] removes exactly the range from the address map,
    splitting and re-coalescing areas, preserves the table invariant and frees
    its scratch table; it refuses, changing nothing, only an empty range, a
    range that touches a non-generic area, or for lack of memory. *)
Theorem vma_unmap_range_correct h p s e :
  vma_inv p → small_table p → owns h p →
  let '(rc, h', p') := vma_unmap_range h p s e in
  vma_inv p' ∧ owns h' p' ∧ balanced h p h' p' ∧
  ((rc = 0 ∧ s < e ∧
    (∀ v, v ∈ live p → vma_overlaps v s e = true → kind v = VMA_KIND_GENERIC) ∧
    ∀ x, vma_at (live p') x = if (s <=? x) && (x <? e) then None else vma_at (live p) x) ∨
   (rc = -1 ∧ live p' = live p ∧
    (e <= s ∨ (∃ v, v ∈ live p ∧ vma_overlaps v s e = true ∧ kind v ≠ VMA_KIND_GENERIC) ∨
     no_memory h p (cut_count (unmap_pieces s e) (live p))))).
Proof. exact (unmap_spec h p s e). Qed.

(** [vma_protect_range] changes the protection bits of exactly the range,
    which must be fully mapped by generic areas, and nothing else about it (file
    offsets of split file mappings included); it refuses, changing nothing, only
    an empty range, a range with a hole, a special or an empty area, or for lack
    of memory. *)
Theorem vma_protect_range_correct h p s e fl :
  vma_inv p → small_table p → owns h p → is_u32 fl →
  let '(rc, h', p') := vma_protect_range h p s e fl in
  vma_inv p' ∧ owns h' p' ∧ balanced h p h' p' ∧
  ((rc = 0 ∧ s < e ∧
    (∀ x, s <= x < e → is_Some (vma_at (live p) x)) ∧
    (∀ v, v ∈ live p → vma_overlaps v s e = true → kind v = VMA_KIND_GENERIC) ∧
    ∀ x, vma_at (live p') x =
      if (s <=? x) && (x <? e) then protect_attr fl <$> vma_at (live p) x else vma_at (live p) x) ∨
   (rc = -1 ∧ live p' = live p ∧
    (e <= s ∨ protect_refused (live p) s e ∨
     no_memory h p (cut_count (protect_pieces s e fl) (live p))))).
Proof. exact (protect_spec h p s e fl). Qed.

(** An address returned by [vma_map_anonymous] is page aligned, the
    rounded-up range lies between the break (and 0x40000000) and the stack's
    guard gap, was unmapped before, and is mapped afterwards with the requested
    flags; a failure maps nothing. *)
Theorem vma_map_anonymous_correct h p hint length fl :
  vma_inv p → small_table p → user_areas p → owns h p →
  is_u32 hint → is_u32 length → is_u32 (vma_brk p) → is_u32 fl →
  let '(r, h', p') := vma_map_anonymous h p hint length fl in
  vma_inv p' ∧ owns h' p' ∧ balanced h p h' p' ∧
  match r with
  | None => live p' = live p
  | Some s => ∃ stack, vma_find_kind_const p VMA_KIND_STACK = Some stack ∧
      s mod PAGE_SIZE = 0 ∧ length <= vm_page_align_up length ∧
      gap_low p <= s ∧ s + vm_page_align_up length <= gap_high stack ∧
      gains p p' (mk_vma s (s + vm_page_align_up length) fl VMA_KIND_GENERIC 0 0 (mk_ref 0 0))
  end.
Proof.
  intros Hi Hc Hu Ho Hh Hl Hb Hfl. unfold vma_map_anonymous.
  destruct (vma_find_topdown_gap p hint length) as [s|] eqn:Eg; [|done].
  destruct (map_at_gap h p hint length (λ a b, mk_vma a b fl VMA_KIND_GENERIC 0 0 (mk_ref 0 0)) s)
    as (stack & ? & ? & ? & ? & ? & Es & Hins); try done.
  { intros a b ? ?. unfold valid_area; cbn. zsolve. }
  unfold vma_add. rewrite Es. destruct (vma_insert_area _ _ _) as [[rc h'] p'].
  destruct Hins as (? & ? & ? & [(-> & ?)|(-> & ?)]); cbn; do 3 (split; [done|]); [|done].
  by exists stack.
Qed.

(** the same for a private file mapping, whose area carries the file
    reference, offset and size. *)
Theorem vma_map_file_private_correct h p hint length fl ref off size :
  vma_inv p → small_table p → user_areas p → owns h p →
  is_u32 hint → is_u32 length → is_u32 (vma_brk p) → is_u32 fl → is_u32 off → is_u32 size →
  let '(r, h', p') := vma_map_file_private h p hint length fl ref off size in
  vma_inv p' ∧ owns h' p' ∧ balanced h p h' p' ∧
  match r with
  | None => live p' = live p
  | Some s => ∃ stack, vma_find_kind_const p VMA_KIND_STACK = Some stack ∧
      s mod PAGE_SIZE = 0 ∧ length <= vm_page_align_up length ∧
      gap_low p <= s ∧ s + vm_page_align_up length <= gap_high stack ∧
      gains p p' (mk_vma s (s + vm_page_align_up length) fl VMA_KIND_GENERIC off size ref)
  end.
Proof.
  intros Hi Hc Hu Ho Hh Hl Hb Hfl Hoff Hsz. unfold vma_map_file_private.
  destruct (vma_find_topdown_gap p hint length) as [s|] eqn:Eg; [|done].
  destruct (map_at_gap h p hint length (λ a b, mk_vma a b fl VMA_KIND_GENERIC off size ref) s)
    as (stack & ? & ? & ? & ? & ? & Es & Hins); try done.
  { intros a b ? ?. unfold valid_area; cbn. zsolve. }
  rewrite Es. destruct (vma_insert_area _ _ _) as [[rc h'] p'].
  destruct Hins as (? & ? & ? & [(-> & ?)|(-> & ?)]); cbn; do 3 (split; [done|]); [|done].
  by exists stack.
Qed.
End claims.

(** ** Concrete instances

    A process with an image, a heap, two generic areas and a stack, in a table
    allocated on the x86 kernel heap. *)

Definition demo_areas : list vm_area :=
  [mk_vma 0x08048000 0x0804A000 0x15 VMA_KIND_IMAGE 0 0 (mk_ref 0 0);
   mk_vma 0x0804A000 0x0804C000 0x1B VMA_KIND_HEAP 0 0 (mk_ref 0 0);
   mk_vma 0x40000000 0x40004000 0x1B VMA_KIND_GENERIC 0 0 (mk_ref 0 0);
   mk_vma 0x50000000 0x50003000 0x13 VMA_KIND_GENERIC 0x1000 0x8000 (mk_ref 1 42);
   mk_vma 0xBFFF0000 0xC0000000 0x3B VMA_KIND_STACK 0 0 (mk_ref 0 0)].

Definition demo_table_heap : kheap := (kmalloc demo_heap (SIZEOF_VMA * 32)).2.

Definition demo_proc : process :=
  mk_proc (Some (mk_as (demo_areas ++ replicate 27 vma_zero) 0x52010 5 32 0x0804C000 0))
    [] 0 0 0.

Lemma demo_proc_inv : vma_inv demo_proc.
Proof.
  split.
  - done.
  - cbn; lia.
  - cbn; lia.
  - change (live demo_proc) with demo_areas. forall_list; unfold valid_area; cbn; zsolve.
  - change (live demo_proc) with demo_areas. unfold demo_areas.
    repeat (constructor; [|forall_list; unfold before; cbn; lia]). constructor.
  - done.
Qed.

Lemma demo_proc_small : small_table demo_proc.
Proof. unfold small_table; cbn; lia. Qed.

Lemma demo_proc_user : user_areas demo_proc.
Proof.
  unfold user_areas. change (live demo_proc) with demo_areas. unfold demo_areas, VM_TASK_SIZE.
  forall_list; cbn; split; lia || done.
Qed.

Lemma demo_proc_owns : owns (ka_inv := heap_inv) (ka_live := heap_live) demo_table_heap demo_proc.
Proof.
  split.
  - destruct (kmalloc_repr _ _ _ _ (SIZEOF_VMA * 32) demo_heap_repr) as [_ Hr]; [unfold SIZEOF_VMA; zsolve|].
    by eapply heap_repr_inv.
  - unfold own. cbn [as_ demo_proc as_vmas_ptr]. apply singleton_subseteq_l.
    apply (bool_decide_unpack _). by vm_compute.
Qed.

#[local] Notation kh_laws := kheap_allocator_laws.

Lemma vma_add_correct_witness :
  (vma_add demo_table_heap demo_proc 0x40004000 0x40005000 0x1B 0).1.1 = 0 ∧
  vma_inv (vma_add demo_table_heap demo_proc 0x40004000 0x40005000 0x1B 0).2.
Proof.
  split; [by vm_compute|].
  pose proof (vma_add_correct (KL := kh_laws) demo_table_heap demo_proc 0x40004000 0x40005000 0x1B 0
    demo_proc_inv demo_proc_small demo_proc_owns ltac:(zsolve) ltac:(lia) ltac:(lia)) as Hw.
  cbv zeta in Hw. destruct (vma_add _ _ _ _ _ _) as [[rc h'] p']. exact (proj1 Hw).
Defined.

Lemma vma_unmap_range_correct_witness :
  (vma_unmap_range demo_table_heap demo_proc 0x40001000 0x50001000).1.1 = 0 ∧
  vma_inv (vma_unmap_range demo_table_heap demo_proc 0x40001000 0x50001000).2.
Proof.
  split; [by vm_compute|].
  pose proof (vma_unmap_range_correct (KL := kh_laws) demo_table_heap demo_proc 0x40001000 0x50001000
    demo_proc_inv demo_proc_small demo_proc_owns) as Hw.
  destruct (vma_unmap_range _ _ _ _) as [[rc h'] p']. exact (proj1 Hw).
Defined.

Lemma vma_protect_range_correct_witness :
  (vma_protect_range demo_table_heap demo_proc 0x50001000 0x50002000 1).1.1 = 0 ∧
  vma_inv (vma_protect_range demo_table_heap demo_proc 0x50001000 0x50002000 1).2.
Proof.
  split; [by vm_compute|].
  pose proof (vma_protect_range_correct (KL := kh_laws) demo_table_heap demo_proc 0x50001000 0x50002000 1
    demo_proc_inv demo_proc_small demo_proc_owns ltac:(zsolve)) as Hw.
  destruct (vma_protect_range _ _ _ _ _) as [[rc h'] p']. exact (proj1 Hw).
Defined.

Lemma vma_map_anonymous_correct_witness :
  (vma_map_anonymous demo_table_heap demo_proc 0 5000 0x1B).1.1 = Some 0xBFEEE000 ∧
  vma_inv (vma_map_anonymous demo_table_heap demo_proc 0 5000 0x1B).2.
Proof.
  split; [by vm_compute|].
  pose proof (vma_map_anonymous_correct (KL := kh_laws) demo_table_heap demo_proc 0 5000 0x1B
    demo_proc_inv demo_proc_small demo_proc_user demo_proc_owns
    ltac:(zsolve) ltac:(zsolve) ltac:(cbn; zsolve) ltac:(zsolve)) as Hw.
  destruct (vma_map_anonymous _ _ _ _ _) as [[rc h'] p']. exact (proj1 Hw).
Defined.

Lemma vma_map_file_private_correct_witness :
  (vma_map_file_private demo_table_heap demo_proc 0x60000000 5000 0x13 (mk_ref 1 7) 0x2000 0x9000).1.1
    = Some 0x60000000 ∧
  vma_inv (vma_map_file_private demo_table_heap demo_proc 0x60000000 5000 0x13 (mk_ref 1 7) 0x2000 0x9000).2.
Proof.
  split; [by vm_compute|].
  pose proof (vma_map_file_private_correct (KL := kh_laws) demo_table_heap demo_proc 0x60000000 5000 0x13
    (mk_ref 1 7) 0x2000 0x9000 demo_proc_inv demo_proc_small demo_proc_user demo_proc_owns
    ltac:(zsolve) ltac:(zsolve) ltac:(cbn; zsolve) ltac:(zsolve) ltac:(zsolve) ltac:(zsolve)) as Hw.
  destruct (vma_map_file_private _ _ _ _ _ _ _ _) as [[rc h'] p']. exact (proj1 Hw).
Defined.
