(* ===== verification/Memory.v ===== *)
(** * Byte-addressed memory

    The memory the string routines and the slab allocator work on: bytes by
    address, little-endian 32-bit words.  Two memories are equivalent when every
    byte reads the same. *)

From S2P Require Import Prelude.

Notation mem := (gmap Z Z).

Definition mem_get (m : mem) (a : Z) : Z := u8 (default 0 (m !! a)).
Definition mem_set (m : mem) (a v : Z) : mem := <[a := u8 v]> m.

Definition load32 (m : mem) (a : Z) : Z :=
  mem_get m a + 2 ^ 8 * mem_get m (a + 1) + 2 ^ 16 * mem_get m (a + 2) + 2 ^ 24 * mem_get m (a + 3).

Definition store32 (m : mem) (a v : Z) : mem :=
  mem_set (mem_set (mem_set (mem_set m a v) (a + 1) (Z.shiftr v 8)) (a + 2) (Z.shiftr v 16))
    (a + 3) (Z.shiftr v 24).

Definition mem_equiv (m1 m2 : mem) : Prop := ∀ a, mem_get m1 a = mem_get m2 a.
#[global] Instance mem_equiv_equivalence : Equivalence mem_equiv.
Proof. split; unfold mem_equiv; repeat intro; congruence. Qed.

#[global] Instance mem_get_proper : Proper (mem_equiv ==> eq ==> eq) mem_get.
Proof. intros m1 m2 Hm a ? <-. apply Hm. Qed.

Lemma mem_get_u8 m a : is_u8 (mem_get m a).
Proof. apply u8_range. Qed.

Lemma mem_get_set m a v x : mem_get (mem_set m a v) x = if x =? a then u8 v else mem_get m x.
Proof.
  unfold mem_get, mem_set. destruct (Z.eqb_spec x a) as [->|].
  - rewrite lookup_insert_eq. simpl. apply u8_small, u8_range.
  - by rewrite lookup_insert_ne by done.
Qed.

#[global] Instance mem_set_proper : Proper (mem_equiv ==> eq ==> eq ==> mem_equiv) mem_set.
Proof. intros m1 m2 Hm a ? <- v ? <- x. by rewrite !mem_get_set, Hm. Qed.

#[global] Instance load32_proper : Proper (mem_equiv ==> eq ==> eq) load32.
Proof. intros m1 m2 Hm a ? <-. unfold load32. by rewrite !Hm. Qed.

#[global] Instance store32_proper : Proper (mem_equiv ==> eq ==> eq ==> mem_equiv) store32.
Proof. intros m1 m2 Hm a ? <- v ? <-. unfold store32. by rewrite Hm. Qed.

Lemma load32_u32 m a : is_u32 (load32 m a).
Proof.
  unfold load32. pose proof (mem_get_u8 m a). pose proof (mem_get_u8 m (a + 1)).
  pose proof (mem_get_u8 m (a + 2)). pose proof (mem_get_u8 m (a + 3)). zsolve.
Qed.

(** Byte [k] of a word. *)
Definition byte_of (v k : Z) : Z := v / 2 ^ (8 * k) mod 2 ^ 8.

Lemma mem_get_store32 m a v x :
  mem_get (store32 m a v) x =
    if (a <=? x) && (x <? a + 4) then byte_of v (x - a) else mem_get m x.
Proof.
  unfold store32. rewrite !mem_get_set, !Z.shiftr_div_pow2 by lia. unfold byte_of, u8.
  destruct (Z.eqb_spec x (a + 3)) as [->|]; [|destruct (Z.eqb_spec x (a + 2)) as [->|];
    [|destruct (Z.eqb_spec x (a + 1)) as [->|]; [|destruct (Z.eqb_spec x a) as [->|]]]].
  1-4: destruct (Z.leb_spec a (a + 3)), (Z.leb_spec a (a + 2)), (Z.leb_spec a (a + 1)), (Z.leb_spec a a);
    try lia; repeat match goal with |- context [?p <? ?q] => destruct (Z.ltb_spec p q); try lia end; cbn [andb].
  - by replace (8 * (a + 3 - a)) with 24 by lia.
  - by replace (8 * (a + 2 - a)) with 16 by lia.
  - by replace (8 * (a + 1 - a)) with 8 by lia.
  - replace (8 * (a - a)) with 0 by lia. by rewrite Z.div_1_r.
  - bcase; simpl; try done; lia.
Qed.

Lemma byte_of_load32 m a k :
  0 <= k < 4 → byte_of (load32 m a) k = mem_get m (a + k).
Proof.
  intros Hk. unfold byte_of, load32.
  pose proof (mem_get_u8 m a). pose proof (mem_get_u8 m (a + 1)).
  pose proof (mem_get_u8 m (a + 2)). pose proof (mem_get_u8 m (a + 3)).
  unfold is_u8 in *. change (2 ^ 8) with 256 in *. change (2 ^ 16) with 65536. change (2 ^ 24) with 16777216.
  assert (k = 0 ∨ k = 1 ∨ k = 2 ∨ k = 3) as [->|[->|[->| ->]]] by lia; rewrite ?Z.add_0_r;
    change (2 ^ (8 * 0)) with 1; change (2 ^ (8 * 1)) with 256; change (2 ^ (8 * 2)) with 65536;
    change (2 ^ (8 * 3)) with 16777216; Z.div_mod_to_equations; lia.
Qed.

Lemma load32_store32_eq m a v : is_u32 v → load32 (store32 m a v) a = v.
Proof.
  intros Hv. unfold load32. rewrite !mem_get_store32.
  repeat match goal with |- context [?p <=? ?q] => destruct (Z.leb_spec p q); try lia end.
  repeat match goal with |- context [?p <? ?q] => destruct (Z.ltb_spec p q); try lia end.
  cbn [andb]. unfold byte_of.
  replace (8 * (a - a)) with 0 by lia. replace (8 * (a + 1 - a)) with 8 by lia.
  replace (8 * (a + 2 - a)) with 16 by lia. replace (8 * (a + 3 - a)) with 24 by lia.
  change (2 ^ 0) with 1. change (2 ^ 24) with 16777216. zsolve.
Qed.

Lemma load32_store32_ne m a b v : b + 4 <= a ∨ a + 4 <= b → load32 (store32 m a v) b = load32 m b.
Proof.
  intros Hab. unfold load32. rewrite !mem_get_store32.
  repeat match goal with |- context [?p <=? ?q] => destruct (Z.leb_spec p q) end;
  repeat match goal with |- context [?p <? ?q] => destruct (Z.ltb_spec p q) end;
  cbn [andb]; first [done | lia].
Qed.

(** [m'] is [m] with the [n] bytes at [d] replaced by the bytes [f] gives. *)
Definition mem_region (m m' : mem) (d n : Z) (f : Z → Z) : Prop :=
  ∀ x, mem_get m' x = if (d <=? x) && (x <? d + n) then f (x - d) else mem_get m x.
