(* ===== verification/Kstring.v ===== *)
(** * Kernel string and memory routines (kernel/lib/kstring.c)

    The word-at-a-time loops of [k_memcpy], [k_memmove] and [k_memset], and the
    C-string routines, over byte memory.  A pointer is its address; [n--] loops
    run on their counter, the loops that only stop at a NUL byte on explicit
    fuel ([None] when it runs out), and every theorem about the latter gives the
    fuel that is enough: one step more than the string has bytes. *)

From S2P Require Import Prelude Memory.

(** ** Memory blocks *)

(** [while (n >= 4) { *(uint32_t * )d = *(uint32_t * )s; d += 4; s += 4; n -= 4; }] *)
Fixpoint copy_words (fuel : nat) (m : mem) (d s n : Z) : mem * Z * Z * Z :=
  match fuel with
  | O => (m, d, s, n)
  | S fuel =>
      if 4 <=? n then copy_words fuel (store32 m d (load32 m s)) (d + 4) (s + 4) (n - 4)
      else (m, d, s, n)
  end.

(** [while (n--) *d++ = *s++;] *)
Fixpoint copy_bytes (n : nat) (m : mem) (d s : Z) : mem :=
  match n with
  | O => m
  | S n => copy_bytes n (mem_set m d (mem_get m s)) (d + 1) (s + 1)
  end.

Definition word_aligned (d s : Z) : bool := (d |u s) &u 3 =? 0.

Definition k_memcpy (m : mem) (d s n : Z) : mem :=
  let '(m, d, s, n) :=
    if word_aligned d s then copy_words (Z.to_nat n) m d s n else (m, d, s, n) in
  copy_bytes (Z.to_nat n) m d s.

(** [while (count--) *p++ = value;] on words *)
Fixpoint set_words (count : nat) (m : mem) (p value : Z) : mem :=
  match count with
  | O => m
  | S count => set_words count (store32 m p value) (p + 4) value
  end.
Definition k_memset32 (m : mem) (p value count : Z) : mem := set_words (Z.to_nat count) m p value.

(** [while (n > 0 && (p & 3) != 0) { *p++ = byte; n--; }] *)
Fixpoint set_until_aligned (fuel : nat) (m : mem) (p byte n : Z) : mem * Z * Z :=
  match fuel with
  | O => (m, p, n)
  | S fuel =>
      if (0 <? n) && negb (p &u 3 =? 0)
      then set_until_aligned fuel (mem_set m p byte) (p + 1) byte (n - 1)
      else (m, p, n)
  end.

Fixpoint set_bytes (n : nat) (m : mem) (p byte : Z) : mem :=
  match n with
  | O => m
  | S n => set_bytes n (mem_set m p byte) (p + 1) byte
  end.

Definition memset_pattern (byte : Z) : Z :=
  let pattern := byte in
  let pattern := pattern |u u32 (Z.shiftl pattern 8) in
  pattern |u u32 (Z.shiftl pattern 16).

Definition k_memset (m : mem) (s c n : Z) : mem :=
  let byte := u8 c in
  let '(m, p, n) := set_until_aligned (Z.to_nat n) m s byte n in
  let pattern := memset_pattern byte in
  let '(m, p, n) :=
    if 4 <=? n then
      let words := n / 4 in
      (k_memset32 m p pattern words, p + words * 4, n - words * 4)
    else (m, p, n) in
  set_bytes (Z.to_nat n) m p (u8 c).

(** The backward loops of [k_memmove]. *)
Fixpoint copy_words_back (fuel : nat) (m : mem) (d s n : Z) : mem * Z * Z * Z :=
  match fuel with
  | O => (m, d, s, n)
  | S fuel =>
      if 4 <=? n then
        copy_words_back fuel (store32 m (d - 4) (load32 m (s - 4))) (d - 4) (s - 4) (n - 4)
      else (m, d, s, n)
  end.
Fixpoint copy_bytes_back (n : nat) (m : mem) (d s : Z) : mem :=
  match n with
  | O => m
  | S n => copy_bytes_back n (mem_set m (d - 1) (mem_get m (s - 1))) (d - 1) (s - 1)
  end.

Definition k_memmove (m : mem) (d s n : Z) : mem :=
  if (d <? s) || (s + n <=? d) then
    let '(m, d, s, n) :=
      if word_aligned d s then copy_words (Z.to_nat n) m d s n else (m, d, s, n) in
    copy_bytes (Z.to_nat n) m d s
  else
    let d := d + n in
    let s := s + n in
    let '(m, d, s, n) :=
      if word_aligned d s then copy_words_back (Z.to_nat n) m d s n else (m, d, s, n) in
    copy_bytes_back (Z.to_nat n) m d s.

Fixpoint memcmp_loop (n : nat) (m : mem) (a b : Z) : Z :=
  match n with
  | O => 0
  | S n => if negb (mem_get m a =? mem_get m b) then mem_get m a - mem_get m b
           else memcmp_loop n m (a + 1) (b + 1)
  end.
Definition k_memcmp (m : mem) (a b n : Z) : Z := memcmp_loop (Z.to_nat n) m a b.

(** ** Strings *)

Fixpoint strlen_loop (fuel : nat) (m : mem) (s n : Z) : option Z :=
  match fuel with
  | O => None
  | S fuel => if mem_get m s =? 0 then Some n else strlen_loop fuel m (s + 1) (n +u 1)
  end.
Definition k_strlen (fuel : nat) (m : mem) (s : Z) : option Z := strlen_loop fuel m s 0.

Fixpoint strnlen_loop (fuel : nat) (m : mem) (s n max : Z) : Z :=
  match fuel with
  | O => n
  | S fuel =>
      if (n <? max) && negb (mem_get m s =? 0) then strnlen_loop fuel m (s + 1) (n + 1) max else n
  end.
Definition k_strnlen (m : mem) (s max : Z) : Z := strnlen_loop (Z.to_nat max) m s 0 max.

(** [while (( *d++ = *src++)) ;] *)
Fixpoint strcpy_loop (fuel : nat) (m : mem) (d src : Z) : option mem :=
  match fuel with
  | O => None
  | S fuel =>
      let c := mem_get m src in
      let m := mem_set m d c in
      if c =? 0 then Some m else strcpy_loop fuel m (d + 1) (src + 1)
  end.
Definition k_strcpy (fuel : nat) (m : mem) (dst src : Z) : option mem := strcpy_loop fuel m dst src.

Fixpoint strncpy_loop (n : nat) (m : mem) (d src : Z) : mem :=
  match n with
  | O => m
  | S n =>
      let c := mem_get m src in
      strncpy_loop n (mem_set m d c) (d + 1) (if negb (c =? 0) then src + 1 else src)
  end.
Definition k_strncpy (m : mem) (dst src n : Z) : mem := strncpy_loop (Z.to_nat n) m dst src.

(** [while ( *d) d++;] *)
Fixpoint find_nul (fuel : nat) (m : mem) (d : Z) : option Z :=
  match fuel with
  | O => None
  | S fuel => if mem_get m d =? 0 then Some d else find_nul fuel m (d + 1)
  end.

Definition k_strcat (fuel : nat) (m : mem) (dst src : Z) : option mem :=
  match find_nul fuel m dst with
  | None => None
  | Some d => strcpy_loop fuel m d src
  end.

(** [while (n-- && ( *d = *src++)) d++;] *)
Fixpoint strncat_loop (n : nat) (m : mem) (d src : Z) : mem * Z :=
  match n with
  | O => (m, d)
  | S n =>
      let c := mem_get m src in
      let m := mem_set m d c in
      if c =? 0 then (m, d) else strncat_loop n m (d + 1) (src + 1)
  end.
Definition k_strncat (fuel : nat) (m : mem) (dst src n : Z) : option mem :=
  match find_nul fuel m dst with
  | None => None
  | Some d => let '(m, d) := strncat_loop (Z.to_nat n) m d src in Some (mem_set m d 0)
  end.

Fixpoint k_strcmp (fuel : nat) (m : mem) (a b : Z) : option Z :=
  match fuel with
  | O => None
  | S fuel =>
      if negb (mem_get m a =? 0) && (mem_get m a =? mem_get m b)
      then k_strcmp fuel m (a + 1) (b + 1)
      else Some (mem_get m a - mem_get m b)
  end.

Fixpoint strncmp_loop (n : nat) (m : mem) (a b : Z) : Z :=
  match n with
  | O => 0
  | S n =>
      if (mem_get m a =? 0) || negb (mem_get m a =? mem_get m b)
      then mem_get m a - mem_get m b
      else strncmp_loop n m (a + 1) (b + 1)
  end.
Definition k_strncmp (m : mem) (a b n : Z) : Z := strncmp_loop (Z.to_nat n) m a b.

(** [do { if ( *s == (char)c) return s; } while ( *s++); return 0;] *)
Fixpoint k_strchr (fuel : nat) (m : mem) (s c : Z) : option Z :=
  match fuel with
  | O => None
  | S fuel =>
      if mem_get m s =? u8 c then Some s
      else if mem_get m s =? 0 then Some 0 else k_strchr fuel m (s + 1) c
  end.

Fixpoint strrchr_loop (fuel : nat) (m : mem) (s c last : Z) : option Z :=
  match fuel with
  | O => None
  | S fuel =>
      let last := if mem_get m s =? u8 c then s else last in
      if mem_get m s =? 0 then Some last else strrchr_loop fuel m (s + 1) c last
  end.
Definition k_strrchr (fuel : nat) (m : mem) (s c : Z) : option Z := strrchr_loop fuel m s c 0.

(** [while ( *h && *n && *h == *n) { h++; n++; }], returning [n] *)
Fixpoint match_prefix (fuel : nat) (m : mem) (h n : Z) : option Z :=
  match fuel with
  | O => None
  | S fuel =>
      if negb (mem_get m h =? 0) && negb (mem_get m n =? 0) && (mem_get m h =? mem_get m n)
      then match_prefix fuel m (h + 1) (n + 1)
      else Some n
  end.

Fixpoint strstr_loop (fuel fuel2 : nat) (m : mem) (haystack needle : Z) : option Z :=
  match fuel with
  | O => None
  | S fuel =>
      if mem_get m haystack =? 0 then Some 0
      else
        match match_prefix fuel2 m haystack needle with
        | None => None
        | Some n => if mem_get m n =? 0 then Some haystack
                    else strstr_loop fuel fuel2 m (haystack + 1) needle
        end
  end.
Definition k_strstr (fuel : nat) (m : mem) (haystack needle : Z) : option Z :=
  if mem_get m needle =? 0 then Some haystack else strstr_loop fuel fuel m haystack needle.

(** ** Block copies *)

Lemma region_nil m d f : mem_region m m d 0 f.
Proof. intros x. bcase; simpl; try done; lia. Qed.

(** Two adjacent regions written one after the other. *)
Lemma region_app m m1 m2 d n1 n2 f1 f2 f :
  0 <= n1 → 0 <= n2 →
  mem_region m m1 d n1 f1 → mem_region m1 m2 (d + n1) n2 f2 →
  (∀ i, 0 <= i < n1 → f i = f1 i) → (∀ i, 0 <= i < n2 → f (n1 + i) = f2 i) →
  mem_region m m2 d (n1 + n2) f.
Proof.
  intros Hn1 Hn2 H1 H2 Hf1 Hf2 x. rewrite H2, H1.
  destruct (Z.leb_spec (d + n1) x), (Z.ltb_spec x (d + n1 + n2)), (Z.leb_spec d x),
    (Z.ltb_spec x (d + n1)), (Z.ltb_spec x (d + (n1 + n2))); simpl; try lia; try done.
  - rewrite <-Hf2 by lia. f_equal. lia.
  - rewrite <-Hf1 by lia. done.
Qed.

Lemma region_store32 m d s : mem_region m (store32 m d (load32 m s)) d 4 (λ i, mem_get m (s + i)).
Proof.
  intros x. rewrite mem_get_store32. destruct ((d <=? x) && (x <? d + 4)) eqn:E; [|done].
  bprop. by rewrite byte_of_load32 by lia.
Qed.

Lemma region_byte m d v : mem_region m (mem_set m d v) d 1 (λ _, u8 v).
Proof. intros x. rewrite mem_get_set. bcase; simpl; try done; lia. Qed.

Lemma region_ext m m' d n f g :
  (∀ i, 0 <= i < n → f i = g i) → mem_region m m' d n f → mem_region m m' d n g.
Proof.
  intros Hfg Hm x. rewrite Hm. destruct ((d <=? x) && (x <? d + n)) eqn:E; [|done].
  bprop. apply Hfg. lia.
Qed.

(** Reading outside the region that was just written. *)
Lemma region_outside m m' d n f x : mem_region m m' d n f → x < d ∨ d + n <= x → mem_get m' x = mem_get m x.
Proof. intros Hm Hx. rewrite Hm. bcase; simpl; try done; lia. Qed.

(** A forward copy does not read what it has written. *)
Definition fwd_ok (d s n : Z) : Prop := d <= s ∨ s + n <= d.

Lemma copy_bytes_region n m d s :
  fwd_ok d s (Z.of_nat n) →
  mem_region m (copy_bytes n m d s) d (Z.of_nat n) (λ i, mem_get m (s + i)).
Proof.
  revert m d s. induction n as [|n IH]; intros m d s Hok; [apply region_nil|]. simpl copy_bytes.
  replace (Z.of_nat (S n)) with (1 + Z.of_nat n) by lia.
  eapply region_app; [lia|lia|apply region_byte|apply IH|..]; unfold fwd_ok in *; [lia| |].
  - intros i Hi. rewrite (u8_small _ (mem_get_u8 m s)). f_equal. lia.
  - intros i Hi. rewrite (region_outside m _ d 1 _ _ (region_byte m d _)) by lia. f_equal. lia.
Qed.

Lemma copy_words_region fuel m d s n :
  0 <= n → fwd_ok d s n →
  let '(m', d', s', n') := copy_words fuel m d s n in
  0 <= n' <= n ∧ d' = d + (n - n') ∧ s' = s + (n - n') ∧
  mem_region m m' d (n - n') (λ i, mem_get m (s + i)).
Proof.
  revert m d s n. induction fuel as [|fuel IH]; intros m d s n Hn Hok; cbn [copy_words].
  { split; [lia|]. rewrite Z.sub_diag. split; [lia|]. split; [lia|]. apply region_nil. }
  destruct (Z.leb_spec 4 n).
  2:{ split; [lia|]. rewrite Z.sub_diag. split; [lia|]. split; [lia|]. apply region_nil. }
  specialize (IH (store32 m d (load32 m s)) (d + 4) (s + 4) (n - 4) ltac:(lia)).
  lapply IH; clear IH; [|unfold fwd_ok in *; lia]. intros IH.
  destruct (copy_words _ _ _ _ _) as [[[m' d'] s'] n']. destruct IH as (? & -> & -> & Hm).
  do 3 (split; [lia|]). replace (n - n') with (4 + (n - 4 - n')) by lia.
  eapply region_app; [lia|lia|apply region_store32|exact Hm|..]; cbn; [done|].
  intros i Hi. rewrite (region_outside m _ d 4 _ _ (region_store32 m d s)) by (unfold fwd_ok in *; lia).
  f_equal. lia.
Qed.

(** The forward half shared by [k_memcpy] and [k_memmove]. *)
Lemma forward_copy m d s n :
  0 <= n → fwd_ok d s n →
  mem_region m (k_memcpy m d s n) d n (λ i, mem_get m (s + i)).
Proof.
  intros Hn Hok. unfold k_memcpy. destruct (word_aligned d s).
  2:{ rewrite <-(Z2Nat.id n) at 2 by done. apply copy_bytes_region. by rewrite Z2Nat.id. }
  pose proof (copy_words_region (Z.to_nat n) m d s n Hn Hok) as Hw.
  destruct (copy_words _ _ _ _ _) as [[[m' d'] s'] n']. destruct Hw as (Hn' & -> & -> & Hm).
  pose proof (copy_bytes_region (Z.to_nat n') m' (d + (n - n')) (s + (n - n'))) as Hb.
  rewrite Z2Nat.id in Hb by lia. replace n with ((n - n') + n') at 3 by lia.
  eapply region_app; [lia|lia|exact Hm|apply Hb|..]; unfold fwd_ok in *; [lia|done|].
  intros i Hi. cbn. rewrite (region_outside _ _ _ _ _ _ Hm) by lia. f_equal. lia.
Qed.

Lemma copy_bytes_back_region n m d s :
  s <= d →
  mem_region m (copy_bytes_back n m d s) (d - Z.of_nat n) (Z.of_nat n)
    (λ i, mem_get m (s - Z.of_nat n + i)).
Proof.
  revert m d s. induction n as [|n IH]; intros m d s Hok; [rewrite Z.sub_0_r; apply region_nil|].
  simpl copy_bytes_back. replace (Z.of_nat (S n)) with (Z.of_nat n + 1) by lia.
  intros x. rewrite (IH (mem_set m (d - 1) (mem_get m (s - 1))) (d - 1) (s - 1) ltac:(lia) x), !mem_get_set.
  pose proof (mem_get_u8 m (s - 1)). rewrite u8_small by done.
  bcase; simpl; try lia; try done; f_equal; lia.
Qed.

Lemma copy_words_back_region fuel m d s n :
  0 <= n → s <= d →
  let '(m', d', s', n') := copy_words_back fuel m d s n in
  0 <= n' <= n ∧ d' = d - (n - n') ∧ s' = s - (n - n') ∧
  mem_region m m' d' (n - n') (λ i, mem_get m (s' + i)).
Proof.
  revert m d s n. induction fuel as [|fuel IH]; intros m d s n Hn Hok; cbn [copy_words_back].
  { split; [lia|]. rewrite Z.sub_diag. split; [lia|]. split; [lia|]. apply region_nil. }
  destruct (Z.leb_spec 4 n).
  2:{ split; [lia|]. rewrite Z.sub_diag. split; [lia|]. split; [lia|]. apply region_nil. }
  specialize (IH (store32 m (d - 4) (load32 m (s - 4))) (d - 4) (s - 4) (n - 4) ltac:(lia) ltac:(lia)).
  destruct (copy_words_back _ _ _ _ _) as [[[m' d'] s'] n']. destruct IH as (? & -> & -> & Hm).
  do 3 (split; [lia|]). intros x. rewrite Hm.
  set (lo := d - 4 - (n - 4 - n')) in *.
  destruct (Z.leb_spec lo x), (Z.ltb_spec x (lo + (n - 4 - n'))), (Z.ltb_spec x (lo + (n - n')));
    simpl; try lia; rewrite ?(region_store32 m (d - 4) (s - 4));
    bcase; simpl; try lia; try done; f_equal; lia.
Qed.

Lemma k_memmove_region m d s n :
  0 <= n → mem_region m (k_memmove m d s n) d n (λ i, mem_get m (s + i)).
Proof.
  intros Hn. unfold k_memmove. destruct ((d <? s) || (s + n <=? d)) eqn:E.
  - fold (k_memcpy m d s n). apply forward_copy; [done|]. unfold fwd_ok.
    apply orb_true_iff in E as [?|?]; bprop; lia.
  - bprop. destruct (word_aligned (d + n) (s + n)).
    + pose proof (copy_words_back_region (Z.to_nat n) m (d + n) (s + n) n Hn ltac:(lia)) as Hw.
      destruct (copy_words_back _ _ _ _ _) as [[[m' d'] s'] n']. destruct Hw as (? & -> & -> & Hm).
      intros x.
      rewrite (copy_bytes_back_region (Z.to_nat n') m' (d + n - (n - n')) (s + n - (n - n')) ltac:(lia) x).
      rewrite Z2Nat.id by lia. rewrite !Hm.
      bcase; simpl; try lia; try done; f_equal; lia.
    + intros x. rewrite (copy_bytes_back_region (Z.to_nat n) m (d + n) (s + n) ltac:(lia) x).
      rewrite Z2Nat.id by lia. replace (d + n - n) with d by lia.
      destruct ((d <=? x) && (x <? d + n)); [|done]. f_equal. lia.
Qed.

(** ** Filling *)

Lemma set_bytes_region n m p byte : mem_region m (set_bytes n m p byte) p (Z.of_nat n) (λ _, u8 byte).
Proof.
  revert m p. induction n as [|n IH]; intros m p; [apply region_nil|]. simpl set_bytes.
  replace (Z.of_nat (S n)) with (1 + Z.of_nat n) by lia.
  eapply region_app; [lia|lia|apply region_byte|apply IH|done|done].
Qed.

Lemma pattern_bytes byte k :
  is_u8 byte → 0 <= k < 4 → byte_of (memset_pattern byte) k = byte.
Proof.
  intros Hb Hk.
  assert (forallb (λ b, forallb (λ k, byte_of (memset_pattern (Z.of_nat b)) (Z.of_nat k) =? Z.of_nat b)
            (seq 0 4)) (seq 0 256) = true) as Hall by by vm_compute.
  rewrite forallb_forall in Hall. specialize (Hall (Z.to_nat byte)).
  rewrite in_seq, forallb_forall in Hall. specialize (Hall ltac:(zsolve) (Z.to_nat k)).
  rewrite in_seq in Hall. specialize (Hall ltac:(lia)).
  rewrite !Z2Nat.id in Hall by zsolve. by apply Z.eqb_eq.
Qed.

Lemma set_words_region count m p byte :
  is_u8 byte →
  mem_region m (set_words count m p (memset_pattern byte)) p (4 * Z.of_nat count) (λ _, byte).
Proof.
  intros Hb. revert m p. induction count as [|count IH]; intros m p; [apply region_nil|]. simpl set_words.
  replace (4 * Z.of_nat (S count)) with (4 + 4 * Z.of_nat count) by lia.
  eapply region_app; [lia|lia| |apply IH|done|done].
  intros x. rewrite mem_get_store32. destruct ((p <=? x) && (x <? p + 4)) eqn:E; [|done].
  bprop. by rewrite pattern_bytes by (done || lia).
Qed.

Lemma set_until_aligned_region fuel m p byte n :
  0 <= n →
  let '(m', p', n') := set_until_aligned fuel m p byte n in
  0 <= n' <= n ∧ p' = p + (n - n') ∧ mem_region m m' p (n - n') (λ _, u8 byte).
Proof.
  revert m p n. induction fuel as [|fuel IH]; intros m p n Hn; cbn [set_until_aligned].
  { split; [lia|]. rewrite Z.sub_diag. split; [lia|]. apply region_nil. }
  destruct (Z.ltb_spec 0 n); cbn [andb].
  2:{ split; [lia|]. rewrite Z.sub_diag. split; [lia|]. apply region_nil. }
  destruct (p &u 3 =? 0); cbn [negb].
  { split; [lia|]. rewrite Z.sub_diag. split; [lia|]. apply region_nil. }
  specialize (IH (mem_set m p byte) (p + 1) (n - 1) ltac:(lia)).
  destruct (set_until_aligned _ _ _ _ _) as [[m' p'] n']. destruct IH as (? & -> & Hm).
  do 2 (split; [lia|]). replace (n - n') with (1 + (n - 1 - n')) by lia.
  eapply region_app; [lia|lia|apply region_byte|exact Hm|done|done].
Qed.

Lemma k_memset_region m s c n : 0 <= n → mem_region m (k_memset m s c n) s n (λ _, u8 c).
Proof.
  intros Hn. unfold k_memset. pose proof (u8_range c) as Hc.
  pose proof (set_until_aligned_region (Z.to_nat n) m s (u8 c) n Hn) as Ha.
  destruct (set_until_aligned _ _ _ _ _) as [[m1 p1] n1]. destruct Ha as (Hn1 & -> & Hm1).
  rewrite (u8_small _ Hc) in Hm1.
  set (w := if 4 <=? n1 then n1 / 4 else 0).
  assert (0 <= 4 * w <= n1) as Hw by (subst w; bcase; zsolve).
  assert ((if 4 <=? n1 then
      (k_memset32 m1 (s + (n - n1)) (memset_pattern (u8 c)) (n1 / 4), s + (n - n1) + n1 / 4 * 4, n1 - n1 / 4 * 4)
    else (m1, s + (n - n1), n1)) =
    (k_memset32 m1 (s + (n - n1)) (memset_pattern (u8 c)) w, s + (n - n1) + 4 * w, n1 - 4 * w)) as ->.
  { subst w. bcase; [f_equal; [f_equal|]; lia|]. unfold k_memset32. simpl. f_equal; [f_equal|]; lia. }
  pose proof (set_words_region (Z.to_nat w) m1 (s + (n - n1)) (u8 c) Hc) as Hm2.
  rewrite Z2Nat.id in Hm2 by lia. fold (k_memset32 m1 (s + (n - n1)) (memset_pattern (u8 c)) w) in Hm2.
  pose proof (set_bytes_region (Z.to_nat (n1 - 4 * w))
    (k_memset32 m1 (s + (n - n1)) (memset_pattern (u8 c)) w) (s + (n - n1) + 4 * w) (u8 c)) as Hm3.
  rewrite Z2Nat.id, (u8_small _ Hc) in Hm3 by lia.
  revert Hm2 Hm3. generalize (set_bytes (Z.to_nat (n1 - 4 * w))
    (k_memset32 m1 (s + (n - n1)) (memset_pattern (u8 c)) w) (s + (n - n1) + 4 * w) (u8 c)) as m3.
  generalize (k_memset32 m1 (s + (n - n1)) (memset_pattern (u8 c)) w) as m2. intros m2 m3 Hm2 Hm3.
  replace n with ((n - n1) + (4 * w + (n1 - 4 * w))) by lia.
  eapply region_app; [lia|lia|exact Hm1| |done|done].
  eapply region_app; [lia|lia|exact Hm2|exact Hm3|done|done].
Qed.

(** ** Strings

    [cstr m a l]: the bytes [l], none of them NUL, then a NUL, start at [a]. *)
Fixpoint cstr (m : mem) (a : Z) (l : list Z) : Prop :=
  match l with
  | [] => mem_get m a = 0
  | c :: l => mem_get m a = c ∧ c ≠ 0 ∧ cstr m (a + 1) l
  end.

Notation len l := (Z.of_nat (length l)).

Lemma cstr_frame m m' a l :
  (∀ x, a <= x <= a + len l → mem_get m' x = mem_get m x) → cstr m a l → cstr m' a l.
Proof.
  revert a. induction l as [|c l IH]; intros a Hf; cbn [cstr].
  - by rewrite Hf by (simpl; lia).
  - intros (? & ? & ?). rewrite Hf by (simpl; lia). do 2 (split; [done|]).
    apply IH; [|done]. intros x Hx. apply Hf. simpl. lia.
Qed.

Lemma cstr_get m a l i c : cstr m a l → l !! i = Some c → mem_get m (a + Z.of_nat i) = c.
Proof.
  revert a i. induction l as [|c' l IH]; intros a i Hs Hi; [done|]. destruct Hs as (H1 & _ & H2).
  destruct i as [|i]; [simpl in Hi; rewrite Z.add_0_r; congruence|].
  rewrite <-(IH (a + 1) i H2 Hi). f_equal. lia.
Qed.

Lemma cstr_end m a l : cstr m a l → mem_get m (a + len l) = 0.
Proof.
  revert a. induction l as [|c l IH]; intros a Hs; cbn in Hs |- *; [by rewrite Z.add_0_r|].
  destruct Hs as (_ & _ & Hs). rewrite <-(IH _ Hs). f_equal. lia.
Qed.

Lemma strlen_loop_spec fuel m s l n :
  cstr m s l → (length l < fuel)%nat → 0 <= n → n + len l < 2 ^ 32 →
  strlen_loop fuel m s n = Some (n + len l).
Proof.
  revert s l n. induction fuel as [|fuel IH]; intros s l n Hs Hf Hn Hb; [lia|]. simpl.
  destruct l as [|c l]; simpl in *.
  - rewrite Hs. simpl. f_equal. lia.
  - destruct Hs as (-> & Hc & Hs). rewrite (proj2 (Z.eqb_neq _ _) Hc).
    rewrite u32_small by zsolve. rewrite (IH _ l) by (done || lia). f_equal. lia.
Qed.

Lemma k_strlen_spec fuel m s l :
  cstr m s l → (length l < fuel)%nat → len l < 2 ^ 32 → k_strlen fuel m s = Some (len l).
Proof. intros. unfold k_strlen. by rewrite (strlen_loop_spec _ _ _ l) by (done || lia). Qed.

Lemma strnlen_loop_spec fuel m s l n max :
  cstr m s l → n <= max → max - n <= Z.of_nat fuel → strnlen_loop fuel m s n max = Z.min max (n + len l).
Proof.
  revert s l n. induction fuel as [|fuel IH]; intros s l n Hs Hn Hf; simpl; [lia|].
  destruct (Z.ltb_spec n max); simpl; [|lia]. destruct l as [|c l]; simpl in *.
  - rewrite Hs. simpl. lia.
  - destruct Hs as (-> & Hc & Hs). rewrite (proj2 (Z.eqb_neq _ _) Hc). simpl.
    rewrite (IH _ l) by (done || lia). lia.
Qed.

Lemma k_strnlen_spec m s l max : cstr m s l → 0 <= max → k_strnlen m s max = Z.min max (len l).
Proof. intros. unfold k_strnlen. rewrite (strnlen_loop_spec _ _ _ l) by (done || lia). done. Qed.

(** *** Copies

    [lay l] gives the bytes of [l] by position, NUL past the end. *)
Definition lay (l : list Z) (i : Z) : Z := default 0 (l !! Z.to_nat i).

Lemma lay_S c l i : 0 <= i → lay (c :: l) (1 + i) = lay l i.
Proof. intros Hi. unfold lay. by replace (Z.to_nat (1 + i)) with (S (Z.to_nat i)) by lia. Qed.

Lemma cstr_lay m d m' l n :
  Forall (λ c, c ≠ 0) l → len l < n → mem_region m m' d n (lay l) → cstr m' d l.
Proof.
  intros Hl Hn Hm.
  assert (∀ i, 0 <= i <= len l → mem_get m' (d + i) = lay l i) as Hg.
  { intros i Hi. rewrite Hm. bcase; simpl; try lia. f_equal. lia. }
  clear Hm Hn. revert d Hg. induction Hl as [|c l Hc Hl IH]; intros d Hg; cbn [cstr].
  - specialize (Hg 0 ltac:(simpl; lia)). by rewrite Z.add_0_r in Hg.
  - split; [specialize (Hg 0 ltac:(simpl; lia)); by rewrite Z.add_0_r in Hg|]. split; [done|].
    apply IH. intros i Hi. rewrite <-(lay_S c) by lia. rewrite <-Hg by (simpl; lia). f_equal. lia.
Qed.

Lemma cstr_nonzero m a l : cstr m a l → Forall (λ c, c ≠ 0) l.
Proof.
  revert a. induction l as [|c l IH]; intros a; [by constructor|]. intros (_ & ? & ?).
  constructor; [done|by eapply IH].
Qed.

Lemma cstr_u8 m a l : cstr m a l → Forall is_u8 l.
Proof.
  revert a. induction l as [|c l IH]; intros a; [by constructor|]. intros (<- & ? & ?).
  constructor; [apply mem_get_u8|by eapply IH].
Qed.

Lemma strcpy_loop_spec fuel m d src l :
  cstr m src l → (length l < fuel)%nat → fwd_ok d src (len l + 1) →
  ∃ m', strcpy_loop fuel m d src = Some m' ∧ mem_region m m' d (len l + 1) (lay l).
Proof.
  revert m d src l. induction fuel as [|fuel IH]; intros m d src l Hs Hf Hok; [lia|].
  cbn [strcpy_loop]. destruct l as [|c l]; cbn [cstr length] in *.
  - rewrite Hs. simpl. eexists. split; [done|]. eapply region_ext, region_byte.
    intros i Hi. unfold lay. by destruct (Z.to_nat i).
  - destruct Hs as (Hc & Hc0 & Hs). rewrite Hc, (proj2 (Z.eqb_neq _ _) Hc0).
    pose proof (mem_get_u8 m src) as Hu. rewrite Hc in Hu.
    destruct (IH (mem_set m d c) (d + 1) (src + 1) l) as (m' & Hm' & Hr).
    { eapply cstr_frame; [|exact Hs]. intros x Hx.
      apply (region_outside _ _ _ _ _ _ (region_byte m d c)). unfold fwd_ok in Hok. lia. }
    { lia. }
    { unfold fwd_ok in *. lia. }
    exists m'. split; [done|]. replace (len (c :: l) + 1) with (1 + (len l + 1)) by (simpl; lia).
    replace (Z.of_nat (S (length l)) + 1) with (1 + (len l + 1)) by lia.
    eapply region_app; [lia|lia|apply region_byte|exact Hr|..].
    + intros i Hi. replace i with 0 by lia. unfold lay. simpl. by rewrite u8_small.
    + intros i Hi. apply lay_S; lia.
Qed.

Lemma strncpy_loop_spec n m d src l :
  cstr m src l → d + Z.of_nat n <= src ∨ src + len l < d →
  mem_region m (strncpy_loop n m d src) d (Z.of_nat n) (lay l).
Proof.
  revert m d src l. induction n as [|n IH]; intros m d src l Hs Hok; [apply region_nil|].
  cbn [strncpy_loop]. replace (Z.of_nat (S n)) with (1 + Z.of_nat n) by lia.
  assert (∀ c s' l', cstr m s' l' → (s' = src ∧ l' = l ∨ s' = src + 1 ∧ len l' + 1 = len l) → c = lay l 0 → is_u8 c →
    (∀ i, 0 <= i → lay l (1 + i) = lay l' i) →
    mem_region m (strncpy_loop n (mem_set m d c) (d + 1) s') d (1 + Z.of_nat n) (lay l)) as Hstep.
  { intros c s' l' Hs' Hsrc -> Hu Hlay. eapply region_app; [lia|lia|apply region_byte|apply (IH _ _ _ l')|..].
    - eapply cstr_frame; [|exact Hs']. intros x Hx.
      apply (region_outside _ _ _ _ _ _ (region_byte m d _)). destruct Hsrc as [[-> ->]|[-> ?]]; lia.
    - destruct Hsrc as [[-> ->]|[-> ?]]; lia.
    - intros i Hi. replace i with 0 by lia. by rewrite u8_small.
    - intros i Hi. apply Hlay. lia. }
  destruct l as [|c l]; cbn [cstr] in Hs.
  - rewrite Hs. simpl. apply (Hstep 0 src []); [done|by left|done|zsolve|]. intros i Hi. unfold lay. by rewrite !lookup_nil.
  - destruct Hs as (Hc & Hc0 & Hs). rewrite Hc, (proj2 (Z.eqb_neq _ _) Hc0). simpl.
    apply (Hstep c (src + 1) l); [done|right; simpl; lia|done| |].
    + rewrite <-Hc. apply mem_get_u8.
    + intros i Hi. by apply lay_S.
Qed.

(** [k_strncpy] writes exactly [n] bytes: the string, cut at [n], padded with NULs. *)
Lemma k_strncpy_spec m dst src l n :
  cstr m src l → 0 <= n → dst + n <= src ∨ src + len l < dst →
  mem_region m (k_strncpy m dst src n) dst n (lay l).
Proof.
  intros Hs Hn Hok. unfold k_strncpy. rewrite <-(Z2Nat.id n) at 2 by done.
  apply strncpy_loop_spec; [done|]. rewrite Z2Nat.id by done. done.
Qed.

Lemma find_nul_spec fuel m d l :
  cstr m d l → (length l < fuel)%nat → find_nul fuel m d = Some (d + len l).
Proof.
  revert d l. induction fuel as [|fuel IH]; intros d l Hs Hf; [lia|]. cbn [find_nul].
  destruct l as [|c l]; cbn [cstr length] in *; [rewrite Hs; simpl; f_equal; lia|].
  destruct Hs as (-> & Hc & Hs). rewrite (proj2 (Z.eqb_neq _ _) Hc), (IH _ l) by (done || lia).
  f_equal. lia.
Qed.

Lemma cstr_app m a l1 l2 :
  cstr m (a + len l1) l2 → (∀ i c, l1 !! i = Some c → mem_get m (a + Z.of_nat i) = c) →
  Forall (λ c, c ≠ 0) l1 → cstr m a (l1 ++ l2).
Proof.
  revert a. induction l1 as [|c l1 IH]; intros a H2 H1 Hl; [by rewrite Z.add_0_r in H2|].
  apply Forall_cons in Hl as [Hc Hl]. simpl. split; [|split; [done|]].
  - specialize (H1 0%nat c eq_refl). by rewrite Z.add_0_r in H1.
  - apply IH; [|intros i c' Hi|done].
    + replace (a + 1 + len l1) with (a + len (c :: l1)) by (simpl; lia). done.
    + rewrite <-(H1 (S i) c' Hi). f_equal. lia.
Qed.

(** [k_strcat] appends, when the source is clear of the destination and of the
    room behind it. *)
Lemma k_strcat_spec fuel m dst src l1 l2 :
  cstr m dst l1 → cstr m src l2 → (length l1 < fuel)%nat → (length l2 < fuel)%nat →
  src + len l2 < dst ∨ dst + len l1 + len l2 < src →
  ∃ m', k_strcat fuel m dst src = Some m' ∧ cstr m' dst (l1 ++ l2) ∧
    ∀ x, x < dst ∨ dst + len l1 + len l2 < x → mem_get m' x = mem_get m x.
Proof.
  intros H1 H2 Hf1 Hf2 Hdis. unfold k_strcat. rewrite (find_nul_spec _ _ _ l1) by done.
  destruct (strcpy_loop_spec fuel m (dst + len l1) src l2) as (m' & -> & Hr); try done.
  { unfold fwd_ok. lia. }
  exists m'. split; [done|]. split.
  - apply cstr_app; [by eapply (cstr_lay m _ _ _ (len l2 + 1)); [by eapply cstr_nonzero|lia|]| |by eapply cstr_nonzero].
    intros i c Hi. rewrite (region_outside _ _ _ _ _ _ Hr); [by eapply cstr_get|].
    apply lookup_lt_Some in Hi. lia.
  - intros x Hx. apply (region_outside _ _ _ _ _ _ Hr). lia.
Qed.

Lemma strncat_loop_spec n m d src l :
  cstr m src l → d <= src ∨ src + len l < d →
  let '(m', d') := strncat_loop n m d src in
  mem_region m (mem_set m' d' 0) d (len (take n l) + 1) (lay (take n l)).
Proof.
  revert m d src l. induction n as [|n IH]; intros m d src l Hs Hok; cbn [strncat_loop].
  { eapply region_ext, region_byte. intros i Hi. unfold lay. by destruct (Z.to_nat i). }
  destruct l as [|c l]; cbn [cstr] in Hs.
  - rewrite Hs. simpl. intros x. rewrite !mem_get_set.
    bcase; simpl; try lia; done.
  - destruct Hs as (Hc & Hc0 & Hs). rewrite Hc, (proj2 (Z.eqb_neq _ _) Hc0).
    pose proof (mem_get_u8 m src) as Hu. rewrite Hc in Hu. cbn [length] in Hok.
    specialize (IH (mem_set m d c) (d + 1) (src + 1) l).
    lapply IH; clear IH.
    2:{ eapply cstr_frame; [|exact Hs]. intros x Hx.
        apply (region_outside _ _ _ _ _ _ (region_byte m d c)). lia. }
    intros IH. specialize (IH ltac:(lia)).
    destruct (strncat_loop _ _ _ _) as [m' d']. simpl.
    replace (Z.of_nat (S (length (take n l))) + 1) with (1 + (len (take n l) + 1)) by lia.
    eapply region_app; [lia|lia|apply region_byte|exact IH|..].
    + intros i Hi. replace i with 0 by lia. unfold lay. simpl. by rewrite u8_small.
    + intros i Hi. apply lay_S. lia.
Qed.

Lemma k_strncat_spec fuel m dst src n l1 l2 :
  cstr m dst l1 → cstr m src l2 → (length l1 < fuel)%nat →
  src + len l2 < dst ∨ dst + len l1 < src →
  ∃ m', k_strncat fuel m dst src n = Some m' ∧ cstr m' dst (l1 ++ take (Z.to_nat n) l2).
Proof.
  intros H1 H2 Hf Hdis. unfold k_strncat. rewrite (find_nul_spec _ _ _ l1) by done.
  pose proof (strncat_loop_spec (Z.to_nat n) m (dst + len l1) src l2 H2 ltac:(lia)) as Hr.
  destruct (strncat_loop _ _ _ _) as [m' d']. eexists. split; [done|]. apply cstr_app.
  - eapply cstr_lay; [|..|exact Hr]; [|lia]. apply Forall_take. by eapply cstr_nonzero.
  - intros i c Hi. rewrite (region_outside _ _ _ _ _ _ Hr); [by eapply cstr_get|].
    apply lookup_lt_Some in Hi. lia.
  - by eapply cstr_nonzero.
Qed.

(** *** Comparison *)

(** The reference comparison of two byte strings. *)
Fixpoint lex (l1 l2 : list Z) : Z :=
  match l1, l2 with
  | [], [] => 0
  | [], b :: _ => - b
  | a :: _, [] => a
  | a :: l1, b :: l2 => if a =? b then lex l1 l2 else a - b
  end.

(** Strict lexicographic order. *)
Definition lex_lt (l1 l2 : list Z) : Prop :=
  ∃ p r2, (l1 = p ∧ ∃ b, l2 = p ++ b :: r2) ∨
          (∃ a b r1, l1 = p ++ a :: r1 ∧ l2 = p ++ b :: r2 ∧ a < b).

Definition byte_string (l : list Z) : Prop := Forall (λ c, 0 < c) l.

Lemma cstr_byte_string m a l : cstr m a l → byte_string l.
Proof.
  revert a. induction l as [|c l IH]; intros a; [by constructor|]. intros (Hc & ? & ?).
  pose proof (mem_get_u8 m a). constructor; [zsolve|by eapply IH].
Qed.

Lemma lex_zero l1 l2 : byte_string l1 → byte_string l2 → lex l1 l2 = 0 ↔ l1 = l2.
Proof.
  intros H1. revert l2. induction H1 as [|a l1 Ha H1 IH]; intros l2 H2; destruct H2 as [|b l2 Hb H2]; simpl.
  - done.
  - split; [lia|done].
  - split; [lia|done].
  - destruct (Z.eqb_spec a b) as [->|]; [rewrite IH by done|].
    + split; [by intros ->|by intros [= ->]].
    + split; [lia|intros [= ? ?]; lia].
Qed.

Lemma lex_lt_cons a l1 l2 : lex_lt l1 l2 → lex_lt (a :: l1) (a :: l2).
Proof.
  intros (p & r2 & [(-> & b & ->)|(x & y & r1 & -> & -> & Hxy)]).
  - exists (a :: p), r2. left. split; [done|]. by exists b.
  - exists (a :: p), r2. right. by exists x, y, r1.
Qed.

Lemma lex_neg l1 l2 : byte_string l1 → byte_string l2 → lex l1 l2 < 0 → lex_lt l1 l2.
Proof.
  intros H1. revert l2. induction H1 as [|a l1 Ha H1 IH]; intros l2 H2; destruct H2 as [|b l2 Hb H2]; simpl.
  - lia.
  - intros _. exists [], l2. left. split; [done|]. by exists b.
  - lia.
  - destruct (Z.eqb_spec a b) as [->|]; intros Hl.
    + by apply lex_lt_cons, IH.
    + exists [], l2. right. exists a, b, l1. split; [done|]. split; [done|lia].
Qed.

Lemma lex_antisym l1 l2 : lex l2 l1 = - lex l1 l2.
Proof.
  revert l2. induction l1 as [|a l1 IH]; intros [|b l2]; simpl; try lia.
  rewrite (Z.eqb_sym b a). destruct (Z.eqb_spec a b); [apply IH|lia].
Qed.

Lemma k_strcmp_spec fuel m a b l1 l2 :
  cstr m a l1 → cstr m b l2 → (length l1 < fuel)%nat → k_strcmp fuel m a b = Some (lex l1 l2).
Proof.
  revert a b l1 l2. induction fuel as [|fuel IH]; intros a b l1 l2 H1 H2 Hf; [lia|]. cbn [k_strcmp].
  destruct l1 as [|c1 l1], l2 as [|c2 l2]; cbn [cstr length lex] in *.
  - by rewrite H1, H2.
  - destruct H2 as (-> & ? & _). by rewrite H1.
  - destruct H1 as (-> & Hc & _). rewrite H2, (proj2 (Z.eqb_neq _ _) Hc). simpl. by rewrite Z.sub_0_r.
  - destruct H1 as (-> & Hc & H1), H2 as (-> & _ & H2). rewrite (proj2 (Z.eqb_neq _ _) Hc).
    destruct (Z.eqb_spec c1 c2); simpl; [|done]. apply IH; [done|done|lia].
Qed.

Lemma strncmp_loop_spec n m a b l1 l2 :
  cstr m a l1 → cstr m b l2 → strncmp_loop n m a b = lex (take n l1) (take n l2).
Proof.
  revert a b l1 l2. induction n as [|n IH]; intros a b l1 l2 H1 H2; [done|]. cbn [strncmp_loop].
  destruct l1 as [|c1 l1], l2 as [|c2 l2]; cbn [cstr take lex] in *.
  - by rewrite H1, H2.
  - destruct H2 as (-> & ? & _). by rewrite H1.
  - destruct H1 as (-> & Hc & _). rewrite H2, (proj2 (Z.eqb_neq _ _) Hc). simpl. by rewrite Z.sub_0_r.
  - destruct H1 as (-> & Hc & H1), H2 as (-> & _ & H2). rewrite (proj2 (Z.eqb_neq _ _) Hc).
    destruct (Z.eqb_spec c1 c2); simpl; [|done]. by apply IH.
Qed.

Lemma memcmp_loop_spec n m a b :
  memcmp_loop n m a b = 0 ↔ ∀ i, 0 <= i < Z.of_nat n → mem_get m (a + i) = mem_get m (b + i).
Proof.
  revert a b. induction n as [|n IH]; intros a b; cbn [memcmp_loop]; [split; [lia|done]|].
  destruct (Z.eqb_spec (mem_get m a) (mem_get m b)) as [E|E]; cbn [negb].
  - rewrite IH. split; intros Hall i Hi.
    + destruct (Z.eq_dec i 0) as [->|]; [by rewrite !Z.add_0_r|].
      specialize (Hall (i - 1) ltac:(lia)). replace (a + 1 + (i - 1)) with (a + i) in Hall by lia.
      by replace (b + 1 + (i - 1)) with (b + i) in Hall by lia.
    + specialize (Hall (i + 1) ltac:(lia)). replace (a + 1 + i) with (a + (i + 1)) by lia.
      by replace (b + 1 + i) with (b + (i + 1)) by lia.
  - split; [lia|]. intros Hall. specialize (Hall 0 ltac:(lia)). by rewrite !Z.add_0_r in Hall.
Qed.

(** *** Search *)

Lemma k_strchr_spec fuel m s c l :
  cstr m s l → (length l < fuel)%nat →
  k_strchr fuel m s c =
    Some match list_find (λ x, x = u8 c) (l ++ [0]) with
         | Some (i, _) => s + Z.of_nat i
         | None => 0
         end.
Proof.
  revert s l. induction fuel as [|fuel IH]; intros s l Hs Hf; [lia|]. cbn [k_strchr].
  destruct l as [|x l]; cbn [cstr app list_find length] in *.
  - rewrite Hs. destruct (Z.eqb_spec 0 (u8 c)) as [E|E]; [rewrite decide_True by done|rewrite decide_False by done];
      simpl; f_equal; lia.
  - destruct Hs as (-> & Hx & Hs). destruct (Z.eqb_spec x (u8 c)) as [E|E].
    + rewrite decide_True by done. simpl. f_equal. lia.
    + rewrite decide_False by done. rewrite (proj2 (Z.eqb_neq _ _) Hx), (IH _ l) by (done || lia).
      destruct (list_find _ _) as [[i y]|]; simpl; f_equal; lia.
Qed.

(** The position of the last occurrence, scanning forward. *)
Fixpoint last_pos (c : Z) (l : list Z) (s last : Z) : Z :=
  match l with
  | [] => last
  | x :: l => last_pos c l (s + 1) (if x =? c then s else last)
  end.

Lemma k_strrchr_loop_spec fuel m s c l last :
  cstr m s l → (length l < fuel)%nat →
  strrchr_loop fuel m s c last = Some (last_pos (u8 c) (l ++ [0]) s last).
Proof.
  revert s l last. induction fuel as [|fuel IH]; intros s l last Hs Hf; [lia|]. cbn [strrchr_loop].
  destruct l as [|x l]; cbn [cstr app last_pos length] in *; [by rewrite Hs|].
  destruct Hs as (-> & Hx & Hs). rewrite (proj2 (Z.eqb_neq _ _) Hx). apply IH; [done|lia].
Qed.

Lemma match_prefix_spec fuel m h n lh ln :
  cstr m h lh → cstr m n ln → (length lh < fuel)%nat →
  ∃ r, match_prefix fuel m h n = Some r ∧ (mem_get m r = 0 ↔ ln `prefix_of` lh).
Proof.
  revert h n lh ln. induction fuel as [|fuel IH]; intros h n lh ln Hh Hn Hf; [lia|]. cbn [match_prefix].
  destruct lh as [|a lh], ln as [|b ln]; cbn [cstr length] in *.
  - rewrite Hh. simpl. exists n. split; [done|]. split; [intros _; apply prefix_nil|done].
  - rewrite Hh. simpl. exists n. destruct Hn as (Hb & Hb0 & _). rewrite Hb. split; [done|].
    split; [done|]. intros Hp. by apply prefix_nil_not in Hp.
  - rewrite Hn. rewrite andb_false_r. simpl. exists n. split; [done|]. split; [intros _; apply prefix_nil|done].
  - destruct Hh as (Ha & Ha0 & Hh), Hn as (Hb & Hb0 & Hn). rewrite Ha, Hb.
    rewrite (proj2 (Z.eqb_neq _ _) Ha0), (proj2 (Z.eqb_neq _ _) Hb0). simpl.
    destruct (Z.eqb_spec a b) as [->|Hab].
    + destruct (IH (h + 1) (n + 1) lh ln Hh Hn ltac:(lia)) as (r & -> & Hr).
      exists r. split; [done|]. rewrite Hr. split; [apply prefix_cons|apply prefix_cons_inv_2].
    + exists n. split; [done|]. rewrite Hb. split; [done|]. intros Hp.
      apply prefix_cons_inv_1 in Hp. congruence.
Qed.

(** [ln] occurs in [lh] at position [i]. *)
Definition occurs_at (ln lh : list Z) (i : nat) : Prop := ln `prefix_of` drop i lh.

Lemma strstr_loop_spec fuel fuel2 m h n lh ln :
  cstr m h lh → cstr m n ln → ln ≠ [] → (length lh < fuel)%nat → (length lh < fuel2)%nat →
  ∃ r, strstr_loop fuel fuel2 m h n = Some r ∧
    ((∃ i, r = h + Z.of_nat i ∧ (i < length lh)%nat ∧ occurs_at ln lh i ∧
           ∀ j, (j < i)%nat → ¬ occurs_at ln lh j) ∨
     (r = 0 ∧ ∀ i, ¬ occurs_at ln lh i)).
Proof.
  revert h lh. induction fuel as [|fuel IH]; intros h lh Hh Hn Hne Hf Hf2; [lia|]. cbn [strstr_loop].
  destruct lh as [|a lh].
  { cbn in Hh. rewrite Hh. simpl. exists 0. split; [done|]. right. split; [done|].
    intros i Hi. unfold occurs_at in Hi. rewrite drop_nil in Hi. by apply prefix_nil_inv in Hi. }
  pose proof Hh as (Ha & Ha0 & Hh'). rewrite Ha, (proj2 (Z.eqb_neq _ _) Ha0).
  destruct (match_prefix_spec fuel2 m h n (a :: lh) ln Hh Hn Hf2) as (r & -> & Hr).
  destruct (Z.eqb_spec (mem_get m r) 0) as [E|E].
  - exists h. split; [done|]. left. exists 0%nat. split; [lia|]. split; [simpl; lia|].
    split; [by apply Hr|lia].
  - simpl in Hf, Hf2. destruct (IH (h + 1) lh Hh' Hn Hne ltac:(lia) ltac:(lia)) as (r' & -> & Hr').
    assert (¬ occurs_at ln (a :: lh) 0) as H0 by (intros Ho; by apply E, Hr).
    exists r'. split; [done|]. destruct Hr' as [(i & -> & Hi & Ho & Hmin)|[-> Hnone]].
    + left. exists (S i). split; [lia|]. split; [simpl; lia|]. split; [done|].
      intros [|j] Hj; [done|]. apply Hmin. lia.
    + right. split; [done|]. intros [|i]; [done|]. apply Hnone.
Qed.

(** ** Claims *)

(** [k_memmove] copies any [n] bytes between any two ranges, overlapping or
    not and whatever their alignment: afterwards the destination holds the bytes
    the source held before the call, and no other byte has changed. *)
Theorem k_memmove_correct m d s n :
  0 <= n → ∀ x, mem_get (k_memmove m d s n) x =
    if (d <=? x) && (x <? d + n) then mem_get m (s + (x - d)) else mem_get m x.
Proof. intros Hn x. exact (k_memmove_region m d s n Hn x). Qed.

Definition demo_mem : mem :=
  list_to_map (zip (seqZ 0x1000 12) [104; 101; 108; 108; 111; 32; 108; 111; 119; 101; 114; 0]).

Lemma k_memmove_correct_witness :
  mem_get (k_memmove demo_mem 0x1004 0x1000 8) 0x100B = 111.
Proof. rewrite (k_memmove_correct demo_mem 0x1004 0x1000 8); [reflexivity|lia]. Defined.

(** [k_memset] fills exactly [n] bytes with the low byte of [c], through its
    byte prologue, word loop and byte epilogue. *)
Theorem k_memset_correct m s c n :
  0 <= n → ∀ x, mem_get (k_memset m s c n) x =
    if (s <=? x) && (x <? s + n) then u8 c else mem_get m x.
Proof. intros Hn x. exact (k_memset_region m s c n Hn x). Qed.

Lemma k_memset_correct_witness : mem_get (k_memset demo_mem 0x1001 0x12A 9) 0x1009 = 0x2A.
Proof. rewrite (k_memset_correct demo_mem 0x1001 0x12A 9); [reflexivity|lia]. Defined.

(** [k_strncmp] on two C strings returns 0 exactly when their first [n]
    bytes agree, and otherwise a value whose sign is their lexicographic order as
    unsigned bytes. *)
Theorem k_strncmp_correct m a b n l1 l2 :
  cstr m a l1 → cstr m b l2 →
  let r := k_strncmp m a b n in
  let p1 := take (Z.to_nat n) l1 in
  let p2 := take (Z.to_nat n) l2 in
  (r = 0 ↔ p1 = p2) ∧ (r < 0 → lex_lt p1 p2) ∧ (0 < r → lex_lt p2 p1).
Proof.
  intros H1 H2 r p1 p2. subst r. unfold k_strncmp. rewrite (strncmp_loop_spec _ _ _ _ l1 l2) by done.
  assert (byte_string p1 ∧ byte_string p2) as [Hp1 Hp2].
  { split; apply Forall_take; by eapply cstr_byte_string. }
  split; [by apply lex_zero|]. split; intros Hr; apply lex_neg; try done.
  rewrite lex_antisym. subst p1 p2. lia.
Qed.

Lemma k_strncmp_correct_witness :
  (k_strncmp demo_mem 0x1003 0x1006 3 = 0 ↔ take 3 [108; 111; 32; 108; 111; 119; 101; 114] =
    take 3 [108; 111; 119; 101; 114]).
Proof.
  apply (k_strncmp_correct demo_mem 0x1003 0x1006 3 [108; 111; 32; 108; 111; 119; 101; 114]
    [108; 111; 119; 101; 114]); repeat (split; [reflexivity|]; split; [discriminate|]); reflexivity.
Defined.

(** [k_strstr] returns the first occurrence of the needle in the haystack, or
    the null pointer when there is none; [length haystack + 1] rounds are enough. *)
Theorem k_strstr_correct m h n lh ln fuel :
  cstr m h lh → cstr m n ln → (length lh < fuel)%nat →
  ∃ r, k_strstr fuel m h n = Some r ∧
    ((∃ i, r = h + Z.of_nat i ∧ occurs_at ln lh i ∧ ∀ j, (j < i)%nat → ¬ occurs_at ln lh j) ∨
     (r = 0 ∧ ∀ i, ¬ occurs_at ln lh i)).
Proof.
  intros Hh Hn Hf. unfold k_strstr. destruct (Z.eqb_spec (mem_get m n) 0) as [E|E].
  - assert (ln = []) as ->. { destruct ln as [|c ln]; [done|]. destruct Hn as (? & ? & _). congruence. }
    exists h. split; [done|]. left. exists 0%nat. split; [lia|]. split; [apply prefix_nil|lia].
  - assert (ln ≠ []) as Hne by (intros ->; done).
    destruct (strstr_loop_spec fuel fuel m h n lh ln Hh Hn Hne Hf Hf) as (r & -> & Hr).
    exists r. split; [done|]. destruct Hr as [(i & ? & _ & ?)|?]; [left; by exists i|by right].
Qed.

Lemma k_strstr_correct_witness :
  k_strstr 20 demo_mem 0x1000 0x1006 = Some 0x1006 ∧
  ∃ r, k_strstr 20 demo_mem 0x1000 0x1006 = Some r.
Proof.
  split; [by vm_compute|].
  destruct (k_strstr_correct demo_mem 0x1000 0x1006
    [104; 101; 108; 108; 111; 32; 108; 111; 119; 101; 114] [108; 111; 119; 101; 114] 20) as (r & Hr & _);
    [..|by exists r]; [| |simpl; lia]; repeat (split; [reflexivity|]; split; [discriminate|]); reflexivity.
Defined.
