(* ===== verification/Ksort.v ===== *)
(** * In-place heap sort (kernel/lib/ksort.c)

    [k_sort] over byte memory: elements are blocks of [size] bytes, exchanged
    byte by byte, compared by the caller's function.  The proof goes through the
    same algorithm on a list of elements ([sift], [heap_sort]), which the memory
    version refines. *)

From S2P Require Import Prelude Memory.

Definition block := list Z.

(** The [size] bytes at [a], as the comparison function sees them. *)
Definition read_block (m : mem) (a size : Z) : block :=
  (λ i, mem_get m (a + i)) <$> seqZ 0 size.

(** ** The code *)

Definition elem (base i size : Z) : Z := base + i *u size.

(** [while (size--) { tmp = *a; *a++ = *b; *b++ = tmp; }] *)
Fixpoint swap_loop (size : nat) (m : mem) (a b : Z) : mem :=
  match size with
  | O => m
  | S size =>
      let tmp := mem_get m a in
      let m := mem_set m a (mem_get m b) in
      let m := mem_set m b tmp in
      swap_loop size m (a + 1) (b + 1)
  end.
Definition swap (m : mem) (a b size : Z) : mem := swap_loop (Z.to_nat size) m a b.

Section sort.
(** The comparison function of the caller, on the contents of two elements. *)
Variable cmp : block → block → Z.

(** [cmp(elem(base, i, size), elem(base, j, size)) < 0] *)
Definition elem_lt (m : mem) (base size i j : Z) : bool :=
  cmp (read_block m (elem base i size) size) (read_block m (elem base j size) size) <? 0.

Fixpoint sift_down_loop (fuel : nat) (m : mem) (base root end_ size : Z) : mem :=
  match fuel with
  | O => m
  | S fuel =>
      let child := 2 *u root +u 1 in
      if end_ <? child then m
      else
        let child :=
          if ((child +u 1) <=? end_) && elem_lt m base size child (child +u 1)
          then child +u 1 else child in
        if elem_lt m base size root child then
          sift_down_loop fuel (swap m (elem base root size) (elem base child size) size)
            base child end_ size
        else m
  end.
(** [root] grows in every round, so [end_ + 1] rounds reach the exit. *)
Definition sift_down (m : mem) (base root end_ size : Z) : mem :=
  sift_down_loop (S (Z.to_nat end_)) m base root end_ size.

Definition k_sort (m : mem) (base n size : Z) : mem :=
  if n <? 2 then m
  else
    let first := (n - 2) / 2 + 1 in
    let m := for_loop 0 (Z.to_nat first)
               (λ k m, sift_down m base (first - 1 - k) (n - 1) size) m in
    for_loop 0 (Z.to_nat (n - 1))
      (λ k m,
         let end_ := n - 1 - k in
         sift_down (swap m (elem base 0 size) (elem base end_ size) size) base 0 (end_ - 1) size) m.
End sort.

(** ** The algorithm on lists *)

Definition list_swap {A} `{Inhabited A} (l : list A) (i j : Z) : list A :=
  l.[i <- l.[j]].[j <- l.[i]].

Section lists.
Context {A : Type} `{Inhabited A} (lt : A → A → bool).
Implicit Types l : list A.

Fixpoint sift (fuel : nat) l (root end_ : Z) : list A :=
  match fuel with
  | O => l
  | S fuel =>
      let child := 2 * root + 1 in
      if end_ <? child then l
      else
        let child := if ((child + 1) <=? end_) && lt l.[child] l.[child + 1] then child + 1 else child in
        if lt l.[root] l.[child] then sift fuel (list_swap l root child) child end_ else l
  end.

Definition heap_sort l : list A :=
  let n := Z.of_nat (length l) in
  if n <? 2 then l
  else
    let first := (n - 2) / 2 + 1 in
    let l := for_loop 0 (Z.to_nat first)
               (λ k l, sift (S (Z.to_nat (n - 1))) l (first - 1 - k) (n - 1)) l in
    for_loop 0 (Z.to_nat (n - 1))
      (λ k l, let end_ := n - 1 - k in
              sift (S (Z.to_nat (end_ - 1))) (list_swap l 0 end_) 0 (end_ - 1)) l.

Lemma length_list_swap l i j : length (list_swap l i j) = length l.
Proof. unfold list_swap. by rewrite !length_arr_set. Qed.

Lemma list_swap_get l i j k :
  0 <= i < Z.of_nat (length l) → 0 <= j < Z.of_nat (length l) → 0 <= k →
  (list_swap l i j).[k] = if k =? j then l.[i] else if k =? i then l.[j] else l.[k].
Proof.
  intros Hi Hj Hk. unfold list_swap. rewrite arr_get_set by (rewrite ?length_arr_set; lia).
  rewrite (Z.eqb_sym j k). destruct (Z.eqb_spec k j); [done|].
  rewrite arr_get_set by lia. by rewrite (Z.eqb_sym i k).
Qed.

Lemma list_swap_perm l i j :
  0 <= i < Z.of_nat (length l) → 0 <= j < Z.of_nat (length l) → list_swap l i j ≡ₚ l.
Proof.
  intros Hi Hj. unfold list_swap, arr_set.
  apply Permutation_insert_swap; by apply arr_lookup.
Qed.

(** ** Correctness on lists *)

(** [cmp] is a total preorder. *)
Definition le (x y : A) : Prop := lt y x = false.
Hypothesis le_total : ∀ x y, le x y ∨ le y x.
Hypothesis le_trans : ∀ x y z, le x y → le y z → le x z.

Lemma lt_le x y : lt x y = true → le x y.
Proof. intros Hlt. destruct (le_total x y) as [?|Hyx]; [done|]. unfold le in Hyx. congruence. Qed.
Lemma le_refl x : le x x.
Proof. by destruct (le_total x x). Qed.

Definition child (i c : Z) : Prop := c = 2 * i + 1 ∨ c = 2 * i + 2.

(** The heap property at every node from [lo] on. *)
Definition heap l (lo end_ : Z) : Prop :=
  ∀ i c, lo <= i → child i c → c <= end_ → le l.[c] l.[i].

(** The larger child of [root]. *)
Lemma pick_child l root end_ :
  0 <= root → 2 * root + 1 <= end_ →
  let c0 := 2 * root + 1 in
  let c := if ((c0 + 1) <=? end_) && lt l.[c0] l.[c0 + 1] then c0 + 1 else c0 in
  child root c ∧ c <= end_ ∧ ∀ d, child root d → d <= end_ → le l.[d] l.[c].
Proof.
  intros Hr He c0 c. subst c c0. unfold child.
  destruct (Z.leb_spec (2 * root + 1 + 1) end_) as [H2|H2]; cbn [andb].
  - destruct (lt _ _) eqn:E; (split; [lia|]; split; [lia|]); intros d [->| ->] Hd.
    + by apply lt_le.
    + replace (2 * root + 2) with (2 * root + 1 + 1) by lia. apply le_refl.
    + apply le_refl.
    + by replace (2 * root + 2) with (2 * root + 1 + 1) by lia.
  - split; [lia|]. split; [lia|]. intros d [->| ->] Hd; [apply le_refl|lia].
Qed.

(** [sift] changes only the prefix up to [end_], as a permutation of it. *)
Record prefix_perm (end_ : Z) l l' : Prop := {
  pp_length : length l' = length l;
  pp_perm : l' ≡ₚ l;
  pp_high : ∀ k, end_ < k → l'.[k] = l.[k];
  pp_all : ∀ P : A → Prop, (∀ i, 0 <= i <= end_ → P l.[i]) → ∀ i, 0 <= i <= end_ → P l'.[i];
}.

Lemma prefix_perm_refl end_ l : prefix_perm end_ l l.
Proof. by split. Qed.
Lemma prefix_perm_trans end_ l1 l2 l3 :
  prefix_perm end_ l1 l2 → prefix_perm end_ l2 l3 → prefix_perm end_ l1 l3.
Proof.
  intros [L1 P1 H1 A1] [L2 P2 H2 A2]. split; [congruence|by etrans|..].
  - intros k Hk. by rewrite H2, H1.
  - intros P HP. exact (A2 P (A1 P HP)).
Qed.
Lemma prefix_perm_swap end_ l i j :
  0 <= i <= end_ → 0 <= j <= end_ → end_ < Z.of_nat (length l) → prefix_perm end_ l (list_swap l i j).
Proof.
  intros Hi Hj Hl. split.
  - apply length_list_swap.
  - apply list_swap_perm; lia.
  - intros k Hk. rewrite list_swap_get by lia. bcase; try done; lia.
  - intros P HP k Hk. rewrite list_swap_get by lia. bcase; apply HP; lia.
Qed.

(** One round of [sift]: after exchanging [root] with its larger child the only
    place where the heap property can fail is the child. *)
Lemma swap_step l lo root c end_ :
  0 <= lo <= root → child root c → c <= end_ → end_ < Z.of_nat (length l) →
  le l.[root] l.[c] → (∀ d, child root d → d <= end_ → le l.[d] l.[c]) →
  (∀ i d, lo <= i → i ≠ root → child i d → d <= end_ → le l.[d] l.[i]) →
  (∀ p d, lo <= p → child p root → child root d → d <= end_ → le l.[d] l.[p]) →
  let l' := list_swap l root c in
  (∀ i d, lo <= i → i ≠ c → child i d → d <= end_ → le l'.[d] l'.[i]) ∧
  (∀ p d, lo <= p → child p c → child c d → d <= end_ → le l'.[d] l'.[p]).
Proof.
  intros Hlo Hc Hce Hl Hrc Hmax Hheap Hpar l'. subst l'. unfold child in *. split.
  - intros i d Hi Hic Hd Hde. rewrite !list_swap_get by lia.
    destruct (Z.eqb_spec i c); [lia|]. destruct (Z.eqb_spec i root) as [->|Hir].
    + destruct (Z.eqb_spec d c) as [->|]; [done|]. destruct (Z.eqb_spec d root); [lia|]. by apply Hmax.
    + destruct (Z.eqb_spec d c) as [->|]; [lia|]. destruct (Z.eqb_spec d root) as [->|].
      * by apply Hpar.
      * by apply Hheap.
  - intros p d Hp Hpc Hd Hde. assert (p = root) as -> by lia. rewrite !list_swap_get by lia.
    destruct (Z.eqb_spec root c); [lia|]. rewrite Z.eqb_refl.
    destruct (Z.eqb_spec d c); [lia|]. destruct (Z.eqb_spec d root); [lia|].
    apply Hheap; [lia|lia|done|done].
Qed.

Lemma sift_ok fuel l lo root end_ :
  0 <= lo <= root → end_ < Z.of_nat (length l) → end_ - root < Z.of_nat fuel →
  (∀ i d, lo <= i → i ≠ root → child i d → d <= end_ → le l.[d] l.[i]) →
  (∀ p d, lo <= p → child p root → child root d → d <= end_ → le l.[d] l.[p]) →
  prefix_perm end_ l (sift fuel l root end_) ∧ heap (sift fuel l root end_) lo end_.
Proof.
  revert l root. induction fuel as [|fuel IH]; intros l root Hlo Hl Hf Hheap Hpar; cbn [sift].
  { split; [apply prefix_perm_refl|]. intros i d Hi Hd Hde.
    destruct (Z.eq_dec i root) as [->|]; [unfold child in Hd; lia|by apply Hheap]. }
  destruct (Z.ltb_spec end_ (2 * root + 1)).
  { split; [apply prefix_perm_refl|]. intros i d Hi Hd Hde.
    destruct (Z.eq_dec i root) as [->|]; [unfold child in Hd; lia|by apply Hheap]. }
  destruct (pick_child l root end_ ltac:(lia) ltac:(lia)) as (Hc & Hce & Hmax).
  set (c := if _ && _ then _ else _) in *.
  destruct (lt l.[root] l.[c]) eqn:E.
  - destruct (swap_step l lo root c end_ Hlo Hc Hce Hl (lt_le _ _ E) Hmax Hheap Hpar) as [Hh Hp].
    assert (root < c) by (unfold child in Hc; lia).
    destruct (IH (list_swap l root c) c) as [Hpp Hhp]; try done; [lia|by rewrite length_list_swap|lia|].
    split; [|done]. eapply prefix_perm_trans; [|exact Hpp]. apply prefix_perm_swap; lia.
  - split; [apply prefix_perm_refl|]. intros i d Hi Hd Hde.
    destruct (Z.eq_dec i root) as [->|]; [|by apply Hheap].
    eapply le_trans; [by apply Hmax|exact E].
Qed.

Lemma heap_max l end_ : heap l 0 end_ → ∀ i, 0 <= i <= end_ → le l.[i] l.[0].
Proof.
  intros Hh. enough (∀ n i, 0 <= i <= Z.of_nat n → i <= end_ → le l.[i] l.[0]) as Hn.
  { intros i Hi. apply (Hn (Z.to_nat i)); lia. }
  induction n as [|n IH]; intros i Hi He.
  { replace i with 0 by lia. apply le_refl. }
  destruct (Z.eq_dec i 0) as [->|]; [apply le_refl|].
  assert (0 <= (i - 1) / 2 < i) by zsolve.
  eapply le_trans; [apply (Hh ((i - 1) / 2) i)|apply IH]; unfold child; try lia. zsolve.
Qed.

(** Phase 1 builds a heap. *)
Lemma build_ok l n first :
  n = Z.of_nat (length l) → 2 <= n → first = (n - 2) / 2 + 1 →
  let l' := for_loop 0 (Z.to_nat first) (λ k l, sift (S (Z.to_nat (n - 1))) l (first - 1 - k) (n - 1)) l in
  prefix_perm (n - 1) l l' ∧ heap l' 0 (n - 1).
Proof.
  intros Hn H2 Hf.
  pose proof (for_loop_inv (λ k l', prefix_perm (n - 1) l l' ∧ heap l' (first - k) (n - 1))
    (λ k l, sift (S (Z.to_nat (n - 1))) l (first - 1 - k) (n - 1)) 0 (Z.to_nat first) l) as Hinv.
  lapply Hinv; clear Hinv.
  - intros Hinv. lapply Hinv; clear Hinv.
    + rewrite Z2Nat.id by zsolve. intros [Hp Hh]. split; [done|].
      replace (first - (0 + first)) with 0 in Hh by lia. done.
    + split; [apply prefix_perm_refl|]. intros i c Hi Hc Hce. unfold child in Hc. zsolve.
  - intros k l1 Hk [Hp Hh]. rewrite Z2Nat.id in Hk by zsolve.
    destruct (sift_ok (S (Z.to_nat (n - 1))) l1 (first - (k + 1)) (first - 1 - k) (n - 1)) as [Hp' Hh'].
    + zsolve.
    + rewrite (pp_length _ _ _ Hp). lia.
    + lia.
    + intros i d Hi Hne Hd Hde. apply Hh; [lia|done|done].
    + intros p d Hpl Hpc. unfold child in Hpc. lia.
    + split; [by eapply prefix_perm_trans|done].
Qed.

Definition sorted_from l (k : Z) : Prop :=
  ∀ i j, k <= i → i <= j → j < Z.of_nat (length l) → le l.[i] l.[j].

(** Phase 2: a heap in front of a sorted tail of larger elements. *)
Record extract_inv l0 l (end_ : Z) : Prop := {
  ei_length : length l = length l0;
  ei_perm : l ≡ₚ l0;
  ei_heap : heap l 0 end_;
  ei_tail : sorted_from l (end_ + 1);
  ei_below : ∀ i j, 0 <= i <= end_ → end_ < j → j < Z.of_nat (length l) → le l.[i] l.[j];
}.

Lemma extract_step l0 l end_ :
  1 <= end_ → end_ < Z.of_nat (length l) → extract_inv l0 l end_ →
  extract_inv l0 (sift (S (Z.to_nat (end_ - 1))) (list_swap l 0 end_) 0 (end_ - 1)) (end_ - 1).
Proof.
  intros He Hl [Hlen Hperm Hheap Htail Hbelow].
  set (l1 := list_swap l 0 end_).
  assert (∀ k, 0 <= k → l1.[k] = if k =? end_ then l.[0] else if k =? 0 then l.[end_] else l.[k]) as Hg.
  { intros k Hk. apply list_swap_get; lia. }
  assert (length l1 = length l) as Hl1 by apply length_list_swap.
  destruct (sift_ok (S (Z.to_nat (end_ - 1))) l1 0 0 (end_ - 1)) as [[Sl Sp Sh Sa] Hh].
  { lia. } { rewrite Hl1. lia. } { lia. }
  { intros i d Hi Hne Hd Hde. unfold child in Hd. rewrite !Hg by lia. bcase; try lia. apply Hheap; unfold child; lia. }
  { intros p d Hp Hpc. unfold child in Hpc. lia. }
  pose proof (heap_max l end_ Hheap) as Hmax.
  set (l2 := sift _ l1 0 (end_ - 1)) in *.
  assert (∀ k, end_ <= k → l2.[k] = if k =? end_ then l.[0] else l.[k]) as Hg2.
  { intros k Hk. rewrite Sh, Hg by lia. bcase; try done; lia. }
  split; [congruence| |done|..].
  - etrans; [exact Sp|]. etrans; [|exact Hperm]. apply list_swap_perm; lia.
  - intros i j Hi Hij Hj. rewrite Sl, Hl1 in Hj. rewrite !Hg2 by lia. bcase; try lia.
    + apply le_refl.
    + apply Hbelow; lia.
    + apply Htail; lia.
  - intros i j Hi Hj Hjl. rewrite Sl, Hl1 in Hjl. revert i Hi. apply (Sa (λ x, le x l2.[j])).
    intros i Hi. rewrite Hg, Hg2 by lia. bcase; try lia; try (apply Hmax; lia); apply Hbelow; lia.
Qed.

Lemma heap_sort_ok l :
  length (heap_sort l) = length l ∧ heap_sort l ≡ₚ l ∧ sorted_from (heap_sort l) 0.
Proof.
  unfold heap_sort. set (n := Z.of_nat (length l)). destruct (Z.ltb_spec n 2).
  { split; [done|]. split; [done|]. intros i j Hi Hij Hj. replace j with i by lia. apply le_refl. }
  set (first := (n - 2) / 2 + 1).
  destruct (build_ok l n first eq_refl ltac:(lia) eq_refl) as [[L P _ _] Hh].
  set (l1 := for_loop 0 (Z.to_nat first) _ l) in *.
  pose proof (for_loop_inv (λ k l', extract_inv l l' (n - 1 - k))
    (λ k l, let end_ := n - 1 - k in
              sift (S (Z.to_nat (end_ - 1))) (list_swap l 0 end_) 0 (end_ - 1))
    0 (Z.to_nat (n - 1)) l1) as Hinv.
  lapply Hinv; clear Hinv.
  - intros Hinv. lapply Hinv; clear Hinv.
    + rewrite Z2Nat.id by lia. intros [El Ep _ Et Eb]. split; [done|]. split; [done|].
      intros i j Hi Hij Hj. destruct (Z.eq_dec i j) as [->|]; [apply le_refl|].
      destruct (Z.eq_dec i 0) as [->|]; [apply Eb; [lia|lia|done]|apply Et; [lia|lia|done]].
    + rewrite Z.sub_0_r. split; try done; intros i j; rewrite L; subst n; intros; lia.
  - intros k l2 Hk Hi. rewrite Z2Nat.id in Hk by lia. cbv zeta.
    replace (n - 1 - (k + 1)) with (n - 1 - k - 1) by lia. apply extract_step; [lia| |done].
    rewrite (ei_length _ _ _ Hi). lia.
Qed.
End lists.

(** ** The memory version refines the list version *)

Definition blocks (m : mem) (base size n : Z) : list block :=
  (λ i, read_block m (base + i * size) size) <$> seqZ 0 n.

Lemma length_blocks m base size n : 0 <= n → Z.of_nat (length (blocks m base size n)) = n.
Proof. intros. unfold blocks. rewrite length_fmap, length_seqZ. lia. Qed.

Lemma blocks_get m base size n k :
  0 <= k < n → (blocks m base size n).[k] = read_block m (base + k * size) size.
Proof.
  intros Hk. apply arr_get_lookup; [lia|]. unfold blocks. rewrite list_lookup_fmap, lookup_seqZ_lt by lia.
  simpl. by rewrite Z2Nat.id by lia.
Qed.

Lemma read_block_ext m m' a a' size :
  (∀ i, 0 <= i < size → mem_get m (a + i) = mem_get m' (a' + i)) →
  read_block m a size = read_block m' a' size.
Proof.
  intros He. unfold read_block. apply list_fmap_ext. intros k x Hx. apply lookup_seqZ in Hx as [-> Hk].
  apply He. lia.
Qed.

Lemma swap_loop_get size m a b x :
  a + Z.of_nat size <= b ∨ b + Z.of_nat size <= a →
  mem_get (swap_loop size m a b) x =
    if (a <=? x) && (x <? a + Z.of_nat size) then mem_get m (b + (x - a))
    else if (b <=? x) && (x <? b + Z.of_nat size) then mem_get m (a + (x - b)) else mem_get m x.
Proof.
  revert m a b. induction size as [|size IH]; intros m a b Hd; cbn [swap_loop].
  { by bcase_lia. }
  rewrite IH by lia. rewrite !mem_get_set, !(u8_small _ (mem_get_u8 _ _)).
  bcase_lia; try done; f_equal; lia.
Qed.

(** A memory that differs from [m] only inside the array. *)
Definition same_outside (base len : Z) (m m' : mem) : Prop :=
  ∀ x, x < base ∨ base + len <= x → mem_get m' x = mem_get m x.

Section refine.
Variables (cmp : block → block → Z) (base size n : Z).
Hypothesis (Hsize : 0 <= size) (Hn : 0 <= n <= 2 ^ 31) (Hbytes : n * size < 2 ^ 32).

Definition blt (x y : block) : bool := cmp x y <? 0.
Notation arr m := (blocks m base size n).

Lemma elem_eq i : 0 <= i < n → elem base i size = base + i * size.
Proof. intros Hi. unfold elem. rewrite u32_small; [done|]. unfold is_u32. nia. Qed.

Lemma elem_lt_blocks m i j :
  0 <= i < n → 0 <= j < n → elem_lt cmp m base size i j = blt (arr m).[i] (arr m).[j].
Proof. intros Hi Hj. unfold elem_lt, blt. by rewrite !elem_eq, !blocks_get by done. Qed.

Lemma elems_apart i k : 0 <= i → i < k → k < n → i * size + size <= k * size ∧ k * size + size <= n * size.
Proof. nia. Qed.

Lemma swap_blocks m i j :
  0 <= i < n → 0 <= j < n → i ≠ j →
  arr (swap m (elem base i size) (elem base j size) size) = list_swap (arr m) i j ∧
  same_outside base (n * size) m (swap m (elem base i size) (elem base j size) size).
Proof.
  intros Hi Hj Hij. rewrite !elem_eq by done. unfold swap.
  assert (∀ p q, 0 <= p < n → 0 <= q < n → p ≠ q →
    p * size + size <= q * size ∨ q * size + size <= p * size) as Hap.
  { intros p q ? ? ?. destruct (Z.lt_ge_cases p q); [left|right]; apply elems_apart; lia. }
  assert (∀ p, 0 <= p < n → 0 <= p * size ∧ p * size + size <= n * size) as Hin by (intros; nia).
  pose proof (Hap i j Hi Hj Hij) as Aij.
  pose proof (λ x, swap_loop_get (Z.to_nat size) m (base + i * size) (base + j * size) x
    ltac:(rewrite Z2Nat.id by done; lia)) as Hg.
  rewrite Z2Nat.id in Hg by done. split.
  - apply arr_ext.
    { rewrite length_list_swap. apply Nat2Z.inj. by rewrite !length_blocks by lia. }
    rewrite length_blocks by lia. intros k Hk.
    rewrite list_swap_get by (rewrite ?length_blocks; lia). rewrite !blocks_get by done.
    pose proof (Hap k i Hk Hi) as Aki. pose proof (Hap k j Hk Hj) as Akj.
    destruct (Z.eqb_spec k j) as [->|]; [|destruct (Z.eqb_spec k i) as [->|]]; apply read_block_ext;
      intros o Ho; rewrite Hg; bcase_lia; try done; f_equal; lia.
  - intros x Hx. rewrite Hg. pose proof (Hin i Hi). pose proof (Hin j Hj). by bcase_lia.
Qed.

Lemma same_outside_trans m1 m2 m3 :
  same_outside base (n * size) m1 m2 → same_outside base (n * size) m2 m3 →
  same_outside base (n * size) m1 m3.
Proof. intros H1 H2 x Hx. by rewrite H2, H1. Qed.

Lemma sift_blocks fuel m root end_ :
  0 <= root <= end_ → end_ < n →
  arr (sift_down_loop cmp fuel m base root end_ size) = sift blt fuel (arr m) root end_ ∧
  same_outside base (n * size) m (sift_down_loop cmp fuel m base root end_ size).
Proof.
  revert m root. induction fuel as [|fuel IH]; intros m root Hr He; cbn [sift_down_loop sift]; [done|].
  rewrite (u32_small (2 * root)) by zsolve. rewrite (u32_small (2 * root + 1)) by zsolve.
  destruct (Z.ltb_spec end_ (2 * root + 1)); [done|].
  rewrite (u32_small (2 * root + 1 + 1)) by zsolve.
  assert ((if ((2 * root + 1 + 1) <=? end_) && elem_lt cmp m base size (2 * root + 1) (2 * root + 1 + 1)
           then 2 * root + 1 + 1 else 2 * root + 1) =
          (if ((2 * root + 1 + 1) <=? end_) && blt (arr m).[2 * root + 1] (arr m).[2 * root + 1 + 1]
           then 2 * root + 1 + 1 else 2 * root + 1)) as ->.
  { destruct (Z.leb_spec (2 * root + 1 + 1) end_); [|reflexivity]. by rewrite elem_lt_blocks by lia. }
  set (c := if _ && _ then _ else _).
  assert (root < c <= end_).
  { subst c. destruct (Z.leb_spec (2 * root + 1 + 1) end_); cbn [andb]; [destruct (blt _ _)|]; lia. }
  rewrite elem_lt_blocks by lia. destruct (blt (arr m).[root] (arr m).[c]); [|done].
  destruct (swap_blocks m root c) as [Es Os]; [lia..|]. rewrite <-Es.
  destruct (IH (swap m (elem base root size) (elem base c size) size) c) as [E O]; [lia|done|].
  split; [exact E|]. by eapply same_outside_trans.
Qed.

Lemma k_sort_blocks m :
  arr (k_sort cmp m base n size) = heap_sort blt (arr m) ∧
  same_outside base (n * size) m (k_sort cmp m base n size).
Proof.
  unfold k_sort, heap_sort. rewrite length_blocks by lia. destruct (Z.ltb_spec n 2); [done|].
  set (first := (n - 2) / 2 + 1).
  assert (∀ (f : Z → mem → mem) (g : Z → list block → list block) k m0,
    (∀ i m, 0 <= i < Z.of_nat k → arr (f i m) = g i (arr m) ∧ same_outside base (n * size) m (f i m)) →
    arr (for_loop 0 k f m0) = for_loop 0 k g (arr m0) ∧ same_outside base (n * size) m0 (for_loop 0 k f m0))
    as Hloop.
  { intros f g k m0 Hfg. revert m0. induction k as [|k IH] using nat_ind; intros m0; [done|].
    rewrite <-Nat.add_1_r, !for_loop_app. cbn [for_loop].
    destruct (IH ltac:(intros; apply Hfg; lia) m0) as [E O].
    destruct (Hfg (0 + Z.of_nat k) (for_loop 0 k f m0) ltac:(lia)) as [E' O'].
    rewrite E', E. split; [done|]. by eapply same_outside_trans. }
  match goal with |- context [for_loop 0 (Z.to_nat first) ?f m] => set (m1 := for_loop 0 (Z.to_nat first) f m) end.
  destruct (Hloop (λ k m, sift_down cmp m base (first - 1 - k) (n - 1) size)
    (λ k l, sift blt (S (Z.to_nat (n - 1))) l (first - 1 - k) (n - 1)) (Z.to_nat first) m) as [E1 O1].
  { intros i m2 Hi. subst first; apply sift_blocks; zsolve. }
  fold m1 in E1, O1. rewrite <-E1.
  destruct (Hloop (λ k m, sift_down cmp (swap m (elem base 0 size) (elem base (n - 1 - k) size) size)
      base 0 (n - 1 - k - 1) size)
    (λ k l, sift blt (S (Z.to_nat (n - 1 - k - 1))) (list_swap l 0 (n - 1 - k)) 0 (n - 1 - k - 1))
    (Z.to_nat (n - 1)) m1) as [E2 O2].
  { intros i m2 Hi. destruct (swap_blocks m2 0 (n - 1 - i)) as [Es Os]; [lia..|]. rewrite <-Es.
    destruct (sift_blocks (S (Z.to_nat (n - 1 - i - 1)))
      (swap m2 (elem base 0 size) (elem base (n - 1 - i) size) size) 0 (n - 1 - i - 1)) as [E O]; [lia..|].
    split; [exact E|]. by eapply same_outside_trans. }
  split; [exact E2|]. by eapply same_outside_trans.
Qed.
End refine.

(** ** Claim *)

(** The caller's comparison is a total preorder: [cmp x y < 0] is its strict part. *)
Definition cmp_ok (cmp : block → block → Z) : Prop :=
  (∀ x y, 0 <= cmp x y ∨ 0 <= cmp y x) ∧
  (∀ x y z, 0 <= cmp y x → 0 <= cmp z y → 0 <= cmp z x).

(** C32: [k_sort] leaves the array a permutation of its elements in
    non-decreasing order, and touches no byte outside the array. *)
Theorem k_sort_correct cmp m base n size :
  cmp_ok cmp → 0 <= size → 0 <= n <= 2 ^ 31 → n * size < 2 ^ 32 →
  let m' := k_sort cmp m base n size in
  blocks m' base size n ≡ₚ blocks m base size n ∧
  (∀ i j, 0 <= i → i <= j → j < n →
     0 <= cmp (read_block m' (base + j * size) size) (read_block m' (base + i * size) size)) ∧
  same_outside base (n * size) m m'.
Proof.
  intros [Htot Htr] Hs Hn Hb m'. destruct (k_sort_blocks cmp base size n Hs Hn Hb m) as [E O]. fold m' in E, O.
  assert (∀ x y, le (blt cmp) x y ↔ 0 <= cmp y x) as Hle.
  { intros x y. unfold le, blt. destruct (Z.ltb_spec (cmp y x) 0); [split; [done|lia]|done]. }
  destruct (heap_sort_ok (blt cmp)) with (l := blocks m base size n) as (Hl & Hp & Hsrt).
  { intros x y. rewrite !Hle. destruct (Htot x y); auto. }
  { intros x y z. rewrite !Hle. intros H1 H2. by apply (Htr x y z). }
  rewrite <-E in Hp, Hsrt. split; [done|]. split; [|done]. intros i j Hi Hij Hj.
  specialize (Hsrt i j Hi Hij). rewrite length_blocks, !blocks_get, Hle in Hsrt by lia. by apply Hsrt.
Qed.

(** Little-endian 16-bit elements. *)
Definition demo_cmp (x y : block) : Z := (x.[0] + 256 * x.[1]) - (y.[0] + 256 * y.[1]).
Definition demo_array : mem := list_to_map (zip (seqZ 100 10) [3; 1; 7; 0; 9; 2; 1; 0; 0; 1]).

Lemma k_sort_correct_witness :
  blocks (k_sort demo_cmp demo_array 100 5 2) 100 2 5 = [[1; 0]; [7; 0]; [0; 1]; [3; 1]; [9; 2]] ∧
  blocks (k_sort demo_cmp demo_array 100 5 2) 100 2 5 ≡ₚ blocks demo_array 100 2 5.
Proof.
  split; [by vm_compute|].
  apply (k_sort_correct demo_cmp demo_array 100 5 2); [|lia..].
  split; unfold demo_cmp; intros; lia.
Defined.
