(* ===== verification/Bcache.v ===== *)
(** * Block cache (kernel/blk/bcache.c)

    A pool of 64 slots with a doubly linked LRU list through them, write-back.
    A slot pointer is the slot's index; [valid] and [dirty] are booleans (the
    code stores only 0 and 1).  The walk over victims in [acquire_slot] runs on
    fuel: [None] is a walk that has not finished.

    The specification forgets slots and order: [contents] is the 4096 bytes a
    caller sees for a block, and every operation is described by what it does to
    that map, whatever the device does on errors. *)

From S2P Require Import Prelude Interfaces.

Definition BCACHE_SLOTS : Z := 64.
Definition BCACHE_BLOCK_SIZE : Z := 4096.
Definition BCACHE_SECS_PER_BLK : Z := 8.

Record bcache_slot := mk_slot {
  s_dev : Z;
  s_lba : Z;
  s_valid : bool;
  s_dirty : bool;
  s_prev : option Z;
  s_next : option Z;
  s_data : list Z;
}.

Definition zero_block : list Z := replicate (Z.to_nat BCACHE_BLOCK_SIZE) 0.
Definition zero_slot : bcache_slot := mk_slot 0 0 false false None None zero_block.
#[global] Instance bcache_slot_inhabited : Inhabited bcache_slot := populate zero_slot.

Record bcache_stats := mk_stats {
  hits : Z; misses : Z; writebacks : Z; write_through : Z; evictions : Z;
}.

Record bcache := mk_bc {
  g_slots : list bcache_slot;
  g_lru_head : option Z;
  g_lru_tail : option Z;
  g_stats : bcache_stats;
}.

(** Field assignments. *)
Definition with_prev (p : option Z) (s : bcache_slot) : bcache_slot :=
  mk_slot (s_dev s) (s_lba s) (s_valid s) (s_dirty s) p (s_next s) (s_data s).
Definition with_next (n : option Z) (s : bcache_slot) : bcache_slot :=
  mk_slot (s_dev s) (s_lba s) (s_valid s) (s_dirty s) (s_prev s) n (s_data s).
Definition with_key (dev lba : Z) (s : bcache_slot) : bcache_slot :=
  mk_slot dev lba (s_valid s) (s_dirty s) (s_prev s) (s_next s) (s_data s).
Definition with_flags (v d : bool) (s : bcache_slot) : bcache_slot :=
  mk_slot (s_dev s) (s_lba s) v d (s_prev s) (s_next s) (s_data s).
Definition with_data (b : list Z) (s : bcache_slot) : bcache_slot :=
  mk_slot (s_dev s) (s_lba s) (s_valid s) (s_dirty s) (s_prev s) (s_next s) b.

Definition upd (c : bcache) (i : Z) (f : bcache_slot → bcache_slot) : bcache :=
  mk_bc (g_slots c).[i <- f (g_slots c).[i]] (g_lru_head c) (g_lru_tail c) (g_stats c).
Definition set_head (c : bcache) (h : option Z) : bcache :=
  mk_bc (g_slots c) h (g_lru_tail c) (g_stats c).
Definition set_tail (c : bcache) (t : option Z) : bcache :=
  mk_bc (g_slots c) (g_lru_head c) t (g_stats c).
Definition set_stats (c : bcache) (f : bcache_stats → bcache_stats) : bcache :=
  mk_bc (g_slots c) (g_lru_head c) (g_lru_tail c) (f (g_stats c)).

Definition inc_hits (s : bcache_stats) :=
  mk_stats (hits s +u 1) (misses s) (writebacks s) (write_through s) (evictions s).
Definition inc_misses (s : bcache_stats) :=
  mk_stats (hits s) (misses s +u 1) (writebacks s) (write_through s) (evictions s).
Definition inc_writebacks (s : bcache_stats) :=
  mk_stats (hits s) (misses s) (writebacks s +u 1) (write_through s) (evictions s).
Definition inc_write_through (s : bcache_stats) :=
  mk_stats (hits s) (misses s) (writebacks s) (write_through s +u 1) (evictions s).
Definition inc_evictions (s : bcache_stats) :=
  mk_stats (hits s) (misses s) (writebacks s) (write_through s) (evictions s +u 1).

(** ** LRU list plumbing *)

Definition lru_detach (c : bcache) (i : Z) : bcache :=
  let c := match s_prev (g_slots c).[i] with
           | Some p => upd c p (with_next (s_next (g_slots c).[i]))
           | None => set_head c (s_next (g_slots c).[i])
           end in
  let c := match s_next (g_slots c).[i] with
           | Some n => upd c n (with_prev (s_prev (g_slots c).[i]))
           | None => set_tail c (s_prev (g_slots c).[i])
           end in
  upd c i (λ s, with_next None (with_prev None s)).

Definition lru_push_front (c : bcache) (i : Z) : bcache :=
  let c := upd c i (λ s, with_next (g_lru_head c) (with_prev None s)) in
  let c := match g_lru_head c with Some h => upd c h (with_prev (Some i)) | None => c end in
  let c := set_head c (Some i) in
  match g_lru_tail c with None => set_tail c (Some i) | Some _ => c end.

Definition lru_push_back (c : bcache) (i : Z) : bcache :=
  let c := upd c i (λ s, with_next None (with_prev (g_lru_tail c) s)) in
  let c := match g_lru_tail c with Some t => upd c t (with_next (Some i)) | None => c end in
  let c := set_tail c (Some i) in
  match g_lru_head c with None => set_head c (Some i) | Some _ => c end.

Definition lru_touch (c : bcache) (i : Z) : bcache :=
  if bool_decide (g_lru_head c = Some i) then c else lru_push_front (lru_detach c i) i.

Definition lru_demote (c : bcache) (i : Z) : bcache :=
  if bool_decide (g_lru_tail c = Some i) then c else lru_push_back (lru_detach c i) i.

(** ** Slot lookup and disk I/O *)

Definition key_match (dev lba : Z) (s : bcache_slot) : bool :=
  s_valid s && (s_dev s =? dev) && (s_lba s =? lba).

Definition find_slot (c : bcache) (dev lba : Z) : option Z :=
  match for_exit 0 (Z.to_nat BCACHE_SLOTS)
          (λ i (_ : unit), if key_match dev lba (g_slots c).[i] then inl i else inr ()) () with
  | inl i => Some i
  | inr _ => None
  end.

(** [buf + i * 512 .. + 512] *)
Definition sector_of (buf : list Z) (i : Z) : list Z :=
  take (Z.to_nat BLKDEV_SECTOR_SIZE) (drop (Z.to_nat (i * BLKDEV_SECTOR_SIZE)) buf).
Definition set_sector (buf : list Z) (i : Z) (s : list Z) : list Z :=
  take (Z.to_nat (i * BLKDEV_SECTOR_SIZE)) buf ++ s ++
  drop (Z.to_nat ((i + 1) * BLKDEV_SECTOR_SIZE)) buf.

Section device.
Context {D : Type} `{BlockDevice D}.
Implicit Types (c : bcache) (d : D).

(** [inl buf] is the error exit with the buffer as far as it was filled. *)
Definition disk_read_block d (dev lba : Z) (buf : list Z) : list Z + list Z :=
  for_exit 0 (Z.to_nat BCACHE_SECS_PER_BLK)
    (λ i buf, match bd_read d dev (lba +u i) with
              | None => inl buf
              | Some s => inr (set_sector buf i s)
              end) buf.

Definition disk_write_block d (dev lba : Z) (buf : list Z) : Z * D :=
  if negb (bd_can_write d dev) then (-1, d)
  else
    match for_exit 0 (Z.to_nat BCACHE_SECS_PER_BLK)
            (λ i d, let '(ok, d') := bd_write d dev (lba +u i) (sector_of buf i) in
                    if ok then inr d' else inl d') d with
    | inl d' => (-1, d')
    | inr d' => (0, d')
    end.

Definition slot_writeback c d (i : Z) : Z * bcache * D :=
  let s := (g_slots c).[i] in
  if negb (s_valid s) || negb (s_dirty s) then (0, c, d)
  else
    let '(rc, d) := disk_write_block d (s_dev s) (s_lba s) (s_data s) in
    if negb (rc =? 0) then (-1, c, d)
    else (0, set_stats (upd c i (λ s, with_flags (s_valid s) false s)) inc_writebacks, d).

(** The walk from the LRU tail; [Some (None, ..)] is the exit without a victim. *)
Fixpoint find_victim (fuel : nat) c d (cur : option Z) : option (option Z * bcache * D) :=
  match cur with
  | None => Some (None, c, d)
  | Some i =>
      match fuel with
      | O => None
      | S fuel =>
          let prev := s_prev (g_slots c).[i] in
          if negb (s_valid (g_slots c).[i]) || negb (s_dirty (g_slots c).[i])
          then Some (Some i, c, d)
          else
            let '(rc, c, d) := slot_writeback c d i in
            if rc =? 0 then Some (Some i, c, d)
            else find_victim fuel (lru_touch c i) d prev
      end
  end.

Definition acquire_slot (fuel : nat) c d (dev lba : Z) : option (option Z * bcache * D) :=
  match find_slot c dev lba with
  | Some i => Some (Some i, lru_touch c i, d)
  | None =>
      match find_victim fuel c d (g_lru_tail c) with
      | None => None
      | Some (None, c, d) => Some (None, c, d)
      | Some (Some victim, c, d) =>
          let c := if s_valid (g_slots c).[victim] then set_stats c inc_evictions else c in
          let c := upd c victim (λ s, with_flags false false (with_key dev lba s)) in
          Some (Some victim, lru_touch c victim, d)
      end
  end.

(** ** Public API *)

(** The state before boot: [g_slots] is a zero-initialised static array. *)
Definition bcache_zero : bcache :=
  mk_bc (replicate (Z.to_nat BCACHE_SLOTS) zero_slot) None None (mk_stats 0 0 0 0 0).

Definition bcache_init c : bcache :=
  let c := mk_bc (g_slots c) None None (mk_stats 0 0 0 0 0) in
  for_loop 0 (Z.to_nat BCACHE_SLOTS)
    (λ i c, lru_push_front
              (upd c i (λ s, mk_slot 0 0 false false None None (s_data s))) i) c.

(** [Some buf] is return value 0 with the caller's buffer filled, [None] is -1. *)
Definition bcache_read (fuel : nat) c d (dev lba : Z) (buf_ok : bool)
    : option (option (list Z) * bcache * D) :=
  if (dev =? 0) || negb buf_ok then Some (None, c, d)
  else
    match find_slot c dev lba with
    | Some i =>
        let buf := s_data (g_slots c).[i] in
        Some (Some buf, set_stats (lru_touch c i) inc_hits, d)
    | None =>
        match acquire_slot fuel c d dev lba with
        | None => None
        | Some (None, c, d) => Some (None, c, d)
        | Some (Some i, c, d) =>
            match disk_read_block d dev lba (s_data (g_slots c).[i]) with
            | inl part =>
                let c := upd c i (λ s, with_flags false false (with_key 0 (s_lba s) (with_data part s))) in
                Some (None, lru_demote c i, d)
            | inr data =>
                let c := upd c i (λ s, with_flags true false (with_data data s)) in
                Some (Some (s_data (g_slots c).[i]), set_stats c inc_misses, d)
            end
        end
    end.

(** [buf = None] is the null pointer. *)
Definition bcache_write (fuel : nat) c d (dev lba : Z) (buf : option (list Z))
    : option (Z * bcache * D) :=
  match buf with
  | None => Some (-1, c, d)
  | Some buf =>
      if dev =? 0 then Some (-1, c, d)
      else
        match acquire_slot fuel c d dev lba with
        | None => None
        | Some (None, c, d) => Some (-1, c, d)
        | Some (Some i, c, d) => Some (0, upd c i (λ s, with_flags true true (with_data buf s)), d)
        end
  end.

Definition bcache_write_through c d (dev lba : Z) (buf : option (list Z)) : Z * bcache * D :=
  match buf with
  | None => (-1, c, d)
  | Some buf =>
      if dev =? 0 then (-1, c, d)
      else
        let '(rc, d) := disk_write_block d dev lba buf in
        if negb (rc =? 0) then (-1, c, d)
        else
          let c := set_stats c inc_write_through in
          match find_slot c dev lba with
          | None => (0, c, d)
          | Some i =>
              let c := upd c i (λ s, with_flags (s_valid s) false (with_data buf s)) in
              (0, lru_touch c i, d)
          end
  end.

(** [dev = 0] flushes every device. *)
Definition sync_step (dev : Z) (i : Z) (st : Z * bcache * D) : Z * bcache * D :=
  let '(rc, c, d) := st in
  let s := (g_slots c).[i] in
  if negb (s_valid s) || negb (s_dirty s) then (rc, c, d)
  else if negb (dev =? 0) && negb (s_dev s =? dev) then (rc, c, d)
  else
    let '(r, c, d) := slot_writeback c d i in
    (if negb (r =? 0) then -1 else rc, c, d).
Definition bcache_sync c d (dev : Z) : Z * bcache * D :=
  for_loop 0 (Z.to_nat BCACHE_SLOTS) (sync_step dev) (0, c, d).

Definition bcache_invalidate c (dev lba : Z) : bcache :=
  match find_slot c dev lba with
  | None => c
  | Some i => lru_demote (upd c i (λ s, with_key 0 (s_lba s) (with_flags false false s))) i
  end.

Definition bcache_get_stats c : bcache_stats := g_stats c.
Definition bcache_reset_stats c : bcache := set_stats c (λ _, mk_stats 0 0 0 0 0).
End device.
