(* ===== verification/BcacheSpec.v ===== *)
(** * Block cache: invariant and contents

    The LRU links as a list of slot indices, the cache invariant, and what each
    operation does to the logical contents of the blocks.  The claims are in
    [BcacheProps]. *)

From S2P Require Import Prelude Interfaces Bcache.

(** ** Doubly linked segments *)

Definition hd_or (l : list Z) (n : option Z) : option Z :=
  match l with [] => n | i :: _ => Some i end.
Definition last_or (l : list Z) (p : option Z) : option Z :=
  match last l with Some i => Some i | None => p end.

Section segments.
Implicit Types (P N : Z → option Z) (l : list Z).

Fixpoint seg P N (prev : option Z) l (nxt : option Z) : Prop :=
  match l with
  | [] => True
  | i :: l' => P i = prev ∧ N i = hd_or l' nxt ∧ seg P N (Some i) l' nxt
  end.

Lemma last_or_cons i l p : last_or (i :: l) p = last_or l (Some i).
Proof. unfold last_or. rewrite last_cons. by destruct (last l). Qed.
Lemma last_or_snoc l i p : last_or (l ++ [i]) p = Some i.
Proof. unfold last_or. by rewrite last_snoc. Qed.
Lemma hd_or_app l1 l2 n : hd_or (l1 ++ l2) n = hd_or l1 (hd_or l2 n).
Proof. by destruct l1. Qed.
Lemma last_or_app l1 l2 p : last_or (l1 ++ l2) p = last_or l2 (last_or l1 p).
Proof. unfold last_or. rewrite last_app. by destruct (last l2), (last l1). Qed.

Lemma seg_app P N p l1 l2 n :
  seg P N p (l1 ++ l2) n ↔ seg P N p l1 (hd_or l2 n) ∧ seg P N (last_or l1 p) l2 n.
Proof.
  revert p. induction l1 as [|i l1 IH]; intros p; simpl; [tauto|].
  rewrite IH, hd_or_app, last_or_cons. tauto.
Qed.

Lemma seg_ext P N P' N' p l n :
  (∀ i, i ∈ l → P' i = P i ∧ N' i = N i) → seg P N p l n → seg P' N' p l n.
Proof.
  revert p. induction l as [|i l IH]; intros p He; [done|]. intros (H1 & H2 & H3).
  destruct (He i ltac:(left)) as [EP EN]. split; [congruence|]. split; [congruence|].
  apply IH; [|done]. intros j Hj. apply He. by right.
Qed.

(** Relinking the last element. *)
Lemma seg_relink_last P N P' N' p l x n n' :
  seg P N p (l ++ [x]) n → x ∉ l → N' x = n' → P' x = P x →
  (∀ i, i ∈ l → P' i = P i ∧ N' i = N i) → seg P' N' p (l ++ [x]) n'.
Proof.
  rewrite !seg_app. simpl. intros (H1 & H2 & _ & _) Hx HN HP He.
  split; [by eapply seg_ext|]. split; [congruence|]. done.
Qed.

(** Relinking the first element. *)
Lemma seg_relink_first P N P' N' p p' x l n :
  seg P N p (x :: l) n → P' x = p' → N' x = N x →
  (∀ i, i ∈ l → P' i = P i ∧ N' i = N i) → seg P' N' p' (x :: l) n.
Proof.
  simpl. intros (H1 & H2 & H3) HP HN He. split; [done|]. split; [congruence|].
  eapply seg_ext; [|exact H3]. intros i Hi. by apply He.
Qed.
End segments.

(** ** The LRU list of a cache *)

Definition prev_of (c : bcache) (i : Z) : option Z := s_prev (g_slots c).[i].
Definition next_of (c : bcache) (i : Z) : option Z := s_next (g_slots c).[i].

Definition slot_ix (i : Z) : Prop := 0 <= i < BCACHE_SLOTS.

Record lru (c : bcache) (l : list Z) : Prop := {
  lru_len : length (g_slots c) = Z.to_nat BCACHE_SLOTS;
  lru_hd : g_lru_head c = hd_or l None;
  lru_tl : g_lru_tail c = last_or l None;
  lru_seg : seg (prev_of c) (next_of c) None l None;
  lru_nodup : NoDup l;
  lru_ix : Forall slot_ix l;
}.

(** The fields that are not links. *)
Definition core (s : bcache_slot) : Z * Z * bool * bool * list Z :=
  (s_dev s, s_lba s, s_valid s, s_dirty s, s_data s).
Definition same_core (c c' : bcache) : Prop :=
  ∀ i, slot_ix i → core (g_slots c').[i] = core (g_slots c).[i].

Lemma same_core_refl c : same_core c c.
Proof. done. Qed.
Lemma same_core_trans c1 c2 c3 : same_core c1 c2 → same_core c2 c3 → same_core c1 c3.
Proof. intros H1 H2 i Hi. by rewrite H2, H1. Qed.

Lemma upd_get c i f j :
  length (g_slots c) = Z.to_nat BCACHE_SLOTS → slot_ix i → 0 <= j →
  (g_slots (upd c i f)).[j] = if i =? j then f (g_slots c).[i] else (g_slots c).[j].
Proof. intros Hl Hi Hj. cbn. rewrite arr_get_set; [done| |done]. unfold slot_ix, BCACHE_SLOTS in *. lia. Qed.

Lemma upd_len c i f : length (g_slots (upd c i f)) = length (g_slots c).
Proof. cbn. apply length_arr_set. Qed.

Lemma slot_ix_nonneg i : slot_ix i → 0 <= i.
Proof. unfold slot_ix. lia. Qed.
#[local] Hint Resolve slot_ix_nonneg : core.

(** Read one slot after some updates of others. *)
Ltac slot_read :=
  cbn [upd set_head set_tail set_stats g_slots g_lru_head g_lru_tail g_stats];
  repeat (rewrite arr_get_set by (rewrite ?length_arr_set; unfold slot_ix, BCACHE_SLOTS in *; lia)).
Ltac slot_cases :=
  unfold prev_of, next_of, core; slot_read;
  repeat match goal with |- context [?a =? ?b] => destruct (Z.eqb_spec a b); try (exfalso; congruence) end;
  subst; try done.

Definition opt_ix (p : option Z) : Prop := match p with Some j => slot_ix j | None => True end.

(** The links after [lru_detach], read off the code. *)
Lemma detach_links c i p n :
  length (g_slots c) = Z.to_nat BCACHE_SLOTS → slot_ix i → opt_ix p → opt_ix n →
  prev_of c i = p → next_of c i = n → p ≠ Some i → n ≠ Some i →
  let c' := lru_detach c i in
  length (g_slots c') = Z.to_nat BCACHE_SLOTS ∧ same_core c c' ∧ g_stats c' = g_stats c ∧
  g_lru_head c' = (if p then g_lru_head c else n) ∧ g_lru_tail c' = (if n then g_lru_tail c else p) ∧
  ∀ j, slot_ix j → j ≠ i →
    prev_of c' j = (if bool_decide (n = Some j) then p else prev_of c j) ∧
    next_of c' j = (if bool_decide (p = Some j) then n else next_of c j).
Proof.
  unfold prev_of at 1, next_of at 1. intros Hl Hi Hp Hn HP HN Hpi Hni. unfold lru_detach. rewrite HP, HN.
  unfold opt_ix in *.
  destruct p as [p|]; destruct n as [n|]; slot_read; rewrite ?HP, ?HN;
    rewrite ?(proj2 (Z.eqb_neq p i)) by congruence; rewrite ?HP, ?HN; slot_read;
    rewrite ?(proj2 (Z.eqb_neq p i)), ?(proj2 (Z.eqb_neq n i)) by congruence; rewrite ?HP, ?HN.
  all: split; [by rewrite ?length_arr_set|]; split; [intros j Hj; slot_cases|].
  all: do 3 (split; [done|]); intros j Hj Hji.
  all: split; slot_cases; repeat case_bool_decide; simplify_eq; try done.
Qed.

Lemma hd_or_in l n i : hd_or l n = Some i → i ∈ l ∨ n = Some i.
Proof. destruct l; simpl; [by right|]. intros [= ->]. left. left. Qed.
Lemma last_or_in l p i : last_or l p = Some i → i ∈ l ∨ p = Some i.
Proof.
  unfold last_or. destruct (last l) eqn:E; [|by right]. intros [= ->]. left. by apply last_Some_elem_of.
Qed.

(** [i] is out of the list, the rest stays linked. *)
Lemma detach_ok c l1 l2 i :
  lru c (l1 ++ i :: l2) →
  lru (lru_detach c i) (l1 ++ l2) ∧ same_core c (lru_detach c i) ∧
  g_stats (lru_detach c i) = g_stats c.
Proof.
  intros [Hl Hh Ht Hs Hn Hx]. apply seg_app in Hs as [Hs1 (HP & HN & Hs2)].
  pose proof Hx as Hx'. apply Forall_app in Hx' as [Hx1 Hx2]. apply Forall_cons in Hx2 as [Hix Hx2].
  assert (NoDup (l1 ++ l2) ∧ i ∉ l1 ∧ i ∉ l2) as (Hn' & Hi1 & Hi2).
  { rewrite <-Permutation_middle in Hn. apply NoDup_cons in Hn as [Hi ?].
    rewrite not_elem_of_app in Hi. tauto. }
  pose proof Hn' as Hn''. apply NoDup_app in Hn'' as (_ & Hdis & Hn2).
  assert (∀ j, last_or l1 None = Some j → j ∈ l1) as Hlast by (intros j Hj; by destruct (last_or_in _ _ _ Hj)).
  assert (∀ j, hd_or l2 None = Some j → j ∈ l2) as Hhead by (intros j Hj; by destruct (hd_or_in _ _ _ Hj)).
  rewrite Forall_forall in Hx1, Hx2.
  destruct (detach_links c i (last_or l1 None) (hd_or l2 None)) as (Hl' & Hc & Hst & Hh' & Ht' & Hlk);
    try done.
  { destruct (last_or l1 None) eqn:E; simpl; auto. }
  { destruct (hd_or l2 None) eqn:E; simpl; auto. }
  { intros E. by apply Hi1, Hlast. }
  { intros E. by apply Hi2, Hhead. }
  split; [|done]. split; try done.
  - rewrite Hh', Hh, !hd_or_app. simpl. destruct l1 as [|a l1]; [done|]. simpl.
    rewrite last_or_cons. unfold last_or. by destruct (last l1).
  - rewrite Ht', Ht, !last_or_app, last_or_cons. destruct l2 as [|a l2]; [done|]. simpl.
    rewrite !last_or_cons. done.
  - apply seg_app. split.
    + destruct l1 as [|p l1' _] using rev_ind; [done|]. rewrite last_or_snoc in *.
      assert (p ∉ l1') as Hp.
      { apply NoDup_app in Hn' as (Hn1 & _). apply NoDup_app in Hn1 as (_ & Hd & _).
        intros Hp. apply (Hd p Hp). left. }
      assert (∀ j, j ∈ l1' ++ [p] → hd_or l2 None ≠ Some j) as Hnot.
      { intros j Hj E. apply (Hdis j Hj). by apply Hhead. }
      eapply seg_relink_last; [exact Hs1|done|..].
      * destruct (Hlk p) as [_ ->]; [apply Hx1; set_solver|set_solver|]. by rewrite bool_decide_true.
      * destruct (Hlk p) as [-> _]; [apply Hx1; set_solver|set_solver|].
        rewrite bool_decide_false; [done|]. apply Hnot. set_solver.
      * intros j Hj. destruct (Hlk j) as [-> ->]; [apply Hx1; set_solver|set_solver|].
        rewrite !bool_decide_false; [done| |apply Hnot; set_solver]. intros [= ->]. done.
    + destruct l2 as [|n l2']; [done|]. apply NoDup_cons in Hn2 as [Hnl2 _].
      eapply seg_relink_first; [exact Hs2|..].
      * destruct (Hlk n) as [-> _]; [apply Hx2; set_solver|set_solver|]. by rewrite bool_decide_true.
      * destruct (Hlk n) as [_ ->]; [apply Hx2; set_solver|set_solver|].
        rewrite bool_decide_false; [done|]. intros E. apply (Hdis n); [by apply Hlast|left].
      * intros j Hj. destruct (Hlk j) as [-> ->]; [apply Hx2; set_solver|set_solver|].
        rewrite !bool_decide_false; [done|..].
        -- intros E. apply (Hdis j); [by apply Hlast|by right].
        -- simpl. intros [= ->]. done.
  - by apply Forall_app; split; apply Forall_forall.
Qed.

Lemma push_front_ok c l i :
  lru c l → slot_ix i → i ∉ l →
  lru (lru_push_front c i) (i :: l) ∧ same_core c (lru_push_front c i) ∧
  g_stats (lru_push_front c i) = g_stats c.
Proof.
  intros [Hl Hh Ht Hs Hn Hx] Hi Hil. unfold lru_push_front. cbn [upd g_lru_head g_lru_tail g_slots].
  rewrite Hh. destruct l as [|h l]; cbn [hd_or upd set_head set_tail g_slots g_lru_head g_lru_tail g_stats];
    rewrite Ht.
  - cbn. split; [|split; [intros j Hj; slot_cases|done]].
    split; cbn; [by rewrite length_arr_set|done|done| |constructor; [done|constructor]|by constructor].
    split; [slot_cases|]. split; [slot_cases|done].
  - rewrite last_or_cons. apply Forall_cons in Hx as [Hhx Hx]. apply not_elem_of_cons in Hil as [Hih Hil].
    apply NoDup_cons in Hn as [Hhl Hn].
    assert (∃ t, last_or l (Some h) = Some t) as [t ->] by (unfold last_or; destruct (last l); eauto).
    cbn. split; [|split; [intros j Hj; slot_cases|done]].
    assert (∀ j, j ∈ l → slot_ix j) as Hx' by by apply Forall_forall.
    split; cbn.
    + by rewrite !length_arr_set.
    + done.
    + rewrite Ht, !last_or_cons. done.
    + split; [slot_cases|]. split; [slot_cases|]. eapply (seg_relink_first (prev_of c) (next_of c) _ _ None).
      * exact Hs.
      * slot_cases.
      * slot_cases.
      * intros j Hj. pose proof (Hx' j Hj). split; slot_cases.
    + constructor; [by apply not_elem_of_cons|by constructor].
    + by forall_list.
Qed.

Lemma push_back_ok c l i :
  lru c l → slot_ix i → i ∉ l →
  lru (lru_push_back c i) (l ++ [i]) ∧ same_core c (lru_push_back c i) ∧
  g_stats (lru_push_back c i) = g_stats c.
Proof.
  intros [Hl Hh Ht Hs Hn Hx] Hi Hil. unfold lru_push_back. cbn [upd g_lru_head g_lru_tail g_slots].
  rewrite Ht. destruct l as [|t l _] using rev_ind; rewrite ?last_or_snoc;
    cbn [last_or last upd set_head set_tail g_slots g_lru_head g_lru_tail g_stats]; rewrite Hh.
  - cbn. split; [|split; [intros j Hj; slot_cases|done]].
    split; cbn; [by rewrite length_arr_set|done|done| |constructor; [done|constructor]|by constructor].
    split; [slot_cases|]. split; [slot_cases|done].
  - apply Forall_app in Hx as [Hx Htx]. apply Forall_cons in Htx as [Htx _].
    apply not_elem_of_app in Hil as [Hil Hit]. apply not_elem_of_cons in Hit as [Hit _].
    apply NoDup_app in Hn as (Hn & Hd & _).
    assert (t ∉ l) as Htl by (intros Hj; apply (Hd t Hj); left).
    assert (∃ h, hd_or (l ++ [t]) None = Some h) as [h Eh] by (destruct l; simpl; eauto). rewrite Eh.
    cbn. split; [|split; [intros j Hj; slot_cases|done]].
    assert (∀ j, j ∈ l → slot_ix j) as Hx' by by apply Forall_forall.
    split; cbn.
    + by rewrite !length_arr_set.
    + rewrite Hh. by destruct l.
    + by rewrite last_or_snoc.
    + apply seg_app. split.
      * eapply (seg_relink_last (prev_of c) (next_of c)).
        -- exact Hs.
        -- done.
        -- slot_cases.
        -- slot_cases.
        -- intros j Hj. pose proof (Hx' j Hj). assert (j ≠ i) by (intros ->; done).
           assert (j ≠ t) by (intros ->; done). split; slot_cases.
      * rewrite last_or_snoc. split; [slot_cases|]. split; [slot_cases|done].
    + apply NoDup_app. split; [apply NoDup_app; split; [done|]; split; [done|apply NoDup_singleton]|].
      split; [|apply NoDup_singleton]. intros j Hj. set_solver.
    + rewrite !Forall_app. repeat split; by forall_list.
Qed.

(** Moving a linked slot to either end. *)
Lemma touch_at c l1 l2 i :
  lru c (l1 ++ i :: l2) →
  lru (lru_touch c i) (i :: l1 ++ l2) ∧ same_core c (lru_touch c i) ∧
  g_stats (lru_touch c i) = g_stats c.
Proof.
  intros Hlru. pose proof Hlru as [Hl Hh _ _ Hn Hx]. unfold lru_touch. case_bool_decide as E.
  - assert (l1 = []) as ->; [|done]. rewrite Hh in E. destruct l1 as [|a l1]; [done|]. simplify_eq/=.
    apply NoDup_cons in Hn as [Hn _]. set_solver.
  - destruct (detach_ok c l1 l2 i Hlru) as (Hd & Hc & Hst).
    rewrite <-Permutation_middle in Hn. apply NoDup_cons in Hn as [Hn _].
    apply Forall_app in Hx as [_ Hx]. apply Forall_cons in Hx as [Hx _].
    destruct (push_front_ok _ _ i Hd Hx Hn) as (? & Hc2 & Hst2).
    split; [done|]. split; [by eapply same_core_trans|congruence].
Qed.

Lemma demote_at c l1 l2 i :
  lru c (l1 ++ i :: l2) →
  lru (lru_demote c i) (l1 ++ l2 ++ [i]) ∧ same_core c (lru_demote c i) ∧
  g_stats (lru_demote c i) = g_stats c.
Proof.
  intros Hlru. pose proof Hlru as [Hl _ Ht _ Hn Hx]. unfold lru_demote. case_bool_decide as E.
  - assert (l2 = []) as ->; [|done]. rewrite Ht, last_or_app, last_or_cons in E.
    destruct l2 as [|a l2]; [done|]. exfalso. rewrite last_or_cons in E.
    apply NoDup_app in Hn as (_ & _ & Hn). apply NoDup_cons in Hn as [Hn _]. apply Hn.
    apply last_or_in in E as [?|[= ->]]; [by right|left].
  - destruct (detach_ok c l1 l2 i Hlru) as (Hd & Hc & Hst).
    rewrite <-Permutation_middle in Hn. apply NoDup_cons in Hn as [Hn _].
    apply Forall_app in Hx as [_ Hx]. apply Forall_cons in Hx as [Hx _].
    destruct (push_back_ok _ _ i Hd Hx Hn) as (Hb & Hc2 & Hst2). rewrite <-app_assoc in Hb.
    split; [done|]. split; [by eapply same_core_trans|congruence].
Qed.

(** ** Lookup *)

Lemma find_slot_Some c dev lba i :
  find_slot c dev lba = Some i → slot_ix i ∧ key_match dev lba (g_slots c).[i] = true.
Proof.
  unfold find_slot. intros Hf.
  pose proof (for_exit_inv (λ _ (_ : unit), True)
    (λ i, slot_ix i ∧ key_match dev lba (g_slots c).[i] = true)
    (λ i (_ : unit), if key_match dev lba (g_slots c).[i] then inl i else inr ())
    0 (Z.to_nat BCACHE_SLOTS) ()) as Hinv.
  lapply Hinv; clear Hinv; [intros Hinv; specialize (Hinv I)|].
  - destruct (for_exit _ _ _ _); simplify_eq. exact Hinv.
  - intros k [] Hk _. destruct (key_match _ _ _) eqn:E; [|done]. unfold slot_ix, BCACHE_SLOTS in *.
    split; [lia|done].
Qed.

Lemma find_slot_None c dev lba :
  find_slot c dev lba = None → ∀ i, slot_ix i → key_match dev lba (g_slots c).[i] = false.
Proof.
  unfold find_slot. intros Hf.
  pose proof (for_exit_inv (λ k (_ : unit), ∀ i, 0 <= i < k → key_match dev lba (g_slots c).[i] = false)
    (λ _ : Z, True)
    (λ i (_ : unit), if key_match dev lba (g_slots c).[i] then inl i else inr ())
    0 (Z.to_nat BCACHE_SLOTS) ()) as Hinv.
  lapply Hinv; clear Hinv; [intros Hinv; specialize (Hinv ltac:(intros; lia))|].
  - destruct (for_exit _ _ _ _); simplify_eq. intros i Hi. apply Hinv. unfold slot_ix, BCACHE_SLOTS in *. lia.
  - intros k [] Hk Hall. destruct (key_match _ _ _) eqn:E; [done|]. intros i Hi.
    destruct (Z.eq_dec i k) as [->|]; [done|]. apply Hall. lia.
Qed.

Lemma find_slot_ext c c' dev lba :
  (∀ i, slot_ix i → key_match dev lba (g_slots c').[i] = key_match dev lba (g_slots c).[i]) →
  find_slot c' dev lba = find_slot c dev lba.
Proof.
  intros He. unfold find_slot. rewrite (for_exit_ext_in _
    (λ i (_ : unit), if key_match dev lba (g_slots c).[i] then inl i else inr ())); [done|].
  intros k [] Hk. rewrite He; [done|]. unfold slot_ix, BCACHE_SLOTS in *. lia.
Qed.

Lemma core_fields s s' :
  core s = core s' → s_dev s = s_dev s' ∧ s_lba s = s_lba s' ∧ s_valid s = s_valid s' ∧
    s_dirty s = s_dirty s' ∧ s_data s = s_data s'.
Proof. unfold core. intros [= -> -> -> -> ->]. done. Qed.

Lemma core_key_match s s' dev lba : core s = core s' → key_match dev lba s = key_match dev lba s'.
Proof. intros (Hd & Hl & Hv & _)%core_fields. unfold key_match. by rewrite Hd, Hl, Hv. Qed.

Lemma key_match_true dev lba s :
  key_match dev lba s = true ↔ s_valid s = true ∧ s_dev s = dev ∧ s_lba s = lba.
Proof.
  unfold key_match. rewrite !andb_true_iff, !Z.eqb_eq. tauto.
Qed.

(** ** Sectors and blocks *)

Lemma join_sectors (buf : list Z) (k : nat) :
  mjoin ((λ i, sector_of buf i) <$> seqZ 0 (Z.of_nat k)) =
  take (k * Z.to_nat BLKDEV_SECTOR_SIZE) buf.
Proof.
  induction k as [|k IH]; [done|].
  replace (Z.of_nat (S k)) with (Z.of_nat k + 1) by lia.
  rewrite seqZ_app, fmap_app, join_app, IH by lia.
  change (seqZ (0 + Z.of_nat k) 1) with [0 + (0 + Z.of_nat k)]. cbn [fmap list_fmap mjoin list_join].
  rewrite app_nil_r. unfold sector_of, BLKDEV_SECTOR_SIZE.
  replace (Z.to_nat ((0 + (0 + Z.of_nat k)) * 512)) with (k * Z.to_nat 512)%nat by lia.
  rewrite take_take_drop. f_equal. lia.
Qed.

Lemma sector_length (buf : list Z) i :
  length buf = Z.to_nat BCACHE_BLOCK_SIZE → 0 <= i < BCACHE_SECS_PER_BLK →
  length (sector_of buf i) = Z.to_nat BLKDEV_SECTOR_SIZE.
Proof.
  intros Hl Hi. unfold sector_of, BLKDEV_SECTOR_SIZE, BCACHE_BLOCK_SIZE, BCACHE_SECS_PER_BLK in *.
  rewrite length_take, length_drop. lia.
Qed.

Lemma set_sector_length buf i s :
  length buf = Z.to_nat BCACHE_BLOCK_SIZE → length s = Z.to_nat BLKDEV_SECTOR_SIZE →
  0 <= i < BCACHE_SECS_PER_BLK → length (set_sector buf i s) = Z.to_nat BCACHE_BLOCK_SIZE.
Proof.
  intros Hl Hs Hi. unfold set_sector, BLKDEV_SECTOR_SIZE, BCACHE_BLOCK_SIZE, BCACHE_SECS_PER_BLK in *.
  rewrite !length_app, length_take, length_drop. lia.
Qed.

Section device.
Context {D : Type} {BD : BlockDevice D} {bd_media : D → Z → Z → list Z}
  {BL : BlockDeviceLaws D bd_media}.
Implicit Types (c : bcache) (d : D).

(** The 4096 bytes on disk at [lba]. *)
Definition disk_block d (dev lba : Z) : list Z :=
  mjoin ((λ i, bd_media d dev (lba + i)) <$> seqZ 0 BCACHE_SECS_PER_BLK).

Definition fits (lba : Z) : Prop := 0 <= lba ∧ lba + BCACHE_SECS_PER_BLK <= 2 ^ 32.

Lemma disk_block_ext d d' dev lba :
  (∀ i, 0 <= i < BCACHE_SECS_PER_BLK → bd_media d' dev (lba + i) = bd_media d dev (lba + i)) →
  disk_block d' dev lba = disk_block d dev lba.
Proof.
  intros He. unfold disk_block. f_equal. apply list_fmap_ext. intros k x Hx.
  apply lookup_seqZ in Hx as [-> Hk]. apply He. lia.
Qed.

Lemma disk_read_spec d dev lba buf :
  length buf = Z.to_nat BCACHE_BLOCK_SIZE → fits lba →
  match disk_read_block d dev lba buf with
  | inl part => length part = Z.to_nat BCACHE_BLOCK_SIZE ∧ ∃ i, 0 <= i < BCACHE_SECS_PER_BLK ∧ bd_read d dev (lba + i) = None
  | inr data => data = disk_block d dev lba ∧ length data = Z.to_nat BCACHE_BLOCK_SIZE
  end.
Proof.
  intros Hl [Hf0 Hf1]. unfold disk_read_block.
  pose proof (for_exit_inv
    (λ k b, length b = Z.to_nat BCACHE_BLOCK_SIZE ∧
       take (Z.to_nat (k * BLKDEV_SECTOR_SIZE)) b = mjoin ((λ i, bd_media d dev (lba + i)) <$> seqZ 0 k))
    (λ b, length b = Z.to_nat BCACHE_BLOCK_SIZE ∧ ∃ i, 0 <= i < BCACHE_SECS_PER_BLK ∧ bd_read d dev (lba + i) = None)
    (λ i buf, match bd_read d dev (lba +u i) with None => inl buf | Some s => inr (set_sector buf i s) end)
    0 (Z.to_nat BCACHE_SECS_PER_BLK) buf) as Hinv.
  lapply Hinv; clear Hinv; [intros Hinv; lapply Hinv; [clear Hinv; intros Hinv|done]|].
  - destruct (for_exit _ _ _ _) as [p|b]; [done|]. destruct Hinv as [Hb Ht].
    split; [|done]. unfold disk_block. change (0 + Z.of_nat (Z.to_nat BCACHE_SECS_PER_BLK)) with BCACHE_SECS_PER_BLK in Ht.
    rewrite <-Ht. symmetry. apply take_ge. rewrite Hb. done.
  - intros k b Hk [Hb Ht]. change (Z.of_nat (Z.to_nat BCACHE_SECS_PER_BLK)) with 8 in Hk.
    unfold BCACHE_SECS_PER_BLK in Hf1. rewrite u32_small by zsolve.
    destruct (bd_read d dev (lba + k)) as [s|] eqn:E; [|split; [done|]; exists k; split; [unfold BCACHE_SECS_PER_BLK; lia|done]].
    apply bd_read_ok in E as ->. pose proof (bd_media_length d dev (lba + k)) as Hs.
    split; [apply set_sector_length; [done|done|unfold BCACHE_SECS_PER_BLK; lia]|].
    rewrite seqZ_app, fmap_app, join_app, <-Ht by lia.
    change (seqZ (0 + k) 1) with [0 + (0 + k)]. cbn [fmap list_fmap mjoin list_join].
    rewrite app_nil_r. replace (0 + (0 + k)) with k by lia. unfold set_sector.
    unfold BLKDEV_SECTOR_SIZE, BCACHE_BLOCK_SIZE in *.
    assert (length (take (Z.to_nat (k * 512)) b) = Z.to_nat (k * 512)) as Hlt by (rewrite length_take; lia).
    rewrite app_assoc, take_app_length'; [done|]. rewrite length_app, Hlt, Hs. lia.
Qed.

(** Two blocks that share no sector. *)
Definition apart (dev lba dev' lba' : Z) : Prop :=
  dev ≠ dev' ∨ lba + BCACHE_SECS_PER_BLK <= lba' ∨ lba' + BCACHE_SECS_PER_BLK <= lba.

(** The sectors a write changes. *)
Lemma disk_write_media d dev lba buf :
  length buf = Z.to_nat BCACHE_BLOCK_SIZE → fits lba →
  let '(rc, d') := disk_write_block d dev lba buf in
  (rc = 0 ∨ rc = -1) ∧
  (rc = 0 → ∀ i, 0 <= i < BCACHE_SECS_PER_BLK → bd_media d' dev (lba + i) = sector_of buf i) ∧
  ∀ dev' x, dev ≠ dev' ∨ x < lba ∨ lba + BCACHE_SECS_PER_BLK <= x → bd_media d' dev' x = bd_media d dev' x.
Proof.
  intros Hl [Hf0 Hf1]. unfold disk_write_block.
  destruct (bd_can_write d dev); cbn [negb]; [|split; [by right|done]].
  pose proof (for_exit_inv
    (λ k d1, (∀ i, 0 <= i < k → bd_media d1 dev (lba + i) = sector_of buf i) ∧
       ∀ dev' x, dev ≠ dev' ∨ x < lba ∨ lba + BCACHE_SECS_PER_BLK <= x → bd_media d1 dev' x = bd_media d dev' x)
    (λ d1, ∀ dev' x, dev ≠ dev' ∨ x < lba ∨ lba + BCACHE_SECS_PER_BLK <= x → bd_media d1 dev' x = bd_media d dev' x)
    (λ i d, let '(ok, d') := bd_write d dev (lba +u i) (sector_of buf i) in if ok then inr d' else inl d')
    0 (Z.to_nat BCACHE_SECS_PER_BLK) d) as Hinv.
  lapply Hinv; clear Hinv; [intros Hinv; lapply Hinv; [clear Hinv; intros Hinv|]|].
  - destruct (for_exit _ _ _ _) as [d1|d1]; [split; [by right|done]|]. destruct Hinv as [Hs Ho].
    split; [by left|]. split; [intros _ i Hi; by apply Hs|done].
  - split; [intros; lia|done].
  - intros k d1 Hk [Hs Ho]. change (Z.of_nat (Z.to_nat BCACHE_SECS_PER_BLK)) with 8 in Hk.
    unfold BCACHE_SECS_PER_BLK in Hf1. rewrite u32_small by zsolve.
    assert (∀ dev' x, dev ≠ dev' ∨ lba + k ≠ x →
      bd_media (bd_write d1 dev (lba + k) (sector_of buf k)).2 dev' x = bd_media d1 dev' x) as Hfr
      by (intros; by apply bd_write_frame).
    pose proof (bd_write_ok d1 dev (lba + k) (sector_of buf k)) as Hok.
    destruct (bd_write d1 dev (lba + k) (sector_of buf k)) as [[] d2]; cbn in Hfr.
    + split.
      * intros i Hi. destruct (Z.eq_dec i k) as [->|].
        -- apply Hok; [done|]. apply sector_length; [done|unfold BCACHE_SECS_PER_BLK; lia].
        -- rewrite Hfr by lia. apply Hs. lia.
      * intros dev' x Hx. unfold BCACHE_SECS_PER_BLK in *. rewrite Hfr by lia. by apply Ho.
    + intros dev' x Hx. unfold BCACHE_SECS_PER_BLK in *. rewrite Hfr by lia. by apply Ho.
Qed.

Lemma disk_write_spec d dev lba buf :
  length buf = Z.to_nat BCACHE_BLOCK_SIZE → fits lba →
  let '(rc, d') := disk_write_block d dev lba buf in
  (rc = 0 ∨ rc = -1) ∧ (rc = 0 → disk_block d' dev lba = buf) ∧
  ∀ dev' lba', apart dev lba dev' lba' → disk_block d' dev' lba' = disk_block d dev' lba'.
Proof.
  intros Hl Hf. pose proof (disk_write_media d dev lba buf Hl Hf) as Hw.
  destruct (disk_write_block d dev lba buf) as [rc d1]. destruct Hw as (Hrc & Hs & Ho). split; [done|]. split.
  - intros ->. specialize (Hs eq_refl). transitivity (mjoin ((λ i, sector_of buf i) <$> seqZ 0 (Z.of_nat 8))).
    + unfold disk_block. f_equal. apply list_fmap_ext. intros k x Hx.
      apply lookup_seqZ in Hx as [-> Hk]. apply Hs. unfold BCACHE_SECS_PER_BLK in *. lia.
    + rewrite join_sectors. apply take_ge. rewrite Hl. done.
  - intros dev' lba' Ha. apply disk_block_ext. intros i Hi. apply Ho. unfold apart, BCACHE_SECS_PER_BLK in *. lia.
Qed.
End device.
