(* ===== verification/BcacheProps.v ===== *)
(** * Block cache: what the operations do to the contents of the blocks *)

From S2P Require Import Prelude Interfaces Bcache BcacheSpec.

(** The blocks the callers use: the key set of the cache.  Two blocks of one
    device are equal or share no sector, and no block wraps around the LBA range. *)
Record block_layout (is_block : Z → Z → Prop) : Prop := {
  bl_dev dev lba : is_block dev lba → dev ≠ 0;
  bl_fits dev lba : is_block dev lba → fits lba;
  bl_apart dev a b : is_block dev a → is_block dev b → a ≠ b → apart dev a dev b;
}.

Section cache.
Context {D : Type} {BD : BlockDevice D} {bd_media : D → Z → Z → list Z}
  {BL : BlockDeviceLaws D bd_media}.
Context {is_block : Z → Z → Prop} (layout : block_layout is_block).
Implicit Types (c : bcache) (d : D).
Notation disk := (disk_block (bd_media := bd_media)).
Notation slot c i := (g_slots c).[i].

(** ** The invariant *)

Record slots_inv c d : Prop := {
  si_data i : slot_ix i → length (s_data (slot c i)) = Z.to_nat BCACHE_BLOCK_SIZE;
  si_key i : slot_ix i → s_valid (slot c i) = true → is_block (s_dev (slot c i)) (s_lba (slot c i));
  si_uniq i j : slot_ix i → slot_ix j → s_valid (slot c i) = true → s_valid (slot c j) = true →
    s_dev (slot c i) = s_dev (slot c j) → s_lba (slot c i) = s_lba (slot c j) → i = j;
  si_clean i : slot_ix i → s_valid (slot c i) = true → s_dirty (slot c i) = false →
    s_data (slot c i) = disk d (s_dev (slot c i)) (s_lba (slot c i));
}.

Definition lru_all c : Prop := ∃ l, lru c l ∧ l ≡ₚ seqZ 0 BCACHE_SLOTS.

Definition bc_inv c d : Prop := lru_all c ∧ slots_inv c d.

(** The bytes of a block as the callers see them. *)
Definition contents c d (dev lba : Z) : list Z :=
  match find_slot c dev lba with
  | Some i => s_data (slot c i)
  | None => disk d dev lba
  end.

Definition same_contents c d c' d' : Prop :=
  ∀ dev lba, is_block dev lba → contents c' d' dev lba = contents c d dev lba.

Lemma same_contents_trans c1 d1 c2 d2 c3 d3 :
  same_contents c1 d1 c2 d2 → same_contents c2 d2 c3 d3 → same_contents c1 d1 c3 d3.
Proof. intros H1 H2 dev lba Hb. by rewrite H2, H1. Qed.

Lemma in_all i l : l ≡ₚ seqZ 0 BCACHE_SLOTS → slot_ix i ↔ i ∈ l.
Proof. intros ->. rewrite elem_of_seqZ. unfold slot_ix. lia. Qed.

Lemma contents_hit c d dev lba i :
  slots_inv c d → slot_ix i → key_match dev lba (slot c i) = true → contents c d dev lba = s_data (slot c i).
Proof.
  intros Hi Hix Hk. unfold contents. destruct (find_slot c dev lba) as [j|] eqn:E.
  - apply find_slot_Some in E as [Hj Hkj]. apply key_match_true in Hk as (? & ? & ?), Hkj as (? & ? & ?).
    by rewrite (si_uniq _ _ Hi i j) by congruence.
  - rewrite (find_slot_None _ _ _ E i Hix) in Hk. done.
Qed.

Lemma contents_miss c d dev lba :
  (∀ i, slot_ix i → key_match dev lba (slot c i) = false) → contents c d dev lba = disk d dev lba.
Proof.
  intros Hn. unfold contents. destruct (find_slot c dev lba) as [j|] eqn:E; [|done].
  apply find_slot_Some in E as [Hj Hk]. rewrite Hn in Hk; done.
Qed.

Lemma no_other c d i j :
  slots_inv c d → slot_ix i → slot_ix j → s_valid (slot c i) = true → j ≠ i →
  key_match (s_dev (slot c i)) (s_lba (slot c i)) (slot c j) = false.
Proof.
  intros Hinv Hi Hj Hv Hji. destruct (key_match _ _ _) eqn:E; [|done].
  apply key_match_true in E as (? & ? & ?). exfalso. apply Hji. by apply (si_uniq _ _ Hinv).
Qed.

(** Moving links only. *)
Lemma same_core_inv c c' d : same_core c c' → slots_inv c d → slots_inv c' d.
Proof.
  intros Hc [H1 H2 H3 H4].
  assert (∀ i, slot_ix i → _) as Hf by (intros i Hi; exact (core_fields _ _ (Hc i Hi))).
  split.
  - intros i Hi. destruct (Hf i Hi) as (_ & _ & _ & _ & ->). auto.
  - intros i Hi. destruct (Hf i Hi) as (-> & -> & -> & _ & _). auto.
  - intros i j Hi Hj. destruct (Hf i Hi) as (-> & -> & -> & _), (Hf j Hj) as (-> & -> & -> & _). auto.
  - intros i Hi. destruct (Hf i Hi) as (-> & -> & -> & -> & ->). auto.
Qed.

Lemma same_core_contents c c' d dev lba :
  same_core c c' → contents c' d dev lba = contents c d dev lba.
Proof.
  intros Hc. unfold contents. rewrite (find_slot_ext c c').
  2:{ intros i Hi. by apply core_key_match, Hc. }
  destruct (find_slot c dev lba) as [i|] eqn:E; [|done]. apply find_slot_Some in E as [Hi _].
  destruct (core_fields _ _ (Hc i Hi)) as (_ & _ & _ & _ & ->). done.
Qed.

(** The end result of moving a slot in the list. *)
Lemma touch_all c i :
  slot_ix i → lru_all c → lru_all (lru_touch c i) ∧ same_core c (lru_touch c i).
Proof.
  intros Hi (l & Hl & Hp). apply (in_all i l Hp) in Hi. apply list_elem_of_split in Hi as (l1 & l2 & ->).
  destruct (touch_at c l1 l2 i Hl) as (Hl' & Hc & _). split; [|done].
  exists (i :: l1 ++ l2). split; [done|]. by rewrite <-Hp, Permutation_middle.
Qed.

Lemma demote_all c i :
  slot_ix i → lru_all c → lru_all (lru_demote c i) ∧ same_core c (lru_demote c i).
Proof.
  intros Hi (l & Hl & Hp). apply (in_all i l Hp) in Hi. apply list_elem_of_split in Hi as (l1 & l2 & ->).
  destruct (demote_at c l1 l2 i Hl) as (Hl' & Hc & _). split; [|done].
  exists (l1 ++ l2 ++ [i]). split; [done|]. rewrite <-Hp, app_assoc, <-Permutation_cons_append.
  apply Permutation_middle.
Qed.

(** ** Changing one slot *)

Lemma lru_slots c : lru_all c → length (g_slots c) = Z.to_nat BCACHE_SLOTS.
Proof. intros (l & Hl & _). apply Hl. Qed.

Lemma lru_upd c i f l :
  slot_ix i → s_prev (f (slot c i)) = s_prev (slot c i) → s_next (f (slot c i)) = s_next (slot c i) →
  lru c l → lru (upd c i f) l.
Proof.
  intros Hi Hp Hn [Hl Hh Ht Hs Hd Hx]. split; try done; [by rewrite upd_len|].
  eapply seg_ext; [|exact Hs]. intros j Hj. rewrite Forall_forall in Hx. pose proof (Hx j Hj) as Hjx.
  unfold prev_of, next_of. rewrite upd_get by (done || by apply slot_ix_nonneg).
  destruct (Z.eqb_spec i j) as [->|]; done.
Qed.

Lemma lru_all_upd c i f :
  slot_ix i → s_prev (f (slot c i)) = s_prev (slot c i) → s_next (f (slot c i)) = s_next (slot c i) →
  lru_all c → lru_all (upd c i f).
Proof. intros Hi Hp Hn (l & Hl & Hperm). exists l. split; [by apply lru_upd|done]. Qed.

Lemma stats_lru_all c f : lru_all c → lru_all (set_stats c f).
Proof. intros (l & [? ? ? ? ? ?] & Hp). exists l. split; [by split|done]. Qed.
Lemma stats_inv c d f : bc_inv c d → bc_inv (set_stats c f) d.
Proof. intros [Hl [? ? ? ?]]. split; [by apply stats_lru_all|by split]. Qed.
Lemma stats_contents c d f : same_contents c d (set_stats c f) d.
Proof. done. Qed.

(** A slot may be given new contents when no other slot has its key and, if it
    is clean, the disk agrees. *)
Lemma slots_inv_upd c d i f :
  length (g_slots c) = Z.to_nat BCACHE_SLOTS → slot_ix i → slots_inv c d →
  let s := f (slot c i) in
  length (s_data s) = Z.to_nat BCACHE_BLOCK_SIZE →
  (s_valid s = true →
     is_block (s_dev s) (s_lba s) ∧
     (∀ j, slot_ix j → j ≠ i → key_match (s_dev s) (s_lba s) (slot c j) = false) ∧
     (s_dirty s = false → s_data s = disk d (s_dev s) (s_lba s))) →
  slots_inv (upd c i f) d.
Proof.
  intros Hl Hi [H1 H2 H3 H4] s Hlen Hv.
  assert (∀ j, slot_ix j → slot (upd c i f) j = if i =? j then s else slot c j) as Hg.
  { intros j Hj. rewrite upd_get by (done || by apply slot_ix_nonneg). done. }
  split.
  - intros j Hj. rewrite Hg by done. destruct (i =? j); auto.
  - intros j Hj. rewrite Hg by done. destruct (i =? j); [|auto]. intros Hs. by destruct (Hv Hs).
  - intros j k Hj Hk. rewrite !Hg by done.
    destruct (Z.eqb_spec i j) as [Hij|Hij], (Z.eqb_spec i k) as [Hik|Hik]; [congruence|..|auto].
    + intros Hs Hvk Hd Hb. destruct (Hv Hs) as (_ & Hno & _). specialize (Hno k Hk ltac:(congruence)).
      rewrite (proj2 (key_match_true _ _ _)) in Hno; [done|]. by rewrite Hvk.
    + intros Hvj Hs Hd Hb. destruct (Hv Hs) as (_ & Hno & _). specialize (Hno j Hj ltac:(congruence)).
      rewrite (proj2 (key_match_true _ _ _)) in Hno; [done|]. by rewrite Hvj.
  - intros j Hj. rewrite Hg by done. destruct (i =? j); [|auto]. intros Hs. by destruct (Hv Hs) as (_ & _ & ?).
Qed.

(** Contents of a key that the changed slot neither had nor gets. *)
Lemma contents_upd_other c d i f dev lba :
  length (g_slots c) = Z.to_nat BCACHE_SLOTS → slot_ix i →
  key_match dev lba (slot c i) = false → key_match dev lba (f (slot c i)) = false →
  contents (upd c i f) d dev lba = contents c d dev lba.
Proof.
  intros Hl Hi H1 H2. unfold contents. rewrite (find_slot_ext c).
  2:{ intros j Hj. rewrite upd_get by (done || by apply slot_ix_nonneg).
      destruct (Z.eqb_spec i j) as [->|]; congruence. }
  destruct (find_slot c dev lba) as [j|] eqn:E; [|done]. apply find_slot_Some in E as [Hj Hk].
  rewrite upd_get by (done || by apply slot_ix_nonneg). destruct (Z.eqb_spec i j) as [->|]; [congruence|done].
Qed.

(** ** Write-back of one slot *)

Lemma slots_inv_disk c d d' i :
  slot_ix i → s_valid (slot c i) = true → s_dirty (slot c i) = true → slots_inv c d →
  (∀ dev lba, apart (s_dev (slot c i)) (s_lba (slot c i)) dev lba → disk d' dev lba = disk d dev lba) →
  slots_inv c d' ∧ same_contents c d c d'.
Proof.
  intros Hi Hv Hd Hinv Hfr. pose proof Hinv as [H1 H2 H3 H4].
  assert (∀ dev lba, is_block dev lba → key_match dev lba (slot c i) = false →
    disk d' dev lba = disk d dev lba) as Hfr'.
  { intros dev lba Hb Hk. apply Hfr. destruct (Z.eq_dec (s_dev (slot c i)) dev) as [<-|]; [|by left].
    apply (bl_apart _ layout); [by apply H2|done|]. intros E.
    rewrite (proj2 (key_match_true _ _ _)) in Hk by done. done. }
  split.
  - split; try done. intros j Hj Hvj Hdj. rewrite (H4 j) by done. symmetry. apply Hfr'; [by apply H2|].
    destruct (key_match _ _ _) eqn:E; [|done]. apply key_match_true in E as (_ & ? & ?).
    assert (i = j) as -> by by apply H3. congruence.
  - intros dev lba Hb. unfold contents. destruct (find_slot c dev lba) eqn:E; [done|].
    apply Hfr'; [done|]. by apply (find_slot_None _ _ _ E).
Qed.

Lemma writeback_spec c d i :
  slot_ix i → bc_inv c d → s_valid (slot c i) = true → s_dirty (slot c i) = true →
  let '(rc, c', d') := slot_writeback c d i in
  bc_inv c' d' ∧ same_contents c d c' d' ∧
  ((rc = 0 ∧ c' = set_stats (upd c i (λ s, with_flags (s_valid s) false s)) inc_writebacks ∧
    disk d' (s_dev (slot c i)) (s_lba (slot c i)) = s_data (slot c i)) ∨
   (rc = -1 ∧ c' = c)).
Proof.
  intros Hi [Hl Hinv] Hv Hd. unfold slot_writeback. rewrite Hv, Hd. cbn [negb orb].
  pose proof (si_key _ _ Hinv i Hi Hv) as Hb.
  pose proof (disk_write_spec d (s_dev (slot c i)) (s_lba (slot c i)) (s_data (slot c i))
    (si_data _ _ Hinv i Hi) (bl_fits _ layout _ _ Hb)) as Hw.
  destruct (disk_write_block d _ _ _) as [rc d']. destruct Hw as (Hrc & Hok & Hfr).
  destruct (slots_inv_disk c d d' i Hi Hv Hd Hinv Hfr) as [Hinv' Hsame].
  destruct Hrc as [->| ->]; cbn [Z.eqb negb]; [|split; [done|]; split; [done|by right]].
  specialize (Hok eq_refl).
  set (f := λ s, with_flags (s_valid s) false s).
  pose proof (lru_slots c Hl) as Hlen.
  assert (slots_inv (upd c i f) d') as Hinv2.
  { apply slots_inv_upd; [done|done|done|by apply (si_data _ _ Hinv)|].
    intros _. split; [done|]. split; [|done]. intros j Hj Hji. by apply (no_other _ _ _ _ Hinv). }
  split; [split|split; [|by left]].
  - apply stats_lru_all, lru_all_upd; done.
  - apply (stats_inv (upd c i f) d'). split; [by apply lru_all_upd|done].
  - intros dev lba Hb'. rewrite <-Hsame by done.
    change (contents (upd c i f) d' dev lba = contents c d' dev lba).
    assert (slot (upd c i f) i = f (slot c i)) as Ei.
    { rewrite upd_get by (done || by apply slot_ix_nonneg). by rewrite Z.eqb_refl. }
    destruct (key_match dev lba (slot c i)) eqn:Ek.
    + rewrite (contents_hit c d' dev lba i) by done.
      rewrite (contents_hit (upd c i f) d' dev lba i); [by rewrite Ei|done|done|by rewrite Ei].
    + by apply contents_upd_other.
Qed.

(** Moving links keeps the invariant and the contents. *)
Lemma relink_inv c c' d :
  lru_all c' → same_core c c' → bc_inv c d → bc_inv c' d ∧ same_contents c d c' d.
Proof.
  intros Hl Hc [_ Hi]. split; [split; [done|by eapply same_core_inv]|].
  intros dev lba _. by apply same_core_contents.
Qed.

(** ** The walk for a victim *)

Definition reusable c (i : Z) : Prop := s_valid (slot c i) && s_dirty (slot c i) = false.

(** Keys and data stay where they are. *)
Definition same_keys c c' : Prop :=
  ∀ j, slot_ix j → s_valid (slot c' j) = s_valid (slot c j) ∧ s_dev (slot c' j) = s_dev (slot c j) ∧
    s_lba (slot c' j) = s_lba (slot c j).

Lemma same_core_keys c c' : same_core c c' → same_keys c c'.
Proof. intros Hc j Hj. destruct (core_fields _ _ (Hc j Hj)) as (? & ? & ? & _). auto. Qed.
Lemma same_keys_trans c1 c2 c3 : same_keys c1 c2 → same_keys c2 c3 → same_keys c1 c3.
Proof. intros H1 H2 j Hj. destruct (H1 j Hj) as (? & ? & ?), (H2 j Hj) as (? & ? & ?). repeat split; congruence. Qed.

Lemma full_snoc l i : l ++ [i] ≡ₚ seqZ 0 BCACHE_SLOTS → slot_ix i ∧ ∃ l' j, l = l' ++ [j].
Proof.
  intros Hp. split; [apply (in_all i _ Hp); rewrite elem_of_app, elem_of_cons; auto|].
  destruct l as [|j l' _] using rev_ind; [|by exists l', j].
  apply Permutation_length in Hp. rewrite length_seqZ in Hp. done.
Qed.

Lemma not_reusable c i :
  negb (s_valid (slot c i)) || negb (s_dirty (slot c i)) = false →
  s_valid (slot c i) = true ∧ s_dirty (slot c i) = true.
Proof. destruct (s_valid _), (s_dirty _); done. Qed.

Lemma tail_prev c l j i : lru c ((l ++ [j]) ++ [i]) → s_prev (slot c i) = Some j.
Proof.
  intros [_ _ _ Hs _ _]. apply seg_app in Hs as [_ (Hp & _)]. unfold prev_of in Hp.
  by rewrite last_or_snoc in Hp.
Qed.

(** The walk never comes to an end without a victim. *)
Lemma victim_spec fuel c d l i :
  bc_inv c d → lru c (l ++ [i]) → l ++ [i] ≡ₚ seqZ 0 BCACHE_SLOTS →
  match find_victim fuel c d (Some i) with
  | None => True
  | Some (r, c', d') => ∃ v, r = Some v ∧ slot_ix v ∧ reusable c' v ∧
      bc_inv c' d' ∧ same_contents c d c' d' ∧ same_keys c c'
  end.
Proof.
  revert c d l i. induction fuel as [|fuel IH]; intros c d l i Hinv Hl Hp; [done|]. cbn [find_victim].
  destruct (full_snoc l i Hp) as [Hi (l' & j & ->)].
  destruct (negb (s_valid _) || negb (s_dirty _)) eqn:E.
  { exists i. split; [done|]. split; [done|]. split; [|done].
    unfold reusable. destruct (s_valid _), (s_dirty _); done. }
  apply not_reusable in E as [Hv Hd]. pose proof (writeback_spec c d i Hi Hinv Hv Hd) as Hw.
  rewrite (tail_prev c l' j i Hl).
  destruct (slot_writeback c d i) as [[rc c1] d1]. destruct Hw as (Hinv1 & Hsame & Hcase).
  destruct Hcase as [(-> & -> & _)|(-> & ->)]; cbn [Z.eqb].
  - assert (∀ k, slot_ix k → slot (set_stats (upd c i (λ s, with_flags (s_valid s) false s)) inc_writebacks) k =
      if i =? k then with_flags (s_valid (slot c i)) false (slot c i) else slot c k) as Hg.
    { intros k Hk. destruct Hinv as [Hla _]. pose proof (lru_slots c Hla).
      change (slot (upd c i (λ s, with_flags (s_valid s) false s)) k = if i =? k then with_flags (s_valid (slot c i)) false (slot c i) else slot c k).
      by rewrite upd_get by (done || by apply slot_ix_nonneg). }
    exists i. split; [done|]. split; [done|]. split; [unfold reusable; rewrite Hg by done; rewrite Z.eqb_refl; apply andb_false_r|].
    split; [done|]. split; [done|]. intros k Hk. rewrite Hg by done. destruct (Z.eqb_spec i k) as [->|]; done.
  - destruct (touch_at c (l' ++ [j]) [] i Hl) as (Hl1 & Hc1 & _). rewrite app_nil_r in Hl1.
    assert ((i :: l') ++ [j] ≡ₚ seqZ 0 BCACHE_SLOTS) as Hp1.
    { rewrite <-Hp. simpl. by rewrite Permutation_cons_append. }
    destruct (relink_inv c (lru_touch c i) d1) as [Hinv2 Hsame2]; [by exists ((i :: l') ++ [j])|done|done|].
    specialize (IH (lru_touch c i) d1 (i :: l') j Hinv2 Hl1 Hp1).
    destruct (find_victim fuel _ d1 (Some j)) as [[[r c2] d2]|]; [|done].
    destruct IH as (v & -> & ? & ? & ? & ? & ?). exists v. do 4 (split; [done|]).
    split; [eapply same_contents_trans, same_contents_trans; done|].
    eapply same_keys_trans; [|done]. by apply same_core_keys.
Qed.

(** A slot that can be taken: clean or empty, or its write-back succeeds. *)
Definition usable c (i : Z) : Prop :=
  reusable c i ∨ ∀ d, (disk_write_block d (s_dev (slot c i)) (s_lba (slot c i)) (s_data (slot c i))).1 = 0.

Lemma usable_core c c' i : slot_ix i → same_core c c' → usable c i → usable c' i.
Proof.
  intros Hi Hc. unfold usable, reusable. destruct (core_fields _ _ (Hc i Hi)) as (-> & -> & -> & -> & ->). done.
Qed.

(** Such a slot ends the walk, at the latest after the slots behind it. *)
Lemma victim_total fuel c d la x lb :
  lru c (la ++ x :: lb) → usable c x → (length lb < fuel)%nat →
  is_Some (find_victim fuel c d (last_or (la ++ x :: lb) None)).
Proof.
  revert c d la lb. induction fuel as [|fuel IH]; intros c d la lb Hl Hr Hf; [lia|].
  destruct lb as [|i lb _] using rev_ind.
  - rewrite last_or_snoc. cbn [find_victim].
    destruct (negb (s_valid _) || negb (s_dirty _)) eqn:E; [by eexists|].
    apply not_reusable in E as [Hv Hd]. unfold usable, reusable in Hr. rewrite Hv, Hd in Hr. destruct Hr as [Hr|Hr]; [done|].
    unfold slot_writeback. rewrite Hv, Hd. cbn [negb orb]. specialize (Hr d).
    destruct (disk_write_block d _ _ _) as [rc d1]. cbn [fst] in Hr. subst rc. cbn. by eexists.
  - rewrite app_comm_cons, app_assoc, last_or_snoc in *. cbn [find_victim].
    destruct (negb (s_valid _) || negb (s_dirty _)) eqn:E; [by eexists|].
    apply not_reusable in E as [Hv Hd]. unfold slot_writeback. rewrite Hv, Hd. cbn [negb orb].
    destruct (disk_write_block d _ _ _) as [rc d1]. destruct (Z.eqb_spec rc 0) as [->|]; cbn [negb Z.eqb]; [by eexists|].
    assert (∃ l' j, la ++ x :: lb = l' ++ [j]) as (l' & j & Ej).
    { destruct lb as [|j lb _] using rev_ind; [by exists la, x|].
      exists (la ++ x :: lb), j. by rewrite <-app_assoc. }
    pose proof Hl as Hl0. rewrite Ej in Hl0. rewrite (tail_prev c l' j i Hl0).
    destruct (touch_at c (la ++ x :: lb) [] i Hl) as (Hl1 & Hc1 & _). rewrite app_nil_r in Hl1.
    specialize (IH (lru_touch c i) d1 (i :: la) lb Hl1).
    replace (last_or ((i :: la) ++ x :: lb) None) with (Some j) in IH.
    2:{ simpl. by rewrite last_or_cons, Ej, last_or_snoc. }
    apply IH; [|rewrite length_app in Hf; simpl in Hf; lia].
    assert (slot_ix x) as Hx.
    { pose proof (lru_ix _ _ Hl1) as Hx. rewrite Forall_forall in Hx. apply Hx.
      rewrite elem_of_cons, elem_of_app, elem_of_cons. auto. }
    by apply (usable_core c).
Qed.

(** With every slot dirty and no device that can be written, it goes round for ever. *)
Definition stuck c d : Prop :=
  ∀ i, slot_ix i → s_valid (slot c i) = true ∧ s_dirty (slot c i) = true ∧
    bd_can_write d (s_dev (slot c i)) = false.

Lemma victim_diverges fuel c d l i :
  lru c (l ++ [i]) → l ++ [i] ≡ₚ seqZ 0 BCACHE_SLOTS → stuck c d →
  find_victim fuel c d (Some i) = None.
Proof.
  revert c l i. induction fuel as [|fuel IH]; intros c l i Hl Hp Hs; [done|]. cbn [find_victim].
  destruct (full_snoc l i Hp) as [Hi (l' & j & ->)]. destruct (Hs i Hi) as (Hv & Hd & Hw).
  rewrite Hv, Hd. cbn [negb orb]. unfold slot_writeback. rewrite Hv, Hd. cbn [negb orb].
  unfold disk_write_block. rewrite Hw. cbn [negb Z.eqb]. rewrite (tail_prev c l' j i Hl).
  destruct (touch_at c (l' ++ [j]) [] i Hl) as (Hl1 & Hc1 & _). rewrite app_nil_r in Hl1.
  apply (IH _ (i :: l') j Hl1).
  - rewrite <-Hp. simpl. by rewrite Permutation_cons_append.
  - intros k Hk. destruct (core_fields _ _ (Hc1 k Hk)) as (-> & _ & -> & -> & _). by apply Hs.
Qed.

(** ** Acquiring a slot *)

(** Dropping a reusable slot does not change any block. *)
Lemma evict_spec c d i dev lba :
  bc_inv c d → slot_ix i → reusable c i → 
  let c' := upd c i (λ s, with_flags false false (with_key dev lba s)) in
  bc_inv c' d ∧ same_contents c d c' d.
Proof.
  intros [Hla Hinv] Hi Hr c'. pose proof (lru_slots c Hla) as Hlen. split; [split|].
  - by apply lru_all_upd.
  - apply slots_inv_upd; [done|done|done|by apply (si_data _ _ Hinv)|done].
  - intros dv lb Hb. destruct (key_match dv lb (slot c i)) eqn:Ek.
    + rewrite (contents_hit c d dv lb i) by done. apply key_match_true in Ek as (Hv & <- & <-).
      unfold reusable in Hr. rewrite Hv in Hr. cbn in Hr.
      rewrite contents_miss; [symmetry; by apply (si_clean _ _ Hinv)|].
      intros j Hj. unfold c'. rewrite upd_get by (done || by apply slot_ix_nonneg).
      destruct (Z.eqb_spec i j) as [->|]; [done|]. apply (no_other _ _ _ _ Hinv); auto.
    + by apply contents_upd_other.
Qed.

Definition nobody c (dev lba : Z) : Prop := ∀ j, slot_ix j → key_match dev lba (slot c j) = false.

(** What [acquire_slot] hands to its caller. *)
Definition acquired c c' d' (dev lba i : Z) : Prop :=
  slot_ix i ∧ bc_inv c' d' ∧ s_dev (slot c' i) = dev ∧ s_lba (slot c' i) = lba ∧
  (∀ j, slot_ix j → j ≠ i → key_match dev lba (slot c' j) = false) ∧
  (find_slot c dev lba = None → s_valid (slot c' i) = false).

Lemma tail_full c : lru_all c → ∃ l i, lru c (l ++ [i]) ∧ l ++ [i] ≡ₚ seqZ 0 BCACHE_SLOTS ∧ g_lru_tail c = Some i.
Proof.
  intros (l & Hl & Hp). destruct l as [|i l _] using rev_ind.
  - apply Permutation_length in Hp. rewrite length_seqZ in Hp. done.
  - exists l, i. split; [done|]. split; [done|]. by rewrite (lru_tl _ _ Hl), last_or_snoc.
Qed.

Lemma acquire_spec fuel c d dev lba :
  bc_inv c d →
  match acquire_slot fuel c d dev lba with
  | None => True
  | Some (r, c', d') => ∃ i, r = Some i ∧ acquired c c' d' dev lba i ∧ same_contents c d c' d'
  end.
Proof.
  intros Hinv. pose proof Hinv as [Hla Hsi]. unfold acquire_slot.
  destruct (find_slot c dev lba) as [i|] eqn:Ef.
  - pose proof (find_slot_Some _ _ _ _ Ef) as [Hi Hk]. apply key_match_true in Hk as (Hv & <- & <-).
    destruct (touch_all c i Hi Hla) as [Hl' Hc]. destruct (relink_inv c (lru_touch c i) d Hl' Hc Hinv) as [Hinv' Hs].
    exists i. split; [done|]. split; [|done]. unfold acquired.
    destruct (core_fields _ _ (Hc i Hi)) as (-> & -> & _).
    split; [done|]. split; [done|]. split; [done|]. split; [done|]. split; [|congruence]. intros j Hj Hji.
    rewrite (core_key_match _ _ _ _ (Hc j Hj)). by apply (no_other _ _ _ _ Hsi).
  - destruct (tail_full c Hla) as (l & i & Hl & Hp & ->).
    pose proof (victim_spec fuel c d l i Hinv Hl Hp) as Hvic.
    destruct (find_victim fuel c d (Some i)) as [[[r c1] d1]|]; [|done].
    destruct Hvic as (v & -> & Hv & Hr & Hinv1 & Hs1 & Hk1).
    set (c2 := if s_valid (slot c1 v) then set_stats c1 inc_evictions else c1).
    assert (bc_inv c2 d1 ∧ same_contents c1 d1 c2 d1 ∧ g_slots c2 = g_slots c1) as (Hinv2 & Hs2 & E2).
    { subst c2. destruct (s_valid _); [|done]. split; [by apply stats_inv|done]. }
    assert (reusable c2 v) as Hr2 by (unfold reusable; by rewrite E2).
    destruct (evict_spec c2 d1 v dev lba Hinv2 Hv Hr2) as [Hinv3 Hs3].
    set (c3 := upd c2 v _) in *. pose proof (touch_all c3 v Hv (proj1 Hinv3)) as [Hl4 Hc4].
    destruct (relink_inv c3 (lru_touch c3 v) d1 Hl4 Hc4 Hinv3) as [Hinv4 Hs4].
    pose proof (lru_slots c2 (proj1 Hinv2)) as Hlen2.
    assert (slot c3 v = with_flags false false (with_key dev lba (slot c1 v))) as E3.
    { unfold c3. rewrite upd_get by (done || by apply slot_ix_nonneg). by rewrite Z.eqb_refl, E2. }
    exists v. split; [done|]. split.
    + destruct (core_fields _ _ (Hc4 v Hv)) as (Hd4 & Hb4 & Hv4 & _). rewrite E3 in Hd4, Hb4, Hv4.
      do 4 (split; [done|]). split; [|done]. intros j Hj Hji. rewrite (core_key_match _ _ _ _ (Hc4 j Hj)).
      unfold c3. rewrite upd_get by (done || by apply slot_ix_nonneg).
      destruct (Z.eqb_spec v j); [congruence|]. rewrite E2.
      destruct (key_match dev lba (slot c1 j)) eqn:Ek; [|done].
      pose proof (find_slot_None _ _ _ Ef j Hj) as Hn. destruct (Hk1 j Hj) as (Ea & Eb & Ec).
      unfold key_match in *. rewrite Ea, Eb, Ec in Ek. congruence.
    + repeat (eapply same_contents_trans; [eassumption|]). done.
Qed.

(** Acquiring ends when the block is cached or some slot can be taken. *)
Lemma acquire_total fuel c d dev lba :
  bc_inv c d → find_slot c dev lba ≠ None ∨ (∃ x, slot_ix x ∧ usable c x) → (Z.to_nat BCACHE_SLOTS <= fuel)%nat →
  is_Some (acquire_slot fuel c d dev lba).
Proof.
  intros [(l & Hl & Hp) _] Hx Hf. unfold acquire_slot. destruct (find_slot c dev lba); [by eexists|].
  destruct Hx as [|(x & Hx & Hr)]; [done|].
  pose proof Hx as Hxl. apply (in_all x l Hp) in Hxl. apply list_elem_of_split in Hxl as (la & lb & ->).
  rewrite (lru_tl _ _ Hl). pose proof (victim_total fuel c d la x lb Hl Hr) as Ht.
  apply Permutation_length in Hp. rewrite length_app, length_seqZ in Hp. simpl in Hp.
  destruct Ht as [[[r c1] d1] ->]; [lia|]. destruct r; by eexists.
Qed.

(** Filling the acquired slot. *)
Lemma fill_spec c0 c d dev lba i dirty data :
  acquired c0 c d dev lba i → is_block dev lba → length data = Z.to_nat BCACHE_BLOCK_SIZE →
  (dirty = false → data = disk d dev lba) →
  let c' := upd c i (λ s, with_flags true dirty (with_data data s)) in
  bc_inv c' d ∧ s_data (slot c' i) = data ∧
  ∀ dv lb, is_block dv lb → contents c' d dv lb =
    if bool_decide (dv = dev ∧ lb = lba) then data else contents c d dv lb.
Proof.
  intros (Hi & [Hla Hinv] & Hd & Hb & Hno & _) Hbl Hlen Hcl c'. pose proof (lru_slots c Hla) as Hl.
  assert (slots_inv c' d) as Hinv'.
  { apply slots_inv_upd; [done|done|done|done|]. cbn. rewrite Hd, Hb. done. }
  assert (slot c' i = with_flags true dirty (with_data data (slot c i))) as Ei.
  { unfold c'. rewrite upd_get by (done || by apply slot_ix_nonneg). by rewrite Z.eqb_refl. }
  split; [split; [by apply lru_all_upd|done]|]. split; [by rewrite Ei|]. intros dv lb Hbl'.
  case_bool_decide as E.
  - destruct E as [-> ->]. rewrite (contents_hit c' d dev lba i); [by rewrite Ei|done|done|].
    rewrite Ei. apply key_match_true. done.
  - assert (∀ s, s_dev s = dev → s_lba s = lba → key_match dv lb s = false) as Hk.
    { intros s Hsd Hsb. destruct (key_match dv lb s) eqn:Ek; [|done].
      apply key_match_true in Ek as (_ & ? & ?). exfalso. apply E. split; congruence. }
    apply contents_upd_other; [done|done|by apply Hk|by apply Hk].
Qed.

(** ** The claims *)

(** *** Reading *)

Lemma bcache_read_spec fuel c d dev lba r c' d' :
  bc_inv c d → is_block dev lba → bcache_read fuel c d dev lba true = Some (r, c', d') →
  bc_inv c' d' ∧ same_contents c d c' d' ∧
  match r with
  | Some buf => buf = contents c d dev lba
  | None => find_slot c dev lba = None ∧ ∃ i, 0 <= i < BCACHE_SECS_PER_BLK ∧ bd_read d' dev (lba + i) = None
  end.
Proof.
  intros Hinv Hb. unfold bcache_read.
  rewrite (proj2 (Z.eqb_neq dev 0)) by by apply (bl_dev _ layout dev lba). cbn [negb orb].
  destruct (find_slot c dev lba) as [i|] eqn:Ef.
  { intros [= <- <- <-]. pose proof (find_slot_Some _ _ _ _ Ef) as [Hi Hk].
    destruct (touch_all c i Hi (proj1 Hinv)) as [Hl' Hc].
    destruct (relink_inv c (lru_touch c i) d Hl' Hc Hinv) as [Hinv' Hs].
    split; [by apply stats_inv|]. split; [done|]. unfold contents. by rewrite Ef. }
  pose proof (acquire_spec fuel c d dev lba Hinv) as Hacq.
  destruct (acquire_slot fuel c d dev lba) as [[[r1 c1] d1]|]; [|done].
  destruct Hacq as (i & -> & Hacq & Hs1). pose proof Hacq as (Hi & Hinv1 & Hd & Hbb & Hno & Hnv).
  specialize (Hnv Ef).
  pose proof (disk_read_spec d1 dev lba (s_data (slot c1 i)) (si_data _ _ (proj2 Hinv1) i Hi)
    (bl_fits _ layout _ _ Hb)) as Hrd.
  assert (contents c1 d1 dev lba = disk d1 dev lba) as Hmiss.
  { apply contents_miss. intros j Hj. destruct (Z.eq_dec j i) as [->|]; [|by apply Hno].
    unfold key_match. by rewrite Hnv. }
  destruct (disk_read_block d1 dev lba _) as [part|data].
  - destruct Hrd as [Hlp Hbad]. intros [= <- <- <-].
    set (f := λ s, with_flags false false (with_key 0 (s_lba s) (with_data part s))).
    pose proof (lru_slots c1 (proj1 Hinv1)) as Hlen.
    assert (bc_inv (upd c1 i f) d1) as Hinv2.
    { split; [apply lru_all_upd; [done|done|done|apply Hinv1]|]. apply slots_inv_upd; [done|done|apply Hinv1|done|done]. }
    destruct (demote_all (upd c1 i f) i Hi (proj1 Hinv2)) as [Hl3 Hc3].
    destruct (relink_inv _ _ d1 Hl3 Hc3 Hinv2) as [Hinv3 Hs3]. split; [done|]. split; [|done].
    eapply same_contents_trans; [exact Hs1|]. eapply same_contents_trans; [|exact Hs3].
    intros dv lb Hbl. apply contents_upd_other; [done|done| |done]. unfold key_match. by rewrite Hnv.
  - destruct Hrd as [-> Hlen].
    destruct (fill_spec c c1 d1 dev lba i false _ Hacq Hb Hlen ltac:(done)) as (Hinv2 & Hdata & Hcon).
    intros [= <- <- <-]. split; [by apply stats_inv|]. split.
    + eapply same_contents_trans; [exact Hs1|]. intros dv lb Hbl.
      change (contents (upd c1 i (λ s, with_flags true false (with_data (disk d1 dev lba) s))) d1 dv lb = contents c1 d1 dv lb).
      rewrite Hcon by done. case_bool_decide as E; [|done]. destruct E as [-> ->]. done.
    + etrans; [exact Hdata|]. rewrite <-Hmiss. by apply Hs1.
Qed.

(** The read returns when the block is cached or some slot can be taken. *)
Lemma bcache_read_total fuel c d dev lba :
  bc_inv c d → dev ≠ 0 → find_slot c dev lba ≠ None ∨ (∃ x, slot_ix x ∧ usable c x) → (Z.to_nat BCACHE_SLOTS <= fuel)%nat →
  is_Some (bcache_read fuel c d dev lba true).
Proof.
  intros Hinv Hdev Hx Hf. unfold bcache_read. rewrite (proj2 (Z.eqb_neq dev 0)) by done. cbn [negb orb].
  pose proof (acquire_total fuel c d dev lba Hinv Hx Hf) as Ha.
  destruct (find_slot c dev lba); [by eexists|].
  destruct (acquire_slot fuel c d dev lba) as [[[r c1] d1]|]; [|by destruct Ha].
  destruct r as [i|]; [|by eexists]. destruct (disk_read_block _ _ _ _); by eexists.
Qed.

(** C13: [bcache_read] returns whenever the block is cached, or some slot is
    clean or empty or can be written back ([bcache_miss_diverges] shows that it
    may not return otherwise).  What it returns is the logical contents of the
    block (the cached copy if there is one, the disk otherwise), or -1, and
    that only when the block is not cached and the device refuses to read one of
    its sectors.  No block changes: whatever evictions, write-backs and device
    errors happen on the way, every block reads the same afterwards and the LRU
    list and the cache stay well formed. *)
Theorem bcache_read_correct fuel c d dev lba :
  bc_inv c d → is_block dev lba → find_slot c dev lba ≠ None ∨ (∃ x, slot_ix x ∧ usable c x) →
  (Z.to_nat BCACHE_SLOTS <= fuel)%nat →
  ∃ r c' d', bcache_read fuel c d dev lba true = Some (r, c', d') ∧ bc_inv c' d' ∧ same_contents c d c' d' ∧
  match r with
  | Some buf => buf = contents c d dev lba
  | None => find_slot c dev lba = None ∧ ∃ i, 0 <= i < BCACHE_SECS_PER_BLK ∧ bd_read d' dev (lba + i) = None
  end.
Proof.
  intros Hinv Hb Hx Hf. destruct (bcache_read_total fuel c d dev lba Hinv ltac:(by apply (bl_dev _ layout dev lba)) Hx Hf) as [[[r c'] d'] E].
  exists r, c', d'. split; [done|]. by apply (bcache_read_spec fuel c d dev lba r c' d').
Qed.

Lemma bcache_write_spec fuel c d dev lba buf rc c' d' :
  bc_inv c d → is_block dev lba → length buf = Z.to_nat BCACHE_BLOCK_SIZE →
  bcache_write fuel c d dev lba (Some buf) = Some (rc, c', d') →
  rc = 0 ∧ bc_inv c' d' ∧
  ∀ dv lb, is_block dv lb → contents c' d' dv lb =
    if bool_decide (dv = dev ∧ lb = lba) then buf else contents c d dv lb.
Proof.
  intros Hinv Hb Hlen. unfold bcache_write.
  rewrite (proj2 (Z.eqb_neq dev 0)) by by apply (bl_dev _ layout dev lba).
  pose proof (acquire_spec fuel c d dev lba Hinv) as Hacq.
  destruct (acquire_slot fuel c d dev lba) as [[[r1 c1] d1]|]; [|done].
  destruct Hacq as (i & -> & Hacq & Hs1). intros [= <- <- <-].
  destruct (fill_spec c c1 d1 dev lba i true buf Hacq Hb Hlen ltac:(done)) as (Hinv2 & _ & Hcon).
  split; [done|]. split; [done|]. intros dv lb Hbl. rewrite Hcon by done. case_bool_decide; [done|].
  by apply Hs1.
Qed.

(** When [bcache_write] returns it has succeeded: the block reads as the
    data written, every other block as before, and the cache is well formed. *)
Theorem bcache_write_correct fuel c d dev lba buf rc c' d' :
  bc_inv c d → is_block dev lba → length buf = Z.to_nat BCACHE_BLOCK_SIZE →
  bcache_write fuel c d dev lba (Some buf) = Some (rc, c', d') →
  rc = 0 ∧ bc_inv c' d' ∧
  ∀ dv lb, is_block dv lb → contents c' d' dv lb =
    if bool_decide (dv = dev ∧ lb = lba) then buf else contents c d dv lb.
Proof. exact (bcache_write_spec fuel c d dev lba buf rc c' d'). Qed.

(** *** Sync *)

Definition selected (dev dv : Z) : Prop := dev = 0 ∨ dv = dev.

Lemma sync_step_spec dev i rc c d :
  slot_ix i → bc_inv c d →
  let '(rc', c', d') := sync_step dev i (rc, c, d) in
  bc_inv c' d' ∧ same_contents c d c' d' ∧ same_keys c c' ∧
  (∀ j, slot_ix j → reusable c j → reusable c' j) ∧
  (rc' = rc ∧ (selected dev (s_dev (slot c i)) → reusable c' i) ∨ rc' = -1).
Proof.
  intros Hi Hinv. unfold sync_step.
  destruct (negb (s_valid _) || negb (s_dirty _)) eqn:E.
  { do 4 (split; [done|]). left. split; [done|]. intros _. unfold reusable.
    destruct (s_valid _), (s_dirty _); done. }
  apply not_reusable in E as [Hv Hd].
  destruct (negb (dev =? 0) && negb (s_dev (slot c i) =? dev)) eqn:Es.
  { bprop. do 4 (split; [done|]). left. split; [done|]. intros [?|?]; done. }
  pose proof (writeback_spec c d i Hi Hinv Hv Hd) as Hw.
  destruct (slot_writeback c d i) as [[r c1] d1]. destruct Hw as (Hinv1 & Hs & Hcase).
  do 2 (split; [done|]). destruct Hcase as [(-> & -> & _)|(-> & ->)]; cbn [Z.eqb negb].
  - pose proof (lru_slots c (proj1 Hinv)) as Hlen.
    assert (∀ k, slot_ix k → slot (set_stats (upd c i (λ s, with_flags (s_valid s) false s)) inc_writebacks) k =
      if i =? k then with_flags (s_valid (slot c i)) false (slot c i) else slot c k) as Hg.
    { intros k Hk. exact (upd_get c i (λ s, with_flags (s_valid s) false s) k Hlen Hi (slot_ix_nonneg k Hk)). }
    split; [|split].
    + intros k Hk. rewrite Hg by done. by destruct (Z.eqb_spec i k) as [->|].
    + intros j Hj Hr. unfold reusable. rewrite Hg by done.
      destruct (i =? j); [apply andb_false_r|done].
    + left. split; [done|]. intros _. unfold reusable. rewrite Hg by done. rewrite Z.eqb_refl. apply andb_false_r.
  - split; [done|]. split; [done|]. by right.
Qed.

(** [bcache_sync] changes no block, and when it reports success every block
    of the device (of every device, for the null pointer) is on disk. *)
Theorem bcache_sync_correct c d dev rc c' d' :
  bc_inv c d → bcache_sync c d dev = (rc, c', d') →
  bc_inv c' d' ∧ same_contents c d c' d' ∧
  (rc = 0 → ∀ dv lb, is_block dv lb → selected dev dv → disk d' dv lb = contents c d dv lb).
Proof.
  intros Hinv Hsync. unfold bcache_sync in Hsync.
  pose proof (for_loop_inv (λ k st, let '(r, c1, d1) := st in
      bc_inv c1 d1 ∧ same_contents c d c1 d1 ∧ same_keys c c1 ∧
      (r = 0 → ∀ i, 0 <= i < k → selected dev (s_dev (slot c1 i)) → reusable c1 i))
    (sync_step dev) 0 (Z.to_nat BCACHE_SLOTS) (0, c, d)) as Hloop.
  lapply Hloop; clear Hloop; [intros Hloop; lapply Hloop; clear Hloop; [intros Hloop|]|].
  - rewrite Hsync in Hloop. destruct Hloop as (Hinv' & Hs & Hk & Hr).
    split; [done|]. split; [done|]. intros Hrc dv lb Hb Hsel. rewrite <-Hs by done. unfold contents.
    destruct (find_slot c' dv lb) as [i|] eqn:Ef; [|done].
    apply find_slot_Some in Ef as [Hi Hm]. apply key_match_true in Hm as (Hv & <- & <-).
    symmetry. apply (si_clean _ _ (proj2 Hinv')); [done|done|].
    specialize (Hr Hrc i Hi Hsel). unfold reusable in Hr. by rewrite Hv in Hr.
  - split; [done|]. split; [done|]. split; [done|]. intros _ i Hi. lia.
  - intros k [[r c1] d1] Hk (Hinv1 & Hs1 & Hk1 & Hr1).
    assert (slot_ix k) as Hkx by (unfold slot_ix, BCACHE_SLOTS in *; lia).
    pose proof (sync_step_spec dev k r c1 d1 Hkx Hinv1) as Hst.
    destruct (sync_step dev k (r, c1, d1)) as [[r2 c2] d2]. destruct Hst as (Hinv2 & Hs2 & Hk2 & Hre & Hcase).
    split; [done|]. split; [by eapply same_contents_trans|]. split; [by eapply same_keys_trans|].
    intros -> i Hi. assert (slot_ix i) as Hix by (unfold slot_ix, BCACHE_SLOTS in *; lia).
    destruct (Hk2 i Hix) as (_ & -> & _). destruct Hcase as [[<- Hki]|?]; [|done].
    destruct (Z.eq_dec i k) as [->|]; [done|]. intros Hsel. apply Hre; [done|]. apply Hr1; [done|lia|done].
Qed.

(** *** Write-through *)

Lemma upd_upd c i f g :
  length (g_slots c) = Z.to_nat BCACHE_SLOTS → slot_ix i → upd (upd c i f) i g = upd c i (λ s, g (f s)).
Proof.
  intros Hl Hi. unfold upd at 1 3. rewrite upd_get, Z.eqb_refl by (done || by apply slot_ix_nonneg).
  cbn. f_equal. unfold arr_set. apply list_insert_insert_eq.
Qed.

(** The disk changes under a block that is not cached. *)
Lemma disk_change_uncached c d d' dev lba :
  slots_inv c d → is_block dev lba → nobody c dev lba →
  (∀ dv lb, apart dev lba dv lb → disk d' dv lb = disk d dv lb) →
  slots_inv c d' ∧
  ∀ dv lb, is_block dv lb → contents c d' dv lb =
    if bool_decide (dv = dev ∧ lb = lba) then disk d' dev lba else contents c d dv lb.
Proof.
  intros [H1 H2 H3 H4] Hb Hno Hfr.
  assert (∀ dv lb, is_block dv lb → ¬ (dv = dev ∧ lb = lba) → disk d' dv lb = disk d dv lb) as Hfr'.
  { intros dv lb Hbl Hne. apply Hfr. destruct (Z.eq_dec dev dv) as [<-|]; [|by left].
    apply (bl_apart _ layout); [done|done|]. intros ->. by apply Hne. }
  split.
  - split; try done. intros i Hi Hv Hd. rewrite (H4 i Hi Hv Hd). symmetry. apply Hfr'; [by apply H2|].
    intros [E1 E2]. pose proof (Hno i Hi) as Hn. rewrite (proj2 (key_match_true _ _ _)) in Hn; done.
  - intros dv lb Hbl. case_bool_decide as E.
    + destruct E as [-> ->]. by apply contents_miss.
    + unfold contents. destruct (find_slot c dv lb); [done|]. by apply Hfr'.
Qed.

(** A successful [bcache_write_through] puts the data on disk at once and
    makes the block read as the data, cached copy included; no other block
    changes. *)
Theorem bcache_write_through_correct c d dev lba buf c' d' :
  bc_inv c d → is_block dev lba → length buf = Z.to_nat BCACHE_BLOCK_SIZE →
  bcache_write_through c d dev lba (Some buf) = (0, c', d') →
  bc_inv c' d' ∧ disk d' dev lba = buf ∧
  ∀ dv lb, is_block dv lb → contents c' d' dv lb =
    if bool_decide (dv = dev ∧ lb = lba) then buf else contents c d dv lb.
Proof.
  intros Hinv Hb Hlen. pose proof Hinv as [Hla Hsi]. unfold bcache_write_through.
  rewrite (proj2 (Z.eqb_neq dev 0)) by by apply (bl_dev _ layout dev lba).
  pose proof (disk_write_spec d dev lba buf Hlen (bl_fits _ layout _ _ Hb)) as Hw.
  destruct (disk_write_block d dev lba buf) as [rc d1]. destruct Hw as (Hrc & Hok & Hfr).
  destruct Hrc as [->| ->]; cbn [Z.eqb negb]; [|done]. specialize (Hok eq_refl).
  change (find_slot (set_stats c inc_write_through) dev lba) with (find_slot c dev lba).
  destruct (find_slot c dev lba) as [i|] eqn:Ef.
  - pose proof (find_slot_Some _ _ _ _ Ef) as [Hi Hk]. apply key_match_true in Hk as (Hv & Ed & El).
    set (c0 := set_stats c inc_write_through).
    set (f := λ s, with_flags (s_valid s) true (with_data buf s)).
    set (g := λ s, with_flags (s_valid s) false (with_data buf s)).
    assert (bc_inv c0 d) as [Hla0 Hsi0] by by apply stats_inv. pose proof (lru_slots c0 Hla0) as Hl0.
    assert (acquired c c0 d dev lba i) as Hacq.
    { do 4 (split; [done|]). split; [|congruence]. intros j Hj Hji. rewrite <-Ed, <-El.
      by apply (no_other c d). }
    destruct (fill_spec c c0 d dev lba i true buf Hacq Hb Hlen ltac:(done)) as ([Hla1 Hsi1] & _ & Hcon1).
    assert (upd c0 i (λ s, with_flags true true (with_data buf s)) = upd c0 i f) as Ef1.
    { unfold upd, f. by change (g_slots c0) with (g_slots c); rewrite Hv. }
    rewrite Ef1 in Hla1, Hsi1, Hcon1.
    assert (slot (upd c0 i f) i = f (slot c i)) as Ei.
    { rewrite upd_get by (done || by apply slot_ix_nonneg). by rewrite Z.eqb_refl. }
    destruct (slots_inv_disk (upd c0 i f) d d1 i) as [Hsi2 Hs2]; rewrite ?Ei; try done.
    { cbn. by rewrite Ed, El. }
    assert (acquired c (upd c0 i f) d1 dev lba i) as Hacq2.
    { split; [done|]. split; [done|]. rewrite Ei. do 2 (split; [done|]). split; [|congruence].
      intros j Hj Hji. rewrite upd_get by (done || by apply slot_ix_nonneg).
      destruct (Z.eqb_spec i j); [congruence|]. by apply Hacq. }
    destruct (fill_spec c (upd c0 i f) d1 dev lba i false buf Hacq2 Hb Hlen ltac:(done)) as (Hinv3 & _ & Hcon3).
    assert (upd (upd c0 i f) i (λ s, with_flags true false (with_data buf s)) = upd c0 i g) as Eg.
    { rewrite upd_upd by done. unfold upd, g, f. cbn [with_flags with_data s_valid].
      change (g_slots c0) with (g_slots c). by rewrite Hv. }
    rewrite Eg in Hinv3, Hcon3.
    destruct (touch_all (upd c0 i g) i Hi (proj1 Hinv3)) as [Hl4 Hc4].
    destruct (relink_inv _ _ d1 Hl4 Hc4 Hinv3) as [Hinv4 Hs4].
    intros [= <- <-]. split; [done|]. split; [done|]. intros dv lb Hbl.
    rewrite Hs4, Hcon3 by done. case_bool_decide; [done|]. rewrite Hs2, Hcon1 by done.
    by rewrite bool_decide_false.
  - intros [= <- <-].
    destruct (disk_change_uncached c d d1 dev lba Hsi Hb (find_slot_None _ _ _ Ef) Hfr) as [Hsi1 Hcon].
    split; [by apply stats_inv|]. split; [done|]. intros dv lb Hbl. rewrite <-Hok. by apply Hcon.
Qed.

(** *** Invalidation and initialisation *)

(** [bcache_invalidate] forgets the cached copy of one block, which then
    reads as the disk; other blocks are unaffected. *)
Theorem bcache_invalidate_correct c d dev lba :
  bc_inv c d → is_block dev lba →
  bc_inv (bcache_invalidate c dev lba) d ∧
  ∀ dv lb, is_block dv lb → contents (bcache_invalidate c dev lba) d dv lb =
    if bool_decide (dv = dev ∧ lb = lba) then disk d dev lba else contents c d dv lb.
Proof.
  intros Hinv Hb. pose proof Hinv as [Hla Hsi]. unfold bcache_invalidate.
  destruct (find_slot c dev lba) as [i|] eqn:Ef.
  - pose proof (find_slot_Some _ _ _ _ Ef) as [Hi Hk]. apply key_match_true in Hk as (Hv & Ed & El).
    set (f := λ s, with_key 0 (s_lba s) (with_flags false false s)). pose proof (lru_slots c Hla) as Hl.
    assert (bc_inv (upd c i f) d) as Hinv1.
    { split; [by apply lru_all_upd|]. apply slots_inv_upd; [done|done|done|by apply (si_data _ _ Hsi)|done]. }
    destruct (demote_all (upd c i f) i Hi (proj1 Hinv1)) as [Hl2 Hc2].
    destruct (relink_inv _ _ d Hl2 Hc2 Hinv1) as [Hinv2 Hs2]. split; [done|]. intros dv lb Hbl.
    rewrite Hs2 by done. case_bool_decide as E.
    + destruct E as [-> ->]. apply contents_miss. intros j Hj.
      rewrite upd_get by (done || by apply slot_ix_nonneg). destruct (Z.eqb_spec i j) as [->|]; [done|].
      rewrite <-Ed, <-El. apply (no_other c d); auto.
    + apply contents_upd_other; [done|done| |done]. destruct (key_match dv lb (slot c i)) eqn:Ek; [|done].
      apply key_match_true in Ek as (_ & ? & ?). exfalso. apply E. split; congruence.
  - split; [done|]. intros dv lb Hbl. case_bool_decide as E; [|done]. destruct E as [-> ->].
    unfold contents. by rewrite Ef.
Qed.

Lemma init_lru c :
  length (g_slots c) = Z.to_nat BCACHE_SLOTS →
  (∀ i, slot_ix i → length (s_data (slot c i)) = Z.to_nat BCACHE_BLOCK_SIZE) →
  lru (bcache_init c) (reverse (seqZ 0 BCACHE_SLOTS)) ∧
  ∀ i, slot_ix i → s_valid (slot (bcache_init c) i) = false ∧
    length (s_data (slot (bcache_init c) i)) = Z.to_nat BCACHE_BLOCK_SIZE.
Proof.
  intros Hl Hd. unfold bcache_init.
  set (step := λ i c, lru_push_front (upd c i (λ s, mk_slot 0 0 false false None None (s_data s))) i).
  pose proof (for_loop_inv
    (λ k c1, lru c1 (reverse (seqZ 0 k)) ∧
       (∀ i, slot_ix i → length (s_data (slot c1 i)) = Z.to_nat BCACHE_BLOCK_SIZE) ∧
       ∀ i, 0 <= i < k → s_valid (slot c1 i) = false)
    step 0 (Z.to_nat BCACHE_SLOTS) (mk_bc (g_slots c) None None (mk_stats 0 0 0 0 0))) as Hloop.
  lapply Hloop; clear Hloop; [intros Hloop; lapply Hloop; clear Hloop; [intros Hloop|]|].
  - destruct Hloop as (Hlru & Hdata & Hval). split; [exact Hlru|]. intros i Hi. split; [|by apply Hdata].
    apply Hval. unfold slot_ix, BCACHE_SLOTS in *. lia.
  - split; [split; by try apply NoDup_nil_2|]. split; [done|]. intros; lia.
  - intros k c1 Hk (Hlru & Hdata & Hval).
    assert (slot_ix k) as Hkx by (unfold slot_ix, BCACHE_SLOTS in *; lia).
    unfold step. set (f := λ s, mk_slot 0 0 false false None None (s_data s)).
    assert (k ∉ reverse (seqZ 0 k)) as Hnk by (rewrite elem_of_reverse, elem_of_seqZ; lia).
    assert (lru (upd c1 k f) (reverse (seqZ 0 k))) as Hlru1.
    { destruct Hlru as [L Hh Ht Hs Hn Hx]. split; try done; [by rewrite upd_len|].
      eapply seg_ext; [|exact Hs]. intros j Hj. rewrite Forall_forall in Hx.
      unfold prev_of, next_of. rewrite upd_get by (done || by apply slot_ix_nonneg, Hx).
      destruct (Z.eqb_spec k j) as [->|]; done. }
    destruct (push_front_ok _ _ k Hlru1 Hkx Hnk) as (Hlru2 & Hc & _).
    assert (∀ i, slot_ix i → slot (upd c1 k f) i = if k =? i then f (slot c1 k) else slot c1 i) as Hg.
    { intros i Hi. rewrite upd_get by (apply Hlru || done || by apply slot_ix_nonneg). done. }
    split; [|split].
    + rewrite seqZ_app by lia. rewrite reverse_app. change (seqZ (0 + k) 1) with [0 + (0 + k)].
      by replace (0 + (0 + k)) with k by lia.
    + intros i Hi. destruct (core_fields _ _ (Hc i Hi)) as (_ & _ & _ & _ & ->). rewrite Hg by done.
      destruct (Z.eqb_spec k i) as [->|]; by apply Hdata.
    + intros i Hi. assert (slot_ix i) as Hix by (unfold slot_ix in *; lia).
      destruct (core_fields _ _ (Hc i Hix)) as (_ & _ & -> & _). rewrite Hg by done.
      destruct (Z.eqb_spec k i) as [->|]; [done|]. apply Hval. lia.
Qed.

(** [bcache_init] gives an empty cache: every block reads as the disk. *)
Lemma bcache_init_inv c d :
  length (g_slots c) = Z.to_nat BCACHE_SLOTS →
  (∀ i, slot_ix i → length (s_data (slot c i)) = Z.to_nat BCACHE_BLOCK_SIZE) →
  bc_inv (bcache_init c) d ∧ ∀ dev lba, contents (bcache_init c) d dev lba = disk d dev lba.
Proof.
  intros Hl Hd. destruct (init_lru c Hl Hd) as [Hlru Hs]. split.
  - split; [exists (reverse (seqZ 0 BCACHE_SLOTS)); split; [done|apply reverse_Permutation]|].
    assert (∀ i, slot_ix i → s_valid (slot (bcache_init c) i) ≠ true) as Hn.
    { intros i Hi. by rewrite (proj1 (Hs i Hi)). }
    split; [intros i Hi; by apply Hs|..].
    + intros i Hi Hv. by destruct (Hn i Hi).
    + intros i j Hi _ Hv. by destruct (Hn i Hi).
    + intros i Hi Hv. by destruct (Hn i Hi).
  - intros dev lba. apply contents_miss. intros i Hi. unfold key_match. by rewrite (proj1 (Hs i Hi)).
Qed.

(** *** Termination *)


(** The walk has no other exit.  When every slot is dirty and its device
    cannot be written, a miss never returns: the slots a failed write-back moves
    to the head come round again, and the [return 0] for "no victim" is never
    reached. *)
Theorem bcache_miss_diverges c d dev lba :
  lru_all c → stuck c d → find_slot c dev lba = None → dev ≠ 0 →
  ∀ fuel buf, bcache_read fuel c d dev lba true = None ∧ bcache_write fuel c d dev lba (Some buf) = None.
Proof.
  intros Hla Hs Hf Hdev fuel buf. destruct (tail_full c Hla) as (l & i & Hl & Hp & Ht).
  assert (acquire_slot fuel c d dev lba = None) as Ha.
  { unfold acquire_slot. by rewrite Hf, Ht, (victim_diverges fuel c d l i). }
  unfold bcache_read, bcache_write. rewrite (proj2 (Z.eqb_neq dev 0) Hdev). cbn [negb orb].
  by rewrite Hf, Ha.
Qed.
End cache.

(** ** Concrete instances

    Devices over a map from (device, sector) to bytes; device 2 has no
    [write_sector]. *)

Notation demo_dev := (gmap (Z * Z) (list Z)).

Definition demo_media (d : demo_dev) (dev lba : Z) : list Z :=
  match d !! (dev, lba) with
  | Some s => if bool_decide (length s = Z.to_nat BLKDEV_SECTOR_SIZE) then s
              else replicate (Z.to_nat BLKDEV_SECTOR_SIZE) 0
  | None => replicate (Z.to_nat BLKDEV_SECTOR_SIZE) 0
  end.

#[export] Instance demo_device : BlockDevice demo_dev := {
  bd_read d dev lba := Some (demo_media d dev lba);
  bd_can_write d dev := negb (dev =? 2);
  bd_write d dev lba s := (true, <[(dev, lba) := s]> d);
}.

#[export] Instance demo_device_laws : BlockDeviceLaws demo_dev demo_media.
Proof.
  split; cbn.
  - intros d dev lba. unfold demo_media. repeat case_match; try done. by case_bool_decide.
  - by intros d dev lba s [= <-].
  - intros d dev lba s d' [= <-] Hs. unfold demo_media. rewrite lookup_insert_eq.
    by rewrite bool_decide_true.
  - intros d dev lba s dev' lba' Hne. unfold demo_media. rewrite lookup_insert_ne; [done|].
    intros [= -> ->]. lia.
Qed.

(** Blocks at multiples of eight sectors, as ext3 uses them. *)
Definition aligned_block (dev lba : Z) : Prop := dev ≠ 0 ∧ lba mod 8 = 0 ∧ 0 <= lba < 2 ^ 31.

Ltac aligned := unfold aligned_block; split; [lia|split; [reflexivity|lia]].

Lemma aligned_layout : block_layout aligned_block.
Proof.
  split; unfold aligned_block, fits, apart, BCACHE_SECS_PER_BLK.
  - tauto.
  - intros. zsolve.
  - intros dev a b Ha Hb Hab. right. zsolve.
Qed.

Definition demo_cache : bcache := bcache_init bcache_zero.

Lemma demo_cache_inv (d : demo_dev) :
  bc_inv (bd_media := demo_media) (is_block := aligned_block) demo_cache d.
Proof.
  apply (bcache_init_inv (bd_media := demo_media) bcache_zero d); [done|].
  intros i Hi. unfold bcache_zero. cbn [g_slots]. by rewrite arr_get_replicate.
Qed.

Definition demo_block : list Z := replicate (Z.to_nat BCACHE_BLOCK_SIZE) 0x5A.

Lemma demo_usable : ∃ x, slot_ix x ∧ usable (D := demo_dev) demo_cache x.
Proof. exists 0. split; [unfold slot_ix, BCACHE_SLOTS; lia|by left]. Qed.

Lemma bcache_read_correct_witness :
  ∃ r c' d', bcache_read 64 demo_cache (∅ : demo_dev) 1 8 true = Some (r, c', d') ∧
    bc_inv (bd_media := demo_media) (is_block := aligned_block) c' d'.
Proof.
  destruct (bcache_read_correct aligned_layout (BL := demo_device_laws) 64 demo_cache ∅ 1 8 (demo_cache_inv ∅)
    ltac:(aligned) (or_intror demo_usable) ltac:(reflexivity)) as (r & c' & d' & E & Hinv & _).
  exists r, c', d'. split; [exact E|exact Hinv].
Defined.

Lemma bcache_write_correct_witness :
  ∃ rc c' d', bcache_write 64 demo_cache (∅ : demo_dev) 1 8 (Some demo_block) = Some (rc, c', d') ∧
    contents (bd_media := demo_media) c' d' 1 8 = demo_block.
Proof.
  assert (match bcache_write 64 demo_cache (∅ : demo_dev) 1 8 (Some demo_block) with
          | Some _ => true | _ => false end = true) as Hret by by vm_compute.
  destruct (bcache_write 64 demo_cache (∅ : demo_dev) 1 8 (Some demo_block)) as [[[rc c'] d']|] eqn:E.
  - exists rc, c', d'. split; [done|].
    destruct (bcache_write_correct aligned_layout (BL := demo_device_laws) 64 demo_cache ∅ 1 8 demo_block rc c' d'
      (demo_cache_inv ∅) ltac:(aligned) eq_refl E) as (_ & _ & Hc).
    rewrite Hc by (aligned). reflexivity.
  - discriminate Hret.
Defined.

Lemma bcache_sync_correct_witness :
  ∃ c' d', bcache_sync demo_cache (∅ : demo_dev) 1 = (0, c', d') ∧
    bc_inv (bd_media := demo_media) (is_block := aligned_block) c' d'.
Proof.
  destruct (bcache_sync demo_cache (∅ : demo_dev) 1) as [[rc c'] d'] eqn:E.
  exists c', d'. split.
  - assert ((bcache_sync demo_cache (∅ : demo_dev) 1).1.1 = 0) as Hrc by by vm_compute.
    rewrite E in Hrc. cbn in Hrc. by rewrite Hrc.
  - apply (bcache_sync_correct aligned_layout (BL := demo_device_laws) demo_cache ∅ 1 rc c' d' (demo_cache_inv ∅) E).
Defined.

Lemma bcache_write_through_correct_witness :
  ∃ c' d', bcache_write_through demo_cache (∅ : demo_dev) 1 8 (Some demo_block) = (0, c', d') ∧
    disk_block (bd_media := demo_media) d' 1 8 = demo_block.
Proof.
  destruct (bcache_write_through demo_cache (∅ : demo_dev) 1 8 (Some demo_block)) as [[rc c'] d'] eqn:E.
  assert ((bcache_write_through demo_cache (∅ : demo_dev) 1 8 (Some demo_block)).1.1 = 0) as Hrc by by vm_compute.
  rewrite E in Hrc. cbn in Hrc. subst rc. exists c', d'. split; [done|].
  apply (bcache_write_through_correct aligned_layout (BL := demo_device_laws) demo_cache ∅ 1 8 demo_block c' d'
    (demo_cache_inv ∅)); [aligned|reflexivity|exact E].
Defined.

Lemma bcache_invalidate_correct_witness :
  contents (bd_media := demo_media) (bcache_invalidate demo_cache 1 8) ∅ 1 8 =
  disk_block (bd_media := demo_media) ∅ 1 8.
Proof.
  destruct (bcache_invalidate_correct demo_cache (∅ : demo_dev) 1 8
    (demo_cache_inv ∅)) as [_ Hc]; [aligned|].
  rewrite Hc by (aligned). reflexivity.
Defined.


(** 64 writes to the device that cannot be written. *)
Definition fill_step (k : Z) (st : bcache * demo_dev) : bcache * demo_dev :=
  match bcache_write 64 st.1 st.2 2 (8 * k) (Some demo_block) with
  | Some (_, c, d) => (c, d)
  | None => st
  end.
Definition demo_full : bcache * demo_dev := for_loop 0 64 fill_step (demo_cache, ∅).

Lemma demo_full_inv : bc_inv (bd_media := demo_media) (is_block := aligned_block) demo_full.1 demo_full.2.
Proof.
  apply (for_loop_inv (λ _ st, bc_inv (bd_media := demo_media) (is_block := aligned_block) st.1 st.2)
    fill_step 0 64); [|apply demo_cache_inv].
  intros k [c d] Hk Hinv. unfold fill_step. cbn [fst snd] in *.
  destruct (bcache_write 64 c d 2 (8 * k) (Some demo_block)) as [[[rc c'] d']|] eqn:E; [|done].
  apply (bcache_write_spec aligned_layout (BL := demo_device_laws) _ _ _ _ _ _ _ _ _ Hinv) in E; [tauto| |done].
  unfold aligned_block. zsolve.
Qed.

Lemma demo_full_stuck : stuck demo_full.1 demo_full.2.
Proof.
  assert (forallb (λ i, s_valid (g_slots demo_full.1).[i] && s_dirty (g_slots demo_full.1).[i] &&
    negb (bd_can_write demo_full.2 (s_dev (g_slots demo_full.1).[i]))) (seqZ 0 64) = true) as Hb by by vm_compute.
  rewrite forallb_forall in Hb. intros i Hi. specialize (Hb i).
  rewrite <-list_elem_of_In, elem_of_seqZ in Hb. specialize (Hb ltac:(unfold slot_ix, BCACHE_SLOTS in *; lia)).
  apply andb_prop in Hb as [[Hv Hd]%andb_prop Hw%negb_true_iff]. exact (conj Hv (conj Hd Hw)).
Qed.

Lemma bcache_miss_diverges_witness :
  stuck demo_full.1 demo_full.2 ∧
  bcache_write 1000 demo_full.1 demo_full.2 2 512 (Some demo_block) = None.
Proof.
  split; [exact demo_full_stuck|]. apply (bcache_miss_diverges demo_full.1 demo_full.2 2 512 (proj1 demo_full_inv) demo_full_stuck);
    [vm_compute; reflexivity|lia].
Defined.
