(* ===== verification/Kprintf.v ===== *)
(** * Formatted output (kernel/lib/kprintf.c)

    The bounded output buffer, the integer and string conversions and the format
    interpreter.  Characters are their codes; a format or a string argument is
    the list of its characters, its NUL left implicit.  The variable arguments
    are a list of tagged values; taking an argument that is missing or of another
    type, or stepping over the terminator of the format, is [None] (the C code
    has no defined behaviour there). *)

From S2P Require Import Prelude.

(** ** Output buffer *)

Record outbuf := mk_ob {
  ob_buf : list Z;
  ob_size : Z;
  ob_pos : Z;
}.

Definition ob_putc (ob : outbuf) (c : Z) : outbuf :=
  mk_ob (if (ob_pos ob +u 1) <? ob_size ob then (ob_buf ob).[ob_pos ob <- c] else ob_buf ob)
    (ob_size ob) (ob_pos ob +u 1).

Definition ob_pad (ob : outbuf) (padch count : Z) : outbuf :=
  for_loop 0 (Z.to_nat count) (λ _ ob, ob_putc ob padch) ob.

(** ** Integers *)

Definition F_LEFT : Z := 1.
Definition F_ZERO : Z := 2.
Definition F_PLUS : Z := 4.
Definition F_SPACE : Z := 8.
Definition has_flag (flags f : Z) : bool := negb (flags &u f =? 0).

Definition lo_digits : list Z := [48; 49; 50; 51; 52; 53; 54; 55; 56; 57; 97; 98; 99; 100; 101; 102].
Definition hi_digits : list Z := [48; 49; 50; 51; 52; 53; 54; 55; 56; 57; 65; 66; 67; 68; 69; 70].

(** [while (v) { tmp[len++] = digits[v % base]; v /= base; }], least digit first.
    A 32-bit value has at most 32 digits. *)
Fixpoint digit_loop (fuel : nat) (digits : list Z) (base v : Z) : list Z :=
  match fuel with
  | O => []
  | S fuel => if v =? 0 then [] else digits.[v mod base] :: digit_loop fuel digits base (v / base)
  end.

Definition fmt_digits (val base : Z) (upper : bool) : list Z :=
  if val =? 0 then [48] else digit_loop 32 (if upper then hi_digits else lo_digits) base val.

(** [for (i = len - 1; i >= 0; i--) ob_putc(ob, tmp[i]);] *)
Definition put_reversed (ob : outbuf) (tmp : list Z) : outbuf := foldl ob_putc ob (reverse tmp).

Definition put_sign (ob : outbuf) (sign : Z) : outbuf := if sign =? 0 then ob else ob_putc ob sign.

Definition fmt_uint (ob : outbuf) (val base : Z) (upper : bool) (flags width sign : Z) : outbuf :=
  let tmp := fmt_digits val base upper in
  let len := Z.of_nat (length tmp) in
  let content := len + (if sign =? 0 then 0 else 1) in
  let pad := width - content in
  if has_flag flags F_LEFT then
    ob_pad (put_reversed (put_sign ob sign) tmp) 32 pad
  else if has_flag flags F_ZERO then
    put_reversed (ob_pad (put_sign ob sign) 48 pad) tmp
  else
    put_reversed (put_sign (ob_pad ob 32 pad) sign) tmp.

(** [for (shift = bits - 4; shift >= 0; shift -= 4)]: [bits] is 32 on i386, 64 on
    AArch64. *)
Definition fmt_uintptr_hex (bits : Z) (ob : outbuf) (val : Z) : outbuf :=
  for_loop 0 (Z.to_nat (bits / 4))
    (λ k ob, ob_putc ob lo_digits.[Z.land (Z.shiftr val (bits - 4 - 4 * k)) 0xF]) ob.

(** [val] is the signed value of an [int32_t]. *)
Definition fmt_int (ob : outbuf) (val flags width : Z) : outbuf :=
  let '(sign, uval) :=
    if val <? 0 then (45, u32 (- u32 val))
    else ((if has_flag flags F_PLUS then 43 else if has_flag flags F_SPACE then 32 else 0), u32 val) in
  fmt_uint ob uval 10 false flags (if sign =? 0 then width else width - 1) sign.

(** ** Strings *)

Definition null_text : list Z := [40; 110; 117; 108; 108; 41].

Definition fmt_str (ob : outbuf) (s : option (list Z)) (flags width : Z) : outbuf :=
  let s := match s with Some s => s | None => null_text end in
  let pad := width - Z.of_nat (length s) in
  if has_flag flags F_LEFT then ob_pad (foldl ob_putc ob s) 32 pad
  else foldl ob_putc (ob_pad ob 32 pad) s.

(** ** The interpreter *)

Inductive varg :=
  | VInt (v : Z)               (* an [int] or [unsigned int], by its 32 bits *)
  | VStr (s : option (list Z)) (* a [const char *], [None] is the null pointer *)
  | VPtr (v : Z).              (* a [void *] *)

Fixpoint parse_flags (fmt : list Z) (flags : Z) : Z * list Z :=
  match fmt with
  | [] => (flags, [])
  | c :: rest =>
      if c =? 45 then parse_flags rest (flags |u F_LEFT)
      else if c =? 48 then parse_flags rest (flags |u F_ZERO)
      else if c =? 43 then parse_flags rest (flags |u F_PLUS)
      else if c =? 32 then parse_flags rest (flags |u F_SPACE)
      else (flags, fmt)
  end.

Fixpoint parse_number (fmt : list Z) (width : Z) : Z * list Z :=
  match fmt with
  | c :: rest => if (48 <=? c) && (c <=? 57) then parse_number rest (s32 (width * 10 + (c - 48)))
                 else (width, fmt)
  | [] => (width, fmt)
  end.

Definition parse_width (fmt : list Z) (flags : Z) (ap : list varg) : option (Z * Z * list Z * list varg) :=
  match fmt with
  | 42 :: rest =>
      match ap with
      | VInt w :: ap =>
          let width := s32 w in
          if width <? 0 then Some (s32 (- width), flags |u F_LEFT, rest, ap)
          else Some (width, flags, rest, ap)
      | _ => None
      end
  | _ => let '(width, rest) := parse_number fmt 0 in Some (width, flags, rest, ap)
  end.

Definition fmt_char (ob : outbuf) (ch flags width : Z) : outbuf :=
  let pad := width - 1 in
  if has_flag flags F_LEFT then ob_pad (ob_putc ob ch) 32 pad
  else ob_putc (ob_pad ob 32 pad) ch.

(** The [switch] on the conversion character. *)
Definition convert (bits : Z) (ob : outbuf) (conv flags width : Z) (ap : list varg)
    : option (outbuf * list varg) :=
  if (conv =? 100) || (conv =? 105) then
    match ap with VInt v :: ap => Some (fmt_int ob (s32 v) flags width, ap) | _ => None end
  else if conv =? 117 then
    match ap with VInt v :: ap => Some (fmt_uint ob (u32 v) 10 false flags width 0, ap) | _ => None end
  else if conv =? 120 then
    match ap with VInt v :: ap => Some (fmt_uint ob (u32 v) 16 false flags width 0, ap) | _ => None end
  else if conv =? 88 then
    match ap with VInt v :: ap => Some (fmt_uint ob (u32 v) 16 true flags width 0, ap) | _ => None end
  else if conv =? 112 then
    match ap with
    | VPtr v :: ap => Some (fmt_uintptr_hex bits (ob_putc (ob_putc ob 48) 120) v, ap)
    | _ => None
    end
  else if conv =? 115 then
    match ap with VStr s :: ap => Some (fmt_str ob s flags width, ap) | _ => None end
  else if conv =? 99 then
    match ap with VInt v :: ap => Some (fmt_char ob (u8 v) flags width, ap) | _ => None end
  else if conv =? 37 then Some (ob_putc ob 37, ap)
  else Some (ob_putc ob 63, ap).

(** Every round consumes a character, so [length fmt] rounds are enough. *)
Fixpoint vsn_loop (bits : Z) (fuel : nat) (ob : outbuf) (fmt : list Z) (ap : list varg) : option outbuf :=
  match fmt with
  | [] => Some ob
  | c :: fmt =>
      match fuel with
      | O => None
      | S fuel =>
          if negb (c =? 37) then vsn_loop bits fuel (ob_putc ob c) fmt ap
          else
            let '(flags, fmt) := parse_flags fmt 0 in
            match parse_width fmt flags ap with
            | None => None
            | Some (width, flags, fmt, ap) =>
                let fmt := match fmt with 108 :: fmt => fmt | _ => fmt end in
                match fmt with
                | [] => None
                | conv :: fmt =>
                    match convert bits ob conv flags width ap with
                    | None => None
                    | Some (ob, ap) => vsn_loop bits fuel ob fmt ap
                    end
                end
            end
      end
  end.

(** The final buffer and the return value. *)
Definition k_vsnprintf (bits : Z) (buf : list Z) (size : Z) (fmt : list Z) (ap : list varg)
    : option (list Z * Z) :=
  match vsn_loop bits (length fmt) (mk_ob buf size 0) fmt ap with
  | None => None
  | Some ob =>
      let buf := if 0 <? size
                 then (ob_buf ob).[(if ob_pos ob <? size then ob_pos ob else size - 1) <- 0]
                 else ob_buf ob in
      Some (buf, s32 (ob_pos ob))
  end.

Definition k_snprintf (bits : Z) (buf : list Z) (size : Z) (fmt : list Z) (ap : list varg) :=
  k_vsnprintf bits buf size fmt ap.

(** ** The text of a conversion

    What a conversion prints, without the buffer. *)

Definition pad_text (ch count : Z) : list Z := replicate (Z.to_nat count) ch.
Definition sign_text (sign : Z) : list Z := if sign =? 0 then [] else [sign].

Definition uint_text (val base : Z) (upper : bool) (flags width sign : Z) : list Z :=
  let ds := reverse (fmt_digits val base upper) in
  let pad := width - (Z.of_nat (length ds) + (if sign =? 0 then 0 else 1)) in
  if has_flag flags F_LEFT then sign_text sign ++ ds ++ pad_text 32 pad
  else if has_flag flags F_ZERO then sign_text sign ++ pad_text 48 pad ++ ds
  else pad_text 32 pad ++ sign_text sign ++ ds.

Definition emits (f : outbuf → outbuf) (text : list Z) : Prop := ∀ ob, f ob = foldl ob_putc ob text.

Lemma pad_emits ch count : emits (λ ob, ob_pad ob ch count) (pad_text ch count).
Proof.
  intros ob. unfold ob_pad, pad_text. generalize 0 as i. revert ob.
  induction (Z.to_nat count) as [|n IH]; intros ob i; simpl; [done|]. apply IH.
Qed.

Lemma emits_app f g t u : emits f t → emits g u → emits (λ ob, g (f ob)) (t ++ u).
Proof. intros Hf Hg ob. by rewrite Hf, Hg, foldl_app. Qed.

Lemma sign_emits sign : emits (λ ob, put_sign ob sign) (sign_text sign).
Proof. intros ob. unfold put_sign, sign_text. by destruct (sign =? 0). Qed.

Lemma fmt_uint_emits val base upper flags width sign :
  emits (λ ob, fmt_uint ob val base upper flags width sign) (uint_text val base upper flags width sign).
Proof.
  intros ob. unfold fmt_uint, uint_text, put_reversed. rewrite length_reverse.
  destruct (has_flag flags F_LEFT); [|destruct (has_flag flags F_ZERO)];
    rewrite !foldl_app, <-?sign_emits, <-?pad_emits; try done.
Qed.

Definition int_sign (val flags : Z) : Z :=
  if val <? 0 then 45
  else if has_flag flags F_PLUS then 43 else if has_flag flags F_SPACE then 32 else 0.
Definition int_magnitude (val : Z) : Z := if val <? 0 then u32 (- u32 val) else u32 val.
Definition int_text (val flags width : Z) : list Z :=
  let sign := int_sign val flags in
  uint_text (int_magnitude val) 10 false flags (if sign =? 0 then width else width - 1) sign.

Lemma fmt_int_emits val flags width : emits (λ ob, fmt_int ob val flags width) (int_text val flags width).
Proof.
  intros ob. unfold fmt_int, int_text, int_sign, int_magnitude. destruct (val <? 0); apply fmt_uint_emits.
Qed.

Definition hex_text (bits val : Z) : list Z :=
  (λ k, lo_digits.[Z.land (Z.shiftr val (bits - 4 - 4 * k)) 0xF]) <$> seqZ 0 (bits / 4).

Lemma for_loop_emits (g : Z → Z) n ob :
  for_loop 0 n (λ k ob, ob_putc ob (g k)) ob = foldl ob_putc ob (g <$> seqZ 0 (Z.of_nat n)).
Proof.
  induction n as [|n IH]; [done|].
  rewrite <-Nat.add_1_r, for_loop_app, IH, Nat2Z.inj_add, seqZ_app, fmap_app, foldl_app by lia.
  change (seqZ (0 + Z.of_nat n) (Z.of_nat 1)) with [0 + (0 + Z.of_nat n)]. simpl. done.
Qed.

Lemma hex_emits bits val : emits (λ ob, fmt_uintptr_hex bits ob val) (hex_text bits val).
Proof.
  intros ob. unfold fmt_uintptr_hex, hex_text.
  rewrite (for_loop_emits (λ k, lo_digits.[Z.land (Z.shiftr val (bits - 4 - 4 * k)) 0xF])).
  do 2 f_equal. unfold seqZ. by rewrite Nat2Z.id.
Qed.

Definition str_text (s : option (list Z)) (flags width : Z) : list Z :=
  let s := match s with Some s => s | None => null_text end in
  let pad := width - Z.of_nat (length s) in
  if has_flag flags F_LEFT then s ++ pad_text 32 pad else pad_text 32 pad ++ s.

Lemma fmt_str_emits s flags width : emits (λ ob, fmt_str ob s flags width) (str_text s flags width).
Proof.
  intros ob. unfold fmt_str, str_text.
  destruct (has_flag flags F_LEFT); by rewrite foldl_app, <-pad_emits.
Qed.

Definition char_text (ch flags width : Z) : list Z :=
  if has_flag flags F_LEFT then [ch] ++ pad_text 32 (width - 1) else pad_text 32 (width - 1) ++ [ch].

Lemma fmt_char_emits ch flags width : emits (λ ob, fmt_char ob ch flags width) (char_text ch flags width).
Proof.
  intros ob. unfold fmt_char, char_text.
  destruct (has_flag flags F_LEFT); by rewrite foldl_app, <-pad_emits.
Qed.

(** ** The whole text

    [render] is the text a format describes, with no buffer in sight. *)

Definition conv_text (bits conv flags width : Z) (ap : list varg) : option (list Z * list varg) :=
  if (conv =? 100) || (conv =? 105) then
    match ap with VInt v :: ap => Some (int_text (s32 v) flags width, ap) | _ => None end
  else if conv =? 117 then
    match ap with VInt v :: ap => Some (uint_text (u32 v) 10 false flags width 0, ap) | _ => None end
  else if conv =? 120 then
    match ap with VInt v :: ap => Some (uint_text (u32 v) 16 false flags width 0, ap) | _ => None end
  else if conv =? 88 then
    match ap with VInt v :: ap => Some (uint_text (u32 v) 16 true flags width 0, ap) | _ => None end
  else if conv =? 112 then
    match ap with VPtr v :: ap => Some ([48; 120] ++ hex_text bits v, ap) | _ => None end
  else if conv =? 115 then
    match ap with VStr s :: ap => Some (str_text s flags width, ap) | _ => None end
  else if conv =? 99 then
    match ap with VInt v :: ap => Some (char_text (u8 v) flags width, ap) | _ => None end
  else if conv =? 37 then Some ([37], ap)
  else Some ([63], ap).

Lemma convert_text bits ob conv flags width ap :
  convert bits ob conv flags width ap =
    (λ '(t, ap), (foldl ob_putc ob t, ap)) <$> conv_text bits conv flags width ap.
Proof.
  unfold convert, conv_text.
  repeat match goal with |- context [if ?b then _ else _] => destruct b; [|] end;
    try (destruct ap as [|[v|s|v] ap]; simpl; try done); try done; do 2 f_equal.
  - apply fmt_int_emits.
  - apply fmt_uint_emits.
  - apply fmt_uint_emits.
  - apply fmt_uint_emits.
  - apply hex_emits.
  - apply fmt_str_emits.
  - apply fmt_char_emits.
Qed.

Fixpoint render (bits : Z) (fuel : nat) (fmt : list Z) (ap : list varg) : option (list Z) :=
  match fmt with
  | [] => Some []
  | c :: fmt =>
      match fuel with
      | O => None
      | S fuel =>
          if negb (c =? 37) then (c ::.) <$> render bits fuel fmt ap
          else
            let '(flags, fmt) := parse_flags fmt 0 in
            match parse_width fmt flags ap with
            | None => None
            | Some (width, flags, fmt, ap) =>
                let fmt := match fmt with 108 :: fmt => fmt | _ => fmt end in
                match fmt with
                | [] => None
                | conv :: fmt =>
                    match conv_text bits conv flags width ap with
                    | None => None
                    | Some (t, ap) => (t ++.) <$> render bits fuel fmt ap
                    end
                end
            end
      end
  end.

Lemma vsn_loop_render bits fuel ob fmt ap :
  vsn_loop bits fuel ob fmt ap = foldl ob_putc ob <$> render bits fuel fmt ap.
Proof.
  revert ob fmt ap. induction fuel as [|fuel IH]; intros ob [|c fmt] ap; try done. cbn [vsn_loop render].
  destruct (negb (c =? 37)).
  { rewrite IH. by destruct (render bits fuel fmt ap). }
  destruct (parse_flags fmt 0) as [flags fmt1].
  destruct (parse_width fmt1 flags ap) as [[[[width flags2] fmt2] ap2]|]; [|done].
  destruct (match fmt2 with 108 :: _ => _ | _ => _ end) as [|conv fmt3]; [done|].
  rewrite convert_text. destruct (conv_text _ _ _ _ _) as [[t ap3]|]; [|done]. simpl.
  rewrite IH. destruct (render bits fuel fmt3 ap3); [|done]. simpl. by rewrite foldl_app.
Qed.

(** ** The buffer *)

(** [text] stored from the start of [buf], cut to leave room for the NUL. *)
Definition stored (buf : list Z) (size : Z) (text : list Z) : list Z :=
  let n := Nat.min (length text) (Z.to_nat (size - 1)) in
  take n text ++ drop n buf.

Lemma putc_all buf size text :
  0 <= size <= Z.of_nat (length buf) → size < 2 ^ 32 → Z.of_nat (length text) < 2 ^ 32 - 1 →
  foldl ob_putc (mk_ob buf size 0) text = mk_ob (stored buf size text) size (Z.of_nat (length text)).
Proof.
  intros Hs Hs2. induction text as [|c text IH] using rev_ind; intros Ht; [done|].
  rewrite length_app in Ht. simpl in Ht. rewrite foldl_app, IH by lia. simpl. unfold ob_putc. cbn.
  rewrite u32_small by zsolve. unfold stored. rewrite length_app. simpl. f_equal; [|lia].
  destruct (Z.ltb_spec (Z.of_nat (length text) + 1) size).
  - replace (Nat.min (length text) (Z.to_nat (size - 1))) with (length text) by lia.
    replace (Nat.min (length text + 1) (Z.to_nat (size - 1))) with (S (length text)) by lia.
    rewrite firstn_all, take_ge by (rewrite length_app; simpl; lia).
    unfold arr_set. rewrite Nat2Z.id, insert_app_r_alt by lia. rewrite Nat.sub_diag.
    destruct (lookup_lt_is_Some_2 buf (length text)) as [x Hx]; [lia|].
    rewrite (drop_S _ _ _ Hx). simpl. by rewrite <-app_assoc.
  - replace (Nat.min (length text) (Z.to_nat (size - 1))) with (Z.to_nat (size - 1)) by lia.
    replace (Nat.min (length text + 1) (Z.to_nat (size - 1))) with (Z.to_nat (size - 1)) by lia.
    by rewrite take_app_le by lia.
Qed.

Lemma stored_length buf size text :
  0 <= size <= Z.of_nat (length buf) → length (stored buf size text) = length buf.
Proof. intros Hs. unfold stored. rewrite length_app, length_take, length_drop. lia. Qed.

(** The stored text and the result, for the callers of [k_snprintf]. *)
Lemma vsnprintf_text bits buf size fmt ap text :
  0 <= size <= Z.of_nat (length buf) → size < 2 ^ 32 →
  render bits (length fmt) fmt ap = Some text → Z.of_nat (length text) < 2 ^ 31 →
  k_vsnprintf bits buf size fmt ap =
    Some (if size =? 0 then buf
          else take (Z.to_nat (size - 1)) text ++ [0] ++
               drop (S (Nat.min (length text) (Z.to_nat (size - 1)))) buf,
          Z.of_nat (length text)).
Proof.
  intros Hs Hs2 Hr Ht. unfold k_vsnprintf. rewrite vsn_loop_render, Hr. simpl.
  rewrite putc_all by lia. cbn [ob_buf ob_pos]. f_equal. f_equal; [|zsolve].
  destruct (Z.eqb_spec size 0) as [->|Hne].
  { unfold stored. simpl. by rewrite Nat.min_0_r. }
  destruct (Z.ltb_spec 0 size); [|lia]. set (n := Nat.min (length text) (Z.to_nat (size - 1))).
  assert (Z.to_nat (if Z.of_nat (length text) <? size then Z.of_nat (length text) else size - 1) = n) as En.
  { subst n. bcase; lia. }
  unfold arr_set. rewrite En. unfold stored. fold n.
  assert (take (Z.to_nat (size - 1)) text = take n text) as ->.
  { subst n. destruct (Nat.min_spec (length text) (Z.to_nat (size - 1))) as [[? ->]|[? ->]]; [|done].
    rewrite (take_ge _ (Z.to_nat _)), take_ge by lia. done. }
  rewrite insert_app_r_alt by (rewrite length_take; lia).
  rewrite length_take. replace (n - Nat.min n (length text))%nat with 0%nat by lia.
  destruct (lookup_lt_is_Some_2 buf n) as [x Hx]; [lia|]. by rewrite (drop_S _ _ _ Hx).
Qed.

(** ** The documented text

    kprintf.h promises a minimum field width for every conversion with one.  The
    code leaves pad characters out in two cases: a field that shows a sign gets
    one too few, and the width of a pointer is ignored.  [documented] is the text
    as documented, with the number of characters the code leaves out. *)

Definition field_text (flags width sign : Z) (zero : bool) (body : list Z) : list Z :=
  let pad := width - Z.of_nat (length (sign_text sign ++ body)) in
  if has_flag flags F_LEFT then sign_text sign ++ body ++ pad_text 32 pad
  else if zero && has_flag flags F_ZERO then sign_text sign ++ pad_text 48 pad ++ body
  else pad_text 32 pad ++ sign_text sign ++ body.

Definition pointer_text (bits v : Z) : list Z := [48; 120] ++ hex_text bits v.

(** The characters missing, and the documented field. *)
Definition conv_field (bits conv flags width : Z) (ap : list varg) : option (Z * list Z * list varg) :=
  let number upper base sign n := field_text flags width sign true (reverse (fmt_digits n base upper)) in
  if (conv =? 100) || (conv =? 105) then
    match ap with
    | VInt v :: ap =>
        let n := s32 v in
        let sign := if n <? 0 then 45 else if has_flag flags F_PLUS then 43 else if has_flag flags F_SPACE then 32 else 0 in
        let digits := Z.of_nat (length (fmt_digits (Z.abs n) 10 false)) in
        Some (if negb (sign =? 0) && (digits + 1 <? width) then 1 else 0, number false 10 sign (Z.abs n), ap)
    | _ => None
    end
  else if conv =? 117 then
    match ap with VInt v :: ap => Some (0, number false 10 0 (u32 v), ap) | _ => None end
  else if conv =? 120 then
    match ap with VInt v :: ap => Some (0, number false 16 0 (u32 v), ap) | _ => None end
  else if conv =? 88 then
    match ap with VInt v :: ap => Some (0, number true 16 0 (u32 v), ap) | _ => None end
  else if conv =? 112 then
    match ap with
    | VPtr v :: ap => Some (Z.max 0 (width - Z.of_nat (length (pointer_text bits v))),
                            field_text flags width 0 false (pointer_text bits v), ap)
    | _ => None
    end
  else if conv =? 115 then
    match ap with
    | VStr s :: ap => Some (0, field_text flags width 0 false (match s with Some s => s | None => null_text end), ap)
    | _ => None
    end
  else if conv =? 99 then
    match ap with VInt v :: ap => Some (0, field_text flags width 0 false [u8 v], ap) | _ => None end
  else if conv =? 37 then Some (0, [37], ap)
  else Some (0, [63], ap).

Fixpoint documented (bits : Z) (fuel : nat) (fmt : list Z) (ap : list varg) : option (Z * list Z) :=
  match fmt with
  | [] => Some (0, [])
  | c :: fmt =>
      match fuel with
      | O => None
      | S fuel =>
          if negb (c =? 37) then (λ '(k, t), (k, c :: t)) <$> documented bits fuel fmt ap
          else
            let '(flags, fmt) := parse_flags fmt 0 in
            match parse_width fmt flags ap with
            | None => None
            | Some (width, flags, fmt, ap) =>
                let fmt := match fmt with 108 :: fmt => fmt | _ => fmt end in
                match fmt with
                | [] => None
                | conv :: fmt =>
                    match conv_field bits conv flags width ap with
                    | None => None
                    | Some (k, t, ap) => (λ '(k', t'), (k + k', t ++ t')) <$> documented bits fuel fmt ap
                    end
                end
            end
      end
  end.

(** [t] is [u] with [k] characters left out. *)
Definition short_of (k : Z) (t u : list Z) : Prop := sublist t u ∧ Z.of_nat (length u) = Z.of_nat (length t) + k.

Lemma short_refl t : short_of 0 t t.
Proof. split; [done|lia]. Qed.

Lemma short_app k t u k' t' u' : short_of k t u → short_of k' t' u' → short_of (k + k') (t ++ t') (u ++ u').
Proof. intros [H1 L1] [H2 L2]. split; [by apply sublist_app|]. rewrite !length_app. lia. Qed.

Lemma short_zero t u : short_of 0 t u → t = u.
Proof.
  intros [Hs Hl].
  assert (length t = length u) as E by lia. clear Hl. induction Hs as [|x l k Hs IH|x l k Hs IH]; [done|..]; simpl in E.
  - f_equal. apply IH. lia.
  - apply sublist_length in Hs. lia.
Qed.

Lemma short_pad ch n m : n <= m → short_of (Z.max 0 m - Z.max 0 n) (pad_text ch n) (pad_text ch m).
Proof.
  intros Hn. unfold pad_text, short_of. rewrite !length_replicate. split; [|lia].
  replace (Z.to_nat m) with (Z.to_nat m - Z.to_nat n + Z.to_nat n)%nat by lia. rewrite replicate_add. by apply sublist_inserts_l.
Qed.

Lemma short_eq k k' t u : short_of k t u → k = k' → short_of k' t u.
Proof. by intros H <-. Qed.

Lemma uint_field flags w width sign n base upper :
  w <= width →
  let len := Z.of_nat (length (fmt_digits n base upper)) + (if sign =? 0 then 0 else 1) in
  short_of (Z.max 0 (width - len) - Z.max 0 (w - len)) (uint_text n base upper flags w sign)
    (field_text flags width sign true (reverse (fmt_digits n base upper))).
Proof.
  intros Hw len. unfold uint_text, field_text.
  replace (Z.of_nat (length (sign_text sign ++ reverse (fmt_digits n base upper)))) with len.
  2:{ unfold len, sign_text. rewrite length_app, length_reverse. destruct (sign =? 0); simpl; lia. }
  rewrite length_reverse. fold len. pose proof (λ c, short_pad c (w - len) (width - len) ltac:(lia)) as Hp.
  destruct (has_flag flags F_LEFT); [|destruct (has_flag flags F_ZERO)]; cbn [andb].
  - eapply short_eq; [apply (short_app 0), (short_app 0); [apply short_refl..|apply Hp]|lia].
  - eapply short_eq; [apply (short_app 0); [apply short_refl|apply short_app; [apply Hp|apply short_refl]]|lia].
  - eapply short_eq; [apply short_app; [apply Hp|apply short_refl]|lia].
Qed.

Lemma int_field v flags width :
  let n := s32 v in
  let sign := int_sign n flags in
  short_of (if negb (sign =? 0) && (Z.of_nat (length (fmt_digits (Z.abs n) 10 false)) + 1 <? width) then 1 else 0)
    (int_text n flags width) (field_text flags width sign true (reverse (fmt_digits (Z.abs n) 10 false))).
Proof.
  intros n sign. assert (int_magnitude n = Z.abs n) as E.
  { assert (- 2 ^ 31 <= n < 2 ^ 31) as Hn by (unfold n; zsolve). unfold int_magnitude.
    destruct (Z.ltb_spec n 0); zsolve. }
  unfold int_text. fold sign. rewrite E. eapply short_eq; [apply uint_field; destruct (sign =? 0); lia|].
  destruct (sign =? 0); cbn [negb andb]; [lia|]. bcase; lia.
Qed.

Lemma left_out body flags width :
  let pad := width - Z.of_nat (length body) in
  short_of (Z.max 0 pad) body (field_text flags width 0 false body).
Proof.
  intros pad. unfold field_text, sign_text, pad_text. cbn [Z.eqb app andb]. fold pad. split.
  - destruct (has_flag _ _); [by apply sublist_inserts_r|by apply sublist_inserts_l].
  - destruct (has_flag _ _); rewrite length_app, length_replicate; lia.
Qed.

Lemma conv_short bits conv flags width ap k u ap' :
  conv_field bits conv flags width ap = Some (k, u, ap') →
  ∃ t, conv_text bits conv flags width ap = Some (t, ap') ∧ short_of k t u.
Proof.
  unfold conv_field, conv_text.
  assert (∀ n base upper, short_of 0 (uint_text n base upper flags width 0)
    (field_text flags width 0 true (reverse (fmt_digits n base upper)))) as Hu.
  { intros. eapply short_eq; [by apply uint_field|]. cbn [Z.eqb]. lia. }
  destruct (_ || _); [|repeat match goal with |- context [conv =? ?n] => destruct (conv =? n) end];
    try (destruct ap as [|[v|s|v] ap]; try done); intros [= <- <- <-]; (eexists; split; [reflexivity|]);
    try apply Hu; try apply short_refl; try apply left_out.
  apply int_field.
Qed.

Lemma documented_short bits fuel fmt ap k u :
  documented bits fuel fmt ap = Some (k, u) →
  ∃ t, render bits fuel fmt ap = Some t ∧ short_of k t u.
Proof.
  revert fmt ap k u. induction fuel as [|fuel IH]; intros [|c fmt] ap k u; cbn [documented render];
    try done; try (intros [= <- <-]; eexists; split; [done|apply short_refl]).
  destruct (negb (c =? 37)).
  { intros ([k' u'] & E & [= -> ->])%fmap_Some. destruct (IH _ _ _ _ E) as (t & -> & Ht). eexists. split; [done|].
    apply (short_app 0 [c] [c]); [apply short_refl|done]. }
  destruct (parse_flags fmt 0) as [flags fmt1].
  destruct (parse_width fmt1 flags ap) as [[[[width flags2] fmt2] ap2]|]; [|done].
  destruct (match fmt2 with 108 :: _ => _ | _ => _ end) as [|conv fmt3]; [done|].
  destruct (conv_field _ _ _ _ _) as [[[k1 u1] ap3]|] eqn:Ec; [|done].
  intros ([k' u'] & E & [= -> ->])%fmap_Some. destruct (conv_short _ _ _ _ _ _ _ _ Ec) as (t1 & -> & H1).
  destruct (IH _ _ _ _ E) as (t & -> & Ht). eexists. split; [done|]. by apply short_app.
Qed.

(** ** Claims *)



(** The value of a digit string. *)
Definition digit_val (c : Z) : Z := if c <=? 57 then c - 48 else if 97 <=? c then c - 87 else c - 55.
Definition digits_val (base : Z) (ds : list Z) : Z := foldl (λ acc c, acc * base + digit_val c) 0 ds.

Lemma digit_val_ok (upper : bool) k :
  0 <= k < 16 → digit_val (if upper then hi_digits else lo_digits).[k] = k.
Proof.
  intros Hk. assert (∀ u : bool, forallb (λ k, digit_val (if u then hi_digits else lo_digits).[Z.of_nat k] =? Z.of_nat k)
    (seq 0 16) = true) as Hall by (intros []; reflexivity).
  specialize (Hall upper). rewrite forallb_forall in Hall. specialize (Hall (Z.to_nat k)).
  rewrite in_seq in Hall. specialize (Hall ltac:(lia)). rewrite Z2Nat.id in Hall by lia. by apply Z.eqb_eq.
Qed.

Lemma digit_loop_val fuel (upper : bool) base v :
  2 <= base <= 16 → 0 <= v < base ^ Z.of_nat fuel →
  digits_val base (reverse (digit_loop fuel (if upper then hi_digits else lo_digits) base v)) = v ∧
  ∀ n, 0 <= n → v < base ^ n →
    Z.of_nat (length (digit_loop fuel (if upper then hi_digits else lo_digits) base v)) <= n.
Proof.
  intros Hb. revert v. induction fuel as [|fuel IH]; intros v Hv; cbn [digit_loop].
  { change (base ^ Z.of_nat 0) with 1 in Hv. split; [simpl; unfold digits_val; simpl; lia|intros; simpl; lia]. }
  destruct (Z.eqb_spec v 0) as [->|Hv0]; [split; [done|simpl; lia]|].
  replace (Z.of_nat (S fuel)) with (Z.succ (Z.of_nat fuel)) in Hv by lia. rewrite Z.pow_succ_r in Hv by lia.
  pose proof (Z.div_mod v base ltac:(lia)) as Hdm. pose proof (Z.mod_pos_bound v base ltac:(lia)) as Hm.
  assert (0 <= v / base < base ^ Z.of_nat fuel) as Hdiv by (split; [apply Z.div_pos; lia|apply Z.div_lt_upper_bound; lia]).
  destruct (IH (v / base) Hdiv) as [Hval Hlen]. split.
  - rewrite reverse_cons. unfold digits_val in *. rewrite foldl_app, Hval. simpl.
    rewrite digit_val_ok by lia. lia.
  - intros n Hn Hvn. simpl. assert (n ≠ 0) by (intros ->; change (base ^ 0) with 1 in Hvn; lia).
    specialize (Hlen (n - 1) ltac:(lia)). lapply Hlen; [lia|].
    apply Z.div_lt_upper_bound; [lia|]. replace n with (Z.succ (n - 1)) in Hvn by lia.
    rewrite Z.pow_succ_r in Hvn by lia. done.
Qed.

Lemma digit_loop_nonempty fuel digits base v :
  v ≠ 0 → (1 <= length (digit_loop (S fuel) digits base v))%nat.
Proof. intros Hv. cbn [digit_loop]. rewrite (proj2 (Z.eqb_neq _ _) Hv). cbn [length]. lia. Qed.

(** the digits [fmt_uint] prints for a 32-bit value in decimal or
    hexadecimal read back as the value, and fit the local buffer [tmp[12]]. *)
Theorem fmt_digits_roundtrip val base upper :
  is_u32 val → base = 10 ∨ base = 16 →
  digits_val base (reverse (fmt_digits val base upper)) = val ∧
  (1 <= length (fmt_digits val base upper) <= 10)%nat.
Proof.
  intros Hv Hb. unfold fmt_digits. destruct (Z.eqb_spec val 0) as [->|H0].
  { split; [reflexivity|simpl; lia]. }
  assert (2 <= base <= 16) as Hb2 by lia.
  assert (2 ^ 32 <= base ^ 10) as Hpow by (destruct Hb as [->| ->]; lia).
  assert (0 <= val < base ^ Z.of_nat 32) as Hr.
  { unfold is_u32 in Hv. assert (base ^ 10 <= base ^ Z.of_nat 32) by (apply Z.pow_le_mono_r; lia). lia. }
  destruct (digit_loop_val 32 upper base val Hb2 Hr) as [Hval Hlen]. split; [done|].
  specialize (Hlen 10 ltac:(lia) ltac:(unfold is_u32 in Hv; lia)). split; [|lia].
  by apply digit_loop_nonempty.
Qed.

Lemma fmt_digits_roundtrip_witness :
  digits_val 16 (reverse (fmt_digits 0xDEADBEEF 16 true)) = 0xDEADBEEF.
Proof. apply (fmt_digits_roundtrip 0xDEADBEEF 16 true); [zsolve|by right]. Defined.

Lemma uint_text_length val base upper flags width sign :
  Z.of_nat (length (uint_text val base upper flags width sign)) =
    Z.max width (Z.of_nat (length (fmt_digits val base upper)) + (if sign =? 0 then 0 else 1)).
Proof.
  unfold uint_text, sign_text, pad_text. rewrite length_reverse.
  destruct (has_flag flags F_LEFT); [|destruct (has_flag flags F_ZERO)]; destruct (sign =? 0);
    rewrite !length_app, length_reverse, length_replicate; simpl; lia.
Qed.

(** a field that prints a sign is one character too narrow: [fmt_int] takes
    the sign off the width and [fmt_uint] counts it again, so "%5d" of a negative
    number is padded to four characters, while "%5u" is padded to five. *)
Theorem signed_field_one_short val flags width :
  - 2 ^ 31 <= val < 0 →
  let digits := Z.of_nat (length (fmt_digits (- val) 10 false)) in
  digits + 1 < width →
  Z.of_nat (length (int_text val flags width)) = width - 1 ∧
  Z.of_nat (length (uint_text (- val) 10 false flags width 0)) = width.
Proof.
  intros Hv digits Hw. unfold int_text, int_sign, int_magnitude.
  destruct (Z.ltb_spec val 0); [|lia]. cbn [Z.eqb].
  replace (u32 (- u32 val)) with (- val) by zsolve. rewrite !uint_text_length. fold digits. simpl. lia.
Qed.

Lemma signed_field_one_short_witness :
  k_vsnprintf 32 (replicate 8 0) 8 [37; 53; 100] [VInt (2 ^ 32 - 42)] = Some ([32; 45; 52; 50; 0; 0; 0; 0], 4) ∧
  Z.of_nat (length (int_text (-42) 0 5)) = 4.
Proof.
  split; [reflexivity|].
  destruct (signed_field_one_short (-42) 0 5) as [H _]; [lia|vm_compute; reflexivity|exact H].
Defined.
