(* ===== verification/Sched.v ===== *)
(** * Scheduler, signals and job control
    (kernel/proc/sched.c, kernel/proc/task_group.c, kernel/proc/wait.h)

    The process table, the thread groups, the intrusive wait queues, the
    round-robin choice, signal sending and delivery, exit, stop and wait.

    A process pointer is its index in [proc_table], a group pointer its index in
    [groups], a wait-queue pointer the place that embeds the queue ([qid]).  The
    operations that release resources, touch user memory or switch stacks are an
    environment ([SchedEnv]): closing files reports the pipe, tty and pty queues
    it wakes.  [schedule] is modelled up to the context switch: its result is the
    state in which the chosen process runs.  The idle loop of [schedule] runs
    interrupt handlers ([idle_wait]) until some process is ready; it has fuel. *)

From S2P Require Import Prelude.

Definition MAX_PROCS : Z := 8.
Definition NSIG : Z := 32.

Definition SIGILL : Z := 4.
Definition SIGTRAP : Z := 5.
Definition SIGFPE : Z := 8.
Definition SIGKILL : Z := 9.
Definition SIGSEGV : Z := 11.
Definition SIGCHLD : Z := 17.
Definition SIGCONT : Z := 18.
Definition SIGSTOP : Z := 19.
Definition SIGTSTP : Z := 20.
Definition SIG_DFL : Z := 0.
Definition SIG_IGN : Z := 1.
Definition WNOHANG : Z := 1.
Definition WUNTRACED : Z := 2.

(** [1u << n] *)
Definition bit (n : Z) : Z := Z.shiftl 1 n.

Inductive proc_state := PROC_UNUSED | PROC_READY | PROC_RUNNING | PROC_ZOMBIE | PROC_BLOCKED | PROC_STOPPED.
#[global] Instance proc_state_eq_dec : EqDecision proc_state.
Proof. solve_decision. Defined.

(** Where a wait queue lives: in a process, in a group, or in another kernel
    object (pipe, tty, pty) named by a number. *)
Inductive qid := QProc (i : Z) | QGroup (g : Z) | QOther (n : Z).
#[global] Instance qid_eq_dec : EqDecision qid.
Proof. solve_decision. Defined.

Record wait_queue := mk_wq { wq_head : option Z; wq_tail : option Z }.
Definition empty_wq : wait_queue := mk_wq None None.

(** The fields of [process_t] the scheduler works on, in groups. *)
Record proc_ids := mk_ids {
  id_tid : Z; id_tgid : Z; id_pid : Z; id_pgid : Z; id_sid : Z; id_tty : Z; id_ppid : Z;
}.
Record proc_wait := mk_wait {
  w_queue : option qid; w_next : option Z; w_deadline : Z; w_deadline_set : bool;
}.
Record proc_sig := mk_sig {
  sg_pending : Z; sg_blocked : Z; sg_actions : option (list Z); sg_handlers : list Z;
  cr_valid : bool; cr_signum : Z;
}.
Record proc := mk_proc {
  p_ids : proc_ids;
  p_group : option Z;
  p_state : proc_state;
  p_wait : proc_wait;
  p_exit_status : Z;
  p_clear_child_tid : Z;
  p_state_waiters : wait_queue;
  p_sig : proc_sig;
}.

Definition no_wait : proc_wait := mk_wait None None 0 false.
Definition zero_proc : proc :=
  mk_proc (mk_ids 0 0 0 0 0 0 0) None PROC_UNUSED no_wait 0 0 empty_wq
    (mk_sig 0 0 None (replicate 32 0) false 0).
#[global] Instance proc_inhabited : Inhabited proc := populate zero_proc.

Record group := mk_group {
  gr_used : bool; gr_refs : Z; gr_tgid : Z; gr_leader_tid : Z; gr_parent_tgid : Z;
  gr_pgid : Z; gr_sid : Z; gr_tty : Z; gr_live_tasks : Z; gr_exit_signal : Z;
  gr_group_exit : bool; gr_exit_status : Z; gr_sig_pending : Z; gr_state_waiters : wait_queue;
}.
Definition zero_group : group := mk_group false 0 0 0 0 0 0 0 0 0 false 0 0 empty_wq.
#[global] Instance group_inhabited : Inhabited group := populate zero_group.

Record sched := mk_sched {
  proc_table : list proc;
  groups : list group;
  others : gmap Z wait_queue;
  g_current : option Z;
  g_need_switch : bool;
  g_next_pid : Z;
  g_ticks : Z;
}.

Notation "st '.p' i" := ((proc_table st).[i]) (at level 1, i at level 0, format "st '.p'  i").
Notation "st '.g' i" := ((groups st).[i]) (at level 1, i at level 0, format "st '.g'  i").

(** ** Assignments *)

Definition set_state (s : proc_state) (p : proc) : proc :=
  mk_proc (p_ids p) (p_group p) s (p_wait p) (p_exit_status p) (p_clear_child_tid p)
    (p_state_waiters p) (p_sig p).
Definition set_wait (w : proc_wait) (p : proc) : proc :=
  mk_proc (p_ids p) (p_group p) (p_state p) w (p_exit_status p) (p_clear_child_tid p)
    (p_state_waiters p) (p_sig p).
Definition set_exit_status (v : Z) (p : proc) : proc :=
  mk_proc (p_ids p) (p_group p) (p_state p) (p_wait p) v (p_clear_child_tid p)
    (p_state_waiters p) (p_sig p).
Definition set_waiters (q : wait_queue) (p : proc) : proc :=
  mk_proc (p_ids p) (p_group p) (p_state p) (p_wait p) (p_exit_status p) (p_clear_child_tid p)
    q (p_sig p).
Definition set_sig (s : proc_sig) (p : proc) : proc :=
  mk_proc (p_ids p) (p_group p) (p_state p) (p_wait p) (p_exit_status p) (p_clear_child_tid p)
    (p_state_waiters p) s.
Definition set_ids (d : proc_ids) (p : proc) : proc :=
  mk_proc d (p_group p) (p_state p) (p_wait p) (p_exit_status p) (p_clear_child_tid p)
    (p_state_waiters p) (p_sig p).
Definition set_group (g : option Z) (p : proc) : proc :=
  mk_proc (p_ids p) g (p_state p) (p_wait p) (p_exit_status p) (p_clear_child_tid p)
    (p_state_waiters p) (p_sig p).

Definition set_wnext (n : option Z) (p : proc) : proc :=
  set_wait (mk_wait (w_queue (p_wait p)) n (w_deadline (p_wait p)) (w_deadline_set (p_wait p))) p.
Definition set_wqueue (q : option qid) (p : proc) : proc :=
  set_wait (mk_wait q (w_next (p_wait p)) (w_deadline (p_wait p)) (w_deadline_set (p_wait p))) p.
Definition set_deadline (t : Z) (p : proc) : proc :=
  set_wait (mk_wait (w_queue (p_wait p)) (w_next (p_wait p)) t true) p.
Definition set_pending (v : Z) (p : proc) : proc :=
  set_sig (mk_sig v (sg_blocked (p_sig p)) (sg_actions (p_sig p)) (sg_handlers (p_sig p))
             (cr_valid (p_sig p)) (cr_signum (p_sig p))) p.
Definition set_crash (v : bool) (p : proc) : proc :=
  set_sig (mk_sig (sg_pending (p_sig p)) (sg_blocked (p_sig p)) (sg_actions (p_sig p))
             (sg_handlers (p_sig p)) v (cr_signum (p_sig p))) p.

Definition upd_proc (st : sched) (i : Z) (f : proc → proc) : sched :=
  mk_sched (proc_table st).[i <- f st.p i] (groups st) (others st) (g_current st)
    (g_need_switch st) (g_next_pid st) (g_ticks st).
Definition upd_group (st : sched) (i : Z) (f : group → group) : sched :=
  mk_sched (proc_table st) (groups st).[i <- f st.g i] (others st) (g_current st)
    (g_need_switch st) (g_next_pid st) (g_ticks st).
Definition set_current (st : sched) (c : option Z) : sched :=
  mk_sched (proc_table st) (groups st) (others st) c (g_need_switch st) (g_next_pid st) (g_ticks st).
Definition set_need_switch (st : sched) (b : bool) : sched :=
  mk_sched (proc_table st) (groups st) (others st) (g_current st) b (g_next_pid st) (g_ticks st).

Definition set_gr_waiters (q : wait_queue) (g : group) : group :=
  mk_group (gr_used g) (gr_refs g) (gr_tgid g) (gr_leader_tid g) (gr_parent_tgid g) (gr_pgid g)
    (gr_sid g) (gr_tty g) (gr_live_tasks g) (gr_exit_signal g) (gr_group_exit g) (gr_exit_status g)
    (gr_sig_pending g) q.
Definition set_gr_refs (v : Z) (g : group) : group :=
  mk_group (gr_used g) v (gr_tgid g) (gr_leader_tid g) (gr_parent_tgid g) (gr_pgid g)
    (gr_sid g) (gr_tty g) (gr_live_tasks g) (gr_exit_signal g) (gr_group_exit g) (gr_exit_status g)
    (gr_sig_pending g) (gr_state_waiters g).
Definition set_gr_live (v : Z) (g : group) : group :=
  mk_group (gr_used g) (gr_refs g) (gr_tgid g) (gr_leader_tid g) (gr_parent_tgid g) (gr_pgid g)
    (gr_sid g) (gr_tty g) v (gr_exit_signal g) (gr_group_exit g) (gr_exit_status g)
    (gr_sig_pending g) (gr_state_waiters g).
Definition set_gr_exit (e : bool) (v : Z) (g : group) : group :=
  mk_group (gr_used g) (gr_refs g) (gr_tgid g) (gr_leader_tid g) (gr_parent_tgid g) (gr_pgid g)
    (gr_sid g) (gr_tty g) (gr_live_tasks g) (gr_exit_signal g) e v
    (gr_sig_pending g) (gr_state_waiters g).
Definition set_gr_pending (v : Z) (g : group) : group :=
  mk_group (gr_used g) (gr_refs g) (gr_tgid g) (gr_leader_tid g) (gr_parent_tgid g) (gr_pgid g)
    (gr_sid g) (gr_tty g) (gr_live_tasks g) (gr_exit_signal g) (gr_group_exit g) (gr_exit_status g)
    v (gr_state_waiters g).

Definition get_queue (st : sched) (q : qid) : wait_queue :=
  match q with
  | QProc i => p_state_waiters st.p i
  | QGroup g => gr_state_waiters st.g g
  | QOther n => default empty_wq (others st !! n)
  end.
Definition set_queue (st : sched) (q : qid) (w : wait_queue) : sched :=
  match q with
  | QProc i => upd_proc st i (set_waiters w)
  | QGroup g => upd_group st g (set_gr_waiters w)
  | QOther n => mk_sched (proc_table st) (groups st) (<[n := w]> (others st)) (g_current st)
                  (g_need_switch st) (g_next_pid st) (g_ticks st)
  end.

(** ** Thread groups (task_group.c) *)

Definition task_group_table_init (st : sched) : sched :=
  mk_sched (proc_table st) (replicate (length (groups st)) zero_group) (others st) (g_current st)
    (g_need_switch st) (g_next_pid st) (g_ticks st).

Definition task_group_create (st : sched) (tgid leader parent pgid sid tty exit_signal : Z)
    : option Z * sched :=
  match for_exit 0 (Z.to_nat MAX_PROCS)
          (λ i (_ : unit), if gr_used st.g i then inr () else inl i) () with
  | inl i =>
      (Some i, upd_group st i (λ _, mk_group true 1 tgid leader parent pgid sid tty 0 exit_signal
                                     false 0 0 empty_wq))
  | inr _ => (None, st)
  end.

Definition task_group_get (st : sched) (g : option Z) : sched :=
  match g with Some g => upd_group st g (λ r, set_gr_refs (gr_refs r +u 1) r) | None => st end.

Definition task_group_put (st : sched) (g : option Z) : sched :=
  match g with
  | None => st
  | Some g =>
      if gr_refs st.g g =? 0 then st
      else
        let st := upd_group st g (λ r, set_gr_refs (gr_refs r - 1) r) in
        if gr_refs st.g g =? 0 then upd_group st g (λ _, zero_group) else st
  end.

Definition task_group_add_task (st : sched) (g : option Z) : sched :=
  match g with Some g => upd_group st g (λ r, set_gr_live (gr_live_tasks r +u 1) r) | None => st end.

Definition task_group_remove_task (st : sched) (g : option Z) : sched :=
  match g with
  | Some g => if 0 <? gr_live_tasks st.g g
              then upd_group st g (λ r, set_gr_live (gr_live_tasks r - 1) r) else st
  | None => st
  end.

Definition task_group_tgid (st : sched) (g : option Z) : Z :=
  match g with Some g => gr_tgid st.g g | None => 0 end.
Definition task_group_leader_tid (st : sched) (g : option Z) : Z :=
  match g with Some g => gr_leader_tid st.g g | None => 0 end.
Definition task_group_live_count (st : sched) (g : option Z) : Z :=
  match g with Some g => gr_live_tasks st.g g | None => 0 end.

Definition task_group_set_process_signal (st : sched) (g : option Z) (signum : Z) : sched :=
  match g with
  | None => st
  | Some g => if (signum <? 1) || (NSIG <=? signum) then st
              else upd_group st g (λ r, set_gr_pending (gr_sig_pending r |u bit signum) r)
  end.

(** The lowest-numbered signal of a mask, 0 if there is none. *)
Definition lowest_signal (mask : Z) : Z :=
  match for_exit 1 (Z.to_nat (NSIG - 1))
          (λ i (_ : unit), if negb (mask &u bit i =? 0) then inl i else inr ()) () with
  | inl i => i
  | inr _ => 0
  end.

Definition task_group_take_process_signal (st : sched) (g : option Z) (blocked : Z) : Z * sched :=
  match g with
  | None => (0, st)
  | Some g =>
      let i := lowest_signal (gr_sig_pending st.g g &u not32 blocked) in
      if i =? 0 then (0, st)
      else (i, upd_group st g (λ r, set_gr_pending (gr_sig_pending r &u not32 (bit i)) r))
  end.

(** ** Internal helpers *)

Definition sched_pick_next (st : sched) : option Z :=
  let cur_idx := match g_current st with Some c => c | None => -1 end in
  match for_exit 1 (Z.to_nat MAX_PROCS)
          (λ i (_ : unit),
             let idx := (cur_idx + i) mod MAX_PROCS in
             if bool_decide (p_state st.p idx = PROC_READY) then inl idx else inr ()) () with
  | inl idx => Some idx
  | inr _ => None
  end.

(** A search over the process table for the first slot that satisfies [P]. *)
Definition find_proc (st : sched) (P : proc → bool) : option Z :=
  match for_exit 0 (Z.to_nat MAX_PROCS)
          (λ i (_ : unit), if P st.p i then inl i else inr ()) () with
  | inl i => Some i
  | inr _ => None
  end.

Definition is_used (p : proc) : bool := negb (bool_decide (p_state p = PROC_UNUSED)).
Definition is_live (p : proc) : bool := is_used p && negb (bool_decide (p_state p = PROC_ZOMBIE)).
Definition in_group (g : Z) (p : proc) : bool := bool_decide (p_group p = Some g).

Definition sched_find_slot (st : sched) (pid : Z) : option Z :=
  find_proc st (λ p, (id_pid (p_ids p) =? pid) && is_used p).

Definition sched_wait_queue_init (st : sched) (q : qid) : sched := set_queue st q empty_wq.

Definition sched_wait_queue_enqueue (st : sched) (q : qid) (i : Z) : sched :=
  let st := upd_proc st i (set_wnext None) in
  let st := match wq_tail (get_queue st q) with
            | Some t => upd_proc st t (set_wnext (Some i))
            | None => set_queue st q (mk_wq (Some i) (wq_tail (get_queue st q)))
            end in
  set_queue st q (mk_wq (wq_head (get_queue st q)) (Some i)).

(** The walk with its trailing pointer; a queue holds every process at most once,
    so [MAX_PROCS] rounds reach its end. *)
Fixpoint queue_remove_loop (fuel : nat) (st : sched) (q : qid) (i : Z) (prev cur : option Z) : sched :=
  match fuel, cur with
  | O, _ | _, None => st
  | S fuel, Some c =>
      if c =? i then
        let st := match prev with
                  | Some pr => upd_proc st pr (set_wnext (w_next (p_wait st.p c)))
                  | None => set_queue st q (mk_wq (w_next (p_wait st.p c)) (wq_tail (get_queue st q)))
                  end in
        if bool_decide (wq_tail (get_queue st q) = Some c)
        then set_queue st q (mk_wq (wq_head (get_queue st q)) prev) else st
      else queue_remove_loop fuel st q i (Some c) (w_next (p_wait st.p c))
  end.
Definition sched_wait_queue_remove (st : sched) (q : qid) (i : Z) : sched :=
  queue_remove_loop (S (Z.to_nat MAX_PROCS)) st q i None (wq_head (get_queue st q)).

Definition sched_clear_wait (st : sched) (i : Z) : sched :=
  let st := match w_queue (p_wait st.p i) with
            | Some q => sched_wait_queue_remove st q i
            | None => st
            end in
  upd_proc st i (set_wait no_wait).

Definition sched_make_ready (st : sched) (i : Z) : sched :=
  let st := sched_clear_wait st i in
  if bool_decide (p_state st.p i = PROC_BLOCKED) then upd_proc st i (set_state PROC_READY) else st.

(** [while (proc) { next = proc->wait_next; ...; proc = next; }] *)
Fixpoint wake_loop (fuel : nat) (st : sched) (cur : option Z) (woke : bool) : sched * bool :=
  match fuel, cur with
  | O, _ | _, None => (st, woke)
  | S fuel, Some i =>
      let next := w_next (p_wait st.p i) in
      let st := upd_proc st i (set_wait no_wait) in
      if bool_decide (p_state st.p i = PROC_BLOCKED)
      then wake_loop fuel (upd_proc st i (set_state PROC_READY)) next true
      else wake_loop fuel st next woke
  end.
Definition sched_wake_all (st : sched) (q : qid) : sched :=
  let head := wq_head (get_queue st q) in
  let st := set_queue st q empty_wq in
  let '(st, woke) := wake_loop (S (Z.to_nat MAX_PROCS)) st head false in
  if woke then set_need_switch st true else st.

Definition sched_group_has_live_slots (st : sched) (g : Z) : bool :=
  match find_proc st (λ p, in_group g p && is_live p) with Some _ => true | None => false end.

Definition sched_wake_group_waiters (st : sched) (g : option Z) : sched :=
  match g with
  | None => st
  | Some g =>
      for_loop 0 (Z.to_nat MAX_PROCS)
        (λ i st, if in_group g st.p i && bool_decide (p_state st.p i = PROC_ZOMBIE)
                 then sched_wake_all st (QProc i) else st)
        (sched_wake_all st (QGroup g))
  end.

Definition sched_find_group_member (st : sched) (tgid : Z) : option Z :=
  find_proc st (λ p, (id_tgid (p_ids p) =? tgid) && is_used p).

Definition sched_find_group_signal_recipient (st : sched) (g : option Z) (signum : Z) : option Z :=
  match g with
  | None => None
  | Some g =>
      find_proc st (λ p, in_group g p && is_live p &&
        ((sg_blocked (p_sig p) &u bit signum =? 0) || (signum =? SIGKILL)))
  end.

(** ** The environment

    What the scheduler calls outside its own state: resource release
    ([proc_resource_put_all], [proc_resource_put_files], which close files and so
    wake the queues of pipes and ptys, reported as a list), page and stack release,
    the console, user memory, the first kernel frame, core dumps and signal
    frames. *)
Class SchedEnv (E : Type) := {
  se_has_resources : E → Z → bool;
  se_put_all : E → Z → list Z * E;
  se_put_files : E → Z → list Z * E;
  se_release_user_space : E → Z → E;
  se_release_kstack : E → Z → E;
  se_console_release : E → Z → E;
  se_clear_tid : E → Z → Z → E;
  se_has_context : E → Z → bool;
  se_build_frame : E → Z → E;
  se_core_dump : E → Z → Z → bool * E;
  se_setup_frame : E → Z → Z → Z → bool * E;
  se_frame_is_user : E → bool;
  se_switch : E → option Z → Z → E;
}.

Definition wake_others (st : sched) (l : list Z) : sched :=
  foldl (λ st n, sched_wake_all st (QOther n)) st l.

Section with_env.
Context {E : Type} `{SchedEnv E}.
Implicit Types (st : sched) (e : E).

Definition sched_reap st e (i : Z) : sched * E :=
  if negb (bool_decide (p_state st.p i = PROC_ZOMBIE)) then (st, e)
  else
    let had_resources := se_has_resources e i in
    let st := sched_clear_wait st i in
    let st := sched_wait_queue_init st (QProc i) in
    let '(woken, e) := se_put_all e i in
    let st := wake_others st woken in
    let e := if had_resources then e else se_release_user_space e i in
    let e := se_release_kstack e i in
    let st := task_group_put st (p_group st.p i) in
    let st := upd_proc st i (λ p,
      set_state PROC_UNUSED (set_group None
        (set_ids (mk_ids 0 0 0 (id_pgid (p_ids p)) (id_sid (p_ids p)) (id_tty (p_ids p))
                    (id_ppid (p_ids p))) p))) in
    (st, e).

Definition sched_reap_group st e (g : Z) : sched * E :=
  for_loop 0 (Z.to_nat MAX_PROCS)
    (λ i '(st, e), if in_group g st.p i && bool_decide (p_state st.p i = PROC_ZOMBIE)
                   then sched_reap st e i else (st, e)) (st, e).

(** ** Public API *)

Definition sched_init st : sched :=
  let st := for_loop 0 (Z.to_nat MAX_PROCS) (λ i st, upd_proc st i (set_state PROC_UNUSED)) st in
  let st := task_group_table_init st in
  mk_sched (proc_table st) (groups st) (others st) None false 1 0.

Definition sched_bootstrap st : option Z * sched :=
  match find_proc st (λ p, bool_decide (p_state p = PROC_READY)) with
  | Some i => (Some i, set_current (upd_proc st i (set_state PROC_RUNNING)) (Some i))
  | None => (None, st)
  end.

Definition set_next_pid st (v : Z) : sched :=
  mk_sched (proc_table st) (groups st) (others st) (g_current st) (g_need_switch st) v (g_ticks st).

(** [proc] is the caller's descriptor; the new slot holds a copy of it. *)
Definition sched_add st e (p : proc) : Z * sched * E :=
  match find_proc st (λ p, negb (is_used p)) with
  | None => (-1, st, e)
  | Some i =>
      let tid := g_next_pid st in
      let st := set_next_pid st (tid +u 1) in
      let d := p_ids p in
      let tgid := if id_tgid d =? 0 then tid else id_tgid d in
      let pgid := if id_pgid d =? 0 then tgid else id_pgid d in
      let sid := if id_sid d =? 0 then tgid else id_sid d in
      let '(g, tgid, pgid, sid, tty, st) :=
        match p_group p with
        | None =>
            let '(g, st) := task_group_create st tgid tid (id_ppid d) pgid sid (id_tty d) SIGCHLD in
            (g, tgid, pgid, sid, id_tty d, st)
        | Some g =>
            let st := task_group_get st (Some g) in
            (Some g, task_group_tgid st (Some g), gr_pgid st.g g, gr_sid st.g g, gr_tty st.g g, st)
        end in
      match g with
      | None => (-1, st, e)
      | Some g =>
          let st := task_group_add_task st (Some g) in
          let p := set_state PROC_READY (set_group (Some g)
                     (set_ids (mk_ids tid tgid tid pgid sid tty (id_ppid d)) p)) in
          let st := upd_proc st i (λ _, p) in
          let e := if se_has_context e i then e else se_build_frame e i in
          (s32 tid, st, e)
      end
  end.

Definition sched_peek_next_tid st : Z := g_next_pid st.

Definition sched_force_remove_task st e (tid : Z) : Z * sched * E :=
  match sched_find_slot st tid with
  | None => (-1, st, e)
  | Some i =>
      if negb (bool_decide (p_state st.p i = PROC_READY)) then (-1, st, e)
      else
        let st := sched_clear_wait st i in
        let '(woken, e) := se_put_all e i in
        let st := wake_others st woken in
        let e := se_release_kstack e i in
        let st := task_group_remove_task st (p_group st.p i) in
        let st := task_group_put st (p_group st.p i) in
        (0, upd_proc st i (λ _, zero_proc), e)
  end.

(** The descriptor swap of exec; the switch to the new stack does not return. *)
Definition sched_exec_current st e (replacement : proc) : sched * E :=
  match g_current st with
  | None => (st, e)
  | Some c =>
      let d := p_ids st.p c in
      let g := p_group st.p c in
      let st := upd_proc st c (λ _,
        set_state PROC_RUNNING (set_group g
          (set_ids (mk_ids (id_tid d) (id_tgid d) (id_pid d) (id_pgid (p_ids replacement))
                      (id_sid (p_ids replacement)) (id_tty (p_ids replacement))
                      (id_ppid (p_ids replacement))) replacement))) in
      (st, se_switch e None c)
  end.

Definition sched_current_pid st : Z := match g_current st with Some c => id_pid (p_ids st.p c) | None => 0 end.
Definition sched_current_tid st : Z := match g_current st with Some c => id_tid (p_ids st.p c) | None => 0 end.
Definition sched_current_tgid st : Z := match g_current st with Some c => id_tgid (p_ids st.p c) | None => 0 end.
Definition sched_current_group st : option Z := match g_current st with Some c => p_group st.p c | None => None end.
Definition sched_current_ppid st : Z := match g_current st with Some c => id_ppid (p_ids st.p c) | None => 0 end.

(** *** Scheduling *)

(** Effect of the interrupts taken during one [arch_idle_wait]. *)
Variable idle_wait : sched → sched.

(** [do { arch_idle_wait(); next = sched_pick_next(); } while (!next);] *)
Fixpoint idle_loop (fuel : nat) st : option (Z * sched) :=
  match fuel with
  | O => None
  | S fuel =>
      let st := idle_wait st in
      match sched_pick_next st with
      | Some n => Some (n, st)
      | None => idle_loop fuel st
      end
  end.

(** The part of [schedule] after the choice. *)
Definition switch_to st e (prev : option Z) (next : Z) : sched * E :=
  if bool_decide (prev = Some next) then (upd_proc st next (set_state PROC_RUNNING), e)
  else
    let st := match prev with
              | Some p => if bool_decide (p_state st.p p = PROC_RUNNING)
                          then upd_proc st p (set_state PROC_READY) else st
              | None => st
              end in
    let save := match prev with
                | Some p => if bool_decide (p_state st.p p = PROC_ZOMBIE) then None else Some p
                | None => None
                end in
    let st := set_current st (Some next) in
    let st := upd_proc st next (set_state PROC_RUNNING) in
    (st, se_switch e save next).

Definition schedule (fuel : nat) st e : option (sched * E) :=
  let prev := g_current st in
  match sched_pick_next st with
  | Some next => Some (switch_to st e prev next)
  | None =>
      match prev with
      | Some p =>
          if negb (bool_decide (p_state st.p p = PROC_RUNNING)) then
            match idle_loop fuel st with
            | None => None
            | Some (next, st) => Some (switch_to st e prev next)
            end
          else Some (st, e)
      | None => Some (st, e)
      end
  end.

Definition schedule_if_needed (fuel : nat) st e : option (sched * E) :=
  if negb (g_need_switch st) then Some (st, e)
  else
    let st := set_need_switch st false in
    if negb (se_frame_is_user e) then Some (st, e) else schedule fuel st e.

(** The blocking calls up to their call of [schedule]. *)
Definition block_on st (c : Z) (q : option qid) : sched :=
  let st := sched_clear_wait st c in
  let st := match q with
            | Some q => upd_proc (sched_wait_queue_enqueue st q c) c (set_wqueue (Some q))
            | None => st
            end in
  upd_proc st c (set_state PROC_BLOCKED).

Definition sched_block (fuel : nat) st e (q : option qid) : option (sched * E) :=
  match g_current st with
  | None => Some (st, e)
  | Some c => schedule fuel (block_on st c q) e
  end.

Definition block_until st (c deadline_tick : Z) : sched :=
  let st := sched_clear_wait st c in
  let st := upd_proc st c (set_deadline deadline_tick) in
  upd_proc st c (set_state PROC_BLOCKED).

Definition sched_block_until (fuel : nat) st e (deadline_tick : Z) : option (sched * E) :=
  match g_current st with
  | None => Some (st, e)
  | Some c => schedule fuel (block_until st c deadline_tick) e
  end.

Definition sched_tick st : sched :=
  let st := mk_sched (proc_table st) (groups st) (others st) (g_current st) (g_need_switch st)
              (g_next_pid st) (g_ticks st +u 1) in
  let st := for_loop 0 (Z.to_nat MAX_PROCS)
    (λ i st,
       if bool_decide (p_state st.p i = PROC_BLOCKED) && w_deadline_set (p_wait st.p i) &&
          (0 <=? s32 (g_ticks st -u w_deadline (p_wait st.p i)))
       then sched_make_ready st i else st) st in
  set_need_switch st true.

Definition sched_ticks st : Z := g_ticks st.

(** *** Signals *)

(** What [sched_send_signal] does to the process it has chosen, in the order of
    its statements; [by_group] says the signal is pending in the group. *)
Definition signal_continue st (i signum : Z) : sched :=
  if signum =? SIGCONT then
    let st := upd_proc st i (λ p, set_pending
      (sg_pending (p_sig p) &u not32 (bit SIGSTOP |u bit SIGTSTP)) p) in
    if bool_decide (p_state st.p i = PROC_STOPPED) then upd_proc st i (set_state PROC_READY) else st
  else st.
Definition signal_stop st (i signum : Z) : sched :=
  if (signum =? SIGSTOP) || (signum =? SIGTSTP)
  then upd_proc st i (λ p, set_pending (sg_pending (p_sig p) &u not32 (bit SIGCONT)) p) else st.
Definition signal_pend st (i : Z) (by_group : bool) (signum : Z) : sched :=
  if by_group then st
  else upd_proc st i (λ p, set_pending (sg_pending (p_sig p) |u bit signum) p).
Definition signal_wake st (i signum : Z) : sched :=
  if bool_decide (p_state st.p i = PROC_STOPPED) && negb (signum =? SIGCONT)
  then upd_proc st i (set_state (if signum =? SIGKILL then PROC_READY else PROC_STOPPED))
  else if bool_decide (p_state st.p i = PROC_BLOCKED) then sched_make_ready st i else st.

Definition signal_recipient st (i : Z) (by_group : bool) (signum : Z) : sched :=
  let st := signal_continue st i signum in
  let st := signal_stop st i signum in
  let st := signal_pend st i by_group signum in
  let st := signal_wake st i signum in
  set_need_switch st true.

(** The choice of [group] and [recipient] before the signal is made pending. *)
Definition signal_target st (pid : Z) : option Z * option Z :=
  let '(g, r) :=
    match find_proc st (λ p, (id_pid (p_ids p) =? pid) && is_live p) with
    | Some i => if id_tgid (p_ids st.p i) =? pid then (p_group st.p i, None) else (None, Some i)
    | None => (None, None)
    end in
  match g, r with
  | None, None =>
      match sched_find_group_member st pid with
      | Some i => (p_group st.p i, Some i)
      | None => (None, None)
      end
  | _, _ => (g, r)
  end.

Definition sched_send_signal st (pid signum : Z) : sched :=
  if (signum <? 1) || (NSIG <=? signum) then st
  else
    let '(g, recipient) := signal_target st pid in
    let '(st, recipient) :=
      match g with
      | Some _ => let st := task_group_set_process_signal st g signum in
                  (st, sched_find_group_signal_recipient st g signum)
      | None => (st, recipient)
      end in
    match recipient with
    | Some i => signal_recipient st i (bool_decide (g ≠ None)) signum
    | None => st
    end.

Definition sched_send_signal_to_pgid st (pgid signum : Z) : sched :=
  if (signum <? 1) || (NSIG <=? signum) || (pgid =? 0) then st
  else
    for_loop 0 (Z.to_nat MAX_PROCS)
      (λ i st, if (id_pgid (p_ids st.p i) =? pgid) && is_live st.p i
               then sched_send_signal st (id_pid (p_ids st.p i)) signum else st) st.

Definition sched_process_has_unblocked_signal st (p : proc) : bool :=
  let free := not32 (sg_blocked (p_sig p)) in
  negb (sg_pending (p_sig p) &u free =? 0) ||
  match p_group p with
  | Some g => negb (gr_sig_pending st.g g &u free =? 0)
  | None => false
  end.

(** *** Exit, stop and wait *)

Definition sched_set_exit_status st (status : Z) : sched :=
  match g_current st with
  | Some c => upd_proc st c (set_exit_status (Z.shiftl (status &u 0xFF) 8))
  | None => st
  end.

(** The exit status a process takes from its exiting group. *)
Definition inherit_exit st (c : Z) (g : option Z) : sched :=
  match g with
  | Some g => if gr_group_exit st.g g
              then upd_proc st c (set_exit_status (gr_exit_status st.g g)) else st
  | None => st
  end.

(** Leaving the live members of the group; the last one publishes the group's
    status and wakes those who wait for the group. *)
Definition leave_group st (c : Z) (g : option Z) : sched :=
  let st := task_group_remove_task st g in
  match g with
  | Some gi =>
      if task_group_live_count st g =? 0 then
        let st := if gr_group_exit st.g gi then st
                  else upd_group st gi (set_gr_exit false (p_exit_status st.p c)) in
        sched_wake_group_waiters st g
      else st
  | None => st
  end.

Definition sched_mark_exit st e : sched * E :=
  match g_current st with
  | None => (st, e)
  | Some c =>
      let g := p_group st.p c in
      let st := inherit_exit st c g in
      let e := if p_clear_child_tid st.p c =? 0 then e
               else se_clear_tid e c (p_clear_child_tid st.p c) in
      let e := se_console_release e c in
      let '(woken, e) := se_put_files e c in
      let st := wake_others st woken in
      let st := leave_group st c g in
      let st := upd_proc st c (set_state PROC_ZOMBIE) in
      let st := if bool_decide (g = None) || (task_group_live_count st g =? 0)
                then sched_wake_all st (QProc c) else st in
      (st, e)
  end.

Definition sched_mark_group_exit st e (status : Z) : sched * E :=
  match g_current st with
  | None => (st, e)
  | Some c =>
      match p_group st.p c with
      | None => (st, e)
      | Some g =>
          let st := upd_group st g (set_gr_exit true (Z.shiftl (status &u 0xFF) 8)) in
          let st := for_loop 0 (Z.to_nat MAX_PROCS)
            (λ i st, if is_live st.p i && in_group g st.p i && negb (i =? c)
                     then upd_proc (sched_clear_wait st i) i (set_state PROC_READY) else st) st in
          sched_mark_exit st e
      end
  end.

Definition sched_mark_signaled st e (sig : Z) (dumped_core : bool) : sched * E :=
  match g_current st with
  | None => (st, e)
  | Some c =>
      let st := upd_proc st c (set_exit_status (sig &u 0x7F)) in
      let st := if dumped_core
                then upd_proc st c (λ p, set_exit_status (p_exit_status p |u 0x80) p) else st in
      sched_mark_exit st e
  end.

Definition sched_mark_stopped st (sig : Z) : sched :=
  match g_current st with
  | None => st
  | Some c =>
      let st := upd_proc st c (set_state PROC_STOPPED) in
      let st := upd_proc st c (set_exit_status (Z.shiftl (sig &u 0xFF) 8 |u 0x7F)) in
      let ppid := id_ppid (p_ids st.p c) in
      let st := if ppid =? 0 then st else sched_send_signal st ppid SIGCHLD in
      sched_wake_all st (QProc c)
  end.

(** One round of the loop of [sched_waitpid]: [inl] is a return value, [inr] the
    queue to block on before the next round. *)
Definition waitpid_round st e (pid options : Z) : (Z * sched * E) + qid :=
  let target := match sched_find_slot st pid with
                | Some i => Some i
                | None => sched_find_group_member st pid
                end in
  match target with
  | None => inl (-1, st, e)
  | Some i =>
      if negb (id_tgid (p_ids st.p i) =? id_tid (p_ids st.p i)) then inl (-1, st, e)
      else
        let g := p_group st.p i in
        if bool_decide (p_state st.p i = PROC_ZOMBIE) &&
           match g with Some g => negb (sched_group_has_live_slots st g) | None => true end then
          let status := match g with
                        | Some g => if gr_group_exit st.g g then gr_exit_status st.g g
                                    else p_exit_status st.p i
                        | None => p_exit_status st.p i
                        end in
          let '(st, e) := match g with Some g => sched_reap_group st e g | None => sched_reap st e i end in
          inl (s32 status, st, e)
        else if negb (options &u WUNTRACED =? 0) && bool_decide (p_state st.p i = PROC_STOPPED) then
          inl (s32 (p_exit_status st.p i), st, e)
        else if negb (options &u WNOHANG =? 0) then inl (0, st, e)
        else inr (match g with Some g => QGroup g | None => QProc i end)
  end.

(** The loop, with the state the caller finds when it runs again after blocking
    as a parameter ([resume]). *)
Variable resume : sched → E → option (sched * E).

Fixpoint sched_waitpid (rounds fuel : nat) st e (pid options : Z) : option (Z * sched * E) :=
  match rounds with
  | O => None
  | S rounds =>
      match waitpid_round st e pid options with
      | inl r => Some r
      | inr q =>
          match sched_block fuel st e (Some q) with
          | None => None
          | Some (st, e) =>
              match resume st e with
              | None => None
              | Some (st, e) => sched_waitpid rounds fuel st e pid options
              end
          end
      end
  end.
Definition sched_wait rounds fuel st e pid := sched_waitpid rounds fuel st e pid 0.

(** *** Lookup and snapshots *)

Definition sched_find_process st (pid : Z) (include_zombie : bool) : option Z :=
  match sched_find_slot st pid with
  | None => None
  | Some i => if negb include_zombie && bool_decide (p_state st.p i = PROC_ZOMBIE) then None else Some i
  end.
Definition sched_find_pid st (pid : Z) : option Z := sched_find_process st pid false.

Definition shown (include_zombie : bool) (p : proc) : bool :=
  is_used p && (include_zombie || negb (bool_decide (p_state p = PROC_ZOMBIE))).

Definition sched_snapshot_pids st (max : Z) (include_zombie : bool) : list Z :=
  for_loop 0 (Z.to_nat MAX_PROCS)
    (λ i out, if (Z.of_nat (length out) <? max) && shown include_zombie st.p i
              then out ++ [id_pid (p_ids st.p i)] else out) [].

Definition sched_snapshot_tgids st (max : Z) (include_zombie : bool) : list Z :=
  for_loop 0 (Z.to_nat MAX_PROCS)
    (λ i out, let tgid := id_tgid (p_ids st.p i) in
              if (Z.of_nat (length out) <? max) && shown include_zombie st.p i && negb (tgid =? 0) &&
                 negb (bool_decide (tgid ∈ out))
              then out ++ [tgid] else out) [].

Definition sched_find_group st (tgid : Z) (include_zombie : bool) : option Z :=
  if tgid =? 0 then None
  else match find_proc st (λ p, (id_tgid (p_ids p) =? tgid) && shown include_zombie p) with
       | Some i => p_group st.p i
       | None => None
       end.

Definition sched_session_has_pgid st (sid pgid : Z) : bool :=
  if (sid =? 0) || (pgid =? 0) then false
  else match find_proc st (λ p, (id_pgid (p_ids p) =? pgid) && (id_sid (p_ids p) =? sid) && is_live p) with
       | Some _ => true
       | None => false
       end.

(** *** Delivery *)

Definition sched_record_user_fault st (signum : Z) : sched :=
  match g_current st with
  | None => st
  | Some c =>
      if (signum <? 1) || (NSIG <=? signum) then st
      else upd_proc st c (λ p, set_sig
             (mk_sig (sg_pending (p_sig p) |u bit signum) (sg_blocked (p_sig p) &u not32 (bit signum))
                (sg_actions (p_sig p)) (sg_handlers (p_sig p)) true signum) p)
  end.

Definition is_fatal_default (sig : Z) : bool :=
  negb (sig =? SIGCHLD) && negb (sig =? SIGSTOP) && negb (sig =? SIGTSTP) && negb (sig =? SIGCONT).
Definition dumps_core_default (sig : Z) : bool :=
  (sig =? SIGTRAP) || (sig =? SIGILL) || (sig =? SIGFPE) || (sig =? SIGSEGV).

Definition sched_signal_handler (p : proc) (signum : Z) : Z :=
  if (signum <? 0) || (NSIG <=? signum) then SIG_DFL
  else match sg_actions (p_sig p) with Some h => h.[signum] | None => (sg_handlers (p_sig p)).[signum] end.

(** The signal to deliver to [c] and the state with its pending bit cleared. *)
Definition take_signal st (c : Z) : option Z * sched :=
  let p := st.p c in
  let deliverable := sg_pending (p_sig p) &u not32 (sg_blocked (p_sig p)) in
  let own :=
    if cr_valid (p_sig p) && (cr_signum (p_sig p) <? NSIG) &&
       negb (deliverable &u bit (cr_signum (p_sig p)) =? 0)
    then Some (cr_signum (p_sig p))
    else let s := lowest_signal deliverable in if s =? 0 then None else Some s in
  match own with
  | Some s => (Some s, upd_proc st c (λ p, set_pending (sg_pending (p_sig p) &u not32 (bit s)) p))
  | None =>
      let '(s, st) := task_group_take_process_signal st (p_group p) (sg_blocked (p_sig p)) in
      (if s =? 0 then None else Some s, st)
  end.

(** The actions of a delivery that end in a call of [schedule] set [true]. *)
Definition kill_and_switch st e (sig : Z) (core : bool) : bool * sched * E :=
  let '(st, e) := sched_mark_signaled st e sig core in (true, st, e).

Definition run_handler st e (c signum handler : Z) : bool * sched * E :=
  let '(ok, e) := se_setup_frame e c signum handler in
  if ok then (false, st, e) else kill_and_switch st e SIGSEGV false.

Definition deliver st e (c signum : Z) : bool * sched * E :=
  let p := st.p c in
  let from_crash := cr_valid (p_sig p) && (cr_signum (p_sig p) =? signum) in
  let handler := sched_signal_handler p signum in
  let handler := if from_crash && (handler =? SIG_IGN) then SIG_DFL else handler in
  let clear_crash st := if from_crash then upd_proc st c (set_crash false) else st in
  if signum =? SIGSTOP then (true, sched_mark_stopped st SIGSTOP, e)
  else if (signum =? SIGTSTP) && (handler =? SIG_DFL) then (true, sched_mark_stopped st SIGTSTP, e)
  else if signum =? SIGCONT then
    if SIG_IGN <? handler then run_handler st e c signum handler else (false, st, e)
  else if handler =? SIG_IGN then (false, clear_crash st, e)
  else if handler =? SIG_DFL then
    if is_fatal_default signum then
      let '(dumped, e) := if from_crash && dumps_core_default signum
                          then se_core_dump e c signum else (false, e) in
      kill_and_switch (clear_crash st) e signum dumped
    else (false, clear_crash st, e)
  else run_handler (clear_crash st) e c signum handler.

Definition sched_signal_check (fuel : nat) st e : option (sched * E) :=
  match g_current st with
  | None => Some (st, e)
  | Some c =>
      if negb (se_frame_is_user e) then Some (st, e)
      else
        let exiting := match p_group st.p c with Some g => gr_group_exit st.g g | None => false end in
        if exiting then
          let '(st, e) := sched_mark_exit st e in schedule fuel st e
        else
          match take_signal st c with
          | (None, st) => Some (st, e)
          | (Some signum, st) =>
              let '(switch, st, e) := deliver st e c signum in
              if switch then schedule fuel st e else Some (st, e)
          end
  end.
End with_env.
