(* ===== verification/SchedInv.v ===== *)
(** * Scheduler: wait queues and invariants

    The intrusive wait queues as lists of process indices, and the invariant of
    the scheduler state: who waits where, who runs, how the groups count their
    members. *)

From S2P Require Import Prelude Sched.

Definition proc_ix (i : Z) : Prop := 0 <= i < MAX_PROCS.

Definition valid_q (q : qid) : Prop :=
  match q with QProc i => proc_ix i | QGroup g => proc_ix g | QOther _ => True end.

Record sized (st : sched) : Prop := {
  sz_procs : length (proc_table st) = Z.to_nat MAX_PROCS;
  sz_groups : length (groups st) = Z.to_nat MAX_PROCS;
}.

(** ** Reading after writing *)

Lemma upd_proc_get st i f j :
  sized st → proc_ix i → 0 <= j → (upd_proc st i f).p j = if i =? j then f (st.p i) else st.p j.
Proof.
  intros [Hp _] Hi Hj. cbn. rewrite arr_get_set; [done| |done]. unfold proc_ix, MAX_PROCS in *. lia.
Qed.

Lemma upd_group_get st i f j :
  sized st → proc_ix i → 0 <= j → (upd_group st i f).g j = if i =? j then f (st.g i) else st.g j.
Proof.
  intros [_ Hg] Hi Hj. cbn. rewrite arr_get_set; [done| |done]. unfold proc_ix, MAX_PROCS in *. lia.
Qed.

Lemma sized_upd_proc st i f : sized st → sized (upd_proc st i f).
Proof. intros [? ?]. split; cbn; by rewrite ?length_arr_set. Qed.
Lemma sized_upd_group st i f : sized st → sized (upd_group st i f).
Proof. intros [? ?]. split; cbn; by rewrite ?length_arr_set. Qed.
Lemma sized_set_queue st q w : sized st → sized (set_queue st q w).
Proof. destruct q; cbn; [apply sized_upd_proc|apply sized_upd_group|by intros [? ?]]. Qed.

Create HintDb sched.
#[export] Hint Resolve sized_upd_proc sized_upd_group sized_set_queue : sched.
Lemma proc_ix_nonneg i : proc_ix i → 0 <= i.
Proof. unfold proc_ix. lia. Qed.
#[export] Hint Resolve proc_ix_nonneg : sched.

(** A process record up to the queue of its waiters. *)
Definition core (p : proc) : proc := set_waiters empty_wq p.

Lemma set_queue_core st q w j : sized st → valid_q q → 0 <= j → core ((set_queue st q w).p j) = core (st.p j).
Proof.
  intros Hs Hq Hj. destruct q as [i|g|n]; [|done..]. cbn [set_queue].
  rewrite upd_proc_get by done. by destruct (Z.eqb_spec i j) as [->|].
Qed.

Lemma core_wait p p' : core p = core p' → p_wait p = p_wait p' ∧ p_state p = p_state p' ∧
  p_ids p = p_ids p' ∧ p_group p = p_group p' ∧ p_sig p = p_sig p'.
Proof. destruct p, p'. unfold core, set_waiters. cbn. intros [= -> -> -> -> -> -> ->]. done. Qed.

Lemma get_set_queue st q w q' :
  sized st → valid_q q → valid_q q' → get_queue (set_queue st q w) q' = if decide (q = q') then w else get_queue st q'.
Proof.
  intros Hs Hq Hq'. destruct q as [i|g|n], q' as [i'|g'|n']; cbn [set_queue get_queue valid_q] in *;
    try (rewrite decide_False by done; done).
  - rewrite upd_proc_get by (done || by apply proc_ix_nonneg).
    destruct (Z.eqb_spec i i') as [->|Hne]; [by rewrite decide_True|]. rewrite decide_False by congruence. done.
  - rewrite upd_group_get by (done || by apply proc_ix_nonneg).
    destruct (Z.eqb_spec g g') as [->|Hne]; [by rewrite decide_True|]. rewrite decide_False by congruence. done.
  - cbn [others]. rewrite lookup_insert. destruct (decide (n = n')) as [->|Hne]; [by rewrite decide_True|].
    rewrite decide_False by congruence. done.
Qed.

Lemma get_queue_upd_proc st i f q :
  sized st → proc_ix i → valid_q q → (∀ p, p_state_waiters (f p) = p_state_waiters p) →
  get_queue (upd_proc st i f) q = get_queue st q.
Proof.
  intros Hs Hi Hq Hf. destruct q as [j|g|n]; cbn [get_queue]; [|done..].
  rewrite upd_proc_get by (done || by apply proc_ix_nonneg). destruct (Z.eqb_spec i j) as [->|]; [apply Hf|done].
Qed.

(** ** Queues as lists *)

Fixpoint chain (st : sched) (cur : option Z) (l : list Z) : Prop :=
  match l with
  | [] => cur = None
  | i :: l' => cur = Some i ∧ chain st (w_next (p_wait st.p i)) l'
  end.

Definition waits_on (st : sched) (q : qid) (i : Z) : Prop := w_queue (p_wait st.p i) = Some q.
#[global] Instance waits_on_dec st q i : Decision (waits_on st q i) := decide (w_queue (p_wait st.p i) = Some q).

Record wq_ok (st : sched) (q : qid) (l : list Z) : Prop := {
  wq_chain : chain st (wq_head (get_queue st q)) l;
  wq_last : wq_tail (get_queue st q) = last l;
  wq_nodup : NoDup l;
  wq_mem i : i ∈ l ↔ proc_ix i ∧ waits_on st q i;
}.

Lemma chain_ext st st' cur l :
  (∀ i, i ∈ l → w_next (p_wait st'.p i) = w_next (p_wait st.p i)) → chain st cur l → chain st' cur l.
Proof.
  revert cur. induction l as [|i l IH]; intros cur He; [done|]. intros [-> Hc]. split; [done|].
  rewrite He by left. apply IH; [|done]. intros j Hj. apply He. by right.
Qed.

Lemma chain_app st cur l1 l2 :
  chain st cur (l1 ++ l2) ↔
    chain st (match l1 with [] => cur | i :: _ => Some i end) (l1 ++ l2) ∧
    (match l1 with [] => cur | i :: _ => Some i end) = cur.
Proof. destruct l1; simpl; naive_solver. Qed.

Lemma chain_head st cur l : chain st cur l → cur = head l.
Proof. destruct l; [done|]. by intros [-> _]. Qed.

Lemma chain_from st cur l1 i l2 : chain st cur (l1 ++ i :: l2) → chain st (w_next (p_wait st.p i)) l2.
Proof. revert cur. induction l1 as [|j l1 IH]; intros cur; [by intros [_ ?]|]. intros [_ Hc]. by eapply IH. Qed.

(** Redirecting the link out of the last element of the first part. *)
Lemma chain_splice st st' cur l1 p l2 l2' :
  chain st cur (l1 ++ p :: l2) → NoDup (l1 ++ [p]) →
  (∀ i, i ∈ l1 → w_next (p_wait st'.p i) = w_next (p_wait st.p i)) →
  chain st' (w_next (p_wait st'.p p)) l2' → chain st' cur (l1 ++ p :: l2').
Proof.
  revert cur. induction l1 as [|i l1 IH]; intros cur Hc Hn He Hc'; simpl in *.
  - destruct Hc as [-> _]. done.
  - destruct Hc as [-> Hc]. split; [done|]. rewrite He by left. apply NoDup_cons in Hn as [_ Hn].
    apply IH; [done|done| |done]. intros j Hj. apply He. by right.
Qed.

Lemma members_unique st q q' i :
  waits_on st q i → waits_on st q' i → q = q'.
Proof. unfold waits_on. congruence. Qed.

(** All queues at once. *)
Definition queues (st : sched) (Q : qid → list Z) : Prop := ∀ q, valid_q q → wq_ok st q (Q q).

Lemma queue_bound st q l : wq_ok st q l → (length l <= Z.to_nat MAX_PROCS)%nat.
Proof.
  intros [_ _ Hn Hm]. rewrite <-(length_seqZ 0 MAX_PROCS).
  apply NoDup_incl_length; [by apply NoDup_ListNoDup|]. intros i Hi. apply list_elem_of_In.
  apply elem_of_seqZ. apply list_elem_of_In, Hm in Hi as [Hi _]. unfold proc_ix in Hi. lia.
Qed.

(** *** Removal *)

Definition unlink (st : sched) (q : qid) (i : Z) (prev : option Z) : sched :=
  let st := match prev with
            | Some pr => upd_proc st pr (set_wnext (w_next (p_wait st.p i)))
            | None => set_queue st q (mk_wq (w_next (p_wait st.p i)) (wq_tail (get_queue st q)))
            end in
  if bool_decide (wq_tail (get_queue st q) = Some i)
  then set_queue st q (mk_wq (wq_head (get_queue st q)) prev) else st.

Lemma remove_loop_unlink fuel st q i prev cur l1 l2 :
  chain st cur (l1 ++ i :: l2) → i ∉ l1 → (length l1 < fuel)%nat →
  queue_remove_loop fuel st q i prev cur =
    unlink st q i (match last l1 with Some p => Some p | None => prev end).
Proof.
  revert prev cur l1. induction fuel as [|fuel IH]; intros prev cur l1 Hc Hi Hf; [lia|].
  destruct l1 as [|j l1].
  - destruct Hc as [-> _]. cbn [queue_remove_loop]. rewrite Z.eqb_refl. done.
  - destruct Hc as [-> Hc]. cbn [queue_remove_loop]. apply not_elem_of_cons in Hi as [Hij Hi].
    destruct (Z.eqb_spec j i); [congruence|]. simpl in Hf. rewrite (IH (Some j) _ l1 Hc Hi) by lia.
    rewrite last_cons. by destruct (last l1).
Qed.

(** What the queue operations leave alone: everything but links, waits and queue
    heads. *)
Definition pview (p : proc) := (p_ids p, p_group p, p_state p, p_exit_status p, p_clear_child_tid p, p_sig p).
Definition gview (g : group) : group := set_gr_waiters empty_wq g.
Definition wkey (w : proc_wait) := (w_queue w, w_deadline w, w_deadline_set w).

Record gframe (st st' : sched) : Prop := {
  gf_groups g : 0 <= g → gview st'.g g = gview st.g g;
  gf_current : g_current st' = g_current st;
  gf_next : g_next_pid st' = g_next_pid st;
  gf_ticks : g_ticks st' = g_ticks st;
}.
Record frame (st st' : sched) : Prop := {
  fr_procs j : 0 <= j → pview st'.p j = pview st.p j;
  fr_g : gframe st st';
}.

Lemma gframe_refl st : gframe st st.
Proof. by split. Qed.
Lemma gframe_trans st1 st2 st3 : gframe st1 st2 → gframe st2 st3 → gframe st1 st3.
Proof. intros [A1 B1 C1 D1] [A2 B2 C2 D2]. split; [|congruence..]. intros g Hg. by rewrite A2, A1. Qed.
Lemma frame_refl st : frame st st.
Proof. by split. Qed.
Lemma frame_trans st1 st2 st3 : frame st1 st2 → frame st2 st3 → frame st1 st3.
Proof. intros [A1 B1] [A2 B2]. split; [|by eapply gframe_trans]. intros j Hj. by rewrite A2, A1. Qed.

Lemma frame_upd_proc st i f :
  sized st → proc_ix i → (∀ p, pview (f p) = pview p) → frame st (upd_proc st i f).
Proof.
  intros Hs Hi Hf. split; [|by split]. intros j Hj. rewrite upd_proc_get by done.
  by destruct (Z.eqb_spec i j) as [->|].
Qed.

Lemma frame_set_queue st q w : sized st → valid_q q → frame st (set_queue st q w).
Proof.
  intros Hs Hq. destruct q as [i|g|n]; cbn.
  - by apply frame_upd_proc.
  - split; [done|]. split; try done. intros g' Hg'. rewrite upd_group_get by done.
    by destruct (Z.eqb_spec g g') as [->|].
  - by split.
Qed.

Lemma set_queue_wait st q w j : sized st → valid_q q → 0 <= j → p_wait ((set_queue st q w).p j) = p_wait (st.p j).
Proof. intros Hs Hq Hj. by apply core_wait, set_queue_core. Qed.

(** The links and heads after [unlink]. *)
Lemma unlink_spec st q i l1 l2 :
  sized st → valid_q q → wq_ok st q (l1 ++ i :: l2) →
  let st' := unlink st q i (last l1) in
  sized st' ∧ frame st st' ∧
  get_queue st' q = mk_wq (head (l1 ++ l2)) (last (l1 ++ l2)) ∧
  (∀ q', valid_q q' → q' ≠ q → get_queue st' q' = get_queue st q') ∧
  ∀ j, 0 <= j → wkey (p_wait st'.p j) = wkey (p_wait st.p j) ∧
    w_next (p_wait st'.p j) = if bool_decide (last l1 = Some j) then head l2 else w_next (p_wait st.p j).
Proof.
  intros Hs Hq [Hc Ht Hn Hm].
  assert (w_next (p_wait st.p i) = head l2) as Hnext by (by eapply chain_head, chain_from).
  assert (wq_head (get_queue st q) = head (l1 ++ i :: l2)) as Hh by by eapply chain_head.
  assert (bool_decide (last (l1 ++ i :: l2) = Some i) = bool_decide (l2 = [])) as Hlast.
  { apply bool_decide_ext. rewrite last_app_cons. destruct l2 as [|x l2]; [done|].
    rewrite last_cons_cons. split; [|done]. intros E. apply last_Some_elem_of in E.
    apply NoDup_app in Hn as (_ & _ & Hn). by apply NoDup_cons in Hn as [? _]. }
  unfold unlink. rewrite Hnext.
  destruct (last l1) as [p|] eqn:El.
  - assert (proc_ix p) as Hp.
    { apply last_Some_elem_of in El. apply Hm. apply elem_of_app. by left. }
    assert (∃ x l1', l1 = x :: l1') as (x & l1' & El1) by (destruct l1; [done|eauto]).
    set (st1 := upd_proc st p (set_wnext (head l2))).
    assert (sized st1) as Hs1 by by apply sized_upd_proc.
    assert (∀ q', valid_q q' → get_queue st1 q' = get_queue st q') as Hg1.
    { intros q' Hq'. apply get_queue_upd_proc; done. }
    assert (frame st st1) as Hf1 by by apply frame_upd_proc.
    assert (∀ j, 0 <= j → wkey (p_wait st1.p j) = wkey (p_wait st.p j) ∧
      w_next (p_wait st1.p j) = if bool_decide (Some p = Some j) then head l2 else w_next (p_wait st.p j)) as Hw1.
    { intros j Hj. unfold st1. rewrite upd_proc_get by done. destruct (Z.eqb_spec p j) as [->|Hne].
      - split; [done|]. by rewrite bool_decide_true.
      - split; [done|]. by rewrite bool_decide_false by congruence. }
    clearbody st1. rewrite Hg1, Ht, Hlast by done. clear Hlast. case_bool_decide as E2.
    + subst l2. rewrite Hh. split; [by apply sized_set_queue|].
      split; [eapply frame_trans; [exact Hf1|]; by apply frame_set_queue|].
      split; [rewrite get_set_queue by done; rewrite decide_True by done; f_equal|].
      { subst l1. done. } { by rewrite app_nil_r, El. }
      split.
      * intros q' Hq' Hne. rewrite get_set_queue by done. rewrite decide_False by congruence. by apply Hg1.
      * intros j Hj. rewrite set_queue_wait by done. by apply Hw1.
    + split; [done|]. split; [done|]. split; [|split; [intros; by apply Hg1|done]].
      rewrite Hg1 by done. destruct (get_queue st q) as [h t] eqn:Eq. cbn in Hh, Ht. rewrite Hh, Ht. f_equal.
      { subst l1. done. }
      rewrite !last_app. destruct l2 as [|y l2]; [done|]. by rewrite last_cons_cons.
  - apply last_None in El. subst l1. simpl in *.
    set (st1 := set_queue st q (mk_wq (head l2) (wq_tail (get_queue st q)))).
    assert (sized st1) as Hs1 by by apply sized_set_queue.
    assert (get_queue st1 q = mk_wq (head l2) (wq_tail (get_queue st q))) as Hg1.
    { unfold st1. rewrite get_set_queue by done. by rewrite decide_True. }
    assert (∀ q', valid_q q' → q' ≠ q → get_queue st1 q' = get_queue st q') as Hg2.
    { intros q' Hq' Hne. unfold st1. rewrite get_set_queue by done. by rewrite decide_False by congruence. }
    assert (frame st st1) as Hf1 by by apply frame_set_queue.
    assert (∀ j, 0 <= j → p_wait st1.p j = p_wait st.p j) as Hw1 by (intros; by apply set_queue_wait).
    clearbody st1. rewrite Hg1. cbn [wq_head wq_tail]. rewrite Ht, Hlast. clear Hlast. case_bool_decide as E2.
    + subst l2. split; [by apply sized_set_queue|]. split; [eapply frame_trans; [exact Hf1|]; by apply frame_set_queue|].
      split; [rewrite get_set_queue by done; by rewrite decide_True|]. split.
      * intros q' Hq' Hne. rewrite get_set_queue by done. rewrite decide_False by congruence. by apply Hg2.
      * intros j Hj. rewrite set_queue_wait by done. rewrite Hw1 by done. done.
    + split; [done|]. split; [done|]. split; [|split; [done|]].
      * rewrite Hg1, Ht. f_equal. destruct l2 as [|y l2]; [done|]. by rewrite last_cons_cons.
      * intros j Hj. by rewrite Hw1.
Qed.

(** Removing [i] from every queue. *)
Definition without (i : Z) (Q : qid → list Z) : qid → list Z := λ q, filter (λ j, j ≠ i) (Q q).

Lemma filter_notin (i : Z) (l : list Z) : i ∉ l → filter (λ j, j ≠ i) l = l.
Proof.
  intros Hi. induction l as [|j l IH]; [done|]. apply not_elem_of_cons in Hi as [? Hi].
  rewrite filter_cons_True by congruence. by rewrite IH.
Qed.

Lemma filter_split (i : Z) (l1 l2 : list Z) : i ∉ l1 → i ∉ l2 → filter (λ j, j ≠ i) (l1 ++ i :: l2) = l1 ++ l2.
Proof.
  intros H1 H2. rewrite filter_app, filter_cons_False by tauto. by rewrite !filter_notin.
Qed.

(** A queue whose members and links are untouched stays what it was. *)
Lemma wq_ok_ext st st' q l :
  get_queue st' q = get_queue st q →
  (∀ i, i ∈ l → w_next (p_wait st'.p i) = w_next (p_wait st.p i)) →
  (∀ i, proc_ix i → waits_on st' q i ↔ waits_on st q i) →
  wq_ok st q l → wq_ok st' q l.
Proof.
  intros Hg Hn Hw [Hc Ht Hd Hm]. split; [|congruence|done|].
  - rewrite Hg. by eapply chain_ext.
  - intros i. rewrite Hm. split; intros [Hi ?]; (split; [done|]); by apply Hw.
Qed.

Lemma wkey_queue w w' : wkey w = wkey w' → w_queue w = w_queue w'.
Proof. unfold wkey. by intros [= -> _ _]. Qed.

(** *** [sched_clear_wait] *)

Definition refs_valid (st : sched) : Prop :=
  ∀ i q, proc_ix i → w_queue (p_wait st.p i) = Some q → valid_q q.

Lemma clear_wait_ok st Q i :
  sized st → queues st Q → refs_valid st → proc_ix i →
  let st' := sched_clear_wait st i in
  sized st' ∧ frame st st' ∧ queues st' (without i Q) ∧ p_wait st'.p i = no_wait ∧
  ∀ j, 0 <= j → j ≠ i → wkey (p_wait st'.p j) = wkey (p_wait st.p j).
Proof.
  intros Hs HQ Hv Hi st'. subst st'. unfold sched_clear_wait.
  destruct (w_queue (p_wait st.p i)) as [q|] eqn:Ew.
  - pose proof (Hv i q Hi Ew) as Hq. pose proof (HQ q Hq) as Hok.
    assert (i ∈ Q q) as Hin by by apply (wq_mem _ _ _ Hok).
    pose proof (queue_bound _ _ _ Hok) as Hb.
    apply list_elem_of_split in Hin as (l1 & l2 & El). rewrite El in *.
    pose proof (wq_nodup _ _ _ Hok) as Hn. pose proof Hn as Hn'.
    rewrite <-Permutation_middle in Hn'. apply NoDup_cons in Hn' as [Hni Hn12].
    apply not_elem_of_app in Hni as [Hi1 Hi2].
    unfold sched_wait_queue_remove.
    rewrite (remove_loop_unlink _ st q i None _ l1 l2 (wq_chain _ _ _ Hok) Hi1)
      by (rewrite length_app in Hb; simpl in Hb; lia).
    replace (match last l1 with Some p => Some p | None => None end) with (last l1) by (by destruct (last l1)).
    destruct (unlink_spec st q i l1 l2 Hs Hq Hok) as (Hs1 & Hf1 & Hg1 & Hg1' & Hw1).
    set (st1 := unlink st q i (last l1)) in *. clearbody st1.
    set (st2 := upd_proc st1 i (set_wait no_wait)).
    assert (∀ j, 0 <= j → p_wait st2.p j = if i =? j then no_wait else p_wait st1.p j) as Hw2.
    { intros j Hj. unfold st2. rewrite upd_proc_get by done. by destruct (i =? j). }
    assert (∀ q', valid_q q' → get_queue st2 q' = get_queue st1 q') as Hg2.
    { intros q' Hq'. by apply get_queue_upd_proc. }
    assert (∀ j, 0 <= j → j ≠ i → wkey (p_wait st2.p j) = wkey (p_wait st.p j)) as Hk.
    { intros j Hj Hji. rewrite Hw2 by done. destruct (Z.eqb_spec i j); [congruence|]. by apply Hw1. }
    assert (∀ q' j, proc_ix j → waits_on st2 q' j ↔ j ≠ i ∧ waits_on st q' j) as Hwo.
    { intros q' j Hj. unfold waits_on. destruct (Z.eq_dec j i) as [->|Hne].
      - rewrite Hw2 by (by apply proc_ix_nonneg). rewrite Z.eqb_refl. cbn. naive_solver.
      - rewrite (wkey_queue _ _ (Hk j (proc_ix_nonneg j Hj) Hne)). naive_solver. }
    split; [by apply sized_upd_proc|]. split; [eapply frame_trans; [exact Hf1|]; by apply frame_upd_proc|].
    split; [|split; [rewrite Hw2 by (by apply proc_ix_nonneg); by rewrite Z.eqb_refl|done]].
    intros q' Hq'. destruct (decide (q' = q)) as [->|Hne].
    + unfold without. rewrite El, filter_split by done.
      assert (∀ j, j ∈ l1 ++ i :: l2 → proc_ix j) as Hix by (intros j Hj; by apply (wq_mem _ _ _ Hok)).
      assert (∀ j, j ∈ l1 ++ i :: l2 → j ≠ i → w_next (p_wait st2.p j) =
        if bool_decide (last l1 = Some j) then head l2 else w_next (p_wait st.p j)) as Hnx.
      { intros j Hj Hji. pose proof (Hix j Hj). rewrite Hw2 by (by apply proc_ix_nonneg).
        destruct (Z.eqb_spec i j); [congruence|]. apply Hw1. by apply proc_ix_nonneg. }
      split; [| |done|].
      * rewrite Hg2, Hg1 by done. cbn [wq_head].
        assert (chain st2 (head l2) l2) as Hc2.
        { pose proof (chain_from _ _ _ _ _ (wq_chain _ _ _ Hok)) as Hc.
          rewrite (chain_head _ _ _ Hc) in Hc. eapply chain_ext; [|exact Hc]. intros j Hj.
          rewrite Hnx; [|set_solver|set_solver]. rewrite bool_decide_false; [done|].
          intros E. apply last_Some_elem_of in E. apply NoDup_app in Hn12 as (_ & Hd & _). by apply (Hd j). }
        destruct l1 as [|p l1' _] using rev_ind; [done|].
        rewrite last_snoc in *. rewrite <-app_assoc. simpl.
        replace (head (l1' ++ p :: l2)) with (head ((l1' ++ [p]) ++ i :: l2)) by (by destruct l1').
        pose proof (wq_chain _ _ _ Hok) as Hc. rewrite (chain_head _ _ _ Hc) in Hc. rewrite <-app_assoc in Hc.
        rewrite <-app_assoc. simpl in *.
        apply NoDup_app in Hn12 as (Hn1 & _).
        eapply chain_splice; [exact Hc|done| |].
        -- intros j Hj. rewrite Hnx; [|set_solver|set_solver]. rewrite bool_decide_false; [done|].
           intros [= ->]. apply NoDup_app in Hn1 as (_ & Hd & _). apply (Hd j Hj). left.
        -- rewrite Hnx; [|set_solver|set_solver]. by rewrite bool_decide_true.
      * by rewrite Hg2, Hg1 by done.
      * intros j. pose proof (wq_mem _ _ _ Hok j) as Hm.
        rewrite elem_of_app in *. rewrite elem_of_cons in Hm. split.
        -- intros Hj. assert (j ≠ i) by (intros ->; tauto).
           destruct (proj1 Hm ltac:(tauto)) as [Hjx Hjw]. split; [done|]. by apply Hwo.
        -- intros [Hjx Hjw]. apply Hwo in Hjw as [Hji Hjw]; [|done]. destruct (proj2 Hm (conj Hjx Hjw)) as [?|[?|?]]; tauto.
    + unfold without. pose proof (HQ q' Hq') as Hok'.
      assert (i ∉ Q q') as Hi'.
      { intros Hin. apply (wq_mem _ _ _ Hok') in Hin as [_ Hin]. apply Hne. by eapply members_unique. }
      rewrite filter_notin by done. eapply wq_ok_ext; [..|exact Hok'].
      * by rewrite Hg2, Hg1'.
      * intros j Hj. pose proof Hj as Hjm. apply (wq_mem _ _ _ Hok') in Hjm as [Hjx Hjw].
        rewrite Hw2 by (by apply proc_ix_nonneg). destruct (Z.eqb_spec i j) as [->|]; [done|].
        rewrite (proj2 (Hw1 j (proc_ix_nonneg j Hjx))). rewrite bool_decide_false; [done|].
        intros E. apply last_Some_elem_of in E. apply Hne. eapply members_unique; [exact Hjw|].
        apply (wq_mem _ _ _ Hok). apply elem_of_app. by left.
      * intros j Hj. rewrite Hwo by done. split; [tauto|]. intros Hw. split; [|done]. intros ->.
        apply Hi'. by apply (wq_mem _ _ _ Hok').
  - set (st2 := upd_proc st i (set_wait no_wait)).
    assert (∀ j, 0 <= j → p_wait st2.p j = if i =? j then no_wait else p_wait st.p j) as Hw2.
    { intros j Hj. unfold st2. rewrite upd_proc_get by done. by destruct (i =? j). }
    split; [by apply sized_upd_proc|]. split; [by apply frame_upd_proc|].
    split; [|split; [rewrite Hw2 by (by apply proc_ix_nonneg); by rewrite Z.eqb_refl|]].
    + intros q' Hq'. pose proof (HQ q' Hq') as Hok.
      assert (i ∉ Q q') as Hi' by (intros Hin; apply (wq_mem _ _ _ Hok) in Hin as [_ Hin]; congruence).
      unfold without. rewrite filter_notin by done. eapply wq_ok_ext; [..|exact Hok].
      * by apply get_queue_upd_proc.
      * intros j Hj. assert (proc_ix j) by by apply (wq_mem _ _ _ Hok) in Hj as [? _].
        rewrite Hw2 by (by apply proc_ix_nonneg). destruct (Z.eqb_spec i j) as [->|]; done.
      * intros j Hj. unfold waits_on. rewrite Hw2 by (by apply proc_ix_nonneg).
        destruct (Z.eqb_spec i j) as [->|]; [|done]. rewrite Ew. done.
    + intros j Hj Hji. rewrite Hw2 by done. destruct (Z.eqb_spec i j); [congruence|done].
Qed.

(** *** Enqueueing *)

Lemma chain_snoc st st' cur l i :
  chain st cur l → NoDup (l ++ [i]) → w_next (p_wait st'.p i) = None →
  (∀ j, j ∈ l → w_next (p_wait st'.p j) =
     if bool_decide (last l = Some j) then Some i else w_next (p_wait st.p j)) →
  chain st' (match l with [] => Some i | _ => cur end) (l ++ [i]).
Proof.
  intros Hc Hn Hi Hl. destruct l as [|t l _] using rev_ind; [done|].
  rewrite last_snoc in Hl. replace (match l ++ [t] with [] => Some i | _ => cur end) with cur by (by destruct l).
  rewrite <-app_assoc. simpl. apply NoDup_app in Hn as (Hn & _).
  eapply chain_splice; [exact Hc|done| |].
  - intros j Hj. rewrite Hl by set_solver. rewrite bool_decide_false; [done|]. intros [= ->].
    apply NoDup_app in Hn as (_ & Hd & _). apply (Hd j Hj). left.
  - rewrite Hl by set_solver. rewrite bool_decide_true by done. done.
Qed.

(** [proc->wait_queue = queue] follows the enqueueing in [sched_block]. *)
Definition join (st : sched) (q : qid) (i : Z) : sched :=
  upd_proc (sched_wait_queue_enqueue st q i) i (set_wqueue (Some q)).

Lemma enqueue_spec st q i l :
  sized st → valid_q q → proc_ix i → wq_ok st q l → i ∉ l →
  let st' := sched_wait_queue_enqueue st q i in
  sized st' ∧ frame st st' ∧
  get_queue st' q = mk_wq (match l with [] => Some i | _ => wq_head (get_queue st q) end) (Some i) ∧
  (∀ q', valid_q q' → q' ≠ q → get_queue st' q' = get_queue st q') ∧
  ∀ j, 0 <= j → wkey (p_wait st'.p j) = wkey (p_wait st.p j) ∧
    w_next (p_wait st'.p j) = if i =? j then None
      else if bool_decide (last l = Some j) then Some i else w_next (p_wait st.p j).
Proof.
  intros Hs Hq Hi Hok Hil. unfold sched_wait_queue_enqueue.
  set (st1 := upd_proc st i (set_wnext None)).
  assert (sized st1) as Hs1 by by apply sized_upd_proc.
  assert (∀ q', valid_q q' → get_queue st1 q' = get_queue st q') as Hg1 by (intros; by apply get_queue_upd_proc).
  assert (frame st st1) as Hf1 by by apply frame_upd_proc.
  assert (∀ j, 0 <= j → wkey (p_wait st1.p j) = wkey (p_wait st.p j) ∧
    w_next (p_wait st1.p j) = if i =? j then None else w_next (p_wait st.p j)) as Hw1.
  { intros j Hj. unfold st1. rewrite upd_proc_get by done. by destruct (Z.eqb_spec i j) as [->|]. }
  clearbody st1. rewrite Hg1, (wq_last _ _ _ Hok) by done.
  destruct (last l) as [t|] eqn:El.
  - assert (t ∈ l) as Ht by by apply last_Some_elem_of. assert (proc_ix t) as Htx by by apply (wq_mem _ _ _ Hok).
    assert (i ≠ t) by (intros ->; done).
    set (st2 := upd_proc st1 t (set_wnext (Some i))).
    assert (sized st2) as Hs2 by by apply sized_upd_proc.
    assert (∀ q', valid_q q' → get_queue st2 q' = get_queue st q') as Hg2.
    { intros q' Hq'. rewrite <-Hg1 by done. by apply get_queue_upd_proc. }
    split; [by apply sized_set_queue|]. split.
    { eapply frame_trans; [exact Hf1|]. eapply frame_trans; [by apply (frame_upd_proc st1 t (set_wnext (Some i)))|].
      by apply frame_set_queue. }
    split; [rewrite get_set_queue by done; rewrite decide_True, Hg2 by done; by destruct l|]. split.
    + intros q' Hq' Hne. rewrite get_set_queue by done. rewrite decide_False by congruence. by apply Hg2.
    + intros j Hj. rewrite set_queue_wait by done. unfold st2. rewrite upd_proc_get by done.
      destruct (Hw1 j Hj) as [Hk Hnx]. destruct (Z.eqb_spec t j) as [->|Hne].
      * destruct (Z.eqb_spec i j); [congruence|]. by rewrite bool_decide_true by done.
      * split; [done|]. rewrite Hnx. rewrite bool_decide_false by congruence. done.
  - apply last_None in El. subst l.
    set (st2 := set_queue st1 q (mk_wq (Some i) None)).
    assert (sized st2) as Hs2 by by apply sized_set_queue.
    assert (∀ q', valid_q q' → get_queue st2 q' = if decide (q = q') then mk_wq (Some i) None else get_queue st1 q') as Hg2.
    { intros q' Hq'. by apply get_set_queue. }
    split; [by apply sized_set_queue|]. split.
    { eapply frame_trans; [exact Hf1|]. eapply frame_trans; [by apply (frame_set_queue st1 q)|]. by apply frame_set_queue. }
    split; [rewrite get_set_queue by done; rewrite decide_True by done; rewrite Hg2 by done; by rewrite decide_True|]. split.
    + intros q' Hq' Hne. rewrite get_set_queue by done. rewrite decide_False by congruence.
      rewrite Hg2 by done. rewrite decide_False by congruence. by apply Hg1.
    + intros j Hj. rewrite set_queue_wait by done. unfold st2. rewrite set_queue_wait by done.
      destruct (Hw1 j Hj) as [Hk Hnx]. split; [done|]. by rewrite Hnx.
Qed.

Definition put_last (q : qid) (i : Z) (Q : qid → list Z) : qid → list Z :=
  λ q', if decide (q' = q) then Q q' ++ [i] else Q q'.

Lemma join_ok st Q q i :
  sized st → queues st Q → valid_q q → proc_ix i → w_queue (p_wait st.p i) = None →
  let st' := join st q i in
  sized st' ∧ frame st st' ∧ queues st' (put_last q i Q) ∧ w_queue (p_wait st'.p i) = Some q ∧
  ∀ j, 0 <= j → j ≠ i → wkey (p_wait st'.p j) = wkey (p_wait st.p j).
Proof.
  intros Hs HQ Hq Hi Hnw st'. pose proof (HQ q Hq) as Hok.
  assert (∀ q', valid_q q' → i ∉ Q q') as Hni.
  { intros q' Hq' Hin. apply (wq_mem _ _ _ (HQ q' Hq')) in Hin as [_ Hin]. unfold waits_on in Hin. congruence. }
  destruct (enqueue_spec st q i (Q q) Hs Hq Hi Hok (Hni q Hq)) as (Hs1 & Hf1 & Hg1 & Hg1' & Hw1).
  unfold join in st'. set (st1 := sched_wait_queue_enqueue st q i) in *. clearbody st1.
  assert (∀ j, 0 <= j → w_next (p_wait st'.p j) = w_next (p_wait st1.p j) ∧
    wkey (p_wait st'.p j) = if i =? j then (Some q, w_deadline (p_wait st1.p i), w_deadline_set (p_wait st1.p i))
                            else wkey (p_wait st.p j)) as Hw2.
  { intros j Hj. unfold st'. rewrite upd_proc_get by done. destruct (Z.eqb_spec i j) as [->|]; [done|].
    split; [done|]. by apply Hw1. }
  assert (∀ q', valid_q q' → get_queue st' q' = get_queue st1 q') as Hg2 by (intros; by apply get_queue_upd_proc).
  assert (∀ q' j, proc_ix j → waits_on st' q' j ↔ (j = i ∧ q' = q) ∨ (j ≠ i ∧ waits_on st q' j)) as Hwo.
  { intros q' j Hj. unfold waits_on. pose proof (proj2 (Hw2 j (proc_ix_nonneg j Hj))) as Hk.
    destruct (Z.eqb_spec i j) as [->|Hne]; unfold wkey in Hk; simplify_eq.
    - assert (w_queue (p_wait st'.p j) = Some q) as -> by congruence. naive_solver.
    - assert (w_queue (p_wait st'.p j) = w_queue (p_wait st.p j)) as -> by congruence. naive_solver. }
  split; [by apply sized_upd_proc|]. split; [eapply frame_trans; [exact Hf1|]; by apply frame_upd_proc|].
  split; [|split].
  - intros q' Hq'. unfold put_last. destruct (decide (q' = q)) as [->|Hne].
    + assert (NoDup (Q q ++ [i])) as Hnd.
      { apply NoDup_app. split; [apply Hok|]. split; [|apply NoDup_singleton].
        intros j Hj ->%list_elem_of_singleton. by apply (Hni q Hq). }
      split; [| |done|].
      * rewrite Hg2, Hg1 by done. cbn [wq_head]. apply (chain_snoc st); [apply Hok|done| |].
        -- rewrite (proj1 (Hw2 i (proc_ix_nonneg i Hi))), (proj2 (Hw1 i (proc_ix_nonneg i Hi))). by rewrite Z.eqb_refl.
        -- intros j Hj. assert (proc_ix j) as Hjx by by apply (wq_mem _ _ _ Hok).
           rewrite (proj1 (Hw2 j (proc_ix_nonneg j Hjx))), (proj2 (Hw1 j (proc_ix_nonneg j Hjx))).
           destruct (Z.eqb_spec i j) as [->|]; [by destruct (Hni q Hq)|done].
      * rewrite Hg2, Hg1 by done. by rewrite last_snoc.
      * intros j. rewrite elem_of_app, list_elem_of_singleton. rewrite (wq_mem _ _ _ Hok). split.
        -- intros [[Hj Hw]| ->]; [|split; [done|apply Hwo; [done|by left]]].
           split; [done|]. apply Hwo; [done|]. right. split; [|done]. intros ->. unfold waits_on in Hw. congruence.
        -- intros [Hj Hw]. apply Hwo in Hw; [|done]. naive_solver.
    + eapply wq_ok_ext; [..|exact (HQ q' Hq')].
      * by rewrite Hg2, Hg1'.
      * intros j Hj. pose proof Hj as Hjm. apply (wq_mem _ _ _ (HQ q' Hq')) in Hjm as [Hjx Hjw].
        rewrite (proj1 (Hw2 j (proc_ix_nonneg j Hjx))), (proj2 (Hw1 j (proc_ix_nonneg j Hjx))).
        destruct (Z.eqb_spec i j) as [->|]; [by destruct (Hni q' Hq')|].
        rewrite bool_decide_false; [done|]. intros E%last_Some_elem_of.
        apply Hne. eapply members_unique; [exact Hjw|]. by apply (wq_mem _ _ _ Hok).
      * intros j Hj. rewrite Hwo by done. split; [naive_solver|]. intros Hw. right. split; [|done].
        intros ->. unfold waits_on in Hw. congruence.
  - pose proof (proj2 (Hw2 i (proc_ix_nonneg i Hi))) as Hk. rewrite Z.eqb_refl in Hk. unfold wkey in Hk. congruence.
  - intros j Hj Hji. rewrite (proj2 (Hw2 j Hj)). destruct (Z.eqb_spec i j); [congruence|done].
Qed.

(** *** Waking *)

Definition woken (p : proc) : proc :=
  let p := set_wait no_wait p in
  if bool_decide (p_state p = PROC_BLOCKED) then set_state PROC_READY p else p.

Lemma core_woken p p' : core p = core p' → core (woken p) = core (woken p').
Proof.
  intros E. assert (p_state p = p_state p') as Es by (by apply core_wait).
  unfold woken. assert (∀ x, p_state (set_wait no_wait x) = p_state x) as Hst by done. rewrite !Hst, Es.
  case_bool_decide; destruct p, p'; unfold core, set_waiters, set_state, set_wait in *; cbn in *; congruence.
Qed.

Lemma wake_loop_spec fuel st cur l woke :
  sized st → chain st cur l → NoDup l → Forall proc_ix l → (length l < fuel)%nat →
  let '(st', woke') := wake_loop fuel st cur woke in
  sized st' ∧ gframe st st' ∧ (∀ q, valid_q q → get_queue st' q = get_queue st q) ∧
  g_need_switch st' = g_need_switch st ∧
  ∀ j, 0 <= j → st'.p j = if bool_decide (j ∈ l) then woken (st.p j) else st.p j.
Proof.
  revert st cur l woke. induction fuel as [|fuel IH]; intros st cur l woke Hs Hc Hn Hx Hf; [lia|].
  destruct l as [|i l].
  { rewrite Hc. cbn [wake_loop]. split; [done|]. split; [apply gframe_refl|]. done. }
  destruct Hc as [-> Hc]. cbn [wake_loop]. apply NoDup_cons in Hn as [Hil Hn]. apply Forall_cons in Hx as [Hi Hx].
  set (st1 := upd_proc st i (set_wait no_wait)).
  assert (sized st1) as Hs1 by by apply sized_upd_proc.
  set (st2 := if bool_decide (p_state st1.p i = PROC_BLOCKED) then upd_proc st1 i (set_state PROC_READY) else st1).
  assert (∀ j, 0 <= j → st2.p j = if i =? j then woken (st.p i) else st.p j) as Hp2.
  { intros j Hj. pose proof (proc_ix_nonneg i Hi).
    assert (∀ k, 0 <= k → st1.p k = if i =? k then set_wait no_wait (st.p i) else st.p k) as Hp1
      by (intros; by apply upd_proc_get).
    unfold st2. rewrite (Hp1 i), Z.eqb_refl by done. unfold woken. case_bool_decide.
    - rewrite upd_proc_get by done. rewrite !Hp1, Z.eqb_refl by done. by destruct (i =? j).
    - by rewrite Hp1. }
  assert (sized st2 ∧ gframe st st2 ∧ g_need_switch st2 = g_need_switch st ∧
    ∀ q, valid_q q → get_queue st2 q = get_queue st q) as (Hs2 & Hf2 & Hns2 & Hg2).
  { assert (∀ q, valid_q q → get_queue st1 q = get_queue st q) as Hg1 by (intros; by apply get_queue_upd_proc).
    unfold st2. case_bool_decide.
    - split; [by apply sized_upd_proc|]. split; [by split|]. split; [done|]. intros q Hq.
      rewrite <-Hg1 by done. by apply get_queue_upd_proc.
    - split; [done|]. split; [by split|]. done. }
  assert (chain st2 (w_next (p_wait st.p i)) l) as Hc2.
  { eapply chain_ext; [|exact Hc]. intros j Hj. rewrite Forall_forall in Hx.
    rewrite Hp2 by (by apply proc_ix_nonneg, Hx). destruct (Z.eqb_spec i j) as [->|]; done. }
  simpl in Hf. pose proof (λ w, IH st2 (w_next (p_wait st.p i)) l w Hs2 Hc2 Hn Hx ltac:(lia)) as IH'.
  assert (∃ w, (if bool_decide (p_state st1.p i = PROC_BLOCKED)
                then wake_loop fuel (upd_proc st1 i (set_state PROC_READY)) (w_next (p_wait st.p i)) true
                else wake_loop fuel st1 (w_next (p_wait st.p i)) woke) =
               wake_loop fuel st2 (w_next (p_wait st.p i)) w) as [w ->].
  { unfold st2. case_bool_decide; eauto. }
  specialize (IH' w). destruct (wake_loop fuel st2 _ w) as [st' woke'].
  destruct IH' as (Hs' & Hf' & Hg' & Hns' & Hp'). split; [done|]. split; [by eapply gframe_trans|].
  split; [intros q Hq; by rewrite Hg', Hg2|]. split; [congruence|]. intros j Hj. rewrite Hp', Hp2 by done.
  destruct (Z.eqb_spec i j) as [->|Hne].
  - rewrite bool_decide_false by done. by rewrite bool_decide_true by left.
  - rewrite (bool_decide_ext (j ∈ i :: l) (j ∈ l)); [done|]. rewrite elem_of_cons. split; [intros [?|?]; congruence|auto].
Qed.

Definition emptied (q : qid) (Q : qid → list Z) : qid → list Z :=
  λ q', if decide (q' = q) then [] else Q q'.

Lemma wake_all_ok st Q q :
  sized st → queues st Q → valid_q q →
  let st' := sched_wake_all st q in
  sized st' ∧ gframe st st' ∧ queues st' (emptied q Q) ∧
  ∀ j, 0 <= j → core (st'.p j) = core (if bool_decide (j ∈ Q q) then woken (st.p j) else st.p j).
Proof.
  intros Hs HQ Hq st'. pose proof (HQ q Hq) as Hok. unfold st', sched_wake_all. clear st'.
  set (st1 := set_queue st q empty_wq).
  assert (sized st1) as Hs1 by by apply sized_set_queue.
  pose proof (frame_set_queue st q empty_wq Hs Hq) as [_ Hf1]. fold st1 in Hf1.
  assert (∀ j, 0 <= j → p_wait st1.p j = p_wait st.p j) as Hw1 by (intros; by apply set_queue_wait).
  assert (∀ i, i ∈ Q q → proc_ix i) as Hix by (intros i Hi; by apply (wq_mem _ _ _ Hok)).
  pose proof (queue_bound _ _ _ Hok) as Hb.
  pose proof (wake_loop_spec (S (Z.to_nat MAX_PROCS)) st1 (wq_head (get_queue st q)) (Q q) false Hs1) as Hwl.
  destruct (wake_loop _ st1 _ false) as [st2 woke].
  destruct Hwl as (Hs2 & Hf2 & Hg2 & _ & Hp2).
  { eapply chain_ext; [|apply Hok]. intros i Hi. by rewrite Hw1 by (by apply proc_ix_nonneg, Hix). }
  { apply Hok. } { by apply Forall_forall. } { lia. }
  set (st3 := if woke then set_need_switch st2 true else st2).
  assert (sized st3 ∧ proc_table st3 = proc_table st2 ∧ gframe st2 st3 ∧ ∀ q', get_queue st3 q' = get_queue st2 q')
    as (Hs3 & Ep3 & Hf3 & Hg3).
  { unfold st3. destruct woke; [|split; [done|]; split; [done|]; split; [apply gframe_refl|done]].
    split; [by destruct Hs2|]. split; [done|]. split; [by split|]. by intros []. }
  assert (∀ j, 0 <= j → core (st3.p j) = core (if bool_decide (j ∈ Q q) then woken (st.p j) else st.p j)) as Hcore.
  { intros j Hj. rewrite Ep3, Hp2 by done. pose proof (set_queue_core st q empty_wq j Hs Hq Hj) as Hcj. fold st1 in Hcj.
    case_bool_decide; [|done]. by apply core_woken. }
  split; [done|]. split; [eapply gframe_trans; [exact Hf1|by eapply gframe_trans]|]. split; [|done].
  assert (∀ j, 0 <= j → p_wait st3.p j = if bool_decide (j ∈ Q q) then no_wait else p_wait st.p j) as Hw3.
  { intros j Hj. destruct (core_wait _ _ (Hcore j Hj)) as (-> & _). case_bool_decide; [|done].
    unfold woken. by case_bool_decide. }
  intros q' Hq'. unfold emptied. destruct (decide (q' = q)) as [->|Hne].
  - assert (get_queue st3 q = empty_wq) as Eg.
    { rewrite Hg3, Hg2 by done. unfold st1. rewrite get_set_queue by done. by rewrite decide_True. }
    split; [by rewrite Eg|by rewrite Eg|apply NoDup_nil_2|]. intros j. split; [by intros ?%not_elem_of_nil|].
    intros [Hj Hw]. unfold waits_on in Hw. rewrite Hw3 in Hw by (by apply proc_ix_nonneg).
    case_bool_decide as Hin; [done|]. exfalso. apply Hin. by apply (wq_mem _ _ _ Hok).
  - assert (∀ j, j ∈ Q q' → j ∉ Q q) as Hdis.
    { intros j Hj Hj2. apply Hne. apply (wq_mem _ _ _ (HQ q' Hq')) in Hj as [_ Hj].
      apply (wq_mem _ _ _ Hok) in Hj2 as [_ Hj2]. by eapply members_unique. }
    eapply wq_ok_ext; [..|exact (HQ q' Hq')].
    + rewrite Hg3, Hg2 by done. unfold st1. rewrite get_set_queue by done. by rewrite decide_False by congruence.
    + intros j Hj. assert (proc_ix j) by by apply (wq_mem _ _ _ (HQ q' Hq')) in Hj as [? _].
      rewrite Hw3 by (by apply proc_ix_nonneg). by rewrite bool_decide_false by (by apply Hdis).
    + intros j Hj. unfold waits_on. rewrite Hw3 by (by apply proc_ix_nonneg). case_bool_decide as Hin; [|done].
      apply (wq_mem _ _ _ Hok) in Hin as [_ Hin]. split; [done|]. intros Hw. exfalso. apply Hne. by eapply members_unique.
Qed.
