(* ===== verification/SchedAbs.v ===== *)
(** * Scheduler: the ledger of slots and groups

    What the invariant of the scheduler says, on an abstract view of the state:
    for every slot its group, state and wait ([slot]), for every group its
    reference and live counts ([tally]).  The lemmas of this file are the
    transitions of a slot (wake, block, exit, reap, add) as updates of that view;
    SchedOps.v proves that the code performs them. *)

From S2P Require Import Prelude Sched SchedInv.

Record slot := mk_slot { k_group : option Z; k_state : proc_state; k_queue : option qid; k_timer : bool }.
Record tally := mk_tally { t_used : bool; t_refs : Z; t_live : Z }.

Definition slot_of (p : proc) : slot :=
  mk_slot (p_group p) (p_state p) (w_queue (p_wait p)) (w_deadline_set (p_wait p)).
Definition tally_of (g : group) : tally := mk_tally (gr_used g) (gr_refs g) (gr_live_tasks g).

(** ** Counting slots *)

Definition cnt (P : Z → bool) : Z := Z.of_nat (length (filter (λ i, P i = true) (seqZ 0 MAX_PROCS))).

Lemma filter_eq_in (P P' : Z → bool) (l : list Z) :
  (∀ i, i ∈ l → P i = P' i) → filter (λ i, P i = true) l = filter (λ i, P' i = true) l.
Proof.
  induction l as [|i l IH]; intros E; [done|]. rewrite !filter_cons, (E i) by left.
  rewrite IH; [done|]. intros j Hj. apply E. by right.
Qed.

Lemma elem_of_ix i : i ∈ seqZ 0 MAX_PROCS ↔ proc_ix i.
Proof. rewrite elem_of_seqZ. unfold proc_ix. lia. Qed.

Lemma cnt_ext P P' : (∀ i, proc_ix i → P i = P' i) → cnt P = cnt P'.
Proof.
  intros E. unfold cnt. do 2 f_equal. apply filter_eq_in.
  intros i Hi. by apply E, elem_of_ix.
Qed.

Lemma cnt_bounds P : 0 <= cnt P <= MAX_PROCS.
Proof.
  unfold cnt. split; [lia|]. transitivity (Z.of_nat (length (seqZ 0 MAX_PROCS))).
  - apply Nat2Z.inj_le, length_filter.
  - rewrite length_seqZ. by vm_compute.
Qed.

Lemma cnt_pos P : 0 < cnt P ↔ ∃ i, proc_ix i ∧ P i = true.
Proof.
  unfold cnt. split.
  - intros Hc. destruct (filter _ _) as [|i l] eqn:E; [simpl in Hc; lia|]. exists i.
    assert (i ∈ filter (λ i, P i = true) (seqZ 0 MAX_PROCS)) as Hi by (rewrite E; left).
    apply list_elem_of_filter in Hi as [? Hi]. by apply elem_of_ix in Hi.
  - intros (i & Hi & HP). assert (i ∈ filter (λ i, P i = true) (seqZ 0 MAX_PROCS)) as Hin.
    { apply list_elem_of_filter. split; [done|]. by apply elem_of_ix. }
    destruct (filter _ _); [by apply not_elem_of_nil in Hin|simpl; lia].
Qed.

Lemma cnt_update P P' i :
  proc_ix i → (∀ j, proc_ix j → j ≠ i → P' j = P j) → cnt P' = cnt P - Z.b2z (P i) + Z.b2z (P' i).
Proof.
  intros Hi E. assert (i ∈ seqZ 0 MAX_PROCS) as Hin by by apply elem_of_ix.
  apply list_elem_of_split in Hin as (l1 & l2 & El). pose proof (NoDup_seqZ 0 MAX_PROCS) as Hn.
  unfold cnt. rewrite El in *. rewrite !filter_app, !filter_cons, !length_app.
  apply NoDup_app in Hn as (_ & Hd & Hn). apply NoDup_cons in Hn as [Hn _].
  assert (∀ l : list Z, (∀ j, j ∈ l → j ∈ l1 ++ i :: l2 ∧ j ≠ i) →
    filter (λ j, P' j = true) l = filter (λ j, P j = true) l) as Hl.
  { intros l Hsub. apply filter_eq_in. intros j Hj.
    destruct (Hsub j Hj) as [Hj' Hne]. rewrite <-El in Hj'. apply E; [|done]. by apply elem_of_ix. }
  rewrite (Hl l1), (Hl l2).
  - destruct (P i) eqn:EP, (P' i) eqn:EP'; simpl; repeat (case_decide; [|try done]); simpl; try done; lia.
  - intros j Hj. split; [apply elem_of_app; right; by right|]. by intros ->.
  - intros j Hj. split; [apply elem_of_app; by left|]. intros ->. apply (Hd i Hj). left.
Qed.

(** ** The invariant on the view *)

Definition s_used (k : slot) : bool := negb (bool_decide (k_state k = PROC_UNUSED)).
Definition s_live (k : slot) : bool := s_used k && negb (bool_decide (k_state k = PROC_ZOMBIE)).
Definition s_in (g : Z) (k : slot) : bool := bool_decide (k_group k = Some g).

Definition refs (k : Z → slot) (g : Z) : Z := cnt (λ i, s_used (k i) && s_in g (k i)).
Definition lives (k : Z → slot) (g : Z) : Z := cnt (λ i, s_live (k i) && s_in g (k i)).

(** The queues a process may sleep on: those of other kernel objects, and those of
    groups that still have a live member. *)
Definition q_live (k : Z → slot) (q : qid) : Prop :=
  match q with QProc _ => False | QGroup g => proc_ix g ∧ 0 < lives k g | QOther _ => True end.

Record abs_ok (cur : option Z) (k : Z → slot) (t : Z → tally) : Prop := {
  ao_current c : cur = Some c → proc_ix c;
  ao_running i : proc_ix i → k_state (k i) = PROC_RUNNING → cur = Some i;
  ao_wait i q : proc_ix i → k_queue (k i) = Some q → k_state (k i) = PROC_BLOCKED ∧ q_live k q;
  ao_timer i : proc_ix i → k_timer (k i) = true → k_state (k i) = PROC_BLOCKED;
  ao_group i : proc_ix i → s_used (k i) = true → ∃ g, k_group (k i) = Some g ∧ proc_ix g;
  ao_refs g : proc_ix g → t_refs (t g) = refs k g;
  ao_live g : proc_ix g → t_live (t g) = lives k g;
  ao_used g : proc_ix g → t_used (t g) = (0 <? t_refs (t g));
}.

Lemma abs_ok_ext cur k k' t t' :
  (∀ i, proc_ix i → k' i = k i) → (∀ g, proc_ix g → t' g = t g) → abs_ok cur k t → abs_ok cur k' t'.
Proof.
  intros Ek Et [Hc Hr Hw Hd Hg Hrf Hl Hu].
  assert (∀ g, refs k' g = refs k g) as Er by (intros; apply cnt_ext; intros; by rewrite Ek).
  assert (∀ g, lives k' g = lives k g) as El by (intros; apply cnt_ext; intros; by rewrite Ek).
  split.
  - done.
  - intros i Hi. rewrite Ek by done. auto.
  - intros i q Hi Hq. rewrite Ek in * by done. destruct (Hw i q Hi Hq) as [? Hlq]. split; [done|].
    destruct q; cbn in *; by rewrite ?El.
  - intros i Hi. rewrite Ek by done. auto.
  - intros i Hi. rewrite Ek by done. auto.
  - intros g Hgx. rewrite Et, Er by done. auto.
  - intros g Hgx. rewrite Et, El by done. auto.
  - intros g Hgx. rewrite Et by done. auto.
Qed.

(** ** Transitions *)

Definition put {A} (k : Z → A) (i : Z) (v : A) : Z → A := λ j, if i =? j then v else k j.

Lemma put_eq {A} (k : Z → A) i v : put k i v i = v.
Proof. unfold put. by rewrite Z.eqb_refl. Qed.
Lemma put_ne {A} (k : Z → A) i v j : j ≠ i → put k i v j = k j.
Proof. unfold put. intros. destruct (Z.eqb_spec i j); congruence. Qed.

Lemma refs_put k i v g :
  proc_ix i → refs (put k i v) g = refs k g - Z.b2z (s_used (k i) && s_in g (k i)) + Z.b2z (s_used v && s_in g v).
Proof.
  intros Hi. unfold refs. rewrite (cnt_update (λ i, s_used (k i) && s_in g (k i)) _ i Hi), put_eq; [done|].
  intros j _ Hj. by rewrite put_ne.
Qed.
Lemma lives_put k i v g :
  proc_ix i → lives (put k i v) g = lives k g - Z.b2z (s_live (k i) && s_in g (k i)) + Z.b2z (s_live v && s_in g v).
Proof.
  intros Hi. unfold lives. rewrite (cnt_update (λ i, s_live (k i) && s_in g (k i)) _ i Hi), put_eq; [done|].
  intros j _ Hj. by rewrite put_ne.
Qed.

Lemma live_used k : s_live k = true → s_used k = true.
Proof. unfold s_live. intros [? _]%andb_true_iff. done. Qed.

Lemma cnt_le k g : lives k g <= refs k g.
Proof.
  unfold lives, refs, cnt. apply Nat2Z.inj_le, sublist_length. induction (seqZ 0 MAX_PROCS) as [|i l IH]; [done|].
  rewrite !filter_cons. unfold s_live. destruct (s_used (k i)), (s_in g (k i)); cbn; rewrite ?andb_false_r;
    repeat (case_decide; try done); by constructor.
Qed.

Lemma lives_member k i g : proc_ix i → s_live (k i) = true → k_group (k i) = Some g → 0 < lives k g.
Proof.
  intros Hi Hl Hg. apply cnt_pos. exists i. split; [done|]. rewrite Hl. unfold s_in. by rewrite bool_decide_true.
Qed.

(** Many slots at once, none of which enters or leaves a group, dies or is born. *)
Record steady (cur : option Z) (a b : slot) (i : Z) : Prop := {
  sd_group : k_group b = k_group a;
  sd_live : s_live b = s_live a;
  sd_used : s_used b = s_used a;
  sd_run : k_state b = PROC_RUNNING → cur = Some i;
}.

Lemma abs_steady cur cur' k k' t :
  abs_ok cur k t → (∀ c, cur' = Some c → proc_ix c) → (∀ i, proc_ix i → steady cur' (k i) (k' i) i) →
  (∀ i q, proc_ix i → k_queue (k' i) = Some q → k_state (k' i) = PROC_BLOCKED ∧ q_live k q) →
  (∀ i, proc_ix i → k_timer (k' i) = true → k_state (k' i) = PROC_BLOCKED) →
  abs_ok cur' k' t.
Proof.
  intros [Hc Hr Hw Hd Hg Hrf Hl Hu] Hc' Hs Hw' Hd'.
  assert (∀ g, refs k' g = refs k g) as Er.
  { intros g. apply cnt_ext. intros i Hi. destruct (Hs i Hi) as [E1 E2 E3 _]. unfold s_in. by rewrite E1, E3. }
  assert (∀ g, lives k' g = lives k g) as El.
  { intros g. apply cnt_ext. intros i Hi. destruct (Hs i Hi) as [E1 E2 E3 _]. unfold s_in. by rewrite E1, E2. }
  split; [done|intros i Hi; apply Hs, Hi| |done|..].
  - intros i q Hi Hq. destruct (Hw' i q Hi Hq) as [? Hql]. split; [done|]. destruct q; cbn in *; by rewrite ?El.
  - intros i Hi Hus. destruct (Hs i Hi) as [E1 _ E3 _]. rewrite E1. apply Hg; [done|congruence].
  - intros g Hgx. rewrite Er. auto.
  - intros g Hgx. rewrite El. auto.
  - done.
Qed.

(** One slot gets a new, idle content; the tallies follow, and the groups others
    sleep on keep a live member. *)
Definition counted (b : slot → bool) (g : Z) (k : slot) : Z := Z.b2z (b k && s_in g k).

Lemma abs_put cur k t i v t' :
  abs_ok cur k t → proc_ix i → k_queue v = None → k_timer v = false → k_state v ≠ PROC_RUNNING →
  (s_used v = true → ∃ g, k_group v = Some g ∧ proc_ix g) →
  (∀ g, proc_ix g →
     t_refs (t' g) = t_refs (t g) - counted s_used g (k i) + counted s_used g v ∧
     t_live (t' g) = t_live (t g) - counted s_live g (k i) + counted s_live g v ∧
     t_used (t' g) = (0 <? t_refs (t' g))) →
  (∀ j g, proc_ix j → j ≠ i → proc_ix g → k_queue (k j) = Some (QGroup g) → 0 < t_live (t' g)) →
  abs_ok cur (put k i v) t'.
Proof.
  intros [Hc Hr Hw Hd Hg Hrf Hl Hu] Hi Hq0 Ht0 Hr0 Hg0 Ht' Hq.
  assert (∀ g, proc_ix g → t_live (t' g) = lives (put k i v) g) as Hl'.
  { intros g Hgx. destruct (Ht' g Hgx) as (_ & -> & _). rewrite lives_put, Hl by done. done. }
  split.
  - done.
  - intros j Hj. destruct (Z.eq_dec j i) as [->|]; [by rewrite put_eq|rewrite put_ne by done; auto].
  - intros j q Hj. destruct (Z.eq_dec j i) as [->|Hji]; [rewrite put_eq; congruence|]. rewrite put_ne by done.
    intros Hjq. destruct (Hw j q Hj Hjq) as [? Hql]. split; [done|]. destruct q as [|g|]; [done| |done]. cbn in *.
    destruct Hql as [Hgx _]. split; [done|]. rewrite <-Hl' by done. eauto.
  - intros j Hj. destruct (Z.eq_dec j i) as [->|]; [rewrite put_eq; congruence|rewrite put_ne by done; auto].
  - intros j Hj. destruct (Z.eq_dec j i) as [->|]; [by rewrite put_eq|rewrite put_ne by done; auto].
  - intros g Hgx. destruct (Ht' g Hgx) as (-> & _ & _). rewrite refs_put, Hrf by done. done.
  - done.
  - intros g Hgx. apply Ht', Hgx.
Qed.

Lemma counted_some b g g' k : k_group k = Some g → counted b g' k = if g =? g' then Z.b2z (b k) else 0.
Proof.
  intros Eg. unfold counted, s_in. rewrite Eg. destruct (Z.eqb_spec g g') as [->|Hne].
  - rewrite bool_decide_true by done. by rewrite andb_true_r.
  - rewrite bool_decide_false by congruence. by rewrite andb_false_r.
Qed.
Lemma counted_not b g k : b k = false → counted b g k = 0.
Proof. intros Eb. unfold counted. by rewrite Eb. Qed.

(** The life of a slot: [idle g s] is a slot of group [g] in state [s] that waits
    for nothing. *)
Definition idle (g : Z) (s : proc_state) : slot := mk_slot (Some g) s None false.

Lemma abs_tally cur k t g :
  abs_ok cur k t → proc_ix g → 0 <= t_live (t g) <= MAX_PROCS ∧ 0 <= t_refs (t g) <= MAX_PROCS.
Proof. intros Ha Hg. rewrite (ao_live _ _ _ Ha), (ao_refs _ _ _ Ha) by done. split; apply cnt_bounds. Qed.

(** Exit: if the process was the last live one of its group, nobody may sleep on
    the group any more. *)
Lemma abs_exit cur k t i g :
  abs_ok cur k t → proc_ix i → s_live (k i) = true → k_group (k i) = Some g →
  (t_live (t g) = 1 → ∀ j, proc_ix j → j ≠ i → k_queue (k j) ≠ Some (QGroup g)) →
  abs_ok cur (put k i (idle g PROC_ZOMBIE)) (put t g (mk_tally (t_used (t g)) (t_refs (t g)) (t_live (t g) - 1))).
Proof.
  intros Ha Hi Hlive Eg Hq.
  destruct (ao_group _ _ _ Ha i Hi (live_used _ Hlive)) as (g' & Eg' & Hgx). assert (g' = g) as -> by congruence.
  eapply abs_put; try done; [by eexists| |].
  - intros g' Hg'. rewrite !(counted_some _ g) by done. rewrite Hlive, (live_used _ Hlive). unfold put.
    change (s_used (idle g PROC_ZOMBIE)) with true. change (s_live (idle g PROC_ZOMBIE)) with false.
    pose proof (ao_used _ _ _ Ha g' Hg').
    destruct (Z.eqb_spec g g') as [->|]; cbn [Z.b2z t_refs t_live t_used]; (split; [lia|split; [lia|done]]).
  - intros j g' Hj Hji Hg' Hjq. destruct (ao_wait _ _ _ Ha j _ Hj Hjq) as [_ [_ Hpos]].
    rewrite <-(ao_live _ _ _ Ha) in Hpos by done. unfold put. destruct (Z.eqb_spec g g') as [->|]; [|done]. cbn.
    destruct (Z.eq_dec (t_live (t g')) 1) as [E|]; [by destruct (Hq E j Hj Hji)|lia].
Qed.

(** What [task_group_put] leaves: the group with one reference less, or a free
    entry. *)
Definition t_drop (x : tally) : tally :=
  if t_refs x =? 1 then mk_tally false 0 0 else mk_tally (t_used x) (t_refs x - 1) (t_live x).

(** Reaping: a zombie's slot becomes free. *)
Lemma abs_reap cur k t i g grp :
  abs_ok cur k t → proc_ix i → k_state (k i) = PROC_ZOMBIE → k_group (k i) = Some g →
  abs_ok cur (put k i (mk_slot grp PROC_UNUSED None false)) (put t g (t_drop (t g))).
Proof.
  intros Ha Hi Ez Eg. assert (s_used (k i) = true) as Eu by (unfold s_used; by rewrite Ez).
  assert (s_live (k i) = false) as El by (unfold s_live; rewrite Ez; by rewrite andb_false_r).
  destruct (ao_group _ _ _ Ha i Hi Eu) as (g' & Eg' & Hgx). assert (g' = g) as -> by congruence.
  assert (0 <= t_live (t g) < t_refs (t g)) as Hlr.
  { split; [by eapply abs_tally|]. rewrite (ao_live _ _ _ Ha), (ao_refs _ _ _ Ha) by done.
    pose proof (refs_put k i (idle g PROC_UNUSED) g Hi) as E1. pose proof (lives_put k i (idle g PROC_UNUSED) g Hi) as E2.
    rewrite Eu in E1. rewrite El in E2. unfold s_in in E1. rewrite Eg, bool_decide_true in E1 by done.
    change (s_used (idle g PROC_UNUSED)) with false in E1. change (s_live (idle g PROC_UNUSED)) with false in E2.
    cbn [andb Z.b2z] in E1, E2. pose proof (cnt_le (put k i (idle g PROC_UNUSED)) g). unfold lives in *. lia. }
  eapply abs_put; try done.
  - intros g' Hg'. rewrite !(λ b, counted_some b g g' (k i) Eg). rewrite Eu, El.
    rewrite !(counted_not _ _ (mk_slot _ _ _ _)) by done. pose proof (ao_used _ _ _ Ha g' Hg') as Huse. unfold put, t_drop.
    destruct (Z.eqb_spec g g') as [->|]; [|cbn [Z.b2z]; (split; [lia|split; [lia|done]])].
    destruct (Z.eqb_spec (t_refs (t g')) 1); cbn [Z.b2z t_refs t_live t_used]; (split; [lia|split; [lia|]]); [done|]. rewrite Huse. bcase; lia.
  - intros j g' Hj Hji Hg' Hjq. destruct (ao_wait _ _ _ Ha j _ Hj Hjq) as [_ [_ Hpos]].
    rewrite <-(ao_live _ _ _ Ha) in Hpos by done. unfold put, t_drop. destruct (Z.eqb_spec g g') as [->|]; [|done].
    destruct (Z.eqb_spec (t_refs (t g')) 1); cbn; lia.
Qed.

(** A free slot joins a group, which has then one reference and one live member
    more. *)
Definition t_join (x : tally) : tally := mk_tally true (t_refs x + 1) (t_live x + 1).

Lemma abs_add cur k t i g :
  abs_ok cur k t → proc_ix i → proc_ix g → s_used (k i) = false →
  abs_ok cur (put k i (idle g PROC_READY)) (put t g (t_join (t g))).
Proof.
  intros Ha Hi Hg Eu. assert (s_live (k i) = false) as El by (unfold s_live; by rewrite Eu).
  eapply abs_put; try done; [by eexists| |].
  - intros g' Hg'. rewrite !(counted_some _ g g' (idle g PROC_READY)) by done. rewrite !counted_not by done.
    change (s_used (idle g PROC_READY)) with true. change (s_live (idle g PROC_READY)) with true. unfold put.
    pose proof (ao_used _ _ _ Ha g' Hg'). destruct (abs_tally _ _ _ g' Ha Hg') as [? ?].
    destruct (Z.eqb_spec g g') as [->|]; cbn [Z.b2z t_refs t_live t_used t_join].
    + split; [lia|]. split; [lia|]. bcase; lia.
    + split; [lia|]. split; [lia|done].
  - intros j g' Hj Hji Hg' Hjq. destruct (ao_wait _ _ _ Ha j _ Hj Hjq) as [_ [_ Hpos]].
    rewrite <-(ao_live _ _ _ Ha) in Hpos by done. unfold put. destruct (Z.eqb_spec g g') as [->|]; cbn; lia.
Qed.

(** A free group entry has no members. *)
Lemma abs_free_group cur k t g :
  abs_ok cur k t → proc_ix g → t_used (t g) = false → t_refs (t g) = 0 ∧ t_live (t g) = 0.
Proof.
  intros Ha Hg Eu. rewrite (ao_used _ _ _ Ha) in Eu by done. apply Z.ltb_ge in Eu.
  pose proof (abs_tally _ _ _ g Ha Hg). rewrite (ao_refs _ _ _ Ha), (ao_live _ _ _ Ha) in * by done.
  pose proof (cnt_le k g). lia.
Qed.

Lemma put_put {A} (k : Z → A) i a b j : put (put k i a) i b j = put k i b j.
Proof. unfold put. by destruct (i =? j). Qed.

(** A live task that never ran is taken back. *)
Lemma abs_remove cur k t i g grp :
  abs_ok cur k t → proc_ix i → s_live (k i) = true → k_group (k i) = Some g →
  (t_live (t g) = 1 → ∀ j, proc_ix j → j ≠ i → k_queue (k j) ≠ Some (QGroup g)) →
  abs_ok cur (put k i (mk_slot grp PROC_UNUSED None false))
    (put t g (t_drop (mk_tally (t_used (t g)) (t_refs (t g)) (t_live (t g) - 1)))).
Proof.
  intros Ha Hi Hl Eg Hq. pose proof (abs_exit _ _ _ _ _ Ha Hi Hl Eg Hq) as Hx.
  eapply abs_ok_ext; [| |apply (abs_reap _ _ _ i g grp Hx Hi)]; rewrite ?put_eq; [..|done|done].
  - intros j _. by rewrite put_put.
  - intros g' _. by rewrite put_put.
Qed.

(** A slot that is unchanged, or waits for nothing any more and was perhaps made
    ready out of a sleep or a stop. *)
Definition roused (a b : slot) : Prop :=
  b = a ∨
  k_group b = k_group a ∧ k_queue b = None ∧ k_timer b = false ∧
  (k_state b = k_state a ∨ k_state b = PROC_READY ∧ (k_state a = PROC_BLOCKED ∨ k_state a = PROC_STOPPED)).

Lemma roused_trans a b c : roused a b → roused b c → roused a c.
Proof. unfold roused. intros [->|H1] [->|H2]; [by left|tauto|tauto|]. right. intuition (congruence || idtac). Qed.

Lemma abs_roused cur k k' t :
  abs_ok cur k t → (∀ i, proc_ix i → roused (k i) (k' i)) → abs_ok cur k' t.
Proof.
  intros Ha Hr. eapply abs_steady; [exact Ha|apply Ha|..].
  - intros i Hi. pose proof (ao_running _ _ _ Ha i Hi) as Hrun.
    destruct (Hr i Hi) as [->|(Eg & _ & _ & [Es|[Es Ea]])]; [by split|..].
    + split; [done|unfold s_live, s_used; by rewrite Es..|by rewrite Es].
    + split; [done|unfold s_live, s_used; rewrite Es; by destruct Ea as [-> | ->]..|by rewrite Es].
  - intros i q Hi Hq. destruct (Hr i Hi) as [E|(_ & E & _)]; [|congruence]. rewrite E in *. by apply Ha.
  - intros i Hi Ht. destruct (Hr i Hi) as [E|(_ & _ & E & _)]; [|congruence]. rewrite E in *. by apply (ao_timer _ _ _ Ha).
Qed.
