(* ===== verification/SchedOps.v ===== *)
(** * Scheduler: the operations keep the invariant

    [sched_ok] says that the wait queues are well linked, that every slot and group
    is accounted for (SchedAbs.v), and that only the current process runs.  Every
    operation of sched.c keeps it. *)

From S2P Require Import Prelude Sched SchedInv SchedAbs.

Definition kof (st : sched) : Z → slot := λ i, slot_of st.p i.
Definition tof (st : sched) : Z → tally := λ g, tally_of st.g g.

Record qok (st : sched) : Prop := {
  qk_sized : sized st;
  qk_refs : refs_valid st;
  qk_queues : ∃ Q, queues st Q;
}.

Record sched_ok (st : sched) : Prop := {
  so_qok : qok st;
  so_abs : abs_ok (g_current st) (kof st) (tof st);
}.

Lemma ok_sized st : sched_ok st → sized st.
Proof. intros [[? _ _] _]. done. Qed.

(** Side conditions of the reading lemmas. *)
Ltac ok_side := first [done | by apply ok_sized | by apply proc_ix_nonneg | by apply so_qok].

(** ** Assignments that do not touch the queues *)

Definition same_wait (f : proc → proc) : Prop :=
  ∀ p, p_state_waiters (f p) = p_state_waiters p ∧ p_wait (f p) = p_wait p.

Lemma qok_upd_proc st i f :
  qok st → proc_ix i → p_state_waiters (f st.p i) = p_state_waiters st.p i →
  w_queue (p_wait (f st.p i)) = w_queue (p_wait st.p i) →
  w_next (p_wait (f st.p i)) = w_next (p_wait st.p i) ∨ w_queue (p_wait st.p i) = None →
  qok (upd_proc st i f).
Proof.
  intros [Hs Hv [Q HQ]] Hi Hw Hq Hn.
  assert (∀ j, 0 <= j → w_queue (p_wait (upd_proc st i f).p j) = w_queue (p_wait st.p j) ∧
    p_state_waiters (upd_proc st i f).p j = p_state_waiters st.p j) as Hp.
  { intros j Hj. rewrite upd_proc_get by done. by destruct (Z.eqb_spec i j) as [->|]. }
  split; [by apply sized_upd_proc| |].
  - intros j q Hj. destruct (Hp j (proc_ix_nonneg j Hj)) as (-> & _). by apply Hv.
  - exists Q. intros q Hq'. pose proof (HQ q Hq') as Hok. eapply wq_ok_ext; [..|exact Hok].
    + destruct q as [j|g|n]; cbn [get_queue]; [|done..]. by apply Hp, proc_ix_nonneg.
    + intros j Hj. apply (wq_mem _ _ _ Hok) in Hj as [Hj Hwq]. rewrite upd_proc_get by (done || by apply proc_ix_nonneg).
      destruct (Z.eqb_spec i j) as [->|]; [|done]. destruct Hn as [?|Hn]; [done|]. unfold waits_on in Hwq. congruence.
    + intros j Hj. unfold waits_on. by destruct (Hp j (proc_ix_nonneg j Hj)) as (-> & _).
Qed.

Lemma qok_same_wait st i f : qok st → proc_ix i → same_wait f → qok (upd_proc st i f).
Proof. intros Hq Hi Hf. destruct (Hf st.p i) as [E1 E2]. apply qok_upd_proc; rewrite ?E1, ?E2; auto. Qed.

Lemma qok_upd_group st g f :
  qok st → proc_ix g → gr_state_waiters (f st.g g) = gr_state_waiters st.g g → qok (upd_group st g f).
Proof.
  intros [Hs Hv [Q HQ]] Hg Hf. split; [by apply sized_upd_group|done|]. exists Q. intros q Hq.
  eapply wq_ok_ext; [..|exact (HQ q Hq)]; [|done..]. destruct q as [j|g'|n]; cbn [get_queue]; [done| |done].
  rewrite upd_group_get by (done || by apply proc_ix_nonneg). by destruct (Z.eqb_spec g g') as [->|].
Qed.

(** Scheduler states that differ in the scalars only. *)
Definition same_tables (st st' : sched) : Prop :=
  proc_table st' = proc_table st ∧ groups st' = groups st ∧ others st' = others st.

Lemma qok_same_tables st st' : same_tables st st' → qok st → qok st'.
Proof.
  destruct st, st'. intros (E1 & E2 & E3). cbn in *. subst. intros [[? ?] Hv [Q HQ]]. split; [done|done|].
  exists Q. intros q Hq. eapply wq_ok_ext; [..|exact (HQ q Hq)]; [by destruct q|done..].
Qed.

Lemma kof_upd_proc st i f j :
  sized st → proc_ix i → proc_ix j → kof (upd_proc st i f) j = put (kof st) i (slot_of (f st.p i)) j.
Proof.
  intros Hs Hi Hj. unfold kof, put. rewrite upd_proc_get by (done || by apply proc_ix_nonneg).
  by destruct (Z.eqb_spec i j) as [->|].
Qed.
Lemma tof_upd_group st g f g' :
  sized st → proc_ix g → proc_ix g' → tof (upd_group st g f) g' = put (tof st) g (tally_of (f st.g g)) g'.
Proof.
  intros Hs Hi Hj. unfold tof, put. rewrite upd_group_get by (done || by apply proc_ix_nonneg).
  by destruct (Z.eqb_spec g g') as [->|].
Qed.

(** An assignment to the group table that keeps the tallies. *)
Lemma tof_same st g f :
  sized st → proc_ix g → tally_of (f st.g g) = tof st g → ∀ g', proc_ix g' → tof (upd_group st g f) g' = tof st g'.
Proof. intros Hs Hg E g' Hg'. rewrite tof_upd_group by done. unfold put. by destruct (Z.eqb_spec g g') as [->|]. Qed.

Lemma sched_ok_same_tables st st' :
  same_tables st st' → g_current st' = g_current st → sched_ok st → sched_ok st'.
Proof.
  intros Hst Ec [Hq Ha]. split; [by eapply qok_same_tables|]. rewrite Ec. destruct Hst as (E1 & E2 & _).
  eapply abs_ok_ext; [..|exact Ha]; intros i _; unfold kof, tof; by rewrite ?E1, ?E2.
Qed.

(** ** Waits *)

Definition unwaiting (k : slot) : slot := mk_slot (k_group k) (k_state k) None false.
Definition wakened (k : slot) : slot :=
  mk_slot (k_group k) (if bool_decide (k_state k = PROC_BLOCKED) then PROC_READY else k_state k) None false.

Lemma pview_slot p p' w :
  pview p = pview p' → wkey (p_wait p) = w → slot_of p = mk_slot (p_group p') (p_state p') (w.1.1) (w.2).
Proof. unfold pview, wkey, slot_of. intros [= _ -> -> _ _ _] <-. done. Qed.

Lemma gframe_tof st st' g : gframe st st' → proc_ix g → tof st' g = tof st g.
Proof.
  intros Hf Hg. pose proof (gf_groups _ _ Hf g (proc_ix_nonneg g Hg)) as E.
  apply (f_equal tally_of) in E. exact E.
Qed.

(** The effect of an operation on the view: [k] is the new content of the slots,
    the tallies stay. *)
Record effect (st st' : sched) (k : Z → slot) : Prop := {
  ef_qok : qok st';
  ef_current : g_current st' = g_current st;
  ef_slot i : proc_ix i → kof st' i = k i;
  ef_tally g : proc_ix g → tof st' g = tof st g;
}.

Lemma clear_wait_effect st i :
  qok st → proc_ix i → effect st (sched_clear_wait st i) (put (kof st) i (unwaiting (kof st i))).
Proof.
  intros [Hs Hv [Q HQ]] Hi. destruct (clear_wait_ok st Q i Hs HQ Hv Hi) as (Hs' & Hf & HQ' & Hwi & Hw).
  set (st' := sched_clear_wait st i) in *. clearbody st'.
  assert (∀ j, proc_ix j → kof st' j = put (kof st) i (unwaiting (kof st i)) j) as Hk.
  { intros j Hj. pose proof (fr_procs _ _ Hf j (proc_ix_nonneg j Hj)) as Ev. unfold kof, put.
    destruct (Z.eqb_spec i j) as [->|Hne].
    - rewrite (pview_slot _ _ _ Ev eq_refl), Hwi. done.
    - rewrite (pview_slot _ _ _ Ev (Hw j (proc_ix_nonneg j Hj) ltac:(congruence))). done. }
  split; [|apply Hf|done|intros g Hg; apply gframe_tof; [apply Hf|done]].
  split; [done| |by eexists]. intros j q Hj Hq. assert (k_queue (kof st' j) = Some q) as Eq by done.
  rewrite Hk in Eq by done. unfold put in Eq. destruct (i =? j); [done|]. by apply (Hv j).
Qed.

Lemma core_slot p p' : core p = core p' → slot_of p = slot_of p'.
Proof. intros E. apply core_wait in E as (E1 & E2 & E3 & E4 & _). unfold slot_of. congruence. Qed.

Lemma slot_woken p : slot_of (woken p) = wakened (slot_of p).
Proof. unfold woken, wakened, slot_of. cbn. by case_bool_decide. Qed.

Lemma wake_all_effect st q :
  qok st → valid_q q →
  effect st (sched_wake_all st q)
    (λ i, if bool_decide (k_queue (kof st i) = Some q) then wakened (kof st i) else kof st i).
Proof.
  intros [Hs Hv [Q HQ]] Hq. destruct (wake_all_ok st Q q Hs HQ Hq) as (Hs' & Hf & HQ' & Hc).
  set (st' := sched_wake_all st q) in *. clearbody st'.
  assert (∀ j, proc_ix j → kof st' j =
    if bool_decide (k_queue (kof st j) = Some q) then wakened (kof st j) else kof st j) as Hk.
  { intros j Hj. unfold kof at 1. rewrite (core_slot _ _ (Hc j (proc_ix_nonneg j Hj))).
    rewrite (bool_decide_ext (j ∈ Q q) (k_queue (kof st j) = Some q)).
    - case_bool_decide; [apply slot_woken|done].
    - rewrite (wq_mem _ _ _ (HQ q Hq)). unfold waits_on, kof, slot_of. cbn. tauto. }
  split; [|apply Hf|done|intros g Hg; by apply gframe_tof].
  split; [done| |by eexists]. intros j q' Hj Hq'. assert (k_queue (kof st' j) = Some q') as Eq by done.
  rewrite Hk in Eq by done. case_bool_decide; [done|]. by apply (Hv j).
Qed.

(** ** Waking, timers and signals

    These only rouse processes. *)
Record rouse (st st' : sched) : Prop := {
  rs_qok : qok st';
  rs_current : g_current st' = g_current st;
  rs_slot i : proc_ix i → roused (kof st i) (kof st' i);
  rs_tally g : proc_ix g → tof st' g = tof st g;
}.

Lemma rouse_refl st : qok st → rouse st st.
Proof. intros. split; [done|done|by left|done]. Qed.
Lemma rouse_trans st1 st2 st3 : rouse st1 st2 → rouse st2 st3 → rouse st1 st3.
Proof.
  intros [_ B1 C1 D1] [A2 B2 C2 D2]. split; [done|congruence| |].
  - intros i Hi. eapply roused_trans; eauto.
  - intros g Hg. by rewrite D2, D1.
Qed.

Lemma effect_rouse st st' k : effect st st' k → (∀ i, proc_ix i → roused (kof st i) (k i)) → rouse st st'.
Proof. intros [A B C D] Hr. split; [done|done| |done]. intros i Hi. rewrite C by done. auto. Qed.

Lemma rouse_ok st st' : sched_ok st → rouse st st' → sched_ok st'.
Proof.
  intros [_ Ha] [Hq Ec Hk Ht]. split; [done|]. rewrite Ec. eapply (abs_ok_ext _ (kof st')); [done|exact Ht|].
  by eapply abs_roused.
Qed.

Lemma roused_wakened k : roused k (wakened k).
Proof. right. unfold wakened. cbn. case_bool_decide; tauto. Qed.
Lemma roused_unwaiting k : roused k (unwaiting k).
Proof. right. cbn. tauto. Qed.

Lemma roused_put k i v j : roused (k i) v → roused (k j) (put k i v j).
Proof. intros. unfold put. destruct (Z.eqb_spec i j) as [->|]; [done|by left]. Qed.

#[export] Hint Resolve roused_wakened roused_unwaiting roused_put : sched.

Lemma rouse_wake_all st q : qok st → valid_q q → rouse st (sched_wake_all st q).
Proof.
  intros Hq Hv. eapply effect_rouse; [by apply wake_all_effect|]. intros i Hi. cbn.
  case_bool_decide; [auto with sched|by left].
Qed.
Lemma rouse_clear_wait st i : qok st → proc_ix i → rouse st (sched_clear_wait st i).
Proof. intros Hq Hi. eapply effect_rouse; [by apply clear_wait_effect|]. auto with sched. Qed.

(** An assignment to fields the view does not show. *)
Lemma rouse_keep st i f :
  qok st → proc_ix i → same_wait f → (∀ p, slot_of (f p) = slot_of p) → rouse st (upd_proc st i f).
Proof.
  intros Hq Hi Hf Hk. split; [by apply qok_same_wait|done| |done].
  intros j Hj. rewrite kof_upd_proc by (done || apply Hq). apply roused_put. rewrite Hk. by left.
Qed.

Lemma rouse_same_tables st st' : same_tables st st' → g_current st' = g_current st → qok st → rouse st st'.
Proof.
  intros Hst Ec Hq. pose proof Hst as (E1 & E2 & _). split; [by eapply qok_same_tables|done| |].
  - intros i _. left. unfold kof. by rewrite E1.
  - intros g _. unfold tof. by rewrite E2.
Qed.

(** Loops of rousing steps, from states that satisfy the invariant [I]. *)
Lemma rouse_for_loop (I : sched → Prop) n (body : Z → sched → sched) st :
  (∀ s, I s → qok s) → (∀ s s', I s → rouse s s' → I s') → I st → (n <= Z.to_nat MAX_PROCS)%nat →
  (∀ i s, proc_ix i → I s → rouse s (body i s)) → rouse st (for_loop 0 n body st).
Proof.
  intros Hq Hi Hst Hn Hb. eapply proj2, (for_loop_inv (λ _ s, I s ∧ rouse st s)); [|split; [done|auto using rouse_refl]].
  intros i s Hr [HI Hs]. assert (rouse s (body i s)) by (apply Hb; [unfold proc_ix, MAX_PROCS in *; lia|done]).
  split; [by eapply Hi|by eapply rouse_trans].
Qed.
Definition rouse_loop_q := λ n body st Hq, rouse_for_loop qok n body st (λ s H, H) (λ s s' _ H, rs_qok _ _ H) Hq.
Definition rouse_loop := λ n body st Hok, rouse_for_loop sched_ok n body st so_qok rouse_ok Hok.

Lemma rouse_foldl {A} (f : sched → A → sched) st l :
  qok st → (∀ s a, qok s → rouse s (f s a)) → rouse st (foldl f st l).
Proof.
  intros Hq Hf. revert st Hq. induction l as [|a l IH]; intros st Hq; [by apply rouse_refl|].
  eapply rouse_trans; [by apply Hf|]. apply IH. by apply Hf.
Qed.

Lemma make_ready_effect st i :
  qok st → proc_ix i → effect st (sched_make_ready st i) (put (kof st) i (wakened (kof st i))).
Proof.
  intros Hq Hi. destruct (clear_wait_effect st i Hq Hi) as [Hq1 Ec1 Hk1 Ht1]. unfold sched_make_ready.
  set (st1 := sched_clear_wait st i) in *. clearbody st1.
  pose proof (Hk1 i Hi) as Ei. rewrite put_eq in Ei.
  assert (p_state st1.p i = k_state (kof st i)) as Es by (apply (f_equal k_state) in Ei; exact Ei). rewrite Es.
  unfold wakened. case_bool_decide.
  - split; [by apply qok_same_wait|done| |done]. intros j Hj. rewrite kof_upd_proc by (done || apply Hq1).
    unfold put at 1. destruct (Z.eqb_spec i j) as [<-|Hne]; [|rewrite Hk1 by done; by rewrite !put_ne by congruence].
    rewrite put_eq. unfold unwaiting, kof, slot_of in Ei. unfold slot_of. cbn in *. by injection Ei as -> _ -> ->.
  - split; [done..| |done]. intros j Hj. by rewrite Hk1.
Qed.

Lemma rouse_make_ready st i : qok st → proc_ix i → rouse st (sched_make_ready st i).
Proof. intros Hq Hi. eapply effect_rouse; [by apply make_ready_effect|]. auto with sched. Qed.

#[export] Hint Resolve rouse_refl rouse_wake_all rouse_clear_wait rouse_make_ready : sched.

Lemma rouse_wake_others st l : qok st → rouse st (wake_others st l).
Proof. intros Hq. apply rouse_foldl; [done|]. intros s n Hs. by apply rouse_wake_all. Qed.

Lemma rouse_wake_group_waiters st g :
  qok st → (∀ i, g = Some i → proc_ix i) → rouse st (sched_wake_group_waiters st g).
Proof.
  intros Hq Hg. destruct g as [g|]; [|by apply rouse_refl]. cbn [sched_wake_group_waiters].
  assert (rouse st (sched_wake_all st (QGroup g))) as H1 by (apply rouse_wake_all; [done|by apply Hg]).
  eapply rouse_trans; [exact H1|]. apply rouse_loop_q; [apply H1|done|]. intros i s Hi Hs.
  destruct (_ && _); auto with sched.
Qed.

Lemma rouse_tick st : qok st → rouse st (sched_tick st).
Proof.
  intros Hq. unfold sched_tick.
  match goal with |- rouse _ (set_need_switch (for_loop _ _ ?b ?s) _) => set (st1 := s); set (body := b) end.
  assert (rouse st st1) as H1 by by apply rouse_same_tables.
  assert (rouse st1 (for_loop 0 (Z.to_nat MAX_PROCS) body st1)) as H2.
  { apply rouse_loop_q; [apply H1|done|]. intros i s Hi Hs. unfold body. destruct (_ && _ && _); auto with sched. }
  eapply rouse_trans; [exact H1|]. eapply rouse_trans; [exact H2|].
  generalize dependent (for_loop 0 (Z.to_nat MAX_PROCS) body st1). intros st2 H2. apply rouse_same_tables; [done|done|apply H2].
Qed.

(** *** Signals *)

Lemma find_proc_Some st P i : find_proc st P = Some i → proc_ix i ∧ P st.p i = true ∧ ∀ j, 0 <= j < i → P st.p j = false.
Proof.
  unfold find_proc. intros Hf.
  pose proof (for_exit_inv (S:=unit) (λ k _, ∀ j, 0 <= j < k → P st.p j = false)
    (λ r, proc_ix r ∧ P st.p r = true ∧ ∀ j, 0 <= j < r → P st.p j = false)
    (λ i (_ : unit), if P st.p i then inl i else inr ()) 0 (Z.to_nat MAX_PROCS) ()) as Hi.
  destruct (for_exit _ _ _ _) as [r|]; [|done]. injection Hf as ->. apply Hi; [|lia].
  intros k s Hk Hs. destruct (P st.p k) eqn:EP.
  - split; [unfold proc_ix, MAX_PROCS in *; lia|done].
  - intros j Hj. destruct (Z.eq_dec j k) as [->|]; [done|apply Hs; lia].
Qed.

Lemma find_proc_None st P : find_proc st P = None → ∀ j, proc_ix j → P st.p j = false.
Proof.
  unfold find_proc. intros Hf.
  pose proof (for_exit_inv (S:=unit) (R:=Z) (λ k _, ∀ j, 0 <= j < k → P st.p j = false) (λ _, True)
    (λ i (_ : unit), if P st.p i then inl i else inr ()) 0 (Z.to_nat MAX_PROCS) ()) as Hi.
  destruct (for_exit _ _ _ _) as [r|]; [done|]. intros j Hj. apply Hi; [| |unfold proc_ix, MAX_PROCS in *; lia]; [|lia].
  intros k s Hk Hs. destruct (P st.p k) eqn:EP; [done|].
  intros j' Hj'. destruct (Z.eq_dec j' k) as [->|]; [done|apply Hs; lia].
Qed.

Lemma ok_quiet st i : sched_ok st → proc_ix i → p_state st.p i ≠ PROC_BLOCKED → kof st i = unwaiting (kof st i).
Proof.
  intros [_ Ha] Hi Hb. unfold unwaiting. destruct (kof st i) as [g s q t] eqn:E. cbn. f_equal.
  - destruct q as [q|]; [|done]. destruct Hb. change (k_state (kof st i) = PROC_BLOCKED). eapply (ao_wait _ _ _ Ha i q Hi). by rewrite E.
  - destruct t; [|done]. destruct Hb. change (k_state (kof st i) = PROC_BLOCKED). eapply (ao_timer _ _ _ Ha i Hi). by rewrite E.
Qed.

Lemma rouse_continue st i :
  sched_ok st → proc_ix i → p_state st.p i = PROC_STOPPED → rouse st (upd_proc st i (set_state PROC_READY)).
Proof.
  intros Hok Hi Es. split; [apply qok_same_wait; [apply Hok|done|done]|done| |done].
  intros j Hj. rewrite kof_upd_proc by (done || apply Hok). apply roused_put. right.
  pose proof (ok_quiet st i Hok Hi) as E. rewrite Es in E. specialize (E ltac:(done)).
  unfold kof, slot_of, unwaiting in E. cbn in *. injection E as Eq Et. rewrite Eq, Et, Es. tauto.
Qed.

Lemma rouse_seq st st1 st2 : sched_ok st → rouse st st1 → (sched_ok st1 → rouse st1 st2) → rouse st st2.
Proof. intros Hok H1 H2. eapply rouse_trans; [exact H1|]. apply H2. by eapply rouse_ok. Qed.

Ltac rouse_keep := apply rouse_keep; [apply so_qok; assumption|assumption|done|done].

Lemma rouse_id st : sched_ok st → rouse st st.
Proof. intros Hok. by apply rouse_refl, so_qok. Qed.

Lemma upd_proc_same st i f : f st.p i = st.p i → upd_proc st i f = st.
Proof. destruct st. intros E. unfold upd_proc. cbn in *. rewrite E. f_equal. apply arr_set_get. Qed.

Lemma rouse_signal_recipient st i by_group signum :
  sched_ok st → proc_ix i → rouse st (signal_recipient st i by_group signum).
Proof.
  intros Hok Hi. unfold signal_recipient.
  apply (rouse_seq _ (signal_continue st i signum)); [done| |intros Hok1].
  { unfold signal_continue. destruct (signum =? SIGCONT); [|by apply rouse_id].
    match goal with |- rouse _ (if _ then _ else ?x) => apply (rouse_seq _ x); [done|rouse_keep|intros Hok1] end.
    case_bool_decide; [by apply rouse_continue|by apply rouse_id]. }
  generalize dependent (signal_continue st i signum). intros st1 Hok1.
  apply (rouse_seq _ (signal_stop st1 i signum)); [done| |intros Hok2].
  { unfold signal_stop. destruct (_ || _); [rouse_keep|by apply rouse_id]. }
  generalize dependent (signal_stop st1 i signum). intros st2 Hok2.
  apply (rouse_seq _ (signal_pend st2 i by_group signum)); [done| |intros Hok3].
  { unfold signal_pend. destruct by_group; [by apply rouse_id|rouse_keep]. }
  generalize dependent (signal_pend st2 i by_group signum). intros st3 Hok3.
  apply (rouse_seq _ (signal_wake st3 i signum)); [done| |intros Hok4].
  { unfold signal_wake. destruct (bool_decide _ && _) eqn:Es.
    - apply andb_true_iff in Es as [Es _]. apply bool_decide_eq_true in Es.
      destruct (signum =? SIGKILL); [by apply rouse_continue|].
      rewrite upd_proc_same; [by apply rouse_id|]. rewrite <-Es. by destruct (st3.p i).
    - clear Es. case_bool_decide; [|by apply rouse_id]. apply rouse_make_ready; [apply Hok3|done]. }
  apply rouse_same_tables; [done|done|apply Hok4].
Qed.

(** Assignments to a group that leave its queue and tally alone. *)
Lemma rouse_upd_group st g f :
  qok st → proc_ix g → gr_state_waiters (f st.g g) = gr_state_waiters st.g g → tally_of (f st.g g) = tof st g →
  rouse st (upd_group st g f).
Proof.
  intros Hq Hg Hw Ht. split; [by apply qok_upd_group|done|by left|]. apply tof_same; [apply Hq|done|done].
Qed.

Lemma ok_group_ix st i g : sched_ok st → proc_ix i → is_used st.p i = true → p_group st.p i = Some g → proc_ix g.
Proof.
  intros [_ Ha] Hi Hu Hg. destruct (ao_group _ _ _ Ha i Hi Hu) as (g' & Eg & Hgx).
  change (p_group st.p i = Some g') in Eg. congruence.
Qed.

Lemma signal_target_ix st pid g r :
  sched_ok st → signal_target st pid = (g, r) → (∀ i, g = Some i → proc_ix i) ∧ (∀ i, r = Some i → proc_ix i).
Proof.
  intros Hok. unfold signal_target.
  assert (∀ i, sched_find_group_member st pid = Some i → proc_ix i ∧ ∀ g, p_group st.p i = Some g → proc_ix g) as Hm.
  { intros i (Hi & Hu & _)%find_proc_Some. apply andb_true_iff in Hu as [_ Hu]. split; [done|].
    intros g'. by apply ok_group_ix. }
  assert (∀ i g', sched_find_group_member st pid = Some i → p_group st.p i = Some g' → proc_ix g') as Hmg by (intros i g' ?; by apply Hm).
  assert (∀ i, sched_find_group_member st pid = Some i → proc_ix i) as Hmi by (intros i ?; by apply Hm). clear Hm.
  destruct (find_proc st _) as [i|] eqn:Ef.
  - apply find_proc_Some in Ef as (Hi & Hu & _). apply andb_true_iff in Hu as [_ Hu]. unfold is_live in Hu.
    apply andb_true_iff in Hu as [Hu _]. pose proof (λ g, ok_group_ix st i g Hok Hi Hu) as Hg.
    destruct (_ =? pid); [destruct (p_group st.p i) eqn:Eg; [|destruct (sched_find_group_member st pid) eqn:Em]|];
      intros E; simplify_eq; split; intros j ?; simplify_eq; eauto.
  - destruct (sched_find_group_member st pid) eqn:Em; intros E; simplify_eq; split; intros j ?; simplify_eq; eauto.
Qed.

Lemma rouse_send_signal st pid signum : sched_ok st → rouse st (sched_send_signal st pid signum).
Proof.
  intros Hok. unfold sched_send_signal. destruct ((signum <? 1) || _) eqn:Er; [by apply rouse_id|].
  destruct (signal_target st pid) as [g r] eqn:Et. destruct (signal_target_ix _ _ _ _ Hok Et) as [Hg Hr].
  destruct g as [g|].
  - apply (rouse_seq _ (task_group_set_process_signal st (Some g) signum)); [done| |].
    + unfold task_group_set_process_signal. rewrite Er. apply rouse_upd_group; [apply Hok|by apply Hg|done|done].
    + intros Hok1. generalize dependent (task_group_set_process_signal st (Some g) signum). intros st1 Hok1.
      destruct (sched_find_group_signal_recipient st1 (Some g) signum) as [i|] eqn:Ef; [|by apply rouse_id].
      apply find_proc_Some in Ef as [Hi _]. by apply rouse_signal_recipient.
  - destruct r as [i|]; [|by apply rouse_id]. apply rouse_signal_recipient; [done|by apply Hr].
Qed.

Lemma rouse_send_signal_to_pgid st pgid signum : sched_ok st → rouse st (sched_send_signal_to_pgid st pgid signum).
Proof.
  intros Hok. unfold sched_send_signal_to_pgid. destruct (_ || _); [by apply rouse_id|].
  apply rouse_loop; [done|done|]. intros i s Hi Hs. destruct (_ && _); [by apply rouse_send_signal|by apply rouse_id].
Qed.

(** ** State changes of one process *)

Lemma effect_upd_proc st i f :
  qok st → proc_ix i → same_wait f → effect st (upd_proc st i f) (put (kof st) i (slot_of (f st.p i))).
Proof.
  intros Hq Hi Hf. split; [by apply qok_same_wait|done| |done]. intros j Hj. apply kof_upd_proc; [apply Hq|done|done].
Qed.

(** A live process stays live, in another state or on another queue. *)
Lemma ok_turn st st' i v :
  sched_ok st → proc_ix i → effect st st' (put (kof st) i v) →
  s_live (kof st i) = true → s_live v = true → k_group v = k_group (kof st i) →
  (k_state v = PROC_RUNNING → g_current st = Some i) →
  (∀ q, k_queue v = Some q → k_state v = PROC_BLOCKED ∧ q_live (kof st) q) →
  (k_timer v = true → k_state v = PROC_BLOCKED) → sched_ok st'.
Proof.
  intros [_ Ha] Hi [Hq Ec Hk Ht] Hl Hl' Hg Hr Hw Htm. split; [done|]. rewrite Ec.
  eapply (abs_ok_ext _ (put (kof st) i v)); [done|exact Ht|].
  eapply abs_steady; [exact Ha|apply Ha|..].
  - intros j Hj. unfold put. destruct (Z.eqb_spec i j) as [<-|]; [|split; [done..|by apply Ha]].
    split; [done|congruence|by rewrite !live_used|done].
  - intros j q Hj. unfold put. destruct (Z.eqb_spec i j) as [<-|]; [auto|by apply Ha].
  - intros j Hj. unfold put. destruct (Z.eqb_spec i j) as [<-|]; [auto|by apply (ao_timer _ _ _ Ha)].
Qed.

(** Every reading of one slot of the view. *)
Lemma running_live st i : p_state st.p i = PROC_RUNNING → s_live (kof st i) = true.
Proof. intros E. unfold s_live, s_used, kof, slot_of. cbn. by rewrite E. Qed.
Lemma is_live_view st i : s_live (kof st i) = is_live st.p i.
Proof. done. Qed.

Lemma ok_set_state st i s :
  sched_ok st → proc_ix i → is_live st.p i = true → p_state st.p i ≠ PROC_BLOCKED →
  s ≠ PROC_UNUSED → s ≠ PROC_ZOMBIE → (s = PROC_RUNNING → g_current st = Some i) →
  sched_ok (upd_proc st i (set_state s)).
Proof.
  intros Hok Hi Hl Hb Hu Hz Hr. pose proof (ok_quiet st i Hok Hi Hb) as Eq.
  eapply (ok_turn st _ i); [done|done|apply effect_upd_proc; [apply Hok|done|done]|done|..].
  - unfold s_live, s_used. cbn. by rewrite !bool_decide_false.
  - done.
  - done.
  - intros q. unfold slot_of. cbn. apply (f_equal k_queue) in Eq. cbn in Eq. congruence.
  - unfold slot_of. cbn. apply (f_equal k_timer) in Eq. cbn in Eq. congruence.
Qed.

Lemma ok_mark_stopped st c sig :
  sched_ok st → g_current st = Some c → p_state st.p c = PROC_RUNNING → sched_ok (sched_mark_stopped st sig).
Proof.
  intros Hok Ec Er. pose proof (ao_current _ _ _ (so_abs _ Hok) c Ec) as Hc. unfold sched_mark_stopped. rewrite Ec.
  assert (sched_ok (upd_proc st c (set_state PROC_STOPPED))) as H1
    by (apply ok_set_state; rewrite ?Er; (done || by apply running_live)).
  generalize dependent (upd_proc st c (set_state PROC_STOPPED)). intros st1 H1.
  assert (sched_ok (upd_proc st1 c (set_exit_status (Z.shiftl (sig &u 0xFF) 8 |u 0x7F)))) as H2
    by (eapply rouse_ok; [exact H1|rouse_keep]).
  generalize dependent (upd_proc st1 c (set_exit_status (Z.shiftl (sig &u 0xFF) 8 |u 0x7F))). intros st2 H2.
  assert (∀ s, sched_ok s → sched_ok (sched_wake_all s (QProc c))) as Hw.
  { intros s Hs. eapply rouse_ok; [exact Hs|]. apply rouse_wake_all; [apply Hs|done]. }
  destruct (_ =? 0); apply Hw; [done|]. eapply rouse_ok; [exact H2|by apply rouse_send_signal].
Qed.

(** *** Blocking *)

Lemma join_effect st q i :
  qok st → valid_q q → proc_ix i → k_queue (kof st i) = None →
  effect st (join st q i) (put (kof st) i (mk_slot (p_group st.p i) (p_state st.p i) (Some q) (k_timer (kof (join st q i) i)))).
Proof.
  intros [Hs Hv [Q HQ]] Hq Hi Hn. destruct (join_ok st Q q i Hs HQ Hq Hi Hn) as (Hs' & Hf & HQ' & Hwi & Hw).
  set (st' := join st q i) in *. clearbody st'.
  assert (∀ j, proc_ix j → kof st' j = put (kof st) i (mk_slot (p_group st.p i) (p_state st.p i) (Some q) (k_timer (kof st' i))) j) as Hk.
  { intros j Hj. pose proof (fr_procs _ _ Hf j (proc_ix_nonneg j Hj)) as Ev. unfold kof, put.
    destruct (Z.eqb_spec i j) as [->|Hne].
    - rewrite (pview_slot _ _ _ Ev eq_refl). unfold wkey. cbn. by rewrite Hwi.
    - by rewrite (pview_slot _ _ _ Ev (Hw j (proc_ix_nonneg j Hj) ltac:(congruence))). }
  split; [|apply Hf|done|intros g Hg; apply gframe_tof; [apply Hf|done]].
  split; [done| |by eexists]. intros j q' Hj Hq'. assert (k_queue (kof st' j) = Some q') as Eq by done.
  rewrite Hk in Eq by done. unfold put in Eq. destruct (i =? j); [|by apply (Hv j)]. cbn in Eq. congruence.
Qed.

Lemma effect_trans st st1 st2 i v v' :
  effect st st1 (put (kof st) i v) → effect st1 st2 (put (kof st1) i v') → effect st st2 (put (kof st) i v').
Proof.
  intros [A1 B1 C1 D1] [A2 B2 C2 D2]. split; [done|congruence| |].
  - intros j Hj. rewrite C2 by done. unfold put. destruct (Z.eqb_spec i j) as [|Hne]; [done|].
    rewrite C1 by done. by rewrite put_ne by congruence.
  - intros g Hg. by rewrite D2, D1.
Qed.

Lemma ok_block_on st c q :
  sched_ok st → proc_ix c → is_live st.p c = true → (∀ q', q = Some q' → q_live (kof st) q') → sched_ok (block_on st c q).
Proof.
  intros Hok Hc Hl Hq. pose proof (clear_wait_effect st c (so_qok _ Hok) Hc) as E1. unfold block_on.
  generalize dependent (sched_clear_wait st c). intros st1 E1.
  pose proof (ef_slot _ _ _ E1 c Hc) as Ec. rewrite put_eq in Ec.
  assert (∃ t, (q = None → t = false) ∧ effect st (match q with Some q => join st1 q c | None => st1 end)
    (put (kof st) c (mk_slot (p_group st.p c) (p_state st.p c) q t))) as (t & Ht & E2).
  { destruct q as [q|]; [|by exists false]. exists (k_timer (kof (join st1 q c) c)). split; [done|]. eapply effect_trans; [exact E1|].
    pose proof (f_equal k_group Ec) as Eg. pose proof (f_equal k_state Ec) as Es. cbn in Eg, Es. rewrite <-Eg, <-Es.
    apply join_effect; [apply E1| |done|by rewrite Ec]. specialize (Hq q eq_refl). destruct q; [done|apply Hq|done]. }
  change (match q with Some q => upd_proc (sched_wait_queue_enqueue st1 q c) c (set_wqueue (Some q)) | None => st1 end)
    with (match q with Some q => join st1 q c | None => st1 end).
  generalize dependent (match q with Some q => join st1 q c | None => st1 end). intros st2 E2.
  pose proof (effect_upd_proc st2 c (set_state PROC_BLOCKED) (ef_qok _ _ _ E2) Hc ltac:(done)) as E3.
  eapply (ok_turn st _ c); [done|done|by eapply effect_trans|done|..]; pose proof (ef_slot _ _ _ E2 c Hc) as Ek;
    rewrite put_eq in Ek; unfold kof, slot_of in Ek; injection Ek as Eg Es Eq Et; unfold slot_of; cbn; try done.
  rewrite Eq. auto.
Qed.

Lemma ok_block_until st c t : sched_ok st → proc_ix c → is_live st.p c = true → sched_ok (block_until st c t).
Proof.
  intros Hok Hc Hl. pose proof (clear_wait_effect st c (so_qok _ Hok) Hc) as E1. unfold block_until.
  generalize dependent (sched_clear_wait st c). intros st1 E1.
  pose proof (ef_slot _ _ _ E1 c Hc) as Ec. rewrite put_eq in Ec.
  assert (effect st (upd_proc st1 c (set_deadline t)) (put (kof st) c (slot_of (set_deadline t st1.p c)))) as E2.
  { eapply effect_trans; [exact E1|]. split; [apply qok_upd_proc; [apply E1|done|done|done|by left]|done| |done].
    intros j Hj. apply kof_upd_proc; [apply E1|done|done]. }
  generalize dependent (upd_proc st1 c (set_deadline t)). intros st2 E2.
  pose proof (effect_upd_proc st2 c (set_state PROC_BLOCKED) (ef_qok _ _ _ E2) Hc ltac:(done)) as E3.
  eapply (ok_turn st _ c); [done|done|by eapply effect_trans|done|..]; pose proof (ef_slot _ _ _ E2 c Hc) as Ek;
    rewrite put_eq in Ek; unfold kof, slot_of in Ek, Ec; injection Ek as Eg Es Eq Et; injection Ec as Eg1 Es1 Eq1 Et1;
    unfold slot_of; cbn; try done; try congruence.
Qed.

(** *** Choosing and switching *)

(** The slot [d] places after the current one, cyclically. *)
Definition after (st : sched) (d : Z) : Z :=
  (match g_current st with Some c => c | None => -1 end + d) mod MAX_PROCS.

Lemma after_ix st d : proc_ix (after st d).
Proof. unfold after, proc_ix, MAX_PROCS. apply Z.mod_pos_bound. lia. Qed.

Lemma after_all st i : proc_ix i → ∃ d, 1 <= d <= MAX_PROCS ∧ after st d = i.
Proof.
  intros Hi. unfold after, proc_ix, MAX_PROCS in *. set (c := match g_current st with Some c => c | None => -1 end).
  exists (1 + (i - c - 1) mod 8). split; [pose proof (Z.mod_pos_bound (i - c - 1) 8); lia|].
  rewrite Z.add_assoc, Zplus_mod_idemp_r. replace (c + 1 + (i - c - 1)) with i by lia. by apply Z.mod_small.
Qed.

Definition ready (st : sched) (i : Z) : Prop := p_state st.p i = PROC_READY.
#[global] Instance ready_dec st i : Decision (ready st i) := decide (p_state st.p i = PROC_READY).

Lemma pick_next_spec st :
  match sched_pick_next st with
  | Some n => ∃ d, 1 <= d <= MAX_PROCS ∧ n = after st d ∧ ready st n ∧ ∀ d', 1 <= d' < d → ¬ ready st (after st d')
  | None => ∀ i, proc_ix i → ¬ ready st i
  end.
Proof.
  unfold sched_pick_next.
  match goal with |- context [for_exit 1 _ ?b ()] => set (body := b) end.
  assert (∀ d s, body d s = if decide (ready st (after st d)) then inl (after st d) else inr ()) as Hb.
  { intros d s. unfold body. destruct (decide (ready st (after st d))); [by rewrite bool_decide_true|by rewrite bool_decide_false]. }
  clearbody body.
  pose proof (for_exit_inv (λ k (_ : unit), ∀ d', 1 <= d' < k → ¬ ready st (after st d'))
    (λ n, ∃ d, 1 <= d <= MAX_PROCS ∧ n = after st d ∧ ready st n ∧ ∀ d', 1 <= d' < d → ¬ ready st (after st d'))
    body 1 (Z.to_nat MAX_PROCS) ()) as Hi.
  destruct (for_exit 1 _ body ()) as [n|[]].
  - apply Hi; [|lia]. intros d s Hd Hs. rewrite Hb. case_decide as Er.
    + exists d. unfold MAX_PROCS in *. split; [lia|done].
    + intros d' Hd'. destruct (Z.eq_dec d' d) as [->|]; [done|apply Hs; lia].
  - intros i Hix. destruct (after_all st i Hix) as (d & Hd & <-). apply Hi; [|lia|unfold MAX_PROCS in *; lia].
    intros d2 s Hd2 Hs. rewrite Hb. case_decide as Er.
    + exists d2. unfold MAX_PROCS in *. split; [lia|done].
    + intros d' Hd'. destruct (Z.eq_dec d' d2) as [->|]; [done|apply Hs; lia].
Qed.

Lemma pick_next_ready st n : sched_pick_next st = Some n → proc_ix n ∧ ready st n.
Proof.
  intros E. pose proof (pick_next_spec st) as Hs. rewrite E in Hs. destruct Hs as (d & _ & -> & Hr & _).
  split; [apply after_ix|done].
Qed.

Definition running (st : sched) (c : Z) : Prop := g_current st = Some c ∧ p_state st.p c = PROC_RUNNING.

Lemma ok_set_current st c :
  sched_ok st → proc_ix c → (∀ i, proc_ix i → p_state st.p i ≠ PROC_RUNNING) → sched_ok (set_current st (Some c)).
Proof.
  intros [Hq Ha] Hc Hn. split; [by apply (qok_same_tables st)|].
  eapply (abs_ok_ext _ (kof st) _ (tof st)); [done|done|]. eapply abs_steady; [exact Ha|naive_solver|..].
  - intros i Hi. split; try done. intros Hr. by destruct (Hn i Hi).
  - apply Ha.
  - apply Ha.
Qed.

Section with_env.
Context {E : Type} `{SchedEnv E}.

Lemma ok_switch_to st (e : E) n :
  sched_ok st → proc_ix n → ready st n →
  let st' := (switch_to st e (g_current st) n).1 in sched_ok st' ∧ running st' n.
Proof.
  intros Hok Hn Hr. unfold ready in Hr. cbn. unfold switch_to. destruct (bool_decide_reflect (g_current st = Some n)) as [Ec|Hne]; cbn [fst].
  { split; [apply ok_set_state; rewrite ?Hr; try done; unfold is_live, is_used; by rewrite Hr|].
    split; [done|]. rewrite upd_proc_get, Z.eqb_refl by ok_side. done. }
  set (st1 := match g_current st with
              | Some p => if bool_decide (p_state st.p p = PROC_RUNNING) then upd_proc st p (set_state PROC_READY) else st
              | None => st end).
  assert (sched_ok st1 ∧ ready st1 n ∧ ∀ i, proc_ix i → p_state st1.p i ≠ PROC_RUNNING) as (H1 & Hr1 & Hn1).
  { pose proof (λ i Hi, ao_running _ _ _ (so_abs _ Hok) i Hi : p_state st.p i = PROC_RUNNING → _) as Hrun. unfold st1.
    destruct (g_current st) as [p|] eqn:Ec; [|split; [done|]; split; [done|]; intros i Hi Hx; by specialize (Hrun i Hi Hx)].
    pose proof (ao_current _ _ _ (so_abs _ Hok) p Ec) as Hp. case_bool_decide as Ep.
    - split; [apply ok_set_state; rewrite ?Ep; try done; by apply running_live|]. unfold ready.
      split; [|intros i Hi]; rewrite upd_proc_get by ok_side.
      + destruct (Z.eqb_spec p n); congruence.
      + destruct (Z.eqb_spec p i) as [|Hpi]; [done|]. intros Hx. apply Hpi. specialize (Hrun i Hi Hx). congruence.
    - split; [done|]. split; [done|]. intros i Hi Hx. specialize (Hrun i Hi Hx). congruence. }
  clearbody st1. assert (sched_ok (set_current st1 (Some n))) as H2 by by apply ok_set_current. split.
  - apply ok_set_state; try done; cbn.
    + unfold is_live, is_used. cbn. by rewrite Hr1.
    + by rewrite Hr1.
  - split; [done|]. by rewrite upd_proc_get, Z.eqb_refl by ok_side.
Qed.

(** The interrupts taken while the processor idles keep the invariant and do not
    change the current process. *)
Variable idle_wait : sched → sched.
Hypothesis idle_ok : ∀ st, sched_ok st → sched_ok (idle_wait st) ∧ g_current (idle_wait st) = g_current st.

Lemma ok_idle_loop fuel st n st' :
  sched_ok st → idle_loop idle_wait fuel st = Some (n, st') →
  sched_ok st' ∧ g_current st' = g_current st ∧ proc_ix n ∧ ready st' n.
Proof.
  revert st. induction fuel as [|fuel IH]; intros st Hok; [done|]. cbn [idle_loop].
  destruct (idle_ok st Hok) as [Hok1 Ec1]. destruct (sched_pick_next (idle_wait st)) as [m|] eqn:Ep.
  - intros [= -> <-]. apply pick_next_ready in Ep. tauto.
  - intros Hl. destruct (IH _ Hok1 Hl) as (? & ? & ? & ?). split; [done|]. split; [congruence|done].
Qed.

(** After [schedule] the invariant holds and, unless there was no process at
    all, the current process runs. *)
Lemma ok_schedule fuel st (e : E) st' e' :
  sched_ok st → schedule idle_wait fuel st e = Some (st', e') →
  sched_ok st' ∧ (is_Some (g_current st) ∨ (∃ i, proc_ix i ∧ ready st i) → ∃ n, proc_ix n ∧ running st' n).
Proof.
  intros Hok. unfold schedule. destruct (sched_pick_next st) as [n|] eqn:Ep.
  - apply pick_next_ready in Ep as [Hn Hr]. intros [= Es]. pose proof (ok_switch_to st e n Hok Hn Hr) as [A B].
    rewrite Es in A, B. split; [done|]. by exists n.
  - pose proof (pick_next_spec st) as Hno. rewrite Ep in Hno. destruct (g_current st) as [p|] eqn:Ec.
    + destruct (bool_decide_reflect (p_state st.p p = PROC_RUNNING)) as [Er|Er]; cbn [negb].
      * intros [= <- <-]. split; [done|]. exists p. split; [by apply (ao_current _ _ _ (so_abs _ Hok))|done].
      * destruct (idle_loop idle_wait fuel st) as [[n st1]|] eqn:El; [|done]. intros [= Es].
        destruct (ok_idle_loop _ _ _ _ Hok El) as (Hok1 & Ec1 & Hn & Hr). rewrite Ec in Ec1.
        pose proof (ok_switch_to st1 e n Hok1 Hn Hr) as [A B]. rewrite Ec1, Es in A, B. split; [done|]. by exists n.
    + intros [= <- <-]. split; [done|]. intros [[? ?]|(i & Hi & Hr)]; [done|]. by destruct (Hno i Hi).
Qed.
End with_env.
