(* ===== verification/SchedLife.v ===== *)
(** * Scheduler: creation, exit and reaping

    The operations that change which processes and groups exist keep the
    invariant of SchedOps.v. *)

From S2P Require Import Prelude Sched SchedInv SchedAbs SchedOps.

(** ** Exit *)

(** A rousing leaves a running process alone. *)
Lemma rouse_running st st' i :
  rouse st st' → proc_ix i → p_state st.p i = PROC_RUNNING →
  p_state st'.p i = PROC_RUNNING ∧ p_group st'.p i = p_group st.p i.
Proof.
  intros Hr Hi Es. destruct (rs_slot _ _ Hr i Hi) as [E|(Eg & _ & _ & [E|[_ E]])].
  - unfold kof, slot_of in E. injection E as Eg E _ _. split; congruence.
  - unfold kof, slot_of in *. cbn in *. split; congruence.
  - unfold kof, slot_of in E. cbn in E. destruct E; congruence.
Qed.

(** The view of a state that differs from a good one in the tally of group [g]
    only. *)
Record off_by (st : sched) (cur : option Z) (t : Z → tally) (g : Z) (x : tally) : Prop := {
  ob_qok : qok st;
  ob_current : g_current st = cur;
  ob_abs : abs_ok cur (kof st) t;
  ob_tally g' : proc_ix g' → tof st g' = put t g x g';
}.

Lemma off_by_rouse st st' cur t g x : off_by st cur t g x → rouse st st' → off_by st' cur t g x.
Proof.
  intros [A B C D] Hr. split; [apply Hr|rewrite <-B; apply Hr|eapply abs_roused; [exact C|apply Hr]|].
  intros g' Hg'. rewrite (rs_tally _ _ Hr) by done. auto.
Qed.

Lemma remove_task_off st c g :
  sched_ok st → proc_ix c → p_state st.p c = PROC_RUNNING → p_group st.p c = Some g →
  proc_ix g ∧ 0 < gr_live_tasks st.g g ∧
  off_by (task_group_remove_task st (Some g)) (g_current st) (tof st) g
    (mk_tally (gr_used st.g g) (gr_refs st.g g) (gr_live_tasks st.g g - 1)).
Proof.
  intros Hok Hc Er Eg. assert (s_live (kof st c) = true) as Hl by by apply running_live.
  destruct (ao_group _ _ _ (so_abs _ Hok) c Hc (live_used _ Hl)) as (g' & Eg' & Hg).
  assert (g' = g) as -> by (unfold kof, slot_of in Eg'; cbn in Eg'; congruence).
  pose proof (lives_member (kof st) c g Hc Hl Eg) as Hpos. rewrite <-(ao_live _ _ _ (so_abs _ Hok)) in Hpos by done.
  change (t_live (tof st g)) with (gr_live_tasks st.g g) in Hpos. split; [done|]. split; [done|].
  cbn [task_group_remove_task]. rewrite (proj2 (Z.ltb_lt _ _) Hpos).
  split; [by apply qok_upd_group; [apply Hok|..]|done|apply Hok|].
  intros g' Hg'. rewrite tof_upd_group by ok_side. done.
Qed.

(** Waking a group leaves nobody asleep on it. *)
Lemma wake_group_none st g j :
  qok st → proc_ix g → proc_ix j → k_queue (kof (sched_wake_group_waiters st (Some g)) j) ≠ Some (QGroup g).
Proof.
  intros Hq Hg Hj. cbn [sched_wake_group_waiters].
  pose proof (wake_all_effect st (QGroup g) Hq Hg) as E1. generalize dependent (sched_wake_all st (QGroup g)). intros st1 E1.
  match goal with |- context [for_loop 0 _ ?b _] => set (body := b) end.
  assert (rouse st1 (for_loop 0 (Z.to_nat MAX_PROCS) body st1)) as Hr.
  { apply rouse_loop_q; [apply E1|done|]. intros i s Hi Hs. unfold body. destruct (_ && _); auto with sched. }
  destruct (rs_slot _ _ Hr j Hj) as [->|(_ & -> & _)]; [|done].
  rewrite (ef_slot _ _ _ E1) by done. case_bool_decide; [done|]. done.
Qed.

Lemma off_by_exit st c g cur t :
  proc_ix c → proc_ix g → p_state st.p c = PROC_RUNNING → p_group st.p c = Some g →
  off_by st cur t g (mk_tally (t_used (t g)) (t_refs (t g)) (t_live (t g) - 1)) →
  (t_live (t g) = 1 → ∀ j, proc_ix j → k_queue (kof st j) ≠ Some (QGroup g)) →
  sched_ok (upd_proc st c (set_state PROC_ZOMBIE)).
Proof.
  intros Hc Hg Er Eg [Hq Ecur Ha Ht] Hw. split; [by apply qok_same_wait|].
  pose proof (abs_exit cur (kof st) t c g Ha Hc (running_live st c Er) Eg (λ E j Hj _, Hw E j Hj)) as Hx.
  cbn [g_current upd_proc]. rewrite Ecur. eapply abs_ok_ext; [| |exact Hx].
  - intros j Hj. rewrite kof_upd_proc by (done || apply Hq). unfold put. destruct (c =? j); [|done].
    unfold slot_of, idle. cbn. rewrite Eg. f_equal.
    + destruct (w_queue (p_wait st.p c)) as [q|] eqn:Eq; [|done].
      destruct (ao_wait _ _ _ Ha c q Hc Eq) as [Hb _]. unfold kof, slot_of in Hb. cbn in Hb. congruence.
    + destruct (w_deadline_set (p_wait st.p c)) eqn:Eq; [|done].
      pose proof (ao_timer _ _ _ Ha c Hc Eq) as Hb. unfold kof, slot_of in Hb. cbn in Hb. congruence.
  - intros g' Hg'. change (tof (upd_proc st c (set_state PROC_ZOMBIE)) g') with (tof st g'). by apply Ht.
Qed.

Lemma ok_leave_group st c g :
  sched_ok st → proc_ix c → p_state st.p c = PROC_RUNNING → p_group st.p c = Some g →
  sched_ok (upd_proc (leave_group st c (Some g)) c (set_state PROC_ZOMBIE)) ∧
  g_current (leave_group st c (Some g)) = g_current st.
Proof.
  intros Hok Hc Er Eg. destruct (remove_task_off st c g Hok Hc Er Eg) as (Hg & Hpos & H1). unfold leave_group.
  assert (p_state (task_group_remove_task st (Some g)).p c = PROC_RUNNING ∧ p_group (task_group_remove_task st (Some g)).p c = Some g)
    as [Er1 Eg1] by (cbn; by destruct (_ <? _)).
  assert (task_group_live_count (task_group_remove_task st (Some g)) (Some g) = gr_live_tasks st.g g - 1) as El.
  { pose proof (ob_tally _ _ _ _ _ H1 g Hg) as E. rewrite put_eq in E. apply (f_equal t_live) in E. exact E. }
  rewrite El. generalize dependent (task_group_remove_task st (Some g)). intros st1 H1 Er1 Eg1 El.
  destruct (Z.eqb_spec (gr_live_tasks st.g g - 1) 0) as [E0|E0].
  - set (st2 := if gr_group_exit st1.g g then st1 else upd_group st1 g (set_gr_exit false (p_exit_status st1.p c))).
    assert (rouse st1 st2) as Hr2.
    { unfold st2. destruct (gr_group_exit st1.g g); [by apply rouse_refl, (ob_qok _ _ _ _ _ H1)|].
      apply rouse_upd_group; [apply H1|done|done|done]. }
    pose proof (off_by_rouse _ _ _ _ _ _ H1 Hr2) as H2. destruct (rouse_running _ _ c Hr2 Hc Er1) as [Er2 Eg2].
    rewrite Eg1 in Eg2. clearbody st2.
    pose proof (rouse_wake_group_waiters st2 (Some g) (ob_qok _ _ _ _ _ H2) ltac:(naive_solver)) as Hr3.
    pose proof (off_by_rouse _ _ _ _ _ _ H2 Hr3) as H3. destruct (rouse_running _ _ c Hr3 Hc Er2) as [Er3 Eg3].
    pose proof (λ j Hj, wake_group_none st2 g j (ob_qok _ _ _ _ _ H2) Hg Hj) as Hnone.
    generalize dependent (sched_wake_group_waiters st2 (Some g)). intros st3 Hr3 H3 Er3 Eg3 Hnone.
    split; [|apply H3]. eapply off_by_exit; [done|done|done|congruence|exact H3|]. intros _. exact Hnone.
  - split; [|apply H1]. eapply off_by_exit; [done|done|done|done|exact H1|]. intros E1. destruct E0.
    change (t_live (tof st g)) with (gr_live_tasks st.g g) in E1. lia.
Qed.

Section with_env.
Context {E : Type} `{SchedEnv E}.

Lemma rouse_inherit_exit st c g : qok st → proc_ix c → rouse st (inherit_exit st c g).
Proof.
  intros Hq Hc. unfold inherit_exit. destruct g as [g|]; [|by apply rouse_refl].
  destruct (gr_group_exit st.g g); [|by apply rouse_refl]. by apply rouse_keep.
Qed.

Lemma ok_running_group st c : sched_ok st → proc_ix c → p_state st.p c = PROC_RUNNING → ∃ g, p_group st.p c = Some g.
Proof.
  intros Hok Hc Er. destruct (ao_group _ _ _ (so_abs _ Hok) c Hc (live_used _ (running_live st c Er))) as (g & Eg & _).
  by exists g.
Qed.

Lemma ok_mark_exit st (e : E) c :
  sched_ok st → running st c → sched_ok (sched_mark_exit st e).1 ∧ g_current (sched_mark_exit st e).1 = Some c.
Proof.
  intros Hok [Ec Er]. pose proof (ao_current _ _ _ (so_abs _ Hok) c Ec) as Hc. unfold sched_mark_exit. rewrite Ec.
  destruct (ok_running_group st c Hok Hc Er) as [g Eg]. rewrite Eg.
  pose proof (rouse_inherit_exit st c (Some g) (so_qok _ Hok) Hc) as Hr1.
  generalize dependent (inherit_exit st c (Some g)). intros st1 Hr1.
  destruct (se_put_files _ c) as [wk e1].
  pose proof (rouse_trans _ _ _ Hr1 (rouse_wake_others st1 wk (rs_qok _ _ Hr1))) as Hr2.
  generalize dependent (wake_others st1 wk). intros st2 Hr2.
  destruct (rouse_running _ _ c Hr2 Hc Er) as [Er2 Eg2]. rewrite Eg in Eg2.
  destruct (ok_leave_group st2 c g (rouse_ok _ _ Hok Hr2) Hc Er2 Eg2) as [H3 Ec3].
  rewrite (rs_current _ _ Hr2), Ec in Ec3. generalize dependent (leave_group st2 c (Some g)). intros st3 H3 Ec3.
  destruct (_ || _); cbn [fst]; [|done].
  pose proof (rouse_wake_all _ (QProc c) (so_qok _ H3) Hc) as Hr4. split; [by eapply rouse_ok|].
  by rewrite (rs_current _ _ Hr4).
Qed.

Lemma rouse_force_ready st i :
  sched_ok st → proc_ix i → is_live st.p i = true → p_state st.p i ≠ PROC_RUNNING →
  rouse st (upd_proc (sched_clear_wait st i) i (set_state PROC_READY)).
Proof.
  intros Hok Hi Hl Hr. pose proof (clear_wait_effect st i (so_qok _ Hok) Hi) as E1.
  generalize dependent (sched_clear_wait st i). intros st1 E1.
  pose proof (ef_slot _ _ _ E1 i Hi) as Ei. rewrite put_eq in Ei.
  eapply effect_rouse; [eapply effect_trans; [exact E1|]; apply effect_upd_proc; [apply E1|done|done]|].
  intros j Hj. apply roused_put. right. unfold kof, slot_of, unwaiting in Ei |- *. cbn in *. injection Ei as -> _ -> ->.
  split; [done|]. split; [done|]. split; [done|]. unfold is_live, is_used in Hl. destruct (p_state st.p i); naive_solver.
Qed.

Lemma ok_mark_group_exit st (e : E) status c :
  sched_ok st → running st c →
  sched_ok (sched_mark_group_exit st e status).1 ∧ g_current (sched_mark_group_exit st e status).1 = Some c.
Proof.
  intros Hok [Ec Er]. pose proof (ao_current _ _ _ (so_abs _ Hok) c Ec) as Hc. unfold sched_mark_group_exit. rewrite Ec.
  destruct (ok_running_group st c Hok Hc Er) as [g Eg]. rewrite Eg.
  assert (proc_ix g) as Hg by (eapply (ok_group_ix st c); [done|done|by unfold is_used; rewrite Er|done]).
  assert (rouse st (upd_group st g (set_gr_exit true (Z.shiftl (status &u 0xFF) 8)))) as Hr1
    by (apply rouse_upd_group; [apply Hok|done..]).
  generalize dependent (upd_group st g (set_gr_exit true (Z.shiftl (status &u 0xFF) 8))). intros st1 Hr1.
  match goal with |- context [for_loop 0 _ ?b _] => set (body := b) end.
  assert (rouse st1 (for_loop 0 (Z.to_nat MAX_PROCS) body st1)) as Hr2.
  { apply (rouse_for_loop (λ s, sched_ok s ∧ g_current s = Some c)).
    - intros s [Hs _]. apply Hs.
    - intros s s' [Hs Ecs] Hr. split; [by eapply rouse_ok|]. by rewrite (rs_current _ _ Hr).
    - split; [by eapply rouse_ok|]. by rewrite (rs_current _ _ Hr1).
    - done.
    - intros i s Hi [Hs Ecs]. unfold body. destruct (is_live s.p i && in_group g s.p i && negb (i =? c)) eqn:Ei; [|by apply rouse_id].
      bprop. apply rouse_force_ready; [done|done|done|]. intros Hrun.
      pose proof (ao_running _ _ _ (so_abs _ Hs) i Hi Hrun). congruence. }
  pose proof (rouse_trans _ _ _ Hr1 Hr2) as Hr. generalize dependent (for_loop 0 (Z.to_nat MAX_PROCS) body st1). intros st2 _ Hr.
  apply ok_mark_exit; [by eapply rouse_ok|]. split; [by rewrite (rs_current _ _ Hr)|].
  by apply (rouse_running _ _ c Hr Hc Er).
Qed.

Lemma ok_mark_signaled st (e : E) sig core c :
  sched_ok st → running st c →
  sched_ok (sched_mark_signaled st e sig core).1 ∧ g_current (sched_mark_signaled st e sig core).1 = Some c.
Proof.
  intros Hok [Ec Er]. pose proof (ao_current _ _ _ (so_abs _ Hok) c Ec) as Hc. unfold sched_mark_signaled. rewrite Ec.
  assert (rouse st (upd_proc st c (set_exit_status (sig &u 0x7F)))) as Hr1 by rouse_keep.
  generalize dependent (upd_proc st c (set_exit_status (sig &u 0x7F))). intros st1 Hr1.
  pose proof (rouse_ok _ _ Hok Hr1) as Hok1.
  set (st2 := if core then _ else st1). assert (rouse st1 st2) as Hr2.
  { unfold st2. destruct core; [rouse_keep|by apply rouse_id]. }
  clearbody st2. pose proof (rouse_trans _ _ _ Hr1 Hr2) as Hr.
  apply ok_mark_exit; [by eapply rouse_ok|]. split; [by rewrite (rs_current _ _ Hr)|].
  by apply (rouse_running _ _ c Hr Hc Er).
Qed.

(** ** Reaping *)

(** Emptying a queue nobody sleeps on. *)
Lemma rouse_queue_init st q :
  qok st → valid_q q → (∀ i, proc_ix i → k_queue (kof st i) ≠ Some q) → rouse st (sched_wait_queue_init st q).
Proof.
  intros [Hs Hv [Q HQ]] Hq Hno. unfold sched_wait_queue_init.
  assert (∀ j, proc_ix j → p_wait (set_queue st q empty_wq).p j = p_wait st.p j) as Hw
    by (intros j Hj; apply set_queue_wait; [done|done|by apply proc_ix_nonneg]).
  pose proof (frame_set_queue st q empty_wq Hs Hq) as [_ Hf].
  assert (∀ q', valid_q q' → ∀ j, j ∈ Q q' → proc_ix j) as Hmem by (intros q' Hq' j Hj; by apply (wq_mem _ _ _ (HQ q' Hq'))).
  split; [split; [by apply sized_set_queue| |]|apply Hf| |].
  - intros i q' Hi. rewrite Hw by done. by apply Hv.
  - exists Q. intros q' Hq'. eapply wq_ok_ext; [..|exact (HQ q' Hq')].
    + rewrite get_set_queue by done. destruct (decide (q = q')) as [<-|]; [|done].
      pose proof (HQ q Hq) as Hok. assert (Q q = []) as EQ.
      { destruct (Q q) as [|j l] eqn:El; [done|]. destruct (proj1 (wq_mem _ _ _ Hok j) ltac:(left)) as [Hj Hwj].
        by destruct (Hno j Hj). }
      rewrite EQ in Hok. pose proof (wq_chain _ _ _ Hok) as Eh. pose proof (wq_last _ _ _ Hok) as Et.
      destruct (get_queue st q) as [h t]. cbn in *. by subst.
    + intros i Hi. by rewrite Hw by (by eapply Hmem).
    + intros i Hi. unfold waits_on. by rewrite Hw.
  - intros i Hi. left. unfold kof. apply core_slot. apply set_queue_core; [done|done|by apply proc_ix_nonneg].
  - intros g Hg. by apply gframe_tof.
Qed.

Lemma group_put_effect st g :
  qok st → proc_ix g → 0 < gr_refs st.g g →
  (gr_refs st.g g = 1 → ∀ j, proc_ix j → k_queue (kof st j) ≠ Some (QGroup g)) →
  let st' := task_group_put st (Some g) in
  qok st' ∧ g_current st' = g_current st ∧ proc_table st' = proc_table st ∧
  ∀ g', proc_ix g' → tof st' g' = put (tof st) g (t_drop (tof st g)) g'.
Proof.
  intros Hq Hg Hpos Hno. cbn [task_group_put]. cbv zeta. destruct (Z.eqb_spec (gr_refs st.g g) 0); [lia|].
  set (st1 := upd_group st g (λ r, set_gr_refs (gr_refs r - 1) r)).
  assert (qok st1) as Hq1 by by apply qok_upd_group.
  assert (∀ g', proc_ix g' → tof st1 g' = put (tof st) g (mk_tally (gr_used st.g g) (gr_refs st.g g - 1) (gr_live_tasks st.g g)) g') as Ht1
    by (intros g' Hg'; unfold st1; by rewrite tof_upd_group by (done || apply Hq)).
  assert (gr_refs st1.g g = gr_refs st.g g - 1) as Er1.
  { pose proof (f_equal t_refs (Ht1 g Hg)) as E1. rewrite put_eq in E1. exact E1. }
  rewrite Er1. unfold t_drop. change (t_refs (tof st g)) with (gr_refs st.g g).
  assert (g_current st1 = g_current st ∧ proc_table st1 = proc_table st) as [Ec1 Ep1] by done. clearbody st1.
  destruct (Z.eqb_spec (gr_refs st.g g - 1) 0) as [E0|E0].
  - rewrite (proj2 (Z.eqb_eq (gr_refs st.g g) 1)) by lia.
    assert (rouse st1 (sched_wait_queue_init st1 (QGroup g))) as Hr.
    { apply rouse_queue_init; [done|done|]. intros i Hi. unfold kof. rewrite Ep1. apply Hno; [lia|done]. }
    assert (upd_group st1 g (λ _, zero_group) = upd_group (sched_wait_queue_init st1 (QGroup g)) g (λ _, zero_group)) as ->.
    { unfold upd_group. cbn. f_equal. unfold arr_set. by rewrite list_insert_insert_eq. }
    pose proof (rs_qok _ _ Hr) as Hq2. assert (gr_state_waiters (sched_wait_queue_init st1 (QGroup g)).g g = empty_wq) as Ew.
    { cbn. rewrite arr_get_set_eq; [done|]. destruct (qk_sized _ Hq1) as [_ Hl]. rewrite Hl. exact Hg. }
    split; [apply qok_upd_group; [done|done|by rewrite Ew]|]. split; [done|]. split; [done|].
    intros g' Hg'. rewrite tof_upd_group by (done || apply Hq2). unfold put. destruct (Z.eqb_spec g g') as [->|]; [done|].
    rewrite (rs_tally _ _ Hr), Ht1 by done. by rewrite put_ne by congruence.
  - rewrite (proj2 (Z.eqb_neq (gr_refs st.g g) 1)) by lia. done.
Qed.

(** A zombie leaves the table. *)
Definition free_slot (p : proc) : proc :=
  set_state PROC_UNUSED (set_group None
    (set_ids (mk_ids 0 0 0 (id_pgid (p_ids p)) (id_sid (p_ids p)) (id_tty (p_ids p)) (id_ppid (p_ids p))) p)).

Lemma rouse_zombie st st' i :
  rouse st st' → proc_ix i → p_state st.p i = PROC_ZOMBIE → p_state st'.p i = PROC_ZOMBIE ∧ p_group st'.p i = p_group st.p i.
Proof.
  intros Hr Hi Es. destruct (rs_slot _ _ Hr i Hi) as [Ek|(Eg & _ & _ & [Ek|[_ Ek]])].
  - unfold kof, slot_of in Ek. injection Ek as Eg Ek _ _. split; congruence.
  - unfold kof, slot_of in *. cbn in *. split; congruence.
  - unfold kof, slot_of in Ek. cbn in Ek. destruct Ek; congruence.
Qed.

Lemma ok_put_and_free st i g :
  sched_ok st → proc_ix i → p_state st.p i = PROC_ZOMBIE → p_group st.p i = Some g →
  sched_ok (upd_proc (task_group_put st (Some g)) i free_slot) ∧
  g_current (task_group_put st (Some g)) = g_current st.
Proof.
  intros Hok Hi Ez Eg. assert (s_used (kof st i) = true) as Hu by (unfold s_used, kof, slot_of; cbn; by rewrite Ez).
  destruct (ao_group _ _ _ (so_abs _ Hok) i Hi Hu) as (g' & Eg' & Hg).
  assert (g' = g) as -> by (unfold kof, slot_of in Eg'; cbn in Eg'; congruence).
  pose proof (abs_reap _ _ _ i g None (so_abs _ Hok) Hi Ez Eg) as Ha.
  assert (0 < gr_refs st.g g) as Hpos.
  { change (gr_refs st.g g) with (t_refs (tof st g)). rewrite (ao_refs _ _ _ (so_abs _ Hok)) by done. apply cnt_pos.
    exists i. split; [done|]. rewrite Hu. unfold s_in. by rewrite bool_decide_true. }
  destruct (group_put_effect st g (so_qok _ Hok) Hg Hpos) as (Hq & Ec & Ep & Ht).
  { intros E1 j Hj Hw. destruct (ao_wait _ _ _ (so_abs _ Hok) j _ Hj Hw) as [_ [_ Hl]].
    assert (lives (kof st) g <= 0); [|lia].
    pose proof (lives_put (kof st) i (idle g PROC_UNUSED) g Hi) as E2. pose proof (refs_put (kof st) i (idle g PROC_UNUSED) g Hi) as E3.
    rewrite Hu in E3. unfold s_in in E3. rewrite Eg', bool_decide_true in E3 by done.
    assert (s_live (kof st i) = false) as El by (unfold s_live, s_used, kof, slot_of; cbn; by rewrite Ez).
    rewrite El in E2. change (s_used (idle g PROC_UNUSED)) with false in E3. change (s_live (idle g PROC_UNUSED)) with false in E2.
    cbn [andb Z.b2z] in E2, E3. rewrite <-(ao_refs _ _ _ (so_abs _ Hok)) in E3 by done.
    change (t_refs (tof st g)) with (gr_refs st.g g) in E3. pose proof (cnt_le (put (kof st) i (idle g PROC_UNUSED)) g). lia. }
  generalize dependent (task_group_put st (Some g)). intros st1 Hq Ec Ep Ht. split; [|done].
  split; [by apply qok_same_wait|]. cbn [g_current upd_proc]. rewrite Ec.
  eapply abs_ok_ext; [| |exact Ha].
  - intros j Hj. rewrite kof_upd_proc by (done || apply Hq). unfold kof at 1. rewrite Ep. unfold put.
    destruct (i =? j); [|done]. pose proof (ok_quiet st i Hok Hi ltac:(by rewrite Ez)) as Eq.
    unfold kof, slot_of, unwaiting, free_slot in *. cbn in *. injection Eq as -> ->. done.
  - intros g' Hg'. change (tof (upd_proc st1 i free_slot) g') with (tof st1 g'). by apply Ht.
Qed.

(** Reaping is: rouse some, drop the group reference, free the slot. *)
Lemma reap_shape st (e : E) i :
  sched_ok st → proc_ix i → p_state st.p i = PROC_ZOMBIE →
  ∃ st3 g, rouse st st3 ∧ p_state st3.p i = PROC_ZOMBIE ∧ p_group st3.p i = Some g ∧
    (sched_reap st e i).1 = upd_proc (task_group_put st3 (Some g)) i free_slot.
Proof.
  intros Hok Hi Ez. unfold sched_reap. rewrite bool_decide_true by done. cbn [negb].
  pose proof (rouse_clear_wait st i (so_qok _ Hok) Hi) as Hr1. generalize dependent (sched_clear_wait st i). intros st1 Hr1.
  pose proof (rouse_ok _ _ Hok Hr1) as Hok1.
  pose proof (rouse_queue_init st1 (QProc i) (so_qok _ Hok1) Hi) as Hr2.
  assert (rouse st1 (sched_wait_queue_init st1 (QProc i))) as Hr2'.
  { apply Hr2. intros j Hj Hw. by destruct (ao_wait _ _ _ (so_abs _ Hok1) j _ Hj Hw) as [_ []]. }
  clear Hr2. generalize dependent (sched_wait_queue_init st1 (QProc i)). intros st2 Hr2.
  destruct (se_put_all e i) as [wk e1]. pose proof (rouse_wake_others st2 wk (rs_qok _ _ Hr2)) as Hr3.
  generalize dependent (wake_others st2 wk). intros st3 Hr3.
  assert (rouse st st3) as Hr by (eapply rouse_trans; [exact Hr1|]; by eapply rouse_trans).
  destruct (rouse_zombie _ _ i Hr Hi Ez) as [Ez3 _]. pose proof (rouse_ok _ _ Hok Hr) as Hok3.
  assert (is_Some (p_group st3.p i)) as [g Eg].
  { destruct (ao_group _ _ _ (so_abs _ Hok3) i Hi) as (g & Eg & _); [unfold s_used, kof, slot_of; cbn; by rewrite Ez3|by exists g]. }
  exists st3, g. by rewrite Eg.
Qed.

Lemma ok_reap st (e : E) i :
  sched_ok st → proc_ix i → sched_ok (sched_reap st e i).1 ∧ g_current (sched_reap st e i).1 = g_current st.
Proof.
  intros Hok Hi. destruct (decide (p_state st.p i = PROC_ZOMBIE)) as [Ez|Hz].
  - destruct (reap_shape st e i Hok Hi Ez) as (st3 & g & Hr & Ez3 & Eg & ->).
    destruct (ok_put_and_free st3 i g (rouse_ok _ _ Hok Hr) Hi Ez3 Eg) as [A B]. split; [exact A|].
    change (g_current (task_group_put st3 (Some g)) = g_current st). rewrite B. apply Hr.
  - unfold sched_reap. by rewrite bool_decide_false.
Qed.

Lemma group_put_procs st g : proc_table (task_group_put st g) = proc_table st.
Proof. destruct g; [|done]. cbn [task_group_put]. destruct (_ =? 0); [done|]. by destruct (_ =? 0). Qed.

Lemma reap_slots st (e : E) i j :
  sched_ok st → proc_ix i → p_state st.p i = PROC_ZOMBIE → proc_ix j →
  let st' := (sched_reap st e i).1 in
  if i =? j then k_state (kof st' j) = PROC_UNUSED else roused (kof st j) (kof st' j).
Proof.
  intros Hok Hi Ez Hj. cbv zeta. destruct (reap_shape st e i Hok Hi Ez) as (st3 & g & Hr & Ez3 & Eg & ->).
  pose proof (ok_sized _ (rouse_ok _ _ Hok Hr)) as [Hs _].
  assert (kof (upd_proc (task_group_put st3 (Some g)) i free_slot) j = put (kof st3) i (slot_of (free_slot st3.p i)) j) as ->.
  { unfold kof, put. cbn [proc_table upd_proc]. rewrite group_put_procs, arr_get_set
      by (try (by apply proc_ix_nonneg); rewrite Hs; unfold proc_ix, MAX_PROCS in *; lia).
    by destruct (i =? j). }
  unfold put. destruct (Z.eqb_spec i j); [done|]. by apply Hr.
Qed.

Lemma ok_reap_group st (e : E) g :
  sched_ok st → sched_ok (sched_reap_group st e g).1 ∧ g_current (sched_reap_group st e g).1 = g_current st.
Proof.
  intros Hok. unfold sched_reap_group.
  apply (for_loop_inv (λ _ (s : sched * E), sched_ok s.1 ∧ g_current s.1 = g_current st)); [|done].
  intros i [s e'] Hi [Hs Ec]. cbn [fst] in *. destruct (_ && _); [|done].
  destruct (ok_reap s e' i Hs) as [A B]; [unfold proc_ix, MAX_PROCS in *; lia|]. split; [done|congruence].
Qed.

(** ** Creation *)

Lemma empty_queue st q : qok st → valid_q q → (∀ i, proc_ix i → k_queue (kof st i) ≠ Some q) → get_queue st q = empty_wq.
Proof.
  intros [_ _ [Q HQ]] Hq Hno. pose proof (HQ q Hq) as Hok. destruct (Q q) as [|j l] eqn:EQ.
  - pose proof (wq_chain _ _ _ Hok) as Eh. pose proof (wq_last _ _ _ Hok) as Et.
    destruct (get_queue st q) as [h t]. cbn in *. by subst.
  - destruct (proj1 (wq_mem _ _ _ Hok j) ltac:(left)) as [Hj Hwj]. by destruct (Hno j Hj).
Qed.

Lemma ok_proc_queue st i : sched_ok st → proc_ix i → p_state_waiters st.p i = empty_wq.
Proof.
  intros Hok Hi. apply (empty_queue st (QProc i) (so_qok _ Hok) Hi). intros j Hj Hw.
  by destruct (ao_wait _ _ _ (so_abs _ Hok) j _ Hj Hw) as [_ []].
Qed.

(** The group a new task joins: its own new one, or the one of its descriptor. *)
Record joins (st st1 : sched) (g : Z) : Prop := {
  jn_qok : qok st1;
  jn_current : g_current st1 = g_current st;
  jn_procs : proc_table st1 = proc_table st;
  jn_tally g' : proc_ix g' → tof st1 g' = put (tof st) g (mk_tally true (t_refs (tof st g) + 1) (t_live (tof st g))) g';
}.

Lemma create_joins st tgid leader parent pgid sid tty sig g st1 :
  sched_ok st → task_group_create st tgid leader parent pgid sid tty sig = (Some g, st1) → proc_ix g ∧ joins st st1 g.
Proof.
  intros Hok. unfold task_group_create.
  match goal with |- context [for_exit 0 _ ?b ()] => set (body := b) end.
  pose proof (for_exit_inv (S:=unit) (λ _ _, True) (λ r, proc_ix r ∧ gr_used st.g r = false) body 0 (Z.to_nat MAX_PROCS) ()) as Hi.
  destruct (for_exit 0 _ body ()) as [r|]; [|done]. intros [= -> <-].
  destruct Hi as [Hg Hu]; [|done|].
  { intros k s Hk _. unfold body. destruct (gr_used st.g k) eqn:Eu; [done|]. split; [unfold proc_ix, MAX_PROCS in *; lia|done]. }
  destruct (abs_free_group _ _ _ g (so_abs _ Hok) Hg Hu) as [Er El].
  assert (gr_state_waiters st.g g = empty_wq) as Ew.
  { apply (empty_queue st (QGroup g) (so_qok _ Hok) Hg). intros j Hj Hw.
    destruct (ao_wait _ _ _ (so_abs _ Hok) j _ Hj Hw) as [_ [_ Hl]]. rewrite <-(ao_live _ _ _ (so_abs _ Hok)) in Hl by done. lia. }
  split; [done|]. split; [by apply qok_upd_group; [apply Hok|..]|done|done|].
  intros g' Hg'. rewrite tof_upd_group by ok_side. by rewrite Er, El.
Qed.

Lemma get_joins st g : sched_ok st → proc_ix g → gr_used st.g g = true → joins st (task_group_get st (Some g)) g.
Proof.
  intros Hok Hg Hu. split; [by apply qok_upd_group; [apply Hok|..]|done|done|].
  intros g' Hg'. cbn [task_group_get]. rewrite tof_upd_group by ok_side.
  pose proof (abs_tally _ _ _ g (so_abs _ Hok) Hg) as [_ Hr]. unfold put. destruct (Z.eqb_spec g g') as [<-|]; [|done].
  unfold tally_of. cbn in *. rewrite Hu. f_equal. apply u32_small. unfold is_u32, MAX_PROCS in *. lia.
Qed.

Lemma ok_joined st st1 g i p :
  sched_ok st → proc_ix g → proc_ix i → is_used st.p i = false → joins st st1 g → slot_of p = idle g PROC_READY →
  p_state_waiters p = empty_wq →
  sched_ok (upd_proc (task_group_add_task st1 (Some g)) i (λ _, p)).
Proof.
  intros Hok Hg Hi Hu Hj Ep Ew.
  set (st2 := task_group_add_task st1 (Some g)).
  assert (qok st2) as Hq2 by (apply qok_upd_group; [apply Hj|done|done]).
  assert (proc_table st2 = proc_table st) as Ep2 by apply Hj. assert (g_current st2 = g_current st) as Ec2 by apply Hj.
  assert (∀ g', proc_ix g' → tof st2 g' = put (tof st) g (t_join (tof st g)) g') as Ht2.
  { intros g' Hg'. unfold st2. cbn [task_group_add_task]. rewrite tof_upd_group by (done || apply Hj).
    pose proof (abs_tally _ _ _ g (so_abs _ Hok) Hg) as [Hl _]. pose proof (jn_tally _ _ _ Hj g Hg) as Etg. rewrite put_eq in Etg.
    unfold put. destruct (Z.eqb_spec g g') as [<-|Hne].
    - unfold tof, tally_of, t_join in *. cbn in *. injection Etg as -> -> ->. f_equal. apply u32_small. unfold is_u32, MAX_PROCS in *. lia.
    - rewrite (jn_tally _ _ _ Hj) by done. by rewrite put_ne by congruence. }
  clearbody st2. pose proof (ok_quiet st i Hok Hi) as Eq.
  assert (p_state st.p i ≠ PROC_BLOCKED) as Hb by (intros Eb; unfold is_used in Hu; by rewrite Eb in Hu).
  specialize (Eq Hb). unfold kof, slot_of, unwaiting in Eq. cbn in Eq. injection Eq as Eq _.
  assert (w_queue (p_wait p) = None) as Ewq by (unfold slot_of, idle in Ep; by injection Ep).
  split.
  - apply qok_upd_proc; [done|done|..]; rewrite Ep2; [|congruence|by right]. rewrite Ew. symmetry. by apply ok_proc_queue.
  - cbn [g_current upd_proc]. rewrite Ec2. eapply abs_ok_ext; [| |by apply (abs_add _ _ _ i g (so_abs _ Hok))].
    + intros j Hjx. rewrite kof_upd_proc by (done || apply Hq2). unfold kof at 1. rewrite Ep2, Ep. done.
    + intros g' Hg'. change (tof (upd_proc st2 i (λ _, p)) g') with (tof st2 g'). by apply Ht2.
Qed.

(** A descriptor ready for [sched_add]. *)
Definition fresh_descriptor (st : sched) (p : proc) : Prop :=
  w_queue (p_wait p) = None ∧ w_deadline_set (p_wait p) = false ∧ p_state_waiters p = empty_wq ∧
  ∀ g, p_group p = Some g → proc_ix g ∧ gr_used st.g g = true.

Lemma ok_add st (e : E) p r st' e' :
  sched_ok st → fresh_descriptor st p → sched_add st e p = (r, st', e') → sched_ok st' ∧ g_current st' = g_current st.
Proof.
  intros Hok (Hw & Hd & Hsw & Hg). unfold sched_add.
  destruct (find_proc st _) as [i|] eqn:Ef; [|by intros [= _ <- _]].
  apply find_proc_Some in Ef as (Hi & Hu & _). apply negb_true_iff in Hu.
  set (st0 := set_next_pid st _). assert (sched_ok st0) as Hok0 by by apply (sched_ok_same_tables st).
  assert (is_used st0.p i = false) as Hu0 by done. assert (g_current st0 = g_current st) as Ec0 by done.
  assert (groups st0 = groups st) as Eg0 by done. clearbody st0. clear Hok Hu. cbv zeta.
  set (fin := λ g tid tgid pgid sid tty, set_state PROC_READY (set_group (Some g)
                     (set_ids (mk_ids tid tgid tid pgid sid tty (id_ppid (p_ids p))) p))).
  assert (∀ g st1 a b c d f, proc_ix g → joins st0 st1 g →
    sched_ok (upd_proc (task_group_add_task st1 (Some g)) i (λ _, fin g a b c d f)) ∧
    g_current (upd_proc (task_group_add_task st1 (Some g)) i (λ _, fin g a b c d f)) = g_current st) as Hfin.
  { intros g st1 a b c d f Hgx Hj. split; [|cbn; rewrite <-Ec0; apply Hj].
    apply (ok_joined st0); [done|done|done|done|done| |done]. unfold slot_of, fin, idle. cbn. by rewrite Hw, Hd. }
  destruct (p_group p) as [g|] eqn:Epg.
  - destruct (Hg g eq_refl) as [Hgx Hused]. intros [= _ <- _]. apply (Hfin g); [done|].
    apply get_joins; [done|done|by rewrite Eg0].
  - destruct (task_group_create st0 _ _ _ _ _ _ _) as [[g|] st1] eqn:Ecr.
    + intros [= _ <- _]. destruct (create_joins _ _ _ _ _ _ _ _ _ _ Hok0 Ecr) as [Hgx Hj]. by apply (Hfin g).
    + intros [= _ <- _]. unfold task_group_create in Ecr. destruct (for_exit _ _ _ _); [done|]. by injection Ecr as <-.
Qed.

(** Nobody waits for the group of a task that is taken back. *)
Definition unawaited (st : sched) (tid : Z) : Prop :=
  ∀ i g j, sched_find_slot st tid = Some i → p_group st.p i = Some g → proc_ix j → k_queue (kof st j) ≠ Some (QGroup g).

Lemma rouse_unqueued st st' j q : rouse st st' → proc_ix j → k_queue (kof st j) ≠ Some q → k_queue (kof st' j) ≠ Some q.
Proof. intros Hr Hj Hn. by destruct (rs_slot _ _ Hr j Hj) as [->|(_ & -> & _)]. Qed.

Lemma ok_take_back st i g :
  sched_ok st → proc_ix i → p_state st.p i = PROC_READY → p_group st.p i = Some g →
  (∀ j, proc_ix j → k_queue (kof st j) ≠ Some (QGroup g)) →
  sched_ok (upd_proc (task_group_put (task_group_remove_task st (Some g)) (Some g)) i (λ _, zero_proc)).
Proof.
  intros Hok Hi Er Eg Hno. assert (s_live (kof st i) = true) as Hl by (unfold s_live, s_used, kof, slot_of; cbn; by rewrite Er).
  destruct (ao_group _ _ _ (so_abs _ Hok) i Hi (live_used _ Hl)) as (g' & Eg' & Hg).
  assert (g' = g) as -> by (unfold kof, slot_of in Eg'; cbn in Eg'; congruence).
  pose proof (lives_member (kof st) i g Hi Hl Eg') as Hpos. pose proof (cnt_le (kof st) g) as Hle.
  rewrite <-(ao_live _ _ _ (so_abs _ Hok)) in Hpos, Hle by done. rewrite <-(ao_refs _ _ _ (so_abs _ Hok)) in Hle by done.
  change (t_live (tof st g)) with (gr_live_tasks st.g g) in *. change (t_refs (tof st g)) with (gr_refs st.g g) in *.
  pose proof (abs_remove _ _ _ i g None (so_abs _ Hok) Hi Hl Eg' (λ _ j Hj _, Hno j Hj)) as Ha.
  cbn [task_group_remove_task]. rewrite (proj2 (Z.ltb_lt _ _) Hpos).
  set (st1 := upd_group st g (λ r, set_gr_live (gr_live_tasks r - 1) r)).
  assert (qok st1) as Hq1 by (apply qok_upd_group; [apply Hok|done|done]).
  assert (∀ g', proc_ix g' → tof st1 g' = put (tof st) g (mk_tally (gr_used st.g g) (gr_refs st.g g) (gr_live_tasks st.g g - 1)) g') as Ht1
    by (intros; unfold st1; by rewrite tof_upd_group by ok_side).
  pose proof (Ht1 g Hg) as Etg. rewrite put_eq in Etg.
  assert (proc_table st1 = proc_table st ∧ g_current st1 = g_current st) as [Ep1 Ec1] by done. clearbody st1.
  destruct (group_put_effect st1 g Hq1 Hg) as (Hq2 & Ec2 & Ep2 & Ht2).
  { apply (f_equal t_refs) in Etg. change (gr_refs st1.g g = gr_refs st.g g) in Etg. lia. }
  { intros _ j Hj. unfold kof. rewrite Ep1. by apply Hno. }
  generalize dependent (task_group_put st1 (Some g)). intros st2 Hq2 Ec2 Ep2 Ht2.
  pose proof (ok_quiet st i Hok Hi ltac:(by rewrite Er)) as Eq. unfold kof, slot_of, unwaiting in Eq. cbn in Eq. injection Eq as Eq _.
  split.
  - apply qok_upd_proc; [done|done|..]; rewrite Ep2, Ep1; [|by rewrite Eq|by right]. symmetry. by apply ok_proc_queue.
  - cbn [g_current upd_proc]. rewrite Ec2, Ec1. eapply abs_ok_ext; [| |exact Ha].
    + intros j Hj. rewrite kof_upd_proc by (done || apply Hq2). unfold kof at 1. by rewrite Ep2, Ep1.
    + intros g' Hg'. change (tof (upd_proc st2 i (λ _, zero_proc)) g') with (tof st2 g'). rewrite Ht2, Etg by done.
      unfold put. destruct (Z.eqb_spec g g') as [|Hne]; [done|]. rewrite Ht1 by done. by rewrite put_ne by congruence.
Qed.

Lemma ok_force_remove st (e : E) tid r st' e' :
  sched_ok st → unawaited st tid → sched_force_remove_task st e tid = (r, st', e') → sched_ok st'.
Proof.
  intros Hok Hno. unfold sched_force_remove_task. destruct (sched_find_slot st tid) as [i|] eqn:Ef; [|by intros [= _ <- _]].
  case_bool_decide as Er; cbn [negb]; [|by intros [= _ <- _]].
  assert (proc_ix i) as Hi by (by apply find_proc_Some in Ef as [? _]).
  pose proof (rouse_clear_wait st i (so_qok _ Hok) Hi) as Hr1. generalize dependent (sched_clear_wait st i). intros st1 Hr1.
  destruct (se_put_all e i) as [wk e1].
  pose proof (rouse_trans _ _ _ Hr1 (rouse_wake_others st1 wk (rs_qok _ _ Hr1))) as Hr.
  generalize dependent (wake_others st1 wk). intros st2 Hr. pose proof (rouse_ok _ _ Hok Hr) as Hok2.
  assert (p_state st2.p i = PROC_READY ∧ p_group st2.p i = p_group st.p i) as [Er2 Eg2].
  { destruct (rs_slot _ _ Hr i Hi) as [Ek|(Eg & _ & _ & [Ek|[Ek _]])]; unfold kof, slot_of in *; cbn in *; split; congruence. }
  assert (is_Some (p_group st2.p i)) as [g Eg].
  { destruct (ao_group _ _ _ (so_abs _ Hok2) i Hi) as (g & Eg & _); [unfold s_used, kof, slot_of; cbn; by rewrite Er2|by exists g]. }
  assert (∀ s, p_group (task_group_remove_task s (Some g)).p i = p_group s.p i) as Epr by (intros; cbn; by destruct (_ <? _)).
  rewrite Eg, Epr, Eg. intros [= _ <- _]. apply ok_take_back; [done..|]. intros j Hj. eapply rouse_unqueued; [exact Hr|done|].
  eapply Hno; [done|congruence|done].
Qed.

(** Exec: the replacement takes over slot, group and waiters of the caller. *)
Lemma ok_exec_current st (e : E) p c :
  sched_ok st → running st c → w_queue (p_wait p) = None → w_deadline_set (p_wait p) = false →
  p_state_waiters p = p_state_waiters st.p c →
  sched_ok (sched_exec_current st e p).1 ∧ running (sched_exec_current st e p).1 c.
Proof.
  intros Hok [Ec Er] Hw Hd Hs. pose proof (ao_current _ _ _ (so_abs _ Hok) c Ec) as Hc.
  unfold sched_exec_current. rewrite Ec. cbn [fst].
  pose proof (ok_quiet st c Hok Hc ltac:(by rewrite Er)) as Eq.
  match goal with |- context [upd_proc st c ?f] => set (rep := f) end.
  assert (slot_of (rep st.p c) = kof st c) as Ek.
  { rewrite Eq. unfold rep, slot_of, unwaiting, kof. cbn. by rewrite Hw, Hd, Er. }
  assert (effect st (upd_proc st c rep) (put (kof st) c (kof st c))) as Hef.
  { split; [|done| |done].
    - assert (w_queue (p_wait st.p c) = None) as Eqn by exact (f_equal k_queue Eq).
      apply qok_upd_proc; [apply Hok|done|done|by rewrite Eqn|by right].
    - intros j Hj. rewrite kof_upd_proc by ok_side. by rewrite Ek. }
  split; [|split; [done|by rewrite upd_proc_get, Z.eqb_refl by ok_side]].
  eapply rouse_ok; [exact Hok|]. eapply effect_rouse; [exact Hef|]. intros j Hj. apply roused_put. by left.
Qed.
End with_env.
