(* ===== verification/SchedProps.v ===== *)
(** * Scheduler: properties

    The invariant holds in every reachable state; round-robin choice; what waking,
    ticks, signals, stops and waits do. *)

From stdpp Require Import relations.
From S2P Require Import Prelude Sched SchedInv SchedAbs SchedOps SchedLife.

(** ** Boot *)

Definition boot : sched :=
  mk_sched (replicate (Z.to_nat MAX_PROCS) zero_proc) (replicate (Z.to_nat MAX_PROCS) zero_group) ∅ None false 0 0.

Lemma blank_ok st :
  sized st → (∀ i, proc_ix i → st.p i = zero_proc) → (∀ g, proc_ix g → st.g g = zero_group) → others st = ∅ →
  g_current st = None → sched_ok st.
Proof.
  intros Hs Hp Hg Ho Ec.
  assert (∀ i, proc_ix i → kof st i = slot_of zero_proc) as Hk by (intros i Hi; unfold kof; by rewrite Hp).
  split.
  - split; [done| |].
    + intros i q Hi. by rewrite Hp.
    + exists (λ _, []). intros q Hq. assert (get_queue st q = empty_wq) as Eq.
      { destruct q as [i|g|n]; cbn [get_queue]; [by rewrite Hp|by rewrite Hg|by rewrite Ho, lookup_empty]. }
      split; [by rewrite Eq|by rewrite Eq|apply NoDup_nil_2|]. intros i. split; [by intros ?%not_elem_of_nil|].
      intros [Hi Hw]. unfold waits_on in Hw. by rewrite Hp in Hw.
  - rewrite Ec. split.
    + done.
    + intros i Hi. by rewrite Hk.
    + intros i q Hi. by rewrite Hk.
    + intros i Hi. by rewrite Hk.
    + intros i Hi. by rewrite Hk.
    + intros g Hgx. unfold tof. rewrite Hg by done. unfold refs. by rewrite (cnt_ext _ (λ _, false)) by (intros; by rewrite Hk).
    + intros g Hgx. unfold tof. rewrite Hg by done. unfold lives. by rewrite (cnt_ext _ (λ _, false)) by (intros; by rewrite Hk).
    + intros g Hgx. unfold tof. by rewrite Hg.
Qed.

Lemma ok_init : sched_ok (sched_init boot).
Proof.
  assert (∀ i, proc_ix i → i = 0 ∨ i = 1 ∨ i = 2 ∨ i = 3 ∨ i = 4 ∨ i = 5 ∨ i = 6 ∨ i = 7) as Hix
    by (unfold proc_ix, MAX_PROCS; lia).
  apply blank_ok; [by split| | |done|done]; intros i Hi; apply Hix in Hi; naive_solver.
Qed.

Section with_env.
Context {E : Type} `{SchedEnv E}.
Implicit Types (st : sched) (e : E).

Lemma ok_bootstrap st : sched_ok st → g_current st = None → sched_ok (sched_bootstrap st).2.
Proof.
  intros Hok Ec. unfold sched_bootstrap. destruct (find_proc st _) as [i|] eqn:Ef; [|done]. cbn [snd].
  apply find_proc_Some in Ef as (Hi & Hr & _). apply bool_decide_eq_true in Hr.
  change (sched_ok (upd_proc (set_current st (Some i)) i (set_state PROC_RUNNING))).
  apply ok_set_state; try done.
  - apply ok_set_current; [done|done|]. intros j Hj Hrun. pose proof (ao_running _ _ _ (so_abs _ Hok) j Hj Hrun). congruence.
  - unfold is_live, is_used. cbn. by rewrite Hr.
  - cbn. by rewrite Hr.
Qed.

(** ** Delivery *)

Lemma rouse_take_signal st c s st' :
  sched_ok st → running st c → take_signal st c = (s, st') → rouse st st'.
Proof.
  intros Hok [Ec Er]. pose proof (ao_current _ _ _ (so_abs _ Hok) c Ec) as Hc. unfold take_signal.
  set (own := if _ && _ && _ then _ else _). destruct own as [x|]; [intros [= _ <-]; rouse_keep|].
  destruct (ok_running_group st c Hok Hc Er) as [g Eg]. rewrite Eg. cbn [task_group_take_process_signal].
  destruct (_ =? 0); [intros [= _ <-]; by apply rouse_id|]. intros [= _ <-].
  assert (proc_ix g) as Hg by (eapply (ok_group_ix st c); [done|done|by unfold is_used; rewrite Er|done]).
  apply rouse_upd_group; [apply Hok|done|done|done].
Qed.

Lemma ok_kill st e sig core c :
  sched_ok st → running st c →
  sched_ok (kill_and_switch st e sig core).1.2 ∧ g_current (kill_and_switch st e sig core).1.2 = Some c.
Proof.
  intros Hok Hr. unfold kill_and_switch. pose proof (ok_mark_signaled st e sig core c Hok Hr) as Hx.
  by destruct (sched_mark_signaled st e sig core).
Qed.

Lemma ok_run_handler st e sig h c :
  sched_ok st → running st c →
  sched_ok (run_handler st e c sig h).1.2 ∧ g_current (run_handler st e c sig h).1.2 = Some c.
Proof.
  intros Hok Hr. unfold run_handler. destruct (se_setup_frame e c sig h) as [[] e']; [split; [done|apply Hr]|by apply ok_kill].
Qed.

Lemma mark_stopped_current st c sig :
  sched_ok st → running st c → sched_ok (sched_mark_stopped st sig) ∧ g_current (sched_mark_stopped st sig) = Some c.
Proof.
  intros Hok [Ec Er]. pose proof (ok_mark_stopped st c sig Hok Ec Er) as Hx. split; [done|].
  pose proof (ao_current _ _ _ (so_abs _ Hok) c Ec) as Hc. unfold sched_mark_stopped. rewrite Ec.
  assert (sched_ok (upd_proc st c (set_state PROC_STOPPED))) as H1
    by (apply ok_set_state; rewrite ?Er; (done || by apply running_live)).
  set (st1 := upd_proc st c (set_state PROC_STOPPED)) in *. assert (g_current st1 = Some c) as Ec1 by done. clearbody st1.
  set (st2 := upd_proc st1 c _). assert (sched_ok st2) as H2 by (eapply rouse_ok; [exact H1|rouse_keep]).
  assert (g_current st2 = Some c) as Ec2 by done. clearbody st2.
  assert (∀ s, sched_ok s → g_current s = Some c → g_current (sched_wake_all s (QProc c)) = Some c) as Hw.
  { intros s Hs <-. apply (rs_current s). by apply rouse_wake_all; [apply Hs|]. }
  destruct (_ =? 0); [by apply Hw|]. pose proof (rouse_send_signal st2 (id_ppid (p_ids st2.p c)) SIGCHLD H2) as Hr.
  apply Hw; [by eapply rouse_ok|]. by rewrite (rs_current _ _ Hr).
Qed.

Lemma ok_deliver st e c sig :
  sched_ok st → running st c → sched_ok (deliver st e c sig).1.2 ∧ g_current (deliver st e c sig).1.2 = Some c.
Proof.
  intros Hok Hr. pose proof (ao_current _ _ _ (so_abs _ Hok) c (proj1 Hr)) as Hc. unfold deliver.
  set (fc := cr_valid _ && _). set (st1 := if fc then upd_proc st c (set_crash false) else st).
  assert (rouse st st1) as Hr1 by (unfold st1; destruct fc; [rouse_keep|by apply rouse_id]).
  assert (sched_ok st1 ∧ running st1 c) as [Hok1 Hrun1].
  { split; [by eapply rouse_ok|]. split; [rewrite (rs_current _ _ Hr1); apply Hr|]. by apply (rouse_running _ _ c Hr1 Hc), Hr. }
  destruct (sig =? SIGSTOP); [by apply mark_stopped_current|].
  destruct (_ && (_ =? SIG_DFL)); [by apply mark_stopped_current|].
  destruct (sig =? SIGCONT); [destruct (_ <? _); [by apply ok_run_handler|split; [done|apply Hr]]|].
  destruct (_ =? SIG_IGN); [split; [done|apply Hrun1]|]. destruct (_ =? SIG_DFL); [|by apply ok_run_handler].
  destruct (is_fatal_default sig); [|split; [done|apply Hrun1]].
  destruct (if fc && dumps_core_default sig then se_core_dump e c sig else (false, e)) as [d e']. by apply ok_kill.
Qed.

(** ** Waiting for children *)

(** A round of [sched_waitpid] returns in a good state, or blocks on the queue of
    a group that still has a live member. *)
Lemma ok_waitpid_round st e pid options :
  sched_ok st →
  match waitpid_round st e pid options with
  | inl (_, st', _) => sched_ok st' ∧ g_current st' = g_current st
  | inr q => q_live (kof st) q
  end.
Proof.
  intros Hok. unfold waitpid_round.
  destruct (match sched_find_slot st pid with Some i => Some i | None => sched_find_group_member st pid end) as [i|] eqn:Et; [|done].
  assert (proc_ix i ∧ is_used st.p i = true) as [Hi Hu].
  { destruct (sched_find_slot st pid) as [j|] eqn:Ef; simplify_eq.
    - apply find_proc_Some in Ef as (? & Hu & _). by apply andb_true_iff in Hu as [_ ?].
    - apply find_proc_Some in Et as (? & Hu & _). by apply andb_true_iff in Hu as [_ ?]. }
  destruct (ao_group _ _ _ (so_abs _ Hok) i Hi Hu) as (g & Eg & Hg). change (p_group st.p i = Some g) in Eg. rewrite Eg.
  destruct (negb (_ =? _)); [done|].
  destruct (bool_decide (p_state st.p i = PROC_ZOMBIE) && negb (sched_group_has_live_slots st g)) eqn:Ez.
  { pose proof (ok_reap_group st e g Hok) as Hrg. by destruct (sched_reap_group st e g). }
  destruct (_ && bool_decide (p_state st.p i = PROC_STOPPED)); [done|].
  destruct (negb (options &u WNOHANG =? 0)); [done|].
  split; [done|]. unfold sched_group_has_live_slots in Ez.
  destruct (find_proc st (λ p, in_group g p && is_live p)) as [j|] eqn:Ef.
  - apply find_proc_Some in Ef as (Hj & Hl & _). apply andb_true_iff in Hl as [Hin Hl]. apply bool_decide_eq_true in Hin.
    by eapply (lives_member _ j).
  - rewrite andb_true_r in Ez. apply bool_decide_eq_false in Ez. eapply (lives_member _ i); [done| |done].
    rewrite is_live_view. unfold is_live. rewrite Hu. by rewrite bool_decide_false.
Qed.

(** ** The steps of the scheduler

    One step is one call into sched.c, from the process that runs or from an
    interrupt handler; the guards are the callers' obligations. *)

Variable idle_wait : sched → sched.

Inductive sched_step : sched * E → sched * E → Prop :=
| step_bootstrap st e : g_current st = None → sched_step (st, e) ((sched_bootstrap st).2, e)
| step_add st e p r st' e' : fresh_descriptor st p → sched_add st e p = (r, st', e') → sched_step (st, e) (st', e')
| step_force_remove st e tid r st' e' :
    unawaited st tid → sched_force_remove_task st e tid = (r, st', e') → sched_step (st, e) (st', e')
| step_exec st e c p :
    running st c → w_queue (p_wait p) = None → w_deadline_set (p_wait p) = false →
    p_state_waiters p = p_state_waiters st.p c → sched_step (st, e) (sched_exec_current st e p)
| step_tick st e : sched_step (st, e) (sched_tick st, e)
| step_wake st e n : sched_step (st, e) (sched_wake_all st (QOther n), e)
| step_signal st e pid signum : sched_step (st, e) (sched_send_signal st pid signum, e)
| step_signal_pgid st e pgid signum : sched_step (st, e) (sched_send_signal_to_pgid st pgid signum, e)
| step_fault st e signum : sched_step (st, e) (sched_record_user_fault st signum, e)
| step_schedule fuel st e st' e' : schedule_if_needed idle_wait fuel st e = Some (st', e') → sched_step (st, e) (st', e')
| step_yield fuel st e st' e' : schedule idle_wait fuel st e = Some (st', e') → sched_step (st, e) (st', e')
| step_block fuel st e c n st' e' :
    running st c → sched_block idle_wait fuel st e (Some (QOther n)) = Some (st', e') → sched_step (st, e) (st', e')
| step_sleep fuel st e c t st' e' :
    running st c → sched_block_until idle_wait fuel st e t = Some (st', e') → sched_step (st, e) (st', e')
| step_exit st e c : running st c → sched_step (st, e) (sched_mark_exit st e)
| step_exit_group st e c status : running st c → sched_step (st, e) (sched_mark_group_exit st e status)
| step_stop st e c sig : running st c → sched_step (st, e) (sched_mark_stopped st sig, e)
| step_wait_done st e pid options r st' e' :
    waitpid_round st e pid options = inl (r, st', e') → sched_step (st, e) (st', e')
| step_wait_block fuel st e c pid options q st' e' :
    running st c → waitpid_round st e pid options = inr q → sched_block idle_wait fuel st e (Some q) = Some (st', e') →
    sched_step (st, e) (st', e')
| step_check fuel st e c st' e' :
    running st c → sched_signal_check idle_wait fuel st e = Some (st', e') → sched_step (st, e) (st', e').

Hypothesis idle_ok : ∀ st, sched_ok st → sched_ok (idle_wait st) ∧ g_current (idle_wait st) = g_current st.

Lemma running_ix st c : sched_ok st → running st c → proc_ix c.
Proof. intros Hok [Ec _]. by apply (ao_current _ _ _ (so_abs _ Hok)). Qed.

Lemma ok_schedule_only fuel st e st' e' :
  sched_ok st → schedule idle_wait fuel st e = Some (st', e') → sched_ok st'.
Proof. intros Hok Hs. by eapply ok_schedule in Hs as [? _]. Qed.

Lemma ok_block fuel st e c q st' e' :
  sched_ok st → running st c → q_live (kof st) q → sched_block idle_wait fuel st e (Some q) = Some (st', e') → sched_ok st'.
Proof.
  intros Hok Hr Hq. pose proof (running_ix _ _ Hok Hr) as Hc. destruct Hr as [Ec Er]. unfold sched_block. rewrite Ec.
  intros Hs. eapply ok_schedule_only; [|exact Hs].
  apply ok_block_on; [done|done|by apply running_live|]. by intros q' [= <-].
Qed.

Lemma ok_signal_check fuel st e c st' e' :
  sched_ok st → running st c → sched_signal_check idle_wait fuel st e = Some (st', e') → sched_ok st'.
Proof.
  intros Hok Hr. pose proof (running_ix _ _ Hok Hr) as Hc. unfold sched_signal_check. rewrite (proj1 Hr).
  destruct (negb _); [by intros [= <- _]|].
  destruct (match p_group st.p c with Some g => gr_group_exit st.g g | None => false end).
  { pose proof (ok_mark_exit st e c Hok Hr) as [Hx _]. destruct (sched_mark_exit st e) as [st1 e1]. cbn [fst] in Hx.
    by apply ok_schedule_only. }
  destruct (take_signal st c) as [s st1] eqn:Et. pose proof (rouse_take_signal st c s st1 Hok Hr Et) as Hr1.
  pose proof (rouse_ok _ _ Hok Hr1) as Hok1. destruct s as [s|]; [|by intros [= <- _]].
  assert (running st1 c) as Hrun1.
  { split; [rewrite (rs_current _ _ Hr1); apply Hr|]. by apply (rouse_running _ _ c Hr1 Hc), Hr. }
  pose proof (ok_deliver st1 e c s Hok1 Hrun1) as [Hd _]. destruct (deliver st1 e c s) as [[sw st2] e2]. cbn [fst snd] in Hd.
  destruct sw; [|by intros [= <- _]]. by apply ok_schedule_only.
Qed.

Lemma ok_step s s' : sched_ok s.1 → sched_step s s' → sched_ok s'.1.
Proof.
  intros Hok Hs. destruct Hs; cbn [fst] in *.
  - by apply ok_bootstrap.
  - by eapply ok_add.
  - by eapply ok_force_remove.
  - eapply ok_exec_current; eauto.
  - eapply rouse_ok; [exact Hok|]. apply rouse_tick, Hok.
  - eapply rouse_ok; [exact Hok|]. by apply rouse_wake_all; [apply Hok|].
  - eapply rouse_ok; [exact Hok|]. by apply rouse_send_signal.
  - eapply rouse_ok; [exact Hok|]. by apply rouse_send_signal_to_pgid.
  - unfold sched_record_user_fault. destruct (g_current st) as [c|] eqn:Ec; [|done].
    pose proof (ao_current _ _ _ (so_abs _ Hok) c Ec) as Hc. destruct (_ || _); [done|].
    eapply rouse_ok; [exact Hok|]. rouse_keep.
  - unfold schedule_if_needed in *. destruct (negb (g_need_switch st)); [by simplify_eq|].
    assert (sched_ok (set_need_switch st false)) as Hok1 by by apply (sched_ok_same_tables st).
    destruct (negb _); [by simplify_eq|]. by eapply ok_schedule_only.
  - by eapply ok_schedule_only.
  - by eapply (ok_block _ _ _ _ (QOther n)).
  - match goal with Hr : running _ _ |- _ => pose proof (running_ix _ _ Hok Hr) as Hc; destruct Hr as [Ec Er] end.
    unfold sched_block_until in *. rewrite Ec in *. eapply ok_schedule_only; [|done].
    apply ok_block_until; [done|done|by apply running_live].
  - by apply (ok_mark_exit _ _ c).
  - by apply (ok_mark_group_exit _ _ _ c).
  - by apply (mark_stopped_current _ c).
  - match goal with Hw : waitpid_round _ _ ?p ?o = _ |- _ => pose proof (ok_waitpid_round st e p o Hok) as Hx; rewrite Hw in Hx end.
    apply Hx.
  - match goal with Hw : waitpid_round _ _ ?p ?o = _ |- _ => pose proof (ok_waitpid_round st e p o Hok) as Hx; rewrite Hw in Hx end.
    by eapply (ok_block _ _ _ _ q).
  - by eapply ok_signal_check.
Qed.

Lemma ok_steps st e st' e' : sched_ok st → rtc sched_step (st, e) (st', e') → sched_ok st'.
Proof.
  intros Hok Hr. remember (st, e) as s eqn:Es. remember (st', e') as s' eqn:Es'.
  assert (sched_ok s.1) as Hs by by subst. assert (sched_ok s'.1); [|by subst]. clear Es Es' Hok.
  induction Hr as [|s1 s2 s3 Hs1 _ IH]; [done|]. apply IH. by eapply ok_step.
Qed.

(** C10: in every state the scheduler reaches from [sched_init] by any sequence of
    creation, switch, sleep, wake, tick, signal, stop, exit, exec and wait
    steps: the intrusive wait queues are well-linked lists that hold exactly the
    processes whose [wait_queue] names them, only sleeping processes wait, only
    the current process is RUNNING, nobody sleeps on a group without live
    members, and the reference and live counts of every group equal the numbers
    of its slots. *)
Theorem sched_reachable_ok e st e' :
  rtc sched_step (sched_init boot, e) (st, e') → sched_ok st.
Proof.
  intros Hr. exact (ok_steps _ _ _ _ ok_init Hr).
Qed.
End with_env.

(** ** Witness states *)

(** An environment without effects. *)
#[global] Instance quiet_env : SchedEnv unit := {|
  se_has_resources _ _ := true;
  se_put_all _ _ := ([], ());
  se_put_files _ _ := ([], ());
  se_release_user_space _ _ := ();
  se_release_kstack _ _ := ();
  se_console_release _ _ := ();
  se_clear_tid _ _ _ := ();
  se_has_context _ _ := true;
  se_build_frame _ _ := ();
  se_core_dump _ _ _ := (false, ());
  se_setup_frame _ _ _ _ := (true, ());
  se_frame_is_user _ := true;
  se_switch _ _ _ := ();
|}.

(** A descriptor whose parent is process [ppid]. *)
Definition child_of (ppid : Z) : proc := set_ids (mk_ids 0 0 0 0 0 0 ppid) zero_proc.

Definition added (st : sched) (p : proc) : sched := (sched_add st () p).1.2.
Definition scheduled (st : sched) : sched := match schedule sched_tick 10 st () with Some (st, _) => st | None => st end.

(** Process 1 runs and has a child, process 2. *)
Definition demo_family : sched := (sched_bootstrap (added (added (sched_init boot) (child_of 0)) (child_of 1))).2.

(** Process 1 waits for process 2, which runs. *)
Definition demo_waiting : sched := scheduled (block_on demo_family 0 (Some (QGroup 1))).

Lemma idle_tick_ok st : sched_ok st → sched_ok (sched_tick st) ∧ g_current (sched_tick st) = g_current st.
Proof.
  intros Hok. pose proof (rouse_tick st (so_qok _ Hok)) as Hr. split; [by eapply rouse_ok|apply Hr].
Qed.

Lemma child_fresh st ppid : fresh_descriptor st (child_of ppid).
Proof. done. Qed.

Lemma added_step st ppid : sched_step (E:=unit) sched_tick (st, ()) (added st (child_of ppid), ()).
Proof.
  unfold added. destruct (sched_add st () (child_of ppid)) as [[r st'] []] eqn:Ea.
  by apply (step_add _ _ _ (child_of ppid) r); [apply child_fresh|].
Qed.

Lemma demo_family_run : rtc (sched_step (E:=unit) sched_tick) (sched_init boot, ()) (demo_family, ()).
Proof.
  eapply rtc_l; [apply (added_step _ 0)|]. eapply rtc_l; [apply (added_step _ 1)|].
  apply rtc_once. unfold demo_family. apply step_bootstrap. vm_compute. reflexivity.
Qed.

Lemma demo_family_running : running demo_family 0.
Proof. split; vm_compute; reflexivity. Qed.

Lemma demo_waiting_eq : sched_block sched_tick 10 demo_family () (Some (QGroup 1)) = Some (demo_waiting, ()).
Proof. vm_compute. reflexivity. Qed.

Lemma demo_waiting_run : rtc (sched_step (E:=unit) sched_tick) (sched_init boot, ()) (demo_waiting, ()).
Proof.
  eapply rtc_r; [exact demo_family_run|].
  eapply (step_wait_block _ 10 _ _ 0 2 0 (QGroup 1)); [exact demo_family_running|vm_compute; reflexivity|exact demo_waiting_eq].
Qed.

Lemma demo_family_ok : sched_ok demo_family.
Proof. exact (ok_steps sched_tick idle_tick_ok _ () _ () ok_init demo_family_run). Qed.
Lemma demo_waiting_ok : sched_ok demo_waiting.
Proof. exact (ok_steps sched_tick idle_tick_ok _ () _ () ok_init demo_waiting_run). Qed.

Lemma sched_reachable_ok_witness : p_state demo_waiting.p 0 = PROC_BLOCKED ∧ sched_ok demo_waiting.
Proof.
  split; [vm_compute; reflexivity|]. exact (sched_reachable_ok (E:=unit) sched_tick idle_tick_ok () demo_waiting () demo_waiting_run).
Defined.

(** ** Waking *)

(** Waking a queue makes ready exactly the processes that sleep on it, takes
    them off every queue and timer, leaves every other process and every group as
    it was, and empties the queue. *)
Theorem sched_wake_all_correct st q :
  sched_ok st → valid_q q →
  let st' := sched_wake_all st q in
  sched_ok st' ∧ get_queue st' q = empty_wq ∧
  ∀ i, proc_ix i → kof st' i =
    if decide (waits_on st q i) then mk_slot (p_group st.p i) PROC_READY None false else kof st i.
Proof.
  intros Hok Hq st'. pose proof (wake_all_effect st q (so_qok _ Hok) Hq) as He. fold st' in He.
  assert (rouse st st') as Hr by (apply rouse_wake_all; [apply Hok|done]). clearbody st'.
  split; [by eapply rouse_ok|]. split.
  - apply empty_queue; [apply He|done|]. intros i Hi. rewrite (ef_slot _ _ _ He) by done. case_bool_decide; done.
  - intros i Hi. rewrite (ef_slot _ _ _ He) by done. unfold waits_on. change (k_queue (kof st i)) with (w_queue (p_wait st.p i)).
    case_bool_decide as Hw; case_decide; try done. destruct (ao_wait _ _ _ (so_abs _ Hok) i q Hi Hw) as [Hb _].
    unfold wakened. by rewrite Hb.
Qed.

Lemma sched_wake_all_correct_witness :
  p_state (sched_wake_all demo_waiting (QGroup 1)).p 0 = PROC_READY ∧ sched_ok (sched_wake_all demo_waiting (QGroup 1)).
Proof.
  destruct (sched_wake_all_correct demo_waiting (QGroup 1) demo_waiting_ok) as (A & _ & C); [by split|].
  split; [|exact A]. specialize (C 0 ltac:(by split)). apply (f_equal k_state) in C. etransitivity; [exact C|].
  vm_compute. reflexivity.
Defined.

(** ** Fairness *)

(** How many slots the round-robin scan passes before it looks at slot [i]. *)
Definition turn (st : sched) (i : Z) : Z :=
  1 + (i - match g_current st with Some c => c | None => -1 end - 1) mod MAX_PROCS.

Lemma turn_after st i : proc_ix i → 1 <= turn st i <= MAX_PROCS ∧ after st (turn st i) = i.
Proof.
  intros Hi. unfold turn, after, proc_ix, MAX_PROCS in *. set (c := match g_current st with Some c => c | None => -1 end).
  split; [pose proof (Z.mod_pos_bound (i - c - 1) 8); lia|].
  rewrite Z.add_assoc, Zplus_mod_idemp_r. replace (c + 1 + (i - c - 1)) with i by lia. by apply Z.mod_small.
Qed.

Lemma after_inj st d d' : 1 <= d <= MAX_PROCS → 1 <= d' <= MAX_PROCS → after st d = after st d' → d = d'.
Proof.
  unfold after, MAX_PROCS. set (c := match g_current st with Some c => c | None => -1 end). clearbody c. intros. zsolve.
Qed.

Lemma turn_advance st st' i d :
  proc_ix i → 1 <= d < turn st i → g_current st' = Some (after st d) → turn st' i = turn st i - d.
Proof.
  intros Hi Hd Ec. unfold turn in *. rewrite Ec. unfold after, proc_ix, MAX_PROCS in *.
  set (c := match g_current st with Some c => c | None => -1 end) in *. clearbody c. zsolve.
Qed.

Lemma switch_to_ready {E} `{SchedEnv E} st (e : E) n j :
  sched_ok st → proc_ix n → proc_ix j → n ≠ j → ready st j → ready (switch_to st e (g_current st) n).1 j.
Proof.
  intros Hok Hn Hj Hne Hr. unfold switch_to, ready. case_bool_decide; cbn [fst].
  - rewrite upd_proc_get by ok_side. by rewrite (proj2 (Z.eqb_neq n j)).
  - set (st1 := match g_current st with Some p => _ | None => st end).
    assert (sized st1 ∧ ready st1 j) as [Hs Hr1].
    { unfold st1. destruct (g_current st) as [p|] eqn:Ec; [|split; [by apply ok_sized|done]].
      pose proof (ao_current _ _ _ (so_abs _ Hok) p Ec). case_bool_decide; [|split; [by apply ok_sized|done]].
      split; [by apply sized_upd_proc, ok_sized|]. unfold ready. rewrite upd_proc_get by ok_side. by destruct (Z.eqb_spec p j). }
    clearbody st1. assert (sized (set_current st1 (Some n))) by (by destruct Hs).
    rewrite upd_proc_get by ok_side. by rewrite (proj2 (Z.eqb_neq n j)).
Qed.

(** C33: [schedule] is fair: whenever a process is ready, [schedule] returns, and
    either that process runs next or it is still ready and strictly fewer slots
    are ahead of it, so a process that stays ready runs after at most [MAX_PROCS]
    calls.  The chosen process runs and nobody else does. *)
Theorem schedule_bounded_wait {E} `{SchedEnv E} idle_wait fuel st (e : E) i :
  sched_ok st → proc_ix i → ready st i →
  ∃ st' e' n, schedule idle_wait fuel st e = Some (st', e') ∧ running st' n ∧
    (∀ j, proc_ix j → p_state st'.p j = PROC_RUNNING → j = n) ∧
    (n = i ∨ (ready st' i ∧ 1 <= turn st' i < turn st i)).
Proof.
  intros Hok Hi Hr. unfold schedule. pose proof (pick_next_spec st) as Hp. destruct (sched_pick_next st) as [n|]; [|by destruct (Hp i)].
  destruct Hp as (d & Hd & En & Hrn & Hmin). assert (proc_ix n) as Hn by (rewrite En; apply after_ix).
  pose proof (ok_switch_to st e n Hok Hn Hrn) as [Hok' Hrun].
  destruct (switch_to st e (g_current st) n) as [st' e'] eqn:Es. cbn [fst] in *. exists st', e', n.
  split; [done|]. split; [done|]. split.
  { intros j Hj Hjr. pose proof (ao_running _ _ _ (so_abs _ Hok') j Hj Hjr) as Ej. destruct Hrun as [En' _]. congruence. }
  destruct (turn_after st i Hi) as [Ht Eti]. destruct (Z.lt_trichotomy d (turn st i)) as [Hlt|[->|Hgt]].
  - right. assert (turn st' i = turn st i - d) as Etn by (apply turn_advance; [done|lia|rewrite <-En; apply Hrun]).
    split; [|rewrite Etn; lia].
    assert (n ≠ i) as Hne by (intros <-; assert (d = turn st n) by (apply (after_inj st); [lia|lia|congruence]); lia).
    change st' with (st', e').1. rewrite <-Es. by apply switch_to_ready.
  - left. congruence.
  - exfalso. apply (Hmin (turn st i)); [lia|]. by rewrite Eti.
Qed.

Lemma schedule_bounded_wait_witness :
  ∃ st' e' n, schedule sched_tick 0 demo_family () = Some (st', e') ∧ running st' n ∧
    (∀ j, proc_ix j → p_state st'.p j = PROC_RUNNING → j = n) ∧
    (n = 1 ∨ (ready st' 1 ∧ 1 <= turn st' 1 < turn demo_family 1)).
Proof.
  apply (schedule_bounded_wait sched_tick 0 demo_family () 1 demo_family_ok); [by split|vm_compute; reflexivity].
Defined.

(** ** The timer *)

Lemma make_ready_timers st i :
  qok st → proc_ix i →
  g_ticks (sched_make_ready st i) = g_ticks st ∧
  ∀ j, proc_ix j → j ≠ i → wkey (p_wait (sched_make_ready st i).p j) = wkey (p_wait st.p j).
Proof.
  intros [Hs Hv [Q HQ]] Hi. destruct (clear_wait_ok st Q i Hs HQ Hv Hi) as (Hs' & [_ Hf] & _ & _ & Hw).
  unfold sched_make_ready. generalize dependent (sched_clear_wait st i). intros st1 Hs' Hf Hw.
  split; [case_bool_decide; apply Hf|]. intros j Hj Hne. rewrite <-(Hw j) by (done || by apply proc_ix_nonneg).
  case_bool_decide; [|done]. rewrite upd_proc_get by (done || by apply proc_ix_nonneg). by rewrite (proj2 (Z.eqb_neq i j)).
Qed.

(** The sleep of process [i] is over at tick [now]; the difference is read as a
    signed number, so deadlines stay right when the tick counter wraps. *)
Definition due (st : sched) (now i : Z) : bool :=
  bool_decide (p_state st.p i = PROC_BLOCKED) && w_deadline_set (p_wait st.p i) &&
  (0 <=? s32 (now -u w_deadline (p_wait st.p i))).

Definition after_tick (st : sched) (now k i : Z) : slot :=
  if (i <? k) && due st now i then wakened (kof st i) else kof st i.

Record tick_inv (st : sched) (now k : Z) (s : sched) : Prop := {
  ti_rouse : rouse st s;
  ti_ticks : g_ticks s = now;
  ti_slot i : proc_ix i → kof s i = after_tick st now k i;
  ti_wkey i : proc_ix i → k <= i → wkey (p_wait s.p i) = wkey (p_wait st.p i);
}.

Lemma due_ext st s now i :
  kof s i = kof st i → wkey (p_wait s.p i) = wkey (p_wait st.p i) → due s now i = due st now i.
Proof.
  intros Ek Ew. apply (f_equal k_state) in Ek. unfold kof, slot_of in Ek. cbn in Ek. unfold wkey in Ew. injection Ew as _ Ed Es.
  unfold due. by rewrite Ek, Ed, Es.
Qed.

Lemma tick_inv_step st now k s :
  proc_ix k → tick_inv st now k s →
  tick_inv st now (k + 1) (if due s now k then sched_make_ready s k else s).
Proof.
  intros Hk [Hr Ht Hs Hw]. pose proof (rs_qok _ _ Hr) as Hq.
  assert (kof s k = kof st k) as Ekk by (rewrite Hs by done; unfold after_tick; by rewrite Z.ltb_irrefl).
  rewrite (due_ext st s) by (done || apply Hw; (done || lia)).
  assert (∀ i, proc_ix i → i ≠ k → after_tick st now (k + 1) i = after_tick st now k i) as Ha.
  { intros i Hi Hne. unfold after_tick. by replace (i <? k + 1) with (i <? k) by (bcase; lia). }
  destruct (due st now k) eqn:Ed.
  - destruct (make_ready_timers s k Hq Hk) as [Ht' Hw']. pose proof (make_ready_effect s k Hq Hk) as He. split.
    + eapply rouse_trans; [exact Hr|by apply rouse_make_ready].
    + congruence.
    + intros i Hi. rewrite (ef_slot _ _ _ He) by done. unfold put. destruct (Z.eqb_spec k i) as [<-|Hne].
      * unfold after_tick. rewrite Ed, Ekk. by replace (k <? k + 1) with true by (bcase; lia).
      * rewrite Ha by congruence. by apply Hs.
    + intros i Hi Hki. rewrite Hw' by (done || lia). apply Hw; [done|lia].
  - split; [done|done| |intros i Hi Hki; apply Hw; [done|lia]]. intros i Hi.
    destruct (Z.eq_dec i k) as [->|Hne]; [|rewrite Ha by done; by apply Hs].
    rewrite Ekk. unfold after_tick. by rewrite Ed, andb_false_r.
Qed.

(** A timer tick advances the clock, wakes exactly the sleepers whose deadline
    has come (also across the wrap of the 32-bit tick counter), leaves every other
    process as it was, and asks for a switch. *)
Theorem sched_tick_correct st :
  sched_ok st →
  let st' := sched_tick st in
  sched_ok st' ∧ g_ticks st' = g_ticks st +u 1 ∧ g_need_switch st' = true ∧
  ∀ i, proc_ix i → kof st' i =
    if due st (g_ticks st +u 1) i then mk_slot (p_group st.p i) PROC_READY None false else kof st i.
Proof.
  intros Hok st'. assert (rouse st st') as Hr by apply rouse_tick, Hok. split; [by eapply rouse_ok|]. clear Hr.
  unfold st', sched_tick. clear st'.
  match goal with |- context [for_loop _ _ ?b ?s] => set (st1 := s); set (body := b) end. set (now := g_ticks st +u 1).
  assert (tick_inv st now (0 + Z.of_nat (Z.to_nat MAX_PROCS)) (for_loop 0 (Z.to_nat MAX_PROCS) body st1)) as Hi.
  { apply (for_loop_inv (tick_inv st now)).
    - intros k s Hk Hs. assert (proc_ix k) as Hkx by (unfold proc_ix, MAX_PROCS in *; lia).
      pose proof (tick_inv_step st now k s Hkx Hs) as Hx. unfold due in Hx. rewrite <-(ti_ticks _ _ _ _ Hs) in Hx at 2.
      exact Hx.
    - split; [by apply rouse_same_tables; [..|apply Hok]|done| |done]. intros i Hi. unfold after_tick.
      unfold proc_ix in Hi. by rewrite (proj2 (Z.ltb_ge i 0)) by lia. }
  generalize dependent (for_loop 0 (Z.to_nat MAX_PROCS) body st1). intros st2 Hi.
  split; [apply Hi|]. split; [done|]. intros i Hix. change (kof (set_need_switch st2 true) i) with (kof st2 i).
  rewrite (ti_slot _ _ _ _ Hi) by done. unfold after_tick. unfold proc_ix, MAX_PROCS in Hix.
  rewrite (proj2 (Z.ltb_lt i _)) by (unfold MAX_PROCS; lia). cbn [andb].
  destruct (due st now i) eqn:Ed; [|done]. unfold due in Ed. bprop. unfold wakened.
  match goal with Hb : bool_decide _ = true |- _ => apply bool_decide_eq_true in Hb; change (k_state (kof st i)) with (p_state st.p i); rewrite Hb end.
  done.
Qed.

(** Process 1 sleeps until tick 1. *)
Definition demo_sleeping : sched := scheduled (block_until demo_family 0 1).

Lemma demo_sleeping_ok : sched_ok demo_sleeping.
Proof.
  assert (sched_block_until sched_tick 10 demo_family () 1 = Some (demo_sleeping, ())) as Eb by (vm_compute; reflexivity).
  exact (ok_steps sched_tick idle_tick_ok _ () _ () demo_family_ok
    (rtc_once _ _ (step_sleep sched_tick 10 demo_family () 0 1 demo_sleeping () demo_family_running Eb))).
Qed.

Lemma sched_tick_correct_witness :
  p_state demo_sleeping.p 0 = PROC_BLOCKED ∧ p_state (sched_tick demo_sleeping).p 0 = PROC_READY.
Proof.
  split; [vm_compute; reflexivity|]. destruct (sched_tick_correct demo_sleeping demo_sleeping_ok) as (_ & _ & _ & Hk).
  specialize (Hk 0 ltac:(by split)). apply (f_equal k_state) in Hk. etransitivity; [exact Hk|]. vm_compute. reflexivity.
Defined.

(** ** Exit *)

Lemma ready_stays st st' i : rouse st st' → proc_ix i → ready st i → ready st' i.
Proof.
  intros Hr Hi Hrd. unfold ready in *. destruct (rs_slot _ _ Hr i Hi) as [Ek|(_ & _ & _ & [Ek|[Ek _]])];
    [apply (f_equal k_state) in Ek| |]; unfold kof, slot_of in Ek; cbn in Ek; congruence.
Qed.

Lemma wake_group_readies st g j :
  qok st → proc_ix g → proc_ix j → p_state st.p j = PROC_BLOCKED → waits_on st (QGroup g) j →
  ready (sched_wake_group_waiters st (Some g)) j.
Proof.
  intros Hq Hg Hj Hb Hw. cbn [sched_wake_group_waiters].
  pose proof (wake_all_effect st (QGroup g) Hq Hg) as E1. generalize dependent (sched_wake_all st (QGroup g)). intros st1 E1.
  match goal with |- context [for_loop 0 _ ?b _] => set (body := b) end.
  apply (ready_stays st1); [|done|].
  - apply rouse_loop_q; [apply E1|done|]. intros i s Hi Hs. unfold body. destruct (_ && _); auto with sched.
  - pose proof (ef_slot _ _ _ E1 j Hj) as Ek. cbn beta in Ek. rewrite bool_decide_true in Ek by done. apply (f_equal k_state) in Ek.
    unfold ready. change (p_state st1.p j = k_state (wakened (kof st j))) in Ek. rewrite Ek. unfold wakened, kof, slot_of. cbn. by rewrite Hb.
Qed.

Lemma wake_others_group st l j g :
  qok st → proc_ix j → k_queue (kof st j) = Some (QGroup g) → kof (wake_others st l) j = kof st j.
Proof.
  intros Hq Hj Hw. revert st Hq Hw. induction l as [|n l IH]; intros st Hq Hw; [done|].
  pose proof (wake_all_effect st (QOther n) Hq I) as He. change (wake_others st (n :: l)) with (wake_others (sched_wake_all st (QOther n)) l).
  assert (kof (sched_wake_all st (QOther n)) j = kof st j) as Ek.
  { rewrite (ef_slot _ _ _ He) by done. rewrite bool_decide_false; [done|]. rewrite Hw. done. }
  rewrite IH; [done|apply He|congruence].
Qed.

Lemma leave_group_live st c g :
  sched_ok st → proc_ix c → p_state st.p c = PROC_RUNNING → p_group st.p c = Some g →
  gr_live_tasks (leave_group st c (Some g)).g g = gr_live_tasks st.g g - 1.
Proof.
  intros Hok Hc Er Eg. destruct (remove_task_off st c g Hok Hc Er Eg) as (Hg & _ & [Hq _ _ Ht]). unfold leave_group.
  specialize (Ht g Hg). rewrite put_eq in Ht. apply (f_equal t_live) in Ht.
  change (gr_live_tasks (task_group_remove_task st (Some g)).g g = gr_live_tasks st.g g - 1) in Ht.
  generalize dependent (task_group_remove_task st (Some g)). intros st1 Hq Ht. destruct (_ =? 0); [|done].
  set (st2 := if gr_group_exit st1.g g then st1 else _).
  assert (rouse st1 st2) as Hr2.
  { unfold st2. destruct (gr_group_exit st1.g g); [by apply rouse_refl|by apply rouse_upd_group]. }
  clearbody st2. pose proof (rouse_wake_group_waiters st2 (Some g) (rs_qok _ _ Hr2) ltac:(naive_solver)) as Hr3.
  generalize dependent (sched_wake_group_waiters st2 (Some g)). intros st3 Hr3.
  rewrite <-Ht. exact (f_equal t_live (rs_tally _ _ (rouse_trans _ _ _ Hr2 Hr3) g Hg)).
Qed.

Lemma leave_group_readies st c g j :
  sched_ok st → proc_ix c → running st c → p_group st.p c = Some g → gr_live_tasks st.g g = 1 →
  proc_ix j → k_queue (kof st j) = Some (QGroup g) → ready (leave_group st c (Some g)) j.
Proof.
  intros Hok Hc [_ Er] Eg E1 Hj Hw. destruct (remove_task_off st c g Hok Hc Er Eg) as (Hg & _ & H1).
  destruct (ao_wait _ _ _ (so_abs _ Hok) j _ Hj Hw) as [Hb _].
  assert (kof (task_group_remove_task st (Some g)) j = kof st j) as Ek1 by (cbn; by destruct (_ <? _)).
  assert (task_group_live_count (task_group_remove_task st (Some g)) (Some g) = 0) as El.
  { pose proof (ob_tally _ _ _ _ _ H1 g Hg) as Et. rewrite put_eq in Et. apply (f_equal t_live) in Et.
    change (gr_live_tasks (task_group_remove_task st (Some g)).g g = gr_live_tasks st.g g - 1) in Et. cbn [task_group_live_count]. lia. }
  unfold leave_group. rewrite El. cbn [Z.eqb]. generalize dependent (task_group_remove_task st (Some g)). intros st1 H1 Ek1 El.
  set (st2 := if gr_group_exit st1.g g then st1 else _).
  assert (qok st2 ∧ kof st2 j = kof st j) as [Hq2 Ek2].
  { unfold st2. destruct (gr_group_exit st1.g g); (split; [|done]); [apply H1|apply qok_upd_group; [apply H1|done|done]]. }
  clearbody st2. rewrite <-Ek2 in Hb, Hw. by apply wake_group_readies.
Qed.

(** An exiting process becomes a zombie and its group counts one live member
    less; when it was the last one, every process asleep in waitpid on that group
    is ready afterwards: no wake-up is lost. *)
Theorem mark_exit_wakes_waiters {E} `{SchedEnv E} st (e : E) c g :
  sched_ok st → running st c → p_group st.p c = Some g →
  let st' := (sched_mark_exit st e).1 in
  sched_ok st' ∧ p_state st'.p c = PROC_ZOMBIE ∧ gr_live_tasks st'.g g = gr_live_tasks st.g g - 1 ∧
  (gr_live_tasks st.g g = 1 → ∀ j, proc_ix j → waits_on st (QGroup g) j → ready st' j).
Proof.
  intros Hok Hrun Eg st'. destruct (ok_mark_exit st e c Hok Hrun) as [Hok' _]. fold st' in Hok'. split; [done|]. clear Hok'.
  destruct Hrun as [Ec Er]. pose proof (ao_current _ _ _ (so_abs _ Hok) c Ec) as Hc. unfold st', sched_mark_exit. clear st'. rewrite Ec, Eg.
  pose proof (rouse_inherit_exit st c (Some g) (so_qok _ Hok) Hc) as Hr1.
  assert (∀ j, proc_ix j → kof (inherit_exit st c (Some g)) j = kof st j) as Ek1.
  { intros j Hj. cbn [inherit_exit]. destruct (gr_group_exit st.g g); [|done]. rewrite kof_upd_proc by ok_side.
    unfold put. by destruct (Z.eqb_spec c j) as [<-|]. }
  generalize dependent (inherit_exit st c (Some g)). intros st1 Hr1 Ek1. destruct (se_put_files _ c) as [wk e1].
  pose proof (rouse_trans _ _ _ Hr1 (rouse_wake_others st1 wk (rs_qok _ _ Hr1))) as Hr2.
  pose proof (λ j Hj, wake_others_group st1 wk j g (rs_qok _ _ Hr1) Hj) as Ek2.
  generalize dependent (wake_others st1 wk). intros st2 Hr2 Ek2. pose proof (rouse_ok _ _ Hok Hr2) as Hok2.
  destruct (rouse_running _ _ c Hr2 Hc Er) as [Er2 Eg2]. rewrite Eg in Eg2.
  assert (running st2 c) as Hrun2 by (split; [by rewrite (rs_current _ _ Hr2)|done]).
  destruct (remove_task_off st2 c g Hok2 Hc Er2 Eg2) as (Hg & _ & _).
  assert (gr_live_tasks st2.g g = gr_live_tasks st.g g) as El2 by exact (f_equal t_live (rs_tally _ _ Hr2 g Hg)).
  destruct (ok_leave_group st2 c g Hok2 Hc Er2 Eg2) as [H3 _].
  assert (gr_live_tasks (leave_group st2 c (Some g)).g g = gr_live_tasks st.g g - 1) as El3.
  { rewrite <-El2. by apply leave_group_live. }
  pose proof (λ j, leave_group_readies st2 c g j Hok2 Hc Hrun2 Eg2) as Hrd.
  generalize dependent (leave_group st2 c (Some g)). intros st3 H3 El3 Hrd.
  assert (sized st3) as Hs3 by (destruct (ok_sized _ H3) as [A B]; split; [by rewrite <-A; cbn; rewrite length_arr_set|exact B]).
  set (st4 := upd_proc st3 c (set_state PROC_ZOMBIE)) in *.
  assert (p_state st4.p c = PROC_ZOMBIE) as Ez by (unfold st4; rewrite upd_proc_get by ok_side; by rewrite Z.eqb_refl).
  assert (gr_live_tasks st4.g g = gr_live_tasks st.g g - 1) as El4 by exact El3.
  assert (gr_live_tasks st.g g = 1 → ∀ j, proc_ix j → waits_on st (QGroup g) j → ready st4 j) as Hrd4.
  { intros E1 j Hj Hw. assert (k_queue (kof st1 j) = Some (QGroup g)) as Hw1 by (by rewrite Ek1).
    assert (k_queue (kof st2 j) = Some (QGroup g)) as Hw2 by (by rewrite Ek2).
    assert (c ≠ j) as Hne.
    { intros <-. destruct (ao_wait _ _ _ (so_abs _ Hok) c _ Hc Hw) as [Hb _]. unfold kof, slot_of in Hb. cbn in Hb. congruence. }
    unfold ready, st4. rewrite upd_proc_get by ok_side. rewrite (proj2 (Z.eqb_neq c j) Hne). apply Hrd; [congruence|done|done]. }
  clearbody st4. destruct (_ || _); cbn [fst]; [|done].
  pose proof (rouse_wake_all st4 (QProc c) (so_qok _ H3) Hc) as Hr5.
  generalize dependent (sched_wake_all st4 (QProc c)). intros st5 Hr5. split; [by apply (rouse_zombie _ _ c Hr5 Hc Ez)|].
  split; [rewrite <-El4; exact (f_equal t_live (rs_tally _ _ Hr5 g Hg))|].
  intros E1 j Hj Hw. eapply ready_stays; [exact Hr5|done|auto].
Qed.

Lemma demo_waiting_running : running demo_waiting 1.
Proof. split; vm_compute; reflexivity. Qed.

Lemma mark_exit_wakes_waiters_witness :
  ready (sched_mark_exit demo_waiting ()).1 0 ∧ p_state (sched_mark_exit demo_waiting ()).1.p 1 = PROC_ZOMBIE.
Proof.
  destruct (mark_exit_wakes_waiters demo_waiting () 1 1 demo_waiting_ok demo_waiting_running) as (_ & Hz & _ & Hw);
    [vm_compute; reflexivity|].
  split; [|exact Hz]. apply Hw; [vm_compute; reflexivity|by split|vm_compute; reflexivity].
Defined.

(** ** Reaping *)

(** A group all of whose members are dead. *)
Definition dead_group (st : sched) (g : Z) : Prop :=
  ∀ j, proc_ix j → p_group st.p j = Some g → is_live st.p j = false.

Record reap_inv {E} (st : sched) (g k : Z) (s : sched * E) : Prop := {
  ri_ok : sched_ok s.1;
  ri_done j : proc_ix j → j < k → p_group st.p j = Some g → p_state s.1.p j = PROC_UNUSED;
  ri_rest j : proc_ix j → p_group st.p j ≠ Some g ∨ k <= j → roused (kof st j) (kof s.1 j);
}.

Lemma dead_roused st s g j :
  dead_group st g → proc_ix j → p_group st.p j = Some g → roused (kof st j) (kof s j) →
  p_group s.p j = Some g ∧ (p_state s.p j = PROC_ZOMBIE ∨ p_state s.p j = PROC_UNUSED).
Proof.
  intros Hd Hj Eg Hr. specialize (Hd j Hj Eg). unfold is_live, is_used in Hd.
  assert (p_state st.p j = PROC_ZOMBIE ∨ p_state st.p j = PROC_UNUSED) as Hs
    by (revert Hd; destruct (p_state st.p j); auto; done).
  destruct Hr as [Ek|(Ek & _ & _ & [Es|[_ Es]])]; unfold kof, slot_of in *; cbn in *; [injection Ek as -> -> _ _| |]; split;
    try congruence; destruct Hs, Es; congruence.
Qed.

Lemma reap_inv_step {E} `{SchedEnv E} st g k (s : sched * E) :
  dead_group st g → proc_ix k → reap_inv st g k s →
  reap_inv st g (k + 1) (if in_group g s.1.p k && bool_decide (p_state s.1.p k = PROC_ZOMBIE) then sched_reap s.1 s.2 k else s).
Proof.
  intros Hd Hk [Hok Hdone Hrest]. destruct s as [s e]. cbn [fst snd] in *.
  destruct (in_group g s.p k && bool_decide (p_state s.p k = PROC_ZOMBIE)) eqn:Er.
  - apply andb_true_iff in Er as [Hin Ez]. apply bool_decide_eq_true in Hin, Ez.
    pose proof (λ j, reap_slots s e k j Hok Hk Ez) as Hsl. cbv zeta in Hsl. pose proof (proj1 (ok_reap s e k Hok Hk)) as Hok'.
    destruct (sched_reap s e k) as [s' e']. cbn [fst] in *. split; cbn [fst]; [done| |].
    + intros j Hj Hjk Eg. specialize (Hsl j Hj). destruct (Z.eq_dec k j) as [<-|Hne]; [by rewrite Z.eqb_refl in Hsl|].
      rewrite (proj2 (Z.eqb_neq k j) Hne) in Hsl.
      assert (p_state s.p j = PROC_UNUSED) as Eu by (apply Hdone; [done|lia|done]).
      destruct Hsl as [Ek|(_ & _ & _ & [Ek|[_ Ek]])]; [apply (f_equal k_state) in Ek|..]; unfold kof, slot_of in Ek; cbn in Ek;
        [congruence|congruence|destruct Ek; congruence].
    + intros j Hj Hjk. specialize (Hsl j Hj). destruct (Z.eq_dec k j) as [<-|Hne].
      * exfalso. destruct Hjk as [Hng|]; [|lia]. apply Hng. destruct (Hrest k Hk ltac:(lia)) as [Ek|(Ek & _)];
          [apply (f_equal k_group) in Ek|]; unfold kof, slot_of in Ek; cbn in Ek; congruence.
      * rewrite (proj2 (Z.eqb_neq k j) Hne) in Hsl. eapply roused_trans; [apply Hrest; [done|]|done]. destruct Hjk; [by left|right; lia].
  - split; cbn [fst]; [done| |].
    + intros j Hj Hjk Eg. destruct (Z.eq_dec j k) as [->|Hne]; [|apply Hdone; [done|lia|done]].
      destruct (dead_roused st s g k Hd Hk Eg (Hrest k Hk ltac:(lia))) as [Egs [Ez|]]; [|done].
      exfalso. apply andb_false_iff in Er as [Er|Er]; apply bool_decide_eq_false in Er; congruence.
    + intros j Hj Hjk. apply Hrest; [done|]. destruct Hjk; [by left|right; lia].
Qed.

Lemma reap_group_frees {E} `{SchedEnv E} st (e : E) g :
  sched_ok st → proc_ix g → dead_group st g →
  let st' := (sched_reap_group st e g).1 in
  sched_ok st' ∧ gr_used st'.g g = false ∧
  ∀ j, proc_ix j → if decide (p_group st.p j = Some g) then p_state st'.p j = PROC_UNUSED else roused (kof st j) (kof st' j).
Proof.
  intros Hok Hg Hd. cbv zeta. unfold sched_reap_group.
  assert (reap_inv st g (0 + Z.of_nat (Z.to_nat MAX_PROCS)) (sched_reap_group st e g)) as Hi.
  { apply (for_loop_inv (reap_inv st g)).
    - intros k [s e'] Hk Hs. apply (reap_inv_step st g k (s, e')); [done|unfold proc_ix, MAX_PROCS in *; lia|done].
    - split; [done|unfold proc_ix; lia|by left]. }
  fold (sched_reap_group st e g). destruct (sched_reap_group st e g) as [st' e']. destruct Hi as [Hok' Hdone Hrest]. cbn [fst] in *.
  assert (∀ j, proc_ix j → j < 0 + Z.of_nat (Z.to_nat MAX_PROCS)) as Hlt by (unfold proc_ix, MAX_PROCS; lia).
  split; [done|]. split; [|intros j Hj; case_decide; [by apply Hdone; [|apply Hlt|]|apply Hrest; auto]].
  change (t_used (tof st' g) = false). rewrite (ao_used _ _ _ (so_abs _ Hok')), (ao_refs _ _ _ (so_abs _ Hok')) by done.
  apply Z.ltb_ge. destruct (Z.le_gt_cases (refs (kof st') g) 0) as [|Hpos]; [done|]. exfalso.
  apply cnt_pos in Hpos as (j & Hj & Hu). apply andb_true_iff in Hu as [Hu Hin]. apply bool_decide_eq_true in Hin.
  destruct (decide (p_group st.p j = Some g)) as [Eg|Eg].
  - specialize (Hdone j Hj (Hlt j Hj) Eg). unfold s_used, kof, slot_of in Hu. cbn in Hu. by rewrite Hdone in Hu.
  - destruct (Hrest j Hj (or_introl Eg)) as [Ek|(Ek & _)]; [apply (f_equal k_group) in Ek|]; unfold kof, slot_of in *; cbn in *; congruence.
Qed.

(** When every member of the group of [pid] is dead, waitpid on its leader does
    not block: it returns the exit status of the group, every slot of the group is
    free afterwards and so is the group's entry, and other processes are at most
    woken. *)
Theorem waitpid_reaps_group {E} `{SchedEnv E} idle_wait resume rounds fuel st (e : E) pid options i g :
  sched_ok st → sched_find_slot st pid = Some i → id_tgid (p_ids st.p i) = id_tid (p_ids st.p i) →
  p_group st.p i = Some g → dead_group st g →
  ∃ st' e', sched_waitpid idle_wait resume (S rounds) fuel st e pid options =
      Some (s32 (if gr_group_exit st.g g then gr_exit_status st.g g else p_exit_status st.p i), st', e') ∧
    sched_ok st' ∧ gr_used st'.g g = false ∧
    ∀ j, proc_ix j →
      if decide (p_group st.p j = Some g) then p_state st'.p j = PROC_UNUSED else roused (kof st j) (kof st' j).
Proof.
  intros Hok Hf Htg Eg Hd. pose proof (find_proc_Some _ _ _ Hf) as (Hi & Hu & _). apply andb_true_iff in Hu as [_ Hu].
  assert (proc_ix g) as Hg by by eapply (ok_group_ix st i).
  assert (p_state st.p i = PROC_ZOMBIE) as Ez.
  { specialize (Hd i Hi Eg). unfold is_live in Hd. rewrite Hu in Hd. cbn in Hd. by apply negb_false_iff, bool_decide_eq_true in Hd. }
  assert (sched_group_has_live_slots st g = false) as Hl.
  { unfold sched_group_has_live_slots. destruct (find_proc st _) as [j|] eqn:Ef; [|done]. exfalso.
    apply find_proc_Some in Ef as (Hj & Hp & _). apply andb_true_iff in Hp as [Hin Hl]. apply bool_decide_eq_true in Hin.
    rewrite (Hd j Hj Hin) in Hl. done. }
  pose proof (reap_group_frees st e g Hok Hg Hd) as Hr. cbn [sched_waitpid]. unfold waitpid_round. rewrite Hf.
  rewrite (proj2 (Z.eqb_eq _ _) Htg), Eg, Hl, bool_decide_true by done. cbn [negb andb].
  destruct (sched_reap_group st e g) as [st' e']. exists st', e'. split; [done|]. exact Hr.
Qed.

(** Process 2 has exited, process 1 runs again. *)
Definition demo_exited : sched := scheduled (sched_mark_exit demo_waiting ()).1.

Lemma demo_exited_ok : sched_ok demo_exited.
Proof.
  pose proof (step_exit (E:=unit) sched_tick demo_waiting () 1 demo_waiting_running) as H1.
  assert (sched_mark_exit demo_waiting () = ((sched_mark_exit demo_waiting ()).1, ())) as Ee by (vm_compute; reflexivity).
  rewrite Ee in H1.
  assert (schedule sched_tick 10 (sched_mark_exit demo_waiting ()).1 () = Some (demo_exited, ())) as Es by (vm_compute; reflexivity).
  exact (ok_steps sched_tick idle_tick_ok _ () _ () demo_waiting_ok
    (rtc_l _ _ _ _ H1 (rtc_once _ _ (step_yield sched_tick 10 _ () _ () Es)))).
Qed.

Lemma demo_exited_dead : dead_group demo_exited 1.
Proof.
  intros j Hj Hg. destruct (decide (j = 1)) as [->|Hne]; [vm_compute; reflexivity|]. exfalso.
  assert (j = 0 ∨ j = 2 ∨ j = 3 ∨ j = 4 ∨ j = 5 ∨ j = 6 ∨ j = 7) as Hc by (unfold proc_ix, MAX_PROCS in Hj; lia).
  destruct Hc as [->|[->|[->|[->|[->|[->| ->]]]]]]; vm_compute in Hg; discriminate Hg.
Qed.

Lemma waitpid_reaps_group_witness :
  ∃ st' e', sched_waitpid (E:=unit) sched_tick (λ s e, Some (s, e)) 1 0 demo_exited () 2 0 = Some (0, st', e') ∧
    gr_used st'.g 1 = false ∧ p_state st'.p 1 = PROC_UNUSED.
Proof.
  destruct (waitpid_reaps_group (E:=unit) sched_tick (λ s e, Some (s, e)) 0 0 demo_exited () 2 0 1 1 demo_exited_ok)
    as (st' & e' & Hw & _ & Hu & Hs); [vm_compute; reflexivity..|exact demo_exited_dead|].
  exists st', e'. split; [exact Hw|]. split; [exact Hu|]. exact (Hs 1 ltac:(by split)).
Defined.
