(* ===== verification/SchedSignal.v ===== *)
(** * Scheduler: signals

    Which pending signal is delivered, and where pending signals and stop
    notifications go astray. *)

From S2P Require Import Prelude Sched SchedInv SchedAbs SchedOps SchedLife SchedProps.

(** ** Masks *)

Lemma bit_spec n i : 0 <= n → 0 <= i → Z.testbit (bit n) i = (i =? n).
Proof.
  intros Hn Hi. unfold bit. rewrite Z.shiftl_1_l. destruct (Z.eqb_spec i n) as [->|Hne].
  - by apply Z.pow2_bits_true.
  - apply Z.pow2_bits_false. lia.
Qed.

Lemma land_bit m n : 0 <= n → (m &u bit n =? 0) = negb (Z.testbit m n).
Proof.
  intros Hn. destruct (Z.testbit m n) eqn:Et; cbn [negb].
  - apply Z.eqb_neq. intros E. assert (Z.testbit (Z.land m (bit n)) n = false) as Ef by (rewrite E; apply Z.bits_0).
    rewrite Z.land_spec, Et, bit_spec, Z.eqb_refl in Ef by lia. done.
  - apply Z.eqb_eq. apply Z.bits_inj'. intros i Hi. rewrite Z.land_spec, bit_spec, Z.bits_0 by lia.
    destruct (Z.eqb_spec i n) as [->|]; [by rewrite Et|apply andb_false_r].
Qed.

Lemma not32_spec m i : 0 <= i < 32 → Z.testbit (not32 m) i = negb (Z.testbit m i).
Proof. intros Hi. unfold not32, u32. rewrite Z.mod_pow2_bits_low by lia. apply Z.lnot_spec. lia. Qed.

Lemma clear_bit_spec m n i :
  0 <= n → 0 <= i < 32 → Z.testbit (m &u not32 (bit n)) i = Z.testbit m i && negb (i =? n).
Proof. intros Hn Hi. rewrite Z.land_spec, not32_spec, bit_spec by lia. done. Qed.

Lemma lowest_signal_spec m :
  let s := lowest_signal m in
  (s = 0 ∧ ∀ i, 1 <= i < NSIG → Z.testbit m i = false) ∨
  (1 <= s < NSIG ∧ Z.testbit m s = true ∧ ∀ i, 1 <= i < s → Z.testbit m i = false).
Proof.
  cbv zeta. unfold lowest_signal.
  match goal with |- context [for_exit 1 _ ?b ()] => set (body := b) end.
  assert (∀ i s, 0 <= i → body i s = if Z.testbit m i then inl i else inr ()) as Hb.
  { intros i s Hi. unfold body. rewrite land_bit by done. by destruct (Z.testbit m i). }
  clearbody body.
  pose proof (for_exit_inv (λ k (_ : unit), ∀ i, 1 <= i < k → Z.testbit m i = false)
    (λ s, 1 <= s < NSIG ∧ Z.testbit m s = true ∧ ∀ i, 1 <= i < s → Z.testbit m i = false)
    body 1 (Z.to_nat (NSIG - 1)) ()) as Hi.
  assert (∀ (k : Z) (s : unit), 1 <= k < 1 + Z.of_nat (Z.to_nat (NSIG - 1)) →
    (∀ i, 1 <= i < k → Z.testbit m i = false) →
    match body k s with
    | inl s => 1 <= s < NSIG ∧ Z.testbit m s = true ∧ ∀ i, 1 <= i < s → Z.testbit m i = false
    | inr _ => ∀ i, 1 <= i < k + 1 → Z.testbit m i = false
    end) as Hstep.
  { intros k s Hk Hs. unfold NSIG in *. rewrite Hb by lia. destruct (Z.testbit m k) eqn:Et; [split; [lia|done]|].
    intros i Hik. destruct (Z.eq_dec i k) as [->|]; [done|apply Hs; lia]. }
  destruct (for_exit 1 _ body ()) as [s|].
  - right. apply Hi; [exact Hstep|lia].
  - left. split; [done|]. intros i Hix. apply Hi; [exact Hstep|lia|]. unfold NSIG in *. lia.
Qed.

(** ** Delivery *)

(** Signal [s] is pending for the process itself, or for its group, and not
    blocked. *)
Definition own_deliverable (st : sched) (c s : Z) : bool :=
  Z.testbit (sg_pending (p_sig st.p c)) s && negb (Z.testbit (sg_blocked (p_sig st.p c)) s).
Definition group_pending (st : sched) (c : Z) : Z :=
  match p_group st.p c with Some g => gr_sig_pending st.g g | None => 0 end.
Definition group_deliverable (st : sched) (c s : Z) : bool :=
  Z.testbit (group_pending st c) s && negb (Z.testbit (sg_blocked (p_sig st.p c)) s).

Lemma own_mask st c i :
  1 <= i < NSIG →
  Z.testbit (sg_pending (p_sig st.p c) &u not32 (sg_blocked (p_sig st.p c))) i = own_deliverable st c i.
Proof. unfold NSIG. intros Hi. rewrite Z.land_spec, not32_spec by lia. done. Qed.
Lemma group_mask st c g i :
  p_group st.p c = Some g → 1 <= i < NSIG →
  Z.testbit (gr_sig_pending st.g g &u not32 (sg_blocked (p_sig st.p c))) i = group_deliverable st c i.
Proof. unfold NSIG, group_deliverable, group_pending. intros -> Hi. rewrite Z.land_spec, not32_spec by lia. done. Qed.

(** [m'] is [m] without signal [s]. *)
Definition cleared (m m' s : Z) : Prop := ∀ i, 0 <= i < NSIG → Z.testbit m' i = Z.testbit m i && negb (i =? s).

(** The choice [take_signal] makes among the process's own signals: the recorded
    fault if it can be delivered, else the lowest one. *)
Definition own_choice (p : proc) : option Z :=
  let deliverable := sg_pending (p_sig p) &u not32 (sg_blocked (p_sig p)) in
  if cr_valid (p_sig p) && (cr_signum (p_sig p) <? NSIG) && negb (deliverable &u bit (cr_signum (p_sig p)) =? 0)
  then Some (cr_signum (p_sig p))
  else let s := lowest_signal deliverable in if s =? 0 then None else Some s.

Lemma own_choice_spec st c :
  (cr_valid (p_sig st.p c) = true → 1 <= cr_signum (p_sig st.p c)) →
  match own_choice st.p c with
  | Some s => 1 <= s < NSIG ∧ own_deliverable st c s = true
  | None => ∀ i, 1 <= i < NSIG → own_deliverable st c i = false
  end.
Proof.
  intros Hcr. unfold own_choice. destruct (_ && _ && _) eqn:Ec.
  - apply andb_true_iff in Ec as [Ec Ed]. apply andb_true_iff in Ec as [Ev El]. apply Z.ltb_lt in El.
    specialize (Hcr Ev). unfold NSIG in *. rewrite land_bit, negb_involutive in Ed by lia. split; [lia|]. rewrite <-own_mask by (unfold NSIG; lia). done.
  - destruct (lowest_signal_spec (sg_pending (p_sig st.p c) &u not32 (sg_blocked (p_sig st.p c)))) as [[-> Hn]|(Hs & Ht & _)].
    + cbn. intros i Hi. rewrite <-own_mask by done. auto.
    + rewrite (proj2 (Z.eqb_neq _ 0)) by lia. split; [done|]. by rewrite <-own_mask.
Qed.

(** Signal selection for the running process: a delivered signal was pending
    and unblocked, comes from the process's own mask before the group's, is cleared
    exactly there, and from the group the lowest-numbered one is taken; when none
    is delivered, no unblocked signal is pending anywhere. *)
Theorem take_signal_correct st c :
  sched_ok st → running st c → (cr_valid (p_sig st.p c) = true → 1 <= cr_signum (p_sig st.p c)) →
  match take_signal st c with
  | (None, st') => st' = st ∧ ∀ i, 1 <= i < NSIG → own_deliverable st c i = false ∧ group_deliverable st c i = false
  | (Some s, st') =>
      1 <= s < NSIG ∧ Z.testbit (sg_blocked (p_sig st.p c)) s = false ∧
      ((own_deliverable st c s = true ∧ cleared (sg_pending (p_sig st.p c)) (sg_pending (p_sig st'.p c)) s ∧
        group_pending st' c = group_pending st c) ∨
       ((∀ i, 1 <= i < NSIG → own_deliverable st c i = false) ∧ group_deliverable st c s = true ∧
        (∀ i, 1 <= i < s → group_deliverable st c i = false) ∧
        cleared (group_pending st c) (group_pending st' c) s ∧ st'.p c = st.p c))
  end.
Proof.
  intros Hok [Ec Er] Hcr. pose proof (ao_current _ _ _ (so_abs _ Hok) c Ec) as Hc. pose proof (own_choice_spec st c Hcr) as Hown.
  unfold take_signal. fold (own_choice st.p c). destruct (own_choice st.p c) as [s|].
  - destruct Hown as [Hs Hd]. split; [done|]. split; [unfold own_deliverable in Hd; by bprop|]. left. split; [done|].
    set (f := λ p, set_pending _ p).
    assert ((upd_proc st c f).p c = f st.p c) as Ef by (rewrite upd_proc_get by ok_side; by rewrite Z.eqb_refl).
    unfold cleared, group_pending. rewrite Ef. split; [|done]. intros i Hi. unfold NSIG in *. apply clear_bit_spec; lia.
  - destruct (ok_running_group st c Hok Hc Er) as [g Eg]. rewrite Eg. cbn [task_group_take_process_signal].
    assert (proc_ix g) as Hg by (eapply (ok_group_ix st c); [done|done|by unfold is_used; rewrite Er|done]).
    pose proof (lowest_signal_spec (gr_sig_pending st.g g &u not32 (sg_blocked (p_sig st.p c)))) as Hls. cbv zeta in Hls.
    destruct Hls as [[-> Hn]|(Hs & Ht & Hmin)].
    + cbn. split; [done|]. intros i Hi. split; [auto|]. rewrite <-(group_mask st c g) by done. auto.
    + rewrite (proj2 (Z.eqb_neq _ 0)) by lia. rewrite (proj2 (Z.eqb_neq _ 0)) by lia. rewrite (group_mask st c g) in Ht by done.
      split; [done|]. split; [unfold group_deliverable in Ht; by bprop|]. right. split; [done|]. split; [done|].
      split; [intros i Hi; rewrite <-(group_mask st c g) by (done || lia); by apply Hmin|]. split; [|done].
      unfold cleared, group_pending. cbn [proc_table upd_group]. rewrite Eg. rewrite upd_group_get by ok_side. rewrite Z.eqb_refl.
      intros i Hi. unfold NSIG in *. apply clear_bit_spec; lia.
Qed.

(** Process 2 of [demo_waiting] runs with SIGKILL pending in its group. *)
Definition demo_signalled : sched := sched_send_signal demo_waiting 2 SIGKILL.

Lemma demo_signalled_ok : sched_ok demo_signalled.
Proof. exact (rouse_ok _ _ demo_waiting_ok (rouse_send_signal demo_waiting 2 SIGKILL demo_waiting_ok)). Qed.

Lemma demo_signalled_running : running demo_signalled 1.
Proof. split; vm_compute; reflexivity. Qed.

Lemma take_signal_correct_witness :
  (take_signal demo_signalled 1).1 = Some SIGKILL ∧
  match take_signal demo_signalled 1 with
  | (None, st') => False
  | (Some s, st') => Z.testbit (sg_blocked (p_sig demo_signalled.p 1)) s = false
  end.
Proof.
  split; [vm_compute; reflexivity|].
  pose proof (take_signal_correct demo_signalled 1 demo_signalled_ok demo_signalled_running) as Ht.
  assert (cr_valid (p_sig demo_signalled.p 1) = true → 1 <= cr_signum (p_sig demo_signalled.p 1)) as Hc by (vm_compute; discriminate).
  specialize (Ht Hc). assert ((take_signal demo_signalled 1).1 = Some SIGKILL) as E by (vm_compute; reflexivity).
  destruct (take_signal demo_signalled 1) as [[s|] st']; [exact (proj1 (proj2 Ht))|discriminate E].
Defined.

(** ** Signals pending in a group *)

Lemma gframe_pending st st' g : gframe st st' → proc_ix g → gr_sig_pending st'.g g = gr_sig_pending st.g g.
Proof. intros Hf Hg. exact (f_equal gr_sig_pending (gf_groups _ _ Hf g (proc_ix_nonneg g Hg))). Qed.

Lemma make_ready_pending st i g :
  qok st → proc_ix i → proc_ix g → gr_sig_pending (sched_make_ready st i).g g = gr_sig_pending st.g g.
Proof.
  intros [Hs Hv [Q HQ]] Hi Hg. destruct (clear_wait_ok st Q i Hs HQ Hv Hi) as (_ & [_ Hf] & _). unfold sched_make_ready.
  transitivity (gr_sig_pending (sched_clear_wait st i).g g); [by case_bool_decide|]. by apply gframe_pending.
Qed.

Lemma signal_wake_pending st i signum g :
  qok st → proc_ix i → proc_ix g → gr_sig_pending (signal_wake st i signum).g g = gr_sig_pending st.g g.
Proof.
  intros Hq Hi Hg. unfold signal_wake. destruct (bool_decide _ && _); [done|].
  case_bool_decide; [by apply make_ready_pending|done].
Qed.

Lemma signal_recipient_pending st i b signum g :
  sched_ok st → proc_ix i → proc_ix g → gr_sig_pending (signal_recipient st i b signum).g g = gr_sig_pending st.g g.
Proof.
  intros Hok Hi Hg. unfold signal_recipient.
  set (st1 := signal_continue st i signum). set (st2 := signal_stop st1 i signum). set (st3 := signal_pend st2 i b signum).
  assert (groups st3 = groups st) as Eg3.
  { unfold st3, st2, st1, signal_pend, signal_stop, signal_continue. destruct b, (_ || _), (signum =? SIGCONT); try done; by case_bool_decide. }
  assert (qok st3) as Hq3.
  { assert (∀ s f, qok s → same_wait f → qok (upd_proc s i f)) as Hu by (intros; by apply qok_same_wait).
    assert (qok st1) as Hq1.
    { unfold st1, signal_continue. destruct (signum =? SIGCONT); [|apply Hok].
      case_bool_decide; repeat (apply Hu; [|done]); apply Hok. }
    assert (qok st2) as Hq2 by (unfold st2, signal_stop; destruct (_ || _); [by apply Hu|done]).
    unfold st3, signal_pend. destruct b; [done|by apply Hu]. }
  change (gr_sig_pending (signal_wake st3 i signum).g g = gr_sig_pending st.g g).
  rewrite signal_wake_pending by done. by rewrite Eg3.
Qed.

(** a signal sent to a whole process is only ever added to the pending mask of
    its group: sending SIGCONT leaves a SIGSTOP or SIGTSTP that is pending there, so
    the process stops again right after it was continued. *)
Theorem sigcont_keeps_group_stop st pid g r s :
  sched_ok st → signal_target st pid = (Some g, r) → s = SIGSTOP ∨ s = SIGTSTP →
  Z.testbit (gr_sig_pending st.g g) s = true →
  let st' := sched_send_signal st pid SIGCONT in
  gr_sig_pending st'.g g = gr_sig_pending st.g g |u bit SIGCONT ∧ Z.testbit (gr_sig_pending st'.g g) s = true.
Proof.
  intros Hok Ht Hs Hp. cbv zeta. destruct (signal_target_ix _ _ _ _ Hok Ht) as [Hg _]. specialize (Hg g eq_refl).
  assert (gr_sig_pending (sched_send_signal st pid SIGCONT).g g = gr_sig_pending st.g g |u bit SIGCONT) as E.
  { unfold sched_send_signal. rewrite Ht. cbn [orb Z.ltb Z.leb Z.compare SIGCONT NSIG].
    set (st1 := task_group_set_process_signal st (Some g) SIGCONT).
    assert (rouse st st1) as Hr1 by (apply rouse_upd_group; [apply Hok|done|done|done]).
    assert (gr_sig_pending st1.g g = gr_sig_pending st.g g |u bit SIGCONT) as E1.
    { change (gr_sig_pending (upd_group st g (λ r, set_gr_pending (gr_sig_pending r |u bit SIGCONT) r)).g g = gr_sig_pending st.g g |u bit SIGCONT).
      rewrite upd_group_get by ok_side. by rewrite Z.eqb_refl. }
    clearbody st1. change ((SIGCONT <? 1) || (NSIG <=? SIGCONT)) with false. cbv iota.
    destruct (sched_find_group_signal_recipient st1 (Some g) SIGCONT) as [i|] eqn:Ef; [|done].
    apply find_proc_Some in Ef as [Hi _]. rewrite signal_recipient_pending; [done|by eapply rouse_ok|done|done]. }
  split; [done|]. rewrite E, Z.lor_spec, Hp. done.
Qed.

(** SIGTSTP is pending for process 2. *)
Definition demo_stop_pending : sched := sched_send_signal demo_waiting 2 SIGTSTP.

Lemma demo_stop_pending_ok : sched_ok demo_stop_pending.
Proof. exact (rouse_ok _ _ demo_waiting_ok (rouse_send_signal demo_waiting 2 SIGTSTP demo_waiting_ok)). Qed.

Lemma sigcont_keeps_group_stop_witness :
  Z.testbit (gr_sig_pending (sched_send_signal demo_stop_pending 2 SIGCONT).g 1) SIGTSTP = true.
Proof.
  apply (sigcont_keeps_group_stop demo_stop_pending 2 1 None SIGTSTP demo_stop_pending_ok);
    [vm_compute; reflexivity|by right|vm_compute; reflexivity].
Defined.

(** ** Stop notifications *)

Lemma find_proc_ext st st' P :
  (∀ j, proc_ix j → P st'.p j = P st.p j) → find_proc st' P = find_proc st P.
Proof.
  intros HP. unfold find_proc. rewrite (for_exit_ext_in _ (λ i (_ : unit), if P st.p i then inl i else inr ())); [done|].
  intros k s Hk. rewrite HP; [done|]. unfold proc_ix, MAX_PROCS in *. lia.
Qed.

(** What choosing a signal's target reads of a process. *)
Definition target_view (p : proc) := (p_ids p, p_group p, is_live p, is_used p).

Lemma signal_target_ext st st' pid :
  (∀ j, proc_ix j → target_view st'.p j = target_view st.p j) → signal_target st' pid = signal_target st pid.
Proof.
  intros Hv. unfold signal_target, sched_find_group_member.
  rewrite (find_proc_ext st st' (λ p, (id_pid (p_ids p) =? pid) && is_live p)), (find_proc_ext st st' (λ p, (id_tgid (p_ids p) =? pid) && is_used p)).
  2, 3: intros j Hj; specialize (Hv j Hj); unfold target_view in Hv; injection Hv as E1 _ E3 E4; by rewrite E1, ?E3, ?E4.
  assert (∀ i, proc_ix i → p_ids st'.p i = p_ids st.p i ∧ p_group st'.p i = p_group st.p i) as He.
  { intros i Hi. specialize (Hv i Hi). unfold target_view in Hv. by injection Hv. }
  assert (match find_proc st (λ p, (id_tgid (p_ids p) =? pid) && is_used p) with Some i => (p_group st'.p i, Some i) | None => (None, None) end =
          match find_proc st (λ p, (id_tgid (p_ids p) =? pid) && is_used p) with Some i => (p_group st.p i, Some i) | None => (None, None) end) as ->.
  { destruct (find_proc st (λ p, (id_tgid (p_ids p) =? pid) && is_used p)) as [i|] eqn:Ef; [|done].
    apply find_proc_Some in Ef as [Hi _]. by destruct (He i Hi) as [_ ->]. }
  destruct (find_proc st (λ p, (id_pid (p_ids p) =? pid) && is_live p)) as [i|] eqn:Ef; [|done].
  apply find_proc_Some in Ef as [Hi _]. by destruct (He i Hi) as [-> ->].
Qed.

(** The child of [ppid] that stops; every thread of the parent blocks SIGCHLD. *)
Definition sigchld_blocked (st : sched) (pg : Z) : Prop :=
  ∀ j, proc_ix j → p_group st.p j = Some pg → is_live st.p j = true → Z.testbit (sg_blocked (p_sig st.p j)) SIGCHLD = true.

(** Sending SIGCHLD to such a parent touches no process. *)
Lemma send_sigchld_blocked st pid pg r :
  signal_target st pid = (Some pg, r) → sigchld_blocked st pg →
  sched_send_signal st pid SIGCHLD = task_group_set_process_signal st (Some pg) SIGCHLD.
Proof.
  intros Ht Hb. unfold sched_send_signal. change ((SIGCHLD <? 1) || (NSIG <=? SIGCHLD)) with false. cbv iota. rewrite Ht.
  destruct (sched_find_group_signal_recipient _ (Some pg) SIGCHLD) as [i|] eqn:Ef; [|done]. exfalso.
  apply find_proc_Some in Ef as (Hi & Hp & _). apply andb_true_iff in Hp as [Hp Hbit]. apply andb_true_iff in Hp as [Hin Hl].
  apply bool_decide_eq_true in Hin. rewrite land_bit in Hbit by done.
  assert (∀ s, proc_table (task_group_set_process_signal s (Some pg) SIGCHLD) = proc_table s) as Ep by done. rewrite Ep in *.
  rewrite (Hb i Hi Hin Hl) in Hbit. done.
Qed.

(** when a process stops and every thread of its parent blocks SIGCHLD, nobody
    is woken: a parent asleep in waitpid on the group of the stopped process stays
    asleep, since [sched_mark_stopped] wakes the waiters of the process and not
    those of its group. *)
Theorem mark_stopped_wakes_nobody st c pg r sig :
  sched_ok st → running st c → signal_target st (id_ppid (p_ids st.p c)) = (Some pg, r) → sigchld_blocked st pg →
  let st' := sched_mark_stopped st sig in
  p_state st'.p c = PROC_STOPPED ∧ ∀ j, proc_ix j → j ≠ c → kof st' j = kof st j.
Proof.
  intros Hok [Ec Er] Ht Hb. cbv zeta. pose proof (ao_current _ _ _ (so_abs _ Hok) c Ec) as Hc. unfold sched_mark_stopped. rewrite Ec.
  set (st1 := upd_proc st c (set_state PROC_STOPPED)). set (v := Z.shiftl (sig &u 0xFF) 8 |u 0x7F).
  set (st2 := upd_proc st1 c (set_exit_status v)).
  assert (sched_ok st1) as H1 by (apply ok_set_state; rewrite ?Er; (done || by apply running_live)).
  assert (sched_ok st2) as H2 by (eapply rouse_ok; [exact H1|rouse_keep]).
  assert (∀ j, proc_ix j → st2.p j = if c =? j then set_exit_status v (set_state PROC_STOPPED st.p c) else st.p j) as Hp2.
  { intros j Hj. unfold st2. rewrite upd_proc_get by ok_side. unfold st1. rewrite !upd_proc_get by ok_side. rewrite Z.eqb_refl.
    by destruct (c =? j). }
  assert (∀ j, proc_ix j → target_view st2.p j = target_view st.p j ∧ p_sig st2.p j = p_sig st.p j) as Hv.
  { intros j Hj. rewrite Hp2 by done. destruct (Z.eqb_spec c j) as [<-|]; [|done]. unfold target_view, is_live, is_used. cbn. by rewrite Er. }
  assert (id_ppid (p_ids st2.p c) = id_ppid (p_ids st.p c)) as Epp by (rewrite Hp2 by done; by rewrite Z.eqb_refl).
  rewrite Epp. clearbody st2. clear st1 H1.
  set (st3 := if id_ppid (p_ids st.p c) =? 0 then st2 else _).
  assert (sched_ok st3 ∧ proc_table st3 = proc_table st2) as [H3 Ep3].
  { unfold st3. destruct (_ =? 0); [done|]. split; [eapply rouse_ok; [exact H2|by apply rouse_send_signal]|].
    erewrite (send_sigchld_blocked st2 _ pg r); [done|rewrite (signal_target_ext st) by (intros; by apply Hv); done|].
    intros j Hj. destruct (Hv j Hj) as [Etv Es]. unfold target_view in Etv. injection Etv as _ Eg El _. rewrite Eg, El, Es. by apply Hb. }
  clearbody st3. pose proof (wake_all_effect st3 (QProc c) (so_qok _ H3) Hc) as He.
  assert (∀ j, proc_ix j → kof (sched_wake_all st3 (QProc c)) j = kof st2 j) as Hk.
  { intros j Hj. rewrite (ef_slot _ _ _ He) by done. rewrite bool_decide_false; [unfold kof; by rewrite Ep3|]. intros Hw.
    by destruct (ao_wait _ _ _ (so_abs _ H3) j _ Hj Hw) as [_ []]. }
  split.
  - change (k_state (kof (sched_wake_all st3 (QProc c)) c) = PROC_STOPPED). rewrite Hk by done. unfold kof. rewrite Hp2, Z.eqb_refl by done. done.
  - intros j Hj Hne. rewrite Hk by done. unfold kof. rewrite Hp2 by done. by rewrite (proj2 (Z.eqb_neq c j)) by congruence.
Qed.

(** As [demo_waiting], with SIGCHLD blocked in the parent. *)
Definition deaf_parent : proc := set_sig (mk_sig 0 (bit SIGCHLD) None (replicate 32 0) false 0) (child_of 0).
Definition deaf_family : sched := (sched_bootstrap (added (added (sched_init boot) deaf_parent) (child_of 1))).2.
Definition deaf_waiting : sched := scheduled (block_on deaf_family 0 (Some (QGroup 1))).

Lemma deaf_waiting_ok : sched_ok deaf_waiting.
Proof.
  assert (sched_step (E:=unit) sched_tick (sched_init boot, ()) (added (sched_init boot) deaf_parent, ())) as H1.
  { unfold added. destruct (sched_add (sched_init boot) () deaf_parent) as [[r st'] []] eqn:Ea.
    by apply (step_add _ _ _ deaf_parent r); [|]. }
  pose proof (added_step (added (sched_init boot) deaf_parent) 1) as H2.
  assert (sched_step (E:=unit) sched_tick (added (added (sched_init boot) deaf_parent) (child_of 1), ()) (deaf_family, ())) as H3
    by (apply step_bootstrap; vm_compute; reflexivity).
  assert (running deaf_family 0) as Hr by (split; vm_compute; reflexivity).
  assert (sched_block sched_tick 10 deaf_family () (Some (QGroup 1)) = Some (deaf_waiting, ())) as Eb by (vm_compute; reflexivity).
  assert (waitpid_round deaf_family () 2 0 = inr (QGroup 1)) as Ew by (vm_compute; reflexivity).
  pose proof (step_wait_block sched_tick 10 deaf_family () 0 2 0 (QGroup 1) deaf_waiting () Hr Ew Eb) as H4.
  exact (ok_steps sched_tick idle_tick_ok _ () _ () ok_init
    (relations.rtc_l _ _ _ _ H1 (relations.rtc_l _ _ _ _ H2 (relations.rtc_l _ _ _ _ H3 (relations.rtc_once _ _ H4))))).
Qed.

Lemma deaf_waiting_blocked : sigchld_blocked deaf_waiting 0.
Proof.
  intros j Hj Hg _. destruct (decide (j = 0)) as [->|Hne]; [vm_compute; reflexivity|]. exfalso.
  assert (j = 1 ∨ j = 2 ∨ j = 3 ∨ j = 4 ∨ j = 5 ∨ j = 6 ∨ j = 7) as Hc by (unfold proc_ix, MAX_PROCS in Hj; lia).
  destruct Hc as [->|[->|[->|[->|[->|[->| ->]]]]]]; vm_compute in Hg; discriminate Hg.
Qed.

Lemma mark_stopped_wakes_nobody_witness :
  k_queue (kof deaf_waiting 0) = Some (QGroup 1) ∧ kof (sched_mark_stopped deaf_waiting SIGTSTP) 0 = kof deaf_waiting 0.
Proof.
  split; [vm_compute; reflexivity|].
  assert (running deaf_waiting 1) as Hr by (split; vm_compute; reflexivity).
  destruct (mark_stopped_wakes_nobody deaf_waiting 1 0 None SIGTSTP deaf_waiting_ok Hr) as [_ Hk];
    [vm_compute; reflexivity|exact deaf_waiting_blocked|]. exact (Hk 0 ltac:(by split) ltac:(discriminate)).
Defined.
