(* ===== verification/Ring.v ===== *)
(** * Circular buffers

    Every byte or record queue of the kernel (pseudo-terminal rings, pipes, the
    raw terminal buffer, the input-event rings, the log ring) is an array with
    a write index, a read index and, mostly, a fill count.  [ring_contents] is
    the sequence such a triple stands for; the three lemmas [ring_push],
    [ring_pop] and [ring_overwrite] are all the components need to know about
    index arithmetic. *)

From S2P Require Import Prelude.

(** [i = (i + 1) % N] on an [uint32_t]. *)
Definition ring_next (N i : Z) : Z := (i +u 1) mod N.

Section ring.
Context {A : Type} `{Inhabited A} (N : Z).
Implicit Types (buf : list A) (head tail count : Z).

(** The records from the read index on, oldest first. *)
Definition ring_contents buf tail count : list A :=
  (λ k, buf.[(tail + Z.of_nat k) mod N]) <$> seq 0 (Z.to_nat count).

(** The shape shared by all the rings; [N] stays below 2^31 so that the
    [uint32_t] increments of the indices do not wrap. *)
Record ring_ok buf head tail count : Prop := {
  ring_len : length buf = Z.to_nat N;
  ring_cap : 0 < N < 2 ^ 31;
  ring_tail : 0 <= tail < N;
  ring_count : 0 <= count <= N;
  ring_head : head = (tail + count) mod N;
}.

Lemma ring_next_ok i : 0 < N < 2 ^ 31 → 0 <= i < N → ring_next N i = (i + 1) mod N.
Proof. intros. unfold ring_next. rewrite u32_small; [done|zsolve]. Qed.

Lemma length_ring_contents buf tail count :
  length (ring_contents buf tail count) = Z.to_nat count.
Proof. unfold ring_contents. by rewrite length_fmap, length_seq. Qed.

Lemma ring_contents_nil buf tail : ring_contents buf tail 0 = [].
Proof. done. Qed.

Lemma ring_head_range buf head tail count :
  ring_ok buf head tail count → 0 <= head < N.
Proof. intros [? ? ? ? ->]. apply Z.mod_pos_bound. lia. Qed.

Lemma ring_ok_empty buf : length buf = Z.to_nat N → 0 < N < 2 ^ 31 → ring_ok buf 0 0 0.
Proof. intros. split; [done|done|lia|lia|]. by rewrite Z.mod_small by lia. Qed.

(** Distinct offsets inside the window are distinct slots. *)
Lemma ring_slot_ne tail i j :
  0 < N → 0 <= i < N → 0 <= j < N → i ≠ j → (tail + i) mod N ≠ (tail + j) mod N.
Proof.
  intros HN Hi Hj Hij E. apply Hij.
  pose proof (Z.div_mod (tail + i) N ltac:(lia)). pose proof (Z.div_mod (tail + j) N ltac:(lia)).
  assert ((tail + i) / N = (tail + j) / N); nia.
Qed.

Lemma ring_contents_set_out buf tail count i x :
  0 < N → length buf = Z.to_nat N → 0 <= count <= i → i < N →
  ring_contents (buf.[(tail + i) mod N <- x]) tail count = ring_contents buf tail count.
Proof.
  intros HN Hl Hc Hi. unfold ring_contents. apply list_fmap_ext. intros n k Hk.
  apply lookup_seq in Hk as [-> Hk]. apply arr_get_set_ne.
  - apply Z.mod_pos_bound. lia.
  - apply Z.mod_pos_bound. lia.
  - apply ring_slot_ne; lia.
Qed.

Lemma ring_contents_snoc buf tail count :
  0 <= count →
  ring_contents buf tail (count + 1) =
  ring_contents buf tail count ++ [buf.[(tail + count) mod N]].
Proof.
  intros. unfold ring_contents. rewrite Z2Nat.inj_add by lia.
  rewrite Nat.add_1_r, seq_S, fmap_app. simpl. by rewrite Z2Nat.id by lia.
Qed.

Lemma ring_contents_cons buf tail count :
  0 < N → 0 <= tail < N → 0 < count →
  ring_contents buf tail count =
  buf.[tail] :: ring_contents buf ((tail + 1) mod N) (count - 1).
Proof.
  intros HN Ht Hc. unfold ring_contents.
  replace (Z.to_nat count) with (S (Z.to_nat (count - 1))) by lia.
  cbn [seq fmap list_fmap]. f_equal.
  { rewrite Z.add_0_r, Z.mod_small by lia. done. }
  rewrite <-fmap_S_seq, <-list_fmap_compose. apply list_fmap_ext. intros i k _. simpl.
  f_equal. rewrite Zplus_mod_idemp_l. f_equal. lia.
Qed.

Lemma ring_push buf head tail count x :
  ring_ok buf head tail count → count < N →
  ring_ok (buf.[head <- x]) (ring_next N head) tail (count + 1) ∧
  ring_contents (buf.[head <- x]) tail (count + 1) = ring_contents buf tail count ++ [x].
Proof.
  intros Hok Hc. pose proof (ring_head_range _ _ _ _ Hok). destruct Hok as [Hl HN Ht Hn Hh].
  split.
  - split; [by rewrite length_arr_set|done|done|lia|].
    rewrite ring_next_ok, Hh by done. rewrite Zplus_mod_idemp_l. f_equal. lia.
  - rewrite ring_contents_snoc by lia. subst head.
    rewrite ring_contents_set_out by lia. by rewrite arr_get_set_eq by lia.
Qed.

Lemma ring_pop buf head tail count :
  ring_ok buf head tail count → 0 < count →
  ring_ok buf head (ring_next N tail) (count - 1) ∧
  ring_contents buf tail count =
  buf.[tail] :: ring_contents buf (ring_next N tail) (count - 1).
Proof.
  intros [Hl HN Ht Hn Hh] Hc. rewrite ring_next_ok by done. split.
  - split; [done|done|apply Z.mod_pos_bound; lia|lia|].
    rewrite Hh, Zplus_mod_idemp_l. f_equal. lia.
  - apply ring_contents_cons; lia.
Qed.

(** Writing into a full ring after dropping its oldest record. *)
Lemma ring_overwrite buf head tail count x :
  ring_ok buf head tail count → count = N →
  ring_ok (buf.[head <- x]) (ring_next N head) (ring_next N tail) count ∧
  ring_contents (buf.[head <- x]) (ring_next N tail) count =
  drop 1 (ring_contents buf tail count) ++ [x].
Proof.
  intros Hok Hc. pose proof (ring_cap _ _ _ _ Hok).
  destruct (ring_pop _ _ _ _ Hok) as [Hok' Hcons]; [lia|].
  destruct (ring_push _ _ _ _ x Hok') as [Hok'' Hsnoc]; [lia|].
  replace (count - 1 + 1) with count in * by lia. split; [done|].
  rewrite Hsnoc, Hcons. simpl. by rewrite drop_0.
Qed.

(** What a bounded ring keeps of a history: the last [N] records. *)
Definition last_n (l : list A) : list A := drop (length l - Z.to_nat N) l.

Lemma last_n_snoc l x :
  0 < N →
  last_n (l ++ [x]) =
  (if decide (length (last_n l) = Z.to_nat N) then drop 1 (last_n l) else last_n l) ++ [x].
Proof.
  intros HN. unfold last_n. rewrite length_app, length_drop. simpl.
  destruct (decide _) as [E|E].
  - rewrite drop_drop, drop_app_le by lia. do 2 f_equal. lia.
  - rewrite drop_app_le by lia. do 2 f_equal. lia.
Qed.
End ring.

(** ** Parts of a buffer *)

(** The bytes [buf[from..to)]. *)
Definition buf_slice (buf : list Z) (from to : Z) : list Z :=
  (λ k, buf.[from + Z.of_nat k]) <$> seq 0 (Z.to_nat (to - from)).

Lemma buf_slice_nil buf c : buf_slice buf c c = [].
Proof. unfold buf_slice. by rewrite Z.sub_diag. Qed.

Lemma buf_slice_cons buf c c' :
  c < c' → buf_slice buf c c' = buf.[c] :: buf_slice buf (c + 1) c'.
Proof.
  intros. unfold buf_slice.
  replace (Z.to_nat (c' - c)) with (S (Z.to_nat (c' - (c + 1)))) by lia.
  cbn [seq fmap list_fmap]. rewrite Z.add_0_r. f_equal.
  rewrite <-fmap_S_seq, <-list_fmap_compose. apply list_fmap_ext. intros i k _. simpl.
  f_equal. lia.
Qed.

Lemma buf_slice_app buf a b c :
  a <= b <= c → buf_slice buf a c = buf_slice buf a b ++ buf_slice buf b c.
Proof.
  intros [Hab Hbc]. remember (Z.to_nat (b - a)) as n eqn:Hn. revert a Hab Hn.
  induction n as [|n IH]; intros a Hab Hn.
  - replace b with a by lia. by rewrite buf_slice_nil.
  - rewrite (buf_slice_cons _ a c), (buf_slice_cons _ a b) by lia. cbn [app]. f_equal.
    apply IH; lia.
Qed.
