(* ===== verification/Blocking.v ===== *)
(** * Kernel operations that block

    Kernel code runs without preemption until it calls [sched_block]: between
    two such points an operation is a function of the shared state.  A blocking
    operation is therefore given as the function [run] below, which takes the
    point where the operation stands and executes it up to its next
    [sched_block] or to its [return].  [sys] interleaves any number of such
    operations: a blocked one becomes runnable again when its queue is woken
    ([sched_wake_all]) or when a signal is sent to its process, and resumes
    where it stopped, whatever the others did to the shared state meanwhile.

    [sys_steps_good] is the rule for "no wake-up is lost": what held of a waiter
    when it blocked still holds while it waits, provided every operation that
    falsifies it wakes the queue. *)

From S2P Require Import Prelude.

Section system.
Context {S Q Op Ev : Type} `{EqDecision Q}.

(** Calls on wait queues: [sched_wake_all] and [sched_wait_queue_init]. *)
Inductive wq_call := WqWake (q : Q) | WqInit (q : Q).

Definition wq_of (c : wq_call) : Q := match c with WqWake q | WqInit q => q end.

(** How a stretch of execution ends. *)
Inductive seg_end := SegRet | SegBlock (q : Q) (k : Op).

Record segment := {
  seg_state : S;
  seg_events : list Ev;
  seg_calls : list wq_call;
  seg_exit : seg_end;
}.

(** [legal]: what the callers of the operations guarantee of their arguments. *)
Context (run : S → Op → segment) (legal : Op → Prop).

(** [sy_lost]: threads whose queue was re-initialised under them; no
    [sched_wake_all] reaches them any more. *)
Record sys := {
  sy_state : S;
  sy_run : gmap nat Op;
  sy_wait : gmap nat (Q * Op);
  sy_lost : gmap nat Op;
}.

Definition waiting_on (q : Q) (w : gmap nat (Q * Op)) : gmap nat Op :=
  omap (λ p, if decide (p.1 = q) then Some p.2 else None) w.
Definition waiting_off (q : Q) (w : gmap nat (Q * Op)) : gmap nat (Q * Op) :=
  filter (λ p, p.2.1 ≠ q) w.

Definition apply_call (c : wq_call) (σ : sys) : sys :=
  match c with
  | WqWake q => {| sy_state := sy_state σ; sy_run := waiting_on q (sy_wait σ) ∪ sy_run σ;
                   sy_wait := waiting_off q (sy_wait σ); sy_lost := sy_lost σ |}
  | WqInit q => {| sy_state := sy_state σ; sy_run := sy_run σ;
                   sy_wait := waiting_off q (sy_wait σ);
                   sy_lost := waiting_on q (sy_wait σ) ∪ sy_lost σ |}
  end.

Definition apply_calls (cs : list wq_call) (σ : sys) : sys := foldl (flip apply_call) σ cs.

Definition apply_end (t : nat) (e : seg_end) (σ : sys) : sys :=
  match e with
  | SegRet => σ
  | SegBlock q k => {| sy_state := sy_state σ; sy_run := sy_run σ;
                       sy_wait := <[t := (q, k)]> (sy_wait σ); sy_lost := sy_lost σ |}
  end.

Definition sys_start (t : nat) (op : Op) (σ : sys) : sys :=
  {| sy_state := sy_state σ; sy_run := <[t := op]> (sy_run σ);
     sy_wait := sy_wait σ; sy_lost := sy_lost σ |}.

Definition sys_exec (t : nat) (g : segment) (σ : sys) : sys :=
  apply_end t (seg_exit g)
    (apply_calls (seg_calls g)
      {| sy_state := seg_state g; sy_run := delete t (sy_run σ);
         sy_wait := sy_wait σ; sy_lost := sy_lost σ |}).

Definition sys_signal (t : nat) (op : Op) (σ : sys) : sys :=
  {| sy_state := sy_state σ; sy_run := <[t := op]> (sy_run σ);
     sy_wait := delete t (sy_wait σ); sy_lost := sy_lost σ |}.

Inductive sys_step : sys → list Ev → sys → Prop :=
  | step_call σ t op :
      sy_run σ !! t = None → sy_wait σ !! t = None → sy_lost σ !! t = None → legal op →
      sys_step σ [] (sys_start t op σ)
  | step_exec σ t op :
      sy_run σ !! t = Some op →
      sys_step σ (seg_events (run (sy_state σ) op)) (sys_exec t (run (sy_state σ) op) σ)
  | step_signal σ t q op :
      sy_wait σ !! t = Some (q, op) →
      sys_step σ [] (sys_signal t op σ).

Inductive sys_steps : sys → list Ev → sys → Prop :=
  | steps_refl σ : sys_steps σ [] σ
  | steps_trans σ σ' σ'' es es' :
      sys_steps σ es σ' → sys_step σ' es' σ'' → sys_steps σ (es ++ es') σ''.

Definition sys_idle (s : S) : sys :=
  {| sy_state := s; sy_run := ∅; sy_wait := ∅; sy_lost := ∅ |}.

Lemma apply_call_state c σ : sy_state (apply_call c σ) = sy_state σ.
Proof. by destruct c. Qed.
(** The runnable threads after some calls were runnable or waiting before. *)
Lemma apply_calls_run cs σ t op :
  sy_run (apply_calls cs σ) !! t = Some op →
  sy_run σ !! t = Some op ∨ ∃ q, sy_wait σ !! t = Some (q, op).
Proof.
  revert σ. induction cs as [|c cs IH]; intros σ Ht; cbn in *; [by left|].
  apply IH in Ht as [Ht|[q Ht]]; destruct c as [q'|q']; cbn in *; eauto.
  - apply lookup_union_Some_raw in Ht as [Ht|[_ Ht]]; [|by left]. right.
    unfold waiting_on in Ht. rewrite lookup_omap in Ht.
    destruct (sy_wait σ !! t) as [[q op']|]; [|done]. cbn in Ht.
    case_decide; simplify_eq; eauto.
  - right. apply map_lookup_filter_Some in Ht as [? _]. eauto.
  - right. apply map_lookup_filter_Some in Ht as [? _]. eauto.
Qed.

Lemma apply_calls_state cs σ : sy_state (apply_calls cs σ) = sy_state σ.
Proof.
  revert σ. induction cs as [|c cs IH]; intros σ; [done|].
  cbn. unfold apply_calls in IH. by rewrite IH, apply_call_state.
Qed.
Lemma sys_exec_state t g σ : sy_state (sys_exec t g σ) = seg_state g.
Proof. unfold sys_exec. destruct (seg_exit g); cbn; by rewrite apply_calls_state. Qed.

(** The threads still waiting after some calls were waiting before, on a queue
    that none of the calls is about. *)
Lemma apply_calls_wait cs σ t q op :
  sy_wait (apply_calls cs σ) !! t = Some (q, op) →
  sy_wait σ !! t = Some (q, op) ∧ q ∉ wq_of <$> cs.
Proof.
  revert σ. induction cs as [|c cs IH]; intros σ Ht; cbn in *; [by split; [|set_solver]|].
  apply IH in Ht as [Ht Hq].
  destruct c as [q'|q']; cbn in *; unfold waiting_off in Ht;
    apply map_lookup_filter_Some in Ht as [? ?]; (split; [done|set_solver]).
Qed.

(** The rule for reachable states.  [I] speaks of the shared state and of
    everything that happened so far, [W] of a thread that waits on a queue. *)
Section invariant.
Context (I : list Ev → S → Prop) (W : S → Q → Op → Prop).
Hypothesis run_ok : ∀ es s op,
  I es s → legal op →
  let g := run s op in
  I (es ++ seg_events g) (seg_state g) ∧
  (∀ q k, q ∉ wq_of <$> seg_calls g → W s q k → W (seg_state g) q k) ∧
  (∀ q k, seg_exit g = SegBlock q k → W (seg_state g) q k ∧ legal k).

Record sys_good (es : list Ev) (σ : sys) : Prop := {
  good_state : I es (sy_state σ);
  good_run : ∀ t op, sy_run σ !! t = Some op → legal op;
  good_wait : ∀ t q op, sy_wait σ !! t = Some (q, op) → W (sy_state σ) q op ∧ legal op;
}.

Lemma sys_exec_good es σ t op :
  sy_run σ !! t = Some op → sys_good es σ →
  sys_good (es ++ seg_events (run (sy_state σ) op)) (sys_exec t (run (sy_state σ) op) σ).
Proof.
  intros Ht [HI Hrun HW].
  destruct (run_ok es (sy_state σ) op HI (Hrun _ _ Ht)) as (HI' & Hframe & Hblock).
  set (g := run (sy_state σ) op) in *.
  set (σ1 := {| sy_state := seg_state g; sy_run := delete t (sy_run σ);
                sy_wait := sy_wait σ; sy_lost := sy_lost σ |}).
  assert (∀ t q k, sy_wait (apply_calls (seg_calls g) σ1) !! t = Some (q, k) →
            W (seg_state g) q k ∧ legal k) as Hstay.
  { intros t' q k Hw. apply apply_calls_wait in Hw as [Hw Hq]. cbn in Hw.
    destruct (HW _ _ _ Hw). by split; [apply Hframe|]. }
  assert (∀ t k, sy_run (apply_calls (seg_calls g) σ1) !! t = Some k → legal k) as Hrun'.
  { intros t' k Hk. apply apply_calls_run in Hk as [Hk|[q Hk]]; cbn in Hk.
    - apply lookup_delete_Some in Hk as [_ Hk]. eauto.
    - by destruct (HW _ _ _ Hk). }
  split.
  - by rewrite sys_exec_state.
  - intros t' k. unfold sys_exec. fold σ1. destruct (seg_exit g); cbn; apply Hrun'.
  - intros t' q k. rewrite sys_exec_state. unfold sys_exec. fold σ1.
    destruct (seg_exit g) as [|q' k'] eqn:E; cbn; [apply Hstay|].
    intros [[-> [= -> ->]]|[_ Hw]]%lookup_insert_Some; [by apply Hblock|eauto].
Qed.

Lemma sys_steps_good s es σ : I [] s → sys_steps (sys_idle s) es σ → sys_good es σ.
Proof.
  intros HI Hsteps. remember (sys_idle s) as σ0 eqn:E.
  induction Hsteps as [σ|σ σ' σ'' es es' _ IH Hstep].
  - subst. split; [done| |]; intros t; cbn; intros *; by rewrite lookup_empty.
  - specialize (IH E). destruct Hstep as [σ1 t op ? ? ? Hop|σ1 t op|σ1 t q op Ht].
    + rewrite app_nil_r. destruct IH as [? Hrun HW]. split; [done| |done]. cbn.
      intros t' k [[-> <-]|[_ Hk]]%lookup_insert_Some; eauto.
    + by apply sys_exec_good.
    + rewrite app_nil_r. destruct IH as [? Hrun HW]. split; [done| |]; cbn.
      * intros t' k [[-> <-]|[_ Hk]]%lookup_insert_Some; [by eapply HW|eauto].
      * intros t' q' k [_ Hk]%lookup_delete_Some. eauto.
Qed.
End invariant.
End system.

Arguments wq_call : clear implicits.
Arguments seg_end : clear implicits.
Arguments segment : clear implicits.
Arguments sys : clear implicits.
