(* ===== verification/Pty.v ===== *)
(** * Pseudo-terminals ([kernel/proc/pty.c])

    A pool of pairs of byte rings.  The ring operations that can block are
    given by their stretches of execution ([Blocking]); the wait queue of a
    ring is named by the ring itself. *)

From S2P Require Import Prelude Ring Blocking.

(** ** Rings *)

Definition PTY_RING_BYTES : Z := 1024.
Definition PTY_MAX : Z := 4.

Record pty_ring := {
  r_buf : list Z;
  r_head : Z;
  r_tail : Z;
  r_count : Z;
  r_closed : Z;
}.

Inductive pty_dir := ToSlave | ToMaster.
#[global] Instance pty_dir_eq : EqDecision pty_dir.
Proof. solve_decision. Defined.

(** A ring is addressed by its pair and its direction. *)
Definition pty_chan : Type := Z * pty_dir.

Definition pty_ring_reset (r : pty_ring) : pty_ring :=
  {| r_buf := r_buf r; r_head := 0; r_tail := 0; r_count := 0; r_closed := 0 |}.

Definition ring_put (r : pty_ring) (b : Z) : pty_ring :=
  {| r_buf := (r_buf r).[r_head r <- b]; r_head := ring_next PTY_RING_BYTES (r_head r);
     r_tail := r_tail r; r_count := r_count r +u 1; r_closed := r_closed r |}.

Definition ring_take (r : pty_ring) : Z * pty_ring :=
  ((r_buf r).[r_tail r],
   {| r_buf := r_buf r; r_head := r_head r; r_tail := ring_next PTY_RING_BYTES (r_tail r);
      r_count := r_count r -u 1; r_closed := r_closed r |}).

(** The inner copy loop of [pty_ring_write]; [n] bounds its iterations by the
    bytes left. *)
Fixpoint ring_fill (n : nat) (buf : list Z) (count copied : Z) (r : pty_ring) : pty_ring * Z :=
  match n with
  | O => (r, copied)
  | S n =>
      if (copied <? count) && (r_count r <? PTY_RING_BYTES)
      then ring_fill n buf count (copied +u 1) (ring_put r buf.[copied])
      else (r, copied)
  end.

(** How a stretch of [pty_ring_write] ends: with its result, or inside
    [sched_block] with [copied] bytes done. *)
Inductive write_end := WriteRet (copied : Z) | WriteBlock (copied : Z).

Definition write_done (e : write_end) : Z := match e with WriteRet c | WriteBlock c => c end.

(** [pty_ring_write] from the head of its loop with [copied] bytes done to its
    next [sched_block] or return; [wakes] counts the [sched_wake_all] calls.
    Each round copies a byte at least, so [n] rounds are enough when
    [n > count - copied]. *)
Fixpoint pty_ring_write (n : nat) (r : pty_ring) (buf : list Z) (count copied : Z)
    (wakes : nat) : option (pty_ring * nat * write_end) :=
  match n with
  | O => None
  | S n =>
      if negb (copied <? count) then Some (r, wakes, WriteRet copied)
      else if r_count r =? PTY_RING_BYTES then
        if negb (r_closed r =? 0) then Some (r, wakes, WriteRet copied)
        else Some (r, wakes, WriteBlock copied)
      else
        let '(r', copied') := ring_fill (Z.to_nat (count - copied)) buf count copied r in
        pty_ring_write n r' buf count copied' (S wakes)
  end.

Definition write_fuel (count copied : Z) : nat := S (S (Z.to_nat (count - copied))).

(** The copy loop of [pty_ring_read]: the bytes it stores in the caller's
    buffer, in order. *)
Fixpoint ring_drain (n : nat) (count copied : Z) (r : pty_ring) : pty_ring * list Z :=
  match n with
  | O => (r, [])
  | S n =>
      if (copied <? count) && (0 <? r_count r)
      then let '(b, r') := ring_take r in
           let '(r'', bs) := ring_drain n count (copied +u 1) r' in (r'', b :: bs)
      else (r, [])
  end.

Inductive read_end := ReadRet (bytes : list Z) | ReadBlock.

(** [pty_ring_read] to its next [sched_block] or return. *)
Definition pty_ring_read (r : pty_ring) (count : Z) : pty_ring * nat * read_end :=
  if count =? 0 then (r, 0%nat, ReadRet [])
  else if r_count r =? 0 then
    if negb (r_closed r =? 0) then (r, 0%nat, ReadRet []) else (r, 0%nat, ReadBlock)
  else let '(r', bs) := ring_drain (Z.to_nat count) count 0 r in (r', 1%nat, ReadRet bs).

Definition pty_ring_available (r : pty_ring) : Z := r_count r.
Definition pty_ring_closed (r : pty_ring) : Z := if r_closed r =? 0 then 0 else 1.

(** ** The pool *)

Record pty := {
  p_in_use : Z;
  p_master_open : Z;
  p_slave_open : Z;
  p_to_slave : pty_ring;
  p_to_master : pty_ring;
}.

#[global] Instance pty_ring_inhabited : Inhabited pty_ring :=
  populate {| r_buf := replicate (Z.to_nat PTY_RING_BYTES) 0;
              r_head := 0; r_tail := 0; r_count := 0; r_closed := 0 |}.
#[global] Instance pty_inhabited : Inhabited pty :=
  populate {| p_in_use := 0; p_master_open := 0; p_slave_open := 0;
              p_to_slave := inhabitant; p_to_master := inhabitant |}.

(** [static pty_t pty_pool[PTY_MAX]], zeroed at boot. *)
Definition pty_pool_boot : list pty := replicate (Z.to_nat PTY_MAX) inhabitant.

Definition set_in_use (v : Z) (p : pty) : pty :=
  {| p_in_use := v; p_master_open := p_master_open p; p_slave_open := p_slave_open p;
     p_to_slave := p_to_slave p; p_to_master := p_to_master p |}.
Definition set_master_open (v : Z) (p : pty) : pty :=
  {| p_in_use := p_in_use p; p_master_open := v; p_slave_open := p_slave_open p;
     p_to_slave := p_to_slave p; p_to_master := p_to_master p |}.
Definition set_slave_open (v : Z) (p : pty) : pty :=
  {| p_in_use := p_in_use p; p_master_open := p_master_open p; p_slave_open := v;
     p_to_slave := p_to_slave p; p_to_master := p_to_master p |}.
Definition set_rings (a b : pty_ring) (p : pty) : pty :=
  {| p_in_use := p_in_use p; p_master_open := p_master_open p; p_slave_open := p_slave_open p;
     p_to_slave := a; p_to_master := b |}.

Definition pty_ring_at (pool : list pty) (q : pty_chan) : pty_ring :=
  match q.2 with ToSlave => p_to_slave pool.[q.1] | ToMaster => p_to_master pool.[q.1] end.

Definition pty_ring_put (pool : list pty) (q : pty_chan) (r : pty_ring) : list pty :=
  match q.2 with
  | ToSlave => pool.[q.1 <- set_rings r (p_to_master pool.[q.1]) pool.[q.1]]
  | ToMaster => pool.[q.1 <- set_rings (p_to_slave pool.[q.1]) r pool.[q.1]]
  end.

Notation pty_call := (wq_call pty_chan).

Definition alloc_pair (p : pty) : pty :=
  set_rings (pty_ring_reset (p_to_slave p)) (pty_ring_reset (p_to_master p))
    (set_slave_open 0 (set_master_open 1 (set_in_use 1 p))).

Definition pty_alloc_master (pool : list pty) : Z * list pty * list pty_call :=
  match for_exit 0 (Z.to_nat PTY_MAX)
          (λ i _, if negb (p_in_use pool.[i] =? 0) then inr tt else inl i) tt with
  | inl i => (i, pool.[i <- alloc_pair pool.[i]], [WqInit (i, ToSlave); WqInit (i, ToMaster)])
  | inr _ => (-1, pool, [])
  end.

Definition pty_open_slave (pool : list pty) (idx : Z) : Z * list pty :=
  if PTY_MAX <=? idx then (-1, pool)
  else if (p_in_use pool.[idx] =? 0) || (p_master_open pool.[idx] =? 0) ||
          negb (p_slave_open pool.[idx] =? 0)
  then (-1, pool)
  else (0, pool.[idx <- set_slave_open 1 pool.[idx]]).

Definition pty_get_master (pool : list pty) (idx : Z) : list pty :=
  if PTY_MAX <=? idx then pool
  else if negb (p_in_use pool.[idx] =? 0) && (0 <? p_master_open pool.[idx])
  then pool.[idx <- set_master_open (p_master_open pool.[idx] +u 1) pool.[idx]]
  else pool.

Definition pty_get_slave (pool : list pty) (idx : Z) : list pty :=
  if PTY_MAX <=? idx then pool
  else if negb (p_in_use pool.[idx] =? 0) && (0 <? p_slave_open pool.[idx])
  then pool.[idx <- set_slave_open (p_slave_open pool.[idx] +u 1) pool.[idx]]
  else pool.

Definition close_ring (r : pty_ring) : pty_ring :=
  {| r_buf := r_buf r; r_head := r_head r; r_tail := r_tail r; r_count := r_count r;
     r_closed := 1 |}.

Definition close_rings (p : pty) : pty :=
  set_rings (close_ring (p_to_slave p)) (close_ring (p_to_master p)) p.

Definition dec_open (n : Z) : Z := if 0 <? n then n -u 1 else n.

(** [pty_release_master]: the pair after the call, and whether the rings were
    closed and their queues woken. *)
Definition release_master (p : pty) : pty * bool :=
  let p := set_master_open (dec_open (p_master_open p)) p in
  let last := p_master_open p =? 0 in
  let p := if last then close_rings p else p in
  (if p_slave_open p =? 0 then set_in_use 0 p else p, last).

Definition release_slave (p : pty) : pty * bool :=
  let p := set_slave_open (dec_open (p_slave_open p)) p in
  let last := p_slave_open p =? 0 in
  let p := if last then close_rings p else p in
  (if p_master_open p =? 0 then set_in_use 0 p else p, last).

Definition pty_release (rel : pty → pty * bool) (pool : list pty) (idx : Z) :
    list pty * list pty_call :=
  if PTY_MAX <=? idx then (pool, [])
  else if p_in_use pool.[idx] =? 0 then (pool, [])
  else let '(p, woke) := rel pool.[idx] in
       (pool.[idx <- p], if woke then [WqWake (idx, ToSlave); WqWake (idx, ToMaster)] else []).

Definition pty_release_master := pty_release release_master.
Definition pty_release_slave := pty_release release_slave.

(** [pty_idx >= PTY_MAX || !pty_pool[pty_idx].in_use] *)
Definition pty_dead (pool : list pty) (idx : Z) : bool :=
  (PTY_MAX <=? idx) || (p_in_use pool.[idx] =? 0).

Definition pty_master_read_available (pool : list pty) (idx : Z) : Z :=
  if pty_dead pool idx then 0 else pty_ring_available (pty_ring_at pool (idx, ToMaster)).
Definition pty_slave_read_available (pool : list pty) (idx : Z) : Z :=
  if pty_dead pool idx then 0 else pty_ring_available (pty_ring_at pool (idx, ToSlave)).
Definition pty_master_read_closed (pool : list pty) (idx : Z) : Z :=
  if pty_dead pool idx then 0 else pty_ring_closed (pty_ring_at pool (idx, ToMaster)).
Definition pty_slave_read_closed (pool : list pty) (idx : Z) : Z :=
  if pty_dead pool idx then 0 else pty_ring_closed (pty_ring_at pool (idx, ToSlave)).

(** ** Calls in progress *)

Inductive pty_op :=
  | PtyAllocMaster
  | PtyOpenSlave (idx : Z)
  | PtyGetMaster (idx : Z)
  | PtyGetSlave (idx : Z)
  | PtyReleaseMaster (idx : Z)
  | PtyReleaseSlave (idx : Z)
  | PtyMasterRead (idx count : Z)
  | PtySlaveRead (idx count : Z)
  | PtyMasterWrite (idx : Z) (buf : list Z) (count : Z)
  | PtySlaveWrite (idx : Z) (buf : list Z) (count : Z)
  (** inside [sched_block]: the ring is known, the pair is not looked up again *)
  | PtyReading (q : pty_chan) (count : Z)
  | PtyWriting (q : pty_chan) (buf : list Z) (count copied : Z).

(** What happens to the byte streams: bytes of a caller's buffer accepted,
    bytes delivered into a caller's buffer, a stream started afresh. *)
Inductive pty_event :=
  | EvPut (q : pty_chan) (bytes : list Z)
  | EvGot (q : pty_chan) (bytes : list Z)
  | EvFresh (q : pty_chan)
  (** a read or write call returns this value *)
  | EvRet (v : Z).

Notation pty_segment := (segment (list pty) pty_chan pty_op pty_event).

Definition seg_ret (pool : list pty) (evs : list pty_event) (cs : list pty_call) : pty_segment :=
  {| seg_state := pool; seg_events := evs; seg_calls := cs; seg_exit := SegRet |}.

Definition run_write (pool : list pty) (q : pty_chan) (buf : list Z) (count copied : Z) :
    pty_segment :=
  match pty_ring_write (write_fuel count copied) (pty_ring_at pool q) buf count copied 0 with
  | None => seg_ret pool [] []
  | Some (r, wakes, e) =>
      {| seg_state := pty_ring_put pool q r;
         seg_events := EvPut q (buf_slice buf copied (write_done e)) ::
                       match e with WriteRet c => [EvRet (s32 c)] | WriteBlock _ => [] end;
         seg_calls := replicate wakes (WqWake q);
         seg_exit := match e with
                     | WriteRet _ => SegRet
                     | WriteBlock c => SegBlock q (PtyWriting q buf count c)
                     end |}
  end.

Definition run_read (pool : list pty) (q : pty_chan) (count : Z) : pty_segment :=
  let '(r, wakes, e) := pty_ring_read (pty_ring_at pool q) count in
  {| seg_state := pty_ring_put pool q r;
     seg_events := match e with
                   | ReadRet bs => [EvGot q bs; EvRet (s32 (Z.of_nat (length bs)))] | ReadBlock => [] end;
     seg_calls := replicate wakes (WqWake q);
     seg_exit := match e with ReadRet _ => SegRet | ReadBlock => SegBlock q (PtyReading q count) end |}.

Definition pty_master_read (pool : list pty) (idx count : Z) : pty_segment :=
  if pty_dead pool idx then seg_ret pool [EvRet (-1)] [] else run_read pool (idx, ToMaster) count.
Definition pty_master_write (pool : list pty) (idx : Z) (buf : list Z) (count : Z) : pty_segment :=
  if pty_dead pool idx then seg_ret pool [EvRet (-1)] []
  else run_write pool (idx, ToSlave) buf count 0.
Definition pty_slave_read (pool : list pty) (idx count : Z) : pty_segment :=
  if pty_dead pool idx then seg_ret pool [EvRet (-1)] [] else run_read pool (idx, ToSlave) count.
Definition pty_slave_write (pool : list pty) (idx : Z) (buf : list Z) (count : Z) : pty_segment :=
  if pty_dead pool idx then seg_ret pool [EvRet (-1)] []
  else run_write pool (idx, ToMaster) buf count 0.

Definition pty_run (pool : list pty) (op : pty_op) : pty_segment :=
  match op with
  | PtyAllocMaster =>
      let '(i, pool', cs) := pty_alloc_master pool in
      seg_ret pool' (if i =? -1 then [] else [EvFresh (i, ToSlave); EvFresh (i, ToMaster)]) cs
  | PtyOpenSlave idx => seg_ret (pty_open_slave pool idx).2 [] []
  | PtyGetMaster idx => seg_ret (pty_get_master pool idx) [] []
  | PtyGetSlave idx => seg_ret (pty_get_slave pool idx) [] []
  | PtyReleaseMaster idx =>
      let '(pool', cs) := pty_release_master pool idx in seg_ret pool' [] cs
  | PtyReleaseSlave idx =>
      let '(pool', cs) := pty_release_slave pool idx in seg_ret pool' [] cs
  | PtyMasterRead idx count => pty_master_read pool idx count
  | PtySlaveRead idx count => pty_slave_read pool idx count
  | PtyMasterWrite idx buf count => pty_master_write pool idx buf count
  | PtySlaveWrite idx buf count => pty_slave_write pool idx buf count
  | PtyReading q count => run_read pool q count
  | PtyWriting q buf count copied => run_write pool q buf count copied
  end.

(** ** Ring lemmas *)

Definition ring_bytes (r : pty_ring) : list Z :=
  ring_contents PTY_RING_BYTES (r_buf r) (r_tail r) (r_count r).
Definition pty_ring_ok (r : pty_ring) : Prop :=
  ring_ok PTY_RING_BYTES (r_buf r) (r_head r) (r_tail r) (r_count r).

Lemma ring_count_range r : pty_ring_ok r → 0 <= r_count r <= 1024.
Proof. intros Hr. exact (ring_count _ _ _ _ _ Hr). Qed.

Lemma ring_put_ok r b :
  pty_ring_ok r → r_count r < PTY_RING_BYTES →
  pty_ring_ok (ring_put r b) ∧ ring_bytes (ring_put r b) = ring_bytes r ++ [b] ∧
  r_count (ring_put r b) = r_count r + 1.
Proof.
  intros Hr Hc. pose proof (ring_count_range r Hr).
  destruct (ring_push _ _ _ _ _ b Hr Hc) as [Hok Heq].
  unfold pty_ring_ok, ring_bytes. cbn. rewrite u32_small by zsolve. done.
Qed.

Lemma ring_take_ok r :
  pty_ring_ok r → 0 < r_count r →
  pty_ring_ok (ring_take r).2 ∧ ring_bytes r = (ring_take r).1 :: ring_bytes (ring_take r).2 ∧
  r_count (ring_take r).2 = r_count r - 1.
Proof.
  intros Hr Hc. pose proof (ring_count_range r Hr).
  destruct (ring_pop _ _ _ _ _ Hr Hc) as [Hok Heq].
  unfold pty_ring_ok, ring_bytes. cbn. rewrite u32_small by zsolve. done.
Qed.

Lemma ring_fill_spec n buf count copied r r' copied' :
  pty_ring_ok r → is_u32 count → 0 <= copied <= count → (Z.to_nat (count - copied) <= n)%nat →
  ring_fill n buf count copied r = (r', copied') →
  pty_ring_ok r' ∧ copied <= copied' <= count ∧ r_closed r' = r_closed r ∧
  ring_bytes r' = ring_bytes r ++ buf_slice buf copied copied' ∧
  r_count r' = r_count r + (copied' - copied) ∧
  (copied' = count ∨ r_count r' = PTY_RING_BYTES).
Proof.
  revert copied r. induction n as [|n IH]; intros copied r Hr Hc Hcop Hn; cbn [ring_fill].
  { intros [= <- <-]. rewrite buf_slice_nil, app_nil_r. split_and!; auto; lia. }
  pose proof (ring_count_range r Hr).
  destruct (Z.ltb_spec copied count); cbn [andb].
  2:{ intros [= <- <-]. rewrite buf_slice_nil, app_nil_r. split_and!; auto; lia. }
  destruct (Z.ltb_spec (r_count r) PTY_RING_BYTES) as [Hlt|Hge].
  2:{ intros [= <- <-]. rewrite buf_slice_nil, app_nil_r.
      split_and!; auto; try lia. right. unfold PTY_RING_BYTES in *. lia. }
  destruct (ring_put_ok r buf.[copied] Hr Hlt) as (Hok & Hbytes & Hcount).
  rewrite u32_small by zsolve. intros Hf.
  apply IH in Hf as (? & ? & Hcl & Hb & Hrc & Hend); [|done|done|lia|lia].
  split_and!; try done; try lia.
  rewrite Hb, Hbytes, (buf_slice_cons _ copied copied') by lia. by rewrite <-app_assoc.
Qed.

(** A stretch of [pty_ring_write] appends a contiguous run of the caller's
    bytes; it blocks only on a full open ring, and wakes the queue whenever it
    stored something. *)
Lemma pty_ring_write_spec n r buf count copied wakes :
  pty_ring_ok r → is_u32 count → 0 <= copied <= count →
  (Z.to_nat (count - copied) < n)%nat →
  ∃ r' wakes' e, pty_ring_write n r buf count copied wakes = Some (r', wakes', e) ∧
    pty_ring_ok r' ∧ copied <= write_done e <= count ∧ r_closed r' = r_closed r ∧
    ring_bytes r' = ring_bytes r ++ buf_slice buf copied (write_done e) ∧
    (wakes <= wakes')%nat ∧ (wakes' = wakes → r' = r) ∧
    match e with
    | WriteRet c => c = count ∨ (r_count r' = PTY_RING_BYTES ∧ r_closed r' ≠ 0)
    | WriteBlock c => c < count ∧ r_count r' = PTY_RING_BYTES ∧ r_closed r' = 0
    end.
Proof.
  revert r copied wakes. induction n as [|n IH]; intros r copied wakes Hr Hc Hcop Hn; [lia|].
  cbn [pty_ring_write]. destruct (Z.ltb_spec copied count) as [Hlt|Hge]; cbn [negb].
  2:{ eexists _, _, _. split; [done|]. cbn [write_done].
      rewrite buf_slice_nil, app_nil_r. split_and!; auto; lia. }
  destruct (Z.eqb_spec (r_count r) PTY_RING_BYTES) as [Hfull|Hnot].
  { destruct (Z.eqb_spec (r_closed r) 0); cbn [negb]; (eexists _, _, _; split; [done|]);
      cbn [write_done]; rewrite buf_slice_nil, app_nil_r; split_and!; auto; lia. }
  destruct (ring_fill _ buf count copied r) as [r1 c1] eqn:Ef.
  pose proof (ring_count_range r Hr).
  pose proof (ring_fill_spec _ _ _ _ _ _ _ Hr Hc Hcop (le_n _) Ef) as (Hr1 & Hc1 & Hcl & Hb & Hk & Hend).
  assert (copied < c1). { unfold PTY_RING_BYTES in *. destruct Hend; lia. }
  destruct (IH r1 c1 (S wakes)) as (r' & w' & e & Hw & ? & ? & Hcl' & Hb' & ? & ? & He);
    [done|done|lia|lia|].
  exists r', w', e. split; [done|]. split_and!; try done; try lia; try congruence.
  rewrite Hb', Hb, <-app_assoc. f_equal. symmetry. apply buf_slice_app; lia.
Qed.

Lemma ring_drain_spec n count copied r r' bs :
  pty_ring_ok r → is_u32 count → 0 <= copied <= count → (Z.to_nat (count - copied) <= n)%nat →
  ring_drain n count copied r = (r', bs) →
  pty_ring_ok r' ∧ r_closed r' = r_closed r ∧ ring_bytes r = bs ++ ring_bytes r' ∧
  Z.of_nat (length bs) = Z.min (r_count r) (count - copied).
Proof.
  revert copied r bs. induction n as [|n IH]; intros copied r bs Hr Hc Hcop Hn; cbn [ring_drain];
    pose proof (ring_count_range r Hr).
  { intros [= <- <-]. split_and!; auto. cbn. lia. }
  destruct (Z.ltb_spec copied count); cbn [andb].
  2:{ intros [= <- <-]. split_and!; auto. cbn. lia. }
  destruct (Z.ltb_spec 0 (r_count r)) as [Hlt|Hge].
  2:{ intros [= <- <-]. split_and!; auto. cbn. lia. }
  destruct (ring_take_ok r Hr Hlt) as (Hok & Hbytes & Hcount).
  destruct (ring_take r) as [b r1] eqn:Et. cbn [fst snd] in *.
  destruct (ring_drain n count _ r1) as [r2 bs2] eqn:Ed. intros [= <- <-].
  rewrite u32_small in Ed by zsolve.
  apply IH in Ed as (? & Hcl & Hb & Hlen); [|done|done|lia|lia].
  split_and!; [done| |by rewrite Hbytes, Hb|cbn [length]; lia].
  rewrite Hcl. unfold ring_take in Et. by simplify_eq.
Qed.
