(* ===== verification/PtyProps.v ===== *)
(** * Pseudo-terminals: streams, wake-ups and pair lifetime

    Any number of readers, writers, openers and closers of the pool run
    interleaved ([Blocking]).  Each direction of each pair is a first-in
    first-out byte stream, and nobody sleeps on a ring that could serve him.
    The last part shows what [pty_release_master] does to a pair that still has
    a master. *)

From S2P Require Import Prelude Ring Blocking Pty.

Definition chan_valid (q : pty_chan) : Prop := 0 <= q.1 < PTY_MAX.

Record pool_ok (pool : list pty) : Prop := {
  pool_len : length pool = Z.to_nat PTY_MAX;
  pool_rings : ∀ q, chan_valid q → pty_ring_ok (pty_ring_at pool q);
}.

(** What the system calls pass: 32-bit counts and indices. *)
Definition pty_legal (op : pty_op) : Prop :=
  match op with
  | PtyAllocMaster => True
  | PtyOpenSlave idx | PtyGetMaster idx | PtyGetSlave idx
  | PtyReleaseMaster idx | PtyReleaseSlave idx => is_u32 idx
  | PtyMasterRead idx count | PtySlaveRead idx count => is_u32 idx ∧ is_u32 count
  | PtyMasterWrite idx _ count | PtySlaveWrite idx _ count => is_u32 idx ∧ is_u32 count
  | PtyReading q count => chan_valid q ∧ is_u32 count
  | PtyWriting q _ count copied => chan_valid q ∧ is_u32 count ∧ 0 <= copied <= count
  end.

(** The stream of a ring: bytes accepted and bytes delivered since the pair was
    last allocated. *)
Definition flow_step (q : pty_chan) (f : list Z * list Z) (e : pty_event) : list Z * list Z :=
  match e with
  | EvPut q' bs => if decide (q' = q) then (f.1 ++ bs, f.2) else f
  | EvGot q' bs => if decide (q' = q) then (f.1, f.2 ++ bs) else f
  | EvFresh q' => if decide (q' = q) then ([], []) else f
  | EvRet _ => f
  end.
Definition flow (q : pty_chan) (es : list pty_event) : list Z * list Z :=
  foldl (flow_step q) ([], []) es.

Definition pty_waits (pool : list pty) (q : pty_chan) (op : pty_op) : Prop :=
  chan_valid q ∧
  match op with
  | PtyReading q' _ => q' = q ∧ r_count (pty_ring_at pool q) = 0
  | PtyWriting q' _ _ _ => q' = q ∧ r_count (pty_ring_at pool q) = PTY_RING_BYTES
  | _ => False
  end ∧ r_closed (pty_ring_at pool q) = 0.

Definition pty_inv (es : list pty_event) (pool : list pty) : Prop :=
  pool_ok pool ∧
  ∀ q, chan_valid q → (flow q es).1 = (flow q es).2 ++ ring_bytes (pty_ring_at pool q).

(** ** Reading and writing one ring of the pool *)

Lemma pool_in pool q : pool_ok pool → chan_valid q → 0 <= q.1 < Z.of_nat (length pool).
Proof. intros [-> _] Hq. unfold chan_valid, PTY_MAX in *. lia. Qed.

Lemma ring_at_set pool i p q :
  pool_ok pool → 0 <= i < PTY_MAX → chan_valid q →
  pty_ring_at (pool.[i <- p]) q =
  if decide (q.1 = i) then (match q.2 with ToSlave => p_to_slave p | ToMaster => p_to_master p end)
  else pty_ring_at pool q.
Proof.
  intros Hp Hi Hq. pose proof (pool_in pool (i, ToSlave) Hp Hi). cbn in *.
  unfold pty_ring_at. rewrite arr_get_set by (try lia; apply Hq).
  destruct (decide (q.1 = i)) as [->|]; [by rewrite Z.eqb_refl|].
  by rewrite (proj2 (Z.eqb_neq i q.1)) by done.
Qed.

Lemma ring_at_put pool q r q' :
  pool_ok pool → chan_valid q → chan_valid q' →
  pty_ring_at (pty_ring_put pool q r) q' = if decide (q = q') then r else pty_ring_at pool q'.
Proof.
  intros Hp Hq Hq'. unfold pty_ring_put.
  destruct q as [i d], q' as [i' d'], d, d'; cbn [fst snd]; rewrite ring_at_set by done;
    cbn [fst snd]; repeat case_decide; simplify_eq; try done; exfalso; naive_solver.
Qed.

(** ** The effect of one stretch *)

(** What every stretch does: rings stay well formed, streams stay in order,
    and a ring whose queue is not touched is not touched either. *)
Record stretch_ok (pool : list pty) (g : segment (list pty) pty_chan pty_op pty_event) : Prop := {
  st_len : length (seg_state g) = Z.to_nat PTY_MAX;
  st_ring q : chan_valid q → pty_ring_ok (pty_ring_at (seg_state g) q);
  st_flow q s d : chan_valid q → s = d ++ ring_bytes (pty_ring_at pool q) →
    let f := foldl (flow_step q) (s, d) (seg_events g) in
    f.1 = f.2 ++ ring_bytes (pty_ring_at (seg_state g) q);
  st_frame q : chan_valid q → q ∉ wq_of <$> seg_calls g →
    pty_ring_at (seg_state g) q = pty_ring_at pool q;
  st_block q k : seg_exit g = SegBlock q k → pty_waits (seg_state g) q k ∧ pty_legal k;
}.

(** A stretch that changes no ring; [vs] are the values it returns. *)
Lemma stretch_quiet pool pool' vs cs :
  pool_ok pool → length pool' = Z.to_nat PTY_MAX →
  (∀ q, chan_valid q → pty_ring_at pool' q = pty_ring_at pool q) →
  stretch_ok pool (seg_ret pool' (EvRet <$> vs) cs).
Proof.
  intros Hp Hl Hq. split; cbn [seg_ret seg_state seg_events seg_calls seg_exit]; [done| | |auto|done].
  - intros q Hv. rewrite Hq by done. by apply Hp.
  - intros q s d Hv Hs. rewrite Hq by done.
    assert (foldl (flow_step q) (s, d) (EvRet <$> vs) = (s, d)) as ->; [|done].
    induction vs; by auto.
Qed.

(** A stretch that changes the ring [q] only. *)
Lemma stretch_ring pool q r evs wakes e :
  pool_ok pool → chan_valid q → pty_ring_ok r →
  (∀ q', q' ≠ q → ∀ f, foldl (flow_step q') f evs = f) →
  (∀ s d, s = d ++ ring_bytes (pty_ring_at pool q) →
     let f := foldl (flow_step q) (s, d) evs in f.1 = f.2 ++ ring_bytes r) →
  (wakes = 0%nat → r = pty_ring_at pool q) →
  (∀ q' k, e = SegBlock q' k → q' = q ∧ pty_legal k ∧
     match k with
     | PtyReading q'' _ => q'' = q ∧ r_count r = 0
     | PtyWriting q'' _ _ _ => q'' = q ∧ r_count r = PTY_RING_BYTES
     | _ => False
     end ∧ r_closed r = 0) →
  stretch_ok pool {| seg_state := pty_ring_put pool q r; seg_events := evs;
                     seg_calls := replicate wakes (WqWake q); seg_exit := e |}.
Proof.
  intros Hp Hq Hr Hother Hflow Hwake Hblock.
  split; cbn [seg_state seg_events seg_calls seg_exit].
  - unfold pty_ring_put. destruct q.2; rewrite length_arr_set; apply Hp.
  - intros q' Hq'. rewrite ring_at_put by done. case_decide; [done|by apply Hp].
  - intros q' s d Hq' Hs. rewrite ring_at_put by done.
    case_decide as E; [subst q'; by apply Hflow|]. by rewrite Hother by congruence.
  - intros q' Hq' Hcs. rewrite ring_at_put by done. case_decide as E; [subst q'|done].
    apply Hwake. destruct wakes; [done|]. exfalso. apply Hcs. cbn. left.
  - intros q' k Hk. apply Hblock in Hk as (-> & Hl & Hw & Hcl). split; [|done].
    unfold pty_waits. rewrite ring_at_put by done. by rewrite decide_True by done.
Qed.

Lemma run_read_ok pool q count :
  pool_ok pool → chan_valid q → is_u32 count → stretch_ok pool (run_read pool q count).
Proof.
  intros Hp Hq Hc. pose proof (pool_rings _ Hp q Hq) as Hr. unfold run_read, pty_ring_read.
  destruct (Z.eqb_spec count 0) as [->|].
  { apply stretch_ring; try done; cbn; try (intros; by case_decide).
    intros s d ->. rewrite decide_True by done. cbn. by rewrite app_nil_r. }
  destruct (Z.eqb_spec (r_count (pty_ring_at pool q)) 0) as [E|].
  - destruct (Z.eqb_spec (r_closed (pty_ring_at pool q)) 0) as [Ec|]; cbn [negb].
    + apply stretch_ring; try done; cbn. intros q' k [= <- <-]. done.
    + apply stretch_ring; try done; cbn; try (intros; by case_decide).
      intros s d ->. rewrite decide_True by done. cbn. by rewrite app_nil_r.
  - destruct (ring_drain _ count 0 _) as [r bs] eqn:Ed.
    apply ring_drain_spec in Ed as (Hr' & Hcl & Hb & _); [|done|done|zsolve|lia].
    apply stretch_ring; try done; cbn; try (intros; by case_decide).
    intros s d ->. rewrite decide_True by done. cbn. by rewrite <-app_assoc, Hb.
Qed.

Lemma run_write_ok pool q buf count copied :
  pool_ok pool → chan_valid q → is_u32 count → 0 <= copied <= count →
  stretch_ok pool (run_write pool q buf count copied).
Proof.
  intros Hp Hq Hc Hcop. pose proof (pool_rings _ Hp q Hq) as Hr. unfold run_write.
  destruct (pty_ring_write_spec (write_fuel count copied) _ buf count copied 0 Hr Hc Hcop)
    as (r & w & e & -> & Hr' & Hd & Hcl & Hb & _ & Hsame & He); [unfold write_fuel; lia|].
  apply stretch_ring; try done.
  - intros q' Hne f. destruct e; cbn; by rewrite decide_False by congruence.
  - intros s d ->. destruct e; cbn; rewrite decide_True by done; cbn;
      by rewrite <-app_assoc, Hb.
  - destruct e as [c|c]; [done|]. intros q' k [= <- <-]. cbn in *. naive_solver lia.
Qed.

(** ** The other calls *)

Lemma alloc_slot pool :
  match for_exit 0 (Z.to_nat PTY_MAX)
          (λ i _, if negb (p_in_use pool.[i] =? 0) then inr tt else inl i) tt with
  | inl i => 0 <= i < PTY_MAX ∧ p_in_use pool.[i] = 0
  | inr _ => True
  end.
Proof.
  apply (for_exit_inv (λ _ _, True) (λ i, 0 <= i < PTY_MAX ∧ p_in_use pool.[i] = 0)); [|done].
  intros k [] Hk _. destruct (Z.eqb_spec (p_in_use pool.[k]) 0); cbn [negb]; [|done].
  split; [unfold PTY_MAX in *; lia|done].
Qed.

Lemma pty_reset_ok r : pty_ring_ok r → pty_ring_ok (pty_ring_reset r).
Proof. intros Hr. apply ring_ok_empty; [apply (ring_len _ _ _ _ _ Hr)|by vm_compute]. Qed.

Lemma alloc_master_ok pool : pool_ok pool → stretch_ok pool (pty_run pool PtyAllocMaster).
Proof.
  intros Hp. cbn [pty_run]. unfold pty_alloc_master. pose proof (alloc_slot pool) as Hs.
  destruct (for_exit _ _ _ _) as [i|[]].
  2:{ apply (stretch_quiet pool pool []); [done|apply Hp|done]. }
  destruct Hs as [Hi Hfree]. rewrite (proj2 (Z.eqb_neq i (-1))) by (unfold PTY_MAX in *; lia).
  split; cbn [seg_ret seg_state seg_events seg_calls seg_exit]; [rewrite length_arr_set; apply Hp| | | |done].
  - intros q Hq. rewrite ring_at_set by done. case_decide; [|by apply Hp].
    pose proof (pool_rings _ Hp q Hq) as Hr. destruct q as [j []]; cbn in *; subst;
      by apply pty_reset_ok.
  - intros q s d Hq ->. rewrite ring_at_set by done. destruct q as [j dir]. cbn [foldl flow_step fst snd].
    destruct dir; cbn [fst snd]; repeat case_decide; simplify_eq; cbn [fst snd]; try done;
      exfalso; naive_solver.
  - intros q Hq Hn. rewrite ring_at_set by done. case_decide; [|done]. exfalso. apply Hn.
    destruct q as [j []]; cbn in *; subst; set_solver.
Qed.

(** Updating a pair without touching its rings. *)
Lemma stretch_counts pool idx p :
  pool_ok pool → 0 <= idx < PTY_MAX →
  p_to_slave p = p_to_slave pool.[idx] → p_to_master p = p_to_master pool.[idx] →
  stretch_ok pool (seg_ret (pool.[idx <- p]) [] []).
Proof.
  intros Hp Hi Hs Hm. apply (stretch_quiet pool _ []); [done|rewrite length_arr_set; apply Hp|].
  intros q Hq. rewrite ring_at_set by done. case_decide as E; [|done].
  unfold pty_ring_at. rewrite E. by destruct q.2.
Qed.

Lemma open_slave_ok pool idx :
  pool_ok pool → is_u32 idx → stretch_ok pool (pty_run pool (PtyOpenSlave idx)).
Proof.
  intros Hp Hi. cbn [pty_run]. unfold pty_open_slave.
  destruct (Z.leb_spec PTY_MAX idx); [by apply (stretch_quiet pool pool []); [|apply Hp|]|].
  destruct (_ || _); cbn [snd]; [by apply (stretch_quiet pool pool []); [|apply Hp|]|].
  apply stretch_counts; try done. zsolve.
Qed.

Lemma get_master_ok pool idx :
  pool_ok pool → is_u32 idx → stretch_ok pool (pty_run pool (PtyGetMaster idx)).
Proof.
  intros Hp Hi. cbn [pty_run]. unfold pty_get_master.
  destruct (Z.leb_spec PTY_MAX idx); [by apply (stretch_quiet pool pool []); [|apply Hp|]|].
  destruct (_ && _); [|by apply (stretch_quiet pool pool []); [|apply Hp|]].
  apply stretch_counts; try done. zsolve.
Qed.

Lemma get_slave_ok pool idx :
  pool_ok pool → is_u32 idx → stretch_ok pool (pty_run pool (PtyGetSlave idx)).
Proof.
  intros Hp Hi. cbn [pty_run]. unfold pty_get_slave.
  destruct (Z.leb_spec PTY_MAX idx); [by apply (stretch_quiet pool pool []); [|apply Hp|]|].
  destruct (_ && _); [|by apply (stretch_quiet pool pool []); [|apply Hp|]].
  apply stretch_counts; try done. zsolve.
Qed.

(** Releasing an end leaves the bytes in the rings, and wakes both queues if it
    closes the rings. *)
Definition release_keeps (rel : pty → pty * bool) : Prop :=
  ∀ p, let '(p', woke) := rel p in
    p_to_slave p' = (if woke then close_ring (p_to_slave p) else p_to_slave p) ∧
    p_to_master p' = (if woke then close_ring (p_to_master p) else p_to_master p).

Lemma release_master_keeps : release_keeps release_master.
Proof. intros p. unfold release_master. by repeat destruct (_ =? _); cbn. Qed.
Lemma release_slave_keeps : release_keeps release_slave.
Proof. intros p. unfold release_slave. by repeat destruct (_ =? _); cbn. Qed.

Lemma release_ok rel pool idx :
  release_keeps rel → pool_ok pool → is_u32 idx →
  stretch_ok pool (let '(pool', cs) := pty_release rel pool idx in seg_ret pool' [] cs).
Proof.
  intros Hrel Hp Hi. unfold pty_release.
  destruct (Z.leb_spec PTY_MAX idx); [by apply (stretch_quiet pool pool []); [|apply Hp|]|].
  destruct (_ =? 0); [by apply (stretch_quiet pool pool []); [|apply Hp|]|].
  pose proof (Hrel pool.[idx]) as Hk. destruct (rel pool.[idx]) as [p []], Hk as [Hs Hm].
  2:{ apply stretch_counts; try done. zsolve. }
  assert (0 <= idx < PTY_MAX) by zsolve.
  split; cbn [seg_ret seg_state seg_events seg_calls seg_exit]; [rewrite length_arr_set; apply Hp| | | |done].
  - intros q Hq. rewrite ring_at_set by done. case_decide as E; [|by apply Hp].
    pose proof (pool_rings _ Hp q Hq) as Hr. unfold pty_ring_at in Hr. rewrite E in Hr.
    destruct q.2; rewrite ?Hs, ?Hm; exact Hr.
  - intros q s d Hq ->. rewrite ring_at_set by done. cbn. case_decide as E; [|done].
    unfold pty_ring_at. rewrite E. destruct q.2; rewrite ?Hs, ?Hm; done.
  - intros q Hq Hn. rewrite ring_at_set by done. case_decide; [|done]. exfalso. apply Hn.
    destruct q as [j []]; cbn in *; subst; set_solver.
Qed.

Lemma pty_dead_false pool idx :
  pty_dead pool idx = false → is_u32 idx → 0 <= idx < PTY_MAX ∧ p_in_use pool.[idx] ≠ 0.
Proof. unfold pty_dead. intros H Hi. bprop. split; [zsolve|done]. Qed.

Lemma stretch_dead pool :
  pool_ok pool → stretch_ok pool (seg_ret pool [EvRet (-1)] []).
Proof. intros Hp. apply (stretch_quiet pool pool [-1]); [done|apply Hp|done]. Qed.

Lemma pty_run_ok pool op : pool_ok pool → pty_legal op → stretch_ok pool (pty_run pool op).
Proof.
  intros Hp Hl. destruct op; cbn [pty_legal] in Hl.
  - by apply alloc_master_ok.
  - by apply open_slave_ok.
  - by apply get_master_ok.
  - by apply get_slave_ok.
  - apply (release_ok release_master); [apply release_master_keeps|done|done].
  - apply (release_ok release_slave); [apply release_slave_keeps|done|done].
  - cbn. unfold pty_master_read. destruct (pty_dead pool idx) eqn:E; [by apply stretch_dead|].
    apply run_read_ok; [done|apply (pty_dead_false pool idx E), Hl|apply Hl].
  - cbn. unfold pty_slave_read. destruct (pty_dead pool idx) eqn:E; [by apply stretch_dead|].
    apply run_read_ok; [done|apply (pty_dead_false pool idx E), Hl|apply Hl].
  - cbn. unfold pty_master_write. destruct (pty_dead pool idx) eqn:E; [by apply stretch_dead|].
    apply run_write_ok; [done|apply (pty_dead_false pool idx E), Hl|apply Hl|destruct Hl; zsolve].
  - cbn. unfold pty_slave_write. destruct (pty_dead pool idx) eqn:E; [by apply stretch_dead|].
    apply run_write_ok; [done|apply (pty_dead_false pool idx E), Hl|apply Hl|destruct Hl; zsolve].
  - apply run_read_ok; [done|apply Hl..].
  - apply run_write_ok; [done|apply Hl..].
Qed.

Lemma pty_boot_ok : pty_inv [] pty_pool_boot.
Proof.
  split; [split|].
  - done.
  - intros [i d] Hi. unfold chan_valid, PTY_MAX in Hi. cbn in Hi.
    unfold pty_ring_at, pty_pool_boot. cbn [fst snd].
    rewrite arr_get_replicate by (unfold PTY_MAX; lia).
    destruct d; (apply ring_ok_empty; by vm_compute).
  - intros [i d] Hi. unfold chan_valid, PTY_MAX in Hi. cbn in Hi.
    unfold pty_ring_at, pty_pool_boot. cbn [fst snd].
    rewrite arr_get_replicate by (unfold PTY_MAX; lia). by destruct d.
Qed.

Notation pty_steps := (sys_steps pty_run pty_legal).

(** Every state the callers can bring the pool to. *)
Lemma pty_reachable es σ :
  pty_steps (sys_idle pty_pool_boot) es σ →
  sys_good pty_legal pty_inv pty_waits es σ.
Proof.
  apply sys_steps_good; [|apply pty_boot_ok].
  intros es' pool op [Hp Hflow] Hl. pose proof (pty_run_ok pool op Hp Hl) as [Hlen Hring Hfl Hfr Hbl].
  split; [split|split].
  - by split.
  - intros q Hq. unfold flow. rewrite foldl_app.
    specialize (Hfl q (flow q es').1 (flow q es').2 Hq (Hflow q Hq)).
    by rewrite <-surjective_pairing in Hfl.
  - intros q k Hn (Hq & Hk & Hcl). unfold pty_waits. by rewrite Hfr.
  - intros q k Hk. by apply Hbl.
Qed.

(** C28: Each direction of each pseudo-terminal pair is a first-in first-out
    byte stream.  Whatever readers, writers, openers and closers do, and
    however they interleave at the points where they block, the bytes accepted
    from the writers of a ring since the pair was allocated are exactly the
    bytes delivered to its readers followed by the bytes in the ring: none is
    lost, duplicated, reordered or delivered on the other direction. *)
Theorem pty_streams_fifo es σ q :
  pty_steps (sys_idle pty_pool_boot) es σ → chan_valid q →
  (flow q es).1 = (flow q es).2 ++ ring_bytes (pty_ring_at (sy_state σ) q).
Proof. intros Hs Hq. by apply (good_state _ _ _ _ _ (pty_reachable es σ Hs)). Qed.

(** C34: No wake-up is lost on a pseudo-terminal.  A call asleep on a ring's
    queue is a reader of an empty open ring or a writer of a full open ring;
    so a reader and a writer never sleep on the same ring, and once a ring is
    closed nobody sleeps on it.  Not covered is a call whose pair was freed and
    allocated again while it slept: its queue was initialised under it, it is on
    no queue any more, and nobody wakes it ([pty_reader_stranded] below). *)
Theorem pty_no_lost_wakeup es σ t q op :
  pty_steps (sys_idle pty_pool_boot) es σ →
  sy_wait σ !! t = Some (q, op) →
  let r := pty_ring_at (sy_state σ) q in
  r_closed r = 0 ∧
  ((∃ count, op = PtyReading q count ∧ r_count r = 0) ∨
   (∃ buf count copied, op = PtyWriting q buf count copied ∧ r_count r = PTY_RING_BYTES)).
Proof.
  intros Hs Ht. destruct (good_wait _ _ _ _ _ (pty_reachable es σ Hs) _ _ _ Ht) as [(Hq & Hk & Hc) _].
  split; [done|]. destruct op; try done; destruct Hk as [-> Hk]; [left|right]; eauto.
Qed.

(** ** Witnesses: a session *)

Definition pty_do (t : nat) (op : pty_op) (σ : sys (list pty) pty_chan pty_op) :=
  sys_exec t (pty_run (sy_state σ) op) (sys_start t op σ).

(** Starting an operation and running its first stretch. *)
Lemma pty_do_steps es σ t op :
  pty_steps (sys_idle pty_pool_boot) es σ →
  sy_run σ !! t = None → sy_wait σ !! t = None → sy_lost σ !! t = None → pty_legal op →
  pty_steps (sys_idle pty_pool_boot)
    (es ++ seg_events (pty_run (sy_state σ) op)) (pty_do t op σ).
Proof.
  intros Hs H1 H2 H3 Hl. rewrite <-(app_nil_r es).
  eapply steps_trans; [eapply steps_trans; [exact Hs|by apply step_call]|].
  exact (step_exec pty_run pty_legal (sys_start t op σ) t op (lookup_insert_eq _ _ _)).
Qed.

Definition pty_idle := sys_idle (Q := pty_chan) (Op := pty_op) pty_pool_boot.
Definition pty_s1 := pty_do 0 PtyAllocMaster pty_idle.
Definition pty_s2 := pty_do 1 (PtySlaveRead 0 8) pty_s1.
Definition pty_s3 := pty_do 2 (PtyMasterWrite 0 [104; 105] 2) pty_s2.

Definition pty_session_events : list pty_event :=
  [EvFresh (0, ToSlave); EvFresh (0, ToMaster); EvPut (0, ToSlave) [104; 105]; EvRet 2].

Ltac pty_quick := vm_compute; first [reflexivity | exact I | repeat split; discriminate].

Lemma pty_s2_steps :
  pty_steps pty_idle [EvFresh (0, ToSlave); EvFresh (0, ToMaster)] pty_s2.
Proof.
  apply (pty_do_steps [EvFresh (0, ToSlave); EvFresh (0, ToMaster)] pty_s1 1 (PtySlaveRead 0 8));
    [|pty_quick..].
  apply (pty_do_steps [] pty_idle 0 PtyAllocMaster); [apply steps_refl|pty_quick..].
Qed.

Lemma pty_s3_steps : pty_steps pty_idle pty_session_events pty_s3.
Proof.
  apply (pty_do_steps [EvFresh (0, ToSlave); EvFresh (0, ToMaster)] pty_s2 2
           (PtyMasterWrite 0 [104; 105] 2)); [apply pty_s2_steps|pty_quick..].
Qed.

Lemma pty_streams_fifo_witness :
  (flow (0, ToSlave) pty_session_events).1 =
  (flow (0, ToSlave) pty_session_events).2 ++ ring_bytes (pty_ring_at (sy_state pty_s3) (0, ToSlave)).
Proof.
  apply (pty_streams_fifo pty_session_events pty_s3 (0, ToSlave)).
  - apply pty_s3_steps.
  - unfold chan_valid, PTY_MAX. simpl. lia.
Defined.

Lemma pty_no_lost_wakeup_witness :
  let r := pty_ring_at (sy_state pty_s2) (0, ToSlave) in
  r_closed r = 0 ∧
  ((∃ count, PtyReading (0, ToSlave) 8 = PtyReading (0, ToSlave) count ∧ r_count r = 0) ∨
   (∃ buf count copied, PtyReading (0, ToSlave) 8 = PtyWriting (0, ToSlave) buf count copied ∧
      r_count r = PTY_RING_BYTES)).
Proof.
  apply (pty_no_lost_wakeup [EvFresh (0, ToSlave); EvFresh (0, ToMaster)] pty_s2 1 (0, ToSlave)
           (PtyReading (0, ToSlave) 8)).
  - apply pty_s2_steps.
  - vm_compute. reflexivity.
Defined.

(** ** Releasing one of several masters *)

(** [pty_release_master] frees a pair that still has an open master.  With
    two master descriptors (after [fork] or [dup]) and no slave yet, closing one
    of them clears [in_use] although [master_open] is still positive and the
    rings are not closed; every read and write of the remaining master then
    fails with -1. *)
Theorem pty_release_frees_open_pair pool idx :
  pool_ok pool → 0 <= idx < PTY_MAX → p_in_use pool.[idx] ≠ 0 →
  1 < p_master_open pool.[idx] < 2 ^ 32 → p_slave_open pool.[idx] = 0 →
  let pool' := (pty_release_master pool idx).1 in
  p_in_use pool'.[idx] = 0 ∧ p_master_open pool'.[idx] = p_master_open pool.[idx] - 1 ∧
  (pty_release_master pool idx).2 = [] ∧
  (∀ q, chan_valid q → pty_ring_at pool' q = pty_ring_at pool q) ∧
  (∀ count, pty_master_read pool' idx count = seg_ret pool' [EvRet (-1)] []) ∧
  (∀ buf count, pty_master_write pool' idx buf count = seg_ret pool' [EvRet (-1)] []).
Proof.
  intros Hp Hi Hu Hm Hs. cbn zeta.
  pose proof (pool_in pool (idx, ToSlave) Hp Hi) as Hin. cbn in Hin.
  assert (pty_release_master pool idx =
    (pool.[idx <- set_in_use 0 (set_master_open (p_master_open pool.[idx] - 1) pool.[idx])], []))
    as ->.
  { unfold pty_release_master, pty_release, release_master, dec_open.
    rewrite (proj2 (Z.leb_gt PTY_MAX idx)), (proj2 (Z.eqb_neq (p_in_use _) 0)) by (done || lia).
    rewrite (proj2 (Z.ltb_lt 0 _)), u32_small by zsolve. cbn.
    rewrite (proj2 (Z.eqb_neq (p_master_open _ - 1) 0)) by lia. cbn. by rewrite Hs. }
  cbn [fst snd]. rewrite arr_get_set_eq by lia.
  assert (pty_dead (pool.[idx <- set_in_use 0 (set_master_open (p_master_open pool.[idx] - 1) pool.[idx])]) idx
            = true) as Hd.
  { unfold pty_dead. rewrite arr_get_set_eq by lia. cbn. by rewrite orb_true_r. }
  split_and!; try done.
  - intros q Hq. rewrite ring_at_set by done. case_decide as E; [|done].
    unfold pty_ring_at. rewrite E. by destruct q.2.
  - intros count. unfold pty_master_read. by rewrite Hd.
  - intros buf count. unfold pty_master_write. by rewrite Hd.
Qed.

Definition pty_dup := pty_do 1 (PtyGetMaster 0) pty_s1.

Lemma pty_dup_ok : pool_ok (sy_state pty_dup).
Proof.
  eapply (λ H, proj1 (good_state _ _ _ _ _ (pty_reachable _ _ H))).
  apply (pty_do_steps [EvFresh (0, ToSlave); EvFresh (0, ToMaster)] pty_s1 1 (PtyGetMaster 0));
    [|pty_quick..].
  apply (pty_do_steps [] pty_idle 0 PtyAllocMaster); [apply steps_refl|pty_quick..].
Qed.

Lemma pty_release_frees_open_pair_witness :
  let pool' := (pty_release_master (sy_state pty_dup) 0).1 in
  p_in_use pool'.[0] = 0 ∧ p_master_open pool'.[0] = p_master_open (sy_state pty_dup).[0] - 1 ∧
  (pty_release_master (sy_state pty_dup) 0).2 = [] ∧
  (∀ q, chan_valid q → pty_ring_at pool' q = pty_ring_at (sy_state pty_dup) q) ∧
  (∀ count, pty_master_read pool' 0 count = seg_ret pool' [EvRet (-1)] []) ∧
  (∀ buf count, pty_master_write pool' 0 buf count = seg_ret pool' [EvRet (-1)] []).
Proof.
  apply (pty_release_frees_open_pair (sy_state pty_dup) 0).
  - exact pty_dup_ok.
  - unfold PTY_MAX. lia.
  - vm_compute. discriminate.
  - vm_compute. split; reflexivity.
  - vm_compute. reflexivity.
Defined.

(** The consequence for a reader of the remaining master: the slot is handed
    out again and the queue he sleeps on is re-initialised; no close and no
    write of the new pair wakes him. *)
Definition pty_strand1 := pty_do 2 (PtyMasterRead 0 16) pty_dup.
Definition pty_strand2 := pty_do 3 (PtyReleaseMaster 0) pty_strand1.
Definition pty_strand3 := pty_do 4 PtyAllocMaster pty_strand2.

Example pty_reader_stranded :
  sy_wait pty_strand2 !! 2%nat = Some ((0, ToMaster), PtyReading (0, ToMaster) 16) ∧
  sy_wait pty_strand3 !! 2%nat = None ∧ sy_run pty_strand3 !! 2%nat = None ∧
  sy_lost pty_strand3 !! 2%nat = Some (PtyReading (0, ToMaster) 16).
Proof. vm_compute. split_and!; reflexivity. Qed.
