(* ===== verification/Pipe.v ===== *)
(** * Pipes ([kernel/proc/pipe.c], pipe branches of [kernel/proc/syscall/fd.c])

    The table of pipe buffers and the two blocking system-call branches that
    read and write them, given by their stretches of execution ([Blocking]).
    The wait queue of a pipe is named by its index.

    User memory is seen through [UserMemory]: the validated copies of
    [kernel/proc/uaccess.c]. *)

From S2P Require Import Prelude Ring Blocking.

Definition PIPE_BUF_SIZE : Z := 4096.
Definition MAX_PIPES : Z := 8.
Definition USER_IO_CHUNK : Z := 512.
Definition LINUX_EAGAIN : Z := 11.

(** [(uint32_t)-n] *)
Definition neg32 (n : Z) : Z := u32 (- n).

(** The memory of a calling process.  [um_byte] is the byte at a user address;
    [copy_from_user] returns the bytes it copied. *)
Class UserMemory (U : Type) := {
  um_byte : U → Z → Z;
  um_prepare : U → Z → Z → bool;
  copy_from_user : U → Z → Z → option (list Z);
  copy_to_user : U → Z → list Z → bool;
}.

(** A copy stays inside the 32-bit address space and is exact; once a range
    was prepared for writing, copies into it succeed. *)
Class UserMemoryLaws (U : Type) `{UserMemory U} := {
  copy_from_user_ok u a n bs :
    is_u32 a → 0 < n → copy_from_user u a n = Some bs →
    a + n <= 2 ^ 32 ∧ bs = (λ k, um_byte u (a + Z.of_nat k)) <$> seq 0 (Z.to_nat n);
  copy_to_user_ok u a n off bs :
    um_prepare u a n = true → 0 <= off → off + Z.of_nat (length bs) <= n →
    copy_to_user u (a +u off) bs = true;
}.

Record pipe_buf := {
  pb_buf : list Z;
  pb_read_idx : Z;
  pb_write_idx : Z;
  pb_count : Z;
  pb_read_open : Z;
  pb_write_open : Z;
  pb_in_use : Z;
}.

#[global] Instance pipe_buf_inhabited : Inhabited pipe_buf :=
  populate {| pb_buf := replicate (Z.to_nat PIPE_BUF_SIZE) 0; pb_read_idx := 0;
              pb_write_idx := 0; pb_count := 0; pb_read_open := 0; pb_write_open := 0;
              pb_in_use := 0 |}.

Definition pipe_table_boot : list pipe_buf := replicate (Z.to_nat MAX_PIPES) inhabitant.

(** ** The table *)

Definition pipe_fresh (p : pipe_buf) : pipe_buf :=
  {| pb_buf := pb_buf p; pb_read_idx := 0; pb_write_idx := 0; pb_count := 0;
     pb_read_open := 1; pb_write_open := 1; pb_in_use := 1 |}.

Definition pipe_alloc (tbl : list pipe_buf) : Z * list pipe_buf :=
  match for_exit 0 (Z.to_nat MAX_PIPES)
          (λ i _, if pb_in_use tbl.[i] =? 0 then inl i else inr tt) tt with
  | inl i => (i, tbl.[i <- pipe_fresh tbl.[i]])
  | inr _ => (-1, tbl)
  end.

Definition set_pb_in_use (v : Z) (p : pipe_buf) : pipe_buf :=
  {| pb_buf := pb_buf p; pb_read_idx := pb_read_idx p; pb_write_idx := pb_write_idx p;
     pb_count := pb_count p; pb_read_open := pb_read_open p; pb_write_open := pb_write_open p;
     pb_in_use := v |}.
Definition set_opens (r w : Z) (p : pipe_buf) : pipe_buf :=
  {| pb_buf := pb_buf p; pb_read_idx := pb_read_idx p; pb_write_idx := pb_write_idx p;
     pb_count := pb_count p; pb_read_open := r; pb_write_open := w; pb_in_use := pb_in_use p |}.

Definition pipe_free (tbl : list pipe_buf) (idx : Z) : list pipe_buf :=
  if (0 <=? idx) && (idx <? MAX_PIPES) then tbl.[idx <- set_pb_in_use 0 tbl.[idx]] else tbl.

(** [pipe_get]: the slot, if it is one and in use. *)
Definition pipe_get (tbl : list pipe_buf) (idx : Z) : option Z :=
  if (idx <? 0) || (MAX_PIPES <=? idx) then None
  else if pb_in_use tbl.[idx] =? 0 then None
  else Some idx.

(** Taking and dropping a reference to an end ([proc_fd_table_bump_open_refs],
    [fd_close_one]). *)
Definition pipe_bump (read_end : bool) (tbl : list pipe_buf) (idx : Z) : list pipe_buf :=
  match pipe_get tbl idx with
  | None => tbl
  | Some i =>
      let p := tbl.[i] in
      tbl.[i <- if read_end then set_opens (pb_read_open p +u 1) (pb_write_open p) p
                else set_opens (pb_read_open p) (pb_write_open p +u 1) p]
  end.

Definition drop_open (n : Z) : Z := if 0 <? n then n -u 1 else n.

Definition close_end (read_end : bool) (p : pipe_buf) : pipe_buf :=
  let p := if read_end then set_opens (drop_open (pb_read_open p)) (pb_write_open p) p
           else set_opens (pb_read_open p) (drop_open (pb_write_open p)) p in
  if (pb_read_open p =? 0) && (pb_write_open p =? 0) then set_pb_in_use 0 p else p.

(** The closing branches; the queue is woken when the slot is a pipe. *)
Definition pipe_close (read_end : bool) (tbl : list pipe_buf) (idx : Z) :
    list pipe_buf * list (wq_call Z) :=
  match pipe_get tbl idx with
  | None => (tbl, [])
  | Some i => (tbl.[i <- close_end read_end tbl.[i]], [WqWake i])
  end.

(** ** Writing *)

Definition pipe_put (p : pipe_buf) (b : Z) : pipe_buf :=
  {| pb_buf := (pb_buf p).[pb_write_idx p <- b]; pb_read_idx := pb_read_idx p;
     pb_write_idx := ring_next PIPE_BUF_SIZE (pb_write_idx p); pb_count := pb_count p +u 1;
     pb_read_open := pb_read_open p; pb_write_open := pb_write_open p; pb_in_use := pb_in_use p |}.

(** [copied ? copied : e] *)
Definition copied_or (copied e : Z) : Z := if copied =? 0 then e else copied.

(** One evaluation of the [while (pb->count == PIPE_BUF_SIZE)] loop. *)
Inductive room := Room | RoomRet (v : Z) | RoomBlock.

Definition pipe_room (p : pipe_buf) (nonblock sig : bool) (copied : Z) : room :=
  if pb_count p =? PIPE_BUF_SIZE then
    if nonblock then RoomRet (copied_or copied (neg32 LINUX_EAGAIN))
    else if (pb_read_open p =? 0) || sig then RoomRet (copied_or copied (neg32 1))
    else RoomBlock
  else Room.

Inductive chunk_end := ChunkDone | ChunkRet (v : Z) | ChunkBlock (i : Z).

(** [for (i; i < chunk; i++)] over the bytes of one chunk. *)
Fixpoint write_chunk (n : nat) (p : pipe_buf) (nonblock sig : bool) (kbuf : list Z)
    (chunk i copied : Z) : pipe_buf * Z * chunk_end :=
  match n with
  | O => (p, copied, ChunkDone)
  | S n =>
      if i <? chunk then
        match pipe_room p nonblock sig copied with
        | Room => write_chunk n (pipe_put p kbuf.[i]) nonblock sig kbuf chunk (i +u 1) (copied +u 1)
        | RoomRet v => (p, copied, ChunkRet v)
        | RoomBlock => (p, copied, ChunkBlock i)
        end
      else (p, copied, ChunkDone)
  end.

(** The arguments of a [write] on a pipe. *)
Record wcall {U : Type} := {
  w_pid : nat;
  w_user : U;
  w_idx : Z;
  w_addr : Z;
  w_count : Z;
  w_nonblock : bool;
}.
Arguments wcall : clear implicits.

(** How a stretch ends: with a return value (after waking the queue or not), or
    blocked at byte [i] of a chunk already copied in. *)
Inductive pw_end :=
  | PwRet (v : Z) (woke : bool)
  | PwBlock (kbuf : list Z) (chunk i : Z).

Definition io_chunk (left : Z) : Z := if USER_IO_CHUNK <? left then USER_IO_CHUNK else left.

Section syscalls.
Context {U : Type} `{UserMemory U}.

(** The outer [while (copied < count)].  The test for room before the [for]
    loop is evaluated as in the source; a call that blocks there resumes at
    byte 0 of the chunk, where the same test comes again. *)
Fixpoint write_loop (n : nat) (p : pipe_buf) (sig : bool) (c : wcall U) (copied : Z) :
    option (pipe_buf * Z * pw_end) :=
  match n with
  | O => None
  | S n =>
      if negb (copied <? w_count c) then Some (p, copied, PwRet copied true)
      else
        let chunk := io_chunk (w_count c -u copied) in
        match copy_from_user (w_user c) (w_addr c +u copied) chunk with
        | None => Some (p, copied, PwRet (copied_or copied (neg32 1)) false)
        | Some kbuf =>
            match pipe_room p (w_nonblock c) sig copied with
            | RoomRet v => Some (p, copied, PwRet v false)
            | RoomBlock => Some (p, copied, PwBlock kbuf chunk 0)
            | Room => write_rest n p sig c copied kbuf chunk 0
            end
        end
  end
with write_rest (n : nat) (p : pipe_buf) (sig : bool) (c : wcall U) (copied : Z)
    (kbuf : list Z) (chunk i : Z) : option (pipe_buf * Z * pw_end) :=
  match n with
  | O => None
  | S n =>
      match write_chunk (S (Z.to_nat (chunk - i))) p (w_nonblock c) sig kbuf chunk i copied with
      | (p', copied', ChunkDone) => write_loop n p' sig c copied'
      | (p', copied', ChunkRet v) => Some (p', copied', PwRet v false)
      | (p', copied', ChunkBlock i') => Some (p', copied', PwBlock kbuf chunk i')
      end
  end.

Definition pipe_fuel (c : wcall U) (copied : Z) : nat := 3 + 2 * Z.to_nat (w_count c - copied).

(** ** Reading *)

Record rcall := {
  rd_pid : nat;
  rd_user : U;
  rd_idx : Z;
  rd_addr : Z;
  rd_count : Z;
  rd_nonblock : bool;
}.

(** [for (i < chunk) { kbuf[i] = buf[read_idx]; read_idx = ... }] *)
Fixpoint read_chunk (n : nat) (p : pipe_buf) : pipe_buf * list Z :=
  match n with
  | O => (p, [])
  | S n =>
      let b := (pb_buf p).[pb_read_idx p] in
      let p' := {| pb_buf := pb_buf p; pb_read_idx := ring_next PIPE_BUF_SIZE (pb_read_idx p);
                   pb_write_idx := pb_write_idx p; pb_count := pb_count p;
                   pb_read_open := pb_read_open p; pb_write_open := pb_write_open p;
                   pb_in_use := pb_in_use p |} in
      let '(p'', bs) := read_chunk n p' in (p'', b :: bs)
  end.

Definition set_pb_count (v : Z) (p : pipe_buf) : pipe_buf :=
  {| pb_buf := pb_buf p; pb_read_idx := pb_read_idx p; pb_write_idx := pb_write_idx p;
     pb_count := v; pb_read_open := pb_read_open p; pb_write_open := pb_write_open p;
     pb_in_use := pb_in_use p |}.

(** [while (copied < to_read)]: [out] is what the caller's buffer received. *)
Fixpoint read_loop (n : nat) (p : pipe_buf) (c : rcall) (to_read copied : Z) (out : list Z) :
    option (pipe_buf * Z * bool * list Z) :=
  match n with
  | O => None
  | S n =>
      if copied <? to_read then
        let chunk := io_chunk (to_read -u copied) in
        let '(p', kbuf) := read_chunk (Z.to_nat chunk) p in
        if copy_to_user (rd_user c) (rd_addr c +u copied) kbuf
        then read_loop n p' c to_read (copied +u chunk) (out ++ kbuf)
        else Some (p', copied_or copied (neg32 1), false, out)
      else Some (set_pb_count (pb_count p -u to_read) p, to_read, true, out)
  end.

Definition pipe_read_data (p : pipe_buf) (c : rcall) : option (pipe_buf * Z * bool * list Z) :=
  let to_read := if rd_count c <? pb_count p then rd_count c else pb_count p in
  if negb (um_prepare (rd_user c) (rd_addr c) to_read) then Some (p, neg32 1, false, [])
  else read_loop (S (Z.to_nat to_read)) p c to_read 0 [].

(** ** Calls in progress *)

Record pipes := {
  pp_table : list pipe_buf;
  (** processes with an unblocked pending signal *)
  pp_sig : gset nat;
}.

Inductive pipe_op :=
  | PipeAlloc
  | PipeBump (read_end : bool) (idx : Z)
  | PipeClose (read_end : bool) (idx : Z)
  | PipeSignal (pid : nat)
  | PipeSignalDone (pid : nat)
  | PipeRead (c : rcall)
  | PipeWrite (c : wcall U)
  (** inside [sched_block]; the slot is not looked up again *)
  | PipeReading (c : rcall)
  | PipeWriting (c : wcall U) (copied : Z) (kbuf : list Z) (chunk i : Z).

Inductive pipe_event :=
  | PePut (idx : Z) (bytes : list Z)
  | PeGot (idx : Z) (bytes : list Z)
  | PeFresh (idx : Z)
  | PeRet (v : Z).

Notation pipe_segment := (segment pipes Z pipe_op pipe_event).

Definition pseg (tbl : list pipe_buf) (s : pipes) (evs : list pipe_event) (cs : list (wq_call Z))
    (e : seg_end Z pipe_op) : pipe_segment :=
  {| seg_state := {| pp_table := tbl; pp_sig := pp_sig s |};
     seg_events := evs; seg_calls := cs; seg_exit := e |}.

(** The user's bytes [addr + from .. addr + to). *)
Definition user_slice (u : U) (addr from to : Z) : list Z :=
  (λ k, um_byte u (addr +u (from + Z.of_nat k))) <$> seq 0 (Z.to_nat (to - from)).

Definition run_pipe_write (s : pipes) (c : wcall U) (copied : Z)
    (res : option (pipe_buf * Z * pw_end)) : pipe_segment :=
  match res with
  | None => pseg (pp_table s) s [] [] SegRet
  | Some (p, copied', e) =>
      pseg ((pp_table s).[w_idx c <- p]) s
        (PePut (w_idx c) (user_slice (w_user c) (w_addr c) copied copied') ::
         match e with PwRet v _ => [PeRet v] | PwBlock _ _ _ => [] end)
        (match e with PwRet _ true => [WqWake (w_idx c)] | _ => [] end)
        (match e with
         | PwRet _ _ => SegRet
         | PwBlock kbuf chunk i => SegBlock (w_idx c) (PipeWriting c copied' kbuf chunk i)
         end)
  end.

Definition sig_pending (s : pipes) (pid : nat) : bool := bool_decide (pid ∈ pp_sig s).

Definition pipe_write (s : pipes) (c : wcall U) : pipe_segment :=
  match pipe_get (pp_table s) (w_idx c) with
  | None => pseg (pp_table s) s [PeRet (neg32 1)] [] SegRet
  | Some i =>
      if pb_read_open (pp_table s).[i] =? 0
      then pseg (pp_table s) s [PeRet (neg32 1)] [] SegRet
      else if negb (um_prepare (w_user c) (w_addr c) (w_count c))
      then pseg (pp_table s) s [PeRet (neg32 1)] [] SegRet
      else run_pipe_write s c 0
             (write_loop (pipe_fuel c 0) (pp_table s).[i] (sig_pending s (w_pid c)) c 0)
  end.

(** The read branch from the head of its waiting loop. *)
Definition pipe_read_wait (s : pipes) (c : rcall) : pipe_segment :=
  let p := (pp_table s).[rd_idx c] in
  if pb_count p =? 0 then
    if pb_write_open p =? 0 then pseg (pp_table s) s [PeRet 0] [] SegRet
    else if rd_nonblock c then pseg (pp_table s) s [PeRet (neg32 LINUX_EAGAIN)] [] SegRet
    else if sig_pending s (rd_pid c) then pseg (pp_table s) s [PeRet (neg32 1)] [] SegRet
    else pseg (pp_table s) s [] [] (SegBlock (rd_idx c) (PipeReading c))
  else
    match pipe_read_data p c with
    | None => pseg (pp_table s) s [] [] SegRet
    | Some (p', v, woke, out) =>
        pseg ((pp_table s).[rd_idx c <- p']) s [PeGot (rd_idx c) out; PeRet v]
          (if woke then [WqWake (rd_idx c)] else []) SegRet
    end.

Definition pipe_read (s : pipes) (c : rcall) : pipe_segment :=
  if rd_count c =? 0 then pseg (pp_table s) s [PeRet 0] [] SegRet
  else match pipe_get (pp_table s) (rd_idx c) with
       | None => pseg (pp_table s) s [PeRet (neg32 1)] [] SegRet
       | Some _ => pipe_read_wait s c
       end.

Definition pipe_run (s : pipes) (op : pipe_op) : pipe_segment :=
  match op with
  | PipeAlloc =>
      let '(i, tbl) := pipe_alloc (pp_table s) in
      pseg tbl s (if i =? -1 then [] else [PeFresh i]) (if i =? -1 then [] else [WqInit i]) SegRet
  | PipeBump r idx => pseg (pipe_bump r (pp_table s) idx) s [] [] SegRet
  | PipeClose r idx => let '(tbl, cs) := pipe_close r (pp_table s) idx in pseg tbl s [] cs SegRet
  | PipeSignal pid =>
      {| seg_state := {| pp_table := pp_table s; pp_sig := {[pid]} ∪ pp_sig s |};
         seg_events := []; seg_calls := []; seg_exit := SegRet |}
  | PipeSignalDone pid =>
      {| seg_state := {| pp_table := pp_table s; pp_sig := pp_sig s ∖ {[pid]} |};
         seg_events := []; seg_calls := []; seg_exit := SegRet |}
  | PipeRead c => pipe_read s c
  | PipeWrite c => pipe_write s c
  | PipeReading c => pipe_read_wait s c
  | PipeWriting c copied kbuf chunk i =>
      run_pipe_write s c copied
        (write_rest (pipe_fuel c copied) (pp_table s).[w_idx c] (sig_pending s (w_pid c)) c
           copied kbuf chunk i)
  end.
End syscalls.
Arguments rcall : clear implicits.
Arguments pipe_op : clear implicits.
