(* ===== verification/PipeProps.v ===== *)
(** * Pipes: streams and wake-ups

    Any number of readers, writers and closers interleave at the points where
    they block.  Every pipe is a first-in first-out byte stream and a sleeping
    writer sleeps on a full pipe; a sleeping reader, on the other hand, is not
    woken by a write that fills the pipe. *)

From S2P Require Import Prelude Ring Blocking Pipe.

Definition pipe_bytes (p : pipe_buf) : list Z :=
  ring_contents PIPE_BUF_SIZE (pb_buf p) (pb_read_idx p) (pb_count p).
Definition pipe_ok (p : pipe_buf) : Prop :=
  ring_ok PIPE_BUF_SIZE (pb_buf p) (pb_write_idx p) (pb_read_idx p) (pb_count p).

Lemma pipe_count_range p : pipe_ok p → 0 <= pb_count p <= 4096.
Proof. intros Hp. exact (ring_count _ _ _ _ _ Hp). Qed.

Lemma pipe_put_ok p b :
  pipe_ok p → pb_count p < PIPE_BUF_SIZE →
  pipe_ok (pipe_put p b) ∧ pipe_bytes (pipe_put p b) = pipe_bytes p ++ [b] ∧
  pb_count (pipe_put p b) = pb_count p + 1.
Proof.
  intros Hp Hc. pose proof (pipe_count_range p Hp).
  destruct (ring_push _ _ _ _ _ b Hp Hc) as [Hok Heq].
  unfold pipe_ok, pipe_bytes. cbn. rewrite u32_small by zsolve. done.
Qed.

(** ** One chunk of a write *)

Lemma write_chunk_spec n p nonblock sig kbuf chunk i copied p' copied' e :
  pipe_ok p → 0 <= i <= chunk → chunk <= USER_IO_CHUNK →
  0 <= copied → copied + (chunk - i) < 2 ^ 32 → (Z.to_nat (chunk - i) < n)%nat →
  write_chunk n p nonblock sig kbuf chunk i copied = (p', copied', e) →
  let i' := i + (copied' - copied) in
  pipe_ok p' ∧ i <= i' <= chunk ∧ pb_read_open p' = pb_read_open p ∧
  pipe_bytes p' = pipe_bytes p ++ buf_slice kbuf i i' ∧
  pb_count p' = pb_count p + (copied' - copied) ∧
  match e with
  | ChunkDone => i' = chunk
  | ChunkBlock j => j = i' ∧ j < chunk ∧ pb_count p' = PIPE_BUF_SIZE
  | ChunkRet v => nonblock = true ∨ pb_read_open p = 0 ∨ sig = true
  end.
Proof.
  cbn zeta. revert p i copied. induction n as [|n IH]; intros p i copied Hp Hi Hch Hc Hov Hn; [lia|].
  unfold USER_IO_CHUNK in Hch. cbn [write_chunk]. destruct (Z.ltb_spec i chunk) as [Hlt|Hge].
  2:{ intros [= <- <- <-]. rewrite Z.sub_diag, !Z.add_0_r, buf_slice_nil, app_nil_r.
      split_and!; auto; lia. }
  unfold pipe_room. destruct (Z.eqb_spec (pb_count p) PIPE_BUF_SIZE) as [Hf|Hf].
  { destruct nonblock; [|destruct (Z.eqb_spec (pb_read_open p) 0), sig]; cbn [orb];
      intros [= <- <- <-]; rewrite Z.sub_diag, !Z.add_0_r, buf_slice_nil, app_nil_r;
      split_and!; auto; lia. }
  pose proof (pipe_count_range p Hp). change PIPE_BUF_SIZE with 4096 in Hf.
  destruct (pipe_put_ok p kbuf.[i] Hp) as (Hok & Hb & Hcnt); [change PIPE_BUF_SIZE with 4096; lia|].
  rewrite !u32_small by zsolve. intros Hw.
  apply IH in Hw as (Hok' & Hi' & Hro & Hb' & Hc' & He); [|try done; try lia..].
  replace (i + 1 + (copied' - (copied + 1))) with (i + (copied' - copied)) in * by lia.
  split_and!; try done; try lia.
  rewrite Hb', Hb, (buf_slice_cons _ i) by lia. by rewrite <-app_assoc.
Qed.

(** ** One chunk of a read *)

(** [c]: the bytes not yet read of a pipe whose [count] is adjusted at the end
    of the call only. *)
Lemma read_chunk_spec n p c p' bs :
  ring_ok PIPE_BUF_SIZE (pb_buf p) (pb_write_idx p) (pb_read_idx p) c → Z.of_nat n <= c →
  read_chunk n p = (p', bs) →
  ring_ok PIPE_BUF_SIZE (pb_buf p') (pb_write_idx p') (pb_read_idx p') (c - Z.of_nat n) ∧
  ring_contents PIPE_BUF_SIZE (pb_buf p) (pb_read_idx p) c =
    bs ++ ring_contents PIPE_BUF_SIZE (pb_buf p') (pb_read_idx p') (c - Z.of_nat n) ∧
  length bs = n ∧ pb_count p' = pb_count p.
Proof.
  revert p c p' bs. induction n as [|n IH]; intros p c p' bs Hok Hn; cbn [read_chunk].
  { intros [= <- <-]. by rewrite Z.sub_0_r. }
  destruct (ring_pop _ _ _ _ _ Hok) as [Hok' Hc]; [lia|].
  destruct (read_chunk n _) as [p2 bs2] eqn:E. intros [= <- <-].
  apply (IH _ (c - 1)) in E as (Hok2 & Hc2 & Hlen & Hcnt); [|done|lia].
  replace (c - Z.of_nat (S n)) with (c - 1 - Z.of_nat n) by lia.
  split_and!; [exact Hok2| |by cbn; rewrite Hlen|exact Hcnt].
  cbn [pb_buf pb_read_idx] in Hc2. by rewrite Hc, Hc2.
Qed.

Section props.
Context {U : Type} `{UserMemoryLaws U}.
Implicit Types (c : wcall U).

Lemma user_slice_nil (u : U) a x : user_slice u a x x = [].
Proof. unfold user_slice. by rewrite Z.sub_diag. Qed.

Lemma user_slice_cons (u : U) a x y :
  x < y → user_slice u a x y = um_byte u (a +u x) :: user_slice u a (x + 1) y.
Proof.
  intros. unfold user_slice.
  replace (Z.to_nat (y - x)) with (S (Z.to_nat (y - (x + 1)))) by lia.
  cbn [seq fmap list_fmap]. rewrite Z.add_0_r. f_equal.
  rewrite <-fmap_S_seq, <-list_fmap_compose. apply list_fmap_ext. intros i k _. simpl.
  do 2 f_equal. lia.
Qed.

Lemma user_slice_app (u : U) a x y z :
  x <= y <= z → user_slice u a x z = user_slice u a x y ++ user_slice u a y z.
Proof.
  intros [Hxy Hyz]. remember (Z.to_nat (y - x)) as n eqn:Hn. revert x Hxy Hn.
  induction n as [|n IH]; intros x Hxy Hn.
  - replace y with x by lia. by rewrite user_slice_nil.
  - rewrite (user_slice_cons _ _ x z), (user_slice_cons _ _ x y) by lia. cbn [app]. f_equal.
    apply IH; lia.
Qed.

(** A part of a copied chunk is a part of the user's buffer. *)
Lemma chunk_slice (u : U) a base chunk kbuf i j :
  kbuf = user_slice u a base (base + chunk) → 0 <= i <= j → j <= chunk →
  buf_slice kbuf i j = user_slice u a (base + i) (base + j).
Proof.
  intros -> Hij Hj. unfold buf_slice. unfold user_slice at 2.
  replace (base + j - (base + i)) with (j - i) by lia. apply list_fmap_ext.
  intros k x Hx. apply lookup_seq in Hx as [-> Hx]. apply arr_get_lookup; [lia|].
  unfold user_slice. rewrite list_lookup_fmap, lookup_seq_lt by lia. cbn.
  do 3 f_equal. lia.
Qed.

Lemma copied_chunk (u : U) a copied n kbuf :
  is_u32 a → 0 < n → copy_from_user u (a +u copied) n = Some kbuf →
  kbuf = user_slice u a copied (copied + n).
Proof.
  intros Ha Hn Hc. apply copy_from_user_ok in Hc as [Hr ->]; [|auto with cint|done].
  unfold user_slice. replace (copied + n - copied) with n by lia.
  apply list_fmap_ext. intros k x Hx. apply lookup_seq in Hx as [-> Hx]. f_equal.
  cbn. zsolve.
Qed.

(** ** A stretch of a write *)

Definition call_ok c : Prop := 0 <= w_idx c < MAX_PIPES ∧ is_u32 (w_addr c) ∧ is_u32 (w_count c).

(** A chunk in flight: [kbuf] holds the user's bytes from [copied - i] on. *)
Record in_flight c (copied : Z) (kbuf : list Z) (chunk i : Z) : Prop := {
  fl_i : 0 <= i < chunk;
  fl_chunk : chunk <= USER_IO_CHUNK;
  fl_range : 0 <= copied - i ∧ copied - i + chunk <= w_count c;
  fl_bytes : kbuf = user_slice (w_user c) (w_addr c) (copied - i) (copied - i + chunk);
}.

(** Some part of the caller's buffer cannot be read. *)
Definition copy_fails c : Prop :=
  ∃ off n, 0 <= off ∧ 0 < n ∧ off + n <= w_count c ∧
    copy_from_user (w_user c) (w_addr c +u off) n = None.

Definition write_post (p : pipe_buf) (sig : bool) c (copied : Z) (p' : pipe_buf) (copied' : Z)
    (e : pw_end) : Prop :=
  pipe_ok p' ∧ copied <= copied' <= w_count c ∧ pb_read_open p' = pb_read_open p ∧
  pipe_bytes p' = pipe_bytes p ++ user_slice (w_user c) (w_addr c) copied copied' ∧
  pb_count p' = pb_count p + (copied' - copied) ∧
  match e with
  | PwRet v true => v = copied' ∧ copied' = w_count c
  | PwRet v false => copy_fails c ∨ w_nonblock c = true ∨ pb_read_open p = 0 ∨ sig = true
  | PwBlock kbuf chunk i => in_flight c copied' kbuf chunk i ∧ pb_count p' = PIPE_BUF_SIZE
  end.

Lemma write_post_here p sig c copied e :
  pipe_ok p → copied <= w_count c →
  match e with
  | PwRet v true => v = copied ∧ copied = w_count c
  | PwRet v false => copy_fails c ∨ w_nonblock c = true ∨ pb_read_open p = 0 ∨ sig = true
  | PwBlock kbuf chunk i => in_flight c copied kbuf chunk i ∧ pb_count p = PIPE_BUF_SIZE
  end → write_post p sig c copied p copied e.
Proof.
  intros Hp Hc He. unfold write_post. rewrite user_slice_nil, app_nil_r.
  split_and!; auto; lia.
Qed.

Lemma write_spec n :
  (∀ p sig c copied, pipe_ok p → call_ok c → 0 <= copied <= w_count c →
     (2 * Z.to_nat (w_count c - copied) < n)%nat →
     ∃ p' copied' e, write_loop n p sig c copied = Some (p', copied', e) ∧
       write_post p sig c copied p' copied' e) ∧
  (∀ p sig c copied kbuf chunk i, pipe_ok p → call_ok c → in_flight c copied kbuf chunk i →
     (2 * Z.to_nat (w_count c - copied) <= n)%nat →
     ∃ p' copied' e, write_rest n p sig c copied kbuf chunk i = Some (p', copied', e) ∧
       write_post p sig c copied p' copied' e).
Proof.
  induction n as [|n [IHl IHr]].
  { split; [intros; lia|]. intros p sig c copied kbuf chunk i _ _ [] Hn. lia. }
  split.
  - intros p sig c copied Hp Hc Hcop Hn. cbn [write_loop].
    destruct (Z.ltb_spec copied (w_count c)) as [Hlt|Hge]; cbn [negb].
    2:{ eexists _, _, _. split; [done|]. apply write_post_here; [done|lia|split; lia]. }
    pose proof Hc as (Hidx & Haddr & Hcnt).
    set (chunk := io_chunk (w_count c -u copied)).
    assert (0 < chunk <= USER_IO_CHUNK ∧ copied + chunk <= w_count c) as [Hch Hch'].
    { unfold chunk, io_chunk, USER_IO_CHUNK. rewrite u32_small by zsolve. bcase; lia. }
    destruct (copy_from_user _ _ chunk) as [kbuf|] eqn:Ek.
    2:{ eexists _, _, _. split; [done|]. apply write_post_here; [done|lia|]. left. exists copied, chunk. split_and!; auto; lia. }
    apply copied_chunk in Ek; [|done|lia].
    assert (in_flight c copied kbuf chunk 0) as Hfl.
    { split; rewrite ?Z.sub_0_r; try done; lia. }
    unfold pipe_room. destruct (Z.eqb_spec (pb_count p) PIPE_BUF_SIZE) as [Hf|Hf].
    2:{ apply IHr; [done|done|done|lia]. }
    destruct (w_nonblock c) eqn:Enb; [|destruct (Z.eqb_spec (pb_read_open p) 0), sig];
      cbn [orb]; (eexists _, _, _; split; [done|]); apply write_post_here; auto; lia.
  - intros p sig c copied kbuf chunk i Hp Hc [Hi Hch Hr Hk] Hn. cbn [write_rest].
    destruct (write_chunk _ p (w_nonblock c) sig kbuf chunk i copied) as [[p1 c1] e1] eqn:Ew.
    pose proof Hc as (Hidx & Haddr & Hcnt).
    apply write_chunk_spec in Ew as (Hp1 & Hi1 & Hro1 & Hb1 & Hc1 & He1);
      [|try done; try lia; try zsolve..].
    rewrite (chunk_slice _ _ _ _ _ i _ Hk) in Hb1 by lia.
    replace (copied - i + i) with copied in Hb1 by lia.
    replace (copied - i + (i + (c1 - copied))) with c1 in Hb1 by lia.
    destruct e1 as [|v|j].
    + destruct (IHl p1 sig c c1) as (p2 & c2 & e2 & Hw2 & Hp2 & Hc2 & Hro2 & Hb2 & Hn2 & He2);
        [done|done|lia|lia|].
      exists p2, c2, e2. split; [done|]. unfold write_post.
      rewrite (user_slice_app _ _ copied c1 c2), app_assoc, <-Hb1 by lia. rewrite Hro1 in *.
      split_and!; try done; lia.
    + eexists _, _, _. split; [done|]. unfold write_post. split_and!; try done; try lia.
      naive_solver.
    + destruct He1 as (-> & Hlt & Hfull). eexists _, _, _. split; [done|]. unfold write_post.
      split_and!; try done; try lia.
      replace (copied - i) with (c1 - (i + (c1 - copied))) in * by lia. split; try done; lia.
Qed.

(** ** A read *)

Lemma read_loop_spec n p (c : rcall U) to_read copied out :
  um_prepare (rd_user c) (rd_addr c) to_read = true → is_u32 to_read →
  ring_ok PIPE_BUF_SIZE (pb_buf p) (pb_write_idx p) (pb_read_idx p) (pb_count p - copied) →
  0 <= copied <= to_read → to_read <= pb_count p → is_u32 (pb_count p) →
  (Z.to_nat (to_read - copied) < n)%nat →
  ∃ p' bs, read_loop n p c to_read copied out = Some (p', to_read, true, out ++ bs) ∧
    pipe_ok p' ∧ Z.of_nat (length bs) = to_read - copied ∧
    ring_contents PIPE_BUF_SIZE (pb_buf p) (pb_read_idx p) (pb_count p - copied) =
      bs ++ pipe_bytes p'.
Proof.
  revert p copied out. induction n as [|n IH]; intros p copied out Hprep Hu Hok Hcop Hle Hcnt Hn; [lia|].
  cbn [read_loop]. destruct (Z.ltb_spec copied to_read) as [Hlt|Hge].
  2:{ replace copied with to_read in * by lia. eexists _, []. rewrite app_nil_r.
      split; [done|]. unfold pipe_ok, pipe_bytes. cbn. rewrite u32_small by zsolve.
      split_and!; auto. lia. }
  set (chunk := io_chunk (to_read -u copied)).
  assert (0 < chunk ∧ copied + chunk <= to_read) as [Hch Hch'].
  { unfold chunk, io_chunk, USER_IO_CHUNK. rewrite u32_small by zsolve. bcase; lia. }
  destruct (read_chunk (Z.to_nat chunk) p) as [p1 kbuf] eqn:E.
  apply (read_chunk_spec _ _ (pb_count p - copied)) in E as (Hok1 & Hc1 & Hlen & Hcnt1); [|done|lia].
  rewrite Z2Nat.id in * by lia.
  rewrite (copy_to_user_ok _ _ to_read) by (done || lia). rewrite u32_small by zsolve.
  replace (pb_count p - copied - chunk) with (pb_count p1 - (copied + chunk)) in * by lia.
  destruct (IH p1 (copied + chunk) (out ++ kbuf)) as (p' & bs & Hl & Hok' & Hlen' & Hc');
    [done|done|done|lia|lia|by rewrite Hcnt1|lia|].
  exists p', (kbuf ++ bs). rewrite Hl, <-!app_assoc, Hc1, Hc'. split_and!; auto.
  rewrite length_app. lia.
Qed.

Lemma pipe_read_data_spec p (c : rcall U) :
  pipe_ok p → is_u32 (rd_count c) →
  ∃ p' v woke out, pipe_read_data p c = Some (p', v, woke, out) ∧ pipe_ok p' ∧
    pipe_bytes p = out ++ pipe_bytes p' ∧ (woke = false → p' = p) ∧
    (woke = true → v = Z.of_nat (length out) ∧ v = Z.min (rd_count c) (pb_count p)).
Proof.
  intros Hp Hc. pose proof (pipe_count_range p Hp). unfold pipe_read_data.
  set (to_read := if rd_count c <? pb_count p then rd_count c else pb_count p).
  assert (to_read = Z.min (rd_count c) (pb_count p)) as Htr by (unfold to_read; bcase; lia).
  destruct (um_prepare _ _ to_read) eqn:Eprep; cbn [negb].
  2:{ by eexists _, _, _, _. }
  destruct (read_loop_spec (S (Z.to_nat to_read)) p c to_read 0 []) as (p' & bs & Hl & Hok & Hlen & Hb);
    [done|zsolve|by rewrite Z.sub_0_r|zsolve|lia|zsolve|lia|].
  rewrite Z.sub_0_r in Hb, Hlen. exists p', to_read, true, bs. split_and!; auto; try lia.
Qed.

(** ** Reachable states *)

Definition pipe_legal (op : pipe_op U) : Prop :=
  match op with
  | PipeWrite c => is_u32 (w_addr c) ∧ is_u32 (w_count c)
  | PipeRead c => is_u32 (rd_count c)
  | PipeReading c => 0 <= rd_idx c < MAX_PIPES ∧ is_u32 (rd_count c)
  | PipeWriting c copied kbuf chunk i => call_ok c ∧ in_flight c copied kbuf chunk i
  | _ => True
  end.

Definition pflow_step (q : Z) (f : list Z * list Z) (e : pipe_event) : list Z * list Z :=
  match e with
  | PePut q' bs => if q' =? q then (f.1 ++ bs, f.2) else f
  | PeGot q' bs => if q' =? q then (f.1, f.2 ++ bs) else f
  | PeFresh q' => if q' =? q then ([], []) else f
  | PeRet _ => f
  end.
(** Bytes accepted from the writers and bytes delivered to the readers of pipe
    [q] since it was allocated. *)
Definition pflow (q : Z) (es : list pipe_event) : list Z * list Z :=
  foldl (pflow_step q) ([], []) es.

Record table_ok (tbl : list pipe_buf) : Prop := {
  tbl_len : length tbl = Z.to_nat MAX_PIPES;
  tbl_pipe : ∀ q, 0 <= q < MAX_PIPES → pipe_ok tbl.[q];
}.

Definition pipe_inv (es : list pipe_event) (s : pipes) : Prop :=
  table_ok (pp_table s) ∧
  ∀ q, 0 <= q < MAX_PIPES → (pflow q es).1 = (pflow q es).2 ++ pipe_bytes (pp_table s).[q].

Definition pipe_waits (s : pipes) (q : Z) (op : pipe_op U) : Prop :=
  0 <= q < MAX_PIPES ∧
  match op with
  | PipeReading c => rd_idx c = q
  | PipeWriting c _ _ _ _ => w_idx c = q ∧ pb_count (pp_table s).[q] = PIPE_BUF_SIZE
  | _ => False
  end.

(** What every stretch does to the pipe [q]. *)
Record pstretch_ok (s : pipes) (g : segment pipes Z (pipe_op U) pipe_event) : Prop := {
  ps_table : table_ok (pp_table (seg_state g));
  ps_flow q x d : 0 <= q < MAX_PIPES → x = d ++ pipe_bytes (pp_table s).[q] →
    let f := foldl (pflow_step q) (x, d) (seg_events g) in
    f.1 = f.2 ++ pipe_bytes (pp_table (seg_state g)).[q];
  ps_frame q : 0 <= q < MAX_PIPES → q ∉ wq_of <$> seg_calls g →
    pb_count (pp_table s).[q] = PIPE_BUF_SIZE →
    pb_count (pp_table (seg_state g)).[q] = PIPE_BUF_SIZE;
  ps_block q k : seg_exit g = SegBlock q k → pipe_waits (seg_state g) q k ∧ pipe_legal k;
}.

Lemma table_set_ok tbl i p : table_ok tbl → pipe_ok p → table_ok (tbl.[i <- p]).
Proof.
  intros [Hl Ht] Hp. split; [by rewrite length_arr_set|]. intros q Hq.
  destruct (decide (0 <= i < MAX_PIPES)) as [Hi|Hi].
  - rewrite arr_get_set by (rewrite ?Hl; unfold MAX_PIPES in *; lia). case_match; auto.
  - destruct (decide (i < 0)).
    + unfold arr_set. replace (Z.to_nat i) with (Z.to_nat 0) by lia.
      change (pipe_ok (tbl.[0 <- p]).[q]).
      rewrite arr_get_set by (rewrite ?Hl; unfold MAX_PIPES in *; lia). case_match; auto.
    + unfold arr_set. rewrite list_insert_ge by (rewrite Hl; unfold MAX_PIPES in *; lia). auto.
Qed.

(** A stretch that replaces the pipe [i] (or nothing). *)
Lemma pstretch_set s i p evs cs e :
  table_ok (pp_table s) → 0 <= i < MAX_PIPES → pipe_ok p →
  (∀ q, q ≠ i → ∀ f, foldl (pflow_step q) f evs = f) →
  (∀ x d, x = d ++ pipe_bytes (pp_table s).[i] →
     let f := foldl (pflow_step i) (x, d) evs in f.1 = f.2 ++ pipe_bytes p) →
  (i ∉ wq_of <$> cs → pb_count (pp_table s).[i] = PIPE_BUF_SIZE → pb_count p = PIPE_BUF_SIZE) →
  (∀ q k, e = SegBlock q k → q = i ∧ pipe_legal k ∧
     match k with
     | PipeReading c => rd_idx c = q
     | PipeWriting c _ _ _ _ => w_idx c = q ∧ pb_count p = PIPE_BUF_SIZE
     | _ => False
     end) →
  pstretch_ok s (pseg ((pp_table s).[i <- p]) s evs cs e).
Proof.
  intros Ht Hi Hp Hother Hflow Hfr Hbl.
  assert (∀ q, 0 <= q < MAX_PIPES → ((pp_table s).[i <- p]).[q] = if i =? q then p else (pp_table s).[q])
    as Hget.
  { intros q Hq. apply arr_get_set; [rewrite (tbl_len _ Ht); unfold MAX_PIPES in *; lia|lia]. }
  split; cbn [pseg seg_state seg_events seg_calls seg_exit pp_table].
  - by apply table_set_ok.
  - intros q x d Hq Hx. rewrite Hget by done. destruct (Z.eqb_spec i q); [subst; by apply Hflow|].
    by rewrite Hother by done.
  - intros q Hq. rewrite Hget by done. destruct (Z.eqb_spec i q); [subst; auto|auto].
  - intros q k Hk. destruct (Hbl _ _ Hk) as (-> & Hl & Hw). split; [|done].
    split; [done|]. destruct k; try done. cbn. rewrite Hget by done. by rewrite Z.eqb_refl.
Qed.

(** A stretch that leaves the table alone. *)
Lemma pstretch_quiet s vs cs e :
  table_ok (pp_table s) → (∀ q k, e = SegBlock q k → pipe_waits s q k ∧ pipe_legal k) →
  pstretch_ok s (pseg (pp_table s) s (PeRet <$> vs) cs e).
Proof.
  intros Ht Hbl. split; cbn [pseg seg_state seg_events seg_calls seg_exit pp_table]; auto.
  intros q x d Hq ->. assert (∀ f, foldl (pflow_step q) f (PeRet <$> vs) = f) as ->; [|done].
  induction vs; by auto.
Qed.

Lemma pipe_get_Some tbl idx i : pipe_get tbl idx = Some i → i = idx ∧ 0 <= idx < MAX_PIPES.
Proof. unfold pipe_get. intros H2. repeat case_match; bprop; simplify_eq. split; [done|lia]. Qed.

(** Changing who has a pipe open. *)
Lemma pstretch_opens s i p cs :
  table_ok (pp_table s) → 0 <= i < MAX_PIPES →
  pb_buf p = pb_buf (pp_table s).[i] → pb_write_idx p = pb_write_idx (pp_table s).[i] →
  pb_read_idx p = pb_read_idx (pp_table s).[i] → pb_count p = pb_count (pp_table s).[i] →
  pstretch_ok s (pseg ((pp_table s).[i <- p]) s [] cs SegRet).
Proof.
  intros Ht Hi Hb Hw Hr Hc. assert (pipe_bytes p = pipe_bytes (pp_table s).[i]) as Hpb.
  { unfold pipe_bytes. congruence. }
  apply pstretch_set; try done; cbn.
  - pose proof (tbl_pipe _ Ht i Hi) as Hok. unfold pipe_ok. by rewrite Hb, Hw, Hr, Hc.
  - intros x d ->. by rewrite Hpb.
  - by rewrite Hc.
Qed.

Lemma pipe_alloc_slot (tbl : list pipe_buf) :
  match for_exit 0 (Z.to_nat MAX_PIPES)
          (λ i _, if pb_in_use tbl.[i] =? 0 then inl i else inr tt) tt with
  | inl i => 0 <= i < MAX_PIPES ∧ pb_in_use tbl.[i] = 0
  | inr _ => True
  end.
Proof.
  apply (for_exit_inv (λ _ _, True) (λ i, 0 <= i < MAX_PIPES ∧ pb_in_use tbl.[i] = 0)); [|done].
  intros k [] Hk _. destruct (Z.eqb_spec (pb_in_use tbl.[k]) 0); [|done].
  split; [unfold MAX_PIPES in *; lia|done].
Qed.

Lemma pipe_alloc_ok s : table_ok (pp_table s) → pstretch_ok s (pipe_run s PipeAlloc).
Proof.
  intros Ht. cbn [pipe_run]. unfold pipe_alloc. pose proof (pipe_alloc_slot (pp_table s)) as Hs.
  destruct (for_exit _ _ _ _) as [i|[]].
  2:{ apply (pstretch_quiet s []); done. }
  destruct Hs as [Hi _]. rewrite (proj2 (Z.eqb_neq i (-1))) by (unfold MAX_PIPES in *; lia).
  apply pstretch_set; try done; cbn.
  - apply ring_ok_empty; [apply (ring_len _ _ _ _ _ (tbl_pipe _ Ht i Hi))|by vm_compute].
  - intros q Hq f. by rewrite (proj2 (Z.eqb_neq i q)) by done.
  - intros x d _. by rewrite Z.eqb_refl.
  - intros Hn. exfalso. apply Hn. left.
Qed.

Lemma pipe_open_ok s r idx :
  table_ok (pp_table s) →
  pstretch_ok s (pipe_run s (PipeBump r idx)) ∧ pstretch_ok s (pipe_run s (PipeClose r idx)).
Proof.
  intros Ht. cbn [pipe_run]. unfold pipe_bump, pipe_close.
  destruct (pipe_get (pp_table s) idx) as [i|] eqn:E.
  2:{ split; by apply (pstretch_quiet s []). }
  apply pipe_get_Some in E as [-> Hi]. split; apply pstretch_opens; try done;
    unfold close_end; destruct r; try done; by case_match.
Qed.

Lemma run_pipe_write_ok s c copied res p' copied' e :
  table_ok (pp_table s) → call_ok c → res = Some (p', copied', e) →
  write_post (pp_table s).[w_idx c] (sig_pending s (w_pid c)) c copied p' copied' e →
  pstretch_ok s (run_pipe_write s c copied res).
Proof.
  intros Ht Hc -> (Hp & Hcop & _ & Hb & Hn & He). unfold run_pipe_write.
  pose proof Hc as (Hi & _). pose proof (pipe_count_range _ (tbl_pipe _ Ht _ Hi)).
  pose proof (pipe_count_range _ Hp).
  apply pstretch_set; try done.
  - intros q Hq f. destruct e; cbn; by rewrite (proj2 (Z.eqb_neq (w_idx c) q)) by done.
  - intros x d ->. destruct e; cbn; rewrite Z.eqb_refl; cbn; by rewrite Hb, <-app_assoc.
  - intros _ Hf. unfold PIPE_BUF_SIZE in *. lia.
  - intros q k Hk. destruct e as [v []|kbuf chunk i]; simplify_eq. cbn. naive_solver.
Qed.

Lemma pipe_write_ok s c :
  table_ok (pp_table s) → pipe_legal (PipeWrite c) → pstretch_ok s (pipe_write s c).
Proof.
  intros Ht [Ha Hc]. unfold pipe_write. destruct (pipe_get _ _) as [i|] eqn:E.
  2:{ by apply (pstretch_quiet s [neg32 1]). }
  apply pipe_get_Some in E as [-> Hi]. case_match; [by apply (pstretch_quiet s [neg32 1])|].
  case_match; [by apply (pstretch_quiet s [neg32 1])|].
  destruct (proj1 (write_spec (pipe_fuel c 0)) (pp_table s).[w_idx c] (sig_pending s (w_pid c)) c 0)
    as (p' & c' & e & Hw & Hpost); [by apply Ht|done|zsolve|unfold pipe_fuel; lia|].
  by eapply run_pipe_write_ok.
Qed.

Lemma pipe_read_wait_ok s (c : rcall U) :
  table_ok (pp_table s) → 0 <= rd_idx c < MAX_PIPES → is_u32 (rd_count c) →
  pstretch_ok s (pipe_read_wait s c).
Proof.
  intros Ht Hi Hc. unfold pipe_read_wait.
  case_match.
  { case_match; [by apply (pstretch_quiet s [0])|].
    case_match; [by apply (pstretch_quiet s [neg32 LINUX_EAGAIN])|].
    case_match; [by apply (pstretch_quiet s [neg32 1])|].
    apply (pstretch_quiet s []); [done|]. by intros q k [= <- <-]. }
  destruct (pipe_read_data_spec (pp_table s).[rd_idx c] c) as (p' & v & woke & out & -> & Hok & Hb & Hn & _);
    [by apply Ht|done|].
  apply pstretch_set; try done.
  - intros q Hq f. cbn. by rewrite (proj2 (Z.eqb_neq (rd_idx c) q)) by done.
  - intros x d ->. cbn. rewrite Z.eqb_refl. cbn. by rewrite Hb, <-app_assoc.
  - destruct woke; [intros Hw; exfalso; apply Hw; left|]. intros _. by rewrite Hn.
Qed.

Lemma pipe_run_ok s op : table_ok (pp_table s) → pipe_legal op → pstretch_ok s (pipe_run s op).
Proof.
  intros Ht Hl. destruct op as [|r idx|r idx|pid|pid|c|c|c|c copied kbuf chunk i]; cbn [pipe_run].
  - by apply pipe_alloc_ok.
  - by apply (pipe_open_ok s r idx).
  - by apply (pipe_open_ok s r idx).
  - by split; cbn.
  - by split; cbn.
  - unfold pipe_read. case_match; [by apply (pstretch_quiet s [0])|].
    destruct (pipe_get _ _) as [i|] eqn:E; [|by apply (pstretch_quiet s [neg32 1])].
    apply pipe_get_Some in E as [-> Hi]. by apply pipe_read_wait_ok.
  - by apply pipe_write_ok.
  - apply pipe_read_wait_ok; [done|apply Hl..].
  - destruct Hl as [Hc Hfl].
    destruct (proj2 (write_spec (pipe_fuel c copied)) (pp_table s).[w_idx c]
                (sig_pending s (w_pid c)) c copied kbuf chunk i)
      as (p' & c' & e & Hw & Hpost); [apply Ht, Hc|done|done|unfold pipe_fuel; lia|].
    by eapply run_pipe_write_ok.
Qed.

Definition pipes_boot : pipes := {| pp_table := pipe_table_boot; pp_sig := ∅ |}.

Lemma pipe_boot_ok : pipe_inv [] pipes_boot.
Proof.
  assert (∀ q, 0 <= q < MAX_PIPES → pipe_table_boot.[q] = inhabitant) as Hget.
  { intros q Hq. apply arr_get_replicate. unfold MAX_PIPES in *. lia. }
  split; [split; [done|]|]; intros q Hq; cbn [pipes_boot pp_table]; rewrite Hget by done.
  - apply ring_ok_empty; [apply length_replicate|by vm_compute].
  - vm_compute. reflexivity.
Qed.

Notation pipe_steps := (sys_steps pipe_run pipe_legal).

Lemma pipe_reachable es σ :
  pipe_steps (sys_idle pipes_boot) es σ → sys_good pipe_legal pipe_inv pipe_waits es σ.
Proof.
  apply sys_steps_good; [|apply pipe_boot_ok].
  intros es' s op [Ht Hflow] Hl. destruct (pipe_run_ok s op Ht Hl) as [Ht' Hfl Hfr Hbl].
  split; [split|split].
  - done.
  - intros q Hq. unfold pflow. rewrite foldl_app.
    specialize (Hfl q (pflow q es').1 (pflow q es').2 Hq (Hflow q Hq)).
    by rewrite <-surjective_pairing in Hfl.
  - intros q k Hn [Hq Hk]. split; [done|]. destruct k; try done. cbn in *.
    destruct Hk as [? Hk]. split; [done|]. by apply Hfr.
  - intros q k Hk. by apply Hbl.
Qed.

(** C29: Every pipe is a first-in first-out byte stream.  Whatever readers,
    writers and closers do and however they interleave at the points where they
    block, the bytes taken from the writers' buffers since the pipe was
    allocated are exactly the bytes stored into the readers' buffers followed by
    the bytes in the pipe, of which there are [count] and never more than
    [PIPE_BUF_SIZE].  User memory follows [UserMemoryLaws]: a copy into a range
    that was prepared succeeds. *)
Theorem pipe_streams_fifo es σ q :
  pipe_steps (sys_idle pipes_boot) es σ → 0 <= q < MAX_PIPES →
  let p := (pp_table (sy_state σ)).[q] in
  (pflow q es).1 = (pflow q es).2 ++ pipe_bytes p ∧
  Z.of_nat (length (pipe_bytes p)) = pb_count p ∧ 0 <= pb_count p <= PIPE_BUF_SIZE.
Proof.
  intros Hs Hq. destruct (good_state _ _ _ _ _ (pipe_reachable es σ Hs)) as [Ht Hf]. cbv zeta.
  split; [by apply Hf|]. pose proof (pipe_count_range _ (tbl_pipe _ Ht q Hq)). split; [|done].
  unfold pipe_bytes. rewrite length_ring_contents. lia.
Qed.

(** A call asleep on a pipe is a reader of it, or a writer of the full pipe. *)
Theorem pipe_writer_waits_full es σ t q c copied kbuf chunk i :
  pipe_steps (sys_idle pipes_boot) es σ →
  sy_wait σ !! t = Some (q, PipeWriting c copied kbuf chunk i) →
  pb_count (pp_table (sy_state σ)).[q] = PIPE_BUF_SIZE.
Proof.
  intros Hs Ht. by destruct (good_wait _ _ _ _ _ (pipe_reachable es σ Hs) _ _ _ Ht) as [[_ [_ ?]] _].
Qed.

(** A write that overfills a pipe leaves its readers asleep.  When a reader
    sleeps on an empty pipe and a blocking write of more than
    [PIPE_BUF_SIZE] bytes starts, the writer fills the pipe and goes to sleep
    without a wake-up: reader and writer both sleep on the full pipe. *)
Theorem pipe_overfill_deadlocks (σ : sys pipes Z (pipe_op U)) t u rc c :
  let idx := w_idx c in
  let p := (pp_table (sy_state σ)).[idx] in
  table_ok (pp_table (sy_state σ)) →
  sy_wait σ !! t = Some (idx, PipeReading rc) → t ≠ u →
  pipe_get (pp_table (sy_state σ)) idx = Some idx → pb_count p = 0 → pb_read_open p ≠ 0 →
  pipe_legal (PipeWrite c) → PIPE_BUF_SIZE < w_count c → w_nonblock c = false →
  sig_pending (sy_state σ) (w_pid c) = false →
  um_prepare (w_user c) (w_addr c) (w_count c) = true → ¬ copy_fails c →
  let σ' := sys_exec u (pipe_run (sy_state σ) (PipeWrite c)) (sys_start u (PipeWrite c) σ) in
  sy_wait σ' !! t = Some (idx, PipeReading rc) ∧
  (∃ kbuf chunk i, sy_wait σ' !! u = Some (idx, PipeWriting c PIPE_BUF_SIZE kbuf chunk i)) ∧
  pb_count (pp_table (sy_state σ')).[idx] = PIPE_BUF_SIZE.
Proof.
  cbn zeta. intros Ht Hwait Htu Hget Hempty Hro [Ha Hc] Hcount Hnb Hsig Hprep Hcopy.
  pose proof (pipe_get_Some _ _ _ Hget) as [_ Hi].
  destruct (proj1 (write_spec (pipe_fuel c 0)) (pp_table (sy_state σ)).[w_idx c]
              (sig_pending (sy_state σ) (w_pid c)) c 0)
    as (p' & copied' & e & Hw & Hp & Hcop & _ & _ & Hn & He);
    [by apply Ht|done|zsolve|unfold pipe_fuel; lia|].
  pose proof (pipe_count_range _ Hp). unfold PIPE_BUF_SIZE in *.
  destruct e as [v []|kbuf chunk i]; [lia| |].
  { rewrite Hnb, Hsig in He. naive_solver. }
  assert (copied' = 4096) as -> by lia.
  assert (pipe_run (sy_state σ) (PipeWrite c) =
    pseg ((pp_table (sy_state σ)).[w_idx c <- p']) (sy_state σ)
      [PePut (w_idx c) (user_slice (w_user c) (w_addr c) 0 4096)] []
      (SegBlock (w_idx c) (PipeWriting c 4096 kbuf chunk i))) as ->.
  { cbn [pipe_run]. unfold pipe_write. rewrite Hget, Hprep, (proj2 (Z.eqb_neq _ 0) Hro). cbn [negb].
    by rewrite Hw. }
  unfold sys_exec. cbn [pseg seg_exit seg_calls seg_state apply_calls foldl apply_end sys_start
    sy_wait sy_state pp_table].
  rewrite lookup_insert_ne, lookup_insert_eq by done. split_and!; eauto.
  rewrite arr_get_set_eq; [lia|]. rewrite (tbl_len _ Ht). unfold MAX_PIPES in *. lia.
Qed.
End props.

(** ** Witnesses: a process whose memory holds its own addresses *)

#[local] Instance linear_memory : UserMemory unit := {
  um_byte _ a := a mod 256;
  um_prepare _ a n := a + n <=? 2 ^ 32;
  copy_from_user _ a n :=
    if a + n <=? 2 ^ 32 then Some ((λ k, (a + Z.of_nat k) mod 256) <$> seq 0 (Z.to_nat n)) else None;
  copy_to_user _ _ _ := true;
}.
#[local] Instance linear_memory_laws : UserMemoryLaws unit.
Proof.
  split; [|done]. intros u a n bs Ha Hn. cbn. destruct (Z.leb_spec (a + n) (2 ^ 32)); [|done].
  by intros [= <-].
Qed.

Notation pipe_sys := (sys pipes Z (pipe_op unit)).

Definition pipe_do (t : nat) (op : pipe_op unit) (σ : pipe_sys) : pipe_sys :=
  sys_exec t (pipe_run (sy_state σ) op) (sys_start t op σ).

Lemma pipe_do_steps es σ t op :
  sys_steps pipe_run pipe_legal (sys_idle pipes_boot) es σ →
  sy_run σ !! t = None → sy_wait σ !! t = None → sy_lost σ !! t = None → pipe_legal op →
  sys_steps pipe_run pipe_legal (sys_idle pipes_boot)
    (es ++ seg_events (pipe_run (sy_state σ) op)) (pipe_do t op σ).
Proof.
  intros Hs H1 H2 H3 Hl. rewrite <-(app_nil_r es).
  eapply steps_trans; [eapply steps_trans; [exact Hs|by apply step_call]|].
  exact (step_exec pipe_run pipe_legal (sys_start t op σ) t op (lookup_insert_eq _ _ _)).
Qed.

Definition demo_read : rcall unit :=
  {| rd_pid := 1; rd_user := tt; rd_idx := 0; rd_addr := 0; rd_count := 100; rd_nonblock := false |}.
Definition demo_write (n : Z) : wcall unit :=
  {| w_pid := 2; w_user := tt; w_idx := 0; w_addr := 97; w_count := n; w_nonblock := false |}.

Definition pipe_s1 : pipe_sys := pipe_do 0 PipeAlloc (sys_idle pipes_boot).
Definition pipe_s2 : pipe_sys := pipe_do 1 (PipeRead demo_read) pipe_s1.
Definition pipe_s3 : pipe_sys := pipe_do 2 (PipeWrite (demo_write 3)) pipe_s2.

Ltac pipe_quick := vm_compute; first [reflexivity | exact I | repeat split; discriminate].

Lemma pipe_s2_steps :
  sys_steps pipe_run pipe_legal (sys_idle pipes_boot) [PeFresh 0] pipe_s2.
Proof.
  apply (pipe_do_steps [PeFresh 0] pipe_s1 1 (PipeRead demo_read)); [|pipe_quick..].
  apply (pipe_do_steps [] (sys_idle pipes_boot) 0 PipeAlloc); [apply steps_refl|pipe_quick..].
Qed.

Lemma pipe_s3_steps :
  sys_steps pipe_run pipe_legal (sys_idle pipes_boot)
    [PeFresh 0; PePut 0 [97; 98; 99]; PeRet 3] pipe_s3.
Proof.
  apply (pipe_do_steps [PeFresh 0] pipe_s2 2 (PipeWrite (demo_write 3))); [|pipe_quick..].
  apply pipe_s2_steps.
Qed.

Lemma pipe_streams_fifo_witness :
  (pflow 0 [PeFresh 0; PePut 0 [97; 98; 99]; PeRet 3]).1 =
  (pflow 0 [PeFresh 0; PePut 0 [97; 98; 99]; PeRet 3]).2 ++
  pipe_bytes (pp_table (sy_state pipe_s3)).[0].
Proof.
  destruct (pipe_streams_fifo [PeFresh 0; PePut 0 [97; 98; 99]; PeRet 3] pipe_s3 0) as [H _].
  - apply pipe_s3_steps.
  - unfold MAX_PIPES. lia.
  - exact H.
Defined.

Lemma demo_copies n : 0 <= n < 2 ^ 31 → ¬ copy_fails (demo_write n).
Proof.
  intros Hn (off & k & Hoff & Hk & Hle & Hc). revert Hc. cbn in *.
  rewrite u32_small by zsolve. destruct (Z.leb_spec (97 + off + k) (2 ^ 32)); [done|zsolve].
Qed.

Lemma pipe_s2_table : table_ok (pp_table (sy_state pipe_s2)).
Proof. exact (proj1 (good_state _ _ _ _ _ (pipe_reachable _ _ pipe_s2_steps))). Qed.

Lemma pipe_overfill_deadlocks_witness :
  let σ' := sys_exec 2 (pipe_run (sy_state pipe_s2) (PipeWrite (demo_write 5000)))
              (sys_start 2 (PipeWrite (demo_write 5000)) pipe_s2) in
  sy_wait σ' !! 1%nat = Some (0, PipeReading demo_read) ∧
  (∃ kbuf chunk i, sy_wait σ' !! 2%nat =
     Some (0, PipeWriting (demo_write 5000) PIPE_BUF_SIZE kbuf chunk i)) ∧
  pb_count (pp_table (sy_state σ')).[0] = PIPE_BUF_SIZE.
Proof.
  apply (pipe_overfill_deadlocks pipe_s2 1 2 demo_read (demo_write 5000)).
  - exact pipe_s2_table.
  - vm_compute. reflexivity.
  - lia.
  - vm_compute. reflexivity.
  - vm_compute. reflexivity.
  - vm_compute. discriminate.
  - cbn. unfold is_u32. lia.
  - cbn. unfold PIPE_BUF_SIZE. lia.
  - reflexivity.
  - vm_compute. reflexivity.
  - vm_compute. reflexivity.
  - apply demo_copies. lia.
Defined.
