(* ===== verification/Tty.v ===== *)
(** * Terminal line discipline ([kernel/drivers/tty.c])

    The table of terminals and the operations on it.  Output of an operation
    to other components (echo, signals, wake-ups) is the list [tty_out] of its
    calls; a [char] is a byte.  [tty_read] is given by the round of its [for (;;)]
    loop, whose inputs are what it reads from its surroundings: pending signals
    and the characters [arch_poll_input] delivers. *)

From S2P Require Import Prelude Ring.

Definition ICRNL : Z := 1.
Definition OPOST : Z := 1.
Definition ONLCR : Z := 2.
Definition CREAD : Z := 1.
Definition CS8 : Z := 2.
Definition ICANON : Z := 1.
Definition ECHO : Z := 2.
Definition ECHOE : Z := 4.
Definition ISIG : Z := 8.
Definition NCCS : Z := 19.
Definition VINTR : Z := 0.
Definition VERASE : Z := 2.
Definition VEOF : Z := 4.
Definition VTIME : Z := 5.
Definition VMIN : Z := 6.
Definition VSTART : Z := 8.
Definition VSTOP : Z := 9.
Definition VSUSP : Z := 10.
Definition TTY_RAW_BUF_SIZE : Z := 256.
Definition TTY_CANON_BUF_SIZE : Z := 256.
Definition MAX_TTYS : Z := 4.
Definition SIGINT : Z := 2.
Definition SIGTSTP : Z := 20.

Record termios := {
  c_iflag : Z;
  c_oflag : Z;
  c_cflag : Z;
  c_lflag : Z;
  c_cc : list Z;
}.

Record tty := {
  raw_buf : list Z;
  raw_head : Z;
  raw_tail : Z;
  canon_buf : list Z;
  canon_len : Z;
  canon_ready : Z;
  tio : termios;
  ctrl_sid : Z;
  fg_pgid : Z;
  interrupted : Z;
  t_in_use : Z;
}.

Inductive tty_out :=
  | Feedback (bytes : list Z)
  | SignalGroup (pgid signum : Z)
  | WakeReaders (idx : Z).

Definition termios_zero : termios :=
  {| c_iflag := 0; c_oflag := 0; c_cflag := 0; c_lflag := 0;
     c_cc := replicate (Z.to_nat NCCS) 0 |}.

(** [tty_termios_set_defaults]: clears the structure, then sets these fields. *)
Definition tty_termios_set_defaults : termios :=
  {| c_iflag := ICRNL;
     c_oflag := Z.lor OPOST ONLCR;
     c_cflag := Z.lor CREAD CS8;
     c_lflag := Z.lor (Z.lor (Z.lor ICANON ECHO) ECHOE) ISIG;
     c_cc := (c_cc termios_zero)
               .[VINTR <- 0x03].[VEOF <- 0x04].[VERASE <- 0x7f].[VMIN <- 1].[VTIME <- 0]
               .[VSUSP <- 0x1a].[VSTART <- 0x11].[VSTOP <- 0x13] |}.

#[global] Instance tty_inhabited : Inhabited tty :=
  populate {| raw_buf := replicate (Z.to_nat TTY_RAW_BUF_SIZE) 0; raw_head := 0; raw_tail := 0;
              canon_buf := replicate (Z.to_nat TTY_CANON_BUF_SIZE) 0; canon_len := 0;
              canon_ready := 0; tio := termios_zero; ctrl_sid := 0; fg_pgid := 0;
              interrupted := 0; t_in_use := 0 |}.

Definition tty_init_one (t : tty) : tty :=
  {| raw_buf := raw_buf t; raw_head := 0; raw_tail := 0; canon_buf := canon_buf t;
     canon_len := 0; canon_ready := 0; tio := tty_termios_set_defaults; ctrl_sid := 0;
     fg_pgid := 0; interrupted := 0; t_in_use := 1 |}.

Definition tty_init (tbl : list tty) : list tty :=
  for_loop 0 (Z.to_nat MAX_TTYS) (λ i tbl, tbl.[i <- tty_init_one tbl.[i]]) tbl.

Definition tty_get (tbl : list tty) (idx : Z) : option tty :=
  if (idx <? 0) || (MAX_TTYS <=? idx) then None
  else if t_in_use tbl.[idx] =? 0 then None
  else Some tbl.[idx].

Definition has_flag (x f : Z) : bool := negb (Z.land x f =? 0).

Definition tty_wake_readers (tbl : list tty) (idx : Z) : list tty_out :=
  match tty_get tbl idx with None => [] | Some _ => [WakeReaders idx] end.

Definition tty_available (t : tty) : Z :=
  if has_flag (c_lflag (tio t)) ICANON
  then if canon_ready t =? 0 then 0 else canon_len t
  else if raw_tail t <=? raw_head t then raw_head t -u raw_tail t
  else (TTY_RAW_BUF_SIZE -u raw_tail t) +u raw_head t.

Definition tty_read_available (tbl : list tty) (idx : Z) : Z :=
  match tty_get tbl idx with None => 0 | Some t => tty_available t end.

(** ** Field updates *)

Definition set_interrupted (v : Z) (t : tty) : tty :=
  {| raw_buf := raw_buf t; raw_head := raw_head t; raw_tail := raw_tail t;
     canon_buf := canon_buf t; canon_len := canon_len t; canon_ready := canon_ready t;
     tio := tio t; ctrl_sid := ctrl_sid t; fg_pgid := fg_pgid t; interrupted := v;
     t_in_use := t_in_use t |}.
Definition set_canon (buf : list Z) (len ready : Z) (t : tty) : tty :=
  {| raw_buf := raw_buf t; raw_head := raw_head t; raw_tail := raw_tail t;
     canon_buf := buf; canon_len := len; canon_ready := ready;
     tio := tio t; ctrl_sid := ctrl_sid t; fg_pgid := fg_pgid t; interrupted := interrupted t;
     t_in_use := t_in_use t |}.
Definition set_raw (buf : list Z) (head tail : Z) (t : tty) : tty :=
  {| raw_buf := buf; raw_head := head; raw_tail := tail;
     canon_buf := canon_buf t; canon_len := canon_len t; canon_ready := canon_ready t;
     tio := tio t; ctrl_sid := ctrl_sid t; fg_pgid := fg_pgid t; interrupted := interrupted t;
     t_in_use := t_in_use t |}.

(** ** Input *)

(** Bytes of the echoed texts: ["^Z\n"], ["^C\n"], ["\b \b"]. *)
Definition echo_susp : list Z := [94; 90; 10].
Definition echo_intr : list Z := [94; 67; 10].
Definition echo_erase : list Z := [8; 32; 8].

Definition job_signal (idx signum : Z) (text : list Z) (t : tty) : tty * list tty_out :=
  if fg_pgid t =? 0 then (t, [])
  else (set_interrupted 1 t, [Feedback text; SignalGroup (fg_pgid t) signum; WakeReaders idx]).

Definition tty_ctrl_z (idx : Z) (t : tty) := job_signal idx SIGTSTP echo_susp t.
Definition tty_ctrl_c (idx : Z) (t : tty) := job_signal idx SIGINT echo_intr t.

Definition is_erase (t : tty) (c : Z) : bool :=
  (c =? 8) || (c =? 0x7f) || (c =? (c_cc (tio t)).[VERASE]).

Definition canon_erase (t : tty) : tty * list tty_out :=
  if 0 <? canon_len t
  then (set_canon (canon_buf t) (canon_len t -u 1) (canon_ready t) t,
        if has_flag (c_lflag (tio t)) ECHOE then [Feedback echo_erase] else [])
  else (t, []).

Definition canon_append (c : Z) (t : tty) : tty * list tty_out :=
  if canon_len t <? TTY_CANON_BUF_SIZE - 1
  then (set_canon ((canon_buf t).[canon_len t <- c]) (canon_len t +u 1) (canon_ready t) t,
        if has_flag (c_lflag (tio t)) ECHO then [Feedback [c]] else [])
  else (t, []).

Definition canon_char (idx c : Z) (t : tty) : tty * list tty_out :=
  let '(t1, o1) := canon_append c t in
  if c =? 10 then (set_canon (canon_buf t1) (canon_len t1) 1 t1, o1 ++ [WakeReaders idx])
  else (t1, o1).

Definition raw_char (idx c : Z) (t : tty) : tty * list tty_out :=
  let next := ring_next TTY_RAW_BUF_SIZE (raw_head t) in
  (if negb (next =? raw_tail t)
   then set_raw ((raw_buf t).[raw_head t <- c]) next (raw_tail t) t else t,
   [WakeReaders idx]).

(** [tty_input_char] on the terminal itself, after [tty_get]. *)
Definition input_char (idx c : Z) (t : tty) : tty * list tty_out :=
  let c := if (c =? 13) && has_flag (c_iflag (tio t)) ICRNL then 10 else c in
  let isig := has_flag (c_lflag (tio t)) ISIG in
  if (c =? (c_cc (tio t)).[VINTR]) && isig then tty_ctrl_c idx t
  else if (c =? (c_cc (tio t)).[VSUSP]) && isig then tty_ctrl_z idx t
  else if has_flag (c_lflag (tio t)) ICANON then
    if is_erase t c then canon_erase t else canon_char idx c t
  else raw_char idx c t.

Definition tty_input_char (tbl : list tty) (idx c : Z) : list tty * list tty_out :=
  match tty_get tbl idx with
  | None => (tbl, [])
  | Some t => let '(t', o) := input_char idx c t in (tbl.[idx <- t'], o)
  end.

(** ** Reading *)

(** [tty_read_was_interrupted]; [sig] is [sched_process_has_unblocked_signal]. *)
Definition tty_read_was_interrupted (sig : bool) (t : tty) : bool * tty :=
  if sig then (true, t)
  else if negb (interrupted t =? 0) then (true, set_interrupted 0 t)
  else (false, t).

(** [k_memmove(canon_buf, canon_buf + n, remaining)] *)
Definition shift_left (buf : list Z) (n remaining : Z) : list Z :=
  take (Z.to_nat remaining) (drop (Z.to_nat n) buf) ++ drop (Z.to_nat remaining) buf.

Definition canon_read (count : Z) (t : tty) : list Z * tty :=
  let n := if canon_len t <? count then canon_len t else count in
  let remaining := canon_len t -u n in
  (take (Z.to_nat n) (canon_buf t),
   set_canon (shift_left (canon_buf t) n remaining) remaining
     (if remaining =? 0 then 0 else canon_ready t) t).

(** [while (n < count && raw_head != raw_tail)] *)
Fixpoint raw_drain (fuel : nat) (count n : Z) (t : tty) : list Z * tty :=
  match fuel with
  | O => ([], t)
  | S fuel =>
      if (n <? count) && negb (raw_head t =? raw_tail t) then
        let b := (raw_buf t).[raw_tail t] in
        let '(bs, t') := raw_drain fuel count (n +u 1)
                           (set_raw (raw_buf t) (raw_head t) (ring_next TTY_RAW_BUF_SIZE (raw_tail t)) t) in
        (b :: bs, t')
      else ([], t)
  end.

(** How a round of [tty_read] ends: -1, bytes copied to the caller, or asleep on
    the terminal's queue before the next round. *)
Inductive tty_end := TtyFail | TtyBytes (bs : list Z) | TtyBlock.

Definition read_data (count : Z) (t : tty) : tty_end * tty :=
  if has_flag (c_lflag (tio t)) ICANON then
    if negb (canon_ready t =? 0)
    then let '(bs, t') := canon_read count t in (TtyBytes bs, t')
    else (TtyBlock, t)
  else if negb (raw_head t =? raw_tail t)
  then let '(bs, t') := raw_drain (Z.to_nat TTY_RAW_BUF_SIZE) count 0 t in (TtyBytes bs, t')
  else if (c_cc (tio t)).[VMIN] =? 0 then (TtyBytes [], t)
  else (TtyBlock, t).

Fixpoint poll_input (tbl : list tty) (polled : list (Z * Z)) : list tty * list tty_out :=
  match polled with
  | [] => (tbl, [])
  | (i, c) :: polled =>
      let '(tbl1, o1) := tty_input_char tbl i c in
      let '(tbl2, o2) := poll_input tbl1 polled in (tbl2, o1 ++ o2)
  end.

(** One round: [sig1] and [sig2] are the pending-signal tests before and after
    [arch_poll_input], which delivers [polled]. *)
Definition tty_read_round (tbl : list tty) (idx count : Z) (sig1 sig2 : bool)
    (polled : list (Z * Z)) : tty_end * list tty * list tty_out :=
  let '(int1, t1) := tty_read_was_interrupted sig1 tbl.[idx] in
  let tbl1 := tbl.[idx <- t1] in
  if int1 then (TtyFail, tbl1, [])
  else
    let '(tbl2, outs) := poll_input tbl1 polled in
    let '(int2, t2) := tty_read_was_interrupted sig2 tbl2.[idx] in
    let tbl3 := tbl2.[idx <- t2] in
    if int2 then (TtyFail, tbl3, outs)
    else let '(e, t3) := read_data count tbl3.[idx] in (e, tbl3.[idx <- t3], outs).

(** [tty_read] up to its first [sched_block]; [has_proc] is [sched_current() != 0]. *)
Definition tty_read (tbl : list tty) (idx count : Z) (has_proc sig1 sig2 : bool)
    (polled : list (Z * Z)) : tty_end * list tty * list tty_out :=
  match tty_get tbl idx with
  | None => (TtyFail, tbl, [])
  | Some _ =>
      if count =? 0 then (TtyFail, tbl, [])
      else if negb has_proc then (TtyFail, tbl, [])
      else tty_read_round tbl idx count sig1 sig2 polled
  end.
