(* ===== verification/TtyProps.v ===== *)
(** * Terminal line discipline: refinement of a list-based terminal

    [aterm] is a terminal without buffers and indices: the line being edited,
    whether a newline was typed, and the raw input queue.  [tty_input_refines]
    and [tty_read_refines] show that the ring and line-buffer code implements
    it; [tty_line_roundtrip] is what a user of canonical mode sees. *)

From S2P Require Import Prelude Ring Tty.

(** ** The abstract terminal *)

Record aterm := {
  a_line : list Z;
  a_ready : bool;
  a_raw : list Z;
  a_interrupted : bool;
}.

Definition raw_count (t : tty) : Z := (raw_head t - raw_tail t) mod TTY_RAW_BUF_SIZE.

Definition term_of (t : tty) : aterm :=
  {| a_line := take (Z.to_nat (canon_len t)) (canon_buf t);
     a_ready := negb (canon_ready t =? 0);
     a_raw := ring_contents TTY_RAW_BUF_SIZE (raw_buf t) (raw_tail t) (raw_count t);
     a_interrupted := negb (interrupted t =? 0) |}.

Record tty_ok (t : tty) : Prop := {
  tty_canon_len : length (canon_buf t) = Z.to_nat TTY_CANON_BUF_SIZE;
  tty_canon_range : 0 <= canon_len t <= 255;
  tty_raw_len : length (raw_buf t) = Z.to_nat TTY_RAW_BUF_SIZE;
  tty_raw_head : 0 <= raw_head t < 256;
  tty_raw_tail : 0 <= raw_tail t < 256;
}.

(** Erasing the last character of the line, echoing if it was one. *)
Definition a_erase (echo : bool) (a : aterm) : aterm * list tty_out :=
  ({| a_line := removelast (a_line a); a_ready := a_ready a; a_raw := a_raw a;
      a_interrupted := a_interrupted a |},
   if echo && negb (bool_decide (a_line a = [])) then [Feedback echo_erase] else []).

(** Adding a character to the line, which holds 255 at most. *)
Definition a_add (idx c : Z) (echo : bool) (a : aterm) : aterm * list tty_out :=
  let fits := bool_decide (length (a_line a) < 255)%nat in
  ({| a_line := if fits then a_line a ++ [c] else a_line a;
      a_ready := a_ready a || (c =? 10); a_raw := a_raw a; a_interrupted := a_interrupted a |},
   (if fits && echo then [Feedback [c]] else []) ++ if c =? 10 then [WakeReaders idx] else []).

(** Queueing a raw character; the queue holds 255 at most and drops the rest. *)
Definition a_queue (idx c : Z) (a : aterm) : aterm * list tty_out :=
  ({| a_line := a_line a; a_ready := a_ready a;
      a_raw := if bool_decide (length (a_raw a) < 255)%nat then a_raw a ++ [c] else a_raw a;
      a_interrupted := a_interrupted a |}, [WakeReaders idx]).

Definition a_signal (idx signum : Z) (text : list Z) (pgid : Z) (a : aterm) : aterm * list tty_out :=
  if pgid =? 0 then (a, [])
  else ({| a_line := a_line a; a_ready := a_ready a; a_raw := a_raw a; a_interrupted := true |},
        [Feedback text; SignalGroup pgid signum; WakeReaders idx]).

(** What a character does, from the terminal's settings. *)
Definition a_input (cfg : termios) (pgid idx c : Z) (a : aterm) : aterm * list tty_out :=
  let c := if (c =? 13) && has_flag (c_iflag cfg) ICRNL then 10 else c in
  let isig := has_flag (c_lflag cfg) ISIG in
  if (c =? (c_cc cfg).[VINTR]) && isig then a_signal idx SIGINT echo_intr pgid a
  else if (c =? (c_cc cfg).[VSUSP]) && isig then a_signal idx SIGTSTP echo_susp pgid a
  else if has_flag (c_lflag cfg) ICANON then
    if (c =? 8) || (c =? 0x7f) || (c =? (c_cc cfg).[VERASE])
    then a_erase (has_flag (c_lflag cfg) ECHOE) a
    else a_add idx c (has_flag (c_lflag cfg) ECHO) a
  else a_queue idx c a.

Definition a_read (cfg : termios) (count : Z) (a : aterm) : tty_end * aterm :=
  let n := Z.to_nat count in
  if has_flag (c_lflag cfg) ICANON then
    if a_ready a
    then (TtyBytes (take n (a_line a)),
          {| a_line := drop n (a_line a); a_ready := negb (bool_decide (drop n (a_line a) = []));
             a_raw := a_raw a; a_interrupted := a_interrupted a |})
    else (TtyBlock, a)
  else if bool_decide (a_raw a = [])
  then (if (c_cc cfg).[VMIN] =? 0 then TtyBytes [] else TtyBlock, a)
  else (TtyBytes (take n (a_raw a)),
        {| a_line := a_line a; a_ready := a_ready a; a_raw := drop n (a_raw a);
           a_interrupted := a_interrupted a |}).

(** ** The raw ring *)

Lemma raw_ring_ok t :
  tty_ok t → ring_ok TTY_RAW_BUF_SIZE (raw_buf t) (raw_head t) (raw_tail t) (raw_count t).
Proof.
  intros [_ _ Hl Hh Ht]. unfold raw_count, TTY_RAW_BUF_SIZE in *. split; try done; try lia.
  - pose proof (Z.mod_pos_bound (raw_head t - raw_tail t) 256). lia.
  - rewrite Zplus_mod_idemp_r, Z.mod_small; lia.
Qed.

Lemma raw_count_range t : 0 <= raw_count t <= 255.
Proof. unfold raw_count, TTY_RAW_BUF_SIZE. pose proof (Z.mod_pos_bound (raw_head t - raw_tail t) 256). lia. Qed.

Lemma raw_next i : 0 <= i < 256 → ring_next TTY_RAW_BUF_SIZE i = (i + 1) mod 256.
Proof. intros. apply (ring_next_ok 256); lia. Qed.

(** The "drop if full" test of the code is a test of the queue's length. *)
Lemma raw_full t :
  tty_ok t → (ring_next TTY_RAW_BUF_SIZE (raw_head t) =? raw_tail t) = (raw_count t =? 255).
Proof.
  intros [_ _ _ Hh Ht]. rewrite raw_next by done. unfold raw_count, TTY_RAW_BUF_SIZE.
  apply Bool.eq_iff_eq_true. rewrite !Z.eqb_eq. split; intros; zsolve.
Qed.

Lemma raw_empty t : tty_ok t → (raw_head t =? raw_tail t) = (raw_count t =? 0).
Proof.
  intros [_ _ _ Hh Ht]. unfold raw_count, TTY_RAW_BUF_SIZE.
  apply Bool.eq_iff_eq_true. rewrite !Z.eqb_eq. split; intros; zsolve.
Qed.

(** ** Input *)

Definition input_refines (cfg : termios) (pgid : Z) (r : tty * list tty_out)
    (a : aterm * list tty_out) : Prop :=
  tty_ok r.1 ∧ term_of r.1 = a.1 ∧ r.2 = a.2 ∧ tio r.1 = cfg ∧ fg_pgid r.1 = pgid.

Lemma job_signal_refines idx signum text t :
  tty_ok t → input_refines (tio t) (fg_pgid t) (job_signal idx signum text t)
               (a_signal idx signum text (fg_pgid t) (term_of t)).
Proof.
  intros Ht. unfold job_signal, a_signal. case_match; [by repeat split; try apply Ht|].
  by repeat split; try apply Ht.
Qed.

Lemma line_length t : tty_ok t → length (a_line (term_of t)) = Z.to_nat (canon_len t).
Proof.
  intros [Hl Hr _ _ _]. cbn. rewrite length_take. unfold TTY_CANON_BUF_SIZE in *. lia.
Qed.

Lemma canon_erase_refines t :
  tty_ok t → input_refines (tio t) (fg_pgid t) (canon_erase t)
               (a_erase (has_flag (c_lflag (tio t)) ECHOE) (term_of t)).
Proof.
  intros Ht. pose proof (line_length t Ht) as Hlen. destruct (Ht) as [Hl Hr _ _ _].
  unfold canon_erase, a_erase. destruct (Z.ltb_spec 0 (canon_len t)) as [Hpos|Hz].
  - assert (a_line (term_of t) ≠ []) as Hne. { intros E. rewrite E in Hlen. cbn in Hlen. lia. }
    rewrite (bool_decide_eq_false_2 _ Hne), andb_true_r. rewrite u32_small by zsolve.
    split; [split; cbn; try apply Ht; lia|]. split; [|done].
    unfold term_of, set_canon. cbn. f_equal. unfold TTY_CANON_BUF_SIZE in *.
    rewrite removelast_firstn_len, length_take, take_take. f_equal. lia.
  - assert (canon_len t = 0) as E by lia. repeat split; try apply Ht; cbn.
    + unfold term_of. cbn. by rewrite E.
    + by rewrite E, andb_false_r.
Qed.

Lemma canon_char_refines idx c t :
  tty_ok t → input_refines (tio t) (fg_pgid t) (canon_char idx c t)
               (a_add idx c (has_flag (c_lflag (tio t)) ECHO) (term_of t)).
Proof.
  intros Ht. pose proof (line_length t Ht) as Hlen. destruct (Ht) as [Hl Hr _ _ _].
  unfold TTY_CANON_BUF_SIZE in Hl.
  unfold canon_char, canon_append, a_add. rewrite Hlen.
  assert ((canon_len t <? TTY_CANON_BUF_SIZE - 1) = bool_decide (Z.to_nat (canon_len t) < 255)%nat) as ->.
  { change (TTY_CANON_BUF_SIZE - 1) with 255.
    destruct (Z.ltb_spec (canon_len t) 255); symmetry;
      [apply bool_decide_eq_true_2|apply bool_decide_eq_false_2]; lia. }
  destruct (bool_decide_reflect (Z.to_nat (canon_len t) < 255)%nat) as [Hlt|Hge]; cbn [andb].
  - rewrite u32_small by zsolve.
    assert (take (Z.to_nat (canon_len t + 1)) ((canon_buf t).[canon_len t <- c])
              = take (Z.to_nat (canon_len t)) (canon_buf t) ++ [c]) as Htk.
    { apply take_arr_snoc. lia. }
    destruct (Z.eqb_spec c 10) as [->|Hc]; (split; [split; cbn; rewrite ?length_arr_set; try apply Ht; lia|]);
      unfold term_of; cbn; rewrite Htk, ?orb_true_r, ?orb_false_r, ?app_nil_r; done.
  - destruct (Z.eqb_spec c 10) as [->|Hc]; (split; [split; cbn; try apply Ht; lia|]);
      unfold term_of; cbn; rewrite ?orb_true_r, ?orb_false_r; done.
Qed.

Lemma raw_char_refines idx c t :
  tty_ok t → input_refines (tio t) (fg_pgid t) (raw_char idx c t) (a_queue idx c (term_of t)).
Proof.
  intros Ht. pose proof (raw_ring_ok t Ht) as Hok. pose proof (raw_count_range t).
  destruct (Ht) as [_ _ Hl Hh Htl]. unfold raw_char, a_queue. rewrite raw_full by done.
  replace (length (a_raw (term_of t))) with (Z.to_nat (raw_count t))
    by (symmetry; apply length_ring_contents).
  destruct (Z.eqb_spec (raw_count t) 255) as [Hf|Hf]; cbn [negb].
  - rewrite bool_decide_eq_false_2 by lia. by repeat split; try apply Ht.
  - rewrite bool_decide_eq_true_2 by lia.
    destruct (ring_push _ _ _ _ _ c Hok) as [Hok' Hc']; [unfold TTY_RAW_BUF_SIZE; lia|].
    pose proof (ring_head_range _ _ _ _ _ Hok') as Hh'. unfold TTY_RAW_BUF_SIZE in Hh'.
    assert (raw_count (set_raw ((raw_buf t).[raw_head t <- c])
              (ring_next TTY_RAW_BUF_SIZE (raw_head t)) (raw_tail t) t) = raw_count t + 1) as Hcnt.
    { unfold raw_count. cbn. rewrite raw_next by done. unfold raw_count, TTY_RAW_BUF_SIZE in *. zsolve. }
    split; [split; cbn; rewrite ?length_arr_set; try apply Ht; done|]. split; [|done].
    cbn [fst]. unfold term_of. rewrite Hcnt. cbn. by rewrite Hc'.
Qed.

(** C35: The line discipline implements the abstract terminal.  A character has
    the effect its settings give it — mapped to newline, turned into a signal
    for the foreground group, editing the line, or queued — with the same
    echo, signals and wake-ups in the same order, for every setting and every
    state of the buffers; index arithmetic, the full and empty cases and the
    wrap-around of the ring included. *)
Theorem tty_input_refines idx c t :
  tty_ok t →
  tty_ok (input_char idx c t).1 ∧
  term_of (input_char idx c t).1 = (a_input (tio t) (fg_pgid t) idx c (term_of t)).1 ∧
  (input_char idx c t).2 = (a_input (tio t) (fg_pgid t) idx c (term_of t)).2 ∧
  tio (input_char idx c t).1 = tio t ∧ fg_pgid (input_char idx c t).1 = fg_pgid t.
Proof.
  intros Ht. unfold input_char, a_input, tty_ctrl_c, tty_ctrl_z, is_erase.
  destruct (_ && has_flag (c_lflag _) ISIG); [by apply job_signal_refines|].
  destruct (_ && has_flag (c_lflag _) ISIG); [by apply job_signal_refines|].
  destruct (has_flag _ ICANON); [|by apply raw_char_refines].
  destruct (_ || _); [by apply canon_erase_refines|by apply canon_char_refines].
Qed.

(** ** Reading *)

Lemma raw_drain_spec fuel count n t bs t' :
  tty_ok t → is_u32 count → 0 <= n <= count → (Z.to_nat (raw_count t) <= fuel)%nat →
  raw_drain fuel count n t = (bs, t') →
  tty_ok t' ∧ a_raw (term_of t) = bs ++ a_raw (term_of t') ∧
  Z.of_nat (length bs) = Z.min (raw_count t) (count - n) ∧
  ∃ tail, t' = set_raw (raw_buf t) (raw_head t) tail t.
Proof.
  revert n t bs. induction fuel as [|fuel IH]; intros n t bs Ht Hc Hn Hf; cbn [raw_drain];
    pose proof (raw_count_range t).
  { intros [= <- <-]. split_and!; auto; cbn; [lia|]. exists (raw_tail t). by destruct t. }
  rewrite (raw_empty t Ht).
  destruct (Z.ltb_spec n count), (Z.eqb_spec (raw_count t) 0); cbn [andb negb];
    try (intros [= <- <-]; split_and!; auto; cbn; [lia|]; exists (raw_tail t); by destruct t).
  set (t1 := set_raw _ _ _ t).
  destruct (raw_drain fuel count (n +u 1) t1) as [bs1 t2] eqn:E. intros [= <- <-].
  rewrite u32_small in E by zsolve.
  destruct (ring_pop _ _ _ _ _ (raw_ring_ok t Ht)) as [Hok1 Hc1]; [lia|].
  destruct (Ht) as [? ? ? Hh Htl].
  assert (raw_count t1 = raw_count t - 1) as Hcnt.
  { unfold raw_count, t1. cbn. rewrite raw_next by done. unfold raw_count, TTY_RAW_BUF_SIZE in *. zsolve. }
  assert (tty_ok t1) as Ht1.
  { split; try done. cbn. exact (ring_tail _ _ _ _ _ Hok1). }
  apply IH in E as (Ht2 & Hb2 & Hl2 & [tail ->]); [|done|done|lia|lia].
  split; [done|]. split.
  - cbn [a_raw term_of] in *. rewrite Hcnt in Hb2. cbn [t1 set_raw raw_buf raw_tail] in Hb2.
    by rewrite Hc1, Hb2.
  - split; [cbn [length]; lia|by exists tail].
Qed.

Lemma canon_read_spec count t :
  tty_ok t → is_u32 count →
  tty_ok (canon_read count t).2 ∧
  (canon_read count t).1 = take (Z.to_nat count) (a_line (term_of t)) ∧
  a_line (term_of (canon_read count t).2) = drop (Z.to_nat count) (a_line (term_of t)) ∧
  canon_len (canon_read count t).2 = canon_len t - Z.min (canon_len t) count.
Proof.
  intros Ht Hc. destruct (Ht) as [Hl Hr _ _ _]. unfold TTY_CANON_BUF_SIZE in *.
  unfold canon_read. set (n := if canon_len t <? count then canon_len t else count).
  assert (n = Z.min (canon_len t) count) as Hn by (unfold n; bcase; lia).
  rewrite u32_small by zsolve. set (rem := canon_len t - n). cbn [fst snd].
  assert (length (shift_left (canon_buf t) n rem) = 256%nat) as Hsl.
  { unfold shift_left. rewrite length_app, length_take, !length_drop. unfold rem. zsolve. }
  split_and!.
  - split; cbn; try apply Ht; [done|unfold rem; zsolve].
  - cbn. rewrite take_take. f_equal. zsolve.
  - cbn. unfold shift_left. rewrite take_app_le by (rewrite length_take, length_drop; unfold rem; zsolve).
    rewrite take_take, Nat.min_id. rewrite skipn_firstn_comm.
    destruct (decide (canon_len t <= count)).
    + replace rem with 0 by (unfold rem; lia). rewrite take_0.
      replace (Z.to_nat (canon_len t) - Z.to_nat count)%nat with 0%nat by lia. by rewrite take_0.
    + replace n with count by lia. f_equal. unfold rem. zsolve.
  - cbn. unfold rem. lia.
Qed.

(** Reading implements the abstract terminal too: in canonical mode a read
    returns the first [count] bytes of the line once a newline was typed and
    keeps the rest, in raw mode it returns the oldest [count] bytes of the
    queue in order; otherwise it blocks (or returns at once when [VMIN] is 0). *)
Theorem tty_read_refines count t :
  tty_ok t → is_u32 count →
  tty_ok (read_data count t).2 ∧
  ((read_data count t).1, term_of (read_data count t).2) = a_read (tio t) count (term_of t).
Proof.
  intros Ht Hc. unfold read_data, a_read. destruct (has_flag _ ICANON).
  - cbn [term_of a_ready]. destruct (Z.eqb_spec (canon_ready t) 0) as [E|E]; cbn [negb]; [done|].
    destruct (canon_read_spec count t Ht Hc) as (Ht' & Hb & Hline & Hlen).
    pose proof (line_length _ Ht') as Hll. destruct (Ht) as [_ Hr _ _ _].
    destruct (canon_read count t) as [bs t'] eqn:Ec. cbn [fst snd] in *. split; [done|].
    rewrite Hb. f_equal. change (take (Z.to_nat (canon_len t)) (canon_buf t)) with (a_line (term_of t)).
    rewrite <-Hline.
    assert (canon_ready t' = if canon_len t' =? 0 then 0 else canon_ready t) as Hr'.
    { unfold canon_read in Ec. by simplify_eq. }
    assert (raw_buf t' = raw_buf t ∧ raw_head t' = raw_head t ∧ raw_tail t' = raw_tail t ∧
            interrupted t' = interrupted t) as (H1 & H2 & H3 & H4).
    { unfold canon_read in Ec. by simplify_eq. }
    unfold term_of at 1, raw_count. rewrite H1, H2, H3, H4, Hr'. f_equal.
    destruct (Z.eqb_spec (canon_len t') 0) as [E0|E0].
    + rewrite E0 in Hll. rewrite bool_decide_eq_true_2; [done|]. by apply nil_length_inv.
    + rewrite bool_decide_eq_false_2; [by rewrite (proj2 (Z.eqb_neq _ 0) E)|].
      intros En. rewrite En in Hll. cbn in Hll. destruct Ht' as [_ ? _ _ _]. lia.
  - rewrite (raw_empty t Ht). pose proof (raw_count_range t).
    assert (length (a_raw (term_of t)) = Z.to_nat (raw_count t)) as Hlen by apply length_ring_contents.
    destruct (Z.eqb_spec (raw_count t) 0) as [E|E]; cbn [negb].
    { rewrite E in Hlen. rewrite bool_decide_eq_true_2 by by apply nil_length_inv.
      by destruct (_ =? 0). }
    rewrite bool_decide_eq_false_2; [|intros En; rewrite En in Hlen; cbn in Hlen; lia].
    destruct (raw_drain _ count 0 t) as [bs t'] eqn:Ed.
    apply raw_drain_spec in Ed as (Ht' & Hb & Hl & [tail ->]);
      [|done|done|zsolve|unfold TTY_RAW_BUF_SIZE; lia].
    cbn [fst snd]. split; [done|]. rewrite Z.sub_0_r in Hl.
    assert (take (Z.to_nat count) (a_raw (term_of t)) = bs ∧
            drop (Z.to_nat count) (a_raw (term_of t)) =
            a_raw (term_of (set_raw (raw_buf t) (raw_head t) tail t))) as [-> Hd].
    { destruct (decide (count <= raw_count t)).
      - rewrite Hb. rewrite take_app_length', drop_app_length' by lia. done.
      - assert (a_raw (term_of (set_raw (raw_buf t) (raw_head t) tail t)) = []) as Hnil.
        { apply nil_length_inv. apply (f_equal length) in Hb. rewrite length_app in Hb. lia. }
        rewrite Hnil, app_nil_r in Hb. rewrite Hnil, Hb. split; [apply take_ge; lia|apply drop_ge; lia]. }
    by rewrite Hd.
Qed.

Lemma raw_drain_tio fuel count n t : tio (raw_drain fuel count n t).2 = tio t.
Proof.
  revert n t. induction fuel as [|fuel IH]; intros n t; cbn [raw_drain]; [done|].
  destruct (_ && _); [|done]. set (t1 := set_raw _ _ _ t). specialize (IH (n +u 1) t1).
  by destruct (raw_drain fuel count _ t1).
Qed.

Lemma read_data_tio count t : tio (read_data count t).2 = tio t.
Proof.
  unfold read_data. destruct (has_flag _ ICANON); [by destruct (negb _)|].
  destruct (negb _); [|by destruct (_ =? 0)].
  pose proof (raw_drain_tio (Z.to_nat TTY_RAW_BUF_SIZE) count 0 t) as Hd.
  by destruct (raw_drain _ count 0 t).
Qed.

(** ** Typing a line *)

Definition type_keys (idx : Z) (t : tty) (keys : list Z) : tty :=
  foldl (λ t c, (input_char idx c t).1) t keys.

(** Line editing as the user sees it. *)
Definition edit_key (l : list Z) (c : Z) : list Z :=
  if (c =? 8) || (c =? 0x7f) then removelast l
  else if bool_decide (length l < 255)%nat then l ++ [c] else l.

(** A key that the default settings neither map nor turn into a signal. *)
Definition plain_key (c : Z) : Prop := c ≠ 13 ∧ c ≠ 10 ∧ c ≠ 0x03 ∧ c ≠ 0x1a.

Definition default_input (c : Z) (a : aterm) : aterm :=
  {| a_line := edit_key (a_line a) c; a_ready := a_ready a || (c =? 10);
     a_raw := a_raw a; a_interrupted := a_interrupted a |}.

Lemma default_input_ok idx c t :
  tty_ok t → tio t = tty_termios_set_defaults → c ≠ 13 → c ≠ 0x03 → c ≠ 0x1a →
  let t' := (input_char idx c t).1 in
  tty_ok t' ∧ tio t' = tty_termios_set_defaults ∧ term_of t' = default_input c (term_of t).
Proof.
  intros Ht Hd Hcr Hintr Hsusp. cbn zeta.
  destruct (tty_input_refines idx c t Ht) as (Ht' & Ha & _ & Hio & _). rewrite Hd in *.
  split_and!; try done. rewrite Ha. unfold a_input, default_input, edit_key.
  change (has_flag (c_iflag tty_termios_set_defaults) ICRNL) with true.
  change (has_flag (c_lflag tty_termios_set_defaults) ISIG) with true.
  change (has_flag (c_lflag tty_termios_set_defaults) ICANON) with true.
  change (has_flag (c_lflag tty_termios_set_defaults) ECHOE) with true.
  change (has_flag (c_lflag tty_termios_set_defaults) ECHO) with true.
  change ((c_cc tty_termios_set_defaults).[VINTR]) with 3.
  change ((c_cc tty_termios_set_defaults).[VSUSP]) with 26.
  change ((c_cc tty_termios_set_defaults).[VERASE]) with 127.
  rewrite (proj2 (Z.eqb_neq c 13)) by done. cbn [andb].
  rewrite (proj2 (Z.eqb_neq c 3)), (proj2 (Z.eqb_neq c 26)) by done. cbn [andb]. destruct (Z.eqb_spec c 8) as [E8|]; cbn [orb].
  { unfold a_erase. cbn [fst]. rewrite E8. by rewrite orb_false_r. }
  destruct (Z.eqb_spec c 127) as [E127|]; cbn [orb].
  { unfold a_erase. cbn [fst]. rewrite E127. by rewrite orb_false_r. }
  unfold a_add. by destruct (bool_decide _).
Qed.

Lemma type_keys_ok idx t keys :
  tty_ok t → tio t = tty_termios_set_defaults → Forall plain_key keys →
  let t' := type_keys idx t keys in
  tty_ok t' ∧ tio t' = tty_termios_set_defaults ∧
  a_line (term_of t') = foldl edit_key (a_line (term_of t)) keys ∧
  a_ready (term_of t') = a_ready (term_of t).
Proof.
  cbn zeta. intros Ht Hd Hk. revert t Ht Hd. induction Hk as [|c keys [? [? [? ?]]] _ IH]; intros t Ht Hd.
  { done. }
  destruct (default_input_ok idx c t) as (Ht1 & Hd1 & Ha1); try done.
  destruct (IH _ Ht1 Hd1) as (? & ? & Hl & Hr).
  change (type_keys idx t (c :: keys)) with (type_keys idx (input_char idx c t).1 keys).
  split_and!; try done.
  - rewrite Hl, Ha1. done.
  - rewrite Hr, Ha1. cbn. rewrite (proj2 (Z.eqb_neq c 10)) by done. by rewrite orb_false_r.
Qed.

(** A line typed at a terminal with the default settings is what the next
    read returns: the characters left after the erase keys took effect, with
    the newline at the end, cut at 255 bytes; the terminal is then empty again
    and the next read blocks. *)
Theorem tty_line_roundtrip idx t keys count :
  tty_ok t → tio t = tty_termios_set_defaults →
  a_line (term_of t) = [] → Forall plain_key keys → 255 <= count < 2 ^ 32 →
  let t1 := type_keys idx t (keys ++ [10]) in
  (read_data count t1).1 = TtyBytes (take 255 (foldl edit_key [] keys ++ [10])) ∧
  (read_data count (read_data count t1).2).1 = TtyBlock.
Proof.
  intros Ht Hd Hnil Hk Hc. cbn zeta. unfold type_keys. rewrite foldl_app. cbn [foldl].
  destruct (type_keys_ok idx t keys Ht Hd Hk) as (Ht1 & Hd1 & Hl1 & _). rewrite Hnil in Hl1.
  fold (type_keys idx t keys). set (t1 := type_keys idx t keys) in *.
  destruct (default_input_ok idx 10 t1) as (Ht2 & Hd2 & Ha2); try done.
  set (t2 := (input_char idx 10 t1).1) in *.
  pose proof (line_length _ Ht1) as Hlen. destruct (Ht1) as [_ Hr _ _ _].
  assert (a_line (term_of t2) = take 255 (foldl edit_key [] keys ++ [10])) as Hl2.
  { rewrite Ha2. cbn [default_input a_line]. rewrite Hl1 in *. unfold edit_key at 1. cbn [Z.eqb orb].
    destruct (bool_decide_reflect (length (foldl edit_key [] keys) < 255)%nat).
    - rewrite take_ge; [done|]. rewrite length_app. cbn. lia.
    - rewrite take_app_length' by lia. done. }
  destruct (tty_read_refines count t2 Ht2) as [Ht3 Hread]; [unfold is_u32; lia|].
  assert (take (Z.to_nat count) (a_line (term_of t2)) = a_line (term_of t2) ∧
          drop (Z.to_nat count) (a_line (term_of t2)) = []) as [Htk Hdr].
  { rewrite Hl2. split; [apply take_ge|apply drop_ge]; rewrite length_take; lia. }
  unfold a_read in Hread. rewrite Hd2 in Hread.
  change (has_flag (c_lflag tty_termios_set_defaults) ICANON) with true in Hread.
  assert (a_ready (term_of t2) = true) as Hrd by (rewrite Ha2; cbn; apply orb_true_r).
  rewrite Hrd, Htk, Hdr in Hread. 
  pose proof (f_equal fst Hread) as He. pose proof (f_equal (λ x, a_ready x.2) Hread) as Hr3.
  cbn [fst snd a_ready] in He, Hr3. split; [rewrite He; f_equal; exact Hl2|].
  assert (tio (read_data count t2).2 = tty_termios_set_defaults) as Hd3.
  { by rewrite read_data_tio. }
  unfold read_data at 1. rewrite Hd3.
  change (has_flag (c_lflag tty_termios_set_defaults) ICANON) with true. cbn iota.
  cbn [term_of a_ready] in Hr3. by rewrite Hr3.
Qed.

(** [tty_read] is documented to return at least one byte.  A newline erased
    before the read leaves [canon_ready] set on an empty line, and the read
    returns nothing. *)
Theorem tty_read_may_return_nothing idx t count :
  tty_ok t → tio t = tty_termios_set_defaults → a_line (term_of t) = [] → 0 < count < 2 ^ 32 →
  (read_data count (type_keys idx t [10; 0x7f])).1 = TtyBytes [].
Proof.
  intros Ht Hd Hnil Hc. cbn [type_keys foldl].
  destruct (default_input_ok idx 10 t) as (Ht1 & Hd1 & Ha1); try done.
  destruct (default_input_ok idx 0x7f _ Ht1 Hd1) as (Ht2 & Hd2 & Ha2); try done.
  destruct (tty_read_refines count _ Ht2) as [_ Hread]; [unfold is_u32; lia|].
  apply (f_equal fst) in Hread. cbn [fst] in Hread. unfold type_keys. cbn [foldl].
  rewrite Hread, Hd2, Ha2, Ha1. unfold a_read, default_input.
  change (has_flag (c_lflag tty_termios_set_defaults) ICANON) with true.
  cbn [a_ready a_line]. rewrite Hnil, orb_true_r, orb_true_l.
  change (edit_key (edit_key [] 10) 127) with (@nil Z). cbn [fst]. by rewrite take_nil.
Qed.

(** ** Witnesses *)

Definition demo_tty : tty := tty_init_one inhabitant.

Lemma demo_tty_ok : tty_ok demo_tty.
Proof. split; first [reflexivity | cbn; lia]. Qed.

Lemma tty_input_refines_witness :
  tty_ok (input_char 0 97 demo_tty).1 ∧
  term_of (input_char 0 97 demo_tty).1 =
    (a_input (tio demo_tty) (fg_pgid demo_tty) 0 97 (term_of demo_tty)).1 ∧
  (input_char 0 97 demo_tty).2 =
    (a_input (tio demo_tty) (fg_pgid demo_tty) 0 97 (term_of demo_tty)).2 ∧
  tio (input_char 0 97 demo_tty).1 = tio demo_tty ∧
  fg_pgid (input_char 0 97 demo_tty).1 = fg_pgid demo_tty.
Proof. apply (tty_input_refines 0 97 demo_tty). exact demo_tty_ok. Defined.

Lemma tty_read_refines_witness :
  tty_ok (read_data 16 demo_tty).2 ∧
  ((read_data 16 demo_tty).1, term_of (read_data 16 demo_tty).2) =
  a_read (tio demo_tty) 16 (term_of demo_tty).
Proof. apply (tty_read_refines 16 demo_tty); [exact demo_tty_ok|]. unfold is_u32. lia. Defined.

(** "lx", erase, "s", newline. *)
Lemma tty_line_roundtrip_witness :
  let t1 := type_keys 0 demo_tty ([108; 120; 0x7f; 115] ++ [10]) in
  (read_data 255 t1).1 = TtyBytes (take 255 (foldl edit_key [] [108; 120; 0x7f; 115] ++ [10])) ∧
  (read_data 255 (read_data 255 t1).2).1 = TtyBlock.
Proof.
  apply (tty_line_roundtrip 0 demo_tty [108; 120; 0x7f; 115] 255).
  - exact demo_tty_ok.
  - reflexivity.
  - reflexivity.
  - forall_list; unfold plain_key; lia.
  - lia.
Defined.

Example tty_line_example : foldl edit_key [] [108; 120; 0x7f; 115] = [108; 115].
Proof. reflexivity. Qed.
