(* ===== verification/Inputdev.v ===== *)
(** * Input event rings ([kernel/drivers/inputdev.c])

    [/dev/kbd] and [/dev/mouse]: rings of [input_event_t] records written by
    interrupt handlers and drained by blocking reads.  The abstract device is a
    list of unread events of which only the newest 64 are kept;
    [inputdev_refines] shows that the rings implement it for every sequence of
    key, mouse and read calls. *)

From S2P Require Import Prelude Ring.

Definition KBD_RING_RECORDS : Z := 64.
Definition MOUSE_RING_RECORDS : Z := 64.
Definition INPUT_EVENT_BYTES : Z := 16.

Definition MOUSE_PACKET_X_SIGN : Z := 0x10.
Definition MOUSE_PACKET_Y_SIGN : Z := 0x20.
Definition MOUSE_PACKET_X_OVERFLOW : Z := 0x40.
Definition MOUSE_PACKET_Y_OVERFLOW : Z := 0x80.
Definition EV_SYN : Z := 0.
Definition EV_KEY : Z := 1.
Definition EV_REL : Z := 2.
Definition SYN_REPORT : Z := 0.
Definition REL_X : Z := 0.
Definition REL_Y : Z := 1.
Definition BTN_LEFT : Z := 0x110.
Definition BTN_RIGHT : Z := 0x111.
Definition BTN_MIDDLE : Z := 0x112.

Record input_event := {
  ev_sec : Z;
  ev_usec : Z;
  ev_type : Z;
  ev_code : Z;
  ev_value : Z;
}.
#[global] Instance input_event_inhabited : Inhabited input_event :=
  populate {| ev_sec := 0; ev_usec := 0; ev_type := 0; ev_code := 0; ev_value := 0 |}.

(** The fields the two ring structures share, which the helpers get by
    reference. *)
Record evt_ring := {
  er_buf : list input_event;
  er_head : Z;
  er_tail : Z;
  er_count : Z;
}.

Record inputdev := {
  kbd_ring : evt_ring;
  mouse_ring : evt_ring;
  prev_buttons : Z;
}.

Definition evt_ring_zero (cap : Z) : evt_ring :=
  {| er_buf := replicate (Z.to_nat cap) inhabitant; er_head := 0; er_tail := 0; er_count := 0 |}.

Definition inputdev_boot : inputdev :=
  {| kbd_ring := evt_ring_zero KBD_RING_RECORDS; mouse_ring := evt_ring_zero MOUSE_RING_RECORDS;
     prev_buttons := 0 |}.

Definition evt_ring_emit (cap : Z) (e : input_event) (r : evt_ring) : evt_ring :=
  let r := if er_count r =? cap
           then {| er_buf := er_buf r; er_head := er_head r; er_tail := ring_next cap (er_tail r);
                   er_count := er_count r -u 1 |}
           else r in
  {| er_buf := (er_buf r).[er_head r <- e]; er_head := ring_next cap (er_head r);
     er_tail := er_tail r; er_count := er_count r +u 1 |}.

(** [while (copied < records && *count > 0)] *)
Fixpoint evt_drain (cap : Z) (n : nat) (records copied : Z) (r : evt_ring) :
    list input_event * evt_ring :=
  match n with
  | O => ([], r)
  | S n =>
      if (copied <? records) && (0 <? er_count r) then
        let e := (er_buf r).[er_tail r] in
        let '(es, r') := evt_drain cap n records (copied +u 1)
          {| er_buf := er_buf r; er_head := er_head r; er_tail := ring_next cap (er_tail r);
             er_count := er_count r -u 1 |} in
        (e :: es, r')
      else ([], r)
  end.

(** How [evt_ring_read] ends: -1, asleep on the queue of an empty ring, or with
    these records copied out (its result is their size in bytes). *)
Inductive evt_end := EvtFail | EvtBlock | EvtRead (es : list input_event).

Definition evt_ring_read (cap : Z) (r : evt_ring) (bytes : Z) : evt_end * evt_ring :=
  if bytes <? INPUT_EVENT_BYTES then (EvtFail, r)
  else
    let records := bytes / INPUT_EVENT_BYTES in
    if er_count r =? 0 then (EvtBlock, r)
    else let '(es, r') := evt_drain cap (Z.to_nat (er_count r)) records 0 r in (EvtRead es, r').

Definition set_kbd (r : evt_ring) (d : inputdev) : inputdev :=
  {| kbd_ring := r; mouse_ring := mouse_ring d; prev_buttons := prev_buttons d |}.
Definition set_mouse (r : evt_ring) (d : inputdev) : inputdev :=
  {| kbd_ring := kbd_ring d; mouse_ring := r; prev_buttons := prev_buttons d |}.

Definition kbdev_read (d : inputdev) (count : Z) : evt_end * inputdev :=
  let '(e, r) := evt_ring_read KBD_RING_RECORDS (kbd_ring d) count in (e, set_kbd r d).
Definition mousedev_read (d : inputdev) (count : Z) : evt_end * inputdev :=
  let '(e, r) := evt_ring_read MOUSE_RING_RECORDS (mouse_ring d) count in (e, set_mouse r d).

Definition event (time : Z * Z) (type code value : Z) : input_event :=
  {| ev_sec := time.1; ev_usec := time.2; ev_type := type; ev_code := code; ev_value := value |}.

(** [time]: seconds and ticks read from the clock. *)
Definition kbdev_push_key (time : Z * Z) (code value : Z) (d : inputdev) : inputdev :=
  let r := evt_ring_emit KBD_RING_RECORDS (event time EV_KEY code value) (kbd_ring d) in
  set_kbd (evt_ring_emit KBD_RING_RECORDS (event time EV_SYN SYN_REPORT 0) r) d.

Definition s8 (x : Z) : Z := (x + 128) mod 256 - 128.
Definition has_bit (x m : Z) : bool := negb (Z.land x m =? 0).

Definition packet_rel_x (flags dx : Z) : Z :=
  if has_bit flags MOUSE_PACKET_X_OVERFLOW
  then if has_bit flags MOUSE_PACKET_X_SIGN then -127 else 127
  else s8 dx.

Definition packet_rel_y (flags dy : Z) : Z :=
  - (if has_bit flags MOUSE_PACKET_Y_OVERFLOW
     then if has_bit flags MOUSE_PACKET_Y_SIGN then -127 else 127
     else s8 dy).

Definition emit_if (b : bool) (e : input_event) (r : evt_ring) : evt_ring :=
  if b then evt_ring_emit MOUSE_RING_RECORDS e r else r.

Definition mousedev_push_packet (time : Z * Z) (flags dx dy : Z) (d : inputdev) : inputdev :=
  let cur := Z.land flags 0x07 in
  let changed := Z.lxor cur (prev_buttons d) in
  let rel_x := packet_rel_x flags dx in
  let rel_y := packet_rel_y flags dy in
  let down m := if has_bit cur m then 1 else 0 in
  let r := mouse_ring d in
  let r := emit_if (negb (rel_x =? 0)) (event time EV_REL REL_X rel_x) r in
  let r := emit_if (negb (rel_y =? 0)) (event time EV_REL REL_Y rel_y) r in
  let r := emit_if (has_bit changed 1) (event time EV_KEY BTN_LEFT (down 1)) r in
  let r := emit_if (has_bit changed 2) (event time EV_KEY BTN_RIGHT (down 2)) r in
  let r := emit_if (has_bit changed 4) (event time EV_KEY BTN_MIDDLE (down 4)) r in
  let r := evt_ring_emit MOUSE_RING_RECORDS (event time EV_SYN SYN_REPORT 0) r in
  {| kbd_ring := kbd_ring d; mouse_ring := r; prev_buttons := cur |}.

(** The result says whether the readers are woken. *)
Definition kbdev_push_event (time : Z * Z) (type code value : Z) (d : inputdev) : bool * inputdev :=
  ((type =? EV_SYN) && (code =? SYN_REPORT),
   set_kbd (evt_ring_emit KBD_RING_RECORDS (event time type code value) (kbd_ring d)) d).
Definition mousedev_push_event (time : Z * Z) (type code value : Z) (d : inputdev) : bool * inputdev :=
  ((type =? EV_SYN) && (code =? SYN_REPORT),
   set_mouse (evt_ring_emit MOUSE_RING_RECORDS (event time type code value) (mouse_ring d)) d).

(** ** Calls *)

Inductive input_call :=
  | PushKey (time : Z * Z) (code value : Z)
  | PushPacket (time : Z * Z) (flags dx dy : Z)
  | PushKbdEvent (time : Z * Z) (type code value : Z)
  | PushMouseEvent (time : Z * Z) (type code value : Z)
  | ReadKbd (bytes : Z)
  | ReadMouse (bytes : Z).

Definition do_call (d : inputdev) (c : input_call) : option evt_end * inputdev :=
  match c with
  | PushKey time code value => (None, kbdev_push_key time code value d)
  | PushPacket time flags dx dy => (None, mousedev_push_packet time flags dx dy d)
  | PushKbdEvent time type code value => (None, (kbdev_push_event time type code value d).2)
  | PushMouseEvent time type code value => (None, (mousedev_push_event time type code value d).2)
  | ReadKbd bytes => let '(e, d') := kbdev_read d bytes in (Some e, d')
  | ReadMouse bytes => let '(e, d') := mousedev_read d bytes in (Some e, d')
  end.

Fixpoint run_calls {D} (step : D → input_call → option evt_end * D) (d : D)
    (cs : list input_call) : list (option evt_end) * D :=
  match cs with
  | [] => ([], d)
  | c :: cs =>
      let '(o, d1) := step d c in
      let '(os, d2) := run_calls step d1 cs in (o :: os, d2)
  end.

(** ** The abstract device *)

Record adev := {
  a_kbd : list input_event;
  a_mouse : list input_event;
  a_buttons : Z;
}.

(** The newest 64 of the unread events. *)
Definition keep (l : list input_event) (e : input_event) : list input_event :=
  last_n 64 (l ++ [e]).

(** The events a mouse packet stands for: motion, then the buttons that
    changed, then the end of the report. *)
Definition packet_events (time : Z * Z) (flags dx dy prev : Z) : list input_event :=
  let cur := Z.land flags 7 in
  let button m code :=
    if Bool.eqb (has_bit cur m) (has_bit prev m) then []
    else [event time EV_KEY code (if has_bit cur m then 1 else 0)] in
  let motion code v := if v =? 0 then [] else [event time EV_REL code v] in
  motion REL_X (packet_rel_x flags dx) ++ motion REL_Y (packet_rel_y flags dy) ++
  button 1 BTN_LEFT ++ button 2 BTN_RIGHT ++ button 4 BTN_MIDDLE ++
  [event time EV_SYN SYN_REPORT 0].

Definition a_read (l : list input_event) (bytes : Z) : evt_end * list input_event :=
  if bytes <? 16 then (EvtFail, l)
  else match l with
       | [] => (EvtBlock, [])
       | _ => let n := Z.to_nat (bytes / 16) in (EvtRead (take n l), drop n l)
       end.

Definition a_call (a : adev) (c : input_call) : option evt_end * adev :=
  let on_kbd l := {| a_kbd := l; a_mouse := a_mouse a; a_buttons := a_buttons a |} in
  let on_mouse l := {| a_kbd := a_kbd a; a_mouse := l; a_buttons := a_buttons a |} in
  match c with
  | PushKey time code value =>
      (None, on_kbd (foldl keep (a_kbd a) [event time EV_KEY code value; event time EV_SYN SYN_REPORT 0]))
  | PushPacket time flags dx dy =>
      (None, {| a_kbd := a_kbd a;
                a_mouse := foldl keep (a_mouse a) (packet_events time flags dx dy (a_buttons a));
                a_buttons := Z.land flags 7 |})
  | PushKbdEvent time type code value => (None, on_kbd (keep (a_kbd a) (event time type code value)))
  | PushMouseEvent time type code value =>
      (None, on_mouse (keep (a_mouse a) (event time type code value)))
  | ReadKbd bytes => let '(e, l) := a_read (a_kbd a) bytes in (Some e, on_kbd l)
  | ReadMouse bytes => let '(e, l) := a_read (a_mouse a) bytes in (Some e, on_mouse l)
  end.

(** ** Refinement *)

Definition evt_ok (r : evt_ring) : Prop := ring_ok 64 (er_buf r) (er_head r) (er_tail r) (er_count r).
Definition evts (r : evt_ring) : list input_event := ring_contents 64 (er_buf r) (er_tail r) (er_count r).

Lemma evts_length r : evt_ok r → length (evts r) = Z.to_nat (er_count r) ∧ 0 <= er_count r <= 64.
Proof. intros Hr. split; [apply length_ring_contents|exact (ring_count _ _ _ _ _ Hr)]. Qed.

Lemma last_n_short (l : list input_event) : (length l <= 64)%nat → last_n 64 l = l.
Proof. intros Hl. unfold last_n. by replace (length l - Z.to_nat 64)%nat with 0%nat by lia. Qed.

Lemma emit_refines e r :
  evt_ok r → evt_ok (evt_ring_emit 64 e r) ∧ evts (evt_ring_emit 64 e r) = keep (evts r) e.
Proof.
  intros Hr. destruct (evts_length r Hr) as [Hlen Hc]. unfold evt_ring_emit, keep.
  rewrite last_n_snoc by lia. rewrite !(last_n_short (evts r)), Hlen by lia.
  destruct (Z.eqb_spec (er_count r) 64) as [E|E].
  - rewrite decide_True by lia.
    destruct (ring_overwrite 64 _ _ _ _ e Hr E) as [Hok Hc']. cbn.
    unfold evt_ok, evts. cbn. rewrite !u32_small by zsolve.
    by replace (er_count r - 1 + 1) with (er_count r) by lia.
  - rewrite decide_False by lia.
    destruct (ring_push 64 _ _ _ _ e Hr) as [Hok Hc']; [lia|].
    unfold evt_ok, evts. cbn. by rewrite u32_small by zsolve.
Qed.

Lemma emits_refine es r :
  evt_ok r →
  evt_ok (foldl (λ r e, evt_ring_emit 64 e r) r es) ∧
  evts (foldl (λ r e, evt_ring_emit 64 e r) r es) = foldl keep (evts r) es.
Proof.
  revert r. induction es as [|e es IH]; intros r Hr; [done|]. cbn.
  destruct (emit_refines e r Hr) as [Hr' <-]. by apply IH.
Qed.

Lemma drain_refines n records copied r :
  evt_ok r → is_u32 records → 0 <= copied <= records → (Z.to_nat (er_count r) <= n)%nat →
  let '(es, r') := evt_drain 64 n records copied r in
  evt_ok r' ∧ es = take (Z.to_nat (records - copied)) (evts r) ∧
  evts r' = drop (Z.to_nat (records - copied)) (evts r).
Proof.
  revert copied r. induction n as [|n IH]; intros copied r Hr Hu Hc Hn;
    destruct (evts_length r Hr) as [Hlen Hcnt]; cbn [evt_drain].
  { assert (evts r = []) as -> by (apply nil_length_inv; lia). by rewrite take_nil, drop_nil. }
  destruct (Z.ltb_spec copied records) as [Hlt|Hge]; cbn [andb].
  2:{ replace (Z.to_nat (records - copied)) with 0%nat by lia. by rewrite take_0, drop_0. }
  destruct (Z.ltb_spec 0 (er_count r)) as [Hpos|Hz].
  2:{ assert (evts r = []) as -> by (apply nil_length_inv; lia). by rewrite take_nil, drop_nil. }
  destruct (ring_pop 64 _ _ _ _ Hr Hpos) as [Hok Hcons]. rewrite !u32_small by zsolve.
  set (r1 := {| er_buf := _; er_head := _; er_tail := _; er_count := _ |}).
  assert (evt_ok r1) as Hr1 by exact Hok.
  assert (evts r = (er_buf r).[er_tail r] :: evts r1) as Hev by exact Hcons.
  specialize (IH (copied + 1) r1 Hr1 Hu ltac:(lia) ltac:(cbn; lia)).
  destruct (evt_drain 64 n records (copied + 1) r1) as [es r'].
  destruct IH as (? & -> & ->). rewrite Hev.
  replace (Z.to_nat (records - copied)) with (S (Z.to_nat (records - (copied + 1)))) by lia. done.
Qed.

Lemma read_refines r bytes :
  evt_ok r → is_u32 bytes →
  evt_ok (evt_ring_read 64 r bytes).2 ∧
  ((evt_ring_read 64 r bytes).1, evts (evt_ring_read 64 r bytes).2) = a_read (evts r) bytes.
Proof.
  intros Hr Hb. destruct (evts_length r Hr) as [Hlen Hc]. unfold evt_ring_read, a_read, INPUT_EVENT_BYTES.
  destruct (Z.ltb_spec bytes 16); [done|].
  destruct (Z.eqb_spec (er_count r) 0) as [E|E].
  { assert (evts r = []) as En by (apply nil_length_inv; lia). cbn. by rewrite En. }
  pose proof (drain_refines (Z.to_nat (er_count r)) (bytes / 16) 0 r Hr) as Hd.
  destruct (evt_drain _ _ _ _ r) as [es r']. rewrite Z.sub_0_r in Hd.
  destruct Hd as (Hr' & -> & Hev); [zsolve|zsolve|lia|]. cbn [fst snd]. split; [done|]. rewrite Hev.
  destruct (evts r) eqn:Ee; [cbn in Hlen; lia|done].
Qed.

Definition adev_of (d : inputdev) : adev :=
  {| a_kbd := evts (kbd_ring d); a_mouse := evts (mouse_ring d); a_buttons := prev_buttons d |}.

Definition dev_ok (d : inputdev) : Prop := evt_ok (kbd_ring d) ∧ evt_ok (mouse_ring d).

Definition call_legal (c : input_call) : Prop :=
  match c with ReadKbd bytes | ReadMouse bytes => is_u32 bytes | _ => True end.

Lemma lxor_changed cur prev m :
  has_bit (Z.lxor cur prev) (2 ^ m) = negb (Bool.eqb (has_bit cur (2 ^ m)) (has_bit prev (2 ^ m))) ∨ m < 0.
Proof.
  destruct (decide (0 <= m)) as [Hm|]; [left|lia]. unfold has_bit.
  rewrite <-!Z.shiftl_1_l, !land_bit_zero, Z.lxor_spec by done.
  by destruct (Z.testbit cur m), (Z.testbit prev m).
Qed.

Lemma foldl_if b e r :
  foldl (λ r e, evt_ring_emit 64 e r) r (if b : bool then [] else [e]) = emit_if (negb b) e r.
Proof. by destruct b. Qed.

Lemma packet_refines time flags dx dy d :
  dev_ok d →
  dev_ok (mousedev_push_packet time flags dx dy d) ∧
  adev_of (mousedev_push_packet time flags dx dy d) =
  (a_call (adev_of d) (PushPacket time flags dx dy)).2.
Proof.
  intros [Hk Hm].
  assert (mouse_ring (mousedev_push_packet time flags dx dy d) =
    foldl (λ r e, evt_ring_emit 64 e r) (mouse_ring d)
      (packet_events time flags dx dy (prev_buttons d))) as Hring.
  { unfold mousedev_push_packet, packet_events. cbn [mouse_ring].
    destruct (lxor_changed (Z.land flags 7) (prev_buttons d) 0) as [E1|]; [|lia].
    destruct (lxor_changed (Z.land flags 7) (prev_buttons d) 1) as [E2|]; [|lia].
    destruct (lxor_changed (Z.land flags 7) (prev_buttons d) 2) as [E3|]; [|lia].
    change (2 ^ 0) with 1 in E1. change (2 ^ 1) with 2 in E2. change (2 ^ 2) with 4 in E3.
    rewrite E1, E2, E3, !foldl_app, !foldl_if. reflexivity. }
  destruct (emits_refine (packet_events time flags dx dy (prev_buttons d)) _ Hm) as [Hok Hev].
  split; [split; [done|by rewrite Hring]|].
  unfold adev_of. rewrite Hring, Hev. reflexivity.
Qed.

Lemma call_refines d c :
  dev_ok d → call_legal c →
  dev_ok (do_call d c).2 ∧ (do_call d c).1 = (a_call (adev_of d) c).1 ∧
  adev_of (do_call d c).2 = (a_call (adev_of d) c).2.
Proof.
  intros [Hk Hm] Hl. destruct c; cbn [call_legal] in Hl.
  - destruct (emits_refine [event time EV_KEY code value; event time EV_SYN SYN_REPORT 0] _ Hk)
      as [Hok Hev]. split_and!; [split; [exact Hok|done]|done|]. 
    exact (f_equal (λ l, {| a_kbd := l; a_mouse := evts (mouse_ring d); a_buttons := prev_buttons d |}) Hev).
  - destruct (packet_refines time flags dx dy d (conj Hk Hm)). by split_and!.
  - destruct (emit_refines (event time type code value) _ Hk) as [Hok Hev].
    split_and!; [split; [exact Hok|done]|done|]. 
    exact (f_equal (λ l, {| a_kbd := l; a_mouse := evts (mouse_ring d); a_buttons := prev_buttons d |}) Hev).
  - destruct (emit_refines (event time type code value) _ Hm) as [Hok Hev].
    split_and!; [split; [done|exact Hok]|done|]. 
    exact (f_equal (λ l, {| a_kbd := evts (kbd_ring d); a_mouse := l; a_buttons := prev_buttons d |}) Hev).
  - destruct (read_refines _ bytes Hk Hl) as [Hok Hev]. cbn. unfold kbdev_read, KBD_RING_RECORDS.
    destruct (evt_ring_read 64 (kbd_ring d) bytes) as [e r]. cbn [fst snd] in *. rewrite <-Hev.
    by split_and!; [split|..].
  - destruct (read_refines _ bytes Hm Hl) as [Hok Hev]. cbn. unfold mousedev_read, MOUSE_RING_RECORDS.
    destruct (evt_ring_read 64 (mouse_ring d) bytes) as [e r]. cbn [fst snd] in *. rewrite <-Hev.
    by split_and!; [split|..].
Qed.

(** The keyboard and mouse devices deliver input events in order, and when
    a reader is slow it loses the oldest ones only.  For every sequence of key,
    packet, event and read calls from boot, the results of the reads are those
    of a device that keeps the list of the newest 64 unread events: whole
    records, oldest first, a read of an empty device blocking; a mouse packet
    contributes its motion, then the buttons that changed, then the end of
    the report. *)
Theorem inputdev_refines cs :
  Forall call_legal cs →
  (run_calls do_call inputdev_boot cs).1 =
  (run_calls a_call {| a_kbd := []; a_mouse := []; a_buttons := 0 |} cs).1.
Proof.
  intros Hcs. change {| a_kbd := []; a_mouse := []; a_buttons := 0 |} with (adev_of inputdev_boot).
  assert (dev_ok inputdev_boot) as Hd by (split; apply ring_ok_empty; [reflexivity|lia|reflexivity|lia]).
  generalize dependent inputdev_boot. induction Hcs as [|c cs Hc _ IH]; intros d Hd; [done|].
  cbn [run_calls]. destruct (call_refines d c Hd Hc) as (Hd' & Ho & Ha).
  destruct (do_call d c) as [o d1], (a_call (adev_of d) c) as [o' a1]. cbn [fst snd] in *. subst.
  specialize (IH d1 Hd').
  destruct (run_calls do_call d1 cs), (run_calls a_call (adev_of d1) cs). cbn in *. by subst.
Qed.

Lemma inputdev_refines_witness :
  (run_calls do_call inputdev_boot [ReadKbd 32; PushKey (1, 2) 30 1; ReadKbd 32]).1 =
  (run_calls a_call {| a_kbd := []; a_mouse := []; a_buttons := 0 |}
     [ReadKbd 32; PushKey (1, 2) 30 1; ReadKbd 32]).1.
Proof.
  apply (inputdev_refines [ReadKbd 32; PushKey (1, 2) 30 1; ReadKbd 32]).
  forall_list; cbn; unfold is_u32; try exact I; lia.
Defined.

(** The sign bits of a packet only count together with the overflow bits: a
    motion of 128 or more to the right without overflow, for which the packet
    has the sign bit clear, is reported as motion to the left. *)
Theorem packet_sign_ignored flags dx :
  128 <= dx < 256 → has_bit flags MOUSE_PACKET_X_OVERFLOW = false →
  packet_rel_x flags dx = dx - 256.
Proof.
  intros Hdx Hov. unfold packet_rel_x, s8. rewrite Hov. Z.div_mod_to_equations. lia.
Qed.
