(* ===== verification/Klog.v ===== *)
(** * Kernel log ([kernel/lib/klog.c])

    The ring of the last 96 log records and its rendering as text.  A tag or
    message is the text before its NUL; lines are formatted by [k_snprintf]
    ([Kprintf]).  What an operation prints goes to the console and the debug
    port, or to the debug port only. *)

From S2P Require Import Prelude Ring Kprintf.

Definition KLOG_RING_CAP : Z := 96.
Definition KLOG_TAG_CAP : Z := 16.
Definition KLOG_MSG_CAP : Z := 96.
Definition SCHED_HZ : Z := 100.
Definition KLOG_LEVEL_DEBUG : Z := 0.
Definition KLOG_LEVEL_INFO : Z := 1.
Definition KLOG_LEVEL_WARN : Z := 2.
Definition KLOG_LEVEL_ERROR : Z := 3.

Record klog_record := {
  kl_ticks : Z;
  kl_level : Z;
  kl_tag : list Z;
  kl_msg : list Z;
}.
#[global] Instance klog_record_inhabited : Inhabited klog_record :=
  populate {| kl_ticks := 0; kl_level := 0; kl_tag := []; kl_msg := [] |}.

Record klog_state := {
  klog_ring : list klog_record;
  klog_head : Z;
  klog_count : Z;
}.

Definition klog_boot : klog_state :=
  {| klog_ring := replicate (Z.to_nat KLOG_RING_CAP) inhabitant; klog_head := 0; klog_count := 0 |}.

(** "DEBUG", "INFO", "WARN", "ERROR" *)
Definition klog_level_name (level : Z) : list Z :=
  if level =? KLOG_LEVEL_DEBUG then [68; 69; 66; 85; 71]
  else if level =? KLOG_LEVEL_INFO then [73; 78; 70; 79]
  else if level =? KLOG_LEVEL_WARN then [87; 65; 82; 78]
  else if level =? KLOG_LEVEL_ERROR then [69; 82; 82; 79; 82]
  else [73; 78; 70; 79].

Definition klog_store_record (rec : klog_record) (s : klog_state) : klog_state :=
  {| klog_ring := (klog_ring s).[klog_head s <- rec];
     klog_head := ring_next KLOG_RING_CAP (klog_head s);
     klog_count := if klog_count s <? KLOG_RING_CAP then klog_count s +u 1 else klog_count s |}.

(** "[%u.%03u] %s [%s] %s\n" *)
Definition line_fmt : list Z :=
  [91; 37; 117; 46; 37; 48; 51; 117; 93; 32; 37; 115; 32; 91; 37; 115; 93; 32; 37; 115; 10].

Definition klog_format_line (buf : list Z) (cap : Z) (rec : klog_record) : option (list Z * Z) :=
  let secs := kl_ticks rec / SCHED_HZ in
  let ms := ((kl_ticks rec mod SCHED_HZ) *u 1000) / SCHED_HZ in
  k_snprintf 32 buf cap line_fmt
    [VInt secs; VInt ms; VStr (Some (klog_level_name (kl_level rec)));
     VStr (Some (kl_tag rec)); VStr (Some (kl_msg rec))].

Definition klog_snapshot_start (s : klog_state) : Z :=
  if klog_count s <? KLOG_RING_CAP then 0 else klog_head s.

Definition klog_record_at (s : klog_state) (i : Z) : klog_record :=
  (klog_ring s).[(klog_snapshot_start s +u i) mod KLOG_RING_CAP].

(** One record appended at [buf + len]. *)
Definition render_record (s : klog_state) (cap i : Z) (acc : option (list Z * Z)) :
    option (list Z * Z) :=
  match acc with
  | None => None
  | Some (buf, len) =>
      match klog_format_line (drop (Z.to_nat len) buf) (if len <? cap then cap -u len else 0)
              (klog_record_at s i) with
      | None => None
      | Some (sub, n) => Some (take (Z.to_nat len) buf ++ sub, if 0 <? n then len +u u32 n else len)
      end
  end.

Definition klog_render_into (s : klog_state) (buf : list Z) (cap : Z) : option (list Z * Z) :=
  for_loop 0 (Z.to_nat (klog_count s)) (render_record s cap) (Some (buf, 0)).

(** [klog_snapshot]: the buffer and [*size_out]. *)
Definition klog_snapshot (s : klog_state) (buf : list Z) (cap : Z) : option (list Z * Z) :=
  klog_render_into s (if 0 <? cap then buf.[0 <- 0] else buf) cap.

(** ** Logging *)

(** Where a line goes: [true] is the console and the debug port, [false] the
    debug port only. *)
Definition klog_out : Type := bool * list Z.

(** The text in a NUL-terminated buffer filled by [k_snprintf]. *)
Definition cstring (buf : list Z) : list Z := take (default 0%nat (fst <$> list_find (eq 0) buf)) buf.

Definition klog_emit (console : bool) (rec : klog_record) : list klog_out :=
  match klog_format_line (replicate 160 0) 160 rec with
  | Some (line, _) => [(console, cstring line)]
  | None => []
  end.

(** "KLOG" and "(null)" *)
Definition default_tag : list Z := [75; 76; 79; 71].
Definition null_msg : list Z := [40; 110; 117; 108; 108; 41].

(** The record [klog_log] builds: both texts cut to their fields. *)
Definition make_record (ticks level : Z) (tag msg : option (list Z)) : klog_record :=
  {| kl_ticks := ticks; kl_level := u8 level;
     kl_tag := take (Z.to_nat (KLOG_TAG_CAP - 1)) (default default_tag tag);
     kl_msg := take (Z.to_nat (KLOG_MSG_CAP - 1)) (default null_msg msg) |}.

Definition klog_log_to (console : bool) (ticks level : Z) (tag msg : option (list Z))
    (s : klog_state) : klog_state * list klog_out :=
  let rec := make_record ticks level tag msg in
  (klog_store_record rec s, klog_emit console rec).

Definition klog_log := klog_log_to true.
Definition klog_log_silent := klog_log_to false.

Definition klog (ticks : Z) (tag msg : option (list Z)) := klog_log ticks KLOG_LEVEL_INFO tag msg.
Definition klog_silent (ticks : Z) (tag msg : option (list Z)) :=
  klog_log_silent ticks KLOG_LEVEL_INFO tag msg.

(** "%s: %u" and "%s: 0x%08X" into a 96-byte buffer. *)
Definition uint_fmt : list Z := [37; 115; 58; 32; 37; 117].
Definition hex_fmt : list Z := [37; 115; 58; 32; 48; 120; 37; 48; 56; 88].

Definition value_line (fmt : list Z) (msg : option (list Z)) (val : Z) : option (list Z) :=
  match k_snprintf 32 (replicate 96 0) KLOG_MSG_CAP fmt
          [VStr (Some (default null_msg msg)); VInt val] with
  | Some (line, _) => Some (cstring line)
  | None => None
  end.

Definition klog_uint ticks tag msg val := klog_log ticks KLOG_LEVEL_INFO tag (value_line uint_fmt msg val).
Definition klog_hex ticks tag msg val := klog_log ticks KLOG_LEVEL_INFO tag (value_line hex_fmt msg val).
Definition klog_silent_uint ticks tag msg val :=
  klog_log_silent ticks KLOG_LEVEL_INFO tag (value_line uint_fmt msg val).
Definition klog_silent_hex ticks tag msg val :=
  klog_log_silent ticks KLOG_LEVEL_INFO tag (value_line hex_fmt msg val).

(** ** The ring keeps the newest records *)

Definition klog_ok (s : klog_state) : Prop :=
  ring_ok KLOG_RING_CAP (klog_ring s) (klog_head s) (klog_snapshot_start s) (klog_count s).

Definition records (s : klog_state) : list klog_record :=
  ring_contents KLOG_RING_CAP (klog_ring s) (klog_snapshot_start s) (klog_count s).

Lemma klog_boot_ok : klog_ok klog_boot ∧ records klog_boot = [].
Proof. split; [|done]. apply ring_ok_empty; [apply length_replicate|by vm_compute]. Qed.

Lemma records_length s : klog_ok s → length (records s) = Z.to_nat (klog_count s) ∧ 0 <= klog_count s <= 96.
Proof. intros Hs. split; [apply length_ring_contents|exact (ring_count _ _ _ _ _ Hs)]. Qed.

Lemma last_n_le (l : list klog_record) : (length l <= 96)%nat → last_n 96 l = l.
Proof. intros Hl. unfold last_n. by replace (length l - Z.to_nat 96)%nat with 0%nat by lia. Qed.

Lemma store_ok rec s :
  klog_ok s →
  klog_ok (klog_store_record rec s) ∧ records (klog_store_record rec s) = last_n 96 (records s ++ [rec]).
Proof.
  intros Hs. destruct (records_length s Hs) as [Hlen Hc].
  rewrite last_n_snoc by lia. rewrite !(last_n_le (records s)), Hlen by lia.
  unfold klog_ok, records in *.
  destruct (Z.ltb_spec (klog_count s) 96) as [Hlt|Hge].
  - rewrite decide_False by lia.
    assert (klog_snapshot_start s = 0) as H0.
    { unfold klog_snapshot_start, KLOG_RING_CAP. by rewrite (proj2 (Z.ltb_lt _ _) Hlt). }
    rewrite H0 in *. destruct (ring_push _ _ _ _ _ rec Hs) as [Hok Hcont]; [done|].
    assert (klog_count (klog_store_record rec s) = klog_count s + 1) as Hcnt.
    { unfold klog_store_record, KLOG_RING_CAP. cbn. rewrite (proj2 (Z.ltb_lt _ _) Hlt).
      apply u32_small. zsolve. }
    assert (klog_snapshot_start (klog_store_record rec s) = 0) as H0'.
    { unfold klog_snapshot_start. rewrite Hcnt. unfold KLOG_RING_CAP in *.
      destruct (Z.ltb_spec (klog_count s + 1) 96); [done|].
      change (ring_next 96 (klog_head s) = 0). rewrite (ring_head _ _ _ _ _ Hok). by replace (0 + (klog_count s + 1)) with 96 by lia. }
    rewrite H0', Hcnt. by split.
  - rewrite decide_True by lia. assert (klog_count s = 96) as H96 by lia.
    assert (klog_snapshot_start s = klog_head s) as H0.
    { unfold klog_snapshot_start, KLOG_RING_CAP. by rewrite H96. }
    rewrite H0 in *. destruct (ring_overwrite _ _ _ _ _ rec Hs H96) as [Hok Hcont].
    assert (klog_count (klog_store_record rec s) = klog_count s) as Hcnt.
    { unfold klog_store_record, KLOG_RING_CAP. cbn. by rewrite H96. }
    assert (klog_snapshot_start (klog_store_record rec s) = ring_next KLOG_RING_CAP (klog_head s)) as H0'.
    { unfold klog_snapshot_start. by rewrite Hcnt, H96. }
    rewrite H0', Hcnt. by split.
Qed.

(** ** The text of the log *)

Definition dec (n : Z) : list Z := uint_text n 10 false 0 0 0.

(** The line of a record: "[secs.mmm] LEVEL [tag] msg\n". *)
Definition line_text (rec : klog_record) : list Z :=
  [91] ++ dec (u32 (kl_ticks rec / 100)) ++ [46] ++
  uint_text (u32 (u32 (kl_ticks rec mod 100 * 1000) / 100)) 10 false F_ZERO 3 0 ++ [93; 32] ++
  klog_level_name (kl_level rec) ++ [32; 91] ++ kl_tag rec ++ [93; 32] ++ kl_msg rec ++ [10].

Lemma str_text_plain s : str_text (Some s) 0 0 = s.
Proof.
  unfold str_text, pad_text. change (has_flag 0 F_LEFT) with false. cbn iota.
  by replace (Z.to_nat (0 - Z.of_nat (length s))) with 0%nat by lia.
Qed.

Lemma line_fmt_render a b l g m :
  render 32 (length line_fmt) line_fmt
    [VInt a; VInt b; VStr (Some l); VStr (Some g); VStr (Some m)] =
  Some ([91] ++ dec (u32 a) ++ [46] ++ uint_text (u32 b) 10 false F_ZERO 3 0 ++ [93; 32] ++
        str_text (Some l) 0 0 ++ [32; 91] ++ str_text (Some g) 0 0 ++ [93; 32] ++
        str_text (Some m) 0 0 ++ [10]).
Proof. reflexivity. Qed.

Lemma digit_loop_length fuel digits base v : (length (digit_loop fuel digits base v) <= fuel)%nat.
Proof.
  revert v. induction fuel as [|fuel IH]; intros v; cbn; [done|]. case_match; cbn; [lia|].
  specialize (IH (v / base)). lia.
Qed.

Lemma uint_text_short val flags width :
  width <= 32 → (length (uint_text val 10 false flags width 0) <= 32)%nat.
Proof.
  intros Hw. assert (length (fmt_digits val 10 false) <= 32)%nat.
  { unfold fmt_digits. case_match; [cbn; lia|apply digit_loop_length]. }
  pose proof (uint_text_length val 10 false flags width 0) as Hl. cbn in Hl. lia.
Qed.

(** The texts of a stored record fit their fields. *)
Definition rec_ok (rec : klog_record) : Prop :=
  (length (kl_tag rec) <= 15)%nat ∧ (length (kl_msg rec) <= 95)%nat.

Lemma klog_line_length rec : rec_ok rec → (0 < length (line_text rec) <= 200)%nat.
Proof.
  intros [Ht Hm]. unfold line_text, dec. rewrite !length_app. cbn [length].
  pose proof (uint_text_short (u32 (kl_ticks rec / 100)) 0 0 ltac:(lia)).
  pose proof (uint_text_short (u32 (u32 (kl_ticks rec mod 100 * 1000) / 100)) F_ZERO 3 ltac:(lia)).
  assert (length (klog_level_name (kl_level rec)) <= 5)%nat.
  { unfold klog_level_name. repeat case_match; cbn; lia. }
  lia.
Qed.

Lemma format_line_spec buf cap rec :
  rec_ok rec → 0 <= cap <= Z.of_nat (length buf) → cap < 2 ^ 32 →
  klog_format_line buf cap rec =
    Some (if cap =? 0 then buf
          else take (Z.to_nat (cap - 1)) (line_text rec) ++ [0] ++
               drop (S (Nat.min (length (line_text rec)) (Z.to_nat (cap - 1)))) buf,
          Z.of_nat (length (line_text rec))).
Proof.
  intros Hr Hc Hc32. pose proof (klog_line_length rec Hr). unfold klog_format_line, k_snprintf.
  apply vsnprintf_text; [done|done| |lia].
  rewrite line_fmt_render, !str_text_plain. done.
Qed.

(** A buffer of [cap] bytes holding a text, cut and terminated. *)
Definition holding (buf : list Z) (cap : Z) (text : list Z) : list Z :=
  if cap =? 0 then buf
  else take (Z.to_nat (cap - 1)) text ++ [0] ++
       drop (S (Nat.min (length text) (Z.to_nat (cap - 1)))) buf.

Lemma length_holding buf cap text :
  0 <= cap <= Z.of_nat (length buf) → length (holding buf cap text) = length buf.
Proof.
  intros Hc. unfold holding. case_match; bprop; [done|].
  rewrite !length_app, length_take, length_drop. cbn. lia.
Qed.

Lemma holding_append buf cap text line :
  0 <= cap <= Z.of_nat (length buf) →
  let len := Z.of_nat (length text) in
  let rest := if len <? cap then cap - len else 0 in
  take (length text) (holding buf cap text) ++
  (if rest =? 0 then drop (length text) (holding buf cap text)
   else take (Z.to_nat (rest - 1)) line ++ [0] ++
        drop (S (Nat.min (length line) (Z.to_nat (rest - 1)))) (drop (length text) (holding buf cap text))) =
  holding buf cap (text ++ line).
Proof.
  intros Hc. cbn zeta. destruct (Z.ltb_spec (Z.of_nat (length text)) cap) as [Hlt|Hge].
  - rewrite (proj2 (Z.eqb_neq _ 0)) by lia. unfold holding.
    rewrite !(proj2 (Z.eqb_neq cap 0)) by lia.
    rewrite (take_ge text) by lia. replace (Nat.min (length text) (Z.to_nat (cap - 1))) with (length text) by lia.
    rewrite take_app_length, drop_app_length. cbn [app drop].
    rewrite drop_drop, take_app_ge, <-app_assoc by lia. f_equal. f_equal; [f_equal; lia|].
    cbn [app]. f_equal. f_equal. rewrite length_app. lia.
  - rewrite Z.eqb_refl, take_drop. unfold holding. destruct (Z.eqb_spec cap 0); [done|].
    rewrite take_app_le, length_app by lia. do 3 f_equal. lia.
Qed.

Lemma render_step s buf cap i text :
  let rec := klog_record_at s i in
  rec_ok rec → 0 <= cap <= Z.of_nat (length buf) → cap < 2 ^ 32 →
  Z.of_nat (length text) + 200 < 2 ^ 31 →
  render_record s cap i (Some (holding buf cap text, Z.of_nat (length text))) =
  Some (holding buf cap (text ++ line_text rec), Z.of_nat (length (text ++ line_text rec))).
Proof.
  cbn zeta. intros Hr Hc Hc32 Hb. unfold render_record. rewrite Nat2Z.id.
  set (rec := klog_record_at s i) in *. pose proof (klog_line_length rec Hr).
  set (rest := if Z.of_nat (length text) <? cap then cap - Z.of_nat (length text) else 0).
  assert ((if Z.of_nat (length text) <? cap then cap -u Z.of_nat (length text) else 0) = rest) as ->.
  { unfold rest. case_match; bprop; [|done]. apply u32_small. zsolve. }
  rewrite format_line_spec; [|done| |].
  - pose proof (holding_append buf cap text (line_text rec) Hc) as Ha. cbn zeta in Ha.
    fold rest in Ha. rewrite Ha.
    rewrite (proj2 (Z.ltb_lt 0 _)) by lia. rewrite (u32_small (Z.of_nat (length (line_text rec)))) by zsolve.
    rewrite u32_small by zsolve. by rewrite length_app, Nat2Z.inj_add.
  - rewrite length_drop, length_holding by done. unfold rest. case_match; bprop; lia.
  - unfold rest. case_match; bprop; lia.
Qed.

Definition log_text (recs : list klog_record) : list Z := concat (line_text <$> recs).

Lemma records_at s i :
  klog_ok s → 0 <= i < klog_count s → records s !! Z.to_nat i = Some (klog_record_at s i).
Proof.
  intros Hs Hi. destruct (records_length s Hs) as [_ Hc]. pose proof (ring_tail _ _ _ _ _ Hs) as Ht.
  unfold records, ring_contents, klog_record_at. rewrite list_lookup_fmap, lookup_seq_lt by lia. cbn.
  rewrite u32_small by (unfold KLOG_RING_CAP in *; zsolve). by rewrite Z2Nat.id by lia.
Qed.

Lemma log_text_length recs : Forall rec_ok recs → (length (log_text recs) <= 200 * length recs)%nat.
Proof.
  intros Hr. unfold log_text. induction Hr as [|r recs Hr _ IH]; cbn [fmap list_fmap concat length]; [lia|].
  rewrite length_app. pose proof (klog_line_length r Hr). lia.
Qed.

(** The whole log, from the state of the ring. *)
Lemma snapshot_spec s buf cap :
  klog_ok s → Forall rec_ok (records s) → 0 <= cap <= Z.of_nat (length buf) → cap < 2 ^ 32 →
  klog_snapshot s buf cap =
  Some (holding buf cap (log_text (records s)), Z.of_nat (length (log_text (records s)))).
Proof.
  intros Hs Hr Hc Hc32. destruct (records_length s Hs) as [Hlen Hcnt].
  unfold klog_snapshot, klog_render_into.
  assert ((if 0 <? cap then buf.[0 <- 0] else buf) = holding buf cap []) as ->.
  { unfold holding. destruct (Z.ltb_spec 0 cap), (Z.eqb_spec cap 0); try lia; [|done].
    rewrite take_nil. destruct buf; [cbn in Hc; lia|]. by replace (Nat.min _ _) with 0%nat by (cbn; lia). }
  pose proof (for_loop_inv
    (λ k acc, acc = Some (holding buf cap (log_text (take (Z.to_nat k) (records s))),
                          Z.of_nat (length (log_text (take (Z.to_nat k) (records s))))))
    (render_record s cap) 0 (Z.to_nat (klog_count s)) (Some (holding buf cap [], 0))) as Hl.
  rewrite Hl; [|clear Hl|done].
  - rewrite Z.add_0_l, Z2Nat.id by lia. by rewrite take_ge by lia.
  - intros k acc Hk ->. pose proof (records_at s k Hs ltac:(lia)) as Hat.
    assert (rec_ok (klog_record_at s k)) as Hrk by (rewrite Forall_lookup in Hr; eauto).
    pose proof (log_text_length (take (Z.to_nat k) (records s)) (Forall_take _ _ _ Hr)) as Htl.
    rewrite length_take in Htl. rewrite render_step by (done || lia).
    replace (Z.to_nat (k + 1)) with (S (Z.to_nat k)) by lia. rewrite (take_S_r _ _ _ Hat).
    unfold log_text. rewrite fmap_app, concat_app. cbn [fmap list_fmap concat]. by rewrite app_nil_r.
Qed.

(** ** Histories *)

Record log_call := {
  lc_console : bool;
  lc_ticks : Z;
  lc_level : Z;
  lc_tag : option (list Z);
  lc_msg : option (list Z);
}.

Definition log_exec (s : klog_state) (c : log_call) : klog_state :=
  (klog_log_to (lc_console c) (lc_ticks c) (lc_level c) (lc_tag c) (lc_msg c) s).1.
Definition call_record (c : log_call) : klog_record :=
  make_record (lc_ticks c) (lc_level c) (lc_tag c) (lc_msg c).

Lemma make_record_ok ticks level tag msg : rec_ok (make_record ticks level tag msg).
Proof. unfold rec_ok, make_record. cbn [kl_tag kl_msg]. rewrite !length_take. unfold KLOG_TAG_CAP, KLOG_MSG_CAP. lia. Qed.

Lemma last_n_app_last (l m : list klog_record) : last_n 96 (last_n 96 l ++ m) = last_n 96 (l ++ m).
Proof.
  unfold last_n. rewrite !length_app, !length_drop.
  destruct (decide (length l <= 96)%nat).
  - replace (length l - Z.to_nat 96)%nat with 0%nat by lia. by rewrite Nat.sub_0_r, drop_0.
  - set (k := (length l - Z.to_nat 96)%nat).
    assert (l ++ m = take k l ++ drop k l ++ m) as -> by by rewrite app_assoc, take_drop.
    rewrite (drop_app_ge (take k l)) by (rewrite length_take; lia). f_equal. rewrite length_take. lia.
Qed.

Lemma log_history s cs h :
  klog_ok s → records s = last_n 96 h →
  klog_ok (foldl log_exec s cs) ∧ records (foldl log_exec s cs) = last_n 96 (h ++ (call_record <$> cs)).
Proof.
  revert s h. induction cs as [|c cs IH]; intros s h Hs Hh; cbn [foldl fmap list_fmap].
  { by rewrite app_nil_r. }
  destruct (store_ok (call_record c) s Hs) as [Hs' Hr'].
  destruct (IH (log_exec s c) (h ++ [call_record c])) as [Hok Hrec]; [exact Hs'| |].
  - change (records (klog_store_record (call_record c) s) = last_n 96 (h ++ [call_record c])).
    by rewrite Hr', Hh, last_n_app_last.
  - split; [done|]. by rewrite Hrec, <-app_assoc.
Qed.

(** The log can be read back.  After any sequence of log calls from boot,
    [klog_snapshot] renders the last 96 of them, oldest first, one line each
    (time, level, tag cut to 15 and message cut to 95 bytes), stores as much of
    the text as fits into the caller's buffer followed by a NUL, touches nothing
    past the terminator, and reports the length of the whole text. *)
Theorem klog_snapshot_correct cs buf cap :
  0 <= cap <= Z.of_nat (length buf) → cap < 2 ^ 32 →
  let text := log_text (last_n 96 (call_record <$> cs)) in
  klog_snapshot (foldl log_exec klog_boot cs) buf cap =
  Some (if cap =? 0 then buf
        else take (Z.to_nat (cap - 1)) text ++ [0] ++
             drop (S (Nat.min (length text) (Z.to_nat (cap - 1)))) buf,
        Z.of_nat (length text)).
Proof.
  intros Hc Hc32. cbn zeta. destruct klog_boot_ok as [Hb Hr].
  destruct (log_history klog_boot cs [] Hb Hr) as [Hok Hrec]. cbn [app] in Hrec. rewrite <-Hrec.
  apply snapshot_spec; try done. rewrite Hrec. apply Forall_drop, Forall_fmap, Forall_true.
  intros c. apply make_record_ok.
Qed.

(** "[1.500] WARN [NET] up\n" into ten bytes. *)
Lemma klog_snapshot_correct_witness :
  klog_snapshot (foldl log_exec klog_boot
    [{| lc_console := true; lc_ticks := 150; lc_level := 2; lc_tag := Some [78; 69; 84];
        lc_msg := Some [117; 112] |}]) (replicate 12 9) 10 =
  Some ([91; 49; 46; 53; 48; 48; 93; 32; 87; 0; 9; 9], 22).
Proof.
  etrans; [apply (klog_snapshot_correct
    [{| lc_console := true; lc_ticks := 150; lc_level := 2; lc_tag := Some [78; 69; 84];
        lc_msg := Some [117; 112] |}] (replicate 12 9) 10); [cbn; lia|lia]|].
  vm_compute. reflexivity.
Defined.
