(* ===== verification/Slab.v ===== *)
(** * Slab caches ([kernel/mm/slab.c])

    Fixed-size object pools over the page allocator.  Slab headers and the
    free-list pointers threaded through the free objects live in memory; the
    partial and full lists are the linked lists of the code.  The page
    allocator and the kernel heap are used through their interfaces.  Sizes are
    those of i386 ([slab_hdr_t] is 12 bytes, a pointer 4). *)

From S2P Require Import Prelude Interfaces.

Definition SLAB_HDR_SZ : Z := 12.
Definition SIZEOF_PTR : Z := 4.
Definition SIZEOF_KMEM_CACHE : Z := 20.

Record slab_hdr := {
  sh_next : Z;
  sh_n_free : Z;
  sh_free_head : Z;
}.

Record kmem_cache := {
  kc_name : Z;
  kc_obj_size : Z;
  kc_objs_per_slab : Z;
  kc_partial : Z;
  kc_full : Z;
}.

(** Memory as the allocator uses it: the header at the base of a page, the first
    word of an object. *)
Record slab_mem := {
  sm_hdr : gmap Z slab_hdr;
  sm_word : gmap Z Z;
}.

#[global] Instance slab_hdr_inhabited : Inhabited slab_hdr :=
  populate {| sh_next := 0; sh_n_free := 0; sh_free_head := 0 |}.

Definition hdr_at (m : slab_mem) (a : Z) : slab_hdr := default inhabitant (sm_hdr m !! a).
Definition word_at (m : slab_mem) (a : Z) : Z := default 0 (sm_word m !! a).
Definition hdr_put (a : Z) (h : slab_hdr) (m : slab_mem) : slab_mem :=
  {| sm_hdr := <[a := h]> (sm_hdr m); sm_word := sm_word m |}.
Definition word_put (a v : Z) (m : slab_mem) : slab_mem :=
  {| sm_hdr := sm_hdr m; sm_word := <[a := v]> (sm_word m) |}.
Definition set_next (a n : Z) (m : slab_mem) : slab_mem :=
  hdr_put a {| sh_next := n; sh_n_free := sh_n_free (hdr_at m a);
               sh_free_head := sh_free_head (hdr_at m a) |} m.
Definition set_free (a n head : Z) (m : slab_mem) : slab_mem :=
  hdr_put a {| sh_next := sh_next (hdr_at m a); sh_n_free := n; sh_free_head := head |} m.
Definition set_lists (p f : Z) (c : kmem_cache) : kmem_cache :=
  {| kc_name := kc_name c; kc_obj_size := kc_obj_size c; kc_objs_per_slab := kc_objs_per_slab c;
     kc_partial := p; kc_full := f |}.

(** [base + i * cache->obj_size] *)
Definition slot_addr (c : kmem_cache) (page i : Z) : Z :=
  (page +u SLAB_HDR_SZ) +u (i *u kc_obj_size c).

Definition slab_format (c : kmem_cache) (page : Z) (m : slab_mem) : slab_mem :=
  let m := hdr_put page {| sh_next := 0; sh_n_free := kc_objs_per_slab c; sh_free_head := 0 |} m in
  let m := for_loop 0 (Z.to_nat (kc_objs_per_slab c))
             (λ i m, word_put (slot_addr c page i)
                (if i +u 1 <? kc_objs_per_slab c then slot_addr c page (i +u 1) else 0) m) m in
  set_free page (sh_n_free (hdr_at m page)) (page +u SLAB_HDR_SZ) m.

(** [list_remove]: the walk [while ( *p && *p != target) p = &( *p)->next] keeps
    the cell [p] it stands on ([None] is the list head itself) and its value. *)
Fixpoint list_walk (n : nat) (m : slab_mem) (p : option Z) (cur target : Z) : option (option Z * Z) :=
  match n with
  | O => None
  | S n => if negb (cur =? 0) && negb (cur =? target)
           then list_walk n m (Some cur) (sh_next (hdr_at m cur)) target
           else Some (p, cur)
  end.

(** The new head and memory; a walk over [size] headers ends within [size + 1]
    steps when the list has no cycle. *)
Definition list_remove (head target : Z) (m : slab_mem) : option (Z * slab_mem) :=
  match list_walk (S (size (sm_hdr m))) m None head target with
  | None => None
  | Some (p, cur) =>
      if cur =? 0 then Some (head, m)
      else match p with
           | None => Some (sh_next (hdr_at m target), m)
           | Some a => Some (head, set_next a (sh_next (hdr_at m target)) m)
           end
  end.

Section slab.
Context {S : Type} `{PageAllocator S}.

Record slab_state := {
  ss_pmm : S;
  ss_mem : slab_mem;
}.

Definition slab_grow (st : slab_state) (c : kmem_cache) : Z * slab_state * kmem_cache :=
  let '(page, pmm) := pa_alloc (ss_pmm st) in
  if page =? 0 then (0, {| ss_pmm := pmm; ss_mem := ss_mem st |}, c)
  else
    let m := slab_format c page (ss_mem st) in
    let m := set_next page (kc_partial c) m in
    (page, {| ss_pmm := pmm; ss_mem := m |}, set_lists page (kc_full c) c).

(** Popping an object off a slab, and the move to the full list. *)
Definition slab_pop (slab : Z) (st : slab_state) (c : kmem_cache) : Z * slab_state * kmem_cache :=
  let m := ss_mem st in
  let obj := sh_free_head (hdr_at m slab) in
  let m := set_free slab (sh_n_free (hdr_at m slab) -u 1) (word_at m obj) m in
  if sh_n_free (hdr_at m slab) =? 0
  then (obj, {| ss_pmm := ss_pmm st; ss_mem := set_next slab (kc_full c) m |},
        set_lists (sh_next (hdr_at m slab)) slab c)
  else (obj, {| ss_pmm := ss_pmm st; ss_mem := m |}, c).

Definition kmem_cache_alloc (st : slab_state) (c : kmem_cache) : Z * slab_state * kmem_cache :=
  if kc_partial c =? 0 then
    let '(slab, st, c) := slab_grow st c in
    if slab =? 0 then (0, st, c) else slab_pop slab st c
  else slab_pop (kc_partial c) st c.

(** [None]: the walk of [list_remove] did not end. *)
Definition kmem_cache_free (st : slab_state) (c : kmem_cache) (obj : Z) :
    option (slab_state * kmem_cache) :=
  let slab := Z.land obj (not32 (PAGE_SIZE - 1)) in
  let m := ss_mem st in
  let was_full := sh_n_free (hdr_at m slab) =? 0 in
  let m := word_put obj (sh_free_head (hdr_at m slab)) m in
  let m := set_free slab (sh_n_free (hdr_at m slab) +u 1) obj m in
  if was_full then
    match list_remove (kc_full c) slab m with
    | None => None
    | Some (full, m) =>
        Some ({| ss_pmm := ss_pmm st; ss_mem := set_next slab (kc_partial c) m |},
              set_lists slab full c)
    end
  else if sh_n_free (hdr_at m slab) =? kc_objs_per_slab c then
    match list_remove (kc_partial c) slab m with
    | None => None
    | Some (partial, m) =>
        Some ({| ss_pmm := pa_decref (ss_pmm st) slab; ss_mem := m |},
              set_lists partial (kc_full c) c)
    end
  else Some ({| ss_pmm := ss_pmm st; ss_mem := m |}, c).

(** [for (s = list; s; s = next) pmm_free_page(s)] *)
Fixpoint free_list (n : nat) (m : slab_mem) (s : Z) (pmm : S) : option S :=
  match n with
  | O => None
  | Datatypes.S n => if s =? 0 then Some pmm
           else free_list n m (sh_next (hdr_at m s)) (pa_decref pmm s)
  end.

Context {Heap : Type} `{KAllocator Heap}.

(** [kmem_cache_create].  [None] is a division by zero; the descriptor is at the
    address the heap returned, 0 for NULL. *)
Definition kmem_cache_create (h : Heap) (name obj_size : Z) : option (Z * kmem_cache * Heap) :=
  let obj_size := if obj_size <? SIZEOF_PTR then SIZEOF_PTR else obj_size in
  let obj_size := Z.land (obj_size +u 3) (not32 3) in
  if obj_size =? 0 then None
  else
    let objs := (PAGE_SIZE - SLAB_HDR_SZ) / obj_size in
    let c := {| kc_name := name; kc_obj_size := obj_size; kc_objs_per_slab := objs;
                kc_partial := 0; kc_full := 0 |} in
    if objs =? 0 then Some (0, c, h)
    else let '(p, h') := ka_malloc h SIZEOF_KMEM_CACHE in Some (p, c, h').

Definition kmem_cache_destroy (st : slab_state) (h : Heap) (c : kmem_cache) (self : Z) :
    option (S * Heap) :=
  let n := Datatypes.S (size (sm_hdr (ss_mem st))) in
  match free_list n (ss_mem st) (kc_partial c) (ss_pmm st) with
  | None => None
  | Some pmm =>
      match free_list n (ss_mem st) (kc_full c) pmm with
      | None => None
      | Some pmm => Some (pmm, ka_free h self)
      end
  end.
End slab.
Arguments slab_state : clear implicits.

(** ** Linked lists in memory *)

(** [chain f a l]: following [f] from [a] visits [l] and ends at NULL. *)
Fixpoint chain (f : Z → Z) (a : Z) (l : list Z) : Prop :=
  match l with
  | [] => a = 0
  | x :: l => a = x ∧ x ≠ 0 ∧ chain f (f x) l
  end.

Lemma slab_chain_ext f g a l : (∀ x, x ∈ l → f x = g x) → chain f a l → chain g a l.
Proof.
  revert a. induction l as [|x l IH]; intros a Hfg; cbn; [done|].
  intros (-> & Hx & Hl). split_and!; auto. rewrite <-Hfg by set_solver. apply IH; [set_solver|done].
Qed.

Lemma chain_nonzero f a l x : chain f a l → x ∈ l → x ≠ 0.
Proof.
  revert a. induction l as [|y l IH]; intros a; cbn; [set_solver|].
  intros (-> & Hy & Hl) [->|Hx]%elem_of_cons; eauto.
Qed.

Lemma chain_zero f a l : chain f a l → (a = 0 ↔ l = []).
Proof. destruct l; cbn; [naive_solver|]. intros (-> & ? & _). split; done. Qed.

Lemma chain_fun f a l l' : chain f a l → chain f a l' → l = l'.
Proof.
  revert a l'. induction l as [|x l IH]; intros a [|x' l']; cbn;
    [done|naive_solver|naive_solver|].
  intros (-> & ? & ?) (-> & ? & ?). f_equal. eauto.
Qed.

(** The walk stops at the target, having passed the cells before it. *)
Lemma list_walk_spec m l1 l2 target p cur n :
  chain (λ a, sh_next (hdr_at m a)) cur (l1 ++ target :: l2) → target ∉ l1 → (length l1 < n)%nat →
  list_walk n m p cur target = Some (match last l1 with Some a => Some a | None => p end, target).
Proof.
  revert p cur n. induction l1 as [|x l1 IH]; intros p cur [|n] Hc Ht Hn; cbn [length] in Hn; try lia.
  - cbn in Hc. destruct Hc as (-> & Hx & _). cbn [list_walk]. rewrite Z.eqb_refl, andb_false_r. done.
  - cbn in Hc. destruct Hc as (-> & Hx & Hl). cbn [list_walk].
    apply not_elem_of_cons in Ht as [Hxt Ht].
    rewrite (proj2 (Z.eqb_neq x 0)), (proj2 (Z.eqb_neq x target)) by done. cbn [negb andb].
    rewrite IH; [|done|done|lia]. rewrite last_cons. by destruct (last l1).
Qed.
