(* ===== verification/SlabProps.v ===== *)
(** * Slab caches: objects handed out and pages held

    [cache_repr] relates the memory of a cache to its partial and full slabs and
    to the free list of each; [cache_holds st c L] hides them and says that the
    live objects of the cache are exactly [L].  The theorems are stated for any
    page allocator with the laws of [Interfaces]. *)

From S2P Require Import Prelude Interfaces PmmCore Kheap Slab.

(** ** Geometry of a slab page *)

Record cache_wf (c : kmem_cache) : Prop := {
  wf_size : 4 <= kc_obj_size c;
  wf_align : kc_obj_size c mod 4 = 0;
  wf_objs : 1 <= kc_objs_per_slab c;
  wf_fit : 12 + kc_objs_per_slab c * kc_obj_size c <= 4096;
}.

Definition slot (c : kmem_cache) (page i : Z) : Z := page + 12 + i * kc_obj_size c.
Definition is_slot (c : kmem_cache) (page o : Z) : Prop :=
  ∃ i, 0 <= i < kc_objs_per_slab c ∧ o = slot c page i.
Definition page_ok (page : Z) : Prop := is_u32 page ∧ page mod 4096 = 0 ∧ page ≠ 0.

Lemma page_top page : page_ok page → 0 < page ∧ page + 4096 <= 2 ^ 32.
Proof. intros (? & ? & ?). zsolve. Qed.

Lemma slot_bounds c page i :
  cache_wf c → 0 <= i < kc_objs_per_slab c →
  page + 12 <= slot c page i ∧ slot c page i + kc_obj_size c <= page + 4096.
Proof. intros [? ? ? ?] ?. unfold slot. nia. Qed.

Lemma slot_addr_eq c page i :
  cache_wf c → page_ok page → 0 <= i < kc_objs_per_slab c → slot_addr c page i = slot c page i.
Proof.
  intros Hc Hp Hi. pose proof (page_top page Hp). pose proof (slot_bounds c page i Hc Hi).
  unfold slot_addr, slot, SLAB_HDR_SZ in *. destruct Hc. 
  rewrite (u32_small (page + 12)) by zsolve. rewrite (u32_small (i * _)) by (unfold is_u32; nia).
  apply u32_small. unfold is_u32. nia.
Qed.

(** The page of an object, and the mask the code computes it with. *)
Lemma slot_page c page o :
  cache_wf c → page_ok page → is_slot c page o →
  Z.land o (not32 (PAGE_SIZE - 1)) = page ∧ o / 4096 = page / 4096 ∧ is_u32 o ∧ o ≠ 0.
Proof.
  intros Hc Hp (i & Hi & ->). pose proof (slot_bounds c page i Hc Hi). pose proof (page_top page Hp).
  destruct Hp as (_ & Hp & _), Hc as [? ? ? ?].
  assert (is_u32 (slot c page i)) by (unfold is_u32; lia).
  change (PAGE_SIZE - 1) with (Z.ones 12). rewrite land_not32_mask by (done || lia).
  change (2 ^ 12) with 4096. split_and!; try done; [| |lia]; Z.div_mod_to_equations; lia.
Qed.

Lemma slot_page_inj c p1 p2 o :
  cache_wf c → page_ok p1 → page_ok p2 → is_slot c p1 o → is_slot c p2 o → p1 = p2.
Proof.
  intros Hc H1 H2 Ho1 Ho2. destruct (slot_page c p1 o Hc H1 Ho1) as [<- _].
  by destruct (slot_page c p2 o Hc H2 Ho2) as [<- _].
Qed.

(** Different slots do not overlap. *)
Lemma slot_disjoint c p1 p2 o1 o2 :
  cache_wf c → page_ok p1 → page_ok p2 → is_slot c p1 o1 → is_slot c p2 o2 → o1 ≠ o2 →
  o1 + kc_obj_size c <= o2 ∨ o2 + kc_obj_size c <= o1.
Proof.
  intros Hc (_ & H1 & _) (_ & H2 & _) (i & Hi & ->) (j & Hj & ->) Hne.
  pose proof (slot_bounds c p1 i Hc Hi). pose proof (slot_bounds c p2 j Hc Hj).
  destruct Hc as [? ? ? ?]. destruct (decide (p1 = p2)) as [->|].
  - unfold slot in *. assert (i ≠ j) by congruence. destruct (decide (i < j)); nia.
  - assert (p1 + 4096 <= p2 ∨ p2 + 4096 <= p1) by (Z.div_mod_to_equations; lia). lia.
Qed.

Definition all_slots (c : kmem_cache) (page : Z) : list Z :=
  slot c page <$> seqZ 0 (kc_objs_per_slab c).

Lemma elem_of_all_slots c page o : o ∈ all_slots c page ↔ is_slot c page o.
Proof.
  unfold all_slots, is_slot. rewrite list_elem_of_fmap. setoid_rewrite elem_of_seqZ.
  split; intros (i & ? & ?); exists i; split; auto; lia.
Qed.

Lemma NoDup_all_slots c page : cache_wf c → NoDup (all_slots c page).
Proof.
  intros [? ? ? ?]. apply NoDup_fmap_2_strong; [|apply NoDup_seqZ].
  intros i j _ _. unfold slot. nia.
Qed.

Lemma length_all_slots c page : length (all_slots c page) = Z.to_nat (kc_objs_per_slab c).
Proof. unfold all_slots. by rewrite length_fmap, length_seqZ. Qed.

(** A duplicate-free list of slots that is as long as the page has slots is all
    of them. *)
Lemma slots_complete c page l :
  cache_wf c → NoDup l → (∀ o, o ∈ l → is_slot c page o) →
  Z.of_nat (length l) = kc_objs_per_slab c ↔ (∀ o, is_slot c page o → o ∈ l).
Proof.
  intros Hc Hnd Hl.
  assert (l ⊆ all_slots c page) as Hsub by (intros o Ho; by apply elem_of_all_slots, Hl).
  apply NoDup_submseteq in Hsub; [|done]. pose proof (submseteq_length _ _ Hsub) as Hle.
  rewrite length_all_slots in Hle. destruct (Hc) as [_ _ ? _]. split.
  - intros E o Ho.
    assert (l ≡ₚ all_slots c page) as ->.
    { apply submseteq_length_Permutation; [done|]. rewrite length_all_slots. lia. }
    by apply elem_of_all_slots.
  - intros Hall. assert (all_slots c page ⊆+ l) as Hs2.
    { apply NoDup_submseteq; [by apply NoDup_all_slots|].
      intros o Ho. by apply Hall, elem_of_all_slots. }
    apply submseteq_length in Hs2. rewrite length_all_slots in Hs2. lia.
Qed.

(** ** Removing a slab from a list *)

Notation nx m := (λ a, sh_next (hdr_at m a)).

Lemma hdr_at_put m a h b : hdr_at (hdr_put a h m) b = if decide (a = b) then h else hdr_at m b.
Proof. unfold hdr_at. cbn. case_decide; simplify_map_eq; done. Qed.

Lemma word_at_put m a v b : word_at (word_put a v m) b = if decide (a = b) then v else word_at m b.
Proof. unfold word_at. cbn. case_decide; simplify_map_eq; done. Qed.

(** What moving links around leaves alone. *)
Record links_only (m m' : slab_mem) : Prop := {
  lo_word : sm_word m' = sm_word m;
  lo_free a : sh_n_free (hdr_at m' a) = sh_n_free (hdr_at m a) ∧
              sh_free_head (hdr_at m' a) = sh_free_head (hdr_at m a);
  lo_dom a : is_Some (sm_hdr m !! a) → is_Some (sm_hdr m' !! a);
}.

Lemma links_only_refl m : links_only m m.
Proof. by split. Qed.
Lemma links_only_trans m1 m2 m3 : links_only m1 m2 → links_only m2 m3 → links_only m1 m3.
Proof.
  intros [Hw1 Hf1 Hd1] [Hw2 Hf2 Hd2]. split; [congruence| |auto].
  intros a. destruct (Hf1 a), (Hf2 a). split; congruence.
Qed.
Lemma set_next_links a n m : links_only m (set_next a n m).
Proof.
  split; [done| |].
  - intros b. unfold set_next. rewrite hdr_at_put. by case_decide; subst.
  - intros b Hb. cbn. apply lookup_insert_is_Some'. auto.
Qed.

Lemma set_next_next a n m b : nx (set_next a n m) b = if decide (a = b) then n else nx m b.
Proof. unfold set_next. rewrite hdr_at_put. by case_decide. Qed.

Lemma chain_length (m : slab_mem) l :
  NoDup l → (∀ a, a ∈ l → is_Some (sm_hdr m !! a)) → (length l <= size (sm_hdr m))%nat.
Proof.
  intros Hnd Hd. rewrite <-(size_list_to_set (C := gset Z)) by done. rewrite <-size_dom.
  apply subseteq_size. intros a Ha. apply elem_of_list_to_set in Ha. by apply elem_of_dom, Hd.
Qed.

(** Unlinking after the last cell of [l1]. *)
Lemma chain_unlink m head l1 x t l2 :
  chain (nx m) head (l1 ++ [x] ++ t :: l2) → NoDup (l1 ++ [x] ++ t :: l2) →
  chain (nx (set_next x (sh_next (hdr_at m t)) m)) head (l1 ++ [x] ++ l2).
Proof.
  revert head. induction l1 as [|y l1 IH]; intros head Hc Hnd.
  - cbn in *. destruct Hc as (-> & Hx & Hxt & Ht & Hl2). split_and!; auto.
    rewrite set_next_next, decide_True by done. apply (slab_chain_ext (nx m)); [|done].
    intros a Ha. rewrite set_next_next, decide_False; [done|].
    apply NoDup_cons in Hnd as [Hnd _]. set_solver.
  - cbn in Hc. destruct Hc as (-> & Hy & Hc). apply NoDup_cons in Hnd as [Hy' Hnd].
    cbn. split_and!; auto. rewrite set_next_next, decide_False by set_solver. by apply IH.
Qed.

Lemma list_remove_spec m head l1 t l2 :
  chain (nx m) head (l1 ++ t :: l2) → NoDup (l1 ++ t :: l2) →
  (∀ a, a ∈ l1 ++ t :: l2 → is_Some (sm_hdr m !! a)) →
  ∃ head' m', list_remove head t m = Some (head', m') ∧ chain (nx m') head' (l1 ++ l2) ∧
    links_only m m' ∧ ∀ a, a ∉ l1 → nx m' a = nx m a.
Proof.
  intros Hc Hnd Hd. pose proof (chain_length m _ Hnd Hd) as Hlen. rewrite length_app in Hlen. cbn in Hlen.
  assert (t ∉ l1) as Ht. { apply NoDup_app in Hnd as (_ & Hn & _). intros Hin. eapply Hn; [done|left]. }
  assert (t ≠ 0) as Ht0 by (eapply chain_nonzero; [exact Hc|set_solver]).
  unfold list_remove. erewrite list_walk_spec; [|exact Hc|done|lia].
  rewrite (proj2 (Z.eqb_neq t 0)) by done.
  destruct l1 as [|x l1 _] using rev_ind; cbn [last].
  - eexists _, _. split; [done|]. cbn in *. destruct Hc as (-> & _ & Hc).
    split_and!; auto using links_only_refl.
  - rewrite last_snoc. eexists _, _. split; [done|].
    rewrite <-app_assoc in Hc, Hnd |- *. split_and!; [by apply chain_unlink|apply set_next_links|].
    intros a Ha. rewrite set_next_next, decide_False; [done|]. set_solver.
Qed.

(** ** The state of a cache *)

Record slab_ok (m : slab_mem) (c : kmem_cache) (page : Z) (fl : list Z) : Prop := {
  so_page : page_ok page;
  so_dom : is_Some (sm_hdr m !! page);
  so_free : chain (word_at m) (sh_free_head (hdr_at m page)) fl;
  so_n : sh_n_free (hdr_at m page) = Z.of_nat (length fl);
  so_nodup : NoDup fl;
  so_slots : ∀ o, o ∈ fl → is_slot c page o;
}.

(** A slab does not see changes to links, to other headers or to the words of
    other pages. *)
Lemma slab_ok_frame m m' c page fl :
  slab_ok m c page fl → is_Some (sm_hdr m' !! page) →
  sh_n_free (hdr_at m' page) = sh_n_free (hdr_at m page) →
  sh_free_head (hdr_at m' page) = sh_free_head (hdr_at m page) →
  (∀ o, is_slot c page o → word_at m' o = word_at m o) → slab_ok m' c page fl.
Proof.
  intros [Hp Hd Hf Hn Hnd Hs] Hd' Hn' Hf' Hw. split; auto; [|congruence].
  rewrite Hf'. apply (slab_chain_ext (word_at m)); [|done]. intros o Ho. symmetry. auto.
Qed.

Lemma slab_ok_conf c c' m page fl :
  kc_obj_size c' = kc_obj_size c → kc_objs_per_slab c' = kc_objs_per_slab c →
  slab_ok m c page fl → slab_ok m c' page fl.
Proof.
  intros Hs Ho [? ? ? ? ? Hsl]. split; auto. intros o Hin. destruct (Hsl o Hin) as (i & ? & ->).
  exists i. unfold slot. by rewrite Hs, Ho.
Qed.

Lemma slab_ok_links m m' c page fl : links_only m m' → slab_ok m c page fl → slab_ok m' c page fl.
Proof.
  intros [Hw Hf Hd] Hs. destruct (Hf page). apply (slab_ok_frame m); auto.
  - by apply Hd, Hs.
  - intros o _. unfold word_at. by rewrite Hw.
Qed.

(** ** A fresh slab *)

Lemma chain_slots f s k n :
  (∀ i, k <= i < k + Z.of_nat n → s i ≠ 0) →
  (∀ i, k <= i < k + Z.of_nat n → f (s i) = if i + 1 <? k + Z.of_nat n then s (i + 1) else 0) →
  chain f (if 0 <? Z.of_nat n then s k else 0) (s <$> seqZ k (Z.of_nat n)).
Proof.
  revert k. induction n as [|n IH]; intros k Hs Hf; [done|].
  rewrite seqZ_cons by lia. replace (Z.pred (Z.of_nat (S n))) with (Z.of_nat n) by lia.
  cbn [fmap list_fmap]. rewrite (proj2 (Z.ltb_lt 0 (Z.of_nat (S n)))) by lia.
  split_and!; [done|apply Hs; lia|]. rewrite Hf by lia. rewrite <-Z.add_1_r.
  replace (k + 1 <? k + Z.of_nat (S n)) with (0 <? Z.of_nat n)
    by (apply Bool.eq_iff_eq_true; rewrite !Z.ltb_lt; lia).
  apply IH; intros i Hi; [apply Hs; lia|]. rewrite Hf by lia.
  replace (k + 1 + Z.of_nat n) with (k + Z.of_nat (S n)) by lia. done.
Qed.

Lemma format_words c page m :
  cache_wf c → page_ok page →
  let m' := slab_format c page m in
  (∀ i, 0 <= i < kc_objs_per_slab c → word_at m' (slot c page i) =
     if i + 1 <? kc_objs_per_slab c then slot c page (i + 1) else 0) ∧
  (∀ a, ¬ is_slot c page a → word_at m' a = word_at m a) ∧
  hdr_at m' page = {| sh_next := 0; sh_n_free := kc_objs_per_slab c; sh_free_head := page + 12 |} ∧
  (∀ a, a ≠ page → hdr_at m' a = hdr_at m a) ∧
  (∀ a, is_Some (sm_hdr m !! a) → is_Some (sm_hdr m' !! a)) ∧ is_Some (sm_hdr m' !! page).
Proof.
  intros Hc Hp. pose proof Hc as [? ? ? Hfit].
  cbn zeta. unfold slab_format. set (m0 := hdr_put page _ m). set (body := λ i m, word_put _ _ m).
  pose proof (for_loop_inv (λ k m, sm_hdr m = sm_hdr m0 ∧
    (∀ i, 0 <= i < k → word_at m (slot c page i) =
       if i + 1 <? kc_objs_per_slab c then slot c page (i + 1) else 0) ∧
    (∀ a, ¬ is_slot c page a → word_at m a = word_at m0 a)) body 0
    (Z.to_nat (kc_objs_per_slab c)) m0) as Hl.
  destruct Hl as (Hh & Hw & Ho).
  - intros k m1 Hk (Hh & Hw & Ho). unfold body. rewrite Z2Nat.id in Hk by lia.
    assert (is_u32 (k + 1)) by (unfold is_u32; nia).
    rewrite slot_addr_eq, u32_small by (done || lia). split_and!; [done| |].
    + intros i Hi. rewrite word_at_put. destruct (decide (i = k)) as [->|].
      * rewrite decide_True by done. case_match; bprop; [|done]. apply slot_addr_eq; [done|done|lia].
      * rewrite decide_False by (unfold slot; nia). apply Hw. lia.
    + intros a Ha. rewrite word_at_put, decide_False; [by apply Ho|]. intros <-. apply Ha.
      exists k. split; [lia|done].
  - split_and!; [done|intros; lia|done].
  - rewrite Z2Nat.id in Hw by lia. set (m1 := for_loop _ _ _ _) in *.
    assert (∀ a, hdr_at m1 a = hdr_at m0 a) as Hh1 by (intros; unfold hdr_at; by rewrite Hh).
    unfold set_free. split_and!.
    + intros i Hi. exact (Hw i Hi).
    + intros a Ha. exact (Ho a Ha).
    + rewrite hdr_at_put, decide_True, !Hh1 by done. unfold m0. rewrite hdr_at_put, decide_True by done.
      cbn. f_equal. unfold SLAB_HDR_SZ. apply u32_small. pose proof (page_top page Hp). unfold is_u32. lia.
    + intros a Ha. rewrite hdr_at_put, decide_False, Hh1 by done. unfold m0.
      by rewrite hdr_at_put, decide_False by done.
    + intros a Ha. cbn. rewrite Hh. apply lookup_insert_is_Some'. right. cbn.
      apply lookup_insert_is_Some'. by right.
    + cbn. apply lookup_insert_is_Some'. by left.
Qed.

Lemma format_slab c page m :
  cache_wf c → page_ok page → slab_ok (slab_format c page m) c page (all_slots c page).
Proof.
  intros Hc Hp. destruct (format_words c page m Hc Hp) as (Hw & _ & Hh & _ & _ & Hd).
  pose proof Hc as [? ? ? ?]. split; [done|done| | |by apply NoDup_all_slots|].
  - rewrite Hh. cbn [sh_free_head].
    pose proof (chain_slots (word_at (slab_format c page m)) (slot c page) 0
      (Z.to_nat (kc_objs_per_slab c))) as Hch.
    rewrite Z2Nat.id, (proj2 (Z.ltb_lt 0 _)) in Hch by lia.
    replace (page + 12) with (slot c page 0) by (unfold slot; lia). apply Hch.
    + intros i Hi. pose proof (slot_bounds c page i Hc). pose proof (page_top page Hp). lia.
    + intros i Hi. apply Hw. lia.
  - rewrite Hh, length_all_slots. cbn. lia.
  - intros o Ho. by apply elem_of_all_slots.
Qed.

Lemma format_other c page m page' fl :
  cache_wf c → page_ok page → page' ≠ page → slab_ok m c page' fl →
  slab_ok (slab_format c page m) c page' fl.
Proof.
  intros Hc Hp Hne Hs. destruct (format_words c page m Hc Hp) as (_ & Ho & _ & Hh & Hd & _).
  apply (slab_ok_frame m); [done|apply Hd, Hs|by rewrite Hh|by rewrite Hh|].
  intros o Hso. apply Ho. intros Hso'. apply Hne.
  exact (slot_page_inj c _ _ o Hc (so_page _ _ _ _ Hs) Hp Hso Hso').
Qed.

Definition upd (f : Z → list Z) (a : Z) (l : list Z) : Z → list Z := λ x, if decide (x = a) then l else f x.

Lemma upd_eq f a l : upd f a l a = l.
Proof. unfold upd. by rewrite decide_True. Qed.
Lemma upd_ne f a l x : x ≠ a → upd f a l x = f x.
Proof. unfold upd. intros. by rewrite decide_False. Qed.

Section cache.
Context {S : Type} `{PageAllocatorLaws S pa_inv pa_managed}.
Implicit Types (st : slab_state S) (c : kmem_cache) (P F : list Z) (fl : Z → list Z).

Record cache_repr st c P F fl : Prop := {
  cr_wf : cache_wf c;
  cr_partial : chain (nx (ss_mem st)) (kc_partial c) P;
  cr_full : chain (nx (ss_mem st)) (kc_full c) F;
  cr_nodup : NoDup (P ++ F);
  cr_slab page : page ∈ P ++ F → slab_ok (ss_mem st) c page (fl page);
  cr_some page : page ∈ P → fl page ≠ [];
  cr_none page : page ∈ F → fl page = [];
  cr_pmm : pa_inv (ss_pmm st);
  cr_ref page : page ∈ P ++ F → pa_refcount (ss_pmm st) page = 1;
}.

(** An object is live when it is a slot of some slab and not free. *)
Definition live c P F fl (o : Z) : Prop := ∃ page, page ∈ P ++ F ∧ is_slot c page o ∧ o ∉ fl page.

Definition cache_holds st c (L : gset Z) : Prop :=
  ∃ P F fl, cache_repr st c P F fl ∧ ∀ o, o ∈ L ↔ live c P F fl o.

Lemma chain_links m m' a l :
  chain (nx m) a l → (∀ x, x ∈ l → nx m' x = nx m x) → chain (nx m') a l.
Proof. intros Hc Hx. apply (slab_chain_ext (nx m)); [|done]. intros x Hin. symmetry. auto. Qed.

(** Changing the free list of one slab. *)
Lemma set_free_slab m c page n head (fl : list Z) :
  page_ok page → is_Some (sm_hdr m !! page) → chain (word_at m) head fl →
  n = Z.of_nat (length fl) → NoDup fl → (∀ o, o ∈ fl → is_slot c page o) →
  slab_ok (set_free page n head m) c page fl.
Proof.
  intros Hp Hd Hf Hn Hnd Hs. unfold set_free. split; try done; cbn.
  - apply lookup_insert_is_Some'. by left.
  - by rewrite hdr_at_put, decide_True.
  - by rewrite hdr_at_put, decide_True.
Qed.

Lemma set_free_other m c page n head page' (fl : list Z) :
  page ≠ page' → slab_ok m c page' fl → slab_ok (set_free page n head m) c page' fl.
Proof.
  intros Hne Hs. apply (slab_ok_frame m); [done|..].
  - cbn. apply lookup_insert_is_Some'. right. apply Hs.
  - unfold set_free. by rewrite hdr_at_put, decide_False.
  - unfold set_free. by rewrite hdr_at_put, decide_False.
  - done.
Qed.

Lemma set_free_next m page n head a : nx (set_free page n head m) a = nx m a.
Proof. unfold set_free. rewrite hdr_at_put. by case_decide; subst. Qed.

(** ** Allocation *)

Lemma slab_pop_spec st c page P F fl o l :
  cache_repr st c (page :: P) F fl → fl page = o :: l →
  ∃ st' c' P' F', slab_pop page st c = (o, st', c') ∧
    cache_repr st' c' P' F' (upd fl page l) ∧ P' ++ F' ≡ₚ page :: P ++ F ∧
    kc_obj_size c' = kc_obj_size c ∧ kc_objs_per_slab c' = kc_objs_per_slab c ∧
    ss_pmm st' = ss_pmm st.
Proof.
  intros [Hwf Hp Hf Hnd Hsl Hsome Hnone Hpmm Href] Hfl.
  pose proof (Hsl page ltac:(left)) as Hs. pose proof Hs as [Hpg Hdom Hch Hn Hndl Hslots].
  rewrite Hfl in *. cbn in Hch. destruct Hch as (Hhd & Ho0 & Hch).
  cbn [app] in Hnd. apply NoDup_cons in Hnd as [Hnot Hnd].
  assert (∀ q, q ∈ P ∨ q ∈ F → q ≠ page ∧ page ≠ q) as Hne.
  { intros q Hq%elem_of_app. clear -Hnot Hq. split; congruence. }
  assert (length (o :: l) <= 4096)%nat as Hlen.
  { assert (o :: l ⊆+ all_slots c page) as Hsub%submseteq_length.
    { apply NoDup_submseteq; [done|]. intros x Hx. by apply elem_of_all_slots, Hslots. }
    rewrite length_all_slots in Hsub. destruct Hwf. nia. }
  cbn [length] in Hn, Hlen.
  unfold slab_pop. rewrite Hhd. cbn zeta. rewrite Hn, u32_small by (unfold is_u32; lia).
  replace (Z.of_nat (Datatypes.S (length l)) - 1) with (Z.of_nat (length l)) by lia.
  set (m1 := set_free page (Z.of_nat (length l)) (word_at (ss_mem st) o) (ss_mem st)).
  assert (∀ a, sh_next (hdr_at m1 a) = sh_next (hdr_at (ss_mem st) a)) as Hnx1 by (intros; apply set_free_next).
  apply NoDup_cons in Hndl as [Hol Hndl].
  assert (slab_ok m1 c page l) as Hs1.
  { apply set_free_slab; auto. intros x Hx. apply Hslots. by right. }
  assert (∀ q, q ∈ P ++ F → slab_ok m1 c q (fl q)) as Hs2.
  { intros q Hq. apply set_free_other; [by apply Hne, elem_of_app|]. apply Hsl. by right. }
  assert (∀ m2, links_only m1 m2 → ∀ q, q ∈ page :: P ++ F → slab_ok m2 c q (upd fl page l q)) as Hs3.
  { intros m2 Hm2 q [->|Hq]%elem_of_cons; (eapply slab_ok_links; [exact Hm2|]).
    - by rewrite upd_eq.
    - rewrite upd_ne by by apply Hne, elem_of_app. auto. }
  rewrite (so_n _ _ _ _ Hs1). cbn in Hp. destruct Hp as (Hkp & _ & HcP).
  destruct (Z.eqb_spec (Z.of_nat (length l)) 0) as [E|E].
  - assert (l = []) as -> by (apply nil_length_inv; lia).
    eexists _, _, P, (page :: F). split; [done|]. cbn [set_lists kc_obj_size kc_objs_per_slab ss_pmm].
    split; [|split; [symmetry; apply Permutation_middle|done]].
    split; cbn [ss_mem ss_pmm set_lists kc_partial kc_full]; auto.
    + by destruct Hwf; split.
    + rewrite Hnx1. apply (chain_links (ss_mem st)); [done|]. intros x Hx.
      rewrite set_next_next, decide_False by (apply Hne; auto). apply Hnx1.
    + split_and!; [done|by apply Hpg|]. rewrite set_next_next, decide_True by done.
      apply (chain_links (ss_mem st)); [done|]. intros x Hx.
      rewrite set_next_next, decide_False by (apply Hne; auto). apply Hnx1.
    + rewrite <-Permutation_middle. by apply NoDup_cons.
    + intros q Hq. rewrite <-Permutation_middle in Hq. destruct (Hs3 _ (set_next_links page (kc_full c) m1) q Hq).
      split; auto.
    + intros q Hq. rewrite upd_ne by (apply Hne; auto). apply Hsome. by right.
    + intros q [->|Hq]%elem_of_cons; [apply upd_eq|]. rewrite upd_ne by (apply Hne; auto). auto.
    + intros q Hq. rewrite <-Permutation_middle in Hq. auto.
  - eexists _, _, (page :: P), F. split; [done|]. split; [|done].
    split; cbn [ss_mem ss_pmm]; auto.
    + cbn. split_and!; [done|by apply Hpg|]. rewrite Hnx1.
      apply (chain_links (ss_mem st)); [done|]. intros x Hx. apply Hnx1.
    + apply (chain_links (ss_mem st)); [done|]. intros x Hx. apply Hnx1.
    + by apply NoDup_cons.
    + apply Hs3, links_only_refl.
    + intros q [->|Hq]%elem_of_cons; [rewrite upd_eq; intros ->; done|].
      rewrite upd_ne by (apply Hne; auto). apply Hsome. by right.
    + intros q Hq. rewrite upd_ne by (apply Hne; auto). auto.
Qed.

Lemma slab_grow_spec st c F fl page st' c' :
  cache_repr st c [] F fl → slab_grow st c = (page, st', c') →
  (page = 0 ∧ (pa_alloc (ss_pmm st)).1 = 0 ∧ st' = st ∧ c' = c) ∨
  (page ≠ 0 ∧ page ∉ F ∧ page_ok page ∧ cache_repr st' c' [page] F (upd fl page (all_slots c page)) ∧
   kc_obj_size c' = kc_obj_size c ∧ kc_objs_per_slab c' = kc_objs_per_slab c).
Proof.
  intros [Hwf Hp Hf Hnd Hsl Hsome Hnone Hpmm Href]. unfold slab_grow.
  destruct (pa_alloc (ss_pmm st)) as [a pmm] eqn:Ea.
  destruct (Z.eqb_spec a 0) as [->|Ha0]; intros [= <- <- <-].
  { left. split_and!; [done|done| |done]. pose proof (pa_alloc_fail (ss_pmm st) Hpmm) as Hfail.
    rewrite Ea in Hfail. cbn in Hfail. rewrite Hfail by done. by destruct st. }
  right. destruct (pa_alloc_ok _ _ _ Hpmm Ea Ha0) as (Hau & Hal & _ & Hz & Hone & Hoth).
  pose proof (pa_alloc_inv (ss_pmm st) Hpmm) as Hinv. rewrite Ea in Hinv. cbn in Hinv.
  assert (page_ok a) as Hpa by done. cbn [app] in *.
  assert (a ∉ F) as HaF. { intros Hin. rewrite Href in Hz by done. lia. }
  assert (∀ q, q ∈ F → q ≠ a) as Hne by (intros q Hq ->; done).
  cbn in Hp. split_and!; try done.
  destruct (format_words c a (ss_mem st) Hwf Hpa) as (_ & _ & _ & Hh & _ & _).
  split; cbn [ss_mem ss_pmm set_lists kc_partial kc_full app]; auto.
  - by destruct Hwf; split.
  - split_and!; [done|done|]. rewrite set_next_next, decide_True by done. by rewrite Hp.
  - apply (chain_links (ss_mem st)); [done|]. intros x Hx.
    rewrite set_next_next, decide_False, Hh by (auto || (intros ->; done)). done.
  - by apply NoDup_cons.
  - intros q Hq. apply (slab_ok_conf c); [done|done|].
    apply elem_of_cons in Hq as [->|Hq]; (eapply slab_ok_links; [apply set_next_links|]).
    + rewrite upd_eq. by apply format_slab.
    + rewrite upd_ne by auto. apply format_other; auto.
  - intros q ->%list_elem_of_singleton. rewrite upd_eq. intros E.
    pose proof (length_all_slots c a) as Hlen. rewrite E in Hlen. destruct Hwf. cbn in Hlen. lia.
  - intros q Hq. rewrite upd_ne by auto. auto.
  - intros q [->|Hq]%elem_of_cons; [done|]. rewrite Hoth; [auto| |].
    + apply (so_page _ _ _ _ (Hsl q Hq)).
    + unfold same_page, PAGE_SIZE. intros E. apply (Hne q Hq).
      destruct (so_page _ _ _ _ (Hsl q Hq)) as (_ & Hq4 & _). unfold PAGE_SIZE in Hal.
      Z.div_mod_to_equations. lia.
Qed.

Lemma cache_wf_same c c' :
  kc_obj_size c' = kc_obj_size c → kc_objs_per_slab c' = kc_objs_per_slab c →
  ∀ page o, is_slot c' page o ↔ is_slot c page o.
Proof. intros Hs Ho page o. unfold is_slot, slot. by rewrite Hs, Ho. Qed.

(** Popping [o] makes it live and nothing else. *)
Lemma pop_live c c' P F P' F' fl page o l x :
  kc_obj_size c' = kc_obj_size c → kc_objs_per_slab c' = kc_objs_per_slab c →
  P' ++ F' ≡ₚ page :: P ++ F → fl page = o :: l → NoDup (o :: l) → is_slot c page o →
  page ∉ P ++ F → (∀ q, q ∈ P ++ F → ¬ is_slot c q o) →
  live c' P' F' (upd fl page l) x ↔ x = o ∨ live c (page :: P) F fl x.
Proof.
  intros Hsz Hob Hperm Hfl Hnd Hso Hnot Hoth. apply NoDup_cons in Hnd as [Hol _].
  unfold live. setoid_rewrite Hperm. setoid_rewrite (cache_wf_same c c' Hsz Hob).
  split.
  - intros (q & Hq & Hs & Hx). destruct (decide (x = o)); [by left|]. right. exists q.
    split_and!; auto. unfold upd in Hx. case_decide; subst; [|done]. rewrite Hfl. set_solver.
  - intros [->|(q & Hq & Hs & Hx)].
    + exists page. split_and!; [left|done|]. by rewrite upd_eq.
    + exists q. split_and!; auto. unfold upd. case_decide; subst; [|done]. rewrite Hfl in Hx. set_solver.
Qed.

(** Allocation from a cache that has a partial slab. *)
Lemma pop_holds st c page P F fl L o st' c' :
  cache_repr st c (page :: P) F fl → (∀ x, x ∈ L ↔ live c (page :: P) F fl x) →
  slab_pop page st c = (o, st', c') →
  o ≠ 0 ∧ o ∉ L ∧ is_slot c page o ∧ cache_holds st' c' ({[o]} ∪ L) ∧
  kc_obj_size c' = kc_obj_size c ∧ ss_pmm st' = ss_pmm st.
Proof.
  intros Hr HL Hpop. pose proof Hr as [Hwf _ _ Hnd Hsl Hsome _ _ _].
  destruct (fl page) as [|o1 l] eqn:Efl; [destruct (Hsome page ltac:(left)); done|].
  destruct (slab_pop_spec st c page P F fl o1 l Hr Efl)
    as (st1 & c1 & P1 & F1 & Hp1 & Hr1 & Hperm & Hsz & Hob & Hpmm).
  rewrite Hpop in Hp1. simplify_eq. pose proof (Hsl page ltac:(left)) as Hs. rewrite Efl in Hs.
  pose proof (so_slots _ _ _ _ Hs o1 ltac:(left)) as Hso.
  apply NoDup_cons in Hnd as [Hnot Hnd].
  assert (∀ q, q ∈ P ++ F → ¬ is_slot c q o1) as Hoth.
  { intros q Hq Hsq. apply Hnot. pose proof (Hsl q ltac:(by right)) as Hs'.
    rewrite (slot_page_inj c page q o1); [done|done|apply Hs|apply Hs'|done|done]. }
  split_and!; try done.
  - by apply (slot_page c page o1 Hwf (so_page _ _ _ _ Hs) Hso).
  - rewrite HL. intros (q & [->|Hq]%elem_of_cons & Hsq & Hnq); [|by eapply Hoth].
    apply Hnq. rewrite Efl. left.
  - exists P1, F1, (upd fl page l). split; [done|]. intros x.
    rewrite (pop_live c c1 P F _ _ fl page o1 l x); try done; [|apply Hs].
    rewrite elem_of_union, elem_of_singleton, HL. done.
Qed.

(** ** Freeing *)

(** The slab of a freed object, before the lists are touched. *)
Definition pushed (m : slab_mem) (page o : Z) : slab_mem :=
  set_free page (sh_n_free (hdr_at m page) +u 1) o (word_put o (sh_free_head (hdr_at m page)) m).

Lemma free_list_short m c page (l : list Z) o :
  cache_wf c → slab_ok m c page l → is_slot c page o → o ∉ l →
  Z.of_nat (length l) < kc_objs_per_slab c ∧ kc_objs_per_slab c <= 4096.
Proof.
  intros Hwf Hs Ho Hn. split; [|destruct Hwf; nia].
  assert (o :: l ⊆+ all_slots c page) as Hsub%submseteq_length.
  { apply NoDup_submseteq; [apply NoDup_cons; split; [done|apply Hs]|].
    intros x [->|Hx]%elem_of_cons; apply elem_of_all_slots; [done|by apply Hs]. }
  rewrite length_all_slots in Hsub. cbn in Hsub. destruct Hwf. lia.
Qed.

Lemma pushed_slab m c page (l : list Z) o :
  cache_wf c → slab_ok m c page l → is_slot c page o → o ∉ l →
  slab_ok (pushed m page o) c page (o :: l).
Proof.
  intros Hwf Hs Ho Hn. pose proof (free_list_short m c page l o Hwf Hs Ho Hn).
  destruct (slot_page c page o Hwf (so_page _ _ _ _ Hs) Ho) as (_ & _ & _ & Ho0).
  destruct Hs as [Hp Hd Hf Hln Hnd Hsl]. apply set_free_slab; auto.
  - cbn. split_and!; [done|done|]. rewrite word_at_put, decide_True by done.
    apply (slab_chain_ext (word_at m)); [|done]. intros x Hx.
    rewrite word_at_put, decide_False; [done|]. by intros ->.
  - rewrite Hln, u32_small by (unfold is_u32; lia). cbn [length]. lia.
  - by apply NoDup_cons.
  - intros x [->|Hx]%elem_of_cons; auto.
Qed.

Lemma pushed_other m c page o q (l : list Z) :
  cache_wf c → page_ok page → is_slot c page o → q ≠ page → slab_ok m c q l →
  slab_ok (pushed m page o) c q l.
Proof.
  intros Hwf Hp Ho Hne Hs. apply set_free_other; [done|].
  apply (slab_ok_frame m); [done|apply Hs|done|done|]. intros x Hx.
  rewrite word_at_put, decide_False; [done|]. intros <-. apply Hne.
  exact (slot_page_inj c q page o Hwf (so_page _ _ _ _ Hs) Hp Hx Ho).
Qed.

Lemma pushed_all st c P F fl page o :
  cache_repr st c P F fl → page ∈ P ++ F → is_slot c page o → o ∉ fl page →
  ∀ m, links_only (pushed (ss_mem st) page o) m →
  ∀ q, q ∈ P ++ F → slab_ok m c q (upd fl page (o :: fl page) q).
Proof.
  intros Hr Hin Ho Hn m Hm q Hq. eapply slab_ok_links; [exact Hm|].
  pose proof (cr_slab _ _ _ _ _ Hr page Hin) as Hs.
  destruct (decide (q = page)) as [->|Hne].
  - rewrite upd_eq. apply pushed_slab; auto. apply Hr.
  - rewrite upd_ne by done. apply pushed_other; auto; [apply Hr|apply Hs|by apply Hr].
Qed.

Lemma pushed_next m page o a : sh_next (hdr_at (pushed m page o) a) = sh_next (hdr_at m a).
Proof. unfold pushed. by rewrite set_free_next. Qed.

(** [o] is not live any more, and nothing else changed; [P'], [F'] may have lost
    [page] if all its slots are free. *)
Lemma free_live c c' P F P' F' fl page o x :
  kc_obj_size c' = kc_obj_size c → kc_objs_per_slab c' = kc_objs_per_slab c →
  page ∈ P ++ F → (∀ q, q ∈ P' ++ F' → q ∈ P ++ F) →
  (∀ q, q ∈ P ++ F → q ∈ P' ++ F' ∨ (q = page ∧ ∀ y, is_slot c page y → y ∈ o :: fl page)) →
  (∀ q, q ∈ P ++ F → is_slot c q o → q = page) →
  live c' P' F' (upd fl page (o :: fl page)) x ↔ x ≠ o ∧ live c P F fl x.
Proof.
  intros Hsz Hob Hin Hsub Hback Huniq. unfold live. setoid_rewrite (cache_wf_same c c' Hsz Hob). split.
  - intros (q & Hq & Hs & Hx). unfold upd in Hx. case_decide as E; subst.
    + apply not_elem_of_cons in Hx as [Hxo Hx]. split; [done|]. exists page. auto.
    + split; [|exists q; auto]. intros ->. by apply E, Huniq; [apply Hsub|].
  - intros [Hxo (q & Hq & Hs & Hx)]. destruct (Hback q Hq) as [Hq'|[-> Hall]].
    + exists q. split_and!; auto. unfold upd. case_decide; subst; [|done]. set_solver.
    + apply Hall, elem_of_cons in Hs as [?|?]; done.
Qed.

(** The three ways a freed object leaves the lists. *)
Section freed.
Context st c P F fl (page o : Z).
Hypothesis (Hr : cache_repr st c P F fl) (Hin : page ∈ P ++ F).
Hypothesis (Ho : is_slot c page o) (Hn : o ∉ fl page).
#[local] Notation m1 := (pushed (ss_mem st) page o).
#[local] Notation fl' := (upd fl page (o :: fl page)).

Lemma pushed_dom q : q ∈ P ++ F → is_Some (sm_hdr m1 !! q).
Proof. intros Hq. apply (pushed_all st c P F fl page o Hr Hin Ho Hn m1 (links_only_refl m1) q Hq). Qed.

Lemma pushed_chain a l : chain (nx (ss_mem st)) a l → chain (nx m1) a l.
Proof. intros Hc. apply (chain_links (ss_mem st)); [done|]. intros x _. apply pushed_next. Qed.

(** A full slab goes to the head of the partial list. *)
Lemma freed_full :
  fl page = [] →
  ∃ full m2 F', list_remove (kc_full c) page m1 = Some (full, m2) ∧
    cache_repr {| ss_pmm := ss_pmm st; ss_mem := set_next page (kc_partial c) m2 |}
      (set_lists page full c) (page :: P) F' fl' ∧
    ∀ q, q ∈ (page :: P) ++ F' ↔ q ∈ P ++ F.
Proof.
  intros Efl. pose proof (pushed_all st c P F fl page o Hr Hin Ho Hn) as Hall. pose proof pushed_dom as Hdom.
  destruct Hr as [Hwf Hp Hf Hnd Hsl Hsome Hnone Hpmm Href]. pose proof (Hsl page Hin) as Hs.
  assert (page ∈ F) as HinF. { apply elem_of_app in Hin as [HP|]; [by destruct (Hsome _ HP)|done]. }
  apply list_elem_of_split in HinF as (l1 & l2 & ->).
  assert (∀ q, q ∈ (page :: P) ++ l1 ++ l2 ↔ q ∈ P ++ l1 ++ page :: l2) as Hset by (intros q; set_solver).
  assert (NoDup ((page :: P) ++ l1 ++ l2)) as Hnd'.
  { eapply NoDup_Permutation_proper; [|exact Hnd]. cbn. rewrite !app_assoc. by rewrite <-Permutation_middle. }
  destruct (list_remove_spec m1 (kc_full c) l1 page l2) as (full' & m2 & Hrm & Hc2 & Hlo & Hnx2).
  { by apply pushed_chain. }
  { by apply NoDup_app in Hnd as (_ & _ & ?). }
  { intros a Ha. apply Hdom. set_solver. }
  exists full', m2, (l1 ++ l2). split_and!; [done| |done].
  pose proof (links_only_trans _ _ _ Hlo (set_next_links page (kc_partial c) m2)) as Hlo'.
  pose proof Hnd' as Hnd''. cbn [app] in Hnd'. apply NoDup_cons in Hnd' as [Hnd1 Hnd2].
  assert (∀ x, x ∈ P ∨ x ∈ l1 ++ l2 → page ≠ x) as Hne by (intros x Hx ->; by apply Hnd1, elem_of_app).
  apply NoDup_app in Hnd2 as (_ & Hdj & _).
  split; cbn [ss_mem ss_pmm set_lists kc_partial kc_full]; auto.
  - by destruct Hwf; split.
  - split_and!; [done|apply Hs|]. rewrite set_next_next, decide_True by done.
    apply (chain_links (ss_mem st)); [done|]. intros x Hx. rewrite set_next_next, decide_False by auto.
    rewrite Hnx2; [apply pushed_next|]. intros Hx1. apply (Hdj x Hx), elem_of_app. by left.
  - apply (chain_links m2); [done|]. intros x Hx. by rewrite set_next_next, decide_False by auto.
  - intros q Hq. apply (slab_ok_conf c); [done|done|]. apply Hall; [done|]. by apply Hset.
  - intros q [->|Hq]%elem_of_cons; [by rewrite upd_eq|].
    rewrite upd_ne by (intros ->; by apply (Hne page); [left|]). auto.
  - intros q Hq. rewrite upd_ne by (intros ->; by apply (Hne page); [right|]). apply Hnone. set_solver.
  - intros q Hq. apply Href. by apply Hset.
Qed.

(** A slab that became empty leaves the partial list, and its page goes back. *)
Lemma freed_empty :
  fl page ≠ [] →
  ∃ part m2 P', list_remove (kc_partial c) page m1 = Some (part, m2) ∧
    cache_repr {| ss_pmm := pa_decref (ss_pmm st) page; ss_mem := m2 |}
      (set_lists part (kc_full c) c) P' F fl' ∧
    ∀ q, q ∈ P' ++ F ↔ q ∈ P ++ F ∧ q ≠ page.
Proof.
  intros Efl. pose proof (pushed_all st c P F fl page o Hr Hin Ho Hn) as Hall. pose proof pushed_dom as Hdom.
  destruct Hr as [Hwf Hp Hf Hnd Hsl Hsome Hnone Hpmm Href]. pose proof (Hsl page Hin) as Hs.
  assert (page ∈ P) as HinP. { apply elem_of_app in Hin as [|HF]; [done|by rewrite (Hnone _ HF) in Efl]. }
  apply list_elem_of_split in HinP as (l1 & l2 & ->).
  destruct (list_remove_spec m1 (kc_partial c) l1 page l2) as (part' & m2 & Hrm & Hc2 & Hlo & Hnx2).
  { by apply pushed_chain. }
  { by apply NoDup_app in Hnd as (? & _ & _). }
  { intros a Ha. apply Hdom. set_solver. }
  assert (NoDup (page :: (l1 ++ l2) ++ F)) as Hnd'.
  { eapply NoDup_Permutation_proper; [|exact Hnd]. cbn. by rewrite <-Permutation_middle. }
  apply NoDup_cons in Hnd' as [Hnd1 Hnd2].
  assert (∀ q, q ∈ (l1 ++ l2) ++ F ↔ q ∈ (l1 ++ page :: l2) ++ F ∧ q ≠ page) as Hset.
  { intros q. split; [intros Hq; split; [set_solver|by intros ->]|intros [Hq Hne]; set_solver]. }
  exists part', m2, (l1 ++ l2). split_and!; [done| |done].
  assert (∀ q, q ∈ l1 ++ l2 ∨ q ∈ F → q ≠ page) as Hne by (intros q Hq ->; by apply Hnd1, elem_of_app).
  split; cbn [ss_mem ss_pmm set_lists kc_partial kc_full]; auto.
  - by destruct Hwf; split.
  - apply (chain_links (ss_mem st)); [done|]. intros x Hx. rewrite Hnx2; [apply pushed_next|].
    intros Hx1. apply NoDup_app in Hnd2 as (_ & Hdj & _). apply (Hdj x); [apply elem_of_app; by left|done].
  - intros q Hq. apply (slab_ok_conf c); [done|done|]. apply Hall; [done|]. by apply Hset.
  - intros q Hq. rewrite upd_ne by auto. apply Hsome. set_solver.
  - intros q Hq. rewrite upd_ne by auto. auto.
  - apply pa_decref_inv; [done|apply Hs].
  - intros q Hq. apply Hset in Hq as [Hq Hqp].
    pose proof (so_page _ _ _ _ (Hsl q Hq)) as (Hqu & Hq4 & _).
    pose proof (so_page _ _ _ _ Hs) as (Hpu & Hp4 & _).
    rewrite pa_decref_count, decide_False
      by (done || (unfold same_page, PAGE_SIZE; Z.div_mod_to_equations; lia)).
    by apply Href.
Qed.

(** Otherwise the lists stay. *)
Lemma freed_keep :
  fl page ≠ [] → cache_repr {| ss_pmm := ss_pmm st; ss_mem := m1 |} c P F fl'.
Proof.
  intros Efl. pose proof (pushed_all st c P F fl page o Hr Hin Ho Hn) as Hall.
  pose proof (cr_partial _ _ _ _ _ Hr) as Hp. pose proof (cr_full _ _ _ _ _ Hr) as Hf.
  apply pushed_chain in Hp, Hf. destruct Hr as [Hwf _ _ Hnd Hsl Hsome Hnone Hpmm Href].
  split; cbn [ss_mem ss_pmm]; auto.
  - intros q Hq. apply Hall; [apply links_only_refl|done].
  - intros q Hq. unfold upd. case_decide; [done|auto].
  - intros q Hq. unfold upd. case_decide; subst; [|auto]. exfalso. by apply Efl, Hnone.
Qed.

Lemma free_repr :
  ∃ st' c' P' F',
    kmem_cache_free st c o = Some (st', c') ∧ cache_repr st' c' P' F' fl' ∧
    kc_obj_size c' = kc_obj_size c ∧ kc_objs_per_slab c' = kc_objs_per_slab c ∧
    let full := length (o :: fl page) = Z.to_nat (kc_objs_per_slab c) in
    ((fl page ≠ [] ∧ full ∧ ss_pmm st' = pa_decref (ss_pmm st) page ∧
      ∀ q, q ∈ P' ++ F' ↔ q ∈ P ++ F ∧ q ≠ page) ∨
     ((fl page = [] ∨ ¬ full) ∧ ss_pmm st' = ss_pmm st ∧ ∀ q, q ∈ P' ++ F' ↔ q ∈ P ++ F)).
Proof.
  pose proof (cr_slab _ _ _ _ _ Hr page Hin) as Hs. pose proof (cr_wf _ _ _ _ _ Hr) as Hwf.
  pose proof (free_list_short _ c page _ o Hwf Hs Ho Hn) as Hlen.
  destruct (slot_page c page o Hwf (so_page _ _ _ _ Hs) Ho) as (Hmask & _ & _ & _).
  unfold kmem_cache_free. rewrite Hmask. cbn zeta.
  change (set_free page (sh_n_free (hdr_at (word_put o (sh_free_head (hdr_at (ss_mem st) page))
            (ss_mem st)) page) +u 1) o (word_put o (sh_free_head (hdr_at (ss_mem st) page)) (ss_mem st)))
    with m1.
  rewrite (so_n _ _ _ _ (pushed_slab _ c page _ o Hwf Hs Ho Hn)), (so_n _ _ _ _ Hs). cbn [length].
  destruct (Z.eqb_spec (Z.of_nat (length (fl page))) 0) as [E|E].
  - assert (fl page = []) as Efl by (apply nil_length_inv; lia).
    destruct (freed_full Efl) as (full & m2 & F' & -> & Hr' & Hset).
    eexists _, _, _, _. split; [done|]. split_and!; [exact Hr'|done|done|]. right. auto.
  - assert (fl page ≠ []) as Efl by (intros En; by rewrite En in E).
    destruct (Z.eqb_spec (Z.of_nat (Datatypes.S (length (fl page)))) (kc_objs_per_slab c)) as [Ef|Ef].
    + destruct (freed_empty Efl) as (part & m2 & P' & -> & Hr' & Hset).
      eexists _, _, _, _. split; [done|]. split_and!; [exact Hr'|done|done|].
      left. split_and!; [done|lia|done|done].
    + eexists _, _, _, _. split; [done|]. split_and!; [by apply freed_keep|done|done|].
      right. split_and!; [right; lia|done|done].
Qed.
End freed.

(** An object popped off a slab is aligned and apart from the live ones. *)
Lemma pop_fresh st c page P F fl L o st' c' :
  cache_repr st c (page :: P) F fl → (∀ x, x ∈ L ↔ live c (page :: P) F fl x) →
  slab_pop page st c = (o, st', c') →
  o ≠ 0 ∧ o mod 4 = 0 ∧ o ∉ L ∧
  (∀ x, x ∈ L → x + kc_obj_size c <= o ∨ o + kc_obj_size c <= x) ∧
  cache_holds st' c' ({[o]} ∪ L).
Proof.
  intros Hr HL Hp. destruct (pop_holds _ _ _ _ _ _ _ _ _ _ Hr HL Hp) as (Ho & HoL & Hso & Hh & _ & _).
  pose proof (cr_wf _ _ _ _ _ Hr) as Hwf. pose proof (cr_slab _ _ _ _ _ Hr page ltac:(left)) as Hs.
  split_and!; auto.
  - destruct Hso as (i & Hi & ->), (so_page _ _ _ _ Hs) as (_ & H4 & _), Hwf as [_ Hal _ _].
    unfold slot. rewrite <-Z.add_assoc, <-Zplus_mod_idemp_l.
    replace (page mod 4) with 0 by (Z.div_mod_to_equations; lia).
    rewrite Z.add_0_l, <-Zplus_mod_idemp_r, <-Zmult_mod_idemp_r, Hal, Z.mul_0_r. done.
  - intros x Hx. pose proof Hx as (q & Hq & Hsq & _)%HL. assert (x ≠ o) by congruence.
    apply (slot_disjoint c q page); auto; [apply (cr_slab _ _ _ _ _ Hr q Hq)|apply Hs].
Qed.

(** A cache without slabs. *)
Lemma empty_repr pmm m c :
  cache_wf c → kc_partial c = 0 → kc_full c = 0 → pa_inv pmm →
  cache_repr {| ss_pmm := pmm; ss_mem := m |} c [] [] (λ _, []).
Proof. intros Hwf Hp Hf Hi. split; try done; try set_solver. apply NoDup_nil_2. Qed.

Lemma empty_holds pmm m c :
  cache_wf c → kc_partial c = 0 → kc_full c = 0 → pa_inv pmm →
  cache_holds {| ss_pmm := pmm; ss_mem := m |} c ∅.
Proof.
  intros. exists [], [], (λ _, []). split; [by apply empty_repr|].
  intros o. split; [set_solver|]. intros (q & Hq & _). set_solver.
Qed.

Lemma alloc_holds st c L o st' c' :
  cache_holds st c L → kmem_cache_alloc st c = (o, st', c') →
  if decide (o = 0)
  then kc_partial c = 0 ∧ (pa_alloc (ss_pmm st)).1 = 0 ∧ st' = st ∧ c' = c
  else o mod 4 = 0 ∧ o ∉ L ∧
       (∀ x, x ∈ L → x + kc_obj_size c <= o ∨ o + kc_obj_size c <= x) ∧
       cache_holds st' c' ({[o]} ∪ L).
Proof.
  intros (P & F & fl & Hr & HL) Ha. pose proof (cr_wf _ _ _ _ _ Hr) as Hwf.
  unfold kmem_cache_alloc in Ha. pose proof (chain_zero _ _ _ (cr_partial _ _ _ _ _ Hr)) as Hz.
  destruct (Z.eqb_spec (kc_partial c) 0) as [E|E].
  - assert (P = []) as -> by by apply Hz.
    destruct (slab_grow st c) as [[page st1] c1] eqn:Eg.
    destruct (slab_grow_spec _ _ _ _ _ _ _ Hr Eg) as [(-> & Hf & -> & ->)|(Hp0 & HpF & Hpo & Hr1 & Hsz & Hob)].
    { cbn in Ha. simplify_eq. by rewrite decide_True. }
    rewrite (proj2 (Z.eqb_neq page 0)) in Ha by done.
    rewrite <-Hsz. destruct (pop_fresh st1 c1 page [] F _ L o st' c' Hr1) as (Ho & ?);
      [|done|by rewrite decide_False]. intros x. rewrite HL. unfold live. setoid_rewrite (cache_wf_same c c1 Hsz Hob). split.
    + intros (q & Hq & Hs & Hx). exists q. split_and!; [by right|done|].
      rewrite upd_ne by (intros ->; done). done.
    + intros (q & [->|Hq]%elem_of_cons & Hs & Hx).
      * exfalso. apply Hx. rewrite upd_eq. by apply elem_of_all_slots.
      * exists q. split_and!; auto. rewrite upd_ne in Hx by (intros ->; done). done.
  - destruct P as [|page P]; [by destruct E; apply Hz|].
    pose proof (cr_partial _ _ _ _ _ Hr) as (Hpg & _ & _). rewrite Hpg in Ha.
    destruct (pop_fresh st c page P F fl L o st' c' Hr HL Ha) as (Ho & ?). by rewrite decide_False.
Qed.

(** ** Properties *)

(** C31: [kmem_cache_alloc] hands out fresh memory.  It fails only when there is
    no free object and the page allocator has no page, and then changes
    nothing; otherwise the object is 4-byte aligned, was not live, overlaps no
    live object, and is the only change to the set of live objects. *)
Theorem kmem_cache_alloc_correct st c L o st' c' :
  cache_holds st c L → kmem_cache_alloc st c = (o, st', c') →
  if decide (o = 0)
  then kc_partial c = 0 ∧ (pa_alloc (ss_pmm st)).1 = 0 ∧ st' = st ∧ c' = c
  else o mod 4 = 0 ∧ o ∉ L ∧
       (∀ x, x ∈ L → x + kc_obj_size c <= o ∨ o + kc_obj_size c <= x) ∧
       cache_holds st' c' ({[o]} ∪ L).
Proof. apply alloc_holds. Qed.

(** [o] is the last live object of its page when all the other slots are free. *)
Lemma last_in_page st c P F fl (L : gset Z) page o :
  cache_repr st c P F fl → (∀ x, x ∈ L ↔ live c P F fl x) → page ∈ P ++ F → is_slot c page o →
  (∀ x, x ∈ L → same_page x o → x = o) ↔ (∀ y, is_slot c page y → y ∈ o :: fl page).
Proof.
  intros Hr HL Hin Ho. pose proof (cr_wf _ _ _ _ _ Hr) as Hwf.
  pose proof (so_page _ _ _ _ (cr_slab _ _ _ _ _ Hr page Hin)) as Hpo.
  destruct (slot_page c page o Hwf Hpo Ho) as (_ & Hdiv & _ & _). split.
  - intros Hl y Hy. destruct (decide (y ∈ fl page)) as [|Hny]; [by right|]. apply elem_of_cons. left. apply Hl.
    + apply HL. by exists page.
    + destruct (slot_page c page y Hwf Hpo Hy) as (_ & Hy4 & _). unfold same_page, PAGE_SIZE. by rewrite Hy4.
  - intros Hall x (q & Hq & Hsq & Hx)%HL Hsame.
    pose proof (so_page _ _ _ _ (cr_slab _ _ _ _ _ Hr q Hq)) as Hqo.
    destruct (slot_page c q x Hwf Hqo Hsq) as (_ & Hx4 & _).
    assert (q = page) as ->.
    { destruct Hqo as (_ & Hq4 & _), Hpo as (_ & Hp4 & _).
      unfold same_page, PAGE_SIZE in Hsame. Z.div_mod_to_equations. lia. }
    apply Hall, elem_of_cons in Hsq as [?|?]; done.
Qed.

(** [kmem_cache_free] of a live object ends (its walk of the slab list finds
    the slab), removes exactly that object from the live set, and returns the
    page to the page allocator exactly when no live object is left in the page
    and a page of this cache holds more than one object. *)
Theorem kmem_cache_free_correct st c L o :
  cache_holds st c L → o ∈ L →
  ∃ st' c', kmem_cache_free st c o = Some (st', c') ∧ cache_holds st' c' (L ∖ {[o]}) ∧
    let page := o - o mod PAGE_SIZE in
    let last := ∀ x, x ∈ L → same_page x o → x = o in
    (last → 1 < kc_objs_per_slab c →
       ss_pmm st' = pa_decref (ss_pmm st) page ∧ pa_refcount (ss_pmm st') page = 0) ∧
    (¬ last ∨ kc_objs_per_slab c = 1 → ss_pmm st' = ss_pmm st).
Proof.
  intros (P & F & fl & Hr & HL) HoL. pose proof (cr_wf _ _ _ _ _ Hr) as Hwf.
  pose proof HoL as (page & Hin & Ho & Hn)%HL.
  pose proof (cr_slab _ _ _ _ _ Hr page Hin) as Hs. pose proof (so_page _ _ _ _ Hs) as Hpo.
  destruct (slot_page c page o Hwf Hpo Ho) as (Hmask & Hdiv & Hou & _).
  assert (o - o mod PAGE_SIZE = page) as Hpage.
  { destruct Hpo as (_ & Hp4 & _). unfold PAGE_SIZE. Z.div_mod_to_equations. lia. }
  destruct (free_repr st c P F fl page o Hr Hin Ho Hn) as (st' & c' & P' & F' & Hfree & Hr' & Hsz & Hob & Hcase).
  exists st', c'. split; [done|]. cbn zeta in *. rewrite Hpage.
  assert (∀ q, q ∈ P ++ F → is_slot c q o → q = page) as Huniq.
  { intros q Hq Hso. exact (slot_page_inj c q page o Hwf (so_page _ _ _ _ (cr_slab _ _ _ _ _ Hr q Hq)) Hpo Hso Ho). }
  assert (length (o :: fl page) = Z.to_nat (kc_objs_per_slab c) ↔ ∀ y, is_slot c page y → y ∈ o :: fl page) as Hfull.
  { rewrite <-(slots_complete c page (o :: fl page) Hwf).
    - destruct Hwf. cbn [length]. lia.
    - apply NoDup_cons. split; [done|apply Hs].
    - intros x [->|Hx]%elem_of_cons; [done|]. by apply Hs. }
  pose proof (last_in_page st c P F fl L page o Hr HL Hin Ho) as Hlast.
  split; [|split].
  - exists P', F', (upd fl page (o :: fl page)). split; [done|]. intros x.
    rewrite (free_live c c' P F P' F' fl page o x); auto.
    + rewrite elem_of_difference, elem_of_singleton, HL. tauto.
    + destruct Hcase as [(_ & _ & _ & Hset)|(_ & _ & Hset)]; intros q Hq; [by apply Hset|by apply Hset].
    + intros q Hq. destruct Hcase as [(_ & Hf & _ & Hset)|(_ & _ & Hset)].
      * destruct (decide (q = page)) as [->|]; [right; split; [done|by apply Hfull]|left; by apply Hset].
      * left. by apply Hset.
  - intros Hl Hmany. rewrite Hlast, <-Hfull in Hl.
    destruct Hcase as [(_ & _ & Hpmm & _)|([En|Hnf] & _)]; [|rewrite En in Hl; cbn in Hl; lia|done].
    split; [done|]. rewrite Hpmm, pa_decref_count, decide_True; [|done|apply Hr|apply Hpo|apply Hpo].
    by rewrite (cr_ref _ _ _ _ _ Hr page Hin).
  - rewrite Hlast, <-Hfull. destruct Hcase as [(Hne & Hf & _)|(_ & Hpmm & _)]; [|done].
    intros [?|Hone]; [done|]. exfalso. apply Hne, nil_length_inv. rewrite Hone in Hf. cbn in Hf. lia.
Qed.

(** ** Creation and destruction *)

Lemma free_list_spec n m a l (pmm : S) :
  chain (nx m) a l → (length l < n)%nat → free_list n m a pmm = Some (foldl pa_decref pmm l).
Proof.
  revert a pmm n. induction l as [|x l IH]; intros a pmm [|n] Hc Hn; cbn [length] in Hn; try lia.
  - cbn in Hc. by rewrite Hc.
  - cbn in Hc. destruct Hc as (-> & Hx & Hc). cbn [free_list foldl].
    rewrite (proj2 (Z.eqb_neq x 0)) by done. apply IH; [done|lia].
Qed.

Lemma foldl_decref (l : list Z) (pmm : S) q :
  pa_inv pmm → Forall page_ok l → NoDup l → page_ok q →
  pa_refcount (foldl pa_decref pmm l) q =
  if decide (q ∈ l) then dec_count (pa_refcount pmm q) else pa_refcount pmm q.
Proof.
  revert pmm. induction l as [|x l IH]; intros pmm Hi Hl Hnd Hq; [by rewrite decide_False by set_solver|].
  apply Forall_cons in Hl as [Hx Hl]. apply NoDup_cons in Hnd as [Hxl Hnd]. cbn [foldl].
  rewrite IH; [|apply pa_decref_inv; [done|apply Hx]|done|done|done].
  rewrite pa_decref_count; [|done|apply Hx|apply Hq].
  assert (same_page x q ↔ x = q) as Hsame.
  { destruct Hx as (_ & ? & _), Hq as (_ & ? & _). unfold same_page, PAGE_SIZE.
    split; [intros; Z.div_mod_to_equations; lia|by intros ->]. }
  destruct (decide (q ∈ l)) as [Hql|Hql].
  - rewrite (decide_False (P := same_page x q)) by (rewrite Hsame; intros ->; done).
    by rewrite decide_True by set_solver.
  - destruct (decide (same_page x q)) as [E|E].
    + apply Hsame in E as ->. by rewrite decide_True by left.
    + rewrite decide_False; [done|]. intros [->|?]%elem_of_cons; [by apply E, Hsame|done].
Qed.

Lemma repr_pages_ok st c P F fl : cache_repr st c P F fl → Forall page_ok (P ++ F).
Proof. intros Hr. apply Forall_forall. intros q Hq. apply (cr_slab _ _ _ _ _ Hr q Hq). Qed.

(** [kmem_cache_destroy] returns every page of the cache, once: each page
    that held a live or free object is free afterwards and the count of every
    other page is untouched; the descriptor goes back to the heap. *)
Theorem kmem_cache_destroy_correct {Heap} `{KAllocator Heap} st (h : Heap) c self P F fl :
  cache_repr st c P F fl →
  ∃ pmm', kmem_cache_destroy st h c self = Some (pmm', ka_free h self) ∧
    ∀ q, page_ok q → pa_refcount pmm' q = if decide (q ∈ P ++ F) then 0 else pa_refcount (ss_pmm st) q.
Proof.
  intros Hr. pose proof (repr_pages_ok _ _ _ _ _ Hr) as Hok.
  pose proof Hr as [_ Hp Hf Hnd Hsl _ _ Hi Href]. unfold kmem_cache_destroy.
  assert (∀ l, (∀ q, q ∈ l → q ∈ P ++ F) → NoDup l → (length l < Datatypes.S (size (sm_hdr (ss_mem st))))%nat) as Hlen.
  { intros l Hl Hndl. pose proof (chain_length (ss_mem st) l Hndl) as Hle. 
    lapply Hle; [lia|]. intros a Ha. by apply (Hsl a (Hl a Ha)). }
  apply NoDup_app in Hnd as Hnd'. destruct Hnd' as (HndP & _ & HndF).
  rewrite (free_list_spec _ _ _ P); [|done|apply Hlen; [set_solver|done]].
  rewrite (free_list_spec _ _ _ F); [|done|apply Hlen; [set_solver|done]].
  rewrite <-foldl_app. eexists. split; [done|]. intros q Hq. rewrite foldl_decref by done.
  case_decide; [|done]. by rewrite Href.
Qed.
End cache.

Lemma land_not3 x : is_u32 x → Z.land x (not32 3) = x - x mod 4.
Proof. intros Hx. exact (land_not32_mask 2 x ltac:(lia) Hx). Qed.

(** [kmem_cache_create] gives a cache whose objects fit: for every size up
    to 4084 bytes the objects are at least as large as asked for, a multiple of
    4 bytes, as many per page as fit behind the header, and the cache starts
    empty; larger sizes are refused with NULL and the heap is not touched. *)
Theorem kmem_cache_create_correct {S Heap} `{PageAllocatorLaws S pa_inv pa_managed} `{KAllocator Heap}
    (h : Heap) (pmm : S) m name size :
  0 <= size <= 2 ^ 32 - 4 → pa_inv pmm →
  ∃ p c h', kmem_cache_create h name size = Some (p, c, h') ∧
    if decide (size <= 4084)
    then (p, h') = ka_malloc h SIZEOF_KMEM_CACHE ∧ size <= kc_obj_size c < Z.max size 1 + 4 ∧
         kc_obj_size c mod 4 = 0 ∧
         4084 - kc_obj_size c < kc_objs_per_slab c * kc_obj_size c <= 4084 ∧
         cache_holds (pa_inv := pa_inv) {| ss_pmm := pmm; ss_mem := m |} c ∅
    else p = 0 ∧ h' = h.
Proof.
  intros Hs Hi. unfold kmem_cache_create, SIZEOF_PTR.
  set (s1 := if size <? 4 then 4 else size).
  assert (4 <= s1 <= 2 ^ 32 - 4 ∧ size <= s1 ∧ s1 <= Z.max size 4) as Hs1 by (unfold s1; bcase; lia).
  rewrite !land_not3 by auto with cint. rewrite !u32_small by zsolve. set (sz := s1 + 3 - (s1 + 3) mod 4).
  assert (s1 <= sz < s1 + 4 ∧ sz mod 4 = 0) as [Hsz Hal] by (unfold sz; Z.div_mod_to_equations; lia).
  rewrite (proj2 (Z.eqb_neq sz 0)) by lia. change (PAGE_SIZE - SLAB_HDR_SZ) with 4084.
  destruct (Z.eqb_spec (4084 / sz) 0) as [E|E].
  - eexists _, _, _. split; [reflexivity|]. rewrite decide_False; [done|]. Z.div_mod_to_equations. lia.
  - destruct (ka_malloc h SIZEOF_KMEM_CACHE) as [p h'] eqn:Ek.
    eexists _, _, _. split; [reflexivity|].
    assert (sz <= 4084) by (Z.div_mod_to_equations; nia).
    rewrite decide_True by lia. cbn [kc_obj_size kc_objs_per_slab].
    assert (4084 - sz < 4084 / sz * sz <= 4084) by (Z.div_mod_to_equations; nia).
    clearbody sz. split_and!; try done; try lia; [Z.div_mod_to_equations; lia|].
    apply empty_holds; try done. split; cbn [kc_obj_size kc_objs_per_slab]; try lia.
    Z.div_mod_to_equations. nia.
Qed.

(** Sizes just below 2^32 wrap to 0 in the rounding and divide by zero. *)
Theorem kmem_cache_create_traps {Heap} `{KAllocator Heap} (h : Heap) name size :
  2 ^ 32 - 3 <= size < 2 ^ 32 → kmem_cache_create h name size = None.
Proof.
  intros Hs. unfold kmem_cache_create, SIZEOF_PTR.
  rewrite (proj2 (Z.ltb_ge size 4)) by lia.
  rewrite !land_not3 by auto with cint.
  assert (size +u 3 - (size +u 3) mod 4 = 0) as ->; [|done]. zsolve.
Qed.

(** ** Witnesses: a cache of 100-byte objects over a small machine *)

Definition demo_cache : kmem_cache :=
  {| kc_name := 0; kc_obj_size := 100; kc_objs_per_slab := 40; kc_partial := 0; kc_full := 0 |}.
Definition demo_slab : slab_state pmm_core_state :=
  {| ss_pmm := demo_pmm; ss_mem := {| sm_hdr := ∅; sm_word := ∅ |} |}.

Lemma demo_cache_wf : cache_wf demo_cache.
Proof. split; cbn [demo_cache kc_obj_size kc_objs_per_slab]; [lia|reflexivity|lia|lia]. Qed.

Lemma demo_cache_holds : cache_holds (pa_inv := pmm_inv) demo_slab demo_cache ∅.
Proof. apply empty_holds; [exact demo_cache_wf|reflexivity|reflexivity|exact demo_pmm_inv]. Qed.

Definition demo_slab1 : slab_state pmm_core_state := (kmem_cache_alloc demo_slab demo_cache).1.2.
Definition demo_cache1 : kmem_cache := (kmem_cache_alloc demo_slab demo_cache).2.

Lemma demo_alloc : kmem_cache_alloc demo_slab demo_cache = (4108, demo_slab1, demo_cache1).
Proof. vm_compute. reflexivity. Qed.

Lemma kmem_cache_alloc_correct_witness :
  4108 mod 4 = 0 ∧ 4108 ∉ (∅ : gset Z) ∧
  (∀ x, x ∈ (∅ : gset Z) → x + 100 <= 4108 ∨ 4108 + 100 <= x) ∧
  cache_holds (pa_inv := pmm_inv) demo_slab1 demo_cache1 ({[4108]} ∪ ∅).
Proof.
  exact (kmem_cache_alloc_correct demo_slab demo_cache ∅ 4108 demo_slab1 demo_cache1
           demo_cache_holds demo_alloc).
Defined.

Lemma demo_cache1_holds : cache_holds (pa_inv := pmm_inv) demo_slab1 demo_cache1 ({[4108]} ∪ ∅).
Proof. apply (alloc_holds demo_slab demo_cache ∅ 4108 _ _ demo_cache_holds demo_alloc). Qed.

Lemma kmem_cache_free_correct_witness :
  ∃ st' c', kmem_cache_free demo_slab1 demo_cache1 4108 = Some (st', c') ∧
    cache_holds (pa_inv := pmm_inv) st' c' (({[4108]} ∪ ∅) ∖ {[4108]}) ∧
    let page := 4108 - 4108 mod PAGE_SIZE in
    let last := ∀ x, x ∈ ({[4108]} ∪ ∅ : gset Z) → same_page x 4108 → x = 4108 in
    (last → 1 < kc_objs_per_slab demo_cache1 →
       ss_pmm st' = pa_decref (ss_pmm demo_slab1) page ∧ pa_refcount (ss_pmm st') page = 0) ∧
    (¬ last ∨ kc_objs_per_slab demo_cache1 = 1 → ss_pmm st' = ss_pmm demo_slab1).
Proof.
  apply (kmem_cache_free_correct demo_slab1 demo_cache1 ({[4108]} ∪ ∅) 4108).
  - exact demo_cache1_holds.
  - set_solver.
Defined.

Definition demo_grown := slab_grow demo_slab demo_cache.

Lemma demo_grown_repr :
  cache_repr (pa_inv := pmm_inv) demo_grown.1.2 demo_grown.2 [4096] [] (upd (λ _, []) 4096 (all_slots demo_cache 4096)).
Proof.
  destruct (slab_grow_spec demo_slab demo_cache [] (λ _, []) 4096 demo_grown.1.2 demo_grown.2)
    as [[Hp _]|(_ & _ & _ & Hr & _)]; [| |done|exact Hr].
  - apply empty_repr; [exact demo_cache_wf|reflexivity|reflexivity|exact demo_pmm_inv].
  - vm_compute. reflexivity.
Qed.

Lemma kmem_cache_destroy_correct_witness :
  ∃ pmm', kmem_cache_destroy demo_grown.1.2 demo_heap demo_grown.2 64 =
            Some (pmm', ka_free demo_heap 64) ∧
    ∀ q, page_ok q → pa_refcount pmm' q =
      if decide (q ∈ [4096] ++ []) then 0 else pa_refcount (ss_pmm demo_grown.1.2) q.
Proof.
  apply (kmem_cache_destroy_correct demo_grown.1.2 demo_heap demo_grown.2 64 [4096] []
           (upd (λ _, []) 4096 (all_slots demo_cache 4096))).
  exact demo_grown_repr.
Defined.

Lemma kmem_cache_create_correct_witness :
  ∃ p c h', kmem_cache_create demo_heap 7 50 = Some (p, c, h') ∧
    (p, h') = ka_malloc demo_heap SIZEOF_KMEM_CACHE ∧ 50 <= kc_obj_size c < Z.max 50 1 + 4 ∧
    kc_obj_size c mod 4 = 0 ∧
    4084 - kc_obj_size c < kc_objs_per_slab c * kc_obj_size c <= 4084 ∧
    cache_holds (pa_inv := pmm_inv) {| ss_pmm := demo_pmm; ss_mem := ss_mem demo_slab |} c ∅.
Proof.
  exact (kmem_cache_create_correct demo_heap demo_pmm (ss_mem demo_slab) 7 50 ltac:(lia) demo_pmm_inv).
Defined.
