(* ===== verification/Commit.v ===== *)
(** * Memory commitment accounting ([kernel/mm/commit.c])

    The number of pages an address space has promised to provide, bounded by
    what the page allocator has free.  [None] stands for a process without an
    address space. *)

From S2P Require Import Prelude Interfaces PmmCore.

Definition vm_commit_pages_for_bytes (bytes : Z) : option Z :=
  if bytes =? 0 then Some 0
  else if UINT32_MAX - (PAGE_SIZE - 1) <? bytes then None
  else Some (((bytes +u PAGE_SIZE) -u 1) / PAGE_SIZE).

Section commit.
Context {S : Type} `{PageAllocator S}.

(** [committed]: [proc->as->committed_pages].  The result is 0 or -1. *)
Definition vm_commit_reserve (pmm : S) (committed : option Z) (bytes : Z) : Z * option Z :=
  match committed with
  | None => (-1, None)
  | Some n =>
      match vm_commit_pages_for_bytes bytes with
      | None => (-1, Some n)
      | Some pages =>
          if pages =? 0 then (0, Some n)
          else
            let free_pages := pa_free_count pmm in
            if UINT32_MAX - pages <? n then (-1, Some n)
            else if free_pages <? n +u pages then (-1, Some n)
            else (0, Some (n +u pages))
      end
  end.

Definition vm_commit_release (committed : option Z) (bytes : Z) : option Z :=
  match committed with
  | None => None
  | Some n =>
      match vm_commit_pages_for_bytes bytes with
      | None => Some n
      | Some pages => if n <? pages then Some 0 else Some (n -u pages)
      end
  end.

(** The least number of pages that holds [bytes]. *)
Lemma pages_for_bytes_spec bytes pages :
  is_u32 bytes → vm_commit_pages_for_bytes bytes = Some pages →
  bytes <= pages * 4096 < bytes + 4096 ∧ 0 <= pages <= 2 ^ 20.
Proof.
  intros Hb. unfold vm_commit_pages_for_bytes, UINT32_MAX, PAGE_SIZE.
  destruct (Z.eqb_spec bytes 0) as [->|]; [intros [= <-]; lia|].
  destruct (Z.ltb_spec (0xFFFFFFFF - (4096 - 1)) bytes); [done|]. intros [= <-].
  destruct (decide (bytes + 4096 < 2 ^ 32)).
  - rewrite (u32_small (bytes + 4096)), u32_small by zsolve.
    change (2 ^ 20) with 1048576. zsolve.
  - assert (bytes = 2 ^ 32 - 4096) as -> by zsolve. vm_compute. repeat split; discriminate.
Qed.

(** A successful reservation never promises more pages than are free, covers
    the bytes with the least number of pages, and a release of the same bytes
    undoes it exactly; a refused one changes nothing. *)
Theorem vm_commit_roundtrip pmm n bytes :
  is_u32 n → is_u32 bytes →
  match vm_commit_reserve pmm (Some n) bytes with
  | (0, Some n') =>
      (bytes = 0 ∨ n' <= pa_free_count pmm) ∧ bytes <= (n' - n) * 4096 < bytes + 4096 ∧
      vm_commit_release (Some n') bytes = Some n
  | (r, c) => r = -1 ∧ c = Some n
  end.
Proof.
  intros Hn Hb. unfold vm_commit_reserve, vm_commit_release.
  destruct (vm_commit_pages_for_bytes bytes) as [pages|] eqn:Ep; [|done].
  destruct (pages_for_bytes_spec bytes pages Hb Ep) as [Hcover Hrange].
  destruct (Z.eqb_spec pages 0) as [->|Hne].
  { split; [left; zsolve|]. split; [lia|]. rewrite (proj2 (Z.ltb_ge n 0)) by zsolve.
    by rewrite Z.sub_0_r, u32_small. }
  destruct (Z.ltb_spec (UINT32_MAX - pages) n); [done|].
  rewrite (u32_small (n + pages)) by zsolve.
  destruct (Z.ltb_spec (pa_free_count pmm) (n + pages)); [done|].
  split; [by right|]. split; [lia|]. rewrite (proj2 (Z.ltb_ge (n + pages) pages)) by zsolve.
  rewrite u32_small by zsolve. f_equal. lia.
Qed.
End commit.

Lemma vm_commit_roundtrip_witness :
  let n' := 8 in
  vm_commit_reserve demo_pmm (Some 5) 9000 = (0, Some n') ∧ (9000 = 0 ∨ n' <= pa_free_count demo_pmm) ∧
  9000 <= (n' - 5) * 4096 < 9000 + 4096 ∧ vm_commit_release (Some n') 9000 = Some 5.
Proof.
  split; [vm_compute; reflexivity|].
  exact (vm_commit_roundtrip demo_pmm 5 9000 ltac:(unfold is_u32; lia) ltac:(unfold is_u32; lia)).
Defined.
