(* ===== verification/Blkdev.v ===== *)
(** * Block devices and partitions ([kernel/drivers/blkdev.c], [blkdev_part.c])

    The registry of disks and partitions, the MBR scan that fills it, and the
    partition operations that go through to the parent disk.  The drivers'
    operation tables are the [BlockDevice] interface, indexed by the address of
    the table.  A device name is the text before its NUL. *)

From S2P Require Import Prelude Interfaces Kprintf.

Definition BLKDEV_NAME_MAX : Z := 12.
Definition BLKDEV_MAX : Z := 16.
Definition BLKDEV_NO_PARENT : Z := 0xFFFFFFFF.
Definition BLKDEV_KIND_DISK : Z := 1.
Definition BLKDEV_KIND_PART : Z := 2.

Record blkdev_info := {
  bi_name : list Z;
  bi_kind : Z;
  bi_sector_size : Z;
  bi_sectors : Z;
  bi_readonly : Z;
  bi_major : Z;
  bi_minor : Z;
  bi_parent_index : Z;
  bi_start_sector : Z;
  bi_partition_number : Z;
}.

(** [const blkdev_ops_t *]: NULL, a driver's table, or [part<n>_ops]. *)
Inductive blkdev_ops := OpsNull | OpsDriver (dev : Z) | OpsPart (n : Z).

#[global] Instance blkdev_ops_eq : EqDecision blkdev_ops.
Proof. solve_decision. Defined.

Record blkdev_entry := {
  be_info : blkdev_info;
  be_ops : blkdev_ops;
}.

#[global] Instance blkdev_entry_inhabited : Inhabited blkdev_entry :=
  populate {| be_info := {| bi_name := []; bi_kind := 0; bi_sector_size := 0; bi_sectors := 0;
                            bi_readonly := 0; bi_major := 0; bi_minor := 0; bi_parent_index := 0;
                            bi_start_sector := 0; bi_partition_number := 0 |};
              be_ops := OpsNull |}.

Definition name_at (tbl : list blkdev_entry) (i : Z) : list Z := bi_name (be_info tbl.[i]).
Definition slot_used (tbl : list blkdev_entry) (i : Z) : bool := negb (bool_decide (name_at tbl i = [])).

Definition blkdev_name_equals (a b : list Z) : bool := bool_decide (a = b).

Definition blkdev_name_is_valid (name : list Z) : bool :=
  let len := Z.min (Z.of_nat (length name)) BLKDEV_NAME_MAX in
  negb (len =? 0) && (len <? BLKDEV_NAME_MAX).

Definition blkdev_reset : list blkdev_entry := replicate (Z.to_nat BLKDEV_MAX) inhabitant.

Definition blkdev_alloc_slot (tbl : list blkdev_entry) : Z :=
  match for_exit 0 (Z.to_nat BLKDEV_MAX)
          (λ i _, if negb (slot_used tbl i) then inl i else inr tt) tt with
  | inl i => i
  | inr _ => -1
  end.

Definition blkdev_find_index (tbl : list blkdev_entry) (name : list Z) : Z :=
  match for_exit 0 (Z.to_nat BLKDEV_MAX)
          (λ i _, if slot_used tbl i && blkdev_name_equals (name_at tbl i) name
                  then inl i else inr tt) tt with
  | inl i => i
  | inr _ => -1
  end.

Definition blkdev_register_disk (tbl : list blkdev_entry) (name : list Z)
    (major minor sectors : Z) (ops : blkdev_ops) : Z * list blkdev_entry :=
  if negb (blkdev_name_is_valid name) || bool_decide (ops = OpsNull) || (sectors =? 0) ||
     (0 <=? blkdev_find_index tbl name) then (-1, tbl)
  else
    let idx := blkdev_alloc_slot tbl in
    if idx <? 0 then (-1, tbl)
    else (0, tbl.[idx <- {| be_info := {| bi_name := name; bi_kind := BLKDEV_KIND_DISK;
                                          bi_sector_size := BLKDEV_SECTOR_SIZE; bi_sectors := sectors;
                                          bi_readonly := 0; bi_major := major; bi_minor := minor;
                                          bi_parent_index := BLKDEV_NO_PARENT; bi_start_sector := 0;
                                          bi_partition_number := 0 |};
                           be_ops := ops |}]).

Definition blkdev_part_ops_for_index (index : Z) : blkdev_ops :=
  if BLKDEV_MAX <=? index then OpsNull else OpsPart index.

Definition blkdev_register_part (tbl : list blkdev_entry) (name : list Z)
    (parent_index partition_number start_sector sectors : Z) : Z * list blkdev_entry :=
  if negb (blkdev_name_is_valid name) || (sectors =? 0) || (BLKDEV_MAX <=? parent_index) ||
     (0 <=? blkdev_find_index tbl name) then (-1, tbl)
  else
    let parent := be_info tbl.[parent_index] in
    if negb (slot_used tbl parent_index) || negb (bi_kind parent =? BLKDEV_KIND_DISK) then (-1, tbl)
    else if (bi_sectors parent <=? start_sector) || (bi_sectors parent -u start_sector <? sectors)
    then (-1, tbl)
    else
      let idx := blkdev_alloc_slot tbl in
      if idx <? 0 then (-1, tbl)
      else
        let ops := blkdev_part_ops_for_index idx in
        (if bool_decide (ops = OpsNull) then -1 else 0,
         tbl.[idx <- {| be_info := {| bi_name := name; bi_kind := BLKDEV_KIND_PART;
                                      bi_sector_size := BLKDEV_SECTOR_SIZE; bi_sectors := sectors;
                                      bi_readonly := bi_readonly parent; bi_major := bi_major parent;
                                      bi_minor := bi_minor parent +u partition_number;
                                      bi_parent_index := parent_index;
                                      bi_start_sector := start_sector;
                                      bi_partition_number := partition_number |};
                       be_ops := ops |}]).

Definition blkdev_register (tbl : list blkdev_entry) (name : list Z) (ops : blkdev_ops) :
    Z * list blkdev_entry :=
  let '(r, tbl') := blkdev_register_disk tbl name 0 0 0xFFFFFFFF ops in
  (if 0 <=? r then 0 else -1, tbl').

Definition blkdev_ops_at (tbl : list blkdev_entry) (index : Z) : blkdev_ops :=
  if (BLKDEV_MAX <=? index) || negb (slot_used tbl index) then OpsNull else be_ops tbl.[index].

Definition blkdev_get (tbl : list blkdev_entry) (name : list Z) : blkdev_ops :=
  let idx := blkdev_find_index tbl name in
  if 0 <=? idx then be_ops tbl.[idx] else OpsNull.

Definition blkdev_count (tbl : list blkdev_entry) : Z :=
  for_loop 0 (Z.to_nat BLKDEV_MAX) (λ i count, if slot_used tbl i then count +u 1 else count) 0.

Definition blkdev_info_for_index (tbl : list blkdev_entry) (index : Z) : option blkdev_info :=
  if (BLKDEV_MAX <=? index) || negb (slot_used tbl index) then None else Some (be_info tbl.[index]).

Definition blkdev_info_at (tbl : list blkdev_entry) (index : Z) : option blkdev_info :=
  match for_exit 0 (Z.to_nat BLKDEV_MAX)
          (λ i seen, if negb (slot_used tbl i) then inr seen
                     else if seen =? index then inl (be_info tbl.[i]) else inr (seen +u 1)) 0 with
  | inl info => Some info
  | inr _ => None
  end.

(** ** Partitions *)

Definition le32 (p : list Z) (off : Z) : Z :=
  Z.lor (Z.lor (Z.lor p.[off] (Z.shiftl p.[off + 1] 8)) (Z.shiftl p.[off + 2] 16))
    (Z.shiftl p.[off + 3] 24).

Definition part_translate (tbl : list blkdev_entry) (part_index lba : Z) :
    option (blkdev_ops * Z) :=
  match blkdev_info_for_index tbl part_index with
  | None => None
  | Some info =>
      if negb (bi_kind info =? BLKDEV_KIND_PART) || (bi_sectors info <=? lba) then None
      else
        let ops := blkdev_ops_at tbl (bi_parent_index info) in
        if bool_decide (ops = OpsNull) then None
        else Some (ops, bi_start_sector info +u lba)
  end.

Section devices.
Context {D : Type} `{BlockDevice D}.

(** [ops->read_sector(lba, buf)]: a driver's function, or [part<n>_read_sector],
    that is [part_read_sector_for].  [n] bounds the nesting of partitions; a
    registered partition sits on a disk, so that two levels are enough. *)
Fixpoint ops_read (n : nat) (d : D) (tbl : list blkdev_entry) (ops : blkdev_ops) (lba : Z) :
    option (list Z) :=
  match n with
  | O => None
  | S n =>
      match ops with
      | OpsNull => None
      | OpsDriver dev => bd_read d dev lba
      | OpsPart i =>
          match part_translate tbl i lba with
          | None => None
          | Some (parent_ops, parent_lba) => ops_read n d tbl parent_ops parent_lba
          end
      end
  end.

(** [ops->write_sector(lba, buf)]; [None] is a call through a NULL pointer. *)
Fixpoint ops_write (n : nat) (d : D) (tbl : list blkdev_entry) (ops : blkdev_ops) (lba : Z)
    (s : list Z) : option (bool * D) :=
  match n with
  | O => Some (false, d)
  | S n =>
      match ops with
      | OpsNull => None
      | OpsDriver dev => if bd_can_write d dev then Some (bd_write d dev lba s) else None
      | OpsPart i =>
          match part_translate tbl i lba with
          | None => Some (false, d)
          | Some (parent_ops, parent_lba) => ops_write n d tbl parent_ops parent_lba s
          end
      end
  end.

Definition part_read_sector_for (d : D) (tbl : list blkdev_entry) (part_index lba : Z) :=
  ops_read 2 d tbl (OpsPart part_index) lba.
Definition part_write_sector_for (d : D) (tbl : list blkdev_entry) (part_index lba : Z) (s : list Z) :=
  ops_write 2 d tbl (OpsPart part_index) lba s.

(** "%s%u" *)
Definition part_name_fmt : list Z := [37; 115; 37; 117].

(** One slot of the partition table. *)
Definition mbr_slot (disk_index : Z) (disk : blkdev_info) (mbr : list Z) (slot : Z)
    (acc : Z * list blkdev_entry) : Z * list blkdev_entry :=
  let '(registered, tbl) := acc in
  let ent := 446 + slot * 16 in
  let type := mbr.[ent + 4] in
  let start := le32 mbr (ent + 8) in
  let sectors := le32 mbr (ent + 12) in
  if (type =? 0) || (sectors =? 0) then acc
  else if (type =? 0x05) || (type =? 0x0F) then acc
  else if (bi_sectors disk <=? start) || (bi_sectors disk -u start <? sectors) then acc
  else
    match k_snprintf 32 (replicate 12 0) BLKDEV_NAME_MAX part_name_fmt
            [VStr (Some (bi_name disk)); VInt (slot + 1)] with
    | None => acc
    | Some (buf, name_len) =>
        if (name_len <? 0) || (BLKDEV_NAME_MAX <=? u32 name_len) then acc
        else
          let '(r, tbl') := blkdev_register_part tbl (take (Z.to_nat name_len) buf) disk_index
                              (slot + 1) start sectors in
          (if r =? 0 then registered + 1 else registered, tbl')
    end.

Definition blkdev_scan_mbr (d : D) (tbl : list blkdev_entry) (disk_index : Z) :
    Z * list blkdev_entry :=
  match blkdev_info_for_index tbl disk_index with
  | None => (-1, tbl)
  | Some disk =>
      if negb (bi_kind disk =? BLKDEV_KIND_DISK) then (-1, tbl)
      else match ops_read 2 d tbl (blkdev_ops_at tbl disk_index) 0 with
           | None => (-1, tbl)
           | Some mbr =>
               if negb (mbr.[510] =? 0x55) || negb (mbr.[511] =? 0xAA) then (0, tbl)
               else for_loop 0 4 (mbr_slot disk_index disk mbr) (0, tbl)
           end
  end.
End devices.

(** ** The registry invariant *)

Definition disk_ok (e : blkdev_entry) : Prop :=
  bi_kind (be_info e) = BLKDEV_KIND_DISK ∧ ∃ dev, be_ops e = OpsDriver dev.

(** A partition lies inside the disk it was cut from. *)
Definition part_ok (tbl : list blkdev_entry) (i : Z) (e : blkdev_entry) : Prop :=
  let info := be_info e in
  bi_kind info = BLKDEV_KIND_PART ∧ be_ops e = OpsPart i ∧
  0 <= bi_parent_index info < BLKDEV_MAX ∧ slot_used tbl (bi_parent_index info) = true ∧
  disk_ok tbl.[bi_parent_index info] ∧
  0 <= bi_start_sector info ∧ 0 < bi_sectors info ∧
  bi_start_sector info + bi_sectors info <= bi_sectors (be_info tbl.[bi_parent_index info]).

Record registry_ok (tbl : list blkdev_entry) : Prop := {
  rg_len : length tbl = Z.to_nat BLKDEV_MAX;
  rg_entry i : 0 <= i < BLKDEV_MAX → slot_used tbl i = true →
    (0 < length (name_at tbl i) < 12)%nat ∧ is_u32 (bi_sectors (be_info tbl.[i])) ∧
    (disk_ok tbl.[i] ∨ part_ok tbl i tbl.[i]);
  rg_names i j : 0 <= i < BLKDEV_MAX → 0 <= j < BLKDEV_MAX → slot_used tbl i = true →
    name_at tbl i = name_at tbl j → i = j;
}.

(** ** Lookups *)

Lemma slot_used_iff tbl i : slot_used tbl i = true ↔ name_at tbl i ≠ [].
Proof. unfold slot_used. rewrite negb_true_iff. apply bool_decide_eq_false. Qed.

Lemma alloc_slot_spec tbl :
  let idx := blkdev_alloc_slot tbl in
  idx = -1 ∨ (0 <= idx < BLKDEV_MAX ∧ slot_used tbl idx = false).
Proof.
  cbn zeta. unfold blkdev_alloc_slot.
  pose proof (for_exit_inv (λ _ _, True) (λ i, 0 <= i < BLKDEV_MAX ∧ slot_used tbl i = false)
    (λ i _, if negb (slot_used tbl i) then inl i else inr tt) 0 (Z.to_nat BLKDEV_MAX) tt) as Hl.
  destruct (for_exit _ _ _ _); [right|by left]. apply Hl; [|done].
  intros k [] Hk _. destruct (slot_used tbl k) eqn:E; cbn [negb]; [done|].
  split; [unfold BLKDEV_MAX in *; lia|done].
Qed.

Lemma find_index_fresh tbl name :
  blkdev_find_index tbl name < 0 →
  ∀ i, 0 <= i < BLKDEV_MAX → slot_used tbl i = true → name_at tbl i ≠ name.
Proof.
  unfold blkdev_find_index. intros Hf i Hi Hu Hn.
  pose proof (for_exit_inv (λ k _, ∀ j, 0 <= j < k → slot_used tbl j = true → name_at tbl j ≠ name)
    (λ i, 0 <= i) (λ i _, if slot_used tbl i && blkdev_name_equals (name_at tbl i) name
                  then inl i else inr tt) 0 (Z.to_nat BLKDEV_MAX) tt) as Hl.
  destruct (for_exit _ _ _ _).
  - assert (0 <= z); [|lia]. apply Hl; [|intros; lia].
    intros k [] Hk IH. destruct (slot_used tbl k) eqn:E; cbn [andb]; unfold blkdev_name_equals.
    + case_bool_decide; [lia|]. intros j Hj. destruct (decide (j = k)) as [->|]; [done|]. apply IH. lia.
    + intros j Hj. destruct (decide (j = k)) as [->|]; [congruence|]. apply IH. lia.
  - apply Hl in Hn; [done| |intros; lia|unfold BLKDEV_MAX in *; lia|done].
    intros k [] Hk IH. destruct (slot_used tbl k) eqn:E; cbn [andb]; unfold blkdev_name_equals.
    + case_bool_decide; [lia|]. intros j Hj. destruct (decide (j = k)) as [->|]; [done|]. apply IH. lia.
    + intros j Hj. destruct (decide (j = k)) as [->|]; [congruence|]. apply IH. lia.
Qed.

Lemma name_valid name : blkdev_name_is_valid name = true → (0 < length name < 12)%nat.
Proof. unfold blkdev_name_is_valid, BLKDEV_NAME_MAX. intros. bprop. lia. Qed.

(** ** Registration *)

Lemma entry_set tbl idx e i :
  registry_ok tbl → 0 <= idx < BLKDEV_MAX → 0 <= i < BLKDEV_MAX →
  (tbl.[idx <- e]).[i] = if idx =? i then e else tbl.[i].
Proof.
  intros Hr Hi Hj. apply arr_get_set; [|lia]. rewrite (rg_len _ Hr). unfold BLKDEV_MAX in *. lia.
Qed.

Lemma part_ok_set tbl idx e i e' :
  registry_ok tbl → 0 <= idx < BLKDEV_MAX → slot_used tbl idx = false →
  part_ok tbl i e' → part_ok (tbl.[idx <- e]) i e'.
Proof.
  intros Hr Hi Hfree (? & ? & Hp & Hu & Hd & ? & ? & ?).
  assert (idx ≠ bi_parent_index (be_info e')) as Hne by congruence.
  assert ((tbl.[idx <- e]).[bi_parent_index (be_info e')] = tbl.[bi_parent_index (be_info e')]) as Hg.
  { rewrite entry_set by done. by rewrite (proj2 (Z.eqb_neq _ _)) by done. }
  unfold part_ok, slot_used, name_at in *. rewrite Hg. split_and!; auto; lia.
Qed.

(** Filling a free slot with a fresh, well-formed entry. *)
Lemma add_entry_ok tbl idx e :
  registry_ok tbl → 0 <= idx < BLKDEV_MAX → slot_used tbl idx = false →
  (0 < length (bi_name (be_info e)) < 12)%nat → is_u32 (bi_sectors (be_info e)) →
  (∀ i, 0 <= i < BLKDEV_MAX → slot_used tbl i = true → name_at tbl i ≠ bi_name (be_info e)) →
  disk_ok e ∨ part_ok tbl idx e → registry_ok (tbl.[idx <- e]).
Proof.
  intros Hr Hi Hfree Hname Hsec Hfresh He.
  assert (∀ i, 0 <= i < BLKDEV_MAX → slot_used (tbl.[idx <- e]) i =
            if idx =? i then true else slot_used tbl i) as Hused.
  { intros i Hi'. unfold slot_used at 1, name_at. rewrite entry_set by done.
    destruct (Z.eqb_spec idx i); [|done]. apply negb_true_iff, bool_decide_eq_false.
    intros E. rewrite E in Hname. cbn in Hname. lia. }
  split.
  - rewrite length_arr_set. apply Hr.
  - intros i Hi'. rewrite Hused by done. unfold name_at. rewrite entry_set by done.
    destruct (Z.eqb_spec idx i) as [->|Hne].
    + intros _. split; [done|]. split; [done|]. destruct He; [by left|right]. by apply part_ok_set.
    + intros Hu. destruct (rg_entry _ Hr i Hi' Hu) as (? & ? & Hk). split; [done|]. split; [done|].
      destruct Hk; [by left|right]. by apply part_ok_set.
  - intros i j Hi' Hj'. rewrite Hused by done. unfold name_at. rewrite !entry_set by done.
    destruct (Z.eqb_spec idx i) as [<-|], (Z.eqb_spec idx j) as [<-|]; intros Hu Hn; auto.
    + exfalso. destruct (slot_used tbl j) eqn:Ej; [by apply (Hfresh j)|].
      unfold slot_used, name_at in Ej. apply negb_false_iff, bool_decide_eq_true in Ej.
      rewrite Ej in Hn. rewrite Hn in Hname. cbn in Hname. lia.
    + exfalso. by apply (Hfresh i).
    + by apply (rg_names _ Hr).
Qed.

Lemma register_disk_ok tbl name major minor sectors dev :
  registry_ok tbl → is_u32 sectors →
  registry_ok (blkdev_register_disk tbl name major minor sectors (OpsDriver dev)).2.
Proof.
  intros Hr Hs. unfold blkdev_register_disk. destruct (_ || _) eqn:E; [done|].
  bprop.
  destruct (alloc_slot_spec tbl) as [->|[Hi Hfree]]; [done|].
  destruct (Z.ltb_spec (blkdev_alloc_slot tbl) 0); [done|]. cbn [snd].
  apply add_entry_ok; auto; cbn.
  - by apply name_valid.
  - apply find_index_fresh. lia.
  - left. split; [done|]. by exists dev.
Qed.

Lemma register_part_ok tbl name parent n start sectors :
  registry_ok tbl → is_u32 sectors → is_u32 start → 0 <= parent →
  registry_ok (blkdev_register_part tbl name parent n start sectors).2.
Proof.
  intros Hr Hs Hst Hp. unfold blkdev_register_part.
  destruct (negb (blkdev_name_is_valid name) || _ || _ || _) eqn:E; [done|].
  destruct (negb (slot_used tbl parent) || _) eqn:E2; [done|].
  destruct ((_ <=? start) || _) eqn:E3; [done|]. bprop.
  destruct (alloc_slot_spec tbl) as [->|[Hi Hfree]]; [done|].
  destruct (Z.ltb_spec (blkdev_alloc_slot tbl) 0); [done|]. cbn [snd].
  assert (0 <= parent < BLKDEV_MAX) as Hpr by lia.
  destruct (rg_entry _ Hr parent Hpr) as (_ & Hsec & Hkind); [done|].
  assert (disk_ok tbl.[parent]) as Hdisk.
  { destruct Hkind as [|(Hk & _)]; [done|]. unfold BLKDEV_KIND_PART, BLKDEV_KIND_DISK in *. lia. }
  rewrite u32_small in * by zsolve.
  apply add_entry_ok; auto; cbn.
  - by apply name_valid.
  - apply find_index_fresh. lia.
  - right. unfold part_ok, blkdev_part_ops_for_index. cbn.
    rewrite (proj2 (Z.leb_gt _ _)) by lia. split_and!; auto; try zsolve; try lia.
Qed.

Lemma shiftl_byte b k : is_u8 b → 0 <= k <= 24 → is_u32 (Z.shiftl b k).
Proof.
  intros Hb Hk. rewrite Z.shiftl_mul_pow2 by lia. unfold is_u8, is_u32 in *.
  pose proof (Z.pow_le_mono_r 2 k 24). pose proof (Z.pow_pos_nonneg 2 k). change (2 ^ 24) with 16777216 in *.
  change (2 ^ 8) with 256 in *. change (2 ^ 32) with 4294967296. nia.
Qed.

Lemma get_byte l i : Forall is_u8 l → is_u8 l.[i].
Proof.
  intros Hl. destruct (decide (Z.to_nat i < length l)%nat) as [Hi|Hi].
  - rewrite Forall_lookup in Hl. apply (Hl (Z.to_nat i)). by apply list_lookup_lookup_total_lt.
  - unfold arr_get. rewrite list_lookup_total_alt, lookup_ge_None_2 by lia. cbn. unfold is_u8. lia.
Qed.

Lemma le32_u32 l off : Forall is_u8 l → is_u32 (le32 l off).
Proof.
  intros Hl. unfold le32. repeat apply lor_u32; [|apply shiftl_byte; [by apply get_byte|lia]..].
  pose proof (get_byte l off Hl). unfold is_u8, is_u32 in *. lia.
Qed.

Section io.
Context {D : Type} `{BlockDeviceLaws D bd_media}.
Hypothesis read_bytes : ∀ (d : D) dev lba s, bd_read d dev lba = Some s → Forall is_u8 s.

Lemma scan_mbr_ok (d : D) tbl disk :
  registry_ok tbl → 0 <= disk → registry_ok (blkdev_scan_mbr d tbl disk).2.
Proof.
  intros Hr Hd. unfold blkdev_scan_mbr. destruct (blkdev_info_for_index tbl disk) as [info|]; [|done].
  destruct (negb _); [done|]. destruct (ops_read 2 d tbl _ 0) as [mbr|] eqn:Em; [|done].
  assert (Forall is_u8 mbr) as Hb.
  { assert (∀ n ops lba s, ops_read n d tbl ops lba = Some s → Forall is_u8 s) as Hread.
    { induction n as [|n IH]; intros ops lba s; cbn [ops_read]; [done|].
      destruct ops; [done|by apply read_bytes|]. destruct (part_translate _ _ _) as [[]|]; [apply IH|done]. }
    by eapply Hread. }
  destruct (_ || _); [done|].
  apply (for_loop_inv (λ _ acc, registry_ok acc.2) (mbr_slot disk info mbr) 0 4 (0, tbl)); [|done].
  intros k [r tbl'] _ Hr'. unfold mbr_slot. cbn [snd] in *. repeat (case_match; [done|]).
  destruct (k_snprintf _ _ _ _ _) as [[buf len]|]; [|done]. case_match; [done|].
  pose proof (register_part_ok tbl' (take (Z.to_nat len) buf) disk (k + 1) (le32 mbr (446 + k * 16 + 8))
    (le32 mbr (446 + k * 16 + 12)) Hr' (le32_u32 _ _ Hb) (le32_u32 _ _ Hb) Hd) as Hp.
  by destruct (blkdev_register_part _ _ _ _ _ _).
Qed.

Inductive reg_call :=
  | RegDisk (name : list Z) (major minor sectors dev : Z)
  | RegPart (name : list Z) (parent n start sectors : Z)
  | RegSimple (name : list Z) (dev : Z)
  | ScanMbr (d : D) (disk : Z).

Definition reg_exec (tbl : list blkdev_entry) (c : reg_call) : list blkdev_entry :=
  match c with
  | RegDisk name major minor sectors dev =>
      (blkdev_register_disk tbl name major minor sectors (OpsDriver dev)).2
  | RegPart name parent n start sectors => (blkdev_register_part tbl name parent n start sectors).2
  | RegSimple name dev => (blkdev_register tbl name (OpsDriver dev)).2
  | ScanMbr d disk => (blkdev_scan_mbr d tbl disk).2
  end.

Definition reg_legal (c : reg_call) : Prop :=
  match c with
  | RegDisk _ _ _ sectors _ => is_u32 sectors
  | RegPart _ parent _ start sectors => 0 <= parent ∧ is_u32 start ∧ is_u32 sectors
  | RegSimple _ _ => True
  | ScanMbr _ disk => 0 <= disk
  end.

Lemma reset_ok : registry_ok blkdev_reset.
Proof.
  assert (∀ i, 0 <= i < BLKDEV_MAX → slot_used blkdev_reset i = false) as Hfree.
  { intros i Hi. unfold slot_used, name_at, blkdev_reset.
    rewrite arr_get_replicate by (unfold BLKDEV_MAX in *; lia). done. }
  split; [done| |].
  - intros i Hi. by rewrite Hfree.
  - intros i j Hi. by rewrite Hfree.
Qed.

Lemma reg_exec_ok tbl c : registry_ok tbl → reg_legal c → registry_ok (reg_exec tbl c).
Proof.
  intros Hr Hl. destruct c; cbn in *.
  - by apply register_disk_ok.
  - destruct Hl as (? & ? & ?). by apply register_part_ok.
  - unfold blkdev_register. pose proof (register_disk_ok tbl name 0 0 0xFFFFFFFF dev Hr) as Hd.
    destruct (blkdev_register_disk _ _ _ _ _ _). apply Hd. unfold is_u32. lia.
  - by apply scan_mbr_ok.
Qed.

(** Whatever disks and partitions are registered, by hand or from the
    partition table on a disk (with any contents), the registry stays
    consistent: names are non-empty, fit their field and are unique, and every
    partition is a non-empty range of sectors inside a registered disk, with
    [start + sectors] not overflowing. *)
Theorem blkdev_registry_invariant cs :
  Forall reg_legal cs → registry_ok (foldl reg_exec blkdev_reset cs).
Proof.
  intros Hcs. pose proof reset_ok as Hr. revert Hr. generalize blkdev_reset.
  induction Hcs as [|c cs Hc _ IH]; intros tbl Hr; [done|]. cbn. by apply IH, reg_exec_ok.
Qed.

(** A partition's operations, unfolded to its disk. *)
Lemma part_translate_ok tbl i lba dev :
  registry_ok tbl → 0 <= i < BLKDEV_MAX → slot_used tbl i = true → be_ops tbl.[i] = OpsPart i →
  is_u32 lba → be_ops tbl.[bi_parent_index (be_info tbl.[i])] = OpsDriver dev →
  let info := be_info tbl.[i] in
  part_translate tbl i lba =
    if bi_sectors info <=? lba then None else Some (OpsDriver dev, bi_start_sector info + lba).
Proof.
  intros Hr Hi Hu Hops Hl Hdev. cbn zeta.
  destruct (rg_entry _ Hr i Hi Hu) as (_ & _ & [(_ & dv & Hd)|(Hk & _ & Hp & Hpu & Hdisk & Hst & Hs & Hfit)]);
    [congruence|].
  destruct (rg_entry _ Hr _ Hp Hpu) as (_ & Hps & _).
  unfold part_translate, blkdev_info_for_index, blkdev_ops_at.
  rewrite Hu, (proj2 (Z.leb_gt BLKDEV_MAX i)) by lia. cbn [negb orb]. rewrite Hk, Hpu.
  rewrite (proj2 (Z.leb_gt BLKDEV_MAX (bi_parent_index _))) by lia. cbn [negb orb].
  change (BLKDEV_KIND_PART =? BLKDEV_KIND_PART) with true. cbn [negb orb].
  destruct (Z.leb_spec (bi_sectors (be_info tbl.[i])) lba); [done|]. rewrite Hdev.
  rewrite bool_decide_eq_false_2 by done. by rewrite u32_small by zsolve.
Qed.

(** C38: A partition is a window on its disk.  Sector [lba] of the partition is
    sector [start + lba] of the disk, which lies on the disk; sectors past the
    end are refused.  A write through the partition can change no sector of the
    disk outside the partition and no other disk, whether it succeeds or not,
    and after a successful write the partition reads back what was written. *)
Theorem part_io_correct (d : D) tbl i lba s dev :
  registry_ok tbl → 0 <= i < BLKDEV_MAX → slot_used tbl i = true → be_ops tbl.[i] = OpsPart i →
  is_u32 lba → length s = Z.to_nat BLKDEV_SECTOR_SIZE →
  be_ops tbl.[bi_parent_index (be_info tbl.[i])] = OpsDriver dev → bd_can_write d dev = true →
  let info := be_info tbl.[i] in
  let disk := be_info tbl.[bi_parent_index info] in
  if bi_sectors info <=? lba
  then part_read_sector_for d tbl i lba = None ∧ part_write_sector_for d tbl i lba s = Some (false, d)
  else 0 <= bi_start_sector info + lba < bi_sectors disk ∧
       part_read_sector_for d tbl i lba = bd_read d dev (bi_start_sector info + lba) ∧
       ∃ ok d', part_write_sector_for d tbl i lba s = Some (ok, d') ∧
         (ok = true → bd_media d' dev (bi_start_sector info + lba) = s) ∧
         ∀ dev' x, dev' ≠ dev ∨ ¬ bi_start_sector info <= x < bi_start_sector info + bi_sectors info →
           bd_media d' dev' x = bd_media d dev' x.
Proof.
  intros Hr Hi Hu Hops Hl Hs Hdev Hcw. cbn zeta.
  pose proof (part_translate_ok tbl i lba dev Hr Hi Hu Hops Hl Hdev) as Htr. cbn zeta in Htr.
  destruct (rg_entry _ Hr i Hi Hu) as (_ & _ & [(_ & dv & Hd)|(_ & _ & _ & _ & _ & Hst & Hsec & Hfit)]);
    [congruence|].
  unfold part_read_sector_for, part_write_sector_for. cbn [ops_read ops_write]. rewrite Htr.
  destruct (Z.leb_spec (bi_sectors (be_info tbl.[i])) lba); [done|]. rewrite Hcw.
  split; [zsolve|]. split; [done|].
  destruct (bd_write d dev (bi_start_sector (be_info tbl.[i]) + lba) s) as [ok d'] eqn:Ew.
  exists ok, d'. split; [done|]. split; [intros ->; by eapply bd_write_ok|]. intros dev' x Hx.
  replace d' with (bd_write d dev (bi_start_sector (be_info tbl.[i]) + lba) s).2 by by rewrite Ew.
  apply bd_write_frame. destruct Hx; [left; congruence|right; zsolve].
Qed.
End io.

(** ** Witnesses: a disk with one partition of 100 sectors at sector 63 *)

#[local] Notation byte_disk := (gmap (Z * Z) (list Z)).
Definition byte_media (d : byte_disk) (dev lba : Z) : list Z :=
  match d !! (dev, lba) with
  | Some s => if bool_decide (Forall is_u8 s ∧ length s = 512%nat) then s else replicate 512 0
  | None => replicate 512 0
  end.

#[local] Instance byte_device : BlockDevice byte_disk := {
  bd_read d dev lba := Some (byte_media d dev lba);
  bd_can_write _ _ := true;
  bd_write d dev lba s :=
    if bool_decide (Forall is_u8 s) then (true, <[(dev, lba) := s]> d) else (false, d);
}.

Lemma byte_media_ok d dev lba :
  Forall is_u8 (byte_media d dev lba) ∧ length (byte_media d dev lba) = 512%nat.
Proof.
  assert (Forall is_u8 (replicate 512 0) ∧ length (replicate 512 0) = 512%nat).
  { split; [|apply length_replicate]. apply Forall_replicate. unfold is_u8. lia. }
  unfold byte_media. case_match; [|done]. by case_bool_decide.
Qed.

#[local] Instance byte_device_laws : BlockDeviceLaws byte_disk byte_media.
Proof.
  split; cbn.
  - intros. apply byte_media_ok.
  - by intros d dev lba s [= <-].
  - intros d dev lba s d' Hw Hs. case_bool_decide; simplify_eq. unfold byte_media.
    rewrite lookup_insert_eq. by rewrite bool_decide_eq_true_2.
  - intros d dev lba s dev' lba' Hne. case_bool_decide; [|done]. unfold byte_media. cbn.
    rewrite lookup_insert_ne; [done|]. intros [= -> ->]. naive_solver.
Qed.

(** A partition-table sector with the entry (type 0x83, start 63, 100 sectors). *)
Definition demo_mbr : list Z :=
  replicate 446 0 ++ [0x80; 0; 0; 0; 0x83; 0; 0; 0; 63; 0; 0; 0; 100; 0; 0; 0] ++
  replicate 48 0 ++ [0x55; 0xAA].
Definition demo_disk : byte_disk := {[ (1, 0) := demo_mbr ]}.
Definition demo_calls : list (reg_call (D := byte_disk)) :=
  [RegDisk [115; 100; 97] 8 0 1000 1; ScanMbr demo_disk 0].
Definition demo_table : list blkdev_entry := foldl reg_exec blkdev_reset demo_calls.

Lemma demo_calls_legal : Forall reg_legal demo_calls.
Proof. forall_list; cbn; unfold is_u32; lia. Qed.

Lemma blkdev_registry_invariant_witness : registry_ok (foldl reg_exec blkdev_reset demo_calls).
Proof.
  apply (blkdev_registry_invariant (D := byte_disk)).
  - intros d dev lba s [= <-]. apply byte_media_ok.
  - exact demo_calls_legal.
Defined.

Lemma demo_table_ok : registry_ok demo_table.
Proof.
  unfold demo_table, demo_calls. cbn [foldl].
  apply reg_exec_ok; [|apply reg_exec_ok; [|apply reset_ok|]|].
  - intros d dev lba s [= <-]. apply byte_media_ok.
  - intros d dev lba s [= <-]. apply byte_media_ok.
  - cbn. unfold is_u32. lia.
  - cbn. lia.
Qed.

Example demo_partition :
  blkdev_info_for_index demo_table 1 =
  Some {| bi_name := [115; 100; 97; 49]; bi_kind := BLKDEV_KIND_PART; bi_sector_size := 512;
          bi_sectors := 100; bi_readonly := 0; bi_major := 8; bi_minor := 1; bi_parent_index := 0;
          bi_start_sector := 63; bi_partition_number := 1 |}.
Proof. vm_compute. reflexivity. Qed.

Definition demo_sector : list Z := replicate 512 7.

Lemma part_io_correct_witness :
  0 <= 63 + 5 < 1000 ∧
  part_read_sector_for demo_disk demo_table 1 5 = bd_read demo_disk 1 (63 + 5) ∧
  ∃ ok d', part_write_sector_for demo_disk demo_table 1 5 demo_sector = Some (ok, d') ∧
    (ok = true → byte_media d' 1 (63 + 5) = demo_sector) ∧
    ∀ dev' x, dev' ≠ 1 ∨ ¬ 63 <= x < 63 + 100 → byte_media d' dev' x = byte_media demo_disk dev' x.
Proof.
  pose proof (part_io_correct demo_disk demo_table 1 5 demo_sector 1 demo_table_ok) as H.
  lapply H; [clear H; intros H|unfold BLKDEV_MAX; lia].
  lapply H; [clear H; intros H|vm_compute; reflexivity].
  lapply H; [clear H; intros H|vm_compute; reflexivity].
  lapply H; [clear H; intros H|unfold is_u32; lia].
  lapply H; [clear H; intros H|vm_compute; reflexivity].
  lapply H; [clear H; intros H|vm_compute; reflexivity].
  lapply H; [clear H; intros H|reflexivity].
  replace (be_info demo_table.[1]) with
    {| bi_name := [115; 100; 97; 49]; bi_kind := BLKDEV_KIND_PART; bi_sector_size := 512;
       bi_sectors := 100; bi_readonly := 0; bi_major := 8; bi_minor := 1; bi_parent_index := 0;
       bi_start_sector := 63; bi_partition_number := 1 |} in H by (vm_compute; reflexivity).
  cbn [bi_sectors bi_start_sector bi_parent_index] in H.
  replace (bi_sectors (be_info demo_table.[0])) with 1000 in H by (vm_compute; reflexivity).
  exact H.
Defined.
