(* ===== verification/Paging.v ===== *)
(** * Two-level page tables: the model (kernel/arch/x86/mm/paging.c, arch.c)

    Page directories and page tables are 1024-word pages of physical memory,
    which the kernel reads and writes through its direct map: the byte memory
    of the model is indexed by kernel virtual addresses of that window, so
    [paging_phys_ptr] computes a pointer as the code does.  Page frames come
    from the [PageAllocator] interface.  TLB invalidation and control registers
    have no counterpart in the state. *)

From S2P Require Import Prelude Interfaces Memory.

(** ** Constants *)

Definition ARCH_KERNEL_DEVICE_MAP_BASE : Z := 0xB0000000.
Definition ARCH_KERNEL_DEVICE_MAP_END : Z := 0xC0000000.
Definition ARCH_KERNEL_VIRT_BASE : Z := 0xC0000000.
Definition ARCH_KERNEL_DIRECT_PHYS_MAX : Z := 0x40000000.
Definition ARCH_USER_VADDR_MIN : Z := 0x00010000.
Definition ARCH_USER_VADDR_MAX : Z := 0xC0000000.

Definition PAGE_DIR_ADDR : Z := 0x00011000.
Definition PG_PRESENT : Z := 0x1.
Definition PG_WRITABLE : Z := 0x2.
Definition PG_USER : Z := 0x4.
Definition PG_PAT_4K : Z := 0x80.
Definition PG_COW : Z := 0x200.
Definition PG_IO : Z := 0x400.
Definition PG_SHARED : Z := 0x800.
Definition PG_ENTRY_ADDR_MASK : Z := 0xFFFFF000.
Definition PG_ENTRY_FLAGS_MASK : Z := 0x00000FFF.

Definition ARCH_MM_MAP_PRESENT : Z := 0x0001.
Definition ARCH_MM_MAP_READ : Z := 0x0002.
Definition ARCH_MM_MAP_WRITE : Z := 0x0004.
Definition ARCH_MM_MAP_EXEC : Z := 0x0008.
Definition ARCH_MM_MAP_USER : Z := 0x0010.
Definition ARCH_MM_MAP_COW : Z := 0x0020.
Definition ARCH_MM_MAP_IO : Z := 0x0040.
Definition ARCH_MM_MAP_SHARED : Z := 0x0080.
Definition ARCH_MM_MAP_NC : Z := 0x0100.

(** [x & f] as a condition. *)
Definition has (x f : Z) : bool := negb (x &u f =? 0).

(** ** Entries (paging.h) *)

Definition paging_entry_addr (entry : Z) : Z := entry &u PG_ENTRY_ADDR_MASK.
Definition paging_entry_flags (entry : Z) : Z := entry &u PG_ENTRY_FLAGS_MASK.
Definition paging_entry_build (addr flags : Z) : Z :=
  paging_entry_addr addr |u paging_entry_flags flags.

(** [(e & (PG_PRESENT | PG_USER)) == (PG_PRESENT | PG_USER)] *)
Definition entry_is_user (e : Z) : bool := e &u (PG_PRESENT |u PG_USER) =? (PG_PRESENT |u PG_USER).

(** ** Machine state *)

Record vm {S : Type} := mk_vm { vm_pmm : S; vm_mem : mem }.
Arguments vm : clear implicits.
Arguments mk_vm {S} _ _.

Definition paging_phys_ptr (phys : Z) : option Z :=
  if ARCH_KERNEL_DIRECT_PHYS_MAX <=? phys then None else Some (phys + ARCH_KERNEL_VIRT_BASE).

(** [p[i]] and [p[i] = v] on a [uint32_t *]. *)
Definition tbl_get (m : mem) (p i : Z) : Z := load32 m (p + 4 * i).
Definition tbl_set (m : mem) (p i v : Z) : mem := store32 m (p + 4 * i) v.

Definition zero_table (m : mem) (p : Z) : mem := for_loop 0 1024 (λ i m, tbl_set m p i 0) m.
Definition copy_table (m : mem) (dst src : Z) : mem :=
  for_loop 0 1024 (λ i m, tbl_set m dst i (tbl_get m src i)) m.

Arguments zero_table : simpl never.
Arguments copy_table : simpl never.

Definition pd_index (virt : Z) : Z := Z.shiftr virt 22.
Definition pt_index (virt : Z) : Z := Z.shiftr virt 12 &u 0x3FF.

Section paging.
Context {S : Type} `{PageAllocator S}.
Implicit Types σ : vm S.

Definition set_mem (m : mem) σ : vm S := mk_vm (vm_pmm σ) m.
Definition pmm_alloc_page σ : Z * vm S :=
  let '(a, s) := pa_alloc (vm_pmm σ) in (a, mk_vm s (vm_mem σ)).
Definition pmm_incref σ (a : Z) : vm S := mk_vm (pa_incref (vm_pmm σ) a) (vm_mem σ).
Definition pmm_decref σ (a : Z) : vm S := mk_vm (pa_decref (vm_pmm σ) a) (vm_mem σ).
Definition pmm_free_page := pmm_decref.
Definition pmm_refcount σ (a : Z) : Z := pa_refcount (vm_pmm σ) a.

(** ** Lookup *)

Definition paging_user_page_allowed (virt : Z) : bool :=
  negb (virt <? ARCH_USER_VADDR_MIN) && negb (ARCH_USER_VADDR_MAX - 0x1000 <? virt).

(** The address of the page-table entry of [virt]. *)
Definition paging_lookup_slot (m : mem) (pd_phys virt : Z) : option Z :=
  match paging_phys_ptr pd_phys with
  | None => None
  | Some pd =>
      let pde := tbl_get m pd (pd_index virt) in
      if negb (has pde PG_PRESENT) then None
      else match paging_phys_ptr (paging_entry_addr pde) with
           | None => None
           | Some pt => Some (pt + 4 * pt_index virt)
           end
  end.

Definition paging_walk (m : mem) (pd_phys virt : Z) : option Z :=
  match paging_lookup_slot m pd_phys virt with
  | Some pte => if has (load32 m pte) PG_PRESENT then Some pte else None
  | None => None
  end.

Definition entry_mapping_flags (e : Z) : Z :=
  let add (c : bool) (f fl : Z) := if c then fl |u f else fl in
  add (has e PG_SHARED) ARCH_MM_MAP_SHARED
    (add (has e PG_IO) ARCH_MM_MAP_IO
      (add (has e PG_COW) ARCH_MM_MAP_COW
        (add (has e PG_USER) ARCH_MM_MAP_USER
          (add (has e PG_WRITABLE) ARCH_MM_MAP_WRITE (ARCH_MM_MAP_PRESENT |u ARCH_MM_MAP_READ))))).

Definition paging_query_page (m : mem) (pd_phys virt : Z) : option (Z * Z) :=
  match paging_walk m pd_phys virt with
  | None => None
  | Some pte =>
      let e := load32 m pte in Some (paging_entry_addr e, entry_mapping_flags e)
  end.

(** ** Changing one page *)

(** The page table that will hold the entry: allocated, made private, or the
    one present; [inl] is the failing return. *)
Definition map_table σ (pd pdi pti flags : Z) : vm S + (Z * vm S) :=
  let pde := tbl_get (vm_mem σ) pd pdi in
  if negb (has pde PG_PRESENT) then
    let '(pt_phys, σ) := pmm_alloc_page σ in
    if pt_phys =? 0 then inl σ
    else match paging_phys_ptr pt_phys with
         | None => inl (pmm_free_page σ pt_phys)
         | Some pt =>
             let m := zero_table (vm_mem σ) pt in
             inr (pt, set_mem (tbl_set m pd pdi
               (paging_entry_build pt_phys (PG_PRESENT |u PG_WRITABLE |u PG_USER))) σ)
         end
  else if has flags PG_USER && negb (has pde PG_USER) then
    let '(pt_phys, σ) := pmm_alloc_page σ in
    if pt_phys =? 0 then inl σ
    else match paging_phys_ptr (paging_entry_addr pde), paging_phys_ptr pt_phys with
         | Some old_pt, Some pt =>
             let old := tbl_get (vm_mem σ) old_pt pti in
             if has old PG_PRESENT && negb (has old PG_USER) then inl (pmm_free_page σ pt_phys)
             else
               let m := copy_table (vm_mem σ) pt old_pt in
               inr (pt, set_mem (tbl_set m pd pdi
                 (paging_entry_build pt_phys (PG_PRESENT |u PG_WRITABLE |u PG_USER))) σ)
         | _, _ => inl (pmm_free_page σ pt_phys)
         end
  else
    match paging_phys_ptr (paging_entry_addr pde) with
    | None => inl σ
    | Some pt =>
        let e := tbl_get (vm_mem σ) pt pti in
        if has flags PG_USER && has e PG_PRESENT && negb (has e PG_USER) then inl σ
        else inr (pt, if has flags PG_USER
                      then set_mem (tbl_set (vm_mem σ) pd pdi (pde |u PG_USER)) σ else σ)
    end.

Definition paging_map_page σ (pd_phys virt phys flags : Z) : Z * vm S :=
  match paging_phys_ptr pd_phys with
  | None => (-1, σ)
  | Some pd =>
      if has flags PG_USER && negb (paging_user_page_allowed virt) then (-1, σ)
      else match map_table σ pd (pd_index virt) (pt_index virt) flags with
           | inl σ => (-1, σ)
           | inr (pt, σ) =>
               (0, set_mem (tbl_set (vm_mem σ) pt (pt_index virt)
                              (paging_entry_build phys flags)) σ)
           end
  end.

Definition paging_unmap_page σ (pd_phys virt : Z) : Z * vm S :=
  match paging_phys_ptr pd_phys with
  | None => (-1, σ)
  | Some pd =>
      match paging_lookup_slot (vm_mem σ) pd_phys virt with
      | None => (-1, σ)
      | Some pte =>
          let e := load32 (vm_mem σ) pte in
          if negb (has e PG_PRESENT) then (-1, σ)
          else
            let σ := if has (tbl_get (vm_mem σ) pd (pd_index virt)) PG_USER &&
                        has e PG_USER && negb (has e PG_IO)
                     then pmm_decref σ (paging_entry_addr e) else σ in
            (0, set_mem (store32 (vm_mem σ) pte 0) σ)
      end
  end.

Definition update_flags (flags clear_flags set_flags : Z) : Z :=
  let flags := if has clear_flags ARCH_MM_MAP_WRITE then flags &u not32 PG_WRITABLE else flags in
  let flags := if has clear_flags ARCH_MM_MAP_COW then flags &u not32 PG_COW else flags in
  if has set_flags ARCH_MM_MAP_COW then (flags |u PG_COW) &u not32 PG_WRITABLE
  else if has set_flags ARCH_MM_MAP_WRITE then flags |u PG_WRITABLE else flags.

Definition paging_update_page σ (pd_phys virt clear_flags set_flags : Z) : Z * vm S :=
  match paging_walk (vm_mem σ) pd_phys virt with
  | None => (-1, σ)
  | Some pte =>
      if has (clear_flags |u set_flags)
           (ARCH_MM_MAP_PRESENT |u ARCH_MM_MAP_READ |u ARCH_MM_MAP_EXEC |u ARCH_MM_MAP_USER)
      then (-1, σ)
      else
        let e := load32 (vm_mem σ) pte in
        (0, set_mem (store32 (vm_mem σ) pte
              (paging_entry_build (paging_entry_addr e)
                 (update_flags (paging_entry_flags e) clear_flags set_flags))) σ)
  end.

(** ** The architecture interface (arch.c) *)

Definition arch_mm_to_paging_flags (flags : Z) : Z :=
  let add (c : bool) (f fl : Z) := if c then fl |u f else fl in
  add (has flags ARCH_MM_MAP_SHARED) PG_SHARED
    (add (has flags ARCH_MM_MAP_NC) (PG_IO |u PG_PAT_4K)
      (add (has flags ARCH_MM_MAP_IO) PG_IO
        (add (has flags ARCH_MM_MAP_COW) PG_COW
          (add (has flags ARCH_MM_MAP_USER) PG_USER
            (add (has flags ARCH_MM_MAP_WRITE && negb (has flags ARCH_MM_MAP_COW)) PG_WRITABLE
              (add (has flags ARCH_MM_MAP_PRESENT) PG_PRESENT 0)))))).

Definition arch_mm_map σ (aspace virt phys flags : Z) : Z * vm S :=
  if UINT32_MAX <? phys then (-1, σ)
  else if has flags ARCH_MM_MAP_USER && negb (paging_user_page_allowed virt) then (-1, σ)
  else paging_map_page σ aspace virt phys (arch_mm_to_paging_flags flags).

Definition arch_mm_unmap σ (aspace virt : Z) : Z * vm S := paging_unmap_page σ aspace virt.
Definition arch_mm_query σ (aspace virt : Z) : option (Z * Z) :=
  paging_query_page (vm_mem σ) aspace virt.
Definition arch_mm_update σ (aspace virt clear_flags set_flags : Z) : Z * vm S :=
  paging_update_page σ aspace virt clear_flags set_flags.
Definition arch_page_temp_map (phys : Z) : option Z :=
  if UINT32_MAX <? phys then None else paging_phys_ptr phys.

(** ** Address spaces *)

(** [kend] is the address of the linker symbol [_kernel_end]. *)
Definition inherited_pde (kend i : Z) : bool :=
  (i <? Z.shiftr (kend +u 0x3FFFFF) 22) ||
  ((Z.shiftr ARCH_KERNEL_DEVICE_MAP_BASE 22 <=? i) &&
   (i <? Z.shiftr (ARCH_KERNEL_DEVICE_MAP_END +u 0x3FFFFF) 22)) ||
  (Z.shiftr ARCH_KERNEL_VIRT_BASE 22 <=? i).

Definition inherit_pde (kend new_pd kernel_pd i : Z) (m : mem) : mem :=
  let e := tbl_get m kernel_pd i in
  if inherited_pde kend i && (e &u (PG_PRESENT |u PG_USER) =? PG_PRESENT)
  then tbl_set m new_pd i e else m.

Definition paging_create_user_space (kend : Z) σ : Z * vm S :=
  let '(pd_phys, σ) := pmm_alloc_page σ in
  if pd_phys =? 0 then (0, σ)
  else match paging_phys_ptr pd_phys, paging_phys_ptr PAGE_DIR_ADDR with
       | Some new_pd, Some kernel_pd =>
           let m := zero_table (vm_mem σ) new_pd in
           (pd_phys, set_mem (for_loop 0 1024 (inherit_pde kend new_pd kernel_pd) m) σ)
       | _, _ => (0, pmm_free_page σ pd_phys)
       end.

Definition destroy_page (pt pti : Z) σ : vm S :=
  let e := tbl_get (vm_mem σ) pt pti in
  if negb (entry_is_user e) then σ
  else
    let σ := if negb (has e PG_IO) then pmm_decref σ (paging_entry_addr e) else σ in
    set_mem (tbl_set (vm_mem σ) pt pti 0) σ.

Definition destroy_table (pd pdi : Z) σ : vm S :=
  let pde := tbl_get (vm_mem σ) pd pdi in
  if negb (entry_is_user pde) then σ
  else match paging_phys_ptr (paging_entry_addr pde) with
       | None => σ
       | Some pt =>
           let σ := for_loop 0 1024 (destroy_page pt) σ in
           let σ := pmm_free_page σ (paging_entry_addr pde) in
           set_mem (tbl_set (vm_mem σ) pd pdi 0) σ
       end.

Definition paging_destroy_user_space σ (pd_phys : Z) : vm S :=
  if (pd_phys =? 0) || (pd_phys =? PAGE_DIR_ADDR) then σ
  else match paging_phys_ptr pd_phys with
       | None => σ
       | Some pd => pmm_free_page (for_loop 0 1024 (destroy_table pd) σ) pd_phys
       end.

(** *** Copy-on-write clone *)

(** Does the table have a user entry? *)
Definition has_user_pte (m : mem) (pt : Z) : bool :=
  match for_exit 0 1024 (λ j (_ : unit), if entry_is_user (tbl_get m pt j) then inl () else inr ()) () with
  | inl _ => true
  | inr _ => false
  end.

(** The rollback: free the child tables allocated for the entries before [i]. *)
Definition clone_rollback (new_pd src_pd i : Z) σ : vm S :=
  for_loop 0 (Z.to_nat i)
    (λ k σ,
       let e := tbl_get (vm_mem σ) new_pd k in
       if negb (has e PG_PRESENT) then σ
       else if negb (paging_entry_addr e =? paging_entry_addr (tbl_get (vm_mem σ) src_pd k))
       then pmm_free_page σ (paging_entry_addr e) else σ) σ.

(** Pass 1, one directory entry; [inl] is the failing return. *)
Definition clone_alloc (new_pd_phys new_pd src_pd i : Z) σ : vm S + vm S :=
  let pde := tbl_get (vm_mem σ) src_pd i in
  if negb (has pde PG_PRESENT) then inr σ
  else match paging_phys_ptr (paging_entry_addr pde) with
       | None => inr σ
       | Some src_pt =>
           if negb (has_user_pte (vm_mem σ) src_pt)
           then inr (set_mem (tbl_set (vm_mem σ) new_pd i pde) σ)
           else
             let '(new_pt_phys, σ) := pmm_alloc_page σ in
             if new_pt_phys =? 0
             then inl (pmm_free_page (clone_rollback new_pd src_pd i σ) new_pd_phys)
             else match paging_phys_ptr new_pt_phys with
                  | None =>
                      inl (pmm_free_page
                             (pmm_free_page (clone_rollback new_pd src_pd i σ) new_pt_phys)
                             new_pd_phys)
                  | Some _ =>
                      inr (set_mem (tbl_set (vm_mem σ) new_pd i
                             (paging_entry_build new_pt_phys (paging_entry_flags pde))) σ)
                  end
       end.

(** Pass 2, one page-table entry. *)
Definition clone_page (src_pt new_pt j : Z) σ : vm S :=
  let e := tbl_get (vm_mem σ) src_pt j in
  if negb (entry_is_user e) then σ
  else if has e PG_IO then set_mem (tbl_set (vm_mem σ) new_pt j e) σ
  else if has e PG_SHARED then
    pmm_incref (set_mem (tbl_set (vm_mem σ) new_pt j e) σ) (paging_entry_addr e)
  else
    let σ := if has e PG_WRITABLE
             then set_mem (tbl_set (vm_mem σ) src_pt j ((e &u not32 PG_WRITABLE) |u PG_COW)) σ
             else σ in
    let e := tbl_get (vm_mem σ) src_pt j in
    pmm_incref (set_mem (tbl_set (vm_mem σ) new_pt j e) σ) (paging_entry_addr e).

(** Pass 2, one directory entry. *)
Definition clone_table (new_pd src_pd i : Z) σ : vm S :=
  let e := tbl_get (vm_mem σ) new_pd i in
  let pde := tbl_get (vm_mem σ) src_pd i in
  if negb (has e PG_PRESENT) then σ
  else if paging_entry_addr e =? paging_entry_addr pde then σ
  else match paging_phys_ptr (paging_entry_addr pde), paging_phys_ptr (paging_entry_addr e) with
       | Some src_pt, Some new_pt =>
           for_loop 0 1024 (clone_page src_pt new_pt)
             (set_mem (copy_table (vm_mem σ) new_pt src_pt) σ)
       | _, _ => σ
       end.

Definition paging_clone_user_space σ (src_pd_phys : Z) : Z * vm S :=
  let '(new_pd_phys, σ) := pmm_alloc_page σ in
  if new_pd_phys =? 0 then (0, σ)
  else match paging_phys_ptr new_pd_phys, paging_phys_ptr src_pd_phys with
       | Some new_pd, Some src_pd =>
           let σ := set_mem (zero_table (vm_mem σ) new_pd) σ in
           match for_exit 0 1024 (clone_alloc new_pd_phys new_pd src_pd) σ with
           | inl σ => (0, σ)
           | inr σ => (new_pd_phys, for_loop 0 1024 (clone_table new_pd src_pd) σ)
           end
       | _, _ => (0, pmm_free_page σ new_pd_phys)
       end.

(** ** Kernel mappings *)

(** The table for a kernel page in the shared directory, allocated on demand. *)
Definition kernel_table σ (pd pdi : Z) : vm S + (Z * vm S) :=
  let pde := tbl_get (vm_mem σ) pd pdi in
  if negb (has pde PG_PRESENT) then
    let '(pt_phys, σ) := pmm_alloc_page σ in
    if pt_phys =? 0 then inl σ
    else match paging_phys_ptr pt_phys with
         | None => inl (pmm_free_page σ pt_phys)
         | Some pt =>
             let m := zero_table (vm_mem σ) pt in
             inr (pt, set_mem (tbl_set m pd pdi
               (paging_entry_build pt_phys (PG_PRESENT |u PG_WRITABLE))) σ)
         end
  else match paging_phys_ptr (paging_entry_addr pde) with
       | None => inl σ
       | Some pt => inr (pt, σ)
       end.

Definition map_kernel_page (pd page_flags virt phys : Z) σ : vm S + vm S :=
  match kernel_table σ pd (pd_index virt) with
  | inl σ => inl σ
  | inr (pt, σ) =>
      inr (set_mem (tbl_set (vm_mem σ) pt (pt_index virt) (paging_entry_build phys page_flags)) σ)
  end.

Definition exit_code (r : vm S + vm S) : Z * vm S :=
  match r with inl σ => (-1, σ) | inr σ => (0, σ) end.

Definition paging_identity_map_kernel_range σ (phys_start byte_len flags : Z) : Z * vm S :=
  let start := phys_start &u not32 0xFFF in
  if byte_len =? 0 then (0, σ)
  else match paging_phys_ptr PAGE_DIR_ADDR with
       | None => (-1, σ)
       | Some pd =>
           if UINT32_MAX -u (byte_len -u 1) <? phys_start then (-1, σ)
           else
             let end64 := (phys_start + byte_len + 0xFFF) / 0x1000 * 0x1000 in
             if UINT32_MAX <? end64 then (-1, σ)
             else if negb ((start <? ARCH_KERNEL_VIRT_BASE) && (end64 <=? ARCH_KERNEL_VIRT_BASE))
             then (-1, σ)
             else
               let page_flags := (flags |u PG_PRESENT) &u not32 PG_USER in
               exit_code (for_exit 0 (Z.to_nat ((end64 - start) / 0x1000))
                 (λ k, map_kernel_page pd page_flags (start + 0x1000 * k) (start + 0x1000 * k)) σ)
       end.

Definition paging_map_kernel_range σ (virt_start phys_start byte_len flags : Z) : Z * vm S :=
  let virt := virt_start &u not32 0xFFF in
  let phys := phys_start &u not32 0xFFF in
  let offset := phys_start -u phys in
  if byte_len =? 0 then (0, σ)
  else match paging_phys_ptr PAGE_DIR_ADDR with
       | None => (-1, σ)
       | Some pd =>
           if virt_start <? ARCH_KERNEL_DEVICE_MAP_BASE then (-1, σ)
           else if ARCH_KERNEL_DEVICE_MAP_END <=? virt_start then (-1, σ)
           else if UINT32_MAX -u (byte_len -u 1) <? phys_start then (-1, σ)
           else
             let end64 := (virt_start + offset + byte_len + 0xFFF) / 0x1000 * 0x1000 in
             if ARCH_KERNEL_DEVICE_MAP_END <? end64 then (-1, σ)
             else if end64 <=? virt then (-1, σ)
             else
               let page_flags := (flags |u PG_PRESENT) &u not32 PG_USER in
               exit_code (for_exit 0 (Z.to_nat ((end64 - virt) / 0x1000))
                 (λ k, map_kernel_page pd page_flags (virt + 0x1000 * k) (phys +u 0x1000 * k)) σ)
       end.

(** *** Guard pages of kernel stacks *)

Definition guard_slot (f : Z → Z) (virt : Z) (m : mem) : mem :=
  match paging_lookup_slot m PAGE_DIR_ADDR virt with
  | Some pte => store32 m pte (f (load32 m pte))
  | None => m
  end.

Definition guard_both (f : Z → Z) (virt : Z) σ : vm S :=
  let m := guard_slot f virt (vm_mem σ) in
  set_mem (if virt <? ARCH_KERNEL_DIRECT_PHYS_MAX
           then guard_slot f (virt + ARCH_KERNEL_VIRT_BASE) m else m) σ.

Definition paging_guard_page (virt : Z) σ : vm S := guard_both (λ e, e &u not32 PG_PRESENT) virt σ.
Definition paging_unguard_page (virt : Z) σ : vm S :=
  guard_both (λ e, e |u (PG_PRESENT |u PG_WRITABLE)) virt σ.
End paging.
