(* ===== verification/PagingSpec.v ===== *)
(** * Page tables: words, entries and the references they hold

    A frame is a page of physical memory inside the direct map.  This file
    gives the algebra of table words and entry bits, the counting of references
    that live page tables hold on frames, and the effect of single reads and
    writes on them. *)

From S2P Require Import Prelude Interfaces Memory Paging.

(** ** Counting *)

Definition ind (P : Prop) `{Decision P} : Z := if decide P then 1 else 0.

Section counting.
Context {A : Type}.
Implicit Types (l : list A) (x y : A).

Definition countp (P : A → Prop) `{∀ x, Decision (P x)} l : Z := Z.of_nat (length (filter P l)).

Context (P : A → Prop) `{∀ x, Decision (P x)}.

Lemma countp_nil : countp P [] = 0.
Proof. done. Qed.
Lemma countp_cons x l : countp P (x :: l) = ind (P x) + countp P l.
Proof. unfold countp, ind. rewrite filter_cons. destruct (decide (P x)); simpl; lia. Qed.
Lemma countp_app l l' : countp P (l ++ l') = countp P l + countp P l'.
Proof. unfold countp. rewrite filter_app, length_app. lia. Qed.
Lemma countp_nonneg l : 0 <= countp P l.
Proof. unfold countp. lia. Qed.
Lemma countp_perm l l' : l ≡ₚ l' → countp P l = countp P l'.
Proof. intros E. unfold countp. by rewrite E. Qed.

Lemma countp_zero l : (∀ x, x ∈ l → ¬ P x) → countp P l = 0.
Proof.
  induction l as [|x l IH]; intros E; [done|]. rewrite countp_cons, IH by (intros; apply E; set_solver).
  unfold ind. destruct (decide (P x)) as [Hp|]; [|done]. by apply E in Hp; [|set_solver].
Qed.

Lemma countp_pos x l : x ∈ l → P x → 1 <= countp P l.
Proof.
  intros Hx Hp. apply list_elem_of_split in Hx as (l1 & l2 & ->).
  rewrite countp_app, countp_cons. unfold ind. rewrite decide_True by done.
  pose proof (countp_nonneg l1). pose proof (countp_nonneg l2). lia.
Qed.

Lemma countp_two x y l : x ∈ l → y ∈ l → x ≠ y → P x → P y → 2 <= countp P l.
Proof.
  intros Hx Hy Hne Hpx Hpy. apply list_elem_of_split in Hx as (l1 & l2 & ->).
  rewrite countp_app, countp_cons. unfold ind. rewrite decide_True by done.
  apply elem_of_app in Hy as [Hy|Hy].
  - pose proof (countp_pos _ _ Hy Hpy). pose proof (countp_nonneg l2). lia.
  - apply elem_of_cons in Hy as [->|Hy]; [done|].
    pose proof (countp_pos _ _ Hy Hpy). pose proof (countp_nonneg l1). lia.
Qed.
End counting.

Lemma countp_ext {A} (P Q : A → Prop) `{∀ x, Decision (P x)} `{∀ x, Decision (Q x)} l :
  (∀ x, x ∈ l → P x ↔ Q x) → countp P l = countp Q l.
Proof.
  induction l as [|x l IH]; intros E; [done|]. rewrite !countp_cons, IH by (intros; apply E; set_solver).
  f_equal. unfold ind. apply decide_ext, E. set_solver.
Qed.

Lemma countp_update {A} (P Q : A → Prop) `{∀ x, Decision (P x)} `{∀ x, Decision (Q x)} x l :
  NoDup l → x ∈ l → (∀ y, y ∈ l → y ≠ x → P y ↔ Q y) →
  countp Q l = countp P l - ind (P x) + ind (Q x).
Proof.
  intros Hnd Hx E. apply list_elem_of_split in Hx as (l1 & l2 & ->).
  apply NoDup_app in Hnd as (_ & Hd & [Hx _]%NoDup_cons).
  rewrite !countp_app, !countp_cons.
  rewrite (countp_ext Q P l1), (countp_ext Q P l2); [lia|..].
  - intros y Hy. symmetry. apply E; [set_solver|]. by intros ->.
  - intros y Hy. symmetry. apply E; [set_solver|]. intros ->. apply (Hd x Hy). set_solver.
Qed.

(** ** Entry bits *)

Lemma has_bit x k : 0 <= k → has x (2 ^ k) = Z.testbit x k.
Proof. intros. unfold has. rewrite <-Z.shiftl_1_l, land_bit_zero by done. by rewrite negb_involutive. Qed.

Definition present (e : Z) : bool := Z.testbit e 0.
Definition writable (e : Z) : bool := Z.testbit e 1.
Definition user (e : Z) : bool := Z.testbit e 2.
Definition cow (e : Z) : bool := Z.testbit e 9.
Definition io (e : Z) : bool := Z.testbit e 10.
Definition shared (e : Z) : bool := Z.testbit e 11.

Lemma has_present e : has e PG_PRESENT = present e. Proof. exact (has_bit e 0 ltac:(lia)). Qed.
Lemma has_writable e : has e PG_WRITABLE = writable e. Proof. exact (has_bit e 1 ltac:(lia)). Qed.
Lemma has_user e : has e PG_USER = user e. Proof. exact (has_bit e 2 ltac:(lia)). Qed.
Lemma has_cow e : has e PG_COW = cow e. Proof. exact (has_bit e 9 ltac:(lia)). Qed.
Lemma has_io e : has e PG_IO = io e. Proof. exact (has_bit e 10 ltac:(lia)). Qed.
Lemma has_shared e : has e PG_SHARED = shared e. Proof. exact (has_bit e 11 ltac:(lia)). Qed.

Lemma entry_is_user_eq e : entry_is_user e = present e && user e.
Proof.
  unfold entry_is_user, present, user. change (PG_PRESENT |u PG_USER) with 5. apply eq_true_iff_eq. rewrite Z.eqb_eq, andb_true_iff.
  split.
  - intros E. assert (∀ k, Z.testbit (Z.land e 5) k = Z.testbit 5 k) as Hb by (intros; by rewrite E).
    split; [specialize (Hb 0)|specialize (Hb 2)]; rewrite Z.land_spec in Hb;
      apply andb_true_iff in Hb; tauto.
  - intros [H0 H2]. apply Z.bits_inj'. intros n Hn. rewrite Z.land_spec.
    destruct (decide (n = 0)) as [->|]; [by rewrite H0|].
    destruct (decide (n = 2)) as [->|]; [by rewrite H2|].
    assert (Z.testbit 5 n = false) as ->; [|by rewrite andb_false_r].
    destruct (decide (n = 1)) as [->|]; [done|]. apply (testbit_high 3); lia.
Qed.

(** A present entry that is not a user entry. *)
Lemma kernel_pde_eq e : (e &u (PG_PRESENT |u PG_USER) =? PG_PRESENT) = present e && negb (user e).
Proof.
  unfold present, user. change (PG_PRESENT |u PG_USER) with 5. change PG_PRESENT with 1.
  apply eq_true_iff_eq. rewrite Z.eqb_eq, andb_true_iff, negb_true_iff. split.
  - intros E. assert (∀ k, Z.testbit (Z.land e 5) k = Z.testbit 1 k) as Hb by (intros; by rewrite E).
    split; [specialize (Hb 0)|specialize (Hb 2)]; rewrite Z.land_spec in Hb; cbn in Hb;
      [by rewrite andb_true_r in Hb|by rewrite andb_true_r in Hb].
  - intros [H0 H2]. apply Z.bits_inj'. intros n Hn. rewrite Z.land_spec.
    destruct (decide (n = 0)) as [->|]; [by rewrite H0|].
    destruct (decide (n = 2)) as [->|]; [by rewrite H2|].
    assert (Z.testbit 5 n = false ∧ Z.testbit 1 n = false) as [-> ->]; [|by rewrite andb_false_r].
    destruct (decide (n = 1)) as [->|]; [done|]. split; apply (testbit_high 3); lia.
Qed.

Lemma entry_addr_eq e : is_u32 e → paging_entry_addr e = e - e mod 4096.
Proof. intros. exact (land_not32_mask 12 e ltac:(lia) ltac:(done)). Qed.
Lemma testbit_addr e k : 0 <= k → is_u32 e → Z.testbit (paging_entry_addr e) k = (12 <=? k) && Z.testbit e k.
Proof.
  intros Hk He. change (paging_entry_addr e) with (Z.land e (not32 (Z.ones 12))).
  rewrite Z.land_spec, testbit_not32, Z.testbit_ones_nonneg by lia.
  destruct (Z.leb_spec 12 k), (Z.ltb_spec k 12); try lia; simpl.
  destruct (Z.ltb_spec k 32); simpl; [by rewrite andb_true_r|].
  by rewrite (testbit_high 32 e k) by (unfold is_u32 in He; lia).
Qed.
Lemma testbit_flags e k : 0 <= k → Z.testbit (paging_entry_flags e) k = (k <? 12) && Z.testbit e k.
Proof.
  intros Hk. change (paging_entry_flags e) with (Z.land e (Z.ones 12)).
  rewrite Z.land_spec, Z.testbit_ones_nonneg by lia. apply andb_comm.
Qed.
Lemma testbit_build a f k :
  0 <= k → is_u32 a →
  Z.testbit (paging_entry_build a f) k = if k <? 12 then Z.testbit f k else Z.testbit a k.
Proof.
  intros Hk Ha. unfold paging_entry_build. rewrite Z.lor_spec, testbit_addr, testbit_flags by done.
  destruct (Z.leb_spec 12 k), (Z.ltb_spec k 12); try lia; simpl; by rewrite ?orb_false_r.
Qed.

Lemma entry_addr_u32 e : is_u32 e → is_u32 (paging_entry_addr e).
Proof. intros. apply land_u32; [done|]. unfold PG_ENTRY_ADDR_MASK. lia. Qed.
Lemma entry_flags_u32 e : is_u32 e → is_u32 (paging_entry_flags e).
Proof. intros. apply land_u32; [done|]. unfold PG_ENTRY_FLAGS_MASK. lia. Qed.
Lemma entry_build_u32 a f : is_u32 a → is_u32 f → is_u32 (paging_entry_build a f).
Proof. intros. apply lor_u32; auto using entry_addr_u32, entry_flags_u32. Qed.
#[export] Hint Resolve entry_addr_u32 entry_flags_u32 entry_build_u32 : cint.

Lemma entry_addr_build a f :
  is_u32 a → is_u32 f → paging_entry_addr (paging_entry_build a f) = paging_entry_addr a.
Proof.
  intros Ha Hf. apply Z.bits_inj'. intros k Hk.
  rewrite !testbit_addr, testbit_build by auto with cint.
  destruct (Z.leb_spec 12 k), (Z.ltb_spec k 12); simpl; try lia; done.
Qed.

Lemma bit_build a f k : 0 <= k < 12 → is_u32 a → Z.testbit (paging_entry_build a f) k = Z.testbit f k.
Proof. intros. rewrite testbit_build by lia || done. by destruct (Z.ltb_spec k 12); [|lia]. Qed.

Lemma entry_addr_aligned e : is_u32 e → paging_entry_addr e mod 4096 = 0.
Proof. intros. rewrite entry_addr_eq by done. zsolve. Qed.

(** ** Frames and table words *)

Definition frame (f : Z) : Prop := 0 <= f < 2 ^ 30 ∧ f mod 4096 = 0.
Definition kv (f : Z) : Z := f + ARCH_KERNEL_VIRT_BASE.
Definition ix (i : Z) : Prop := 0 <= i < 1024.
Definition tw (m : mem) (f i : Z) : Z := tbl_get m (kv f) i.

(** The page at [f] holds the same bytes. *)
Definition page_same (m m' : mem) (f : Z) : Prop :=
  ∀ o, 0 <= o < 4096 → mem_get m' (kv f + o) = mem_get m (kv f + o).

Lemma phys_ptr_frame f : frame f → paging_phys_ptr f = Some (kv f).
Proof.
  intros [Hf _]. unfold paging_phys_ptr, ARCH_KERNEL_DIRECT_PHYS_MAX. bcase; [lia|done].
Qed.

Lemma frame_apart f g : frame f → frame g → f ≠ g → f + 4096 <= g ∨ g + 4096 <= f.
Proof. unfold frame. intros. Z.div_mod_to_equations. lia. Qed.

Lemma tw_u32 m f i : is_u32 (tw m f i).
Proof. apply load32_u32. Qed.
#[export] Hint Resolve tw_u32 : cint.

Lemma page_same_refl m f : page_same m m f.
Proof. done. Qed.
Lemma page_same_trans m1 m2 m3 f : page_same m1 m2 f → page_same m2 m3 f → page_same m1 m3 f.
Proof. intros E1 E2 o Ho. by rewrite E2, E1. Qed.
#[export] Hint Resolve page_same_refl : cint.

Lemma page_same_tw m m' f i : page_same m m' f → ix i → tw m' f i = tw m f i.
Proof.
  intros E Hi. unfold tw, tbl_get, load32, ix in *.
  rewrite <-!Z.add_assoc, !E by lia. done.
Qed.

Lemma tw_set m f i v g j :
  frame f → frame g → ix i → ix j → is_u32 v →
  tw (tbl_set m (kv f) i v) g j = if (f =? g) && (i =? j) then v else tw m g j.
Proof.
  intros Hf Hg Hi Hj Hv. unfold tw, tbl_set, tbl_get, kv, ix in *.
  destruct (Z.eqb_spec f g) as [<-|Hne]; [destruct (Z.eqb_spec i j) as [<-|]|]; cbn [andb].
  - by apply load32_store32_eq.
  - apply load32_store32_ne. lia.
  - apply load32_store32_ne. pose proof (frame_apart f g Hf Hg Hne). lia.
Qed.

Lemma tw_set_eq m f i v : frame f → ix i → is_u32 v → tw (tbl_set m (kv f) i v) f i = v.
Proof. intros. by rewrite tw_set, !Z.eqb_refl. Qed.
Lemma tw_set_ne m f i v g j :
  frame f → frame g → ix i → ix j → is_u32 v → (f, i) ≠ (g, j) →
  tw (tbl_set m (kv f) i v) g j = tw m g j.
Proof.
  intros ????? Hne. rewrite tw_set by done.
  destruct (Z.eqb_spec f g) as [->|], (Z.eqb_spec i j) as [->|]; done.
Qed.

Lemma page_same_set m f i v g :
  frame f → frame g → ix i → f ≠ g → page_same m (tbl_set m (kv f) i v) g.
Proof.
  intros Hf Hg Hi Hne o Ho. unfold tbl_set, kv, ix in *. rewrite mem_get_store32.
  pose proof (frame_apart f g Hf Hg Hne).
  destruct (Z.leb_spec (f + ARCH_KERNEL_VIRT_BASE + 4 * i) (g + ARCH_KERNEL_VIRT_BASE + o)),
    (Z.ltb_spec (g + ARCH_KERNEL_VIRT_BASE + o) (f + ARCH_KERNEL_VIRT_BASE + 4 * i + 4));
    cbn [andb]; done || lia.
Qed.

(** A loop that writes word after word of one table. *)
Lemma fill_table m f (v : Z → mem → Z) (w : Z → Z) :
  frame f →
  (∀ i m', ix i → (∀ g, frame g → g ≠ f → page_same m m' g) → v i m' = w i ∧ is_u32 (w i)) →
  let m' := for_loop 0 1024 (λ i m, tbl_set m (kv f) i (v i m)) m in
  (∀ i, ix i → tw m' f i = w i) ∧ ∀ g, frame g → g ≠ f → page_same m m' g.
Proof.
  intros Hf Hv m'. subst m'.
  pose proof (for_loop_inv (λ k m', (∀ i, 0 <= i < k → tw m' f i = w i) ∧
    ∀ g, frame g → g ≠ f → page_same m m' g)
    (λ i m, tbl_set m (kv f) i (v i m)) 0 1024 m) as HI.
  apply HI; [|split; [lia|auto with cint]].
  intros k m' Hk [Hw Hs]. destruct (Hv k m' Hk Hs) as [-> Hu]. split.
  - intros i Hi. rewrite tw_set by (unfold ix in *; done || lia).
    rewrite Z.eqb_refl. destruct (Z.eqb_spec k i) as [<-|]; cbn [andb]; [done|].
    apply Hw. lia.
  - intros g Hg Hne. eapply page_same_trans; [by apply Hs|]. by apply page_same_set.
Qed.

Lemma zero_table_spec m f :
  frame f → (∀ i, ix i → tw (zero_table m (kv f)) f i = 0) ∧
  ∀ g, frame g → g ≠ f → page_same m (zero_table m (kv f)) g.
Proof. intros Hf. apply (fill_table m f (λ _ _, 0) (λ _, 0) Hf). intros. split; [done|zsolve]. Qed.

Lemma copy_table_spec m d s :
  frame d → frame s → s ≠ d →
  (∀ i, ix i → tw (copy_table m (kv d) (kv s)) d i = tw m s i) ∧
  ∀ g, frame g → g ≠ d → page_same m (copy_table m (kv d) (kv s)) g.
Proof.
  intros Hd Hs Hne. apply (fill_table m d (λ i m, tbl_get m (kv s) i) (tw m s) Hd).
  intros i m' Hi E. split; [|auto with cint]. apply page_same_tw; [by apply E|done].
Qed.

Lemma has_user_pte_spec m f : frame f →
  has_user_pte m (kv f) = true ↔ ∃ j, ix j ∧ entry_is_user (tw m f j) = true.
Proof.
  intros Hf. unfold has_user_pte.
  pose proof (for_exit_inv (λ k (_ : unit), ∀ j, 0 <= j < k → entry_is_user (tw m f j) = false)
    (λ _ : unit, ∃ j, ix j ∧ entry_is_user (tw m f j) = true)
    (λ j _, if entry_is_user (tbl_get m (kv f) j) then inl () else inr ()) 0 1024 ()) as HI.
  destruct (for_exit _ _ _ _); split; intros Hj; try done.
  - apply HI; [|lia]. intros k s Hk IH. fold (tw m f k).
    destruct (entry_is_user (tw m f k)) eqn:E; [by exists k|].
    intros j Hj'. destruct (decide (j = k)) as [->|]; [done|]. apply IH. lia.
  - destruct Hj as (j & Hj & E). rewrite HI in E; [done| |lia|exact Hj].
    intros k s Hk IH. fold (tw m f k). destruct (entry_is_user (tw m f k)) eqn:E'; [by exists k|].
    intros j' Hj'. destruct (decide (j' = k)) as [->|]; [done|]. apply IH. lia.
Qed.

(** What the hardware finds for page [j] of directory entry [i]. *)
Definition walk (m : mem) (pd i j : Z) : option Z :=
  if present (tw m pd i) then
    let e := tw m (paging_entry_addr (tw m pd i)) j in if present e then Some e else None
  else None.

(** ** References held by page tables

    A live directory holds itself, a user directory entry holds its table, a
    user table entry holds its page unless it maps device memory. *)
Inductive owner := OwnPd (pd : Z) | OwnPt (pd i : Z) | OwnPage (pd i j : Z).

#[global] Instance owner_eq_dec : EqDecision owner.
Proof. solve_decision. Defined.

Definition holds_page (e : Z) : bool := entry_is_user e && negb (io e).

Definition own (m : mem) (o : owner) : option Z :=
  match o with
  | OwnPd pd => Some pd
  | OwnPt pd i => if entry_is_user (tw m pd i) then Some (paging_entry_addr (tw m pd i)) else None
  | OwnPage pd i j =>
      if entry_is_user (tw m pd i) then
        let e := tw m (paging_entry_addr (tw m pd i)) j in
        if holds_page e then Some (paging_entry_addr e) else None
      else None
  end.

Definition page_keys (pd i : Z) : list owner := OwnPage pd i <$> seqZ 0 1024.
Definition table_keys (t : Z * Z) : list owner := OwnPt t.1 t.2 :: page_keys t.1 t.2.
Definition keys (D : list Z) (T : list (Z * Z)) : list owner :=
  (OwnPd <$> D) ++ (T ≫= table_keys).

Arguments page_keys : simpl never.
Arguments table_keys : simpl never.

Definition owners (m : mem) (D : list Z) (T : list (Z * Z)) (f : Z) : Z :=
  countp (λ o, own m o = Some f) (keys D T).

Lemma elem_of_page_keys o pd i : o ∈ page_keys pd i ↔ ∃ j, ix j ∧ o = OwnPage pd i j.
Proof.
  unfold page_keys, ix. rewrite list_elem_of_fmap. split.
  - intros (j & -> & Hj%elem_of_seqZ). exists j. split; [lia|done].
  - intros (j & Hj & ->). exists j. split; [done|]. apply elem_of_seqZ. lia.
Qed.

Lemma elem_of_keys o D T :
  o ∈ keys D T ↔ match o with
                 | OwnPd pd => pd ∈ D
                 | OwnPt pd i => (pd, i) ∈ T
                 | OwnPage pd i j => (pd, i) ∈ T ∧ ix j
                 end.
Proof.
  unfold keys. rewrite elem_of_app, list_elem_of_fmap, list_elem_of_bind. unfold table_keys.
  setoid_rewrite elem_of_cons. setoid_rewrite elem_of_page_keys. split.
  - intros [(pd & -> & ?)|([pd i] & [->|(j & ? & ->)] & ?)]; simpl in *; done.
  - destruct o as [pd|pd i|pd i j]; intros Ho.
    + left. by exists pd.
    + right. exists (pd, i). split; [by left|done].
    + right. exists (pd, i). split; [right; exists j|]; naive_solver.
Qed.

Lemma NoDup_keys D T : NoDup D → NoDup T → NoDup (keys D T).
Proof.
  intros HD HT. unfold keys. apply NoDup_app. split; [|split].
  - by apply NoDup_fmap_2; [intros ?? [=]|].
  - intros o (pd & -> & _)%list_elem_of_fmap ([? ?] & Ho & _)%list_elem_of_bind.
    apply elem_of_cons in Ho as [|(? & _ & ?)%elem_of_page_keys]; done.
  - induction HT as [|[pd i] T Hn HT IH]; [constructor|].
    change (((pd, i) :: T) ≫= table_keys) with (OwnPt pd i :: page_keys pd i ++ (T ≫= table_keys)).
    apply NoDup_cons. split.
    + rewrite elem_of_app, elem_of_page_keys, list_elem_of_bind.
      intros [(? & _ & ?)|([? ?] & Ho & ?)]; [done|].
      apply elem_of_cons in Ho as [[=]|(? & _ & ?)%elem_of_page_keys]; [|done]. by simplify_eq/=.
    + apply NoDup_app. split; [|split; [|done]].
      * apply NoDup_fmap_2; [intros ?? [=]; done|apply NoDup_seqZ].
      * intros o (j & _ & ->)%elem_of_page_keys ([? ?] & Ho & ?)%list_elem_of_bind.
        apply elem_of_cons in Ho as [|(? & _ & ?)%elem_of_page_keys]; [done|]. by simplify_eq/=.
Qed.

Lemma owners_nonneg m D T f : 0 <= owners m D T f.
Proof. apply countp_nonneg. Qed.

Lemma owners_ext m m' D T f :
  (∀ o, o ∈ keys D T → own m' o = own m o) → owners m' D T f = owners m D T f.
Proof. intros E. apply countp_ext. intros o Ho. by rewrite E. Qed.

Lemma owners_update m m' D T f o :
  NoDup D → NoDup T → o ∈ keys D T → (∀ o', o' ∈ keys D T → o' ≠ o → own m' o' = own m o') →
  owners m' D T f = owners m D T f - ind (own m o = Some f) + ind (own m' o = Some f).
Proof.
  intros HD HT Ho E. unfold owners.
  pose proof (countp_update (λ o, own m o = Some f) (λ o, own m' o = Some f) o (keys D T)) as Hc.
  apply Hc; [by apply NoDup_keys|done|].
  intros o' Ho' Hne. by rewrite E.
Qed.

Lemma owners_pos m D T f o : o ∈ keys D T → own m o = Some f → 1 <= owners m D T f.
Proof. intros Ho E. by apply (countp_pos (λ o, own m o = Some f) o). Qed.

Lemma owners_unique m D T f o o' :
  owners m D T f <= 1 → o ∈ keys D T → o' ∈ keys D T →
  own m o = Some f → own m o' = Some f → o = o'.
Proof.
  intros Hle Ho Ho' E E'. destruct (decide (o = o')) as [|Hne]; [done|].
  pose proof (countp_two (λ o, own m o = Some f) o o' _ Ho Ho' Hne E E'). unfold owners in *. lia.
Qed.

Lemma owners_cons_pd m pd D T f :
  owners m (pd :: D) T f = ind (pd = f) + owners m D T f.
Proof.
  unfold owners, keys. simpl. rewrite countp_cons. f_equal. unfold ind.
  apply decide_ext. simpl. split; congruence.
Qed.

Lemma owners_cons_table m D t T f :
  owners m D (t :: T) f = countp (λ o, own m o = Some f) (table_keys t) + owners m D T f.
Proof.
  unfold owners, keys. change ((t :: T) ≫= table_keys) with (table_keys t ++ (T ≫= table_keys)).
  rewrite !countp_app. lia.
Qed.

Lemma owners_perm m D D' T T' f : D ≡ₚ D' → T ≡ₚ T' → owners m D T f = owners m D' T' f.
Proof. intros HD HT. apply countp_perm. unfold keys. by rewrite HD, HT. Qed.
