(* ===== verification/PagingInv.v ===== *)
(** * The invariant of address spaces

    Which frames the live page tables own, and how the reference counts of the
    page allocator, the tables and the references held by running code fit
    together.  Every operation on tables is one of a few steps, each proved
    here: take or drop a reference, write a page that is not a table, change a
    page-table entry, install or remove a table, add or remove a directory. *)

From S2P Require Import Prelude Interfaces Memory Paging PagingSpec.

(** The count of a frame that has [n] references: exact, or stuck at the value
    of a reserved page. *)
Definition rc_rel (c n : Z) : Prop := c = 0xFF ∨ c = n.

Definition add_ref (ext : Z → Z) (a : Z) : Z → Z := λ f, ext f + ind (a = f).
Definition sub_ref (ext : Z → Z) (a : Z) : Z → Z := λ f, ext f - ind (a = f).

(** A user entry through which one address space alone may write. *)
Definition private_writable (e : Z) : bool := holds_page e && writable e && negb (shared e).

Section inv.
Context {S : Type} `{PageAllocator S} (inv : S → Prop) (managed : S → Z → Prop).
Context `{!PageAllocatorLaws S inv managed}.
Implicit Types (σ : vm S) (D : list Z) (T : list (Z * Z)) (K : gset Z) (ext : Z → Z) (m : mem).

Definition mframe σ (f : Z) : Prop := frame f ∧ managed (vm_pmm σ) f.

(** All references to a frame: those of the live tables [D], [T], those of
    running code [ext], and the kernel's on its own tables [K]. *)
Definition total m D T K ext f : Z := owners m D T f + ext f + ind (f ∈ K).

Record vm_ok σ D T K ext : Prop := {
  vo_inv : inv (vm_pmm σ);
  vo_direct : ∀ a, managed (vm_pmm σ) a → a < 2 ^ 30;
  vo_ext : ∀ f, 0 <= ext f;
  vo_D : NoDup D;
  vo_T : NoDup T;
  vo_TD : ∀ pd i, (pd, i) ∈ T → pd ∈ D ∧ ix i;
  vo_pd : ∀ pd, pd ∈ D → mframe σ pd ∧ total (vm_mem σ) D T K ext pd = 1;
  vo_K : ∀ f, f ∈ K → mframe σ f ∧ total (vm_mem σ) D T K ext f = 1;
  vo_Kent : ∀ f j, f ∈ K → ix j → present (tw (vm_mem σ) f j) = true →
    user (tw (vm_mem σ) f j) = false ∧ cow (tw (vm_mem σ) f j) = false;
  vo_kernel : PAGE_DIR_ADDR ∈ K;
  vo_kpde : ∀ i, ix i → present (tw (vm_mem σ) PAGE_DIR_ADDR i) = true →
    paging_entry_addr (tw (vm_mem σ) PAGE_DIR_ADDR i) ∈ K;
  vo_kdir : ∀ pd i, (pd, i) ∈ T → present (tw (vm_mem σ) pd i) = true →
    user (tw (vm_mem σ) pd i) = false → paging_entry_addr (tw (vm_mem σ) pd i) ∈ K;
  vo_pt : ∀ pd i f, (pd, i) ∈ T → own (vm_mem σ) (OwnPt pd i) = Some f →
    mframe σ f ∧ total (vm_mem σ) D T K ext f = 1;
  vo_page : ∀ pd i j f, (pd, i) ∈ T → ix j → own (vm_mem σ) (OwnPage pd i j) = Some f →
    mframe σ f;
  vo_excl : ∀ pd i j f, (pd, i) ∈ T → ix j → own (vm_mem σ) (OwnPt pd i) = Some f →
    private_writable (tw (vm_mem σ) f j) = true →
    owners (vm_mem σ) D T (paging_entry_addr (tw (vm_mem σ) f j)) = 1;
  vo_cow : ∀ pd i j f, (pd, i) ∈ T → ix j → own (vm_mem σ) (OwnPt pd i) = Some f →
    present (tw (vm_mem σ) f j) = true → cow (tw (vm_mem σ) f j) = true →
    holds_page (tw (vm_mem σ) f j) = true ∧ shared (tw (vm_mem σ) f j) = false;
  vo_counts : ∀ f, mframe σ f →
    rc_rel (pmm_refcount σ f) (total (vm_mem σ) D T K ext f);
}.

(** ** References and their keys *)

Lemma own_pt m pd i f :
  own m (OwnPt pd i) = Some f ↔ entry_is_user (tw m pd i) = true ∧ f = paging_entry_addr (tw m pd i).
Proof.
  simpl. destruct (entry_is_user _); (split; [intros Eq; simplify_eq; done|intros [? ->]; done]).
Qed.

Lemma own_page m pd i j f :
  own m (OwnPage pd i j) = Some f ↔
  ∃ pt, own m (OwnPt pd i) = Some pt ∧ holds_page (tw m pt j) = true ∧ f = paging_entry_addr (tw m pt j).
Proof.
  simpl. destruct (entry_is_user _) eqn:Eu; [|split; [done|by intros (? & ? & _)]].
  destruct (holds_page _) eqn:E; split.
  - intros Eq. simplify_eq. by eexists.
  - intros (pt & Eq & _ & ->). by simplify_eq.
  - done.
  - intros (pt & Eq & Eh & ->). simplify_eq. congruence.
Qed.

Lemma own_page_at m pd i j pt :
  own m (OwnPt pd i) = Some pt →
  own m (OwnPage pd i j) = if holds_page (tw m pt j) then Some (paging_entry_addr (tw m pt j)) else None.
Proof. intros [E ->]%own_pt. simpl. by rewrite E. Qed.

Lemma private_writable_holds e : private_writable e = true → holds_page e = true.
Proof. unfold private_writable. intros. bprop. by destruct (holds_page e). Qed.

Lemma ind_true P `{Decision P} : P → ind P = 1.
Proof. intros. unfold ind. by rewrite decide_True. Qed.
Lemma ind_false P `{Decision P} : ¬ P → ind P = 0.
Proof. intros. unfold ind. by rewrite decide_False. Qed.
Lemma ind_range P `{Decision P} : 0 <= ind P <= 1.
Proof. unfold ind. case_decide; lia. Qed.
Lemma ind_ext P Q `{Decision P} `{Decision Q} : (P ↔ Q) → ind P = ind Q.
Proof. intros. unfold ind. by apply decide_ext. Qed.

(** What is a table of a live address space or of the kernel. *)
Definition is_table m D T K (f : Z) : Prop :=
  f ∈ D ∨ f ∈ K ∨ ∃ pd i, (pd, i) ∈ T ∧ own m (OwnPt pd i) = Some f.

Section facts.
Context σ D T K ext (OK : vm_ok σ D T K ext).

Lemma table_frame f : is_table (vm_mem σ) D T K f → mframe σ f ∧ total (vm_mem σ) D T K ext f = 1.
Proof.
  intros [Hf|[Hf|(pd & i & Hf & E)]]; [by apply (vo_pd _ _ _ _ _ OK)|by apply (vo_K _ _ _ _ _ OK)|].
  by eapply (vo_pt _ _ _ _ _ OK).
Qed.

(** A table has one reference: its own. *)
Lemma table_ext f : is_table (vm_mem σ) D T K f → ext f = 0.
Proof.
  intros Hf. destruct (table_frame f Hf) as [_ Ht]. unfold total in Ht.
  pose proof (vo_ext _ _ _ _ _ OK f). pose proof (owners_nonneg (vm_mem σ) D T f).
  pose proof (ind_range (f ∈ K)).
  destruct Hf as [Hf|[Hf|(pd & i & Hf & E)]].
  - pose proof (owners_pos (vm_mem σ) D T f (OwnPd f)) as Hp. rewrite elem_of_keys in Hp.
    specialize (Hp Hf eq_refl). lia.
  - rewrite ind_true in Ht by done. lia.
  - pose proof (owners_pos (vm_mem σ) D T f (OwnPt pd i)) as Hp. rewrite elem_of_keys in Hp.
    specialize (Hp Hf E). lia.
Qed.

Lemma table_one_owner f : is_table (vm_mem σ) D T K f → owners (vm_mem σ) D T f <= 1.
Proof.
  intros Hf. pose proof (table_ext f Hf). destruct (table_frame f Hf) as [_ Ht].
  unfold total in Ht. pose proof (ind_range (f ∈ K)). lia.
Qed.

Lemma page_not_table pd i j f :
  (pd, i) ∈ T → ix j → own (vm_mem σ) (OwnPage pd i j) = Some f → ¬ is_table (vm_mem σ) D T K f.
Proof.
  intros Ht Hj E Hf. assert (OwnPage pd i j ∈ keys D T) as Hk by by rewrite elem_of_keys.
  pose proof (table_one_owner f Hf) as H1. pose proof (owners_pos _ _ _ _ _ Hk E) as H2.
  destruct (table_frame f Hf) as [_ Hn]. unfold total in Hn. pose proof (table_ext f Hf).
  destruct Hf as [Hf|[Hf|(pd' & i' & Hf & E')]].
  - assert (OwnPd f = OwnPage pd i j) as [=]. eapply (owners_unique _ D T f); try done.
    by rewrite elem_of_keys.
  - rewrite ind_true in Hn by done. lia.
  - assert (OwnPt pd' i' = OwnPage pd i j) as [=]. eapply (owners_unique _ D T f); try done.
    by rewrite elem_of_keys.
Qed.

Lemma pt_not_pd pd i f : (pd, i) ∈ T → own (vm_mem σ) (OwnPt pd i) = Some f → f ∉ D.
Proof.
  intros Ht E Hd. assert (OwnPd f = OwnPt pd i) as [=].
  eapply (owners_unique _ D T f); rewrite ?elem_of_keys; try done.
  apply table_one_owner. by left.
Qed.

Lemma pt_not_K pd i f : (pd, i) ∈ T → own (vm_mem σ) (OwnPt pd i) = Some f → f ∉ K.
Proof.
  intros Ht E Hk. assert (OwnPt pd i ∈ keys D T) as Ho by by rewrite elem_of_keys.
  pose proof (owners_pos _ _ _ _ _ Ho E). destruct (vo_K _ _ _ _ _ OK f Hk) as [_ Hn].
  unfold total in Hn. rewrite ind_true in Hn by done. pose proof (vo_ext _ _ _ _ _ OK f). lia.
Qed.

Lemma pd_not_K pd : pd ∈ D → pd ∉ K.
Proof.
  intros Hd Hk. assert (OwnPd pd ∈ keys D T) as Ho by by rewrite elem_of_keys.
  pose proof (owners_pos (vm_mem σ) _ _ _ _ Ho eq_refl). destruct (vo_K _ _ _ _ _ OK pd Hk) as [_ Hn].
  unfold total in Hn. rewrite ind_true in Hn by done. pose proof (vo_ext _ _ _ _ _ OK pd). lia.
Qed.

Lemma pt_inj pd i pd' i' f :
  (pd, i) ∈ T → (pd', i') ∈ T → own (vm_mem σ) (OwnPt pd i) = Some f →
  own (vm_mem σ) (OwnPt pd' i') = Some f → pd = pd' ∧ i = i'.
Proof.
  intros Ht Ht' E E'. assert (OwnPt pd i = OwnPt pd' i') as [= -> ->]; [|done].
  eapply (owners_unique _ D T f); rewrite ?elem_of_keys; try done.
  apply table_one_owner. right. right. by exists pd, i.
Qed.
End facts.

(** ** Steps that leave the tables alone *)

Record tables_same m m' T K : Prop := {
  ts_pde : ∀ pd i, (pd, i) ∈ T → tw m' pd i = tw m pd i;
  ts_pte : ∀ pd i f j, (pd, i) ∈ T → own m (OwnPt pd i) = Some f → ix j → tw m' f j = tw m f j;
  ts_kernel : ∀ f j, f ∈ K → ix j → tw m' f j = tw m f j;
}.

Lemma tables_same_refl m T K : tables_same m m T K.
Proof. done. Qed.

Lemma tables_same_own m m' D T K o :
  tables_same m m' T K → o ∈ keys D T → own m' o = own m o.
Proof.
  intros E Ho. rewrite elem_of_keys in Ho. destruct o as [pd|pd i|pd i j]; simpl; [done|..].
  - by rewrite (ts_pde _ _ _ _ E) by done.
  - destruct Ho as [Ht Hj]. rewrite (ts_pde _ _ _ _ E) by done.
    destruct (entry_is_user (tw m pd i)) eqn:Eu; [|done].
    rewrite (ts_pte _ _ _ _ E pd i) by (done || by apply own_pt). done.
Qed.

Lemma tables_same_owners m m' D T K f :
  tables_same m m' T K → owners m' D T f = owners m D T f.
Proof. intros E. apply owners_ext. intros o Ho. by eapply tables_same_own. Qed.

Lemma vm_ok_refs σ σ' D T K ext ext' :
  vm_ok σ D T K ext → inv (vm_pmm σ') →
  (∀ a, managed (vm_pmm σ') a ↔ managed (vm_pmm σ) a) →
  tables_same (vm_mem σ) (vm_mem σ') T K →
  (∀ f, 0 <= ext' f) → (∀ f, is_table (vm_mem σ) D T K f → ext' f = ext f) →
  (∀ f, mframe σ f → rc_rel (pmm_refcount σ' f) (total (vm_mem σ) D T K ext' f)) →
  vm_ok σ' D T K ext'.
Proof.
  intros OK Hinv Hman Hts Hext Htab Hrc.
  assert (∀ f, mframe σ' f ↔ mframe σ f) as Hmf by (intros; unfold mframe; by rewrite Hman).
  assert (∀ f, total (vm_mem σ') D T K ext' f = total (vm_mem σ) D T K ext' f) as Htot
    by (intros; unfold total; by rewrite (tables_same_owners (vm_mem σ) _ D T K)).
  assert (∀ f, is_table (vm_mem σ) D T K f → mframe σ' f ∧ total (vm_mem σ') D T K ext' f = 1) as Ht.
  { intros f Hf. rewrite Hmf, Htot. destruct (table_frame _ _ _ _ _ OK f Hf) as [? Hone].
    split; [done|]. unfold total in *. by rewrite Htab. }
  assert (∀ pd i, (pd, i) ∈ T → own (vm_mem σ') (OwnPt pd i) = own (vm_mem σ) (OwnPt pd i)) as Hpt.
  { intros pd i Hpi. apply (tables_same_own _ _ D T K); [done|]. by rewrite elem_of_keys. }
  assert (∀ pd i j f, (pd, i) ∈ T → ix j → own (vm_mem σ') (OwnPt pd i) = Some f →
    tw (vm_mem σ') f j = tw (vm_mem σ) f j) as Hw.
  { intros pd i j f Hpi Hj E. rewrite Hpt in E by done. by eapply ts_pte. }
  split; try done.
  - intros a Ha. apply (vo_direct _ _ _ _ _ OK). by apply Hman.
  - by destruct OK.
  - by destruct OK.
  - by destruct OK.
  - intros pd Hd. apply Ht. by left.
  - intros f Hf. apply Ht. right. by left.
  - intros f j Hf Hj. rewrite (ts_kernel _ _ _ _ Hts) by done. by apply (vo_Kent _ _ _ _ _ OK).
  - by destruct OK.
  - intros i Hi. rewrite (ts_kernel _ _ _ _ Hts) by (done || apply (vo_kernel _ _ _ _ _ OK)).
    by apply (vo_kpde _ _ _ _ _ OK).
  - intros pd i Hpi. rewrite (ts_pde _ _ _ _ Hts) by done. by apply (vo_kdir _ _ _ _ _ OK).
  - intros pd i f Hpi E. apply Ht. right. right. exists pd, i. by rewrite <-Hpt.
  - intros pd i j f Hpi Hj E. apply Hmf. eapply (vo_page _ _ _ _ _ OK); try done.
    by rewrite <-(tables_same_own _ (vm_mem σ') D T K) by (done || by rewrite elem_of_keys).
  - intros pd i j f Hpi Hj E. rewrite (Hw pd i) by done. rewrite (tables_same_owners (vm_mem σ) _ D T K) by done.
    apply (vo_excl _ _ _ _ _ OK pd i); try done. by rewrite <-Hpt.
  - intros pd i j f Hpi Hj E. rewrite (Hw pd i) by done.
    apply (vo_cow _ _ _ _ _ OK pd i); try done. by rewrite <-Hpt.
  - intros f Hf. rewrite Htot. apply Hrc. by apply Hmf.
Qed.

Lemma vm_ok_ext σ D T K ext ext' : (∀ f, ext' f = ext f) → vm_ok σ D T K ext → vm_ok σ D T K ext'.
Proof.
  intros E OK. apply (vm_ok_refs σ σ D T K ext ext'); try done.
  - by destruct OK.
  - intros f. rewrite E. by destruct OK.
  - intros f Hf. unfold total. rewrite E. by apply (vo_counts _ _ _ _ _ OK).
Qed.

(** Writing pages that are no tables. *)
Lemma set_mem_ok σ m' D T K ext :
  vm_ok σ D T K ext → tables_same (vm_mem σ) m' T K → vm_ok (set_mem m' σ) D T K ext.
Proof.
  intros OK E. apply (vm_ok_refs σ (set_mem m' σ) D T K ext ext); try done; by destruct OK.
Qed.

Lemma same_tables σ m' D T K ext :
  vm_ok σ D T K ext →
  (∀ f, is_table (vm_mem σ) D T K f → page_same (vm_mem σ) m' f) → tables_same (vm_mem σ) m' T K.
Proof.
  intros OK E. split.
  - intros pd i Hpi. destruct (vo_TD _ _ _ _ _ OK pd i Hpi). apply page_same_tw; [|done].
    apply E. by left.
  - intros pd i f j Hpi Eo Hj. apply page_same_tw; [|done]. apply E. right. right. by exists pd, i.
  - intros f j Hf Hj. apply page_same_tw; [|done]. apply E. right. by left.
Qed.

(** ** Taking and dropping references *)

Lemma frame_u32 f : frame f → is_u32 f.
Proof. unfold frame. intros. zsolve. Qed.

Lemma same_page_frames f g : frame f → frame g → same_page f g ↔ f = g.
Proof.
  unfold frame, same_page, PAGE_SIZE. intros [Hf Hf'] [Hg Hg']. split; [|by intros ->].
  intros. Z.div_mod_to_equations. lia.
Qed.

Lemma alloc_ok σ D T K ext a σ' :
  vm_ok σ D T K ext → pmm_alloc_page σ = (a, σ') → a ≠ 0 →
  vm_ok σ' D T K (add_ref ext a) ∧ mframe σ' a ∧ total (vm_mem σ) D T K ext a = 0 ∧
  vm_mem σ' = vm_mem σ ∧ ∀ f, managed (vm_pmm σ') f ↔ managed (vm_pmm σ) f.
Proof.
  intros OK E Ha. unfold pmm_alloc_page in E. destruct (pa_alloc (vm_pmm σ)) as [a' s] eqn:Ea.
  simplify_eq. pose proof (vo_inv _ _ _ _ _ OK) as Hi.
  destruct (pa_alloc_ok _ _ _ Hi Ea Ha) as (Hu & Hal & Hm & Hz & Ho & Hother).
  assert (frame a) as Hf by (split; [split; [apply Hu|by apply (vo_direct _ _ _ _ _ OK)]|exact Hal]).
  assert (∀ f, managed s f ↔ managed (vm_pmm σ) f) as Hman.
  { intros f. pose proof (pa_alloc_managed (vm_pmm σ) f) as Hx. by rewrite Ea in Hx. }
  assert (total (vm_mem σ) D T K ext a = 0) as Ht.
  { destruct (vo_counts _ _ _ _ _ OK a (conj Hf Hm)) as [Hc|Hc]; unfold pmm_refcount in Hc; lia. }
  split; [|split; [split; [done|by apply Hman]|done]].
  apply (vm_ok_refs σ _ D T K ext); try done; simpl.
  - pose proof (pa_alloc_inv (vm_pmm σ) Hi) as Hx. by rewrite Ea in Hx.
  - intros f. unfold add_ref. pose proof (vo_ext _ _ _ _ _ OK f). pose proof (ind_range (a = f)). lia.
  - intros f Htab. unfold add_ref. rewrite ind_false; [lia|]. intros ->.
    destruct (table_frame _ _ _ _ _ OK _ Htab). lia.
  - intros f Hff. unfold pmm_refcount. simpl. unfold total, add_ref in *.
    destruct (decide (a = f)) as [<-|Hne].
    + right. rewrite Ho, ind_true by done. lia.
    + rewrite ind_false by done.
      rewrite Hother; [|apply frame_u32, Hff|by rewrite same_page_frames by (done || apply Hff)].
      replace (_ + (ext f + 0) + _) with (total (vm_mem σ) D T K ext f) by (unfold total; lia).
      by apply (vo_counts _ _ _ _ _ OK).
Qed.

Lemma alloc_fail σ D T K ext σ' : vm_ok σ D T K ext → pmm_alloc_page σ = (0, σ') → σ' = σ.
Proof.
  intros OK E. unfold pmm_alloc_page in E. destruct (pa_alloc (vm_pmm σ)) as [a' s] eqn:Ea. simplify_eq.
  pose proof (pa_alloc_fail (vm_pmm σ) (vo_inv _ _ _ _ _ OK)) as Hx. rewrite Ea in Hx. simpl in Hx.
  rewrite Hx by done. by destruct σ.
Qed.

Lemma decref_ok σ D T K ext f :
  vm_ok σ D T K ext → mframe σ f → 1 <= ext f → vm_ok (pmm_decref σ f) D T K (sub_ref ext f).
Proof.
  intros OK Hf He. pose proof (vo_inv _ _ _ _ _ OK) as Hi. pose proof (frame_u32 f (proj1 Hf)) as Hu.
  apply (vm_ok_refs σ _ D T K ext); try done; simpl.
  - by apply pa_decref_inv.
  - intros a. by apply pa_decref_managed.
  - intros g. unfold sub_ref. pose proof (vo_ext _ _ _ _ _ OK g). unfold ind. case_decide; subst; lia.
  - intros g Htab. unfold sub_ref. rewrite ind_false; [lia|]. intros ->.
    pose proof (table_ext _ _ _ _ _ OK g Htab). lia.
  - intros g Hg. unfold pmm_refcount. simpl. rewrite pa_decref_count by (done || apply frame_u32, Hg).
    pose proof (vo_counts _ _ _ _ _ OK g Hg) as Hc. unfold pmm_refcount, total, sub_ref in *.
    pose proof (owners_nonneg (vm_mem σ) D T g). pose proof (ind_range (g ∈ K)).
    rewrite (decide_ext _ (f = g)) by (apply same_page_frames; [apply Hf|apply Hg]).
    unfold dec_count, rc_rel, ind in *. destruct (decide (f = g)) as [->|]; [|lia].
    destruct (Z.eqb_spec (pa_refcount (vm_pmm σ) g) 255); simpl; [by left|].
    destruct (Z.eqb_spec (pa_refcount (vm_pmm σ) g) 0); simpl; lia.
Qed.

Lemma incref_ok σ D T K ext f :
  vm_ok σ D T K ext → mframe σ f → ¬ is_table (vm_mem σ) D T K f →
  1 <= total (vm_mem σ) D T K ext f → vm_ok (pmm_incref σ f) D T K (add_ref ext f).
Proof.
  intros OK Hf Hnt He. pose proof (vo_inv _ _ _ _ _ OK) as Hi. pose proof (frame_u32 f (proj1 Hf)) as Hu.
  apply (vm_ok_refs σ _ D T K ext); try done; simpl.
  - by apply pa_incref_inv.
  - intros a. by apply pa_incref_managed.
  - intros g. unfold add_ref. pose proof (vo_ext _ _ _ _ _ OK g). pose proof (ind_range (f = g)). lia.
  - intros g Htab. unfold add_ref. rewrite ind_false; [lia|]. by intros ->.
  - intros g Hg. unfold pmm_refcount. simpl.
    rewrite pa_incref_count by (done || apply frame_u32, Hg || apply Hg).
    pose proof (vo_counts _ _ _ _ _ OK g Hg) as Hc. unfold pmm_refcount, total, add_ref in *.
    rewrite (decide_ext _ (f = g)) by (apply same_page_frames; [apply Hf|apply Hg]).
    unfold inc_count, rc_rel, ind in *. destruct (decide (f = g)) as [->|]; [|lia].
    destruct (Z.eqb_spec (pa_refcount (vm_pmm σ) g) 255); simpl; [by left|lia].
Qed.
End inv.
