(* ===== verification/PagingSteps.v ===== *)
(** * Steps on page tables

    The steps of [PagingInv] that change what the tables hold: one page-table
    entry, one directory entry, one directory; and the user's view of memory. *)

From S2P Require Import Prelude Interfaces Memory Paging PagingSpec PagingInv.

Section steps.
Context {S : Type} `{PageAllocator S} (inv : S → Prop) (managed : S → Z → Prop).
Context `{!PageAllocatorLaws S inv managed}.
Implicit Types (σ : vm S) (D : list Z) (T : list (Z * Z)) (K : gset Z) (ext : Z → Z) (m : mem).
Notation vm_ok := (vm_ok inv managed).
Notation mframe := (mframe managed).

(** The references of the tables in terms of what the hardware finds. *)
Lemma walk_own σ D T K ext pd i j :
  vm_ok σ D T K ext → (pd, i) ∈ T → ix j →
  own (vm_mem σ) (OwnPage pd i j) =
    walk (vm_mem σ) pd i j ≫= λ e, if holds_page e then Some (paging_entry_addr e) else None.
Proof.
  intros OK Ht Hj. simpl. unfold walk. rewrite entry_is_user_eq.
  destruct (present (tw (vm_mem σ) pd i)) eqn:Hp; simpl; [|done].
  set (e := tw (vm_mem σ) (paging_entry_addr (tw (vm_mem σ) pd i)) j).
  assert (holds_page e = true → present e = true) as Hhp.
  { unfold holds_page. rewrite entry_is_user_eq. by destruct (present e). }
  destruct (user (tw (vm_mem σ) pd i)) eqn:Hu.
  - destruct (present e) eqn:He; simpl; [done|]. destruct (holds_page e) eqn:Eh; [|done]. specialize (Hhp eq_refl). congruence.
  - destruct (present e) eqn:He; simpl; [|done].
    pose proof (vo_kdir _ _ _ _ _ _ _ OK pd i Ht Hp Hu) as Hk.
    destruct (vo_Kent _ _ _ _ _ _ _ OK _ j Hk Hj He) as [Hue _].
    unfold holds_page. fold e in Hue. by rewrite entry_is_user_eq, Hue, andb_false_r.
Qed.

Lemma own_bound σ D T K ext pd i f :
  vm_ok σ D T K ext → (pd, i) ∈ T → own (vm_mem σ) (OwnPt pd i) = Some f → frame f.
Proof. intros OK Ht E. by destruct (vo_pt _ _ _ _ _ _ _ OK pd i f Ht E) as [[? _] _]. Qed.

(** ** One page-table entry *)

Section entry.
Context σ D T K ext (OK : vm_ok σ D T K ext) (pd i pt j e' : Z).
Context (Ht : (pd, i) ∈ T) (Hj : ix j) (Hpt : own (vm_mem σ) (OwnPt pd i) = Some pt) (He : is_u32 e').
Notation m := (vm_mem σ).
Notation m' := (tbl_set (vm_mem σ) (kv pt) j e').
Notation old := (own m (OwnPage pd i j)).
Notation new := (if holds_page e' then Some (paging_entry_addr e') else None).

Lemma entry_frame : frame pt.
Proof. by eapply own_bound. Qed.

Lemma entry_dir pd' k : pd' ∈ D → ix k → tw m' pd' k = tw m pd' k.
Proof.
  intros Hd Hk. pose proof entry_frame. destruct (vo_pd _ _ _ _ _ _ _ OK pd' Hd) as [[? _] _].
  apply tw_set_ne; try done. intros [= -> _].
  by apply (pt_not_pd _ _ _ _ _ _ _ OK pd i pd' Ht Hpt).
Qed.

Lemma entry_kernel f k : f ∈ K → ix k → tw m' f k = tw m f k.
Proof.
  intros Hf Hk. pose proof entry_frame. destruct (vo_K _ _ _ _ _ _ _ OK f Hf) as [[? _] _].
  apply tw_set_ne; try done. intros [= -> _].
  by apply (pt_not_K _ _ _ _ _ _ _ OK pd i f Ht Hpt).
Qed.

Lemma entry_own_pt pd' i' : (pd', i') ∈ T → own m' (OwnPt pd' i') = own m (OwnPt pd' i').
Proof.
  intros Ht'. destruct (vo_TD _ _ _ _ _ _ _ OK _ _ Ht'). simpl. by rewrite entry_dir.
Qed.

Lemma entry_word pd' i' f k :
  (pd', i') ∈ T → ix k → own m (OwnPt pd' i') = Some f →
  (pd', i', k) ≠ (pd, i, j) → tw m' f k = tw m f k.
Proof.
  intros Ht' Hk E Hne. pose proof entry_frame. pose proof (own_bound _ _ _ _ _ _ _ _ OK Ht' E).
  apply tw_set_ne; try done. intros [= <- <-].
  destruct (pt_inj _ _ _ _ _ _ _ OK pd i pd' i' pt) as [<- <-]; done.
Qed.

Lemma entry_own_new : own m' (OwnPage pd i j) = new.
Proof.
  rewrite (own_page_at _ pd i j pt) by (by rewrite entry_own_pt).
  by rewrite tw_set_eq by (done || apply entry_frame).
Qed.

Lemma entry_own_other o : o ∈ keys D T → o ≠ OwnPage pd i j → own m' o = own m o.
Proof.
  rewrite elem_of_keys. destruct o as [pd'|pd' i'|pd' i' k]; intros Ho Hne; [done|by apply entry_own_pt|].
  destruct Ho as [Ht' Hk].
  destruct (own m (OwnPt pd' i')) as [f|] eqn:E.
  - rewrite !(own_page_at _ pd' i' k f) by (done || by rewrite entry_own_pt).
    rewrite (entry_word pd' i') by (done || congruence). done.
  - destruct (own m (OwnPage pd' i' k)) eqn:E1;
      [apply own_page in E1 as (? & ? & _); congruence|].
    destruct (own m' (OwnPage pd' i' k)) eqn:E2; [|done].
    apply own_page in E2 as (? & E2 & _). rewrite entry_own_pt in E2 by done. congruence.
Qed.

Lemma entry_owners f : owners m' D T f = owners m D T f - ind (old = Some f) + ind (new = Some f).
Proof.
  rewrite <-entry_own_new. apply owners_update; [by destruct OK|by destruct OK| |exact entry_own_other].
  by rewrite elem_of_keys.
Qed.

Lemma entry_walk pd' i' k :
  (pd', i') ∈ T → ix k →
  walk m' pd' i' k = if decide ((pd', i', k) = (pd, i, j)) then (if present e' then Some e' else None)
                     else walk m pd' i' k.
Proof.
  intros Ht' Hk. destruct (vo_TD _ _ _ _ _ _ _ OK _ _ Ht') as [Hd' ?]. unfold walk.
  rewrite entry_dir by done. case_decide as Hc.
  - injection Hc as -> -> ->. apply own_pt in Hpt as Hp. destruct Hp as [Hu Ep].
    rewrite entry_is_user_eq in Hu. apply andb_true_iff in Hu as [-> _]. rewrite <-Ep.
    by rewrite tw_set_eq by (done || apply entry_frame).
  - destruct (present (tw m pd' i')) eqn:Hp; [|done].
    destruct (user (tw m pd' i')) eqn:Hus.
    + rewrite (entry_word pd' i' _ k Ht' Hk); [done| |done]. apply own_pt.
      by rewrite entry_is_user_eq, Hp, Hus.
    + rewrite entry_kernel by (done || by apply (vo_kdir _ _ _ _ _ _ _ OK)). done.
Qed.

Lemma set_entry_ok ext' :
  (∀ f, new = Some f → mframe σ f ∧ ¬ is_table m D T K f ∧
     (owners m D T f = ind (old = Some f) ∨ old = Some f ∧ private_writable e' = false)) →
  (present e' = true → cow e' = true → holds_page e' = true ∧ shared e' = false) →
  (∀ f, 0 <= ext' f ∧ ext' f = ext f + ind (old = Some f) - ind (new = Some f)) →
  vm_ok (set_mem m' σ) D T K ext'.
Proof.
  intros Hnew Hcow Hext.
  assert (∀ f, total m' D T K ext' f = total m D T K ext f) as Htot.
  { intros f. unfold total. rewrite entry_owners. destruct (Hext f) as [_ ->]. lia. }
  split; simpl.
  - by destruct OK.
  - by destruct OK.
  - intros f. apply Hext.
  - by destruct OK.
  - by destruct OK.
  - by destruct OK.
  - intros pd' Hd. rewrite Htot. by apply (vo_pd _ _ _ _ _ _ _ OK).
  - intros f Hf. rewrite Htot. by apply (vo_K _ _ _ _ _ _ _ OK).
  - intros f k Hf Hk. rewrite entry_kernel by done. by apply (vo_Kent _ _ _ _ _ _ _ OK).
  - by destruct OK.
  - intros k Hk. rewrite entry_kernel by (done || apply (vo_kernel _ _ _ _ _ _ _ OK)).
    by apply (vo_kpde _ _ _ _ _ _ _ OK).
  - intros pd' i' Ht'. destruct (vo_TD _ _ _ _ _ _ _ OK _ _ Ht'). rewrite entry_dir by done.
    by apply (vo_kdir _ _ _ _ _ _ _ OK).
  - intros pd' i' f Ht' E. rewrite Htot. change (own m' (OwnPt pd' i') = Some f) in E.
    rewrite entry_own_pt in E by done. by apply (vo_pt _ _ _ _ _ _ _ OK pd' i').
  - intros pd' i' k f Ht' Hk E. change (own m' (OwnPage pd' i' k) = Some f) in E.
    destruct (decide (OwnPage pd' i' k = OwnPage pd i j)) as [[= -> -> ->]|Hne].
    + rewrite entry_own_new in E. by apply Hnew.
    + rewrite entry_own_other in E by (done || by rewrite elem_of_keys).
      by apply (vo_page _ _ _ _ _ _ _ OK pd' i' k).
  - intros pd' i' k f Ht' Hk E Hp. change (own m' (OwnPt pd' i') = Some f) in E.
    rewrite entry_own_pt in E by done.
    destruct (decide ((pd', i', k) = (pd, i, j))) as [[= -> -> ->]|Hne].
    + assert (f = pt) as -> by congruence.
      rewrite tw_set_eq in Hp |- * by (done || apply entry_frame).
      pose proof (private_writable_holds _ Hp) as Hh. rewrite entry_owners. rewrite Hh in *.
      destruct (Hnew _ eq_refl) as (_ & _ & [Ho|[_ Hc]]); [|congruence].
      rewrite Ho, (ind_true (Some _ = Some _)) by done. lia.
    + rewrite (entry_word pd' i') in Hp |- * by done.
      pose proof (vo_excl _ _ _ _ _ _ _ OK pd' i' k f Ht' Hk E Hp) as H1.
      assert (own m (OwnPage pd' i' k) = Some (paging_entry_addr (tw m f k))) as Ek.
      { rewrite (own_page_at _ _ _ _ f) by done. by rewrite (private_writable_holds _ Hp). }
      assert (old ≠ Some (paging_entry_addr (tw m f k))) as Hold.
      { intros Eo. assert (OwnPage pd' i' k = OwnPage pd i j) as [=]; [|by subst].
        eapply (owners_unique m D T); rewrite ?elem_of_keys; try done. lia. }
      rewrite entry_owners, H1, ind_false by done.
      destruct (decide (new = Some (paging_entry_addr (tw m f k)))) as [En|En]; [|rewrite ind_false by done; lia].
      destruct (Hnew _ En) as (_ & _ & [Ho|[? _]]); [|done]. rewrite ind_false in Ho by done. lia.
  - intros pd' i' k f Ht' Hk E. change (own m' (OwnPt pd' i') = Some f) in E.
    rewrite entry_own_pt in E by done.
    destruct (decide ((pd', i', k) = (pd, i, j))) as [[= -> -> ->]|Hne].
    + assert (f = pt) as -> by congruence. by rewrite tw_set_eq by (done || apply entry_frame).
    + rewrite (entry_word pd' i') by done. by apply (vo_cow _ _ _ _ _ _ _ OK pd' i').
  - intros f Hf. rewrite Htot. by apply (vo_counts _ _ _ _ _ _ _ OK).
Qed.
End entry.

(** ** One directory entry: install a table without user entries *)

Section install.
Context σ D T K ext (OK : vm_ok σ D T K ext) (pd i pt e' : Z).
Context (Ht : (pd, i) ∈ T) (Hold : entry_is_user (tw (vm_mem σ) pd i) = false) (He : is_u32 e').
Context (Hu : entry_is_user e' = true) (Hpt : paging_entry_addr e' = pt).
Context (Hf : mframe σ pt) (Hext : 1 <= ext pt) (Htot : total (vm_mem σ) D T K ext pt = 1).
Context (Hempty : ∀ j, ix j → entry_is_user (tw (vm_mem σ) pt j) = false).
Context (Hcow : ∀ j, ix j → present (tw (vm_mem σ) pt j) = true → cow (tw (vm_mem σ) pt j) = false).
Notation m := (vm_mem σ).
Notation m' := (tbl_set (vm_mem σ) (kv pd) i e').

Lemma install_pd : pd ∈ D ∧ ix i ∧ frame pd.
Proof.
  destruct (vo_TD _ _ _ _ _ _ _ OK _ _ Ht) as [Hd ?].
  by destruct (vo_pd _ _ _ _ _ _ _ OK pd Hd) as [[? _] _].
Qed.

Lemma install_pt_fresh : ¬ is_table m D T K pt.
Proof. intros Hx. pose proof (table_ext _ _ _ _ _ _ _ OK pt Hx). lia. Qed.

Lemma install_word f k : frame f → f ≠ pd → ix k → tw m' f k = tw m f k.
Proof. intros. destruct install_pd as (_ & ? & ?). apply tw_set_ne; try done. by intros [= -> _]. Qed.

Lemma install_dir pd' k : (pd', k) ∈ T → (pd', k) ≠ (pd, i) → tw m' pd' k = tw m pd' k.
Proof.
  intros Ht' Hne. destruct install_pd as (? & ? & ?).
  destruct (vo_TD _ _ _ _ _ _ _ OK _ _ Ht') as [Hd' ?].
  destruct (vo_pd _ _ _ _ _ _ _ OK pd' Hd') as [[? _] _]. by apply tw_set_ne; congruence || done.
Qed.

Lemma install_kernel f k : f ∈ K → ix k → tw m' f k = tw m f k.
Proof.
  intros Hk ?. apply install_word; [by destruct (vo_K _ _ _ _ _ _ _ OK f Hk) as [[? _] _]| |done].
  intros ->. destruct install_pd as (Hd & _). by apply (pd_not_K _ _ _ _ _ _ _ OK pd Hd).
Qed.

Lemma install_pt_word pd' i' f k :
  (pd', i') ∈ T → own m (OwnPt pd' i') = Some f → ix k → tw m' f k = tw m f k.
Proof.
  intros Ht' E ?. apply install_word; [by eapply own_bound| |done]. intros ->.
  destruct install_pd as (Hd & _). by apply (pt_not_pd _ _ _ _ _ _ _ OK pd' i' pd Ht' E).
Qed.

Lemma install_own_pt pd' i' :
  (pd', i') ∈ T → own m' (OwnPt pd' i') = if decide ((pd', i') = (pd, i)) then Some pt else own m (OwnPt pd' i').
Proof.
  intros Ht'. simpl. case_decide as Hc.
  - injection Hc as -> ->. destruct install_pd as (_ & ? & ?). rewrite tw_set_eq by done. by rewrite Hu, Hpt.
  - by rewrite install_dir.
Qed.

Lemma install_pt_ne_pd : pt ≠ pd.
Proof. intros E. apply install_pt_fresh. left. rewrite E. apply install_pd. Qed.

Lemma install_new_word k : ix k → tw m' pt k = tw m pt k.
Proof. intros. apply install_word; [apply Hf|apply install_pt_ne_pd|done]. Qed.

Lemma install_own_none : own m (OwnPt pd i) = None.
Proof. simpl. by rewrite Hold. Qed.

Lemma install_own_page pd' i' k :
  (pd', i') ∈ T → ix k → own m' (OwnPage pd' i' k) = own m (OwnPage pd' i' k).
Proof.
  intros Ht' Hk. pose proof (install_own_pt pd' i' Ht') as E. case_decide as Hc.
  - injection Hc as -> ->. rewrite (own_page_at _ _ _ _ pt), install_new_word by done.
    unfold holds_page. rewrite Hempty by done. simpl. by rewrite Hold.
  - destruct (own m (OwnPt pd' i')) as [f|] eqn:Ef.
    + rewrite !(own_page_at _ _ _ _ f) by done. by rewrite (install_pt_word pd' i').
    + destruct (own m (OwnPage pd' i' k)) eqn:E1; [apply own_page in E1 as (? & ? & _); congruence|].
      destruct (own m' (OwnPage pd' i' k)) eqn:E2; [|done]. apply own_page in E2 as (? & ? & _). congruence.
Qed.

Lemma install_owners f : owners m' D T f = owners m D T f + ind (pt = f).
Proof.
  rewrite (owners_update m m' D T f (OwnPt pd i)); [|by destruct OK|by destruct OK|by rewrite elem_of_keys|].
  - rewrite install_own_none, install_own_pt, decide_True by done. rewrite ind_false by done.
    rewrite (ind_ext (Some pt = Some f) (pt = f)) by (split; congruence). lia.
  - intros o Ho Hne. rewrite elem_of_keys in Ho. destruct o as [|pd' i'|pd' i' k]; [done| |].
    + rewrite install_own_pt by done. case_decide; [congruence|done].
    + destruct Ho. by apply install_own_page.
Qed.

Lemma install_walk pd' i' k :
  (∀ k, ix k → walk m pd i k = if present (tw m pt k) then Some (tw m pt k) else None) →
  (pd', i') ∈ T → ix k → walk m' pd' i' k = walk m pd' i' k.
Proof.
  intros Hw Ht' Hk. destruct (decide ((pd', i') = (pd, i))) as [[= -> ->]|Hne].
  - rewrite Hw by done. unfold walk. destruct install_pd as (_ & ? & ?). rewrite tw_set_eq by done.
    pose proof Hu as Hp. rewrite entry_is_user_eq in Hp. apply andb_true_iff in Hp as [-> _].
    by rewrite Hpt, install_new_word.
  - unfold walk. rewrite install_dir by done.
    destruct (present (tw m pd' i')) eqn:Hp; [|done].
    destruct (user (tw m pd' i')) eqn:Hus.
    + rewrite (install_pt_word pd' i' _ k Ht'); [done| |done]. apply own_pt.
      by rewrite entry_is_user_eq, Hp, Hus.
    + rewrite install_kernel by (done || by apply (vo_kdir _ _ _ _ _ _ _ OK)). done.
Qed.

Lemma install_table_ok : vm_ok (set_mem m' σ) D T K (sub_ref ext pt).
Proof.
  assert (∀ f, total m' D T K (sub_ref ext pt) f = total m D T K ext f) as Htt.
  { intros f. unfold total, sub_ref. rewrite install_owners. lia. }
  split; simpl; try by destruct OK.
  - intros f. unfold sub_ref, ind. pose proof (vo_ext _ _ _ _ _ _ _ OK f). case_decide; subst; lia.
  - intros pd' Hd. rewrite Htt. by apply (vo_pd _ _ _ _ _ _ _ OK).
  - intros f Hk. rewrite Htt. by apply (vo_K _ _ _ _ _ _ _ OK).
  - intros f k Hk ?. rewrite install_kernel by done. by apply (vo_Kent _ _ _ _ _ _ _ OK).
  - intros k ?. rewrite install_kernel by (done || apply (vo_kernel _ _ _ _ _ _ _ OK)).
    by apply (vo_kpde _ _ _ _ _ _ _ OK).
  - intros pd' i' Ht'. destruct (decide ((pd', i') = (pd, i))) as [[= -> ->]|Hne].
    + destruct install_pd as (_ & ? & ?). rewrite tw_set_eq by done. intros _ Hx.
      rewrite entry_is_user_eq, Hx, andb_false_r in Hu. done.
    + rewrite install_dir by done. by apply (vo_kdir _ _ _ _ _ _ _ OK).
  - intros pd' i' f Ht' E. rewrite Htt. change (own m' (OwnPt pd' i') = Some f) in E.
    rewrite install_own_pt in E by done. case_decide; [by injection E as <-|].
    by apply (vo_pt _ _ _ _ _ _ _ OK pd' i').
  - intros pd' i' k f Ht' Hk E. change (own m' (OwnPage pd' i' k) = Some f) in E.
    rewrite install_own_page in E by done. by apply (vo_page _ _ _ _ _ _ _ OK pd' i' k).
  - intros pd' i' k f Ht' Hk E Hp. change (own m' (OwnPt pd' i') = Some f) in E.
    rewrite install_own_pt in E by done. case_decide.
    + injection E as <-. rewrite install_new_word in Hp by done.
      apply private_writable_holds in Hp. unfold holds_page in Hp. by rewrite Hempty in Hp.
    + rewrite (install_pt_word pd' i') in Hp |- * by done.
      rewrite install_owners, (vo_excl _ _ _ _ _ _ _ OK pd' i') by done.
      rewrite ind_false; [lia|]. intros Ep.
      assert (1 <= owners m D T pt) as H1.
      { apply (owners_pos _ _ _ _ (OwnPage pd' i' k)); [by rewrite elem_of_keys|].
        rewrite (own_page_at _ _ _ _ f) by done. by rewrite (private_writable_holds _ Hp), Ep. }
      unfold total in Htot. pose proof (ind_range (pt ∈ K)). lia.
  - intros pd' i' k f Ht' Hk E. change (own m' (OwnPt pd' i') = Some f) in E.
    rewrite install_own_pt in E by done. case_decide.
    + injection E as <-. rewrite install_new_word by done. intros Hp Hc. rewrite Hcow in Hc by done. done.
    + rewrite (install_pt_word pd' i') by done. by apply (vo_cow _ _ _ _ _ _ _ OK pd' i').
  - intros f Hff. rewrite Htt. by apply (vo_counts _ _ _ _ _ _ _ OK).
Qed.
End install.

(** ** Directories and tables coming and going *)

Lemma vm_ok_perm σ D D' T T' K ext : D ≡ₚ D' → T ≡ₚ T' → vm_ok σ D T K ext → vm_ok σ D' T' K ext.
Proof.
  intros HD HT OK.
  assert (∀ f, owners (vm_mem σ) D' T' f = owners (vm_mem σ) D T f) as Ho by (intros; by apply owners_perm).
  assert (∀ t, t ∈ T' ↔ t ∈ T) as HT' by (intros; by rewrite HT).
  assert (∀ f, total (vm_mem σ) D' T' K ext f = total (vm_mem σ) D T K ext f) as Htt
    by (intros; unfold total; by rewrite Ho).
  destruct OK. split; try done; try (intros *; setoid_rewrite HT'; try setoid_rewrite Htt; by eauto).
  - by rewrite <-HD.
  - by rewrite <-HT.
  - intros pd i. rewrite HT', <-HD. eauto.
  - intros pd. rewrite Htt, <-HD. eauto.
  - intros f. rewrite Htt. eauto.
  - intros pd i j f. rewrite HT', Ho. eauto.
  - intros f. rewrite Htt. eauto.
Qed.

Lemma add_pd_ok σ D T K ext pd :
  vm_ok σ D T K ext → mframe σ pd → 1 <= ext pd → total (vm_mem σ) D T K ext pd = 1 →
  vm_ok σ (pd :: D) T K (sub_ref ext pd).
Proof.
  intros OK Hf Hx Ht.
  assert (∀ f, total (vm_mem σ) (pd :: D) T K (sub_ref ext pd) f = total (vm_mem σ) D T K ext f) as Htt.
  { intros f. unfold total, sub_ref. rewrite owners_cons_pd. lia. }
  assert (owners (vm_mem σ) D T pd = 0) as Ho.
  { unfold total in Ht. pose proof (ind_range (pd ∈ K)). pose proof (owners_nonneg (vm_mem σ) D T pd). lia. }
  split; try by destruct OK.
  - intros f. unfold sub_ref, ind. pose proof (vo_ext _ _ _ _ _ _ _ OK f). case_decide; subst; lia.
  - apply NoDup_cons. split; [|by destruct OK]. intros Hd.
    pose proof (owners_pos (vm_mem σ) D T pd (OwnPd pd)) as Hp. rewrite elem_of_keys in Hp.
    specialize (Hp Hd eq_refl). lia.
  - intros pd' i Hpi. destruct (vo_TD _ _ _ _ _ _ _ OK _ _ Hpi). split; [by right|done].
  - intros pd' [->|Hd]%elem_of_cons; rewrite Htt; [done|by apply (vo_pd _ _ _ _ _ _ _ OK)].
  - intros f Hk. rewrite Htt. by apply (vo_K _ _ _ _ _ _ _ OK).
  - intros pd' i f. rewrite Htt. apply (vo_pt _ _ _ _ _ _ _ OK).
  - intros pd' i j f Hpi Hj E Hp. rewrite owners_cons_pd, (vo_excl _ _ _ _ _ _ _ OK pd' i) by done.
    rewrite ind_false; [lia|]. intros Ep.
    enough (1 <= owners (vm_mem σ) D T pd) by lia.
    apply (owners_pos _ _ _ _ (OwnPage pd' i j)); [by rewrite elem_of_keys|].
    rewrite (own_page_at _ _ _ _ f) by done. by rewrite (private_writable_holds _ Hp), Ep.
  - intros f Hff. rewrite Htt. by apply (vo_counts _ _ _ _ _ _ _ OK).
Qed.

Lemma drop_pd_ok σ D T K ext pd :
  vm_ok σ (pd :: D) T K ext → (∀ i, (pd, i) ∉ T) → vm_ok σ D T K (add_ref ext pd).
Proof.
  intros OK Hn.
  assert (∀ f, total (vm_mem σ) D T K (add_ref ext pd) f = total (vm_mem σ) (pd :: D) T K ext f) as Htt.
  { intros f. unfold total, add_ref. rewrite owners_cons_pd. lia. }
  split; try by destruct OK.
  - intros f. unfold add_ref. pose proof (vo_ext _ _ _ _ _ _ _ OK f). pose proof (ind_range (pd = f)). lia.
  - pose proof (vo_D _ _ _ _ _ _ _ OK) as HD. by apply NoDup_cons in HD as [_ ?].
  - intros pd' i Hpi. destruct (vo_TD _ _ _ _ _ _ _ OK _ _ Hpi) as [[->|?]%elem_of_cons ?]; [|done].
    by destruct (Hn i).
  - intros pd' Hd. rewrite Htt. apply (vo_pd _ _ _ _ _ _ _ OK). by right.
  - intros f Hk. rewrite Htt. by apply (vo_K _ _ _ _ _ _ _ OK).
  - intros pd' i f. rewrite Htt. apply (vo_pt _ _ _ _ _ _ _ OK).
  - intros pd' i j f Hpi Hj E Hp. pose proof (vo_excl _ _ _ _ _ _ _ OK pd' i j f Hpi Hj E Hp) as H1.
    rewrite owners_cons_pd in H1. unfold ind in H1. case_decide as Ep; [|lia]. exfalso.
    apply (page_not_table _ _ _ _ _ _ _ OK pd' i j pd Hpi Hj); [|left; by left].
    rewrite (own_page_at _ _ _ _ f) by done. by rewrite (private_writable_holds _ Hp), Ep.
  - intros f Hff. rewrite Htt. by apply (vo_counts _ _ _ _ _ _ _ OK).
Qed.

Lemma drop_table_ok σ D T K ext pd i :
  vm_ok σ D ((pd, i) :: T) K ext →
  (∀ j, ix j → own (vm_mem σ) (OwnPage pd i j) = None) →
  vm_ok σ D T K (λ f, ext f + ind (own (vm_mem σ) (OwnPt pd i) = Some f)).
Proof.
  intros OK Hn.
  assert (∀ f, owners (vm_mem σ) D ((pd, i) :: T) f =
    ind (own (vm_mem σ) (OwnPt pd i) = Some f) + owners (vm_mem σ) D T f) as Ho.
  { intros f. rewrite owners_cons_table. unfold table_keys. rewrite countp_cons, countp_zero.
    - cbn [fst snd]. lia.
    - intros o (j & Hj & ->)%elem_of_page_keys. by rewrite Hn. }
  assert (∀ f, total (vm_mem σ) D T K (λ f, ext f + ind (own (vm_mem σ) (OwnPt pd i) = Some f)) f =
    total (vm_mem σ) D ((pd, i) :: T) K ext f) as Htt.
  { intros f. unfold total. rewrite Ho. lia. }
  assert (∀ t, t ∈ T → t ∈ (pd, i) :: T) as Hin by (intros; by right).
  split; try by destruct OK.
  - intros f. pose proof (vo_ext _ _ _ _ _ _ _ OK f).
    pose proof (ind_range (own (vm_mem σ) (OwnPt pd i) = Some f)). lia.
  - pose proof (vo_T _ _ _ _ _ _ _ OK) as HT. by apply NoDup_cons in HT as [_ ?].
  - intros pd' i' Hpi. apply (vo_TD _ _ _ _ _ _ _ OK). auto.
  - intros pd' Hd. rewrite Htt. by apply (vo_pd _ _ _ _ _ _ _ OK).
  - intros f Hk. rewrite Htt. by apply (vo_K _ _ _ _ _ _ _ OK).
  - intros pd' i' Hpi. apply (vo_kdir _ _ _ _ _ _ _ OK). auto.
  - intros pd' i' f Hpi. rewrite Htt. apply (vo_pt _ _ _ _ _ _ _ OK). auto.
  - intros pd' i' j f Hpi. apply (vo_page _ _ _ _ _ _ _ OK). auto.
  - intros pd' i' j f Hpi Hj E Hp.
    pose proof (vo_excl _ _ _ _ _ _ _ OK pd' i' j f (Hin _ Hpi) Hj E Hp) as H1.
    rewrite Ho in H1. unfold ind in H1. case_decide as Ep; [|lia]. exfalso.
    apply (page_not_table _ _ _ _ _ _ _ OK pd' i' j (paging_entry_addr (tw (vm_mem σ) f j)) (Hin _ Hpi) Hj);
      [rewrite (own_page_at _ _ _ _ f) by done; by rewrite (private_writable_holds _ Hp)|].
    right. right. exists pd, i. split; [by left|done].
  - intros pd' i' j f Hpi. apply (vo_cow _ _ _ _ _ _ _ OK). auto.
  - intros f Hff. rewrite Htt. by apply (vo_counts _ _ _ _ _ _ _ OK).
Qed.

(** A page mapped somewhere by an entry nobody may write through. *)
Definition mapped_readonly m T (f : Z) : Prop :=
  ∃ pd i j pt, (pd, i) ∈ T ∧ ix j ∧ own m (OwnPt pd i) = Some pt ∧
    own m (OwnPage pd i j) = Some f ∧ private_writable (tw m pt j) = false.

Definition table_refs m (t : Z * Z) (f : Z) : Z := countp (λ o, own m o = Some f) (table_keys t).

Lemma add_table_ok σ D T K ext pd i :
  vm_ok σ D T K ext → pd ∈ D → ix i → (pd, i) ∉ T →
  (present (tw (vm_mem σ) pd i) = true → user (tw (vm_mem σ) pd i) = false →
     paging_entry_addr (tw (vm_mem σ) pd i) ∈ K) →
  (∀ f, own (vm_mem σ) (OwnPt pd i) = Some f → mframe σ f ∧ total (vm_mem σ) D T K ext f = 1) →
  (∀ pt j f, own (vm_mem σ) (OwnPt pd i) = Some pt → ix j → own (vm_mem σ) (OwnPage pd i j) = Some f →
     mframe σ f ∧ private_writable (tw (vm_mem σ) pt j) = false ∧ mapped_readonly (vm_mem σ) T f) →
  (∀ pt j, own (vm_mem σ) (OwnPt pd i) = Some pt → ix j → present (tw (vm_mem σ) pt j) = true →
     cow (tw (vm_mem σ) pt j) = true →
     holds_page (tw (vm_mem σ) pt j) = true ∧ shared (tw (vm_mem σ) pt j) = false) →
  (∀ f, table_refs (vm_mem σ) (pd, i) f <= ext f) →
  vm_ok σ D ((pd, i) :: T) K (λ f, ext f - table_refs (vm_mem σ) (pd, i) f).
Proof.
  intros OK Hd Hi Hn Hk Hpt Hpg Hc Hx.
  assert (∀ f, total (vm_mem σ) D ((pd, i) :: T) K (λ f, ext f - table_refs (vm_mem σ) (pd, i) f) f =
    total (vm_mem σ) D T K ext f) as Htt.
  { intros f. unfold total. rewrite owners_cons_table. unfold table_refs. lia. }
  assert (∀ pd' i', (pd', i') ∈ (pd, i) :: T → (pd', i') = (pd, i) ∨ (pd', i') ∈ T) as Hin
    by (intros *; by rewrite elem_of_cons).
  split; try by destruct OK.
  - intros f. specialize (Hx f). lia.
  - apply NoDup_cons. split; [done|by destruct OK].
  - intros pd' i' [[= -> ->]|Ht]%Hin; [done|by apply (vo_TD _ _ _ _ _ _ _ OK)].
  - intros pd' Hd'. rewrite Htt. by apply (vo_pd _ _ _ _ _ _ _ OK).
  - intros f Hf. rewrite Htt. by apply (vo_K _ _ _ _ _ _ _ OK).
  - intros pd' i' [[= -> ->]|Ht]%Hin; [done|by apply (vo_kdir _ _ _ _ _ _ _ OK)].
  - intros pd' i' f [[= -> ->]|Ht]%Hin; rewrite Htt; [auto|by apply (vo_pt _ _ _ _ _ _ _ OK)].
  - intros pd' i' j f [[= -> ->]|Ht]%Hin Hj E; [|by apply (vo_page _ _ _ _ _ _ _ OK pd' i' j)].
    destruct (proj1 (own_page _ _ _ _ _) E) as (pt & Ep & _). by apply (Hpg pt j).
  - intros pd' i' j f [[= -> ->]|Ht]%Hin Hj E Hp.
    { exfalso. destruct (Hpg f j (paging_entry_addr (tw (vm_mem σ) f j)) E Hj) as (_ & Hx' & _);
        [|congruence]. rewrite (own_page_at _ _ _ _ f) by done. by rewrite (private_writable_holds _ Hp). }
    set (g := paging_entry_addr (tw (vm_mem σ) f j)).
    pose proof (vo_excl _ _ _ _ _ _ _ OK pd' i' j f Ht Hj E Hp) as H1. fold g in H1.
    assert (own (vm_mem σ) (OwnPage pd' i' j) = Some g) as Eg.
    { rewrite (own_page_at _ _ _ _ f) by done. by rewrite (private_writable_holds _ Hp). }
    rewrite owners_cons_table, H1. rewrite countp_zero; [done|]. intros o Ho Eo.
    assert (1 <= table_refs (vm_mem σ) (pd, i) g) as Hg
      by (by apply (countp_pos (λ o, own (vm_mem σ) o = Some g) o)).
    unfold table_keys in Ho. apply elem_of_cons in Ho as [->|(k & Hk' & ->)%elem_of_page_keys].
    + destruct (Hpt g Eo) as [_ Ht1]. unfold total in Ht1. specialize (Hx g).
      pose proof (ind_range (g ∈ K)). lia.
    + destruct (proj1 (own_page _ _ _ _ _) Eo) as (pt & Ep & _).
      destruct (Hpg pt k g Ep Hk' Eo) as (_ & _ & pd2 & i2 & j2 & pt2 & Ht2 & Hj2 & Ep2 & Eg2 & Hnp).
      assert (OwnPage pd' i' j = OwnPage pd2 i2 j2) as [= <- <- <-].
      { eapply (owners_unique (vm_mem σ) D T g); rewrite ?elem_of_keys; try done. lia. }
      congruence.
  - intros pd' i' j f [[= -> ->]|Ht]%Hin Hj E; [by apply Hc|by apply (vo_cow _ _ _ _ _ _ _ OK pd' i')].
  - intros f Hff. rewrite Htt. by apply (vo_counts _ _ _ _ _ _ _ OK).
Qed.
End steps.
