(* ===== verification/PagingOps.v ===== *)
(** * Mapping, unmapping and protecting one page *)

From S2P Require Import Prelude Interfaces Memory Paging PagingSpec PagingInv PagingSteps.

Lemma addr_frame f : frame f → paging_entry_addr f = f.
Proof. intros Hf. rewrite entry_addr_eq by by apply frame_u32. destruct Hf. lia. Qed.

Lemma index_ranges virt : is_u32 virt → ix (pd_index virt) ∧ ix (pt_index virt).
Proof.
  intros Hv. unfold ix, pd_index, pt_index. rewrite !Z.shiftr_div_pow2 by lia.
  change 0x3FF with (Z.ones 10). rewrite Z.land_ones by lia.
  change (2 ^ 22) with 4194304. change (2 ^ 10) with 1024.
  split; [zsolve|]. apply Z.mod_pos_bound. lia.
Qed.

Lemma holds_present e : holds_page e = true → present e = true ∧ user e = true ∧ io e = false.
Proof. unfold holds_page. rewrite entry_is_user_eq. by destruct (present e), (user e), (io e). Qed.

Section ops.
Context {S : Type} `{PageAllocator S} (inv : S → Prop) (managed : S → Z → Prop).
Context `{!PageAllocatorLaws S inv managed}.
Implicit Types (σ : vm S) (D : list Z) (T : list (Z * Z)) (K : gset Z) (ext : Z → Z) (m : mem).
Notation vm_ok := (vm_ok inv managed).
Notation mframe := (mframe managed).

(** Pages in use that are not tables keep their bytes. *)
Definition data_same m m' D T K ext : Prop :=
  ∀ f, frame f → ¬ is_table m D T K f → 1 <= total m D T K ext f → page_same m m' f.

Definition walks_same m m' T : Prop :=
  ∀ pd i k, (pd, i) ∈ T → ix k → walk m' pd i k = walk m pd i k.

Definition same_managed σ σ' : Prop := ∀ a, managed (vm_pmm σ') a ↔ managed (vm_pmm σ) a.

Lemma same_managed_trans σ1 σ2 σ3 : same_managed σ1 σ2 → same_managed σ2 σ3 → same_managed σ1 σ3.
Proof. intros E1 E2 a. rewrite (E2 a). apply E1. Qed.

Lemma pt_frame σ D T K ext pd i :
  vm_ok σ D T K ext → (pd, i) ∈ T → present (tw (vm_mem σ) pd i) = true →
  frame (paging_entry_addr (tw (vm_mem σ) pd i)).
Proof.
  intros OK Ht Hp. destruct (user (tw (vm_mem σ) pd i)) eqn:Hu.
  - eapply (own_bound inv managed σ D T K ext pd i); try done.
    apply own_pt. by rewrite entry_is_user_eq, Hp, Hu.
  - by destruct (vo_K _ _ _ _ _ _ _ OK _ (vo_kdir _ _ _ _ _ _ _ OK pd i Ht Hp Hu)) as [[? _] _].
Qed.

Lemma pd_frame σ D T K ext pd i : vm_ok σ D T K ext → (pd, i) ∈ T → frame pd ∧ pd ∈ D ∧ ix i.
Proof.
  intros OK Ht. destruct (vo_TD _ _ _ _ _ _ _ OK _ _ Ht) as [Hd ?].
  by destruct (vo_pd _ _ _ _ _ _ _ OK pd Hd) as [[? _] _].
Qed.

(** ** The walk of the code *)

Lemma lookup_slot_eq σ D T K ext pd virt :
  vm_ok σ D T K ext → (pd, pd_index virt) ∈ T →
  paging_lookup_slot (vm_mem σ) pd virt =
    let pde := tw (vm_mem σ) pd (pd_index virt) in
    if present pde then Some (kv (paging_entry_addr pde) + 4 * pt_index virt) else None.
Proof.
  intros OK Ht. destruct (pd_frame _ _ _ _ _ _ _ OK Ht) as (Hf & _). unfold paging_lookup_slot.
  rewrite phys_ptr_frame by done. fold (tw (vm_mem σ) pd (pd_index virt)). rewrite has_present.
  destruct (present (tw (vm_mem σ) pd (pd_index virt))) eqn:Hp; [|done]. cbn [negb].
  by rewrite phys_ptr_frame by (by eapply pt_frame).
Qed.

Lemma walk_eq σ D T K ext pd virt :
  vm_ok σ D T K ext → (pd, pd_index virt) ∈ T →
  paging_walk (vm_mem σ) pd virt =
    if walk (vm_mem σ) pd (pd_index virt) (pt_index virt) then
      Some (kv (paging_entry_addr (tw (vm_mem σ) pd (pd_index virt))) + 4 * pt_index virt) else None.
Proof.
  intros OK Ht. unfold paging_walk. erewrite lookup_slot_eq by done. unfold walk. cbn zeta.
  destruct (present (tw (vm_mem σ) pd (pd_index virt))); [|done].
  rewrite has_present. fold (tbl_get (vm_mem σ) (kv (paging_entry_addr (tw (vm_mem σ) pd (pd_index virt)))) (pt_index virt)).
  fold (tw (vm_mem σ) (paging_entry_addr (tw (vm_mem σ) pd (pd_index virt))) (pt_index virt)).
  by destruct (present (tw _ (paging_entry_addr _) _)).
Qed.

Lemma query_eq σ D T K ext pd virt :
  vm_ok σ D T K ext → (pd, pd_index virt) ∈ T →
  arch_mm_query σ pd virt =
    (λ e, (paging_entry_addr e, entry_mapping_flags e)) <$>
      walk (vm_mem σ) pd (pd_index virt) (pt_index virt).
Proof.
  intros OK Ht. unfold arch_mm_query, paging_query_page. erewrite walk_eq by done.
  unfold walk. destruct (present (tw (vm_mem σ) pd (pd_index virt))); [|done].
  destruct (present (tw _ (paging_entry_addr _) _)) eqn:E; [|done]. done.
Qed.

(** ** What the tables own, by walks *)

Lemma owners_walk σ σ' D T K ext ext' f :
  vm_ok σ D T K ext → vm_ok σ' D T K ext' → walks_same (vm_mem σ) (vm_mem σ') T →
  ¬ is_table (vm_mem σ) D T K f → ¬ is_table (vm_mem σ') D T K f →
  owners (vm_mem σ') D T f = owners (vm_mem σ) D T f.
Proof.
  intros OK OK' Hw Hn Hn'.
  apply (countp_ext (λ o, own (vm_mem σ') o = Some f) (λ o, own (vm_mem σ) o = Some f)).
  intros o Ho. rewrite elem_of_keys in Ho. destruct o as [pd|pd i|pd i j].
  - done.
  - split; intros E; exfalso; [apply Hn'|apply Hn]; right; right; by exists pd, i.
  - destruct Ho as [Ht Hj]. rewrite (walk_own inv managed σ' D T K ext') by done.
    rewrite (walk_own inv managed σ D T K ext) by done. by rewrite Hw.
Qed.

Lemma owners_zero σ D T K ext f :
  vm_ok σ D T K ext → 1 <= ext f →
  (∀ pd i j, (pd, i) ∈ T → ix j → own (vm_mem σ) (OwnPage pd i j) ≠ Some f) → owners (vm_mem σ) D T f = 0.
Proof.
  intros OK Hx Hn. apply countp_zero. intros o Ho E. rewrite elem_of_keys in Ho.
  assert (¬ is_table (vm_mem σ) D T K f) as Hnt.
  { intros Ht. pose proof (table_ext _ _ _ _ _ _ _ OK f Ht). lia. }
  destruct o as [pd|pd i|pd i j].
  - simplify_eq/=. apply Hnt. by left.
  - apply Hnt. right. right. by exists pd, i.
  - destruct Ho. by eapply Hn.
Qed.

Lemma alloc_free σ D T K ext a σ' :
  vm_ok σ D T K ext → pmm_alloc_page σ = (a, σ') → a ≠ 0 →
  vm_ok (pmm_free_page σ' a) D T K ext ∧ vm_mem (pmm_free_page σ' a) = vm_mem σ ∧
  same_managed σ (pmm_free_page σ' a).
Proof.
  intros OK E Ha. destruct (alloc_ok _ _ _ _ _ _ _ _ _ OK E Ha) as (OK' & Hf & Hz & Hm & Hman).
  assert (1 <= add_ref ext a a) as Hx.
  { unfold add_ref. rewrite ind_true by done. pose proof (vo_ext _ _ _ _ _ _ _ OK a). lia. }
  split; [|split].
  - eapply vm_ok_ext; [|apply (decref_ok _ _ _ _ _ _ _ _ OK' Hf Hx)]. intros f.
    unfold sub_ref, add_ref. lia.
  - done.
  - intros b. rewrite <-Hman. apply pa_decref_managed; [by apply frame_u32, Hf|]. by destruct OK'.
Qed.

(** ** Finding the table for a user page *)

Definition user_pde (a : Z) : Z := paging_entry_build a (PG_PRESENT |u PG_WRITABLE |u PG_USER).

Lemma user_pde_spec a :
  frame a → is_u32 (user_pde a) ∧ entry_is_user (user_pde a) = true ∧ paging_entry_addr (user_pde a) = a.
Proof.
  intros Hf. pose proof (frame_u32 a Hf) as Hu. assert (is_u32 (PG_PRESENT |u PG_WRITABLE |u PG_USER)) by done.
  unfold user_pde. split; [auto with cint|]. split.
  - rewrite entry_is_user_eq. unfold present, user. by rewrite !bit_build by (done || lia).
  - by rewrite entry_addr_build, addr_frame.
Qed.

(** What the callers learn of the table the entry goes into. *)
Record table_found σ σ' D T K ext pd i pt : Prop := {
  tf_ok : vm_ok σ' D T K ext;
  tf_own : own (vm_mem σ') (OwnPt pd i) = Some pt;
  tf_walks : walks_same (vm_mem σ) (vm_mem σ') T;
  tf_data : data_same (vm_mem σ) (vm_mem σ') D T K ext;
  tf_managed : same_managed σ σ';
  tf_pt : is_table (vm_mem σ) D T K pt ∨ total (vm_mem σ) D T K ext pt = 0;
}.

Lemma fresh_table σ D T K ext pd i a σ1 m1 :
  vm_ok σ D T K ext → (pd, i) ∈ T → entry_is_user (tw (vm_mem σ) pd i) = false →
  pmm_alloc_page σ = (a, σ1) → a ≠ 0 →
  (∀ g, frame g → g ≠ a → page_same (vm_mem σ) m1 g) →
  (∀ k, ix k → entry_is_user (tw m1 a k) = false ∧ (present (tw m1 a k) = true → cow (tw m1 a k) = false) ∧
     walk (vm_mem σ) pd i k = if present (tw m1 a k) then Some (tw m1 a k) else None) →
  frame a ∧ table_found σ (set_mem (tbl_set m1 (kv pd) i (user_pde a)) σ1) D T K ext pd i a.
Proof.
  intros OK Ht Hold E Ha Hs Hw.
  destruct (alloc_ok _ _ _ _ _ _ _ _ _ OK E Ha) as (OK1 & Hf & Hz & Hm & Hman).
  assert (¬ is_table (vm_mem σ) D T K a) as Hnt.
  { intros Hx. destruct (table_frame _ _ _ _ _ _ _ OK a Hx). lia. }
  assert (∀ f, is_table (vm_mem σ) D T K f → page_same (vm_mem σ) m1 f) as Htab.
  { intros f Hx. destruct (table_frame _ _ _ _ _ _ _ OK f Hx) as [[? _] _]. apply Hs; [done|]. by intros ->. }
  pose proof (same_tables _ _ _ _ _ _ _ _ OK Htab) as Hts.
  assert (vm_ok (set_mem m1 σ1) D T K (add_ref ext a)) as OK2.
  { apply set_mem_ok; [done|]. by rewrite Hm. }
  assert (total m1 D T K (add_ref ext a) a = 1) as Ht1.
  { unfold total, add_ref in *. rewrite (tables_same_owners (vm_mem σ) m1 D T K a Hts), ind_true by done. lia. }
  assert (1 <= add_ref ext a a) as Hx.
  { unfold add_ref. rewrite ind_true by done. pose proof (vo_ext _ _ _ _ _ _ _ OK a). lia. }
  destruct (user_pde_spec a (proj1 Hf)) as (Hu & Hus & Had).
  assert (tw m1 pd i = tw (vm_mem σ) pd i) as Hpd by by apply (ts_pde _ _ _ _ Hts).
  assert (entry_is_user (tw m1 pd i) = false) as Hold' by by rewrite Hpd.
  assert (walks_same (vm_mem σ) m1 T) as Hw1.
  { intros pd' i' k Ht' Hk. unfold walk. rewrite (ts_pde _ _ _ _ Hts) by done.
    destruct (present (tw (vm_mem σ) pd' i')) eqn:Hp; [|done].
    rewrite (page_same_tw (vm_mem σ)); [done| |done]. apply Htab.
    destruct (user (tw (vm_mem σ) pd' i')) eqn:Hue.
    - right. right. exists pd', i'. split; [done|]. apply own_pt. by rewrite entry_is_user_eq, Hp, Hue.
    - right. left. by apply (vo_kdir _ _ _ _ _ _ _ OK). }
  split; [apply Hf|]. split.
  - eapply vm_ok_ext; [|apply (install_table_ok _ _ _ _ _ _ _ OK2 pd i a (user_pde a)); try done].
    + intros f. unfold sub_ref, add_ref. lia.
    + intros k Hk. by apply Hw.
    + intros k Hk. by apply Hw.
  - simpl. destruct (pd_frame _ _ _ _ _ _ _ OK Ht) as (? & _ & ?). rewrite tw_set_eq by done. by rewrite Hus, Had.
  - intros pd' i' k Ht' Hk. rewrite <-Hw1 by done. simpl.
    apply (install_walk _ _ _ _ _ _ _ OK2 pd i a (user_pde a)); try done.
    intros k' Hk'. simpl. rewrite Hw1 by done. by apply Hw.
  - intros f Hff Hnf Htf. eapply page_same_trans; [apply Hs; [done|]|].
    + intros ->. lia.
    + destruct (pd_frame _ _ _ _ _ _ _ OK Ht) as (? & Hd & ?). apply page_same_set; try done.
      intros ->. apply Hnf. by left.
  - done.
  - by right.
Qed.

Lemma map_table_spec σ D T K ext pd i j fl :
  vm_ok σ D T K ext → (pd, i) ∈ T → ix j → user fl = true →
  match map_table σ (kv pd) i j fl with
  | inl σ' => vm_ok σ' D T K ext ∧ vm_mem σ' = vm_mem σ ∧ same_managed σ σ'
  | inr (p, σ') => ∃ pt, p = kv pt ∧ table_found σ σ' D T K ext pd i pt
  end.
Proof.
  intros OK Ht Hj Hfl. unfold map_table. rewrite !has_user, !has_present, Hfl.
  destruct (pd_frame _ _ _ _ _ _ _ OK Ht) as (Hpd & Hd & Hi).
  fold (tw (vm_mem σ) pd i). set (pde := tw (vm_mem σ) pd i).
  destruct (present pde) eqn:Hp; cbn [negb andb]; [destruct (user pde) eqn:Hu; cbn [negb]|].
  - (* the table is there *)
    assert (own (vm_mem σ) (OwnPt pd i) = Some (paging_entry_addr pde)) as Hown.
    { apply own_pt. fold pde. by rewrite entry_is_user_eq, Hp, Hu. }
    rewrite phys_ptr_frame by (by eapply pt_frame). rewrite !has_present, !has_user.
    destruct (present (tbl_get _ _ _) && negb _) eqn:Hk; [done|].
    exists (paging_entry_addr pde). split; [done|].
    assert (pde |u PG_USER = pde) as Hor.
    { apply Z.bits_inj'. intros n Hn. rewrite Z.lor_spec.
      destruct (decide (n = 2)) as [->|]; [change (Z.testbit pde 2) with (user pde); by rewrite Hu|].
      change PG_USER with (2 ^ 2). rewrite Z.pow2_bits_false by lia. by rewrite orb_false_r. }
    rewrite Hor.
    assert (∀ f k, frame f → ix k → tw (tbl_set (vm_mem σ) (kv pd) i pde) f k = tw (vm_mem σ) f k) as Hsame.
    { intros f k Hf Hk'. rewrite tw_set by (done || apply tw_u32).
      destruct (Z.eqb_spec pd f) as [<-|], (Z.eqb_spec i k) as [<-|]; done. }
    split.
    + apply set_mem_ok; [done|]. split.
      * intros pd' i' Ht'. destruct (pd_frame _ _ _ _ _ _ _ OK Ht') as (? & _ & ?). by apply Hsame.
      * intros pd' i' f k Ht' E Hk'. apply Hsame; [by eapply own_bound|done].
      * intros f k Hf Hk'. apply Hsame; [|done]. by destruct (vo_K _ _ _ _ _ _ _ OK f Hf) as [[? _] _].
    + simpl. by rewrite Hsame.
    + intros pd' i' k Ht' Hk'. destruct (pd_frame _ _ _ _ _ _ _ OK Ht') as (? & _ & ?). unfold walk. simpl.
      rewrite Hsame by done. destruct (present (tw (vm_mem σ) pd' i')) eqn:Hp'; [|done].
      by rewrite Hsame by (done || by eapply pt_frame).
    + intros f Hf Hnf _. apply page_same_set; try done. intros ->. apply Hnf. by left.
    + done.
    + left. right. right. by exists pd, i.
  - (* a kernel table is made private *)
    pose proof (vo_kdir _ _ _ _ _ _ _ OK pd i Ht Hp Hu) as Hk. fold pde in Hk.
    destruct (vo_K _ _ _ _ _ _ _ OK _ Hk) as [[Hkf _] _].
    destruct (pmm_alloc_page σ) as [a σ1] eqn:E. destruct (Z.eqb_spec a 0) as [->|Ha].
    { by rewrite (alloc_fail _ _ _ _ _ _ _ _ OK E). }
    destruct (alloc_free _ _ _ _ _ _ _ OK E Ha) as (OKf & Hmf & Hmanf).
    destruct (alloc_ok _ _ _ _ _ _ _ _ _ OK E Ha) as (_ & [Hfa _] & Hz & Hm & _).
    rewrite !phys_ptr_frame by done. destruct (_ && _); [done|].
    exists a. split; [done|]. fold (user_pde a). rewrite Hm.
    assert (paging_entry_addr pde ≠ a) as Hne.
    { intros Ee. destruct (vo_K _ _ _ _ _ _ _ OK _ Hk). rewrite Ee in *. lia. }
    destruct (copy_table_spec (vm_mem σ) a (paging_entry_addr pde) Hfa Hkf Hne) as [Hc Hs].
    assert (entry_is_user pde = false) as Hnu by by rewrite entry_is_user_eq, Hu, andb_false_r.
    refine (proj2 (fresh_table σ D T K ext pd i a σ1 (copy_table (vm_mem σ) (kv a) (kv (paging_entry_addr pde)))
      OK Ht Hnu E Ha Hs _)).
    intros k Hk'. rewrite Hc by done. unfold walk. fold pde. rewrite Hp, entry_is_user_eq.
    destruct (present (tw (vm_mem σ) (paging_entry_addr pde) k)) eqn:Hpk; [|done].
    by destruct (vo_Kent _ _ _ _ _ _ _ OK _ k Hk Hk' Hpk) as [-> ->].
  - (* a new table *)
    destruct (pmm_alloc_page σ) as [a σ1] eqn:E. destruct (Z.eqb_spec a 0) as [->|Ha].
    { by rewrite (alloc_fail _ _ _ _ _ _ _ _ OK E). }
    destruct (alloc_ok _ _ _ _ _ _ _ _ _ OK E Ha) as (_ & [Hfa _] & Hz & Hm & _).
    rewrite phys_ptr_frame by done. exists a. split; [done|]. fold (user_pde a). rewrite Hm.
    destruct (zero_table_spec (vm_mem σ) a Hfa) as [Hc Hs].
    assert (entry_is_user pde = false) as Hnu by by rewrite entry_is_user_eq, Hp.
    refine (proj2 (fresh_table σ D T K ext pd i a σ1 (zero_table (vm_mem σ) (kv a)) OK Ht Hnu E Ha Hs _)).
    intros k Hk'. rewrite Hc by done. unfold walk. fold pde. by rewrite Hp.
Qed.

(** ** Mapping a user page *)

(** The entry [e] is what the hardware now finds at one page, nothing else has
    changed for anybody; the reference the caller held is now the entry's, and
    the one of the replaced entry the caller's. *)
Record page_mapped σ σ' D T K ext pd i j e : Prop := {
  pm_ok : vm_ok σ' D T K
    (λ f, ext f + ind (own (vm_mem σ) (OwnPage pd i j) = Some f) - ind (paging_entry_addr e = f));
  pm_walk : ∀ pd' i' k, (pd', i') ∈ T → ix k →
    walk (vm_mem σ') pd' i' k =
      if decide ((pd', i', k) = (pd, i, j)) then Some e else walk (vm_mem σ) pd' i' k;
  pm_data : data_same (vm_mem σ) (vm_mem σ') D T K ext;
  pm_managed : same_managed σ σ';
}.

Definition unchanged σ σ' D T K ext : Prop :=
  vm_ok σ' D T K ext ∧ vm_mem σ' = vm_mem σ ∧ same_managed σ σ'.

(** Flags of a private user page. *)
Definition page_flags (fl : Z) : Prop :=
  is_u32 fl ∧ present fl = true ∧ user fl = true ∧ io fl = false ∧ (cow fl = true → shared fl = false).

Lemma build_entry phys fl :
  frame phys → page_flags fl →
  let e := paging_entry_build phys fl in
  is_u32 e ∧ holds_page e = true ∧ present e = true ∧ paging_entry_addr e = phys ∧
  (∀ k, 0 <= k < 12 → Z.testbit e k = Z.testbit fl k).
Proof.
  intros Hf (Hu & Hp & Hus & Hio & _) e. pose proof (frame_u32 _ Hf) as Hpu.
  assert (∀ k, 0 <= k < 12 → Z.testbit e k = Z.testbit fl k) as Hb by (intros; by apply bit_build).
  unfold holds_page. rewrite entry_is_user_eq. unfold present, user, io in *.
  rewrite !Hb, Hp, Hus, Hio by lia. split; [subst e; auto with cint|]. split; [done|].
  split; [done|]. split; [|done]. subst e. by rewrite entry_addr_build, addr_frame.
Qed.

Lemma map_page_spec σ D T K ext pd virt phys fl r σ' :
  vm_ok σ D T K ext → is_u32 virt → (pd, pd_index virt) ∈ T → page_flags fl →
  mframe σ phys → 1 <= ext phys → owners (vm_mem σ) D T phys = 0 →
  paging_map_page σ pd virt phys fl = (r, σ') →
  r = -1 ∧ unchanged σ σ' D T K ext ∨
  r = 0 ∧ page_mapped σ σ' D T K ext pd (pd_index virt) (pt_index virt) (paging_entry_build phys fl).
Proof.
  intros OK Hv Ht Hfl Hf Hx Ho E. destruct (index_ranges virt Hv) as [_ Hj].
  destruct (pd_frame _ _ _ _ _ _ _ OK Ht) as (Hpd & Hd & Hi).
  unfold paging_map_page in E. rewrite phys_ptr_frame in E by done.
  destruct (has fl PG_USER && _); [left; by simplify_eq|].
  pose proof (map_table_spec σ D T K ext pd (pd_index virt) (pt_index virt) fl OK Ht Hj (proj1 (proj2 (proj2 Hfl)))) as Hm.
  destruct (map_table _ _ _ _ _) as [σ1|[p σ1]]; [left; by simplify_eq|]. right.
  destruct Hm as (pt & -> & F). injection E as <- E. split; [done|].
  destruct (build_entry phys fl (proj1 Hf) Hfl) as (He & Hh & Hp & Ha & Hb).
  cbn zeta in *. set (e := paging_entry_build phys fl) in *. set (i := pd_index virt) in *. set (j := pt_index virt) in *. subst σ'.
  pose proof (tf_ok _ _ _ _ _ _ _ _ _ F) as OK1. pose proof (tf_own _ _ _ _ _ _ _ _ _ F) as Hown.
  assert (¬ is_table (vm_mem σ) D T K phys) as Hn.
  { intros Hx'. pose proof (table_ext _ _ _ _ _ _ _ OK _ Hx'). lia. }
  assert (¬ is_table (vm_mem σ1) D T K phys) as Hn1.
  { intros Hx'. pose proof (table_ext _ _ _ _ _ _ _ OK1 _ Hx'). lia. }
  assert (owners (vm_mem σ1) D T phys = 0) as Ho1.
  { rewrite (owners_walk σ σ1 D T K ext ext); try done. by destruct F. }
  assert (own (vm_mem σ1) (OwnPage pd i j) = own (vm_mem σ) (OwnPage pd i j)) as Eold.
  { rewrite !(walk_own inv managed _ D T K ext) by done. by rewrite (tf_walks _ _ _ _ _ _ _ _ _ F). }
  assert (own (vm_mem σ) (OwnPage pd i j) ≠ Some phys) as Hne.
  { intros Eo. pose proof (owners_pos (vm_mem σ) D T phys (OwnPage pd i j)) as H1.
    rewrite elem_of_keys in H1. specialize (H1 (conj Ht Hj) Eo). lia. }
  split; cbn [vm_mem vm_pmm set_mem].
  - apply (set_entry_ok inv managed σ1 D T K ext OK1 pd i pt j e Ht Hj Hown He).
    + rewrite Hh, Ha. intros f Ef. assert (f = phys) as -> by congruence. rewrite Eold, Ho1, ind_false by done.
      split; [|by auto]. destruct Hf. split; [done|]. by apply (tf_managed _ _ _ _ _ _ _ _ _ F).
    + intros _ Hc. split; [done|]. unfold cow, shared in *. rewrite Hb in Hc |- * by lia. by apply Hfl.
    + intros f. rewrite Eold, Hh, Ha. rewrite (ind_ext (Some phys = Some f) (phys = f)) by (split; congruence).
      split; [|done]. pose proof (vo_ext _ _ _ _ _ _ _ OK f).
      pose proof (ind_range (own (vm_mem σ) (OwnPage pd i j) = Some f)).
      destruct (decide (phys = f)) as [<-|]; [rewrite (ind_true (phys = phys))|rewrite (ind_false (phys = f))];
        done || lia.
  - intros pd' i' k Ht' Hk. rewrite (entry_walk inv managed σ1 D T K ext OK1 pd i pt j e) by done.
    case_decide; [by rewrite Hp|]. by apply (tf_walks _ _ _ _ _ _ _ _ _ F).
  - intros f Hff Hnf Htf. eapply page_same_trans; [by apply (tf_data _ _ _ _ _ _ _ _ _ F)|].
    apply page_same_set; [by eapply own_bound|done|done|]. intros <-.
    destruct (tf_pt _ _ _ _ _ _ _ _ _ F) as [|Hz]; [done|]. lia.
  - by destruct F.
Qed.

(** ** Changing an entry in place *)

Lemma walk_slot σ D T K ext pd i j e :
  vm_ok σ D T K ext → (pd, i) ∈ T → ix j → walk (vm_mem σ) pd i j = Some e → user e = true →
  ∃ pt, own (vm_mem σ) (OwnPt pd i) = Some pt ∧ frame pt ∧ pt = paging_entry_addr (tw (vm_mem σ) pd i) ∧
    present (tw (vm_mem σ) pd i) = true ∧ user (tw (vm_mem σ) pd i) = true ∧
    tw (vm_mem σ) pt j = e ∧ present e = true ∧ is_u32 e.
Proof.
  intros OK Ht Hj Hw Hue. unfold walk in Hw. destruct (present (tw (vm_mem σ) pd i)) eqn:Hp; [|done].
  destruct (present (tw _ (paging_entry_addr _) j)) eqn:He; [|done]. injection Hw as Hw.
  assert (user (tw (vm_mem σ) pd i) = true) as Hu.
  { destruct (user (tw (vm_mem σ) pd i)) eqn:Hu; [done|].
    pose proof (vo_kdir _ _ _ _ _ _ _ OK pd i Ht Hp Hu) as Hk.
    destruct (vo_Kent _ _ _ _ _ _ _ OK _ j Hk Hj He). congruence. }
  eexists. split; [apply own_pt; by rewrite entry_is_user_eq, Hp, Hu|].
  split; [by eapply pt_frame|]. subst e. auto 10 with cint.
Qed.

Record entry_set σ σ' D T K ext ext' pd i j e : Prop := {
  es_ok : vm_ok σ' D T K ext';
  es_walk : ∀ pd' i' k, (pd', i') ∈ T → ix k →
    walk (vm_mem σ') pd' i' k =
      if decide ((pd', i', k) = (pd, i, j)) then (if present e then Some e else None)
      else walk (vm_mem σ) pd' i' k;
  es_data : data_same (vm_mem σ) (vm_mem σ') D T K ext;
  es_managed : same_managed σ σ';
}.

Lemma set_slot σ D T K ext ext' pd i j e e' :
  vm_ok σ D T K ext → (pd, i) ∈ T → ix j → walk (vm_mem σ) pd i j = Some e → user e = true → is_u32 e' →
  let old := if holds_page e then Some (paging_entry_addr e) else None in
  let new := if holds_page e' then Some (paging_entry_addr e') else None in
  (∀ f, new = Some f → old = Some f ∧ (owners (vm_mem σ) D T f = 1 ∨ private_writable e' = false)) →
  (present e' = true → cow e' = true → holds_page e' = true ∧ shared e' = false) →
  (∀ f, 0 <= ext' f ∧ ext' f = ext f + ind (old = Some f) - ind (new = Some f)) →
  let slot := kv (paging_entry_addr (tw (vm_mem σ) pd i)) + 4 * j in
  load32 (vm_mem σ) slot = e ∧
  entry_set σ (set_mem (store32 (vm_mem σ) slot e') σ) D T K ext ext' pd i j e'.
Proof.
  intros OK Ht Hj Hw Hue He' old new Hnew Hcow Hext slot.
  destruct (walk_slot _ _ _ _ _ _ _ _ _ OK Ht Hj Hw Hue) as (pt & Hown & Hf & Hpt & Hp & Hu & Etw & Hpe & He).
  assert (own (vm_mem σ) (OwnPage pd i j) = old) as Eold.
  { rewrite (own_page_at _ _ _ _ pt) by done. by rewrite Etw. }
  subst slot. rewrite <-Hpt. fold (tbl_get (vm_mem σ) (kv pt) j). fold (tw (vm_mem σ) pt j).
  fold (tbl_set (vm_mem σ) (kv pt) j e'). split; [done|]. split; cbn [vm_mem vm_pmm set_mem].
  - apply (set_entry_ok inv managed σ D T K ext OK pd i pt j e' Ht Hj Hown He').
    + intros f Ef. destruct (Hnew f Ef) as [Ef' Hor].
      assert (own (vm_mem σ) (OwnPage pd i j) = Some f) as Ep by by rewrite Eold.
      split; [by apply (vo_page _ _ _ _ _ _ _ OK pd i j)|].
      split; [by apply (page_not_table _ _ _ _ _ _ _ OK pd i j)|].
      rewrite Ep, ind_true by done. destruct Hor; [by left|by right].
    + done.
    + intros f. rewrite Eold. apply Hext.
  - intros. by apply (entry_walk inv managed σ D T K ext OK).
  - intros f Hff Hnf _. apply page_same_set; try done. intros <-. apply Hnf. right. right. by exists pd, i.
  - done.
Qed.

Lemma update_flags_bit fl cl st k :
  0 <= k < 32 →
  Z.testbit (update_flags fl cl st) k =
    if k =? 1 then
      negb (has st ARCH_MM_MAP_COW) &&
      (has st ARCH_MM_MAP_WRITE || (Z.testbit fl 1 && negb (has cl ARCH_MM_MAP_WRITE)))
    else if k =? 9 then has st ARCH_MM_MAP_COW || (Z.testbit fl 9 && negb (has cl ARCH_MM_MAP_COW))
    else Z.testbit fl k.
Proof.
  intros Hk. unfold update_flags. change PG_WRITABLE with (2 ^ 1). change PG_COW with (2 ^ 9).
  destruct (has cl ARCH_MM_MAP_WRITE), (has cl ARCH_MM_MAP_COW), (has st ARCH_MM_MAP_COW), (has st ARCH_MM_MAP_WRITE);
  repeat first [rewrite Z.land_spec | rewrite Z.lor_spec | rewrite testbit_not32 by lia | rewrite Z.pow2_bits_eqb by lia];
  destruct (Z.ltb_spec k 32); try lia;
  destruct (Z.eqb_spec k 1) as [->|]; try (by destruct (Z.testbit fl 1));
  destruct (Z.eqb_spec k 9) as [->|]; try (by destruct (Z.testbit fl 9));
  destruct (Z.eqb_spec 1 k), (Z.eqb_spec 9 k); try lia; by destruct (Z.testbit fl k).
Qed.

Lemma update_flags_u32 fl cl st : is_u32 fl → is_u32 (update_flags fl cl st).
Proof.
  intros. unfold update_flags.
  repeat case_match; repeat first [apply land_u32; [|done] | apply lor_u32]; done.
Qed.

Definition updated (e cl st : Z) : Z :=
  paging_entry_build (paging_entry_addr e) (update_flags (paging_entry_flags e) cl st).

Lemma updated_spec e cl st :
  is_u32 e →
  is_u32 (updated e cl st) ∧ paging_entry_addr (updated e cl st) = paging_entry_addr e ∧
  present (updated e cl st) = present e ∧ user (updated e cl st) = user e ∧
  io (updated e cl st) = io e ∧ shared (updated e cl st) = shared e ∧
  writable (updated e cl st) = negb (has st ARCH_MM_MAP_COW) &&
    (has st ARCH_MM_MAP_WRITE || (writable e && negb (has cl ARCH_MM_MAP_WRITE))) ∧
  cow (updated e cl st) = has st ARCH_MM_MAP_COW || (cow e && negb (has cl ARCH_MM_MAP_COW)).
Proof.
  intros He. assert (is_u32 (update_flags (paging_entry_flags e) cl st))
    by auto using update_flags_u32, entry_flags_u32.
  assert (∀ k, 0 <= k < 12 → Z.testbit (updated e cl st) k = Z.testbit (update_flags (paging_entry_flags e) cl st) k) as Hb
    by (intros; apply bit_build; auto with cint).
  assert (∀ k, 0 <= k < 12 → Z.testbit (paging_entry_flags e) k = Z.testbit e k) as Hfl.
  { intros k Hk. rewrite testbit_flags by lia. by destruct (Z.ltb_spec k 12); [|lia]. }
  unfold present, user, io, shared, writable, cow. rewrite !Hb, !update_flags_bit by lia.
  cbn [Z.eqb Pos.eqb]. rewrite !Hfl by lia.
  split; [unfold updated; auto with cint|]. split; [|done].
  unfold updated. rewrite entry_addr_build by auto with cint.
  apply Z.bits_inj'. intros k Hk. rewrite !testbit_addr by auto with cint.
  by destruct (12 <=? k).
Qed.

Lemma update_page_spec σ D T K ext pd virt cl st e r σ' :
  vm_ok σ D T K ext → is_u32 virt → (pd, pd_index virt) ∈ T →
  walk (vm_mem σ) pd (pd_index virt) (pt_index virt) = Some e → holds_page e = true →
  has (cl |u st) (ARCH_MM_MAP_PRESENT |u ARCH_MM_MAP_READ |u ARCH_MM_MAP_EXEC |u ARCH_MM_MAP_USER) = false →
  (private_writable (updated e cl st) = true → owners (vm_mem σ) D T (paging_entry_addr e) = 1) →
  (cow (updated e cl st) = true → shared e = false) →
  paging_update_page σ pd virt cl st = (r, σ') →
  r = 0 ∧ entry_set σ σ' D T K ext ext pd (pd_index virt) (pt_index virt) (updated e cl st).
Proof.
  intros OK Hv Ht Hw Hh Hsup Hpw Hcow E. destruct (index_ranges virt Hv) as [_ Hj].
  destruct (holds_present e Hh) as (Hp & Hu & Hio).
  destruct (walk_slot _ _ _ _ _ _ _ _ _ OK Ht Hj Hw Hu) as (pt & _ & _ & _ & _ & _ & _ & _ & He).
  destruct (updated_spec e cl st He) as (He' & Ha & Hp' & Hu' & Hio' & Hs' & _ & _).
  assert (holds_page (updated e cl st) = true) as Hh'.
  { unfold holds_page. by rewrite entry_is_user_eq, Hp', Hu', Hio', Hp, Hu, Hio. }
  unfold paging_update_page in E. erewrite walk_eq in E by done. rewrite Hw, Hsup in E.
  destruct (set_slot σ D T K ext ext pd (pd_index virt) (pt_index virt) e (updated e cl st) OK Ht Hj Hw Hu He')
    as [El Hset].
  - rewrite Hh, Hh', Ha. intros f Ef. split; [done|].
    destruct (private_writable (updated e cl st)) eqn:Epw; [|by right]. left.
    assert (f = paging_entry_addr e) as -> by congruence. by apply Hpw.
  - intros _ Hc. split; [done|]. rewrite Hs'. auto.
  - intros f. rewrite Hh, Hh', Ha. split; [by apply (vo_ext _ _ _ _ _ _ _ OK)|lia].
  - rewrite El in E. fold (updated e cl st) in E. injection E as <- <-. done.
Qed.

(** Clearing a user entry and dropping its reference. *)
Lemma clear_slot σ D T K ext pd i j e :
  vm_ok σ D T K ext → (pd, i) ∈ T → ix j → walk (vm_mem σ) pd i j = Some e → user e = true →
  let slot := kv (paging_entry_addr (tw (vm_mem σ) pd i)) + 4 * j in
  load32 (vm_mem σ) slot = e ∧
  entry_set σ (set_mem (store32 (vm_mem σ) slot 0)
    (if negb (io e) then pmm_decref σ (paging_entry_addr e) else σ)) D T K ext ext pd i j 0.
Proof.
  intros OK Ht Hj Hw Hu slot.
  destruct (walk_slot _ _ _ _ _ _ _ _ _ OK Ht Hj Hw Hu) as (pt & Hown & Hf & Hpt & Hp & Hup & Etw & Hpe & He).
  set (ext1 := λ f, ext f + ind ((if holds_page e then Some (paging_entry_addr e) else None) = Some f)).
  destruct (set_slot σ D T K ext ext1 pd i j e 0 OK Ht Hj Hw Hu ltac:(done)) as [El Hset]; try done.
  { intros f. unfold ext1. cbn. pose proof (vo_ext _ _ _ _ _ _ _ OK f).
    pose proof (ind_range ((if holds_page e then Some (paging_entry_addr e) else None) = Some f)).
    rewrite (ind_false (None = Some f)) by done. lia. }
  split; [done|]. fold slot in Hset. destruct Hset as [OK' Hw' Hd' Hm'].
  assert (holds_page e = negb (io e)) as Hh by (unfold holds_page; by rewrite entry_is_user_eq, Hpe, Hu).
  destruct (io e) eqn:Hio; cbn [negb] in Hh |- *.
  - split; try done. eapply vm_ok_ext; [|exact OK'].
    intros f. unfold ext1. rewrite Hh, ind_false by done. lia.
  - set (σ1 := set_mem _ σ) in OK'.
    assert (own (vm_mem σ) (OwnPage pd i j) = Some (paging_entry_addr e)) as Eo.
    { rewrite (own_page_at _ _ _ _ pt) by done. by rewrite Etw, Hh. }
    pose proof (vo_page _ _ _ _ _ _ _ OK _ _ _ _ Ht Hj Eo) as Hmf.
    split; try done.
    + change (vm_ok (pmm_decref σ1 (paging_entry_addr e)) D T K ext).
      eapply vm_ok_ext; [|apply (decref_ok inv managed σ1 D T K ext1 _ OK'); [exact Hmf|]].
      * intros f. unfold sub_ref, ext1. rewrite Hh.
        rewrite (ind_ext (Some (paging_entry_addr e) = Some f) (paging_entry_addr e = f)) by (split; congruence). lia.
      * unfold ext1. rewrite Hh, ind_true by done. pose proof (vo_ext _ _ _ _ _ _ _ OK (paging_entry_addr e)). lia.
    + intros a. cbn. apply pa_decref_managed; [|by destruct OK]. by apply frame_u32, Hmf.
Qed.

Lemma unmap_page_spec σ D T K ext pd virt e r σ' :
  vm_ok σ D T K ext → is_u32 virt → (pd, pd_index virt) ∈ T →
  walk (vm_mem σ) pd (pd_index virt) (pt_index virt) = Some e → user e = true →
  paging_unmap_page σ pd virt = (r, σ') →
  r = 0 ∧ entry_set σ σ' D T K ext ext pd (pd_index virt) (pt_index virt) 0.
Proof.
  intros OK Hv Ht Hw Hu E. destruct (index_ranges virt Hv) as [_ Hj].
  destruct (walk_slot _ _ _ _ _ _ _ _ _ OK Ht Hj Hw Hu) as (pt & _ & _ & _ & Hp & Hup & _ & Hpe & _).
  destruct (pd_frame _ _ _ _ _ _ _ OK Ht) as (Hpd & _ & _).
  destruct (clear_slot _ _ _ _ _ _ _ _ _ OK Ht Hj Hw Hu) as [El Hset].
  unfold paging_unmap_page in E. rewrite phys_ptr_frame in E by done.
  erewrite lookup_slot_eq in E by done. cbn zeta in E. rewrite Hp, El in E.
  rewrite has_present, Hpe, !has_user, has_io in E. cbn [negb] in E.
  fold (tw (vm_mem σ) pd (pd_index virt)) in E. rewrite Hup, Hu in E. cbn [andb] in E.
  injection E as <- <-. split; [done|]. by destruct (io e).
Qed.
End ops.
