(* ===== verification/PagingSpaces.v ===== *)
(** * Creating and destroying address spaces *)

From S2P Require Import Prelude Interfaces Memory Paging PagingSpec PagingInv PagingSteps PagingOps.

#[local] Opaque for_loop zero_table copy_table.

(** All directory entries of a directory, or those from [k] on. *)
Definition dirs_from (pd k : Z) : list (Z * Z) := (λ i, (pd, i)) <$> seqZ k (1024 - k).
Definition dirs_to (pd k : Z) : list (Z * Z) := (λ i, (pd, i)) <$> seqZ 0 k.
Definition pd_dirs (pd : Z) : list (Z * Z) := dirs_from pd 0.
Definition dirs (D : list Z) : list (Z * Z) := D ≫= pd_dirs.
Arguments dirs_from : simpl never.
Arguments dirs_to : simpl never.

Lemma elem_of_dirs_from pd k t : t ∈ dirs_from pd k ↔ t.1 = pd ∧ k <= t.2 < 1024.
Proof.
  unfold dirs_from. rewrite list_elem_of_fmap. destruct t as [p i]. simpl. split.
  - intros (j & [= -> ->] & Hj%elem_of_seqZ). split; [done|lia].
  - intros [-> Hi]. exists i. split; [done|]. apply elem_of_seqZ. lia.
Qed.

Lemma elem_of_pd_dirs pd t : t ∈ pd_dirs pd ↔ t.1 = pd ∧ ix t.2.
Proof. apply elem_of_dirs_from. Qed.

Lemma elem_of_dirs D pd i : (pd, i) ∈ dirs D ↔ pd ∈ D ∧ ix i.
Proof.
  unfold dirs. rewrite list_elem_of_bind. setoid_rewrite elem_of_pd_dirs. simpl. naive_solver.
Qed.

Lemma dirs_from_cons pd k : k < 1024 → dirs_from pd k = (pd, k) :: dirs_from pd (k + 1).
Proof.
  intros. unfold dirs_from. rewrite seqZ_cons by lia. simpl. do 3 f_equal. lia.
Qed.

Lemma dirs_from_end pd : dirs_from pd 1024 = [].
Proof. done. Qed.

Section spaces.
Context {S : Type} `{PageAllocator S} (inv : S → Prop) (managed : S → Z → Prop).
Context `{!PageAllocatorLaws S inv managed}.
Implicit Types (σ : vm S) (D : list Z) (T : list (Z * Z)) (K : gset Z) (ext : Z → Z) (m : mem).
Notation vm_ok := (vm_ok inv managed).
Notation mframe := (mframe managed).
Notation same_managed := (same_managed managed).

(** ** Destroying *)

Definition no_pages m pd i k : Prop := ∀ j, 0 <= j < k → own m (OwnPage pd i j) = None.

Lemma destroy_page_ok σ D T K ext pd i pt j :
  vm_ok σ D T K ext → (pd, i) ∈ T → own (vm_mem σ) (OwnPt pd i) = Some pt → ix j →
  no_pages (vm_mem σ) pd i j →
  let σ' := destroy_page (kv pt) j σ in
  vm_ok σ' D T K ext ∧ own (vm_mem σ') (OwnPt pd i) = Some pt ∧ tw (vm_mem σ') pd i = tw (vm_mem σ) pd i ∧
  no_pages (vm_mem σ') pd i (j + 1) ∧ same_managed σ σ' ∧ (∀ f, frame f → f ≠ pt → page_same (vm_mem σ) (vm_mem σ') f).
Proof.
  intros OK Ht Hown Hj Hno. unfold destroy_page. fold (tw (vm_mem σ) pt j). cbn zeta.
  set (e := tw (vm_mem σ) pt j).
  assert (walk (vm_mem σ) pd i j = if present e then Some e else None) as Hw.
  { apply own_pt in Hown as [Hu ->]. unfold walk. rewrite entry_is_user_eq in Hu.
    by apply andb_true_iff in Hu as [-> _]. }
  pose proof (own_bound _ _ _ _ _ _ _ _ _ _ OK Ht Hown) as Hf.
  destruct (pd_frame _ _ _ _ _ _ _ _ _ OK Ht) as (Hpd & Hd & Hi).
  rewrite entry_is_user_eq. destruct (present e && user e) eqn:Hu; cbn [negb].
  - apply andb_true_iff in Hu as [Hp Hue]. rewrite Hp in Hw.
    destruct (clear_slot _ _ _ _ _ _ _ _ _ _ _ OK Ht Hj Hw Hue) as [El Hset].
    apply own_pt in Hown as Hown'. destruct Hown' as [Hus ->]. rewrite has_io.
    set (σ1 := if negb (io e) then _ else σ) in *.
    change (store32 (vm_mem σ) _ 0) with (tbl_set (vm_mem σ) (kv (paging_entry_addr (tw (vm_mem σ) pd i))) j 0) in Hset.
    assert (vm_mem σ1 = vm_mem σ) as -> by (subst σ1; by case_match).
    destruct Hset as [OK' Hw' _ Hm']. cbn [vm_mem set_mem] in *.
    set (pt := paging_entry_addr (tw (vm_mem σ) pd i)) in *.
    assert (pt ≠ pd) as Hne.
    { intros Ee. apply (pt_not_pd _ _ _ _ _ _ _ OK pd i pt Ht Hown). by rewrite Ee. }
    assert (tw (tbl_set (vm_mem σ) (kv pt) j 0) pd i = tw (vm_mem σ) pd i) as Epd.
    { apply tw_set_ne; try done. congruence. }
    split; [done|]. split; [cbn; by rewrite Epd, Hus|]. split; [done|]. split; [|split; [done|]].
    + intros k Hk. change (tbl_set (vm_mem σ) (kv pt) j 0) with (vm_mem (set_mem (tbl_set (vm_mem σ) (kv pt) j 0) σ1)).
      rewrite (walk_own _ _ _ _ _ _ _ _ _ _ OK') by (done || unfold ix in *; lia).
      rewrite Hw' by (done || unfold ix in *; lia). case_decide; [done|].
      rewrite <-(walk_own _ _ _ _ _ _ _ _ _ _ OK) by (done || unfold ix in *; lia).
      apply Hno. assert (k ≠ j) by congruence. lia.
    + intros f Hff Hnf. by apply page_same_set.
  - split; [done|]. split; [done|]. split; [done|]. split; [|split; [done|auto with cint]].
    intros k Hk. destruct (decide (k = j)) as [->|]; [|apply Hno; lia].
    rewrite (own_page_at _ _ _ _ pt) by done. fold e. unfold holds_page. by rewrite entry_is_user_eq, Hu.
Qed.

Lemma destroy_pages_ok σ D T K ext pd i pt :
  vm_ok σ D T K ext → (pd, i) ∈ T → own (vm_mem σ) (OwnPt pd i) = Some pt →
  let σ' := for_loop 0 1024 (destroy_page (kv pt)) σ in
  vm_ok σ' D T K ext ∧ own (vm_mem σ') (OwnPt pd i) = Some pt ∧ no_pages (vm_mem σ') pd i 1024 ∧
  same_managed σ σ' ∧ (∀ f, frame f → f ≠ pt → page_same (vm_mem σ) (vm_mem σ') f).
Proof.
  intros OK Ht Hown.
  pose proof (for_loop_inv (λ k σ', vm_ok σ' D T K ext ∧ own (vm_mem σ') (OwnPt pd i) = Some pt ∧
    no_pages (vm_mem σ') pd i k ∧ same_managed σ σ' ∧
    (∀ f, frame f → f ≠ pt → page_same (vm_mem σ) (vm_mem σ') f)) (destroy_page (kv pt)) 0 1024 σ) as HI.
  apply HI; clear HI.
  - intros k σ1 Hk (OK1 & Hown1 & Hno & Hm & Hs).
    destruct (destroy_page_ok σ1 D T K ext pd i pt k OK1 Ht Hown1 Hk Hno) as (OK2 & Hown2 & _ & Hno2 & Hm2 & Hs2).
    split; [done|]. split; [done|]. split; [done|]. split.
    + by eapply same_managed_trans.
    + intros f Hf Hne. eapply page_same_trans; [by apply Hs|by apply Hs2].
  - split; [done|]. split; [done|]. split; [intros j Hj; lia|]. split; [done|auto with cint].
Qed.

Lemma destroy_table_ok σ D T K ext pd k :
  vm_ok σ D ((pd, k) :: T) K ext →
  let σ' := destroy_table (kv pd) k σ in
  vm_ok σ' D T K ext ∧ same_managed σ σ' ∧
  (∀ f, frame f → f ≠ pd → own (vm_mem σ) (OwnPt pd k) ≠ Some f → page_same (vm_mem σ) (vm_mem σ') f) ∧
  (∀ i, ix i → i ≠ k → tw (vm_mem σ') pd i = tw (vm_mem σ) pd i).
Proof.
  intros OK. assert ((pd, k) ∈ (pd, k) :: T) as Ht by by left.
  destruct (pd_frame _ _ _ _ _ _ _ _ _ OK Ht) as (Hpd & Hd & Hk).
  unfold destroy_table. fold (tw (vm_mem σ) pd k). cbn zeta.
  destruct (entry_is_user (tw (vm_mem σ) pd k)) eqn:Hu; cbn [negb].
  - set (pt := paging_entry_addr (tw (vm_mem σ) pd k)).
    assert (own (vm_mem σ) (OwnPt pd k) = Some pt) as Hown by (apply own_pt; done).
    pose proof (own_bound _ _ _ _ _ _ _ _ _ _ OK Ht Hown) as Hf. rewrite phys_ptr_frame by done.
    destruct (destroy_pages_ok σ D _ K ext pd k pt OK Ht Hown) as (OK1 & Hown1 & Hno & Hm1 & Hs1).
    set (σ1 := for_loop 0 1024 _ σ) in *. clearbody σ1.
    pose proof (drop_table_ok _ _ _ _ _ _ _ _ _ OK1 Hno) as OK2.
    assert (pt ≠ pd) as Hne.
    { intros Ee. apply (pt_not_pd _ _ _ _ _ _ _ OK pd k pt Ht Hown). by rewrite Ee. }
    destruct (vo_pt _ _ _ _ _ _ _ OK1 _ _ _ Ht Hown1) as [Hmf _].
    assert (vm_ok (pmm_free_page σ1 pt) D T K ext) as OK3.
    { eapply vm_ok_ext; [|apply (decref_ok _ _ _ _ _ _ _ _ OK2 Hmf)].
      - intros f. unfold sub_ref. rewrite Hown1.
        rewrite (ind_ext (Some pt = Some f) (pt = f)) by (split; congruence). lia.
      - cbn beta. rewrite Hown1, ind_true by done. pose proof (vo_ext _ _ _ _ _ _ _ OK pt). lia. }
    assert ((pd, k) ∉ T) as HnT.
    { pose proof (vo_T _ _ _ _ _ _ _ OK) as Hnd. by apply NoDup_cons in Hnd as [? _]. }
    split; [|split; [|split]].
    + apply set_mem_ok; [done|]. cbn [vm_mem set_mem pmm_free_page pmm_decref]. split.
      * intros pd' i' Ht'. destruct (pd_frame _ _ _ _ _ _ _ _ _ OK3 Ht') as (? & _ & ?).
        apply tw_set_ne; try done. intros [= -> ->]. done.
      * intros pd' i' f j Ht' Ef Hj. pose proof (own_bound _ _ _ _ _ _ _ _ _ _ OK3 Ht' Ef).
        apply tw_set_ne; try done. intros [= -> _].
        by apply (pt_not_pd _ _ _ _ _ _ _ OK3 pd' i' f Ht' Ef).
      * intros f j Hf' Hj. destruct (vo_K _ _ _ _ _ _ _ OK3 f Hf') as [[? _] _].
        apply tw_set_ne; try done. intros [= -> _]. by apply (pd_not_K _ _ _ _ _ _ _ OK3 f).
    + eapply same_managed_trans; [exact Hm1|]. intros a. cbn. apply pa_decref_managed; [by apply frame_u32|]. by destruct OK1.
    + intros f Hff Hnf Hno'. eapply page_same_trans; [apply Hs1; [done|congruence]|].
      cbn. by apply page_same_set.
    + intros i Hi Hik. cbn. rewrite tw_set_ne by (done || congruence).
      apply page_same_tw; [|done]. by apply Hs1.
  - assert (own (vm_mem σ) (OwnPt pd k) = None) as Hown by (simpl; by rewrite Hu).
    split; [|split; [done|split; [auto with cint|done]]].
    eapply vm_ok_ext; [|apply (drop_table_ok _ _ _ _ _ _ _ _ _ OK)].
    + intros f. rewrite Hown, ind_false by done. lia.
    + intros j Hj. simpl. by rewrite Hu.
Qed.

(** Destroying an address space drops every reference it held; what other
    address spaces see does not change. *)
Lemma destroy_ok σ D T K ext pd :
  vm_ok σ (pd :: D) (pd_dirs pd ++ T) K ext → pd ≠ 0 → (∀ i, (pd, i) ∉ T) →
  let σ' := paging_destroy_user_space σ pd in
  vm_ok σ' D T K ext ∧ walks_same (vm_mem σ) (vm_mem σ') T ∧
  data_same (vm_mem σ) (vm_mem σ') (pd :: D) (pd_dirs pd ++ T) K ext ∧ same_managed σ σ'.
Proof.
  intros OK H0 HnT. unfold paging_destroy_user_space.
  destruct (vo_pd _ _ _ _ _ _ _ OK pd) as [Hmf Htot]; [by left|].
  assert (pd ≠ PAGE_DIR_ADDR) as Hk.
  { intros ->. apply (pd_not_K _ _ _ _ _ _ _ OK PAGE_DIR_ADDR); [by left|by destruct OK]. }
  destruct (Z.eqb_spec pd 0), (Z.eqb_spec pd PAGE_DIR_ADDR); try done. cbn [orb].
  rewrite phys_ptr_frame by apply Hmf.
  pose proof (for_loop_inv (λ k σ', vm_ok σ' (pd :: D) (dirs_from pd k ++ T) K ext ∧ same_managed σ σ' ∧
    (∀ f, frame f → f ≠ pd → (∀ i, ix i → own (vm_mem σ) (OwnPt pd i) ≠ Some f) →
       page_same (vm_mem σ) (vm_mem σ') f) ∧
    (∀ i, k <= i < 1024 → tw (vm_mem σ') pd i = tw (vm_mem σ) pd i)) (destroy_table (kv pd)) 0 1024 σ) as HI.
  destruct HI as (OK1 & Hm & Hs & _); [|split; [done|split; [done|split; [auto with cint|done]]]|].
  { intros k σ1 Hkk (OK1 & Hm & Hs & Hw). rewrite dirs_from_cons in OK1 by lia. cbn [app] in OK1.
    destruct (destroy_table_ok _ _ _ _ _ _ _ OK1) as (OK2 & Hm2 & Hs2 & Hw2).
    split; [done|]. split; [by eapply same_managed_trans|]. split.
    - intros f Hf Hne Hno. eapply page_same_trans; [by apply Hs|]. apply Hs2; try done.
      simpl. rewrite Hw by lia. apply (Hno k). unfold ix. lia.
    - intros i Hi. rewrite Hw2 by (unfold ix; lia). apply Hw. lia. }
  rewrite Z.add_0_l in OK1. change (Z.of_nat 1024) with 1024 in OK1. rewrite dirs_from_end in OK1. cbn [app] in OK1.
  set (σ1 := for_loop 0 1024 _ σ) in *. clearbody σ1.
  pose proof (drop_pd_ok _ _ _ _ _ _ _ _ OK1 HnT) as OK2.
  assert (mframe σ1 pd) as Hmf1 by (split; [apply Hmf|apply Hm, Hmf]).
  assert (vm_ok (pmm_free_page σ1 pd) D T K ext) as OK3.
  { eapply vm_ok_ext; [|apply (decref_ok _ _ _ _ _ _ _ _ OK2 Hmf1)].
    - intros f. unfold sub_ref, add_ref. lia.
    - unfold add_ref. rewrite ind_true by done. pose proof (vo_ext _ _ _ _ _ _ _ OK pd). lia. }
  assert (∀ i, ix i → (pd, i) ∈ pd_dirs pd ++ T) as Hin.
  { intros i Hi. apply elem_of_app. left. by apply elem_of_pd_dirs. }
  assert (∀ f, frame f → f ≠ pd → (∀ i, ix i → own (vm_mem σ) (OwnPt pd i) ≠ Some f) →
     page_same (vm_mem σ) (vm_mem σ1) f) as Hs' by done.
  split; [done|]. split; [|split].
  - assert (∀ t, t ∈ T → t ∈ pd_dirs pd ++ T) as Hin' by (intros; apply elem_of_app; by right).
    assert (∀ f, is_table (vm_mem σ) (pd :: D) (pd_dirs pd ++ T) K f → f ≠ pd →
      (∀ i, ix i → own (vm_mem σ) (OwnPt pd i) ≠ Some f) → page_same (vm_mem σ) (vm_mem σ1) f) as Hts.
    { intros f Hf. apply Hs'. by destruct (table_frame _ _ _ _ _ _ _ OK f Hf) as [[? _] _]. }
    intros pd' i k Ht Hk'. cbn. destruct (pd_frame _ _ _ _ _ _ _ _ _ OK (Hin' _ Ht)) as (? & Hd' & ?).
    assert (pd' ≠ pd) as Hne by (intros ->; by apply (HnT i)). unfold walk.
    rewrite (page_same_tw (vm_mem σ) (vm_mem σ1) pd') by (done || apply Hts; (by left) || done ||
      (intros i' Hi' Eo; by apply (pt_not_pd _ _ _ _ _ _ _ OK pd i' pd' (Hin i' Hi') Eo))).
    destruct (present (tw (vm_mem σ) pd' i)) eqn:Hp; [|done].
    rewrite (page_same_tw (vm_mem σ) (vm_mem σ1)); [done| |done].
    destruct (user (tw (vm_mem σ) pd' i)) eqn:Hu.
    + assert (own (vm_mem σ) (OwnPt pd' i) = Some (paging_entry_addr (tw (vm_mem σ) pd' i))) as Eo
        by (apply own_pt; by rewrite entry_is_user_eq, Hp, Hu).
      apply Hts; [right; right; by eexists _, _; eauto| |].
      * intros Ee. apply (pt_not_pd _ _ _ _ _ _ _ OK _ _ _ (Hin' _ Ht) Eo). rewrite Ee. by left.
      * intros i' Hi' Eo'. destruct (pt_inj _ _ _ _ _ _ _ OK _ _ _ _ _ (Hin' _ Ht) (Hin i' Hi') Eo Eo'). done.
    + pose proof (vo_kdir _ _ _ _ _ _ _ OK pd' i (Hin' _ Ht) Hp Hu) as HK.
      apply Hts; [right; by left| |].
      * intros Ee. apply (pd_not_K _ _ _ _ _ _ _ OK pd); [by left|by rewrite <-Ee].
      * intros i' Hi' Eo'. by apply (pt_not_K _ _ _ _ _ _ _ OK _ _ _ (Hin i' Hi') Eo').
  - intros f Hf Hnt _. cbn. apply Hs'; [done| |].
    + intros ->. apply Hnt. left. by left.
    + intros i Hi Eo. apply Hnt. right. right. exists pd, i. split; [by apply Hin|done].
  - eapply same_managed_trans; [exact Hm|]. intros a. cbn. apply pa_decref_managed; [apply frame_u32, Hmf|]. by destruct OK1.
Qed.

(** ** Creating *)

Lemma table_refs_none m pd i f : entry_is_user (tw m pd i) = false → table_refs m (pd, i) f = 0.
Proof.
  intros Hu. unfold table_refs, table_keys. rewrite countp_cons, countp_zero.
  - cbn [fst snd own]. rewrite Hu, ind_false; done.
  - intros o (j & Hj & ->)%elem_of_page_keys. simpl. by rewrite Hu.
Qed.

(** A directory entry that is absent or the kernel's joins the live ones. *)
Lemma add_kernel_table σ D T K ext pd i :
  vm_ok σ D T K ext → pd ∈ D → ix i → (pd, i) ∉ T →
  (present (tw (vm_mem σ) pd i) = true →
     user (tw (vm_mem σ) pd i) = false ∧ paging_entry_addr (tw (vm_mem σ) pd i) ∈ K) →
  vm_ok σ D ((pd, i) :: T) K ext.
Proof.
  intros OK Hd Hi HnT Hk.
  assert (entry_is_user (tw (vm_mem σ) pd i) = false) as Hu.
  { rewrite entry_is_user_eq. destruct (present _); [|done]. by destruct Hk as [-> _]. }
  assert (own (vm_mem σ) (OwnPt pd i) = None) as Hn by (simpl; by rewrite Hu).
  eapply vm_ok_ext; [|apply (add_table_ok _ _ _ _ _ _ _ _ _ OK Hd Hi HnT)].
  - intros f. cbn beta. rewrite table_refs_none by done. lia.
  - intros Hp _. by apply Hk.
  - congruence.
  - congruence.
  - congruence.
  - intros f. rewrite table_refs_none by done. by apply (vo_ext _ _ _ _ _ _ _ OK).
Qed.

Lemma add_kernel_tables σ D T K ext pd n :
  0 <= n <= 1024 → vm_ok σ D T K ext → pd ∈ D → (∀ i, (pd, i) ∉ T) →
  (∀ i, ix i → present (tw (vm_mem σ) pd i) = true →
     user (tw (vm_mem σ) pd i) = false ∧ paging_entry_addr (tw (vm_mem σ) pd i) ∈ K) →
  vm_ok σ D (dirs_from pd (1024 - n) ++ T) K ext.
Proof.
  intros Hn OK Hd HnT Hk. rewrite <-(Z2Nat.id n) in * by lia.
  induction (Z.to_nat n) as [|k IH].
  - rewrite Z.sub_0_r, dirs_from_end. done.
  - rewrite dirs_from_cons by lia. cbn [app].
    replace (1024 - Z.of_nat (Datatypes.S k) + 1) with (1024 - Z.of_nat k) by lia.
    apply add_kernel_table; [apply IH; lia|done|unfold ix; lia| |apply Hk; unfold ix; lia].
    rewrite elem_of_app, elem_of_dirs_from. cbn [fst snd]. intros [?|Hx]; [lia|]. by apply HnT in Hx.
Qed.

Lemma inherit_spec kend m new :
  frame new → new ≠ PAGE_DIR_ADDR → (∀ i, ix i → tw m new i = 0) →
  let m' := for_loop 0 1024 (inherit_pde kend (kv new) (kv PAGE_DIR_ADDR)) m in
  (∀ i, ix i → tw m' new i = 0 ∨
     tw m' new i = tw m PAGE_DIR_ADDR i ∧ present (tw m PAGE_DIR_ADDR i) = true ∧
     user (tw m PAGE_DIR_ADDR i) = false) ∧
  ∀ f, frame f → f ≠ new → page_same m m' f.
Proof.
  intros Hf Hne Hz.
  pose proof (for_loop_inv (λ k m', (∀ i, ix i → tw m' new i = 0 ∨
     tw m' new i = tw m PAGE_DIR_ADDR i ∧ present (tw m PAGE_DIR_ADDR i) = true ∧
     user (tw m PAGE_DIR_ADDR i) = false) ∧ ∀ f, frame f → f ≠ new → page_same m m' f)
    (inherit_pde kend (kv new) (kv PAGE_DIR_ADDR)) 0 1024 m) as HI.
  apply HI; clear HI; [|split; [intros; left; auto|auto with cint]].
  intros k m' Hk [Hw Hs]. unfold inherit_pde. fold (tw m' PAGE_DIR_ADDR k). rewrite kernel_pde_eq.
  assert (tw m' PAGE_DIR_ADDR k = tw m PAGE_DIR_ADDR k) as ->.
  { apply page_same_tw; [|unfold ix; lia]. apply Hs; [|done]. split; [|done]. unfold PAGE_DIR_ADDR. lia. }
  destruct (inherited_pde kend k && _) eqn:E; [|done]. apply andb_true_iff in E as [_ E].
  apply andb_true_iff in E as [Hp Hu]. split.
  - intros i Hi. rewrite tw_set by (done || apply tw_u32). rewrite Z.eqb_refl. cbn [andb].
    destruct (Z.eqb_spec k i) as [->|]; [|by apply Hw]. right. by rewrite negb_true_iff in Hu.
  - intros f Hff Hnf. eapply page_same_trans; [by apply Hs|]. by apply page_same_set.
Qed.

Lemma create_ok kend σ D T K ext pd σ' :
  vm_ok σ D T K ext → (∀ p i, (p, i) ∈ T → p ∈ D) → paging_create_user_space kend σ = (pd, σ') →
  pd = 0 ∧ σ' = σ ∨
  pd ≠ 0 ∧ pd ∉ D ∧ vm_ok σ' (pd :: D) (pd_dirs pd ++ T) K ext ∧ walks_same (vm_mem σ) (vm_mem σ') T ∧
  data_same (vm_mem σ) (vm_mem σ') D T K ext ∧ same_managed σ σ' ∧
  ∀ i, ix i → entry_is_user (tw (vm_mem σ') pd i) = false.
Proof.
  intros OK HTD E. unfold paging_create_user_space in E.
  destruct (pmm_alloc_page σ) as [a σ1] eqn:Ea. destruct (Z.eqb_spec a 0) as [->|Ha].
  { left. injection E as <- <-. split; [done|]. by eapply alloc_fail. }
  destruct (alloc_ok _ _ _ _ _ _ _ _ _ OK Ea Ha) as (OK1 & Hf & Hz & Hm & Hman).
  assert (¬ is_table (vm_mem σ) D T K a) as Hnt.
  { intros Hx. destruct (table_frame _ _ _ _ _ _ _ OK a Hx). lia. }
  assert (a ≠ PAGE_DIR_ADDR) as Hk.
  { intros ->. apply Hnt. right. left. by destruct OK. }
  rewrite !phys_ptr_frame in E by (apply Hf || (split; [|done]; unfold PAGE_DIR_ADDR; lia)).
  pose proof (f_equal fst E) as E1. pose proof (f_equal snd E) as E2. cbn [fst snd] in E1, E2.
  clear E. subst pd σ'. right.
  destruct (zero_table_spec (vm_mem σ1) a (proj1 Hf)) as [Hz1 Hs1].
  destruct (inherit_spec kend (zero_table (vm_mem σ1) (kv a)) a (proj1 Hf) Hk Hz1) as [Hw2 Hs2].
  set (m2 := for_loop 0 1024 _ _) in *. clearbody m2.
  assert (∀ f, frame f → f ≠ a → page_same (vm_mem σ) m2 f) as Hs.
  { intros f Hff Hne. rewrite <-Hm. eapply page_same_trans; [by apply Hs1|by apply Hs2]. }
  assert (∀ f, is_table (vm_mem σ) D T K f → page_same (vm_mem σ) m2 f) as Htab.
  { intros f Hx. destruct (table_frame _ _ _ _ _ _ _ OK f Hx) as [[? _] _]. apply Hs; [done|]. by intros ->. }
  pose proof (same_tables _ _ _ _ _ _ _ _ OK Htab) as Hts.
  assert (vm_ok (set_mem m2 σ1) D T K (add_ref ext a)) as OK2 by (apply set_mem_ok; [done|by rewrite Hm]).
  assert (vm_ok (set_mem m2 σ1) (a :: D) T K ext) as OK3.
  { eapply vm_ok_ext; [|apply (add_pd_ok _ _ _ _ _ _ _ _ OK2 Hf)].
    - intros f. unfold sub_ref, add_ref. lia.
    - unfold add_ref. rewrite ind_true by done. pose proof (vo_ext _ _ _ _ _ _ _ OK a). lia.
    - unfold total, add_ref in *. cbn [vm_mem set_mem].
      rewrite (tables_same_owners (vm_mem σ) m2 D T K a Hts), ind_true by done. lia. }
  assert (a ∉ D) as HnD by (intros Hx; apply Hnt; by left).
  assert (∀ i, ix i → tw m2 a i = 0 ∨ tw m2 a i = tw (vm_mem σ) PAGE_DIR_ADDR i ∧
    present (tw (vm_mem σ) PAGE_DIR_ADDR i) = true ∧ user (tw (vm_mem σ) PAGE_DIR_ADDR i) = false) as Hw.
  { intros i Hi. rewrite <-Hm. rewrite <-(page_same_tw (vm_mem σ1) (zero_table (vm_mem σ1) (kv a))); auto.
    apply Hs1; [|done]. split; [|done]. unfold PAGE_DIR_ADDR. lia. }
  split; [done|]. split; [done|]. split; [|split; [|split; [|split]]].
  - apply (add_kernel_tables _ _ _ _ _ a 1024); [lia|done|by left|intros i Hx; by apply HnD, (HTD a i)|].
    intros i Hi Hp. cbn [vm_mem set_mem] in *. destruct (Hw i Hi) as [E|(E & Hp' & Hu')]; rewrite E in Hp |- *; [done|].
    split; [done|]. by apply (vo_kpde _ _ _ _ _ _ _ OK).
  - intros pd' i' k Ht' Hk'. cbn. unfold walk. rewrite (ts_pde _ _ _ _ Hts) by done.
    destruct (present (tw (vm_mem σ) pd' i')) eqn:Hp; [|done].
    rewrite (page_same_tw (vm_mem σ)); [done| |done]. apply Htab.
    destruct (user (tw (vm_mem σ) pd' i')) eqn:Hue.
    + right. right. exists pd', i'. split; [done|]. apply own_pt. by rewrite entry_is_user_eq, Hp, Hue.
    + right. left. by apply (vo_kdir _ _ _ _ _ _ _ OK).
  - intros f Hff Hnf Htf. apply Hs; [done|]. intros ->. lia.
  - done.
  - intros i Hi. cbn. destruct (Hw i Hi) as [->|(-> & Hp & Hu)]; [done|].
    by rewrite entry_is_user_eq, Hu, andb_false_r.
Qed.
End spaces.
