(* ===== verification/PagingClone.v ===== *)
(** * Copy-on-write clone of an address space *)

From S2P Require Import Prelude Interfaces Memory Paging PagingSpec PagingInv PagingSteps PagingOps PagingSpaces.

#[local] Opaque for_loop for_exit zero_table copy_table.

Section clone.
Context {S : Type} `{PageAllocator S} (inv : S → Prop) (managed : S → Z → Prop).
Context `{!PageAllocatorLaws S inv managed}.
Implicit Types (σ : vm S) (m : mem).
Notation vm_ok := (vm_ok inv managed).
Notation mframe := (mframe managed).
Notation same_managed := (same_managed managed).

(** References of the child tables [lo], ..., [lo + n - 1]. *)
Definition child_refs m new lo n f : Z := countp (λ o, own m o = Some f) (OwnPt new <$> seqZ lo n).

Lemma child_refs_nil m new lo f : child_refs m new lo 0 f = 0.
Proof. done. Qed.

Lemma child_refs_first m new lo n f :
  0 < n → child_refs m new lo n f = ind (own m (OwnPt new lo) = Some f) + child_refs m new (lo + 1) (n - 1) f.
Proof.
  intros. unfold child_refs. rewrite seqZ_cons by lia. by rewrite fmap_cons, countp_cons.
Qed.

Lemma child_refs_last m new n f :
  0 <= n → child_refs m new 0 (n + 1) f = child_refs m new 0 n f + ind (own m (OwnPt new n) = Some f).
Proof.
  intros. unfold child_refs. rewrite (seqZ_app 0 n 1) by lia. rewrite fmap_app, countp_app.
  rewrite Z.add_0_l, (seqZ_cons n 1), fmap_cons, countp_cons by lia.
  change (Z.pred 1) with 0. change (seqZ (Z.succ n) 0) with (@nil Z). rewrite fmap_nil, countp_nil. lia.
Qed.

Lemma child_refs_nonneg m new lo n f : 0 <= child_refs m new lo n f.
Proof. apply countp_nonneg. Qed.

Lemma child_refs_ext m m' new lo n f :
  (∀ i, lo <= i < lo + n → tw m' new i = tw m new i) → child_refs m' new lo n f = child_refs m new lo n f.
Proof.
  intros E. apply countp_ext. intros o (i & -> & Hi%elem_of_seqZ)%list_elem_of_fmap. simpl. by rewrite E by lia.
Qed.

(** ** Pass 1: allocating the child's tables *)

Section pass1.
Context (D : list Z) (T : list (Z * Z)) (K : gset Z) (ext : Z → Z) (src new : Z) (m0 : mem).
Context (Hext0 : ∀ f, 0 <= ext f) (Hsrc : ∀ i, ix i → (src, i) ∈ T).
Context (Hfull : ∀ i, ix i → entry_is_user (tw m0 src i) = true →
  ∃ j, ix j ∧ entry_is_user (tw m0 (paging_entry_addr (tw m0 src i)) j) = true).

Definition ext1 m k : Z → Z := λ f, ext f + ind (new = f) + child_refs m new 0 k f.

Record pass1 k σ0 σ : Prop := {
  p1_ok : vm_ok σ D T K (ext1 (vm_mem σ) k);
  p1_new : mframe σ new ∧ total (vm_mem σ) D T K (ext1 (vm_mem σ) k) new = 1;
  p1_same : ∀ f, frame f → f ≠ new → page_same m0 (vm_mem σ) f;
  p1_todo : ∀ i, k <= i < 1024 → tw (vm_mem σ) new i = 0;
  p1_kern : ∀ i, 0 <= i < k → entry_is_user (tw m0 src i) = false →
    tw (vm_mem σ) new i = if present (tw m0 src i) then tw m0 src i else 0;
  p1_user : ∀ i, 0 <= i < k → entry_is_user (tw m0 src i) = true →
    ∃ a, tw (vm_mem σ) new i = paging_entry_build a (paging_entry_flags (tw m0 src i)) ∧
      mframe σ a ∧ a ≠ paging_entry_addr (tw m0 src i) ∧
      total (vm_mem σ) D T K (ext1 (vm_mem σ) k) a = 1;
  p1_managed : same_managed σ0 σ;
}.

(** The child's entry for a table of its own. *)
Lemma child_pde a e :
  frame a → is_u32 e → entry_is_user e = true →
  let e' := paging_entry_build a (paging_entry_flags e) in
  is_u32 e' ∧ entry_is_user e' = true ∧ paging_entry_addr e' = a ∧ present e' = true.
Proof.
  intros Hf He Hu e'. pose proof (frame_u32 _ Hf).
  assert (∀ k, 0 <= k < 12 → Z.testbit e' k = Z.testbit e k) as Hb.
  { intros k Hk. subst e'. rewrite bit_build, testbit_flags by (done || lia).
    by destruct (Z.ltb_spec k 12); [|lia]. }
  rewrite entry_is_user_eq in Hu |- *. unfold present, user in *. rewrite !Hb by lia.
  split; [subst e'; auto with cint|]. split; [done|].
  split; [subst e'; by rewrite entry_addr_build, addr_frame by auto with cint|].
  by apply andb_true_iff in Hu as [-> _].
Qed.

Section step.
Context k σ0 σ (Hk : ix k) (P : pass1 k σ0 σ).

Lemma p1_not_table : ¬ is_table (vm_mem σ) D T K new.
Proof.
  intros Hx. pose proof (table_ext _ _ _ _ _ _ _ (p1_ok _ _ _ P) new Hx) as He. unfold ext1 in He.
  rewrite ind_true in He by done. pose proof (Hext0 new).
  pose proof (child_refs_nonneg (vm_mem σ) new 0 k new). lia.
Qed.

Lemma p1_src i : ix i → tw (vm_mem σ) src i = tw m0 src i.
Proof.
  intros Hi. destruct (pd_frame _ _ _ _ _ _ _ _ _ (p1_ok _ _ _ P) (Hsrc i Hi)) as (Hf & Hd & _).
  apply page_same_tw; [|done]. apply (p1_same _ _ _ P); [done|]. intros ->. apply p1_not_table. by left.
Qed.

Lemma p1_src_pt i : ix i → present (tw m0 src i) = true →
  frame (paging_entry_addr (tw m0 src i)) ∧ is_table (vm_mem σ) D T K (paging_entry_addr (tw m0 src i)).
Proof.
  intros Hi Hp. rewrite <-p1_src in Hp |- * by done. split; [eapply pt_frame; eauto using p1_ok|].
  destruct (user (tw (vm_mem σ) src i)) eqn:Hu.
  - right. right. exists src, i. split; [by apply Hsrc|]. apply own_pt. by rewrite entry_is_user_eq, Hp, Hu.
  - right. left. apply (vo_kdir _ _ _ _ _ _ _ (p1_ok _ _ _ P) src i); auto.
Qed.

Lemma p1_src_words i j : ix i → ix j → present (tw m0 src i) = true →
  tw (vm_mem σ) (paging_entry_addr (tw m0 src i)) j = tw m0 (paging_entry_addr (tw m0 src i)) j.
Proof.
  intros Hi Hj Hp. destruct (p1_src_pt i Hi Hp) as [Hf Ht]. apply page_same_tw; [|done].
  apply (p1_same _ _ _ P); [done|]. intros Ee. rewrite Ee in Ht. by apply p1_not_table.
Qed.

Lemma p1_has_user : present (tw m0 src k) = true →
  has_user_pte (vm_mem σ) (kv (paging_entry_addr (tw m0 src k))) = entry_is_user (tw m0 src k).
Proof.
  intros Hp. destruct (p1_src_pt k Hk Hp) as [Hf _]. destruct (entry_is_user (tw m0 src k)) eqn:Hu.
  - apply has_user_pte_spec; [done|]. destruct (Hfull k Hk Hu) as (j & Hj & Hj').
    exists j. split; [done|]. by rewrite p1_src_words.
  - apply not_true_is_false. rewrite has_user_pte_spec by done. intros (j & Hj & Hj').
    rewrite entry_is_user_eq, Hp in Hu. cbn in Hu.
    assert (paging_entry_addr (tw m0 src k) ∈ K) as HK.
    { rewrite <-p1_src in Hp, Hu |- * by done. apply (vo_kdir _ _ _ _ _ _ _ (p1_ok _ _ _ P) src k); auto. }
    rewrite entry_is_user_eq in Hj'. apply andb_true_iff in Hj' as [Hj1 Hj2].
    destruct (vo_Kent _ _ _ _ _ _ _ (p1_ok _ _ _ P) _ j HK Hj Hj1). congruence.
Qed.

Lemma p1_frame : frame new.
Proof. apply (p1_new _ _ _ P). Qed.

(** Writing the child's directory entry [k]. *)
Lemma p1_write e :
  is_u32 e →
  let m := tbl_set (vm_mem σ) (kv new) k e in
  tables_same (vm_mem σ) m T K ∧ (∀ f, frame f → f ≠ new → page_same m0 m f) ∧ tw m new k = e ∧
  (∀ i, ix i → i ≠ k → tw m new i = tw (vm_mem σ) new i) ∧
  (∀ f, child_refs m new 0 k f = child_refs (vm_mem σ) new 0 k f).
Proof.
  intros He m. pose proof p1_frame as Hf. unfold ix in *.
  assert (∀ f, frame f → f ≠ new → page_same (vm_mem σ) m f) as Hs
    by (intros f Hff Hne; subst m; by apply page_same_set).
  assert (∀ i, ix i → i ≠ k → tw m new i = tw (vm_mem σ) new i) as Hw.
  { intros i Hi Hne. subst m. apply tw_set_ne; try done. congruence. }
  split; [|split; [|split; [|split]]].
  - eapply same_tables; [apply (p1_ok _ _ _ P)|]. intros f Ht.
    destruct (table_frame _ _ _ _ _ _ _ (p1_ok _ _ _ P) f Ht) as [[? _] _]. apply Hs; [done|].
    intros ->. by apply p1_not_table.
  - intros f Hff Hne. eapply page_same_trans; [by apply (p1_same _ _ _ P)|by apply Hs].
  - subst m. by apply tw_set_eq.
  - done.
  - intros f. apply child_refs_ext. intros i Hi. apply Hw; unfold ix; lia.
Qed.

Lemma p1_next m m' f :
  (∀ f, child_refs m' new 0 k f = child_refs m new 0 k f) →
  ext1 m' (k + 1) f = ext1 m k f + ind (own m' (OwnPt new k) = Some f).
Proof. intros E. unfold ext1. unfold ix in Hk. rewrite child_refs_last, E by lia. lia. Qed.

(** One more entry of the child's directory has been written; [a] is the table
    allocated for it, if there is one. *)
Lemma p1_advance σ1 e (oa : option Z) :
  let m1 := tbl_set (vm_mem σ) (kv new) k e in
  is_u32 e →
  vm_ok σ1 D T K (λ f, ext1 (vm_mem σ) k f + ind (oa = Some f)) → vm_mem σ1 = vm_mem σ → same_managed σ σ1 →
  own m1 (OwnPt new k) = oa →
  (∀ a, oa = Some a → mframe σ1 a ∧ total (vm_mem σ) D T K (ext1 (vm_mem σ) k) a = 0) →
  (entry_is_user (tw m0 src k) = false → e = if present (tw m0 src k) then tw m0 src k else 0) →
  (entry_is_user (tw m0 src k) = true → ∃ a, oa = Some a ∧
     e = paging_entry_build a (paging_entry_flags (tw m0 src k)) ∧ a ≠ paging_entry_addr (tw m0 src k)) →
  pass1 (k + 1) σ0 (set_mem m1 σ1).
Proof.
  intros m1 He OK1 Hm Hman Hown Ha Hkern Huser.
  destruct (p1_write e He) as (Hts & Hs & Hwk & Hw & Hc). fold m1 in Hts, Hs, Hwk, Hw, Hc.
  assert (∀ f, ext1 m1 (k + 1) f = ext1 (vm_mem σ) k f + ind (oa = Some f)) as Hext.
  { intros f. by rewrite (p1_next (vm_mem σ) m1 f Hc), Hown. }
  assert (∀ f, total m1 D T K (ext1 m1 (k + 1)) f =
    total (vm_mem σ) D T K (ext1 (vm_mem σ) k) f + ind (oa = Some f)) as Htot.
  { intros f. unfold total. rewrite Hext, (tables_same_owners _ _ D T K f Hts). lia. }
  assert (∀ f, total (vm_mem σ) D T K (ext1 (vm_mem σ) k) f = 1 → oa ≠ Some f) as Hfresh.
  { intros f Hf Eo. destruct (Ha f Eo). lia. }
  assert (∀ f, mframe σ f → mframe (set_mem m1 σ1) f) as Hmf.
  { intros f [? ?]. split; [done|]. by apply Hman. }
  destruct P as [POK [Pn1 Pn2] Psame Ptodo Pkern Puser Pman]. unfold ix in Hk. split.
  - eapply vm_ok_ext; [|apply set_mem_ok; [exact OK1|]]; [exact Hext|]. by rewrite Hm.
  - cbn. rewrite Htot, Pn2, ind_false by auto. split; [auto|lia].
  - exact Hs.
  - intros i Hi. cbn. rewrite Hw by (unfold ix; lia). apply Ptodo. lia.
  - intros i Hi Hu. cbn. destruct (decide (i = k)) as [->|]; [rewrite Hwk; auto|].
    rewrite Hw by (unfold ix; lia). apply Pkern; [lia|done].
  - intros i Hi Hu. cbn. destruct (decide (i = k)) as [->|].
    + destruct (Huser Hu) as (a & Ea & Ee & Hne). exists a. rewrite Hwk. split; [done|].
      destruct (Ha a Ea) as [Hf Hz]. split; [done|]. split; [done|].
      rewrite Htot, Hz, ind_true by done. lia.
    + destruct (Puser i ltac:(lia) Hu) as (a & Ea & Hf & Hne & Ht). exists a.
      rewrite Hw by (unfold ix; lia). split; [done|]. split; [auto|]. split; [done|].
      rewrite Htot, Ht, ind_false by auto. lia.
  - eapply same_managed_trans; [exact Pman|]. exact Hman.
Qed.

(** *** Rolling back *)

Definition rolled_back σ' : Prop :=
  vm_ok σ' D T K ext ∧ (∀ f, frame f → f ≠ new → page_same m0 (vm_mem σ') f) ∧ same_managed σ0 σ'.

Lemma decref_managed σ1 f D' T' K' ext' : vm_ok σ1 D' T' K' ext' → frame f → same_managed σ1 (pmm_decref σ1 f).
Proof. intros OK Hf a. cbn. apply pa_decref_managed; [by apply frame_u32|]. by destruct OK. Qed.

Lemma rollback_ok :
  let σ' := clone_rollback (kv new) (kv src) k σ in
  vm_ok σ' D T K (λ f, ext f + ind (new = f)) ∧ vm_mem σ' = vm_mem σ ∧ same_managed σ σ'.
Proof.
  unfold clone_rollback. unfold ix in Hk.
  set (body := λ k0 σ1, _).
  pose proof (for_loop_inv (λ n σ', vm_ok σ' D T K (λ f, ext f + ind (new = f) + child_refs (vm_mem σ) new n (k - n) f) ∧
    vm_mem σ' = vm_mem σ ∧ same_managed σ σ') body 0 (Z.to_nat k) σ) as HI.
  rewrite Z2Nat.id, Z.add_0_l in HI by lia. rewrite Z.sub_diag in HI.
  destruct HI as (OK & Hm & Hman).
  - intros n σ1 Hn (OK1 & Hm1 & Hman1). subst body. cbn beta zeta. rewrite Hm1.
    fold (tw (vm_mem σ) new n). fold (tw (vm_mem σ) src n). rewrite p1_src by (unfold ix; lia).
    assert (∀ f, ext f + ind (new = f) + child_refs (vm_mem σ) new n (k - n) f =
      ext f + ind (new = f) + child_refs (vm_mem σ) new (n + 1) (k - (n + 1)) f +
      ind (own (vm_mem σ) (OwnPt new n) = Some f)) as Hsplit.
    { intros f. rewrite child_refs_first by lia. replace (k - n - 1) with (k - (n + 1)) by lia. lia. }
    destruct (entry_is_user (tw m0 src n)) eqn:Hu.
    + destruct (p1_user _ _ _ P n ltac:(lia) Hu) as (a & Ee & Hf & Hne & Ht).
      destruct (child_pde a (tw m0 src n) (proj1 Hf) (tw_u32 _ _ _) Hu) as (He & Hus & Had & Hp).
      rewrite Ee, has_present, Hp, Had. cbn [negb]. destruct (Z.eqb_spec a (paging_entry_addr (tw m0 src n))); [done|].
      cbn [negb].
      assert (own (vm_mem σ) (OwnPt new n) = Some a) as Eo.
      { apply own_pt. rewrite Ee. by rewrite Had. }
      assert (mframe σ1 a) as Hf1 by (split; [apply Hf|apply Hman1, Hf]).
      split; [|split; [done|]].
      * eapply vm_ok_ext; [|apply (decref_ok _ _ _ _ _ _ _ _ OK1 Hf1)].
        -- intros f. unfold sub_ref. rewrite Hsplit, Eo.
           rewrite (ind_ext (Some a = Some f) (a = f)) by (split; congruence). lia.
        -- cbn beta. rewrite Hsplit, Eo, (ind_true (Some a = Some a)) by done. pose proof (Hext0 a). pose proof (ind_range (new = a)).
           pose proof (child_refs_nonneg (vm_mem σ) new (n + 1) (k - (n + 1)) a). lia.
      * eapply same_managed_trans; [exact Hman1|]. eapply decref_managed; [exact OK1|apply Hf].
    + rewrite (p1_kern _ _ _ P n ltac:(lia) Hu).
      assert (own (vm_mem σ) (OwnPt new n) = None) as Eo.
      { simpl. rewrite (p1_kern _ _ _ P n ltac:(lia) Hu). destruct (present (tw m0 src n)); [by rewrite Hu|done]. }
      assert (vm_ok σ1 D T K (λ f, ext f + ind (new = f) + child_refs (vm_mem σ) new (n + 1) (k - (n + 1)) f)) as OK2.
      { eapply vm_ok_ext; [|exact OK1]. intros f. cbn beta. rewrite Hsplit, Eo, (ind_false (None = Some f)) by done. lia. }
      destruct (present (tw m0 src n)) eqn:Hp; [|by rewrite has_present].
      rewrite has_present, Hp, Z.eqb_refl. done.
  - split; [|done]. eapply vm_ok_ext; [|apply (p1_ok _ _ _ P)]. intros f. by rewrite Z.sub_0_r.
  - split; [|done]. eapply vm_ok_ext; [|exact OK]. intros f. cbn beta. rewrite child_refs_nil. lia.
Qed.

Lemma rollback_all : rolled_back (pmm_free_page (clone_rollback (kv new) (kv src) k σ) new).
Proof.
  destruct rollback_ok as (OK & Hm & Hman). set (σ1 := clone_rollback _ _ _ _) in *.
  assert (mframe σ1 new) as Hf.
  { destruct (p1_new _ _ _ P) as [[? ?] _]. split; [done|]. by apply Hman. }
  split; [|split].
  - eapply vm_ok_ext; [|apply (decref_ok _ _ _ _ _ _ _ _ OK Hf)].
    + intros f. unfold sub_ref. lia.
    + cbn beta. rewrite ind_true by done. pose proof (Hext0 new). lia.
  - cbn. rewrite Hm. apply (p1_same _ _ _ P).
  - eapply same_managed_trans; [apply (p1_managed _ _ _ P)|]. eapply same_managed_trans; [exact Hman|].
    eapply decref_managed; [exact OK|apply Hf].
Qed.

Lemma clone_alloc_ok :
  match clone_alloc new (kv new) (kv src) k σ with
  | inl σ' => rolled_back σ'
  | inr σ' => pass1 (k + 1) σ0 σ'
  end.
Proof.
  unfold clone_alloc. fold (tw (vm_mem σ) src k). rewrite p1_src by done. cbn zeta.
  pose proof (p1_todo _ _ _ P k ltac:(unfold ix in Hk; lia)) as Htodo.
  assert (vm_ok σ D T K (λ f, ext1 (vm_mem σ) k f + ind (None = Some f))) as OKn.
  { eapply vm_ok_ext; [|apply (p1_ok _ _ _ P)]. intros f. cbn beta. rewrite ind_false by done. lia. }
  rewrite has_present. destruct (present (tw m0 src k)) eqn:Hp; cbn [negb].
  - destruct (p1_src_pt k Hk Hp) as [Hf Htab]. rewrite phys_ptr_frame by done. rewrite p1_has_user by done.
    destruct (entry_is_user (tw m0 src k)) eqn:Hu; cbn [negb].
    + destruct (pmm_alloc_page σ) as [a σ1] eqn:Ea. destruct (Z.eqb_spec a 0) as [->|Ha].
      { rewrite (alloc_fail _ _ _ _ _ _ _ _ (p1_ok _ _ _ P) Ea). apply rollback_all. }
      destruct (alloc_ok _ _ _ _ _ _ _ _ _ (p1_ok _ _ _ P) Ea Ha) as (OK1 & Hfa & Hz & Hm & Hman).
      rewrite phys_ptr_frame by apply Hfa. rewrite Hm.
      destruct (child_pde a (tw m0 src k) (proj1 Hfa) (tw_u32 _ _ _) Hu) as (He & Hus & Had & _).
      apply (p1_advance σ1 _ (Some a)); try done.
      * eapply vm_ok_ext; [|exact OK1]. intros f. unfold add_ref.
        by rewrite (ind_ext (Some a = Some f) (a = f)) by (split; congruence).
      * apply own_pt. rewrite tw_set_eq by (done || apply p1_frame). by rewrite Had.
      * intros b Eb. assert (a = b) as <- by congruence. done.
      * congruence.
      * intros _. exists a. split; [done|]. split; [done|]. intros Ee. rewrite <-Ee in Htab.
        destruct (table_frame _ _ _ _ _ _ _ (p1_ok _ _ _ P) a Htab). lia.
    + apply (p1_advance σ (tw m0 src k) None); try done; [apply tw_u32| |by rewrite Hp|congruence].
      simpl. rewrite tw_set_eq by (done || apply p1_frame || apply tw_u32). by rewrite Hu.
  - (* nothing to write: the entry already is zero *)
    destruct P as [POK Pn Psame Ptodo Pkern Puser Pman]. unfold ix in Hk.
    assert (∀ f, ext1 (vm_mem σ) (k + 1) f = ext1 (vm_mem σ) k f) as Hext.
    { intros f. rewrite (p1_next (vm_mem σ)) by done. simpl. rewrite Htodo, ind_false by done. lia. }
    assert (∀ f, total (vm_mem σ) D T K (ext1 (vm_mem σ) (k + 1)) f = total (vm_mem σ) D T K (ext1 (vm_mem σ) k) f) as Htot
      by (intros; unfold total; by rewrite Hext).
    split; try done.
    + eapply vm_ok_ext; [exact Hext|exact POK].
    + by rewrite Htot.
    + intros i Hi. apply Ptodo. lia.
    + intros i Hi Hu. destruct (decide (i = k)) as [->|]; [by rewrite Hp|]. apply Pkern; [lia|done].
    + intros i Hi Hu. destruct (decide (i = k)) as [->|]; [by rewrite entry_is_user_eq, Hp in Hu|].
      destruct (Puser i ltac:(lia) Hu) as (a & ? & ? & ? & ?). exists a. by rewrite Htot.
Qed.
End step.

Lemma pass1_run σ0 σ :
  pass1 0 σ0 σ →
  match for_exit 0 1024 (clone_alloc new (kv new) (kv src)) σ with
  | inl σ' => rolled_back σ0 σ'
  | inr σ' => pass1 1024 σ0 σ'
  end.
Proof.
  intros P. apply (for_exit_inv (λ k σ', pass1 k σ0 σ') (rolled_back σ0) (clone_alloc new (kv new) (kv src)) 0 1024 σ);
    [|done]. intros k σ1 Hk P1. by apply clone_alloc_ok.
Qed.

(** The child's tables are new pages, one per user table of the parent. *)
Lemma p1_child k σ0 σ i a :
  pass1 k σ0 σ → 0 <= i < k → k <= 1024 → entry_is_user (tw m0 src i) = true →
  a = paging_entry_addr (tw (vm_mem σ) new i) →
  own (vm_mem σ) (OwnPt new i) = Some a ∧ mframe σ a ∧ a ≠ new ∧ ¬ is_table (vm_mem σ) D T K a ∧
  a ≠ paging_entry_addr (tw m0 src i) ∧ total (vm_mem σ) D T K (ext1 (vm_mem σ) k) a = 1 ∧
  1 <= child_refs (vm_mem σ) new 0 k a ∧
  ∀ i', 0 <= i' < k → i' ≠ i → entry_is_user (tw m0 src i') = true →
    paging_entry_addr (tw (vm_mem σ) new i') ≠ a.
Proof.
  intros P Hi Hk Hu ->.
  assert (∀ i, 0 <= i < k → entry_is_user (tw m0 src i) = true →
    own (vm_mem σ) (OwnPt new i) = Some (paging_entry_addr (tw (vm_mem σ) new i)) ∧
    mframe σ (paging_entry_addr (tw (vm_mem σ) new i)) ∧
    paging_entry_addr (tw (vm_mem σ) new i) ≠ paging_entry_addr (tw m0 src i) ∧
    total (vm_mem σ) D T K (ext1 (vm_mem σ) k) (paging_entry_addr (tw (vm_mem σ) new i)) = 1) as Hc.
  { intros i' Hi' Hu'. destruct (p1_user _ _ _ P i' Hi' Hu') as (a & Ee & Hf & Hne & Ht).
    destruct (child_pde a (tw m0 src i') (proj1 Hf) (tw_u32 _ _ _) Hu') as (He & Hus & Had & Hp).
    rewrite Ee, Had. split; [|done]. apply own_pt. by rewrite Ee, Had. }
  destruct (Hc i Hi Hu) as (Ho & Hf & Hne & Ht). set (a := paging_entry_addr (tw (vm_mem σ) new i)) in *.
  assert (OwnPt new i ∈ OwnPt new <$> seqZ 0 k) as Hin by (apply list_elem_of_fmap_2, elem_of_seqZ; lia).
  assert (1 <= child_refs (vm_mem σ) new 0 k a) as H1 by by apply (countp_pos (λ o, own (vm_mem σ) o = Some a) _ _ Hin).
  assert (child_refs (vm_mem σ) new 0 k a <= 1 ∧ a ≠ new ∧ ¬ is_table (vm_mem σ) D T K a) as (H2 & Hn & Hnt).
  { pose proof (owners_nonneg (vm_mem σ) D T a). pose proof (ind_range (a ∈ K)). pose proof (Hext0 a).
    pose proof (ind_range (new = a)). unfold total, ext1 in Ht. split; [lia|]. split.
    - intros Ea. rewrite (ind_true (new = a)) in Ht by done. lia.
    - intros Hx. pose proof (table_ext _ _ _ _ _ _ _ (p1_ok _ _ _ P) a Hx) as He. unfold ext1 in He. lia. }
  split; [done|]. split; [done|]. split; [done|]. split; [done|]. split; [done|]. split; [done|]. split; [done|].
  intros i' Hi' Hne' Hu' Ee. destruct (Hc i' Hi' Hu') as (Ho' & _). rewrite Ee in Ho'.
  assert (OwnPt new i' ∈ OwnPt new <$> seqZ 0 k) as Hin' by (apply list_elem_of_fmap_2, elem_of_seqZ; lia).
  pose proof (countp_two (λ o, own (vm_mem σ) o = Some a) (OwnPt new i') (OwnPt new i) (OwnPt new <$> seqZ 0 k)
    Hin' Hin) as H3. unfold child_refs in H2. cut (2 <= 1); [lia|]. etransitivity; [|exact H2]. apply H3; congruence.
Qed.
End pass1.
End clone.
