(* ===== verification/PagingFork.v ===== *)
(** * Copy-on-write clone: copying the tables

    The second pass of [paging_clone_user_space]: parent and child end with
    the same entries, private writable pages become copy-on-write in both, and
    every page the child maps has one more reference. *)

From S2P Require Import Prelude Interfaces Memory Paging PagingSpec PagingInv PagingSteps PagingOps PagingSpaces PagingClone.

#[local] Opaque for_loop for_exit zero_table copy_table.

(** What becomes of an entry of the parent. *)
Definition downgrade (e : Z) : Z :=
  if private_writable e then (e &u not32 PG_WRITABLE) |u PG_COW else e.

Lemma downgrade_bit e k :
  0 <= k < 32 → private_writable e = true →
  Z.testbit (downgrade e) k = if k =? 1 then false else if k =? 9 then true else Z.testbit e k.
Proof.
  intros Hk Hp. unfold downgrade. rewrite Hp. change PG_WRITABLE with (2 ^ 1). change PG_COW with (2 ^ 9).
  rewrite Z.lor_spec, Z.land_spec, testbit_not32, !Z.pow2_bits_eqb by lia.
  destruct (Z.ltb_spec k 32); [|lia].
  destruct (Z.eqb_spec k 1) as [->|]; [by destruct (Z.testbit e 1)|].
  destruct (Z.eqb_spec k 9) as [->|]; [by destruct (Z.testbit e 9)|].
  destruct (Z.eqb_spec 1 k), (Z.eqb_spec 9 k); try lia. by destruct (Z.testbit e k).
Qed.

Lemma downgrade_u32 e : is_u32 e → is_u32 (downgrade e).
Proof. intros. unfold downgrade. case_match; [|done]. by apply lor_u32; [apply land_u32|]. Qed.
#[export] Hint Resolve downgrade_u32 : cint.

Lemma downgrade_addr e : is_u32 e → paging_entry_addr (downgrade e) = paging_entry_addr e.
Proof.
  intros He. destruct (private_writable e) eqn:Hp; [|by unfold downgrade; rewrite Hp].
  apply Z.bits_inj'. intros k Hk. rewrite !testbit_addr by auto with cint.
  destruct (Z.leb_spec 12 k); [|done]. cbn [andb]. destruct (decide (k < 32)) as [Hk'|].
  - rewrite downgrade_bit by (lia || done). destruct (Z.eqb_spec k 1), (Z.eqb_spec k 9); done || lia.
  - pose proof (downgrade_u32 e He). rewrite !(testbit_high 32) by (unfold is_u32 in *; lia). done.
Qed.

Lemma downgrade_flags e :
  present (downgrade e) = present e ∧ user (downgrade e) = user e ∧ io (downgrade e) = io e ∧
  shared (downgrade e) = shared e ∧ holds_page (downgrade e) = holds_page e ∧
  private_writable (downgrade e) = false ∧
  (cow (downgrade e) = true → cow e = true ∨ private_writable e = true).
Proof.
  destruct (private_writable e) eqn:Hp; [|unfold downgrade; rewrite Hp; auto 10].
  unfold private_writable, holds_page. rewrite !entry_is_user_eq.
  unfold present, user, io, shared, writable, cow. rewrite !downgrade_bit by (done || lia).
  cbn [Z.eqb Pos.eqb]. by rewrite andb_false_r; auto 10.
Qed.

Lemma downgrade_holds e : holds_page (downgrade e) = holds_page e.
Proof. apply downgrade_flags. Qed.
Lemma downgrade_private e : private_writable (downgrade e) = false.
Proof. apply downgrade_flags. Qed.

(** The page an entry holds. *)
Definition entry_page (e : Z) : option Z := if holds_page e then Some (paging_entry_addr e) else None.

Lemma downgrade_page e : is_u32 e → entry_page (downgrade e) = entry_page e.
Proof. intros. unfold entry_page. by rewrite downgrade_holds, downgrade_addr. Qed.

(** References of the first [n] entries of a table. *)
Definition page_refs m a n f : Z := countp (λ j, entry_page (tw m a j) = Some f) (seqZ 0 n).

Lemma page_refs_last m a n f :
  0 <= n → page_refs m a (n + 1) f = page_refs m a n f + ind (entry_page (tw m a n) = Some f).
Proof.
  intros. unfold page_refs. rewrite (seqZ_app 0 n 1), countp_app by lia.
  rewrite Z.add_0_l, (seqZ_cons n 1), countp_cons by lia. change (seqZ (Z.succ n) (Z.pred 1)) with (@nil Z).
  rewrite countp_nil. lia.
Qed.
Lemma page_refs_ext m m' a n f :
  (∀ j, 0 <= j < n → tw m' a j = tw m a j) → page_refs m' a n f = page_refs m a n f.
Proof. intros E. apply countp_ext. intros j Hj%elem_of_seqZ. by rewrite E by lia. Qed.
Lemma page_refs_nonneg m a n f : 0 <= page_refs m a n f.
Proof. apply countp_nonneg. Qed.

Lemma table_refs_eq m pd i a f :
  own m (OwnPt pd i) = Some a → table_refs m (pd, i) f = ind (a = f) + page_refs m a 1024 f.
Proof.
  intros Ho. unfold table_refs, table_keys. rewrite countp_cons. cbn [fst snd]. rewrite Ho. f_equal.
  - apply ind_ext. split; congruence.
  - unfold page_refs, page_keys. induction (seqZ 0 1024) as [|j l IH]; [done|].
    rewrite fmap_cons, !countp_cons, IH. f_equal. apply ind_ext. by rewrite (own_page_at _ _ _ _ a).
Qed.

Section fork.
Context {S : Type} `{PageAllocator S} (inv : S → Prop) (managed : S → Z → Prop).
Context `{!PageAllocatorLaws S inv managed}.
Implicit Types (σ : vm S) (m : mem).
Notation vm_ok := (vm_ok inv managed).
Notation mframe := (mframe managed).
Notation same_managed := (same_managed managed).

(** ** One table *)

Section table.
Context (D : list Z) (T : list (Z * Z)) (K : gset Z) (ext : Z → Z) (σ1 : vm S) (src k pt a : Z).
Context (OK1 : vm_ok σ1 D T K ext) (Ht : (src, k) ∈ T) (Hown : own (vm_mem σ1) (OwnPt src k) = Some pt).
Context (Ha : frame a) (Hx : 1 <= ext a).
Notation m1 := (vm_mem σ1).

(** The references of [n] entries of the child have been counted, [ns] entries
    of the parent have their new value, and the child has all of them but the
    [hole]. *)
Record copying n ns (hole : option Z) σ : Prop := {
  cp_ok : vm_ok σ D T K (λ f, ext f + page_refs (vm_mem σ) a n f);
  cp_owners : ∀ f, owners (vm_mem σ) D T f = owners m1 D T f;
  cp_own : own (vm_mem σ) (OwnPt src k) = Some pt;
  cp_src : ∀ j, ix j → tw (vm_mem σ) pt j = if j <? ns then downgrade (tw m1 pt j) else tw m1 pt j;
  cp_new : ∀ j, ix j → hole ≠ Some j → tw (vm_mem σ) a j = tw (vm_mem σ) pt j;
  cp_same : ∀ f, frame f → f ≠ a → f ≠ pt → page_same m1 (vm_mem σ) f;
  cp_managed : same_managed σ1 σ;
}.

Lemma cp_not_table n ns h σ : copying n ns h σ → ¬ is_table (vm_mem σ) D T K a.
Proof.
  intros C Hx'. pose proof (table_ext _ _ _ _ _ _ _ (cp_ok _ _ _ _ C) a Hx') as E. cbn in E.
  pose proof (page_refs_nonneg (vm_mem σ) a n a). lia.
Qed.

Lemma table_pt : frame pt ∧ a ≠ pt ∧ is_table m1 D T K pt.
Proof.
  assert (is_table m1 D T K pt) as Htab by (right; right; by exists src, k).
  split; [by eapply own_bound|]. split; [|done]. intros <-.
  pose proof (table_ext _ _ _ _ _ _ _ OK1 _ Htab). lia.
Qed.

Lemma copying_start : copying 0 0 None (set_mem (copy_table m1 (kv a) (kv pt)) σ1).
Proof.
  destruct table_pt as (Hf & Hne & Htab). destruct (copy_table_spec m1 a pt Ha Hf (not_eq_sym Hne)) as [Hc Hs].
  assert (tables_same m1 (copy_table m1 (kv a) (kv pt)) T K) as Hts.
  { eapply same_tables; [exact OK1|]. intros f Hx'. destruct (table_frame _ _ _ _ _ _ _ OK1 f Hx') as [[? _] _].
    apply Hs; [done|]. intros ->. pose proof (table_ext _ _ _ _ _ _ _ OK1 _ Hx'). lia. }
  assert (∀ j, ix j → tw (copy_table m1 (kv a) (kv pt)) pt j = tw m1 pt j) as Hpt.
  { intros j Hj. apply page_same_tw; [|done]. apply Hs; [done|congruence]. }
  split; cbn [vm_mem set_mem].
  - eapply vm_ok_ext; [|apply set_mem_ok; [exact OK1|exact Hts]]. intros f. cbn. unfold page_refs.
    rewrite countp_zero; [lia|]. intros x Hx'%elem_of_seqZ. lia.
  - intros f. by apply (tables_same_owners _ _ _ _ K).
  - rewrite (tables_same_own m1 _ D T K) by (done || by rewrite elem_of_keys). done.
  - intros j Hj. unfold ix in Hj. destruct (Z.ltb_spec j 0); [lia|]. by apply Hpt.
  - intros j Hj _. by rewrite Hc, Hpt.
  - auto.
  - done.
Qed.

Section step.
Context n (Hn : ix n).
Notation e := (downgrade (tw m1 pt n)).

Lemma step_ltb j : j ≠ n → (j <? n + 1) = (j <? n).
Proof. intros. destruct (Z.ltb_spec j (n + 1)), (Z.ltb_spec j n); done || lia. Qed.

Lemma step_src_word h σ : copying n n h σ → tw (vm_mem σ) pt n = tw m1 pt n.
Proof. intros C. rewrite (cp_src _ _ _ _ C) by done. by rewrite Z.ltb_irrefl. Qed.

Lemma step_own ns h σ : ns = n ∨ ns = n + 1 → copying n ns h σ → own (vm_mem σ) (OwnPage src k n) = entry_page e.
Proof.
  intros Hns C. rewrite (own_page_at _ _ _ _ pt) by apply (cp_own _ _ _ _ C).
  rewrite downgrade_page by auto with cint.
  fold (entry_page (tw (vm_mem σ) pt n)). rewrite (cp_src _ _ _ _ C) by done. destruct Hns as [->| ->].
  - by rewrite Z.ltb_irrefl.
  - destruct (Z.ltb_spec n (n + 1)); [|lia]. apply downgrade_page. auto with cint.
Qed.

(** An entry that stays as it is. *)
Lemma step_keep σ : e = tw m1 pt n → copying n n None σ → copying n (n + 1) None σ.
Proof.
  intros E C. destruct C as [? ? ? Hs ? ? ?]. split; try done. intros j Hj. rewrite Hs by done.
  destruct (decide (j = n)) as [->|]; [|by rewrite step_ltb].
  rewrite Z.ltb_irrefl. destruct (Z.ltb_spec n (n + 1)); [done|lia].
Qed.

(** The parent's entry is written. *)
Lemma step_src σ :
  copying n n None σ → copying n (n + 1) (Some n) (set_mem (tbl_set (vm_mem σ) (kv pt) n e) σ).
Proof.
  intros C. destruct table_pt as (Hf & Hne & Htab).
  pose proof (cp_ok _ _ _ _ C) as OK. pose proof (cp_own _ _ _ _ C) as Ho.
  pose proof (step_src_word _ _ C) as Esrc. pose proof (step_own n None σ (or_introl eq_refl) C) as Eold.
  assert (is_u32 e) as He by auto with cint.
  assert (∀ j, ix j → j ≠ n → tw (tbl_set (vm_mem σ) (kv pt) n e) pt j = tw (vm_mem σ) pt j) as Hw.
  { intros j Hj Hjn. apply tw_set_ne; done || congruence. }
  assert (∀ j, ix j → tw (tbl_set (vm_mem σ) (kv pt) n e) a j = tw (vm_mem σ) a j) as Hwa.
  { intros j Hj. apply tw_set_ne; done || congruence. }
  split; cbn [vm_mem set_mem].
  - eapply vm_ok_ext; [|apply (set_entry_ok inv managed σ D T K _ OK src k pt n e Ht Hn Ho He
      (λ f, ext f + page_refs (vm_mem σ) a n f))].
    + intros f. cbn beta. f_equal. apply page_refs_ext. intros j Hj. apply Hwa. unfold ix in *. lia.
    + intros f Ef. fold (entry_page e) in Ef. rewrite <-Eold in Ef.
      split; [by apply (vo_page _ _ _ _ _ _ _ OK src k n)|].
      split; [by apply (page_not_table _ _ _ _ _ _ _ OK src k n)|]. right. split; [done|].
      apply downgrade_private.
    + intros Hp Hc. destruct (downgrade_flags (tw m1 pt n)) as (Hp' & _ & _ & Hs' & Hh' & _ & Hc').
      rewrite Hh', Hs'. destruct (Hc' Hc) as [Hc1|Hpw].
      * rewrite <-Esrc in *. apply (vo_cow _ _ _ _ _ _ _ OK src k n pt); try done. by rewrite <-Hp'.
      * split; [by apply private_writable_holds|]. unfold private_writable in Hpw.
        apply andb_true_iff in Hpw as [_ Hpw]. by apply negb_true_iff in Hpw.
    + intros f. rewrite Eold. fold (entry_page e). split; [by apply (vo_ext _ _ _ _ _ _ _ OK)|lia].
  - intros f. rewrite (entry_owners inv managed σ D T K _ OK src k pt n e Ht Hn Ho He).
    rewrite Eold. fold (entry_page e). rewrite (cp_owners _ _ _ _ C). lia.
  - rewrite <-Ho. by apply (entry_own_pt inv managed σ D T K _ OK src k pt n e Ht Hn Ho He).
  - intros j Hj. destruct (decide (j = n)) as [->|Hjn].
    + rewrite tw_set_eq by done. destruct (Z.ltb_spec n (n + 1)); [done|lia].
    + rewrite Hw, step_ltb by done. by apply (cp_src _ _ _ _ C).
  - intros j Hj Hjn. rewrite Hw, Hwa by congruence. by apply (cp_new _ _ _ _ C).
  - intros f Hff Hfa Hfp. eapply page_same_trans; [by apply (cp_same _ _ _ _ C)|].
    apply page_same_set; done || congruence.
  - apply (cp_managed _ _ _ _ C).
Qed.

(** The child's entry is written. *)
Lemma step_child h σ :
  h = None ∨ h = Some n → copying n (n + 1) h σ →
  copying n (n + 1) None (set_mem (tbl_set (vm_mem σ) (kv a) n e) σ).
Proof.
  intros Hh C. destruct table_pt as (Hf & Hne & _). pose proof (cp_not_table _ _ _ _ C) as Hnt.
  pose proof (cp_ok _ _ _ _ C) as OK. assert (is_u32 e) as He by auto with cint.
  assert (tables_same (vm_mem σ) (tbl_set (vm_mem σ) (kv a) n e) T K) as Hts.
  { apply (same_tables inv managed σ _ D T K _ OK). intros f Hx'.
    destruct (table_frame _ _ _ _ _ _ _ OK f Hx') as [[? _] _]. apply page_same_set; try done. by intros <-. }
  assert (∀ j, ix j → tw (tbl_set (vm_mem σ) (kv a) n e) pt j = tw (vm_mem σ) pt j) as Hwp.
  { intros j Hj. apply tw_set_ne; done || congruence. }
  assert (∀ j, ix j → j ≠ n → tw (tbl_set (vm_mem σ) (kv a) n e) a j = tw (vm_mem σ) a j) as Hwa.
  { intros j Hj Hjn. apply tw_set_ne; done || congruence. }
  split; cbn [vm_mem set_mem].
  - eapply vm_ok_ext; [|apply (set_mem_ok _ _ _ _ _ _ _ _ OK Hts)]. intros f. cbn beta. f_equal.
    apply page_refs_ext. intros j Hj. unfold ix in *. apply Hwa; unfold ix; lia.
  - intros f. rewrite (tables_same_owners (vm_mem σ) _ D T K) by done. apply (cp_owners _ _ _ _ C).
  - rewrite (tables_same_own (vm_mem σ) _ D T K) by (done || by rewrite elem_of_keys). apply (cp_own _ _ _ _ C).
  - intros j Hj. rewrite Hwp by done. by apply (cp_src _ _ _ _ C).
  - intros j Hj _. rewrite Hwp by done. destruct (decide (j = n)) as [->|Hjn].
    + rewrite tw_set_eq, (cp_src _ _ _ _ C) by done. destruct (Z.ltb_spec n (n + 1)); [done|lia].
    + rewrite Hwa by done. apply (cp_new _ _ _ _ C); [done|]. destruct Hh as [->| ->]; congruence.
  - intros f Hff Hfa Hfp. eapply page_same_trans; [by apply (cp_same _ _ _ _ C)|].
    apply page_same_set; done || congruence.
  - apply (cp_managed _ _ _ _ C).
Qed.

(** The reference of the child's entry is taken. *)
Lemma step_ref σ :
  copying n (n + 1) None σ →
  copying (n + 1) (n + 1) None (if holds_page e then pmm_incref σ (paging_entry_addr e) else σ).
Proof.
  intros C. pose proof (cp_ok _ _ _ _ C) as OK. pose proof Hn as [Hn0 _].
  assert (tw (vm_mem σ) a n = e) as Ea.
  { rewrite (cp_new _ _ _ _ C), (cp_src _ _ _ _ C) by done. destruct (Z.ltb_spec n (n + 1)); [done|lia]. }
  assert (∀ f, ext f + page_refs (vm_mem σ) a (n + 1) f =
    ext f + page_refs (vm_mem σ) a n f + ind (entry_page e = Some f)) as Hrefs.
  { intros f. rewrite page_refs_last, Ea by lia. lia. }
  pose proof (step_own (n + 1) None σ (or_intror eq_refl) C) as Eo. unfold entry_page in Eo, Hrefs.
  destruct (holds_page e) eqn:Hh.
  - assert (OwnPage src k n ∈ keys D T) as Hin by by rewrite elem_of_keys.
    assert (mframe σ (paging_entry_addr e)) as Hmf by by apply (vo_page _ _ _ _ _ _ _ OK src k n).
    assert (vm_ok (pmm_incref σ (paging_entry_addr e)) D T K
      (add_ref (λ f, ext f + page_refs (vm_mem σ) a n f) (paging_entry_addr e))) as OK2.
    { apply (incref_ok inv managed σ D T K _ _ OK Hmf); [by apply (page_not_table _ _ _ _ _ _ _ OK src k n)|].
      unfold total. pose proof (owners_pos _ _ _ _ _ Hin Eo). pose proof (vo_ext _ _ _ _ _ _ _ OK (paging_entry_addr e)).
      pose proof (ind_range (paging_entry_addr e ∈ K)). lia. }
    destruct C as [? ? ? ? ? ? Hman]. split; try done.
    + eapply vm_ok_ext; [|exact OK2]. intros f. unfold add_ref. cbn [vm_mem pmm_incref]. rewrite Hrefs.
      by rewrite (ind_ext (Some (paging_entry_addr e) = Some f) (paging_entry_addr e = f)) by (split; congruence).
    + eapply same_managed_trans; [exact Hman|]. intros f. cbn. apply pa_incref_managed; [|by destruct OK].
      by apply frame_u32, Hmf.
  - destruct C. split; try done. eapply vm_ok_ext; [|exact OK]. intros f. cbn beta.
    rewrite Hrefs, (ind_false (None = Some f)) by done. lia.
Qed.

Lemma clone_page_ok σ : copying n n None σ → copying (n + 1) (n + 1) None (clone_page (kv pt) (kv a) n σ).
Proof.
  intros C. unfold clone_page. fold (tw (vm_mem σ) pt n). cbn zeta. rewrite (step_src_word _ _ C).
  destruct (downgrade_flags (tw m1 pt n)) as (_ & _ & _ & _ & Hh & _ & _).
  assert (private_writable (tw m1 pt n) = false → e = tw m1 pt n) as Hk by (unfold downgrade; by intros ->).
  unfold private_writable in Hk. unfold holds_page in Hh, Hk.
  pose proof (λ h σ', step_child h σ') as Hchild. pose proof step_ref as Href.
  destruct (entry_is_user (tw m1 pt n)) eqn:Hu; cbn [negb andb] in *.
  2: { specialize (Href σ (step_keep σ (Hk eq_refl) C)). unfold holds_page in Href. by rewrite Hh in Href. }
  rewrite has_io, has_shared, has_writable.
  destruct (io (tw m1 pt n)) eqn:Hio; cbn [negb andb] in *; [|destruct (shared (tw m1 pt n)) eqn:Hs; cbn [negb] in *].
  - specialize (Hk eq_refl). specialize (Href _ (Hchild None σ (or_introl eq_refl) (step_keep σ Hk C))).
    unfold holds_page in Href. rewrite Hh in Href. by rewrite Hk in Href.
  - rewrite andb_false_r in Hk. specialize (Hk eq_refl).
    specialize (Href _ (Hchild None σ (or_introl eq_refl) (step_keep σ Hk C))).
    unfold holds_page in Href. rewrite Hh in Href. by rewrite Hk in Href.
  - rewrite andb_true_r in Hk. destruct (writable (tw m1 pt n)) eqn:Hw.
    + assert (e = (tw m1 pt n &u not32 PG_WRITABLE) |u PG_COW) as Ee.
      { unfold downgrade, private_writable, holds_page. by rewrite Hu, Hio, Hw, Hs. }
      rewrite <-Ee. cbn [vm_mem set_mem]. destruct table_pt as (Hf & _).
      fold (tw (tbl_set (vm_mem σ) (kv pt) n e) pt n). rewrite tw_set_eq by (done || auto with cint).
      specialize (Href _ (Hchild (Some n) _ (or_intror eq_refl) (step_src σ C))).
      unfold holds_page in Href. by rewrite Hh in Href.
    + specialize (Hk eq_refl). fold (tw (vm_mem σ) pt n). rewrite (step_src_word _ _ C).
      specialize (Href _ (Hchild None σ (or_introl eq_refl) (step_keep σ Hk C))).
      unfold holds_page in Href. rewrite Hh in Href. by rewrite Hk in Href.
Qed.
End step.

Lemma clone_pages_ok :
  copying 1024 1024 None (for_loop 0 1024 (clone_page (kv pt) (kv a)) (set_mem (copy_table m1 (kv a) (kv pt)) σ1)).
Proof.
  apply (for_loop_inv (λ n σ, copying n n None σ) (clone_page (kv pt) (kv a)) 0 1024); [|exact copying_start].
  intros n σ Hn C. by apply clone_page_ok.
Qed.

Lemma cp_refs_zero σ f :
  copying 1024 1024 None σ → owners m1 D T f = 0 → page_refs (vm_mem σ) a 1024 f = 0.
Proof.
  intros C Ho. apply countp_zero. intros j Hj%elem_of_seqZ E. assert (ix j) as Hj' by (unfold ix; lia).
  assert (1 <= owners (vm_mem σ) D T f) as H1; [|rewrite (cp_owners _ _ _ _ C) in H1; lia].
  apply (owners_pos _ _ _ _ (OwnPage src k j)); [by rewrite elem_of_keys|].
  rewrite (own_page_at _ _ _ _ pt) by apply (cp_own _ _ _ _ C). by rewrite <-(cp_new _ _ _ _ C).
Qed.
End table.

(** ** All tables *)

Section tables.
Context (D : list Z) (T : list (Z * Z)) (K : gset Z) (ext : Z → Z) (src new : Z) (m0 : mem) (σ0 σ1 : vm S).
Context (Hext0 : ∀ f, 0 <= ext f) (Hsrc : ∀ i, ix i → (src, i) ∈ T).
Notation pt i := (paging_entry_addr (tw m0 src i)).
Notation is_user i := (entry_is_user (tw m0 src i) = true).
Context (Hfull : ∀ i, ix i → is_user i → ∃ j, ix j ∧ entry_is_user (tw m0 (pt i) j) = true).
Context (P : pass1 inv managed D T K ext src new m0 1024 σ0 σ1).
Notation m1 := (vm_mem σ1).
Notation ct i := (paging_entry_addr (tw m1 new i)).

Definition done_dirs k : list (Z * Z) := ((λ i, (new, i)) <$> seqZ 0 k) ++ T.
Definition ext2 m k f : Z := ext f + child_refs m new k (1024 - k) f.

Record pass2 k σ : Prop := {
  p2_ok : vm_ok σ (new :: D) (done_dirs k) K (ext2 (vm_mem σ) k);
  p2_same : ∀ f, frame f → (∀ i, 0 <= i < k → is_user i → f ≠ pt i ∧ f ≠ ct i) → page_same m1 (vm_mem σ) f;
  p2_src : ∀ i j, 0 <= i < k → ix j → is_user i → tw (vm_mem σ) (pt i) j = downgrade (tw m0 (pt i) j);
  p2_new : ∀ i j, 0 <= i < k → ix j → is_user i → tw (vm_mem σ) (ct i) j = tw (vm_mem σ) (pt i) j;
  p2_todo : ∀ i, k <= i < 1024 → is_user i →
    total (vm_mem σ) (new :: D) (done_dirs k) K (ext2 (vm_mem σ) k) (ct i) = 1;
  p2_managed : same_managed σ0 σ;
}.

Lemma new_fresh : frame new ∧ new ∉ D ∧ ¬ is_table m1 D T K new.
Proof.
  pose proof (p1_not_table _ _ D T K ext src new m0 Hext0 1024 σ0 σ1 P) as Hn.
  split; [apply (p1_new _ _ _ _ _ _ _ _ _ _ _ _ P)|]. split; [|done]. intros Hd. apply Hn. by left.
Qed.

Lemma src_word i : ix i → tw m1 src i = tw m0 src i.
Proof. apply (p1_src inv managed D T K ext src new m0 Hext0 Hsrc Hfull 1024 σ0 σ1 P). Qed.

Lemma src_table i :
  ix i → is_user i → own m1 (OwnPt src i) = Some (pt i) ∧ frame (pt i) ∧ is_table m1 D T K (pt i).
Proof.
  intros Hi Hu. pose proof Hu as Hp. rewrite entry_is_user_eq in Hp. apply andb_true_iff in Hp as [Hp _].
  split; [apply own_pt; by rewrite src_word|].
  by apply (p1_src_pt inv managed D T K ext src new m0 Hext0 Hsrc Hfull 1024 σ0 σ1 P).
Qed.

Lemma child_table i :
  ix i → is_user i →
  own m1 (OwnPt new i) = Some (ct i) ∧ mframe σ1 (ct i) ∧ ct i ≠ new ∧ ¬ is_table m1 D T K (ct i) ∧
  total m1 D T K (ext1 ext new m1 1024) (ct i) = 1 ∧ 1 <= child_refs m1 new 0 1024 (ct i).
Proof.
  intros Hi Hu.
  destruct (p1_child inv managed D T K ext src new m0 Hext0 1024 σ0 σ1 i (ct i) P Hi ltac:(lia) Hu eq_refl)
    as (? & ? & ? & ? & _ & ? & ? & _). done.
Qed.

Lemma child_inj i i' : ix i → ix i' → is_user i → is_user i' → ct i = ct i' → i = i'.
Proof.
  intros Hi Hi' Hu Hu' E. destruct (decide (i = i')) as [|Hne]; [done|].
  destruct (p1_child inv managed D T K ext src new m0 Hext0 1024 σ0 σ1 i' (ct i') P Hi' ltac:(lia) Hu' eq_refl)
    as (_ & _ & _ & _ & _ & _ & _ & Hx). by destruct (Hx i Hi Hne Hu).
Qed.

Lemma child_ne_src i i' : ix i → ix i' → is_user i → is_user i' → ct i ≠ pt i'.
Proof.
  intros Hi Hi' Hu Hu' E. destruct (child_table i Hi Hu) as (_ & _ & _ & Hn & _). apply Hn. rewrite E.
  by apply src_table.
Qed.

Lemma src_inj i i' : ix i → ix i' → is_user i → is_user i' → pt i = pt i' → i = i'.
Proof.
  intros Hi Hi' Hu Hu' E. destruct (src_table i Hi Hu) as (Ho & _). destruct (src_table i' Hi' Hu') as (Ho' & _).
  rewrite <-E in Ho'. by apply (pt_inj _ _ _ _ _ _ _ (p1_ok _ _ _ _ _ _ _ _ _ _ _ _ P) src i src i' (pt i)); auto.
Qed.

Lemma done_dirs_next k : 0 <= k → done_dirs (k + 1) ≡ₚ (new, k) :: done_dirs k.
Proof.
  intros. unfold done_dirs. rewrite (seqZ_app 0 k 1), fmap_app by lia.
  rewrite Z.add_0_l, (seqZ_cons k 1) by lia. change (seqZ (Z.succ k) (Z.pred 1)) with (@nil Z).
  cbn [fmap list_fmap]. rewrite <-app_assoc. cbn [app]. symmetry. apply Permutation_middle.
Qed.

Lemma done_dirs_fresh k : (new, k) ∉ done_dirs k.
Proof.
  unfold done_dirs. rewrite elem_of_app, list_elem_of_fmap. intros [(i & [= <-] & Hi%elem_of_seqZ)|Ht]; [lia|].
  destruct new_fresh as (_ & Hn & _). destruct (vo_TD _ _ _ _ _ _ _ (p1_ok _ _ _ _ _ _ _ _ _ _ _ _ P) _ _ Ht). done.
Qed.

Lemma done_dirs_T t k : t ∈ T → t ∈ done_dirs k.
Proof. intros. apply elem_of_app. by right. Qed.

Lemma pass2_start : pass2 0 σ1.
Proof.
  assert (∀ f, ext2 m1 0 f = sub_ref (ext1 ext new m1 1024) new f) as He.
  { intros f. unfold ext2, sub_ref, ext1. rewrite Z.sub_0_r. lia. }
  destruct (p1_new _ _ _ _ _ _ _ _ _ _ _ _ P) as [Hf Ht].
  split.
  - eapply vm_ok_ext; [exact He|]. apply (add_pd_ok _ _ _ _ _ _ _ _ (p1_ok _ _ _ _ _ _ _ _ _ _ _ _ P)); [done| |done].
    unfold ext1. rewrite (ind_true (new = new)) by done. pose proof (Hext0 new).
    pose proof (child_refs_nonneg m1 new 0 1024 new). lia.
  - auto with cint.
  - intros i j Hi. lia.
  - intros i j Hi. lia.
  - intros i Hi Hu. destruct (child_table i Hi Hu) as (_ & _ & _ & _ & Htc & _). rewrite <-Htc.
    unfold total. rewrite He. cbn [done_dirs]. change (done_dirs 0) with T. rewrite owners_cons_pd. unfold sub_ref. lia.
  - apply (p1_managed _ _ _ _ _ _ _ _ _ _ _ _ P).
Qed.

Section words.
Context k σ (Hk : 0 <= k <= 1024) (Q : pass2 k σ).
Notation m := (vm_mem σ).

Lemma p2_new_word i : ix i → tw m new i = tw m1 new i.
Proof.
  intros Hi. destruct new_fresh as (Hf & _ & Hn). apply page_same_tw; [|done]. apply (p2_same _ _ Q); [done|].
  intros i' Hi' Hu. assert (ix i') as Hi'' by (unfold ix; lia).
  split; [|by destruct (child_table i' Hi'' Hu) as (_ & _ & ? & _)].
  intros E. apply Hn. rewrite E. by apply src_table.
Qed.

Lemma p2_src_word i : ix i → tw m src i = tw m0 src i.
Proof.
  intros Hi. rewrite <-src_word by done. destruct (pd_frame _ _ _ _ _ _ _ _ _ (p1_ok _ _ _ _ _ _ _ _ _ _ _ _ P) (Hsrc i Hi)) as (Hf & Hd & _).
  apply page_same_tw; [|done]. apply (p2_same _ _ Q); [done|].
  intros i' Hi' Hu. assert (ix i') as Hi'' by (unfold ix; lia). split.
  - intros E. destruct (src_table i' Hi'' Hu) as (Ho & _).
    apply (pt_not_pd _ _ _ _ _ _ _ (p1_ok _ _ _ _ _ _ _ _ _ _ _ _ P) src i' (pt i')); [auto|done|by rewrite <-E].
  - intros E. destruct (child_table i' Hi'' Hu) as (_ & _ & _ & Hn & _). apply Hn. rewrite <-E. by left.
Qed.

End words.

Section step.
Context k σ (Hk : ix k) (Q : pass2 k σ).
Notation m := (vm_mem σ).

Lemma step_new_word i : ix i → tw m new i = tw m1 new i.
Proof. apply (p2_new_word k); [unfold ix in Hk; lia|done]. Qed.

Lemma step_dir_word i : ix i → tw m src i = tw m0 src i.
Proof. apply (p2_src_word k); [unfold ix in Hk; lia|done]. Qed.

Lemma p2_refs lo n f : 0 <= lo → lo + n <= 1024 → child_refs m new lo n f = child_refs m1 new lo n f.
Proof. intros. apply child_refs_ext. intros i Hi. apply step_new_word. unfold ix. lia. Qed.

Lemma ext2_next f : ext2 m k f = ext2 m (k + 1) f + ind (own m (OwnPt new k) = Some f).
Proof.
  unfold ext2. unfold ix in Hk. rewrite child_refs_first by lia.
  replace (1024 - k - 1) with (1024 - (k + 1)) by lia. lia.
Qed.

(** A directory entry that is absent or the kernel's. *)
Lemma clone_table_kernel :
  entry_is_user (tw m0 src k) = false → clone_table (kv new) (kv src) k σ = σ ∧ pass2 (k + 1) σ.
Proof.
  intros Hu. pose proof Hk as Hk'. unfold ix in Hk'.
  pose proof (p1_kern _ _ _ _ _ _ _ _ _ _ _ _ P k Hk Hu) as Ek.
  assert (own m (OwnPt new k) = None) as Ho.
  { simpl. rewrite step_new_word, Ek by done. destruct (present (tw m0 src k)); [by rewrite Hu|done]. }
  assert (∀ f, ext2 m (k + 1) f = ext2 m k f) as He.
  { intros f. rewrite ext2_next, Ho, (ind_false (None = Some f)) by done. lia. }
  assert (∀ i, 0 <= i < k + 1 → is_user i → 0 <= i < k) as Hlt.
  { intros i Hi Hui. destruct (decide (i = k)) as [->|]; [congruence|lia]. }
  pose proof (p2_ok _ _ Q) as OK. split.
  - unfold clone_table. fold (tw m new k). fold (tw m src k). cbn zeta.
    rewrite step_new_word, step_dir_word, Ek, has_present by done.
    destruct (present (tw m0 src k)) eqn:Hp; [|done]. by rewrite Hp, Z.eqb_refl.
  - assert (vm_ok σ (new :: D) ((new, k) :: done_dirs k) K (ext2 m k)) as OK2.
    { apply (add_kernel_table _ _ _ _ _ _ _ _ _ OK); [by left|done|apply done_dirs_fresh|].
      rewrite step_new_word, Ek by done. destruct (present (tw m0 src k)) eqn:Hp; [|done]. intros _.
      rewrite entry_is_user_eq, Hp in Hu. split; [done|].
      rewrite <-step_dir_word in Hp, Hu |- * by done.
      apply (vo_kdir _ _ _ _ _ _ _ OK src k); [by apply done_dirs_T, Hsrc|done|done]. }
    destruct Q as [? Hs Hsrc' Hnew Htodo Hman]. split.
    + eapply vm_ok_ext; [exact He|]. eapply vm_ok_perm; [reflexivity|symmetry; apply done_dirs_next; lia|done].
    + intros f Hf Hx. apply Hs; [done|]. intros i Hi. apply Hx. lia.
    + intros i j Hi Hj Hui. by apply Hsrc'; [apply Hlt| |].
    + intros i j Hi Hj Hui. by apply Hnew; [apply Hlt| |].
    + intros i Hi Hui. etransitivity; [|apply (Htodo i ltac:(lia) Hui)]. unfold total. rewrite He. f_equal. f_equal.
      rewrite (owners_perm m (new :: D) (new :: D) _ ((new, k) :: done_dirs k)) by (reflexivity || (apply done_dirs_next; lia)).
      rewrite owners_cons_table. fold (table_refs m (new, k) (ct i)). rewrite table_refs_none; [lia|].
      rewrite step_new_word, Ek by done. by destruct (present _).
    + done.
Qed.

(** A user table. *)
Lemma todo_fresh i :
  k <= i < 1024 → is_user i → 1 <= ext2 m k (ct i) ∧ owners m (new :: D) (done_dirs k) (ct i) = 0.
Proof.
  intros Hi Hu. pose proof Hk as Hk'. unfold ix in Hk'.
  assert (1 <= ext2 m k (ct i)) as H1.
  { unfold ext2. rewrite p2_refs by lia.
    assert (1 <= child_refs m1 new k (1024 - k) (ct i)); [|pose proof (Hext0 (ct i)); lia].
    apply (countp_pos (λ o, own m1 o = Some (ct i)) (OwnPt new i)).
    - apply list_elem_of_fmap_2, elem_of_seqZ. lia.
    - apply child_table; [unfold ix; lia|done]. }
  split; [done|]. pose proof (p2_todo _ _ Q i Hi Hu) as Ht. unfold total in Ht.
  pose proof (owners_nonneg m (new :: D) (done_dirs k) (ct i)). pose proof (ind_range (ct i ∈ K)). lia.
Qed.

Lemma todo_src j : ix j → is_user k → tw m (pt k) j = tw m0 (pt k) j.
Proof.
  intros Hj Hu. pose proof Hk as Hk'. unfold ix in Hk'. destruct (src_table k Hk Hu) as (_ & Hf & _).
  pose proof Hu as Hp. rewrite entry_is_user_eq in Hp. apply andb_true_iff in Hp as [Hp _].
  rewrite <-(p1_src_words inv managed D T K ext src new m0 Hext0 Hsrc Hfull 1024 σ0 σ1 P) by done.
  apply page_same_tw; [|done]. apply (p2_same _ _ Q); [done|]. intros i Hi Hui.
  assert (ix i) as Hi' by (unfold ix; lia). split.
  - intros E. apply src_inj in E; [lia|done..].
  - intros E. by apply (child_ne_src i k).
Qed.

Section user.
Context (σ' : vm S) (Hu : is_user k).
Context (C : copying (new :: D) (done_dirs k) K (ext2 m k) σ src k (pt k) (ct k) 1024 1024 None σ').
Notation m' := (vm_mem σ').

Lemma user_new_word i : ix i → tw m' new i = tw m1 new i.
Proof.
  intros Hi. rewrite <-step_new_word by done. destruct new_fresh as (Hf & _ & Hn).
  apply page_same_tw; [|done]. apply (cp_same _ _ _ _ _ _ _ _ _ _ _ _ _ C); [done| |].
  - by destruct (child_table k Hk Hu) as (_ & _ & ? & _).
  - intros E. apply Hn. rewrite E. by apply src_table.
Qed.

Lemma user_own : own m' (OwnPt new k) = Some (ct k).
Proof. simpl. rewrite user_new_word by done. by apply child_table. Qed.

Lemma user_ext f : ext2 m' (k + 1) f = ext2 m k f - ind (ct k = f).
Proof.
  assert (own m (OwnPt new k) = Some (ct k)) as Ho.
  { simpl. rewrite step_new_word by done. by apply child_table. }
  rewrite ext2_next, Ho, (ind_ext (Some (ct k) = Some f) (ct k = f)) by (split; congruence).
  assert (ext2 m' (k + 1) f = ext2 m (k + 1) f); [|lia]. unfold ext2. f_equal.
  apply child_refs_ext. intros i Hi. unfold ix in Hk. assert (ix i) by (unfold ix; lia).
  by rewrite user_new_word, step_new_word.
Qed.

Lemma user_refs_zero i : k <= i < 1024 → is_user i → page_refs m' (ct k) 1024 (ct i) = 0.
Proof.
  intros Hi Hui. eapply cp_refs_zero; [apply done_dirs_T, Hsrc, Hk|exact C|]. by apply todo_fresh.
Qed.

Lemma user_total f :
  total m' (new :: D) (done_dirs k) K (λ f, ext2 m k f + page_refs m' (ct k) 1024 f) f =
  total m (new :: D) (done_dirs k) K (ext2 m k) f + page_refs m' (ct k) 1024 f.
Proof. unfold total. rewrite (cp_owners _ _ _ _ _ _ _ _ _ _ _ _ _ C). lia. Qed.

Lemma user_table_ok : vm_ok σ' (new :: D) ((new, k) :: done_dirs k) K (ext2 m' (k + 1)).
Proof.
  pose proof (cp_ok _ _ _ _ _ _ _ _ _ _ _ _ _ C) as OK. unfold ix in Hk.
  pose proof (cp_own _ _ _ _ _ _ _ _ _ _ _ _ _ C) as Hown.
  assert (∀ j, ix j → tw m' (ct k) j = tw m' (pt k) j) as Hw
    by (intros; by apply (cp_new _ _ _ _ _ _ _ _ _ _ _ _ _ C)).
  assert ((src, k) ∈ done_dirs k) as Ht by by apply done_dirs_T, Hsrc.
  assert (∀ j, ix j → private_writable (tw m' (pt k) j) = false) as Hpw.
  { intros j Hj. rewrite (cp_src _ _ _ _ _ _ _ _ _ _ _ _ _ C) by done. destruct (Z.ltb_spec j 1024); [|unfold ix in Hj; lia].
    apply downgrade_private. }
  eapply vm_ok_ext; [|apply (add_table_ok _ _ _ _ _ _ _ _ _ OK); [by left|done|apply done_dirs_fresh|..]].
  - intros f. cbn beta. rewrite user_ext, (table_refs_eq _ _ _ (ct k)) by apply user_own. lia.
  - intros _ Hus. pose proof user_own as Ho. apply own_pt in Ho as [Ho _]. by rewrite entry_is_user_eq, Hus, andb_false_r in Ho.
  - intros f Ef. rewrite user_own in Ef. injection Ef as <-. destruct (child_table k Hk Hu) as (_ & [Hf Hm] & _).
    split.
    + split; [done|]. apply (cp_managed _ _ _ _ _ _ _ _ _ _ _ _ _ C).
      apply (p2_managed _ _ Q). by apply (p1_managed _ _ _ _ _ _ _ _ _ _ _ _ P).
    + rewrite user_total, user_refs_zero, (p2_todo _ _ Q) by (done || lia). done.
  - intros p j f Ep Hj Ef. rewrite user_own in Ep. injection Ep as <-.
    rewrite (own_page_at _ _ _ _ (ct k)) in Ef by apply user_own. rewrite Hw in Ef |- * by done.
    assert (own m' (OwnPage src k j) = Some f) as Eo by by rewrite (own_page_at _ _ _ _ (pt k)).
    split; [by apply (vo_page _ _ _ _ _ _ _ OK src k j)|]. split; [by apply Hpw|].
    exists src, k, j, (pt k). by auto 6.
  - intros p j Ep Hj. rewrite user_own in Ep. injection Ep as <-. rewrite Hw by done.
    by apply (vo_cow _ _ _ _ _ _ _ OK src k j (pt k)).
  - intros f. rewrite (table_refs_eq _ _ _ (ct k)) by apply user_own. destruct (todo_fresh k) as [Hx _]; [lia|done|].
    pose proof (vo_ext _ _ _ _ _ _ _ (p2_ok _ _ Q) f). destruct (decide (ct k = f)) as [<-|].
    + rewrite ind_true by done. lia.
    + rewrite ind_false by done. lia.
Qed.

Lemma user_step : pass2 (k + 1) σ'.
Proof.
  pose proof Hk as Hk'. unfold ix in Hk'.
  assert (∀ f, frame f → f ≠ ct k → f ≠ pt k → page_same m m' f) as Hs
    by apply (cp_same _ _ _ _ _ _ _ _ _ _ _ _ _ C).
  assert (∀ i j, 0 <= i < k → ix j → is_user i →
    tw m' (pt i) j = tw m (pt i) j ∧ tw m' (ct i) j = tw m (ct i) j) as Hold.
  { intros i j Hi Hj Hui. assert (ix i) as Hi' by (unfold ix; lia).
    destruct (src_table i Hi' Hui) as (_ & Hf & _). destruct (child_table i Hi' Hui) as (_ & [Hf' _] & _).
    split; apply page_same_tw; try done; apply Hs; try done.
    - intros E. by apply (child_ne_src k i).
    - intros E. apply src_inj in E; [lia|done..].
    - intros E. apply child_inj in E; [lia|done..].
    - by apply child_ne_src. }
  split.
  - eapply vm_ok_perm; [reflexivity|symmetry; apply done_dirs_next; lia|]. apply user_table_ok.
  - intros f Hf Hx. eapply page_same_trans; [apply (p2_same _ _ Q); [done|]; intros i Hi; apply Hx; lia|].
    destruct (Hx k) as [? ?]; [lia|done|]. by apply Hs.
  - intros i j Hi Hj Hui. destruct (decide (i = k)) as [->|].
    + rewrite (cp_src _ _ _ _ _ _ _ _ _ _ _ _ _ C) by done. unfold ix in Hj. destruct (Z.ltb_spec j 1024); [|lia].
      by rewrite todo_src.
    + destruct (Hold i j) as [-> _]; [lia|done..|]. apply (p2_src _ _ Q); [lia|done..].
  - intros i j Hi Hj Hui. destruct (decide (i = k)) as [->|]; [by apply (cp_new _ _ _ _ _ _ _ _ _ _ _ _ _ C)|].
    destruct (Hold i j) as [-> ->]; [lia|done..|]. apply (p2_new _ _ Q); [lia|done..].
  - intros i Hi Hui. etransitivity; [|apply (p2_todo _ _ Q i ltac:(lia) Hui)].
    unfold total. rewrite user_ext.
    rewrite (owners_perm m' (new :: D) (new :: D) _ ((new, k) :: done_dirs k)) by (reflexivity || (apply done_dirs_next; lia)).
    rewrite owners_cons_table. fold (table_refs m' (new, k) (ct i)).
    rewrite (table_refs_eq _ _ _ (ct k)), user_refs_zero, (cp_owners _ _ _ _ _ _ _ _ _ _ _ _ _ C) by (apply user_own || done || lia).
    lia.
  - eapply same_managed_trans; [apply (p2_managed _ _ Q)|apply (cp_managed _ _ _ _ _ _ _ _ _ _ _ _ _ C)].
Qed.
End user.

Lemma clone_table_ok : pass2 (k + 1) (clone_table (kv new) (kv src) k σ).
Proof.
  destruct (entry_is_user (tw m0 src k)) eqn:Hu.
  2: { by destruct (clone_table_kernel Hu) as [-> ?]. }
  unfold clone_table. fold (tw m new k). fold (tw m src k). cbn zeta. rewrite step_new_word, step_dir_word by done.
  destruct (child_table k Hk Hu) as (Ho & [Hf _] & _). destruct (src_table k Hk Hu) as (_ & Hf' & _).
  apply own_pt in Ho as [Hp _]. rewrite entry_is_user_eq in Hp. apply andb_true_iff in Hp as [Hp _].
  rewrite has_present, Hp. cbn [negb]. destruct (Z.eqb_spec (ct k) (pt k)) as [E|_].
  { by apply child_ne_src in E. }
  rewrite !phys_ptr_frame by done. apply user_step; [done|].
  apply (clone_pages_ok (new :: D) (done_dirs k) K (ext2 m k) σ src k (pt k) (ct k) (p2_ok _ _ Q)).
  - by apply done_dirs_T, Hsrc.
  - apply own_pt. by rewrite step_dir_word.
  - done.
  - apply todo_fresh; [unfold ix in Hk; lia|done].
Qed.
End step.

Lemma clone_tables_ok : pass2 1024 (for_loop 0 1024 (clone_table (kv new) (kv src)) σ1).
Proof.
  apply (for_loop_inv pass2 (clone_table (kv new) (kv src)) 0 1024 σ1); [|exact pass2_start].
  intros k σ Hk Q. by apply clone_table_ok.
Qed.
End tables.

(** ** The whole clone *)

(** Every table of the space has a user entry. *)
Definition tables_full m src : Prop :=
  ∀ i, ix i → entry_is_user (tw m src i) = true →
    ∃ j, ix j ∧ entry_is_user (tw m (paging_entry_addr (tw m src i)) j) = true.

(** Nothing but new pages has been written. *)
Lemma new_pages σ m' D T K ext new :
  vm_ok σ D T K ext → total (vm_mem σ) D T K ext new = 0 →
  (∀ f, frame f → f ≠ new → page_same (vm_mem σ) m' f) →
  tables_same (vm_mem σ) m' T K ∧ (∀ f, is_table (vm_mem σ) D T K f → page_same (vm_mem σ) m' f) ∧
  ∀ f, frame f → 1 <= total (vm_mem σ) D T K ext f → page_same (vm_mem σ) m' f.
Proof.
  intros OK Hz Hs.
  assert (∀ f, is_table (vm_mem σ) D T K f → page_same (vm_mem σ) m' f) as Ht.
  { intros f Hx. destruct (table_frame _ _ _ _ _ _ _ OK f Hx) as [[? _] ?]. apply Hs; [done|]. intros ->. lia. }
  split; [by eapply same_tables|]. split; [done|]. intros f Hf Hx. apply Hs; [done|]. intros ->. lia.
Qed.

(** The pages behind a live directory entry, for a step that leaves the tables alone. *)
Lemma table_walk σ D T K ext pd i :
  vm_ok σ D T K ext → (pd, i) ∈ T → present (tw (vm_mem σ) pd i) = true →
  frame (paging_entry_addr (tw (vm_mem σ) pd i)) ∧
  is_table (vm_mem σ) D T K (paging_entry_addr (tw (vm_mem σ) pd i)).
Proof.
  intros OK Ht Hp. split; [by eapply pt_frame|]. destruct (user (tw (vm_mem σ) pd i)) eqn:Hu.
  - right. right. exists pd, i. split; [done|]. apply own_pt. by rewrite entry_is_user_eq, Hp, Hu.
  - right. left. by apply (vo_kdir _ _ _ _ _ _ _ OK).
Qed.

Lemma tables_walk σ m' D T K ext :
  vm_ok σ D T K ext → (∀ f, is_table (vm_mem σ) D T K f → page_same (vm_mem σ) m' f) →
  walks_same (vm_mem σ) m' T.
Proof.
  intros OK Hs pd i k Ht Hk. destruct (pd_frame _ _ _ _ _ _ _ _ _ OK Ht) as (_ & Hd & Hi). unfold walk.
  rewrite (page_same_tw (vm_mem σ) m' pd) by (done || apply Hs; by left).
  destruct (present (tw (vm_mem σ) pd i)) eqn:Hp; [|done].
  rewrite (page_same_tw (vm_mem σ) m'); [done| |done]. apply Hs. by eapply table_walk.
Qed.

(** What a failed operation leaves. *)
Definition no_effect σ σ' D T K ext : Prop :=
  vm_ok σ' D T K ext ∧ walks_same (vm_mem σ) (vm_mem σ') T ∧
  data_same (vm_mem σ) (vm_mem σ') D T K ext ∧ same_managed σ σ'.

(** The space [new] sees what [src] sees, which is what it saw with its private
    writable pages made copy-on-write; nobody else sees a change. *)
Definition forked σ σ' D T K ext src new : Prop :=
  vm_ok σ' (new :: D) (pd_dirs new ++ T) K ext ∧
  (∀ i j, ix i → ix j → walk (vm_mem σ') new i j = walk (vm_mem σ') src i j) ∧
  (∀ pd i j, (pd, i) ∈ T → ix j → walk (vm_mem σ') pd i j =
     (if decide (pd = src) then downgrade <$> walk (vm_mem σ) pd i j else walk (vm_mem σ) pd i j)) ∧
  data_same (vm_mem σ) (vm_mem σ') D T K ext ∧ same_managed σ σ'.

Lemma pass1_start σ D T K ext src a σ1 :
  vm_ok σ D T K ext → pmm_alloc_page σ = (a, σ1) → a ≠ 0 →
  pass1 inv managed D T K ext src a (vm_mem σ) 0 σ (set_mem (zero_table (vm_mem σ1) (kv a)) σ1) ∧
  frame a ∧ total (vm_mem σ) D T K ext a = 0.
Proof.
  intros OK Ea Ha. destruct (alloc_ok _ _ _ _ _ _ _ _ _ OK Ea Ha) as (OK1 & Hf & Hz & Hm & Hman).
  rewrite Hm. destruct (zero_table_spec (vm_mem σ) a (proj1 Hf)) as [Hz0 Hs].
  split; [|split; [apply Hf|done]]. set (m' := zero_table _ _) in *. clearbody m'.
  destruct (new_pages σ m' D T K ext a OK Hz Hs) as (Hts & _).
  assert (∀ f, ext1 ext a m' 0 f = add_ref ext a f) as He.
  { intros f. unfold ext1, add_ref. rewrite child_refs_nil. lia. }
  split; cbn [vm_mem set_mem]; try (by intros; lia).
  - eapply vm_ok_ext; [exact He|]. apply set_mem_ok; [done|]. by rewrite Hm.
  - split; [done|]. unfold total in *. rewrite He. unfold add_ref.
    rewrite (tables_same_owners (vm_mem σ) m' D T K) by done. rewrite ind_true by done. lia.
  - done.
  - intros i Hi. apply Hz0. unfold ix. lia.
  - done.
Qed.

Section forked.
Context σ D T K ext (src new : Z) σ1 σ' (OK : vm_ok σ D T K ext) (Hsrc : ∀ i, ix i → (src, i) ∈ T).
Context (Hfull : tables_full (vm_mem σ) src) (Hnew : frame new) (Hz : total (vm_mem σ) D T K ext new = 0).
Context (P : pass1 inv managed D T K ext src new (vm_mem σ) 1024 σ σ1).
Context (Q : pass2 D T K ext src new (vm_mem σ) σ σ1 1024 σ').
Notation Hext0 := (vo_ext _ _ _ _ _ _ _ OK).
Notation pt i := (paging_entry_addr (tw (vm_mem σ) src i)).
Notation ct i := (paging_entry_addr (tw (vm_mem σ1) new i)).
Notation is_user i := (entry_is_user (tw (vm_mem σ) src i) = true).

Lemma fork_child_unused i : ix i → is_user i → total (vm_mem σ) D T K ext (ct i) = 0.
Proof.
  intros Hi Hu.
  destruct (new_pages σ (vm_mem σ1) D T K ext new OK Hz (p1_same _ _ _ _ _ _ _ _ _ _ _ _ P)) as (Hts & _).
  destruct (child_table D T K ext src new (vm_mem σ) σ σ1 Hext0 P i Hi Hu) as (_ & _ & _ & _ & Ht1 & Hc).
  unfold total, ext1 in *. rewrite <-(tables_same_owners _ _ D T K (ct i) Hts).
  pose proof (owners_nonneg (vm_mem σ1) D T (ct i)). pose proof (ind_range (new = ct i)). pose proof (Hext0 (ct i)).
  pose proof (ind_range (ct i ∈ K)). lia.
Qed.

Lemma fork_same f :
  frame f → 1 <= total (vm_mem σ) D T K ext f → (∀ i, ix i → is_user i → f ≠ pt i) →
  page_same (vm_mem σ) (vm_mem σ') f.
Proof.
  intros Hf Hx Hne.
  destruct (new_pages σ (vm_mem σ1) D T K ext new OK Hz (p1_same _ _ _ _ _ _ _ _ _ _ _ _ P)) as (_ & _ & Hdata).
  eapply page_same_trans; [by apply Hdata|]. apply (p2_same _ _ _ _ _ _ _ _ _ _ _ Q); [done|].
  intros i Hi Hu. assert (ix i) as Hi' by (unfold ix; lia). split; [by apply Hne|].
  intros ->. pose proof (fork_child_unused i Hi' Hu). lia.
Qed.

Lemma fork_table_same f :
  is_table (vm_mem σ) D T K f → (∀ i, ix i → is_user i → f ≠ pt i) → page_same (vm_mem σ) (vm_mem σ') f.
Proof.
  intros Hx. destruct (table_frame _ _ _ _ _ _ _ OK f Hx) as [[? _] E]. apply fork_same; [done|]. lia.
Qed.

Lemma fork_words i :
  ix i → tw (vm_mem σ') src i = tw (vm_mem σ) src i ∧ tw (vm_mem σ') new i = tw (vm_mem σ1) new i.
Proof.
  intros Hi. split.
  - by apply (p2_src_word D T K ext src new (vm_mem σ) σ σ1 Hext0 Hsrc Hfull P 1024 σ' ltac:(lia) Q).
  - by apply (p2_new_word D T K ext src new (vm_mem σ) σ σ1 Hext0 Hsrc Hfull P 1024 σ' ltac:(lia) Q).
Qed.

(** The kernel's tables have no page of a user and stay as they are. *)
Lemma fork_kernel i j :
  ix i → ix j → present (tw (vm_mem σ) src i) = true → entry_is_user (tw (vm_mem σ) src i) = false →
  tw (vm_mem σ') (pt i) j = tw (vm_mem σ) (pt i) j ∧ private_writable (tw (vm_mem σ) (pt i) j) = false.
Proof.
  intros Hi Hj Hp Hu. rewrite entry_is_user_eq, Hp in Hu.
  pose proof (vo_kdir _ _ _ _ _ _ _ OK src i (Hsrc i Hi) Hp Hu) as HK. split.
  - apply page_same_tw; [|done]. apply fork_table_same; [right; by left|]. intros i' Hi' Hu' Ee.
    apply (pt_not_K _ _ _ _ _ _ _ OK src i' (pt i') (Hsrc i' Hi')); [by apply own_pt|by rewrite <-Ee].
  - unfold private_writable, holds_page. rewrite entry_is_user_eq.
    destruct (present (tw (vm_mem σ) (pt i) j)) eqn:Hpj; [|done].
    by destruct (vo_Kent _ _ _ _ _ _ _ OK (pt i) j HK Hj Hpj) as [-> _].
Qed.

Lemma fork_child_walk i j : ix i → ix j → walk (vm_mem σ') new i j = walk (vm_mem σ') src i j.
Proof.
  intros Hi Hj. unfold walk. destruct (fork_words i Hi) as [-> ->].
  destruct (entry_is_user (tw (vm_mem σ) src i)) eqn:Hu.
  - destruct (child_table D T K ext src new (vm_mem σ) σ σ1 Hext0 P i Hi Hu) as (Ho & _). apply own_pt in Ho as [Ho _].
    rewrite entry_is_user_eq in Ho. apply andb_true_iff in Ho as [-> _]. pose proof Hu as Hp.
    rewrite entry_is_user_eq in Hp. apply andb_true_iff in Hp as [-> _].
    by rewrite (p2_new _ _ _ _ _ _ _ _ _ _ _ Q).
  - rewrite (p1_kern _ _ _ _ _ _ _ _ _ _ _ _ P i Hi Hu).
    destruct (present (tw (vm_mem σ) src i)) eqn:Hp; [by rewrite Hp|done].
Qed.

Lemma fork_src_walk i j :
  ix i → ix j → walk (vm_mem σ') src i j = downgrade <$> walk (vm_mem σ) src i j.
Proof.
  intros Hi Hj. unfold walk. destruct (fork_words i Hi) as [-> _].
  destruct (present (tw (vm_mem σ) src i)) eqn:Hp; [|done].
  destruct (entry_is_user (tw (vm_mem σ) src i)) eqn:Hu.
  - rewrite (p2_src _ _ _ _ _ _ _ _ _ _ _ Q) by done.
    destruct (downgrade_flags (tw (vm_mem σ) (pt i) j)) as (-> & _).
    by destruct (present (tw (vm_mem σ) (pt i) j)).
  - destruct (fork_kernel i j Hi Hj Hp Hu) as [-> Hpw].
    destruct (present (tw (vm_mem σ) (pt i) j)); [|done]. simpl. unfold downgrade. by rewrite Hpw.
Qed.

Lemma fork_other_walk pd i j :
  (pd, i) ∈ T → ix j → pd ≠ src → walk (vm_mem σ') pd i j = walk (vm_mem σ) pd i j.
Proof.
  intros Ht Hj Hpd. destruct (pd_frame _ _ _ _ _ _ _ _ _ OK Ht) as (_ & Hd & Hi).
  assert (∀ i', ix i' → is_user i' → own (vm_mem σ) (OwnPt src i') = Some (pt i')) as Ho by (intros; by apply own_pt).
  unfold walk. rewrite (page_same_tw (vm_mem σ) (vm_mem σ') pd); [|apply fork_table_same; [by left|]|done].
  2: { intros i' Hi' Hu' Ee. apply (pt_not_pd _ _ _ _ _ _ _ OK src i' (pt i') (Hsrc i' Hi')); [auto|by rewrite <-Ee]. }
  destruct (present (tw (vm_mem σ) pd i)) eqn:Hp; [|done].
  rewrite (page_same_tw (vm_mem σ) (vm_mem σ')); [done| |done].
  apply fork_table_same; [by eapply table_walk|]. intros i' Hi' Hu' Ee.
  destruct (user (tw (vm_mem σ) pd i)) eqn:Hus.
  - destruct (pt_inj _ _ _ _ _ _ _ OK src i' pd i (pt i') (Hsrc i' Hi') Ht (Ho i' Hi' Hu')) as [? _]; [|done].
    apply own_pt. by rewrite entry_is_user_eq, Hp, Hus.
  - apply (pt_not_K _ _ _ _ _ _ _ OK src i' (pt i') (Hsrc i' Hi')); [auto|]. rewrite <-Ee.
    by apply (vo_kdir _ _ _ _ _ _ _ OK).
Qed.

Lemma forked_ok : forked σ σ' D T K ext src new.
Proof.
  split; [|split; [exact fork_child_walk|split; [|split]]].
  - eapply vm_ok_ext; [|exact (p2_ok _ _ _ _ _ _ _ _ _ _ _ Q)]. intros f. unfold ext2. rewrite child_refs_nil. lia.
  - intros pd i j Ht Hj. destruct (pd_frame _ _ _ _ _ _ _ _ _ OK Ht) as (_ & _ & Hi). case_decide as Hpd.
    + subst pd. by apply fork_src_walk.
    + by apply fork_other_walk.
  - intros f Hf Hn Hx. apply fork_same; [done..|]. intros i Hi Hu Ee. apply Hn. right. right. exists src, i.
    rewrite Ee. split; [auto|by apply own_pt].
  - apply (p2_managed _ _ _ _ _ _ _ _ _ _ _ Q).
Qed.
End forked.

Lemma clone_ok σ D T K ext src new σ' :
  vm_ok σ D T K ext → (∀ i, ix i → (src, i) ∈ T) → tables_full (vm_mem σ) src →
  paging_clone_user_space σ src = (new, σ') →
  new = 0 ∧ no_effect σ σ' D T K ext ∨ new ≠ 0 ∧ new ∉ D ∧ forked σ σ' D T K ext src new.
Proof.
  intros OK Hsrc Hfull E. unfold paging_clone_user_space in E.
  destruct (pmm_alloc_page σ) as [a σ1] eqn:Ea. destruct (Z.eqb_spec a 0) as [->|Ha].
  { left. pose proof (f_equal fst E) as E1. pose proof (f_equal snd E) as E2. cbn [fst snd] in E1, E2. subst new σ'.
    split; [done|]. by rewrite (alloc_fail _ _ _ _ _ _ _ _ OK Ea). }
  destruct (pass1_start σ D T K ext src a σ1 OK Ea Ha) as (P0 & Hf & Hz).
  destruct (pd_frame _ _ _ _ _ _ _ _ _ OK (Hsrc 0 ltac:(done))) as (Hfs & _).
  rewrite !phys_ptr_frame in E by done. pose proof (vo_ext _ _ _ _ _ _ _ OK) as Hext0.
  pose proof (pass1_run inv managed D T K ext src a (vm_mem σ) Hext0 Hsrc Hfull σ _ P0) as R.
  set (r := for_exit 0 1024 _ _) in *. clearbody r.
  destruct r as [σ2|σ2]; pose proof (f_equal fst E) as E1; pose proof (f_equal snd E) as E2; cbn [fst snd] in E1, E2; subst new σ'.
  - left. split; [done|]. destruct R as (OK2 & Hs & Hman).
    destruct (new_pages σ (vm_mem σ2) D T K ext a OK Hz Hs) as (_ & Htab & Hdata).
    split; [done|]. split; [by eapply tables_walk|]. split; [|done]. intros f Hff _ Hx. by apply Hdata.
  - right. pose proof (clone_tables_ok D T K ext src a (vm_mem σ) σ σ2 Hext0 Hsrc Hfull R) as Q.
    split; [done|]. split; [by eapply new_fresh|]. by eapply forked_ok.
Qed.
End fork.
