(* ===== verification/Fault.v ===== *)
(** * Page faults: the model (kernel/mm/fault.c)

    The handler of recoverable user faults: copy-on-write pages are copied or
    taken over, untouched pages of anonymous areas are mapped zeroed, pages of
    private file mappings are read from the file, and the stack grows down.
    Reading a file goes through the [FileReader] interface, the page tables
    through the architecture interface of [Paging].  A NULL process is not a
    value of the model; a fault without a process returns [-1] at once. *)

From S2P Require Import Prelude Interfaces Memory Kstring Vma Paging.

Definition PF_ERR_PRESENT : Z := 0x1.
Definition PF_ERR_WRITE : Z := 0x2.
Definition PF_ERR_USER : Z := 0x4.

(** [vfs_read(ref, offset, buf, count)]: the result and what it does to memory
    and to the file systems. *)
Class FileReader (F : Type) := {
  vfs_read : F → vfs_file_ref → Z → Z → Z → mem → Z * mem * F;
}.

(** A read that succeeds puts the file's bytes in the buffer, as many as it
    returns; a failed one leaves anything there and nothing anywhere else. *)
Class FileReaderLaws (F : Type) `{FileReader F} (file_byte : F → vfs_file_ref → Z → Z) := {
  vfs_read_frame fs ref off buf count m x :
    x < buf ∨ buf + count <= x → mem_get (vfs_read fs ref off buf count m).1.2 x = mem_get m x;
  vfs_read_ok fs ref off buf count m n m' fs' x :
    vfs_read fs ref off buf count m = (n, m', fs') → 0 <= n → 0 <= x < count →
    mem_get m' (buf + x) = if x <? n then file_byte fs ref (off + x) else mem_get m (buf + x);
}.

(** ** Which accesses an area allows *)

Definition vma_allows_access (vma : option vm_area) (err : Z) : bool :=
  match vma with
  | None => false
  | Some v =>
      if flags v &u (VMA_FLAG_READ |u VMA_FLAG_WRITE |u VMA_FLAG_EXEC) =? 0 then false
      else if has err PF_ERR_WRITE then has (flags v) VMA_FLAG_WRITE else true
  end.

Definition vma_is_private_file_backed (v : vm_area) : bool :=
  (kind v =? VMA_KIND_GENERIC) && negb (has (flags v) VMA_FLAG_ANON) &&
  has (flags v) VMA_FLAG_PRIVATE && negb (mount_id (file_ref v) =? 0).

(** [(flags & (ANON | PRIVATE)) == (ANON | PRIVATE)] *)
Definition vma_private_anon (v : vm_area) : bool :=
  flags v &u (VMA_FLAG_ANON |u VMA_FLAG_PRIVATE) =? (VMA_FLAG_ANON |u VMA_FLAG_PRIVATE).

Definition lazy_map_flags (v : vm_area) : Z :=
  let fl := ARCH_MM_MAP_PRESENT |u ARCH_MM_MAP_READ |u ARCH_MM_MAP_USER in
  if has (flags v) VMA_FLAG_WRITE then fl |u ARCH_MM_MAP_WRITE else fl.

Definition set_stack_low_limit (p : process) (low : Z) : process :=
  mk_proc (as_ p) (p_vmas p) (p_vma_count p) (p_brk p) low.

Section fault.
Context {S : Type} `{PageAllocator S} {F : Type} `{FileReader F}.
Implicit Types (σ : vm S) (cur : process) (fs : F).

(** ** Copy on write *)

Definition fault_break_cow σ (aspace fault_page : Z) : Z * vm S :=
  match arch_mm_query σ aspace fault_page with
  | None => (-1, σ)
  | Some (old_phys, mflags) =>
      if mflags &u ARCH_MM_MAP_COW =? 0 then (-1, σ)
      else if pmm_refcount σ old_phys <=? 1
      then arch_mm_update σ aspace fault_page ARCH_MM_MAP_COW ARCH_MM_MAP_WRITE
      else
        let '(new_phys, σ) := pmm_alloc_page σ in
        if new_phys =? 0 then (-1, σ)
        else match arch_page_temp_map new_phys, arch_page_temp_map old_phys with
             | Some dst, Some src =>
                 let map_flags := (mflags |u ARCH_MM_MAP_WRITE) &u not32 ARCH_MM_MAP_COW in
                 let σ := set_mem (k_memcpy (vm_mem σ) dst src PAGE_SIZE) σ in
                 let '(rc, σ) := arch_mm_map σ aspace fault_page new_phys map_flags in
                 if negb (rc =? 0) then (-1, pmm_free_page σ new_phys)
                 else (0, pmm_decref σ old_phys)
             | _, _ => (-1, pmm_free_page σ new_phys)
             end
  end.

(** ** Lazy pages *)

(** Allocate a page, fill it through its temporary mapping and map it; [fill]
    may fail.  The shape shared by the three lazy paths. *)
Definition lazy_page {A : Type} (fill : mem → Z → Z * mem * A) (none : A) σ (aspace virt map_flags : Z)
  : Z * vm S * A :=
  let '(phys, σ) := pmm_alloc_page σ in
  if phys =? 0 then (-1, σ, none)
  else match arch_page_temp_map phys with
       | None => (-1, pmm_free_page σ phys, none)
       | Some page =>
           let '(rc, m, a) := fill (k_memset (vm_mem σ) page 0 PAGE_SIZE) page in
           let σ := set_mem m σ in
           if negb (rc =? 0) then (-1, pmm_free_page σ phys, a)
           else
             let '(rc, σ) := arch_mm_map σ aspace virt phys map_flags in
             if negb (rc =? 0) then (-1, pmm_free_page σ phys, a) else (0, σ, a)
       end.

Definition lazy_zero_page σ (aspace virt map_flags : Z) : Z * vm S :=
  (lazy_page (λ m _, (0, m, ())) () σ aspace virt map_flags).1.

(** The stack loop: pages from [page] down to the one that faulted. *)
Fixpoint grow_stack (fuel : nat) (aspace fault_page low map_flags page : Z) cur σ
  : option (Z * vm S * process) :=
  match fuel with
  | O => None
  | Datatypes.S fuel =>
      if (fault_page <=? page) && (low <=? page) then
        let '(rc, σ) := lazy_zero_page σ aspace page map_flags in
        if negb (rc =? 0) then Some (-1, σ, cur)
        else
          let cur := set_stack_low_limit cur page in
          if page =? 0 then Some (0, σ, cur)
          else grow_stack fuel aspace fault_page low map_flags (page -u PAGE_SIZE) cur σ
      else Some (0, σ, cur)
  end.

Definition fault_handle_lazy_anon_fault σ (aspace cr2 user_esp : Z) cur (v : vm_area)
  : option (Z * vm S * process) :=
  let fault_page := cr2 &u not32 0xFFF in
  if negb (vma_private_anon v) then Some (-1, σ, cur)
  else if (kind v =? VMA_KIND_HEAP) || (kind v =? VMA_KIND_GENERIC) then
    let '(rc, σ) := lazy_zero_page σ aspace fault_page (lazy_map_flags v) in Some (rc, σ, cur)
  else
    let stack_slack := if 32 <? user_esp then user_esp -u 32 else 0 in
    if (kind v =? VMA_KIND_STACK) && has (flags v) VMA_FLAG_GROWSDOWN && (start v <=? fault_page) &&
       (fault_page <? p_stack_low_limit cur) && (stack_slack <=? cr2) && (cr2 <? end_ v)
    then grow_stack (Z.to_nat (p_stack_low_limit cur / PAGE_SIZE + 1)) aspace fault_page (start v)
           (lazy_map_flags v) (p_stack_low_limit cur -u PAGE_SIZE) cur σ
    else Some (-1, σ, cur).

(** The bytes of a file page over a zeroed one. *)
Definition read_file_page (v : vm_area) fs (fault_page : Z) (m : mem) (page : Z) : Z * mem * F :=
  let rel := fault_page -u start v in
  if UINT32_MAX - file_offset v <? rel then (-1, m, fs)
  else
    let off := file_offset v +u rel in
    if off <? file_size v then
      let len := file_size v -u off in
      let len := if PAGE_SIZE <? len then PAGE_SIZE else len in
      let '(n, m, fs) := vfs_read fs (file_ref v) off page len m in
      (if n <? 0 then -1 else 0, m, fs)
    else (0, m, fs).

Definition fault_handle_lazy_file_private_fault σ fs (aspace fault_page : Z) (v : vm_area)
  : Z * vm S * F :=
  if (fault_page <? start v) || (end_ v <=? fault_page) then (-1, σ, fs)
  else if negb (vma_is_private_file_backed v) then (-1, σ, fs)
  else lazy_page (read_file_page v fs fault_page) fs σ aspace fault_page (lazy_map_flags v).

(** ** The handler *)

Definition lazy_file σ fs (aspace fault_page : Z) cur v : option (Z * vm S * F * process) :=
  let '(rc, σ, fs) := fault_handle_lazy_file_private_fault σ fs aspace fault_page v in
  Some (rc, σ, fs, cur).
Definition lazy_anon σ fs (aspace cr2 user_esp : Z) cur v : option (Z * vm S * F * process) :=
  match fault_handle_lazy_anon_fault σ aspace cr2 user_esp cur v with
  | Some (rc, σ, cur) => Some (rc, σ, fs, cur)
  | None => None
  end.

(** Is the page present for the kernel only? *)
Definition shadow_mapping (q : option (Z * Z)) : bool :=
  match q with
  | Some (_, mflags) =>
      (mflags &u (ARCH_MM_MAP_PRESENT |u ARCH_MM_MAP_USER) =? ARCH_MM_MAP_PRESENT) &&
      (mflags &u ARCH_MM_MAP_COW =? 0)
  | None => false
  end.

Definition paging_handle_fault σ fs (pd_phys cr2 err user_esp : Z) (cur : option process)
  : option (Z * vm S * F * option process) :=
  let fault_page := cr2 &u not32 0xFFF in
  match cur with
  | None => Some (-1, σ, fs, cur)
  | Some p =>
      if err &u PF_ERR_USER =? 0 then Some (-1, σ, fs, cur)
      else
        let done '(rc, σ, fs, p) := (rc, σ, fs, Some p) in
        let cow :=
          if err &u PF_ERR_WRITE =? 0 then Some (-1, σ, fs, cur)
          else let '(rc, σ) := fault_break_cow σ pd_phys fault_page in Some (rc, σ, fs, cur) in
        match vma_find_const p cr2 with
        | None => Some (-1, σ, fs, cur)
        | Some v =>
            if negb (vma_allows_access (Some v) err) then Some (-1, σ, fs, cur)
            else if err &u PF_ERR_PRESENT =? 0 then
              if vma_is_private_file_backed v then done <$> lazy_file σ fs pd_phys fault_page p v
              else done <$> lazy_anon σ fs pd_phys cr2 user_esp p v
            else if shadow_mapping (arch_mm_query σ pd_phys fault_page) then
              if vma_is_private_file_backed v then done <$> lazy_file σ fs pd_phys fault_page p v
              else if vma_private_anon v then done <$> lazy_anon σ fs pd_phys cr2 user_esp p v
              else cow
            else cow
        end
  end.
End fault.
