(* ===== verification/Uaccess.v ===== *)
(** * Kernel access to user memory: the model (kernel/proc/uaccess.c)

    The kernel reads and writes user memory page by page through its own
    mapping of the frames, after the same checks and repairs a user access
    would go through: the area must allow it, a page not there yet is mapped, a
    copy-on-write page is broken before a write.  A process is its page
    directory [pd] and its areas [p]. *)

From S2P Require Import Prelude Interfaces Memory Kstring Vma Paging Fault.

Definition USER_STACK_TOP : Z := 0xC0000000.

Definition uaccess_vma_allows (p : process) (user_addr : Z) (write_access : bool) : bool :=
  match vma_find_const p user_addr with
  | None => false
  | Some v =>
      if write_access then has (flags v) VMA_FLAG_WRITE
      else has (flags v) (VMA_FLAG_READ |u VMA_FLAG_WRITE |u VMA_FLAG_EXEC)
  end.

Definition uaccess_range_ok (user_addr len : Z) : Z :=
  if len =? 0 then 0
  else if USER_STACK_TOP <=? user_addr then -1
  else
    let e := user_addr +u len in
    if (e <? user_addr) || (USER_STACK_TOP <? e) then -1 else 0.

Section uaccess.
Context {S : Type} `{PageAllocator S} {F : Type} `{FileReader F}.
Implicit Types (σ : vm S) (p : process) (fs : F).

(** The same text as [fault_break_cow]. *)
Definition uaccess_break_cow σ (pd fault_page : Z) : Z * vm S := fault_break_cow σ pd fault_page.

Definition uaccess_map_lazy_anon σ (pd fault_page : Z) (v : vm_area) : Z * vm S :=
  if negb (vma_private_anon v) then (-1, σ)
  else if negb (kind v =? VMA_KIND_HEAP) && negb (kind v =? VMA_KIND_GENERIC) then (-1, σ)
  else lazy_zero_page σ pd fault_page (lazy_map_flags v).

Definition uaccess_map_lazy σ fs (pd fault_page : Z) (v : vm_area) : Z * vm S * F :=
  if flags v &u VMA_FLAG_ANON =? 0 then fault_handle_lazy_file_private_fault σ fs pd fault_page v
  else (uaccess_map_lazy_anon σ pd fault_page v, fs).

(** Mapping the page and asking again; the shape of the two repairs before the
    access checks. *)
Definition map_and_query σ fs (pd page_base : Z) (v : vm_area) : option (Z * Z) * vm S * F :=
  let '(rc, σ, fs) := uaccess_map_lazy σ fs pd page_base v in
  if negb (rc =? 0) then (None, σ, fs) else (arch_mm_query σ pd page_base, σ, fs).

(** The mapping of the page; a page that is not there is mapped first. *)
Definition find_page σ fs (pd page_base : Z) (v : vm_area) : option (Z * Z) * vm S * F :=
  match arch_mm_query σ pd page_base with
  | Some m => (Some m, σ, fs)
  | None => map_and_query σ fs pd page_base v
  end.

(** A page only the kernel has is mapped for the user. *)
Definition user_page σ fs (pd page_base : Z) (v : vm_area) (q : option (Z * Z)) : option (Z * Z) * vm S * F :=
  match q with
  | Some (_, fl) =>
      if (fl &u ARCH_MM_MAP_USER =? 0) && (fl &u ARCH_MM_MAP_COW =? 0)
      then map_and_query σ fs pd page_base v else (q, σ, fs)
  | None => (None, σ, fs)
  end.

(** The access must be allowed by the mapping; a write breaks copy on write. *)
Definition check_access σ (pd page_base : Z) (write_access : bool) (q : option (Z * Z)) : option (Z * Z) * vm S :=
  match q with
  | Some (_, fl) =>
      if fl &u ARCH_MM_MAP_USER =? 0 then (None, σ)
      else if write_access && (fl &u ARCH_MM_MAP_WRITE =? 0) then
        if fl &u ARCH_MM_MAP_COW =? 0 then (None, σ)
        else
          let '(rc, σ) := uaccess_break_cow σ pd page_base in
          if negb (rc =? 0) then (None, σ) else (arch_mm_query σ pd page_base, σ)
      else (q, σ)
  | None => (None, σ)
  end.

(** The kernel address of the user byte, [None] for the result [-1]. *)
Definition uaccess_translate σ fs (pd : Z) p (user_addr : Z) (write_access : bool) : option Z * vm S * F :=
  if USER_STACK_TOP <=? user_addr then (None, σ, fs)
  else match vma_find_const p user_addr with
  | None => (None, σ, fs)
  | Some v =>
      if negb (uaccess_vma_allows p user_addr write_access) then (None, σ, fs)
      else
        let page_base := user_addr &u not32 0xFFF in
        let '(q, σ, fs) := find_page σ fs pd page_base v in
        let '(q, σ, fs) := user_page σ fs pd page_base v q in
        let '(q, σ) := check_access σ pd page_base write_access q in
        (match q with
         | Some (phys, _) =>
             match arch_page_temp_map phys with
             | Some page_ptr => Some (page_ptr +u (user_addr &u 0xFFF))
             | None => None
             end
         | None => None
         end, σ, fs)
  end.

(** The loop over the pages of a range: [body] gets the user address, the
    offset and the length of one chunk, and [false] is the failing return. *)
Fixpoint chunk_loop (fuel : nat) (base len offset : Z)
    (body : Z → Z → Z → vm S → F → bool * vm S * F) σ fs : option (Z * vm S * F) :=
  match fuel with
  | O => None
  | Datatypes.S fuel =>
      if offset <? len then
        let addr := base +u offset in
        let page_off := addr &u 0xFFF in
        let chunk := PAGE_SIZE -u page_off in
        let chunk := if len -u offset <? chunk then len -u offset else chunk in
        match body addr offset chunk σ fs with
        | (true, σ, fs) => chunk_loop fuel base len (offset +u chunk) body σ fs
        | (false, σ, fs) => Some (-1, σ, fs)
        end
      else Some (0, σ, fs)
  end.

Definition chunks (base len : Z) body σ fs : option (Z * vm S * F) :=
  chunk_loop (Z.to_nat (len + 1)) base len 0 body σ fs.

Definition uaccess_prepare σ fs pd p (user_addr len : Z) (write_access : bool) : option (Z * vm S * F) :=
  if negb (uaccess_range_ok user_addr len =? 0) then Some (-1, σ, fs)
  else chunks user_addr len
         (λ addr _ _ σ fs,
            match uaccess_translate σ fs pd p addr write_access with
            | (Some _, σ, fs) => (true, σ, fs)
            | (None, σ, fs) => (false, σ, fs)
            end) σ fs.

Definition uaccess_copy_from_user σ fs pd p (dst user_src len : Z) : option (Z * vm S * F) :=
  match uaccess_prepare σ fs pd p user_src len false with
  | Some (rc, σ, fs) =>
      if negb (rc =? 0) then Some (-1, σ, fs)
      else chunks user_src len
             (λ addr offset chunk σ fs,
                match uaccess_translate σ fs pd p addr false with
                | (Some kptr, σ, fs) => (true, set_mem (k_memcpy (vm_mem σ) (dst +u offset) kptr chunk) σ, fs)
                | (None, σ, fs) => (false, σ, fs)
                end) σ fs
  | None => None
  end.

Definition uaccess_copy_to_user σ fs pd p (user_dst src len : Z) : option (Z * vm S * F) :=
  match uaccess_prepare σ fs pd p user_dst len true with
  | Some (rc, σ, fs) =>
      if negb (rc =? 0) then Some (-1, σ, fs)
      else chunks user_dst len
             (λ addr offset chunk σ fs,
                match uaccess_translate σ fs pd p addr true with
                | (Some kptr, σ, fs) => (true, set_mem (k_memcpy (vm_mem σ) kptr (src +u offset) chunk) σ, fs)
                | (None, σ, fs) => (false, σ, fs)
                end) σ fs
  | None => None
  end.

(** One character of the string; [inl] ends the loop. *)
Definition copy_char pd p (dst user_src i : Z) (s : vm S * F) : (Z * vm S * F) + (vm S * F) :=
  let '(σ, fs) := s in
  match uaccess_translate σ fs pd p (user_src +u i) false with
  | (Some kptr, σ, fs) =>
      let c := mem_get (vm_mem σ) kptr in
      let σ := set_mem (mem_set (vm_mem σ) (dst + i) c) σ in
      if c =? 0 then inl (0, σ, fs) else inr (σ, fs)
  | (None, σ, fs) => inl (-1, σ, fs)
  end.

Definition uaccess_copy_string_from_user σ fs pd p (dst dstsz user_src : Z) : Z * vm S * F :=
  if (dst =? 0) || (dstsz =? 0) || (user_src =? 0) then (-1, σ, fs)
  else match for_exit 0 (Z.to_nat dstsz) (copy_char pd p dst user_src) (σ, fs) with
       | inl r => r
       | inr (σ, fs) => (-1, σ, fs)
       end.
End uaccess.
