(* ===== verification/FaultSpec.v ===== *)
(** * Page faults: lemmas

    What a page that is allocated, filled and mapped does to the address
    spaces, for each of the handlers built from it. *)

From S2P Require Import Prelude Interfaces Memory Kstring Vma Paging PagingSpec PagingInv PagingSteps PagingOps PagingSpaces PagingClone PagingFork Fault.

#[local] Opaque for_loop for_exit zero_table copy_table.

(** ** Flags *)

Lemma entry_mapping_has e :
  let fl := entry_mapping_flags e in
  (fl &u ARCH_MM_MAP_COW =? 0) = negb (cow e) ∧ (fl &u ARCH_MM_MAP_USER =? 0) = negb (user e) ∧
  (fl &u ARCH_MM_MAP_WRITE =? 0) = negb (writable e) ∧
  (fl &u (ARCH_MM_MAP_PRESENT |u ARCH_MM_MAP_USER) =? ARCH_MM_MAP_PRESENT) = negb (user e) ∧
  fl &u ARCH_MM_MAP_SHARED = if shared e then ARCH_MM_MAP_SHARED else 0.
Proof.
  unfold entry_mapping_flags. rewrite has_shared, has_io, has_cow, has_user, has_writable.
  by destruct (shared e), (io e), (cow e), (user e), (writable e).
Qed.

(** The flags of the copy of a copy-on-write page. *)
Lemma cow_copy_flags e :
  user e = true → cow e = true → io e = false → shared e = false →
  arch_mm_to_paging_flags ((entry_mapping_flags e |u ARCH_MM_MAP_WRITE) &u not32 ARCH_MM_MAP_COW) = 7.
Proof.
  intros Hu Hc Hi Hs. unfold entry_mapping_flags. rewrite has_shared, has_io, has_cow, has_user, has_writable.
  rewrite Hu, Hc, Hi, Hs. by destruct (writable e).
Qed.

Lemma lazy_flags v :
  arch_mm_to_paging_flags (lazy_map_flags v) = (if has (flags v) VMA_FLAG_WRITE then 7 else 5) ∧
  page_flags (arch_mm_to_paging_flags (lazy_map_flags v)).
Proof. unfold lazy_map_flags, page_flags. by destruct (has (flags v) VMA_FLAG_WRITE). Qed.

(** The physical address of a frame of the direct map passes the checks of [arch_mm_map]. *)
Lemma arch_mm_map_eq {S} `{PageAllocator S} (σ : vm S) pd virt phys fl r σ' :
  frame phys → arch_mm_map σ pd virt phys fl = (r, σ') →
  r = -1 ∧ σ' = σ ∨ paging_map_page σ pd virt phys (arch_mm_to_paging_flags fl) = (r, σ').
Proof.
  intros [Hf _]. unfold arch_mm_map, UINT32_MAX. bcase; [lia|].
  destruct (_ && _); intros E; [left; by simplify_eq|by right].
Qed.

Lemma temp_map_frame f : frame f → arch_page_temp_map f = Some (kv f).
Proof.
  intros Hf. pose proof Hf as [? _]. unfold arch_page_temp_map, UINT32_MAX. bcase; [lia|]. by apply phys_ptr_frame.
Qed.

(** Filling and copying a page leave the other pages alone. *)
Lemma region_page_same m m' f n g :
  frame f → 0 <= n <= 4096 → mem_region m m' (kv f) n g → ∀ h, frame h → h ≠ f → page_same m m' h.
Proof.
  intros Hf Hn Hr h Hh Hne o Ho. rewrite (region_outside _ _ _ _ _ _ Hr); [done|].
  pose proof (frame_apart f h Hf Hh (not_eq_sym Hne)). unfold kv. lia.
Qed.

Section spec.
Context {S : Type} `{PageAllocator S} (inv : S → Prop) (managed : S → Z → Prop).
Context `{!PageAllocatorLaws S inv managed}.
Implicit Types (σ : vm S) (D : list Z) (T : list (Z * Z)) (K : gset Z) (ext : Z → Z) (m : mem).
Notation vm_ok := (vm_ok inv managed).
Notation mframe := (mframe managed).
Notation same_managed := (same_managed managed).
Notation no_effect := (no_effect inv managed).
Notation entry_set := (entry_set inv managed).

Lemma no_effect_refl σ D T K ext : vm_ok σ D T K ext → no_effect σ σ D T K ext.
Proof. intros OK. split; [done|]. split; [done|]. split; [|done]. intros f Hf _ _. apply page_same_refl. Qed.

(** A new page has been filled through its temporary mapping and nothing else. *)
Lemma filled_page σ D T K ext a σ1 m1 :
  vm_ok σ D T K ext → pmm_alloc_page σ = (a, σ1) → a ≠ 0 →
  (∀ g, frame g → g ≠ a → page_same (vm_mem σ) m1 g) →
  mframe σ a ∧ total (vm_mem σ) D T K ext a = 0 ∧ vm_ok (set_mem m1 σ1) D T K (add_ref ext a) ∧
  same_managed σ σ1 ∧ tables_same (vm_mem σ) m1 T K ∧ walks_same (vm_mem σ) m1 T ∧
  ∀ f, frame f → 1 <= total (vm_mem σ) D T K ext f → page_same (vm_mem σ) m1 f.
Proof.
  intros OK E Ha Hs. destruct (alloc_ok _ _ _ _ _ _ _ _ _ OK E Ha) as (OK1 & Hf & Hz & Hm & Hman).
  destruct (new_pages _ _ σ m1 D T K ext a OK Hz Hs) as (Hts & Htab & Hdata).
  split; [destruct Hf; split; [done|by apply Hman]|]. split; [done|].
  split; [apply set_mem_ok; [done|by rewrite Hm]|]. split; [done|]. split; [done|].
  split; [|done]. by eapply tables_walk.
Qed.

(** Giving the page back. *)
Lemma filled_free σ D T K ext a σ1 σ2 m1 :
  vm_ok σ D T K ext → pmm_alloc_page σ = (a, σ1) → a ≠ 0 →
  (∀ g, frame g → g ≠ a → page_same (vm_mem σ) m1 g) →
  vm_ok σ2 D T K (add_ref ext a) → vm_mem σ2 = m1 → same_managed σ1 σ2 →
  no_effect σ (pmm_free_page σ2 a) D T K ext.
Proof.
  intros OK E Ha Hs OK2 Hm2 Hman2. destruct (filled_page _ _ _ _ _ _ _ _ OK E Ha Hs) as (Hf & Hz & OK1 & Hman & Hts & Hw & Hd).
  assert (mframe σ2 a) as Hf2 by (destruct Hf; split; [done|by apply Hman2, Hman]).
  split; [|split; [|split]].
  - eapply vm_ok_ext; [|apply (decref_ok _ _ _ _ _ _ _ _ OK2 Hf2)].
    + intros f. unfold sub_ref, add_ref. lia.
    + unfold add_ref. rewrite ind_true by done. pose proof (vo_ext _ _ _ _ _ _ _ OK a). lia.
  - cbn. by rewrite Hm2.
  - intros f Hff _ Hx. cbn. rewrite Hm2. by apply Hd.
  - eapply same_managed_trans; [exact Hman|]. eapply same_managed_trans; [exact Hman2|].
    intros b. cbn. apply pa_decref_managed; [by apply frame_u32, Hf|]. by destruct OK2.
Qed.

(** The page at [a] is mapped: its bytes are those of [m1], every page in use
    keeps its own, and only one entry has changed. *)
Record fresh_mapped σ σ' m1 D T K ext pd i j a e : Prop := {
  fm_ok : vm_ok σ' D T K (λ f, ext f + ind (own (vm_mem σ) (OwnPage pd i j) = Some f));
  fm_walk : ∀ pd' i' k, (pd', i') ∈ T → ix k →
    walk (vm_mem σ') pd' i' k =
      if decide ((pd', i', k) = (pd, i, j)) then Some e else walk (vm_mem σ) pd' i' k;
  fm_data : data_same (vm_mem σ) (vm_mem σ') D T K ext;
  fm_page : page_same m1 (vm_mem σ') a;
  fm_frame : frame a ∧ total (vm_mem σ) D T K ext a = 0;
  fm_managed : same_managed σ σ';
}.

Lemma fresh_map σ D T K ext pd virt a σ1 m1 fl r σ2 :
  vm_ok σ D T K ext → is_u32 virt → (pd, pd_index virt) ∈ T → page_flags fl →
  pmm_alloc_page σ = (a, σ1) → a ≠ 0 → (∀ g, frame g → g ≠ a → page_same (vm_mem σ) m1 g) →
  paging_map_page (set_mem m1 σ1) pd virt a fl = (r, σ2) →
  r = -1 ∧ no_effect σ (pmm_free_page σ2 a) D T K ext ∨
  r = 0 ∧ fresh_mapped σ σ2 m1 D T K ext pd (pd_index virt) (pt_index virt) a (paging_entry_build a fl).
Proof.
  intros OK Hv Ht Hfl E Ha Hs Em. destruct (index_ranges virt Hv) as [_ Hj].
  destruct (filled_page _ _ _ _ _ _ _ _ OK E Ha Hs) as (Hf & Hz & OK1 & Hman & Hts & Hw & Hd).
  assert (1 <= add_ref ext a a) as Hx.
  { unfold add_ref. rewrite ind_true by done. pose proof (vo_ext _ _ _ _ _ _ _ OK a). lia. }
  assert (owners m1 D T a = 0) as Ho.
  { rewrite (tables_same_owners (vm_mem σ) m1 D T K a Hts). unfold total in Hz.
    pose proof (owners_nonneg (vm_mem σ) D T a). pose proof (vo_ext _ _ _ _ _ _ _ OK a). pose proof (ind_range (a ∈ K)). lia. }
  assert (mframe (set_mem m1 σ1) a) as Hf1 by (destruct Hf; split; [done|by apply Hman]).
  destruct (map_page_spec _ _ _ D T K _ pd virt a fl r σ2 OK1 Hv Ht Hfl Hf1 Hx Ho Em)
    as [(-> & OK2 & Hm2 & Hman2)|(-> & [OK2 Hw2 Hd2 Hman2])].
  - left. split; [done|]. by eapply filled_free.
  - right. split; [done|]. cbn [vm_mem set_mem] in *. split.
    + eapply vm_ok_ext; [|exact OK2]. intros f. cbn beta.
      rewrite (tables_same_own (vm_mem σ) m1 D T K) by (done || by rewrite elem_of_keys).
      destruct (build_entry a fl (proj1 Hf) Hfl) as (_ & _ & _ & -> & _). unfold add_ref. lia.
    + intros pd' i' k Ht' Hk. rewrite Hw2 by done. case_decide; [done|]. by apply Hw.
    + intros f Hff Hnf Htf. eapply page_same_trans; [by apply Hd|]. apply Hd2; [done| |].
      * intros Hx'. destruct (table_frame _ _ _ _ _ _ _ OK1 f Hx') as [_ Ht1].
        apply Hnf. destruct Hx' as [|[|(pd' & i' & Ht' & Eo)]]; [by left|right; by left|right; right].
        exists pd', i'. split; [done|]. rewrite <-Eo. symmetry.
        apply (tables_same_own _ _ D T K); [done|by rewrite elem_of_keys].
      * unfold total, add_ref in *. cbn [vm_mem set_mem]. rewrite (tables_same_owners (vm_mem σ) m1 D T K f Hts).
        pose proof (ind_range (a = f)). lia.
    + apply Hd2; [by apply Hf| |].
      * intros Hx'. pose proof (table_ext _ _ _ _ _ _ _ OK1 a Hx'). lia.
      * unfold total. cbn [vm_mem set_mem]. pose proof (owners_nonneg m1 D T a). pose proof (ind_range (a ∈ K)). lia.
    + split; [by apply Hf|done].
    + by eapply same_managed_trans.
Qed.

(** ** What the other address spaces notice *)

(** The page [f] is mapped by the space [pd]. *)
Definition maps m T pd f : Prop :=
  ∃ i j e, (pd, i) ∈ T ∧ ix j ∧ walk m pd i j = Some e ∧ entry_page e = Some f.

(** The operations of one space leave the others alone: what they map, the
    bytes of their pages and of the pages held by running code. *)
Record isolated σ σ' D T K ext pd : Prop := {
  is_ok : vm_ok σ' D T K ext;
  is_walk : ∀ pd' i j, (pd', i) ∈ T → pd' ≠ pd → ix j → walk (vm_mem σ') pd' i j = walk (vm_mem σ) pd' i j;
  is_pages : ∀ f, frame f → 1 <= ext f ∨ (∃ pd', pd' ≠ pd ∧ maps (vm_mem σ) T pd' f) →
    page_same (vm_mem σ) (vm_mem σ') f;
  is_managed : same_managed σ σ';
}.

Lemma isolated_refl σ D T K ext pd : vm_ok σ D T K ext → isolated σ σ D T K ext pd.
Proof. intros OK. by split. Qed.

Lemma isolated_trans σ1 σ2 σ3 D T K ext pd :
  isolated σ1 σ2 D T K ext pd → isolated σ2 σ3 D T K ext pd → isolated σ1 σ3 D T K ext pd.
Proof.
  intros [OK1 W1 P1 M1] [OK2 W2 P2 M2]. split; [done| | |by eapply same_managed_trans].
  - intros. by rewrite W2, W1.
  - intros f Hf Hu. eapply page_same_trans; [by apply P1|]. apply P2; [done|].
    destruct Hu as [|(pd' & Hne & i & j & e & Ht & Hj & Hw & He)]; [by left|]. right.
    exists pd'. split; [done|]. exists i, j, e. by rewrite W1.
Qed.

Lemma maps_own σ D T K ext pd f :
  vm_ok σ D T K ext → maps (vm_mem σ) T pd f →
  ¬ is_table (vm_mem σ) D T K f ∧ 1 <= owners (vm_mem σ) D T f.
Proof.
  intros OK (i & j & e & Ht & Hj & Hw & He).
  assert (own (vm_mem σ) (OwnPage pd i j) = Some f) as Eo.
  { rewrite (walk_own inv managed σ D T K ext) by done. by rewrite Hw. }
  split; [by eapply page_not_table|]. eapply owners_pos; [|exact Eo]. by rewrite elem_of_keys.
Qed.

Lemma data_isolated σ σ' D T K ext pd :
  vm_ok σ D T K ext → vm_ok σ' D T K ext →
  (∀ pd' i j, (pd', i) ∈ T → pd' ≠ pd → ix j → walk (vm_mem σ') pd' i j = walk (vm_mem σ) pd' i j) →
  data_same (vm_mem σ) (vm_mem σ') D T K ext → same_managed σ σ' → isolated σ σ' D T K ext pd.
Proof.
  intros OK OK' Hw Hd Hm. split; try done. intros f Hf Hu.
  pose proof (owners_nonneg (vm_mem σ) D T f). pose proof (ind_range (f ∈ K)). pose proof (vo_ext _ _ _ _ _ _ _ OK f).
  destruct Hu as [Hx|(pd' & _ & Hmap)].
  - apply Hd; [done| |unfold total; lia]. intros Ht. pose proof (table_ext _ _ _ _ _ _ _ OK f Ht). lia.
  - destruct (maps_own _ _ _ _ _ _ _ OK Hmap). apply Hd; [done|done|unfold total; lia].
Qed.

Lemma no_effect_isolated σ σ' D T K ext pd :
  vm_ok σ D T K ext → no_effect σ σ' D T K ext → isolated σ σ' D T K ext pd.
Proof. intros OK (OK' & Hw & Hd & Hm). apply data_isolated; auto. Qed.

Lemma entry_isolated σ σ' D T K ext pd i j e :
  vm_ok σ D T K ext → entry_set σ σ' D T K ext ext pd i j e → isolated σ σ' D T K ext pd.
Proof.
  intros OK [OK' Hw Hd Hm]. apply data_isolated; try done. intros pd' i' k Ht Hne Hk.
  rewrite Hw by done. case_decide; [congruence|done].
Qed.

(** ** Breaking copy on write *)

Lemma cow_entry σ D T K ext pd i j e :
  vm_ok σ D T K ext → (pd, i) ∈ T → ix j → walk (vm_mem σ) pd i j = Some e → cow e = true →
  holds_page e = true ∧ shared e = false ∧ is_u32 e ∧ frame (paging_entry_addr e) ∧
  own (vm_mem σ) (OwnPage pd i j) = Some (paging_entry_addr e).
Proof.
  intros OK Ht Hj Hw Hc.
  assert (user e = true) as Hu.
  { unfold walk in Hw. destruct (present (tw (vm_mem σ) pd i)) eqn:Hp; [|done].
    destruct (present (tw _ (paging_entry_addr _) j)) eqn:He; [|done]. injection Hw as Hw.
    destruct (user (tw (vm_mem σ) pd i)) eqn:Hu.
    - destruct (vo_cow _ _ _ _ _ _ _ OK pd i j (paging_entry_addr (tw (vm_mem σ) pd i)) Ht Hj) as [Hh _];
        [apply own_pt; by rewrite entry_is_user_eq, Hp, Hu|done|by rewrite Hw|].
      rewrite Hw in Hh. by apply holds_present in Hh as (_ & ? & _).
    - pose proof (vo_kdir _ _ _ _ _ _ _ OK pd i Ht Hp Hu) as Hk.
      destruct (vo_Kent _ _ _ _ _ _ _ OK _ j Hk Hj He). congruence. }
  destruct (walk_slot _ _ _ _ _ _ _ _ _ _ _ OK Ht Hj Hw Hu) as (pt & Hown & _ & _ & _ & _ & Etw & Hp & He).
  destruct (vo_cow _ _ _ _ _ _ _ OK pd i j pt Ht Hj Hown) as [Hh Hs]; [by rewrite Etw|by rewrite Etw|].
  rewrite Etw in Hh, Hs.
  assert (own (vm_mem σ) (OwnPage pd i j) = Some (paging_entry_addr e)) as Eo.
  { rewrite (own_page_at _ _ _ _ pt) by done. by rewrite Etw, Hh. }
  destruct (vo_page _ _ _ _ _ _ _ OK pd i j _ Ht Hj Eo). done.
Qed.

(** The page at one place has become private and writable; its bytes are the
    same as before, and nothing else has changed for anybody. *)
Record cow_broken σ σ' D T K ext pd i j e e' : Prop := {
  cb_set : entry_set σ σ' D T K ext ext pd i j e';
  cb_entry : private_writable e' = true ∧ cow e' = false ∧ present e' = true ∧ is_u32 e';
  cb_bytes : ∀ o, 0 <= o < 4096 →
    mem_get (vm_mem σ') (kv (paging_entry_addr e') + o) = mem_get (vm_mem σ) (kv (paging_entry_addr e) + o);
}.

Lemma take_over_ok σ D T K ext pd virt e r σ' :
  vm_ok σ D T K ext → is_u32 virt → (pd, pd_index virt) ∈ T →
  walk (vm_mem σ) pd (pd_index virt) (pt_index virt) = Some e → cow e = true →
  pmm_refcount σ (paging_entry_addr e) <= 1 →
  arch_mm_update σ pd virt ARCH_MM_MAP_COW ARCH_MM_MAP_WRITE = (r, σ') →
  r = 0 ∧ cow_broken σ σ' D T K ext pd (pd_index virt) (pt_index virt) e (updated e ARCH_MM_MAP_COW ARCH_MM_MAP_WRITE).
Proof.
  intros OK Hv Ht Hw Hc Hr E. destruct (index_ranges virt Hv) as [_ Hj].
  destruct (cow_entry _ _ _ _ _ _ _ _ _ OK Ht Hj Hw Hc) as (Hh & Hs & He & Hf & Eo).
  destruct (updated_spec e ARCH_MM_MAP_COW ARCH_MM_MAP_WRITE He) as (Hu & Ha & Hp & Hus & Hio & Hsh & Hwr & Hco).
  destruct (holds_present e Hh) as (Hpe & Hue & Hioe).
  assert (owners (vm_mem σ) D T (paging_entry_addr e) = 1 ∧ ¬ is_table (vm_mem σ) D T K (paging_entry_addr e)) as [Ho Hnt].
  { assert (OwnPage pd (pd_index virt) (pt_index virt) ∈ keys D T) as Hin by by rewrite elem_of_keys.
    pose proof (owners_pos _ _ _ _ _ Hin Eo). split; [|by eapply page_not_table].
    pose proof (vo_page _ _ _ _ _ _ _ OK _ _ _ _ Ht Hj Eo) as Hmf.
    pose proof (vo_ext _ _ _ _ _ _ _ OK (paging_entry_addr e)). pose proof (ind_range (paging_entry_addr e ∈ K)).
    destruct (vo_counts _ _ _ _ _ _ _ OK _ Hmf) as [Hcn|Hcn]; unfold total in Hcn; lia. }
  assert (private_writable (updated e ARCH_MM_MAP_COW ARCH_MM_MAP_WRITE) = true) as Hpw.
  { unfold private_writable, holds_page. rewrite entry_is_user_eq, Hp, Hus, Hio, Hsh, Hwr, Hpe, Hue, Hioe, Hs. done. }
  destruct (update_page_spec inv managed σ D T K ext pd virt ARCH_MM_MAP_COW ARCH_MM_MAP_WRITE e r σ' OK Hv Ht Hw Hh eq_refl) as [-> Hset]; try done.
  split; [done|]. split; [done|split; [done|]|].
  - rewrite Hco, Hc, Hp. done.
  - intros o Hoo. rewrite Ha. destruct Hset as [_ _ Hd _].
    apply (Hd (paging_entry_addr e)); [done|done| |done]. unfold total.
    pose proof (vo_ext _ _ _ _ _ _ _ OK (paging_entry_addr e)). pose proof (ind_range (paging_entry_addr e ∈ K)). lia.
Qed.

Lemma copy_page m a b :
  frame a → frame b → a ≠ b →
  (∀ o, 0 <= o < 4096 → mem_get (k_memcpy m (kv a) (kv b) PAGE_SIZE) (kv a + o) = mem_get m (kv b + o)) ∧
  ∀ g, frame g → g ≠ a → page_same m (k_memcpy m (kv a) (kv b) PAGE_SIZE) g.
Proof.
  intros Ha Hb Hne.
  assert (mem_region m (k_memcpy m (kv a) (kv b) PAGE_SIZE) (kv a) PAGE_SIZE (λ i, mem_get m (kv b + i))) as Hr.
  { apply forward_copy; [done|]. unfold fwd_ok, kv, PAGE_SIZE. pose proof (frame_apart a b Ha Hb Hne). lia. }
  split; [|apply (region_page_same _ _ a PAGE_SIZE _ Ha ltac:(done) Hr)].
  intros o Ho. rewrite Hr. unfold PAGE_SIZE. destruct (Z.leb_spec (kv a) (kv a + o)), (Z.ltb_spec (kv a + o) (kv a + 4096)); try lia.
  cbn [andb]. f_equal. lia.
Qed.

Lemma copy_out_ok σ D T K ext pd virt e a σ1 r σ2 :
  vm_ok σ D T K ext → is_u32 virt → (pd, pd_index virt) ∈ T →
  walk (vm_mem σ) pd (pd_index virt) (pt_index virt) = Some e → cow e = true →
  pmm_alloc_page σ = (a, σ1) → a ≠ 0 →
  arch_mm_map (set_mem (k_memcpy (vm_mem σ1) (kv a) (kv (paging_entry_addr e)) PAGE_SIZE) σ1) pd virt a
    ((entry_mapping_flags e |u ARCH_MM_MAP_WRITE) &u not32 ARCH_MM_MAP_COW) = (r, σ2) →
  r = -1 ∧ no_effect σ (pmm_free_page σ2 a) D T K ext ∨
  r = 0 ∧ cow_broken σ (pmm_decref σ2 (paging_entry_addr e)) D T K ext pd (pd_index virt) (pt_index virt) e
    (paging_entry_build a 7).
Proof.
  intros OK Hv Ht Hw Hc E Ha Em. destruct (index_ranges virt Hv) as [_ Hj].
  destruct (cow_entry _ _ _ _ _ _ _ _ _ OK Ht Hj Hw Hc) as (Hh & Hs & He & Hf & Eo).
  destruct (holds_present e Hh) as (Hpe & Hue & Hioe).
  destruct (alloc_ok _ _ _ _ _ _ _ _ _ OK E Ha) as (_ & Hfa & Hz & Hm & _). rewrite Hm in Em.
  assert (OwnPage pd (pd_index virt) (pt_index virt) ∈ keys D T) as Hin by by rewrite elem_of_keys.
  pose proof (owners_pos _ _ _ _ _ Hin Eo) as Hop.
  assert (1 <= total (vm_mem σ) D T K ext (paging_entry_addr e)) as Hused.
  { unfold total. pose proof (vo_ext _ _ _ _ _ _ _ OK (paging_entry_addr e)). pose proof (ind_range (paging_entry_addr e ∈ K)). lia. }
  assert (a ≠ paging_entry_addr e) as Hne by (intros ->; lia).
  destruct (copy_page (vm_mem σ) a _ (proj1 Hfa) Hf Hne) as [Hcopy Hsame].
  set (m1 := k_memcpy _ _ _ _) in *. clearbody m1.
  destruct (filled_page _ _ _ _ _ _ _ _ OK E Ha Hsame) as (_ & _ & OK1 & _ & _).
  apply (arch_mm_map_eq _ _ _ _ _ _ _ (proj1 Hfa)) in Em as [[-> ->]|Em].
  { left. split; [done|]. by eapply filled_free. }
  rewrite cow_copy_flags in Em by done.
  destruct (fresh_map _ D T K ext pd virt a σ1 m1 7 r σ2 OK Hv Ht ltac:(done) E Ha Hsame Em) as [?|[-> F]]; [by left|].
  right. split; [done|]. destruct F as [OK2 Hw2 Hd2 Hp2 [Hf2 _] Hman2].
  destruct (build_entry a 7 Hf2 ltac:(done)) as (Hbu & Hbh & Hbp & Hba & Hbb). cbn zeta in *.
  assert (mframe σ2 (paging_entry_addr e)) as Hmf.
  { destruct (vo_page _ _ _ _ _ _ _ OK _ _ _ _ Ht Hj Eo) as [? ?]. split; [done|]. by apply Hman2. }
  split.
  - split.
    + eapply vm_ok_ext; [|apply (decref_ok _ _ _ _ _ _ _ _ OK2 Hmf)].
      * intros f. unfold sub_ref. rewrite Eo.
        rewrite (ind_ext (Some _ = Some f) (paging_entry_addr e = f)) by (split; congruence). lia.
      * rewrite Eo, ind_true by done. pose proof (vo_ext _ _ _ _ _ _ _ OK (paging_entry_addr e)). lia.
    + intros pd' i' k Ht' Hk. cbn [vm_mem pmm_decref]. rewrite Hw2 by done. by rewrite Hbp.
    + exact Hd2.
    + eapply same_managed_trans; [exact Hman2|]. intros b. cbn. apply pa_decref_managed; [|by destruct OK2].
      by apply frame_u32.
  - unfold private_writable. rewrite Hbh. unfold writable, shared, cow. rewrite !Hbb by lia. done.
  - intros o Ho. rewrite Hba. cbn. rewrite (Hp2 o Ho). by apply Hcopy.
Qed.

Lemma break_cow_ok σ D T K ext pd virt r σ' :
  vm_ok σ D T K ext → is_u32 virt → (pd, pd_index virt) ∈ T → fault_break_cow σ pd virt = (r, σ') →
  r = -1 ∧ no_effect σ σ' D T K ext ∨
  r = 0 ∧ ∃ e e', walk (vm_mem σ) pd (pd_index virt) (pt_index virt) = Some e ∧ cow e = true ∧
    cow_broken σ σ' D T K ext pd (pd_index virt) (pt_index virt) e e'.
Proof.
  intros OK Hv Ht E. destruct (index_ranges virt Hv) as [_ Hj]. unfold fault_break_cow in E.
  rewrite (query_eq _ _ _ _ _ _ _ _ _ OK Ht) in E.
  destruct (walk (vm_mem σ) pd (pd_index virt) (pt_index virt)) as [e|] eqn:Hw; simpl in E;
    [|left; simplify_eq; split; [done|by apply no_effect_refl]].
  destruct (entry_mapping_has e) as (Hce & _). rewrite Hce in E.
  destruct (cow e) eqn:Hc; simpl in E; [|left; simplify_eq; split; [done|by apply no_effect_refl]].
  destruct (cow_entry _ _ _ _ _ _ _ _ _ OK Ht Hj Hw Hc) as (Hh & Hs & He & Hf & Eo).
  destruct (Z.leb_spec (pmm_refcount σ (paging_entry_addr e)) 1) as [Hr|_].
  { right. destruct (take_over_ok _ _ _ _ _ _ _ _ _ _ OK Hv Ht Hw Hc Hr E) as [-> Hcb]. split; [done|]. by eexists _, _. }
  destruct (pmm_alloc_page σ) as [a σ1] eqn:Ea. destruct (Z.eqb_spec a 0) as [->|Ha].
  { left. simplify_eq. split; [done|]. rewrite (alloc_fail _ _ _ _ _ _ _ _ OK Ea). by apply no_effect_refl. }
  destruct (alloc_ok _ _ _ _ _ _ _ _ _ OK Ea Ha) as (_ & Hfa & _).
  rewrite !temp_map_frame in E by (done || apply Hfa).
  destruct (arch_mm_map _ _ _ _ _) as [rc σ2] eqn:Em.
  destruct (copy_out_ok _ _ _ _ _ _ _ _ _ _ _ _ OK Hv Ht Hw Hc Ea Ha Em) as [[-> Hn]|[-> Hcb]];
    cbn [negb Z.eqb] in E; pose proof (f_equal fst E) as E1; pose proof (f_equal snd E) as E2; cbn [fst snd] in E1, E2; subst r σ'.
  - by left.
  - right. split; [done|]. by eexists _, _.
Qed.

(** ** Pages mapped on demand *)

(** A new page is mapped at one place; it was zeroed and then filled. *)
Record page_added {A} (fill : mem → Z → Z * mem * A) σ σ' D T K ext pd i j fl : Prop := {
  pa_set : ∃ a, frame a ∧ entry_set σ σ' D T K ext ext pd i j (paging_entry_build a fl) ∧
    present (paging_entry_build a fl) = true ∧ paging_entry_addr (paging_entry_build a fl) = a ∧
    ∃ m0 m1 x, (∀ o, 0 <= o < 4096 → mem_get m0 (kv a + o) = 0) ∧ fill m0 (kv a) = (0, m1, x) ∧
      page_same m1 (vm_mem σ') a;
}.

Lemma zeroed_page m a :
  frame a →
  (∀ o, 0 <= o < 4096 → mem_get (k_memset m (kv a) 0 PAGE_SIZE) (kv a + o) = 0) ∧
  ∀ g, frame g → g ≠ a → page_same m (k_memset m (kv a) 0 PAGE_SIZE) g.
Proof.
  intros Ha. pose proof (k_memset_region m (kv a) 0 PAGE_SIZE ltac:(done)) as Hr.
  split; [|apply (region_page_same _ _ a PAGE_SIZE _ Ha ltac:(done) Hr)].
  intros o Ho. rewrite Hr. unfold PAGE_SIZE. by destruct (Z.leb_spec (kv a) (kv a + o)), (Z.ltb_spec (kv a + o) (kv a + 4096)); try lia.
Qed.

Lemma lazy_page_ok {A} (fill : mem → Z → Z * mem * A) none σ D T K ext pd virt mfl r σ' x :
  (∀ m p y, y < p ∨ p + 4096 <= y → mem_get (fill m p).1.2 y = mem_get m y) →
  (∀ m p, (fill m p).1.1 = 0 ∨ (fill m p).1.1 = -1) →
  vm_ok σ D T K ext → is_u32 virt → (pd, pd_index virt) ∈ T → page_flags (arch_mm_to_paging_flags mfl) →
  own (vm_mem σ) (OwnPage pd (pd_index virt) (pt_index virt)) = None →
  lazy_page fill none σ pd virt mfl = (r, σ', x) →
  r = -1 ∧ no_effect σ σ' D T K ext ∨
  r = 0 ∧ page_added fill σ σ' D T K ext pd (pd_index virt) (pt_index virt) (arch_mm_to_paging_flags mfl).
Proof.
  intros Hfill Hrc OK Hv Ht Hfl Hnone E. unfold lazy_page in E.
  destruct (pmm_alloc_page σ) as [a σ1] eqn:Ea. destruct (Z.eqb_spec a 0) as [->|Ha].
  { left. simplify_eq. split; [done|]. rewrite (alloc_fail _ _ _ _ _ _ _ _ OK Ea). by apply no_effect_refl. }
  destruct (alloc_ok _ _ _ _ _ _ _ _ _ OK Ea Ha) as (OK1 & Hfa & Hz & Hm & _).
  pose proof (proj1 Hfa) as Hf. rewrite temp_map_frame, Hm in E by done.
  destruct (zeroed_page (vm_mem σ) a Hf) as [Hzero Hs0].
  set (m0 := k_memset _ _ _ _) in *. clearbody m0.
  pose proof (Hfill m0 (kv a)) as Hout. pose proof (Hrc m0 (kv a)) as Hr0.
  destruct (fill m0 (kv a)) as [[rc m1] x1] eqn:Ef. cbn [fst snd] in Hout, Hr0.
  assert (∀ g, frame g → g ≠ a → page_same (vm_mem σ) m1 g) as Hs.
  { intros g Hg Hne. eapply page_same_trans; [by apply Hs0|]. intros o Ho. apply Hout.
    pose proof (frame_apart a g Hf Hg (not_eq_sym Hne)). unfold kv. lia. }
  destruct (filled_page _ _ _ _ _ _ _ _ OK Ea Ha Hs) as (_ & _ & OKm & _).
  destruct (arch_mm_map (set_mem m1 σ1) pd virt a mfl) as [rc2 σ2] eqn:Em.
  destruct Hr0 as [->| ->]; cbn [negb Z.eqb] in E.
  2: { left. pose proof (f_equal (fst ∘ fst) E) as E1. pose proof (f_equal (snd ∘ fst) E) as E2. cbn in E1, E2. subst r σ'.
       split; [done|]. by eapply filled_free. }
  apply (arch_mm_map_eq _ _ _ _ _ _ _ Hf) in Em as [[-> ->]|Em].
  { left. pose proof (f_equal (fst ∘ fst) E) as E1. pose proof (f_equal (snd ∘ fst) E) as E2. cbn in E1, E2. subst r σ'.
    split; [done|]. by eapply filled_free. }
  destruct (fresh_map _ D T K ext pd virt a σ1 m1 _ rc2 σ2 OK Hv Ht Hfl Ea Ha Hs Em) as [[-> Hn]|[-> [OK2 Hw2 Hd2 Hp2 _ Hman2]]];
    cbn [negb Z.eqb] in E; pose proof (f_equal (fst ∘ fst) E) as E1; pose proof (f_equal (snd ∘ fst) E) as E2; cbn in E1, E2; subst r σ'.
  - by left.
  - right. split; [done|]. destruct (build_entry a _ Hf Hfl) as (_ & _ & Hbp & Hba & _). cbn zeta in *. split.
    exists a. split; [done|]. split; [|split; [done|split; [done|by exists m0, m1, x1]]].
    split; try done.
    + eapply vm_ok_ext; [|exact OK2]. intros f. cbn beta. rewrite Hnone, (ind_false (None = Some f)) by done. lia.
    + intros pd' i' k Ht' Hk. rewrite Hw2, Hbp by done. done.
Qed.

Lemma page_added_isolated {A} (fill : mem → Z → Z * mem * A) σ σ' D T K ext pd i j fl :
  vm_ok σ D T K ext → page_added fill σ σ' D T K ext pd i j fl → isolated σ σ' D T K ext pd.
Proof. intros OK [(a & _ & Hset & _)]. by eapply entry_isolated. Qed.

(** The zero page. *)
Record zero_page σ σ' D T K ext pd i j e : Prop := {
  zp_set : entry_set σ σ' D T K ext ext pd i j e;
  zp_present : present e = true ∧ frame (paging_entry_addr e);
  zp_flags : paging_entry_flags e = 5 ∨ paging_entry_flags e = 7;
  zp_bytes : ∀ o, 0 <= o < 4096 → mem_get (vm_mem σ') (kv (paging_entry_addr e) + o) = 0;
}.

Lemma build_flags a fl : is_u32 a → paging_entry_flags (paging_entry_build a fl) = paging_entry_flags fl.
Proof.
  intros Ha. apply Z.bits_inj'. intros k Hk. rewrite !testbit_flags, testbit_build by done.
  by destruct (k <? 12).
Qed.

Lemma lazy_zero_ok σ D T K ext pd virt v r σ' :
  vm_ok σ D T K ext → is_u32 virt → (pd, pd_index virt) ∈ T →
  own (vm_mem σ) (OwnPage pd (pd_index virt) (pt_index virt)) = None →
  lazy_zero_page σ pd virt (lazy_map_flags v) = (r, σ') →
  r = -1 ∧ no_effect σ σ' D T K ext ∨
  r = 0 ∧ ∃ e, zero_page σ σ' D T K ext pd (pd_index virt) (pt_index virt) e ∧
    writable e = has (flags v) VMA_FLAG_WRITE.
Proof.
  intros OK Hv Ht Hn E. unfold lazy_zero_page in E.
  destruct (lazy_page _ _ σ pd virt (lazy_map_flags v)) as [[r1 σ1] x] eqn:El. cbn [fst] in E. injection E as <- <-.
  destruct (lazy_flags v) as [Efl Hfl].
  destruct (lazy_page_ok (λ m _, (0, m, ())) () σ D T K ext pd virt _ r1 σ1 x (λ _ _ _ _, eq_refl) (λ _ _, or_introl eq_refl) OK Hv Ht Hfl Hn El)
    as [?|[-> [(a & Hf & Hset & Hp & Ha & m0 & m1 & y & Hz & [= -> _] & Hs)]]]; [by left|].
  right. split; [done|]. rewrite Efl in *. eexists. split.
  - split; [exact Hset|by rewrite Ha| |].
    + rewrite build_flags by by apply frame_u32. destruct (has _ _); [by right|by left].
    + intros o Ho. rewrite Ha, Hs by done. by apply Hz.
  - unfold writable. rewrite bit_build by (lia || by apply frame_u32). by destruct (has _ _).
Qed.
End spec.
