(* ===== verification/FaultOps.v ===== *)
(** * Page faults: the handlers

    File pages, stack growth, the kernel's shadow mappings and the handler as
    a whole, over the steps of [FaultSpec]. *)

From S2P Require Import Prelude Interfaces Memory Kstring Vma Paging PagingSpec PagingInv PagingSteps PagingOps PagingSpaces PagingClone PagingFork Fault FaultSpec.

#[local] Opaque for_loop for_exit zero_table copy_table.

(** ** Pages and their places *)

Lemma page_index q :
  is_u32 q → q mod 4096 = 0 → q = (pd_index q * 1024 + pt_index q) * 4096.
Proof.
  intros Hq Ha. unfold pd_index, pt_index. change 0x3FF with (Z.ones 10).
  rewrite Z.land_ones, !Z.shiftr_div_pow2 by lia. change (2 ^ 22) with 4194304. change (2 ^ 12) with 4096.
  change (2 ^ 10) with 1024. zsolve.
Qed.

Lemma page_index_inj q q' :
  is_u32 q → is_u32 q' → q mod 4096 = 0 → q' mod 4096 = 0 →
  pd_index q = pd_index q' → pt_index q = pt_index q' → q = q'.
Proof. intros Hq Hq' Ha Ha' E1 E2. rewrite (page_index q), (page_index q') by done. by rewrite E1, E2. Qed.

Lemma same_page_index v w : v / 4096 = w / 4096 → pd_index v = pd_index w ∧ pt_index v = pt_index w.
Proof.
  intros E. unfold pd_index, pt_index. rewrite !Z.shiftr_div_pow2 by lia. change (2 ^ 12) with 4096.
  rewrite E. split; [|done]. change (2 ^ 22) with (4096 * 1024). by rewrite <-!Z.div_div, E.
Qed.

Lemma index_page v w :
  is_u32 v → is_u32 w → pd_index v = pd_index w → pt_index v = pt_index w → v / 4096 = w / 4096.
Proof.
  intros Hv Hw E1 E2. unfold pd_index, pt_index in *. change 0x3FF with (Z.ones 10) in *.
  rewrite !Z.land_ones, !Z.shiftr_div_pow2 in * by lia. change (2 ^ 22) with 4194304 in *.
  change (2 ^ 12) with 4096 in *. change (2 ^ 10) with 1024 in *. unfold is_u32 in *. Z.div_mod_to_equations; lia.
Qed.

Lemma fault_page_spec a : is_u32 a → is_u32 (a &u not32 0xFFF) ∧ (a &u not32 0xFFF) = a - a mod 4096.
Proof.
  intros Ha. assert (a &u not32 0xFFF = a - a mod 4096) as -> by exact (land_not32_mask 12 a ltac:(lia) Ha).
  split; [|done]. zsolve.
Qed.

Section ops.
Context {S : Type} `{PageAllocator S} (inv : S → Prop) (managed : S → Z → Prop).
Context `{!PageAllocatorLaws S inv managed}.
Context {F : Type} `{FileReader F} (file_byte : F → vfs_file_ref → Z → Z) `{!FileReaderLaws F file_byte}.
Implicit Types (σ : vm S) (D : list Z) (T : list (Z * Z)) (K : gset Z) (ext : Z → Z) (m : mem) (fs : F).
Notation vm_ok := (vm_ok inv managed).
Notation no_effect := (no_effect inv managed).
Notation entry_set := (entry_set inv managed).
Notation isolated := (isolated inv managed).

(** What the hardware finds at a user address. *)
Definition walk_at m pd virt : option Z := walk m pd (pd_index virt) (pt_index virt).

(** No user page is mapped at [virt]. *)
Definition unmapped m pd virt : Prop := own m (OwnPage pd (pd_index virt) (pt_index virt)) = None.

Lemma unmapped_none σ D T K ext pd virt :
  vm_ok σ D T K ext → is_u32 virt → (pd, pd_index virt) ∈ T →
  (∀ e, walk_at (vm_mem σ) pd virt = Some e → user e = false) → unmapped (vm_mem σ) pd virt.
Proof.
  intros OK Hv Ht Hw. destruct (index_ranges virt Hv) as [_ Hj]. unfold unmapped.
  rewrite (walk_own inv managed σ D T K ext) by done. unfold walk_at in Hw.
  destruct (walk (vm_mem σ) pd (pd_index virt) (pt_index virt)) as [e|]; [|done]. simpl.
  unfold holds_page. by rewrite entry_is_user_eq, (Hw e eq_refl), andb_false_r.
Qed.

(** A page mapped by some space keeps its bytes when one entry is set. *)
Lemma entry_set_maps σ σ' D T K ext pd i j e pd' f :
  vm_ok σ D T K ext → entry_set σ σ' D T K ext ext pd i j e → maps (vm_mem σ) T pd' f → frame f →
  page_same (vm_mem σ) (vm_mem σ') f.
Proof.
  intros OK [_ _ Hd _] Hmap Hf. destruct (maps_own inv managed σ D T K ext pd' f OK Hmap) as [Hn Ho].
  apply Hd; [done|done|]. unfold total. pose proof (vo_ext _ _ _ _ _ _ _ OK f). pose proof (ind_range (f ∈ K)). lia.
Qed.

(** ** File pages *)

(** How many bytes of the file the page can have. *)
Definition file_page_len (v : vm_area) (page : Z) : Z :=
  let off := file_offset v + (page - start v) in Z.max 0 (Z.min 4096 (file_size v - off)).

Lemma read_file_frame v fs page m p y :
  y < p ∨ p + 4096 <= y → mem_get (read_file_page v fs page m p).1.2 y = mem_get m y.
Proof.
  intros Hy. unfold read_file_page. destruct (_ <? _); [done|]. destruct (_ <? _); [|done].
  set (off := file_offset v +u _). set (len := file_size v -u off).
  assert (0 <= len) as Hl by (subst len; unfold "-u"; apply Z.mod_pos_bound; done).
  set (len' := if PAGE_SIZE <? len then PAGE_SIZE else len).
  assert (len' <= 4096) as Hl' by (subst len'; unfold PAGE_SIZE; bcase; lia).
  pose proof (vfs_read_frame (file_byte := file_byte) fs (file_ref v) off p len' m y ltac:(lia)) as Hx.
  destruct (vfs_read fs (file_ref v) off p len' m) as [[n m1] fs1]. done.
Qed.

Lemma read_file_rc v fs page m p :
  (read_file_page v fs page m p).1.1 = 0 ∨ (read_file_page v fs page m p).1.1 = -1.
Proof.
  unfold read_file_page. destruct (_ <? _); [by right|]. destruct (_ <? _); [|by left].
  destruct (vfs_read _ _ _ _ _ _) as [[n m1] fs1]. cbn. destruct (n <? 0); auto.
Qed.

Definition vma_u32 (v : vm_area) : Prop :=
  is_u32 (start v) ∧ is_u32 (end_ v) ∧ is_u32 (file_offset v) ∧ is_u32 (file_size v).

(** [n] is what reading the page's part of the file returned; beyond the mapped
    size nothing is read. *)
Definition page_read (fs : F) v page (n : Z) : Prop :=
  0 <= n ∧ (file_offset v + (page - start v) < file_size v →
    ∃ buf m, (vfs_read fs (file_ref v) (file_offset v + (page - start v)) buf (file_page_len v page) m).1.1 = n).

Lemma read_file_bytes v fs page m p m1 fs1 :
  vma_u32 v → is_u32 page → start v <= page →
  (∀ o, 0 <= o < 4096 → mem_get m (p + o) = 0) → read_file_page v fs page m p = (0, m1, fs1) →
  ∃ n, page_read fs v page n ∧ ∀ o, 0 <= o < 4096 →
    mem_get m1 (p + o) = if (o <? n) && (o <? file_page_len v page)
                         then file_byte fs (file_ref v) (file_offset v + (page - start v) + o) else 0.
Proof.
  intros (Hs & _ & Ho & Hz) Hp Hle Hzero E. unfold read_file_page in E. unfold page_read, file_page_len.
  assert (page -u start v = page - start v) as Er by zsolve. rewrite Er in E.
  destruct (Z.ltb_spec (UINT32_MAX - file_offset v) (page - start v)); [done|].
  assert (file_offset v +u (page - start v) = file_offset v + (page - start v)) as Eo by (unfold UINT32_MAX in *; zsolve).
  rewrite Eo in E. set (off := file_offset v + (page - start v)) in *.
  destruct (Z.ltb_spec off (file_size v)) as [Hlt|Hge].
  - assert (file_size v -u off = file_size v - off) as El by (unfold UINT32_MAX in *; zsolve). rewrite El in E.
    set (len := if PAGE_SIZE <? file_size v - off then PAGE_SIZE else file_size v - off) in *.
    assert (len = Z.max 0 (Z.min 4096 (file_size v - off))) as Hlen by (subst len; unfold PAGE_SIZE; bcase; lia).
    destruct (vfs_read fs (file_ref v) off p len m) as [[n m'] fs'] eqn:Er'.
    destruct (Z.ltb_spec n 0); [done|]. injection E as <- <-. exists n.
    split; [split; [done|]; intros _; exists p, m; by rewrite <-Hlen, Er'|]. intros o Hoo.
    rewrite <-Hlen. destruct (Z.ltb_spec o len) as [Hol|Hol].
    + rewrite (vfs_read_ok (file_byte := file_byte) fs (file_ref v) off p len m n m' fs' o Er') by lia.
      destruct (o <? n); cbn [andb]; [done|]. by apply Hzero.
    + rewrite andb_false_r.
      pose proof (vfs_read_frame (file_byte := file_byte) fs (file_ref v) off p len m (p + o) ltac:(lia)) as Hx.
      rewrite Er' in Hx. cbn in Hx. rewrite Hx. by apply Hzero.
  - injection E as <- <-. exists 0. split; [split; lia|]. intros o Hoo. rewrite Hzero by done.
    by destruct (Z.ltb_spec o 0); [lia|].
Qed.

(** The page of a private file mapping: the file's bytes, as many as the read
    gave, then zeros. *)
Record file_page σ σ' fs D T K ext pd virt v e : Prop := {
  fp_set : entry_set σ σ' D T K ext ext pd (pd_index virt) (pt_index virt) e;
  fp_present : present e = true ∧ frame (paging_entry_addr e);
  fp_flags : paging_entry_flags e = (if has (flags v) VMA_FLAG_WRITE then 7 else 5);
  fp_bytes : ∃ n, page_read fs v virt n ∧ ∀ o, 0 <= o < 4096 →
    mem_get (vm_mem σ') (kv (paging_entry_addr e) + o) =
      if (o <? n) && (o <? file_page_len v virt)
      then file_byte fs (file_ref v) (file_offset v + (virt - start v) + o) else 0;
}.

Lemma lazy_file_ok σ fs D T K ext pd virt v r σ' fs' :
  vm_ok σ D T K ext → is_u32 virt → (pd, pd_index virt) ∈ T → vma_u32 v → unmapped (vm_mem σ) pd virt →
  fault_handle_lazy_file_private_fault σ fs pd virt v = (r, σ', fs') →
  r = -1 ∧ no_effect σ σ' D T K ext ∨ r = 0 ∧ ∃ e, file_page σ σ' fs D T K ext pd virt v e.
Proof.
  intros OK Hv Ht Hvma Hn E. unfold fault_handle_lazy_file_private_fault in E.
  destruct (Z.ltb_spec virt (start v)) as [|Hst], (Z.leb_spec (end_ v) virt); cbn [orb] in E;
    try (left; simplify_eq; split; [done|by apply no_effect_refl]).
  destruct (vma_is_private_file_backed v); cbn [negb] in E; [|left; simplify_eq; split; [done|by apply no_effect_refl]].
  destruct (lazy_flags v) as [Efl Hfl].
  destruct (lazy_page_ok inv managed (read_file_page v fs virt) fs σ D T K ext pd virt _ r σ' fs'
    (read_file_frame v fs virt) (read_file_rc v fs virt) OK Hv Ht Hfl Hn E)
    as [?|[-> [(a & Hf & Hset & Hp & Ha & m0 & m1 & y & Hz & Ef & Hs)]]]; [by left|].
  right. split; [done|]. rewrite Efl in *.
  destruct (read_file_bytes v fs virt m0 (kv a) m1 y Hvma Hv Hst Hz Ef) as (n & Hn0 & Hb).
  eexists. split; [exact Hset|by rewrite Ha| |].
  - rewrite build_flags by by apply frame_u32. by destruct (has (flags v) VMA_FLAG_WRITE).
  - exists n. split; [done|]. intros o Ho. rewrite Ha, (Hs o Ho). by apply Hb.
Qed.

(** ** Growing the stack *)

(** A zeroed user page at [q]. *)
Definition zero_at m pd (w : bool) q : Prop :=
  ∃ e, walk_at m pd q = Some e ∧ holds_page e = true ∧ writable e = w ∧ shared e = false ∧
    frame (paging_entry_addr e) ∧ ∀ o, 0 <= o < 4096 → mem_get m (kv (paging_entry_addr e) + o) = 0.

Lemma entry_bits e : is_u32 e → ∀ k, 0 <= k < 12 → Z.testbit e k = Z.testbit (paging_entry_flags e) k.
Proof. intros He k Hk. rewrite testbit_flags by lia. by destruct (Z.ltb_spec k 12); [|lia]. Qed.

Lemma flags_holds e : is_u32 e → paging_entry_flags e = 5 ∨ paging_entry_flags e = 7 →
  holds_page e = true ∧ shared e = false.
Proof.
  intros He Hfl. unfold holds_page, shared. rewrite entry_is_user_eq. unfold present, user, io.
  rewrite !(entry_bits e He) by lia. by destruct Hfl as [->| ->].
Qed.

Lemma walk_u32 m pd i j e : walk m pd i j = Some e → is_u32 e.
Proof. unfold walk. repeat case_match; intros; simplify_eq; auto with cint. Qed.

Lemma entry_set_at σ σ' D T K ext ext' pd i j e :
  entry_set σ σ' D T K ext ext' pd i j e → (pd, i) ∈ T → ix j → present e = true → walk (vm_mem σ') pd i j = Some e.
Proof. intros [_ Hw _ _] Ht Hj Hp. by rewrite Hw, decide_True, Hp. Qed.

Lemma zero_page_at σ σ' D T K ext pd q e :
  (pd, pd_index q) ∈ T → is_u32 q → zero_page inv managed σ σ' D T K ext pd (pd_index q) (pt_index q) e →
  zero_at (vm_mem σ') pd (writable e) q.
Proof.
  intros Ht Hq [Hset [Hp Hf] Hfl Hb]. destruct (index_ranges q Hq) as [_ Hj].
  pose proof (entry_set_at _ _ _ _ _ _ _ _ _ _ _ Hset Ht Hj Hp) as Hw.
  destruct (flags_holds e (walk_u32 _ _ _ _ _ Hw) Hfl). by exists e.
Qed.

Lemma zero_at_kept σ σ' D T K ext pd i j e w q :
  vm_ok σ D T K ext → entry_set σ σ' D T K ext ext pd i j e → (pd, pd_index q) ∈ T → is_u32 q →
  (pd_index q, pt_index q) ≠ (i, j) → zero_at (vm_mem σ) pd w q → zero_at (vm_mem σ') pd w q.
Proof.
  intros OK Hset Ht Hq Hne (e0 & Hw & Hh & Hwr & Hs & Hf & Hb). destruct (index_ranges q Hq) as [_ Hj].
  exists e0. unfold walk_at in *. rewrite (es_walk _ _ _ _ _ _ _ _ _ _ _ _ _ Hset) by done.
  rewrite decide_False by congruence. split; [done|]. split; [done|]. split; [done|]. split; [done|]. split; [done|].
  intros o Ho. rewrite (entry_set_maps _ _ _ _ _ _ _ _ _ _ pd _ OK Hset); [by apply Hb| |done|done].
  exists (pd_index q), (pt_index q), e0. unfold entry_page. by rewrite Hh.
Qed.

Lemma unmapped_kept σ σ' D T K ext pd i j e q :
  vm_ok σ D T K ext → entry_set σ σ' D T K ext ext pd i j e → (pd, pd_index q) ∈ T → is_u32 q →
  (pd_index q, pt_index q) ≠ (i, j) → unmapped (vm_mem σ) pd q → unmapped (vm_mem σ') pd q.
Proof.
  intros OK Hset Ht Hq Hne Hn. destruct (index_ranges q Hq) as [_ Hj]. pose proof (es_ok _ _ _ _ _ _ _ _ _ _ _ _ _ Hset) as OK'.
  unfold unmapped in *. rewrite (walk_own inv managed σ' D T K ext) by done.
  rewrite (walk_own inv managed σ D T K ext) in Hn by done.
  by rewrite (es_walk _ _ _ _ _ _ _ _ _ _ _ _ _ Hset), decide_False by (done || congruence).
Qed.

(** The stack has grown down to [low]: every page from there to [top] is a
    zeroed one, and nothing else has changed. *)
Record stack_grown σ σ' D T K ext pd w low top : Prop := {
  sg_isolated : isolated σ σ' D T K ext pd;
  sg_pages : ∀ q, is_u32 q → q mod 4096 = 0 → low <= q < top → zero_at (vm_mem σ') pd w q;
  sg_others : ∀ q, is_u32 q → q mod 4096 = 0 → ¬ low <= q < top → walk_at (vm_mem σ') pd q = walk_at (vm_mem σ) pd q;
  sg_kept : ∀ f, frame f → maps (vm_mem σ) T pd f → page_same (vm_mem σ) (vm_mem σ') f;
}.

Lemma stack_grown_none σ σ' D T K ext pd w low :
  vm_ok σ D T K ext → (∀ i, ix i → (pd, i) ∈ T) → no_effect σ σ' D T K ext → stack_grown σ σ' D T K ext pd w low low.
Proof.
  intros OK Hpd Hn. split; [by apply no_effect_isolated|intros; lia| |].
  - intros q Hq _ _. destruct (index_ranges q Hq). destruct Hn as (_ & Hw & _). by apply Hw; auto.
  - intros f Hf Hmap. destruct (maps_own inv managed σ D T K ext pd f OK Hmap) as [Hnt Ho].
    destruct Hn as (_ & _ & Hd & _). apply Hd; [done|done|]. unfold total.
    pose proof (vo_ext _ _ _ _ _ _ _ OK f). pose proof (ind_range (f ∈ K)). lia.
Qed.

Lemma grow_stack_ok fuel σ D T K ext pd v cur page fault_page low :
  vm_ok σ D T K ext → (∀ i, ix i → (pd, i) ∈ T) → is_u32 page → page mod 4096 = 0 →
  is_u32 fault_page → fault_page mod 4096 = 0 → low <= fault_page <= page →
  (∀ q, is_u32 q → q mod 4096 = 0 → fault_page <= q <= page → unmapped (vm_mem σ) pd q) →
  (page - fault_page) / 4096 + 2 <= Z.of_nat fuel →
  ∃ r σ' cur' top, grow_stack fuel pd fault_page low (lazy_map_flags v) page cur σ = Some (r, σ', cur') ∧
    fault_page <= top <= page + 4096 ∧ top mod 4096 = 0 ∧
    stack_grown σ σ' D T K ext pd (has (flags v) VMA_FLAG_WRITE) top (page + 4096) ∧
    cur' = (if decide (top = page + 4096) then cur else set_stack_low_limit cur top) ∧
    (r = 0 ∧ top = fault_page ∨ r = -1).
Proof.
  revert σ cur page. induction fuel as [|fuel IH]; intros σ cur page OK Hpd Hp Hpa Hq Hqa Hle Hun Hfuel;
    [Z.div_mod_to_equations; lia|].
  cbn [grow_stack]. destruct (Z.leb_spec fault_page page), (Z.leb_spec low page); try lia. cbn [andb].
  destruct (lazy_zero_page σ pd page (lazy_map_flags v)) as [rc σ1] eqn:El.
  destruct (index_ranges page Hp) as [Hpi Hpj].
  destruct (lazy_zero_ok inv managed σ D T K ext pd page v rc σ1 OK Hp (Hpd _ Hpi) (Hun page Hp Hpa ltac:(lia)) El)
    as [[-> Hn]|[-> (e & Hz & Hwr)]]; cbn [negb Z.eqb].
  { exists (-1), σ1, cur, (page + 4096). split; [done|]. split; [lia|]. split; [clear -Hpa; Z.div_mod_to_equations; lia|].
    split; [by apply stack_grown_none|]. rewrite decide_True by done. auto. }
  pose proof (zp_set _ _ _ _ _ _ _ _ _ _ _ _ Hz) as Hset. pose proof (es_ok _ _ _ _ _ _ _ _ _ _ _ _ _ Hset) as OK1.
  pose proof (zero_page_at _ _ _ _ _ _ _ _ _ (Hpd _ Hpi) Hp Hz) as Hzero. rewrite Hwr in Hzero.
  pose proof (entry_isolated inv managed _ _ _ _ _ _ _ _ _ _ OK Hset) as Hiso.
  assert (∀ q, is_u32 q → q mod 4096 = 0 → q ≠ page → (pd_index q, pt_index q) ≠ (pd_index page, pt_index page)) as Hinj.
  { intros q Hu Ha Hne [= E1 E2]. by apply Hne, page_index_inj. }
  assert (∀ q, is_u32 q → q mod 4096 = 0 → q ≠ page → walk_at (vm_mem σ1) pd q = walk_at (vm_mem σ) pd q) as Hother.
  { intros q Hu Ha Hne. destruct (index_ranges q Hu). unfold walk_at.
    rewrite (es_walk _ _ _ _ _ _ _ _ _ _ _ _ _ Hset) by auto. specialize (Hinj q Hu Ha Hne).
    by rewrite decide_False by congruence. }
  assert (stack_grown σ σ1 D T K ext pd (has (flags v) VMA_FLAG_WRITE) page (page + 4096)) as Hg1.
  { split; [done| | |].
    - intros q Hu Ha Hr. assert (q = page) as -> by (clear -Hpa Ha Hr; Z.div_mod_to_equations; lia). done.
    - intros q Hu Ha Hr. apply Hother; [done|done|]. intros ->. lia.
    - intros f Hf Hmap. by apply (entry_set_maps _ _ _ _ _ _ _ _ _ _ pd f OK Hset). }
  destruct (decide (page = fault_page)) as [->|Hne].
  - exists 0, σ1, (set_stack_low_limit cur fault_page), fault_page.
    split; [|split; [lia|split; [done|split; [done|split; [by rewrite decide_False by lia|by left]]]]].
    destruct (Z.eqb_spec fault_page 0) as [->|]; [done|]. destruct fuel as [|fuel]; [Z.div_mod_to_equations; lia|].
    cbn [grow_stack]. assert (fault_page -u PAGE_SIZE = fault_page - 4096) as -> by (unfold PAGE_SIZE; zsolve).
    by destruct (Z.leb_spec fault_page (fault_page - 4096)); [lia|].
  - assert (4096 <= page) as Hge by (unfold is_u32 in *; clear -Hpa Hqa Hle Hne Hq; Z.div_mod_to_equations; lia). destruct (Z.eqb_spec page 0); [lia|].
    assert (page -u PAGE_SIZE = page - 4096) as -> by (unfold PAGE_SIZE; zsolve).
    destruct (IH σ1 (set_stack_low_limit cur page) (page - 4096)) as (r & σ' & cur' & top & Eg & Ht & Hta & Hg & Hc & Hr);
      [done|done|zsolve|Z.div_mod_to_equations; lia|done|done|Z.div_mod_to_equations; lia| |Z.div_mod_to_equations; lia|].
    { intros q Hu Ha Hr. destruct (index_ranges q Hu). eapply unmapped_kept; [exact OK|exact Hset|auto|done|..].
      - apply Hinj; [done|done|lia].
      - apply Hun; [done|done|lia]. }
    replace (page - 4096 + 4096) with page in * by lia.
    exists r, σ', cur', top. split; [done|]. split; [lia|]. split; [done|]. destruct Hg as [Hi2 Hp2 Ho2 Hk2]. split; [split|split].
    + by eapply isolated_trans.
    + intros q Hu Ha Hqr. destruct (decide (q = page)) as [->|]; [|apply Hp2; [done|done|Z.div_mod_to_equations; lia]].
      destruct Hzero as (e0 & Hw0 & Hh0 & Hwr0 & Hs0 & Hf0 & Hb0). exists e0. rewrite Ho2 by (done || lia).
      split; [done|]. split; [done|]. split; [done|]. split; [done|]. split; [done|]. intros o Ho. rewrite Hk2; [by apply Hb0|done| |done].
      exists (pd_index page), (pt_index page), e0. unfold entry_page. rewrite Hh0. auto.
    + intros q Hu Ha Hqr. rewrite Ho2 by (done || lia). apply Hother; [done|done|]. intros ->. lia.
    + intros f Hf Hmap. eapply page_same_trans; [by apply (entry_set_maps _ _ _ _ _ _ _ _ _ _ pd f OK Hset)|].
      apply Hk2; [done|]. destruct Hmap as (i & j & e0 & Ht0 & Hj & Hw & He). exists i, j, e0. split; [done|]. split; [done|].
      split; [|done]. rewrite (es_walk _ _ _ _ _ _ _ _ _ _ _ _ _ Hset) by done. rewrite decide_False; [done|].
      intros [= -> ->]. pose proof (Hun page Hp Hpa ltac:(lia)) as Hu0. unfold unmapped in Hu0.
      rewrite (walk_own inv managed σ D T K ext) in Hu0 by done. rewrite Hw in Hu0. simpl in Hu0. unfold entry_page in He. congruence.
    + rewrite Hc. rewrite (decide_False (P := top = page + 4096)) by lia. case_decide as Htop; [by rewrite Htop|].
      by destruct cur.
    + done.
Qed.

(** ** The kernel's shadow mappings *)

(** A page the kernel maps for itself cannot be given to the user. *)
Lemma map_shadow_fails σ D T K ext pd virt phys fl e :
  vm_ok σ D T K ext → is_u32 virt → (pd, pd_index virt) ∈ T → walk_at (vm_mem σ) pd virt = Some e →
  user e = false → user fl = true → (paging_map_page σ pd virt phys fl).1 = -1.
Proof.
  intros OK Hv Ht Hw Hu Hfl. destruct (index_ranges virt Hv) as [Hi Hj].
  destruct (pd_frame _ _ _ _ _ _ _ _ _ OK Ht) as (Hpd & _). unfold paging_map_page.
  rewrite phys_ptr_frame by done. destruct (_ && _); [done|].
  unfold walk_at, walk in Hw. destruct (present (tw (vm_mem σ) pd (pd_index virt))) eqn:Hp; [|done].
  destruct (present (tw _ (paging_entry_addr _) (pt_index virt))) eqn:He; [|done]. injection Hw as Hw.
  pose proof (pt_frame _ _ _ _ _ _ _ _ _ OK Ht Hp) as Hf.
  unfold map_table. fold (tw (vm_mem σ) pd (pd_index virt)). cbn zeta. rewrite has_present, Hp, !has_user, Hfl. cbn [negb andb].
  destruct (user (tw (vm_mem σ) pd (pd_index virt))) eqn:Hus; cbn [negb].
  - rewrite phys_ptr_frame by done. fold (tw (vm_mem σ) (paging_entry_addr (tw (vm_mem σ) pd (pd_index virt))) (pt_index virt)).
    by rewrite Hw, has_present, has_user, Hu, <-Hw, He.
  - destruct (pmm_alloc_page σ) as [a σ1] eqn:Ea. destruct (Z.eqb_spec a 0) as [->|Ha]; [done|].
    destruct (alloc_ok _ _ _ _ _ _ _ _ _ OK Ea Ha) as (_ & [Hfa _] & _ & Hm & _).
    rewrite !phys_ptr_frame, Hm by done.
    fold (tw (vm_mem σ) (paging_entry_addr (tw (vm_mem σ) pd (pd_index virt))) (pt_index virt)).
    by rewrite Hw, has_present, has_user, Hu, <-Hw, He.
Qed.

Lemma lazy_shadow_fails {A} (fill : mem → Z → Z * mem * A) none σ D T K ext pd virt mfl e :
  (∀ m p y, y < p ∨ p + 4096 <= y → mem_get (fill m p).1.2 y = mem_get m y) →
  vm_ok σ D T K ext → is_u32 virt → (pd, pd_index virt) ∈ T → walk_at (vm_mem σ) pd virt = Some e → user e = false →
  user (arch_mm_to_paging_flags mfl) = true → (lazy_page fill none σ pd virt mfl).1.1 = -1.
Proof.
  intros Hfill OK Hv Ht Hw Hu Hfl. destruct (index_ranges virt Hv) as [_ Hj]. unfold lazy_page.
  destruct (pmm_alloc_page σ) as [a σ1] eqn:Ea. destruct (Z.eqb_spec a 0) as [->|Ha]; [done|].
  destruct (alloc_ok _ _ _ _ _ _ _ _ _ OK Ea Ha) as (_ & [Hf _] & _ & Hm & _). rewrite temp_map_frame, Hm by done.
  destruct (zeroed_page (vm_mem σ) a Hf) as [_ Hs0]. set (m0 := k_memset _ _ _ _) in *. clearbody m0.
  pose proof (Hfill m0 (kv a)) as Hout. destruct (fill m0 (kv a)) as [[rc m1] x1]. cbn [fst snd] in Hout.
  assert (∀ g, frame g → g ≠ a → page_same (vm_mem σ) m1 g) as Hs.
  { intros g Hg Hne. eapply page_same_trans; [by apply Hs0|]. intros o Ho. apply Hout.
    pose proof (frame_apart a g Hf Hg (not_eq_sym Hne)). unfold kv. lia. }
  destruct (filled_page inv managed _ _ _ _ _ _ _ _ OK Ea Ha Hs) as (_ & _ & OKm & _ & _ & Hw1 & _).
  destruct (rc =? 0); cbn [negb]; [|done].
  destruct (arch_mm_map (set_mem m1 σ1) pd virt a mfl) as [rc2 σ2] eqn:Em.
  assert (rc2 = -1) as ->; [|done].
  apply (arch_mm_map_eq _ _ _ _ _ _ _ Hf) in Em as [[-> _]|Em]; [done|].
  pose proof (map_shadow_fails (set_mem m1 σ1) D T K _ pd virt a (arch_mm_to_paging_flags mfl) e OKm Hv Ht) as Hx. rewrite Em in Hx.
  apply Hx; [|done|done]. unfold walk_at in *. cbn. by rewrite Hw1.
Qed.

(** ** The handlers as a whole *)

Lemma anon_page_ok σ D T K ext pd cr2 esp cur v :
  vm_ok σ D T K ext → (∀ i, ix i → (pd, i) ∈ T) → is_u32 cr2 →
  let page := cr2 &u not32 0xFFF in
  unmapped (vm_mem σ) pd page → kind v = VMA_KIND_HEAP ∨ kind v = VMA_KIND_GENERIC →
  ∃ r σ', fault_handle_lazy_anon_fault σ pd cr2 esp cur v = Some (r, σ', cur) ∧
    (r = -1 ∧ no_effect σ σ' D T K ext ∨
     r = 0 ∧ vma_private_anon v = true ∧
       ∃ e, zero_page inv managed σ σ' D T K ext pd (pd_index page) (pt_index page) e ∧
         writable e = has (flags v) VMA_FLAG_WRITE).
Proof.
  intros OK Hpd Hc page Hn Hk. destruct (fault_page_spec cr2 Hc) as [Hu _]. fold page in Hu.
  destruct (index_ranges page Hu) as [Hi _]. unfold fault_handle_lazy_anon_fault. fold page. cbn zeta.
  destruct (vma_private_anon v); cbn [negb].
  2: { exists (-1), σ. split; [done|]. left. split; [done|by apply no_effect_refl]. }
  assert ((kind v =? VMA_KIND_HEAP) || (kind v =? VMA_KIND_GENERIC) = true) as -> by (by destruct Hk as [->| ->]).
  destruct (lazy_zero_page σ pd page (lazy_map_flags v)) as [r σ'] eqn:El. exists r, σ'. split; [done|].
  destruct (lazy_zero_ok inv managed σ D T K ext pd page v r σ' OK Hu (Hpd _ Hi) Hn El) as [?|[-> ?]]; [by left|by right].
Qed.

(** The limit of the stack, and the pages below it the process has not touched. *)
Definition stack_untouched m pd (cur : process) page : Prop :=
  is_u32 (p_stack_low_limit cur) ∧ p_stack_low_limit cur mod 4096 = 0 ∧
  ∀ q, is_u32 q → q mod 4096 = 0 → page <= q < p_stack_low_limit cur → unmapped m pd q.

Lemma anon_stack_ok σ D T K ext pd cr2 esp cur v :
  vm_ok σ D T K ext → (∀ i, ix i → (pd, i) ∈ T) → is_u32 cr2 →
  let page := cr2 &u not32 0xFFF in
  stack_untouched (vm_mem σ) pd cur page → kind v ≠ VMA_KIND_HEAP → kind v ≠ VMA_KIND_GENERIC →
  ∃ r σ' cur', fault_handle_lazy_anon_fault σ pd cr2 esp cur v = Some (r, σ', cur') ∧
    (r = -1 ∧ no_effect σ σ' D T K ext ∧ cur' = cur ∨
     ∃ top, page <= top <= p_stack_low_limit cur ∧ top mod 4096 = 0 ∧ (r = 0 ∧ top = page ∨ r = -1) ∧
       stack_grown σ σ' D T K ext pd (has (flags v) VMA_FLAG_WRITE) top (p_stack_low_limit cur) ∧
       cur' = set_stack_low_limit cur top).
Proof.
  intros OK Hpd Hc page (Hl & Hla & Hun) Hk1 Hk2. destruct (fault_page_spec cr2 Hc) as [Hu Ep]. fold page in Hu, Ep.
  assert (page mod 4096 = 0) as Hpa by (rewrite Ep; clear; Z.div_mod_to_equations; lia).
  unfold fault_handle_lazy_anon_fault. fold page. cbn zeta.
  assert (∃ r σ' cur', Some (-1, σ, cur) = Some (r, σ', cur') ∧
    (r = -1 ∧ no_effect σ σ' D T K ext ∧ cur' = cur ∨
     ∃ top, page <= top <= p_stack_low_limit cur ∧ top mod 4096 = 0 ∧ (r = 0 ∧ top = page ∨ r = -1) ∧
       stack_grown σ σ' D T K ext pd (has (flags v) VMA_FLAG_WRITE) top (p_stack_low_limit cur) ∧
       cur' = set_stack_low_limit cur top)) as Hnone.
  { exists (-1), σ, cur. split; [done|]. left. split; [done|]. split; [by apply no_effect_refl|done]. }
  destruct (vma_private_anon v); cbn [negb]; [|done].
  destruct (Z.eqb_spec (kind v) VMA_KIND_HEAP), (Z.eqb_spec (kind v) VMA_KIND_GENERIC); try done. cbn [orb].
  destruct (_ && _ && _ && _ && _ && _) eqn:Hg; [|done]. clear Hnone. bprop.
  set (low := p_stack_low_limit cur) in *. assert (page < low) as Hpl by lia. assert (4096 <= low) as Hlow by (unfold is_u32 in *; clear -Hla Hpa Hu Hpl Hl; Z.div_mod_to_equations; lia).
  assert (low -u PAGE_SIZE = low - 4096) as -> by (unfold PAGE_SIZE; zsolve).
  destruct (grow_stack_ok (Z.to_nat (low / PAGE_SIZE + 1)) σ D T K ext pd v cur (low - 4096) page (start v))
    as (r & σ' & cur' & top & Eg & Ht & Hta & Hsg & Hcur & Hr); try done; try lia.
  - zsolve.
  - clear -Hla. Z.div_mod_to_equations; lia.
  - split; [lia|]. unfold is_u32 in *. clear -Hla Hpa Hpl. Z.div_mod_to_equations; lia.
  - intros q Hq Hqa Hqr. apply Hun; [done|done|lia].
  - unfold PAGE_SIZE. rewrite Z2Nat.id by (apply Z.add_nonneg_nonneg; [apply Z.div_pos|]; lia).
    unfold is_u32 in *. clear -Hla Hpa Hl Hu. Z.div_mod_to_equations; lia.
  - replace (low - 4096 + 4096) with low in * by lia. exists r, σ', cur'. split; [exact Eg|]. right. exists top.
    split; [lia|]. split; [done|]. split; [destruct Hr as [[? ?]|]; auto|]. split; [done|].
    rewrite Hcur. case_decide as Etop; [|done]. rewrite Etop. by destruct cur.
Qed.

(** What the handler may assume: the address space and the process are well
    formed, a fault on an absent page means the hardware found none, and the
    process has not touched its stack below the limit. *)
Record fault_pre σ T pd cr2 err (cur : process) : Prop := {
  fe_dirs : ∀ i, ix i → (pd, i) ∈ T;
  fe_addr : is_u32 cr2;
  fe_absent : err &u PF_ERR_PRESENT = 0 → walk_at (vm_mem σ) pd (cr2 &u not32 0xFFF) = None;
  fe_vma : ∀ v, vma_find_const cur cr2 = Some v → vma_u32 v;
  fe_stack : ∀ v, vma_find_const cur cr2 = Some v → kind v ≠ VMA_KIND_HEAP → kind v ≠ VMA_KIND_GENERIC →
    vma_private_anon v = true → stack_untouched (vm_mem σ) pd cur (cr2 &u not32 0xFFF);
}.

Lemma stack_isolated σ σ' D T K ext pd w low top :
  stack_grown σ σ' D T K ext pd w low top → isolated σ σ' D T K ext pd.
Proof. by intros []. Qed.

Lemma lazy_anon_ok σ fs D T K ext pd cr2 err esp cur v :
  vm_ok σ D T K ext → fault_pre σ T pd cr2 err cur → vma_find_const cur cr2 = Some v →
  unmapped (vm_mem σ) pd (cr2 &u not32 0xFFF) →
  ∃ r σ' cur', lazy_anon σ fs pd cr2 esp cur v = Some (r, σ', fs, cur') ∧ (r = 0 ∨ r = -1) ∧
    isolated σ σ' D T K ext pd.
Proof.
  intros OK [Hpd Hc _ _ Hst] Hv Hn. unfold lazy_anon.
  destruct (vma_private_anon v) eqn:Hpa.
  2: { exists (-1), σ, cur. unfold fault_handle_lazy_anon_fault. rewrite Hpa. cbn [negb].
       split; [done|]. split; [by right|by apply isolated_refl]. }
  destruct (decide (kind v = VMA_KIND_HEAP ∨ kind v = VMA_KIND_GENERIC)) as [Hk|Hk].
  - destruct (anon_page_ok σ D T K ext pd cr2 esp cur v OK Hpd Hc Hn Hk) as (r & σ' & -> & Hr).
    exists r, σ', cur. split; [done|]. destruct Hr as [[-> Hne]|(-> & _ & e & Hz & _)].
    + split; [by right|by apply no_effect_isolated].
    + split; [by left|]. eapply entry_isolated; [done|]. by apply zp_set in Hz.
  - assert (kind v ≠ VMA_KIND_HEAP ∧ kind v ≠ VMA_KIND_GENERIC) as [Hk1 Hk2] by tauto.
    destruct (anon_stack_ok σ D T K ext pd cr2 esp cur v OK Hpd Hc (Hst v Hv Hk1 Hk2 Hpa) Hk1 Hk2) as (r & σ' & cur' & -> & Hr).
    exists r, σ', cur'. split; [done|]. destruct Hr as [(-> & Hne & _)|(top & _ & _ & Hr & Hsg & _)].
    + split; [by right|by apply no_effect_isolated].
    + split; [destruct Hr as [[? _]|]; auto|by eapply stack_isolated].
Qed.

Lemma lazy_file_fault_ok σ fs D T K ext pd cr2 err cur v :
  vm_ok σ D T K ext → fault_pre σ T pd cr2 err cur → vma_find_const cur cr2 = Some v →
  unmapped (vm_mem σ) pd (cr2 &u not32 0xFFF) →
  ∃ r σ' fs', lazy_file σ fs pd (cr2 &u not32 0xFFF) cur v = Some (r, σ', fs', cur) ∧ (r = 0 ∨ r = -1) ∧
    isolated σ σ' D T K ext pd.
Proof.
  intros OK [Hpd Hc _ Hvma _] Hv Hn. unfold lazy_file. destruct (fault_page_spec cr2 Hc) as [Hu _].
  destruct (index_ranges _ Hu) as [Hi _].
  destruct (fault_handle_lazy_file_private_fault _ _ _ _ _) as [[r σ'] fs'] eqn:E. exists r, σ', fs'. split; [done|].
  destruct (lazy_file_ok σ fs D T K ext pd _ v r σ' fs' OK Hu (Hpd _ Hi) (Hvma v Hv) Hn E) as [[-> Hne]|[-> (e & He)]].
  - split; [by right|by apply no_effect_isolated].
  - split; [by left|]. eapply entry_isolated; [done|]. by apply fp_set in He.
Qed.

Lemma shadow_unmapped σ D T K ext pd virt :
  vm_ok σ D T K ext → is_u32 virt → (pd, pd_index virt) ∈ T → shadow_mapping (arch_mm_query σ pd virt) = true →
  ∃ e, walk_at (vm_mem σ) pd virt = Some e ∧ user e = false ∧ unmapped (vm_mem σ) pd virt.
Proof.
  intros OK Hv Ht Hs. rewrite (query_eq _ _ _ _ _ _ _ _ _ OK Ht) in Hs. fold (walk_at (vm_mem σ) pd virt) in Hs.
  destruct (walk_at (vm_mem σ) pd virt) as [e|] eqn:Hw; [|done]. simpl in Hs.
  destruct (entry_mapping_has e) as (_ & _ & _ & Hx & _). rewrite Hx in Hs.
  assert (user e = false) as Hu by (destruct (user e); [done|done]).
  exists e. split; [done|]. split; [done|]. eapply unmapped_none; try done. intros e' Ee. congruence.
Qed.

Lemma handle_fault_ok σ fs D T K ext pd cr2 err esp cur :
  vm_ok σ D T K ext → fault_pre σ T pd cr2 err cur →
  ∃ r σ' fs' cur', paging_handle_fault σ fs pd cr2 err esp (Some cur) = Some (r, σ', fs', cur') ∧
    (r = 0 ∨ r = -1) ∧ isolated σ σ' D T K ext pd.
Proof.
  intros OK Hpre. pose proof (fe_addr _ _ _ _ _ _ Hpre) as Hc. destruct (fault_page_spec cr2 Hc) as [Hu _].
  destruct (index_ranges _ Hu) as [Hi _]. pose proof (fe_dirs _ _ _ _ _ _ Hpre _ Hi) as Ht.
  unfold paging_handle_fault. cbn zeta. set (page := cr2 &u not32 0xFFF) in *.
  assert (∃ r σ' fs' cur', Some (-1, σ, fs, Some cur) = Some (r, σ', fs', cur') ∧ (r = 0 ∨ r = -1) ∧
    isolated σ σ' D T K ext pd) as Hfail.
  { exists (-1), σ, fs, (Some cur). split; [done|]. split; [by right|by apply isolated_refl]. }
  assert (∃ r σ' fs' cur',
    (if err &u PF_ERR_WRITE =? 0 then Some (-1, σ, fs, Some cur)
     else let '(rc, σ) := fault_break_cow σ pd page in Some (rc, σ, fs, Some cur)) = Some (r, σ', fs', cur') ∧
    (r = 0 ∨ r = -1) ∧ isolated σ σ' D T K ext pd) as Hcow.
  { destruct (_ =? _); [done|]. destruct (fault_break_cow σ pd page) as [r σ'] eqn:E.
    exists r, σ', fs, (Some cur). split; [done|].
    destruct (break_cow_ok inv managed σ D T K ext pd page r σ' OK Hu Ht E) as [[-> Hn]|[-> (e & e' & _ & _ & Hcb)]].
    - split; [by right|by apply no_effect_isolated].
    - split; [by left|]. eapply entry_isolated; [done|]. by apply cb_set in Hcb. }
  assert (∀ v, vma_find_const cur cr2 = Some v → unmapped (vm_mem σ) pd page →
    (∃ r σ' fs' cur', (λ '(rc, σ, fs, p), (rc, σ, fs, Some p)) <$> lazy_file σ fs pd page cur v = Some (r, σ', fs', cur') ∧
      (r = 0 ∨ r = -1) ∧ isolated σ σ' D T K ext pd) ∧
    (∃ r σ' fs' cur', (λ '(rc, σ, fs, p), (rc, σ, fs, Some p)) <$> lazy_anon σ fs pd cr2 esp cur v = Some (r, σ', fs', cur') ∧
      (r = 0 ∨ r = -1) ∧ isolated σ σ' D T K ext pd)) as Hlazy.
  { intros v Hv Hn. split.
    - destruct (lazy_file_fault_ok σ fs D T K ext pd cr2 err cur v OK Hpre Hv Hn) as (r & σ' & fs' & E & ?).
      fold page in E. rewrite E. by exists r, σ', fs', (Some cur).
    - destruct (lazy_anon_ok σ fs D T K ext pd cr2 err esp cur v OK Hpre Hv Hn) as (r & σ' & cur' & -> & ?).
      by exists r, σ', fs, (Some cur'). }
  destruct (err &u PF_ERR_USER =? 0); [done|]. destruct (vma_find_const cur cr2) as [v|] eqn:Hv; [|done].
  destruct (negb _); [done|]. specialize (Hlazy v eq_refl).
  destruct (Z.eqb_spec (err &u PF_ERR_PRESENT) 0) as [Hz|_].
  - destruct Hlazy as [? ?]; [|by destruct (vma_is_private_file_backed v)].
    eapply unmapped_none; try done. intros e He. pose proof (fe_absent _ _ _ _ _ _ Hpre Hz) as Ha. fold page in Ha. congruence.
  - destruct (shadow_mapping _) eqn:Hs; [|done].
    destruct (shadow_unmapped _ _ _ _ _ _ _ OK Hu Ht Hs) as (_ & _ & _ & Hn). destruct (Hlazy Hn) as [? ?].
    destruct (vma_is_private_file_backed v); [done|]. by destruct (vma_private_anon v).
Qed.
End ops.
