(* ===== verification/PagingDemo.v ===== *)
(** * A small machine for the examples of the paging files

    Thirty-two frames, the first eighteen reserved, and the kernel's empty
    directory at [PAGE_DIR_ADDR]. *)

From S2P Require Import Prelude Interfaces PmmCore Memory Paging PagingSpec PagingInv PagingSteps PagingOps PagingSpaces PagingClone PagingFork Vma Fault FaultSpec FaultOps.

#[local] Opaque for_loop for_exit zero_table copy_table.

Definition demo_frames : pmm_core_state :=
  mk_pmm [255; 255; 3; 0] (replicate 18 255 ++ replicate 14 0) 32.
Definition demo_boot : vm pmm_core_state := mk_vm demo_frames ∅.
Definition no_ext (f : Z) : Z := 0.

Notation demo_ok := (vm_ok pmm_inv pmm_managed).

Lemma demo_frames_inv : pmm_inv demo_frames.
Proof.
  split; [|done].
  assert (∀ p, 0 <= p < 32 → is_u8 (refcounts demo_frames).[p] ∧
    page_bit demo_frames p = negb ((refcounts demo_frames).[p] =? 0)) as Hp.
  { intros p Hp. assert (p ∈ seqZ 0 32) as Hin by (apply elem_of_seqZ; lia). clear Hp. revert p Hin.
    apply Forall_forall. rewrite (eq_refl : seqZ 0 32 = [0;1;2;3;4;5;6;7;8;9;10;11;12;13;14;15;16;17;18;19;20;21;22;23;24;25;26;27;28;29;30;31]).
    repeat (constructor; [split; vm_compute; done|]). constructor. }
  split; try (intros p Hr; by apply Hp); try done.
  intros i Hi. change ((max_pages demo_frames + 7) / 8) with 4 in Hi.
  assert (i = 0 ∨ i = 1 ∨ i = 2 ∨ i = 3) as [->|[->|[->| ->]]] by lia; vm_compute; done.
Qed.

Lemma demo_tw f i : tw ∅ f i = 0.
Proof. done. Qed.

Lemma demo_boot_ok : demo_ok demo_boot [] [] {[PAGE_DIR_ADDR]} no_ext.
Proof.
  assert (∀ f, owners ∅ [] [] f = 0) as Ho by done.
  assert (mframe pmm_managed demo_boot PAGE_DIR_ADDR) as Hk by (split; [split; [unfold PAGE_DIR_ADDR; lia|done]|vm_compute; done]).
  split; cbn [vm_mem vm_pmm demo_boot]; try done; try (intros *; by rewrite ?elem_of_nil); try (intros *; rewrite demo_tw; done).
  - apply demo_frames_inv.
  - intros a. unfold pmm_managed, PAGE_SIZE. change (max_pages demo_frames) with 32. intros. Z.div_mod_to_equations; lia.
  - constructor.
  - constructor.
  - intros f ->%elem_of_singleton. split; [done|]. unfold total. rewrite Ho, ind_true by set_solver. done.
  - intros f [[Hf Hal] Hm]. unfold total, no_ext. rewrite Ho. change (f / PAGE_SIZE < 32) in Hm.
    unfold pmm_refcount, demo_boot; cbn [vm_pmm]. change (pa_refcount demo_frames f) with (pmm_core_refcount demo_frames f).
    rewrite refcount_at by apply demo_frames_inv. change (max_pages demo_frames) with 32.
    destruct (Z.ltb_spec (f / PAGE_SIZE) 32); [|lia].
    destruct (decide (f / PAGE_SIZE < 18)) as [Hlt|].
    + left. assert (f / PAGE_SIZE ∈ seqZ 0 18) as Hin by (apply elem_of_seqZ; unfold PAGE_SIZE in *; Z.div_mod_to_equations; lia).
      revert Hin. generalize (f / PAGE_SIZE). apply Forall_forall.
      rewrite (eq_refl : seqZ 0 18 = [0;1;2;3;4;5;6;7;8;9;10;11;12;13;14;15;16;17]).
      repeat (constructor; [vm_compute; done|]). constructor.
    + right. rewrite ind_false.
      * assert (f / PAGE_SIZE ∈ seqZ 18 14) as Hin by (apply elem_of_seqZ; unfold PAGE_SIZE in *; Z.div_mod_to_equations; lia).
        revert Hin. generalize (f / PAGE_SIZE). apply Forall_forall.
        rewrite (eq_refl : seqZ 18 14 = [18;19;20;21;22;23;24;25;26;27;28;29;30;31]).
        repeat (constructor; [vm_compute; done|]). constructor.
      * intros ->%elem_of_singleton. unfold PAGE_DIR_ADDR, PAGE_SIZE in *. done.
Qed.

Lemma pair_fst {A B} (p : A * B) a : p.1 = a → p = (a, p.2).
Proof. by destruct p; intros <-. Qed.

(** ** One process with a zero page at [0x40000000] *)

Definition demo_pd : Z := 0x12000.
Definition demo_virt : Z := 0x40000000.
Definition demo_space : vm pmm_core_state := (paging_create_user_space 0x100000 demo_boot).2.

Lemma demo_space_eq : paging_create_user_space 0x100000 demo_boot = (demo_pd, demo_space).
Proof. unfold demo_space. apply pair_fst. vm_compute. reflexivity. Qed.
#[global] Opaque demo_space.

Definition demo_area (fl : Z) : vm_area := mk_vma demo_virt (demo_virt + 0x4000) fl VMA_KIND_GENERIC 0 0 (mk_ref 0 0).
Definition demo_page : vm pmm_core_state := (lazy_zero_page demo_space demo_pd demo_virt (lazy_map_flags (demo_area 0x1B))).2.

Lemma demo_page_eq :
  lazy_zero_page demo_space demo_pd demo_virt (lazy_map_flags (demo_area 0x1B)) = (0, demo_page).
Proof. unfold demo_page. apply pair_fst. vm_compute. reflexivity. Qed.
#[global] Opaque demo_page.

Definition demo_entry : Z := 0x13007.

Notation demo_D := [demo_pd].
Notation demo_T := (pd_dirs demo_pd).
Notation demo_K := {[PAGE_DIR_ADDR]}.

Lemma demo_dirs i : ix i → (demo_pd, i) ∈ demo_T.
Proof. intros. by apply elem_of_pd_dirs. Qed.

Lemma demo_space_ok : demo_ok demo_space demo_D demo_T demo_K no_ext.
Proof.
  destruct (create_ok _ _ 0x100000 demo_boot [] [] demo_K no_ext demo_pd demo_space demo_boot_ok) as [[H _]|(_ & _ & OK & _)].
  - intros p i Hp. by apply elem_of_nil in Hp.
  - exact demo_space_eq.
  - exfalso. revert H. unfold demo_pd. lia.
  - rewrite app_nil_r in OK. exact OK.
Qed.

Lemma demo_page_ok : demo_ok demo_page demo_D demo_T demo_K no_ext.
Proof.
  destruct (lazy_zero_ok _ _ demo_space demo_D demo_T demo_K no_ext demo_pd demo_virt (demo_area 0x1B) 0 demo_page demo_space_ok)
    as [[H _]|[_ (e & [[OK _ _ _] _ _ _] & _)]].
  - unfold demo_virt, is_u32. lia.
  - apply demo_dirs. unfold ix. vm_compute. split; [discriminate|reflexivity].
  - vm_compute. reflexivity.
  - exact demo_page_eq.
  - discriminate H.
  - exact OK.
Qed.

Lemma demo_page_walk : walk_at (vm_mem demo_page) demo_pd demo_virt = Some demo_entry.
Proof. vm_compute. reflexivity. Qed.

(** ** Two processes after a fork *)

Definition demo_child : Z := 0x15000.
Definition demo_fork : vm pmm_core_state := (paging_clone_user_space demo_page demo_pd).2.

Lemma demo_fork_eq : paging_clone_user_space demo_page demo_pd = (demo_child, demo_fork).
Proof. unfold demo_fork. refine (pair_fst (paging_clone_user_space demo_page demo_pd) demo_child _). vm_compute. reflexivity. Qed.
#[global] Opaque demo_fork.

Notation fork_D := [demo_child; demo_pd].
Notation fork_T := (pd_dirs demo_child ++ demo_T).

Lemma demo_user_table :
  forallb (λ k, (k =? 256) || negb (entry_is_user (tw (vm_mem demo_page) demo_pd k))) (seqZ 0 1024) = true ∧
  entry_is_user (tw (vm_mem demo_page) (paging_entry_addr (tw (vm_mem demo_page) demo_pd 256)) 0) = true.
Proof. split; vm_compute; reflexivity. Qed.

Lemma demo_full : tables_full (vm_mem demo_page) demo_pd.
Proof.
  destruct demo_user_table as [Hall H0]. generalize dependent (vm_mem demo_page). intros m Hall H0 i Hi Hu.
  exists 0. split; [unfold ix; lia|]. assert (i = 256) as ->; [|exact H0].
  rewrite forallb_forall in Hall. assert (i ∈ seqZ 0 1024) as Hin by (apply elem_of_seqZ; unfold ix in Hi; lia).
  apply list_elem_of_In, Hall in Hin. rewrite Hu, orb_false_r in Hin. by apply Z.eqb_eq in Hin.
Qed.

Lemma demo_fork_ok : demo_ok demo_fork fork_D fork_T demo_K no_ext.
Proof.
  destruct (clone_ok _ _ demo_page demo_D demo_T demo_K no_ext demo_pd demo_child demo_fork demo_page_ok demo_dirs demo_full)
    as [[H _]|(_ & _ & OK & _)].
  - exact demo_fork_eq.
  - discriminate H.
  - exact OK.
Qed.
