(* ===== verification/PagingProps.v ===== *)
(** * Address spaces: properties

    Mapping and asking, creating and destroying spaces, copy-on-write fork, and
    the isolation of address spaces, in terms of what a user program reads and
    writes. *)

From S2P Require Import Prelude Interfaces PmmCore Memory Kstring Vma Paging PagingSpec PagingInv PagingSteps PagingOps PagingSpaces PagingClone PagingFork Fault FaultSpec FaultOps PagingDemo.

#[local] Opaque for_loop for_exit zero_table copy_table.

Section props.
Context {S : Type} `{PageAllocator S} (inv : S → Prop) (managed : S → Z → Prop).
Context `{!PageAllocatorLaws S inv managed}.
Implicit Types (σ : vm S) (D : list Z) (T : list (Z * Z)) (K : gset Z) (ext : Z → Z) (m : mem).
Notation vm_ok := (vm_ok inv managed).
Notation mframe := (mframe managed).
Notation isolated := (isolated inv managed).
Notation forked := (forked inv managed).
Notation no_effect := (no_effect inv managed).

(** ** What a user program reads and writes *)

Definition user_load m pd virt : option Z :=
  match walk_at m pd virt with
  | Some e => if user e then Some (mem_get m (kv (paging_entry_addr e) + virt mod 4096)) else None
  | None => None
  end.

Definition user_store m pd virt b : option mem :=
  match walk_at m pd virt with
  | Some e => if user e && writable e then Some (mem_set m (kv (paging_entry_addr e) + virt mod 4096) b) else None
  | None => None
  end.

(** Device memory is not the allocator's: the theorems on contents are about
    ordinary pages. *)
Definition no_device m pd virt : Prop := ∀ e, walk_at m pd virt = Some e → io e = false.

Lemma walk_present m pd i j e : walk m pd i j = Some e → present e = true.
Proof. unfold walk. repeat case_match; intros; by simplify_eq. Qed.

Lemma user_holds m pd virt e :
  no_device m pd virt → walk_at m pd virt = Some e → user e = true → holds_page e = true.
Proof.
  intros Hd Hw Hu. unfold holds_page. by rewrite entry_is_user_eq, (walk_present _ _ _ _ _ Hw), Hu, (Hd e Hw).
Qed.

Lemma user_maps σ D T K ext pd virt e :
  vm_ok σ D T K ext → is_u32 virt → (pd, pd_index virt) ∈ T → walk_at (vm_mem σ) pd virt = Some e →
  holds_page e = true → maps (vm_mem σ) T pd (paging_entry_addr e) ∧ frame (paging_entry_addr e) ∧
  own (vm_mem σ) (OwnPage pd (pd_index virt) (pt_index virt)) = Some (paging_entry_addr e).
Proof.
  intros OK Hv Ht Hw Hh. destruct (index_ranges virt Hv) as [Hi Hj].
  assert (own (vm_mem σ) (OwnPage pd (pd_index virt) (pt_index virt)) = Some (paging_entry_addr e)) as Eo.
  { rewrite (walk_own inv managed σ D T K ext) by done. unfold walk_at in Hw. rewrite Hw. simpl. by rewrite Hh. }
  split; [|split; [by destruct (vo_page _ _ _ _ _ _ _ OK _ _ _ _ Ht Hj Eo)|done]].
  exists (pd_index virt), (pt_index virt), e. unfold entry_page. by rewrite Hh.
Qed.

Lemma page_load m m' f virt :
  page_same m m' f → mem_get m' (kv f + virt mod 4096) = mem_get m (kv f + virt mod 4096).
Proof. intros E. apply E. apply Z.mod_pos_bound. done. Qed.

(** A step of one space does not change what another one reads. *)
Lemma isolated_load σ σ' D T K ext pd pd' virt :
  vm_ok σ D T K ext → isolated σ σ' D T K ext pd → pd' ≠ pd → is_u32 virt → (pd', pd_index virt) ∈ T →
  no_device (vm_mem σ) pd' virt → user_load (vm_mem σ') pd' virt = user_load (vm_mem σ) pd' virt.
Proof.
  intros OK [_ Hw Hp _] Hne Hv Ht Hd. destruct (index_ranges virt Hv) as [Hi Hj]. unfold user_load.
  assert (walk_at (vm_mem σ') pd' virt = walk_at (vm_mem σ) pd' virt) as -> by by apply Hw.
  destruct (walk_at (vm_mem σ) pd' virt) as [e|] eqn:E; [|done]. destruct (user e) eqn:Hu; [|done].
  destruct (user_maps _ _ _ _ _ _ _ _ OK Hv Ht E (user_holds _ _ _ _ Hd E Hu)) as (Hm & Hf & _).
  f_equal. apply page_load, Hp; [done|]. right. by exists pd'.
Qed.

(** A private writable page has one owner and is no table. *)
Lemma private_page σ D T K ext pd virt e :
  vm_ok σ D T K ext → is_u32 virt → (pd, pd_index virt) ∈ T → no_device (vm_mem σ) pd virt →
  walk_at (vm_mem σ) pd virt = Some e → user e = true → writable e = true → shared e = false →
  frame (paging_entry_addr e) ∧ ¬ is_table (vm_mem σ) D T K (paging_entry_addr e) ∧
  owners (vm_mem σ) D T (paging_entry_addr e) = 1 ∧
  own (vm_mem σ) (OwnPage pd (pd_index virt) (pt_index virt)) = Some (paging_entry_addr e).
Proof.
  intros OK Hv Ht Hd Hw Hu Hwr Hs. destruct (index_ranges virt Hv) as [Hi Hj].
  pose proof (user_holds _ _ _ _ Hd Hw Hu) as Hh.
  destruct (user_maps _ _ _ _ _ _ _ _ OK Hv Ht Hw Hh) as (Hm & Hf & Eo).
  split; [done|]. split; [by eapply page_not_table|]. split; [|done].
  destruct (walk_slot _ _ _ _ _ _ _ _ _ _ _ OK Ht Hj Hw Hu) as (pt & Hown & _ & _ & _ & _ & Etw & _ & _).
  rewrite <-Etw. apply (vo_excl _ _ _ _ _ _ _ OK pd (pd_index virt) (pt_index virt) pt Ht Hj Hown).
  unfold private_writable. by rewrite Etw, Hh, Hwr, Hs.
Qed.

(** Bytes written inside one private page are read there and nowhere else: two
    user addresses of ordinary pages are the same byte of memory only when they
    are the same address of the same space. *)
Lemma store_region σ D T K ext pd virt e n g m' :
  vm_ok σ D T K ext → is_u32 virt → (pd, pd_index virt) ∈ T → no_device (vm_mem σ) pd virt →
  walk_at (vm_mem σ) pd virt = Some e → user e = true → writable e = true → shared e = false →
  0 <= n → virt mod 4096 + n <= 4096 → mem_region (vm_mem σ) m' (kv (paging_entry_addr e) + virt mod 4096) n g →
  vm_ok (set_mem m' σ) D T K ext ∧ walks_same (vm_mem σ) m' T ∧
  ∀ pd' virt', is_u32 virt' → (pd', pd_index virt') ∈ T → no_device (vm_mem σ) pd' virt' →
    user_load m' pd' virt' =
      if decide (pd' = pd ∧ virt <= virt' < virt + n) then Some (g (virt' - virt)) else user_load (vm_mem σ) pd' virt'.
Proof.
  intros OK Hv Ht Hd Hw Hu Hwr Hs Hn Hpg Hr.
  destruct (private_page _ _ _ _ _ _ _ _ OK Hv Ht Hd Hw Hu Hwr Hs) as (Hf & Hnt & Ho & Eo).
  set (f := paging_entry_addr e) in *. pose proof (Z.mod_pos_bound virt 4096 ltac:(done)) as Hoff.
  assert (∀ h, frame h → h ≠ f → page_same (vm_mem σ) m' h) as Hpage.
  { intros h Hh Hne o Ho'. apply (region_outside _ _ _ _ _ _ Hr). pose proof (frame_apart f h Hf Hh (not_eq_sym Hne)). unfold kv. lia. }
  assert (∀ h, is_table (vm_mem σ) D T K h → page_same (vm_mem σ) m' h) as Htab.
  { intros h Hh. destruct (table_frame _ _ _ _ _ _ _ OK h Hh) as [[? _] _]. apply Hpage; [done|]. by intros ->. }
  assert (walks_same (vm_mem σ) m' T) as Hws by (by eapply tables_walk).
  split; [apply set_mem_ok; [done|by eapply same_tables]|]. split; [done|].
  intros pd' virt' Hv' Ht' Hd'. destruct (index_ranges virt' Hv') as [_ Hj']. unfold user_load, walk_at in *.
  rewrite Hws by done. pose proof (Z.mod_pos_bound virt' 4096 ltac:(done)) as Hoff'.
  case_decide as Hin.
  - destruct Hin as [-> Hin]. assert (virt' / 4096 = virt / 4096) as Ep by (clear -Hin Hpg Hoff Hoff' Hv Hv'; Z.div_mod_to_equations; lia).
    destruct (same_page_index virt' virt Ep) as [E1 E2]. rewrite E1, E2, Hw, Hu. f_equal. fold f. rewrite Hr.
    replace (kv f + virt' mod 4096 - (kv f + virt mod 4096)) with (virt' - virt) by (clear -Ep; Z.div_mod_to_equations; lia).
    assert ((kv f + virt mod 4096 <=? kv f + virt' mod 4096) && (kv f + virt' mod 4096 <? kv f + virt mod 4096 + n) = true) as ->; [|done].
    apply andb_true_iff. rewrite Z.leb_le, Z.ltb_lt. clear -Ep Hin. Z.div_mod_to_equations; lia.
  - destruct (walk (vm_mem σ) pd' (pd_index virt') (pt_index virt')) as [e'|] eqn:E; [|done].
    destruct (user e') eqn:Hu'; [|done]. f_equal.
    destruct (user_maps _ _ _ _ _ _ _ _ OK Hv' Ht' E (user_holds _ _ _ _ Hd' E Hu')) as (_ & Hf' & Eo').
    destruct (decide (f = paging_entry_addr e')) as [Ef|Ef]; [|by apply page_load, Hpage].
    rewrite <-Ef. apply (region_outside _ _ _ _ _ _ Hr).
    destruct (index_ranges virt Hv) as [_ Hj].
    assert (OwnPage pd (pd_index virt) (pt_index virt) = OwnPage pd' (pd_index virt') (pt_index virt')) as [= -> E1 E2].
    { apply (owners_unique (vm_mem σ) D T f); rewrite ?elem_of_keys; try done; [lia|by rewrite Ef]. }
    pose proof (index_page virt virt' Hv Hv' E1 E2) as Ep.
    assert (¬ (virt <= virt' < virt + n)) as Hout by tauto. clear -Ep Hout. Z.div_mod_to_equations; lia.
Qed.

Lemma store_effect σ D T K ext pd virt e b m' :
  vm_ok σ D T K ext → is_u32 virt → (pd, pd_index virt) ∈ T → no_device (vm_mem σ) pd virt →
  walk_at (vm_mem σ) pd virt = Some e → shared e = false → user_store (vm_mem σ) pd virt b = Some m' →
  vm_ok (set_mem m' σ) D T K ext ∧ walks_same (vm_mem σ) m' T ∧
  mem_get m' (kv (paging_entry_addr e) + virt mod 4096) = u8 b ∧
  ∀ pd' virt', is_u32 virt' → (pd', pd_index virt') ∈ T → no_device (vm_mem σ) pd' virt' →
    (pd', virt') ≠ (pd, virt) → user_load m' pd' virt' = user_load (vm_mem σ) pd' virt'.
Proof.
  intros OK Hv Ht Hd Hw Hs Est. unfold user_store in Est. rewrite Hw in Est.
  destruct (user e) eqn:Hu; [|done]. destruct (writable e) eqn:Hwr; [|done]. cbn [andb] in Est. injection Est as <-.
  pose proof (Z.mod_pos_bound virt 4096 ltac:(done)) as Hoff.
  destruct (store_region _ _ _ _ _ _ _ _ 1 _ _ OK Hv Ht Hd Hw Hu Hwr Hs ltac:(lia) ltac:(lia)
    (region_byte (vm_mem σ) (kv (paging_entry_addr e) + virt mod 4096) b)) as (OK' & Hws & Hl).
  split; [done|]. split; [done|]. split; [by rewrite mem_get_set, Z.eqb_refl|].
  intros pd' virt' Hv' Ht' Hd' Hne. rewrite Hl by done. rewrite decide_False; [done|].
  intros [-> ?]. apply Hne. f_equal. lia.
Qed.

(** ** The properties *)

(** A page mapped through [arch_mm_map] is what [arch_mm_query] then finds,
    with the requested permissions; every other page of every space is found as
    before, and the reference the caller held on the page now belongs to the
    mapping. *)
Theorem arch_mm_map_query σ D T K ext pd virt phys fl σ' :
  vm_ok σ D T K ext → is_u32 virt → (pd, pd_index virt) ∈ T → page_flags (arch_mm_to_paging_flags fl) →
  mframe σ phys → 1 <= ext phys → owners (vm_mem σ) D T phys = 0 → unmapped (vm_mem σ) pd virt →
  arch_mm_map σ pd virt phys fl = (0, σ') →
  vm_ok σ' D T K (sub_ref ext phys) ∧
  arch_mm_query σ' pd virt = Some (phys, entry_mapping_flags (arch_mm_to_paging_flags fl)) ∧
  ∀ pd' virt', is_u32 virt' → (pd', pd_index virt') ∈ T → (pd', virt' / 4096) ≠ (pd, virt / 4096) →
    arch_mm_query σ' pd' virt' = arch_mm_query σ pd' virt'.
Proof.
  intros OK Hv Ht Hfl Hf Hx Ho Hn E. destruct (index_ranges virt Hv) as [_ Hj].
  apply (arch_mm_map_eq _ _ _ _ _ _ _ (proj1 Hf)) in E as [[? _]|E]; [done|].
  destruct (map_page_spec _ _ σ D T K ext pd virt phys _ 0 σ' OK Hv Ht Hfl Hf Hx Ho E) as [[? _]|[_ [OK' Hw _ _]]]; [done|].
  destruct (build_entry phys _ (proj1 Hf) Hfl) as (_ & _ & Hp & Ha & Hb). cbn zeta in *.
  assert (vm_ok σ' D T K (sub_ref ext phys)) as OK2.
  { eapply vm_ok_ext; [|exact OK']. intros f. unfold sub_ref. cbn beta. unfold unmapped in Hn.
    rewrite Hn, Ha, (ind_false (None = Some f)) by done. lia. }
  split; [done|]. split.
  - rewrite (query_eq _ _ _ _ _ _ _ _ _ OK2 Ht), Hw, decide_True by done. simpl. rewrite Ha. f_equal. f_equal.
    unfold entry_mapping_flags. rewrite !has_shared, !has_io, !has_cow, !has_user, !has_writable.
    unfold shared, io, cow, user, writable. by rewrite !Hb by lia.
  - intros pd' virt' Hv' Ht' Hne. destruct (index_ranges virt' Hv') as [_ Hj'].
    rewrite (query_eq _ _ _ _ _ _ _ _ _ OK2 Ht'), (query_eq _ _ _ _ _ _ _ _ _ OK Ht'), Hw by done.
    rewrite decide_False; [done|]. intros [= -> E1 E2]. apply Hne. f_equal. by apply index_page.
Qed.

Lemma mapped_load σ σ' D T K ext pd virt e :
  vm_ok σ D T K ext → data_same (vm_mem σ) (vm_mem σ') D T K ext → is_u32 virt → (pd, pd_index virt) ∈ T →
  no_device (vm_mem σ) pd virt → walk_at (vm_mem σ) pd virt = Some e → user e = true →
  mem_get (vm_mem σ') (kv (paging_entry_addr e) + virt mod 4096) =
  mem_get (vm_mem σ) (kv (paging_entry_addr e) + virt mod 4096).
Proof.
  intros OK Hdata Hv Ht Hd Ee Hu.
  destruct (user_maps _ _ _ _ _ _ _ _ OK Hv Ht Ee (user_holds _ _ _ _ Hd Ee Hu)) as (Hm & Hf & _).
  destruct (maps_own inv managed σ D T K ext _ _ OK Hm) as [Hnt Ho]. apply page_load, Hdata; [done|done|].
  unfold total. pose proof (vo_ext _ _ _ _ _ _ _ OK (paging_entry_addr e)).
  pose proof (ind_range (paging_entry_addr e ∈ K)). lia.
Qed.

Lemma forked_load σ σ' D T K ext src new pd virt :
  vm_ok σ D T K ext → forked σ σ' D T K ext src new →
  is_u32 virt → (pd, pd_index virt) ∈ T → no_device (vm_mem σ) pd virt →
  user_load (vm_mem σ') pd virt = user_load (vm_mem σ) pd virt.
Proof.
  intros OK (OK' & Hchild & Hwalk & Hdata & Hman) Hv Ht Hd. destruct (index_ranges virt Hv) as [Hi Hj]. unfold user_load.
  assert (walk_at (vm_mem σ') pd virt = (if decide (pd = src) then downgrade <$> walk_at (vm_mem σ) pd virt
    else walk_at (vm_mem σ) pd virt)) as -> by by apply Hwalk.
  destruct (walk_at (vm_mem σ) pd virt) as [e|] eqn:Ee; [|by case_decide].
  assert (user (downgrade e) = user e ∧ paging_entry_addr (downgrade e) = paging_entry_addr e) as [Hdu Hda].
  { split; [by apply downgrade_flags|]. apply downgrade_addr. by eapply walk_u32. }
  pose proof (mapped_load _ _ _ _ _ _ _ _ _ OK Hdata Hv Ht Hd Ee) as Hb.
  case_decide; simpl; rewrite ?Hdu, ?Hda; (destruct (user e); [by rewrite Hb|done]).
Qed.

Lemma forked_child_load σ σ' D T K ext src new virt :
  vm_ok σ D T K ext → forked σ σ' D T K ext src new → (∀ i, ix i → (src, i) ∈ T) →
  is_u32 virt → no_device (vm_mem σ) src virt →
  user_load (vm_mem σ') new virt = user_load (vm_mem σ) src virt.
Proof.
  intros OK Hfk Hsrc Hv Hd. destruct (index_ranges virt Hv) as [Hi Hj].
  rewrite <-(forked_load σ σ' D T K ext src new src virt OK Hfk Hv (Hsrc _ Hi) Hd).
  destruct Hfk as (_ & Hchild & _). unfold user_load, walk_at. by rewrite Hchild.
Qed.

(** C1: forking an address space gives a child that reads, at every address,
    exactly what the parent reads, which is what it read before; no other space
    notices, every page keeps its bytes, the reference counts are again those
    of the live tables, and no page that only one space could write stays
    writable in two.  A fork that runs out of memory changes nothing.  Every
    user page table of the parent must still map some user page: one that was
    emptied is shared with the child instead of copied. *)
Theorem paging_clone_user_space_correct σ D T K ext src new σ' :
  vm_ok σ D T K ext → (∀ i, ix i → (src, i) ∈ T) → tables_full (vm_mem σ) src →
  paging_clone_user_space σ src = (new, σ') →
  (∀ pd virt, is_u32 virt → (pd, pd_index virt) ∈ T → no_device (vm_mem σ) pd virt →
     user_load (vm_mem σ') pd virt = user_load (vm_mem σ) pd virt) ∧
  (new = 0 ∧ vm_ok σ' D T K ext ∨
   new ≠ 0 ∧ new ∉ D ∧ vm_ok σ' (new :: D) (pd_dirs new ++ T) K ext ∧
     ∀ virt, is_u32 virt → no_device (vm_mem σ) src virt →
       user_load (vm_mem σ') new virt = user_load (vm_mem σ) src virt).
Proof.
  intros OK Hsrc Hfull E. destruct (clone_ok _ _ σ D T K ext src new σ' OK Hsrc Hfull E) as [[-> Hn]|(H0 & HnD & Hfk)].
  - split; [|left; by destruct Hn]. intros pd virt Hv Ht Hd.
    apply (isolated_load σ σ' D T K ext (pd + 1)); try done; [by apply no_effect_isolated|lia].
  - split; [intros; by eapply forked_load|]. right. split; [done|]. split; [done|]. split; [by destruct Hfk|].
    intros. by eapply forked_child_load.
Qed.

(** The bytes a program writes into an ordinary page of its own are seen at
    that address and nowhere else, in its own space or in any other one. *)
Theorem user_store_isolated σ D T K ext pd virt e b m' :
  vm_ok σ D T K ext → is_u32 virt → (pd, pd_index virt) ∈ T → no_device (vm_mem σ) pd virt →
  walk_at (vm_mem σ) pd virt = Some e → shared e = false → user_store (vm_mem σ) pd virt b = Some m' →
  vm_ok (set_mem m' σ) D T K ext ∧ user_load m' pd virt = Some (u8 b) ∧
  ∀ pd' virt', is_u32 virt' → (pd', pd_index virt') ∈ T → no_device (vm_mem σ) pd' virt' →
    (pd', virt') ≠ (pd, virt) → user_load m' pd' virt' = user_load (vm_mem σ) pd' virt'.
Proof.
  intros OK Hv Ht Hd Hw Hs Est. destruct (index_ranges virt Hv) as [_ Hj].
  destruct (store_effect _ _ _ _ _ _ _ _ _ _ OK Hv Ht Hd Hw Hs Est) as (OK' & Hws & Hb & Hother).
  split; [done|]. split; [|done]. unfold user_store in Est. rewrite Hw in Est.
  destruct (user e) eqn:Hu; [|done]. unfold user_load, walk_at in *. by rewrite Hws, Hw, Hu, Hb.
Qed.

(** C9: destroying an address space releases every reference its tables held:
    afterwards the reference counts are those of the remaining spaces, which
    read what they read before. *)
Theorem paging_destroy_releases σ D T K ext pd :
  vm_ok σ (pd :: D) (pd_dirs pd ++ T) K ext → pd ≠ 0 → (∀ i, (pd, i) ∉ T) →
  let σ' := paging_destroy_user_space σ pd in
  vm_ok σ' D T K ext ∧
  ∀ pd' virt, is_u32 virt → (pd', pd_index virt) ∈ T → no_device (vm_mem σ) pd' virt →
    user_load (vm_mem σ') pd' virt = user_load (vm_mem σ) pd' virt.
Proof.
  intros OK H0 HnT σ'. destruct (destroy_ok _ _ σ D T K ext pd OK H0 HnT) as (OK' & Hw & Hdata & _). fold σ' in OK', Hw, Hdata.
  split; [done|]. intros pd' virt Hv Ht Hd. destruct (index_ranges virt Hv) as [_ Hj].
  assert ((pd', pd_index virt) ∈ pd_dirs pd ++ T) as Ht' by (apply elem_of_app; by right).
  unfold user_load. assert (walk_at (vm_mem σ') pd' virt = walk_at (vm_mem σ) pd' virt) as -> by by apply Hw.
  destruct (walk_at (vm_mem σ) pd' virt) as [e|] eqn:Ee; [|done]. destruct (user e) eqn:Hu; [|done].
  f_equal. by apply (mapped_load _ _ _ _ _ _ _ _ _ OK Hdata Hv Ht' Hd Ee).
Qed.
End props.

(** ** Witnesses *)

Lemma paging_clone_user_space_correct_witness :
  demo_ok demo_fork fork_D fork_T demo_K no_ext ∧
  user_load (vm_mem demo_fork) demo_child (demo_virt + 5) = Some 0.
Proof.
  destruct (paging_clone_user_space_correct pmm_inv pmm_managed demo_page demo_D demo_T demo_K no_ext demo_pd demo_child demo_fork
    demo_page_ok demo_dirs demo_full demo_fork_eq) as (_ & [[H _]|(_ & _ & OK & Hc)]); [discriminate H|].
  split; [exact OK|]. rewrite Hc.
  - vm_compute. reflexivity.
  - unfold is_u32, demo_virt. lia.
  - intros e. replace (walk_at (vm_mem demo_page) demo_pd (demo_virt + 5)) with (Some demo_entry) by (vm_compute; reflexivity).
    intros [= <-]. reflexivity.
Defined.

Lemma demo_page_no_device : no_device (vm_mem demo_page) demo_pd demo_virt.
Proof. intros e. rewrite demo_page_walk. intros [= <-]. reflexivity. Qed.

Lemma user_store_isolated_witness :
  match user_store (vm_mem demo_page) demo_pd demo_virt 0x7F with
  | Some m' => user_load m' demo_pd demo_virt = Some 0x7F
  | None => False
  end.
Proof.
  destruct (user_store (vm_mem demo_page) demo_pd demo_virt 0x7F) as [m'|] eqn:E.
  - refine (proj1 (proj2 (user_store_isolated pmm_inv pmm_managed demo_page demo_D demo_T demo_K no_ext demo_pd demo_virt demo_entry
      0x7F m' demo_page_ok _ _ demo_page_no_device demo_page_walk eq_refl E))).
    + unfold is_u32, demo_virt. lia.
    + apply demo_dirs. vm_compute. split; [discriminate|reflexivity].
  - exfalso. unfold user_store in E. rewrite demo_page_walk in E. discriminate E.
Defined.

Lemma fork_dirs_fresh i : (demo_child, i) ∉ demo_T.
Proof. intros [H _]%elem_of_pd_dirs. discriminate H. Qed.

Lemma paging_destroy_releases_witness :
  demo_ok (paging_destroy_user_space demo_fork demo_child) demo_D demo_T demo_K no_ext.
Proof.
  refine (proj1 (paging_destroy_releases pmm_inv pmm_managed demo_fork demo_D demo_T demo_K no_ext demo_child
    demo_fork_ok _ fork_dirs_fresh)).
  discriminate.
Defined.

Definition demo_alloc : vm pmm_core_state := (pmm_alloc_page demo_page).2.
Lemma demo_alloc_eq : pmm_alloc_page demo_page = (0x15000, demo_alloc).
Proof. unfold demo_alloc. apply pair_fst. vm_compute. reflexivity. Qed.

Definition demo_mapped : vm pmm_core_state := (arch_mm_map demo_alloc demo_pd (demo_virt + 0x1000) 0x15000 0x17).2.
Lemma demo_mapped_eq : arch_mm_map demo_alloc demo_pd (demo_virt + 0x1000) 0x15000 0x17 = (0, demo_mapped).
Proof.
  unfold demo_mapped. refine (pair_fst (arch_mm_map demo_alloc demo_pd (demo_virt + 0x1000) 0x15000 0x17) 0 _).
  vm_compute. reflexivity.
Qed.
#[global] Opaque demo_alloc demo_mapped.

Lemma arch_mm_map_query_witness : arch_mm_query demo_mapped demo_pd (demo_virt + 0x1000) = Some (0x15000, 0x17).
Proof.
  destruct (alloc_ok _ _ _ _ _ _ _ _ _ demo_page_ok demo_alloc_eq ltac:(discriminate)) as (OK & Hf & Hz & Hm & _).
  refine (proj1 (proj2 (arch_mm_map_query pmm_inv pmm_managed demo_alloc demo_D demo_T demo_K (add_ref no_ext 0x15000) demo_pd
    (demo_virt + 0x1000) 0x15000 0x17 demo_mapped OK _ _ _ Hf _ _ _ demo_mapped_eq))).
  - unfold is_u32, demo_virt. lia.
  - apply demo_dirs. vm_compute. split; [discriminate|reflexivity].
  - repeat split; vm_compute; try discriminate; reflexivity.
  - vm_compute. discriminate.
  - rewrite Hm. unfold total in Hz. pose proof (owners_nonneg (vm_mem demo_page) demo_D demo_T 0x15000).
    unfold no_ext, ind in Hz. revert Hz. case_decide; lia.
  - vm_compute. reflexivity.
Defined.
