(* ===== verification/FaultProps.v ===== *)
(** * Page faults: properties *)

From S2P Require Import Prelude Interfaces PmmCore Memory Kstring Vma Paging PagingSpec PagingInv PagingSteps PagingOps PagingSpaces PagingClone PagingFork Fault FaultSpec FaultOps PagingDemo PagingProps.

#[local] Opaque for_loop for_exit zero_table copy_table.

Lemma page_of virt : is_u32 virt →
  let page := virt &u not32 0xFFF in
  is_u32 page ∧ page mod 4096 = 0 ∧ page = virt - virt mod 4096 ∧ pd_index page = pd_index virt ∧ pt_index page = pt_index virt.
Proof.
  intros Hv page. destruct (fault_page_spec virt Hv) as [Hu Ep]. fold page in Hu, Ep.
  split; [done|]. split; [rewrite Ep; clear; Z.div_mod_to_equations; lia|]. split; [done|].
  unfold pd_index, pt_index. change 0x3FF with (Z.ones 10). rewrite !Z.land_ones, !Z.shiftr_div_pow2 by lia.
  change (2 ^ 22) with 4194304. change (2 ^ 12) with 4096. change (2 ^ 10) with 1024.
  unfold is_u32 in *. split; [|f_equal]; Z.div_mod_to_equations; lia.
Qed.

Section props.
Context {S : Type} `{PageAllocator S} (inv : S → Prop) (managed : S → Z → Prop).
Context `{!PageAllocatorLaws S inv managed}.
Context {F : Type} `{FileReader F} (file_byte : F → vfs_file_ref → Z → Z) `{!FileReaderLaws F file_byte}.
Implicit Types (σ : vm S) (D : list Z) (T : list (Z * Z)) (K : gset Z) (ext : Z → Z) (m : mem) (fs : F).
Notation vm_ok := (vm_ok inv managed).
Notation isolated := (isolated inv managed).
Notation entry_set := (entry_set inv managed).
Notation no_effect := (no_effect inv managed).

(** Reads elsewhere do not change when one entry is set. *)
Lemma entry_set_load σ σ' D T K ext pd page e pd' virt' :
  vm_ok σ D T K ext → entry_set σ σ' D T K ext ext pd (pd_index page) (pt_index page) e →
  is_u32 virt' → (pd', pd_index virt') ∈ T → no_device (vm_mem σ) pd' virt' →
  (pd', pd_index virt', pt_index virt') ≠ (pd, pd_index page, pt_index page) →
  user_load (vm_mem σ') pd' virt' = user_load (vm_mem σ) pd' virt'.
Proof.
  intros OK Hset Hv Ht Hd Hne. destruct (index_ranges virt' Hv) as [_ Hj]. unfold user_load.
  assert (walk_at (vm_mem σ') pd' virt' = walk_at (vm_mem σ) pd' virt') as ->.
  { unfold walk_at. by rewrite (es_walk _ _ _ _ _ _ _ _ _ _ _ _ _ Hset), decide_False. }
  destruct (walk_at (vm_mem σ) pd' virt') as [e'|] eqn:E; [|done]. destruct (user e') eqn:Hu; [|done]. f_equal.
  by apply (mapped_load inv managed σ σ' D T K ext pd' virt' e' OK (es_data _ _ _ _ _ _ _ _ _ _ _ _ _ Hset)).
Qed.

Lemma no_effect_load σ σ' D T K ext pd virt :
  vm_ok σ D T K ext → no_effect σ σ' D T K ext → is_u32 virt → (pd, pd_index virt) ∈ T →
  no_device (vm_mem σ) pd virt → user_load (vm_mem σ') pd virt = user_load (vm_mem σ) pd virt.
Proof.
  intros OK Hn Hv Ht Hd. apply (isolated_load inv managed σ σ' D T K ext (pd + 1)); try done; [|lia].
  by apply no_effect_isolated.
Qed.

Lemma cow_broken_load σ σ' D T K ext pd page e e' pd' virt :
  vm_ok σ D T K ext → is_u32 page → (pd, pd_index page) ∈ T → walk_at (vm_mem σ) pd page = Some e → user e = true →
  cow_broken inv managed σ σ' D T K ext pd (pd_index page) (pt_index page) e e' →
  is_u32 virt → (pd', pd_index virt) ∈ T → no_device (vm_mem σ) pd' virt →
  user_load (vm_mem σ') pd' virt = user_load (vm_mem σ) pd' virt.
Proof.
  intros OK Hp Ht Hw Hu [Hset [Hpw [_ [Hpe _]]] Hb] Hv Ht' Hd. destruct (index_ranges virt Hv) as [_ Hj].
  destruct (decide ((pd', pd_index virt, pt_index virt) = (pd, pd_index page, pt_index page))) as [[= -> E1 E2]|Hne];
    [|by eapply entry_set_load].
  unfold user_load, walk_at in *. rewrite (es_walk _ _ _ _ _ _ _ _ _ _ _ _ _ Hset) by done.
  rewrite E1, E2, Hw, decide_True, Hpe, Hu by done.
  apply private_writable_holds, holds_present in Hpw as (_ & -> & _). f_equal. apply Hb. apply Z.mod_pos_bound. done.
Qed.

(** C4: breaking copy on write changes what nobody reads.  If it succeeds the
    page is the writer's alone: mapped writable, no longer marked, and held by
    no other table. *)
Theorem fault_break_cow_correct σ D T K ext pd page r σ' :
  vm_ok σ D T K ext → is_u32 page → (pd, pd_index page) ∈ T → fault_break_cow σ pd page = (r, σ') →
  vm_ok σ' D T K ext ∧
  (∀ pd' virt, is_u32 virt → (pd', pd_index virt) ∈ T → no_device (vm_mem σ) pd' virt →
     user_load (vm_mem σ') pd' virt = user_load (vm_mem σ) pd' virt) ∧
  (r = -1 ∨ r = 0 ∧ ∃ e, walk_at (vm_mem σ') pd page = Some e ∧ writable e = true ∧ cow e = false ∧
     owners (vm_mem σ') D T (paging_entry_addr e) = 1).
Proof.
  intros OK Hp Ht E. destruct (index_ranges page Hp) as [_ Hj].
  destruct (break_cow_ok inv managed σ D T K ext pd page r σ' OK Hp Ht E) as [[-> Hn]|[-> (e & e' & Hw & Hc & Hcb)]].
  - split; [by destruct Hn|]. split; [|by left]. intros. by eapply no_effect_load.
  - pose proof (cb_set _ _ _ _ _ _ _ _ _ _ _ _ _ Hcb) as Hset. pose proof (es_ok _ _ _ _ _ _ _ _ _ _ _ _ _ Hset) as OK'.
    destruct (cb_entry _ _ _ _ _ _ _ _ _ _ _ _ _ Hcb) as (Hpw & Hnc & Hpe & He').
    destruct (cow_entry inv managed σ D T K ext _ _ _ _ OK Ht Hj Hw Hc) as (Hh & _).
    apply holds_present in Hh as (_ & Hu & _).
    split; [done|]. split; [intros pd' virt Hv' Ht' Hd'; by apply (cow_broken_load σ σ' D T K ext pd page e e')|]. right. split; [done|]. exists e'.
    assert (walk_at (vm_mem σ') pd page = Some e') as Hw' by by eapply entry_set_at.
    pose proof (private_writable_holds _ Hpw) as Hh'. pose proof (holds_present _ Hh') as (_ & Hu' & _).
    assert (writable e' = true) as Hwr by (unfold private_writable in Hpw; bprop; done).
    split; [done|]. split; [done|]. split; [done|].
    destruct (walk_slot _ _ _ _ _ _ _ _ _ _ _ OK' Ht Hj Hw' Hu') as (pt & Hown & _ & _ & _ & _ & Etw & _ & _).
    rewrite <-Etw in Hpw |- *. by apply (vo_excl _ _ _ _ _ _ _ OK' pd (pd_index page) (pt_index page) pt).
Qed.

(** C2: after a fork, what one of the two processes writes into a page both
    still share is read by that process alone: the other one goes on reading the
    byte from before the fork, whichever of them writes. *)
Theorem fork_write_isolated σ D T K ext src new σ1 pd other page virt b σ2 m3 :
  vm_ok σ D T K ext → (∀ i, ix i → (src, i) ∈ T) → tables_full (vm_mem σ) src →
  paging_clone_user_space σ src = (new, σ1) → new ≠ 0 →
  (pd = src ∧ other = new ∨ pd = new ∧ other = src) →
  is_u32 virt → page = virt &u not32 0xFFF → no_device (vm_mem σ) src virt →
  fault_break_cow σ1 pd page = (0, σ2) → user_store (vm_mem σ2) pd virt b = Some m3 →
  user_load m3 pd virt = Some (u8 b) ∧ user_load m3 other virt = user_load (vm_mem σ) src virt.
Proof.
  intros OK Hsrc Hfull Ecl Hnew Hwho Hv -> Hd Ebr Est. destruct (page_of virt Hv) as (Hpu & Hpa & Hpe & Hpi & Hpj).
  destruct (index_ranges virt Hv) as [Hi Hj].
  destruct (clone_ok inv managed σ D T K ext src new σ1 OK Hsrc Hfull Ecl) as [[-> _]|(_ & HnD & Hfk)]; [done|].
  assert (src ≠ new) as Hne.
  { intros ->. destruct (pd_frame _ _ _ _ _ _ _ _ _ OK (Hsrc _ Hi)) as (_ & ? & _). done. }
  pose proof Hfk as (OK1 & Hchild & Hwalk & _).
  assert (∀ p, p = src ∨ p = new → (p, pd_index virt) ∈ pd_dirs new ++ T) as HT.
  { intros p [->| ->]; apply elem_of_app; [right; auto|left; by apply elem_of_pd_dirs]. }
  assert (user_load (vm_mem σ1) other virt = user_load (vm_mem σ) src virt) as Hother.
  { destruct Hwho as [[_ ->]|[_ ->]]; [by eapply forked_child_load|]. eapply forked_load; try done. by apply Hsrc. }
  assert (∀ p, p = src ∨ p = new → no_device (vm_mem σ1) p virt) as Hd1.
  { intros p Hp e He. assert (walk_at (vm_mem σ1) src virt = Some e) as He'.
    { destruct Hp as [->| ->]; [done|]. unfold walk_at in *. by rewrite <-Hchild. }
    unfold walk_at in He'. rewrite Hwalk, decide_True in He' by auto.
    apply fmap_Some in He' as (e0 & He0 & ->). destruct (downgrade_flags e0) as (_ & _ & -> & _). by apply Hd. }
  assert ((pd = src ∨ pd = new) ∧ (other = src ∨ other = new) ∧ pd ≠ other) as (Hpd & Hot & Hdiff).
  { destruct Hwho as [[-> ->]|[-> ->]]; auto. }
  destruct (break_cow_ok inv managed σ1 _ _ K ext pd _ 0 σ2 OK1 Hpu) as [[? _]|[_ (e & e' & Hw & Hc & Hcb)]];
    [rewrite Hpi; by apply HT|done|done|].
  pose proof (cb_set _ _ _ _ _ _ _ _ _ _ _ _ _ Hcb) as Hset. pose proof (es_ok _ _ _ _ _ _ _ _ _ _ _ _ _ Hset) as OK2.
  destruct (cb_entry _ _ _ _ _ _ _ _ _ _ _ _ _ Hcb) as (Hpw & _ & Hpe' & _).
  assert (walk_at (vm_mem σ2) pd virt = Some e') as Hw2.
  { unfold walk_at. rewrite <-Hpi, <-Hpj. eapply entry_set_at; [exact Hset|rewrite Hpi; by apply HT|by rewrite Hpj|done]. }
  pose proof (holds_present _ (private_writable_holds _ Hpw)) as (_ & Hu' & Hio').
  destruct (store_effect inv managed σ2 _ _ K ext pd virt e' b m3 OK2 Hv) as (_ & Hws & Hb & Hrest); try done.
  { by apply HT. }
  { intros e0 He0. congruence. }
  { unfold private_writable in Hpw. bprop. done. }
  split.
  - unfold user_load. unfold walk_at in *. rewrite Hws by (done || by apply HT). by rewrite Hw2, Hu', Hb.
  - rewrite Hrest; try done; [|by apply HT| |congruence].
    + rewrite <-Hother. eapply isolated_load; [exact OK1|by eapply entry_isolated|auto|done|by apply HT|by apply Hd1].
    + intros e0 He0. apply (Hd1 other Hot e0). unfold walk_at in *. rewrite <-He0. symmetry.
      rewrite (es_walk _ _ _ _ _ _ _ _ _ _ _ _ _ Hset) by (done || by apply HT). rewrite decide_False by congruence. done.
Qed.

(** C3: the fault handler always returns, and whatever the fault was, the
    faulting process is the only one that can tell: the other spaces read what
    they read before and the reference counts stay those of the live tables. *)
Theorem paging_handle_fault_safe σ fs D T K ext pd cr2 err esp cur :
  vm_ok σ D T K ext → fault_pre σ T pd cr2 err cur →
  ∃ r σ' fs' cur', paging_handle_fault σ fs pd cr2 err esp (Some cur) = Some (r, σ', fs', cur') ∧
    (r = 0 ∨ r = -1) ∧ vm_ok σ' D T K ext ∧
    ∀ pd' virt, pd' ≠ pd → is_u32 virt → (pd', pd_index virt) ∈ T → no_device (vm_mem σ) pd' virt →
      user_load (vm_mem σ') pd' virt = user_load (vm_mem σ) pd' virt.
Proof.
  intros OK Hpre.
  destruct (handle_fault_ok inv managed file_byte σ fs D T K ext pd cr2 err esp cur OK Hpre) as (r & σ' & fs' & cur' & E & Hr & Hi).
  exists r, σ', fs', cur'. split; [done|]. split; [done|]. split; [by destruct Hi|].
  intros. by eapply isolated_load.
Qed.

(** A fault on an untouched page of a private anonymous area either fails
    without effect or maps a page of zeros, writable exactly when the area is;
    every other address reads as before. *)
Theorem anonymous_fault_zero_page σ fs D T K ext pd cr2 err esp cur v :
  vm_ok σ D T K ext → fault_pre σ T pd cr2 err cur →
  err &u PF_ERR_PRESENT = 0 → err &u PF_ERR_USER ≠ 0 → vma_find_const cur cr2 = Some v →
  vma_allows_access (Some v) err = true → vma_private_anon v = true → vma_is_private_file_backed v = false →
  kind v = VMA_KIND_HEAP ∨ kind v = VMA_KIND_GENERIC →
  ∃ r σ', paging_handle_fault σ fs pd cr2 err esp (Some cur) = Some (r, σ', fs, Some cur) ∧ vm_ok σ' D T K ext ∧
    (∀ pd' virt, is_u32 virt → (pd', pd_index virt) ∈ T → no_device (vm_mem σ) pd' virt →
       (pd', virt / 4096) ≠ (pd, cr2 / 4096) → user_load (vm_mem σ') pd' virt = user_load (vm_mem σ) pd' virt) ∧
    (r = -1 ∨ r = 0 ∧ ∃ e, walk_at (vm_mem σ') pd cr2 = Some e ∧ writable e = has (flags v) VMA_FLAG_WRITE ∧
       ∀ virt, is_u32 virt → virt / 4096 = cr2 / 4096 → user_load (vm_mem σ') pd virt = Some 0).
Proof.
  intros OK Hpre Hz Hus Hfind Hacc Hpa Hnf Hk. pose proof Hpre as [Hpd Hc Habs _ _]. specialize (Habs Hz).
  destruct (page_of cr2 Hc) as (Hpu & _ & _ & Hpi & Hpj). set (page := cr2 &u not32 0xFFF) in *.
  assert (unmapped (vm_mem σ) pd page) as Hn.
  { destruct (index_ranges page Hpu). eapply (unmapped_none inv managed); [exact OK|done|auto|]. intros e He. congruence. }
  destruct (anon_page_ok inv managed σ D T K ext pd cr2 esp cur v OK Hpd Hc Hn Hk) as (r & σ' & E & Hr).
  cbv zeta in Hr. fold page in Hr. exists r, σ'. split.
  { unfold paging_handle_fault. cbn zeta. destruct (Z.eqb_spec (err &u PF_ERR_USER) 0); [done|].
    rewrite Hfind, Hacc, Hz. cbn [negb Z.eqb]. rewrite Hnf. unfold lazy_anon. by rewrite E. }
  assert (∀ virt, is_u32 virt → virt / 4096 = cr2 / 4096 → pd_index virt = pd_index cr2 ∧ pt_index virt = pt_index cr2) as Hsame.
  { intros virt Hv Eq. destruct (page_of virt Hv) as (Hvu & _ & Ev & <- & <-). destruct (page_of cr2 Hc) as (_ & _ & Ec & <- & <-).
    assert (virt &u not32 0xFFF = cr2 &u not32 0xFFF) as ->; [|done]. rewrite Ev, Ec. clear -Eq. Z.div_mod_to_equations; lia. }
  destruct Hr as [[-> Hne]|(-> & _ & e & Hzp & Hwr)].
  - split; [by destruct Hne|]. split; [|by left]. intros. by eapply no_effect_load.
  - pose proof (zp_set _ _ _ _ _ _ _ _ _ _ _ _ Hzp) as Hset. destruct (index_ranges page Hpu) as [Hi Hj].
    split; [by eapply es_ok|]. split.
    + intros pd' virt Hv Ht Hd Hne. eapply entry_set_load; [exact OK|exact Hset|done..|].
      intros [= -> E1 E2]. apply Hne. f_equal. by apply index_page; [done|done|rewrite E1|rewrite E2].
    + right. split; [done|]. exists e.
      pose proof (zp_present _ _ _ _ _ _ _ _ _ _ _ _ Hzp) as [Hpe _].
      pose proof (entry_set_at inv managed _ _ _ _ _ _ _ _ _ _ _ Hset (Hpd _ Hi) Hj Hpe) as Hw. rewrite Hpi, Hpj in Hw.
      split; [done|]. split; [done|]. intros virt Hv Eq. destruct (Hsame virt Hv Eq) as [E1 E2].
      unfold user_load, walk_at. rewrite E1, E2, Hw.
      destruct (flags_holds e (walk_u32 _ _ _ _ _ Hw) (zp_flags _ _ _ _ _ _ _ _ _ _ _ _ Hzp)) as [Hh _].
      apply holds_present in Hh as (_ & -> & _). f_equal. apply (zp_bytes _ _ _ _ _ _ _ _ _ _ _ _ Hzp).
      apply Z.mod_pos_bound. done.
Qed.

(** A fault on an untouched page of a private file mapping either fails
    without effect or maps a page that holds the file's bytes from the right
    offset, as many as the read returned and never past the mapped file size,
    and zeros after them. *)
Theorem file_fault_page σ fs D T K ext pd cr2 err esp cur v :
  vm_ok σ D T K ext → fault_pre σ T pd cr2 err cur →
  err &u PF_ERR_PRESENT = 0 → err &u PF_ERR_USER ≠ 0 → vma_find_const cur cr2 = Some v →
  vma_allows_access (Some v) err = true → vma_is_private_file_backed v = true →
  ∃ r σ' fs', paging_handle_fault σ fs pd cr2 err esp (Some cur) = Some (r, σ', fs', Some cur) ∧ vm_ok σ' D T K ext ∧
    (r = -1 ∧ (∀ pd' virt, is_u32 virt → (pd', pd_index virt) ∈ T → no_device (vm_mem σ) pd' virt →
       user_load (vm_mem σ') pd' virt = user_load (vm_mem σ) pd' virt) ∨
     r = 0 ∧ ∃ n, page_read fs v (cr2 - cr2 mod 4096) n ∧ ∀ virt, is_u32 virt → virt / 4096 = cr2 / 4096 →
       user_load (vm_mem σ') pd virt =
         Some (if (virt mod 4096 <? n) && (file_offset v + (virt - start v) <? file_size v)
               then file_byte fs (file_ref v) (file_offset v + (virt - start v)) else 0)).
Proof.
  intros OK Hpre Hz Hus Hfind Hacc Hf. pose proof Hpre as [Hpd Hc Habs Hvma _]. specialize (Habs Hz). specialize (Hvma v Hfind).
  destruct (page_of cr2 Hc) as (Hpu & Hpa & Hpe & Hpi & Hpj). set (page := cr2 &u not32 0xFFF) in *.
  destruct (index_ranges page Hpu) as [Hi Hj].
  assert (unmapped (vm_mem σ) pd page) as Hn.
  { eapply (unmapped_none inv managed); [exact OK|done|auto|]. intros e He. congruence. }
  destruct (fault_handle_lazy_file_private_fault σ fs pd page v) as [[r σ'] fs'] eqn:E.
  exists r, σ', fs'. split.
  { unfold paging_handle_fault. cbn zeta. destruct (Z.eqb_spec (err &u PF_ERR_USER) 0); [done|].
    rewrite Hfind, Hacc, Hz. cbn [negb Z.eqb]. rewrite Hf. unfold lazy_file. fold page. by rewrite E. }
  destruct (lazy_file_ok inv managed file_byte σ fs D T K ext pd page v r σ' fs' OK Hpu (Hpd _ Hi) Hvma Hn E) as [[-> Hne]|[-> (e & Hfp)]].
  - split; [by destruct Hne|]. left. split; [done|]. intros. by eapply no_effect_load.
  - destruct Hfp as [Hset [Hpr Hfr] Hfl (n & Hn0 & Hb)]. split; [by eapply es_ok|]. right. split; [done|]. exists n.
    split; [by rewrite <-Hpe|]. intros virt Hv Eq.
    assert (page = virt - virt mod 4096) as Ev by (rewrite Hpe; clear -Eq; Z.div_mod_to_equations; lia).
    assert (pd_index virt = pd_index page ∧ pt_index virt = pt_index page) as [E1 E2].
    { destruct (page_of virt Hv) as (_ & _ & Ev' & <- & <-). by rewrite Ev, Ev'. }
    pose proof (entry_set_at inv managed _ _ _ _ _ _ _ _ _ _ _ Hset (Hpd _ Hi) Hj Hpr) as Hw.
    unfold user_load, walk_at. rewrite E1, E2, Hw.
    assert (holds_page e = true) as (_ & -> & _)%holds_present.
    { apply flags_holds; [by eapply walk_u32|]. rewrite Hfl. destruct (has _ _); auto. }
    pose proof (Z.mod_pos_bound virt 4096 ltac:(done)) as Ho. rewrite Hb by done. do 2 f_equal.
    unfold file_page_len. replace (file_offset v + (page - start v) + virt mod 4096) with (file_offset v + (virt - start v)) by lia.
    destruct (virt mod 4096 <? n); cbn [andb]; [|done].
    destruct (Z.ltb_spec (virt mod 4096) (Z.max 0 (Z.min 4096 (file_size v - (file_offset v + (page - start v)))))),
      (Z.ltb_spec (file_offset v + (virt - start v)) (file_size v)); done || lia.
Qed.

(** The stack grows one zeroed page after the other from the old limit down
    to the page that faulted; the limit always is the lowest page mapped, also
    when memory runs out on the way. *)
Theorem stack_fault_grows σ fs D T K ext pd cr2 err esp cur v :
  vm_ok σ D T K ext → fault_pre σ T pd cr2 err cur →
  err &u PF_ERR_PRESENT = 0 → err &u PF_ERR_USER ≠ 0 → vma_find_const cur cr2 = Some v →
  vma_allows_access (Some v) err = true → vma_private_anon v = true → kind v = VMA_KIND_STACK →
  ∃ r σ' cur', paging_handle_fault σ fs pd cr2 err esp (Some cur) = Some (r, σ', fs, Some cur') ∧ vm_ok σ' D T K ext ∧
    (r = 0 → p_stack_low_limit cur' = cr2 - cr2 mod 4096) ∧
    p_stack_low_limit cur' <= p_stack_low_limit cur ∧
    ∀ virt, is_u32 virt → p_stack_low_limit cur' <= virt < p_stack_low_limit cur → user_load (vm_mem σ') pd virt = Some 0.
Proof.
  intros OK Hpre Hz Hus Hfind Hacc Hpa Hk. pose proof Hpre as [Hpd Hc _ _ Hst].
  assert (kind v ≠ VMA_KIND_HEAP ∧ kind v ≠ VMA_KIND_GENERIC) as [Hk1 Hk2] by (by rewrite Hk).
  pose proof (Hst v Hfind Hk1 Hk2 Hpa) as Hun. destruct (page_of cr2 Hc) as (Hpu & _ & Hpe & _ & _).
  destruct (anon_stack_ok inv managed σ D T K ext pd cr2 esp cur v OK Hpd Hc Hun Hk1 Hk2) as (r & σ' & cur' & E & Hr).
  exists r, σ', cur'. split.
  { unfold paging_handle_fault. cbn zeta. destruct (Z.eqb_spec (err &u PF_ERR_USER) 0); [done|].
    rewrite Hfind, Hacc, Hz. cbn [negb Z.eqb].
    assert (vma_is_private_file_backed v = false) as ->.
    { unfold vma_is_private_file_backed. by rewrite Hk. }
    unfold lazy_anon. by rewrite E. }
  destruct Hr as [(-> & Hne & ->)|(top & Htop & Hta & Hr & [Hiso Hpages _ _] & ->)].
  - split; [by destruct Hne|]. split; [done|]. split; [done|]. intros virt _ ?. lia.
  - split; [by destruct Hiso|]. cbn [p_stack_low_limit set_stack_low_limit]. split; [intros ->; destruct Hr as [[_ ->]|]; done|].
    split; [lia|]. intros virt Hv Hrange. destruct (page_of virt Hv) as (Hvu & Hva & Hve & Hvi & Hvj).
    destruct Hun as (_ & Hla & _).
    destruct (Hpages (virt &u not32 0xFFF) Hvu Hva) as (e & Hw & Hh & _ & _ & _ & Hb).
    { rewrite Hve. clear -Hta Hla Hrange. Z.div_mod_to_equations; lia. }
    unfold user_load, walk_at in *. rewrite Hvi, Hvj in Hw. rewrite Hw. apply holds_present in Hh as (_ & -> & _).
    f_equal. apply Hb. apply Z.mod_pos_bound. done.
Qed.

(** Where the kernel maps a page for itself inside a user area, a user
    fault on it is not resolved: the handler tries to put a user page there,
    but mapping over a supervisor entry is refused. *)
Theorem shadow_fault_refused σ fs D T K ext pd cr2 err esp cur v e :
  vm_ok σ D T K ext → fault_pre σ T pd cr2 err cur →
  vma_find_const cur cr2 = Some v → kind v = VMA_KIND_HEAP ∨ kind v = VMA_KIND_GENERIC →
  walk_at (vm_mem σ) pd cr2 = Some e → user e = false →
  (λ x, x.1.1.1) <$> paging_handle_fault σ fs pd cr2 err esp (Some cur) = Some (-1).
Proof.
  intros OK Hpre Hfind Hk Hw Hu. pose proof Hpre as [Hpd Hc Habs _ _].
  destruct (page_of cr2 Hc) as (Hpu & _ & _ & Hpi & Hpj). set (page := cr2 &u not32 0xFFF) in *.
  destruct (index_ranges page Hpu) as [Hi Hj].
  assert (walk_at (vm_mem σ) pd page = Some e) as Hwp by (unfold walk_at in *; by rewrite Hpi, Hpj).
  destruct (lazy_flags v) as [_ (_ & _ & Hfu & _)].
  assert (∀ fs, (fault_handle_lazy_file_private_fault σ fs pd page v).1.1 = -1) as Hfile.
  { intros fs'. unfold fault_handle_lazy_file_private_fault. destruct (_ || _); [done|]. destruct (negb _); [done|].
    eapply (lazy_shadow_fails inv managed); [apply (read_file_frame file_byte)|exact OK|done|auto|exact Hwp|done|done]. }
  assert (∃ σ', fault_handle_lazy_anon_fault σ pd cr2 esp cur v = Some (-1, σ', cur)) as [σa Hanon].
  { unfold fault_handle_lazy_anon_fault. destruct (vma_private_anon v); cbn [negb]; [|by eexists].
    assert ((kind v =? VMA_KIND_HEAP) || (kind v =? VMA_KIND_GENERIC) = true) as -> by (by destruct Hk as [->| ->]).
    fold page. pose proof (lazy_shadow_fails inv managed (λ m _, (0, m, ())) () σ D T K ext pd page (lazy_map_flags v) e
      (λ _ _ _ _, eq_refl) OK Hpu (Hpd _ Hi) Hwp Hu Hfu) as Hx.
    unfold lazy_zero_page. destruct (lazy_page _ _ σ pd page _) as [[r σ'] x]. cbn in Hx |- *. subst r. by eexists. }
  unfold paging_handle_fault. cbn zeta. destruct (_ =? 0); [done|]. rewrite Hfind. destruct (negb _); [done|].
  destruct (Z.eqb_spec (err &u PF_ERR_PRESENT) 0) as [Hz|_]; [by rewrite (Habs Hz) in Hwp|]. fold page.
  assert (cow e = false) as Hce.
  { destruct (cow e) eqn:Hce; [|done].
    destruct (cow_entry inv managed σ D T K ext pd _ _ e OK (Hpd _ Hi) Hj Hwp Hce) as ((_ & ? & _)%holds_present & _). congruence. }
  rewrite (query_eq _ _ _ _ _ _ _ _ _ OK (Hpd _ Hi)). unfold walk_at in Hwp. rewrite Hwp. simpl.
  destruct (entry_mapping_has e) as (-> & _ & _ & -> & _). rewrite Hu, Hce. cbn [negb andb].
  unfold lazy_file, lazy_anon. rewrite Hanon. specialize (Hfile fs).
  destruct (fault_handle_lazy_file_private_fault σ fs pd page v) as [[r σ'] fs']. cbn in Hfile. subst r.
  destruct (vma_is_private_file_backed v); [done|]. destruct (vma_private_anon v); [done|].
  destruct (_ =? 0); [done|]. unfold fault_break_cow.
  rewrite (query_eq _ _ _ _ _ _ _ _ _ OK (Hpd _ Hi)), Hwp. simpl. destruct (entry_mapping_has e) as (-> & _). by rewrite Hce.
Qed.
End props.

(** ** Witnesses *)

(** A file system with one file of seven bytes. *)
Definition demo_file_byte (_ : unit) (_ : vfs_file_ref) (o : Z) : Z := if (0 <=? o) && (o <? 7) then 0x30 + o else 0.
#[export] Instance demo_reader : FileReader unit := {
  vfs_read fs ref off buf count m :=
    let n := Z.max 0 (Z.min count (7 - off)) in
    (n, for_loop 0 (Z.to_nat n) (λ i m, mem_set m (buf + i) (demo_file_byte fs ref (off + i))) m, fs)
}.

Lemma demo_read_region fs ref off buf n m :
  0 <= n →
  mem_region m (for_loop 0 (Z.to_nat n) (λ i m, mem_set m (buf + i) (demo_file_byte fs ref (off + i))) m)
    buf n (λ i, demo_file_byte fs ref (off + i)).
Proof.
  intros Hn.
  pose proof (for_loop_inv (λ k m', mem_region m m' buf k (λ i, demo_file_byte fs ref (off + i)))
    (λ i m, mem_set m (buf + i) (demo_file_byte fs ref (off + i))) 0 (Z.to_nat n) m) as HI.
  rewrite Z2Nat.id in HI by done. apply HI.
  - intros k m' Hk Hr x. rewrite mem_get_set, Hr.
    destruct (Z.eqb_spec x (buf + k)) as [->|];
      repeat match goal with |- context [?a <=? ?b] => destruct (Z.leb_spec a b); try lia end;
      repeat match goal with |- context [?a <? ?b] => destruct (Z.ltb_spec a b); try lia end; cbn [andb]; try done.
    replace (buf + k - buf) with k by lia. apply u8_small. unfold is_u8, demo_file_byte. bcase; simpl; lia.
  - intros x. destruct (Z.leb_spec buf x), (Z.ltb_spec x (buf + 0)); cbn [andb]; done || lia.
Qed.

#[export] Instance demo_reader_laws : FileReaderLaws unit demo_file_byte.
Proof.
  split.
  - intros fs ref off buf count m x Hx. cbn [vfs_read demo_reader fst snd].
    rewrite (region_outside _ _ _ _ _ _ (demo_read_region fs ref off buf _ m (Z.le_max_l _ _))); [done|]. lia.
  - intros fs ref off buf count m n m' fs' x E Hn Hx. cbn [vfs_read demo_reader] in E. injection E as <- <- _.
    rewrite (demo_read_region fs ref off buf _ m (Z.le_max_l _ _)).
    destruct (Z.leb_spec buf (buf + x)); [|lia]. cbn [andb].
    destruct (Z.ltb_spec (buf + x) (buf + Z.max 0 (Z.min count (7 - off)))),
      (Z.ltb_spec x (Z.max 0 (Z.min count (7 - off)))); try lia. f_equal. lia.
Qed.

(** Areas: anonymous memory at [demo_virt], a file, and the stack. *)
Definition demo_file_area : vm_area := mk_vma 0x50000000 0x50002000 0x13 VMA_KIND_GENERIC 0 7 (mk_ref 1 5).
Definition demo_stack_area : vm_area := mk_vma 0xBFFC0000 0xC0000000 0x3B VMA_KIND_STACK 0 0 (mk_ref 0 0).
Definition demo_user : process :=
  mk_proc None [demo_area 0x1B; demo_file_area; demo_stack_area] 3 0 0xC0000000.

Lemma demo_fault_pre cr2 err v :
  is_u32 cr2 → vma_find_const demo_user cr2 = Some v → walk_at (vm_mem demo_space) demo_pd (cr2 &u not32 0xFFF) = None →
  vma_u32 v → (kind v ≠ VMA_KIND_GENERIC → stack_untouched (vm_mem demo_space) demo_pd demo_user (cr2 &u not32 0xFFF)) →
  fault_pre demo_space demo_T demo_pd cr2 err demo_user.
Proof.
  intros Hc Hv Hw Hu Hs. split.
  - exact demo_dirs.
  - exact Hc.
  - intros _. exact Hw.
  - intros v' Hv'. rewrite Hv in Hv'. injection Hv' as <-. exact Hu.
  - intros v' Hv' _ Hk _. rewrite Hv in Hv'. injection Hv' as <-. exact (Hs Hk).
Qed.

Lemma demo_anon_pre : fault_pre demo_space demo_T demo_pd (demo_virt + 0x1005) 6 demo_user.
Proof.
  apply (demo_fault_pre _ _ (demo_area 0x1B)).
  - unfold is_u32, demo_virt. lia.
  - reflexivity.
  - vm_compute. reflexivity.
  - repeat split; vm_compute; discriminate || reflexivity.
  - intros H. destruct (H eq_refl).
Qed.

Lemma paging_handle_fault_safe_witness :
  match paging_handle_fault demo_space () demo_pd (demo_virt + 0x1005) 6 0 (Some demo_user) with
  | Some (r, σ', _, _) => (r = 0 ∨ r = -1) ∧ demo_ok σ' demo_D demo_T demo_K no_ext
  | None => False
  end.
Proof.
  destruct (paging_handle_fault_safe pmm_inv pmm_managed demo_file_byte demo_space () demo_D demo_T demo_K no_ext demo_pd
    (demo_virt + 0x1005) 6 0 demo_user demo_space_ok demo_anon_pre) as (r & σ' & fs' & cur' & -> & Hr & OK & _).
  split; [exact Hr|exact OK].
Defined.

Lemma anonymous_fault_zero_page_witness :
  ∃ r σ', paging_handle_fault demo_space () demo_pd (demo_virt + 0x1005) 6 0 (Some demo_user) = Some (r, σ', (), Some demo_user) ∧
    (r = -1 ∨ user_load (vm_mem σ') demo_pd (demo_virt + 0x1007) = Some 0).
Proof.
  destruct (anonymous_fault_zero_page pmm_inv pmm_managed demo_space () demo_D demo_T demo_K no_ext demo_pd
    (demo_virt + 0x1005) 6 0 demo_user (demo_area 0x1B) demo_space_ok demo_anon_pre) as (r & σ' & E & _ & _ & Hr);
    [reflexivity|discriminate|reflexivity|reflexivity|reflexivity|reflexivity|by right|].
  exists r, σ'. split; [exact E|]. destruct Hr as [?|(_ & e & _ & _ & Hl)]; [by left|]. right. apply Hl; [|reflexivity].
  unfold is_u32, demo_virt. lia.
Defined.

Lemma demo_file_pre : fault_pre demo_space demo_T demo_pd 0x50000003 4 demo_user.
Proof.
  apply (demo_fault_pre _ _ demo_file_area).
  - unfold is_u32. lia.
  - reflexivity.
  - vm_compute. reflexivity.
  - repeat split; vm_compute; discriminate || reflexivity.
  - intros H. destruct (H eq_refl).
Qed.

Lemma file_fault_page_witness :
  ∃ r σ', paging_handle_fault demo_space () demo_pd 0x50000003 4 0 (Some demo_user) = Some (r, σ', (), Some demo_user) ∧
    (r = -1 ∨ user_load (vm_mem σ') demo_pd 0x50000003 = Some 0x33 ∧ user_load (vm_mem σ') demo_pd 0x50000007 = Some 0).
Proof.
  destruct (file_fault_page pmm_inv pmm_managed demo_file_byte demo_space () demo_D demo_T demo_K no_ext demo_pd
    0x50000003 4 0 demo_user demo_file_area demo_space_ok demo_file_pre) as (r & σ' & [] & E & _ & Hr);
    [reflexivity|discriminate|reflexivity|reflexivity|reflexivity|].
  exists r, σ'. split; [exact E|]. destruct Hr as [[? _]|(_ & n & [_ Hn] & Hl)]; [left; assumption|right].
  destruct Hn as (buf & m & <-); [reflexivity|]. split; (rewrite Hl; [reflexivity|unfold is_u32; lia|reflexivity]).
Defined.

Lemma demo_stack_pre : fault_pre demo_space demo_T demo_pd 0xBFFFE010 6 demo_user.
Proof.
  apply (demo_fault_pre _ _ demo_stack_area).
  - unfold is_u32. lia.
  - reflexivity.
  - vm_compute. reflexivity.
  - repeat split; vm_compute; discriminate || reflexivity.
  - intros _. split; [unfold is_u32; cbn; lia|]. split; [reflexivity|].
    replace (0xBFFFE010 &u not32 0xFFF) with 0xBFFFE000 by reflexivity. cbn [p_stack_low_limit demo_user].
    intros q _ Ha Hq. assert (q = 0xBFFFE000 ∨ q = 0xBFFFF000) as [->| ->] by (Z.div_mod_to_equations; lia);
      vm_compute; reflexivity.
Qed.

Lemma stack_fault_grows_witness :
  ∃ r σ' cur', paging_handle_fault demo_space () demo_pd 0xBFFFE010 6 0xBFFFE018 (Some demo_user) = Some (r, σ', (), Some cur') ∧
    (p_stack_low_limit cur' <= 0xBFFFE020 → user_load (vm_mem σ') demo_pd 0xBFFFE020 = Some 0).
Proof.
  destruct (stack_fault_grows pmm_inv pmm_managed demo_space () demo_D demo_T demo_K no_ext demo_pd 0xBFFFE010 6 0xBFFFE018
    demo_user demo_stack_area demo_space_ok demo_stack_pre) as (r & σ' & cur' & E & _ & _ & _ & Hl);
    [reflexivity|discriminate|reflexivity|reflexivity|reflexivity|reflexivity|].
  exists r, σ', cur'. split; [exact E|]. intros Hle. apply Hl; [unfold is_u32; lia|]. cbn. lia.
Defined.

(** Breaking the page shared after a fork, and writing to it. *)
Definition demo_broken : vm pmm_core_state := (fault_break_cow demo_fork demo_child demo_virt).2.
Lemma demo_broken_eq : fault_break_cow demo_fork demo_child demo_virt = (0, demo_broken).
Proof. unfold demo_broken. refine (pair_fst (fault_break_cow demo_fork demo_child demo_virt) 0 _). vm_compute. reflexivity. Qed.
Lemma demo_broken_walk : walk_at (vm_mem demo_broken) demo_child demo_virt = Some 0x17007.
Proof. vm_compute. reflexivity. Qed.
#[global] Opaque demo_broken.

Lemma fault_break_cow_correct_witness :
  demo_ok demo_broken fork_D fork_T demo_K no_ext ∧
  ∃ e, walk_at (vm_mem demo_broken) demo_child demo_virt = Some e ∧ writable e = true.
Proof.
  destruct (fault_break_cow_correct pmm_inv pmm_managed demo_fork fork_D fork_T demo_K no_ext demo_child demo_virt 0 demo_broken
    demo_fork_ok) as (OK & _ & [Hr|(_ & e & Hw & Hwr & _)]).
  - unfold is_u32, demo_virt. lia.
  - apply elem_of_app. left. apply elem_of_pd_dirs. split; [reflexivity|]. vm_compute. split; [discriminate|reflexivity].
  - exact demo_broken_eq.
  - discriminate Hr.
  - split; [exact OK|]. exists e. split; [exact Hw|exact Hwr].
Defined.

Lemma fork_write_isolated_witness :
  match user_store (vm_mem demo_broken) demo_child demo_virt 0x41 with
  | Some m3 => user_load m3 demo_child demo_virt = Some 0x41 ∧
      user_load m3 demo_pd demo_virt = user_load (vm_mem demo_page) demo_pd demo_virt
  | None => False
  end.
Proof.
  destruct (user_store (vm_mem demo_broken) demo_child demo_virt 0x41) as [m3|] eqn:E.
  - refine (fork_write_isolated pmm_inv pmm_managed demo_page demo_D demo_T demo_K no_ext demo_pd demo_child demo_fork demo_child
      demo_pd demo_virt demo_virt 0x41 demo_broken m3 demo_page_ok demo_dirs demo_full demo_fork_eq _ _ _ _ demo_page_no_device
      demo_broken_eq E).
    + discriminate.
    + right. split; reflexivity.
    + unfold is_u32, demo_virt. lia.
    + reflexivity.
  - unfold user_store in E. rewrite demo_broken_walk in E. discriminate E.
Defined.
