(* ===== verification/UaccessSpec.v ===== *)
(** * User access: one translation

    What translating one user address does: the process's pages stay readable
    and writable with the same bytes, missing pages are added, and kernel memory
    below the direct map is left alone. *)

From S2P Require Import Prelude Interfaces Memory Kstring Vma Paging PagingSpec PagingInv PagingSteps PagingOps PagingSpaces PagingClone PagingFork Fault Uaccess FaultSpec FaultOps PagingDemo PagingProps FaultProps.

#[local] Opaque for_loop for_exit zero_table copy_table.

(** ** Memory below the direct map *)

Definition low_same (m m' : mem) : Prop := ∀ x, x < ARCH_KERNEL_VIRT_BASE → mem_get m' x = mem_get m x.
Definition high_same (m m' : mem) : Prop := ∀ x, ARCH_KERNEL_VIRT_BASE <= x → mem_get m' x = mem_get m x.

#[global] Instance low_same_preorder : PreOrder low_same.
Proof. split; [by intros m x|]. intros m1 m2 m3 H1 H2 x Hx. by rewrite H2, H1. Qed.

Lemma store32_low m a v : ARCH_KERNEL_VIRT_BASE <= a → low_same m (store32 m a v).
Proof. intros Ha x Hx. rewrite mem_get_store32. by destruct (Z.leb_spec a x); [lia|]. Qed.

Lemma region_low m m' a n f : ARCH_KERNEL_VIRT_BASE <= a → mem_region m m' a n f → low_same m m'.
Proof. intros Ha Hr x Hx. apply (region_outside _ _ _ _ _ _ Hr). lia. Qed.

Lemma phys_ptr_high p q : 0 <= p → paging_phys_ptr p = Some q → ARCH_KERNEL_VIRT_BASE <= q.
Proof. unfold paging_phys_ptr. intros Hp E. destruct (_ <=? _); simplify_eq. unfold ARCH_KERNEL_VIRT_BASE. lia. Qed.

Lemma entry_addr_nonneg e : 0 <= paging_entry_addr e.
Proof. unfold paging_entry_addr. apply Z.land_nonneg. right. unfold PG_ENTRY_ADDR_MASK. lia. Qed.

Lemma pt_index_nonneg virt : 0 <= pt_index virt.
Proof. unfold pt_index. apply Z.land_nonneg. right. lia. Qed.

Lemma fill_low m p (v : Z → mem → Z) :
  ARCH_KERNEL_VIRT_BASE <= p → low_same m (for_loop 0 1024 (λ i m, tbl_set m p i (v i m)) m).
Proof.
  intros Hp. apply (for_loop_inv (λ _ m', low_same m m')); [|done].
  intros i m' Hi Hm. etrans; [exact Hm|]. apply store32_low. lia.
Qed.

Lemma zero_low m p : ARCH_KERNEL_VIRT_BASE <= p → low_same m (zero_table m p).
Proof. exact (fill_low m p (λ _ _, 0)). Qed.

Lemma copy_low m p q : ARCH_KERNEL_VIRT_BASE <= p → low_same m (copy_table m p q).
Proof. exact (fill_low m p (λ i m, tbl_get m q i)). Qed.

Lemma tw_high m m' f i : 0 <= f → 0 <= i → high_same m m' → tw m' f i = tw m f i.
Proof.
  intros Hf Hi Hs. unfold tw, tbl_get, load32, kv. unfold high_same in Hs. rewrite !Hs; [done|unfold ARCH_KERNEL_VIRT_BASE in *; lia..].
Qed.

(** A copy writes only from its destination on, whatever the overlap. *)
Lemma copy_bytes_low n m d s : ARCH_KERNEL_VIRT_BASE <= d → low_same m (copy_bytes n m d s).
Proof.
  revert m d s. induction n as [|n IH]; intros m d s Hd; [done|]. simpl. etrans; [|apply IH; lia].
  intros x Hx. rewrite mem_get_set. by destruct (Z.eqb_spec x d); [lia|].
Qed.

Lemma copy_words_low fuel m d s n :
  ARCH_KERNEL_VIRT_BASE <= d →
  let '(m', d', _, _) := copy_words fuel m d s n in ARCH_KERNEL_VIRT_BASE <= d' ∧ low_same m m'.
Proof.
  revert m d s n. induction fuel as [|fuel IH]; intros m d s n Hd; [done|]. cbn [copy_words].
  destruct (4 <=? n); [|done]. specialize (IH (store32 m d (load32 m s)) (d + 4) (s + 4) (n - 4) ltac:(lia)).
  destruct (copy_words _ _ _ _ _) as [[[m' d'] s'] n']. destruct IH as [? IH]. split; [done|].
  etrans; [|exact IH]. by apply store32_low.
Qed.

Lemma memcpy_low m d s n : ARCH_KERNEL_VIRT_BASE <= d → low_same m (k_memcpy m d s n).
Proof.
  intros Hd. unfold k_memcpy. pose proof (copy_words_low (Z.to_nat n) m d s n Hd) as Hw.
  destruct (word_aligned d s); [|by apply copy_bytes_low].
  destruct (copy_words _ _ _ _ _) as [[[m' d'] s'] n']. destruct Hw as [Hd' Hw]. etrans; [exact Hw|]. by apply copy_bytes_low.
Qed.

Section low.
Context {S : Type} `{PageAllocator S} (inv : S → Prop) (managed : S → Z → Prop).
Context `{!PageAllocatorLaws S inv managed}.
Context {F : Type} `{FileReader F} (file_byte : F → vfs_file_ref → Z → Z) `{!FileReaderLaws F file_byte}.
Implicit Types (σ : vm S) (D : list Z) (T : list (Z * Z)) (K : gset Z) (ext : Z → Z) (m : mem) (fs : F).
Notation vm_ok := (vm_ok inv managed).

Definition alloc_nonneg σ : Prop := ∀ a σ', pmm_alloc_page σ = (a, σ') → 0 <= a ∧ vm_mem σ' = vm_mem σ.

Lemma ok_alloc_nonneg σ D T K ext : vm_ok σ D T K ext → alloc_nonneg σ.
Proof.
  intros OK a σ' E. split; [|unfold pmm_alloc_page in E; destruct (pa_alloc _); by simplify_eq].
  destruct (decide (a = 0)) as [->|Ha]; [done|].
  destruct (alloc_ok _ _ _ _ _ _ _ _ _ OK E Ha) as (_ & [[? _] _] & _). lia.
Qed.

Lemma map_table_low σ pd pdi pti fl :
  alloc_nonneg σ → ARCH_KERNEL_VIRT_BASE <= pd → 0 <= pdi →
  match map_table σ pd pdi pti fl with
  | inl σ' => low_same (vm_mem σ) (vm_mem σ')
  | inr (pt, σ') => ARCH_KERNEL_VIRT_BASE <= pt ∧ low_same (vm_mem σ) (vm_mem σ')
  end.
Proof.
  intros Hal Hpd Hi. unfold map_table. destruct (negb (has _ PG_PRESENT)).
  - destruct (pmm_alloc_page σ) as [a σ1] eqn:E. destruct (Hal _ _ E) as [Ha <-]. destruct (a =? 0); [done|].
    destruct (paging_phys_ptr a) as [pt|] eqn:Ep; [|done]. apply phys_ptr_high in Ep; [|done]. split; [done|].
    cbn [vm_mem set_mem]. etrans; [by apply zero_low|]. apply store32_low. lia.
  - destruct (_ && _).
    + destruct (pmm_alloc_page σ) as [a σ1] eqn:E. destruct (Hal _ _ E) as [Ha <-]. destruct (a =? 0); [done|].
      destruct (paging_phys_ptr (paging_entry_addr _)) as [old|]; [|done].
      destruct (paging_phys_ptr a) as [pt|] eqn:Ep; [|done]. apply phys_ptr_high in Ep; [|done].
      destruct (_ && _); [done|]. split; [done|]. cbn [vm_mem set_mem].
      etrans; [by apply copy_low|]. apply store32_low. lia.
    + destruct (paging_phys_ptr (paging_entry_addr _)) as [pt|] eqn:Ep; [|done].
      apply phys_ptr_high in Ep; [|apply entry_addr_nonneg]. destruct (_ && _); [done|]. split; [done|].
      destruct (has fl PG_USER); [|done]. cbn [vm_mem set_mem]. apply store32_low. lia.
Qed.

Lemma arch_map_low σ pd virt phys fl :
  alloc_nonneg σ → 0 <= pd → 0 <= virt → low_same (vm_mem σ) (vm_mem (arch_mm_map σ pd virt phys fl).2).
Proof.
  intros Hal Hpd Hv. unfold arch_mm_map. destruct (_ <? _); [done|]. destruct (_ && _); [done|]. unfold paging_map_page.
  destruct (paging_phys_ptr pd) as [p|] eqn:Ep; [|done]. apply phys_ptr_high in Ep; [|done]. destruct (_ && _); [done|].
  assert (0 <= pd_index virt) as Hi by (apply Z.shiftr_nonneg; done).
  pose proof (map_table_low σ p (pd_index virt) (pt_index virt) (arch_mm_to_paging_flags fl) Hal Ep Hi) as Hm.
  destruct (map_table _ _ _ _ _) as [σ'|[pt σ']]; [done|]. destruct Hm as [Hpt Hm]. cbn [snd vm_mem set_mem].
  etrans; [exact Hm|]. apply store32_low. pose proof (pt_index_nonneg virt). lia.
Qed.

Lemma page_high f p : 0 <= f → arch_page_temp_map f = Some p → ARCH_KERNEL_VIRT_BASE <= p.
Proof. unfold arch_page_temp_map. intros Hf. destruct (_ <? _); [done|]. by apply phys_ptr_high. Qed.

Lemma alloc_nonneg_set σ m : alloc_nonneg σ → alloc_nonneg (set_mem m σ).
Proof.
  intros Hal a σ' E. unfold alloc_nonneg, pmm_alloc_page in *. cbn [vm_pmm vm_mem set_mem] in *.
  destruct (pa_alloc (vm_pmm σ)) as [a' s]. simplify_eq. split; [|done]. by destruct (Hal a (mk_vm s (vm_mem σ)) eq_refl).
Qed.

Lemma update_low σ pd virt cl st : low_same (vm_mem σ) (vm_mem (arch_mm_update σ pd virt cl st).2).
Proof.
  unfold arch_mm_update, paging_update_page, paging_walk, paging_lookup_slot.
  destruct (paging_phys_ptr pd) as [p|]; [|done]. destruct (negb _); [done|].
  destruct (paging_phys_ptr (paging_entry_addr _)) as [pt|] eqn:Ep; [|done]. apply phys_ptr_high in Ep; [|apply entry_addr_nonneg].
  destruct (has _ _); [|done]. destruct (has _ _); [done|]. cbn [snd vm_mem set_mem]. apply store32_low.
  pose proof (pt_index_nonneg virt). lia.
Qed.
Lemma lazy_page_low {A} (fill : mem → Z → Z * mem * A) none σ D T K ext pd virt mfl :
  (∀ m p y, y < p ∨ p + 4096 <= y → mem_get (fill m p).1.2 y = mem_get m y) →
  vm_ok σ D T K ext → 0 <= pd → 0 <= virt →
  low_same (vm_mem σ) (vm_mem (lazy_page fill none σ pd virt mfl).1.2).
Proof.
  intros Hfill OK Hpd Hv. unfold lazy_page. destruct (pmm_alloc_page σ) as [a σ1] eqn:E.
  destruct (ok_alloc_nonneg _ _ _ _ _ OK _ _ E) as [Ha Em]. rewrite <-Em. destruct (Z.eqb_spec a 0) as [|Hne]; [done|].
  destruct (alloc_ok _ _ _ _ _ _ _ _ _ OK E Hne) as (OK1 & _).
  destruct (arch_page_temp_map a) as [p|] eqn:Ep; [|done]. apply page_high in Ep; [|done].
  assert (low_same (vm_mem σ1) (fill (k_memset (vm_mem σ1) p 0 PAGE_SIZE) p).1.2) as Hlow.
  { intros x Hx. rewrite Hfill by lia. pose proof (k_memset_region (vm_mem σ1) p 0 PAGE_SIZE ltac:(done)) as Hr.
    by apply (region_low _ _ _ _ _ Ep Hr). }
  destruct (fill _ p) as [[rc m] x]. cbn [fst snd] in Hlow. destruct (negb _); [done|].
  pose proof (arch_map_low (set_mem m σ1) pd virt a mfl (alloc_nonneg_set _ _ (ok_alloc_nonneg _ _ _ _ _ OK1)) Hpd Hv) as Hmap.
  destruct (arch_mm_map _ _ _ _ _) as [rc' σ2]. cbn [snd vm_mem set_mem] in Hmap.
  destruct (negb _); cbn; by etrans.
Qed.

Lemma break_cow_low σ D T K ext pd virt :
  vm_ok σ D T K ext → 0 <= pd → 0 <= virt → low_same (vm_mem σ) (vm_mem (fault_break_cow σ pd virt).2).
Proof.
  intros OK Hpd Hv. unfold fault_break_cow. destruct (arch_mm_query σ pd virt) as [[old fl]|]; [|done].
  destruct (_ =? 0); [done|]. destruct (_ <=? 1); [apply update_low|].
  destruct (pmm_alloc_page σ) as [a σ1] eqn:E. destruct (ok_alloc_nonneg _ _ _ _ _ OK _ _ E) as [Ha Em]. rewrite <-Em.
  destruct (Z.eqb_spec a 0) as [|Hne]; [done|]. destruct (alloc_ok _ _ _ _ _ _ _ _ _ OK E Hne) as (OK1 & _).
  destruct (arch_page_temp_map a) as [p|] eqn:Ep; [|done]. apply page_high in Ep; [|done].
  destruct (arch_page_temp_map old) as [q|]; [|done].
  set (m1 := k_memcpy _ _ _ _). set (fl' := _ &u not32 ARCH_MM_MAP_COW).
  assert (low_same (vm_mem σ1) m1) as Hlow.
  { by apply memcpy_low. }
  pose proof (arch_map_low (set_mem m1 σ1) pd virt a fl' (alloc_nonneg_set _ _ (ok_alloc_nonneg _ _ _ _ _ OK1)) Hpd Hv) as Hmap.
  destruct (arch_mm_map _ _ _ _ _) as [rc' σ2]. cbn [snd vm_mem set_mem] in Hmap. destruct (negb _); cbn; by etrans.
Qed.

(** ** A step of one process *)

(** What the process could access it still can, and it reads the same bytes. *)
Definition page_kept m m' pd virt e : Prop :=
  ∃ e', walk_at m' pd virt = Some e' ∧ user e' = true ∧ (writable e = true → writable e' = true) ∧
    io e' = io e ∧ shared e' = shared e ∧
    if io e then e' = e
    else mem_get m' (kv (paging_entry_addr e') + virt mod 4096) = mem_get m (kv (paging_entry_addr e) + virt mod 4096).

(** No device page and no page shared on purpose is mapped there. *)
Definition plain m pd virt : Prop := ∀ e, walk_at m pd virt = Some e → user e = true → io e = false ∧ shared e = false.

Record user_step σ σ' D T K ext pd : Prop := {
  us_iso : isolated inv managed σ σ' D T K ext pd;
  us_keep : ∀ virt e, is_u32 virt → walk_at (vm_mem σ) pd virt = Some e → user e = true →
    page_kept (vm_mem σ) (vm_mem σ') pd virt e;
  us_plain : ∀ virt, is_u32 virt → plain (vm_mem σ) pd virt → plain (vm_mem σ') pd virt;
  us_low : low_same (vm_mem σ) (vm_mem σ');
}.

Lemma page_kept_refl m pd virt e : walk_at m pd virt = Some e → user e = true → page_kept m m pd virt e.
Proof. intros Hw Hu. exists e. repeat split; try done. by destruct (io e). Qed.

Lemma user_step_refl σ D T K ext pd : vm_ok σ D T K ext → user_step σ σ D T K ext pd.
Proof. intros OK. split; [by apply isolated_refl|by intros; apply page_kept_refl|done|done]. Qed.

Lemma user_step_trans σ1 σ2 σ3 D T K ext pd :
  user_step σ1 σ2 D T K ext pd → user_step σ2 σ3 D T K ext pd → user_step σ1 σ3 D T K ext pd.
Proof.
  intros [I1 K1 P1 L1] [I2 K2 P2 L2]. split; [by eapply isolated_trans| |auto|by etrans].
  intros virt e Hv Hw Hu. destruct (K1 virt e Hv Hw Hu) as (e2 & Hw2 & Hu2 & Hwr2 & Hio2 & Hs2 & Hb2).
  destruct (K2 virt e2 Hv Hw2 Hu2) as (e3 & Hw3 & Hu3 & Hwr3 & Hio3 & Hs3 & Hb3). exists e3.
  split; [done|]. split; [done|]. split; [auto|]. split; [congruence|]. split; [congruence|].
  rewrite Hio2 in Hb3. destruct (io e); congruence.
Qed.

(** An entry that stays as it was, over bytes that stay. *)
Lemma kept_same σ σ' D T K ext pd virt e :
  vm_ok σ D T K ext → data_same (vm_mem σ) (vm_mem σ') D T K ext → is_u32 virt → (pd, pd_index virt) ∈ T →
  walk_at (vm_mem σ) pd virt = Some e → user e = true → walk_at (vm_mem σ') pd virt = Some e →
  page_kept (vm_mem σ) (vm_mem σ') pd virt e.
Proof.
  intros OK Hd Hv Ht Hw Hu Hw'. exists e. repeat split; try done. destruct (io e) eqn:Hio; [done|].
  eapply mapped_load; try done. intros e2 He2. congruence.
Qed.

Lemma no_effect_step σ σ' D T K ext pd :
  vm_ok σ D T K ext → (∀ i, ix i → (pd, i) ∈ T) → no_effect inv managed σ σ' D T K ext →
  low_same (vm_mem σ) (vm_mem σ') → user_step σ σ' D T K ext pd.
Proof.
  intros OK Hpd Hne Hlow. pose proof Hne as (_ & Hws & Hd & _).
  assert (∀ virt, is_u32 virt → walk_at (vm_mem σ') pd virt = walk_at (vm_mem σ) pd virt) as Hw'.
  { intros virt Hv. destruct (index_ranges virt Hv) as [Hi Hj]. apply Hws; auto. }
  split; [by apply no_effect_isolated| | |done].
  - intros virt e Hv Hw Hu. destruct (index_ranges virt Hv) as [Hi _].
    eapply kept_same; try done; [by apply Hpd|]. by rewrite Hw'.
  - intros virt Hv Hp e He. rewrite Hw' in He by done. by apply Hp.
Qed.

Section set.
Context σ σ' D T K ext (pd page e : Z) (OK : vm_ok σ D T K ext) (Hpd : ∀ i, ix i → (pd, i) ∈ T) (Hp : is_u32 page).
Context (Hset : entry_set inv managed σ σ' D T K ext ext pd (pd_index page) (pt_index page) e).

(** Setting one entry keeps all other pages. *)
Lemma set_other virt : is_u32 virt → (pd_index virt, pt_index virt) ≠ (pd_index page, pt_index page) →
  walk_at (vm_mem σ') pd virt = walk_at (vm_mem σ) pd virt.
Proof.
  intros Hv Hne. destruct (index_ranges virt Hv) as [Hi Hj]. unfold walk_at.
  rewrite (es_walk _ _ _ _ _ _ _ _ _ _ _ _ _ Hset), decide_False; auto. congruence.
Qed.

Lemma set_other_kept virt e0 : is_u32 virt → (pd_index virt, pt_index virt) ≠ (pd_index page, pt_index page) →
  walk_at (vm_mem σ) pd virt = Some e0 → user e0 = true → page_kept (vm_mem σ) (vm_mem σ') pd virt e0.
Proof.
  intros Hv Hne Hw Hu. destruct (index_ranges virt Hv) as [Hi Hj].
  eapply kept_same; try done; [by eapply es_data|by apply Hpd|]. by rewrite set_other.
Qed.

Lemma set_plain virt : is_u32 virt → io e = false → shared e = false →
  plain (vm_mem σ) pd virt → plain (vm_mem σ') pd virt.
Proof.
  intros Hv Hio Hsh Hpl e0 He. destruct (index_ranges virt Hv) as [Hi Hj].
  destruct (decide ((pd_index virt, pt_index virt) = (pd_index page, pt_index page))) as [[= E1 E2]|Hne].
  - unfold walk_at in He. rewrite (es_walk _ _ _ _ _ _ _ _ _ _ _ _ _ Hset), E1, E2, decide_True in He; auto.
    destruct (present e); by simplify_eq.
  - rewrite set_other in He by done. by apply Hpl.
Qed.

Lemma entry_added_step :
  (∀ e, walk_at (vm_mem σ) pd page = Some e → user e = false) → present e = true →
  paging_entry_flags e = 5 ∨ paging_entry_flags e = 7 →
  low_same (vm_mem σ) (vm_mem σ') → user_step σ σ' D T K ext pd.
Proof.
  intros Hun Hpr Hfl Hlow. destruct (index_ranges page Hp) as [Hi Hj].
  assert (io e = false ∧ shared e = false) as [Hio Hsh].
  { pose proof (entry_set_at inv managed _ _ _ _ _ _ _ _ _ _ _ Hset (Hpd _ Hi) Hj Hpr) as Hw.
    destruct (flags_holds e (walk_u32 _ _ _ _ _ Hw) Hfl) as [Hh ?]. by apply holds_present in Hh as (_ & _ & ?). }
  split; [by eapply entry_isolated| |by intros; apply set_plain|done].
  intros virt e0 Hv Hw Hu. apply set_other_kept; try done. intros [= E1 E2].
  unfold walk_at in *. rewrite E1, E2 in Hw. by rewrite (Hun _ Hw) in Hu.
Qed.
End set.

Lemma cow_step σ σ' D T K ext pd page e e' :
  vm_ok σ D T K ext → (∀ i, ix i → (pd, i) ∈ T) → is_u32 page →
  walk_at (vm_mem σ) pd page = Some e → cow e = true →
  cow_broken inv managed σ σ' D T K ext pd (pd_index page) (pt_index page) e e' →
  low_same (vm_mem σ) (vm_mem σ') → user_step σ σ' D T K ext pd.
Proof.
  intros OK Hpd Hp Hw Hcow [Hset (Hpw & _ & Hpr & _) Hb] Hlow. destruct (index_ranges page Hp) as [Hip Hjp].
  destruct (cow_entry inv managed σ D T K ext pd _ _ e OK (Hpd _ Hip) Hjp Hw Hcow) as (Hh & Hs & _).
  apply andb_true_iff in Hpw as [[Hh' Hwr]%andb_true_iff Hs'%negb_true_iff].
  apply holds_present in Hh as (_ & _ & Hio), Hh' as (_ & Hu' & Hio').
  split; [by eapply entry_isolated| |by intros; eapply set_plain|done].
  intros virt e0 Hv Hw0 Hu. destruct (index_ranges virt Hv) as [Hi Hj].
  destruct (decide ((pd_index virt, pt_index virt) = (pd_index page, pt_index page))) as [[= E1 E2]|Hne];
    [|by eapply set_other_kept].
  assert (e0 = e) as -> by (unfold walk_at in *; rewrite E1, E2 in Hw0; congruence).
  exists e'. unfold walk_at in *. rewrite (es_walk _ _ _ _ _ _ _ _ _ _ _ _ _ Hset), E1, E2, decide_True, Hpr; auto.
  rewrite Hio. repeat split; try done; [congruence|]. apply Hb. apply Z.mod_pos_bound. done.
Qed.

(** ** The repairs and the translation *)

Section translate.
Context D T K ext pd (Hpd : ∀ i, ix i → (pd, i) ∈ T).

Lemma dir_nonneg σ : vm_ok σ D T K ext → 0 <= pd.
Proof. intros OK. destruct (pd_frame _ _ _ _ _ _ _ _ _ OK (Hpd 0 ltac:(done))) as ([? _] & _). lia. Qed.

Lemma map_lazy_anon_step σ page v r σ' :
  vm_ok σ D T K ext → is_u32 page → (∀ e, walk_at (vm_mem σ) pd page = Some e → user e = false) →
  uaccess_map_lazy_anon σ pd page v = (r, σ') → user_step σ σ' D T K ext pd.
Proof.
  intros OK Hp Hun E. pose proof (dir_nonneg _ OK) as Hd. destruct (index_ranges page Hp) as [Hi _].
  unfold uaccess_map_lazy_anon in E. destruct (negb _); [simplify_eq; by apply user_step_refl|].
  destruct (_ && _); [simplify_eq; by apply user_step_refl|].
  assert (low_same (vm_mem σ) (vm_mem σ')) as Hlow.
  { pose proof (lazy_page_low (λ m _, (0, m, ())) () σ D T K ext pd page (lazy_map_flags v) (λ _ _ _ _, eq_refl) OK Hd
      (proj1 Hp)) as Hl. unfold lazy_zero_page in E. destruct (lazy_page _ _ _ _ _ _) as [[? ?] ?]. by simplify_eq/=. }
  pose proof (unmapped_none inv managed σ D T K ext pd page OK Hp (Hpd _ Hi) Hun) as Hn.
  destruct (lazy_zero_ok inv managed σ D T K ext pd page v r σ' OK Hp (Hpd _ Hi) Hn E) as [[_ Hne]|[_ (e & Hz & _)]].
  - by apply no_effect_step.
  - destruct Hz as [Hset [Hpr _] Hfl _]. by eapply entry_added_step.
Qed.

Lemma map_lazy_file_step σ fs page v r σ' fs' :
  vm_ok σ D T K ext → is_u32 page → vma_u32 v → (∀ e, walk_at (vm_mem σ) pd page = Some e → user e = false) →
  fault_handle_lazy_file_private_fault σ fs pd page v = (r, σ', fs') → user_step σ σ' D T K ext pd.
Proof.
  intros OK Hp Hvma Hun E. pose proof (dir_nonneg _ OK) as Hd. destruct (index_ranges page Hp) as [Hi _].
  assert (low_same (vm_mem σ) (vm_mem σ')) as Hlow.
  { unfold fault_handle_lazy_file_private_fault in E. destruct (_ || _); [by simplify_eq|]. destruct (negb _); [by simplify_eq|].
    pose proof (lazy_page_low (read_file_page v fs page) fs σ D T K ext pd page (lazy_map_flags v)
      (read_file_frame file_byte v fs page) OK Hd (proj1 Hp)) as Hl. by rewrite E in Hl. }
  pose proof (unmapped_none inv managed σ D T K ext pd page OK Hp (Hpd _ Hi) Hun) as Hn.
  destruct (lazy_file_ok inv managed file_byte σ fs D T K ext pd page v r σ' fs' OK Hp (Hpd _ Hi) Hvma Hn E)
    as [[_ Hne]|[_ (e & Hfp)]].
  - by apply no_effect_step.
  - destruct Hfp as [Hset [Hpr _] Hfl _]. eapply entry_added_step; try done. rewrite Hfl. destruct (has _ _); auto.
Qed.

Lemma map_and_query_step σ fs page v q σ' fs' :
  vm_ok σ D T K ext → is_u32 page → vma_u32 v → (∀ e, walk_at (vm_mem σ) pd page = Some e → user e = false) →
  map_and_query σ fs pd page v = (q, σ', fs') →
  user_step σ σ' D T K ext pd ∧ (q = None ∨ q = arch_mm_query σ' pd page).
Proof.
  intros OK Hp Hvma Hun E. unfold map_and_query in E.
  destruct (uaccess_map_lazy σ fs pd page v) as [[r σ1] fs1] eqn:Em.
  assert (user_step σ σ1 D T K ext pd) as Hs.
  { unfold uaccess_map_lazy in Em. destruct (_ =? 0); [by eapply map_lazy_file_step|].
    destruct (uaccess_map_lazy_anon σ pd page v) as [r1 σ2] eqn:Ea. simplify_eq. by eapply map_lazy_anon_step. }
  destruct (negb _); simplify_eq; auto.
Qed.

Lemma break_cow_step σ page r σ' :
  vm_ok σ D T K ext → is_u32 page → uaccess_break_cow σ pd page = (r, σ') → user_step σ σ' D T K ext pd.
Proof.
  intros OK Hp E. unfold uaccess_break_cow in E. destruct (index_ranges page Hp) as [Hi _].
  pose proof (break_cow_low σ D T K ext pd page OK (dir_nonneg _ OK) (proj1 Hp)) as Hlow. rewrite E in Hlow.
  destruct (break_cow_ok inv managed σ D T K ext pd page r σ' OK Hp (Hpd _ Hi) E) as [[_ Hne]|[_ (e & e' & Hw & Hc & Hb)]].
  - by apply no_effect_step.
  - by eapply cow_step.
Qed.

(** The address as the hardware would translate it. *)
Definition user_at m w virt e : Prop :=
  walk_at m pd virt = Some e ∧ user e = true ∧ (w = true → writable e = true) ∧ paging_entry_addr e < 2 ^ 30.

Lemma find_page_step σ fs page v q σ' fs' :
  vm_ok σ D T K ext → is_u32 page → vma_u32 v → find_page σ fs pd page v = (q, σ', fs') →
  user_step σ σ' D T K ext pd ∧ (q = None ∨ q = arch_mm_query σ' pd page).
Proof.
  intros OK Hp Hvma E. unfold find_page in E. destruct (arch_mm_query σ pd page) as [m|] eqn:Eq.
  - simplify_eq. split; [by apply user_step_refl|auto].
  - eapply map_and_query_step; try done. destruct (index_ranges page Hp) as [Hi _].
    rewrite (query_eq _ _ _ _ _ _ _ _ _ OK (Hpd _ Hi)) in Eq. intros e He. unfold walk_at in He. by rewrite He in Eq.
Qed.

Lemma user_page_step σ fs page v q σ' fs' :
  vm_ok σ D T K ext → is_u32 page → vma_u32 v → user_page σ fs pd page v (arch_mm_query σ pd page) = (q, σ', fs') →
  user_step σ σ' D T K ext pd ∧ (q = None ∨ q = arch_mm_query σ' pd page).
Proof.
  intros OK Hp Hvma E. unfold user_page in E. destruct (index_ranges page Hp) as [Hi _].
  destruct (arch_mm_query σ pd page) as [[ph fl]|] eqn:Eq; [|simplify_eq; split; [by apply user_step_refl|by left]].
  destruct (_ && _) eqn:Ec; [|simplify_eq; split; [by apply user_step_refl|by right]].
  eapply map_and_query_step; try done. intros e He.
  rewrite (query_eq _ _ _ _ _ _ _ _ _ OK (Hpd _ Hi)) in Eq. unfold walk_at in He. rewrite He in Eq. simplify_eq/=.
  destruct (entry_mapping_has e) as (_ & Hu & _). rewrite Hu in Ec. by destruct (user e).
Qed.

Lemma check_access_step σ page w q σ' :
  vm_ok σ D T K ext → is_u32 page → check_access σ pd page w (arch_mm_query σ pd page) = (q, σ') →
  user_step σ σ' D T K ext pd ∧
  ∀ ph fl, q = Some (ph, fl) → ∃ e, walk_at (vm_mem σ') pd page = Some e ∧ user e = true ∧
    (w = true → writable e = true) ∧ ph = paging_entry_addr e.
Proof.
  intros OK Hp E. unfold check_access in E. destruct (index_ranges page Hp) as [Hi _].
  pose proof (query_eq inv managed σ D T K ext pd page OK (Hpd _ Hi)) as Eq. rewrite Eq in E.
  destruct (walk (vm_mem σ) pd _ _) as [e|] eqn:Ew; simpl in E; [|simplify_eq; split; [by apply user_step_refl|done]].
  destruct (entry_mapping_has e) as (Hc & Hu & Hwr & _). rewrite Hc, Hu, Hwr in E.
  destruct (user e) eqn:Eu; cbn [negb] in E; [|simplify_eq; split; [by apply user_step_refl|done]].
  destruct (w && negb (writable e)) eqn:Eww.
  - destruct (cow e) eqn:Ecw; cbn [negb] in E; [|simplify_eq; split; [by apply user_step_refl|done]].
    destruct (uaccess_break_cow σ pd page) as [r σ1] eqn:Eb.
    pose proof (break_cow_step _ _ _ _ OK Hp Eb) as Hs.
    destruct (break_cow_ok inv managed σ D T K ext pd page r σ1 OK Hp (Hpd _ Hi) Eb) as [[-> _]|[-> (e1 & e' & Hw1 & _ & Hb)]];
      cbn in E; simplify_eq; split; try done.
    destruct Hb as [Hset (Hpw & _ & Hpr & _) _]. intros ph fl Hq.
    destruct (us_iso _ _ _ _ _ _ _ Hs) as [OK1 _ _ _].
    rewrite (query_eq inv managed σ' D T K ext pd page OK1 (Hpd _ Hi)) in Hq.
    destruct (index_ranges page Hp) as [_ Hj].
    pose proof (entry_set_at inv managed _ _ _ _ _ _ _ _ _ _ _ Hset (Hpd _ Hi) Hj Hpr) as Hw'. rewrite Hw' in Hq. simplify_eq/=.
    exists e'. apply andb_true_iff in Hpw as [[Hh' Hwr']%andb_true_iff _].
    apply holds_present in Hh' as (_ & Hu' & _). done.
  - simplify_eq. split; [by apply user_step_refl|]. intros ph fl [= <- <-]. exists e. repeat split; try done.
    intros ->. by destruct (writable e).
Qed.

Lemma walk_at_page m virt : is_u32 virt → walk_at m pd (virt &u not32 0xFFF) = walk_at m pd virt.
Proof. intros Hv. destruct (page_of virt Hv) as (_ & _ & _ & E1 & E2). unfold walk_at. by rewrite E1, E2. Qed.

(** The kernel's alias of a user byte. *)
Lemma alias_addr ph kp virt :
  0 <= ph → is_u32 virt → ph mod 4096 = 0 → arch_page_temp_map ph = Some kp →
  ph < 2 ^ 30 ∧ kp +u (virt &u 0xFFF) = kv ph + virt mod 4096.
Proof.
  intros Hph Hv Hal E. unfold arch_page_temp_map, paging_phys_ptr, ARCH_KERNEL_DIRECT_PHYS_MAX in E.
  destruct (_ <? _); [done|]. destruct (Z.leb_spec 0x40000000 ph); [done|]. injection E as <-. split; [lia|].
  change 0xFFF with (Z.ones 12). rewrite Z.land_ones by lia. change (2 ^ 12) with 4096.
  pose proof (Z.mod_pos_bound virt 4096 ltac:(done)). unfold kv, ARCH_KERNEL_VIRT_BASE. rewrite u32_small; [lia|].
  unfold is_u32. Z.div_mod_to_equations; lia.
Qed.

Lemma temp_map_low ph : 0 <= ph < 2 ^ 30 → arch_page_temp_map ph = Some (kv ph).
Proof.
  intros Hp. unfold arch_page_temp_map, paging_phys_ptr, ARCH_KERNEL_DIRECT_PHYS_MAX, UINT32_MAX.
  destruct (Z.ltb_spec 0xFFFFFFFF ph); [lia|]. by destruct (Z.leb_spec 0x40000000 ph); [lia|].
Qed.

Lemma translate_step σ fs p addr w q σ' fs' :
  vm_ok σ D T K ext → is_u32 addr → (∀ v, vma_find_const p addr = Some v → vma_u32 v) →
  uaccess_translate σ fs pd p addr w = (q, σ', fs') →
  user_step σ σ' D T K ext pd ∧
  ∀ kptr, q = Some kptr → addr < USER_STACK_TOP ∧ uaccess_vma_allows p addr w = true ∧
    ∃ e, user_at (vm_mem σ') w addr e ∧ kptr = kv (paging_entry_addr e) + addr mod 4096.
Proof.
  intros OK Ha Hvma E. unfold uaccess_translate in E. destruct (Z.leb_spec USER_STACK_TOP addr); [simplify_eq; split; [by apply user_step_refl|done]|].
  destruct (vma_find_const p addr) as [v|]; [|simplify_eq; split; [by apply user_step_refl|done]]. specialize (Hvma v eq_refl).
  destruct (uaccess_vma_allows p addr w); cbn [negb] in E; [|simplify_eq; split; [by apply user_step_refl|done]].
  destruct (page_of addr Ha) as (Hp & _). cbn zeta in E. set (page := addr &u not32 0xFFF) in *.
  destruct (find_page σ fs pd page v) as [[q1 σ1] fs1] eqn:E1.
  destruct (find_page_step _ _ _ _ _ _ _ OK Hp Hvma E1) as [S1 Hq1]. pose proof (is_ok _ _ _ _ _ _ _ _ _ (us_iso _ _ _ _ _ _ _ S1)) as OK1.
  destruct Hq1 as [->| ->]; [cbn in E; simplify_eq; split; [done|done]|].
  destruct (user_page σ1 fs1 pd page v _) as [[q2 σ2] fs2] eqn:E2.
  destruct (user_page_step _ _ _ _ _ _ _ OK1 Hp Hvma E2) as [S2 Hq2]. pose proof (is_ok _ _ _ _ _ _ _ _ _ (us_iso _ _ _ _ _ _ _ S2)) as OK2.
  pose proof (user_step_trans _ _ _ _ _ _ _ _ S1 S2) as S12.
  destruct Hq2 as [->| ->]; [cbn in E; simplify_eq; split; [done|done]|].
  destruct (check_access σ2 pd page w _) as [q3 σ3] eqn:E3.
  destruct (check_access_step _ _ _ _ _ OK2 Hp E3) as [S3 Hq3]. pose proof (is_ok _ _ _ _ _ _ _ _ _ (us_iso _ _ _ _ _ _ _ S3)) as OK3.
  simplify_eq. split; [by eapply user_step_trans|]. intros kptr Hk. split; [done|]. split; [done|].
  destruct q3 as [[ph fl]|]; [|done]. destruct (Hq3 ph fl eq_refl) as (e & He & Hu & Hw & ->).
  destruct (arch_page_temp_map (paging_entry_addr e)) as [kp|] eqn:Et; [|done]. injection Hk as <-.
  unfold page in He. rewrite walk_at_page in He by done.
  destruct (alias_addr _ _ addr (entry_addr_nonneg e) Ha (entry_addr_aligned e (walk_u32 _ _ _ _ _ He)) Et) as [Hlt ->].
  by exists e.
Qed.

(** An address that is ready needs no repair. *)
Lemma translate_ready σ fs p addr w e :
  vm_ok σ D T K ext → is_u32 addr → addr < USER_STACK_TOP → uaccess_vma_allows p addr w = true →
  user_at (vm_mem σ) w addr e →
  uaccess_translate σ fs pd p addr w = (Some (kv (paging_entry_addr e) + addr mod 4096), σ, fs).
Proof.
  intros OK Ha Ht Hal (He & Hu & Hw & Hlt). unfold uaccess_translate. destruct (Z.leb_spec USER_STACK_TOP addr); [lia|].
  destruct (vma_find_const p addr) as [v|] eqn:Ev; [|unfold uaccess_vma_allows in Hal; by rewrite Ev in Hal]. rewrite Hal. cbn [negb].
  destruct (page_of addr Ha) as (Hp & _). cbn zeta. set (page := addr &u not32 0xFFF) in *. destruct (index_ranges page Hp) as [Hi _].
  assert (arch_mm_query σ pd page = Some (paging_entry_addr e, entry_mapping_flags e)) as Eq.
  { rewrite (query_eq inv managed σ D T K ext pd page OK (Hpd _ Hi)). fold (walk_at (vm_mem σ) pd page).
    unfold page. by rewrite walk_at_page, He. }
  destruct (entry_mapping_has e) as (Hc' & Hu' & Hw' & _).
  unfold find_page. rewrite Eq. unfold user_page. rewrite Hu', Hu. cbn [negb andb]. unfold check_access. rewrite Hu', Hw', Hu. cbn [negb].
  assert (w && negb (writable e) = false) as -> by (destruct w; [by rewrite Hw|done]).
  pose proof (entry_addr_nonneg e). pose proof (temp_map_low (paging_entry_addr e) ltac:(lia)) as Et. rewrite Et.
  by destruct (alias_addr _ _ addr (entry_addr_nonneg e) Ha (entry_addr_aligned e (walk_u32 _ _ _ _ _ He)) Et) as [_ ->].
Qed.
End translate.
End low.
