(* ===== verification/UaccessProps.v ===== *)
(** * User access: copying between the kernel and a process

    The preparing pass makes the copies all or nothing, and a copy moves exactly
    the bytes the process itself would read or write there.  Kernel buffers are
    below the direct map, as the kernel's heap and stacks are. *)

From S2P Require Import Prelude Interfaces PmmCore Memory Kstring Vma Paging PagingSpec PagingInv PagingSteps PagingOps PagingSpaces PagingClone PagingFork Fault Uaccess FaultSpec FaultOps PagingDemo PagingProps FaultProps UaccessSpec.

#[local] Opaque for_loop for_exit zero_table copy_table.

(** ** The loop over pages *)

Definition chunk_len (base len o : Z) : Z := Z.min (4096 - (base + o) mod 4096) (len - o).
Definition chunk_start (base o : Z) : Prop := o = 0 ∨ (base + o) mod 4096 = 0.

Lemma chunk_len_bounds base len o :
  0 <= o < len → 1 <= chunk_len base len o <= len - o ∧ (base + o) mod 4096 + chunk_len base len o <= 4096.
Proof. intros Ho. unfold chunk_len. pose proof (Z.mod_pos_bound (base + o) 4096 ltac:(done)). lia. Qed.

Lemma chunk_next base len o :
  0 <= o < len → o + chunk_len base len o < len → chunk_start base (o + chunk_len base len o).
Proof.
  intros Ho Hlt. right. unfold chunk_len in *. replace (base + (o + Z.min _ _)) with (base + o + (4096 - (base + o) mod 4096)) by lia.
  Z.div_mod_to_equations; lia.
Qed.

(** A chunk is inside one page, and only its first offset starts a chunk. *)
Lemma chunk_same_page base len o x :
  0 <= o < len → o <= x < o + chunk_len base len o →
  (base + x) / 4096 = (base + o) / 4096 ∧ (chunk_start base x → x = 0 ∨ x = o).
Proof.
  intros Ho Hx. destruct (chunk_len_bounds base len o Ho) as [_ Hc]. split; [Z.div_mod_to_equations; lia|].
  intros [?|E]; [by left|right]. Z.div_mod_to_equations; lia.
Qed.

Section loop.
Context {S : Type} {F : Type}.
Implicit Types (σ : vm S) (fs : F).

Lemma chunk_loop_inv base len body (I : Z → vm S → F → Prop) (Bad : vm S → F → Prop) fuel o σ fs :
  0 <= base → base + len < 2 ^ 32 → 0 <= o <= len → len - o < Z.of_nat fuel → (o < len → chunk_start base o) →
  I o σ fs →
  (∀ o σ fs, 0 <= o < len → chunk_start base o → I o σ fs →
     match body (base + o) o (chunk_len base len o) σ fs with
     | (true, σ', fs') => I (o + chunk_len base len o) σ' fs'
     | (false, σ', fs') => Bad σ' fs'
     end) →
  ∃ rc σ' fs', chunk_loop fuel base len o body σ fs = Some (rc, σ', fs') ∧
    (rc = 0 ∧ I len σ' fs' ∨ rc = -1 ∧ Bad σ' fs').
Proof.
  intros Hb Hlen Ho Hf Hst HI Hbody. revert o σ fs Ho Hf Hst HI. induction fuel as [|fuel IH]; intros o σ fs Ho Hf Hst HI; [lia|].
  cbn [chunk_loop]. destruct (Z.ltb_spec o len) as [Hlt|Hge].
  2: { assert (o = len) as -> by lia. exists 0, σ, fs. auto. }
  destruct (chunk_len_bounds base len o ltac:(lia)) as [Hc Hp].
  assert (base +u o = base + o) as -> by (apply u32_small; unfold is_u32; lia).
  assert ((base + o) &u 0xFFF = (base + o) mod 4096) as ->.
  { change 0xFFF with (Z.ones 12). by rewrite Z.land_ones by lia. }
  pose proof (Z.mod_pos_bound (base + o) 4096 ltac:(done)) as Hm.
  assert (PAGE_SIZE -u (base + o) mod 4096 = 4096 - (base + o) mod 4096) as -> by (apply u32_small; unfold is_u32, PAGE_SIZE; lia).
  assert (len -u o = len - o) as -> by (apply u32_small; unfold is_u32; lia). cbn zeta.
  assert ((if len - o <? 4096 - (base + o) mod 4096 then len - o else 4096 - (base + o) mod 4096) = chunk_len base len o) as ->
    by (unfold chunk_len; destruct (Z.ltb_spec (len - o) (4096 - (base + o) mod 4096)); lia).
  specialize (Hbody o σ fs ltac:(lia) (Hst Hlt) HI).
  destruct (body _ _ _ σ fs) as [[[] σ1] fs1]; [|exists (-1), σ1, fs1; auto].
  assert (o +u chunk_len base len o = o + chunk_len base len o) as -> by (apply u32_small; unfold is_u32; lia).
  apply IH; [lia|lia| |done]. intros ?. apply chunk_next; lia.
Qed.

Lemma chunks_inv base len body (I : Z → vm S → F → Prop) (Bad : vm S → F → Prop) σ fs :
  0 <= base → 0 <= len → base + len < 2 ^ 32 → I 0 σ fs →
  (∀ o σ fs, 0 <= o < len → chunk_start base o → I o σ fs →
     match body (base + o) o (chunk_len base len o) σ fs with
     | (true, σ', fs') => I (o + chunk_len base len o) σ' fs'
     | (false, σ', fs') => Bad σ' fs'
     end) →
  ∃ rc σ' fs', chunks base len body σ fs = Some (rc, σ', fs') ∧
    (rc = 0 ∧ I len σ' fs' ∨ rc = -1 ∧ Bad σ' fs').
Proof.
  intros Hb Hl Hlen HI Hbody. unfold chunks. apply chunk_loop_inv; [done|done|lia| |by left|done|done].
  rewrite Z2Nat.id; lia.
Qed.
End loop.

(** The range check admits exactly the ranges below the top of the stack. *)
Lemma range_ok_spec addr len :
  is_u32 addr → is_u32 len → uaccess_range_ok addr len = if (len =? 0) || (addr + len <=? USER_STACK_TOP) then 0 else -1.
Proof.
  unfold is_u32, uaccess_range_ok, USER_STACK_TOP. intros Ha Hl. destruct (Z.eqb_spec len 0) as [|Hne]; [done|]. cbn [orb].
  destruct (Z.leb_spec 0xC0000000 addr), (Z.leb_spec (addr + len) 0xC0000000); try done; try lia.
  - rewrite u32_small by (unfold is_u32; lia). by destruct (Z.ltb_spec (addr + len) addr), (Z.ltb_spec 0xC0000000 (addr + len)); try lia.
  - destruct (decide (addr + len < 2 ^ 32)).
    + rewrite u32_small by (unfold is_u32; lia). destruct (Z.ltb_spec 0xC0000000 (addr + len)); [|lia]. by rewrite orb_true_r.
    + assert (addr +u len = addr + len - 2 ^ 32) as ->.
      { unfold u32. symmetry. apply Z.mod_unique with 1; lia. }
      by destruct (Z.ltb_spec (addr + len - 2 ^ 32) addr); [|lia].
Qed.

Section copies.
Context {S : Type} `{PageAllocator S} (inv : S → Prop) (managed : S → Z → Prop).
Context `{!PageAllocatorLaws S inv managed}.
Context {F : Type} `{FileReader F} (file_byte : F → vfs_file_ref → Z → Z) `{!FileReaderLaws F file_byte}.
Context (D : list Z) (T : list (Z * Z)) (K : gset Z) (ext : Z → Z) (pd : Z) (Hpd : ∀ i, ix i → (pd, i) ∈ T).
Context (p : process) (Hvma : ∀ a v, vma_find_const p a = Some v → vma_u32 v).
Implicit Types (σ : vm S) (m : mem) (fs : F).
Notation vm_ok σ := (vm_ok inv managed σ D T K ext).
Notation user_step σ σ' := (user_step inv managed σ σ' D T K ext pd).

(** ** Preparing a range *)

Definition ready m w a : Prop := ∃ e, user_at pd m w a e.

Lemma ready_step σ σ' w a : user_step σ σ' → is_u32 a → ready (vm_mem σ) w a → ready (vm_mem σ') w a.
Proof.
  intros [[OK' _ _ _] Hk _ _] Ha (e & He & Hu & Hw & Hlt). destruct (index_ranges a Ha) as [Hi _].
  destruct (Hk a e Ha He Hu) as (e' & He' & Hu' & Hw' & Hio & _ & Hb). exists e'.
  split; [done|]. split; [done|]. split; [auto|]. destruct (io e) eqn:E; [by subst e'|].
  assert (no_device (vm_mem σ') pd a) as Hd by (intros e2 He2; congruence).
  destruct (user_maps inv managed _ _ _ _ _ _ _ _ OK' Ha (Hpd _ Hi) He' (user_holds _ _ _ _ Hd He' Hu')) as (_ & [? _] & _). lia.
Qed.

Lemma ready_page m w a b : b / 4096 = a / 4096 → ready m w a → ready m w b.
Proof. intros E (e & He & Hr). exists e. split; [|done]. unfold walk_at in *. by destruct (same_page_index b a E) as [-> ->]. Qed.

(** After preparing, each address of the range is ready and each chunk lies in
    an area that allows the access. *)
Definition prepared m w addr len : Prop :=
  ∀ o, 0 <= o < len → addr + o < USER_STACK_TOP ∧ ready m w (addr + o) ∧
    (chunk_start addr o → uaccess_vma_allows p (addr + o) w = true).

Lemma translate_prepares σ fs w addr len o q σ' fs' :
  vm_ok σ → is_u32 addr → addr + len <= USER_STACK_TOP → 0 <= o < len → prepared (vm_mem σ) w addr o →
  uaccess_translate σ fs pd p (addr + o) w = (q, σ', fs') →
  user_step σ σ' ∧ (∀ kptr, q = Some kptr → prepared (vm_mem σ') w addr (o + chunk_len addr len o)).
Proof.
  intros OK Ha Hend Ho Hprep E. unfold is_u32, USER_STACK_TOP in *. assert (is_u32 (addr + o)) as Hao by (unfold is_u32; lia).
  destruct (translate_step inv managed file_byte D T K ext pd Hpd σ fs p (addr + o) w q σ' fs' OK Hao (Hvma _) E) as [Hs Hq].
  split; [done|]. intros kptr ->. destruct (Hq kptr eq_refl) as (_ & Hal & e & Hat & _).
  destruct (chunk_len_bounds addr len o Ho) as [Hc _]. intros x Hx. split; [unfold USER_STACK_TOP; lia|].
  destruct (decide (x < o)) as [Hlt|Hge].
  - destruct (Hprep x ltac:(lia)) as (_ & Hr & Hst). split; [|done]. eapply ready_step; [done|unfold is_u32; lia|done].
  - destruct (chunk_same_page addr len o x Ho ltac:(lia)) as [Ep Hcs]. split.
    + apply (ready_page _ _ (addr + o)); [done|by exists e].
    + intros Hst. assert (x = o) as -> by (destruct (Hcs Hst); lia). done.
Qed.

Lemma prepare_ok σ fs addr len w :
  vm_ok σ → is_u32 addr → is_u32 len →
  ∃ rc σ' fs', uaccess_prepare σ fs pd p addr len w = Some (rc, σ', fs') ∧ user_step σ σ' ∧
    (rc = -1 ∨ rc = 0 ∧ (len = 0 ∨ addr + len <= USER_STACK_TOP) ∧ prepared (vm_mem σ') w addr len).
Proof.
  intros OK Ha Hl. unfold uaccess_prepare. rewrite range_ok_spec by done.
  destruct (Z.eqb_spec len 0) as [->|Hne]; cbn [orb Z.eqb negb].
  { exists 0, σ, fs. split; [done|]. split; [by apply user_step_refl|]. right. split; [done|]. split; [by left|]. intros o ?. lia. }
  destruct (Z.leb_spec (addr + len) USER_STACK_TOP) as [Hend|]; cbn [Z.eqb negb].
  2: { exists (-1), σ, fs. split; [done|]. split; [by apply user_step_refl|by left]. }
  set (body := λ addr _ _ σ fs, _).
  destruct (chunks_inv addr len body
    (λ o σ' fs', user_step σ σ' ∧ prepared (vm_mem σ') w addr o) (λ σ' _, user_step σ σ') σ fs) as (rc & σ' & fs' & -> & Hr);
    unfold is_u32, USER_STACK_TOP in *; try lia.
  - split; [by apply user_step_refl|]. intros o ?. lia.
  - intros o σ1 fs1 Ho Hst [Hs Hp]. unfold body.
    destruct (uaccess_translate σ1 fs1 pd p (addr + o) w) as [[q σ2] fs2] eqn:Et.
    destruct (translate_prepares _ _ _ _ len _ _ _ _ (is_ok _ _ _ _ _ _ _ _ _ (us_iso _ _ _ _ _ _ _ _ _ Hs)) Ha Hend Ho Hp Et) as [Hs2 Hp2].
    pose proof (user_step_trans _ _ _ _ _ _ _ _ _ _ Hs Hs2) as Hs12. destruct q as [kptr|]; [|done]. eauto.
  - exists rc, σ', fs'. split; [done|]. destruct Hr as [(-> & Hs & Hp)|[-> Hs]]; (split; [done|]); [right|by left].
    split; [done|]. split; [by right|done].
Qed.

Lemma prepare_ready σ fs addr len w :
  vm_ok σ → is_u32 addr → is_u32 len → prepared (vm_mem σ) w addr len →
  uaccess_prepare σ fs pd p addr len w = Some (0, σ, fs).
Proof.
  intros OK Ha Hl Hprep. unfold uaccess_prepare. rewrite range_ok_spec by done.
  assert ((len =? 0) || (addr + len <=? USER_STACK_TOP) = true) as ->.
  { destruct (Z.eqb_spec len 0); [done|]. apply Z.leb_le. destruct (Hprep (len - 1)) as [? _]; unfold is_u32 in *; lia. }
  cbn [Z.eqb negb]. set (body := λ addr _ _ σ fs, _). unfold is_u32 in *.
  destruct (chunks_inv addr len body (λ _ σ' fs', σ' = σ ∧ fs' = fs) (λ _ _, False) σ fs) as (rc & σ' & fs' & -> & Hr).
  - lia.
  - lia.
  - destruct (decide (len = 0)) as [->|]; [lia|]. destruct (Hprep (len - 1)) as [? _]; unfold USER_STACK_TOP in *; lia.
  - done.
  - intros o ? ? Ho Hst [-> ->]. destruct (Hprep o Ho) as (Ht & (e & Hat) & Hal). unfold body.
    assert (is_u32 (addr + o)) as Hao by (unfold is_u32, USER_STACK_TOP in *; lia).
    by rewrite (translate_ready inv managed D T K ext pd Hpd σ fs p (addr + o) w e OK Hao Ht (Hal Hst) Hat).
  - by destruct Hr as [(-> & -> & ->)|[_ []]].
Qed.

(** ** Copying from the process *)

(** Memory below the direct map holds no table and no user page. *)
Lemma high_walk m m' q virt : 0 <= q → is_u32 virt → high_same m m' → walk_at m' q virt = walk_at m q virt.
Proof.
  intros Hp Hv Hs. destruct (index_ranges virt Hv) as [[Hi _] [Hj _]]. unfold walk_at, walk.
  rewrite (tw_high m m') by done. destruct (present _); [|done]. rewrite (tw_high m m'); [done|apply entry_addr_nonneg|done|done].
Qed.

Lemma high_page m m' f : frame f → high_same m m' → page_same m m' f.
Proof. intros [? _] Hs o Ho. apply Hs. unfold kv. lia. Qed.

Lemma high_ok σ m : vm_ok σ → high_same (vm_mem σ) m → vm_ok (set_mem m σ).
Proof.
  intros OK Hs. apply set_mem_ok; [done|]. eapply same_tables; [done|]. intros f Hf.
  destruct (table_frame _ _ _ _ _ _ _ OK f Hf) as [[? _] _]. by apply high_page.
Qed.

Lemma high_ready m m' w a : 0 <= pd → is_u32 a → high_same m m' → ready m w a → ready m' w a.
Proof. intros Hp Ha Hs (e & He & Hr). exists e. split; [|done]. by rewrite (high_walk m m'). Qed.

Lemma high_load m m' q virt : 0 <= q → is_u32 virt → high_same m m' → user_load m' q virt = user_load m q virt.
Proof.
  intros Hp Hv Hs. unfold user_load. rewrite (high_walk m m') by done.
  destruct (walk_at m q virt) as [e|]; [|done]. destruct (user e); [|done]. f_equal. apply Hs.
  pose proof (entry_addr_nonneg e). pose proof (Z.mod_pos_bound virt 4096 ltac:(done)). unfold kv. lia.
Qed.

Lemma region_high m m' d n f : d + n <= ARCH_KERNEL_VIRT_BASE → mem_region m m' d n f → high_same m m'.
Proof. intros Hd Hr x Hx. apply (region_outside _ _ _ _ _ _ Hr). lia. Qed.

(** The byte at a ready address, through the kernel's alias. *)
Lemma alias_load m w virt e : user_at pd m w virt e → user_load m pd virt = Some (mem_get m (kv (paging_entry_addr e) + virt mod 4096)).
Proof. intros (He & Hu & _). unfold user_load. by rewrite He, Hu. Qed.

(** Inside a chunk the alias is contiguous. *)
Lemma alias_chunk m w base len o e i :
  0 <= o < len → 0 <= i < chunk_len base len o → user_at pd m w (base + o) e →
  user_load m pd (base + (o + i)) = Some (mem_get m (kv (paging_entry_addr e) + (base + o) mod 4096 + i)).
Proof.
  intros Ho Hi (He & Hu & Hr). destruct (chunk_same_page base len o (o + i) Ho ltac:(lia)) as [Ep _].
  destruct (chunk_len_bounds base len o Ho) as [_ Hc]. pose proof (Z.mod_pos_bound (base + o) 4096 ltac:(done)).
  unfold user_load, walk_at in *. destruct (same_page_index _ _ Ep) as [-> ->]. rewrite He, Hu. f_equal. f_equal.
  clear -Ep Hc Hi. Z.div_mod_to_equations; lia.
Qed.

(** The state while the range is copied: only the buffer has changed. *)
Definition copied_from σ1 dst src (o : Z) σ2 : Prop :=
  ∃ m, σ2 = set_mem m σ1 ∧
    mem_region (vm_mem σ1) m dst o (λ i, default 0 (user_load (vm_mem σ1) pd (src + i))).

Lemma copy_from_chunk σ1 dst src len o σ2 fs :
  vm_ok σ1 → is_u32 src → src + len <= USER_STACK_TOP → 0 <= dst → dst + len <= ARCH_KERNEL_VIRT_BASE →
  prepared (vm_mem σ1) false src len → 0 <= o < len → chunk_start src o → copied_from σ1 dst src o σ2 →
  ∃ kptr, uaccess_translate σ2 fs pd p (src + o) false = (Some kptr, σ2, fs) ∧
    copied_from σ1 dst src (o + chunk_len src len o) (set_mem (k_memcpy (vm_mem σ2) (dst +u o) kptr (chunk_len src len o)) σ2).
Proof.
  intros OK Hs Hend Hd Hdl Hprep Ho Hst (m & -> & Hr). unfold ARCH_KERNEL_VIRT_BASE in *.
  assert (high_same (vm_mem σ1) m) as Hhigh by (eapply region_high; [|exact Hr]; unfold ARCH_KERNEL_VIRT_BASE; lia).
  destruct (Hprep o Ho) as (Htop & Hrd & Hal). unfold is_u32, USER_STACK_TOP in *. assert (is_u32 (src + o)) as Hao by (unfold is_u32; lia).
  pose proof (dir_nonneg inv managed D T K ext pd Hpd σ1 OK) as Hpn.
  destruct Hrd as (e & Hat). assert (user_at pd m false (src + o) e) as Hat'.
  { destruct Hat as (He & Hat). split; [|done]. by rewrite (high_walk (vm_mem σ1) m). }
  pose proof (translate_ready inv managed D T K ext pd Hpd (set_mem m σ1) fs p (src + o) false e
    (high_ok _ _ OK Hhigh) Hao ltac:(unfold USER_STACK_TOP; lia) (Hal Hst) Hat') as Et.
  eexists. split; [exact Et|]. cbn [vm_mem set_mem vm_pmm]. destruct (chunk_len_bounds src len o Ho) as [Hc Hpg].
  assert (dst +u o = dst + o) as -> by (apply u32_small; unfold is_u32; lia).
  set (kptr := kv (paging_entry_addr e) + (src + o) mod 4096).
  assert (ARCH_KERNEL_VIRT_BASE <= kptr) as Hk.
  { subst kptr. pose proof (entry_addr_nonneg e). pose proof (Z.mod_pos_bound (src + o) 4096 ltac:(done)). unfold kv. lia. }
  eexists. split; [done|].
  assert (mem_region m (k_memcpy m (dst + o) kptr (chunk_len src len o)) (dst + o) (chunk_len src len o)
    (λ i, mem_get m (kptr + i))) as Hcp.
  { apply forward_copy; [lia|]. left. unfold ARCH_KERNEL_VIRT_BASE in Hk. lia. }
  eapply region_app; [exact (proj1 Ho)| |exact Hr|exact Hcp|done|]; [lia|].
  intros i Hi. rewrite (alias_chunk _ _ _ _ _ _ _ Ho Hi Hat). cbn [default from_option id]. symmetry. apply Hhigh. lia.
Qed.

Lemma step_load σ σ' virt b :
  user_step σ σ' → is_u32 virt → no_device (vm_mem σ) pd virt →
  user_load (vm_mem σ) pd virt = Some b → user_load (vm_mem σ') pd virt = Some b.
Proof.
  intros [_ Hk _ _] Hv Hd Hl. unfold user_load in Hl. destruct (walk_at (vm_mem σ) pd virt) as [e|] eqn:E; [|done].
  destruct (user e) eqn:Hu; [|done]. injection Hl as <-. destruct (Hk virt e Hv E Hu) as (e' & He' & Hu' & _ & _ & _ & Hb).
  rewrite (Hd e E) in Hb. unfold user_load. by rewrite He', Hu', Hb.
Qed.

Lemma copied_from_refl σ dst src : copied_from σ dst src 0 σ.
Proof. exists (vm_mem σ). split; [by destruct σ|]. apply region_nil. Qed.

Lemma copy_from_ok σ fs dst src len :
  vm_ok σ → is_u32 src → is_u32 len → 0 <= dst → dst + len <= ARCH_KERNEL_VIRT_BASE →
  ∃ rc σ1 σ' fs', uaccess_copy_from_user σ fs pd p dst src len = Some (rc, σ', fs') ∧ user_step σ σ1 ∧
    (prepared (vm_mem σ) false src len → rc = 0) ∧
    (rc = -1 ∧ σ' = σ1 ∨
     rc = 0 ∧ copied_from σ1 dst src len σ' ∧ ∀ o, 0 <= o < len → is_u32 (src + o) ∧ ready (vm_mem σ1) false (src + o)).
Proof.
  intros OK Hs Hl Hd Hdl. unfold uaccess_copy_from_user.
  pose proof (prepare_ready σ fs src len false OK Hs Hl) as Hready.
  destruct (prepare_ok σ fs src len false OK Hs Hl) as (rc & σ1 & fs1 & Ep & Hst & Hr). rewrite Ep in *.
  destruct Hr as [->|(-> & Hend & Hprep)]; cbn [Z.eqb negb].
  { exists (-1), σ1, σ1, fs1. split; [done|]. split; [done|]. split; [|by left]. intros Hp. by specialize (Hready Hp). }
  pose proof (is_ok _ _ _ _ _ _ _ _ _ (us_iso _ _ _ _ _ _ _ _ _ Hst)) as OK1.
  set (body := λ addr offset chunk σ fs, _).
  destruct (chunks_inv src len body (λ o σ' _, copied_from σ1 dst src o σ') (λ _ _, False) σ1 fs1) as (rc & σ' & fs' & E & Hc).
  - unfold is_u32 in *. lia.
  - unfold is_u32 in *. lia.
  - unfold is_u32, USER_STACK_TOP in *. lia.
  - apply copied_from_refl.
  - intros o σ2 fs2 Ho Hcs Hc. assert (src + len <= USER_STACK_TOP) as Hend' by (destruct Hend; lia).
    destruct (copy_from_chunk σ1 dst src len o σ2 fs2 OK1 Hs Hend' Hd Hdl Hprep Ho Hcs Hc) as (kptr & Et & Hc').
    unfold body. by rewrite Et.
  - exists rc, σ1, σ', fs'. destruct Hc as [[-> Hc]|[_ []]]. split; [exact E|]. split; [done|]. split; [done|]. right.
    split; [done|]. split; [done|]. intros o Ho. destruct (Hprep o Ho) as (Ht & Hrd & _). split; [|done].
    unfold is_u32, USER_STACK_TOP in *. lia.
Qed.

(** Copying from a process always returns, and it succeeds where the process
    may read and nothing is missing.  Either it fails and the kernel
    buffer is untouched, or the buffer holds the bytes the process itself reads
    at these addresses.  In both cases no other kernel memory below the direct
    map changes, no byte of the process changes, and other processes read what
    they read before. *)
Theorem uaccess_copy_from_user_correct σ fs dst src len :
  vm_ok σ → is_u32 src → is_u32 len → 0 <= dst → dst + len <= ARCH_KERNEL_VIRT_BASE →
  ∃ rc σ' fs', uaccess_copy_from_user σ fs pd p dst src len = Some (rc, σ', fs') ∧ vm_ok σ' ∧
    (prepared (vm_mem σ) false src len → rc = 0) ∧
    (rc = -1 ∧ low_same (vm_mem σ) (vm_mem σ') ∨
     rc = 0 ∧ (∀ o, 0 <= o < len → user_load (vm_mem σ') pd (src + o) = Some (mem_get (vm_mem σ') (dst + o))) ∧
       ∀ x, x < ARCH_KERNEL_VIRT_BASE → ¬ dst <= x < dst + len → mem_get (vm_mem σ') x = mem_get (vm_mem σ) x) ∧
    (∀ virt b, is_u32 virt → no_device (vm_mem σ) pd virt →
       user_load (vm_mem σ) pd virt = Some b → user_load (vm_mem σ') pd virt = Some b) ∧
    (∀ pd' virt, pd' ≠ pd → is_u32 virt → (pd', pd_index virt) ∈ T → no_device (vm_mem σ) pd' virt →
       user_load (vm_mem σ') pd' virt = user_load (vm_mem σ) pd' virt).
Proof.
  intros OK Hs Hl Hd Hdl. destruct (copy_from_ok σ fs dst src len OK Hs Hl Hd Hdl) as (rc & σ1 & σ' & fs' & E & Hst & Hready & Hr).
  exists rc, σ', fs'. split; [exact E|]. pose proof Hst as [Hiso _ _ Hlow]. pose proof (is_ok _ _ _ _ _ _ _ _ _ Hiso) as OK1.
  pose proof (dir_nonneg inv managed D T K ext pd Hpd σ OK) as Hpn.
  destruct Hr as [[-> ->]|(-> & (m & -> & Hreg) & Hrd)].
  - split; [done|]. split; [done|]. split; [by left|]. split; [by intros; eapply step_load|]. intros. by eapply isolated_load.
  - pose proof (region_high _ _ _ _ _ Hdl Hreg) as Hhigh. cbn [vm_mem set_mem]. split; [by apply high_ok|]. split; [done|]. split; [|split].
    + right. split; [done|]. split.
      * intros o Ho. destruct (Hrd o Ho) as (Hu & e & Hat). rewrite (high_load (vm_mem σ1) m) by done.
        rewrite Hreg, (alias_load _ _ _ _ Hat). f_equal. replace (dst + o - dst) with o by lia.
        destruct (Z.leb_spec dst (dst + o)), (Z.ltb_spec (dst + o) (dst + len)); try lia. cbn [andb]. by rewrite (alias_load _ _ _ _ Hat).
      * intros x Hx Hout. rewrite (region_outside _ _ _ _ _ _ Hreg) by lia. by apply Hlow.
    + intros virt b Hv Hdev Hb. rewrite (high_load (vm_mem σ1) m) by done. by eapply step_load.
    + intros pd' virt Hne Hv Ht Hdev. rewrite <-(isolated_load inv managed σ σ1 D T K ext pd pd' virt OK Hiso Hne Hv Ht Hdev).
      destruct (pd_frame _ _ _ _ _ _ _ _ _ OK Ht) as ([[? _] _] & _). by apply high_load.
Qed.

(** ** Copying to the process *)

(** The state while the range is copied: the first [o] bytes have reached the
    process and nobody else sees a change. *)
Record copied_to σ1 dst src o (m : mem) : Prop := {
  ct_ok : vm_ok (set_mem m σ1);
  ct_low : low_same (vm_mem σ1) m;
  ct_walks : walks_same (vm_mem σ1) m T;
  ct_load : ∀ pd' virt, is_u32 virt → (pd', pd_index virt) ∈ T → no_device (vm_mem σ1) pd' virt →
    user_load m pd' virt =
      if decide (pd' = pd ∧ dst <= virt < dst + o) then Some (mem_get (vm_mem σ1) (src + (virt - dst)))
      else user_load (vm_mem σ1) pd' virt;
}.

Lemma copied_to_refl σ1 dst src : vm_ok σ1 → copied_to σ1 dst src 0 (vm_mem σ1).
Proof. intros OK. split; [by destruct σ1|done|done|]. intros pd' virt _ _ _. rewrite decide_False; [done|lia]. Qed.

Lemma walks_no_device m m' pd' virt :
  walks_same m m' T → is_u32 virt → (pd', pd_index virt) ∈ T → no_device m pd' virt → no_device m' pd' virt.
Proof. intros Hw Hv Ht Hd e He. destruct (index_ranges virt Hv) as [_ Hj]. apply Hd. unfold walk_at in *. by rewrite Hw in He. Qed.

Lemma copied_to_next σ1 dst src o n e m m' :
  copied_to σ1 dst src o m → is_u32 (dst + o) → (pd, pd_index (dst + o)) ∈ T → user_at pd (vm_mem σ1) true (dst + o) e →
  io e = false ∧ shared e = false → 0 <= o → 0 <= n → (dst + o) mod 4096 + n <= 4096 → src + (o + n) <= ARCH_KERNEL_VIRT_BASE →
  mem_region m m' (kv (paging_entry_addr e) + (dst + o) mod 4096) n (λ i, mem_get m (src + o + i)) →
  copied_to σ1 dst src (o + n) m'.
Proof.
  intros [OK Hlow Hws Hl] Hv Ht (He & Hu & Hwr & _) [Hio Hsh] Ho Hn Hpg Hsrc Hr. destruct (index_ranges _ Hv) as [Hi Hj].
  assert (walk_at m pd (dst + o) = Some e) as Hem by (unfold walk_at in *; by rewrite Hws).
  assert (no_device m pd (dst + o)) as Hd by (intros e2 ?; congruence).
  destruct (store_region inv managed (set_mem m σ1) D T K ext pd (dst + o) e n _ m' OK Hv Ht Hd Hem Hu (Hwr eq_refl) Hsh Hn Hpg Hr)
    as (OK' & Hws' & Hl').
  assert (ARCH_KERNEL_VIRT_BASE <= kv (paging_entry_addr e) + (dst + o) mod 4096) as Hk.
  { pose proof (entry_addr_nonneg e). pose proof (Z.mod_pos_bound (dst + o) 4096 ltac:(done)). unfold kv. lia. }
  split; [exact OK'| | |].
  - etrans; [exact Hlow|]. by eapply region_low.
  - intros pd' i k Ht' Hk'. rewrite Hws' by done. by apply Hws.
  - intros pd' virt Hv' Ht' Hd'. rewrite Hl'; [|done|done|by eapply walks_no_device].
    destruct (decide (pd' = pd ∧ dst + o <= virt < dst + o + n)) as [[-> Hin]|Hout].
    + rewrite decide_True by lia. f_equal. replace (src + o + (virt - (dst + o))) with (src + (virt - dst)) by lia. apply Hlow. lia.
    + cbn [vm_mem set_mem]. rewrite Hl by done. destruct (decide (pd' = pd ∧ dst <= virt < dst + o)).
      * by rewrite decide_True by lia.
      * rewrite decide_False; [done|]. intros [-> ?]. destruct (decide (virt < dst + o)); [tauto|]. apply Hout. lia.
Qed.

Lemma copy_to_chunk σ1 dst src len o σ2 fs m :
  vm_ok σ1 → is_u32 dst → dst + len <= USER_STACK_TOP → 0 <= src → src + len <= ARCH_KERNEL_VIRT_BASE →
  prepared (vm_mem σ1) true dst len → (∀ x, dst <= x < dst + len → plain (vm_mem σ1) pd x) →
  0 <= o < len → chunk_start dst o → σ2 = set_mem m σ1 → copied_to σ1 dst src o m →
  ∃ kptr, uaccess_translate σ2 fs pd p (dst + o) true = (Some kptr, σ2, fs) ∧
    copied_to σ1 dst src (o + chunk_len dst len o) (k_memcpy m kptr (src +u o) (chunk_len dst len o)).
Proof.
  intros OK Hs Hend Hd Hdl Hprep Hpl Ho Hst -> Hc.
  destruct (Hprep o Ho) as (Htop & Hrd & Hal). unfold is_u32, USER_STACK_TOP in *. assert (is_u32 (dst + o)) as Hao by (unfold is_u32; lia).
  destruct Hrd as (e & Hat). destruct (index_ranges _ Hao) as [Hi Hj]. assert (user_at pd m true (dst + o) e) as Hat'.
  { destruct Hat as (He & Hat). split; [|done]. unfold walk_at in *. by rewrite (ct_walks _ _ _ _ _ Hc); auto. }
  pose proof (translate_ready inv managed D T K ext pd Hpd (set_mem m σ1) fs p (dst + o) true e
    (ct_ok _ _ _ _ _ Hc) Hao ltac:(unfold USER_STACK_TOP; lia) (Hal Hst) Hat') as Et.
  eexists. split; [exact Et|]. destruct (chunk_len_bounds dst len o Ho) as [Hn Hpg]. unfold ARCH_KERNEL_VIRT_BASE in Hdl.
  assert (src +u o = src + o) as -> by (apply u32_small; unfold is_u32; lia).
  eapply copied_to_next; [exact Hc|exact Hao|by apply Hpd|exact Hat| |lia|lia|lia|unfold ARCH_KERNEL_VIRT_BASE; lia|].
  - destruct Hat as (He & Hu & _). by apply (Hpl (dst + o)); [lia|..].
  - apply forward_copy; [lia|]. right. pose proof (entry_addr_nonneg e). pose proof (Z.mod_pos_bound (dst + o) 4096 ltac:(done)).
    unfold kv, ARCH_KERNEL_VIRT_BASE. lia.
Qed.

Lemma copy_to_ok σ fs dst src len :
  vm_ok σ → is_u32 dst → is_u32 len → 0 <= src → src + len <= ARCH_KERNEL_VIRT_BASE →
  (∀ x, dst <= x < dst + len → plain (vm_mem σ) pd x) →
  ∃ rc σ1 m fs', uaccess_copy_to_user σ fs pd p dst src len = Some (rc, set_mem m σ1, fs') ∧ user_step σ σ1 ∧
    (prepared (vm_mem σ) true dst len → rc = 0) ∧
    (rc = -1 ∧ m = vm_mem σ1 ∨
     rc = 0 ∧ copied_to σ1 dst src len m ∧ ∀ o, 0 <= o < len → is_u32 (dst + o) ∧ ready (vm_mem σ1) true (dst + o)).
Proof.
  intros OK Hs Hl Hd Hdl Hpl. unfold uaccess_copy_to_user.
  pose proof (prepare_ready σ fs dst len true OK Hs Hl) as Hready.
  destruct (prepare_ok σ fs dst len true OK Hs Hl) as (rc & σ1 & fs1 & Ep & Hst & Hr). rewrite Ep in *.
  destruct Hr as [->|(-> & Hend & Hprep)]; cbn [Z.eqb negb].
  { exists (-1), σ1, (vm_mem σ1), fs1. split; [by destruct σ1|]. split; [done|]. split; [|by left].
    intros Hp. by specialize (Hready Hp). }
  pose proof (is_ok _ _ _ _ _ _ _ _ _ (us_iso _ _ _ _ _ _ _ _ _ Hst)) as OK1.
  assert (∀ x, dst <= x < dst + len → plain (vm_mem σ1) pd x) as Hpl1.
  { intros x Hx. apply (us_plain _ _ _ _ _ _ _ _ _ Hst); [|by apply Hpl]. unfold is_u32, USER_STACK_TOP in *. destruct Hend; lia. }
  set (body := λ addr offset chunk σ fs, _).
  destruct (chunks_inv dst len body (λ o σ' _, ∃ m, σ' = set_mem m σ1 ∧ copied_to σ1 dst src o m) (λ _ _, False) σ1 fs1)
    as (rc & σ' & fs' & E & Hc).
  - unfold is_u32 in *. lia.
  - unfold is_u32 in *. lia.
  - unfold is_u32, USER_STACK_TOP in *. lia.
  - exists (vm_mem σ1). split; [by destruct σ1|]. by apply copied_to_refl.
  - intros o σ2 fs2 Ho Hcs (m & -> & Hc). assert (dst + len <= USER_STACK_TOP) as Hend' by (destruct Hend; lia).
    destruct (copy_to_chunk σ1 dst src len o _ fs2 m OK1 Hs Hend' Hd Hdl Hprep Hpl1 Ho Hcs eq_refl Hc) as (kptr & Et & Hc').
    unfold body. rewrite Et. eexists. split; [|exact Hc']. done.
  - destruct Hc as [(-> & m & -> & Hc)|[_ []]]. exists 0, σ1, m, fs'. split; [exact E|]. split; [done|]. split; [done|]. right.
    split; [done|]. split; [done|]. intros o Ho. destruct (Hprep o Ho) as (Ht & Hrd & _). split; [|done].
    unfold is_u32, USER_STACK_TOP in *. lia.
Qed.

(** C36: copying to a process always returns, and it succeeds where the process
    may write and nothing is missing.  Either it fails and the process
    reads what it read before, or it reads the kernel's bytes in the range and
    what it read before elsewhere.  In both cases kernel memory below the direct
    map is unchanged, and other processes read what they read before, also where
    the pages written were shared copy on write. *)
Theorem uaccess_copy_to_user_correct σ fs dst src len :
  vm_ok σ → is_u32 dst → is_u32 len → 0 <= src → src + len <= ARCH_KERNEL_VIRT_BASE →
  (∀ x, dst <= x < dst + len → plain (vm_mem σ) pd x) →
  ∃ rc σ' fs', uaccess_copy_to_user σ fs pd p dst src len = Some (rc, σ', fs') ∧ vm_ok σ' ∧
    low_same (vm_mem σ) (vm_mem σ') ∧ (rc = 0 ∨ rc = -1) ∧ (prepared (vm_mem σ) true dst len → rc = 0) ∧
    (rc = 0 → ∀ o, 0 <= o < len → user_load (vm_mem σ') pd (dst + o) = Some (mem_get (vm_mem σ) (src + o))) ∧
    (∀ virt b, is_u32 virt → no_device (vm_mem σ) pd virt → (rc = 0 → ¬ dst <= virt < dst + len) →
       user_load (vm_mem σ) pd virt = Some b → user_load (vm_mem σ') pd virt = Some b) ∧
    (∀ pd' virt, pd' ≠ pd → is_u32 virt → (pd', pd_index virt) ∈ T → no_device (vm_mem σ) pd' virt →
       user_load (vm_mem σ') pd' virt = user_load (vm_mem σ) pd' virt).
Proof.
  intros OK Hs Hl Hd Hdl Hpl. destruct (copy_to_ok σ fs dst src len OK Hs Hl Hd Hdl Hpl) as (rc & σ1 & m & fs' & E & Hst & Hready & Hr).
  exists rc, (set_mem m σ1), fs'. split; [exact E|]. pose proof Hst as [Hiso Hk Hpl1 Hlow].
  pose proof (is_ok _ _ _ _ _ _ _ _ _ Hiso) as OK1. cbn [vm_mem set_mem].
  destruct Hr as [[-> ->]|(-> & [OK' Hlow' Hws Hload] & Hrd)].
  - split; [by destruct σ1|]. split; [done|]. split; [by right|]. split; [done|]. split; [done|].
    split; [by intros; eapply step_load|]. intros. by eapply isolated_load.
  - split; [done|]. split; [by etrans|]. split; [by left|]. split; [done|]. split; [|split].
    + intros _ o Ho. destruct (Hrd o Ho) as (Hu & e & (He & Hus & _)). destruct (index_ranges _ Hu) as [Hi _].
      assert (io e = false) as Hio.
      { apply (Hpl1 (dst + o) Hu (Hpl (dst + o) ltac:(lia)) e He Hus). }
      rewrite Hload; [|done|by apply Hpd|intros e2 ?; congruence]. rewrite decide_True by lia. f_equal.
      replace (src + (dst + o - dst)) with (src + o) by lia. apply Hlow. lia.
    + intros virt b Hv Hdev Hout Hb. destruct (index_ranges _ Hv) as [Hi _]. rewrite Hload; [|done|by apply Hpd|].
      * rewrite decide_False by (intros [_ ?]; by apply Hout). by eapply step_load.
      * unfold user_load in Hb. destruct (walk_at (vm_mem σ) pd virt) as [e|] eqn:He; [|done]. destruct (user e) eqn:Hu; [|done].
        destruct (Hk virt e Hv He Hu) as (e' & He' & _ & _ & Hio & _). intros e2 He2. rewrite He2 in He'. injection He' as ->.
        by rewrite Hio, (Hdev e He).
    + intros pd' virt Hne Hv Ht Hdev. rewrite <-(isolated_load inv managed σ σ1 D T K ext pd pd' virt OK Hiso Hne Hv Ht Hdev).
      rewrite Hload; [|done|done|].
      * rewrite decide_False; [done|]. by intros [-> _].
      * destruct (index_ranges _ Hv) as [_ Hj]. intros e He. apply Hdev. unfold walk_at in *. by rewrite (is_walk _ _ _ _ _ _ _ _ _ Hiso) in He.
Qed.

(** ** Copying a string *)

Lemma plain_load σ σ' virt b :
  user_step σ σ' → is_u32 virt → plain (vm_mem σ) pd virt →
  user_load (vm_mem σ) pd virt = Some b → user_load (vm_mem σ') pd virt = Some b.
Proof.
  intros Hs Hv Hp Hl. apply (step_load σ); try done. intros e He. unfold user_load in Hl. rewrite He in Hl.
  destruct (user e) eqn:Hu; [|done]. by apply (Hp e).
Qed.

Lemma high_plain m m' virt : 0 <= pd → is_u32 virt → high_same m m' → plain m pd virt → plain m' pd virt.
Proof. intros Hp Hv Hs Hpl e He. apply Hpl. by rewrite (high_walk m m') in He. Qed.

(** The first [k] characters have been copied and none of them ends the string. *)
Record string_copied σ dst src n k σ' : Prop := {
  sc_ok : vm_ok σ';
  sc_low : ∀ x, x < ARCH_KERNEL_VIRT_BASE → ¬ dst <= x < dst + k → mem_get (vm_mem σ') x = mem_get (vm_mem σ) x;
  sc_plain : ∀ i, 0 <= i < n → is_u32 (src + i) → plain (vm_mem σ') pd (src + i);
  sc_bytes : ∀ i, 0 <= i < k → is_u32 (src + i) ∧ user_load (vm_mem σ') pd (src + i) = Some (mem_get (vm_mem σ') (dst + i));
}.

Lemma string_step σ dst src n k σ1 σ2 :
  string_copied σ dst src n k σ1 → 0 <= k <= n → dst + n <= ARCH_KERNEL_VIRT_BASE → user_step σ1 σ2 →
  string_copied σ dst src n k σ2.
Proof.
  intros [OK Hlow Hpl Hb] Hk Hd Hs. pose proof Hs as [Hiso _ Hp Hl]. split.
  - by apply (is_ok _ _ _ _ _ _ _ _ _ Hiso).
  - intros x Hx Hout. rewrite Hl by done. by apply Hlow.
  - intros i Hi Hu. apply Hp; auto.
  - intros i Hi. destruct (Hb i Hi) as [Hu Hld]. split; [done|]. rewrite Hl by lia. eapply plain_load; try done. apply Hpl; [lia|done].
Qed.

Lemma string_put σ dst src n k σ1 c :
  string_copied σ dst src n k σ1 → 0 <= k < n → dst + n <= ARCH_KERNEL_VIRT_BASE → is_u32 (src + k) → u8 c = c →
  user_load (vm_mem σ1) pd (src + k) = Some c →
  string_copied σ dst src n (k + 1) (set_mem (mem_set (vm_mem σ1) (dst + k) c) σ1).
Proof.
  intros [OK Hlow Hpl Hb] Hk Hd Hu Hc Hld. pose proof (dir_nonneg inv managed D T K ext pd Hpd σ1 OK) as Hpn.
  assert (high_same (vm_mem σ1) (mem_set (vm_mem σ1) (dst + k) c)) as Hhigh.
  { intros x Hx. rewrite mem_get_set. by destruct (Z.eqb_spec x (dst + k)); [lia|]. }
  split; cbn [vm_mem set_mem].
  - by apply high_ok.
  - intros x Hx Hout. rewrite mem_get_set. destruct (Z.eqb_spec x (dst + k)); [lia|]. apply Hlow; [done|lia].
  - intros i Hi Hui. eapply high_plain; try done. by apply Hpl.
  - intros i Hi. assert (is_u32 (src + i)) as Hui by (destruct (decide (i = k)) as [->|]; [done|apply Hb; lia]).
    split; [done|]. rewrite (high_load (vm_mem σ1)) by done. rewrite mem_get_set.
    destruct (Z.eqb_spec (dst + i) (dst + k)); [|apply Hb; lia].
    assert (i = k) as -> by lia. by rewrite Hld, Hc.
Qed.

Definition no_nul m dst k : Prop := ∀ i, 0 <= i < k → mem_get m (dst + i) ≠ 0.

(** The loop before character [k], and its two ways to end early. *)
Definition string_loop σ dst src n k (s : vm S * F) : Prop :=
  string_copied σ dst src n k s.1 ∧ is_u32 (src + k) ∧ no_nul (vm_mem s.1) dst k.
Definition string_end σ dst src n (r : Z * vm S * F) : Prop :=
  ∃ k, 0 <= k <= n ∧ string_copied σ dst src n k r.1.2 ∧
    (r.1.1 = -1 ∨ r.1.1 = 0 ∧ 0 < k ∧ no_nul (vm_mem r.1.2) dst (k - 1) ∧ mem_get (vm_mem r.1.2) (dst + (k - 1)) = 0).

Lemma copy_char_ok σ dst src n k s :
  string_loop σ dst src n k s → 0 <= k < n → 0 <= dst → dst + n <= ARCH_KERNEL_VIRT_BASE →
  match copy_char pd p dst src k s with
  | inl r => string_end σ dst src n r
  | inr s' => string_loop σ dst src n (k + 1) s'
  end.
Proof.
  destruct s as [σ1 fs1]. intros (Hc & Hu & Hnz) Hk Hd Hdl. cbn [fst] in *. unfold copy_char. rewrite u32_small by done.
  destruct (uaccess_translate σ1 fs1 pd p (src + k) false) as [[q σ2] fs2] eqn:Et.
  destruct (translate_step inv managed file_byte D T K ext pd Hpd σ1 fs1 p (src + k) false q σ2 fs2 (sc_ok _ _ _ _ _ _ Hc) Hu (Hvma _) Et)
    as [Hst Hq]. pose proof (string_step _ _ _ _ _ _ _ Hc ltac:(lia) Hdl Hst) as Hc2.
  destruct q as [kptr|]; [|exists k; split; [lia|]; split; [done|by left]].
  destruct (Hq kptr eq_refl) as (Htop & _ & e & Hat & ->). pose proof (alias_load _ _ _ _ Hat) as Hld. cbn zeta.
  set (c := mem_get (vm_mem σ2) _) in *. assert (u8 c = c) as Hc8 by (apply u8_small, mem_get_u8).
  pose proof (string_put _ _ _ _ _ _ _ Hc2 Hk Hdl Hu Hc8 Hld) as Hput. set (σ3 := set_mem _ σ2) in *.
  assert (mem_get (vm_mem σ3) (dst + k) = c) as Hm by (cbn [vm_mem set_mem σ3]; by rewrite mem_get_set, Z.eqb_refl).
  assert (no_nul (vm_mem σ3) dst k) as Hn.
  { intros i Hi. cbn [vm_mem set_mem σ3]. rewrite mem_get_set. destruct (Z.eqb_spec (dst + i) (dst + k)); [lia|].
    rewrite (us_low _ _ _ _ _ _ _ _ _ Hst) by lia. by apply Hnz. }
  destruct (Z.eqb_spec c 0) as [Hz|Hz].
  - exists (k + 1). split; [lia|]. split; [done|]. right. replace (k + 1 - 1) with k by lia. cbn [fst snd]. rewrite Hm. auto with lia.
  - split; [done|]. split; [unfold is_u32, USER_STACK_TOP in *; lia|]. intros i Hi.
    destruct (decide (i = k)) as [->|]; [cbn [fst]; by rewrite Hm|apply Hn; lia].
Qed.

Lemma string_loop_ok σ fs dst src n :
  vm_ok σ → is_u32 src → 0 <= n → 0 <= dst → dst + n <= ARCH_KERNEL_VIRT_BASE →
  (∀ i, 0 <= i < n → is_u32 (src + i) → plain (vm_mem σ) pd (src + i)) →
  match for_exit 0 (Z.to_nat n) (copy_char pd p dst src) (σ, fs) with
  | inl r => string_end σ dst src n r
  | inr s => string_loop σ dst src n n s
  end.
Proof.
  intros OK Hs Hn Hd Hdl Hpl.
  pose proof (for_exit_inv (string_loop σ dst src n) (string_end σ dst src n) (copy_char pd p dst src) 0 (Z.to_nat n) (σ, fs)) as HI.
  rewrite Z2Nat.id in HI by done. apply HI.
  - intros k s Hk Hl. by apply copy_char_ok.
  - split; [|split; [by rewrite Z.add_0_r|intros i ?; lia]]. split; try done. intros i ?. lia.
Qed.

(** A string of [n] characters and its terminator at [src], in mapped pages the
    process may read. *)
Record string_at σ src n : Prop := {
  sa_range : 0 <= n ∧ src + n < USER_STACK_TOP;
  sa_ready : ∀ i, 0 <= i <= n → ready (vm_mem σ) false (src + i) ∧ uaccess_vma_allows p (src + i) false = true;
  sa_chars : ∀ i, 0 <= i < n → user_load (vm_mem σ) pd (src + i) ≠ Some 0;
  sa_end : user_load (vm_mem σ) pd (src + n) = Some 0;
}.

Lemma string_ready σ fs dst src dstsz n :
  vm_ok σ → is_u32 src → string_at σ src n → n < dstsz → 0 <= dst → dst + dstsz <= ARCH_KERNEL_VIRT_BASE →
  ∃ m, for_exit 0 (Z.to_nat dstsz) (copy_char pd p dst src) (σ, fs) = inl (0, set_mem m σ, fs) ∧
    ∀ i, 0 <= i <= n → user_load (vm_mem σ) pd (src + i) = Some (mem_get m (dst + i)).
Proof.
  intros OK Hs [[Hn Htop] Hr Hc He] Hsz Hd Hdl. pose proof (dir_nonneg inv managed D T K ext pd Hpd σ OK) as Hpn.
  unfold is_u32, USER_STACK_TOP in *.
  set (J := λ k (s : vm S * F), k <= n ∧ s.2 = fs ∧ ∃ m, s.1 = set_mem m σ ∧ high_same (vm_mem σ) m ∧
    ∀ i, 0 <= i < k → user_load (vm_mem σ) pd (src + i) = Some (mem_get m (dst + i))).
  pose proof (for_exit_inv J (λ r : Z * vm S * F, ∃ m, r = (0, set_mem m σ, fs) ∧
    ∀ i, 0 <= i <= n → user_load (vm_mem σ) pd (src + i) = Some (mem_get m (dst + i)))
    (copy_char pd p dst src) 0 (Z.to_nat dstsz) (σ, fs)) as HI. rewrite Z2Nat.id in HI by lia.
  lapply HI; clear HI; [intros HI; lapply HI; clear HI|].
  - intros HI. destruct (for_exit _ _ _ _) as [r|s]; [|destruct HI as [? _]; lia].
    destruct HI as (m & -> & Hm). by exists m.
  - split; [done|]. split; [done|]. exists (vm_mem σ). split; [by destruct σ|]. split; [done|]. intros i ?. lia.
  - intros k [σ1 fs1] Hk (Hkn & Hfs & m & Hm & Hhi & Hb). cbn [fst snd] in *. subst fs1 σ1.
    destruct (Hr k ltac:(lia)) as [(e & Hat) Hal]. assert (is_u32 (src + k)) as Hu by (unfold is_u32; lia).
    assert (user_at pd m false (src + k) e) as Hat' by (destruct Hat; split; [by rewrite (high_walk (vm_mem σ) m)|done]).
    unfold copy_char. rewrite u32_small by done.
    rewrite (translate_ready inv managed D T K ext pd Hpd (set_mem m σ) fs p (src + k) false e (high_ok σ m OK Hhi) Hu
      ltac:(unfold USER_STACK_TOP; lia) Hal Hat'). cbn [vm_mem set_mem].
    pose proof (alias_load m _ _ _ Hat') as Hld. rewrite (high_load (vm_mem σ) m) in Hld by done.
    set (c := mem_get m _) in *. assert (u8 c = c) as Hc8 by (apply u8_small, mem_get_u8).
    assert (∀ i, 0 <= i < k + 1 → user_load (vm_mem σ) pd (src + i) = Some (mem_get (mem_set m (dst + k) c) (dst + i))) as Hb'.
    { intros i Hi. rewrite mem_get_set. destruct (Z.eqb_spec (dst + i) (dst + k)); [|apply Hb; lia].
      assert (i = k) as -> by lia. by rewrite Hld, Hc8. }
    destruct (Z.eqb_spec c 0) as [Hz|Hz].
    + exists (mem_set m (dst + k) c). split; [done|]. destruct (decide (k = n)) as [->|]; [intros i Hi; apply Hb'; lia|].
      destruct (Hc k ltac:(lia)). by rewrite Hld, Hz.
    + split; [|split; [done|]].
      { destruct (decide (k = n)) as [->|]; [|lia]. rewrite Hld in He. congruence. }
      exists (mem_set m (dst + k) c). split; [done|]. split; [|done].
      intros x Hx. rewrite mem_get_set. destruct (Z.eqb_spec x (dst + k)); [lia|by apply Hhi].
Qed.

(** C37: copying a string always returns and never writes outside the buffer.
    With result 0 the buffer holds the bytes the process reads at [src] up to and
    including the first NUL.  It does return 0 when a string terminated within
    [dstsz] bytes lies in mapped pages the process may read (and neither pointer
    is NULL), and then the buffer holds just this string. *)
Theorem uaccess_copy_string_correct σ fs dst dstsz src :
  vm_ok σ → is_u32 src → is_u32 dstsz → 0 <= dst → dst + dstsz <= ARCH_KERNEL_VIRT_BASE →
  (∀ i, 0 <= i < dstsz → is_u32 (src + i) → plain (vm_mem σ) pd (src + i)) →
  let '(rc, σ', _) := uaccess_copy_string_from_user σ fs pd p dst dstsz src in
  vm_ok σ' ∧
  (∀ x, x < ARCH_KERNEL_VIRT_BASE → ¬ dst <= x < dst + dstsz → mem_get (vm_mem σ') x = mem_get (vm_mem σ) x) ∧
  (rc = -1 ∨
   rc = 0 ∧ ∃ n, 0 <= n < dstsz ∧ no_nul (vm_mem σ') dst n ∧ mem_get (vm_mem σ') (dst + n) = 0 ∧
     ∀ i, 0 <= i <= n → user_load (vm_mem σ') pd (src + i) = Some (mem_get (vm_mem σ') (dst + i))) ∧
  (∀ n, string_at σ src n → n < dstsz → src ≠ 0 → dst ≠ 0 →
     rc = 0 ∧ ∀ i, 0 <= i <= n → user_load (vm_mem σ) pd (src + i) = Some (mem_get (vm_mem σ') (dst + i))).
Proof.
  intros OK Hs Hsz Hd Hdl Hpl. unfold uaccess_copy_string_from_user.
  assert (∀ n, string_at σ src n → n < dstsz → src ≠ 0 → dst ≠ 0 → (dst =? 0) || (dstsz =? 0) || (src =? 0) = false) as Hargs.
  { intros n [[? _] _ _ _] ? ? ?. by rewrite !(proj2 (Z.eqb_neq _ 0)) by lia. }
  destruct (_ || _); [split; [done|]; split; [done|]; split; [by left|]; intros n H1 H2 H3 H4; by discriminate (Hargs n H1 H2 H3 H4)|]. clear Hargs.
  pose proof (string_loop_ok σ fs dst src dstsz OK Hs (proj1 Hsz) Hd Hdl Hpl) as HJ.
  assert (∀ n, string_at σ src n → n < dstsz → _) as Hgood by (intros n Hn Hlt; exact (string_ready σ fs dst src dstsz n OK Hs Hn Hlt Hd Hdl)).
  assert (∀ σ1 k, 0 <= k <= dstsz → string_copied σ dst src dstsz k σ1 → vm_ok σ1 ∧
    ∀ x, x < ARCH_KERNEL_VIRT_BASE → ¬ dst <= x < dst + dstsz → mem_get (vm_mem σ1) x = mem_get (vm_mem σ) x) as Hany.
  { intros σ1 k Hk [OK1 Hl _ _]. split; [done|]. intros x Hx Hout. apply Hl; [done|lia]. }
  destruct (for_exit _ _ _ _) as [[[rc σ'] fs']|[σ' fs']].
  - assert (∀ n, string_at σ src n → n < dstsz → src ≠ 0 → dst ≠ 0 →
      rc = 0 ∧ ∀ i, 0 <= i <= n → user_load (vm_mem σ) pd (src + i) = Some (mem_get (vm_mem σ') (dst + i))) as Hlast.
    { intros n Hn Hlt _ _. destruct (Hgood n Hn Hlt) as (m & [= -> -> ->] & Hm). done. }
    destruct HJ as (k & Hk & Hc & Hr). cbn [fst snd] in *. destruct (Hany σ' k Hk Hc) as [OK' Hout]. split; [done|]. split; [done|].
    split; [|done]. destruct Hr as [->|(-> & Hk0 & Hnz & Hz)]; [by left|right]. split; [done|]. exists (k - 1).
    split; [lia|]. split; [done|]. split; [done|]. intros i Hi. apply (sc_bytes _ _ _ _ _ _ Hc). lia.
  - destruct HJ as (HJ & _). destruct (Hany σ' dstsz ltac:(unfold is_u32 in *; lia) HJ) as [OK' Hout]. split; [done|]. split; [done|].
    split; [by left|]. intros n Hn Hlt. by destruct (Hgood n Hn Hlt) as (m & ? & _).
Qed.
End copies.

(** ** Witnesses *)

Lemma demo_user_areas a v : vma_find_const demo_user a = Some v → vma_u32 v.
Proof.
  intros Hv. assert (v ∈ [demo_area 0x1B; demo_file_area; demo_stack_area]) as Hin.
  { unfold vma_find_const in Hv.
    pose proof (for_exit_inv (λ _ _, True) (λ v, v ∈ [demo_area 0x1B; demo_file_area; demo_stack_area])
      (λ i (_ : unit), let v := (vma_table demo_user).[i] in
         if (start v <=? a) && (a <? end_ v) then inl v else inr ()) 0 (Z.to_nat (vma_count demo_user)) ()) as HI.
    destruct (for_exit _ _ _ _); [|discriminate Hv]. injection Hv as <-. apply HI; [|exact I].
    intros k _ Hk _. cbn zeta. destruct (_ && _); [|exact I]. change (Z.to_nat (vma_count demo_user)) with 3%nat in Hk.
    assert (k = 0 ∨ k = 1 ∨ k = 2) as [->|[->| ->]] by lia; change (vma_table demo_user) with [demo_area 0x1B; demo_file_area; demo_stack_area];
      [left|right; left|right; right; left]. }
  repeat (apply elem_of_cons in Hin as [->|Hin]; [repeat split; vm_compute; discriminate || reflexivity|]).
  by apply elem_of_nil in Hin.
Qed.

(** The two processes of the fork and a kernel buffer with one byte in it. *)
Definition demo_buffer : Z := 0x60000.
Definition demo_copy : vm pmm_core_state := set_mem (mem_set (vm_mem demo_fork) demo_buffer 0x41) demo_fork.

Lemma demo_copy_ok : demo_ok demo_copy fork_D fork_T demo_K no_ext.
Proof.
  apply (high_ok pmm_inv pmm_managed fork_D fork_T demo_K no_ext demo_fork); [exact demo_fork_ok|].
  intros x Hx. rewrite mem_get_set. destruct (Z.eqb_spec x demo_buffer); [|reflexivity].
  unfold demo_buffer, ARCH_KERNEL_VIRT_BASE in *. lia.
Qed.

Lemma demo_copy_dirs i : ix i → (demo_child, i) ∈ fork_T.
Proof. intros Hi. apply elem_of_app. left. by apply elem_of_pd_dirs. Qed.

Lemma demo_copy_dirs_parent i : ix i → (demo_pd, i) ∈ fork_T.
Proof. intros Hi. apply elem_of_app. right. by apply demo_dirs. Qed.

(** Both processes have the page, read-only and copy on write. *)
Lemma demo_copy_walk :
  walk_at (vm_mem demo_copy) demo_child (demo_virt + 1) = Some 0x13205 ∧
  walk_at (vm_mem demo_copy) demo_pd (demo_virt + 1) = Some 0x13205.
Proof. split; vm_compute; reflexivity. Qed.

Definition copy_rc {A B : Type} (r : option (Z * A * B)) : option Z := match r with Some (rc, _, _) => Some rc | None => None end.

Lemma demo_copy_to_rc :
  copy_rc (uaccess_copy_to_user demo_copy () demo_child demo_user (demo_virt + 1) demo_buffer 1) = Some 0 ∧
  copy_rc (uaccess_copy_from_user demo_copy () demo_child demo_user demo_buffer (demo_virt + 1) 1) = Some 0 ∧
  (uaccess_copy_string_from_user demo_copy () demo_child demo_user demo_buffer 8 (demo_virt + 1)).1.1 = 0.
Proof. split; [|split]; vm_compute; reflexivity. Qed.
#[global] Opaque demo_copy.

Lemma uaccess_copy_to_user_correct_witness :
  match uaccess_copy_to_user demo_copy () demo_child demo_user (demo_virt + 1) demo_buffer 1 with
  | Some (rc, σ', _) => rc = 0 ∧ user_load (vm_mem σ') demo_child (demo_virt + 1) = Some (mem_get (vm_mem demo_copy) demo_buffer) ∧
      user_load (vm_mem σ') demo_pd (demo_virt + 1) = user_load (vm_mem demo_copy) demo_pd (demo_virt + 1)
  | None => False
  end.
Proof.
  pose proof (proj1 demo_copy_to_rc) as Hrc. destruct demo_copy_walk as [Hw Hw'].
  destruct (uaccess_copy_to_user_correct pmm_inv pmm_managed demo_file_byte fork_D fork_T demo_K no_ext demo_child demo_copy_dirs
    demo_user demo_user_areas demo_copy () (demo_virt + 1) demo_buffer 1 demo_copy_ok) as (rc & σ' & fs' & E & _ & _ & _ & _ & Hin & _ & Hother).
  - unfold is_u32, demo_virt. lia.
  - unfold is_u32. lia.
  - unfold demo_buffer. lia.
  - unfold demo_buffer, ARCH_KERNEL_VIRT_BASE. lia.
  - intros x Hx e He _. assert (x = demo_virt + 1) as -> by lia. rewrite Hw in He. injection He as <-. split; reflexivity.
  - rewrite E in Hrc |- *. injection Hrc as ->. split; [reflexivity|]. split.
    + specialize (Hin eq_refl 0 ltac:(lia)). rewrite !Z.add_0_r in Hin. exact Hin.
    + apply Hother; [discriminate|unfold is_u32, demo_virt; lia|apply demo_copy_dirs_parent; split; vm_compute; [discriminate|reflexivity]|].
      intros e He. rewrite Hw' in He. injection He as <-. reflexivity.
Defined.

Lemma uaccess_copy_from_user_correct_witness :
  match uaccess_copy_from_user demo_copy () demo_child demo_user demo_buffer (demo_virt + 1) 1 with
  | Some (rc, σ', _) => rc = 0 ∧ user_load (vm_mem σ') demo_child (demo_virt + 1) = Some (mem_get (vm_mem σ') demo_buffer)
  | None => False
  end.
Proof.
  pose proof (proj1 (proj2 demo_copy_to_rc)) as Hrc.
  destruct (uaccess_copy_from_user_correct pmm_inv pmm_managed demo_file_byte fork_D fork_T demo_K no_ext demo_child demo_copy_dirs
    demo_user demo_user_areas demo_copy () demo_buffer (demo_virt + 1) 1 demo_copy_ok) as (rc & σ' & fs' & E & _ & _ & Hr & _).
  - unfold is_u32, demo_virt. lia.
  - unfold is_u32. lia.
  - unfold demo_buffer. lia.
  - unfold demo_buffer, ARCH_KERNEL_VIRT_BASE. lia.
  - rewrite E in Hrc |- *. injection Hrc as ->. split; [reflexivity|]. destruct Hr as [[Hr _]|(_ & Hl & _)]; [discriminate Hr|].
    specialize (Hl 0 ltac:(lia)). rewrite !Z.add_0_r in Hl. exact Hl.
Defined.

Lemma uaccess_copy_string_correct_witness :
  let '(rc, σ', _) := uaccess_copy_string_from_user demo_copy () demo_child demo_user demo_buffer 8 (demo_virt + 1) in
  rc = 0 ∧ ∃ n, 0 <= n < 8 ∧ mem_get (vm_mem σ') (demo_buffer + n) = 0.
Proof.
  pose proof (proj2 (proj2 demo_copy_to_rc)) as Hrc.
  pose proof (uaccess_copy_string_correct pmm_inv pmm_managed demo_file_byte fork_D fork_T demo_K no_ext demo_child demo_copy_dirs
    demo_user demo_user_areas demo_copy () demo_buffer 8 (demo_virt + 1) demo_copy_ok) as H.
  destruct (uaccess_copy_string_from_user demo_copy () demo_child demo_user demo_buffer 8 (demo_virt + 1)) as [[rc σ'] fs'].
  cbn [fst] in Hrc. subst rc. destruct H as (_ & _ & [Hr|(_ & n & Hn & _ & Hz & _)] & _).
  - unfold is_u32, demo_virt. lia.
  - unfold is_u32. lia.
  - unfold demo_buffer. lia.
  - unfold demo_buffer, ARCH_KERNEL_VIRT_BASE. lia.
  - intros i Hi _ e He _. destruct demo_copy_walk as [Hw _]. revert He.
    assert (walk_at (vm_mem demo_copy) demo_child (demo_virt + 1 + i) = walk_at (vm_mem demo_copy) demo_child (demo_virt + 1)) as ->.
    { unfold walk_at. assert ((demo_virt + 1 + i) / 4096 = (demo_virt + 1) / 4096) as Ep by (clear -Hi; unfold demo_virt; Z.div_mod_to_equations; lia).
      destruct (same_page_index _ _ Ep) as [-> ->]. reflexivity. }
    rewrite Hw. intros He. injection He as <-. split; reflexivity.
  - discriminate Hr.
  - split; [reflexivity|]. exists n. split; [exact Hn|exact Hz].
Defined.
