(* ===== verification/Mmsys.v ===== *)
(** * Memory system calls: the model (kernel/proc/syscall/mem.c)

    brk, mmap, munmap and mprotect put the areas ([Vma]), the committed pages
    ([Commit]) and the page tables ([Paging]) of the calling process together.
    The state [mm] has the machine's memory and page allocator, the kernel heap
    and the process.  The page loops step by [PAGE_SIZE] up to an end that the
    callers keep below the top of the stack, so the page never wraps.  Devices
    that can be mapped are the interface [MmapDevices]; the log calls of a brk
    query have no effect on the state.  A caller that is NULL is not a value. *)

From S2P Require Import Prelude Interfaces Memory Kstring Vma Commit Paging Fault Uaccess.

Definition LINUX_PROT_READ : Z := 0x1.
Definition LINUX_PROT_WRITE : Z := 0x2.
Definition LINUX_PROT_EXEC : Z := 0x4.
Definition LINUX_MAP_SHARED : Z := 0x01.
Definition LINUX_MAP_PRIVATE : Z := 0x02.
Definition LINUX_MAP_ANONYMOUS : Z := 0x20.
Definition LINUX_O_WRONLY : Z := 1.
Definition LINUX_EINVAL : Z := 22.
Definition MAX_FDS : Z := 16.
Definition USER_HEAP_MAX : Z := 0xBFFC0000.

Definition SYS_FAIL : Z := u32 (-1).

(** ** Open files, as far as mmap looks at them *)

Inductive fd_kind :=
  | FD_FILE (ref : vfs_file_ref) (size : Z)
  | FD_SYSFILE (ref : vfs_file_ref) (size : Z)
  | FD_CHARDEV (name : nat)
  | FD_WM (conn_id : Z)
  | FD_OTHER.

Record file_handle := mk_fh { fh_type : fd_kind; fh_access_mode : Z }.

Inductive chardev_cache_policy :=
  | CHARDEV_CACHE_DEFAULT | CHARDEV_CACHE_DEVICE | CHARDEV_CACHE_NC | CHARDEV_CACHE_WB_FLUSH.

(** The mmap operations of a character device; [None] for an absent one.  The
    cache policy is [inr] of the number for a value outside the enumeration. *)
Record chardev_ops := mk_chardev {
  mmap_phys : option (Z → Z → Z → option Z);
  mmap_cache_policy : option (Z → Z → chardev_cache_policy + Z);
}.

Class MmapDevices := {
  chardev_get : nat → option chardev_ops;
  wmdev_mmap_page : Z → Z → Z → option Z;
}.

(** ** Protection bits *)

Definition PROT_ALL : Z := LINUX_PROT_READ |u LINUX_PROT_WRITE |u LINUX_PROT_EXEC.

Definition prot_is_valid (prot : Z) : bool := prot &u not32 PROT_ALL =? 0.
Definition prot_has_user_access (prot : Z) : bool := has prot PROT_ALL.

Definition prot_to_vma_flags (prot : Z) : Z :=
  let add (c : bool) (f fl : Z) := if c then fl |u f else fl in
  add (has prot LINUX_PROT_EXEC) VMA_FLAG_EXEC
    (add (has prot LINUX_PROT_WRITE) VMA_FLAG_WRITE
      (add (has prot LINUX_PROT_READ) VMA_FLAG_READ (VMA_FLAG_ANON |u VMA_FLAG_PRIVATE))).

(** ** Committed bytes *)

Definition syscall_vma_is_committable (v : vm_area) : bool :=
  (kind v =? VMA_KIND_GENERIC) && vma_private_anon v.
Definition syscall_vma_requires_commit (v : vm_area) : bool :=
  syscall_vma_is_committable v && has (flags v) VMA_FLAG_WRITE.

(** The bytes of [v] in the range, added to [bytes]; [inl] is the early return. *)
Definition add_overlap (s e : Z) (v : vm_area) (bytes : Z) : Z + Z :=
  if (end_ v <=? s) || (e <=? start v) then inr bytes
  else
    let overlap_start := overlap_start s v in
    let overlap_end := overlap_end e v in
    if overlap_end <=? overlap_start then inr bytes
    else
      let overlap_bytes := overlap_end -u overlap_start in
      if UINT32_MAX - overlap_bytes <? bytes then inl UINT32_MAX else inr (bytes +u overlap_bytes).

Definition loop_value (r : Z + Z) : Z := match r with inl b => b | inr b => b end.

Definition transition_step (p : process) (s e new_flags : Z) (reserve : bool) (i bytes : Z) : Z + Z :=
  let v := (vma_table p).[i] in
  if negb (syscall_vma_is_committable v) then inr bytes
  else
    let has_commit := has (flags v) VMA_FLAG_WRITE in
    let needs_commit := has new_flags VMA_FLAG_WRITE in
    if (if reserve then has_commit || negb needs_commit else negb has_commit || needs_commit) then inr bytes
    else add_overlap s e v bytes.

Definition syscall_mprotect_transition_bytes (p : process) (s e new_flags : Z) (reserve : bool) : Z :=
  if e <=? s then 0
  else loop_value (for_exit 0 (Z.to_nat (vma_count p)) (transition_step p s e new_flags reserve) 0).

Definition munmap_bytes_step (p : process) (s e i bytes : Z) : Z + Z :=
  let v := (vma_table p).[i] in
  if negb (syscall_vma_requires_commit v) then inr bytes else add_overlap s e v bytes.

Definition syscall_committed_munmap_bytes (p : process) (s e : Z) : Z :=
  if e <=? s then 0 else loop_value (for_exit 0 (Z.to_nat (vma_count p)) (munmap_bytes_step p s e) 0).

(** [for (page = start; page < end; page += PAGE_SIZE)] *)
Definition page_count (s e : Z) : nat := Z.to_nat ((e - s + 0xFFF) / 0x1000).

Section mmsys.
Context {S : Type} `{PageAllocator S} {Hp : Type} `{KAllocator Hp} {F : Type} `{FileReader F} `{MmapDevices}.
Implicit Types (σ : vm S) (p : process) (fs : F).

(** ** Page tables of a range *)

Definition unmap_user_page (pd page : Z) σ : vm S :=
  match arch_mm_query σ pd page with
  | None => σ
  | Some (_, fl) => if fl &u ARCH_MM_MAP_USER =? 0 then σ else (arch_mm_unmap σ pd page).2
  end.

Definition syscall_unmap_user_range (pd s e : Z) σ : vm S :=
  if e <=? s then σ
  else for_loop 0 (page_count s e) (λ k, unmap_user_page pd (s + 0x1000 * k)) σ.

Definition mprotect_flags (prot fl : Z) : Z :=
  let d := if prot_has_user_access prot then fl |u ARCH_MM_MAP_USER else fl &u not32 ARCH_MM_MAP_USER in
  if has prot LINUX_PROT_WRITE && (fl &u ARCH_MM_MAP_COW =? 0)
  then d |u ARCH_MM_MAP_WRITE else d &u not32 ARCH_MM_MAP_WRITE.

Definition mprotect_page (pd prot page : Z) σ : vm S :=
  match arch_mm_query σ pd page with
  | None => σ
  | Some (phys, fl) =>
      let desired := mprotect_flags prot fl in
      if desired =? fl then σ
      else
        let changed := Z.lxor desired fl in
        let map σ := (arch_mm_map σ pd page phys desired).2 in
        if (changed &u ARCH_MM_MAP_USER =? 0) && negb (changed &u ARCH_MM_MAP_WRITE =? 0) then
          let '(rc, σ) := arch_mm_update σ pd page
            (if has fl ARCH_MM_MAP_WRITE then ARCH_MM_MAP_WRITE else 0)
            (if has desired ARCH_MM_MAP_WRITE then ARCH_MM_MAP_WRITE else 0) in
          if rc =? 0 then σ else map σ
        else map σ
  end.

Definition syscall_apply_mprotect (pd s e prot : Z) σ : vm S :=
  if e <=? s then σ
  else for_loop 0 (page_count s e) (λ k, mprotect_page pd prot (s + 0x1000 * k)) σ.

Definition syscall_range_has_shared_mapping σ (pd s e : Z) : bool :=
  if e <=? s then false
  else match for_exit 0 (page_count s e)
               (λ k (_ : unit),
                  match arch_mm_query σ pd (s + 0x1000 * k) with
                  | None => inr ()
                  | Some (_, fl) => if has fl ARCH_MM_MAP_SHARED then inl () else inr ()
                  end) () with
       | inl _ => true
       | inr _ => false
       end.

(** ** The calling process *)

Record mm := mk_mm { mm_vm : vm S; mm_heap : Hp; mm_proc : process }.
Implicit Types st : mm.

Definition with_vm st (f : vm S → vm S) : mm := mk_mm (f (mm_vm st)) (mm_heap st) (mm_proc st).
Definition with_proc st p : mm := mk_mm (mm_vm st) (mm_heap st) p.

Definition committed p : option Z := as_committed_pages <$> as_ p.
Definition set_committed p (c : option Z) : process :=
  match as_ p, c with
  | Some a, Some n =>
      mk_proc (Some (mk_as (as_vmas a) (as_vmas_ptr a) (as_vma_count a) (as_vma_capacity a) (as_brk a) n))
        (p_vmas p) (p_vma_count p) (p_brk p) (p_stack_low_limit p)
  | _, _ => p
  end.
Definition set_brk p (b : Z) : process :=
  match as_ p with
  | Some a =>
      mk_proc (Some (mk_as (as_vmas a) (as_vmas_ptr a) (as_vma_count a) (as_vma_capacity a) b (as_committed_pages a)))
        (p_vmas p) (p_vma_count p) (p_brk p) (p_stack_low_limit p)
  | None => mk_proc None (p_vmas p) (p_vma_count p) b (p_stack_low_limit p)
  end.

Definition commit_reserve st (bytes : Z) : Z * mm :=
  let '(rc, c) := vm_commit_reserve (vm_pmm (mm_vm st)) (committed (mm_proc st)) bytes in
  (rc, with_proc st (set_committed (mm_proc st) c)).
Definition commit_release st (bytes : Z) : mm :=
  with_proc st (set_committed (mm_proc st) (vm_commit_release (committed (mm_proc st)) bytes)).

Definition do_unmap_range st (s e : Z) : Z * mm :=
  let '(rc, h, p) := vma_unmap_range (mm_heap st) (mm_proc st) s e in (rc, mk_mm (mm_vm st) h p).
Definition do_protect_range st (s e fl : Z) : Z * mm :=
  let '(rc, h, p) := vma_protect_range (mm_heap st) (mm_proc st) s e fl in (rc, mk_mm (mm_vm st) h p).
Definition do_map_anonymous st (hint length fl : Z) : option Z * mm :=
  let '(a, h, p) := vma_map_anonymous (mm_heap st) (mm_proc st) hint length fl in (a, mk_mm (mm_vm st) h p).

(** ** brk *)

(** Growing: the refusals leave the break alone, [false]. *)
Definition brk_grow (rlimit_data heap_start brk new_brk : Z) st : bool * mm :=
  let old_commit_end := vm_page_align_up brk in
  let new_commit_end := vm_page_align_up new_brk in
  if bool_decide (is_Some (as_ (mm_proc st))) && (rlimit_data <? new_brk -u heap_start) then (false, st)
  else if new_commit_end =? 0 then (false, st)
  else if old_commit_end <? new_commit_end then
    let '(rc, st) := commit_reserve st (new_commit_end -u old_commit_end) in (rc =? 0, st)
  else (true, st).

Definition brk_shrink (pd brk new_brk : Z) st : mm :=
  let unmap_start := (new_brk +u 0xFFF) &u not32 0xFFF in
  let old_end := (brk +u 0xFFF) &u not32 0xFFF in
  let st := with_vm st (syscall_unmap_user_range pd unmap_start old_end) in
  if unmap_start <? old_end then commit_release st (old_end -u unmap_start) else st.

(** [*brk_ptr = new_brk; heap_vma->end = new_brk] *)
Definition brk_store (hi new_brk : Z) st : mm :=
  let p := set_brk (mm_proc st) new_brk in
  let t := vma_table p in
  with_proc st (set_table p t.[hi <- set_end t.[hi] new_brk] (vma_count p)).

Definition syscall_case_brk (rlimit_data pd ebx : Z) st : Z * mm :=
  match vma_find_kind (mm_proc st) VMA_KIND_HEAP with
  | None => (SYS_FAIL, st)
  | Some hi =>
      let brk := vma_brk (mm_proc st) in
      let heap_start := start (vma_table (mm_proc st)).[hi] in
      if ebx =? 0 then (brk, st)
      else if (ebx <? heap_start) || (USER_HEAP_MAX <? ebx) then (brk, st)
      else
        let '(ok, st) := if brk <? ebx then brk_grow rlimit_data heap_start brk ebx st else (true, st) in
        if negb ok then (brk, st)
        else
          let st := if ebx <? brk then brk_shrink pd brk ebx st else st in
          (ebx, brk_store hi ebx st)
  end.

(** ** mmap *)

Definition syscall_mmap_anonymous_private (hint length prot : Z) st : option Z * mm :=
  if length =? 0 then (None, st)
  else
    let fl := prot_to_vma_flags prot in
    let reserved := has fl VMA_FLAG_WRITE in
    let '(rc, st) := if reserved then commit_reserve st length else (0, st) in
    if negb (rc =? 0) then (None, st)
    else match do_map_anonymous st hint length fl with
         | (Some a, st) => (Some a, st)
         | (None, st) => (None, if reserved then commit_release st length else st)
         end.

Definition page_round (length : Z) : Z := (length +u (PAGE_SIZE - 1)) &u not32 (PAGE_SIZE - 1).

(** Undo a mapping that failed half way. *)
Definition mmap_undo (pd map_addr map_len : Z) st : mm :=
  let st := with_vm st (syscall_unmap_user_range pd map_addr (map_addr +u map_len)) in
  (do_unmap_range st map_addr (map_addr +u map_len)).2.

(** Place an area that is not anonymous and map its pages with [body]; [inl] is
    the jump to the failing exit.  The shape of the two device mappings. *)
Definition mmap_pages (pd hint map_len prot : Z) (body : Z → Z → vm S → vm S + vm S) st : option Z * mm :=
  match do_map_anonymous st hint map_len (prot_to_vma_flags prot &u not32 VMA_FLAG_ANON) with
  | (None, st) => (None, st)
  | (Some map_addr, st) =>
      match for_exit 0 (Z.to_nat (map_len / PAGE_SIZE)) (λ k, body map_addr (PAGE_SIZE * k)) (mm_vm st) with
      | inl σ => (None, mmap_undo pd map_addr map_len (with_vm st (λ _, σ)))
      | inr σ => (Some map_addr, with_vm st (λ _, σ))
      end
  end.

Definition cache_flags (dev : chardev_ops) (off len : Z) : Z :=
  match mmap_cache_policy dev with
  | None => ARCH_MM_MAP_IO
  | Some policy =>
      match policy off len with
      | inl CHARDEV_CACHE_DEFAULT | inl CHARDEV_CACHE_WB_FLUSH => 0
      | inl CHARDEV_CACHE_DEVICE => ARCH_MM_MAP_IO
      | inl CHARDEV_CACHE_NC => ARCH_MM_MAP_NC
      | inr _ => ARCH_MM_MAP_IO
      end
  end.

Definition chardev_page (pd base_phys map_flags map_addr off : Z) σ : vm S + vm S :=
  let phys := base_phys + off in
  if UINT32_MAX <? phys then inl σ
  else let '(rc, σ) := arch_mm_map σ pd (map_addr +u off) phys map_flags in
       if negb (rc =? 0) then inl σ else inr σ.

Definition syscall_mmap_chardev (pd : Z) (fds : Z → file_handle) (hint length prot fd file_offset : Z) st : option Z * mm :=
  if (MAX_FDS <=? fd) || (length =? 0) then (None, st)
  else if negb (file_offset &u (PAGE_SIZE - 1) =? 0) then (None, st)
  else match fh_type (fds fd) with
       | FD_CHARDEV name =>
           match chardev_get name with
           | None => (None, st)
           | Some dev =>
               match mmap_phys dev with
               | None => (None, st)
               | Some phys_of =>
                   let map_len := page_round length in
                   if map_len =? 0 then (None, st)
                   else match phys_of file_offset map_len prot with
                        | None => (None, st)
                        | Some base_phys =>
                            if negb (base_phys &u (PAGE_SIZE - 1) =? 0) then (None, st)
                            else
                              let fl := (ARCH_MM_MAP_PRESENT |u ARCH_MM_MAP_READ) |u cache_flags dev file_offset map_len in
                              let fl := if prot_has_user_access prot then fl |u ARCH_MM_MAP_USER else fl in
                              let fl := if has prot LINUX_PROT_WRITE then fl |u ARCH_MM_MAP_WRITE else fl in
                              mmap_pages pd hint map_len prot (chardev_page pd base_phys fl) st
                        end
               end
           end
       | _ => (None, st)
       end.

Definition wmdev_page (pd conn file_offset map_flags map_addr off : Z) σ : vm S + vm S :=
  match wmdev_mmap_page conn file_offset (off / PAGE_SIZE) with
  | None => inl σ
  | Some phys =>
      let σ := pmm_incref σ phys in
      let '(rc, σ) := arch_mm_map σ pd (map_addr +u off) phys map_flags in
      if negb (rc =? 0) then inl (pmm_decref σ phys) else inr σ
  end.

Definition syscall_mmap_wmdev (pd : Z) (fds : Z → file_handle) (hint length prot fd file_offset : Z) st : option Z * mm :=
  if (MAX_FDS <=? fd) || (length =? 0) then (None, st)
  else if negb (file_offset &u (PAGE_SIZE - 1) =? 0) then (None, st)
  else match fh_type (fds fd) with
       | FD_WM conn =>
           if negb (prot_has_user_access prot) then (None, st)
           else
             let map_len := page_round length in
             if map_len =? 0 then (None, st)
             else
               let fl := ARCH_MM_MAP_PRESENT |u ARCH_MM_MAP_READ |u ARCH_MM_MAP_USER |u ARCH_MM_MAP_SHARED in
               let fl := if has prot LINUX_PROT_WRITE then fl |u ARCH_MM_MAP_WRITE else fl in
               mmap_pages pd hint map_len prot (wmdev_page pd conn file_offset fl) st
       | _ => (None, st)
       end.

Definition syscall_mmap_private_file (fds : Z → file_handle) (hint length prot fd file_offset : Z) st : option Z * mm :=
  if (MAX_FDS <=? fd) || (length =? 0) then (None, st)
  else if negb (file_offset &u (PAGE_SIZE - 1) =? 0) then (None, st)
  else
    let map ref size :=
      if fh_access_mode (fds fd) =? LINUX_O_WRONLY then (None, st)
      else
        let map_len := page_round length in
        if map_len =? 0 then (None, st)
        else if UINT32_MAX - (map_len - PAGE_SIZE) <? file_offset then (None, st)
        else
          let '(a, h, p) := vma_map_file_private (mm_heap st) (mm_proc st) hint map_len
                              (prot_to_vma_flags prot &u not32 VMA_FLAG_ANON) ref file_offset size in
          (a, mk_mm (mm_vm st) h p) in
    match fh_type (fds fd) with
    | FD_FILE ref size | FD_SYSFILE ref size => map ref size
    | _ => (None, st)
    end.

(** Only the flag [allowed], and that one set. *)
Definition only_flag (fl allowed : Z) : bool := (fl &u not32 allowed =? 0) && negb (fl &u allowed =? 0).

(** A mapping of an open file: the kind of the descriptor decides. *)
Definition mmap_fd (pd : Z) (fds : Z → file_handle) (addr length prot fl fd file_offset : Z) st : option Z * mm :=
  match fh_type (fds fd) with
  | FD_WM _ =>
      if negb (only_flag fl LINUX_MAP_SHARED) then (None, st)
      else syscall_mmap_wmdev pd fds addr length prot fd file_offset st
  | FD_CHARDEV _ =>
      if negb (only_flag fl LINUX_MAP_SHARED) then (None, st)
      else syscall_mmap_chardev pd fds addr length prot fd file_offset st
  | _ =>
      if negb (only_flag fl LINUX_MAP_PRIVATE) then (None, st)
      else syscall_mmap_private_file fds addr length prot fd file_offset st
  end.

Definition mmap_anon (addr length prot fl offset : Z) st : option Z * mm :=
  let required := LINUX_MAP_PRIVATE |u LINUX_MAP_ANONYMOUS in
  if negb (fl &u required =? required) || negb (fl &u not32 required =? 0) then (None, st)
  else if negb (offset =? 0) then (None, st)
  else syscall_mmap_anonymous_private addr length prot st.

Definition addr_or_fail (r : option Z * mm) : Z * mm := (default SYS_FAIL r.1, r.2).

(** [args] is the address of the kernel's copy of the argument block. *)
Definition syscall_case_mmap (pd : Z) (fds : Z → file_handle) (args ebx : Z) st fs : option (Z * mm * F) :=
  if ebx =? 0 then Some (SYS_FAIL, st, fs)
  else match uaccess_copy_from_user (mm_vm st) fs pd (mm_proc st) args ebx 24 with
  | None => None
  | Some (rc, σ, fs) =>
      let st := with_vm st (λ _, σ) in
      if negb (rc =? 0) then Some (SYS_FAIL, st, fs)
      else
        let arg k := load32 (vm_mem σ) (args + 4 * k) in
        let '(addr, length, prot, fl, fd, offset) := (arg 0, arg 1, arg 2, arg 3, arg 4, arg 5) in
        let '(r, st) :=
          if (length =? 0) || negb (prot_is_valid prot) then (u32 (- LINUX_EINVAL), st)
          else addr_or_fail
            (if negb (fl &u LINUX_MAP_ANONYMOUS =? 0) then mmap_anon addr length prot fl offset st
             else if MAX_FDS <=? fd then (None, st)
             else mmap_fd pd fds addr length prot fl fd offset st) in
        Some (r, st, fs)
  end.

Definition syscall_case_mmap2 (pd : Z) (fds : Z → file_handle) (ebx ecx edx esi edi ebp : Z) st : Z * mm :=
  if (ecx =? 0) || negb (prot_is_valid edx) then (u32 (- LINUX_EINVAL), st)
  else addr_or_fail
    (if negb (esi &u LINUX_MAP_ANONYMOUS =? 0) then mmap_anon ebx ecx edx esi ebp st
     else if MAX_FDS <=? edi then (None, st)
     else if UINT32_MAX / PAGE_SIZE <? ebp then (None, st)
     else mmap_fd pd fds ebx ecx edx esi edi (ebp *u PAGE_SIZE) st).

(** ** munmap and mprotect *)

(** The end of the range, [None] for a bad one. *)
Definition user_range (ebx ecx : Z) : option Z :=
  if (ebx =? 0) || negb (ebx &u (PAGE_SIZE - 1) =? 0) || (ecx =? 0) then None
  else
    let length := page_round ecx in
    let e := ebx +u length in
    if (length =? 0) || (e <=? ebx) || (USER_STACK_TOP <? e) then None else Some e.

Definition syscall_case_munmap (pd ebx ecx : Z) st : Z * mm :=
  match user_range ebx ecx with
  | None => (SYS_FAIL, st)
  | Some e =>
      let commit_bytes := syscall_committed_munmap_bytes (mm_proc st) ebx e in
      let '(rc, st) := do_unmap_range st ebx e in
      if negb (rc =? 0) then (SYS_FAIL, st)
      else
        let st := with_vm st (syscall_unmap_user_range pd ebx e) in
        (0, commit_release st commit_bytes)
  end.

Definition syscall_case_mprotect (pd ebx ecx edx : Z) st : Z * mm :=
  match user_range ebx ecx with
  | None => (SYS_FAIL, st)
  | Some e =>
      if negb (prot_is_valid edx) then (SYS_FAIL, st)
      else
        let new_flags := prot_to_vma_flags edx in
        if negb (prot_has_user_access edx) && syscall_range_has_shared_mapping (mm_vm st) pd ebx e
        then (SYS_FAIL, st)
        else
          let reserve_bytes := syscall_mprotect_transition_bytes (mm_proc st) ebx e new_flags true in
          let '(rc, st) := if negb (reserve_bytes =? 0) then commit_reserve st reserve_bytes else (0, st) in
          if negb (rc =? 0) then (SYS_FAIL, st)
          else
            let release_bytes := syscall_mprotect_transition_bytes (mm_proc st) ebx e new_flags false in
            let '(rc, st) := do_protect_range st ebx e new_flags in
            if negb (rc =? 0)
            then (SYS_FAIL, if negb (reserve_bytes =? 0) then commit_release st reserve_bytes else st)
            else
              let st := with_vm st (syscall_apply_mprotect pd ebx e edx) in
              (0, if negb (release_bytes =? 0) then commit_release st release_bytes else st)
  end.
End mmsys.
Arguments mm : clear implicits.
Arguments mk_mm {S Hp} _ _ _.
