(* ===== verification/MmsysOps.v ===== *)
(** * Memory system calls: the committed pages

    The bytes of a range that satisfy a predicate, counted address by address,
    and the loops of mem.c that count committed bytes area by area; what
    reserving and releasing do to a process, and how each operation on the area
    table moves the number of charged pages. *)

From stdpp Require Import sorting.
From S2P Require Import Prelude Interfaces Memory Kstring Vma VmaSpec VmaProps Commit Paging PagingSpec Fault Uaccess Mmsys.

(** ** Counting addresses *)

Definition b2z (b : bool) : Z := if b then 1 else 0.

Definition tally (P : Z → bool) (s e : Z) : Z := countp (λ x, P x = true) (seqZ s (e - s)).

Lemma tally_empty P s e : e <= s → tally P s e = 0.
Proof. intros He. unfold tally. by rewrite (seqZ_nil s (e - s)) by lia. Qed.

Lemma tally_snoc P s e : s <= e → tally P s (e + 1) = tally P s e + b2z (P e).
Proof.
  intros He. unfold tally. replace (e + 1 - s) with (e - s + 1) by lia.
  rewrite seqZ_app, countp_app by lia. f_equal. replace (s + (e - s)) with e by lia. change (seqZ e 1) with [e].
  rewrite countp_cons, countp_nil, Z.add_0_r. unfold ind, b2z. by destruct (P e).
Qed.

(** Induction on the end of a range. *)
Lemma range_ind (s : Z) (Q : Z → Prop) : Q s → (∀ e, s <= e → Q e → Q (e + 1)) → ∀ e, s <= e → Q e.
Proof.
  intros Hs Hstep e He. replace e with (s + Z.of_nat (Z.to_nat (e - s))) by lia. induction (Z.to_nat (e - s)) as [|n IH].
  - by rewrite Z.add_0_r.
  - replace (s + Z.of_nat (S n)) with (s + Z.of_nat n + 1) by lia. apply Hstep; [lia|done].
Qed.

Lemma tally_add P Q R s e :
  s <= e → (∀ x, s <= x < e → b2z (P x) = b2z (Q x) + b2z (R x)) → tally P s e = tally Q s e + tally R s e.
Proof.
  intros He. revert e He. apply (range_ind s (λ e, (∀ x, s <= x < e → b2z (P x) = b2z (Q x) + b2z (R x)) → _)).
  - intros _. by rewrite !tally_empty.
  - intros e He IH Hx. rewrite !tally_snoc by done. rewrite IH by (intros; apply Hx; lia). rewrite (Hx e) by lia. lia.
Qed.

Lemma tally_false s e : s <= e → tally (λ _, false) s e = 0.
Proof.
  revert e. apply range_ind; [by apply tally_empty|]. intros e He IH. by rewrite tally_snoc, IH.
Qed.

Lemma tally_ext P Q s e : s <= e → (∀ x, s <= x < e → P x = Q x) → tally P s e = tally Q s e.
Proof.
  intros He Hx. assert (tally P s e = tally Q s e + tally (λ _, false) s e) as ->.
  { apply tally_add; [done|]. intros x ?. rewrite Hx by done. cbn. lia. }
  rewrite tally_false by done. lia.
Qed.

Lemma tally_nonneg P s e : 0 <= tally P s e.
Proof. apply countp_nonneg. Qed.

Lemma tally_interval a b s e : s <= e → tally (λ x, (a <=? x) && (x <? b)) s e = Z.max 0 (Z.min b e - Z.max a s).
Proof.
  revert e. apply range_ind; [rewrite tally_empty by lia; lia|]. intros e He IH. rewrite tally_snoc, IH by done.
  destruct (Z.leb_spec a e), (Z.ltb_spec e b); cbn [andb b2z]; lia.
Qed.

Lemma tally_bound P s e : s <= e → tally P s e <= e - s.
Proof.
  revert e. apply range_ind; [rewrite tally_empty by lia; lia|]. intros e He IH. rewrite tally_snoc by done.
  destruct (P e); cbn [b2z]; lia.
Qed.

Lemma tally_split P s c e : s <= c <= e → tally P s e = tally P s c + tally P c e.
Proof.
  intros [Hs Hc]. revert e Hc. apply range_ind; [rewrite (tally_empty P c c) by lia; lia|].
  intros e He IH. rewrite !tally_snoc, IH by lia. lia.
Qed.

(** Predicates that do not tell the addresses of a page apart are counted by
    pages. *)
Definition uniform {A} (f : Z → A) : Prop := ∀ x y, x / 4096 = y / 4096 → f x = f y.

Definition tally_pages (P : Z → bool) (s e : Z) : Z := tally (λ q, P (4096 * q)) s e.

Lemma tally_page P q : uniform P → tally P (4096 * q) (4096 * (q + 1)) = 4096 * b2z (P (4096 * q)).
Proof.
  intros Hu. transitivity (tally (λ x, (if P (4096 * q) then 4096 * q else 4096 * (q + 1)) <=? x) (4096 * q) (4096 * (q + 1))).
  - apply tally_ext; [lia|]. intros x Hx. rewrite (Hu x (4096 * q)) by (Z.div_mod_to_equations; lia).
    destruct (P _); symmetry; [apply Z.leb_le; lia|apply Z.leb_gt; lia].
  - transitivity (tally (λ x, ((if P (4096 * q) then 4096 * q else 4096 * (q + 1)) <=? x) && (x <? 4096 * (q + 1))) (4096 * q) (4096 * (q + 1))).
    + apply tally_ext; [lia|]. intros x Hx. destruct (Z.ltb_spec x (4096 * (q + 1))); [by rewrite andb_true_r|lia].
    + rewrite tally_interval by lia. destruct (P _); cbn [b2z]; lia.
Qed.

Lemma tally_by_pages P a b : uniform P → a <= b → tally P (4096 * a) (4096 * b) = 4096 * tally_pages P a b.
Proof.
  intros Hu. revert b. apply range_ind; [unfold tally_pages; by rewrite !tally_empty by lia|]. intros b Hb IH. unfold tally_pages in *.
  rewrite (tally_split P _ (4096 * b)), IH, tally_page, tally_snoc by (done || lia). lia.
Qed.

(** ** What an area list charges *)

(** The flags of the generic area at an address. *)
Definition gkey (l : list vm_area) (x : Z) : option Z :=
  match vma_at l x with
  | Some a => if at_kind a =? VMA_KIND_GENERIC then Some (at_flags a) else None
  | None => None
  end.

(** The addresses whose generic area has flags that satisfy [g]. *)
Definition charge (g : Z → bool) (l : list vm_area) (x : Z) : bool :=
  match gkey l x with Some fl => g fl | None => false end.

Definition anon_flags (fl : Z) : bool :=
  fl &u (VMA_FLAG_ANON |u VMA_FLAG_PRIVATE) =? (VMA_FLAG_ANON |u VMA_FLAG_PRIVATE).
Definition committable (fl : Z) : bool := anon_flags fl.
Definition charged (fl : Z) : bool := anon_flags fl && has fl VMA_FLAG_WRITE.
Definition uncharged (fl : Z) : bool := anon_flags fl && negb (has fl VMA_FLAG_WRITE).

Definition selects (g : Z → bool) (v : vm_area) : bool := (kind v =? VMA_KIND_GENERIC) && g (flags v).

Lemma charge_cons g v l x :
  Forall valid_area (v :: l) → StronglySorted before (v :: l) →
  b2z (charge g (v :: l) x) = b2z (selects g v && covers v x) + b2z (charge g l x).
Proof.
  intros _ Hs. apply StronglySorted_inv in Hs as [_ Hb]. unfold charge, gkey, selects. cbn [vma_at].
  destruct (covers v x) eqn:Hc; [|by rewrite andb_false_r]. rewrite andb_true_r.
  assert (vma_at l x = None) as ->.
  { apply vma_at_None. eapply Forall_impl; [exact Hb|]. intros w Hw. cbn beta.
    destruct (covers w x) eqn:Hcw; [|done]. destruct (before_covers v w x Hw Hc Hcw). }
  cbn [at_kind at_flags vattr_of b2z]. destruct (kind v =? VMA_KIND_GENERIC); [|done]. cbn [andb]. lia.
Qed.

(** One area's part of the range. *)
Lemma add_overlap_spec s e v b :
  valid_area v → 0 <= s <= e → e < 2 ^ 32 → 0 <= b → b + tally (covers v) s e < 2 ^ 32 →
  add_overlap s e v b = inr (b + tally (covers v) s e).
Proof.
  intros (Hv0 & Hv1 & Hv2 & _) Hs He Hb Hlt. unfold covers in *. rewrite tally_interval in * by lia.
  unfold add_overlap, overlap_start, overlap_end.
  destruct (Z.leb_spec (end_ v) s), (Z.leb_spec e (start v)); cbn [orb]; try (f_equal; lia).
  assert ((if start v <? s then s else start v) = Z.max (start v) s) as -> by (destruct (Z.ltb_spec (start v) s); lia).
  assert ((if e <? end_ v then e else end_ v) = Z.min (end_ v) e) as -> by (destruct (Z.ltb_spec e (end_ v)); lia).
  destruct (Z.leb_spec (Z.min (end_ v) e) (Z.max (start v) s)); [f_equal; lia|].
  rewrite (u32_small (Z.min _ _ - _)) by (unfold is_u32; lia). unfold UINT32_MAX in *.
  destruct (Z.ltb_spec (0xFFFFFFFF - (Z.min (end_ v) e - Z.max (start v) s)) b); [lia|].
  rewrite u32_small by (unfold is_u32; lia). f_equal. lia.
Qed.

(** The loops over the table count the bytes charged in the range. *)
Lemma overlap_fold g s e l b :
  Forall valid_area l → StronglySorted before l → 0 <= s <= e → e < 2 ^ 32 → 0 <= b →
  b + tally (charge g l) s e < 2 ^ 32 →
  fold_exit (λ v b, if selects g v then add_overlap s e v b else inr b) b l = inr (b + tally (charge g l) s e).
Proof.
  intros Hv Hs Hse He. revert b Hv Hs. induction l as [|v l IH]; intros b Hv Hs Hb Hlt.
  { unfold fold_exit. cbn [foldl]. f_equal. change (charge g []) with (λ _ : Z, false). rewrite tally_false by lia. lia. }
  assert (tally (charge g (v :: l)) s e = tally (λ x, selects g v && covers v x) s e + tally (charge g l) s e) as Et.
  { apply tally_add; [lia|]. intros x _. by apply charge_cons. }
  pose proof Hv as [Hv1 Hv2]%Forall_cons. pose proof Hs as [Hs2 _]%StronglySorted_inv.
  pose proof (tally_nonneg (charge g l) s e). pose proof (tally_nonneg (λ x, selects g v && covers v x) s e).
  rewrite fold_exit_cons. destruct (selects g v) eqn:Esel; cbn [andb] in *.
  - rewrite add_overlap_spec; [|done|done|done|done|rewrite (tally_ext (covers v) (λ x, covers v x)); [lia|lia|done]].
    change (tally (λ x, covers v x) s e) with (tally (covers v) s e) in *. rewrite IH; try done; [f_equal; lia|lia|lia].
  - pose proof (tally_false s e ltac:(lia)). rewrite IH; try done; [f_equal; lia|lia].
Qed.

Lemma overlap_loop p g s e :
  vma_inv p → 0 <= s <= e → e < 2 ^ 32 →
  loop_value (for_exit 0 (Z.to_nat (vma_count p))
    (λ i b, if selects g (vma_table p).[i] then add_overlap s e (vma_table p).[i] b else inr b) 0) =
  tally (charge g (live p)) s e.
Proof.
  intros Hi Hs He. pose proof (vi_len _ Hi). pose proof (vi_count _ Hi).
  assert (for_exit 0 (Z.to_nat (vma_count p))
      (λ i b, if selects g (vma_table p).[i] then add_overlap s e (vma_table p).[i] b else inr b) 0 =
    fold_exit (λ v b, if selects g v then add_overlap s e v b else inr b) 0 (live p)) as ->.
  { exact (for_exit_fold (vma_table p) (λ v b, if selects g v then add_overlap s e v b else inr b)
      (Z.to_nat (vma_count p)) 0 ltac:(lia)). }
  pose proof (tally_bound (charge g (live p)) s e ltac:(lia)).
  rewrite overlap_fold; [cbn [loop_value]; lia|apply Hi|apply Hi|done|done|done|lia].
Qed.

Lemma munmap_bytes_spec p s e :
  vma_inv p → 0 <= s → e < 2 ^ 32 → s < e →
  syscall_committed_munmap_bytes p s e = tally (charge charged (live p)) s e.
Proof.
  intros Hi Hs He Hlt. unfold syscall_committed_munmap_bytes. destruct (Z.leb_spec e s); [lia|].
  rewrite <-overlap_loop by (done || lia). f_equal. apply for_exit_ext. intros i b. unfold munmap_bytes_step.
  change (syscall_vma_requires_commit (vma_table p).[i]) with
    ((kind (vma_table p).[i] =? VMA_KIND_GENERIC) && anon_flags (flags (vma_table p).[i]) && has (flags (vma_table p).[i]) VMA_FLAG_WRITE).
  rewrite <-andb_assoc. change (_ && _) with (selects charged (vma_table p).[i]). by destruct (selects charged _).
Qed.

(** Reserving counts what becomes charged, releasing what was. *)
Lemma transition_bytes_spec p s e fl reserve :
  vma_inv p → 0 <= s → e < 2 ^ 32 → s < e →
  syscall_mprotect_transition_bytes p s e fl reserve =
    if Bool.eqb (has fl VMA_FLAG_WRITE) reserve
    then tally (charge (if reserve then uncharged else charged) (live p)) s e else 0.
Proof.
  intros Hi Hs He Hlt. unfold syscall_mprotect_transition_bytes. destruct (Z.leb_spec e s); [lia|].
  set (w := has fl VMA_FLAG_WRITE).
  transitivity (loop_value (for_exit 0 (Z.to_nat (vma_count p))
    (λ i b, if selects (λ f, Bool.eqb w reserve && (if reserve then uncharged else charged) f) (vma_table p).[i]
            then add_overlap s e (vma_table p).[i] b else inr b) 0)).
  { f_equal. apply for_exit_ext. intros i b. unfold transition_step. fold w. unfold selects, syscall_vma_is_committable, uncharged, charged.
    cbn beta. change (vma_private_anon (vma_table p).[i]) with (anon_flags (flags (vma_table p).[i])).
    destruct (kind _ =? _); cbn [andb negb]; [|done].
    destruct w, reserve; cbn; destruct (anon_flags _), (has (flags _) VMA_FLAG_WRITE); done. }
  rewrite overlap_loop by (done || lia). destruct (Bool.eqb w reserve) eqn:E.
  - apply tally_ext; [lia|]. intros x _. unfold charge. by destruct (gkey _ _).
  - rewrite (tally_ext _ (λ _, false)); [by apply tally_false; lia|lia|]. intros x _. unfold charge. by destruct (gkey _ _).
Qed.

(** ** The committed count of a process *)

(** Nothing but the area table changed. *)
Record keeps (p p' : process) : Prop := {
  kp_brk : vma_brk p' = vma_brk p;
  kp_committed : committed p' = committed p;
}.

#[global] Instance keeps_preorder : PreOrder keeps.
Proof. split; [done|]. intros p1 p2 p3 [] []. split; congruence. Qed.

Lemma set_table_keeps p t n : keeps p (set_table p t n).
Proof. unfold set_table. split; unfold vma_brk, committed; by destruct (as_ p) as [a|]; cbn. Qed.

Lemma set_committed_same p c : live (set_committed p c) = live p ∧ vma_brk (set_committed p c) = vma_brk p ∧
  vma_table (set_committed p c) = vma_table p ∧ vma_count (set_committed p c) = vma_count p ∧
  vma_capacity (set_committed p c) = vma_capacity p ∧ VmaSpec.own (set_committed p c) = VmaSpec.own p.
Proof. unfold set_committed, live, vma_brk, vma_table, vma_count, vma_capacity, VmaSpec.own. by destruct p as [[a|] ? ? ? ?], c. Qed.

Lemma set_committed_inv p c : vma_inv p → vma_inv (set_committed p c).
Proof.
  intros [H1 H2 H3 H4 H5 H6]. destruct (set_committed_same p c) as (El & _ & Et & En & Ec & _).
  split; rewrite ?Et, ?Ec, ?En, ?El; try done. unfold set_committed. by destruct p as [[a|] ? ? ? ?], c.
Qed.

Lemma set_committed_self p n : committed p = Some n → set_committed p (Some n) = p.
Proof. unfold committed, set_committed. destruct p as [[[]|] ? ? ? ?]; cbn; intros [= ->]; done || by intros. Qed.

Lemma set_committed_get p n m : committed p = Some n → committed (set_committed p (Some m)) = Some m.
Proof. unfold committed, set_committed. by destruct (as_ p). Qed.

Lemma set_committed_twice p n m : set_committed (set_committed p (Some n)) (Some m) = set_committed p (Some m).
Proof. unfold set_committed. by destruct p as [[[]|] ? ? ? ?]. Qed.

Section heap.
Context {Hp : Type} {KA : KAllocator Hp}.
Implicit Types (h : Hp) (p : process).

Lemma ensure_keeps h p n : keeps p (vma_ensure_capacity h p n).2.
Proof.
  unfold vma_ensure_capacity. destruct (as_ p) as [a|] eqn:E; [|done]. destruct (_ <=? _); [done|].
  destruct (grow_capacity _ _ _) as [[c|[]]|]; [|done..]. destruct (ka_malloc _ _) as [ptr h1]. destruct (_ =? 0); [done|].
  split; unfold vma_brk, committed; by rewrite E.
Qed.

Lemma insert_keeps h p a : keeps p (vma_insert_area h p a).2.
Proof.
  unfold vma_insert_area. destruct (_ <? _); [done|]. pose proof (ensure_keeps h p (vma_count p +u 1)) as He.
  destruct (vma_ensure_capacity _ _ _) as [[rc h1] p1]. cbn [snd] in He. destruct (negb _); [done|].
  destruct (vma_insert_scan _ _ _) as [?|k]; [done|]. destruct (_ && _); [done|]. cbn [snd]. etrans; [exact He|].
  etrans; [apply set_table_keeps|]. unfold vma_coalesce. destruct (for_loop _ _ _ _) as [t n]. apply set_table_keeps.
Qed.

Lemma install_keeps h p c ptr r : keeps p (install_rebuilt h p c ptr r).2.
Proof. apply set_table_keeps. Qed.

Lemma unmap_keeps h p s e : keeps p (vma_unmap_range h p s e).2.
Proof.
  unfold vma_unmap_range. destruct (_ <=? _); [done|]. destruct (for_exit _ _ _ _) as [?|n]; [done|].
  pose proof (ensure_keeps h p n) as He. destruct (vma_ensure_capacity _ _ _) as [[rc h1] p1]. cbn [snd] in He.
  destruct (negb _); [done|]. destruct (ka_malloc _ _) as [ptr h2]. destruct (_ =? 0); [done|].
  destruct (for_exit _ _ _ _) as [?|r]; [done|]. etrans; [exact He|]. apply install_keeps.
Qed.

Lemma protect_keeps h p s e fl : keeps p (vma_protect_range h p s e fl).2.
Proof.
  unfold vma_protect_range. destruct (_ <=? _); [done|]. destruct (for_exit _ _ _ _) as [?|[n c]]; [done|].
  destruct (negb _); [done|].
  pose proof (ensure_keeps h p n) as He. destruct (vma_ensure_capacity _ _ _) as [[rc h1] p1]. cbn [snd] in He.
  destruct (negb _); [done|]. destruct (ka_malloc _ _) as [ptr h2]. destruct (_ =? 0); [done|].
  destruct (for_exit _ _ _ _) as [?|[r c']]; [done|]. etrans; [exact He|]. apply install_keeps.
Qed.

Lemma map_anonymous_keeps h p hint len fl : keeps p (vma_map_anonymous h p hint len fl).2.
Proof.
  unfold vma_map_anonymous. destruct (vma_find_topdown_gap _ _ _) as [s|]; [|done].
  unfold vma_add. set (a := mk_vma _ _ _ _ _ _ _). pose proof (insert_keeps h p a) as Hk.
  destruct (vma_insert_area h p a) as [[rc h1] p1]. by destruct (negb _).
Qed.
End heap.

Section ops.
Context {S : Type} `{PageAllocator S} {Hp : Type} {KA : KAllocator Hp}.
Implicit Types (st : mm S Hp) (p : process).

Definition with_commit st (n : Z) : mm S Hp := with_proc st (set_committed (mm_proc st) (Some n)).

Lemma commit_reserve_ok st bytes n :
  committed (mm_proc st) = Some n → is_u32 n → is_u32 bytes →
  let '(rc, st') := commit_reserve st bytes in
  rc = 0 ∧ (∃ k, vm_commit_pages_for_bytes bytes = Some k ∧ st' = with_commit st (n + k) ∧ is_u32 (n + k) ∧
    (k = 0 ∨ n + k <= pa_free_count (vm_pmm (mm_vm st)))) ∨
  rc = -1 ∧ st' = st.
Proof.
  intros Hc Hn Hb. unfold commit_reserve. rewrite Hc. unfold vm_commit_reserve.
  assert (with_proc st (set_committed (mm_proc st) (Some n)) = st) as Eself.
  { rewrite set_committed_self by done. by destruct st. }
  destruct (vm_commit_pages_for_bytes bytes) as [k|] eqn:Ek; [|right; by rewrite Eself].
  destruct (pages_for_bytes_spec bytes k Hb Ek) as [_ Hk].
  destruct (Z.eqb_spec k 0) as [->|].
  { left. split; [done|]. exists 0. rewrite Z.add_0_r. split; [done|]. split; [done|]. split; [done|by left]. }
  destruct (Z.ltb_spec (UINT32_MAX - k) n); [right; by rewrite Eself|].
  assert (is_u32 (n + k)) as Hu by (unfold is_u32, UINT32_MAX in *; lia).
  rewrite (u32_small (n + k)) by done. destruct (Z.ltb_spec (pa_free_count (vm_pmm (mm_vm st))) (n + k)); [right; by rewrite Eself|].
  left. split; [done|]. exists k. auto.
Qed.

Lemma commit_release_ok st bytes n k :
  committed (mm_proc st) = Some n → is_u32 n → is_u32 bytes → vm_commit_pages_for_bytes bytes = Some k → k <= n →
  commit_release st bytes = with_commit st (n - k).
Proof.
  intros Hc Hn Hb Ek Hle. destruct (pages_for_bytes_spec bytes k Hb Ek) as [_ Hk].
  unfold commit_release. rewrite Hc. unfold vm_commit_release. rewrite Ek. destruct (Z.ltb_spec n k); [lia|].
  by rewrite u32_small by (unfold is_u32 in *; lia).
Qed.

(** Whole pages. *)
Lemma whole_pages k : 0 <= k < 2 ^ 20 → is_u32 (4096 * k) ∧ vm_commit_pages_for_bytes (4096 * k) = Some k.
Proof.
  intros Hk. assert (is_u32 (4096 * k)) as Hb by (unfold is_u32; lia). split; [done|].
  unfold vm_commit_pages_for_bytes, UINT32_MAX, PAGE_SIZE. destruct (Z.eqb_spec (4096 * k) 0); [f_equal; lia|].
  destruct (Z.ltb_spec (0xFFFFFFFF - (4096 - 1)) (4096 * k)); [lia|]. f_equal.
  destruct (decide (k = 2 ^ 20 - 1)) as [->|]; [done|].
  rewrite (u32_small (4096 * k + 4096)), u32_small by (unfold is_u32; lia). Z.div_mod_to_equations; lia.
Qed.

(** ** The balance of a process *)

Definition charged_pages (l : list vm_area) : Z := tally_pages (charge charged l) 0 (2 ^ 20).
Definition heap_pages p : Z := vm_page_align_up (vma_brk p) / 4096.

(** Generic areas cover whole pages, and the committed pages are the writable
    anonymous ones and those of the heap, [base] being the heap's first page. *)
Record balanced_commit (base : Z) p : Prop := {
  bc_uniform : uniform (gkey (live p));
  bc_count : ∃ n, committed p = Some n ∧ is_u32 n ∧ n + base = charged_pages (live p) + heap_pages p;
  bc_base : 0 <= base <= heap_pages p;
}.

Lemma charge_uniform g l : uniform (gkey l) → uniform (charge g l).
Proof. intros Hu x y E. unfold charge. by rewrite (Hu x y E). Qed.

Lemma charged_pages_bytes l : uniform (gkey l) → tally (charge charged l) 0 (2 ^ 32) = 4096 * charged_pages l.
Proof.
  intros Hu. change 0 with (4096 * 0) at 1. change (2 ^ 32) with (4096 * 2 ^ 20). apply tally_by_pages; [by apply charge_uniform|done].
Qed.

Lemma charged_pages_range l : 0 <= charged_pages l <= 2 ^ 20.
Proof. unfold charged_pages, tally_pages. split; [apply tally_nonneg|]. apply (tally_bound _ 0 (2 ^ 20)). done. Qed.

(** Aligned ranges are whole pages. *)
Lemma range_pages g l s e :
  uniform (gkey l) → 0 <= s → s mod 4096 = 0 → e mod 4096 = 0 → s < e → e < 2 ^ 32 →
  ∃ k, tally (charge g l) s e = 4096 * k ∧ 0 <= k < 2 ^ 20.
Proof.
  intros Hu Hs Has Hae Hlt He. exists (tally_pages (charge g l) (s / 4096) (e / 4096)).
  assert (s = 4096 * (s / 4096)) as Es by (Z.div_mod_to_equations; lia).
  assert (e = 4096 * (e / 4096)) as Ee by (Z.div_mod_to_equations; lia). split.
  - rewrite Es at 1. rewrite Ee at 1. apply tally_by_pages; [by apply charge_uniform|lia].
  - unfold tally_pages. split; [apply tally_nonneg|].
    pose proof (tally_bound (λ q, charge g l (4096 * q)) (s / 4096) (e / 4096) ltac:(lia)). lia.
Qed.

(** An aligned range does not cut pages. *)
Lemma in_range_uniform s e : s mod 4096 = 0 → e mod 4096 = 0 → uniform (λ x, (s <=? x) && (x <? e)).
Proof.
  intros Hs He x y E. f_equal; apply eq_true_iff_eq; rewrite ?Z.leb_le, ?Z.ltb_lt; Z.div_mod_to_equations; lia.
Qed.

(** ** The operations on the area table *)

Lemma unmapped_gkey l l' s e :
  (∀ x, vma_at l' x = if (s <=? x) && (x <? e) then None else vma_at l x) →
  s mod 4096 = 0 → e mod 4096 = 0 → 0 <= s <= e → e < 2 ^ 32 → uniform (gkey l) →
  uniform (gkey l') ∧ 4096 * charged_pages l = 4096 * charged_pages l' + tally (charge charged l) s e.
Proof.
  intros Hat Hs He Hse Hlt Hu.
  assert (∀ x, gkey l' x = if (s <=? x) && (x <? e) then None else gkey l x) as Hk.
  { intros x. unfold gkey. rewrite Hat. by destruct (_ && _). }
  assert (uniform (gkey l')) as Hu'.
  { intros x y E. rewrite !Hk, (in_range_uniform s e Hs He x y E), (Hu x y E). done. }
  split; [done|]. rewrite <-!charged_pages_bytes by done.
  rewrite (tally_split (charge charged l) 0 s), (tally_split (charge charged l) s e) by lia.
  rewrite (tally_split (charge charged l') 0 s), (tally_split (charge charged l') s e) by lia.
  rewrite (tally_ext (charge charged l') (charge charged l) 0 s), (tally_ext (charge charged l') (λ _, false) s e),
    (tally_ext (charge charged l') (charge charged l) e (2 ^ 32)), tally_false; try lia;
    intros x Hx; unfold charge; rewrite Hk; destruct (Z.leb_spec s x), (Z.ltb_spec x e); cbn [andb]; done || lia.
Qed.

Lemma replace_prot_mask f new m :
  Z.land (vma_replace_prot_flags f new) m = Z.lor (Z.land f (Z.land (not32 VMA_PROT_FLAGS) m)) (Z.land new (Z.land VMA_PROT_FLAGS m)).
Proof. unfold vma_replace_prot_flags. by rewrite Z.land_lor_distr_l, <-!Z.land_assoc. Qed.

Lemma has_write_replace f new : has (vma_replace_prot_flags f new) VMA_FLAG_WRITE = has new VMA_FLAG_WRITE.
Proof. unfold has. rewrite replace_prot_mask. change (Z.land (not32 _) _) with 0. by rewrite Z.land_0_r. Qed.

Lemma anon_replace f new : anon_flags (vma_replace_prot_flags f new) = anon_flags f.
Proof.
  unfold anon_flags. rewrite replace_prot_mask. change (Z.land VMA_PROT_FLAGS _) with 0. by rewrite Z.land_0_r, Z.lor_0_r.
Qed.

(** Changing the protection of a range charges it when it becomes writable and
    uncharges it when it stops being so. *)
Lemma protected_gkey l l' s e fl :
  (∀ x, vma_at l' x = if (s <=? x) && (x <? e) then protect_attr fl <$> vma_at l x else vma_at l x) →
  s mod 4096 = 0 → e mod 4096 = 0 → 0 <= s <= e → e < 2 ^ 32 → uniform (gkey l) →
  uniform (gkey l') ∧
  4096 * charged_pages l' = 4096 * charged_pages l +
    (if has fl VMA_FLAG_WRITE then tally (charge uncharged l) s e else - tally (charge charged l) s e).
Proof.
  intros Hat Hs He Hse Hlt Hu.
  assert (∀ x, gkey l' x = if (s <=? x) && (x <? e) then (λ f, vma_replace_prot_flags f fl) <$> gkey l x else gkey l x) as Hk.
  { intros x. unfold gkey. rewrite Hat. destruct (_ && _); [|done]. destruct (vma_at l x) as [a|]; [|done]. cbn.
    by destruct (at_kind a =? VMA_KIND_GENERIC). }
  assert (uniform (gkey l')) as Hu'.
  { intros x y E. by rewrite !Hk, (in_range_uniform s e Hs He x y E), (Hu x y E). }
  split; [done|]. rewrite <-!charged_pages_bytes by done.
  rewrite (tally_split (charge charged l) 0 s), (tally_split (charge charged l) s e) by lia.
  rewrite (tally_split (charge charged l') 0 s), (tally_split (charge charged l') s e) by lia.
  rewrite (tally_ext (charge charged l') (charge charged l) 0 s), (tally_ext (charge charged l') (charge charged l) e (2 ^ 32));
    try lia; try (intros x Hx; unfold charge; rewrite Hk; destruct (Z.leb_spec s x), (Z.ltb_spec x e); cbn [andb]; done || lia).
  assert (∀ x, s <= x < e → charge charged l' x = match gkey l x with Some f => anon_flags f && has fl VMA_FLAG_WRITE | None => false end) as Hin.
  { intros x Hx. unfold charge. rewrite Hk. destruct (Z.leb_spec s x), (Z.ltb_spec x e); try lia. cbn [andb].
    destruct (gkey l x) as [f|]; [|done]. cbn. unfold charged. by rewrite anon_replace, has_write_replace. }
  destruct (has fl VMA_FLAG_WRITE).
  - rewrite (tally_add (charge charged l') (charge charged l) (charge uncharged l) s e); [lia|lia|].
    intros x Hx. rewrite Hin by done. unfold charge. destruct (gkey l x) as [f|]; [|done]. unfold charged, uncharged.
    by destruct (anon_flags f), (has f VMA_FLAG_WRITE).
  - rewrite (tally_ext (charge charged l') (λ _, false) s e), tally_false; [lia|lia|lia|].
    intros x Hx. rewrite Hin by done. destruct (gkey l x); [|done]. apply andb_false_r.
Qed.

(** A new area of anonymous memory charges its bytes when it is writable. *)
Lemma gained_gkey p p' s len fl :
  gains p p' (mk_vma s (s + len) fl VMA_KIND_GENERIC 0 0 (mk_ref 0 0)) →
  s mod 4096 = 0 → len mod 4096 = 0 → 0 <= s → 0 <= len → s + len < 2 ^ 32 → anon_flags fl = true → uniform (gkey (live p)) →
  uniform (gkey (live p')) ∧
  4096 * charged_pages (live p') = 4096 * charged_pages (live p) + (if has fl VMA_FLAG_WRITE then len else 0).
Proof.
  intros [Hfree Hat] Hs Hl Hs0 Hl0 Hlt Hfl Hu. set (a := mk_vma _ _ _ _ _ _ _) in *. unfold covers in *. cbn [start end_ a] in *.
  assert (∀ x, gkey (live p') x = if (s <=? x) && (x <? s + len) then Some fl else gkey (live p) x) as Hk.
  { intros x. unfold gkey. rewrite Hat. by destruct (_ && _). }
  assert ((s + len) mod 4096 = 0) as He by (Z.div_mod_to_equations; lia).
  assert (uniform (gkey (live p'))) as Hu'.
  { intros x y E. by rewrite !Hk, (in_range_uniform s (s + len) Hs He x y E), (Hu x y E). }
  split; [done|]. rewrite <-!charged_pages_bytes by done.
  rewrite (tally_add (charge charged (live p')) (charge charged (live p))
    (λ x, has fl VMA_FLAG_WRITE && ((s <=? x) && (x <? s + len))) 0 (2 ^ 32)); [|lia|].
  - f_equal. destruct (has fl VMA_FLAG_WRITE); cbn [andb]; [|by apply tally_false].
    rewrite (tally_interval s (s + len)) by lia. lia.
  - intros x Hx. unfold charge. rewrite Hk. destruct ((s <=? x) && (x <? s + len)) eqn:E.
    + assert (gkey (live p) x = None) as -> by (unfold gkey; by rewrite Hfree).
      unfold charged. rewrite Hfl, andb_true_r. cbn. lia.
    + rewrite andb_false_r. cbn. lia.
Qed.
End ops.
