(* ===== verification/MmsysPages.v ===== *)
(** * Memory system calls: the page loops

    A loop over the pages of a range, page by page: what it does to the entries
    of the range, to the rest of every address space and to the bytes of the
    pages that stay.  Unmapping and protecting are two instances. *)

From S2P Require Import Prelude Interfaces Memory Kstring Vma Paging PagingSpec PagingInv PagingSteps PagingOps PagingSpaces PagingClone PagingFork Fault FaultSpec FaultOps PagingProps Mmsys.

#[local] Opaque for_loop for_exit zero_table copy_table.

Section pages.
Context {S : Type} `{PageAllocator S} (inv : S → Prop) (managed : S → Z → Prop).
Context `{!PageAllocatorLaws S inv managed}.
Implicit Types (σ : vm S) (D : list Z) (T : list (Z * Z)) (K : gset Z) (ext : Z → Z) (m : mem).
Notation vm_ok := (vm_ok inv managed).
Notation entry_set := (entry_set inv managed).

Context (D : list Z) (T : list (Z * Z)) (K : gset Z) (ext : Z → Z) (pd : Z).
Context (HT : ∀ i, ix i → (pd, i) ∈ T).
(** How a page's entry may change. *)
Context (P : option Z → option Z → Prop).

(** A user page that stays stays what it was. *)
Definition stays (w w' : option Z) : Prop :=
  ∀ e', w' = Some e' → user e' = true →
    ∃ e, w = Some e ∧ user e = true ∧ io e = io e' ∧ paging_entry_addr e = paging_entry_addr e'.

Record page_changed σ σ' (q : Z) : Prop := {
  pc_ok : vm_ok σ' D T K ext;
  pc_out : ∀ pd' i k, (pd', i) ∈ T → ix k → (pd', i, k) ≠ (pd, pd_index q, pt_index q) →
    walk (vm_mem σ') pd' i k = walk (vm_mem σ) pd' i k;
  pc_in : P (walk_at (vm_mem σ) pd q) (walk_at (vm_mem σ') pd q);
  pc_data : data_same (vm_mem σ) (vm_mem σ') D T K ext;
  pc_stays : stays (walk_at (vm_mem σ) pd q) (walk_at (vm_mem σ') pd q);
}.

Record range_changed σ σ' (s e : Z) : Prop := {
  rc_ok : vm_ok σ' D T K ext;
  rc_in : ∀ v, is_u32 v → s <= v < e → P (walk_at (vm_mem σ) pd v) (walk_at (vm_mem σ') pd v);
  rc_out : ∀ pd' v, is_u32 v → (pd', pd_index v) ∈ T → pd' ≠ pd ∨ ¬ s <= v < e →
    walk_at (vm_mem σ') pd' v = walk_at (vm_mem σ) pd' v;
  rc_stays : ∀ pd' v, is_u32 v → (pd', pd_index v) ∈ T → stays (walk_at (vm_mem σ) pd' v) (walk_at (vm_mem σ') pd' v);
  rc_bytes : ∀ pd' v e', is_u32 v → (pd', pd_index v) ∈ T → walk_at (vm_mem σ') pd' v = Some e' → user e' = true → io e' = false →
    mem_get (vm_mem σ') (kv (paging_entry_addr e') + v mod 4096) = mem_get (vm_mem σ) (kv (paging_entry_addr e') + v mod 4096);
}.

Lemma stays_refl w : stays w w.
Proof. intros e ? ?. by exists e. Qed.

Lemma stays_trans w1 w2 w3 : stays w1 w2 → stays w2 w3 → stays w1 w3.
Proof.
  intros S1 S2 e3 E3 H3. destruct (S2 e3 E3 H3) as (e2 & E2 & U2 & I2 & A2). destruct (S1 e2 E2 U2) as (e1 & E1 & U1 & I1 & A1).
  exists e1. split; [done|]. split; [done|]. split; congruence.
Qed.

Lemma range_none σ s : vm_ok σ D T K ext → range_changed σ σ s s.
Proof. intros OK. split; [done|lia|done| |done]. intros. apply stays_refl. Qed.

(** One more page. *)
Lemma range_next σ σ1 σ2 s q :
  is_u32 q → s mod 4096 = 0 → q mod 4096 = 0 → s <= q →
  range_changed σ σ1 s q → page_changed σ1 σ2 q → range_changed σ σ2 s (q + 4096).
Proof.
  intros Hq Has Haq Hsq [OK1 In1 Out1 St1 By1] [OK2 Out2 In2 Data2 St2].
  assert (∀ v, is_u32 v → q <= v < q + 4096 → pd_index v = pd_index q ∧ pt_index v = pt_index q) as Hpage.
  { intros v Hv Hr. apply same_page_index. Z.div_mod_to_equations; lia. }
  assert (∀ v, is_u32 v → pd_index v = pd_index q → pt_index v = pt_index q → q <= v < q + 4096) as Hback.
  { intros v Hv E1 E2. pose proof (index_page v q Hv Hq E1 E2). Z.div_mod_to_equations; lia. }
  assert (∀ pd' v, is_u32 v → (pd', pd_index v) ∈ T → pd' ≠ pd ∨ ¬ q <= v < q + 4096 →
    walk_at (vm_mem σ2) pd' v = walk_at (vm_mem σ1) pd' v) as Hsame.
  { intros pd' v Hv Ht Hne. destruct (index_ranges v Hv) as [_ Hj]. apply Out2; [done|done|]. intros [= -> E1 E2].
    specialize (Hback v Hv E1 E2). lia. }
  assert (∀ v, is_u32 v → q <= v < q + 4096 → walk_at (vm_mem σ1) pd v = walk_at (vm_mem σ1) pd q ∧
    walk_at (vm_mem σ2) pd v = walk_at (vm_mem σ2) pd q) as Hat.
  { intros v Hv Hr. destruct (Hpage v Hv Hr) as [E1 E2]. unfold walk_at. by rewrite E1, E2. }
  assert (∀ pd' v, is_u32 v → (pd', pd_index v) ∈ T → stays (walk_at (vm_mem σ1) pd' v) (walk_at (vm_mem σ2) pd' v)) as Hst.
  { intros pd' v Hv Ht. destruct (decide (pd' = pd ∧ q <= v < q + 4096)) as [[-> Hr]|Hn].
    - destruct (Hat v Hv Hr) as [-> ->]. done.
    - rewrite Hsame by (done || (destruct (decide (pd' = pd)); [right; intros ?; by apply Hn|by left])). apply stays_refl. }
  split; [done| | | |].
  - intros v Hv Hr. destruct (decide (v < q)).
    + rewrite Hsame; [apply In1; [done|lia]|done|apply HT, index_ranges, Hv|right; lia].
    + destruct (Hat v Hv ltac:(lia)) as [E1 E2].
      assert (walk_at (vm_mem σ) pd v = walk_at (vm_mem σ1) pd q) as ->; [|by rewrite E2].
      rewrite <-E1. symmetry. apply Out1; [done|apply HT, index_ranges, Hv|right; lia].
  - intros pd' v Hv Ht Hn. rewrite Hsame, Out1; try done; destruct Hn; [by left|right; lia|by left|right; lia].
  - intros pd' v Hv Ht. by eapply stays_trans; [apply St1|apply Hst].
  - intros pd' v e2 Hv Ht Hw2 Hu2 Hio2. destruct (Hst pd' v Hv Ht e2 Hw2 Hu2) as (e1 & Hw1 & Hu1 & Hio1 & <-).
    assert (io e1 = false) as Hi1 by congruence.
    rewrite (mapped_load inv managed σ1 σ2 D T K ext pd' v e1 OK1 Data2 Hv Ht); [by apply (By1 pd')| |done|done].
    intros e Hw. congruence.
Qed.

(** The loop over whole pages. *)
Lemma range_loop step σ s e :
  vm_ok σ D T K ext → 0 <= s → s mod 4096 = 0 → e mod 4096 = 0 → s < e → e <= 2 ^ 32 →
  (∀ σ1 q, is_u32 q → q mod 4096 = 0 → s <= q < e → range_changed σ σ1 s q → page_changed σ1 (step q σ1) q) →
  range_changed σ (for_loop 0 (page_count s e) (λ k, step (s + 0x1000 * k)) σ) s e.
Proof.
  intros OK Hs Has Hae Hlt He Hstep.
  assert (Z.of_nat (page_count s e) = (e - s) / 4096 ∧ (e - s) mod 4096 = 0) as [Hn Hm].
  { unfold page_count. Z.div_mod_to_equations; lia. }
  pose proof (for_loop_inv (λ k σ1, range_changed σ σ1 s (s + 0x1000 * k)) (λ k, step (s + 0x1000 * k)) 0 (page_count s e) σ) as Hinv.
  replace e with (s + 0x1000 * (0 + Z.of_nat (page_count s e))) at 2 by (rewrite Hn; Z.div_mod_to_equations; lia).
  apply Hinv; [|rewrite Z.mul_0_r, Z.add_0_r; by apply range_none].
  intros k σ1 Hk IH. replace (s + 0x1000 * (k + 1)) with (s + 0x1000 * k + 4096) by lia.
  assert (s <= s + 0x1000 * k < e) by (Z.div_mod_to_equations; lia).
  assert (is_u32 (s + 0x1000 * k)) by (unfold is_u32; lia).
  assert ((s + 0x1000 * k) mod 4096 = 0) by (Z.div_mod_to_equations; lia).
  apply (range_next σ σ1); try done; [lia|]. apply Hstep; done || lia.
Qed.

(** An entry set at one page is a page changed. *)
Lemma entry_page_changed σ σ' q w e :
  vm_ok σ D T K ext → is_u32 q → walk_at (vm_mem σ) pd q = Some w → entry_set σ σ' D T K ext ext pd (pd_index q) (pt_index q) e →
  let new := if present e then Some e else None in P (Some w) new → stays (Some w) new → page_changed σ σ' q.
Proof.
  intros OK Hq Hw [OK' Hwalk Hdata _] new HP Hst. destruct (index_ranges q Hq) as [Hi Hj].
  assert (walk_at (vm_mem σ') pd q = new) as Hnew.
  { unfold walk_at. rewrite Hwalk by auto. by rewrite decide_True. }
  split; rewrite ?Hw, ?Hnew; try done. intros pd' i k Ht Hk Hne. rewrite Hwalk by done. by rewrite decide_False.
Qed.

Lemma same_page_changed σ q : vm_ok σ D T K ext → P (walk_at (vm_mem σ) pd q) (walk_at (vm_mem σ) pd q) → page_changed σ σ q.
Proof. intros OK HP. split; try done. apply stays_refl. Qed.

(** What the rest of the system reads is unchanged. *)
Lemma range_load σ σ' s e pd' v :
  range_changed σ σ' s e → is_u32 v → (pd', pd_index v) ∈ T → no_device (vm_mem σ) pd' v → pd' ≠ pd ∨ ¬ s <= v < e →
  user_load (vm_mem σ') pd' v = user_load (vm_mem σ) pd' v.
Proof.
  intros [OK In Out St By] Hv Ht Hd Hn. unfold user_load. pose proof (Out pd' v Hv Ht Hn) as Ew. rewrite Ew.
  destruct (walk_at (vm_mem σ) pd' v) as [w|] eqn:E; [|done]. destruct (user w) eqn:Hu; [|done]. f_equal.
  apply (By pd'); [done|done|by rewrite Ew|done|by apply Hd].
Qed.
End pages.

Lemma page_at i k : ix i → ix k → ∃ v, is_u32 v ∧ pd_index v = i ∧ pt_index v = k.
Proof.
  unfold ix. intros Hi Hk. exists ((i * 1024 + k) * 4096). unfold pd_index, pt_index. change 0x3FF with (Z.ones 10).
  rewrite !Z.land_ones, !Z.shiftr_div_pow2 by lia. change (2 ^ 22) with 4194304. change (2 ^ 12) with 4096. change (2 ^ 10) with 1024.
  unfold is_u32. split; [lia|]. split; Z.div_mod_to_equations; lia.
Qed.

(** ** The two loops *)

Section loops.
Context {S : Type} `{PageAllocator S} (inv : S → Prop) (managed : S → Z → Prop).
Context `{!PageAllocatorLaws S inv managed}.
Implicit Types (σ : vm S) (m : mem).
Notation vm_ok := (vm_ok inv managed).
Context (D : list Z) (T : list (Z * Z)) (K : gset Z) (ext : Z → Z) (pd : Z).
Context (HT : ∀ i, ix i → (pd, i) ∈ T).

(** Unmapping removes the user's entries. *)
Definition no_user (w w' : option Z) : Prop :=
  w' = match w with Some e => if user e then None else w | None => None end.

Lemma unmap_page_changed σ q :
  vm_ok σ D T K ext → is_u32 q → page_changed inv managed D T K ext pd no_user σ (unmap_user_page pd q σ) q.
Proof.
  intros OK Hq. destruct (index_ranges q Hq) as [Hi Hj]. pose proof (HT _ Hi) as Ht. unfold unmap_user_page.
  erewrite query_eq by done. destruct (walk (vm_mem σ) pd (pd_index q) (pt_index q)) as [w|] eqn:Ew; cbn [fmap option_fmap option_map].
  - destruct (entry_mapping_has w) as (_ & -> & _). destruct (user w) eqn:Hu; cbn [negb].
    + unfold arch_mm_unmap. destruct (paging_unmap_page σ pd q) as [r σ'] eqn:E.
      destruct (unmap_page_spec _ _ _ _ _ _ _ _ _ _ _ _ OK Hq Ht Ew Hu E) as [_ Hset].
      apply (entry_page_changed inv managed D T K ext pd HT no_user σ σ' q w 0); try done. unfold no_user. by rewrite Hu.
    + apply same_page_changed; [done|]. unfold no_user, walk_at. by rewrite Ew, Hu.
  - apply same_page_changed; [done|]. unfold no_user, walk_at. by rewrite Ew.
Qed.

Lemma unmap_range_ok σ s e :
  vm_ok σ D T K ext → 0 <= s → s mod 4096 = 0 → e mod 4096 = 0 → s < e → e <= 2 ^ 32 →
  range_changed inv managed D T K ext pd no_user σ (syscall_unmap_user_range pd s e σ) s e.
Proof.
  intros OK Hs Has Hae Hlt He. unfold syscall_unmap_user_range. destruct (Z.leb_spec e s); [lia|].
  apply range_loop; try done. intros σ1 q Hq _ _ [OK1 _ _ _ _]. by apply unmap_page_changed.
Qed.

(** Protecting sets the write bit of the user's pages, but for those that are
    copied on write, and nothing else of the entries. *)
Definition reprotected (prot : Z) (w w' : option Z) : Prop :=
  match w, w' with
  | Some e, Some e' =>
      paging_entry_addr e' = paging_entry_addr e ∧ user e' = user e ∧ io e' = io e ∧ shared e' = shared e ∧ cow e' = cow e ∧
      writable e' = has prot LINUX_PROT_WRITE && negb (cow e)
  | None, None => True
  | _, _ => False
  end.

(** Ordinary pages of the user, of which those that are read-only for good have
    no other mapping. *)
Definition protectable σ (v : Z) : Prop :=
  ∀ e, walk_at (vm_mem σ) pd v = Some e →
    user e = true ∧ io e = false ∧
    (writable e = false → cow e = false → shared e = false → owners (vm_mem σ) D T (paging_entry_addr e) = 1).

Lemma mprotect_flags_eq prot e :
  prot_has_user_access prot = true → user e = true → io e = false →
  let fl := entry_mapping_flags e in
  let d := mprotect_flags prot fl in
  let w := has prot LINUX_PROT_WRITE && negb (cow e) in
  (d =? fl) = Bool.eqb w (writable e) ∧
  ((Z.lxor d fl &u ARCH_MM_MAP_USER =? 0) && negb (Z.lxor d fl &u ARCH_MM_MAP_WRITE =? 0) = negb (Bool.eqb w (writable e))) ∧
  has fl ARCH_MM_MAP_WRITE = writable e ∧ has d ARCH_MM_MAP_WRITE = w.
Proof.
  intros Hp Hu Hio. cbn zeta. unfold mprotect_flags. rewrite Hp. generalize (has prot LINUX_PROT_WRITE). intros wp. unfold entry_mapping_flags.
  rewrite has_shared, has_io, has_cow, has_user, has_writable, Hu, Hio.
  destruct (shared e), (cow e), (writable e), wp; done.
Qed.

Lemma protect_page_changed σ q prot :
  vm_ok σ D T K ext → is_u32 q → prot_has_user_access prot = true → protectable σ q →
  page_changed inv managed D T K ext pd (reprotected prot) σ (mprotect_page pd prot q σ) q.
Proof.
  intros OK Hq Hp Hpr. destruct (index_ranges q Hq) as [Hi Hj]. pose proof (HT _ Hi) as Ht. unfold mprotect_page.
  erewrite query_eq by done. unfold protectable, walk_at in Hpr.
  destruct (walk (vm_mem σ) pd (pd_index q) (pt_index q)) as [e|] eqn:Ew; cbn [fmap option_fmap option_map].
  2:{ apply same_page_changed; [done|]. unfold walk_at. by rewrite Ew. }
  destruct (Hpr e eq_refl) as (Hu & Hio & Hown).
  destruct (mprotect_flags_eq prot e Hp Hu Hio) as (E1 & E2 & E3 & E4). cbn zeta in *. rewrite E1.
  set (w := has prot LINUX_PROT_WRITE && negb (cow e)) in *. destruct (Bool.eqb w (writable e)) eqn:Eb.
  { apply same_page_changed; [done|]. unfold walk_at. rewrite Ew. unfold reprotected. fold w. apply eqb_prop in Eb. by rewrite Eb. }
  cbn [negb] in E2. rewrite E2, E3, E4. unfold arch_mm_update.
  set (cl := if writable e then ARCH_MM_MAP_WRITE else 0). set (st := if w then ARCH_MM_MAP_WRITE else 0).
  destruct (updated_spec e cl st (walk_u32 _ _ _ _ _ Ew)) as (_ & Ha & Hpe & Hue & Hie & Hse & Hwe & Hce).
  assert (present e = true) as Hpe0 by by eapply walk_present. rewrite Hpe0 in Hpe.
  assert (writable (updated e cl st) = w ∧ cow (updated e cl st) = cow e) as [Hw Hc].
  { rewrite Hwe, Hce. unfold cl, st. destruct w, (writable e), (cow e); done. }
  assert (cow e = true → shared e = false) as Hcs.
  { intros Hce'. by destruct (cow_entry inv managed _ _ _ _ _ _ _ _ _ OK Ht Hj Ew Hce') as (_ & ? & _). }
  destruct (paging_update_page σ pd q cl st) as [r σ'] eqn:E.
  destruct (update_page_spec inv managed σ D T K ext pd q cl st e r σ' OK Hq Ht Ew) as [-> Hset]; try done.
  - unfold holds_page. by rewrite entry_is_user_eq, Hpe0, Hu, Hio.
  - unfold cl, st. by destruct w, (writable e).
  - intros Hpw. unfold private_writable in Hpw. rewrite Hw, Hse in Hpw. apply andb_true_iff in Hpw as [[_ Hw1]%andb_true_iff Hs1].
    apply Hown; [|unfold w in Hw1; apply andb_true_iff in Hw1 as [_ Hw1]; by destruct (cow e)|by destruct (shared e)].
    rewrite Hw1 in Eb. by destruct (writable e).
  - rewrite Hc. done.
  - cbn [Z.eqb]. apply (entry_page_changed inv managed D T K ext pd HT _ σ σ' q e (updated e cl st)); try done.
    + rewrite Hpe. unfold reprotected. fold w. by rewrite Ha, Hue, Hie, Hse, Hc, Hw.
    + rewrite Hpe. intros e' [= <-] _. exists e. split; [done|]. split; [done|]. by rewrite Hie, Ha.
Qed.

(** The owners of a page are the same when the same pages are mapped. *)
Lemma owners_pages σ σ' f :
  vm_ok σ D T K ext → vm_ok σ' D T K ext →
  (∀ pd' i k, (pd', i) ∈ T → ix k → (walk (vm_mem σ') pd' i k ≫= entry_page) = (walk (vm_mem σ) pd' i k ≫= entry_page)) →
  ¬ is_table (vm_mem σ) D T K f → ¬ is_table (vm_mem σ') D T K f →
  owners (vm_mem σ') D T f = owners (vm_mem σ) D T f.
Proof.
  intros OK OK' Hw Hn Hn'.
  apply (countp_ext (λ o, own (vm_mem σ') o = Some f) (λ o, own (vm_mem σ) o = Some f)).
  intros o Ho. rewrite elem_of_keys in Ho. destruct o as [pd'|pd' i|pd' i j].
  - done.
  - split; intros E; exfalso; [apply Hn'|apply Hn]; right; right; by exists pd', i.
  - destruct Ho as [Ht Hj]. rewrite (walk_own inv managed σ' D T K ext) by done.
    rewrite (walk_own inv managed σ D T K ext) by done. specialize (Hw pd' i j Ht Hj). unfold entry_page in Hw. by rewrite Hw.
Qed.

Lemma reprotected_page prot w w' :
  reprotected prot w w' → (∀ e, w = Some e → present e = true) → (∀ e, w' = Some e → present e = true) → (w' ≫= entry_page) = (w ≫= entry_page).
Proof.
  destruct w as [e|], w' as [e'|]; try done. intros (Ha & Hu & Hio & _) Hp Hp'. simpl. unfold entry_page, holds_page.
  by rewrite !entry_is_user_eq, (Hp e eq_refl), (Hp' e' eq_refl), Hu, Hio, Ha.
Qed.

Lemma protect_range_ok σ s e prot :
  vm_ok σ D T K ext → 0 <= s → s mod 4096 = 0 → e mod 4096 = 0 → s < e → e <= 2 ^ 32 →
  prot_has_user_access prot = true → (∀ v, is_u32 v → s <= v < e → protectable σ v) →
  range_changed inv managed D T K ext pd (reprotected prot) σ (syscall_apply_mprotect pd s e prot σ) s e.
Proof.
  intros OK Hs Has Hae Hlt He Hp Hpr. unfold syscall_apply_mprotect. destruct (Z.leb_spec e s); [lia|].
  apply range_loop; try done. intros σ1 q Hq Haq Hqr Hrc. pose proof Hrc as [OK1 In1 Out1 _ _].
  apply protect_page_changed; try done. destruct (index_ranges q Hq) as [Hi Hj]. pose proof (HT _ Hi) as Ht.
  intros w Hw. assert (walk_at (vm_mem σ) pd q = Some w) as Hw0 by (rewrite <-Hw; symmetry; apply Out1; [done|done|right; lia]).
  destruct (Hpr q Hq Hqr w Hw0) as (Hu & Hio & Hown). split; [done|]. split; [done|]. intros Hwr Hc Hsh. rewrite <-Hown by done.
  assert (∀ σ2, vm_ok σ2 D T K ext → walk_at (vm_mem σ2) pd q = Some w → ¬ is_table (vm_mem σ2) D T K (paging_entry_addr w)) as Hnt.
  { intros σ2 OK2 Hw2. apply (page_not_table inv managed σ2 D T K ext OK2 pd (pd_index q) (pt_index q)); try done.
    rewrite (walk_own inv managed σ2 D T K ext) by done. unfold walk_at in Hw2. rewrite Hw2. simpl. unfold holds_page.
    by rewrite entry_is_user_eq, (walk_present _ _ _ _ _ Hw2), Hu, Hio. }
  apply owners_pages; try done; [|by apply Hnt|by apply Hnt].
  intros pd' i k Ht' Hk. destruct (page_at i k) as (v & Hv & <- & <-); [by eapply (pd_frame inv managed)|done|].
  destruct (decide (pd' = pd ∧ s <= v < q)) as [[-> Hr]|Hn].
  - apply (reprotected_page prot); [by apply In1|intros ? ?; by eapply walk_present..].
  - f_equal. apply (Out1 pd' v Hv Ht'). destruct (decide (pd' = pd)); [right; intros ?; by apply Hn|by left].
Qed.
End loops.
