(* ===== verification/MmsysProps.v ===== *)
(** * Memory system calls: properties

    mmap, munmap, mprotect and brk keep the area table sound and the committed
    pages exact; unmapping removes every user page of the range and nothing
    else.  Two theorems state where mprotect breaks what fork set up. *)

From stdpp Require Import sorting.
From S2P Require Import Prelude Interfaces PmmCore Kheap Memory Kstring Vma VmaSpec VmaProps Commit Paging PagingSpec PagingInv PagingSteps PagingOps PagingSpaces PagingClone PagingFork Fault Uaccess FaultSpec FaultOps PagingDemo PagingProps FaultProps Mmsys MmsysOps MmsysPages.

#[local] Opaque for_loop for_exit zero_table copy_table.

Lemma user_range_spec ebx ecx e :
  is_u32 ebx → is_u32 ecx → user_range ebx ecx = Some e →
  0 < ebx ∧ ebx mod 4096 = 0 ∧ e mod 4096 = 0 ∧ ebx < e <= USER_STACK_TOP ∧ ecx <= e - ebx < ecx + 4096.
Proof.
  intros Hb Hc E. unfold user_range in E. destruct (Z.eqb_spec ebx 0), (Z.eqb_spec (ebx &u (PAGE_SIZE - 1)) 0) as [Ha|], (Z.eqb_spec ecx 0);
    cbn [orb negb] in E; try done.
  change (PAGE_SIZE - 1) with (Z.ones 12) in Ha. rewrite Z.land_ones in Ha by lia. change (2 ^ 12) with 4096 in Ha.
  unfold page_round in E. change (PAGE_SIZE - 1) with 4095 in E. cbn zeta in E. set (w := ecx +u 4095) in *.
  assert (w &u not32 4095 = w - w mod 4096) as Em.
  { change 4095 with (Z.ones 12). by rewrite land_not32_mask by (unfold w, is_u32, u32; pose proof (Z.mod_pos_bound (ecx + 4095) (2 ^ 32)); lia). }
  rewrite Em in E. assert (w = if decide (ecx + 4095 < 2 ^ 32) then ecx + 4095 else ecx + 4095 - 2 ^ 32) as Hw.
  { unfold is_u32 in *. case_decide; [apply u32_small; unfold is_u32; lia|]. unfold w, u32. symmetry. apply Z.mod_unique with 1; lia. }
  set (len := w - w mod 4096) in *. destruct (Z.eqb_spec len 0) as [|Hl]; [done|].
  assert (len = ecx + 4095 - (ecx + 4095) mod 4096 ∧ ecx + 4095 < 2 ^ 32) as [Elen Hnw].
  { unfold is_u32 in *. unfold len in *. case_decide; rewrite Hw in *; [done|]. exfalso. apply Hl. Z.div_mod_to_equations; lia. }
  assert (0 <= len < 2 ^ 32 ∧ len mod 4096 = 0 ∧ ecx <= len < ecx + 4096) as (Hlu & Hla & Hlc).
  { clear -Elen Hnw Hc. unfold is_u32 in *. Z.div_mod_to_equations; lia. }
  cbn [orb] in E. destruct (Z.leb_spec (ebx +u len) ebx) as [|Hgt]; [done|].
  destruct (Z.ltb_spec USER_STACK_TOP (ebx +u len)) as [|Htop]; [done|]. cbn [orb] in E. injection E as <-.
  assert (ebx +u len = ebx + len) as Eu.
  { destruct (decide (ebx + len < 2 ^ 32)); [apply u32_small; unfold is_u32 in *; lia|]. exfalso.
    assert (ebx +u len = ebx + len - 2 ^ 32) as Eq by (unfold u32; symmetry; apply Z.mod_unique with 1; unfold is_u32 in *; lia). lia. }
  rewrite Eu in *. clear -Ha Hgt Htop Hlu Hla Hlc Hb n. unfold is_u32 in *. split; [lia|]. split; [done|].
  split; [Z.div_mod_to_equations; lia|]. lia.
Qed.

Section commit.
Context {S : Type} `{PageAllocator S} {Hp : Type} {KA : KAllocator Hp} {ka_inv : Hp → Prop} {ka_live : Hp → gset Z}
  {ka_room : Hp → Z → Z} {KL : KAllocatorLaws Hp ka_inv ka_live ka_room}.
Implicit Types (st : mm S Hp) (p : process).
Notation owns := (VmaSpec.owns (ka_inv := ka_inv) (ka_live := ka_live)).

(** The area table is sound, and what is committed is what the areas need. *)
Record mm_sound (base : Z) st : Prop := {
  ms_vma : vma_inv (mm_proc st);
  ms_owns : owns (mm_heap st) (mm_proc st);
  ms_commit : balanced_commit base (mm_proc st);
}.

Lemma owns_committed h p c : owns h p → owns h (set_committed p c).
Proof. unfold VmaSpec.owns. by destruct (set_committed_same p c) as (_ & _ & _ & _ & _ & ->). Qed.

(** Setting the count to what the areas need. *)
Lemma sound_with_commit base st n m :
  vma_inv (mm_proc st) → owns (mm_heap st) (mm_proc st) → uniform (gkey (live (mm_proc st))) →
  committed (mm_proc st) = Some n → is_u32 m → m + base = charged_pages (live (mm_proc st)) + heap_pages (mm_proc st) →
  0 <= base <= heap_pages (mm_proc st) → mm_sound base (with_commit st m).
Proof.
  intros Hi Ho Hu Hc Hm Eq Hb. unfold with_commit. destruct (set_committed_same (mm_proc st) (Some m)) as (El & Eb & _).
  split; cbn [mm_proc mm_heap with_proc].
  - by apply set_committed_inv.
  - by apply owns_committed.
  - split; unfold heap_pages in *; rewrite ?El, ?Eb; try done. exists m. split; [by eapply set_committed_get|]. done.
Qed.

Lemma same_live_sound base st h p :
  mm_sound base st → vma_inv p → owns h p → keeps (mm_proc st) p → live p = live (mm_proc st) → mm_sound base (mk_mm (mm_vm st) h p).
Proof.
  intros [_ _ [Hu Hc Hb]] Hi Ho [Kb Kc] El. split; [done..|]. cbn [mm_proc]. split; unfold heap_pages in *; rewrite ?El, ?Kb, ?Kc; done.
Qed.

(** Reserving whole pages takes them or changes nothing. *)
Lemma reserve_pages st n k :
  committed (mm_proc st) = Some n → is_u32 n → 0 <= k < 2 ^ 20 →
  let '(rc, st') := if negb (4096 * k =? 0) then commit_reserve st (4096 * k) else (0, st) in
  (rc = 0 ∧ st' = with_commit st (n + k) ∧ is_u32 (n + k)) ∨ (rc ≠ 0 ∧ st' = st).
Proof.
  intros Hc Hn Hk. destruct (whole_pages k Hk) as [Hu Hpg]. destruct (Z.eqb_spec (4096 * k) 0); cbn [negb].
  - left. assert (k = 0) as -> by lia. rewrite Z.add_0_r. split; [done|]. split; [|done].
    unfold with_commit. rewrite set_committed_self by done. by destruct st.
  - pose proof (commit_reserve_ok st (4096 * k) n Hc Hn Hu) as Hres. destruct (commit_reserve _ _) as [rc st'].
    destruct Hres as [(-> & k' & Ek & -> & Hk' & _)|(-> & ->)]; [left|by right]. rewrite Hpg in Ek. by injection Ek as <-.
Qed.

(** Releasing whole pages of a state that is sound but for them. *)
Lemma release_pages base st m k :
  vma_inv (mm_proc st) → owns (mm_heap st) (mm_proc st) → uniform (gkey (live (mm_proc st))) →
  committed (mm_proc st) = Some m → is_u32 m → 0 <= k < 2 ^ 20 →
  m - k + base = charged_pages (live (mm_proc st)) + heap_pages (mm_proc st) → 0 <= base <= heap_pages (mm_proc st) →
  let st' := if negb (4096 * k =? 0) then commit_release st (4096 * k) else st in
  mm_sound base st' ∧ vma_brk (mm_proc st') = vma_brk (mm_proc st) ∧ mm_vm st' = mm_vm st ∧ live (mm_proc st') = live (mm_proc st).
Proof.
  intros Hi Ho Hu Hc Hm Hk Hbal Hb. destruct (whole_pages k Hk) as [Hku Hpg]. pose proof (charged_pages_range (live (mm_proc st))).
  destruct (Z.eqb_spec (4096 * k) 0); cbn [negb].
  - assert (k = 0) as -> by lia. rewrite Z.sub_0_r in Hbal. split; [|done]. split; [done..|]. split; [done| |done]. by exists m.
  - rewrite (commit_release_ok _ _ m k) by (done || lia). destruct (set_committed_same (mm_proc st) (Some (m - k))) as (El & Eb & _).
    split; [|done]. apply (sound_with_commit base _ m); try done. unfold is_u32 in *. lia.
Qed.

Lemma with_vm_sound base st f : mm_sound base st → mm_sound base (with_vm st f).
Proof. by intros []. Qed.

(** Reserving leaves a state that is sound but for the pages reserved. *)
Lemma release_reserved base st bytes n k :
  mm_sound base st → committed (mm_proc st) = Some n → is_u32 n → is_u32 (n + k) → is_u32 bytes → vm_commit_pages_for_bytes bytes = Some k →
  ∀ h p, vma_inv p → owns h p → keeps (set_committed (mm_proc st) (Some (n + k))) p → live p = live (mm_proc st) →
  mm_sound base (commit_release (mk_mm (mm_vm st) h p) bytes).
Proof.
  intros [_ _ [Hu (n' & Hc & Hn & Hbal) Hb]] En Hn0 Hnk Hbytes Ek h p Hi Ho [Kb Kc] El. rewrite Hc in En. injection En as ->.
  destruct (set_committed_same (mm_proc st) (Some (n + k))) as (_ & Eb & _). rewrite Eb in Kb.
  rewrite (set_committed_get _ n) in Kc by done.
  rewrite (commit_release_ok (mk_mm (mm_vm st) h p) bytes (n + k) k) by (done || (unfold is_u32 in *; lia)).
  apply (sound_with_commit base _ (n + k)); cbn [mm_proc mm_heap mm_vm]; unfold heap_pages in *; rewrite ?El, ?Kb; try done;
    replace (n + k - k) with n by lia; done.
Qed.

(** A call keeps the state sound and the break in place, and either does
    [ok] or refuses and leaves the areas and the page tables alone. *)
Definition syscall_outcome base st (r : Z) st' (ok : Prop) : Prop :=
  mm_sound base st' ∧ vma_brk (mm_proc st') = vma_brk (mm_proc st) ∧
  (r = 0 ∧ ok ∨ r = SYS_FAIL ∧ mm_vm st' = mm_vm st ∧ live (mm_proc st') = live (mm_proc st)).

Lemma outcome_refused base st ok : mm_sound base st → syscall_outcome base st SYS_FAIL st ok.
Proof. intros Hs. split; [done|]. split; [done|]. by right. Qed.

(** ** munmap *)

Lemma munmap_sound base pd ebx ecx st :
  mm_sound base st → small_table (mm_proc st) → is_u32 ebx → is_u32 ecx →
  let '(r, st') := syscall_case_munmap pd ebx ecx st in
  syscall_outcome base st r st'
    (∃ e, user_range ebx ecx = Some e ∧ mm_vm st' = syscall_unmap_user_range pd ebx e (mm_vm st) ∧
      ∀ x, vma_at (live (mm_proc st')) x = if (ebx <=? x) && (x <? e) then None else vma_at (live (mm_proc st)) x).
Proof.
  intros Hs Hsm Hb Hc. unfold syscall_case_munmap. destruct (user_range ebx ecx) as [e|] eqn:Er; [|by apply outcome_refused].
  destruct (user_range_spec _ _ _ Hb Hc Er) as (H0 & Ha & Hae & [Hlt Htop] & _).
  assert (e < 2 ^ 32) as Hu by (unfold USER_STACK_TOP in *; lia).
  pose proof Hs as [Hi Ho [Hun (n & Hcm & Hn & Hbal) Hbase]].
  rewrite (munmap_bytes_spec (mm_proc st)) by (done || lia). unfold do_unmap_range.
  pose proof (unmap_spec (mm_heap st) (mm_proc st) ebx e Hi Hsm Ho) as Hun'. pose proof (unmap_keeps (mm_heap st) (mm_proc st) ebx e) as Hk.
  destruct (vma_unmap_range _ _ _ _) as [[rc h] p]. cbn [snd] in Hk.
  destruct Hun' as (Hi' & Ho' & _ & [(-> & _ & _ & Hat)|(-> & El & _)]); cbn [Z.eqb negb mm_proc].
  2:{ split; [by apply same_live_sound|]. split; [apply Hk|]. by right. }
  destruct (range_pages charged _ ebx e Hun ltac:(lia) Ha Hae Hlt Hu) as (k & Ek & Hkr).
  destruct (unmapped_gkey (live (mm_proc st)) (live p) ebx e Hat Ha Hae ltac:(lia) Hu Hun) as [Hun2 Hch].
  destruct (whole_pages k Hkr) as [Hku Hkp]. rewrite Ek in *. pose proof (charged_pages_range (live p)).
  rewrite (commit_release_ok _ (4096 * k) n k); [|cbn; by rewrite (kp_committed _ _ Hk)|done|done|done|lia].
  split; [|split; [cbn; unfold with_commit; cbn; destruct (set_committed_same p (Some (n - k))) as (_ & -> & _); apply Hk|]].
  - apply (sound_with_commit base _ n); cbn [mm_proc mm_heap with_vm]; unfold heap_pages in *; rewrite ?(kp_committed _ _ Hk), ?(kp_brk _ _ Hk); try done.
    + unfold is_u32 in *; lia.
    + lia.
  - left. split; [done|]. exists e. do 2 (split; [done|]). cbn. destruct (set_committed_same p (Some (n - k))) as (-> & _). done.
Qed.

(** ** mprotect *)

Lemma prot_vma_flags_u32 prot : is_u32 (prot_to_vma_flags prot).
Proof.
  unfold prot_to_vma_flags. destruct (has prot LINUX_PROT_READ), (has prot LINUX_PROT_WRITE), (has prot LINUX_PROT_EXEC); vm_compute; by split.
Qed.

Lemma prot_flags_write prot : has (prot_to_vma_flags prot) VMA_FLAG_WRITE = has prot LINUX_PROT_WRITE.
Proof.
  unfold prot_to_vma_flags. by destruct (has prot LINUX_PROT_READ), (has prot LINUX_PROT_WRITE), (has prot LINUX_PROT_EXEC).
Qed.

Lemma prot_flags_anon prot : anon_flags (prot_to_vma_flags prot) = true.
Proof.
  unfold prot_to_vma_flags. by destruct (has prot LINUX_PROT_READ), (has prot LINUX_PROT_WRITE), (has prot LINUX_PROT_EXEC).
Qed.

Lemma mprotect_sound base pd ebx ecx edx st :
  mm_sound base st → small_table (mm_proc st) → is_u32 ebx → is_u32 ecx →
  let '(r, st') := syscall_case_mprotect pd ebx ecx edx st in
  syscall_outcome base st r st'
    (∃ e, user_range ebx ecx = Some e ∧ mm_vm st' = syscall_apply_mprotect pd ebx e edx (mm_vm st) ∧
      ∀ x, vma_at (live (mm_proc st')) x =
        if (ebx <=? x) && (x <? e) then protect_attr (prot_to_vma_flags edx) <$> vma_at (live (mm_proc st)) x
        else vma_at (live (mm_proc st)) x).
Proof.
  intros Hs Hsm Hb Hc. unfold syscall_case_mprotect.
  destruct (user_range ebx ecx) as [e|] eqn:Er; [|by apply outcome_refused].
  destruct (negb (prot_is_valid edx)); [by apply outcome_refused|].
  destruct (negb (prot_has_user_access edx) && _); [by apply outcome_refused|].
  destruct (user_range_spec _ _ _ Hb Hc Er) as (H0 & Ha & Hae & [Hlt Htop] & _).
  assert (e < 2 ^ 32) as Hu by (unfold USER_STACK_TOP in *; lia). set (fl := prot_to_vma_flags edx).
  pose proof Hs as [Hi Ho [Hun (n & Hcm & Hn & Hbal) Hbase]].
  rewrite (transition_bytes_spec (mm_proc st)) by (done || lia).
  destruct (range_pages charged _ ebx e Hun ltac:(lia) Ha Hae Hlt Hu) as (kc & Ekc & Hkc).
  destruct (range_pages uncharged _ ebx e Hun ltac:(lia) Ha Hae Hlt Hu) as (ku & Eku & Hku).
  destruct (whole_pages kc Hkc) as [Hcu Hcp]. destruct (whole_pages ku Hku) as [Huu Hup].
  set (kr := if Bool.eqb (has fl VMA_FLAG_WRITE) true then ku else 0). set (kl := if Bool.eqb (has fl VMA_FLAG_WRITE) false then kc else 0).
  assert (0 <= kr < 2 ^ 20 ∧ 0 <= kl < 2 ^ 20) as [Hkr Hkl] by (unfold kr, kl; destruct (Bool.eqb _ true), (Bool.eqb _ false); lia).
  assert (∀ b x y, tally x ebx e = 4096 * y → (if b : bool then tally x ebx e else 0) = 4096 * (if b then y else 0)) as Hpick by (intros [] ? ? ?; lia).
  rewrite (Hpick _ _ _ Eku). fold kr. pose proof (reserve_pages st n kr Hcm Hn Hkr) as Hres.
  destruct (if negb (4096 * kr =? 0) then commit_reserve st _ else (0, st)) as [rc st1].
  destruct Hres as [(-> & -> & Hm)|[Hrc ->]]; [cbn [negb Z.eqb]|rewrite (proj2 (Z.eqb_neq _ _) Hrc); by apply outcome_refused].
  destruct (set_committed_same (mm_proc st) (Some (n + kr))) as (El1 & Eb1 & _ & Ec1 & _).
  pose proof (set_committed_inv (mm_proc st) (Some (n + kr)) Hi) as Hi1. pose proof (owns_committed _ _ (Some (n + kr)) Ho) as Ho1.
  change (mm_proc (with_commit st (n + kr))) with (set_committed (mm_proc st) (Some (n + kr))).
  rewrite (transition_bytes_spec (set_committed (mm_proc st) (Some (n + kr)))) by (done || lia). rewrite El1, (Hpick _ _ _ Ekc). fold kl.
  unfold do_protect_range. cbn [with_commit with_proc mm_proc mm_heap mm_vm].
  pose proof (protect_spec (mm_heap st) _ ebx e fl Hi1 ltac:(by rewrite Ec1) Ho1 (prot_vma_flags_u32 edx)) as Hpr.
  pose proof (protect_keeps (mm_heap st) (set_committed (mm_proc st) (Some (n + kr))) ebx e fl) as [Kb Kc].
  rewrite Eb1 in Kb. rewrite (set_committed_get _ n) in Kc by done. rewrite El1 in Hpr.
  destruct (vma_protect_range _ _ _ _ _) as [[rc' h] p]. cbn [snd] in Kb, Kc.
  destruct Hpr as (Hi' & Ho' & _ & [(-> & _ & _ & _ & Hat)|(-> & El & _)]); cbn [Z.eqb negb mm_proc].
  - destruct (protected_gkey (live (mm_proc st)) (live p) ebx e fl Hat Ha Hae ltac:(lia) Hu Hun) as [Hun2 Hch].
    pose proof (charged_pages_range (live p)).
    assert (charged_pages (live p) = charged_pages (live (mm_proc st)) + kr - kl).
    { rewrite Ekc, Eku in Hch. unfold kr, kl. destruct (has fl VMA_FLAG_WRITE); cbn [Bool.eqb]; lia. }
    destruct (release_pages base (with_vm (mk_mm (mm_vm st) h p) (syscall_apply_mprotect pd ebx e edx)) (n + kr) kl) as (? & E1 & E2 & E3);
      cbn [mm_proc mm_heap with_vm]; unfold heap_pages in *; rewrite ?Kb; try done; try lia.
    split; [done|]. split; [rewrite E1; exact Kb|]. left. split; [done|]. exists e. split; [done|]. rewrite E2, E3. done.
  - destruct (release_pages base (mk_mm (mm_vm st) h p) (n + kr) kr) as (? & E1 & E2 & E3);
      cbn [mm_proc mm_heap]; unfold heap_pages in *; rewrite ?Kb, ?El; try done; try lia.
    split; [done|]. split; [rewrite E1; exact Kb|]. right. split; [done|]. rewrite E2, E3. done.
Qed.

(** ** Anonymous mappings *)

(** The pages of a length are those of the area that holds it. *)
Lemma align_up_pages length k :
  is_u32 length → vm_commit_pages_for_bytes length = Some k →
  vm_page_align_up length = 4096 * k.
Proof.
  intros Hl Ek. destruct (pages_for_bytes_spec length k Hl Ek) as [Hc Hk]. unfold vm_commit_pages_for_bytes, UINT32_MAX in Ek.
  destruct (Z.eqb_spec length 0) as [->|]; [injection Ek as <-; done|]. destruct (Z.ltb_spec (0xFFFFFFFF - (PAGE_SIZE - 1)) length) as [|Hle]; [done|].
  unfold PAGE_SIZE, is_u32 in *. rewrite page_align_up_spec by lia. Z.div_mod_to_equations; lia.
Qed.

Lemma align_up_aligned v : is_u32 v → vm_page_align_up v mod 4096 = 0 ∧ 0 <= vm_page_align_up v.
Proof.
  intros Hv. destruct (Z.le_gt_cases v 0xFFFFF000).
  - unfold is_u32 in Hv. rewrite page_align_up_spec by lia. split; [apply Z.mod_mul; lia|Z.div_mod_to_equations; lia].
  - unfold vm_page_align_up. destruct (Z.ltb_spec (UINT32_MAX - 0xFFF) v); [done|unfold UINT32_MAX in *; lia].
Qed.

Lemma stack_top p stack : vma_inv p → user_areas p → vma_find_kind_const p VMA_KIND_STACK = Some stack → gap_high stack <= VM_TASK_SIZE.
Proof.
  intros Hi Hu E. rewrite find_kind_fold in E by done. apply first_live_Some in E as [Hin _].
  unfold user_areas in Hu. rewrite Forall_forall in Hu. destruct (Hu stack Hin) as [He _].
  pose proof (vi_valid _ Hi) as Hv. rewrite Forall_forall in Hv. destruct (Hv stack Hin) as (? & ? & _).
  unfold gap_high, VM_STACK_GUARD_GAP. destruct (_ <? _); lia.
Qed.

Lemma mmap_sound base hint length prot st :
  mm_sound base st → small_table (mm_proc st) → user_areas (mm_proc st) → is_u32 (vma_brk (mm_proc st)) → is_u32 hint → is_u32 length →
  let '(r, st') := syscall_mmap_anonymous_private hint length prot st in
  mm_sound base st' ∧ vma_brk (mm_proc st') = vma_brk (mm_proc st) ∧ mm_vm st' = mm_vm st ∧
  match r with
  | None => live (mm_proc st') = live (mm_proc st)
  | Some s => s mod PAGE_SIZE = 0 ∧ length <= vm_page_align_up length ∧ s + vm_page_align_up length <= VM_TASK_SIZE ∧
      gap_low (mm_proc st) <= s ∧
      gains (mm_proc st) (mm_proc st') (mk_vma s (s + vm_page_align_up length) (prot_to_vma_flags prot) VMA_KIND_GENERIC 0 0 (mk_ref 0 0))
  end.
Proof.
  intros Hs Hsm Hua Hbrk Hh Hl. unfold syscall_mmap_anonymous_private. destruct (Z.eqb_spec length 0) as [|Hl0]; [done|].
  set (fl := prot_to_vma_flags prot). pose proof Hs as [Hi Ho [Hun (n & Hcm & Hn & Hbal) Hbase]].
  assert (∃ k rc, (if has fl VMA_FLAG_WRITE then commit_reserve st length else (0, st)) = (rc, if rc =? 0 then with_commit st (n + k) else st) ∧
    (rc = 0 → is_u32 (n + k) ∧ if has fl VMA_FLAG_WRITE then vm_commit_pages_for_bytes length = Some k else k = 0)) as (k & rc & -> & Hrc).
  { destruct (has fl VMA_FLAG_WRITE).
    - pose proof (commit_reserve_ok st length n Hcm Hn Hl) as Hres. destruct (commit_reserve _ _) as [rc st'].
      destruct Hres as [(-> & k & Ek & -> & Hk & _)|(-> & ->)]; [by exists k, 0|by exists 0, (-1)].
    - exists 0, 0. cbn. rewrite Z.add_0_r. unfold with_commit. rewrite set_committed_self by done. by destruct st. }
  destruct (Z.eqb_spec rc 0) as [->|]; cbn [negb Z.eqb]; [|done]. destruct (Hrc eq_refl) as [Hm Hk]. clear Hrc.
  destruct (set_committed_same (mm_proc st) (Some (n + k))) as (El1 & Eb1 & Et1 & Ec1 & Ecap1 & Eo1).
  pose proof (set_committed_inv (mm_proc st) (Some (n + k)) Hi) as Hi1. pose proof (owns_committed _ _ (Some (n + k)) Ho) as Ho1.
  unfold do_map_anonymous. cbn [with_commit with_proc mm_proc mm_heap mm_vm]. set (p1 := set_committed (mm_proc st) (Some (n + k))) in *.
  pose proof (vma_map_anonymous_correct (mm_heap st) p1 hint length fl Hi1 ltac:(unfold small_table; by rewrite Ec1)
    ltac:(unfold user_areas; by rewrite El1) Ho1 Hh Hl ltac:(by rewrite Eb1) (prot_vma_flags_u32 prot)) as Hmap.
  pose proof (map_anonymous_keeps (mm_heap st) p1 hint length fl) as Hk'.
  destruct (vma_map_anonymous _ _ _ _ _) as [[[s|] h] p]; cbn [snd] in Hk'; pose proof Hk' as [Kb Kc];
    rewrite Eb1 in Kb; unfold p1 in Kc; rewrite (set_committed_get _ n) in Kc by done; destruct Hmap as (Hi' & Ho' & _ & Hmap).
  - destruct Hmap as (stack & Est & Hal & Hle & Hlow & Htop & Hg). pose proof (stack_top p1 stack Hi1 ltac:(unfold user_areas; by rewrite El1) Est).
    destruct (align_up_aligned length Hl) as [Hlm Hlp]. unfold VM_TASK_SIZE in *.
    assert (gap_low p1 = gap_low (mm_proc st)) as El by (unfold gap_low; by rewrite Eb1). rewrite El in Hlow.
    assert (0 < s) by (unfold gap_low, VM_MMAP_MIN in Hlow; lia).
    assert (gains (mm_proc st) p (mk_vma s (s + vm_page_align_up length) fl VMA_KIND_GENERIC 0 0 (mk_ref 0 0))) as Hg'.
    { destruct Hg as [Hg1 Hg2]. rewrite El1 in Hg1. split; [done|]. intros x. rewrite Hg2. by rewrite El1. }
    destruct (gained_gkey _ _ _ _ _ Hg' Hal Hlm ltac:(lia) Hlp ltac:(lia) (prot_flags_anon prot) Hun) as [Hun2 Hch].
    split; [|split; [done|split; [done|]]].
    + split; [done..|]. split; cbn [mm_proc]; unfold heap_pages in *; rewrite ?Kb; try done. exists (n + k). split; [done|]. split; [done|].
      fold fl in Hch. destruct (has fl VMA_FLAG_WRITE); [rewrite (align_up_pages length k) in Hch by done|]; lia.
    + split; [done|]. split; [done|]. split; [lia|]. by split.
  - rewrite El1 in Hmap. destruct (has fl VMA_FLAG_WRITE).
    + pose proof (release_reserved base st length n k Hs Hcm Hn Hm Hl Hk h p Hi' Ho' Hk' Hmap) as Hrel.
      split; [done|]. unfold commit_release in *. cbn [mm_proc] in *.
      match goal with |- context [set_committed p ?c] => destruct (set_committed_same p c) as (E1 & E2 & _) end.
      cbn. rewrite E1, E2. done.
    + subst k. rewrite Z.add_0_r in *. split; [|done]. split; [done..|]. split; cbn [mm_proc]; unfold heap_pages in *; rewrite ?Kb, ?Hmap; try done. by exists n.
Qed.
End commit.

(** ** The system calls as a whole *)

Section calls.
Context {S : Type} `{PageAllocator S} (inv : S → Prop) (managed : S → Z → Prop).
Context `{!PageAllocatorLaws S inv managed}.
Context {Hp : Type} {KA : KAllocator Hp} {ka_inv : Hp → Prop} {ka_live : Hp → gset Z}
  {ka_room : Hp → Z → Z} {KL : KAllocatorLaws Hp ka_inv ka_live ka_room}.
Implicit Types (st : mm S Hp).
Notation vm_ok := (vm_ok inv managed).
Notation mm_sound := (mm_sound (ka_inv := ka_inv) (ka_live := ka_live)).
Notation syscall_outcome := (syscall_outcome (ka_inv := ka_inv) (ka_live := ka_live)).

(** C5: munmap either refuses, and then no area and no page table has changed,
    or takes exactly the range out of the areas and the page tables: the
    process reads nothing there any more, and what it reads elsewhere, and all
    that other processes read, is the same.  The table stays well formed, and
    the committed pages stay those that the areas and the heap need. *)
Theorem munmap_correct base st D T K ext pd ebx ecx :
  mm_sound base st → small_table (mm_proc st) → is_u32 ebx → is_u32 ecx →
  vm_ok (mm_vm st) D T K ext → (∀ i, ix i → (pd, i) ∈ T) →
  let '(r, st') := syscall_case_munmap pd ebx ecx st in
  syscall_outcome base st r st' (∃ e, user_range ebx ecx = Some e ∧ vm_ok (mm_vm st') D T K ext ∧
    (∀ x, vma_at (live (mm_proc st')) x = if (ebx <=? x) && (x <? e) then None else vma_at (live (mm_proc st)) x) ∧
    (∀ v, ebx <= v < e → user_load (vm_mem (mm_vm st')) pd v = None) ∧
    (∀ pd' v, is_u32 v → (pd', pd_index v) ∈ T → no_device (vm_mem (mm_vm st)) pd' v → pd' ≠ pd ∨ ¬ ebx <= v < e →
      user_load (vm_mem (mm_vm st')) pd' v = user_load (vm_mem (mm_vm st)) pd' v)).
Proof.
  intros Hs Hsm Hb Hc OK HT. pose proof (munmap_sound base pd ebx ecx st Hs Hsm Hb Hc) as Hm.
  destruct (syscall_case_munmap pd ebx ecx st) as [r st']. destruct Hm as (Hs' & Hbrk & [(-> & e & Er & Evm & Hat)|Href]);
    (split; [done|split; [done|]]); [left|by right]. split; [done|].
  destruct (user_range_spec _ _ _ Hb Hc Er) as (H0 & Ha & Hae & [Hlt Htop] & _).
  assert (e <= 2 ^ 32) as Hu by (unfold USER_STACK_TOP in *; lia).
  pose proof (unmap_range_ok inv managed D T K ext pd HT (mm_vm st) ebx e OK ltac:(lia) Ha Hae Hlt Hu) as Hrc. rewrite Evm.
  exists e. split; [done|]. split; [by destruct Hrc|]. split; [done|]. split.
  - intros v Hr. pose proof (rc_in _ _ _ _ _ _ _ _ _ _ _ _ Hrc v ltac:(unfold is_u32; lia) Hr) as Hw. unfold no_user in Hw.
    unfold user_load. rewrite Hw. destruct (walk_at (vm_mem (mm_vm st)) pd v) as [w|]; [|done]. by destruct (user w) eqn:Eu; rewrite ?Eu.
  - intros. by apply (range_load inv managed D T K ext pd no_user (mm_vm st) _ ebx e).
Qed.

(** C6: mprotect that leaves the user some access either refuses, changing
    nothing, or gives exactly the range the new protection, in the areas and in
    the page tables: a page is writable when the request says so, unless it is
    to be copied on write first.  No byte that anybody reads changes, and the
    committed pages follow the pages that became or ceased to be writable.  The
    range must map ordinary pages that the user may still access (a page that an
    earlier mprotect took all access from is not changed any more), no device
    memory, and its read-only pages, unless copied on write or shared on purpose,
    have no other mapping. *)
Theorem mprotect_correct base st D T K ext pd ebx ecx prot :
  mm_sound base st → small_table (mm_proc st) → is_u32 ebx → is_u32 ecx →
  vm_ok (mm_vm st) D T K ext → (∀ i, ix i → (pd, i) ∈ T) → prot_has_user_access prot = true →
  (∀ e v, user_range ebx ecx = Some e → is_u32 v → ebx <= v < e → protectable D T pd (mm_vm st) v) →
  let '(r, st') := syscall_case_mprotect pd ebx ecx prot st in
  syscall_outcome base st r st' (∃ e, user_range ebx ecx = Some e ∧ vm_ok (mm_vm st') D T K ext ∧
    (∀ x, vma_at (live (mm_proc st')) x =
      if (ebx <=? x) && (x <? e) then protect_attr (prot_to_vma_flags prot) <$> vma_at (live (mm_proc st)) x
      else vma_at (live (mm_proc st)) x) ∧
    (∀ v, ebx <= v < e → reprotected prot (walk_at (vm_mem (mm_vm st)) pd v) (walk_at (vm_mem (mm_vm st')) pd v)) ∧
    (∀ pd' v, is_u32 v → (pd', pd_index v) ∈ T → no_device (vm_mem (mm_vm st)) pd' v →
      user_load (vm_mem (mm_vm st')) pd' v = user_load (vm_mem (mm_vm st)) pd' v)).
Proof.
  intros Hs Hsm Hb Hc OK HT Hacc Hpr. pose proof (mprotect_sound base pd ebx ecx prot st Hs Hsm Hb Hc) as Hm.
  destruct (syscall_case_mprotect pd ebx ecx prot st) as [r st']. destruct Hm as (Hs' & Hbrk & [(-> & e & Er & Evm & Hat)|Href]);
    (split; [done|split; [done|]]); [left|by right]. split; [done|].
  destruct (user_range_spec _ _ _ Hb Hc Er) as (H0 & Ha & Hae & [Hlt Htop] & _).
  assert (e <= 2 ^ 32) as Hu by (unfold USER_STACK_TOP in *; lia).
  pose proof (protect_range_ok inv managed D T K ext pd HT (mm_vm st) ebx e prot OK ltac:(lia) Ha Hae Hlt Hu Hacc (λ v, Hpr e v Er)) as Hrc. rewrite Evm.
  exists e. split; [done|]. split; [by destruct Hrc|]. split; [done|].
  assert (∀ v, ebx <= v < e → reprotected prot (walk_at (vm_mem (mm_vm st)) pd v) (walk_at (vm_mem (syscall_apply_mprotect pd ebx e prot (mm_vm st))) pd v)) as Hin.
  { intros v Hr. apply (rc_in _ _ _ _ _ _ _ _ _ _ _ _ Hrc v); [unfold is_u32; lia|done]. }
  split; [done|]. intros pd' v Hv Ht Hd. destruct (decide (pd' = pd ∧ ebx <= v < e)) as [[-> Hr]|Hn].
  - specialize (Hin v Hr). pose proof (rc_bytes _ _ _ _ _ _ _ _ _ _ _ _ Hrc pd v) as Hby. unfold user_load, reprotected in *.
    destruct (walk_at (vm_mem (mm_vm st)) pd v) as [w|] eqn:Ew, (walk_at (vm_mem (syscall_apply_mprotect _ _ _ _ _)) pd v) as [w'|]; try done.
    destruct Hin as (Ha' & Hu' & Hio' & _). rewrite Hu'. destruct (user w) eqn:Eu; [|done]. f_equal. rewrite <-Ha'.
    apply (Hby w'); try done. rewrite Hio'. by apply Hd.
  - apply (range_load inv managed D T K ext pd (reprotected prot) (mm_vm st) _ ebx e); try done.
    destruct (decide (pd' = pd)); [right; intros ?; by apply Hn|by left].
Qed.

(** C8: an anonymous mmap either refuses, for want of address space, table room
    or pages to commit, and then the areas are unchanged, or places a new
    area of whole pages between the heap and the stack where nothing was
    mapped.  Either way the committed pages are those the areas need. *)
Theorem mmap_anonymous_correct base st hint length prot :
  mm_sound base st → small_table (mm_proc st) → user_areas (mm_proc st) → is_u32 (vma_brk (mm_proc st)) → is_u32 hint → is_u32 length →
  let '(r, st') := syscall_mmap_anonymous_private hint length prot st in
  mm_sound base st' ∧ vma_brk (mm_proc st') = vma_brk (mm_proc st) ∧ mm_vm st' = mm_vm st ∧
  match r with
  | None => live (mm_proc st') = live (mm_proc st)
  | Some s => s mod PAGE_SIZE = 0 ∧ length <= vm_page_align_up length ∧ s + vm_page_align_up length <= VM_TASK_SIZE ∧
      gap_low (mm_proc st) <= s ∧
      gains (mm_proc st) (mm_proc st') (mk_vma s (s + vm_page_align_up length) (prot_to_vma_flags prot) VMA_KIND_GENERIC 0 0 (mk_ref 0 0))
  end.
Proof. exact (mmap_sound base hint length prot st). Qed.
End calls.
