(* ===== verification/MmsysBrk.v ===== *)
(** * Memory system calls: the program break

    Moving the break moves the end of the heap area.  The heap has room up to a
    limit: no other area starts below it. *)

From stdpp Require Import sorting.
From S2P Require Import Prelude Interfaces PmmCore Kheap Memory Kstring Vma VmaSpec VmaProps Commit Paging PagingSpec PagingInv PagingSteps PagingOps PagingSpaces PagingClone PagingFork Fault Uaccess FaultSpec FaultOps PagingDemo PagingProps FaultProps Mmsys MmsysOps MmsysPages MmsysProps.

#[local] Opaque for_loop for_exit zero_table copy_table.

Notation heap_area p hi := (vma_table p).[hi].

(** The heap is the area [hi], it ends at the break, and no other area lies
    between its start and [lim] bytes further. *)
Record heap_room (p : process) (hi lim : Z) : Prop := {
  hr_index : 0 <= hi < vma_count p;
  hr_kind : kind (heap_area p hi) = VMA_KIND_HEAP;
  hr_end : end_ (heap_area p hi) = vma_brk p;
  hr_lim : vma_brk p <= start (heap_area p hi) + lim;
  hr_top : vma_brk p <= USER_HEAP_MAX;
  hr_below : ∀ i, 0 <= i < hi → end_ (vma_table p).[i] <= start (heap_area p hi);
  hr_above : ∀ i, hi < i < vma_count p → start (heap_area p hi) + lim <= start (vma_table p).[i];
}.

Lemma heap_split p hi lim :
  vma_inv p → heap_room p hi lim →
  ∃ l1 l2, live p = l1 ++ heap_area p hi :: l2 ∧ Z.of_nat (length l1) = hi ∧
    Forall (λ w, end_ w <= start (heap_area p hi)) l1 ∧ Forall (λ w, start (heap_area p hi) + lim <= start w) l2.
Proof.
  intros Hi [Hidx _ _ _ _ Hbelow Habove]. pose proof (vi_len _ Hi). pose proof (vi_count _ Hi).
  assert (∀ j, 0 <= j < vma_count p → live p !! Z.to_nat j = Some (vma_table p).[j]) as Hlk.
  { intros j Hj. unfold live. rewrite lookup_take_lt by lia. apply arr_lookup. lia. }
  assert (length (live p) = Z.to_nat (vma_count p)) as Hlen by (unfold live; rewrite length_take; lia).
  exists (take (Z.to_nat hi) (live p)), (drop (Datatypes.S (Z.to_nat hi)) (live p)).
  split; [symmetry; by apply take_drop_middle, Hlk|]. split; [rewrite length_take; lia|]. split; apply Forall_lookup; intros k w Hw.
  - apply lookup_take_Some in Hw as [Hw Hk]. rewrite <-(Nat2Z.id k), Hlk in Hw by lia. injection Hw as <-. apply Hbelow. lia.
  - rewrite lookup_drop in Hw. pose proof (lookup_lt_Some _ _ _ Hw).
    replace (Datatypes.S (Z.to_nat hi) + k)%nat with (Z.to_nat (hi + 1 + Z.of_nat k)) in Hw by lia. rewrite Hlk in Hw by lia.
    injection Hw as <-. apply Habove. lia.
Qed.

(** ** Storing the break *)

Definition store_break (p : process) (hi b : Z) : process :=
  let q := set_brk p b in set_table q (vma_table q).[hi <- set_end (vma_table q).[hi] b] (vma_count q).

Lemma set_brk_same p b :
  vma_table (set_brk p b) = vma_table p ∧ vma_count (set_brk p b) = vma_count p ∧ vma_capacity (set_brk p b) = vma_capacity p ∧
  VmaSpec.own (set_brk p b) = VmaSpec.own p ∧ committed (set_brk p b) = committed p ∧ vma_brk (set_brk p b) = b.
Proof. unfold set_brk, vma_table, vma_count, vma_capacity, VmaSpec.own, committed, vma_brk. by destruct p as [[a|] ? ? ? ?]. Qed.

Lemma store_break_same p hi b :
  vma_table (store_break p hi b) = (vma_table p).[hi <- set_end (heap_area p hi) b] ∧ vma_count (store_break p hi b) = vma_count p ∧
  vma_capacity (store_break p hi b) = vma_capacity p ∧ VmaSpec.own (store_break p hi b) = VmaSpec.own p ∧
  committed (store_break p hi b) = committed p ∧ vma_brk (store_break p hi b) = b.
Proof.
  unfold store_break. destruct (set_brk_same p b) as (Et & En & Ec & Eo & Ecm & Eb). cbn zeta.
  destruct (set_table_get (set_brk p b) (vma_table (set_brk p b)).[hi <- set_end (vma_table (set_brk p b)).[hi] b] (vma_count (set_brk p b)))
    as (-> & -> & -> & Eb'). rewrite own_set_table, (kp_committed _ _ (set_table_keeps _ _ _)), Eb', Et, En, Ec, Eo, Ecm, Eb. done.
Qed.

Lemma store_break_live p hi lim b l1 l2 :
  vma_inv p → heap_room p hi lim → live p = l1 ++ heap_area p hi :: l2 → Z.of_nat (length l1) = hi →
  live (store_break p hi b) = l1 ++ set_end (heap_area p hi) b :: l2.
Proof.
  intros Hi Hr El Hl. destruct (store_break_same p hi b) as (Et & En & _). destruct Hr as [Hidx _ _ _ _ _ _].
  unfold live. rewrite Et, En. unfold arr_set. rewrite take_insert_lt by lia. fold (live p). rewrite El.
  replace (Z.to_nat hi) with (length l1 + 0)%nat by lia. by rewrite insert_app_r.
Qed.

(** Areas of other kinds do not notice. *)
Lemma heap_gkey l1 l2 h b x lim :
  StronglySorted before (l1 ++ h :: l2) → Forall valid_area (l1 ++ h :: l2) → kind h = VMA_KIND_HEAP →
  Forall (λ w, end_ w <= start h) l1 → Forall (λ w, start h + lim <= start w) l2 →
  end_ h <= start h + lim → start h <= b <= start h + lim →
  gkey (l1 ++ set_end h b :: l2) x = gkey (l1 ++ h :: l2) x.
Proof.
  intros Hs Hv Hk H1 H2 He Hb. unfold gkey.
  assert (∀ c, start h <= c <= start h + lim → vma_at (l1 ++ set_end h c :: l2) x =
    if covers (set_end h c) x then Some (vattr_of (set_end h c) x) else vma_at (l1 ++ l2) x) as Hat.
  { intros c Hc. rewrite !vma_at_app. simpl. destruct (covers (set_end h c) x) eqn:E; [|done].
    replace (vma_at l1 x) with (@None vattr); [done|]. symmetry. apply vma_at_None. eapply Forall_impl; [exact H1|].
    intros w Hw. cbn beta in *. unfold covers in *. cbn [start end_ set_end] in E. bprop. destruct (Z.leb_spec (start w) x), (Z.ltb_spec x (end_ w)); done || lia. }
  assert (start h <= end_ h <= start h + lim) as Hh.
  { apply Forall_app in Hv as [_ [Hvh _]%Forall_cons]. destruct Hvh as (? & ? & _). lia. }
  pose proof (Hat (end_ h) Hh) as Hold. replace (set_end h (end_ h)) with h in Hold by (by destruct h). rewrite (Hat b Hb), Hold.
  assert (∀ c, start h <= c <= start h + lim → covers (set_end h c) x = true → vma_at (l1 ++ l2) x = None) as Hnone.
  { intros c Hc E. apply vma_at_None. unfold covers in *. cbn [start end_ set_end] in E. bprop. apply Forall_app. split.
    - eapply Forall_impl; [exact H1|]. intros w Hw. cbn beta in *. destruct (Z.leb_spec (start w) x), (Z.ltb_spec x (end_ w)); done || lia.
    - eapply Forall_impl; [exact H2|]. intros w Hw. cbn beta in *. destruct (Z.leb_spec (start w) x), (Z.ltb_spec x (end_ w)); done || lia. }
  assert (∀ c, at_kind (vattr_of (set_end h c) x) =? VMA_KIND_GENERIC = false) as Hkind by (intros; cbn; by rewrite Hk).
  destruct (covers (set_end h b) x) eqn:Eb, (covers h x) eqn:Eh.
  - rewrite Hkind. specialize (Hkind (end_ h)). replace (set_end h (end_ h)) with h in Hkind by (by destruct h). by rewrite Hkind.
  - by rewrite Hkind, (Hnone b Hb Eb).
  - specialize (Hkind (end_ h)). replace (set_end h (end_ h)) with h in Hkind by (by destruct h). rewrite Hkind.
    rewrite (Hnone (end_ h) Hh); [done|]. by replace (set_end h (end_ h)) with h by (by destruct h).
  - done.
Qed.

Section brk.
Context {S : Type} `{PageAllocator S} (inv : S → Prop) (managed : S → Z → Prop).
Context `{!PageAllocatorLaws S inv managed}.
Context {Hp : Type} {KA : KAllocator Hp} {ka_inv : Hp → Prop} {ka_live : Hp → gset Z}
  {ka_room : Hp → Z → Z} {KL : KAllocatorLaws Hp ka_inv ka_live ka_room}.
Implicit Types (st : mm S Hp) (p : process).
Notation vm_ok := (vm_ok inv managed).
Notation mm_sound := (mm_sound (ka_inv := ka_inv) (ka_live := ka_live)).
Notation owns := (VmaSpec.owns (ka_inv := ka_inv) (ka_live := ka_live)).
Notation page_up b := (vm_page_align_up b / 4096).

Lemma room_committed p hi lim c : heap_room p hi lim → heap_room (set_committed p c) hi lim.
Proof.
  intros [H1 H2 H3 H4 H5 H6 H7]. destruct (set_committed_same p c) as (_ & Eb & Et & En & _). split; rewrite ?Et, ?En, ?Eb; done.
Qed.

(** Storing the break keeps what the count of committed pages was set for. *)
Lemma store_sound base st hi lim b m :
  vma_inv (mm_proc st) → owns (mm_heap st) (mm_proc st) → uniform (gkey (live (mm_proc st))) →
  committed (mm_proc st) = Some m → is_u32 m → heap_room (mm_proc st) hi lim →
  0 <= b <= USER_HEAP_MAX → start (heap_area (mm_proc st) hi) <= b <= start (heap_area (mm_proc st) hi) + lim →
  m + base = charged_pages (live (mm_proc st)) + page_up b → 0 <= base <= page_up b →
  mm_sound base (brk_store hi b st) ∧ heap_room (mm_proc (brk_store hi b st)) hi lim ∧
  live (mm_proc (brk_store hi b st)) = <[Z.to_nat hi := set_end (heap_area (mm_proc st) hi) b]> (live (mm_proc st)).
Proof.
  intros Hi Ho Hu Hc Hm Hr Hb Hbl Hbal Hbase. change (brk_store hi b st) with (with_proc st (store_break (mm_proc st) hi b)). cbn [mm_proc with_proc].
  set (p := mm_proc st) in *. destruct (heap_split p hi lim Hi Hr) as (l1 & l2 & El & Hl & H1 & H2).
  pose proof (store_break_live p hi lim b l1 l2 Hi Hr El Hl) as El'.
  destruct (store_break_same p hi b) as (Et & En & Ecap & Eo & Ec & Eb).
  pose proof Hi as [Vlen Vcnt Vcap Vval Vsort Vptr]. rewrite El in Vval, Vsort.
  pose proof Hr as [Ridx Rkind Rend Rlim Rtop Rbelow Rabove].
  assert (∀ x, gkey (live (store_break p hi b)) x = gkey (live p) x) as Hg.
  { intros x. rewrite El', El. apply (heap_gkey l1 l2 _ b x lim); try done. by rewrite Rend. }
  assert (∀ i, i ≠ hi → 0 <= i < vma_count p → (vma_table p).[hi <- set_end (heap_area p hi) b].[i] = (vma_table p).[i]) as Hoth.
  { intros i Hne Hir. unfold arr_get, arr_set. apply list_lookup_total_insert_ne. lia. }
  assert ((vma_table p).[hi <- set_end (heap_area p hi) b].[hi] = set_end (heap_area p hi) b) as Hsame.
  { unfold arr_get, arr_set. apply list_lookup_total_insert_eq. lia. }
  split; [split; cbn [mm_proc mm_heap with_proc]|split].
  - split; rewrite ?Et, ?En, ?Ecap, ?El'; try done.
    + unfold arr_set. by rewrite length_insert.
    + apply Forall_app in Vval as [V1 [Vh V2]%Forall_cons]. apply Forall_app. split; [done|]. apply Forall_cons. split; [|done].
      destruct Vh as (? & ? & ? & Hrest). unfold valid_area, USER_HEAP_MAX in *. cbn [start end_ flags file_offset file_size set_end]. split; [done|]. split; [lia|]. split; [lia|done].
    + apply StronglySorted_app in Vsort as (Vb & Vs1 & Vs2). apply StronglySorted_inv in Vs2 as [Vs2 Vb2].
      apply StronglySorted_app. split; [|split; [done|]].
      * intros w1 w2 Hw1 Hw2. rewrite Forall_forall in H1. specialize (H1 w1 Hw1). apply elem_of_cons in Hw2 as [->|Hw2]; [by left|].
        apply Vb; [done|by right].
      * constructor; [done|]. eapply Forall_impl; [exact H2|]. intros w Hw. cbn beta in *. left. cbn. lia.
    + unfold store_break. apply set_table_ptr. unfold set_brk. by destruct (as_ p).
  - destruct Ho. split; [done|]. by rewrite Eo.
  - split; unfold heap_pages; rewrite ?Eb; [intros x y E; rewrite !Hg; by apply Hu| |done]. exists m. rewrite Ec. split; [done|]. split; [done|].
    rewrite Hbal. f_equal. unfold charged_pages, tally_pages. apply tally_ext; [done|]. intros x _. unfold charge. by rewrite Hg.
  - split; rewrite ?Et, ?En, ?Eb, ?Hsame; cbn [kind end_ start set_end]; try done; try lia.
    + intros i Hir. rewrite Hoth by lia. by apply Rbelow.
    + intros i Hir. rewrite Hoth by lia. by apply Rabove.
  - rewrite El', El. replace (Z.to_nat hi) with (length l1 + 0)%nat by lia. by rewrite insert_app_r.
Qed.

Lemma page_up_spec b : 0 <= b <= USER_HEAP_MAX → vm_page_align_up b = 4096 * page_up b ∧ b <= 4096 * page_up b < b + 4096.
Proof. intros Hb. unfold USER_HEAP_MAX in Hb. rewrite page_align_up_spec by lia. Z.div_mod_to_equations; lia. Qed.

(** The number of pages between two breaks. *)
Lemma page_up_diff a b :
  0 <= a <= USER_HEAP_MAX → 0 <= b <= USER_HEAP_MAX → a <= b →
  0 <= page_up b - page_up a < 2 ^ 20 ∧ (vm_page_align_up b -u vm_page_align_up a) = 4096 * (page_up b - page_up a).
Proof.
  intros Ha Hb Hab. destruct (page_up_spec a Ha) as [Ua Ea], (page_up_spec b Hb) as [Ub Eb]. unfold USER_HEAP_MAX in *.
  rewrite !page_align_up_spec in * by lia. rewrite !Z.div_mul in * by lia.
  split; [Z.div_mod_to_equations; lia|]. rewrite u32_small by (unfold is_u32; Z.div_mod_to_equations; lia). lia.
Qed.

Section state.
Context (base : Z) (st : mm S Hp) (hi lim n : Z).
Notation p := (mm_proc st).
Notation h := (heap_area p hi).
Context (Hs : mm_sound base st) (Hr : heap_room p hi lim) (Hn : committed p = Some n) (Hnu : is_u32 n)
  (Hbal : n + base = charged_pages (live p) + page_up (vma_brk p)) (Hbase : 4096 * base <= start h).

Lemma brk_start : 0 <= start h <= vma_brk p.
Proof.
  destruct Hs as [Hi _ _]. destruct (heap_split p hi lim Hi Hr) as (l1 & l2 & El & _). pose proof (vi_valid _ Hi) as Hv.
  rewrite El in Hv. apply Forall_app in Hv as [_ [Hv _]%Forall_cons]. destruct Hv as (? & ? & _). rewrite <-(hr_end _ _ _ Hr). lia.
Qed.

Lemma brk_base b : start h <= b <= USER_HEAP_MAX → base <= page_up b.
Proof. intros Hb. pose proof brk_start. destruct (page_up_spec b ltac:(lia)). lia. Qed.

Lemma brk_grow_spec rlimit b :
  vma_brk p < b <= USER_HEAP_MAX → rlimit <= lim →
  let '(ok, st') := brk_grow rlimit (start h) (vma_brk p) b st in
  (ok = false ∧ st' = st) ∨
  (ok = true ∧ b <= start h + lim ∧ ∃ m, st' = with_commit st m ∧ is_u32 m ∧ m + base = charged_pages (live p) + page_up b).
Proof.
  intros Hb Hl. pose proof brk_start as Hst. unfold brk_grow.
  assert (is_Some (as_ p)) as Has by (unfold committed in Hn; destruct (as_ p); [by eexists|done]). rewrite bool_decide_true by done. cbn [andb].
  assert (b -u start h = b - start h) as -> by (unfold USER_HEAP_MAX in *; apply u32_small; unfold is_u32; lia).
  destruct (Z.ltb_spec rlimit (b - start h)); [by left|]. destruct (_ =? 0); [by left|].
  destruct (page_up_diff (vma_brk p) b) as [Hd Ed]; [lia..|]. rewrite Ed. set (k := page_up b - page_up (vma_brk p)) in *.
  destruct (page_up_spec b ltac:(lia)) as [Ub _], (page_up_spec (vma_brk p) ltac:(lia)) as [Ua _].
  destruct (Z.ltb_spec (vm_page_align_up (vma_brk p)) (vm_page_align_up b)) as [Hlt|Hge].
  - assert (0 < k) by lia. pose proof (reserve_pages st n k Hn Hnu Hd) as Hres. rewrite (proj2 (Z.eqb_neq (4096 * k) 0)) in Hres by lia. cbn [negb] in Hres.
    destruct (commit_reserve st (4096 * k)) as [rc st']. destruct Hres as [(-> & -> & Hu)|[Hrc ->]].
    + right. split; [done|]. split; [lia|]. exists (n + k). split; [done|]. split; [done|]. lia.
    + left. split; [by apply Z.eqb_neq|done].
  - right. split; [done|]. split; [lia|]. exists n. split; [|split; [done|lia]].
    unfold with_commit. rewrite set_committed_self by done. by destruct st.
Qed.

Lemma brk_shrink_spec pd b :
  start h <= b < vma_brk p →
  ∃ m, brk_shrink pd (vma_brk p) b st = with_commit (with_vm st (syscall_unmap_user_range pd (vm_page_align_up b) (vm_page_align_up (vma_brk p)))) m ∧
    is_u32 m ∧ m + base = charged_pages (live p) + page_up b.
Proof.
  intros Hb. pose proof brk_start as Hst. pose proof (hr_top _ _ _ Hr) as Htop.
  assert (∀ v, 0 <= v <= USER_HEAP_MAX → (v +u 0xFFF) &u not32 0xFFF = vm_page_align_up v) as Hup.
  { intros v Hv. unfold vm_page_align_up, USER_HEAP_MAX in *. destruct (Z.ltb_spec (UINT32_MAX - 0xFFF) v); [unfold UINT32_MAX in *; lia|done]. }
  unfold brk_shrink. rewrite !Hup by lia. destruct (page_up_diff b (vma_brk p)) as [Hd Ed]; [lia..|]. rewrite Ed.
  set (k := page_up (vma_brk p) - page_up b) in *.
  destruct (page_up_spec b ltac:(lia)) as [Ub _], (page_up_spec (vma_brk p) ltac:(lia)) as [Ua _].
  pose proof (charged_pages_range (live p)). pose proof (brk_base b ltac:(lia)).
  exists (n - k). split; [|split; [unfold is_u32 in *; lia|lia]].
  destruct (Z.ltb_spec (vm_page_align_up b) (vm_page_align_up (vma_brk p))).
  - destruct (whole_pages k Hd) as [Hku Hkp]. by apply commit_release_ok; cbn; try done; lia.
  - assert (k = 0) as -> by lia. rewrite Z.sub_0_r. unfold with_commit. cbn [mm_proc with_vm].
    rewrite set_committed_self by done. done.
Qed.
End state.

Lemma unmap_maybe σ D T K ext pd s e :
  vm_ok σ D T K ext → (∀ i, ix i → (pd, i) ∈ T) → 0 <= s → s mod 4096 = 0 → e mod 4096 = 0 → e <= 2 ^ 32 →
  range_changed inv managed D T K ext pd no_user σ (syscall_unmap_user_range pd s e σ) s e.
Proof.
  intros OK HT Hs Has Hae He. destruct (Z.lt_ge_cases s e); [by apply unmap_range_ok|].
  unfold syscall_unmap_user_range. rewrite (proj2 (Z.leb_le e s)) by done. split; [done|lia|done| |done]. intros. apply stays_refl.
Qed.

(** The heap of [st'] ends at [b]: the pages above it are gone, nothing else
    that anybody reads has changed. *)
Record break_set st st' D T K ext pd hi b : Prop := {
  bs_live : live (mm_proc st') = <[Z.to_nat hi := set_end (heap_area (mm_proc st) hi) b]> (live (mm_proc st));
  bs_ok : vm_ok (mm_vm st') D T K ext;
  bs_gone : ∀ v, is_u32 v → vm_page_align_up b <= v < vm_page_align_up (vma_brk (mm_proc st)) →
    user_load (vm_mem (mm_vm st')) pd v = None;
  bs_kept : ∀ pd' v, is_u32 v → (pd', pd_index v) ∈ T → no_device (vm_mem (mm_vm st)) pd' v →
    pd' ≠ pd ∨ ¬ vm_page_align_up b <= v < vm_page_align_up (vma_brk (mm_proc st)) →
    user_load (vm_mem (mm_vm st')) pd' v = user_load (vm_mem (mm_vm st)) pd' v;
}.

(** The common end: the break is stored over a state whose count was set for
    it and whose pages above it are gone. *)
Lemma brk_finish base st σ D T K ext pd hi lim b n m :
  mm_sound base st → heap_room (mm_proc st) hi lim → 4096 * base <= start (heap_area (mm_proc st) hi) →
  committed (mm_proc st) = Some n →
  range_changed inv managed D T K ext pd no_user (mm_vm st) σ (vm_page_align_up b) (vm_page_align_up (vma_brk (mm_proc st))) →
  is_u32 m → m + base = charged_pages (live (mm_proc st)) + page_up b →
  start (heap_area (mm_proc st) hi) <= b <= USER_HEAP_MAX → b <= start (heap_area (mm_proc st) hi) + lim →
  let st' := brk_store hi b (with_commit (with_vm st (λ _, σ)) m) in
  b = vma_brk (mm_proc st') ∧ mm_sound base st' ∧ heap_room (mm_proc st') hi lim ∧ break_set st st' D T K ext pd hi b.
Proof.
  intros Hs Hr Hbase Hn Hrc Hm Hmb Hb Hlim st'. pose proof Hs as [Hi Ho [Hu _ Hb0]]. pose proof (brk_start base st hi lim Hs Hr) as Hst.
  destruct (set_committed_same (mm_proc st) (Some m)) as (El & Eb & Et & En & Ecap & Eo).
  destruct (store_sound base (with_commit (with_vm st (λ _, σ)) m) hi lim b m) as (S1 & S2 & S3);
    cbn [with_commit with_proc with_vm mm_proc mm_heap mm_vm]; rewrite ?El, ?Et;
    [by apply set_committed_inv|by apply owns_committed|exact Hu|by eapply set_committed_get|exact Hm|by apply room_committed|lia|lia|exact Hmb| |].
  - split; [lia|]. by apply (brk_base base st hi lim Hs Hr Hbase).
  - cbn [with_commit with_proc with_vm mm_proc mm_heap mm_vm] in S3. rewrite El, Et in S3.
    destruct (store_break_same (set_committed (mm_proc st) (Some m)) hi b) as (_ & _ & _ & _ & _ & E).
    split; [exact (eq_sym E)|]. split; [done|]. split; [done|]. split; [done|by destruct Hrc| |].
    + intros v Hv Hvr. pose proof (rc_in _ _ _ _ _ _ _ _ _ _ _ _ Hrc v Hv Hvr) as Hw. unfold no_user in Hw. unfold user_load.
      change (vm_mem (mm_vm st')) with (vm_mem σ). rewrite Hw. destruct (walk_at (vm_mem (mm_vm st)) pd v) as [w|]; [|done].
      by destruct (user w) eqn:Eu; rewrite ?Eu.
    + intros. by eapply (range_load inv managed D T K ext pd no_user (mm_vm st)).
Qed.

(** C7: brk answers with the break, new or unchanged.  A refusal changes
    nothing.  Otherwise only the end of the heap area moves, within its limit;
    a smaller heap loses the pages above its new end and no other page of
    anybody changes; and the committed pages are again those that the areas
    and the heap need. *)
Theorem brk_correct base st D T K ext pd rlimit ebx hi lim :
  mm_sound base st → vma_find_kind (mm_proc st) VMA_KIND_HEAP = Some hi → heap_room (mm_proc st) hi lim → rlimit <= lim →
  4096 * base <= start (heap_area (mm_proc st) hi) → vm_ok (mm_vm st) D T K ext → (∀ i, ix i → (pd, i) ∈ T) →
  let '(r, st') := syscall_case_brk rlimit pd ebx st in
  r = vma_brk (mm_proc st') ∧ mm_sound base st' ∧ heap_room (mm_proc st') hi lim ∧
  (st' = st ∨ r = ebx ∧ break_set st st' D T K ext pd hi ebx).
Proof.
  intros Hs Hf Hr Hl Hbase OK HT. pose proof Hs as [_ _ [_ (n & Hn & Hnu & Hbal) _]]. unfold heap_pages in Hbal.
  pose proof (brk_start base st hi lim Hs Hr) as Hst. pose proof (hr_top _ _ _ Hr) as Htop. pose proof (hr_lim _ _ _ Hr) as Hlm.
  unfold syscall_case_brk. rewrite Hf. destruct (Z.eqb_spec ebx 0); [by auto|].
  destruct (Z.ltb_spec ebx (start (heap_area (mm_proc st) hi))), (Z.ltb_spec USER_HEAP_MAX ebx); cbn [orb]; [by auto..|].
  pose proof (λ σ m, brk_finish base st σ D T K ext pd hi lim ebx n m Hs Hr Hbase Hn) as Hfin.
  destruct (page_up_spec ebx ltac:(lia)) as [U1 ?], (page_up_spec (vma_brk (mm_proc st)) ltac:(lia)) as [U2 ?].
  assert (range_changed inv managed D T K ext pd no_user (mm_vm st)
    (syscall_unmap_user_range pd (vm_page_align_up ebx) (vm_page_align_up (vma_brk (mm_proc st))) (mm_vm st))
    (vm_page_align_up ebx) (vm_page_align_up (vma_brk (mm_proc st)))) as Hrc.
  { unfold USER_HEAP_MAX in *. apply unmap_maybe; try done; try apply align_up_aligned; unfold is_u32; lia. }
  assert (vma_brk (mm_proc st) <= ebx → syscall_unmap_user_range pd (vm_page_align_up ebx) (vm_page_align_up (vma_brk (mm_proc st))) (mm_vm st) = mm_vm st) as Hsame.
  { intros Hle. destruct (page_up_diff (vma_brk (mm_proc st)) ebx) as [Hd _]; [lia..|]. unfold syscall_unmap_user_range.
    by rewrite (proj2 (Z.leb_le _ _)) by lia. }
  destruct (Z.ltb_spec (vma_brk (mm_proc st)) ebx) as [Hgrow|Hshrink].
  - pose proof (brk_grow_spec base st hi lim n Hs Hr Hn Hnu Hbal Hbase rlimit ebx ltac:(lia) Hl) as Hg.
    destruct (brk_grow _ _ _ _ _) as [ok st1]. destruct Hg as [(-> & ->)|(-> & Hlim & m & -> & Hm & Hmb)]; cbn [negb]; [by auto|].
    rewrite (proj2 (Z.ltb_ge ebx (vma_brk (mm_proc st)))) by lia. rewrite Hsame in Hrc by lia.
    destruct (Hfin (mm_vm st) m Hrc Hm Hmb ltac:(lia) Hlim) as (F1 & F2 & F3 & F4).
    exact (conj F1 (conj F2 (conj F3 (or_intror (conj eq_refl F4))))).
  - cbn [negb]. destruct (Z.ltb_spec ebx (vma_brk (mm_proc st))) as [Hlt|Hge].
    + destruct (brk_shrink_spec base st hi lim n Hs Hr Hn Hnu Hbal Hbase pd ebx ltac:(lia)) as (m & -> & Hm & Hmb).
      destruct (Hfin _ m Hrc Hm Hmb ltac:(lia) ltac:(lia)) as (F1 & F2 & F3 & F4).
    exact (conj F1 (conj F2 (conj F3 (or_intror (conj eq_refl F4))))).
    + assert (ebx = vma_brk (mm_proc st)) as -> by lia. rewrite Hsame in Hrc by lia.
      assert (with_commit (with_vm st (λ _, mm_vm st)) n = st) as Eself.
      { unfold with_commit. cbn. rewrite set_committed_self by done. by destruct st. }
      destruct (Hfin (mm_vm st) n Hrc Hnu Hbal ltac:(lia) ltac:(lia)) as (F1 & F2 & F3 & F4). rewrite Eself in *. exact (conj F1 (conj F2 (conj F3 (or_intror (conj eq_refl F4))))).
Qed.
End brk.
