(* ===== verification/MmsysDemo.v ===== *)
(** * Memory system calls: concrete instances

    The theorems of [MmsysProps] and [MmsysBrk] at one process, whose areas are
    those of [VmaProps] and whose page tables those of [PagingDemo], and two
    sequences of calls on it that do not do what they should. *)

From stdpp Require Import sorting.
From S2P Require Import Prelude Interfaces PmmCore Kheap Memory Kstring Vma VmaSpec VmaProps Commit Paging PagingSpec PagingInv PagingSteps PagingOps PagingSpaces PagingClone PagingFork Fault Uaccess FaultSpec FaultOps PagingDemo PagingProps FaultProps Mmsys MmsysOps MmsysPages MmsysProps MmsysBrk.

#[local] Notation kh_laws := kheap_allocator_laws.

(** Four writable anonymous pages and two of heap are committed. *)
Definition demo_mm : mm pmm_core_state kheap := mk_mm demo_page demo_table_heap (set_committed demo_proc (Some 6)).
Definition demo_heap_page : Z := 0x804A.

Notation demo_sound := (mm_sound (ka_inv := heap_inv) (ka_live := heap_live)).

Lemma aligned_uniform l :
  Forall (λ v, start v mod 4096 = 0 ∧ end_ v mod 4096 = 0) l → uniform (gkey l).
Proof.
  induction 1 as [|v l [Hs He] _ IH]; [done|]. intros x y E. unfold gkey. cbn [vma_at].
  assert (covers v x = covers v y) as -> by exact (in_range_uniform _ _ Hs He x y E).
  destruct (covers v y); [done|]. exact (IH x y E).
Qed.

Lemma demo_uniform : uniform (gkey demo_areas).
Proof. apply aligned_uniform. unfold demo_areas. forall_list; cbn; split; reflexivity. Qed.

Lemma charge_first g v l x : charge g (v :: l) x = if covers v x then selects g v else charge g l x.
Proof. unfold charge, gkey, selects. cbn [vma_at]. destruct (covers v x); [|reflexivity]. cbn [vattr_of at_kind at_flags]. by destruct (kind v =? _). Qed.

Lemma demo_charged x : charge charged demo_areas x = (0x40000000 <=? x) && (x <? 0x40004000).
Proof.
  unfold demo_areas. rewrite !charge_first. change (charge charged [] x) with false.
  change (selects charged (mk_vma 0x40000000 _ _ _ _ _ _)) with true.
  change (selects charged (mk_vma 0x08048000 _ _ _ _ _ _)) with false. change (selects charged (mk_vma 0x0804A000 _ _ _ _ _ _)) with false.
  change (selects charged (mk_vma 0x50000000 _ _ _ _ _ _)) with false. change (selects charged (mk_vma 0xBFFF0000 _ _ _ _ _ _)) with false.
  unfold covers. cbn [start end_].
  destruct (Z.leb_spec 0x08048000 x), (Z.ltb_spec x 0x0804A000), (Z.leb_spec 0x0804A000 x), (Z.ltb_spec x 0x0804C000),
    (Z.leb_spec 0x40000000 x), (Z.ltb_spec x 0x40004000); cbn [andb]; try reflexivity; try lia; (destruct (_ && _); [reflexivity|destruct (_ && _); reflexivity]).
Qed.

Lemma demo_charged_pages : charged_pages demo_areas = 4.
Proof.
  pose proof (charged_pages_bytes demo_areas demo_uniform) as E.
  rewrite (tally_ext _ (λ x, (0x40000000 <=? x) && (x <? 0x40004000))), tally_interval in E by (lia || (intros; apply demo_charged)). lia.
Qed.

Lemma demo_mm_sound : demo_sound demo_heap_page demo_mm.
Proof.
  destruct (set_committed_same demo_proc (Some 6)) as (El & Eb & _). split; cbn [demo_mm mm_proc mm_heap].
  - apply set_committed_inv, demo_proc_inv.
  - apply owns_committed, demo_proc_owns.
  - split; unfold heap_pages; rewrite ?El, ?Eb; change (live demo_proc) with demo_areas.
    + exact demo_uniform.
    + exists 6. split; [reflexivity|]. split; [unfold is_u32; lia|]. rewrite demo_charged_pages. reflexivity.
    + unfold demo_heap_page. vm_compute. split; discriminate.
Qed.

Lemma demo_mm_small : small_table (mm_proc demo_mm).
Proof. unfold small_table. vm_compute. reflexivity. Qed.

Lemma demo_mm_user : user_areas (mm_proc demo_mm).
Proof. exact demo_proc_user. Qed.

Lemma demo_mm_room : heap_room (mm_proc demo_mm) 1 0x4000000.
Proof.
  assert (vma_count (mm_proc demo_mm) = 5) as En by reflexivity. split.
  - rewrite En. lia.
  - reflexivity.
  - reflexivity.
  - vm_compute. discriminate.
  - vm_compute. discriminate.
  - intros i Hi. assert (i = 0) as -> by lia. vm_compute. discriminate.
  - rewrite En. intros i Hi. assert (i = 2 ∨ i = 3 ∨ i = 4) as [->|[->| ->]] by lia; vm_compute; discriminate.
Qed.

(** The page of [PagingDemo] is the only one mapped in the range. *)
Lemma demo_range_walk v : is_u32 v → 0x40000000 <= v < 0x40001000 → walk_at (vm_mem demo_page) demo_pd v = Some demo_entry.
Proof.
  intros Hv Hr. rewrite <-demo_page_walk. unfold walk_at. destruct (same_page_index v demo_virt) as [-> ->]; [|reflexivity].
  unfold demo_virt. Z.div_mod_to_equations; lia.
Qed.

Lemma demo_protectable v : is_u32 v → 0x40000000 <= v < 0x40001000 → protectable demo_D demo_T demo_pd demo_page v.
Proof.
  intros Hv Hr e He. rewrite demo_range_walk in He by assumption. injection He as <-.
  split; [reflexivity|]. split; [reflexivity|]. intros Hw. exfalso. vm_compute in Hw. discriminate.
Qed.

(** ** The theorems *)

Lemma munmap_correct_witness :
  (syscall_case_munmap demo_pd 0x40000000 0x1000 demo_mm).1 = 0 ∧
  user_load (vm_mem (mm_vm (syscall_case_munmap demo_pd 0x40000000 0x1000 demo_mm).2)) demo_pd 0x40000007 = None.
Proof.
  split; [vm_compute; reflexivity|].
  pose proof (munmap_correct pmm_inv pmm_managed (KL := kh_laws) demo_heap_page demo_mm demo_D demo_T demo_K no_ext demo_pd 0x40000000 0x1000
    demo_mm_sound demo_mm_small ltac:(unfold is_u32; lia) ltac:(unfold is_u32; lia) demo_page_ok demo_dirs) as Hw.
  assert ((syscall_case_munmap demo_pd 0x40000000 0x1000 demo_mm).1 = 0) as E by (vm_compute; reflexivity).
  destruct (syscall_case_munmap demo_pd 0x40000000 0x1000 demo_mm) as [r st']. cbn [fst snd] in E |- *.
  destruct Hw as (_ & _ & [(_ & e & Ee & _ & _ & Hnone & _)|[Hr _]]); [|rewrite E in Hr; discriminate Hr].
  apply Hnone. assert (e = 0x40001000) as ->; [|lia]. vm_compute in Ee. by injection Ee.
Defined.

Lemma mprotect_correct_witness :
  (syscall_case_mprotect demo_pd 0x40000000 0x1000 LINUX_PROT_READ demo_mm).1 = 0 ∧
  reprotected LINUX_PROT_READ (Some demo_entry)
    (walk_at (vm_mem (mm_vm (syscall_case_mprotect demo_pd 0x40000000 0x1000 LINUX_PROT_READ demo_mm).2)) demo_pd 0x40000000).
Proof.
  split; [vm_compute; reflexivity|].
  pose proof (mprotect_correct pmm_inv pmm_managed (KL := kh_laws) demo_heap_page demo_mm demo_D demo_T demo_K no_ext demo_pd 0x40000000 0x1000
    LINUX_PROT_READ demo_mm_sound demo_mm_small ltac:(unfold is_u32; lia) ltac:(unfold is_u32; lia) demo_page_ok demo_dirs eq_refl) as Hw.
  assert (∀ e, user_range 0x40000000 0x1000 = Some e → e = 0x40001000) as He by (intros e Ee; vm_compute in Ee; by injection Ee).
  assert ((syscall_case_mprotect demo_pd 0x40000000 0x1000 LINUX_PROT_READ demo_mm).1 = 0) as E by (vm_compute; reflexivity).
  destruct (syscall_case_mprotect demo_pd 0x40000000 0x1000 LINUX_PROT_READ demo_mm) as [r st']. cbn [fst snd] in E |- *.
  destruct Hw as (_ & _ & [(_ & e & Ee & _ & _ & Hin & _)|[Hr _]]); [| |rewrite E in Hr; discriminate Hr].
  - intros e v Ee Hv Hr. rewrite (He e Ee) in Hr. by apply demo_protectable.
  - rewrite (He e Ee) in Hin. specialize (Hin 0x40000000 ltac:(lia)).
    rewrite demo_range_walk in Hin by (unfold is_u32; lia). exact Hin.
Defined.

Lemma mmap_anonymous_correct_witness :
  (syscall_mmap_anonymous_private 0 5000 3 demo_mm).1 = Some 0xBFEEE000 ∧
  demo_sound demo_heap_page (syscall_mmap_anonymous_private 0 5000 3 demo_mm).2.
Proof.
  split; [vm_compute; reflexivity|].
  pose proof (mmap_anonymous_correct (KL := kh_laws) demo_heap_page demo_mm 0 5000 3 demo_mm_sound demo_mm_small demo_mm_user
    ltac:(vm_compute; split; [discriminate|reflexivity]) ltac:(unfold is_u32; lia) ltac:(unfold is_u32; lia)) as Hw.
  destruct (syscall_mmap_anonymous_private 0 5000 3 demo_mm) as [r st']. exact (proj1 Hw).
Defined.

Lemma brk_correct_witness :
  (syscall_case_brk 0x4000000 demo_pd 0x0804A800 demo_mm).1 = 0x0804A800 ∧
  demo_sound demo_heap_page (syscall_case_brk 0x4000000 demo_pd 0x0804A800 demo_mm).2.
Proof.
  split; [vm_compute; reflexivity|].
  pose proof (brk_correct pmm_inv pmm_managed (ka_inv := heap_inv) (ka_live := heap_live) demo_heap_page demo_mm demo_D demo_T demo_K no_ext demo_pd 0x4000000 0x0804A800 1 0x4000000
    demo_mm_sound eq_refl demo_mm_room ltac:(lia) ltac:(vm_compute; discriminate) demo_page_ok demo_dirs) as Hw.
  destruct (syscall_case_brk 0x4000000 demo_pd 0x0804A800 demo_mm) as [r st']. exact (proj1 (proj2 Hw)).
Defined.

(** ** Two sequences of calls *)

(** The page is made read-only, the process forks, and the child makes the
    page writable again: it then writes into the parent's page. *)
Theorem mprotect_after_fork_shares :
  let parent := (syscall_case_mprotect demo_pd 0x40000000 0x1000 LINUX_PROT_READ demo_mm).2 in
  let '(child, σ) := paging_clone_user_space (mm_vm parent) demo_pd in
  let '(r, st) := syscall_case_mprotect child 0x40000000 0x1000 3 (with_vm parent (λ _, σ)) in
  r = 0 ∧ user_load (vm_mem (mm_vm st)) demo_pd 0x40000000 = Some 0 ∧
  (λ m, user_load m demo_pd 0x40000000) <$> user_store (vm_mem (mm_vm st)) child 0x40000000 0x41 = Some (Some 0x41).
Proof. vm_compute. repeat split. Qed.

(** After mprotect with no access, mprotect that gives access back answers that
    it did and the page stays out of reach; and munmap leaves it mapped. *)
Theorem mprotect_none_loses_page :
  let '(r1, st1) := syscall_case_mprotect demo_pd 0x40000000 0x1000 0 demo_mm in
  let '(r2, st2) := syscall_case_mprotect demo_pd 0x40000000 0x1000 3 st1 in
  let '(r3, st3) := syscall_case_munmap demo_pd 0x40000000 0x1000 st2 in
  (r1, r2, r3) = (0, 0, 0) ∧ user_load (vm_mem (mm_vm st2)) demo_pd 0x40000000 = None ∧
  walk_at (vm_mem (mm_vm st3)) demo_pd 0x40000000 = Some 0x13001.
Proof. vm_compute. repeat split. Qed.

(** The only page of a table is unmapped and the process forks: a page that the
    parent maps there afterwards is the child's too. *)
Theorem clone_shares_empty_table :
  let parent := (syscall_case_munmap demo_pd 0x40000000 0x1000 demo_mm).2 in
  let '(child, σ) := paging_clone_user_space (mm_vm parent) demo_pd in
  let '(r, σ) := lazy_zero_page σ demo_pd 0x40001000 (lazy_map_flags (demo_area 0x1B)) in
  child ≠ 0 ∧ r = 0 ∧
  (λ m, user_load m child 0x40001000) <$> user_store (vm_mem σ) demo_pd 0x40001000 0x41 = Some (Some 0x41).
Proof. vm_compute. repeat split. discriminate. Qed.
