(* ===== verification/Vfs.v ===== *)
(** * The VFS: mount tree and routing (kernel/fs/vfs/)

    The registry of file systems, the table of mounts, path normalisation, and
    the operations that find the mount of a path and call the file system behind
    it.  A path is the bytes before its NUL; [None] is a NULL pointer.  The
    kernel's other state is one type [W], which the heap and the file systems
    act on: a mounted file system is its operation table ([fs_ops_t *] is the
    address of the table, and an entry that is NULL is [None]), and procfs and
    sysfs are the functions the VFS calls directly.  What an operation stores in
    a buffer of the caller is returned beside its result. *)

From S2P Require Import Prelude Interfaces Blkdev.

Definition VFS_FS_NAME_MAX : Z := 8.
Definition VFS_MAX_FS : Z := 4.
Definition VFS_MAX_MOUNTS : Z := 8.
Definition VFS_DEV_NAME_MAX : Z := 12.
Definition VFS_MOUNT_SOURCE_MAX : Z := 16.
Definition VFS_MOUNT_PATH_MAX : Z := 128.

Definition VFS_STAT_TYPE_FILE : Z := 1.
Definition VFS_STAT_TYPE_DIR : Z := 2.
Definition VFS_STAT_TYPE_SYMLINK : Z := 3.
Definition VFS_STAT_TYPE_BLOCKDEV : Z := 4.

Definition VFS_NODE_NONE : Z := 0.
Definition VFS_NODE_FILE : Z := 1.
Definition VFS_NODE_DIR : Z := 2.
Definition VFS_NODE_CHARDEV : Z := 3.
Definition VFS_NODE_TTY : Z := 4.
Definition VFS_NODE_BLOCKDEV : Z := 7.
Definition VFS_NODE_SYSFILE : Z := 8.
Definition VFS_NODE_PTYMASTER : Z := 9.
Definition VFS_NODE_PTYSLAVE : Z := 10.

Definition VFS_MOUNT_KIND_NONE : Z := 0.
Definition VFS_MOUNT_KIND_FS : Z := 1.
Definition VFS_MOUNT_KIND_DEVFS : Z := 2.
Definition VFS_MOUNT_KIND_PROCFS : Z := 3.
Definition VFS_MOUNT_KIND_SYSFS : Z := 4.

Record vfs_stat_t := { st_type : Z; st_size : Z; st_link_count : Z; st_mtime : Z }.

Record vfs_node := {
  n_type : Z; n_inode : Z; n_mount : Z; n_size : Z; n_dev : Z; n_dev_name : list Z;
  n_proc_kind : Z; n_proc_pid : Z; n_proc_index : Z;
}.

Record vfs_reg := { r_name : list Z; r_ops : Z }.
#[global] Instance vfs_reg_inhabited : Inhabited vfs_reg := populate {| r_name := []; r_ops := 0 |}.

Record vfs_mount_t := {
  m_in_use : bool; m_kind : Z; m_ops : Z; m_source : list Z; m_fstype : list Z;
  m_options : list Z; m_path : list Z; m_path_len : Z;
}.
#[global] Instance vfs_mount_inhabited : Inhabited vfs_mount_t :=
  populate {| m_in_use := false; m_kind := 0; m_ops := 0; m_source := []; m_fstype := [];
              m_options := []; m_path := []; m_path_len := 0 |}.

(** The two tables. *)
Record vfs := { vfs_table : list vfs_reg; vfs_mounts : list vfs_mount_t }.

(** The operation tables of the registered file systems. *)
Class FsOps (W : Type) := {
  op_ctx : Z → bool;
  op_init : Z → option (W → option (list Z) → Z * W);
  op_open : Z → option (W → list Z → Z * Z * Z * W);
  op_getdents : Z → W → option (list Z) → Z → Z * list Z * W;
  op_create : Z → option (W → list Z → Z * W);
  op_unlink : Z → option (W → list Z → Z * W);
  op_mkdir : Z → option (W → list Z → Z * W);
  op_rmdir : Z → option (W → list Z → Z * W);
  op_rename : Z → option (W → list Z → list Z → Z * W);
  op_link : Z → option (W → list Z → list Z → Z → Z * W);
  op_symlink : Z → option (W → list Z → list Z → Z * W);
  op_readlink : Z → option (W → list Z → Z → Z * list Z * W);
  op_stat : Z → option (W → list Z → Z * vfs_stat_t * W);
  op_lstat : Z → option (W → list Z → Z * vfs_stat_t * W);
  op_read : Z → option (W → Z → Z → Z → Z * list Z * W);
  op_write : Z → option (W → Z → Z → list Z → Z * W);
  op_truncate : Z → option (W → Z → Z → Z * W);
  op_flush : Z → option (W → Z → Z * W);
}.

(** [procfs_*], [sysfs_*] and the registered block devices. *)
Class PseudoFs (W : Type) := {
  procfs_fill_node : W → list Z → vfs_node → Z * vfs_node * W;
  procfs_stat : W → list Z → Z * vfs_stat_t * W;
  procfs_getdents : W → list Z → Z → Z * list Z * W;
  sysfs_fill_node : W → list Z → vfs_node → Z * vfs_node * W;
  sysfs_stat : W → list Z → Z * vfs_stat_t * W;
  sysfs_getdents : W → list Z → Z → Z * list Z * W;
  sysfs_read_file : W → Z → Z → Z → Z * list Z * W;
  blkdev_table : W → list blkdev_entry;
}.

(** ** Strings *)

Definition ch_slash : Z := 47.
Definition ch_dot : Z := 46.

(** [k_strcmp(a, b) == 0], [k_strncmp(a, b, n) == 0], [k_strlen] on the bytes
    before the NUL; reading the byte at the end gives the NUL. *)
Definition str_eq (a b : list Z) : bool := bool_decide (a = b).
Definition strn_eq (a b : list Z) (n : Z) : bool := bool_decide (take (Z.to_nat n) a = take (Z.to_nat n) b).
Definition str_len (s : list Z) : Z := Z.of_nat (length s).

Definition char_at (s : list Z) (i : Z) : Z := default 0 (s !! Z.to_nat i).

(** [k_strncpy(dst, src, size - 1); dst[size - 1] = 0] *)
Definition str_copy (src : list Z) (size : Z) : list Z := take (Z.to_nat (size - 1)) src.

(** [k_strrchr(s, '/')] *)
Fixpoint last_slash_from (i : Z) (s : list Z) : option Z :=
  match s with
  | [] => None
  | c :: s => match last_slash_from (i + 1) s with
              | Some j => Some j
              | None => if c =? ch_slash then Some i else None
              end
  end.
Definition last_slash (s : list Z) : option Z := last_slash_from 0 s.

(** ** Path normalisation *)

Fixpoint skip_slashes (p : list Z) : list Z :=
  match p with
  | c :: p' => if c =? ch_slash then skip_slashes p' else p
  | [] => []
  end.

Fixpoint comp_len (p : list Z) : Z :=
  match p with
  | [] => 0
  | c :: p => if c =? ch_slash then 0 else 1 + comp_len p
  end.

(** [while (w > 0 && out[w - 1] != '/') w--;] *)
Fixpoint back_to_slash (w : nat) (out : list Z) : nat :=
  match w with
  | O => O
  | S w' => if char_at out (Z.of_nat w') =? ch_slash then w else back_to_slash w' out
  end.

Definition pop_component (out : list Z) : list Z :=
  match out with
  | [] => []
  | _ => take (pred (back_to_slash (length out) out)) out
  end.

(** [out] is the first [w] bytes of the buffer of [outsz] bytes.  [None] is fuel
    that ran out, [Some None] the return of -1. *)
Fixpoint normalize_loop (fuel : nat) (path out : list Z) (outsz : Z) : option (option (list Z)) :=
  match fuel with
  | O => None
  | S fuel =>
      match skip_slashes path with
      | [] => Some (Some out)
      | start =>
          let len := comp_len start in
          let path := drop (Z.to_nat len) start in
          if (len =? 1) && (char_at start 0 =? ch_dot) then normalize_loop fuel path out outsz
          else if (len =? 2) && (char_at start 0 =? ch_dot) && (char_at start 1 =? ch_dot) then
            normalize_loop fuel path (pop_component out) outsz
          else
            let w := str_len out in
            if negb (w =? 0) && (outsz <=? w +u 1) then Some None
            else
              let out := if w =? 0 then out else out ++ [ch_slash] in
              if outsz <=? str_len out +u len then Some None
              else normalize_loop fuel path (out ++ take (Z.to_nat len) start) outsz
      end
  end.

(** Every round consumes a byte of the path, so this fuel is enough. *)
Definition vfs_normalize_path (path : option (list Z)) (outsz : Z) : option (list Z) :=
  if outsz =? 0 then None
  else match path with
       | None => Some []
       | Some p => default None (normalize_loop (S (length p)) p [] outsz)
       end.

(** ** The mount table *)

Definition in_use (v : vfs) (i : Z) : bool := m_in_use (vfs_mounts v).[i].

Definition vfs_has_mounts (v : vfs) : bool :=
  match for_exit 0 (Z.to_nat VFS_MAX_MOUNTS) (λ i _, if in_use v i then inl tt else inr tt) tt with
  | inl _ => true
  | inr _ => false
  end.

Definition vfs_find_mount_exact (v : vfs) (norm_path : list Z) : Z :=
  match for_exit 0 (Z.to_nat VFS_MAX_MOUNTS)
          (λ i _, if negb (in_use v i) then inr tt
                  else if str_eq (m_path (vfs_mounts v).[i]) norm_path then inl i else inr tt) tt with
  | inl i => i
  | inr _ => -1
  end.

Definition vfs_mount_matches (mnt : vfs_mount_t) (norm_path : list Z) : bool :=
  if negb (m_in_use mnt) then false
  else if m_path_len mnt =? 0 then true
  else if negb (strn_eq norm_path (m_path mnt) (m_path_len mnt)) then false
  else (char_at norm_path (m_path_len mnt) =? 0) || (char_at norm_path (m_path_len mnt) =? ch_slash).

Definition vfs_find_mount_for_path (v : vfs) (norm_path : list Z) : Z :=
  (for_loop 0 (Z.to_nat VFS_MAX_MOUNTS)
     (λ i '(best, best_len),
        let mnt := (vfs_mounts v).[i] in
        if negb (vfs_mount_matches mnt norm_path) then (best, best_len)
        else if (best <? 0) || (best_len <? m_path_len mnt) then (i, m_path_len mnt)
        else (best, best_len)) (-1, 0)).1.

Definition vfs_relpath (mnt : vfs_mount_t) (norm_path : list Z) : list Z :=
  if m_path_len mnt =? 0 then norm_path
  else if char_at norm_path (m_path_len mnt) =? 0 then drop (Z.to_nat (m_path_len mnt)) norm_path
  else drop (Z.to_nat (m_path_len mnt + 1)) norm_path.

(** ** Synthetic nodes *)

Definition vfs_dir_stat : vfs_stat_t :=
  {| st_type := VFS_STAT_TYPE_DIR; st_size := 0; st_link_count := 1; st_mtime := 0 |}.
Definition vfs_filelike_stat : vfs_stat_t :=
  {| st_type := VFS_STAT_TYPE_FILE; st_size := 0; st_link_count := 1; st_mtime := 0 |}.
Definition vfs_blockdev_stat (size : Z) : vfs_stat_t :=
  {| st_type := VFS_STAT_TYPE_BLOCKDEV; st_size := size; st_link_count := 1; st_mtime := 0 |}.

Definition zero_node : vfs_node :=
  {| n_type := VFS_NODE_NONE; n_inode := 0; n_mount := 0; n_size := 0; n_dev := 0; n_dev_name := [];
     n_proc_kind := 0; n_proc_pid := 0; n_proc_index := 0 |}.

Definition with_type (t : Z) (n : vfs_node) : vfs_node :=
  {| n_type := t; n_inode := n_inode n; n_mount := n_mount n; n_size := n_size n; n_dev := n_dev n;
     n_dev_name := n_dev_name n; n_proc_kind := n_proc_kind n; n_proc_pid := n_proc_pid n;
     n_proc_index := n_proc_index n |}.
Definition with_dev (d : Z) (n : vfs_node) : vfs_node :=
  {| n_type := n_type n; n_inode := n_inode n; n_mount := n_mount n; n_size := n_size n; n_dev := d;
     n_dev_name := n_dev_name n; n_proc_kind := n_proc_kind n; n_proc_pid := n_proc_pid n;
     n_proc_index := n_proc_index n |}.
Definition with_dev_name (s : list Z) (n : vfs_node) : vfs_node :=
  {| n_type := n_type n; n_inode := n_inode n; n_mount := n_mount n; n_size := n_size n; n_dev := n_dev n;
     n_dev_name := s; n_proc_kind := n_proc_kind n; n_proc_pid := n_proc_pid n;
     n_proc_index := n_proc_index n |}.
Definition with_size (s : Z) (n : vfs_node) : vfs_node :=
  {| n_type := n_type n; n_inode := n_inode n; n_mount := n_mount n; n_size := s; n_dev := n_dev n;
     n_dev_name := n_dev_name n; n_proc_kind := n_proc_kind n; n_proc_pid := n_proc_pid n;
     n_proc_index := n_proc_index n |}.
Definition with_inode (x : Z) (n : vfs_node) : vfs_node :=
  {| n_type := n_type n; n_inode := x; n_mount := n_mount n; n_size := n_size n; n_dev := n_dev n;
     n_dev_name := n_dev_name n; n_proc_kind := n_proc_kind n; n_proc_pid := n_proc_pid n;
     n_proc_index := n_proc_index n |}.
Definition with_mount (x : Z) (n : vfs_node) : vfs_node :=
  {| n_type := n_type n; n_inode := n_inode n; n_mount := x; n_size := n_size n; n_dev := n_dev n;
     n_dev_name := n_dev_name n; n_proc_kind := n_proc_kind n; n_proc_pid := n_proc_pid n;
     n_proc_index := n_proc_index n |}.

Record devfs_entry := { de_name : list Z; de_type : Z; de_dev_id : Z; de_dev_name : option (list Z) }.

Definition str_stdin : list Z := [115; 116; 100; 105; 110].
Definition str_tty0 : list Z := [116; 116; 121; 48].
Definition str_fb0 : list Z := [102; 98; 48].
Definition str_fb0info : list Z := [102; 98; 48; 105; 110; 102; 111].
Definition str_kbd : list Z := [107; 98; 100].
Definition str_mouse : list Z := [109; 111; 117; 115; 101].
Definition str_wm : list Z := [119; 109].
Definition str_ptmx : list Z := [112; 116; 109; 120].
Definition str_devfs : list Z := [100; 101; 118; 102; 115].
Definition str_proc : list Z := [112; 114; 111; 99].
Definition str_procfs : list Z := [112; 114; 111; 99; 102; 115].
Definition str_sysfs : list Z := [115; 121; 115; 102; 115].

Definition devfs_entries : list devfs_entry :=
  [ {| de_name := str_stdin; de_type := VFS_NODE_TTY; de_dev_id := 0; de_dev_name := None |};
    {| de_name := str_tty0; de_type := VFS_NODE_TTY; de_dev_id := 0; de_dev_name := None |};
    {| de_name := str_fb0; de_type := VFS_NODE_CHARDEV; de_dev_id := 0; de_dev_name := Some str_fb0 |};
    {| de_name := str_fb0info; de_type := VFS_NODE_CHARDEV; de_dev_id := 0; de_dev_name := Some str_fb0info |};
    {| de_name := str_kbd; de_type := VFS_NODE_CHARDEV; de_dev_id := 0; de_dev_name := Some str_kbd |};
    {| de_name := str_mouse; de_type := VFS_NODE_CHARDEV; de_dev_id := 0; de_dev_name := Some str_mouse |};
    {| de_name := str_wm; de_type := VFS_NODE_CHARDEV; de_dev_id := 0; de_dev_name := Some str_wm |} ].

Definition devfs_fill_blockdev_node (tbl : list blkdev_entry) (relpath : list Z) (node : vfs_node) :
    Z * vfs_node :=
  match for_exit 0 (Z.to_nat (blkdev_count tbl))
          (λ i _, match blkdev_info_at tbl i with
                  | None => inr tt
                  | Some info =>
                      if negb (str_eq relpath (bi_name info)) then inr tt
                      else inl (with_dev_name (str_copy (bi_name info) VFS_DEV_NAME_MAX)
                                  (with_size (bi_sectors info *u bi_sector_size info)
                                     (with_dev i (with_type VFS_NODE_BLOCKDEV node))))
                  end) tt with
  | inl node => (0, node)
  | inr _ => (-1, node)
  end.

(** The digits after ["pts"]: the number modulo 2^32, or [None] at a byte that
    is not a digit. *)
Fixpoint pts_number (digits : list Z) (n : Z) : option Z :=
  match digits with
  | [] => Some n
  | c :: digits => if (c <? 48) || (57 <? c) then None else pts_number digits (n *u 10 +u (c - 48))
  end.

Definition devfs_fill_pty_node (relpath : list Z) (node : vfs_node) : Z * vfs_node :=
  if str_eq relpath str_ptmx then (0, with_type VFS_NODE_PTYMASTER node)
  else if (char_at relpath 0 =? 112) && (char_at relpath 1 =? 116) && (char_at relpath 2 =? 115) then
    match drop 3 relpath with
    | [] => (-1, node)
    | digits => match pts_number digits 0 with
                | None => (-1, node)
                | Some n => (0, with_dev n (with_type VFS_NODE_PTYSLAVE node))
                end
    end
  else (-1, node).

Definition devfs_fill_node (tbl : list blkdev_entry) (relpath : list Z) (node : vfs_node) : Z * vfs_node :=
  let node := {| n_type := n_type node; n_inode := 0; n_mount := 0; n_size := 0; n_dev := 0;
                 n_dev_name := []; n_proc_kind := 0; n_proc_pid := 0; n_proc_index := 0 |} in
  match relpath with
  | [] => (0, with_type VFS_NODE_DIR node)
  | _ =>
      match list_find (λ ent, relpath = de_name ent) devfs_entries with
      | Some (_, ent) =>
          let node := with_dev (de_dev_id ent) (with_type (de_type ent) node) in
          (0, match de_dev_name ent with
              | Some s => with_dev_name (str_copy s VFS_DEV_NAME_MAX) node
              | None => node
              end)
      | None =>
          let '(rc, node) := devfs_fill_pty_node relpath node in
          if rc =? 0 then (0, node)
          else let '(rc, node) := devfs_fill_blockdev_node tbl relpath node in
               if rc =? 0 then (0, node) else (-1, node)
      end
  end.

Definition devfs_stat (tbl : list blkdev_entry) (relpath : list Z) : option vfs_stat_t :=
  let '(rc, node) := devfs_fill_node tbl relpath zero_node in
  if negb (rc =? 0) then None
  else if n_type node =? VFS_NODE_DIR then Some vfs_dir_stat
  else if n_type node =? VFS_NODE_BLOCKDEV then Some (vfs_blockdev_stat (n_size node))
  else Some vfs_filelike_stat.

(** [out] is what the buffer of [bufsz] bytes holds so far; [None] is -1. *)
Definition vfs_append_dirent (out : list Z) (bufsz : Z) (name : list Z) (is_dir : bool) : option (list Z) :=
  if bufsz <? str_len out +u str_len name +u (if is_dir then 2 else 1) then None
  else Some (out ++ name ++ (if is_dir then [ch_slash] else []) ++ [0]).

(** The name of the mount in the directory, when it is mounted right below. *)
Definition vfs_mount_child_name (dir_path : list Z) (mnt : vfs_mount_t) : option (list Z) :=
  if negb (m_in_use mnt) || (m_path_len mnt =? 0) then None
  else
    let dir_len := str_len dir_path in
    let name :=
      if dir_len =? 0 then Some (m_path mnt)
      else if negb (strn_eq (m_path mnt) dir_path dir_len) then None
      else if negb (char_at (m_path mnt) dir_len =? ch_slash) then None
      else Some (drop (Z.to_nat (dir_len + 1)) (m_path mnt)) in
    match name with
    | None => None
    | Some name => if bool_decide (name = []) || bool_decide (ch_slash ∈ name) then None else Some name
    end.

Definition vfs_entry_shadowed (v : vfs) (dir_path entry : list Z) : bool :=
  let entry_len :=
    if (0 <? str_len entry) && (char_at entry (str_len entry - 1) =? ch_slash) then str_len entry - 1
    else str_len entry in
  match for_exit 0 (Z.to_nat VFS_MAX_MOUNTS)
          (λ i _, match vfs_mount_child_name dir_path (vfs_mounts v).[i] with
                  | None => inr tt
                  | Some child =>
                      if (str_len child =? entry_len) && strn_eq child entry entry_len then inl tt else inr tt
                  end) tt with
  | inl _ => true
  | inr _ => false
  end.

(** [devfs_getdents] on the root of the devfs; any other path is refused. *)
Definition devfs_getdents (tbl : list blkdev_entry) (relpath : list Z) (bufsz : Z) : Z * list Z :=
  match relpath with
  | _ :: _ => (-1, [])
  | [] =>
      let out :=
        match for_exit 0 (length devfs_entries)
                (λ i out, match devfs_entries !! Z.to_nat i with
                          | None => inr out
                          | Some ent => match vfs_append_dirent out bufsz (de_name ent) false with
                                        | None => inl out
                                        | Some out => inr out
                                        end
                          end) [] with inl out => out | inr out => out end in
      let out :=
        match for_exit 0 (Z.to_nat (blkdev_count tbl))
                (λ i out, match blkdev_info_at tbl i with
                          | None => inr out
                          | Some info => match vfs_append_dirent out bufsz (bi_name info) false with
                                         | None => inl out
                                         | Some out => inr out
                                         end
                          end) out with inl out => out | inr out => out end in
      (str_len out, out)
  end.

(** ** The registry *)

Definition vfs_lookup_fs (v : vfs) (name : list Z) : Z * Z :=
  if str_eq name str_devfs then (0, VFS_MOUNT_KIND_DEVFS)
  else if str_eq name str_procfs then (0, VFS_MOUNT_KIND_PROCFS)
  else if str_eq name str_sysfs then (0, VFS_MOUNT_KIND_SYSFS)
  else
    match for_exit 0 (Z.to_nat VFS_MAX_FS)
            (λ i _, let r := (vfs_table v).[i] in
                    if bool_decide (r_name r = []) then inr tt
                    else if str_eq (r_name r) name then inl (r_ops r, VFS_MOUNT_KIND_FS) else inr tt) tt with
    | inl r => r
    | inr _ => (0, VFS_MOUNT_KIND_NONE)
    end.

Definition vfs_default_source_for_kind (kind : Z) (fs_name : list Z) : list Z :=
  if kind =? VFS_MOUNT_KIND_PROCFS then str_proc
  else if kind =? VFS_MOUNT_KIND_SYSFS then str_sysfs
  else if kind =? VFS_MOUNT_KIND_DEVFS then str_devfs
  else fs_name.

Definition vfs_fstype_for_kind (kind : Z) (fs_name : list Z) : list Z :=
  if kind =? VFS_MOUNT_KIND_PROCFS then str_proc
  else if kind =? VFS_MOUNT_KIND_SYSFS then str_sysfs
  else if kind =? VFS_MOUNT_KIND_DEVFS then str_devfs
  else fs_name.

(** ["rw,nosuid"], ["rw,nosuid,nodev,noexec,relatime"], ["rw"] *)
Definition str_rw : list Z := [114; 119].
Definition str_rw_nosuid : list Z := str_rw ++ [44; 110; 111; 115; 117; 105; 100].
Definition str_rw_strict : list Z :=
  str_rw_nosuid ++ [44; 110; 111; 100; 101; 118] ++ [44; 110; 111; 101; 120; 101; 99] ++
  [44; 114; 101; 108; 97; 116; 105; 109; 101].

Definition vfs_options_for_kind (kind : Z) : list Z :=
  if kind =? VFS_MOUNT_KIND_DEVFS then str_rw_nosuid
  else if (kind =? VFS_MOUNT_KIND_PROCFS) || (kind =? VFS_MOUNT_KIND_SYSFS) then str_rw_strict
  else str_rw.

Definition vfs_reset : vfs :=
  {| vfs_table := replicate (Z.to_nat VFS_MAX_FS) inhabitant;
     vfs_mounts := replicate (Z.to_nat VFS_MAX_MOUNTS) inhabitant |}.

Definition vfs_register (v : vfs) (name : list Z) (ops : Z) : Z * vfs :=
  if ops =? 0 then (-1, v)
  else
    match for_exit 0 (Z.to_nat VFS_MAX_FS)
            (λ i _, let r := (vfs_table v).[i] in
                    if bool_decide (r_name r = []) then inr tt
                    else if str_eq (r_name r) name then inl (if r_ops r =? ops then 0 else -1)
                    else inr tt) tt with
    | inl rc => (rc, v)
    | inr _ =>
        match for_exit 0 (Z.to_nat VFS_MAX_FS)
                (λ i _, if negb (bool_decide (r_name (vfs_table v).[i] = [])) then inr tt else inl i) tt with
        | inl i => (0, {| vfs_table := (vfs_table v).[i <- {| r_name := str_copy name VFS_FS_NAME_MAX; r_ops := ops |}];
                          vfs_mounts := vfs_mounts v |})
        | inr _ => (-1, v)
        end
    end.

Definition vfs_mount_count (v : vfs) : Z :=
  for_loop 0 (Z.to_nat VFS_MAX_MOUNTS) (λ i count, if in_use v i then count +u 1 else count) 0.

Record vfs_mount_info := { mi_source : list Z; mi_path : list Z; mi_fstype : list Z; mi_options : list Z }.

Definition vfs_mount_info_at (v : vfs) (index : Z) : option vfs_mount_info :=
  match for_exit 0 (Z.to_nat VFS_MAX_MOUNTS)
          (λ i seen,
             let m := (vfs_mounts v).[i] in
             if negb (m_in_use m) then inr seen
             else if seen =? index then
               inl {| mi_source := str_copy (m_source m) VFS_MOUNT_SOURCE_MAX;
                      mi_path := ch_slash :: str_copy (m_path m) (VFS_MOUNT_PATH_MAX - 1);
                      mi_fstype := str_copy (m_fstype m) VFS_FS_NAME_MAX;
                      mi_options := str_copy (m_options m) 48 |}
             else inr (seen +u 1)) 0 with
  | inl info => Some info
  | inr _ => None
  end.

(** ** Operations *)

Section operations.
Context {W : Type} `{KAllocator W} `{FsOps W} `{PseudoFs W}.
Implicit Types (w : W) (v : vfs) (path : option (list Z)).

(** The address of the buffer and the path in it. *)
Definition vfs_normalize_alloc w path : option (Z * list Z) * W :=
  let len := match path with Some p => str_len p | None => 0 end in
  let '(norm, w) := ka_malloc w (len +u 1) in
  if norm =? 0 then (None, w)
  else match vfs_normalize_path path (len +u 1) with
       | None => (None, ka_free w norm)
       | Some out => (Some (norm, out), w)
       end.

(** A [vfs_lookup_ctx_t] whose [mnt] is [&vfs_mounts[mount_idx]]; it is set up to
    the field where the initialisation failed. *)
Record lookup_ctx := { c_norm : option (Z * list Z); c_mount_idx : Z; c_rel : list Z }.

Definition ctx_path (ctx : lookup_ctx) : list Z := match c_norm ctx with Some (_, s) => s | None => [] end.

Definition vfs_lookup_ctx_clear w (ctx : lookup_ctx) : W :=
  match c_norm ctx with Some (norm, _) => ka_free w norm | None => w end.

Definition vfs_lookup_ctx_init w v path : Z * lookup_ctx * W :=
  let '(norm, w) := vfs_normalize_alloc w path in
  match norm with
  | None => (-1, {| c_norm := None; c_mount_idx := -1; c_rel := [] |}, w)
  | Some (_, s) =>
      let idx := vfs_find_mount_for_path v s in
      if idx <? 0 then (-1, {| c_norm := norm; c_mount_idx := idx; c_rel := [] |}, w)
      else (0, {| c_norm := norm; c_mount_idx := idx; c_rel := vfs_relpath (vfs_mounts v).[idx] s |}, w)
  end.

Definition vfs_mutation_lookup_ctx_init w v path : Z * lookup_ctx * W :=
  let '(rc, ctx, w) := vfs_lookup_ctx_init w v path in
  if negb (rc =? 0) then (-1, ctx, vfs_lookup_ctx_clear w ctx)
  else if bool_decide (ctx_path ctx = []) || (0 <=? vfs_find_mount_exact v (ctx_path ctx)) then
    (-1, ctx, vfs_lookup_ctx_clear w ctx)
  else (0, ctx, w).

(** The buffer to free, the mount and the path below it. *)
Definition vfs_mutation_mount w v path : option (Z * Z * list Z) * W :=
  let '(rc, ctx, w) := vfs_mutation_lookup_ctx_init w v path in
  if negb (rc =? 0) then (None, w)
  else match c_norm ctx with
       | Some (norm, _) => (Some (norm, c_mount_idx ctx, c_rel ctx), w)
       | None => (None, w)
       end.

Definition mount_ops v (idx : Z) : Z := m_ops (vfs_mounts v).[idx].
Definition mount_kind v (idx : Z) : Z := m_kind (vfs_mounts v).[idx].

Definition vfs_mkdir w v path : Z * W :=
  match vfs_mutation_mount w v path with
  | (None, w) => (-1, w)
  | (Some (norm, mnt, rel), w) =>
      match mount_kind v mnt =? VFS_MOUNT_KIND_FS, op_mkdir (mount_ops v mnt) with
      | true, Some f => let '(rc, w) := f w rel in (rc, ka_free w norm)
      | _, _ => (-1, ka_free w norm)
      end
  end.

Definition vfs_create w v path : Z * W :=
  match vfs_mutation_mount w v path with
  | (None, w) => (-1, w)
  | (Some (norm, mnt, rel), w) =>
      match mount_kind v mnt =? VFS_MOUNT_KIND_FS, op_create (mount_ops v mnt) with
      | true, Some f => let '(rc, w) := f w rel in (rc, ka_free w norm)
      | _, _ => (-1, ka_free w norm)
      end
  end.

Definition vfs_unlink w v path : Z * W :=
  match vfs_mutation_mount w v path with
  | (None, w) => (-1, w)
  | (Some (norm, mnt, rel), w) =>
      match mount_kind v mnt =? VFS_MOUNT_KIND_FS, op_unlink (mount_ops v mnt) with
      | true, Some f => let '(rc, w) := f w rel in (rc, ka_free w norm)
      | _, _ => (-1, ka_free w norm)
      end
  end.

Definition vfs_rmdir w v path : Z * W :=
  match vfs_mutation_mount w v path with
  | (None, w) => (-1, w)
  | (Some (norm, mnt, rel), w) =>
      match mount_kind v mnt =? VFS_MOUNT_KIND_FS, op_rmdir (mount_ops v mnt) with
      | true, Some f => let '(rc, w) := f w rel in (rc, ka_free w norm)
      | _, _ => (-1, ka_free w norm)
      end
  end.

Definition vfs_rename w v oldpath newpath : Z * W :=
  match vfs_mutation_mount w v oldpath with
  | (None, w) => (-1, w)
  | (Some (oldnorm, oldmnt, oldrel), w) =>
      match vfs_mutation_mount w v newpath with
      | (None, w) => (-1, ka_free w oldnorm)
      | (Some (newnorm, newmnt, newrel), w) =>
          let '(rc, w) :=
            match (oldmnt =? newmnt) && (mount_kind v oldmnt =? VFS_MOUNT_KIND_FS),
                  op_rename (mount_ops v oldmnt) with
            | true, Some f => f w oldrel newrel
            | _, _ => (-1, w)
            end in
          (rc, ka_free (ka_free w newnorm) oldnorm)
      end
  end.

Definition vfs_link w v oldpath newpath (follow : Z) : Z * W :=
  match vfs_mutation_mount w v oldpath with
  | (None, w) => (-1, w)
  | (Some (oldnorm, oldmnt, oldrel), w) =>
      match vfs_mutation_mount w v newpath with
      | (None, w) => (-1, ka_free w oldnorm)
      | (Some (newnorm, newmnt, newrel), w) =>
          let '(rc, w) :=
            match (oldmnt =? newmnt) && (mount_kind v oldmnt =? VFS_MOUNT_KIND_FS),
                  op_link (mount_ops v oldmnt) with
            | true, Some f => f w oldrel newrel follow
            | _, _ => (-1, w)
            end in
          (rc, ka_free (ka_free w newnorm) oldnorm)
      end
  end.

Definition vfs_symlink w v (target : option (list Z)) (linkpath : option (list Z)) : Z * W :=
  match target with
  | None | Some [] => (-1, w)
  | Some target =>
      match vfs_mutation_mount w v linkpath with
      | (None, w) => (-1, w)
      | (Some (norm, mnt, rel), w) =>
          match mount_kind v mnt =? VFS_MOUNT_KIND_FS, op_symlink (mount_ops v mnt) with
          | true, Some f => let '(rc, w) := f w target rel in (rc, ka_free w norm)
          | _, _ => (-1, ka_free w norm)
          end
      end
  end.

Definition vfs_readlink w v path (bufsz : Z) : Z * list Z * W :=
  if bufsz =? 0 then (-22, [], w)
  else
    let '(rc, ctx, w) := vfs_lookup_ctx_init w v path in
    if negb (rc =? 0) then
      ((if bool_decide (ctx_path ctx = []) then -22 else -2), [], vfs_lookup_ctx_clear w ctx)
    else if bool_decide (ctx_path ctx = []) || (0 <=? vfs_find_mount_exact v (ctx_path ctx)) then
      (-22, [], vfs_lookup_ctx_clear w ctx)
    else
      match mount_kind v (c_mount_idx ctx) =? VFS_MOUNT_KIND_FS,
            op_readlink (mount_ops v (c_mount_idx ctx)) with
      | true, Some f => let '(rc, buf, w) := f w (c_rel ctx) bufsz in (rc, buf, vfs_lookup_ctx_clear w ctx)
      | _, _ => (-22, [], vfs_lookup_ctx_clear w ctx)
      end.

(** What [*st] holds matters to a caller that sees 0; otherwise it is whatever
    was there, here a default. *)
Definition no_stat : vfs_stat_t := {| st_type := 0; st_size := 0; st_link_count := 0; st_mtime := 0 |}.

Definition vfs_stat_mount w v (follow : bool) (ctx : lookup_ctx) : Z * vfs_stat_t * W :=
  let mnt := c_mount_idx ctx in
  let ops := mount_ops v mnt in
  if mount_kind v mnt =? VFS_MOUNT_KIND_DEVFS then
    match devfs_stat (blkdev_table w) (c_rel ctx) with
    | Some st => (0, st, w)
    | None => (-1, no_stat, w)
    end
  else if mount_kind v mnt =? VFS_MOUNT_KIND_PROCFS then procfs_stat w (c_rel ctx)
  else if mount_kind v mnt =? VFS_MOUNT_KIND_SYSFS then sysfs_stat w (c_rel ctx)
  else
    match (if follow then None else op_lstat ops), op_stat ops with
    | Some f, _ | None, Some f => f w (c_rel ctx)
    | None, None =>
        match op_open ops with
        | None => (-1, no_stat, w)
        | Some f =>
            let '(rc, _, sz, w) := f w (c_rel ctx) in
            (rc, (if rc =? 0 then {| st_type := VFS_STAT_TYPE_FILE; st_size := sz; st_link_count := 1; st_mtime := 0 |}
                  else no_stat), w)
        end
    end.

Definition vfs_stat_common w v path (follow : bool) : Z * vfs_stat_t * W :=
  let '(rc, ctx, w) := vfs_lookup_ctx_init w v path in
  if negb (rc =? 0) then
    match c_norm ctx with
    | Some (_, []) => if vfs_has_mounts v then (0, vfs_dir_stat, vfs_lookup_ctx_clear w ctx)
                      else (-1, no_stat, vfs_lookup_ctx_clear w ctx)
    | _ => (-1, no_stat, vfs_lookup_ctx_clear w ctx)
    end
  else if bool_decide (ctx_path ctx = []) || (0 <=? vfs_find_mount_exact v (ctx_path ctx)) then
    (0, vfs_dir_stat, vfs_lookup_ctx_clear w ctx)
  else
    let '(rc, st, w) := vfs_stat_mount w v follow ctx in
    (rc, st, vfs_lookup_ctx_clear w ctx).

Definition vfs_stat w v path : Z * vfs_stat_t * W := vfs_stat_common w v path true.
Definition vfs_lstat w v path : Z * vfs_stat_t * W := vfs_stat_common w v path false.

(** ** Mounting *)

(** The path without its last component. *)
Definition parent_path (norm : list Z) : list Z :=
  let parent := str_copy norm VFS_MOUNT_PATH_MAX in
  match last_slash parent with Some i => take (Z.to_nat i) parent | None => [] end.

Definition new_mount (norm : list Z) (kind ops : Z) (source : option (list Z)) (fs_name : list Z) : vfs_mount_t :=
  let path := str_copy norm VFS_MOUNT_PATH_MAX in
  {| m_in_use := true; m_kind := kind; m_ops := ops;
     m_source := str_copy (match source with Some s => s | None => vfs_default_source_for_kind kind fs_name end)
                   VFS_MOUNT_SOURCE_MAX;
     m_fstype := str_copy (vfs_fstype_for_kind kind fs_name) VFS_FS_NAME_MAX;
     m_options := str_copy (vfs_options_for_kind kind) 48;
     m_path := path; m_path_len := str_len path |}.

Definition vfs_mount_with_source w v (mount_path : option (list Z)) (fs_name : list Z)
    (source : option (list Z)) : Z * vfs * W :=
  match vfs_normalize_path mount_path VFS_MOUNT_PATH_MAX with
  | None => (-1, v, w)
  | Some norm =>
      if 0 <=? vfs_find_mount_exact v norm then (-1, v, w)
      else
        let '(ops, kind) := vfs_lookup_fs v fs_name in
        if (ops =? 0) && negb (kind =? VFS_MOUNT_KIND_DEVFS) && negb (kind =? VFS_MOUNT_KIND_PROCFS) &&
           negb (kind =? VFS_MOUNT_KIND_SYSFS) then (-1, v, w)
        else
          let '(parent_ok, w) :=
            match norm with
            | [] => (true, w)
            | _ => let '(rc, st, w) := vfs_stat w v (Some (parent_path norm)) in
                   ((rc =? 0) && (st_type st =? 2), w)
            end in
          if negb parent_ok then (-1, v, w)
          else
            let '(rc, w) :=
              if kind =? VFS_MOUNT_KIND_FS then
                match op_init ops with
                | Some f => f w (if op_ctx ops then None else source)
                | None => (0, w)
                end
              else (0, w) in
            if negb (rc =? 0) then (rc, v, w)
            else
              match for_exit 0 (Z.to_nat VFS_MAX_MOUNTS) (λ i _, if in_use v i then inr tt else inl i) tt with
              | inl i => (0, {| vfs_table := vfs_table v;
                                vfs_mounts := (vfs_mounts v).[i <- new_mount norm kind ops source fs_name] |}, w)
              | inr _ => (-1, v, w)
              end
  end.

Definition vfs_mount w v (mount_path : option (list Z)) (fs_name : list Z) : Z * vfs * W :=
  vfs_mount_with_source w v mount_path fs_name None.

(** ** Resolution and file references *)

(** The node of a path below mount [mnt]. *)
Definition resolve_mount w v (mnt : Z) (rel : list Z) : Z * vfs_node * W :=
  let ops := mount_ops v mnt in
  if mount_kind v mnt =? VFS_MOUNT_KIND_DEVFS then
    let '(rc, node) := devfs_fill_node (blkdev_table w) rel zero_node in (rc, node, w)
  else if mount_kind v mnt =? VFS_MOUNT_KIND_PROCFS then procfs_fill_node w rel zero_node
  else if mount_kind v mnt =? VFS_MOUNT_KIND_SYSFS then
    let '(rc, node, w) := sysfs_fill_node w rel zero_node in
    (rc, (if (rc =? 0) && (n_type node =? VFS_NODE_SYSFILE) then with_mount (u32 mnt +u 1) node else node), w)
  else
    let '(early, w) :=
      match op_stat ops with
      | None => (None, w)
      | Some f =>
          let '(rc, st, w) := f w rel in
          (if (rc =? 0) && (st_type st =? 2) then Some (0, with_type VFS_NODE_DIR zero_node)
           else if rc <? -1 then Some (rc, zero_node) else None, w)
      end in
    match early, op_open ops with
    | Some (rc, node), _ => (rc, node, w)
    | None, None => (-1, zero_node, w)
    | None, Some f =>
        let '(rc, ino, sz, w) := f w rel in
        let node := with_size sz (with_inode ino zero_node) in
        if rc =? 0 then (0, with_mount (u32 mnt +u 1) (with_type VFS_NODE_FILE node), w)
        else ((if rc <? -1 then rc else -1), node, w)
    end.

(** [node_out] says whether the caller's pointer is not NULL: with NULL the code
    leaves after [vfs_normalize_alloc], without freeing its block. *)
Definition vfs_resolve w v path (node_out : bool) : Z * vfs_node * W :=
  match vfs_normalize_alloc w path with
  | (None, w) => (-1, zero_node, w)
  | (Some (p, norm), w) =>
      if negb node_out then (-1, zero_node, w)
      else if bool_decide (norm = []) then
        if vfs_has_mounts v then (0, with_type VFS_NODE_DIR zero_node, ka_free w p)
        else (-1, zero_node, ka_free w p)
      else if 0 <=? vfs_find_mount_exact v norm then (0, with_type VFS_NODE_DIR zero_node, ka_free w p)
      else
        let idx := vfs_find_mount_for_path v norm in
        if idx <? 0 then (-1, zero_node, ka_free w p)
        else
          let '(rc, node, w) := resolve_mount w v idx (vfs_relpath (vfs_mounts v).[idx] norm) in
          (rc, node, ka_free w p)
  end.

Definition vfs_open_file w v path : option (Z * Z * Z) * W :=
  let '(rc, node, w) := vfs_resolve w v path true in
  if negb (rc =? 0) || (negb (n_type node =? VFS_NODE_FILE) && negb (n_type node =? VFS_NODE_SYSFILE)) then
    (None, w)
  else (Some (n_mount node, n_inode node, n_size node), w).

Definition vfs_ops_for_file_ref v (mount_id : Z) : Z :=
  if mount_id =? 0 then 0
  else
    let idx := mount_id -u 1 in
    if VFS_MAX_MOUNTS <=? idx then 0
    else if negb (in_use v idx) || negb (mount_kind v idx =? VFS_MOUNT_KIND_FS) then 0
    else mount_ops v idx.

(** [ops && ops->f] *)
Definition ops_entry {F} (ops : Z) (f : Z → option F) : option F := if ops =? 0 then None else f ops.

Definition is_sysfs_ref v (mount_id : Z) : bool :=
  negb (mount_id =? 0) &&
  (let idx := mount_id -u 1 in
   (idx <? VFS_MAX_MOUNTS) && in_use v idx && (mount_kind v idx =? VFS_MOUNT_KIND_SYSFS)).

Definition vfs_read w v (mount_id inode_num offset count : Z) : Z * list Z * W :=
  if is_sysfs_ref v mount_id then sysfs_read_file w inode_num offset count
  else match ops_entry (vfs_ops_for_file_ref v mount_id) op_read with
       | None => (-1, [], w)
       | Some f => f w inode_num offset count
       end.

Definition vfs_write w v (mount_id inode_num offset : Z) (buf : list Z) : Z * W :=
  match ops_entry (vfs_ops_for_file_ref v mount_id) op_write with
  | None => (-1, w)
  | Some f => f w inode_num offset buf
  end.

Definition vfs_truncate w v (mount_id inode_num size : Z) : Z * W :=
  match ops_entry (vfs_ops_for_file_ref v mount_id) op_truncate with
  | None => (-1, w)
  | Some f => f w inode_num size
  end.

Definition vfs_flush w v (mount_id inode_num : Z) : Z * W :=
  match ops_entry (vfs_ops_for_file_ref v mount_id) op_flush with
  | None => (-1, w)
  | Some f => f w inode_num
  end.

(** ** Directory listings *)

(** The string at [tmp + i]. *)
Fixpoint until_nul (s : list Z) : list Z :=
  match s with
  | [] => []
  | c :: s => if c =? 0 then [] else c :: until_nul s
  end.
Definition str_at (tmp : list Z) (i : Z) : list Z := until_nul (drop (Z.to_nat i) tmp).

(** [i] grows in every round, so [n] rounds are enough. *)
Fixpoint copy_entries (fuel : nat) v (norm tmp : list Z) (i n bufsz : Z) (out : list Z) : list Z :=
  match fuel with
  | O => out
  | S fuel =>
      if i <? n then
        let entry := str_at tmp i in
        let ent_len := str_len entry in
        if negb (vfs_entry_shadowed v norm entry) then
          if bufsz <? str_len out +u ent_len +u 1 then out
          else copy_entries fuel v norm tmp (i + ent_len + 1) n bufsz (out ++ entry ++ [0])
        else copy_entries fuel v norm tmp (i + ent_len + 1) n bufsz out
      else out
  end.

Definition append_mounts v (norm : list Z) (bufsz : Z) (out : list Z) : list Z :=
  match for_exit 0 (Z.to_nat VFS_MAX_MOUNTS)
          (λ i out, match vfs_mount_child_name norm (vfs_mounts v).[i] with
                    | None => inr out
                    | Some child => match vfs_append_dirent out bufsz child true with
                                    | None => inl out
                                    | Some out => inr out
                                    end
                    end) out with
  | inl out => out
  | inr out => out
  end.

(** The entries of the mounted file system; [None] is the return of -1. *)
Definition list_mount w v (mnt : Z) (norm : list Z) (bufsz : Z) : option (list Z) * W :=
  let rel := vfs_relpath (vfs_mounts v).[mnt] norm in
  if mount_kind v mnt =? VFS_MOUNT_KIND_DEVFS then
    let '(n, out) := devfs_getdents (blkdev_table w) rel bufsz in
    if n <? 0 then (None, w) else (Some out, w)
  else if mount_kind v mnt =? VFS_MOUNT_KIND_PROCFS then
    let '(n, out, w) := procfs_getdents w rel bufsz in
    if n <? 0 then (None, w) else (Some (take (Z.to_nat n) out), w)
  else if mount_kind v mnt =? VFS_MOUNT_KIND_SYSFS then
    let '(n, out, w) := sysfs_getdents w rel bufsz in
    if n <? 0 then (None, w) else (Some (take (Z.to_nat n) out), w)
  else
    let '(tmp, w) := ka_malloc w (if bufsz =? 0 then 1 else bufsz) in
    if tmp =? 0 then (None, w)
    else
      let '(n, bytes, w) :=
        op_getdents (mount_ops v mnt) w (match rel with [] => None | _ => Some rel end) bufsz in
      if n <? 0 then (None, ka_free w tmp)
      else (Some (copy_entries (Z.to_nat n) v norm bytes 0 n bufsz []), ka_free w tmp).

(** [buf] says whether the caller's buffer is not NULL; with NULL the block of
    [vfs_normalize_alloc] is left behind here too. *)
Definition vfs_getdents w v path (buf : bool) (bufsz : Z) : Z * list Z * W :=
  match vfs_normalize_alloc w path with
  | (None, w) => (-1, [], w)
  | (Some (p, norm), w) =>
      if negb buf then (-1, [], w)
      else if bool_decide (norm = []) && negb (vfs_has_mounts v) then (-1, [], ka_free w p)
      else
        let mount_idx := vfs_find_mount_for_path v norm in
        let '(entries, w) :=
          if 0 <=? mount_idx then list_mount w v mount_idx norm bufsz
          else if bool_decide (norm = []) then (Some [], w) else (None, w) in
        match entries with
        | None => (-1, [], ka_free w p)
        | Some out =>
            let out := append_mounts v norm bufsz out in
            (str_len out, out, ka_free w p)
        end
  end.
End operations.
