(* ===== verification/VfsPath.v ===== *)
(** * Paths: what normalisation means

    The reference reading of a path: its components between slashes, and the
    list left when ["."] is dropped and [".."] takes the one before it.
    [vfs_normalize_path] computes its text, and matching a mount is the prefix
    order on component lists. *)

From S2P Require Import Prelude Interfaces Blkdev Vfs.

Notation comp := (list Z).

(** ** Components *)

Definition emit (cur : comp) (l : list comp) : list comp := match cur with [] => l | _ => cur :: l end.

Fixpoint comps_from (cur : comp) (p : list Z) : list comp :=
  match p with
  | [] => emit cur []
  | c :: p => if c =? ch_slash then emit cur (comps_from [] p) else comps_from (cur ++ [c]) p
  end.
Definition comps (p : list Z) : list comp := comps_from [] p.

Definition walk (acc : list comp) (c : comp) : list comp :=
  if bool_decide (c = [ch_dot]) then acc
  else if bool_decide (c = [ch_dot; ch_dot]) then take (pred (length acc)) acc
  else acc ++ [c].

(** Where a path leads from the root. *)
Definition canon (p : list Z) : list comp := foldl walk [] (comps p).

Fixpoint join (cs : list comp) : list Z :=
  match cs with
  | [] => []
  | [c] => c
  | c :: cs => c ++ ch_slash :: join cs
  end.

Definition sep_comp (c : comp) : Prop := c ≠ [] ∧ ch_slash ∉ c.
Definition good_comp (c : comp) : Prop := sep_comp c ∧ c ≠ [ch_dot] ∧ c ≠ [ch_dot; ch_dot] ∧ 0 ∉ c.

Definition c_string (p : list Z) : Prop := 0 ∉ p.

Lemma good_sep cs : Forall good_comp cs → Forall sep_comp cs.
Proof. intros Hg. eapply Forall_impl; [exact Hg|]. by intros c [? _]. Qed.
#[export] Hint Resolve good_sep : core.

(** ** Splitting and joining *)

Lemma join_cons c cs : join (c :: cs) = c ++ match cs with [] => [] | _ => ch_slash :: join cs end.
Proof. destruct cs; simpl; [by rewrite app_nil_r|done]. Qed.

Lemma join_app a b :
  join (a ++ b) = match a, b with
                  | [], _ => join b
                  | _, [] => join a
                  | _, _ => join a ++ ch_slash :: join b
                  end.
Proof.
  destruct b as [|d b]; [rewrite app_nil_r; by destruct a|].
  induction a as [|c [|e a] IH]; [done|done|].
  change (join ((c :: e :: a) ++ d :: b)) with (c ++ ch_slash :: join ((e :: a) ++ d :: b)).
  change (join (c :: e :: a)) with (c ++ ch_slash :: join (e :: a)). rewrite IH. by rewrite <-app_assoc.
Qed.

Lemma join_snoc a c : join (a ++ [c]) = (match a with [] => [] | _ => join a ++ [ch_slash] end) ++ c.
Proof. rewrite join_app. destruct a; [done|]. by rewrite <-app_assoc. Qed.

Lemma join_nil cs : Forall sep_comp cs → join cs = [] ↔ cs = [].
Proof.
  intros Hs. split; [|by intros ->]. destruct cs as [|c cs]; [done|]. rewrite join_cons. intros E.
  apply Forall_cons in Hs as [[Hc _] _]. apply app_eq_nil in E as [-> _]. done.
Qed.

Lemma comps_sep cur p : cur = [] ∨ sep_comp cur → Forall sep_comp (comps_from cur p).
Proof.
  assert (∀ cur l, cur = [] ∨ sep_comp cur → Forall sep_comp l → Forall sep_comp (emit cur l)) as He.
  { intros c l [->|Hc] Hl; [done|]. destruct c; [done|]. by constructor. }
  revert cur. induction p as [|c p IH]; intros cur Hc; simpl; [by apply He|].
  destruct (Z.eqb_spec c ch_slash); [apply He; [done|]; apply IH; by left|]. apply IH. right.
  split; [by destruct cur|]. rewrite elem_of_app, list_elem_of_singleton.
  destruct Hc as [->|[_ Hc]]; intros [|]; set_solver.
Qed.

Lemma comps_slash a b cur : comps_from cur (a ++ ch_slash :: b) = comps_from cur a ++ comps b.
Proof.
  assert (∀ cur l k, emit cur (l ++ k) = emit cur l ++ k) as He by by intros [].
  revert cur. induction a as [|c a IH]; intros cur; simpl; [by rewrite <-He|].
  destruct (c =? ch_slash); [by rewrite IH, <-He|apply IH].
Qed.

Lemma comps_word c : ch_slash ∉ c → ∀ cur, comps_from cur c = emit (cur ++ c) [].
Proof.
  induction c as [|x c IH]; intros Hc cur; simpl; [by rewrite app_nil_r|].
  destruct (Z.eqb_spec x ch_slash) as [->|]; [set_solver|]. rewrite IH by set_solver. by rewrite <-app_assoc.
Qed.

Lemma comps_join cs : Forall sep_comp cs → comps (join cs) = cs.
Proof.
  induction cs as [|c cs IH]; intros Hs; [done|]. apply Forall_cons in Hs as [[Hne Hc] Hs].
  rewrite join_cons. destruct cs as [|d cs].
  - rewrite app_nil_r. unfold comps. rewrite comps_word by done. by destruct c.
  - unfold comps. rewrite comps_slash, comps_word by done. rewrite (IH Hs). by destruct c.
Qed.

Lemma join_inj a b : Forall sep_comp a → Forall sep_comp b → join a = join b → a = b.
Proof. intros Ha Hb E. by rewrite <-(comps_join a Ha), E, comps_join. Qed.

(** ** Canonical lists *)

Lemma comps_nonul cur p : 0 ∉ cur → c_string p → Forall (λ c, 0 ∉ c) (comps_from cur p).
Proof.
  assert (∀ (cur : comp) l, 0 ∉ cur → Forall (λ c : comp, 0 ∉ c) l → Forall (λ c : comp, 0 ∉ c) (emit cur l)) as He.
  { intros c l ??. destruct c; [done|]. by constructor. }
  revert cur. induction p as [|c p IH]; intros cur Hc Hp; simpl; [by apply He|]. unfold c_string in *.
  destruct (Z.eqb_spec c ch_slash); [apply He; [done|]; apply IH; set_solver|]. apply IH; set_solver.
Qed.

Lemma walk_good acc c : Forall good_comp acc → sep_comp c → 0 ∉ c → Forall good_comp (walk acc c).
Proof.
  intros Ha Hs H0. unfold walk. repeat case_bool_decide; [done|by apply Forall_take|].
  apply Forall_app. split; [done|]. by repeat constructor; try apply Hs.
Qed.

Lemma foldl_walk_good acc cs :
  Forall good_comp acc → Forall sep_comp cs → Forall (λ c, 0 ∉ c) cs → Forall good_comp (foldl walk acc cs).
Proof.
  revert acc. induction cs as [|c cs IH]; intros acc Ha Hs H0; simpl; [done|].
  apply Forall_cons in Hs as [? ?], H0 as [? ?]. apply IH; [by apply walk_good|done|done].
Qed.

Lemma canon_good p : c_string p → Forall good_comp (canon p).
Proof.
  intros Hp. apply foldl_walk_good; [done|apply comps_sep; by left|]. apply comps_nonul; [set_solver|done].
Qed.

Lemma foldl_walk_id acc cs : Forall good_comp cs → foldl walk acc cs = acc ++ cs.
Proof.
  revert acc. induction cs as [|c cs IH]; intros acc Hg; simpl; [by rewrite app_nil_r|].
  apply Forall_cons in Hg as [(_ & H1 & H2 & _) Hg]. rewrite IH by done. unfold walk.
  rewrite !bool_decide_false by done. by rewrite <-app_assoc.
Qed.

Lemma canon_join cs : Forall good_comp cs → canon (join cs) = cs.
Proof. intros Hg. unfold canon. rewrite comps_join by auto. by rewrite foldl_walk_id. Qed.

(** ** The loop of [vfs_normalize_path] *)

Lemma skip_comps p : comps (skip_slashes p) = comps p.
Proof.
  induction p as [|c p IH]; [done|]. simpl. destruct (Z.eqb_spec c ch_slash) as [->|]; [|done].
  rewrite IH. done.
Qed.

Lemma skip_head p s : skip_slashes p = s → match s with [] => True | c :: _ => c ≠ ch_slash end.
Proof.
  revert s. induction p as [|c p IH]; intros s E; simpl in E; [by subst|].
  destruct (Z.eqb_spec c ch_slash); [by apply IH|]. by subst.
Qed.

Lemma skip_length p : (length (skip_slashes p) <= length p)%nat.
Proof. induction p as [|c p IH]; simpl; [lia|]. destruct (c =? ch_slash); simpl; lia. Qed.

Lemma comp_len_range p : 0 <= comp_len p <= str_len p.
Proof. unfold str_len. induction p as [|c p IH]; simpl; [lia|]. destruct (c =? ch_slash); lia. Qed.

Lemma comp_len_pos c p : c ≠ ch_slash → 0 < comp_len (c :: p).
Proof. intros. simpl. rewrite (proj2 (Z.eqb_neq _ _)) by done. pose proof (comp_len_range p). lia. Qed.

(** The first component and what follows it. *)
Lemma comps_first s : ∀ cur, cur ++ take (Z.to_nat (comp_len s)) s ≠ [] →
  comps_from cur s = (cur ++ take (Z.to_nat (comp_len s)) s) :: comps (drop (Z.to_nat (comp_len s)) s).
Proof.
  induction s as [|c s IH]; intros cur; simpl; [rewrite app_nil_r; by destruct cur|].
  destruct (Z.eqb_spec c ch_slash) as [->|].
  - change (Z.to_nat 0) with O. simpl. rewrite app_nil_r. by destruct cur.
  - pose proof (comp_len_range s). replace (Z.to_nat (1 + comp_len s)) with (S (Z.to_nat (comp_len s))) by lia.
    simpl. intros Hne. rewrite IH; by rewrite <-app_assoc.
Qed.

Lemma back_to_slash_word a c rest :
  ch_slash ∉ c → back_to_slash (length a + length c) (a ++ c ++ rest) = back_to_slash (length a) (a ++ c ++ rest).
Proof.
  revert rest. induction c as [|x c IH] using rev_ind; intros rest Hc; [by rewrite Nat.add_0_r|].
  rewrite length_app, Nat.add_assoc, (Nat.add_comm _ (length [x])). simpl.
  assert (char_at (a ++ (c ++ [x]) ++ rest) (Z.of_nat (length a + length c)) = x) as ->.
  { unfold char_at. rewrite Nat2Z.id. rewrite !app_assoc, <-app_assoc.
    rewrite lookup_app_r by (rewrite length_app; lia). by rewrite length_app, Nat.sub_diag. }
  rewrite (proj2 (Z.eqb_neq x ch_slash)) by set_solver. rewrite <-app_assoc. apply IH. set_solver.
Qed.

Lemma pop_join cs : Forall sep_comp cs → pop_component (join cs) = join (take (pred (length cs)) cs).
Proof.
  intros Hs. destruct cs as [|c cs _] using rev_ind; [done|]. apply Forall_app in Hs as [Hs Hc].
  apply Forall_cons in Hc as [[Hne Hc] _]. rewrite length_app, Nat.add_1_r. simpl pred.
  rewrite take_app_length. rewrite join_snoc.
  set (a := match cs with [] => [] | _ => join cs ++ [ch_slash] end).
  assert (pop_component (a ++ c) = take (pred (back_to_slash (length a) (a ++ c))) (a ++ c)) as ->.
  { unfold pop_component. destruct (a ++ c) eqn:E; [apply app_eq_nil in E as [_ ->]; done|]. rewrite <-E.
    pose proof (back_to_slash_word a c [] Hc) as Hb. rewrite app_nil_r in Hb. by rewrite length_app, Hb. }
  destruct cs as [|d cs]; [done|]. subst a. set (j := join (d :: cs)).
  assert (char_at ((j ++ [ch_slash]) ++ c) (Z.of_nat (length j)) = ch_slash) as Hg.
  { unfold char_at. rewrite Nat2Z.id, <-app_assoc.
    by rewrite lookup_app_r, Nat.sub_diag. }
  rewrite length_app, Nat.add_1_r. cbn [back_to_slash]. rewrite Hg. cbn. rewrite <-app_assoc. by rewrite take_app_length.
Qed.

Lemma str_len_nonneg s : 0 <= str_len s.
Proof. unfold str_len. lia. Qed.

Lemma str_len_app a b : str_len (a ++ b) = str_len a + str_len b.
Proof. unfold str_len. rewrite length_app. lia. Qed.

Lemma join_take_le n cs : str_len (join (take n cs)) <= str_len (join cs).
Proof.
  rewrite <-(take_drop n cs) at 2. rewrite join_app. pose proof (str_len_nonneg (join (drop n cs))).
  destruct (take n cs), (drop n cs); rewrite ?str_len_app; try apply Z.le_refl; [done|].
  match goal with |- context [ch_slash :: ?x] => pose proof (str_len_nonneg (ch_slash :: x)) end. lia.
Qed.

(** The intermediate results all fit. *)
Definition fits (acc cs : list comp) (outsz : Z) : Prop :=
  ∀ k, (k <= length cs)%nat → str_len (join (foldl walk acc (take k cs))) < outsz.

Lemma fits_cons acc c cs outsz : fits acc (c :: cs) outsz → fits (walk acc c) cs outsz.
Proof. intros Hf k Hk. apply (Hf (S k)). simpl. lia. Qed.

Lemma dot_test s n :
  0 < n <= str_len s →
  (n =? 1) && (char_at s 0 =? ch_dot) = bool_decide (take (Z.to_nat n) s = [ch_dot]) ∧
  (n =? 2) && (char_at s 0 =? ch_dot) && (char_at s 1 =? ch_dot) = bool_decide (take (Z.to_nat n) s = [ch_dot; ch_dot]).
Proof.
  unfold str_len, ch_dot. intros Hn. destruct s as [|a [|b s]]; simpl in Hn; [lia|..].
  - assert (n = 1) as -> by lia. change (char_at [a] 0) with a. cbn. split.
    + destruct (Z.eqb_spec a 46) as [->|]; [by rewrite bool_decide_true|rewrite bool_decide_false; [done|by intros [=]]].
    + by rewrite bool_decide_false.
  - change (char_at (a :: b :: s) 0) with a. change (char_at (a :: b :: s) 1) with b.
    destruct (Z.to_nat n) as [|[|[|k]]] eqn:E; [lia|..]; simpl take.
    + assert (n = 1) as -> by lia. cbn. split; [|by rewrite bool_decide_false].
      destruct (Z.eqb_spec a 46) as [->|]; [by rewrite bool_decide_true|rewrite bool_decide_false; [done|by intros [=]]].
    + assert (n = 2) as -> by lia. cbn. split; [by rewrite bool_decide_false|].
      destruct (Z.eqb_spec a 46) as [->|]; [|rewrite bool_decide_false; [done|by intros [=]]].
      destruct (Z.eqb_spec b 46) as [->|]; [by rewrite bool_decide_true|rewrite bool_decide_false; [done|by intros [=]]].
    + destruct s as [|d s]; [simpl in Hn; lia|]. rewrite !bool_decide_false by (simpl; congruence).
      rewrite !(proj2 (Z.eqb_neq n _)) by lia. done.
Qed.

Lemma normalize_loop_spec fuel p acc outsz :
  (length p < fuel)%nat → Forall sep_comp acc → outsz <= 2 ^ 31 → str_len (join acc) < outsz → str_len p < 2 ^ 31 →
  ∃ r, normalize_loop fuel p (join acc) outsz = Some r ∧
    match r with
    | Some out => out = join (foldl walk acc (comps p)) ∧ fits acc (comps p) outsz
    | None => ¬ fits acc (comps p) outsz
    end.
Proof.
  revert p acc. induction fuel as [|fuel IH]; intros p acc Hf Ha Hu Hw Hb; [lia|]. cbn [normalize_loop].
  pose proof (skip_length p) as Hsl. rewrite <-(skip_comps p). destruct (skip_slashes p) as [|c s'] eqn:Es.
  { eexists. split; [done|]. split; [done|]. intros k Hk. simpl in Hk. replace k with O by lia. done. }
  pose proof (skip_head p _ Es) as Hc. simpl in Hc. set (s := c :: s') in *.
  pose proof (comp_len_pos c s' Hc : 0 < comp_len s) as Hp. pose proof (comp_len_range s) as Hr.
  assert (take (Z.to_nat (comp_len s)) s ≠ []) as Hne.
  { intros E. apply (f_equal length) in E. rewrite length_take in E. unfold str_len in Hr. simpl in *. lia. }
  pose proof (comps_first s [] Hne) as Hfirst. change (comps_from [] s) with (comps s) in Hfirst.
  rewrite app_nil_l in Hfirst. set (w := take _ s) in *. set (rest := drop _ s) in *.
  assert (sep_comp w) as Hsw.
  { pose proof (comps_sep [] s (or_introl eq_refl)) as Hall. change (comps_from [] s) with (comps s) in Hall.
    rewrite Hfirst in Hall. by apply Forall_cons in Hall as [? _]. }
  assert (length rest < fuel)%nat as Hlr.
  { unfold rest. rewrite length_drop. simpl. unfold str_len in Hr. simpl in *. lia. }
  assert (str_len w = comp_len s) as Hlw.
  { unfold w, str_len. rewrite length_take. unfold str_len in Hr. lia. }
  assert (str_len rest + str_len w = str_len s) as Hls.
  { rewrite Hlw. unfold rest, str_len. rewrite length_drop. unfold str_len in Hr. lia. }
  assert (str_len s <= str_len p) as Hlp by (unfold str_len; lia).
  destruct (dot_test s (comp_len s) ltac:(lia)) as [E1 E2]. fold w in E1, E2. rewrite Hfirst.
  assert (∀ r, walk acc w = acc ∨ (∃ n, walk acc w = take n acc) →
     str_len (join (walk acc w)) <= str_len (join acc) →
     (∃ r0, normalize_loop fuel rest (join (walk acc w)) outsz = Some r0 ∧ r0 = r) →
     ∃ r0, Some r = Some r0 ∧ match r0 with
       | Some out => out = join (foldl walk acc (w :: comps rest)) ∧ fits acc (w :: comps rest) outsz
       | None => ¬ fits acc (w :: comps rest) outsz end) as Hkeep.
  { intros r Hw' Hle (r0 & Hn & <-).
    destruct (IH rest (walk acc w)) as (r1 & Hn1 & Hr1); try lia; try done.
    { destruct Hw' as [->|[n ->]]; [done|by apply Forall_take]. }
    rewrite Hn in Hn1. injection Hn1 as <-. exists r0. split; [done|]. destruct r0 as [out|].
    - destruct Hr1 as [-> Hft]. split; [done|]. intros [|k] Hk; [done|]. apply Hft. simpl in Hk. lia.
    - intros Hft. by apply Hr1, fits_cons. }
  assert (str_len (join (take (pred (length acc)) acc)) <= str_len (join acc)) as Htk by apply join_take_le.
  rewrite E1, E2. destruct (bool_decide_reflect (w = [ch_dot])) as [D1|D1].
  { assert (walk acc w = acc) as Ew by (unfold walk; by rewrite (bool_decide_eq_true_2 _ D1)).
    destruct (IH rest acc) as (r & Hn & _); try lia; try done. rewrite Hn. rewrite Ew in Hkeep.
    apply Hkeep; [by left|lia|by exists r]. }
  destruct (bool_decide_reflect (w = [ch_dot; ch_dot])) as [D2|D2].
  { assert (walk acc w = take (pred (length acc)) acc) as Ew.
    { unfold walk. by rewrite (bool_decide_eq_false_2 _ D1), (bool_decide_eq_true_2 _ D2). }
    rewrite pop_join by done. rewrite Ew in Hkeep.
    destruct (IH rest (take (pred (length acc)) acc)) as (r & Hn & _); try lia; try done; [by apply Forall_take|].
    rewrite Hn. apply Hkeep; [right; by eexists|lia|by exists r]. }
  clear Hkeep. assert (walk acc w = acc ++ [w]) as Ew.
  { unfold walk. by rewrite (bool_decide_eq_false_2 _ D1), (bool_decide_eq_false_2 _ D2). }
  assert (join (acc ++ [w]) = (if str_len (join acc) =? 0 then join acc else join acc ++ [ch_slash]) ++ w) as Ej.
  { rewrite join_snoc. destruct acc as [|d acc]; [done|].
    rewrite (proj2 (Z.eqb_neq _ _)); [done|]. intros E. unfold str_len in E.
    destruct (join (d :: acc)) eqn:E0; [by apply join_nil in E0|simpl in E; lia]. }
  pose proof (str_len_nonneg (join acc)) as Hnn.
  set (out1 := if str_len (join acc) =? 0 then join acc else join acc ++ [ch_slash]) in *.
  assert (str_len out1 = str_len (join acc) + (if str_len (join acc) =? 0 then 0 else 1)) as Hl1.
  { unfold out1. destruct (Z.eqb_spec (str_len (join acc)) 0); [lia|]. by rewrite str_len_app. }
  assert (¬ (str_len (join (acc ++ [w])) < outsz) → ¬ fits acc (w :: comps rest) outsz) as Hfail.
  { intros Hno Hft. apply Hno. rewrite <-Ew. by apply (Hft 1%nat ltac:(simpl; lia)). }
  rewrite Ej, str_len_app, Hl1 in Hfail. rewrite !u32_small by (unfold is_u32; destruct (str_len (join acc) =? 0); lia).
  destruct (negb (str_len (join acc) =? 0) && (outsz <=? str_len (join acc) + 1)) eqn:E3.
  { exists None. split; [done|]. apply Hfail. bprop. destruct (Z.eqb_spec (str_len (join acc)) 0); [lia|].
    lia. }
  destruct (Z.leb_spec outsz (str_len out1 + comp_len s)).
  { exists None. split; [done|]. apply Hfail. lia. }
  rewrite <-Ej. destruct (IH rest (acc ++ [w])) as (r & Hn & Hr1).
  - done.
  - apply Forall_app. split; [done|]. by repeat constructor; apply Hsw.
  - done.
  - rewrite Ej, str_len_app. lia.
  - lia.
  - exists r. split; [done|]. cbn [foldl]. rewrite Ew. destruct r as [out|].
    + destruct Hr1 as [-> Hft]. split; [done|]. intros [|k] Hk; [done|]. cbn [take foldl]. rewrite Ew.
      apply Hft. simpl in Hk. lia.
    + intros Hft. apply Hr1. rewrite <-Ew. by apply fits_cons.
Qed.

(** The text of a list of components with a byte for each separator. *)
Definition weight (cs : list comp) : nat := length (concat cs) + length cs.

Lemma weight_app a b : weight (a ++ b) = (weight a + weight b)%nat.
Proof. unfold weight. rewrite concat_app, !length_app. lia. Qed.

Lemma join_weight cs : str_len (join cs) <= Z.of_nat (pred (weight cs)).
Proof.
  induction cs as [|c [|d cs] IH]; [done|unfold weight, str_len; simpl; rewrite length_app; simpl; lia|].
  change (join (c :: d :: cs)) with (c ++ ch_slash :: join (d :: cs)). rewrite str_len_app.
  change (weight (c :: d :: cs)) with (weight ([c] ++ (d :: cs))). rewrite weight_app.
  unfold weight, str_len in *. simpl in *. rewrite ?length_app in *. simpl in *. lia.
Qed.

Lemma walk_weight acc cs : (weight (foldl walk acc cs) <= weight acc + weight cs)%nat.
Proof.
  revert acc. induction cs as [|c cs IH]; intros acc; simpl; [lia|]. specialize (IH (walk acc c)).
  change (weight (c :: cs)) with (weight ([c] ++ cs)). rewrite weight_app.
  enough (weight (walk acc c) <= weight acc + weight [c])%nat by lia.
  unfold walk. repeat case_bool_decide; [lia| |by rewrite weight_app].
  rewrite <-(take_drop (pred (length acc)) acc) at 3. rewrite weight_app. lia.
Qed.

Lemma comps_weight cur p : (weight (comps_from cur p) <= length cur + length p + 1)%nat.
Proof.
  assert (∀ cur l, (weight (emit cur l) <= length cur + 1 + weight l)%nat ∧
     (cur = [] → emit cur l = l)) as He.
  { unfold weight. intros [|x c] l; split; try done; simpl; rewrite ?length_app; simpl; lia. }
  revert cur. induction p as [|c p IH]; intros cur; simpl.
  - destruct (He cur []) as [H1 _]. change (weight []) with O in H1. lia.
  - destruct (c =? ch_slash).
    + destruct (He cur (comps_from [] p)) as [H1 H2]. specialize (IH []). simpl in IH.
      destruct cur; [rewrite H2 by done; lia|simpl in *; lia].
    + specialize (IH (cur ++ [c])). rewrite length_app in IH. simpl in IH. lia.
Qed.

Lemma fits_alloc p : fits [] (comps p) (str_len p + 1).
Proof.
  intros k _. pose proof (join_weight (foldl walk [] (take k (comps p)))) as Hj.
  pose proof (walk_weight [] (take k (comps p))) as Hw. change (weight []) with O in Hw.
  pose proof (comps_weight [] p : (weight (comps p) <= _)%nat) as Hc. simpl in Hc.
  rewrite <-(take_drop k (comps p)), weight_app in Hc. unfold str_len in *. lia.
Qed.

Lemma fits_end acc cs outsz : fits acc cs outsz → str_len (join (foldl walk acc cs)) < outsz.
Proof. intros Hf. specialize (Hf (length cs) ltac:(lia)). by rewrite firstn_all in Hf. Qed.

(** ** Prefixes *)

Lemma join_prefix ms cs :
  Forall sep_comp ms → Forall sep_comp cs →
  ms `prefix_of` cs ↔ ∃ r, join cs = join ms ++ r ∧ (ms = [] ∨ r = [] ∨ ∃ r', r = ch_slash :: r').
Proof.
  intros Hm Hc. split.
  - intros [k ->]. destruct ms as [|m ms]; [exists (join k); split; [done|by left]|]. rewrite join_app.
    destruct k as [|c k]; [exists []; rewrite app_nil_r; auto|]. eexists. split; [done|]. right. right. by eexists.
  - intros (r & E & Hr). apply (f_equal comps) in E. rewrite comps_join in E by done. rewrite E.
    destruct Hr as [->|[->|[r' ->]]]; [apply prefix_nil|rewrite app_nil_r; by rewrite comps_join|].
    unfold comps. rewrite comps_slash. change (comps_from [] (join ms)) with (comps (join ms)).
    rewrite comps_join by done. by eexists.
Qed.

(** What follows a prefix in the text. *)
Lemma join_drop ms k :
  Forall sep_comp ms → ms ≠ [] →
  drop (Z.to_nat (str_len (join ms))) (join (ms ++ k)) = match k with [] => [] | _ => ch_slash :: join k end.
Proof.
  intros Hm Hne. rewrite join_app. unfold str_len. rewrite Nat2Z.id.
  destruct ms as [|m ms]; [done|]. destruct k; [by rewrite drop_all|]. by rewrite drop_app_length.
Qed.
