(* ===== verification/VfsSpec.v ===== *)
(** * The mount tree: invariant and routing

    Mounts as component lists.  A path belongs to the mount with the longest
    component prefix of it; the path below is the rest of its components. *)

From S2P Require Import Prelude Interfaces Blkdev Vfs VfsPath.

Definition mount_ix (i : Z) : Prop := 0 <= i < VFS_MAX_MOUNTS.
Definition mcomps (v : vfs) (i : Z) : list comp := comps (m_path (vfs_mounts v).[i]).

(** The mount table of a namespace. *)
Record mount_ok (m : vfs_mount_t) : Prop := {
  mo_good : Forall good_comp (comps (m_path m));
  mo_path : m_path m = join (comps (m_path m));
  mo_len : m_path_len m = str_len (m_path m);
  mo_fits : m_path_len m < VFS_MOUNT_PATH_MAX;
}.

Record vfs_ok (v : vfs) : Prop := {
  vo_len : length (vfs_mounts v) = Z.to_nat VFS_MAX_MOUNTS;
  vo_mounts : ∀ i, mount_ix i → in_use v i = true → mount_ok (vfs_mounts v).[i];
  vo_unique : ∀ i j, mount_ix i → mount_ix j → in_use v i = true → in_use v j = true →
    mcomps v i = mcomps v j → i = j;
}.

(** The path with components [cs] is [rel] in mount [i]. *)
Record routes (v : vfs) (cs : list comp) (i : Z) (rel : list comp) : Prop := {
  ro_ix : mount_ix i;
  ro_use : in_use v i = true;
  ro_split : cs = mcomps v i ++ rel;
  ro_longest : ∀ j, mount_ix j → in_use v j = true → mcomps v j `prefix_of` cs →
    (length (mcomps v j) <= length (mcomps v i))%nat;
}.

(** Some mount is at [cs]. *)
Definition mounted_at (v : vfs) (cs : list comp) : Prop :=
  ∃ i, mount_ix i ∧ in_use v i = true ∧ mcomps v i = cs.

Lemma join_nonul cs : Forall good_comp cs → 0 ∉ join cs.
Proof.
  induction cs as [|c cs IH]; intros Hg; [set_solver|]. apply Forall_cons in Hg as [(_ & _ & _ & H0) Hg].
  rewrite join_cons, elem_of_app. intros [|Hin]; [done|]. destruct cs as [|d cs]; [set_solver|].
  apply elem_of_cons in Hin as [|Hin]; [done|]. by apply IH.
Qed.

Lemma char_at_len s : char_at s (str_len s) = 0.
Proof. unfold char_at, str_len. by rewrite lookup_ge_None_2 by lia. Qed.

Lemma take_eq_prefix {A} (a b : list A) : take (length a) b = a ↔ ∃ r, b = a ++ r.
Proof.
  split; [|intros [r ->]; by rewrite take_app_length].
  intros E. exists (drop (length a) b). by rewrite <-E at 1; rewrite take_drop.
Qed.

Lemma str_char_app a c r : char_at (a ++ c :: r) (str_len a) = c.
Proof. unfold str_len, char_at. rewrite Nat2Z.id. by rewrite lookup_app_r, Nat.sub_diag. Qed.

(** ** Matching one mount *)

Lemma mount_matches_spec m cs :
  mount_ok m → Forall good_comp cs →
  vfs_mount_matches m (join cs) = true ↔ m_in_use m = true ∧ comps (m_path m) `prefix_of` cs.
Proof.
  intros [Hg Hp Hl _] Hc. set (ms := comps (m_path m)) in *. unfold vfs_mount_matches.
  rewrite (join_prefix ms cs) by auto. rewrite Hl, Hp.
  destruct (m_in_use m); cbn [negb]; [|naive_solver].
  destruct (Z.eqb_spec (str_len (join ms)) 0) as [E|E].
  { assert (join ms = []) as Ej by (unfold str_len in E; destruct (join ms); [done|simpl in E; lia]).
    apply join_nil in Ej; [|auto]. rewrite Ej. split; [|done]. intros _. split; [done|]. exists (join cs). auto. }
  assert (ms ≠ []) as Hne by by intros Em; apply E; rewrite Em.
  unfold strn_eq, str_len. rewrite Nat2Z.id, firstn_all. fold (str_len (join ms)).
  case_bool_decide as Ht; cbn [negb].
  - apply take_eq_prefix in Ht as [r Er]. rewrite Er, orb_true_iff, !Z.eqb_eq. split.
    + intros Hch. split; [done|]. exists r. split; [done|]. right. destruct r as [|c r]; [by left|right].
      rewrite str_char_app in Hch. destruct Hch as [->| ->]; [|by eexists].
      exfalso. apply (join_nonul cs Hc). rewrite Er. set_solver.
    + intros (_ & r' & E' & Hr). apply app_inv_head in E' as <-.
      destruct Hr as [|[->|[r' ->]]]; [done| |right; apply str_char_app].
      left. rewrite app_nil_r. apply char_at_len.
  - split; [done|]. intros (_ & r & Er & _). exfalso. apply Ht. apply take_eq_prefix. by exists r.
Qed.

Lemma relpath_spec m cs rel :
  mount_ok m → Forall good_comp cs → cs = comps (m_path m) ++ rel →
  vfs_relpath m (join cs) = join rel.
Proof.
  intros [Hg Hp Hl _] Hc ->. set (ms := comps (m_path m)) in *. unfold vfs_relpath. rewrite Hl, Hp.
  destruct (Z.eqb_spec (str_len (join ms)) 0) as [E|E].
  { assert (join ms = []) as Ej by (unfold str_len in E; destruct (join ms); [done|simpl in E; lia]).
    apply join_nil in Ej; [|auto]. by rewrite Ej. }
  assert (ms ≠ []) as Hne by by intros Em; apply E; rewrite Em.
  pose proof (join_drop ms rel (good_sep _ Hg) Hne) as Hd.
  assert (join (ms ++ rel) = join ms ++ match rel with [] => [] | _ => ch_slash :: join rel end) as Ej.
  { rewrite join_app. destruct ms, rel; try done. by rewrite app_nil_r. }
  destruct rel as [|c rel].
  - rewrite !app_nil_r in *. by rewrite char_at_len.
  - rewrite Ej, str_char_app, <-Ej. change (ch_slash =? 0) with false. cbn match.
    replace (Z.to_nat (str_len (join ms) + 1)) with (Z.to_nat (str_len (join ms)) + 1)%nat by (unfold str_len; lia).
    rewrite <-drop_drop, Hd. done.
Qed.

(** ** The longest match *)

Section tree.
Variable v : vfs.
Hypothesis Hok : vfs_ok v.

Lemma mount_matches_ix i cs :
  mount_ix i → Forall good_comp cs →
  vfs_mount_matches (vfs_mounts v).[i] (join cs) = true ↔ in_use v i = true ∧ mcomps v i `prefix_of` cs.
Proof.
  intros Hi Hc. destruct (in_use v i) eqn:Eu.
  - rewrite mount_matches_spec; [by unfold in_use in Eu; rewrite Eu|by apply Hok|done].
  - unfold in_use in Eu. unfold vfs_mount_matches. rewrite Eu. naive_solver.
Qed.

Lemma prefix_len_join cs i j :
  mount_ix i → mount_ix j → in_use v i = true → in_use v j = true →
  mcomps v i `prefix_of` cs → mcomps v j `prefix_of` cs →
  m_path_len (vfs_mounts v).[i] <= m_path_len (vfs_mounts v).[j] → (length (mcomps v i) <= length (mcomps v j))%nat.
Proof.
  intros Hi Hj Hui Huj Hpi Hpj Hle. destruct (vo_mounts _ Hok i Hi Hui) as [Hgi Hni Hli _].
  destruct (vo_mounts _ Hok j Hj Huj) as [Hgj Hnj Hlj _]. fold (mcomps v i) in *. fold (mcomps v j) in *.
  destruct (prefix_weak_total _ _ _ Hpi Hpj) as [H|H]; [by apply prefix_length|].
  destruct H as [k Ek]. destruct k as [|c k]; [rewrite Ek, length_app; simpl; lia|]. exfalso.
  rewrite Hli, Hlj, Hni, Hnj, Ek, join_app in Hle. rewrite Ek in Hgi. apply Forall_app in Hgi as [_ Hgk].
  assert (join (c :: k) ≠ []) as Hne by (intros E; apply join_nil in E; auto; done).
  assert (0 < str_len (join (c :: k))) as Hp by (unfold str_len; destruct (join (c :: k)); [done|simpl; lia]).
  destruct (mcomps v j) as [|d ms].
  - change (str_len (join [])) with 0 in Hle. lia.
  - change (ch_slash :: join (c :: k)) with ([ch_slash] ++ join (c :: k)) in Hle.
    rewrite !str_len_app in Hle. change (str_len [ch_slash]) with 1 in Hle. lia.
Qed.

Lemma find_mount_spec cs :
  Forall good_comp cs →
  let i := vfs_find_mount_for_path v (join cs) in
  (i = -1 ∧ ∀ j, mount_ix j → in_use v j = true → ¬ mcomps v j `prefix_of` cs) ∨
  (∃ rel, routes v cs i rel).
Proof.
  intros Hc. unfold vfs_find_mount_for_path.
  set (m := λ j, mount_ix j ∧ in_use v j = true ∧ mcomps v j `prefix_of` cs).
  match goal with |- context [for_loop 0 ?n ?body ?s0] =>
    pose proof (for_loop_inv (λ k s, (s.1 = -1 ∧ ∀ j, j < k → ¬ m j) ∨
      (m s.1 ∧ s.1 < k ∧ s.2 = m_path_len (vfs_mounts v).[s.1] ∧
       ∀ j, j < k → m j → m_path_len (vfs_mounts v).[j] <= s.2)) body 0 n s0) as Hl end.
  lapply Hl; clear Hl; [intros Hl; lapply Hl; clear Hl; [intros Hl|]|].
  - set (r := for_loop _ _ _ _) in *. destruct r as [i bl]. simpl in *. change (0 + Z.of_nat (Z.to_nat VFS_MAX_MOUNTS)) with 8 in Hl.
    destruct Hl as [[-> Hno]|((Hi & Hu & [rel Hrel]) & _ & -> & Hmax)].
    + left. split; [done|]. intros j Hj Hu Hp. apply (Hno j); [unfold mount_ix in Hj; change VFS_MAX_MOUNTS with 8 in Hj; lia|done].
    + right. exists rel. split; [done|done|done|]. intros j Hj Huj Hp. apply (prefix_len_join cs); try done; [by exists rel|].
      apply Hmax; [unfold mount_ix in Hj; change VFS_MAX_MOUNTS with 8 in Hj; lia|done].
  - left. split; [done|]. intros j Hj (Hx & _). unfold mount_ix in Hx. lia.
  - intros k [b bl] Hk. simpl. change (Z.of_nat (Z.to_nat VFS_MAX_MOUNTS)) with 8 in Hk.
    assert (mount_ix k) as Hkx by (unfold mount_ix; change VFS_MAX_MOUNTS with 8; lia).
    pose proof (mount_matches_ix k cs Hkx Hc) as Hm. intros Hinv.
    assert (∀ j, j < k + 1 ↔ j < k ∨ j = k) as Hlt by (intros; lia).
    destruct (vfs_mount_matches _ _); cbn [negb]; simpl.
    + assert (m k) as Hmk by (split; [done|]; by apply Hm).
      destruct Hinv as [[-> Hno]|(Hb & Hbk & -> & Hmax)].
      * cbn. right. split; [done|]. split; [lia|]. split; [done|]. intros j [Hj| ->]%Hlt Hmj; [by destruct (Hno j)|lia].
      * destruct Hb as [[? ?] ?]. destruct (Z.ltb_spec b 0); [lia|]. cbn [orb].
        destruct (Z.ltb_spec (m_path_len (vfs_mounts v).[b]) (m_path_len (vfs_mounts v).[k])) as [Hl|Hl]; simpl.
        -- right. split; [done|]. split; [lia|]. split; [done|]. intros j [Hj| ->]%Hlt Hmj; [|lia]. specialize (Hmax j Hj Hmj). lia.
        -- right. split; [by split|]. split; [lia|]. split; [done|]. intros j [Hj| ->]%Hlt Hmj; [by apply Hmax|lia].
    + assert (¬ m k) as Hmk by (intros (_ & ? & ?); by assert (false = true) by by apply Hm).
      destruct Hinv as [[-> Hno]|(Hb & Hbk & -> & Hmax)].
      * left. split; [done|]. intros j [Hj| ->]%Hlt; [by apply Hno|done].
      * right. split; [done|]. split; [lia|]. split; [done|]. intros j [Hj| ->]%Hlt Hmj; [by apply Hmax|done].
Qed.

(** One path, one mount. *)
Lemma routes_unique cs i rel j rel' : routes v cs i rel → routes v cs j rel' → i = j ∧ rel = rel'.
Proof.
  intros [Hi Hui Hs Hl] [Hj Huj Hs' Hl'].
  assert (mcomps v i `prefix_of` cs) as Hpi by by exists rel. assert (mcomps v j `prefix_of` cs) as Hpj by by exists rel'.
  pose proof (Hl j Hj Huj Hpj). pose proof (Hl' i Hi Hui Hpi).
  assert (mcomps v i = mcomps v j) as E.
  { destruct (prefix_weak_total _ _ _ Hpi Hpj) as [H1|H1]; [|symmetry]; by apply prefix_length_eq. }
  split; [by apply (vo_unique _ Hok)|]. rewrite Hs, E in Hs'. by apply app_inv_head in Hs'.
Qed.

Lemma find_exact_spec cs :
  Forall good_comp cs →
  if 0 <=? vfs_find_mount_exact v (join cs) then mounted_at v cs else ¬ mounted_at v cs.
Proof.
  intros Hc. unfold vfs_find_mount_exact.
  match goal with |- context [for_exit 0 ?n ?body ?s0] =>
    pose proof (for_exit_inv (λ k _, ∀ j, 0 <= j < k → in_use v j = true → mcomps v j ≠ cs)
      (λ i, mount_ix i ∧ in_use v i = true ∧ mcomps v i = cs) body 0 n s0) as Hl end.
  lapply Hl; clear Hl; [intros Hl; lapply Hl; clear Hl; [intros Hl|intros; lia]|].
  - destruct (for_exit _ _ _ _) as [i| u].
    + destruct Hl as [[? ?] [? ?]]. destruct (Z.leb_spec 0 i); [|lia]. exists i. done.
    + cbn. intros (i & Hi & Hu & E). apply (Hl i); [|done|done]. unfold mount_ix in Hi. change VFS_MAX_MOUNTS with 8 in *. lia.
  - intros k u Hk Hinv. change (Z.of_nat (Z.to_nat VFS_MAX_MOUNTS)) with 8 in Hk.
    assert (mount_ix k) as Hkx by (unfold mount_ix; change VFS_MAX_MOUNTS with 8; lia).
    assert (∀ j, 0 <= j < k + 1 ↔ 0 <= j < k ∨ j = k) as Hlt by (intros; lia).
    destruct (in_use v k) eqn:Eu; cbn [negb].
    + unfold str_eq. destruct (vo_mounts _ Hok k Hkx Eu) as [Hg Hp _ _]. case_bool_decide as E.
      * split; [done|]. split; [done|]. unfold mcomps. rewrite E. apply comps_join. auto.
      * intros j [Hj| ->]%Hlt Hu; [by apply Hinv|]. intros E'. apply E. rewrite Hp. unfold mcomps in E'. by rewrite E'.
    + intros j [Hj| ->]%Hlt Hu; [by apply Hinv|congruence].
Qed.

Lemma routes_good cs i rel : Forall good_comp cs → routes v cs i rel → Forall good_comp rel.
Proof. intros Hc Hr. rewrite (ro_split _ _ _ _ Hr) in Hc. by apply Forall_app in Hc as [_ ?]. Qed.

Lemma routes_rel cs i rel :
  Forall good_comp cs → routes v cs i rel → vfs_relpath (vfs_mounts v).[i] (join cs) = join rel.
Proof. intros Hc Hr. apply relpath_spec; [apply Hok; apply Hr|done|apply Hr]. Qed.

(** A path is a mount point when nothing of it is left below its mount. *)
Lemma routes_mounted cs i rel : routes v cs i rel → mounted_at v cs ↔ rel = [].
Proof.
  intros [Hi Hu Hs Hl]. split.
  - intros (j & Hj & Huj & Ej). specialize (Hl j Hj Huj). rewrite Ej in Hl. specialize (Hl ltac:(done)).
    rewrite Hs, length_app in Hl. destruct rel; [done|simpl in Hl; lia].
  - intros ->. exists i. rewrite app_nil_r in Hs. done.
Qed.

(** The name under which a mount appears in a directory. *)
Lemma child_name_spec cs i c :
  Forall good_comp cs → mount_ix i →
  vfs_mount_child_name (join cs) (vfs_mounts v).[i] = Some c ↔ in_use v i = true ∧ mcomps v i = cs ++ [c].
Proof.
  intros Hc Hi. unfold vfs_mount_child_name. fold (in_use v i). destruct (in_use v i) eqn:Eu; [|naive_solver].
  destruct (vo_mounts _ Hok i Hi Eu) as [Hg Hp Hl _]. fold (mcomps v i) in *. set (ms := mcomps v i) in *.
  rewrite Hl, Hp. cbn [negb orb].
  assert (∀ s, Forall good_comp s → (if bool_decide (join s = []) || bool_decide (ch_slash ∈ join s) then None else Some (join s)) = Some c ↔ s = [c]) as Hone.
  { intros s Hgs. split.
    - case_bool_decide as E1; [done|]. case_bool_decide as E2; [done|]. cbn. intros [= <-].
      destruct s as [|a [|b s]]; [done|done|]. exfalso. apply E2. rewrite join_cons, elem_of_app. right. by left.
    - intros ->. apply Forall_cons in Hgs as [[[Hne Hns] _] _]. simpl. by rewrite !bool_decide_false. }
  destruct (Z.eqb_spec (str_len (join ms)) 0) as [E|E].
  { split; [done|]. intros [_ Em]. exfalso. assert (join ms = []) as Ej by (unfold str_len in E; destruct (join ms); [done|simpl in E; lia]).
    apply join_nil in Ej; [|auto]. rewrite Em in Ej. by destruct cs. }
  destruct (Z.eqb_spec (str_len (join cs)) 0) as [E0|E0].
  { assert (join cs = []) as Ej by (unfold str_len in E0; destruct (join cs); [done|simpl in E0; lia]).
    apply join_nil in Ej; [|auto]. rewrite Ej. rewrite Hone by done. naive_solver. }
  assert (cs ≠ []) as Hne by by intros ->.
  unfold strn_eq, str_len. rewrite Nat2Z.id, firstn_all. fold (str_len (join cs)).
  assert (∀ s, ms = cs ++ s → s ≠ [] → join ms = join cs ++ ch_slash :: join s) as Happ.
  { intros s -> Hs. rewrite join_app. by destruct cs, s. }
  case_bool_decide as Ht; cbn [negb].
  2:{ split; [done|]. intros [_ Em]. exfalso. apply Ht, take_eq_prefix. rewrite (Happ [c]) by done. by eexists. }
  apply take_eq_prefix in Ht as [r Er]. destruct r as [|x r].
  { rewrite app_nil_r in Er. rewrite Er. rewrite char_at_len. cbn. split; [done|]. intros [_ Em]. exfalso. apply join_inj in Er; [|auto..]. rewrite Em in Er.
    apply (f_equal length) in Er. rewrite length_app in Er. simpl in Er. lia. }
  rewrite Er, str_char_app. destruct (Z.eqb_spec x ch_slash) as [->|Hx]; cbn [negb].
  2:{ split; [done|]. intros [_ Em]. exfalso. rewrite (Happ [c]) in Er by done. apply app_inv_head in Er. congruence. }
  replace (Z.to_nat (str_len (join cs) + 1)) with (S (length (join cs))) by (unfold str_len; lia).
  assert (drop (S (length (join cs))) (join cs ++ ch_slash :: r) = r) as ->.
  { replace (S (length (join cs))) with (length (join cs) + 1)%nat by lia. rewrite <-drop_drop, drop_app_length. done. }
  assert (∃ s, ms = cs ++ s) as [s Es].
  { apply (join_prefix cs ms); [auto|auto|]. eexists. split; [exact Er|]. right. right. by eexists. }
  assert (s ≠ []) as Hs.
  { intros ->. rewrite Es, app_nil_r in Er. apply (f_equal length) in Er. rewrite length_app in Er. simpl in Er. lia. }
  rewrite (Happ s Es Hs) in Er. apply app_inv_head in Er. injection Er as <-.
  rewrite Hone by (rewrite Es in Hg; by apply Forall_app in Hg as [_ ?]). rewrite Es. split.
  - by intros ->.
  - intros [_ Em]. by apply app_inv_head in Em.
Qed.
End tree.
