(* ===== verification/VfsProps.v ===== *)
(** * The VFS: correctness

    Normalisation against the reference reading of a path, the routing of the
    operations that take a path, the mount table's invariant, listings, and the
    heap blocks the operations take and return.  The heap is the [KAllocator]
    interface on the kernel state. *)

From S2P Require Import Prelude Interfaces Blkdev Vfs VfsPath VfsSpec.

(** ** Paths *)

Definition path_of (path : option (list Z)) : list Z := default [] path.
Definition path_fits (path : option (list Z)) : Prop := c_string (path_of path) ∧ str_len (path_of path) < 2 ^ 31 - 1.

Lemma normalize_spec p outsz :
  str_len p < 2 ^ 31 → 0 < outsz <= 2 ^ 31 →
  match vfs_normalize_path (Some p) outsz with
  | Some out => out = join (canon p) ∧ fits [] (comps p) outsz
  | None => ¬ fits [] (comps p) outsz
  end.
Proof.
  intros Hp Ho. unfold vfs_normalize_path. rewrite (proj2 (Z.eqb_neq outsz 0)) by lia.
  destruct (normalize_loop_spec (S (length p)) p [] outsz) as (r & Hr & Hs); [lia|constructor|lia|cbn; unfold str_len; simpl; lia|done|].
  change (join []) with ([] : list Z) in Hr. rewrite Hr. exact Hs.
Qed.

(** With a buffer as long as the path and its NUL nothing is refused. *)
Lemma normalize_whole path :
  path_fits path → vfs_normalize_path path (str_len (path_of path) + 1) = Some (join (canon (path_of path))).
Proof.
  intros [Hc Hl]. destruct path as [p|]; [|done]. simpl in *. pose proof (str_len_nonneg p).
  pose proof (normalize_spec p (str_len p + 1) ltac:(lia) ltac:(lia)) as Hn.
  destruct (vfs_normalize_path _ _); [by destruct Hn as [-> _]|]. destruct Hn. apply fits_alloc.
Qed.

(** C14: vfs_normalize_path gives the text of the components that are left when
    ["."] is dropped and [".."] takes the one before it.  It succeeds when the
    result after every component fits the buffer with its NUL, and fails when
    some intermediate result does not (also one that a later [".."] would take
    away); normalising the result again changes nothing. *)
Theorem vfs_normalize_path_correct p outsz :
  c_string p → str_len p < 2 ^ 31 → 0 < outsz <= 2 ^ 31 →
  match vfs_normalize_path (Some p) outsz with
  | Some out =>
      fits [] (comps p) outsz ∧ out = join (canon p) ∧ Forall good_comp (canon p) ∧ str_len out < outsz ∧
      vfs_normalize_path (Some out) outsz = Some out
  | None => ¬ fits [] (comps p) outsz
  end.
Proof.
  intros Hc Hp Ho. pose proof (normalize_spec p outsz Hp Ho) as Hn. pose proof (canon_good p Hc) as Hg.
  destruct (vfs_normalize_path (Some p) outsz) as [out|]; [|done]. destruct Hn as [-> Hf].
  pose proof (fits_end _ _ _ Hf) as Hl. fold (canon p) in Hl. do 4 (split; [done|]).
  pose proof (normalize_spec (join (canon p)) outsz ltac:(lia) Ho) as Hn.
  destruct (vfs_normalize_path _ _) as [out|]; [by destruct Hn as [-> _]; rewrite canon_join|]. destruct Hn.
  intros k Hk. rewrite comps_join in * by auto. rewrite foldl_walk_id by by apply Forall_take.
  pose proof (join_take_le k (canon p)). simpl. lia.
Qed.

(** C15: the mount of a path is the one with the longest component prefix, there
    is at most one, and the path handed to its file system is the rest. *)
Theorem vfs_find_mount_correct v cs :
  vfs_ok v → Forall good_comp cs →
  let i := vfs_find_mount_for_path v (join cs) in
  (i = -1 ∧ ∀ j rel, ¬ routes v cs j rel) ∨
  (∃ rel, routes v cs i rel ∧ vfs_relpath (vfs_mounts v).[i] (join cs) = join rel ∧
     ∀ j rel', routes v cs j rel' → j = i ∧ rel' = rel).
Proof.
  intros Hok Hc i. destruct (find_mount_spec v Hok cs Hc) as [[Ei Hno]|[rel Hr]].
  - left. split; [done|]. intros j rel [Hj Hu Hs _]. apply (Hno j Hj Hu). by exists rel.
  - right. exists rel. split; [done|]. split; [by apply routes_rel|]. intros j rel' Hr'. by eapply routes_unique.
Qed.

(** ** Heap blocks *)

(** What the file systems promise: they give back the heap they take.  Only
    [init] may keep some. *)
Class FsOpsLaws (W : Type) `{KAllocator W, FsOps W, PseudoFs W} (ka_inv : W → Prop) (ka_live : W → gset Z) := {
  steady (w w' : W) : Prop := ka_inv w → ka_inv w' ∧ ka_live w' = ka_live w;
  open_steady o f w p : op_open o = Some f → steady w (f w p).2;
  getdents_steady o w p n : steady w (op_getdents o w p n).2;
  create_steady o f w p : op_create o = Some f → steady w (f w p).2;
  unlink_steady o f w p : op_unlink o = Some f → steady w (f w p).2;
  mkdir_steady o f w p : op_mkdir o = Some f → steady w (f w p).2;
  rmdir_steady o f w p : op_rmdir o = Some f → steady w (f w p).2;
  rename_steady o f w p q : op_rename o = Some f → steady w (f w p q).2;
  link_steady o f w p q b : op_link o = Some f → steady w (f w p q b).2;
  symlink_steady o f w p q : op_symlink o = Some f → steady w (f w p q).2;
  readlink_steady o f w p n : op_readlink o = Some f → steady w (f w p n).2;
  stat_steady o f w p : op_stat o = Some f → steady w (f w p).2;
  lstat_steady o f w p : op_lstat o = Some f → steady w (f w p).2;
  procfs_fill_steady w p n : steady w (procfs_fill_node w p n).2;
  procfs_stat_steady w p : steady w (procfs_stat w p).2;
  procfs_getdents_steady w p n : steady w (procfs_getdents w p n).2;
  sysfs_fill_steady w p n : steady w (sysfs_fill_node w p n).2;
  sysfs_stat_steady w p : steady w (sysfs_stat w p).2;
  sysfs_getdents_steady w p n : steady w (sysfs_getdents w p n).2;
}.

Section heap.
Context {W : Type} {KA : KAllocator W} {FO : FsOps W} {PF : PseudoFs W}.
Context {ka_inv : W → Prop} {ka_live : W → gset Z} {ka_room : W → Z → Z}.
Context {KL : KAllocatorLaws W ka_inv ka_live ka_room} {FL : FsOpsLaws W ka_inv ka_live}.
Implicit Types (w : W) (v : vfs) (L : gset Z).

Definition holds L w : Prop := ka_inv w ∧ ka_live w = L.

Lemma steady_holds w w' L : holds L w → steady w w' → holds L w'.
Proof. intros [Hi <-] Hs. by apply Hs. Qed.

Lemma free_holds w L p : p ∉ L → holds ({[p]} ∪ L) w → holds L (ka_free w p).
Proof.
  intros Hp [Hi Hl]. assert (p ∈ ka_live w) as Hin by (rewrite Hl; set_solver).
  split; [by apply ka_free_inv|]. rewrite ka_free_live, Hl by done. set_solver.
Qed.

Lemma norm_alloc_holds w L n :
  holds L w → is_u32 n →
  let '(p, w') := ka_malloc w n in
  if p =? 0 then holds L w' else p ∉ L ∧ holds ({[p]} ∪ L) w'.
Proof.
  intros [Hi <-] Hn. destruct (ka_malloc w n) as [p w'] eqn:E. destruct (Z.eqb_spec p 0) as [->|Hp].
  - assert (w' = w) as ->; [|done]. change w' with (0, w').2. rewrite <-E. apply ka_malloc_fail; [done|done|by rewrite E].
  - destruct (ka_malloc_ok w n p w' Hi Hn E Hp) as (? & Hl & _). split; [done|]. split; [|done].
    change w' with (p, w').2. rewrite <-E. by apply ka_malloc_inv.
Qed.

Lemma normalize_alloc_spec w path L :
  holds L w → path_fits path →
  match vfs_normalize_alloc w path with
  | (None, w') => holds L w'
  | (Some (p, out), w') => p ∉ L ∧ holds ({[p]} ∪ L) w' ∧ out = join (canon (path_of path)) ∧
      (p, w') = ka_malloc w (str_len (path_of path) + 1)
  end.
Proof.
  intros Hh Hf. unfold vfs_normalize_alloc.
  assert (match path with Some p => str_len p | None => 0 end = str_len (path_of path)) as -> by by destruct path.
  pose proof (str_len_nonneg (path_of path)). pose proof Hf as [_ Hl].
  rewrite u32_small by (unfold is_u32; lia).
  pose proof (norm_alloc_holds w L (str_len (path_of path) + 1) Hh ltac:(unfold is_u32; lia)) as Ha.
  destruct (ka_malloc w _) as [p w1]. destruct (p =? 0); [done|]. rewrite normalize_whole by done.
  destruct Ha. auto.
Qed.

Lemma canon_path_good path : path_fits path → Forall good_comp (canon (path_of path)).
Proof. intros [? _]. by apply canon_good. Qed.

(** *** The lookup of a path that an operation changes *)

Definition target v (path : option (list Z)) (i : Z) (rel : list comp) : Prop :=
  routes v (canon (path_of path)) i rel ∧ rel ≠ [].

Lemma ctx_init_spec w v path L :
  vfs_ok v → holds L w → path_fits path →
  let '(rc, ctx, w') := vfs_lookup_ctx_init w v path in
  match c_norm ctx with
  | None => rc = -1 ∧ holds L w'
  | Some (p, out) =>
      p ∉ L ∧ holds ({[p]} ∪ L) w' ∧ out = join (canon (path_of path)) ∧
      (p, w') = ka_malloc w (str_len (path_of path) + 1) ∧
      ((rc = -1 ∧ ∀ j rel, ¬ routes v (canon (path_of path)) j rel) ∨
       (rc = 0 ∧ ∃ rel, c_rel ctx = join rel ∧ routes v (canon (path_of path)) (c_mount_idx ctx) rel))
  end.
Proof.
  intros Hok Hh Hf. unfold vfs_lookup_ctx_init. pose proof (normalize_alloc_spec w path L Hh Hf) as Hn.
  destruct (vfs_normalize_alloc w path) as [[[p out]|] w1]; [|done]. destruct Hn as (Hp & Hh1 & -> & Hm).
  pose proof (vfs_find_mount_correct v _ Hok (canon_path_good path Hf)) as Hfm. cbv zeta in Hfm.
  set (i := vfs_find_mount_for_path v _) in *. destruct Hfm as [[-> Hno]|(rel & Hr & Hrel & _)].
  - cbn. do 4 (split; [done|]). by left.
  - pose proof (ro_ix _ _ _ _ Hr) as [Hi _]. destruct (Z.ltb_spec i 0); [lia|]. cbn.
    do 4 (split; [done|]). right. split; [done|]. exists rel. auto.
Qed.

Lemma mutation_mount_spec w v path L :
  vfs_ok v → holds L w → path_fits path →
  match vfs_mutation_mount w v path with
  | (None, w') => holds L w' ∧
      ((ka_malloc w (str_len (path_of path) + 1)).1 = 0 ∨ ∀ i rel, ¬ target v path i rel)
  | (Some (p, i, r), w') => p ∉ L ∧ holds ({[p]} ∪ L) w' ∧ p ≠ 0 ∧ (p, w') = ka_malloc w (str_len (path_of path) + 1) ∧
      ∃ rel, r = join rel ∧ target v path i rel
  end.
Proof.
  intros Hok Hh Hf. unfold vfs_mutation_mount, vfs_mutation_lookup_ctx_init.
  assert ((vfs_lookup_ctx_init w v path).1.2.(c_norm) = None → (ka_malloc w (str_len (path_of path) + 1)).1 = 0) as Hnone.
  { unfold vfs_lookup_ctx_init, vfs_normalize_alloc.
    assert (match path with Some p => str_len p | None => 0 end = str_len (path_of path)) as -> by by destruct path.
    pose proof (str_len_nonneg (path_of path)). pose proof Hf as [_ Hl]. rewrite u32_small by (unfold is_u32; lia).
    destruct (ka_malloc w _) as [p w1]. destruct (Z.eqb_spec p 0); [done|]. rewrite normalize_whole by done.
    case_match; done. }
  pose proof (ctx_init_spec w v path L Hok Hh Hf) as Hc.
  destruct (vfs_lookup_ctx_init w v path) as [[rc ctx] w1]. cbn in Hnone. unfold vfs_lookup_ctx_clear, ctx_path.
  destruct (c_norm ctx) as [[p out]|] eqn:En.
  2:{ destruct Hc as [-> Hc]. cbn. split; [done|]. left. by apply Hnone. }
  destruct Hc as (Hp & Hh1 & -> & Hm & Hc). pose proof (canon_path_good path Hf) as Hg.
  destruct Hc as [[-> Hno]|(-> & rel & Erel & Hr)]; cbn.
  { split; [by apply free_holds|]. right. intros i rel [Ht _]. by apply (Hno i rel). }
  pose proof (find_exact_spec v Hok _ Hg) as He. pose proof (routes_mounted v _ _ _ Hr) as Hmt.
  assert (p ≠ 0) as Hp0.
  { intros ->. destruct Hh1 as [Hi1 Hl1]. apply (ka_live_nonzero w1 Hi1). rewrite Hl1. set_solver. }
  assert (rel = [] → ∀ i rel0, ¬ target v path i rel0) as Hnt.
  { intros -> i rel0 [Ht Hne]. by destruct (routes_unique v Hok _ _ _ _ _ Hr Ht) as [_ <-]. }
  case_bool_decide as E; cbn.
  { split; [by apply free_holds|]. right. apply Hnt. apply join_nil in E; [|auto]. pose proof (ro_split _ _ _ _ Hr) as Hs.
    rewrite E in Hs. by destruct (mcomps v (c_mount_idx ctx)), rel. }
  destruct (0 <=? _); cbn.
  { split; [by apply free_holds|]. right. by apply Hnt, Hmt. }
  rewrite En. do 3 (split; [done|]). split; [done|]. exists rel. split; [done|]. split; [done|].
  intros ->. by apply He, Hmt.
Qed.

(** *** Operations on one path *)

(** The operation of the mounted file system that the call reaches, with the
    path below the mount. *)
Definition reaches {F} v path (op : Z → option F) (f : F) (r : list Z) : Prop :=
  ∃ i rel, target v path i rel ∧ r = join rel ∧ mount_kind v i = VFS_MOUNT_KIND_FS ∧ op (mount_ops v i) = Some f.

(** The shape of the four operations. *)
Definition path_call (op : Z → option (W → list Z → Z * W)) w v path : Z * W :=
  match vfs_mutation_mount w v path with
  | (None, w) => (-1, w)
  | (Some (norm, mnt, rel), w) =>
      match mount_kind v mnt =? VFS_MOUNT_KIND_FS, op (mount_ops v mnt) with
      | true, Some f => let '(rc, w) := f w rel in (rc, ka_free w norm)
      | _, _ => (-1, ka_free w norm)
      end
  end.

(** What it should do: nothing, or the one call. *)
Definition path_op v path (op : Z → option (W → list Z → Z * W)) w (rc : Z) w' : Prop :=
  let '(p, w1) := ka_malloc w (str_len (path_of path) + 1) in
  (rc = -1 ∧ (p = 0 ∨ ∀ g r, ¬ reaches v path op g r)) ∨
  (p ≠ 0 ∧ ∃ g r, reaches v path op g r ∧ (rc, w') = (let '(rc, w2) := g w1 r in (rc, ka_free w2 p))).

Lemma target_reaches {F} v path i rel (op : Z → option F) g r :
  vfs_ok v → target v path i rel → reaches v path op g r →
  mount_kind v i = VFS_MOUNT_KIND_FS ∧ op (mount_ops v i) = Some g ∧ r = join rel.
Proof.
  intros Hok [Hr _] (j & rel' & [Hr' _] & -> & Hk & Ho).
  by destruct (routes_unique v Hok _ _ _ _ _ Hr Hr') as [<- <-].
Qed.

Lemma path_call_spec w v path op L :
  vfs_ok v → holds L w → path_fits path → (∀ o g w r, op o = Some g → steady w (g w r).2) →
  let '(rc, w') := path_call op w v path in holds L w' ∧ path_op v path op w rc w'.
Proof.
  intros Hok Hh Hf Hst. unfold path_call, path_op. pose proof (mutation_mount_spec w v path L Hok Hh Hf) as Hm.
  destruct (vfs_mutation_mount w v path) as [[[[p i] r]|] w1].
  - destruct Hm as (Hp & Hh1 & Hp0 & Hm & rel & -> & Ht). rewrite <-Hm.
    destruct (Z.eqb_spec (mount_kind v i) VFS_MOUNT_KIND_FS) as [Ek|Ek].
    2:{ split; [by apply free_holds|]. left. split; [done|]. right. intros g r Hx. by destruct (target_reaches _ _ _ _ _ _ _ Hok Ht Hx). }
    destruct (op (mount_ops v i)) as [g|] eqn:Eo.
    2:{ split; [by apply free_holds|]. left. split; [done|]. right. intros g r Hx.
        destruct (target_reaches _ _ _ _ _ _ _ Hok Ht Hx) as (_ & ? & _). congruence. }
    destruct (g w1 (join rel)) as [rc w2] eqn:Eg. split.
    + apply free_holds; [done|]. eapply steady_holds; [done|]. change w2 with (rc, w2).2. rewrite <-Eg. by eapply Hst.
    + right. split; [done|]. exists g, (join rel). split; [by exists i, rel|]. by rewrite Eg.
  - destruct Hm as [Hh1 Hm]. split; [done|]. destruct (ka_malloc w _) as [p w2]. left. split; [done|].
    destruct Hm as [|Hno]; [by left|right]. intros g r (i & rel & Ht & _). by apply (Hno i rel).
Qed.

(** C24: mkdir, create, unlink and rmdir refuse a path that is a mount point, is
    under no mount or whose file system lacks the operation; otherwise they call
    exactly the operation of the mount the path belongs to, with the path below
    it, and return its result.  Every path returns the heap block it took. *)
Theorem vfs_path_ops_correct call op w v path rc w' :
  (call, op) ∈ [(vfs_mkdir, op_mkdir); (vfs_create, op_create); (vfs_unlink, op_unlink); (vfs_rmdir, op_rmdir)] →
  vfs_ok v → ka_inv w → path_fits path → call w v path = (rc, w') →
  ka_inv w' ∧ ka_live w' = ka_live w ∧ path_op v path op w rc w'.
Proof.
  intros Hin Hok Hi Hf E.
  assert (call = path_call op ∧ ∀ o g w r, op o = Some g → steady w (g w r).2) as [-> Hst].
  { rewrite !elem_of_cons in Hin.
    destruct Hin as [[= -> ->]|[[= -> ->]|[[= -> ->]|[[= -> ->]|Hin]]]]; [..|by apply elem_of_nil in Hin];
      (split; [reflexivity|]); [apply mkdir_steady|apply create_steady|apply unlink_steady|apply rmdir_steady]. }
  pose proof (path_call_spec w v path op (ka_live w) Hok (conj Hi eq_refl) Hf Hst) as Hs. rewrite E in Hs.
  by destruct Hs as [[? ?] ?].
Qed.

(** *** Operations on two paths *)

Definition two_path_call (op : Z → option (W → list Z → list Z → Z * W)) w v oldpath newpath : Z * W :=
  match vfs_mutation_mount w v oldpath with
  | (None, w) => (-1, w)
  | (Some (oldnorm, oldmnt, oldrel), w) =>
      match vfs_mutation_mount w v newpath with
      | (None, w) => (-1, ka_free w oldnorm)
      | (Some (newnorm, newmnt, newrel), w) =>
          let '(rc, w) :=
            match (oldmnt =? newmnt) && (mount_kind v oldmnt =? VFS_MOUNT_KIND_FS), op (mount_ops v oldmnt) with
            | true, Some f => f w oldrel newrel
            | _, _ => (-1, w)
            end in
          (rc, ka_free (ka_free w newnorm) oldnorm)
      end
  end.

(** Both paths are in one mount, whose file system has the operation. *)
Definition reaches2 {F} v oldpath newpath (op : Z → option F) (f : F) (r1 r2 : list Z) : Prop :=
  ∃ i rel1 rel2, target v oldpath i rel1 ∧ target v newpath i rel2 ∧ r1 = join rel1 ∧ r2 = join rel2 ∧
    mount_kind v i = VFS_MOUNT_KIND_FS ∧ op (mount_ops v i) = Some f.

Definition two_path_op v oldpath newpath (op : Z → option (W → list Z → list Z → Z * W)) w (rc : Z) w' : Prop :=
  let '(p, w1) := ka_malloc w (str_len (path_of oldpath) + 1) in
  let '(q, w2) := ka_malloc w1 (str_len (path_of newpath) + 1) in
  (rc = -1 ∧ (p = 0 ∨ q = 0 ∨ ∀ f r1 r2, ¬ reaches2 v oldpath newpath op f r1 r2)) ∨
  (p ≠ 0 ∧ q ≠ 0 ∧ ∃ f r1 r2, reaches2 v oldpath newpath op f r1 r2 ∧
     (rc, w') = (let '(rc, w3) := f w2 r1 r2 in (rc, ka_free (ka_free w3 q) p))).

Lemma two_path_call_spec w v oldpath newpath op L :
  vfs_ok v → holds L w → path_fits oldpath → path_fits newpath →
  (∀ o f w r1 r2, op o = Some f → steady w (f w r1 r2).2) →
  let '(rc, w') := two_path_call op w v oldpath newpath in holds L w' ∧ two_path_op v oldpath newpath op w rc w'.
Proof.
  intros Hok Hh Hf1 Hf2 Hst. unfold two_path_call, two_path_op.
  pose proof (mutation_mount_spec w v oldpath L Hok Hh Hf1) as Hm.
  destruct (vfs_mutation_mount w v oldpath) as [[[[p i] r1]|] w1].
  2:{ destruct Hm as [Hh1 Hm]. split; [done|]. destruct (ka_malloc w _) as [p w2], (ka_malloc w2 _) as [q w3]. left. split; [done|].
      destruct Hm as [|Hno]; [by left|]. right. right. intros f r1 r2 (i & rel & _ & Ht & _). by apply (Hno i rel). }
  destruct Hm as (Hp & Hh1 & Hp0 & Hm & rel1 & -> & Ht1). rewrite <-Hm. clear Hm.
  pose proof (mutation_mount_spec w1 v newpath _ Hok Hh1 Hf2) as Hm.
  destruct (vfs_mutation_mount w1 v newpath) as [[[[q j] r2]|] w2].
  2:{ destruct Hm as [Hh2 Hm]. split; [by apply free_holds|]. destruct (ka_malloc w1 _) as [q w3]. left. split; [done|].
      destruct Hm as [|Hno]; [right; by left|]. right. right. intros f r1 r2 (j & _ & rel & _ & Ht & _). by apply (Hno j rel). }
  destruct Hm as (Hq & Hh2 & Hq0 & Hm & rel2 & -> & Ht2). rewrite <-Hm.
  assert (∀ f r1 r2, reaches2 v oldpath newpath op f r1 r2 → i = j ∧ mount_kind v i = VFS_MOUNT_KIND_FS ∧ op (mount_ops v i) = Some f) as Hre.
  { intros f r1 r2 (k & l1 & l2 & [Hr1 _] & [Hr2 _] & _ & _ & Hk & Ho). destruct Ht1 as [H1 _], Ht2 as [H2 _].
    destruct (routes_unique v Hok _ _ _ _ _ H1 Hr1) as [-> _], (routes_unique v Hok _ _ _ _ _ H2 Hr2) as [-> _]. done. }
  assert (∀ w3, holds ({[q]} ∪ ({[p]} ∪ L)) w3 → holds L (ka_free (ka_free w3 q) p)) as Hfree.
  { intros w3 H3. by apply free_holds, free_holds. }
  destruct (Z.eqb_spec i j) as [<-|Ej]; cbn [andb].
  2:{ split; [by apply Hfree|]. left. split; [done|]. right. right. intros f r1 r2 Hx. by destruct (Hre _ _ _ Hx). }
  destruct (Z.eqb_spec (mount_kind v i) VFS_MOUNT_KIND_FS) as [Ek|Ek].
  2:{ split; [by apply Hfree|]. left. split; [done|]. right. right. intros f r1 r2 Hx. by destruct (Hre _ _ _ Hx) as (_ & ? & _). }
  destruct (op (mount_ops v i)) as [f|] eqn:Eo.
  2:{ split; [by apply Hfree|]. left. split; [done|]. right. right. intros f r1 r2 Hx. by destruct (Hre _ _ _ Hx) as (_ & _ & ?). }
  destruct (f w2 (join rel1) (join rel2)) as [rc w3] eqn:Ef. split.
  - apply Hfree. eapply steady_holds; [done|]. change w3 with (rc, w3).2. rewrite <-Ef. by eapply Hst.
  - right. split; [done|]. split; [done|]. exists f, (join rel1), (join rel2). split; [by exists i, rel1, rel2|]. by rewrite Ef.
Qed.

(** Rename reaches a file system only with two paths of one mount, gives it
    both paths below that mount and returns its result; every other call is
    refused.  Both heap blocks are returned on every path. *)
Theorem vfs_rename_correct w v oldpath newpath rc w' :
  vfs_ok v → ka_inv w → path_fits oldpath → path_fits newpath →
  vfs_rename w v oldpath newpath = (rc, w') →
  ka_inv w' ∧ ka_live w' = ka_live w ∧ two_path_op v oldpath newpath op_rename w rc w'.
Proof.
  intros Hok Hi Hf1 Hf2 E.
  pose proof (two_path_call_spec w v oldpath newpath op_rename (ka_live w) Hok (conj Hi eq_refl) Hf1 Hf2 rename_steady) as Hs.
  unfold vfs_rename in E. unfold two_path_call in Hs. rewrite E in Hs. by destruct Hs as [[? ?] ?].
Qed.

(** The same of link. *)
Theorem vfs_link_correct w v oldpath newpath follow rc w' :
  vfs_ok v → ka_inv w → path_fits oldpath → path_fits newpath →
  vfs_link w v oldpath newpath follow = (rc, w') →
  ka_inv w' ∧ ka_live w' = ka_live w ∧
  two_path_op v oldpath newpath (λ o, (λ f w p q, f w p q follow) <$> op_link o) w rc w'.
Proof.
  intros Hok Hi Hf1 Hf2 E.
  pose proof (two_path_call_spec w v oldpath newpath (λ o, (λ f w p q, f w p q follow) <$> op_link o) (ka_live w)
    Hok (conj Hi eq_refl) Hf1 Hf2) as Hs.
  lapply Hs; clear Hs; [intros Hs|].
  - unfold two_path_call in Hs. unfold vfs_link in E.
    assert (∀ o (b : bool) w1 r1 r2, match b, (λ (f : W → list Z → list Z → Z → Z * W) w p q, f w p q follow) <$> op_link o with
              | true, Some f => f w1 r1 r2 | _, _ => (-1, w1) end =
            match b, op_link o with true, Some f => f w1 r1 r2 follow | _, _ => (-1, w1) end) as Heq.
    { intros o b w1 r1 r2. destruct b; [|done]. by destruct (op_link o). }
    destruct (vfs_mutation_mount w v oldpath) as [[[[p i] r1]|] w1]; [|injection E as <- <-; by destruct Hs as [[? ?] ?]].
    destruct (vfs_mutation_mount w1 v newpath) as [[[[q j] r2]|] w2]; [|injection E as <- <-; by destruct Hs as [[? ?] ?]].
    rewrite Heq in Hs. destruct (match (_ && _) with true => _ | false => _ end) as [rc0 w3]. injection E as <- <-. by destruct Hs as [[? ?] ?].
  - intros o f w1 r1 r2 Hf. apply fmap_Some in Hf as (g & Hg & ->). by apply (link_steady o).
Qed.
End heap.
