(* ===== verification/VfsMount.v ===== *)
(** * The VFS: heap discipline of every call, and mounting *)

From S2P Require Import Prelude Interfaces Blkdev Vfs VfsPath VfsSpec VfsProps.

Section calls.
Context {W : Type} {KA : KAllocator W} {FO : FsOps W} {PF : PseudoFs W}.
Context {ka_inv : W → Prop} {ka_live : W → gset Z} {ka_room : W → Z → Z}.
Context {KL : KAllocatorLaws W ka_inv ka_live ka_room} {FL : FsOpsLaws W ka_inv ka_live}.
Implicit Types (w : W) (v : vfs) (L : gset Z).
Notation holds := (holds (ka_inv := ka_inv) (ka_live := ka_live)).

Lemma op_holds {R} L w (x : R * W) : holds L w → steady w x.2 → holds L x.2.
Proof. apply steady_holds. Qed.

Lemma stat_mount_holds w v follow ctx L : holds L w → holds L (vfs_stat_mount w v follow ctx).2.
Proof.
  intros Hh. unfold vfs_stat_mount. destruct (_ =? VFS_MOUNT_KIND_DEVFS); [by destruct (devfs_stat _ _)|].
  destruct (_ =? VFS_MOUNT_KIND_PROCFS); [apply (op_holds L w _ Hh), procfs_stat_steady|].
  destruct (_ =? VFS_MOUNT_KIND_SYSFS); [apply (op_holds L w _ Hh), sysfs_stat_steady|].
  set (o := mount_ops v _). set (r := c_rel ctx).
  assert (∀ f, op_stat o = Some f → holds L (f w r).2) as Hst by (intros f Hf; apply (op_holds L w _ Hh); by eapply stat_steady).
  destruct (if follow then None else op_lstat o) as [f|] eqn:El.
  { destruct follow; [done|]. apply (op_holds L w _ Hh). by eapply lstat_steady. }
  destruct (op_stat o) as [f|]; [by apply Hst|]. destruct (op_open o) as [f|] eqn:Eo; [|done].
  pose proof (op_holds L w (f w r) Hh (open_steady o f w r Eo)) as Hs. by destruct (f w r) as [[[??]?]?].
Qed.

(** Reading the metadata of a path takes one block and returns it. *)
Lemma ctx_clear_holds w v path L :
  vfs_ok v → holds L w → path_fits path →
  let '(rc, ctx, w1) := vfs_lookup_ctx_init w v path in
  ∃ L', holds L' w1 ∧ ∀ w2, holds L' w2 → holds L (vfs_lookup_ctx_clear w2 ctx).
Proof.
  intros Hok Hh Hf. pose proof (ctx_init_spec w v path L Hok Hh Hf) as Hc.
  destruct (vfs_lookup_ctx_init w v path) as [[rc ctx] w1]. unfold vfs_lookup_ctx_clear.
  destruct (c_norm ctx) as [[p out]|].
  - destruct Hc as (Hp & Hh1 & _). exists ({[p]} ∪ L). split; [done|]. intros w2. by apply free_holds.
  - exists L. split; [apply Hc|done].
Qed.

Lemma stat_holds w v path follow L :
  vfs_ok v → holds L w → path_fits path → holds L (vfs_stat_common w v path follow).2.
Proof.
  intros Hok Hh Hf. unfold vfs_stat_common. pose proof (ctx_clear_holds w v path L Hok Hh Hf) as Hc.
  destruct (vfs_lookup_ctx_init w v path) as [[rc ctx] w1]. destruct Hc as (L' & Hh1 & Hcl).
  destruct (negb (rc =? 0)).
  { destruct (c_norm ctx) as [[? []]|]; [destruct (vfs_has_mounts v)|..]; by apply Hcl. }
  destruct (_ || _); [by apply Hcl|]. pose proof (stat_mount_holds w1 v follow ctx L' Hh1) as Hs.
  destruct (vfs_stat_mount w1 v follow ctx) as [[??]?]. by apply Hcl.
Qed.

Lemma readlink_holds w v path n L :
  vfs_ok v → holds L w → path_fits path → holds L (vfs_readlink w v path n).2.
Proof.
  intros Hok Hh Hf. unfold vfs_readlink. destruct (n =? 0); [done|].
  pose proof (ctx_clear_holds w v path L Hok Hh Hf) as Hc.
  destruct (vfs_lookup_ctx_init w v path) as [[rc ctx] w1]. destruct Hc as (L' & Hh1 & Hcl).
  destruct (negb (rc =? 0)); [by apply Hcl|]. destruct (_ || _); [by apply Hcl|].
  destruct (_ =? VFS_MOUNT_KIND_FS); [|by apply Hcl]. destruct (op_readlink _) as [f|] eqn:Ef; [|by apply Hcl].
  pose proof (op_holds L' w1 (f w1 (c_rel ctx) n) Hh1 (readlink_steady _ f _ _ _ Ef)) as Hs.
  destruct (f w1 (c_rel ctx) n) as [[??]?]. by apply Hcl.
Qed.

Lemma resolve_mount_holds w v i rel L : holds L w → holds L (resolve_mount w v i rel).2.
Proof.
  intros Hh. unfold resolve_mount. destruct (_ =? VFS_MOUNT_KIND_DEVFS); [by destruct (devfs_fill_node _ _ _)|].
  destruct (_ =? VFS_MOUNT_KIND_PROCFS); [apply (op_holds L w _ Hh), procfs_fill_steady|].
  destruct (_ =? VFS_MOUNT_KIND_SYSFS).
  { pose proof (op_holds L w (sysfs_fill_node w rel zero_node) Hh (sysfs_fill_steady _ _ _)) as Hs.
    by destruct (sysfs_fill_node w rel zero_node) as [[??]?]. }
  set (o := mount_ops v i).
  assert (∀ (e : option (Z * vfs_node)) w1, holds L w1 →
    holds L (match e, op_open o with
             | Some (rc, node), _ => (rc, node, w1)
             | None, None => (-1, zero_node, w1)
             | None, Some f =>
                 let '(rc, ino, sz, w) := f w1 rel in
                 let node := with_size sz (with_inode ino zero_node) in
                 if rc =? 0 then (0, with_mount (u32 i +u 1) (with_type VFS_NODE_FILE node), w)
                 else ((if rc <? -1 then rc else -1), node, w)
             end).2) as Hopen.
  { intros [[??]|] w1 Hh1; [done|]. destruct (op_open o) as [f|] eqn:Eo; [|done].
    pose proof (op_holds L w1 (f w1 rel) Hh1 (open_steady o f w1 rel Eo)) as Hs.
    destruct (f w1 rel) as [[[rc ?]?]?]. by destruct (rc =? 0). }
  destruct (op_stat o) as [f|] eqn:Ef; [|by apply (Hopen None w)].
  pose proof (op_holds L w (f w rel) Hh (stat_steady o f w rel Ef)) as Hs. destruct (f w rel) as [[rc st] w1].
  by apply Hopen.
Qed.

Lemma resolve_holds w v path L : vfs_ok v → holds L w → path_fits path → holds L (vfs_resolve w v path true).2.
Proof.
  intros Hok Hh Hf. unfold vfs_resolve. cbn [negb]. pose proof (normalize_alloc_spec w path L Hh Hf) as Hn.
  destruct (vfs_normalize_alloc w path) as [[[p out]|] w1]; [|done]. destruct Hn as (Hp & Hh1 & _).
  assert (∀ w2, holds ({[p]} ∪ L) w2 → holds L (ka_free w2 p)) as Hfree by (intros; by apply free_holds).
  case_bool_decide; [destruct (vfs_has_mounts v); by apply Hfree|]. destruct (0 <=? _); [by apply Hfree|].
  set (i := vfs_find_mount_for_path v out). destruct (i <? 0); [by apply Hfree|].
  pose proof (resolve_mount_holds w1 v i (vfs_relpath (vfs_mounts v).[i] out) _ Hh1) as Hs.
  destruct (resolve_mount _ _ _ _) as [[??]?]. by apply Hfree.
Qed.

Lemma list_mount_holds w v i norm n L : is_u32 n → holds L w → holds L (list_mount w v i norm n).2.
Proof.
  intros Hn Hh. unfold list_mount.
  destruct (_ =? VFS_MOUNT_KIND_DEVFS); [destruct (devfs_getdents _ _ _) as [k ?]; by destruct (k <? 0)|].
  set (rel := vfs_relpath _ _).
  destruct (_ =? VFS_MOUNT_KIND_PROCFS).
  { pose proof (op_holds L w (procfs_getdents w rel n) Hh (procfs_getdents_steady _ _ _)) as Hs.
    destruct (procfs_getdents w rel n) as [[k ?]?]. by destruct (k <? 0). }
  destruct (_ =? VFS_MOUNT_KIND_SYSFS).
  { pose proof (op_holds L w (sysfs_getdents w rel n) Hh (sysfs_getdents_steady _ _ _)) as Hs.
    destruct (sysfs_getdents w rel n) as [[k ?]?]. by destruct (k <? 0). }
  pose proof (norm_alloc_holds w L (if n =? 0 then 1 else n) Hh ltac:(destruct (n =? 0); unfold_ints; lia)) as Ha.
  destruct (ka_malloc w _) as [tmp w1]. destruct (tmp =? 0); [done|]. destruct Ha as [Ht Hh1].
  set (a := match rel with [] => None | _ => Some rel end).
  pose proof (op_holds _ w1 (op_getdents (mount_ops v i) w1 a n) Hh1 (getdents_steady _ _ _ _)) as Hs.
  destruct (op_getdents (mount_ops v i) w1 a n) as [[k bytes] w2]. destruct (k <? 0); by apply free_holds.
Qed.

Lemma getdents_holds w v path n L :
  vfs_ok v → is_u32 n → holds L w → path_fits path → holds L (vfs_getdents w v path true n).2.
Proof.
  intros Hok Hn Hh Hf. unfold vfs_getdents. cbn [negb]. pose proof (normalize_alloc_spec w path L Hh Hf) as Ha.
  destruct (vfs_normalize_alloc w path) as [[[p out]|] w1]; [|done]. destruct Ha as (Hp & Hh1 & _).
  assert (∀ w2, holds ({[p]} ∪ L) w2 → holds L (ka_free w2 p)) as Hfree by (intros; by apply free_holds).
  destruct (_ && _); [by apply Hfree|]. destruct (0 <=? _).
  - pose proof (list_mount_holds w1 v (vfs_find_mount_for_path v out) out n _ Hn Hh1) as Hs.
    destruct (list_mount _ _ _ _ _) as [[?|] ?]; by apply Hfree.
  - case_bool_decide; by apply Hfree.
Qed.

(** With a NULL pointer for the result the block of the path is not freed. *)
Definition leaks L w : Prop := ka_inv w ∧ ∃ p, p ∉ L ∧ ka_live w = {[p]} ∪ L.

Lemma null_leaves w path L :
  holds L w → path_fits path →
  match vfs_normalize_alloc w path with
  | (Some _, w1) => leaks L w1
  | (None, w1) => holds L w1
  end.
Proof.
  intros Hh Hf. pose proof (normalize_alloc_spec w path L Hh Hf) as Hn.
  destruct (vfs_normalize_alloc w path) as [[[p out]|] w1]; [|done]. destruct Hn as (Hp & [Hi Hl] & _).
  split; [done|]. by exists p.
Qed.

(** [vfs_resolve] and [vfs_getdents] called with NULL for the result fail and
    keep the block they took for the path (lookup.c:21 and 191). *)
Lemma null_result_leaks w v path n L :
  holds L w → path_fits path → (vfs_normalize_alloc w path).1 ≠ None →
  (vfs_resolve w v path false).1.1 = -1 ∧ leaks L (vfs_resolve w v path false).2 ∧
  (vfs_getdents w v path false n).1.1 = -1 ∧ leaks L (vfs_getdents w v path false n).2.
Proof.
  intros Hh Hf Hne. pose proof (null_leaves w path L Hh Hf) as Hn. unfold vfs_resolve, vfs_getdents.
  by destruct (vfs_normalize_alloc w path) as [[[p out]|] w1].
Qed.

(** The calls of the VFS that take a path; the booleans are the pointers for the
    result, [false] for NULL. *)
Inductive vfs_call :=
  | CStat (p : list Z) | CLstat (p : list Z) | CResolve (p : list Z) (node_out : bool) | COpenFile (p : list Z)
  | CReadlink (p : list Z) (n : Z) | CGetdents (p : list Z) (buf : bool) (n : Z)
  | CMkdir (p : list Z) | CCreate (p : list Z) | CUnlink (p : list Z) | CRmdir (p : list Z)
  | CRename (p q : list Z) | CLink (p q : list Z) (follow : Z) | CSymlink (target p : list Z).

Definition vfs_exec v w (c : vfs_call) : W :=
  match c with
  | CStat p => (vfs_stat w v (Some p)).2
  | CLstat p => (vfs_lstat w v (Some p)).2
  | CResolve p out => (vfs_resolve w v (Some p) out).2
  | COpenFile p => (vfs_open_file w v (Some p)).2
  | CReadlink p n => (vfs_readlink w v (Some p) n).2
  | CGetdents p buf n => (vfs_getdents w v (Some p) buf n).2
  | CMkdir p => (vfs_mkdir w v (Some p)).2
  | CCreate p => (vfs_create w v (Some p)).2
  | CUnlink p => (vfs_unlink w v (Some p)).2
  | CRmdir p => (vfs_rmdir w v (Some p)).2
  | CRename p q => (vfs_rename w v (Some p) (Some q)).2
  | CLink p q follow => (vfs_link w v (Some p) (Some q) follow).2
  | CSymlink target p => (vfs_symlink w v (Some target) (Some p)).2
  end.

Definition call_fits (c : vfs_call) : Prop :=
  match c with
  | CStat p | CLstat p | CResolve p _ | COpenFile p | CMkdir p | CCreate p | CUnlink p | CRmdir p => path_fits (Some p)
  | CReadlink p n | CGetdents p _ n => path_fits (Some p) ∧ is_u32 n
  | CRename p q | CLink p q _ => path_fits (Some p) ∧ path_fits (Some q)
  | CSymlink _ p => path_fits (Some p)
  end.

(** The call says where its result goes. *)
Definition result_given (c : vfs_call) : bool :=
  match c with CResolve _ b | CGetdents _ b _ => b | _ => true end.

Lemma symlink_holds w v t p L : vfs_ok v → holds L w → path_fits p → holds L (vfs_symlink w v t p).2.
Proof.
  intros Hok Hh Hf. destruct t as [[|c t]|]; [done| |done].
  change (vfs_symlink w v (Some (c :: t)) p) with
    (match vfs_mutation_mount w v p with
     | (None, w) => (-1, w)
     | (Some (norm, mnt, rel), w) =>
         match mount_kind v mnt =? VFS_MOUNT_KIND_FS, op_symlink (mount_ops v mnt) with
         | true, Some f => let '(rc, w) := f w (c :: t) rel in (rc, ka_free w norm)
         | _, _ => (-1, ka_free w norm)
         end
     end).
  pose proof (mutation_mount_spec w v p L Hok Hh Hf) as Hm.
  destruct (vfs_mutation_mount w v p) as [[[[q i] r]|] w1]; [|apply Hm]. destruct Hm as (Hq & Hh1 & _).
  destruct (_ =? _); [|by apply free_holds]. destruct (op_symlink _) as [f|] eqn:Ef; [|by apply free_holds].
  pose proof (op_holds _ w1 (f w1 (c :: t) r) Hh1 (symlink_steady _ f _ _ _ Ef)) as Hs.
  destruct (f w1 (c :: t) r) as [rc w2]. by apply free_holds.
Qed.

Lemma path_call_holds op w v path L :
  vfs_ok v → holds L w → path_fits path → (∀ o g w r, op o = Some g → steady w (g w r).2) →
  holds L (path_call op w v path).2.
Proof.
  intros Hok Hh Hf Hst. pose proof (path_call_spec w v path op L Hok Hh Hf Hst) as Hs.
  destruct (path_call op w v path) as [rc w']. apply Hs.
Qed.

Lemma exec_holds v w c L :
  vfs_ok v → holds L w → call_fits c → result_given c = true → holds L (vfs_exec v w c).
Proof.
  intros Hok Hh Hc Hr. destruct c; cbn [vfs_exec call_fits result_given] in *; subst.
  - by apply stat_holds.
  - by apply stat_holds.
  - by apply resolve_holds.
  - unfold vfs_open_file. pose proof (resolve_holds w v (Some p) L Hok Hh Hc) as Hs.
    destruct (vfs_resolve w v (Some p) true) as [[??]?]. by destruct (_ || _).
  - destruct Hc. by apply readlink_holds.
  - destruct Hc. by apply getdents_holds.
  - by apply (path_call_holds op_mkdir _ _ _ _ Hok Hh Hc), mkdir_steady.
  - by apply (path_call_holds op_create _ _ _ _ Hok Hh Hc), create_steady.
  - by apply (path_call_holds op_unlink _ _ _ _ Hok Hh Hc), unlink_steady.
  - by apply (path_call_holds op_rmdir _ _ _ _ Hok Hh Hc), rmdir_steady.
  - destruct Hc as [H1 H2]. change (vfs_rename w v) with (two_path_call op_rename w v).
    pose proof (two_path_call_spec w v (Some p) (Some q) op_rename L Hok Hh H1 H2 rename_steady) as Hs.
    destruct (two_path_call _ _ _ _ _). apply Hs.
  - destruct Hc as [H1 H2], Hh as [Hi <-]. destruct (vfs_link w v (Some p) (Some q) follow) as [rc w'] eqn:E.
    destruct (vfs_link_correct w v _ _ follow rc w' Hok Hi H1 H2 E) as (? & ? & _). done.
  - by apply symlink_holds.
Qed.

(** A call with a NULL result takes at most the block of its path. *)
Lemma exec_null v w c L :
  holds L w → call_fits c → result_given c = false →
  holds L (vfs_exec v w c) ∨ leaks L (vfs_exec v w c).
Proof.
  intros Hh Hc Hr. destruct c; cbn [vfs_exec call_fits result_given] in *; try done; subst.
  - pose proof (null_leaves w (Some p) L Hh Hc) as Hn. unfold vfs_resolve.
    destruct (vfs_normalize_alloc w (Some p)) as [[[q out]|] w1]; [by right|by left].
  - destruct Hc as [Hc _]. pose proof (null_leaves w (Some p) L Hh Hc) as Hn. unfold vfs_getdents.
    destruct (vfs_normalize_alloc w (Some p)) as [[[q out]|] w1]; [by right|by left].
Qed.

(** C26: any sequence of calls on paths keeps the heap well formed, frees no
    block that it did not take and returns every block it takes, on the error
    paths too, except that each [vfs_resolve] or [vfs_getdents] with NULL for
    its result may leave the one block of its path behind. *)
Theorem vfs_calls_return_heap v w cs :
  vfs_ok v → ka_inv w → Forall call_fits cs →
  let w' := foldl (vfs_exec v) w cs in
  let nulls := length (filter (λ c, result_given c = false) cs) in
  ka_inv w' ∧ ka_live w ⊆ ka_live w' ∧
  (size (ka_live w') <= size (ka_live w) + nulls)%nat ∧
  (Forall (λ c, result_given c = true) cs → ka_live w' = ka_live w).
Proof.
  intros Hok Hi Hc. cbv zeta. revert w Hi. induction cs as [|c cs IH]; intros w Hi; cbn [foldl].
  { split; [done|]. split; [done|]. split; [cbn; lia|done]. }
  apply Forall_cons in Hc as [Hc1 Hc]. specialize (IH Hc). rewrite filter_cons.
  assert (holds (ka_live w) w) as Hh by done. destruct (result_given c) eqn:Er.
  - destruct (exec_holds v w c _ Hok Hh Hc1 Er) as [Hi1 E]. destruct (IH _ Hi1) as (H1 & H2 & H3 & H4).
    rewrite E in *. rewrite decide_False by done. split; [done|]. split; [done|]. split; [done|].
    intros [_ Hr]%Forall_cons. by apply H4.
  - destruct (exec_null v w c _ Hh Hc1 Er) as [[Hi1 E]|[Hi1 (p & Hp & E)]];
      destruct (IH _ Hi1) as (H1 & H2 & H3 & _); rewrite E in *; rewrite decide_True by done;
      (split; [done|]); (split; [set_solver|]); (split; [|intros [? _]%Forall_cons; congruence]); cbn [length].
    + lia.
    + rewrite size_union, size_singleton in H3 by set_solver. lia.
Qed.

(** ** Mounting *)

Lemma str_copy_small s n : str_len s < n → str_copy s n = s.
Proof. intros. apply take_ge. unfold str_len in *. lia. Qed.

Lemma last_slash_word c i a : ch_slash ∉ c → last_slash_from i (a ++ c) = last_slash_from i a.
Proof.
  intros Hc. assert (∀ j, last_slash_from j c = None) as Hn.
  { induction c as [|x c IH]; intros j; [done|]. simpl. rewrite IH by set_solver.
    by rewrite (proj2 (Z.eqb_neq x ch_slash)) by set_solver. }
  revert i. induction a as [|x a IH]; intros i; simpl; [by rewrite Hn|]. by rewrite IH.
Qed.

Lemma last_slash_snoc a i : last_slash_from i (a ++ [ch_slash]) = Some (i + str_len a).
Proof.
  revert i. unfold str_len. induction a as [|x a IH]; intros i; simpl; [f_equal; lia|]. rewrite IH. f_equal. lia.
Qed.

Lemma parent_path_join cs :
  Forall good_comp cs → cs ≠ [] → str_len (join cs) < VFS_MOUNT_PATH_MAX →
  parent_path (join cs) = join (take (pred (length cs)) cs).
Proof.
  intros Hg Hne Hl. unfold parent_path. rewrite str_copy_small by done.
  destruct cs as [|c cs _] using rev_ind; [done|]. rewrite length_app, Nat.add_1_r. simpl pred. rewrite take_app_length.
  apply Forall_app in Hg as [_ Hc]. apply Forall_cons in Hc as [[[_ Hc] _] _].
  rewrite join_snoc. unfold last_slash. rewrite last_slash_word by done. destruct cs as [|d cs]; [done|].
  rewrite last_slash_snoc, Z.add_0_l. unfold str_len. rewrite Nat2Z.id, <-app_assoc. by rewrite take_app_length.
Qed.

(** Where a new mount goes. *)
Lemma free_slot_spec v :
  match for_exit 0 (Z.to_nat VFS_MAX_MOUNTS) (λ i _, if in_use v i then inr tt else inl i) tt with
  | inl i => mount_ix i ∧ in_use v i = false
  | inr _ => ∀ i, mount_ix i → in_use v i = true
  end.
Proof.
  pose proof (for_exit_inv (λ k _, ∀ i, 0 <= i < k → in_use v i = true) (λ i, mount_ix i ∧ in_use v i = false)
    (λ i _, if in_use v i then inr tt else inl i) 0 (Z.to_nat VFS_MAX_MOUNTS) tt) as Hl.
  lapply Hl; clear Hl; [intros Hl; lapply Hl; clear Hl; [|intros; lia]|].
  - by destruct (for_exit _ _ _ _).
  - intros k _ Hk Hinv. change (Z.of_nat (Z.to_nat VFS_MAX_MOUNTS)) with 8 in Hk. destruct (in_use v k) eqn:E.
    + intros i Hi. destruct (Z.eq_dec i k) as [->|]; [done|]. apply Hinv. lia.
    + split; [|done]. unfold mount_ix, VFS_MAX_MOUNTS. lia.
Qed.

Definition mounted v i m : vfs := {| vfs_table := vfs_table v; vfs_mounts := (vfs_mounts v).[i <- m] |}.

Lemma mounted_get v i m j :
  vfs_ok v → mount_ix i → mount_ix j → (vfs_mounts (mounted v i m)).[j] = if i =? j then m else (vfs_mounts v).[j].
Proof.
  intros Hok Hi Hj. cbn. unfold mount_ix, VFS_MAX_MOUNTS in *. apply arr_get_set; [|lia].
  rewrite (vo_len _ Hok). change (Z.to_nat VFS_MAX_MOUNTS) with 8%nat. lia.
Qed.

Lemma mounted_ok v i m cs :
  vfs_ok v → mount_ix i → Forall good_comp cs → str_len (join cs) < VFS_MOUNT_PATH_MAX →
  m_path m = join cs → m_path_len m = str_len (join cs) → ¬ mounted_at v cs →
  vfs_ok (mounted v i m) ∧ mcomps (mounted v i m) i = cs.
Proof.
  intros Hok Hi Hg Hl Hp Hpl Hno. assert (comps (m_path m) = cs) as Hc by (rewrite Hp; apply comps_join; auto).
  assert (∀ j, mount_ix j → mcomps (mounted v i m) j = if i =? j then cs else mcomps v j) as Hm.
  { intros j Hj. unfold mcomps. rewrite mounted_get by done. by destruct (i =? j). }
  assert (∀ j, mount_ix j → in_use (mounted v i m) j = if i =? j then m_in_use m else in_use v j) as Hu.
  { intros j Hj. unfold in_use. rewrite mounted_get by done. by destruct (i =? j). }
  split; [split|].
  - cbn. rewrite length_arr_set. apply Hok.
  - intros j Hj Huj. rewrite Hu in Huj by done. rewrite mounted_get by done. destruct (i =? j); [|by apply Hok].
    split; rewrite ?Hc, ?Hp; try done. by rewrite Hpl.
  - intros j k Hj Hk Huj Huk E. rewrite Hu in Huj, Huk by done. rewrite !Hm in E by done.
    destruct (Z.eqb_spec i j) as [Ej|], (Z.eqb_spec i k) as [Ek|]; [congruence|..].
    + destruct Hno. by exists k.
    + destruct Hno. by exists j.
    + by apply (vo_unique _ Hok).
  - rewrite Hm by done. by rewrite Z.eqb_refl.
Qed.

(** Paths that do not go through a new mount keep their mount. *)
Lemma mounted_routes v i m cs js j rel :
  vfs_ok v → mount_ix i → m_in_use m = true → in_use v i = false → comps (m_path m) = cs → ¬ cs `prefix_of` js →
  routes (mounted v i m) js j rel ↔ routes v js j rel.
Proof.
  intros Hok Hi Hmu Hfree Hc Hnp.
  assert (∀ k, mount_ix k → mcomps (mounted v i m) k = if i =? k then cs else mcomps v k) as Hm.
  { intros k Hk. unfold mcomps. rewrite mounted_get by done. by destruct (i =? k). }
  assert (∀ k, mount_ix k → in_use (mounted v i m) k = if i =? k then true else in_use v k) as Hu.
  { intros k Hk. unfold in_use. rewrite mounted_get by done. by destruct (i =? k). }
  split; intros [Hj Huj Hs Hl].
  - destruct (Z.eqb_spec i j) as [->|Hij].
    { destruct Hnp. rewrite Hm, Z.eqb_refl in Hs by done. by exists rel. }
    pose proof (proj2 (Z.eqb_neq i j) Hij) as Eij. rewrite Hu, Eij in Huj by done. rewrite Hm, Eij in Hs by done.
    split; [done|done|done|]. intros k Hk Huk Hpk. destruct (Z.eqb_spec i k) as [->|Hik]; [congruence|].
    specialize (Hl k Hk). rewrite Hu, !Hm, Eij, (proj2 (Z.eqb_neq i k) Hik) in Hl by done. by apply Hl.
  - destruct (Z.eqb_spec i j) as [->|Hij]; [congruence|]. pose proof (proj2 (Z.eqb_neq i j) Hij) as Eij.
    split; [done|by rewrite Hu, Eij|by rewrite Hm, Eij|]. intros k Hk Huk Hpk. rewrite !Hm, Eij in * by done.
    rewrite Hu in Huk by done. destruct (i =? k); [done|]. by apply Hl.
Qed.

(** What a mount needs. *)
Record mountable w v (mp : option (list Z)) (fs_name : list Z) (source : option (list Z)) (cs : list comp) : Prop := {
  mb_fits : fits [] (comps (path_of mp)) VFS_MOUNT_PATH_MAX;
  mb_new : ¬ mounted_at v cs;
  mb_known : (vfs_lookup_fs v fs_name).2 ≠ VFS_MOUNT_KIND_NONE;
  mb_ops : (vfs_lookup_fs v fs_name).2 = VFS_MOUNT_KIND_FS → (vfs_lookup_fs v fs_name).1 ≠ 0;
  mb_parent : cs ≠ [] → ∃ w1 st,
    vfs_stat w v (Some (join (take (pred (length cs)) cs))) = (0, st, w1) ∧ st_type st = VFS_STAT_TYPE_DIR;
  mb_init : (vfs_lookup_fs v fs_name).2 = VFS_MOUNT_KIND_FS → ∀ f, op_init (vfs_lookup_fs v fs_name).1 = Some f →
    let w1 := match cs with [] => w | _ => (vfs_stat w v (Some (join (take (pred (length cs)) cs)))).2 end in
    (f w1 (if op_ctx (vfs_lookup_fs v fs_name).1 then None else source)).1 = 0;
  mb_slot : ∃ i, mount_ix i ∧ in_use v i = false;
}.

Lemma fits_root : fits [] (comps (path_of None)) VFS_MOUNT_PATH_MAX.
Proof. intros k Hk. cbn in Hk. destruct k as [|[|k]]; [vm_compute; done|vm_compute; done|lia]. Qed.

Lemma mount_path_spec mp :
  path_fits mp →
  match vfs_normalize_path mp VFS_MOUNT_PATH_MAX with
  | Some norm => norm = join (canon (path_of mp)) ∧ str_len norm < VFS_MOUNT_PATH_MAX ∧
      fits [] (comps (path_of mp)) VFS_MOUNT_PATH_MAX
  | None => ¬ fits [] (comps (path_of mp)) VFS_MOUNT_PATH_MAX
  end.
Proof.
  intros [_ Hl]. destruct mp as [p|]; [|split; [done|]; split; [done|apply fits_root]]. simpl in Hl.
  pose proof (normalize_spec p VFS_MOUNT_PATH_MAX ltac:(lia) ltac:(unfold VFS_MOUNT_PATH_MAX; lia)) as Hn.
  destruct (vfs_normalize_path _ _) as [norm|]; [|done]. destruct Hn as [-> Hft]. split; [done|]. split; [|done].
  by apply fits_end in Hft.
Qed.

Lemma lookup_fs_kind v fs_name ops kind :
  vfs_lookup_fs v fs_name = (ops, kind) →
  (ops =? 0) && negb (kind =? VFS_MOUNT_KIND_DEVFS) && negb (kind =? VFS_MOUNT_KIND_PROCFS) &&
    negb (kind =? VFS_MOUNT_KIND_SYSFS) = false ↔
  kind ≠ VFS_MOUNT_KIND_NONE ∧ (kind = VFS_MOUNT_KIND_FS → ops ≠ 0).
Proof.
  intros E. assert ((ops = 0 ∧ (kind = VFS_MOUNT_KIND_DEVFS ∨ kind = VFS_MOUNT_KIND_PROCFS ∨
    kind = VFS_MOUNT_KIND_SYSFS ∨ kind = VFS_MOUNT_KIND_NONE)) ∨ kind = VFS_MOUNT_KIND_FS) as Hk.
  { unfold vfs_lookup_fs in E. do 3 (destruct (str_eq _ _); [injection E as <- <-; left; tauto|]).
    destruct (for_exit _ _ _ _) as [r| ?] eqn:Efx; [|injection E as <- <-; left; tauto]. subst r. right.
    match type of Efx with for_exit _ ?n ?b ?s = _ =>
      pose proof (for_exit_inv (λ _ _, True) (λ r, r.2 = VFS_MOUNT_KIND_FS) b 0 n s) as Hx end.
    lapply Hx; clear Hx; [intros Hx|intros; cbn; repeat case_match; simplify_eq; done].
    specialize (Hx I). by rewrite Efx in Hx. }
  destruct Hk as [[-> Hk]| ->].
  - destruct Hk as [->|[->|[->| ->]]]; cbn; naive_solver.
  - cbn. rewrite !andb_true_r, Z.eqb_neq. unfold VFS_MOUNT_KIND_FS, VFS_MOUNT_KIND_NONE. naive_solver lia.
Qed.

(** C23: a mount returns 0 exactly when the path fits and is no mount point yet,
    the file system is known, the parent is a directory, the file system's
    initialisation succeeds and a slot is free.  Then it puts exactly one new
    mount at the path; mount points stay unique and normalised, and no path
    outside the new mount changes its file system.  Any other result leaves the
    tree alone. *)
Theorem vfs_mount_correct w v mp fs_name source rc v' w' :
  vfs_ok v → ka_inv w → path_fits mp →
  vfs_mount_with_source w v mp fs_name source = (rc, v', w') →
  let cs := canon (path_of mp) in
  vfs_ok v' ∧ (rc = 0 ↔ mountable w v mp fs_name source cs) ∧ (rc ≠ 0 → v' = v) ∧
  (rc = 0 → ∃ i,
     mount_ix i ∧ in_use v i = false ∧ in_use v' i = true ∧ mcomps v' i = cs ∧
     (mount_ops v' i, mount_kind v' i) = vfs_lookup_fs v fs_name ∧
     ∀ js j rel, ¬ cs `prefix_of` js → routes v' js j rel ↔ routes v js j rel).
Proof.
  intros Hok Hi Hf. unfold vfs_mount_with_source. set (cs := canon (path_of mp)). cbv zeta.
  pose proof (canon_path_good mp Hf : Forall good_comp cs) as Hg.
  assert (∀ rc0 w0, rc0 ≠ 0 → ¬ mountable w v mp fs_name source cs → (rc0, v, w0) = (rc, v', w') →
    vfs_ok v' ∧ (rc = 0 ↔ mountable w v mp fs_name source cs) ∧ (rc ≠ 0 → v' = v) ∧ (rc = 0 → ∃ i,
     mount_ix i ∧ in_use v i = false ∧ in_use v' i = true ∧ mcomps v' i = cs ∧
     (mount_ops v' i, mount_kind v' i) = vfs_lookup_fs v fs_name ∧
     ∀ js j rel, ¬ cs `prefix_of` js → routes v' js j rel ↔ routes v js j rel)) as Hno by naive_solver.
  pose proof (mount_path_spec mp Hf) as Hn. fold cs in Hn.
  destruct (vfs_normalize_path mp VFS_MOUNT_PATH_MAX) as [norm|]; [|apply Hno; [lia|by intros []]].
  destruct Hn as (-> & Hlen & Hfits).
  pose proof (find_exact_spec v Hok cs Hg) as He. destruct (0 <=? _); [apply Hno; [lia|by intros []]|].
  destruct (vfs_lookup_fs v fs_name) as [ops kind] eqn:Elk. pose proof (lookup_fs_kind _ _ _ _ Elk) as Hkind.
  assert (∀ P : Prop, mountable w v mp fs_name source cs → (kind ≠ VFS_MOUNT_KIND_NONE ∧
    (kind = VFS_MOUNT_KIND_FS → ops ≠ 0) → P) → P) as Hmk by (intros P []; rewrite Elk in *; auto).
  destruct (_ && _ && _ && _) eqn:Ekind.
  { apply Hno; [lia|]. intros Hm. apply (Hmk False Hm). intros Hk%Hkind. done. }
  destruct (proj1 Hkind eq_refl) as [Hknown Hops]. clear Hkind Hmk.
  match goal with |- context [let '(_, _) := match join cs with [] => _ | _ => _ end in _] =>
    destruct (match join cs with [] => (true, w) | _ => _ end) as [pok w1] eqn:Epar end.
  assert (w1 = match cs with [] => w | _ => (vfs_stat w v (Some (join (take (pred (length cs)) cs)))).2 end ∧
    (pok = true ↔ (cs ≠ [] → ∃ w1 st, vfs_stat w v (Some (join (take (pred (length cs)) cs))) = (0, st, w1) ∧
       st_type st = VFS_STAT_TYPE_DIR))) as [Ew1 Hpok].
  { destruct (decide (cs = [])) as [E|Hne]; [rewrite E in *; injection Epar as <- <-; by split|].
    destruct (join cs) as [|x s] eqn:Ej; [by apply join_nil in Ej; auto|]. rewrite <-Ej in Epar, Hlen.
    rewrite parent_path_join in Epar by done. destruct (vfs_stat w v _) as [[src st] w3].
    injection Epar as <- <-. split; [by destruct cs|]. rewrite andb_true_iff, !Z.eqb_eq. split; [|naive_solver].
    intros [-> Ht] _. by exists w3, st. }
  destruct pok; cbn [negb]; [|apply Hno; [lia|intros []; by assert (false = true) by by apply Hpok]].
  match goal with |- context [let '(_, _) := ?t in if negb _ then _ else _] => destruct t as [irc w2] eqn:Einit end.
  assert (irc = 0 ↔ (kind = VFS_MOUNT_KIND_FS → ∀ f, op_init ops = Some f →
    (f w1 (if op_ctx ops then None else source)).1 = 0)) as Hinit.
  { destruct (Z.eqb_spec kind VFS_MOUNT_KIND_FS) as [->|]; [|injection Einit as <- <-; naive_solver].
    destruct (op_init ops) as [f|]; [|injection Einit as <- <-; naive_solver].
    split; [|intros Hf0; specialize (Hf0 eq_refl f eq_refl); by rewrite Einit in Hf0]. intros -> _ g [= <-]. by rewrite Einit. }
  destruct (Z.eqb_spec irc 0) as [E0|E0]; cbn [negb].
  2:{ apply Hno; [done|]. intros []. rewrite Elk in *. cbn [fst snd] in *. apply E0, Hinit. by rewrite Ew1. }
  pose proof (proj1 Hinit E0) as Hinit'. rewrite Ew1 in Hinit'.
  pose proof (free_slot_spec v) as Hs. destruct (for_exit _ _ _ _) as [i| ?].
  2:{ apply Hno; [lia|]. intros [_ _ _ _ _ _ (i & Hix & Hu)]. by rewrite Hs in Hu. }
  destruct Hs as [Hix Hfree]. intros [= <- <- <-]. set (m := new_mount (join cs) kind ops source fs_name).
  assert (m_path m = join cs) as Hmp by by apply str_copy_small.
  assert (m_path_len m = str_len (join cs)) as Hml by (change (m_path_len m) with (str_len (m_path m)); by rewrite Hmp).
  destruct (mounted_ok v i m cs Hok Hix Hg Hlen Hmp Hml He) as [Hok' Hmc]. fold (mounted v i m). split; [done|].
  split; [split; [intros _|done]|split; [done|intros _]].
  { split; rewrite ?Elk; cbn [fst snd]; try done; [by apply Hpok|by exists i]. }
  exists i. pose proof (mounted_get v i m i Hok Hix Hix) as Hget. rewrite Z.eqb_refl in Hget.
  split; [done|]. split; [done|]. unfold in_use, mount_ops, mount_kind. rewrite Hget. do 3 (split; [done|]).
  intros js j rel Hnp. apply (mounted_routes v i m cs); try done. rewrite Hmp. apply comps_join. auto.
Qed.
End calls.
