(* ===== verification/VfsDents.v ===== *)
(** * The VFS: directory listings

    A listing is entries with a NUL after each.  The VFS copies what the file
    system lists, leaves out the entries that a mount hides, and adds the mounts
    right below the directory. *)

From S2P Require Import Prelude Interfaces Blkdev Vfs VfsPath VfsSpec VfsProps.

Definition flat (es : list (list Z)) : list Z := concat ((λ e, e ++ [0]) <$> es).

(** The entries copied to a buffer of [bufsz] bytes that holds [out]. *)
Fixpoint fill (bufsz : Z) (out : list Z) (es : list (list Z)) : list Z :=
  match es with
  | [] => out
  | e :: es => if bufsz <? str_len out + str_len e + 1 then out else fill bufsz (out ++ e ++ [0]) es
  end.

(** An entry without the slash that marks a directory. *)
Definition strip (e : list Z) : list Z :=
  if (0 <? str_len e) && (char_at e (str_len e - 1) =? ch_slash) then take (Z.to_nat (str_len e - 1)) e else e.

Definition children (v : vfs) (norm : list Z) : list (list Z) :=
  omap (λ i, vfs_mount_child_name norm (vfs_mounts v).[i]) (seqZ 0 VFS_MAX_MOUNTS).

Definition dir_entry (c : list Z) : list Z := c ++ [ch_slash].

Lemma flat_cons e es : flat (e :: es) = e ++ 0 :: flat es.
Proof. unfold flat. simpl. by rewrite <-app_assoc. Qed.

Lemma flat_app a b : flat (a ++ b) = flat a ++ flat b.
Proof. unfold flat. by rewrite fmap_app, concat_app. Qed.

(** Whole entries, as many as fit, all of them when there is room. *)
Lemma entry_fill_spec bufsz out es :
  str_len out <= bufsz →
  ∃ k, (k <= length es)%nat ∧ fill bufsz out es = out ++ flat (take k es) ∧ str_len (fill bufsz out es) <= bufsz ∧
    (str_len out + str_len (flat es) <= bufsz → k = length es).
Proof.
  revert out. induction es as [|e es IH]; intros out Ho; cbn [fill].
  { exists O. rewrite app_nil_r. done. }
  pose proof (str_len_nonneg e). pose proof (str_len_nonneg (flat es)).
  destruct (Z.ltb_spec bufsz (str_len out + str_len e + 1)) as [Hlt|Hge].
  - exists O. simpl. rewrite app_nil_r. split; [lia|]. split; [done|]. split; [done|]. rewrite flat_cons, str_len_app.
    change (0 :: flat es) with ([0] ++ flat es). rewrite str_len_app. change (str_len [0]) with 1. lia.
  - destruct (IH (out ++ e ++ [0])) as (k & Hk & Hf & Hl & Hroom).
    { rewrite !str_len_app. change (str_len [0]) with 1. lia. }
    exists (S k). split; [simpl; lia|]. split; [|split; [done|]].
    + rewrite Hf. simpl take. rewrite flat_cons, <-!app_assoc. done.
    + intros Hr. simpl. f_equal. apply Hroom. rewrite flat_cons in Hr. change (0 :: flat es) with ([0] ++ flat es) in Hr.
      rewrite !str_len_app in *. lia.
Qed.

(** ** Copying the file system's entries *)

Lemma until_nul_app e r : 0 ∉ e → until_nul (e ++ 0 :: r) = e.
Proof.
  induction e as [|c e IH]; intros H0; [done|]. simpl. rewrite (proj2 (Z.eqb_neq c 0)) by set_solver.
  f_equal. apply IH. set_solver.
Qed.

Lemma copy_entries_spec v norm junk bufsz rest : ∀ prev fuel out,
  Forall (λ e, 0 ∉ e) rest → (length (flat rest) <= fuel)%nat → bufsz < 2 ^ 30 → str_len out <= bufsz →
  str_len (flat rest) < 2 ^ 30 →
  copy_entries fuel v norm (flat prev ++ flat rest ++ junk) (str_len (flat prev))
    (str_len (flat prev ++ flat rest)) bufsz out =
  fill bufsz out (filter (λ e, vfs_entry_shadowed v norm e = false) rest).
Proof.
  induction rest as [|e rest IH]; intros d fuel out H0 Hfuel Hb Ho Hl.
  { change (flat []) with ([] : list Z). rewrite app_nil_r. destruct fuel; [done|]. cbn [copy_entries].
    by rewrite Z.ltb_irrefl. }
  apply Forall_cons in H0 as [He H0]. rewrite flat_cons in *. pose proof (str_len_nonneg e). pose proof (str_len_nonneg out).
  pose proof (str_len_nonneg (flat rest)).
  assert (str_len (e ++ 0 :: flat rest) = str_len e + 1 + str_len (flat rest)) as El.
  { rewrite str_len_app. change (0 :: flat rest) with ([0] ++ flat rest). rewrite str_len_app.
    change (str_len [0]) with 1. lia. }
  destruct fuel as [|fuel]; [rewrite length_app in Hfuel; simpl in Hfuel; lia|]. cbn [copy_entries].
  rewrite str_len_app, El. destruct (Z.ltb_spec (str_len (flat d)) (str_len (flat d) + (str_len e + 1 + str_len (flat rest)))); [|lia].
  assert (str_at (flat d ++ (e ++ 0 :: flat rest) ++ junk) (str_len (flat d)) = e) as ->.
  { unfold str_at, str_len. rewrite Nat2Z.id, drop_app_length, <-app_assoc. simpl. by apply until_nul_app. }
  assert (flat d ++ (e ++ 0 :: flat rest) ++ junk = flat (d ++ [e]) ++ flat rest ++ junk) as Etmp.
  { rewrite flat_app, flat_cons. change (flat []) with ([] : list Z). rewrite <-!app_assoc. done. }
  assert (str_len (flat d) + str_len e + 1 = str_len (flat (d ++ [e]))) as Ei.
  { rewrite flat_app, flat_cons. change (flat []) with ([] : list Z). rewrite !str_len_app. change (str_len [0]) with 1. lia. }
  assert (str_len (flat d) + (str_len e + 1 + str_len (flat rest)) = str_len (flat (d ++ [e]) ++ flat rest)) as En.
  { rewrite str_len_app. lia. }
  assert (length (flat rest) <= fuel)%nat as Hfuel'.
  { rewrite length_app in Hfuel. simpl in Hfuel. lia. }
  rewrite Etmp, En, Ei. rewrite filter_cons. destruct (vfs_entry_shadowed v norm e) eqn:Es; cbn [negb].
  - rewrite decide_False by done. apply IH; try done; lia.
  - rewrite decide_True by done. cbn [fill]. rewrite (u32_small (str_len out + str_len e)), u32_small by (unfold is_u32; lia).
    destruct (Z.ltb_spec bufsz (str_len out + str_len e + 1)) as [|Hge]; [done|]. apply IH; try done; [|lia].
    rewrite !str_len_app. change (str_len [0]) with 1. lia.
Qed.

(** ** The mounts below *)

Lemma append_mounts_spec v norm bufsz out :
  length (vfs_mounts v) = Z.to_nat VFS_MAX_MOUNTS → bufsz < 2 ^ 30 → str_len out <= bufsz →
  (∀ i c, mount_ix i → vfs_mount_child_name norm (vfs_mounts v).[i] = Some c → str_len c < 2 ^ 30) →
  append_mounts v norm bufsz out = fill bufsz out (dir_entry <$> children v norm).
Proof.
  intros Hlen Hb Ho Hc. unfold append_mounts, children.
  assert (∀ n i out, 0 <= i → i + Z.of_nat n <= 8 → str_len out <= bufsz →
    match for_exit i n (λ i out, match vfs_mount_child_name norm (vfs_mounts v).[i] with
                    | None => inr out
                    | Some child => match vfs_append_dirent out bufsz child true with
                                    | None => inl out | Some out => inr out end end) out with
    | inl out => out | inr out => out end =
    fill bufsz out (dir_entry <$> omap (λ i, vfs_mount_child_name norm (vfs_mounts v).[i]) (seqZ i (Z.of_nat n)))) as Hgen.
  2:{ apply (Hgen 8%nat 0 out); [lia|lia|done]. }
  clear Ho out. induction n as [|n IH]; intros i out Hi Hn Ho; [done|].
  replace (Z.of_nat (S n)) with (Z.succ (Z.of_nat n)) by lia. rewrite seqZ_cons by lia. cbn [for_exit].
  rewrite Z.pred_succ. cbn [omap list_omap]. specialize (IH (i + 1)).
  destruct (vfs_mount_child_name norm (vfs_mounts v).[i]) as [c|] eqn:Ec; [|by apply IH; [lia|lia|]].
  pose proof (Hc i c ltac:(unfold mount_ix, VFS_MAX_MOUNTS; lia) Ec). pose proof (str_len_nonneg c). pose proof (str_len_nonneg out).
  cbn [fmap list_fmap fill]. unfold vfs_append_dirent. rewrite (u32_small (str_len out + str_len c)), u32_small by (unfold is_u32; lia).
  assert (str_len (dir_entry c) = str_len c + 1) as -> by (unfold dir_entry; by rewrite str_len_app).
  replace (str_len out + (str_len c + 1) + 1) with (str_len out + str_len c + 2) by lia.
  destruct (Z.ltb_spec bufsz (str_len out + str_len c + 2)); [done|].
  unfold dir_entry at 1. rewrite <-app_assoc. apply IH; [lia|lia|].
  rewrite !str_len_app. change (str_len [ch_slash]) with 1. change (str_len [0]) with 1. lia.
Qed.

(** An entry is hidden exactly when something is mounted under its name. *)
Lemma shadowed_spec v cs e :
  vfs_ok v → Forall good_comp cs →
  vfs_entry_shadowed v (join cs) e = true ↔ mounted_at v (cs ++ [strip e]).
Proof.
  intros Hok Hc. unfold vfs_entry_shadowed.
  set (n := if _ && _ then str_len e - 1 else str_len e).
  assert (take (Z.to_nat n) e = strip e ∧ n = str_len (strip e)) as [Et En].
  { unfold n, strip. pose proof (str_len_nonneg e). destruct (_ && _) eqn:E.
    - bprop. split; [done|]. unfold str_len in *. rewrite length_take. lia.
    - split; [|done]. apply take_ge. unfold str_len. lia. }
  assert (∀ c, (str_len c =? n) && strn_eq c e n = true ↔ c = strip e) as Htest.
  { intros c. rewrite andb_true_iff, Z.eqb_eq. unfold strn_eq. rewrite bool_decide_eq_true, Et. split.
    - intros [E1 E2]. rewrite <-E2. symmetry. apply take_ge. unfold str_len in *. lia.
    - intros ->. split; [done|]. apply take_ge. rewrite En. unfold str_len. lia. }
  match goal with |- context [for_exit 0 ?nn ?body ?s0] =>
    pose proof (for_exit_inv (λ k _, ∀ i, 0 <= i < k → in_use v i = true → mcomps v i ≠ cs ++ [strip e])
      (λ _, mounted_at v (cs ++ [strip e])) body 0 nn s0) as Hl end.
  lapply Hl; clear Hl; [intros Hl; lapply Hl; clear Hl; [intros Hl|intros; lia]|].
  - destruct (for_exit _ _ _ _); [done|]. split; [done|]. intros (i & Hi & Hu & E). exfalso. apply (Hl i); [|done|done].
    unfold mount_ix, VFS_MAX_MOUNTS in *. lia.
  - intros k u Hk Hinv. change (Z.of_nat (Z.to_nat VFS_MAX_MOUNTS)) with 8 in Hk.
    assert (mount_ix k) as Hkx by (unfold mount_ix, VFS_MAX_MOUNTS; lia).
    assert (∀ j, 0 <= j < k + 1 ↔ 0 <= j < k ∨ j = k) as Hlt by (intros; lia).
    destruct (vfs_mount_child_name (join cs) (vfs_mounts v).[k]) as [c|] eqn:Ec.
    + apply (child_name_spec v Hok cs k c Hc Hkx) in Ec as [Hu Em].
      destruct ((str_len c =? n) && strn_eq c e n) eqn:Eb.
      * apply Htest in Eb as ->. by exists k.
      * intros i [Hi| ->]%Hlt Hui; [by apply Hinv|]. rewrite Em. intros E. apply app_inv_head in E. injection E as E.
        apply Htest in E. congruence.
    + intros i [Hi| ->]%Hlt Hui; [by apply Hinv|]. intros E.
      assert (vfs_mount_child_name (join cs) (vfs_mounts v).[k] = Some (strip e)) as E' by by apply child_name_spec.
      congruence.
Qed.

Lemma children_spec v cs c :
  vfs_ok v → Forall good_comp cs → c ∈ children v (join cs) ↔ mounted_at v (cs ++ [c]).
Proof.
  intros Hok Hc. unfold children. rewrite list_elem_of_omap. split.
  - intros (i & Hi & E). apply elem_of_seqZ in Hi. exists i. assert (mount_ix i) as Hix by (unfold mount_ix; lia).
    apply (child_name_spec v Hok cs i c Hc Hix) in E. by destruct E.
  - intros (i & Hi & Hu & E). exists i. split; [apply elem_of_seqZ; unfold mount_ix in Hi; lia|].
    by apply child_name_spec.
Qed.

Section listing.
Context {W : Type} {KA : KAllocator W} {FO : FsOps W} {PF : PseudoFs W}.
Implicit Types (w : W) (v : vfs).

(** C25: listing a directory of a mounted file system gives whole entries that
    fit the buffer: first those the file system lists and no mount hides, then
    the mounts right below the directory; nothing is missing when there is room. *)
Theorem vfs_getdents_correct w v path bufsz i rel p w1 tmp w2 es junk n w3 :
  vfs_ok v → path_fits path → 0 <= bufsz < 2 ^ 30 →
  routes v (canon (path_of path)) i rel → mount_kind v i = VFS_MOUNT_KIND_FS →
  ka_malloc w (str_len (path_of path) + 1) = (p, w1) → p ≠ 0 →
  ka_malloc w1 (if bufsz =? 0 then 1 else bufsz) = (tmp, w2) → tmp ≠ 0 →
  op_getdents (mount_ops v i) w2 (match rel with [] => None | _ => Some (join rel) end) bufsz = (n, flat es ++ junk, w3) →
  n = str_len (flat es) → n <= bufsz → Forall (λ e, 0 ∉ e) es →
  let cs := canon (path_of path) in
  let '(rc, out, _) := vfs_getdents w v path true bufsz in
  ∃ shown kids a b,
    rc = str_len out ∧ rc <= bufsz ∧ out = flat (take a shown ++ take b kids) ∧
    (∀ e, e ∈ shown ↔ e ∈ es ∧ ¬ mounted_at v (cs ++ [strip e])) ∧ sublist shown es ∧
    (∀ c, dir_entry c ∈ kids ↔ mounted_at v (cs ++ [c])) ∧
    (str_len (flat (shown ++ kids)) <= bufsz → out = flat (shown ++ kids)).
Proof.
  intros Hok Hf Hb Hr Hk Em Hp Et Htmp Eg -> Hn Hes cs. pose proof (canon_path_good path Hf) as Hg. fold cs in Hg, Hr.
  assert (is_u32 (str_len (path_of path) + 1)) as Hu.
  { destruct Hf as [_ Hl]. pose proof (str_len_nonneg (path_of path)). unfold is_u32. lia. }
  unfold vfs_getdents. cbn [negb].
  assert (vfs_normalize_alloc w path = (Some (p, join cs), w1)) as ->.
  { unfold vfs_normalize_alloc. replace (match path with Some p => str_len p | None => 0 end) with (str_len (path_of path)) by by destruct path.
    rewrite u32_small, Em by done. rewrite (proj2 (Z.eqb_neq p 0)) by done. by rewrite normalize_whole. }
  pose proof (ro_ix _ _ _ _ Hr) as Hix.
  assert (vfs_has_mounts v = true) as ->.
  { unfold vfs_has_mounts.
    pose proof (for_exit_inv (λ k _, ∀ j, 0 <= j < k → in_use v j = false) (λ _, True)
      (λ i _, if in_use v i then inl tt else inr tt) 0 (Z.to_nat VFS_MAX_MOUNTS) tt) as Hl.
    lapply Hl; clear Hl; [intros Hl; lapply Hl; clear Hl; [intros Hl|intros; lia]|].
    - destruct (for_exit _ _ _ _); [done|]. exfalso. pose proof (ro_use _ _ _ _ Hr) as Hu'. rewrite Hl in Hu'; [done|].
      unfold mount_ix, VFS_MAX_MOUNTS in *. lia.
    - intros k u Hk' Hinv. destruct (in_use v k) eqn:E; [done|]. intros j Hj. destruct (Z.eq_dec j k) as [->|]; [done|].
      apply Hinv. lia. }
  rewrite andb_false_r.
  assert (vfs_find_mount_for_path v (join cs) = i) as ->.
  { destruct (find_mount_spec v Hok cs Hg) as [[_ Hno]|[rel' Hr']]; [|by eapply (routes_unique v Hok)].
    exfalso. apply (Hno i Hix (ro_use _ _ _ _ Hr)). rewrite (ro_split _ _ _ _ Hr). by exists rel. }
  destruct (Z.leb_spec 0 i); [|unfold mount_ix in Hix; lia].
  unfold list_mount. rewrite Hk. cbn [Z.eqb VFS_MOUNT_KIND_FS VFS_MOUNT_KIND_DEVFS VFS_MOUNT_KIND_PROCFS VFS_MOUNT_KIND_SYSFS Pos.eqb].
  rewrite Et. rewrite (proj2 (Z.eqb_neq tmp 0)) by done. rewrite (routes_rel v Hok cs i rel Hg Hr).
  assert (match join rel with [] => None | _ :: _ => Some (join rel) end = match rel with [] => None | _ => Some (join rel) end) as ->.
  { pose proof (routes_good v cs i rel Hg Hr) as Hgr. destruct rel as [|c rel]; [done|].
    destruct (join (c :: rel)) eqn:Ej; [by apply join_nil in Ej; auto|done]. }
  rewrite Eg. pose proof (str_len_nonneg (flat es)). destruct (Z.ltb_spec (str_len (flat es)) 0); [lia|].
  set (shown := filter (λ e, vfs_entry_shadowed v (join cs) e = false) es).
  pose proof (copy_entries_spec v (join cs) junk bufsz es [] (Z.to_nat (str_len (flat es))) [] Hes) as Hc.
  change (flat []) with ([] : list Z) in Hc. rewrite !app_nil_l in Hc. change (str_len []) with 0 in Hc.
  rewrite Hc by (unfold str_len in *; lia). fold shown.
  destruct (entry_fill_spec bufsz [] shown ltac:(change (str_len []) with 0; lia)) as (a & Ha & Efa & Hla & Hra). rewrite app_nil_l in Efa.
  set (kids := dir_entry <$> children v (join cs)).
  rewrite append_mounts_spec; [|apply Hok|lia|done|].
  2:{ intros j c Hj E. apply (child_name_spec v Hok cs j c Hg Hj) in E as [Huj Ec].
      destruct (vo_mounts _ Hok j Hj Huj) as [_ Hmp Hml Hmf]. rewrite Hml, Hmp in Hmf. fold (mcomps v j) in Hmf.
      rewrite Ec, join_snoc, str_len_app in Hmf. pose proof (str_len_nonneg (match cs with [] => [] | _ => join cs ++ [ch_slash] end)).
      unfold VFS_MOUNT_PATH_MAX in Hmf. lia. }
  fold kids. destruct (entry_fill_spec bufsz (fill bufsz [] shown) kids Hla) as (b & Hb' & Efb & Hlb & Hrb).
  exists shown, kids, a, b. split; [done|]. split; [done|]. split; [by rewrite Efb, Efa, flat_app|].
  split; [|split; [|split]].
  - intros e. unfold shown. rewrite list_elem_of_filter, <-(shadowed_spec v cs e Hok Hg), not_true_iff_false. tauto.
  - apply sublist_filter.
  - intros c. unfold kids. rewrite list_elem_of_fmap. rewrite <-(children_spec v cs c Hok Hg). split.
    + intros (c' & E & Hin). apply app_inj_tail in E as [-> _]. done.
    + intros Hin. by exists c.
  - intros Hroom. rewrite flat_app, str_len_app in Hroom. pose proof (str_len_nonneg (flat kids)).
    rewrite Efb, Efa. rewrite Hra, firstn_all by (change (str_len []) with 0; lia). rewrite flat_app. f_equal.
    rewrite Hrb, firstn_all; [done|]. rewrite Efa, Hra, firstn_all by (change (str_len []) with 0; lia). lia.
Qed.
End listing.
