(* ===== verification/VfsDemo.v ===== *)
(** * The VFS: a concrete namespace

    The kernel heap, one file system that records its calls and lists two
    names, mounted at the root, and a devfs mounted at [/dev]. *)

From S2P Require Import Prelude Interfaces Kheap Blkdev Vfs VfsPath VfsSpec VfsProps VfsMount VfsDents.

(** The heap, and the calls that reached the file system. *)
Record demo_world := mk_world { dw_heap : kheap; dw_calls : list (list (list Z)) }.

Definition logged (w : demo_world) (args : list (list Z)) : demo_world := mk_world (dw_heap w) (args :: dw_calls w).

#[export] Instance world_allocator : KAllocator demo_world := {
  ka_malloc w n := let '(p, h) := kmalloc (dw_heap w) n in (p, mk_world h (dw_calls w));
  ka_free w p := mk_world (kfree (dw_heap w) p) (dw_calls w);
}.

#[export] Instance world_allocator_laws :
  KAllocatorLaws demo_world (λ w, heap_inv (dw_heap w)) (λ w, heap_live (dw_heap w)) (λ w, heap_room (dw_heap w)).
Proof.
  assert (∀ w n, ka_malloc w n = ((ka_malloc (dw_heap w) n).1, mk_world (ka_malloc (dw_heap w) n).2 (dw_calls w))) as Hm.
  { intros w n. cbn. by destruct (kmalloc (dw_heap w) n). }
  split.
  - intros w n Hi Hn. rewrite Hm. by apply (@ka_malloc_inv _ _ _ _ _ kheap_allocator_laws).
  - intros w n Hi Hn. rewrite Hm. cbn [fst snd]. intros E. pose proof (@ka_malloc_fail _ _ _ _ _ kheap_allocator_laws _ _ Hi Hn E) as Ef. cbn [fst snd]. rewrite Ef. by destruct w.
  - intros w n p w' Hi Hn. rewrite Hm. intros [= Ep <-] Hp. cbn [dw_heap].
    apply (@ka_malloc_ok _ _ _ _ _ kheap_allocator_laws (dw_heap w) n p); [done|done| |done]. rewrite <-Ep. apply surjective_pairing.
  - intros w. destruct w as [h l]. cbn. f_equal.
  - intros w p. cbn [ka_free world_allocator dw_heap]. apply (@ka_free_inv _ _ _ _ _ kheap_allocator_laws).
  - intros w p. cbn [ka_free world_allocator dw_heap]. apply (@ka_free_live _ _ _ _ _ kheap_allocator_laws).
  - intros w p q. cbn [ka_free world_allocator dw_heap]. apply (@ka_free_room _ _ _ _ _ kheap_allocator_laws).
  - intros w. apply (@ka_live_nonzero _ _ _ _ _ kheap_allocator_laws).
Qed.

Definition str_home : list Z := [104; 111; 109; 101].
Definition str_dev : list Z := [100; 101; 118].
Definition demo_listing : list (list Z) := [str_home ++ [ch_slash]; str_dev ++ [ch_slash]].

#[export] Instance demo_fs : FsOps demo_world := {
  op_ctx _ := true;
  op_init _ := Some (λ w _, (0, w));
  op_open _ := None;
  op_getdents _ w _ n := (str_len (flat demo_listing), flat demo_listing, w);
  op_create _ := Some (λ w p, (5, logged w [p]));
  op_unlink _ := Some (λ w p, (0, logged w [p]));
  op_mkdir _ := Some (λ w p, (0, logged w [p]));
  op_rmdir _ := None;
  op_rename _ := Some (λ w p q, (0, logged w [p; q]));
  op_link _ := None;
  op_symlink _ := None;
  op_readlink _ := None;
  op_stat _ := Some (λ w _, (0, vfs_dir_stat, w));
  op_lstat _ := None;
  op_read _ := None;
  op_write _ := None;
  op_truncate _ := None;
  op_flush _ := None;
}.

#[export] Instance demo_pseudo : PseudoFs demo_world := {
  procfs_fill_node w _ n := (-1, n, w);
  procfs_stat w _ := (-1, no_stat, w);
  procfs_getdents w _ _ := (-1, [], w);
  sysfs_fill_node w _ n := (-1, n, w);
  sysfs_stat w _ := (-1, no_stat, w);
  sysfs_getdents w _ _ := (-1, [], w);
  sysfs_read_file w _ _ _ := (-1, [], w);
  blkdev_table _ := blkdev_reset;
}.

#[export] Instance demo_fs_laws : FsOpsLaws demo_world (λ w, heap_inv (dw_heap w)) (λ w, heap_live (dw_heap w)).
Proof. split; cbn; intros; simplify_eq; done. Qed.

Definition demo_w : demo_world := mk_world demo_heap [].

Lemma demo_w_inv : heap_inv (dw_heap demo_w).
Proof. eapply heap_repr_inv, demo_heap_repr. Qed.

(** [/] is file system 1, [/dev] a devfs. *)
Definition str_fs : list Z := [102; 115].
Definition demo_reg : vfs := (vfs_register vfs_reset str_fs 1).2.
Definition demo_root : vfs := (vfs_mount demo_w demo_reg (Some [ch_slash]) str_fs).1.2.
Definition demo_vfs : vfs := (vfs_mount demo_w demo_root (Some (ch_slash :: str_dev)) str_devfs).1.2.

#[local] Opaque demo_vfs.

Lemma demo_reset_ok v : vfs_mounts v = vfs_mounts vfs_reset → vfs_ok v.
Proof.
  intros E. assert (∀ i, mount_ix i → in_use v i = false) as Hu.
  { intros i Hi. unfold in_use. rewrite E. cbn [vfs_reset vfs_mounts]. unfold mount_ix, VFS_MAX_MOUNTS in *.
    by rewrite arr_get_replicate by (change (Z.to_nat 8) with 8%nat; lia). }
  split; [by rewrite E|..].
  - intros i Hi Hui. rewrite Hu in Hui; done.
  - intros i j Hi _ Hui. rewrite Hu in Hui; done.
Qed.

Lemma demo_vfs_ok : vfs_ok demo_vfs.
Proof.
  assert (∀ i, mount_ix i → i = 0 ∨ i = 1 ∨ 2 <= i < 8) as Hix by (unfold mount_ix, VFS_MAX_MOUNTS; lia).
  assert (∀ i, 2 <= i < 8 → in_use demo_vfs i = false) as Hfree.
  { intros i Hi. assert (i = 2 ∨ i = 3 ∨ i = 4 ∨ i = 5 ∨ i = 6 ∨ i = 7) as Hc by lia.
    destruct Hc as [->|[->|[->|[->|[->| ->]]]]]; vm_compute; reflexivity. }
  assert (mcomps demo_vfs 0 = [] ∧ mcomps demo_vfs 1 = [str_dev]) as [E0 E1] by (split; vm_compute; reflexivity).
  assert (good_comp str_dev) as Hd.
  { unfold good_comp, sep_comp, str_dev, ch_slash, ch_dot. repeat split; try discriminate;
      rewrite !elem_of_cons, elem_of_nil; lia. }
  split; [vm_compute; reflexivity|..].
  - intros i [->|[->|Hi]]%Hix Hu; [| |rewrite (Hfree _ Hi) in Hu; discriminate Hu].
    + split; [fold (mcomps demo_vfs 0); rewrite E0; constructor|vm_compute; reflexivity..].
    + split; [fold (mcomps demo_vfs 1); rewrite E1; by repeat constructor; apply Hd|vm_compute; reflexivity..].
  - intros i j [->|[->|Hi]]%Hix [->|[->|Hj]]%Hix Hui Huj E; try reflexivity.
    all: try (rewrite (Hfree _ Hi) in Hui; discriminate Hui); try (rewrite (Hfree _ Hj) in Huj; discriminate Huj).
    all: rewrite E0, E1 in E; discriminate E.
Qed.

(** ** Witnesses *)

Definition str_dots : list Z := [47; 46; 47; 97; 47; 46; 46; 47; 47; 98; 47].

Ltac no_byte := unfold path_fits, c_string; split; [cbn [path_of from_option id]; rewrite ?elem_of_cons, ?elem_of_nil; lia|vm_compute; reflexivity].

Lemma vfs_normalize_path_correct_witness : vfs_normalize_path (Some str_dots) 128 = Some [98].
Proof.
  pose proof (vfs_normalize_path_correct str_dots 128) as Ht.
  assert (vfs_normalize_path (Some str_dots) 128 = Some [98]) as E by (vm_compute; reflexivity). rewrite E in Ht.
  destruct Ht as (_ & Ht & _); [unfold c_string, str_dots; rewrite !elem_of_cons, elem_of_nil; lia|vm_compute; reflexivity|lia|].
  rewrite E. rewrite Ht. vm_compute. reflexivity.
Defined.

(** [/dev/fb0] *)
Definition dev_fb0 : list comp := [str_dev; str_fb0].

Lemma dev_fb0_good : Forall good_comp dev_fb0.
Proof.
  unfold dev_fb0, good_comp, sep_comp, str_dev, str_fb0, ch_slash, ch_dot. repeat constructor; try discriminate;
    rewrite !elem_of_cons, elem_of_nil; lia.
Qed.

Lemma vfs_find_mount_correct_witness :
  vfs_find_mount_for_path demo_vfs (join dev_fb0) = 1 ∧ vfs_relpath (vfs_mounts demo_vfs).[1] (join dev_fb0) = str_fb0.
Proof.
  pose proof (vfs_find_mount_correct demo_vfs dev_fb0 demo_vfs_ok dev_fb0_good) as Ht. cbv zeta in Ht.
  assert (vfs_find_mount_for_path demo_vfs (join dev_fb0) = 1) as E by (vm_compute; reflexivity).
  rewrite E in *. destruct Ht as [[Hbad _]|(rel & Hr & Hrel & _)]; [discriminate Hbad|]. split; [reflexivity|].
  rewrite Hrel. pose proof (ro_split _ _ _ _ Hr) as Hs.
  assert (mcomps demo_vfs 1 = [str_dev]) as Ec by (vm_compute; reflexivity). rewrite Ec in Hs.
  injection Hs as <-. reflexivity.
Defined.

Definition p_home_a : list Z := [47; 104; 111; 109; 101; 47; 97].
Definition p_b : list Z := [47; 98].

Lemma vfs_path_ops_correct_witness :
  let r := vfs_mkdir demo_w demo_vfs (Some p_home_a) in
  r.1 = 0 ∧ heap_live (dw_heap r.2) = heap_live (dw_heap demo_w).
Proof.
  cbv zeta. assert ((vfs_mkdir demo_w demo_vfs (Some p_home_a)).1 = 0) as E by (vm_compute; reflexivity). split; [exact E|].
  destruct (vfs_mkdir demo_w demo_vfs (Some p_home_a)) as [rc w'] eqn:Em.
  pose proof (vfs_path_ops_correct vfs_mkdir op_mkdir demo_w demo_vfs (Some p_home_a) rc w' ltac:(left) demo_vfs_ok demo_w_inv
    ltac:(unfold p_home_a; no_byte) Em) as (_ & Hl & _).
  exact Hl.
Defined.

Lemma vfs_rename_correct_witness :
  let r := vfs_rename demo_w demo_vfs (Some p_home_a) (Some p_b) in
  r.1 = 0 ∧ heap_live (dw_heap r.2) = heap_live (dw_heap demo_w).
Proof.
  cbv zeta. assert ((vfs_rename demo_w demo_vfs (Some p_home_a) (Some p_b)).1 = 0) as E by (vm_compute; reflexivity).
  split; [exact E|]. destruct (vfs_rename demo_w demo_vfs (Some p_home_a) (Some p_b)) as [rc w'] eqn:Em.
  pose proof (vfs_rename_correct demo_w demo_vfs (Some p_home_a) (Some p_b) rc w' demo_vfs_ok demo_w_inv
    ltac:(unfold p_home_a; no_byte) ltac:(unfold p_b; no_byte) Em) as (_ & Hl & _).
  exact Hl.
Defined.

Definition demo_vfs_calls : list vfs_call :=
  [CMkdir p_home_a; CStat p_b; CGetdents [47] true 64; CRename p_b (47 :: str_dev)].

Lemma vfs_calls_return_heap_witness :
  heap_live (dw_heap (foldl (vfs_exec demo_vfs) demo_w demo_vfs_calls)) = heap_live (dw_heap demo_w).
Proof.
  assert (Forall call_fits demo_vfs_calls) as Hc.
  { repeat constructor; cbn [path_of from_option id]; unfold c_string, p_home_a, p_b, str_dev;
      rewrite ?elem_of_cons, ?elem_of_nil; try lia; try (vm_compute; reflexivity). }
  pose proof (vfs_calls_return_heap demo_vfs demo_w demo_vfs_calls demo_vfs_ok demo_w_inv Hc) as (_ & _ & _ & Hl).
  apply Hl. by repeat constructor.
Defined.

Lemma vfs_mount_correct_witness :
  vfs_ok demo_root ∧ ∃ i, in_use demo_reg i = false ∧ in_use demo_root i = true ∧ mcomps demo_root i = [].
Proof.
  assert (vfs_ok demo_reg) as H0 by (apply demo_reset_ok; reflexivity).
  assert ((vfs_mount_with_source demo_w demo_reg (Some [ch_slash]) str_fs None).1.1 = 0) as E0 by (vm_compute; reflexivity).
  unfold demo_root, vfs_mount.
  destruct (vfs_mount_with_source demo_w demo_reg (Some [ch_slash]) str_fs None) as [[rc v'] w'] eqn:Em.
  pose proof (vfs_mount_correct demo_w demo_reg (Some [ch_slash]) str_fs None rc v' w' H0 demo_w_inv
    ltac:(unfold ch_slash; no_byte) Em) as (Hok & _ & _ & Hm). split; [exact Hok|].
  destruct (Hm E0) as (i & _ & Hf & Hu & Hc & _). exists i. repeat split; assumption.
Defined.

(** The root lists [home/]; the file system's own [dev/] is hidden and the mount
    takes its place. *)
Lemma vfs_getdents_correct_witness :
  (vfs_getdents demo_w demo_vfs (Some [ch_slash]) true 64).1.2 = flat demo_listing ∧
  (vfs_getdents demo_w demo_vfs (Some [ch_slash]) true 64).1.1 <= 64.
Proof.
  assert (∃ q w1 tmp w2, ka_malloc demo_w 2 = (q, w1) ∧ q ≠ 0 ∧ ka_malloc w1 64 = (tmp, w2) ∧ tmp ≠ 0)
    as (q & w1 & tmp & w2 & E1 & Hq & E2 & Ht).
  { do 4 eexists. split; [apply surjective_pairing|]. split; [vm_compute; discriminate|].
    split; [apply surjective_pairing|]. vm_compute. discriminate. }
  assert (Forall (λ e, 0 ∉ e) demo_listing) as Hes.
  { unfold demo_listing, str_home, str_dev, ch_slash. rewrite !Forall_cons. split; [|split; [|done]];
      rewrite !elem_of_app, !elem_of_cons, !elem_of_nil; lia. }
  assert (routes demo_vfs [] 0 []) as Hr.
  { split; [unfold mount_ix, VFS_MAX_MOUNTS; lia|vm_compute; reflexivity|vm_compute; reflexivity|].
    intros j _ _ [k Hk]. symmetry in Hk. apply app_eq_nil in Hk as [-> _]. apply Nat.le_0_l. }
  pose proof (vfs_getdents_correct demo_w demo_vfs (Some [ch_slash]) 64 0 [] q w1 tmp w2 demo_listing [] (str_len (flat demo_listing)) w2
    demo_vfs_ok ltac:(unfold ch_slash; no_byte) ltac:(lia) Hr ltac:(vm_compute; reflexivity) E1 Hq E2 Ht
    ltac:(rewrite app_nil_r; reflexivity) eq_refl ltac:(vm_compute; discriminate)
    Hes) as Hg.
  destruct (vfs_getdents demo_w demo_vfs (Some [ch_slash]) true 64) as [[rc out] w3] eqn:Eg. cbn [fst snd].
  destruct Hg as (_ & _ & _ & _ & _ & Hle & _). split; [|exact Hle].
  change out with (rc, out, w3).1.2. rewrite <-Eg. vm_compute. reflexivity.
Defined.
