(* ===== verification/Bytes.v ===== *)
(** * Bytes of a block, and stores of blocks

    Words in byte buffers; the class of a store of blocks and sectors with its
    laws, and the count of what failed.

    [shadow total S] runs the store [S] until a write fails, then goes on in
    memory as if it had not; with [total] the first failed read is treated alike,
    and [lender total H] does the same for a heap that refuses a block.  The shadow of
    a store with [BlockStoreLaws] has [SureStoreLaws], and with [total] it never
    fails.  A run on the shadow that stays live is a run on the store itself. *)

From S2P Require Import Prelude Interfaces.

Definition blen (b : list Z) : Z := Z.of_nat (length b).

(** [n] bytes from [o], and the buffer with the bytes [x] put there. *)
Definition slice (b : list Z) (o n : Z) : list Z := take (Z.to_nat n) (drop (Z.to_nat o) b).
Definition splice (b : list Z) (o : Z) (x : list Z) : list Z :=
  take (Z.to_nat o) b ++ x ++ drop (Z.to_nat (o + blen x)) b.

Definition le16_bytes (v : Z) : list Z := [u8 v; u8 (Z.shiftr v 8)].
Definition le32_bytes (v : Z) : list Z := [u8 v; u8 (Z.shiftr v 8); u8 (Z.shiftr v 16); u8 (Z.shiftr v 24)].

Definition get16 (b : list Z) (o : Z) : Z := b.[o] + 2 ^ 8 * b.[o + 1].
Definition get32 (b : list Z) (o : Z) : Z := b.[o] + 2 ^ 8 * b.[o + 1] + 2 ^ 16 * b.[o + 2] + 2 ^ 24 * b.[o + 3].
Definition set32 (b : list Z) (o v : Z) : list Z := splice b o (le32_bytes v).

Definition zeros_buf (n : Z) : list Z := replicate (Z.to_nat n) 0.

Notation bytes := (Forall is_u8).

(** ** Slices *)

Lemma blen_nonneg b : 0 <= blen b.
Proof. unfold blen. lia. Qed.

Lemma blen_app b c : blen (b ++ c) = blen b + blen c.
Proof. unfold blen. rewrite length_app. lia. Qed.

Lemma blen_zeros n : 0 <= n → blen (zeros_buf n) = n.
Proof. intros. unfold blen, zeros_buf. rewrite length_replicate. lia. Qed.

Lemma blen_slice b o n : 0 <= o → 0 <= n → o + n <= blen b → blen (slice b o n) = n.
Proof. intros. unfold blen, slice in *. rewrite length_take, length_drop. lia. Qed.

Lemma blen_splice b o x : 0 <= o → o + blen x <= blen b → blen (splice b o x) = blen b.
Proof. intros. unfold blen, splice in *. rewrite !length_app, length_take, length_drop. unfold blen. lia. Qed.

(** Reading one byte. *)
Lemma slice_at b o n i : 0 <= o → 0 <= i < n → (slice b o n).[i] = b.[o + i].
Proof.
  intros Ho Hi. unfold arr_get, slice. rewrite !list_lookup_total_alt.
  rewrite lookup_take_lt, lookup_drop by lia. do 2 f_equal. lia.
Qed.

Lemma splice_at b o x i :
  0 <= o → 0 <= i → o + blen x <= blen b →
  (splice b o x).[i] = if (o <=? i) && (i <? o + blen x) then x.[i - o] else b.[i].
Proof.
  intros Ho Hi Hl. unfold arr_get, splice, blen in *. rewrite !list_lookup_total_alt. f_equal.
  destruct (Z.leb_spec o i), (Z.ltb_spec i (o + Z.of_nat (length x))); cbn [andb]; try lia.
  - rewrite lookup_app_r by (rewrite length_take; lia). rewrite length_take, Nat.min_l by lia.
    rewrite lookup_app_l by lia. by rewrite Z2Nat.inj_sub by lia.
  - rewrite lookup_app_r by (rewrite length_take; lia). rewrite length_take, Nat.min_l by lia.
    rewrite lookup_app_r by lia. rewrite lookup_drop.
    by replace (Z.to_nat (o + Z.of_nat (length x)) + (Z.to_nat i - Z.to_nat o - length x))%nat with (Z.to_nat i) by lia.
  - rewrite lookup_app_l by (rewrite length_take; lia). by rewrite lookup_take_lt by lia.
Qed.

(** Buffers with the same bytes are equal. *)
Lemma buf_ext b c : blen b = blen c → (∀ i, 0 <= i < blen b → b.[i] = c.[i]) → b = c.
Proof. intros Hl Hi. apply arr_ext; [unfold blen in Hl; lia|exact Hi]. Qed.

Lemma slice_splice_same b o x : 0 <= o → o + blen x <= blen b → slice (splice b o x) o (blen x) = x.
Proof.
  intros Ho Hl. pose proof (blen_nonneg x). apply buf_ext; [by rewrite blen_slice by (rewrite ?blen_splice; lia)|].
  rewrite blen_slice by (rewrite ?blen_splice; lia). intros i Hi. rewrite slice_at, splice_at by lia.
  destruct (Z.leb_spec o (o + i)), (Z.ltb_spec (o + i) (o + blen x)); try lia. cbn [andb]. f_equal. lia.
Qed.

Lemma slice_splice_other b o x o' n :
  0 <= o → o + blen x <= blen b → 0 <= o' → 0 <= n → o' + n <= blen b → o' + n <= o ∨ o + blen x <= o' →
  slice (splice b o x) o' n = slice b o' n.
Proof.
  intros Ho Hl Ho' Hn Hl' Hd. pose proof (blen_nonneg x).
  apply buf_ext; [by rewrite !blen_slice by (rewrite ?blen_splice; lia)|].
  rewrite blen_slice by (rewrite ?blen_splice; lia). intros i Hi. rewrite !slice_at, splice_at by lia.
  destruct (Z.leb_spec o (o' + i)), (Z.ltb_spec (o' + i) (o + blen x)); try lia; done.
Qed.

Lemma bytes_splice b o x : bytes b → bytes x → bytes (splice b o x).
Proof. intros. unfold splice. apply Forall_app. split; [by apply Forall_take|]. apply Forall_app. split; [done|by apply Forall_drop]. Qed.

Lemma bytes_slice b o n : bytes b → bytes (slice b o n).
Proof. intros. by apply Forall_take, Forall_drop. Qed.

Lemma bytes_le32 v : bytes (le32_bytes v).
Proof. unfold le32_bytes. repeat constructor; apply u8_range. Qed.

Lemma bytes_le16 v : bytes (le16_bytes v).
Proof. unfold le16_bytes. repeat constructor; apply u8_range. Qed.

Lemma bytes_zeros n : bytes (zeros_buf n).
Proof. unfold zeros_buf. apply Forall_replicate. unfold is_u8. lia. Qed.

Lemma zeros_at n i : 0 <= i < n → (zeros_buf n).[i] = 0.
Proof. intros. apply arr_get_replicate. lia. Qed.

Lemma bytes_at b i : bytes b → is_u8 b.[i].
Proof.
  intros Hb. unfold arr_get. rewrite list_lookup_total_alt. destruct (b !! Z.to_nat i) as [x|] eqn:E.
  - rewrite Forall_lookup in Hb. by apply (Hb _ _ E).
  - unfold is_u8. cbn. lia.
Qed.

(** ** Words *)

Lemma shiftr_u8 v k : u8 (Z.shiftr v k) = Z.shiftr v k mod 256.
Proof. done. Qed.

Lemma le32_value v :
  is_u32 v → u8 v + 2 ^ 8 * u8 (Z.shiftr v 8) + 2 ^ 16 * u8 (Z.shiftr v 16) + 2 ^ 24 * u8 (Z.shiftr v 24) = v.
Proof. intros Hv. rewrite !Z.shiftr_div_pow2 by lia. zsolve. Qed.

Lemma le16_value v : is_u16 v → u8 v + 2 ^ 8 * u8 (Z.shiftr v 8) = v.
Proof. intros Hv. rewrite Z.shiftr_div_pow2 by lia. zsolve. Qed.

Lemma get32_u32 b o : bytes b → is_u32 (get32 b o).
Proof.
  intros Hb. unfold get32. pose proof (bytes_at b o Hb). pose proof (bytes_at b (o + 1) Hb).
  pose proof (bytes_at b (o + 2) Hb). pose proof (bytes_at b (o + 3) Hb). unfold is_u8, is_u32 in *. lia.
Qed.

Lemma get32_slice b o n i : 0 <= o → 0 <= i → i + 4 <= n → get32 (slice b o n) i = get32 b (o + i).
Proof. intros. unfold get32. rewrite !slice_at by lia. by rewrite !Z.add_assoc. Qed.

Lemma get32_zeros n o : 0 <= o → o + 4 <= n → get32 (zeros_buf n) o = 0.
Proof. intros. unfold get32. by rewrite !zeros_at by lia. Qed.

Lemma get32_set32 b o v o' :
  is_u32 v → 0 <= o → o + 4 <= blen b → 0 <= o' → o' = o ∨ o' + 4 <= o ∨ o + 4 <= o' →
  get32 (set32 b o v) o' = if o' =? o then v else get32 b o'.
Proof.
  intros Hv Ho Hl Ho' Hd. unfold get32, set32. change (blen (le32_bytes v)) with 4 in *.
  rewrite !splice_at by (change (blen (le32_bytes v)) with 4; lia). change (blen (le32_bytes v)) with 4.
  destruct (Z.eqb_spec o' o) as [->|].
  - destruct (Z.leb_spec o o), (Z.ltb_spec o (o + 4)), (Z.leb_spec o (o + 1)), (Z.ltb_spec (o + 1) (o + 4)),
      (Z.leb_spec o (o + 2)), (Z.ltb_spec (o + 2) (o + 4)), (Z.leb_spec o (o + 3)), (Z.ltb_spec (o + 3) (o + 4)); try lia. cbn [andb].
    replace (o - o) with 0 by lia. replace (o + 1 - o) with 1 by lia. replace (o + 2 - o) with 2 by lia. replace (o + 3 - o) with 3 by lia.
    by apply le32_value.
  - destruct (Z.leb_spec o o'), (Z.ltb_spec o' (o + 4)), (Z.leb_spec o (o' + 1)), (Z.ltb_spec (o' + 1) (o + 4)),
      (Z.leb_spec o (o' + 2)), (Z.ltb_spec (o' + 2) (o + 4)), (Z.leb_spec o (o' + 3)), (Z.ltb_spec (o' + 3) (o + 4)); try lia; done.
Qed.

Lemma blen_set32 b o v : 0 <= o → o + 4 <= blen b → blen (set32 b o v) = blen b.
Proof. intros. by apply blen_splice. Qed.

Lemma bytes_set32 b o v : bytes b → bytes (set32 b o v).
Proof. intros. apply bytes_splice; [done|apply bytes_le32]. Qed.

Class BlockStore (S : Type) := {
  bs_read : S → Z → Z → option (list Z) * S;
  bs_write : S → Z → Z → list Z → bool * S;
  sec_read : S → Z → Z → option (list Z) * S;
  sec_write : S → Z → Z → list Z → bool * S;
}.

(** A view of a store: the device, the states that are in order, and what its
    blocks and sectors hold. *)
Class StoreView (S : Type) := {
  st_dev : Z;
  st_inv : S → Prop;
  st_block : S → Z → list Z;
  st_sector : S → Z → list Z;
}.

(** [st_block] and [st_sector] are the contents a read that succeeds gives.  Reads
    and writes may fail.  A failed read changes no contents; after a failed
    write nothing is known. *)
Class BlockStoreLaws (S : Type) `{BlockStore S, StoreView S} (is_blk is_sec : Z → Prop) := {
  bl_block_len s lba : st_inv s → is_blk lba → length (st_block s lba) = 4096%nat ∧ Forall is_u8 (st_block s lba);
  bl_sector_len s sec : st_inv s → is_sec sec → length (st_sector s sec) = 512%nat ∧ Forall is_u8 (st_sector s sec);
  bl_bs_read s lba r s' :
    st_inv s → is_blk lba → bs_read s st_dev lba = (r, s') →
    st_inv s' ∧ (∀ b, r = Some b → b = st_block s lba) ∧
    (∀ b, is_blk b → st_block s' b = st_block s b) ∧ (∀ x, is_sec x → st_sector s' x = st_sector s x);
  bl_bs_write s lba buf s' :
    st_inv s → is_blk lba → length buf = 4096%nat → Forall is_u8 buf → bs_write s st_dev lba buf = (true, s') →
    st_inv s' ∧
    (∀ b, is_blk b → st_block s' b = if bool_decide (b = lba) then buf else st_block s b) ∧
    (∀ x, is_sec x → st_sector s' x = st_sector s x);
  bl_sec_read s sec r s' :
    st_inv s → is_sec sec → sec_read s st_dev sec = (r, s') →
    st_inv s' ∧ (∀ b, r = Some b → b = st_sector s sec) ∧
    (∀ b, is_blk b → st_block s' b = st_block s b) ∧ (∀ x, is_sec x → st_sector s' x = st_sector s x);
  bl_sec_write s sec buf s' :
    st_inv s → is_sec sec → length buf = 512%nat → Forall is_u8 buf → sec_write s st_dev sec buf = (true, s') →
    st_inv s' ∧
    (∀ x, is_sec x → st_sector s' x = if bool_decide (x = sec) then buf else st_sector s x) ∧
    (∀ b, is_blk b → st_block s' b = st_block s b);
}.

(** The failed reads and writes so far, counted in the state: what happened
    during a run is the difference of two counts. *)
Class StoreFaults (S : Type) := { wr_faults : S → nat; rd_faults : S → nat }.

Definition read_count {A S : Type} `{StoreFaults S} (s : S) (x : option A * S) : Prop :=
  wr_faults x.2 = wr_faults s ∧ if x.1 then rd_faults x.2 = rd_faults s else rd_faults x.2 = Datatypes.S (rd_faults s).
Definition write_count {S : Type} `{StoreFaults S} (s : S) (x : bool * S) : Prop :=
  rd_faults x.2 = rd_faults s ∧ if x.1 then wr_faults x.2 = wr_faults s else wr_faults x.2 = Datatypes.S (wr_faults s).

Class StoreFaultLaws (S : Type) `{BlockStore S, StoreFaults S} := {
  bs_read_counts s dev lba : read_count s (bs_read s dev lba);
  bs_write_counts s dev lba buf : write_count s (bs_write s dev lba buf);
  sec_read_counts s dev sec : read_count s (sec_read s dev sec);
  sec_write_counts s dev sec buf : write_count s (sec_write s dev sec buf);
}.

(** The same for a heap that refuses blocks. *)
Class AllocFaults (H : Type) := { al_faults : H → nat }.
Class AllocFaultLaws (H : Type) `{KAllocator H, AllocFaults H} := {
  ka_malloc_counts h n :
    al_faults (ka_malloc h n).2 = if (ka_malloc h n).1 =? 0 then Datatypes.S (al_faults h) else al_faults h;
  ka_free_counts h p : al_faults (ka_free h p) = al_faults h;
}.

(** The laws of a store that takes every write: the proofs about a run without
    failed writes are made over these (see [shadow]). *)
Class SureStoreLaws (S : Type) `{BlockStore S, StoreView S} (is_blk is_sec : Z → Prop) := {
  st_block_len s lba : st_inv s → is_blk lba → length (st_block s lba) = 4096%nat ∧ Forall is_u8 (st_block s lba);
  st_sector_len s sec : st_inv s → is_sec sec → length (st_sector s sec) = 512%nat ∧ Forall is_u8 (st_sector s sec);
  bs_read_ok s lba r s' :
    st_inv s → is_blk lba → bs_read s st_dev lba = (r, s') →
    st_inv s' ∧ (∀ b, r = Some b → b = st_block s lba) ∧
    (∀ b, is_blk b → st_block s' b = st_block s b) ∧ (∀ x, is_sec x → st_sector s' x = st_sector s x);
  bs_write_ok s lba buf ok s' :
    st_inv s → is_blk lba → length buf = 4096%nat → Forall is_u8 buf → bs_write s st_dev lba buf = (ok, s') →
    st_inv s' ∧ ok = true ∧
    (∀ b, is_blk b → st_block s' b = if bool_decide (b = lba) then buf else st_block s b) ∧
    (∀ x, is_sec x → st_sector s' x = st_sector s x);
  sec_read_ok s sec r s' :
    st_inv s → is_sec sec → sec_read s st_dev sec = (r, s') →
    st_inv s' ∧ (∀ b, r = Some b → b = st_sector s sec) ∧
    (∀ b, is_blk b → st_block s' b = st_block s b) ∧ (∀ x, is_sec x → st_sector s' x = st_sector s x);
  sec_write_ok s sec buf ok s' :
    st_inv s → is_sec sec → length buf = 512%nat → Forall is_u8 buf → sec_write s st_dev sec buf = (ok, s') →
    st_inv s' ∧ ok = true ∧
    (∀ x, is_sec x → st_sector s' x = if bool_decide (x = sec) then buf else st_sector s x) ∧
    (∀ b, is_blk b → st_block s' b = st_block s b);
}.

(** A clock read: [arch_time_unix_seconds]. *)
Class Clock (C : Type) := { clock_seconds : C → Z * C }.

(** ** The store *)

Definition contents : Type := (Z → list Z) * (Z → list Z).

(** Dead, with the contents, once an operation failed. *)
Record shadow (total : bool) (S : Type) := mk_shadow { sh_st : S; sh_mem : option contents }.
Arguments mk_shadow {total S}.
Arguments sh_st {total S}.
Arguments sh_mem {total S}.

Definition put (f : Z → list Z) (a : Z) (b : list Z) : Z → list Z := λ x, if bool_decide (x = a) then b else f x.

Section shadow.
Context {S : Type} {BS : BlockStore S} {SV : StoreView S} {total : bool}.
Implicit Types (s : shadow total S).

Definition snapshot (st : S) : contents := (st_block st, st_sector st).

Definition shadow_read (real : S → option (list Z) * S) (look : contents → list Z) s : option (list Z) * shadow total S :=
  match sh_mem s with
  | Some m => (Some (look m), s)
  | None =>
      match real (sh_st s) with
      | (Some b, st) => (Some b, mk_shadow st None)
      | (None, st) => if total then (Some (look (snapshot (sh_st s))), mk_shadow st (Some (snapshot (sh_st s))))
                      else (None, mk_shadow st None)
      end
  end.

Definition shadow_write (real : S → bool * S) (upd : contents → contents) s : bool * shadow total S :=
  match sh_mem s with
  | Some m => (true, mk_shadow (sh_st s) (Some (upd m)))
  | None =>
      match real (sh_st s) with
      | (true, st) => (true, mk_shadow st None)
      | (false, st) => (true, mk_shadow st (Some (upd (snapshot (sh_st s)))))
      end
  end.

#[export] Instance shadow_store : BlockStore (shadow total S) := {
  bs_read s dev lba := shadow_read (λ st, bs_read st dev lba) (λ m, m.1 lba) s;
  bs_write s dev lba buf := shadow_write (λ st, bs_write st dev lba buf) (λ m, (put m.1 lba buf, m.2)) s;
  sec_read s dev sec := shadow_read (λ st, sec_read st dev sec) (λ m, m.2 sec) s;
  sec_write s dev sec buf := shadow_write (λ st, sec_write st dev sec buf) (λ m, (m.1, put m.2 sec buf)) s;
}.

Context (is_blk is_sec : Z → Prop).

Definition contents_ok (m : contents) : Prop :=
  (∀ lba, is_blk lba → length (m.1 lba) = 4096%nat ∧ Forall is_u8 (m.1 lba)) ∧
  (∀ sec, is_sec sec → length (m.2 sec) = 512%nat ∧ Forall is_u8 (m.2 sec)).

Definition shadow_view : StoreView (shadow total S) := {|
  st_dev := st_dev;
  st_inv s := match sh_mem s with Some m => contents_ok m | None => st_inv (sh_st s) end;
  st_block s := match sh_mem s with Some m => m.1 | None => st_block (sh_st s) end;
  st_sector s := match sh_mem s with Some m => m.2 | None => st_sector (sh_st s) end;
|}.

Lemma put_ok (f : Z → list Z) (P : Z → Prop) n a b :
  (∀ x, P x → length (f x) = n ∧ Forall is_u8 (f x)) → length b = n → Forall is_u8 b →
  ∀ x, P x → length (put f a b x) = n ∧ Forall is_u8 (put f a b x).
Proof. intros Hf Hl Hb x Hx. unfold put. case_bool_decide; auto. Qed.

Context {BL : BlockStoreLaws S is_blk is_sec}.

Lemma snapshot_ok st : st_inv st → contents_ok (snapshot st).
Proof. intros Hi. split; cbn; intros; [by apply (bl_block_len st)|by apply (bl_sector_len st)]. Qed.

Lemma shadow_laws : @SureStoreLaws (shadow total S) shadow_store shadow_view is_blk is_sec.
Proof.
  split; cbn [bs_read bs_write sec_read sec_write shadow_store st_inv st_block st_sector st_dev shadow_view];
    unfold shadow_read, shadow_write.
  - intros [st [m|]] lba; cbn; [by intros [H _] ?; apply H|apply bl_block_len].
  - intros [st [m|]] sec; cbn; [by intros [_ H] ?; apply H|apply bl_sector_len].
  - intros [st [m|]] lba r s' Hi Hb; cbn [sh_mem sh_st] in *; [intros [= <- <-]; naive_solver|].
    destruct (bs_read st st_dev lba) as [[b|] st'] eqn:E; pose proof (bl_bs_read _ _ _ _ Hi Hb E) as Hl; [intros [= <- <-]; done|].
    pose proof (snapshot_ok st Hi). destruct total; intros [= <- <-]; cbn [sh_mem sh_st]; naive_solver.
  - intros [st [m|]] lba buf ok s' Hi Hb Hl Hby; cbn [sh_mem sh_st] in *.
    { intros [= <- <-]. cbn [sh_mem]. destruct Hi as [H1 H2]. split; [split; [by apply put_ok|done]|done]. }
    destruct (bs_write st st_dev lba buf) as [[] st'] eqn:E; intros [= <- <-]; cbn [sh_mem sh_st].
    + destruct (bl_bs_write _ _ _ _ Hi Hb Hl Hby E) as (? & ? & ?). done.
    + destruct (snapshot_ok st Hi) as [H1 H2]. split; [split; [by apply put_ok|done]|done].
  - intros [st [m|]] sec r s' Hi Hb; cbn [sh_mem sh_st] in *; [intros [= <- <-]; naive_solver|].
    destruct (sec_read st st_dev sec) as [[b|] st'] eqn:E; pose proof (bl_sec_read _ _ _ _ Hi Hb E) as Hl; [intros [= <- <-]; done|].
    pose proof (snapshot_ok st Hi). destruct total; intros [= <- <-]; cbn [sh_mem sh_st]; naive_solver.
  - intros [st [m|]] sec buf ok s' Hi Hb Hl Hby; cbn [sh_mem sh_st] in *.
    { intros [= <- <-]. cbn [sh_mem]. destruct Hi as [H1 H2]. split; [split; [done|by apply put_ok]|done]. }
    destruct (sec_write st st_dev sec buf) as [[] st'] eqn:E; intros [= <- <-]; cbn [sh_mem sh_st].
    + destruct (bl_sec_write _ _ _ _ Hi Hb Hl Hby E) as (? & ? & ?). done.
    + destruct (snapshot_ok st Hi) as [H1 H2]. split; [split; [done|by apply put_ok]|done].
Qed.
End shadow.

(** ** The heap *)

Record lender (total : bool) (H : Type) := mk_lender { ln_heap : H; ln_out : bool }.
Arguments mk_lender {total H}.
Arguments ln_heap {total H}.
Arguments ln_out {total H}.

#[export] Instance lender_heap {H} {KA : KAllocator H} {total : bool} : KAllocator (lender total H) := {
  ka_malloc h n :=
    let '(p, r) := ka_malloc (ln_heap h) n in
    if total && (p =? 0) then (1, mk_lender r true) else (p, mk_lender r (ln_out h));
  ka_free h p := mk_lender (ka_free (ln_heap h) p) (ln_out h);
}.
