(* ===== verification/Dufs.v ===== *)
(** * The DUFS file system (kernel/fs/fs.c): data and block pointers

    On-disk records, the bitmaps, the block pointers of an inode and file data.
    The state is one mounted file system, the storage below it, the heap and the
    clock; every operation takes and returns it.  A function that returns an
    inode or a block by pointer returns it beside its result.  The kernel log is
    left out.  [while] loops over a byte count run on fuel that counts blocks. *)

From S2P Require Import Prelude Interfaces Bytes.

Definition DUFS_MAGIC : Z := 0x44554603.
Definition DUFS_BLOCK_SIZE : Z := 4096.
Definition DUFS_SECS_PER_BLOCK : Z := 8.
Definition DUFS_MAX_NAME : Z := 256.
Definition DUFS_INODE_COUNT : Z := 1024.
Definition DUFS_INODE_SIZE : Z := 128.
Definition DUFS_INODES_PER_SECTOR : Z := 4.
Definition DUFS_DIRENT_SIZE : Z := 260.
Definition DUFS_DIRENTS_PER_BLOCK : Z := 15.
Definition DUFS_DIRECT_BLOCKS : Z := 12.
Definition DUFS_INDIR_ENTRIES : Z := 1024.
Definition DUFS_TYPE_FREE : Z := 0.
Definition DUFS_TYPE_FILE : Z := 1.
Definition DUFS_TYPE_DIR : Z := 2.
Definition DUFS_TYPE_SYMLINK : Z := 3.

(** ** On-disk records *)

Record dufs_super := {
  sb_magic : Z; sb_total_sectors : Z; sb_inode_count : Z; sb_inode_bitmap_lba : Z;
  sb_block_bitmap_lba : Z; sb_inode_table_lba : Z; sb_data_lba : Z;
}.

Definition super_of (b : list Z) : dufs_super :=
  {| sb_magic := get32 b 0; sb_total_sectors := get32 b 4; sb_inode_count := get32 b 8;
     sb_inode_bitmap_lba := get32 b 12; sb_block_bitmap_lba := get32 b 16;
     sb_inode_table_lba := get32 b 20; sb_data_lba := get32 b 24 |}.

Record dufs_inode := mk_inode {
  i_type : Z; i_link_count : Z; i_size : Z; i_block_count : Z; i_mtime : Z; i_atime : Z;
  i_direct : list Z; i_indirect : Z; i_double : Z; i_pad : list Z;
}.

(** The 128 bytes of an inode. *)
Definition inode_of (b : list Z) : dufs_inode :=
  {| i_type := get16 b 0; i_link_count := get16 b 2; i_size := get32 b 4; i_block_count := get32 b 8;
     i_mtime := get32 b 12; i_atime := get32 b 16;
     i_direct := (λ i, get32 b (20 + 4 * i)) <$> seqZ 0 DUFS_DIRECT_BLOCKS;
     i_indirect := get32 b 68; i_double := get32 b 72; i_pad := slice b 76 52 |}.

Definition bytes_of (n : dufs_inode) : list Z :=
  le16_bytes (i_type n) ++ le16_bytes (i_link_count n) ++ le32_bytes (i_size n) ++ le32_bytes (i_block_count n) ++
  le32_bytes (i_mtime n) ++ le32_bytes (i_atime n) ++ concat (le32_bytes <$> i_direct n) ++
  le32_bytes (i_indirect n) ++ le32_bytes (i_double n) ++ i_pad n.

Definition zero_inode : dufs_inode :=
  mk_inode 0 0 0 0 0 0 (replicate (Z.to_nat DUFS_DIRECT_BLOCKS) 0) 0 0 (zeros_buf 52).

(** Field assignments. *)
Definition set_type (v : Z) (n : dufs_inode) : dufs_inode :=
  mk_inode v (i_link_count n) (i_size n) (i_block_count n) (i_mtime n) (i_atime n) (i_direct n) (i_indirect n) (i_double n) (i_pad n).
Definition set_link_count (v : Z) (n : dufs_inode) : dufs_inode :=
  mk_inode (i_type n) v (i_size n) (i_block_count n) (i_mtime n) (i_atime n) (i_direct n) (i_indirect n) (i_double n) (i_pad n).
Definition set_size (v : Z) (n : dufs_inode) : dufs_inode :=
  mk_inode (i_type n) (i_link_count n) v (i_block_count n) (i_mtime n) (i_atime n) (i_direct n) (i_indirect n) (i_double n) (i_pad n).
Definition set_block_count (v : Z) (n : dufs_inode) : dufs_inode :=
  mk_inode (i_type n) (i_link_count n) (i_size n) v (i_mtime n) (i_atime n) (i_direct n) (i_indirect n) (i_double n) (i_pad n).
Definition set_mtime (v : Z) (n : dufs_inode) : dufs_inode :=
  mk_inode (i_type n) (i_link_count n) (i_size n) (i_block_count n) v (i_atime n) (i_direct n) (i_indirect n) (i_double n) (i_pad n).
Definition set_atime (v : Z) (n : dufs_inode) : dufs_inode :=
  mk_inode (i_type n) (i_link_count n) (i_size n) (i_block_count n) (i_mtime n) v (i_direct n) (i_indirect n) (i_double n) (i_pad n).
Definition set_direct (v : list Z) (n : dufs_inode) : dufs_inode :=
  mk_inode (i_type n) (i_link_count n) (i_size n) (i_block_count n) (i_mtime n) (i_atime n) v (i_indirect n) (i_double n) (i_pad n).
Definition set_indirect (v : Z) (n : dufs_inode) : dufs_inode :=
  mk_inode (i_type n) (i_link_count n) (i_size n) (i_block_count n) (i_mtime n) (i_atime n) (i_direct n) v (i_double n) (i_pad n).
Definition set_double (v : Z) (n : dufs_inode) : dufs_inode :=
  mk_inode (i_type n) (i_link_count n) (i_size n) (i_block_count n) (i_mtime n) (i_atime n) (i_direct n) (i_indirect n) v (i_pad n).
Definition inc_block_count (n : dufs_inode) : dufs_inode := set_block_count (i_block_count n +u 1) n.

(** ** Bitmaps *)

Definition bmap_test (bm : list Z) (bit : Z) : bool := Z.testbit bm.[Z.shiftr bit 3] (bit &u 7).
Definition bmap_set (bm : list Z) (bit : Z) : list Z :=
  bm.[Z.shiftr bit 3 <- bm.[Z.shiftr bit 3] |u u8 (Z.shiftl 1 (bit &u 7))].
Definition bmap_clr (bm : list Z) (bit : Z) : list Z :=
  bm.[Z.shiftr bit 3 <- bm.[Z.shiftr bit 3] &u u8 (Z.lnot (Z.shiftl 1 (bit &u 7)))].

(** ** State *)

Record dufs_mount := {
  g_blkdev : Z;
  g_super : dufs_super;
  g_inode_bitmap : list Z;
  g_block_bitmap : list Z;
}.

Definition set_inode_bitmap (bm : list Z) (m : dufs_mount) : dufs_mount :=
  {| g_blkdev := g_blkdev m; g_super := g_super m; g_inode_bitmap := bm; g_block_bitmap := g_block_bitmap m |}.
Definition set_block_bitmap (bm : list Z) (m : dufs_mount) : dufs_mount :=
  {| g_blkdev := g_blkdev m; g_super := g_super m; g_inode_bitmap := g_inode_bitmap m; g_block_bitmap := bm |}.

Record fsys (St Heap C : Type) := mk_fsys { fs_mnt : dufs_mount; fs_st : St; fs_hp : Heap; fs_clk : C }.
Arguments mk_fsys {St Heap C}.
Arguments fs_mnt {St Heap C}.
Arguments fs_st {St Heap C}.
Arguments fs_hp {St Heap C}.
Arguments fs_clk {St Heap C}.

Section dufs.
Context {St : Type} `{BlockStore St} {Heap : Type} `{KAllocator Heap} {C : Type} `{Clock C}.
Implicit Types (s : fsys St Heap C) (n : dufs_inode).

Definition with_mnt (m : dufs_mount) s := mk_fsys m (fs_st s) (fs_hp s) (fs_clk s).
Definition with_st (st : St) s := mk_fsys (fs_mnt s) st (fs_hp s) (fs_clk s).
Definition with_hp (h : Heap) s := mk_fsys (fs_mnt s) (fs_st s) h (fs_clk s).

Definition fs_malloc s (size : Z) : Z * fsys St Heap C := let '(p, h) := ka_malloc (fs_hp s) size in (p, with_hp h s).
Definition fs_kfree s (p : Z) : fsys St Heap C := with_hp (ka_free (fs_hp s) p) s.

Definition arch_time_unix_seconds s : Z * fsys St Heap C :=
  let '(t, c) := clock_seconds (fs_clk s) in (u32 t, mk_fsys (fs_mnt s) (fs_st s) (fs_hp s) c).

(** ** Block and inode I/O *)

Definition read_block s (lba : Z) : option (list Z) * fsys St Heap C :=
  let '(r, st) := bs_read (fs_st s) (g_blkdev (fs_mnt s)) lba in (r, with_st st s).

Definition write_block s (lba : Z) (buf : list Z) : bool * fsys St Heap C :=
  let '(ok, st) := bs_write (fs_st s) (g_blkdev (fs_mnt s)) lba buf in (ok, with_st st s).

Definition write_zeroed_block s (lba : Z) : bool * fsys St Heap C :=
  let '(z, s) := fs_malloc s DUFS_BLOCK_SIZE in
  if z =? 0 then (false, s)
  else let '(rc, s) := write_block s lba (zeros_buf DUFS_BLOCK_SIZE) in (rc, fs_kfree s z).

Definition flush_inode_bitmap s : bool * fsys St Heap C :=
  write_block s (sb_inode_bitmap_lba (g_super (fs_mnt s))) (g_inode_bitmap (fs_mnt s)).
Definition flush_block_bitmap s : bool * fsys St Heap C :=
  write_block s (sb_block_bitmap_lba (g_super (fs_mnt s))) (g_block_bitmap (fs_mnt s)).

Definition inode_read s (num : Z) : option dufs_inode * fsys St Heap C :=
  let sector := sb_inode_table_lba (g_super (fs_mnt s)) +u num / DUFS_INODES_PER_SECTOR in
  let slot := num mod DUFS_INODES_PER_SECTOR in
  let '(r, st) := sec_read (fs_st s) (g_blkdev (fs_mnt s)) sector in
  (match r with
   | None => None
   | Some buf => Some (inode_of (slice buf (slot * DUFS_INODE_SIZE) DUFS_INODE_SIZE))
   end, with_st st s).

Definition inode_write s (num : Z) n : bool * fsys St Heap C :=
  let sector := sb_inode_table_lba (g_super (fs_mnt s)) +u num / DUFS_INODES_PER_SECTOR in
  let slot := num mod DUFS_INODES_PER_SECTOR in
  let '(r, st) := sec_read (fs_st s) (g_blkdev (fs_mnt s)) sector in
  match r with
  | None => (false, with_st st s)
  | Some buf =>
      let '(ok, st) := sec_write st (g_blkdev (fs_mnt s)) sector (splice buf (slot * DUFS_INODE_SIZE) (bytes_of n)) in
      (ok, with_st st s)
  end.

(** ** Allocation *)

Definition inode_alloc s : Z * fsys St Heap C :=
  match for_exit 2 (Z.to_nat (DUFS_INODE_COUNT - 2))
          (λ i s, if negb (bmap_test (g_inode_bitmap (fs_mnt s)) i) then
                    inl (i, with_mnt (set_inode_bitmap (bmap_set (g_inode_bitmap (fs_mnt s)) i) (fs_mnt s)) s)
                  else inr s) s with
  | inl r => r
  | inr s => (0, s)
  end.

Definition inode_free s (num : Z) : fsys St Heap C :=
  if (2 <=? num) && (num <? DUFS_INODE_COUNT) then
    with_mnt (set_inode_bitmap (bmap_clr (g_inode_bitmap (fs_mnt s)) num) (fs_mnt s)) s
  else s.

Definition max_bits (m : dufs_mount) : Z :=
  let bits := (sb_total_sectors (g_super m) -u sb_data_lba (g_super m)) / DUFS_SECS_PER_BLOCK in
  if 4096 * 8 <? bits then 4096 * 8 else bits.

Definition block_alloc s : Z * fsys St Heap C :=
  match for_exit 0 (Z.to_nat (max_bits (fs_mnt s)))
          (λ i s, if negb (bmap_test (g_block_bitmap (fs_mnt s)) i) then
                    inl (sb_data_lba (g_super (fs_mnt s)) +u i *u DUFS_SECS_PER_BLOCK,
                         with_mnt (set_block_bitmap (bmap_set (g_block_bitmap (fs_mnt s)) i) (fs_mnt s)) s)
                  else inr s) s with
  | inl r => r
  | inr s => (0, s)
  end.

Definition block_free s (lba : Z) : fsys St Heap C :=
  if lba <? sb_data_lba (g_super (fs_mnt s)) then s
  else
    let bit := (lba - sb_data_lba (g_super (fs_mnt s))) / DUFS_SECS_PER_BLOCK in
    if bit <? 4096 * 8 then with_mnt (set_block_bitmap (bmap_clr (g_block_bitmap (fs_mnt s)) bit) (fs_mnt s)) s
    else s.

(** ** Block pointers *)

(** [((uint32_t * )buf)[i]] *)
Definition entry (buf : list Z) (i : Z) : Z := get32 buf (4 * i).
Definition set_entry (buf : list Z) (i v : Z) : list Z := set32 buf (4 * i) v.

Definition block_map s n (block_idx : Z) : Z * fsys St Heap C :=
  if block_idx <? DUFS_DIRECT_BLOCKS then ((i_direct n).[block_idx], s)
  else
    let block_idx := block_idx - DUFS_DIRECT_BLOCKS in
    let '(buf, s) := fs_malloc s DUFS_BLOCK_SIZE in
    if buf =? 0 then (0, s)
    else
      let '(result, s) :=
        if block_idx <? DUFS_INDIR_ENTRIES then
          if i_indirect n =? 0 then (0, s)
          else match read_block s (i_indirect n) with
               | (None, s) => (0, s)
               | (Some b, s) => (entry b block_idx, s)
               end
        else
          let block_idx := block_idx - DUFS_INDIR_ENTRIES in
          if block_idx <? DUFS_INDIR_ENTRIES * DUFS_INDIR_ENTRIES then
            if i_double n =? 0 then (0, s)
            else match read_block s (i_double n) with
                 | (None, s) => (0, s)
                 | (Some b, s) =>
                     let l1_lba := entry b (block_idx / DUFS_INDIR_ENTRIES) in
                     if l1_lba =? 0 then (0, s)
                     else match read_block s l1_lba with
                          | (None, s) => (0, s)
                          | (Some b, s) => (entry b (block_idx mod DUFS_INDIR_ENTRIES), s)
                          end
                 end
          else (0, s) in
      (result, fs_kfree s buf).

(** A new block, zeroed; 0 when there is none or it cannot be written. *)
Definition alloc_zeroed s : Z * fsys St Heap C :=
  let '(lba, s) := block_alloc s in
  if lba =? 0 then (0, s)
  else let '(ok, s) := write_zeroed_block s lba in
       if negb ok then (0, block_free s lba) else (lba, s).

(** The entry [idx] of the pointer table at [table], allocated if it is empty:
    the pointer, and whether a block was added to the inode. *)
Definition ensure_in s n (table idx : Z) : Z * dufs_inode * fsys St Heap C :=
  match read_block s table with
  | (None, s) => (0, n, s)
  | (Some b, s) =>
      if entry b idx =? 0 then
        let '(lba, s) := alloc_zeroed s in
        if lba =? 0 then (0, n, s)
        else
          let '(ok, s) := write_block s table (set_entry b idx lba) in
          if negb ok then (0, inc_block_count n, s) else (lba, inc_block_count n, s)
      else (entry b idx, n, s)
  end.

Definition block_ensure s n (block_idx : Z) : Z * dufs_inode * fsys St Heap C :=
  if block_idx <? DUFS_DIRECT_BLOCKS then
    if (i_direct n).[block_idx] =? 0 then
      let '(lba, s) := alloc_zeroed s in
      if lba =? 0 then (0, n, s)
      else (lba, inc_block_count (set_direct (i_direct n).[block_idx <- lba] n), s)
    else ((i_direct n).[block_idx], n, s)
  else
    let block_idx := block_idx - DUFS_DIRECT_BLOCKS in
    if block_idx <? DUFS_INDIR_ENTRIES then
      let '(ok, n, s) :=
        if i_indirect n =? 0 then
          let '(lba, s) := alloc_zeroed s in
          if lba =? 0 then (false, n, s) else (true, inc_block_count (set_indirect lba n), s)
        else (true, n, s) in
      if negb ok then (0, n, s)
      else
        let '(buf, s) := fs_malloc s DUFS_BLOCK_SIZE in
        if buf =? 0 then (0, n, s)
        else let '(result, n, s) := ensure_in s n (i_indirect n) block_idx in (result, n, fs_kfree s buf)
    else
      let block_idx := block_idx - DUFS_INDIR_ENTRIES in
      if block_idx <? DUFS_INDIR_ENTRIES * DUFS_INDIR_ENTRIES then
        let '(ok, n, s) :=
          if i_double n =? 0 then
            let '(lba, s) := alloc_zeroed s in
            if lba =? 0 then (false, n, s) else (true, inc_block_count (set_double lba n), s)
          else (true, n, s) in
        if negb ok then (0, n, s)
        else
          let '(buf, s) := fs_malloc s DUFS_BLOCK_SIZE in
          if buf =? 0 then (0, n, s)
          else
            let '(l1_lba, n, s) := ensure_in s n (i_double n) (block_idx / DUFS_INDIR_ENTRIES) in
            if l1_lba =? 0 then (0, n, fs_kfree s buf)
            else
              let '(result, n, s) := ensure_in s n l1_lba (block_idx mod DUFS_INDIR_ENTRIES) in
              (result, n, fs_kfree s buf)
      else (0, n, s).

(** Free every block below the pointer table read into [b]. *)
Definition free_entries s (b : list Z) : fsys St Heap C :=
  for_loop 0 (Z.to_nat DUFS_INDIR_ENTRIES)
    (λ i s, if negb (entry b i =? 0) then block_free s (entry b i) else s) s.

Definition free_inode_blocks s n : dufs_inode * fsys St Heap C :=
  let '(direct, s) :=
    for_loop 0 (Z.to_nat DUFS_DIRECT_BLOCKS)
      (λ i '(direct, s), if negb (direct.[i] =? 0) then (direct.[i <- 0], block_free s direct.[i]) else (direct, s))
      (i_direct n, s) in
  let n := set_direct direct n in
  let '(n, s) :=
    if negb (i_indirect n =? 0) then
      let '(buf, s) := fs_malloc s DUFS_BLOCK_SIZE in
      let s :=
        if buf =? 0 then s
        else match read_block s (i_indirect n) with
             | (Some b, s) => free_entries s b
             | (None, s) => s
             end in
      let s := fs_kfree s buf in
      (set_indirect 0 n, block_free s (i_indirect n))
    else (n, s) in
  let '(n, s) :=
    if negb (i_double n =? 0) then
      let '(l0buf, s) := fs_malloc s DUFS_BLOCK_SIZE in
      let '(l1buf, s) := fs_malloc s DUFS_BLOCK_SIZE in
      let s :=
        if (l0buf =? 0) || (l1buf =? 0) then s
        else match read_block s (i_double n) with
             | (None, s) => s
             | (Some l0, s) =>
                 for_loop 0 (Z.to_nat DUFS_INDIR_ENTRIES)
                   (λ i s,
                      if entry l0 i =? 0 then s
                      else
                        let s := match read_block s (entry l0 i) with
                                 | (Some l1, s) => free_entries s l1
                                 | (None, s) => s
                                 end in
                        block_free s (entry l0 i)) s
             end in
      let s := fs_kfree s l0buf in
      let s := fs_kfree s l1buf in
      (set_double 0 n, block_free s (i_double n))
    else (n, s) in
  (set_size 0 (set_block_count 0 n), s).

(** ** File data *)

(** One round per block touched, one of them partial at each end, and the last test. *)
Definition io_fuel (count : Z) : nat := Z.to_nat (count / DUFS_BLOCK_SIZE + 3).

(** [inr] is the bytes read so far, in order; running out of fuel is [inl tt]. *)
Fixpoint read_loop (fuel : nat) s n (offset count : Z) (got : list Z) : (unit + list Z) * fsys St Heap C :=
  match fuel with
  | O => (inl tt, s)
  | S fuel =>
      if blen got <? count then
        let cur_off := offset +u blen got in
        let '(lba, s) := block_map s n (cur_off / DUFS_BLOCK_SIZE) in
        if lba =? 0 then (inr got, s)
        else match read_block s lba with
             | (None, s) => (inr got, s)
             | (Some blk, s) =>
                 let block_off := cur_off mod DUFS_BLOCK_SIZE in
                 let avail := DUFS_BLOCK_SIZE - block_off in
                 let chunk := if avail <? count - blen got then avail else count - blen got in
                 read_loop fuel s n offset count (got ++ slice blk block_off chunk)
             end
      else (inr got, s)
  end.

(** The result and what is put in the caller's buffer. *)
Definition fs_read s (inode_num offset count : Z) : Z * list Z * fsys St Heap C :=
  if count =? 0 then (0, [], s)
  else
    let '(r, s) := inode_read s inode_num in
    match r with
    | None => (-1, [], s)
    | Some n =>
        if i_size n <=? offset then (0, [], s)
        else
          let count := if i_size n <? offset +u count then i_size n - offset else count in
          let '(blk, s) := fs_malloc s DUFS_BLOCK_SIZE in
          if blk =? 0 then (-1, [], s)
          else
            let '(r, s) := read_loop (io_fuel count) s n offset count [] in
            match r with
            | inr got => (s32 (blen got), got, fs_kfree s blk)
            | inl _ => (-1, [], s)
            end
    end.

(** The bytes written, whether the bitmap changed, and the inode. *)
Fixpoint write_loop (fuel : nat) s n (offset : Z) (buf : list Z) (written : Z) (dirty : bool) :
    option (Z * bool * dufs_inode) * fsys St Heap C :=
  match fuel with
  | O => (None, s)
  | S fuel =>
      if written <? blen buf then
        let cur_off := offset +u written in
        let block_off := cur_off mod DUFS_BLOCK_SIZE in
        let '(lba, n, s) := block_ensure s n (cur_off / DUFS_BLOCK_SIZE) in
        if lba =? 0 then (Some (written, dirty, n), s)
        else match read_block s lba with
             | (None, s) => (Some (written, true, n), s)
             | (Some blk, s) =>
                 let space := DUFS_BLOCK_SIZE - block_off in
                 let chunk := if space <? blen buf - written then space else blen buf - written in
                 let '(ok, s) := write_block s lba (splice blk block_off (slice buf written chunk)) in
                 if negb ok then (Some (written, true, n), s)
                 else
                   let e := cur_off +u chunk in
                   let n := if i_size n <? e then set_size e n else n in
                   write_loop fuel s n offset buf (written +u chunk) true
             end
      else (Some (written, dirty, n), s)
  end.

(** [buf] is the [count] bytes of the caller. *)
Definition fs_write s (inode_num offset : Z) (buf : list Z) : Z * fsys St Heap C :=
  if blen buf =? 0 then (0, s)
  else
    let '(r, s) := inode_read s inode_num in
    match r with
    | None => (-1, s)
    | Some n =>
        let '(blk, s) := fs_malloc s DUFS_BLOCK_SIZE in
        if blk =? 0 then (-1, s)
        else
          let '(r, s) := write_loop (io_fuel (blen buf)) s n offset buf 0 false in
          match r with
          | None => (-1, s)
          | Some (written, dirty, n) =>
              let s := fs_kfree s blk in
              let '(n, s) := if 0 <? written then let '(t, s) := arch_time_unix_seconds s in (set_mtime t n, s)
                             else (n, s) in
              let '(ok, s) := inode_write s inode_num n in
              if negb ok then (-1, s)
              else let s := if dirty then (flush_block_bitmap s).2 else s in (s32 written, s)
          end
    end.

(** The chunks of 128 zero bytes that fill [[start, end)]; [None] is fuel that
    ran out, [Some false] the return of -1. *)
Fixpoint zero_loop (fuel : nat) s (inode_num off e : Z) : option bool * fsys St Heap C :=
  match fuel with
  | O => (None, s)
  | S fuel =>
      if off <? e then
        let chunk := if 128 <? e - off then 128 else e - off in
        let '(rc, s) := fs_write s inode_num off (zeros_buf chunk) in
        if negb (rc =? chunk) then (Some false, s) else zero_loop fuel s inode_num (off +u chunk) e
      else (Some true, s)
  end.

Definition fs_zero_range s (inode_num start e : Z) : bool * fsys St Heap C :=
  if e <=? start then (true, s)
  else let '(r, s) := zero_loop (Z.to_nat ((e - start) / 128 + 2)) s inode_num start e in (default false r, s).

Definition fs_truncate s (inode_num size : Z) : Z * fsys St Heap C :=
  let '(r, s) := inode_read s inode_num in
  match r with
  | None => (-1, s)
  | Some n =>
      if negb (i_type n =? DUFS_TYPE_FILE) then (-1, s)
      else if i_size n =? size then (0, s)
      else if i_size n <? size then
        let '(ok, s) := fs_zero_range s inode_num (i_size n) size in ((if ok then 0 else -1), s)
      else
        let '(ok, s) := fs_zero_range s inode_num size (i_size n) in
        if negb ok then (-1, s)
        else
          let '(r, s) := inode_read s inode_num in
          match r with
          | None => (-1, s)
          | Some n =>
              let '(t, s) := arch_time_unix_seconds s in
              let '(ok, s) := inode_write s inode_num (set_mtime t (set_size size n)) in
              ((if ok then 0 else -1), s)
          end
  end.
End dufs.
