(* ===== verification/DufsSpec.v ===== *)
(** * DUFS: pointers of an inode, and steps that change nothing

    The block pointers of an inode as positions, the ownership of blocks, and
    the operations that read, or write one block or inode. *)

From S2P Require Import Prelude Interfaces Bytes Dufs.

(** ** Positions *)

Inductive pos := PDir (i : Z) | PInd | PIndE (i : Z) | PDbl | PL1 (i : Z) | PL2 (i j : Z).

#[global] Instance pos_eq_dec : EqDecision pos.
Proof. solve_decision. Defined.

Definition ent_ix (i : Z) : Prop := 0 <= i < DUFS_INDIR_ENTRIES.

Definition pos_ok (p : pos) : Prop :=
  match p with
  | PDir i => 0 <= i < DUFS_DIRECT_BLOCKS
  | PInd | PDbl => True
  | PIndE i | PL1 i => ent_ix i
  | PL2 i j => ent_ix i ∧ ent_ix j
  end.

(** Positions whose block is a table of pointers, and those that hold data. *)
Definition is_table (p : pos) : bool := match p with PInd | PDbl | PL1 _ => true | _ => false end.

Definition ptr1 (B : Z → list Z) (table i : Z) : Z := if table =? 0 then 0 else entry (B table) i.

Definition ptr (B : Z → list Z) (n : dufs_inode) (p : pos) : Z :=
  match p with
  | PDir i => (i_direct n).[i]
  | PInd => i_indirect n
  | PIndE i => ptr1 B (i_indirect n) i
  | PDbl => i_double n
  | PL1 i => ptr1 B (i_double n) i
  | PL2 i j => ptr1 B (ptr1 B (i_double n) i) j
  end.

(** The entry [i] of the table at a position. *)
Definition child (p : pos) (i : Z) : pos :=
  match p with PInd => PIndE i | PDbl => PL1 i | PL1 k => PL2 k i | _ => p end.

Lemma ptr_child B n p i : is_table p = true → ptr B n (child p i) = ptr1 B (ptr B n p) i.
Proof. by destruct p. Qed.

Lemma child_ok p i : is_table p = true → pos_ok p → ent_ix i → pos_ok (child p i).
Proof. by destruct p; cbn; auto. Qed.

(** Where block [idx] of a file is. *)
Definition data_pos (idx : Z) : pos :=
  if idx <? 12 then PDir idx
  else if idx <? 1036 then PIndE (idx - 12)
  else PL2 ((idx - 1036) / 1024) ((idx - 1036) mod 1024).

Definition max_blocks : Z := 1036 + 2 ^ 20.

Lemma data_pos_ok idx : 0 <= idx < max_blocks → pos_ok (data_pos idx) ∧ is_table (data_pos idx) = false.
Proof.
  intros Hi. unfold data_pos, max_blocks in *. destruct (Z.ltb_spec idx 12); [split; [cbn; unfold DUFS_DIRECT_BLOCKS; lia|done]|].
  destruct (Z.ltb_spec idx 1036); [split; [cbn; unfold ent_ix, DUFS_INDIR_ENTRIES; lia|done]|].
  split; [|done]. cbn. unfold ent_ix, DUFS_INDIR_ENTRIES. change (2 ^ 20) with 1048576 in Hi.
  split; [|apply Z.mod_pos_bound; lia]. split; [apply Z.div_pos; lia|]. apply Z.div_lt_upper_bound; lia.
Qed.

Lemma data_pos_inj i j : 0 <= i → 0 <= j → data_pos i = data_pos j → i = j.
Proof.
  unfold data_pos. intros Hi Hj. bcase; intros [=]; try lia.
  pose proof (Z.div_mod (i - 1036) 1024). pose proof (Z.div_mod (j - 1036) 1024). lia.
Qed.

(** ** Blocks *)

(** The layout that mkfs writes; the image's length is free. *)
Definition DUFS_DATA_LBA : Z := 274.

Record super_ok (sb : dufs_super) : Prop := {
  so_ibm : sb_inode_bitmap_lba sb = 2;
  so_bbm : sb_block_bitmap_lba sb = 10;
  so_tab : sb_inode_table_lba sb = 18;
  so_data : sb_data_lba sb = DUFS_DATA_LBA;
  so_total : DUFS_DATA_LBA <= sb_total_sectors sb < 2 ^ 32;
}.

Definition block_lba (bit : Z) : Z := DUFS_DATA_LBA + bit * 8.
Definition n_blocks (sb : dufs_super) : Z := Z.min 32768 ((sb_total_sectors sb - DUFS_DATA_LBA) / 8).

(** The block addresses and sectors of DUFS. *)
Definition dufs_blk (lba : Z) : Prop := lba = 2 ∨ lba = 10 ∨ ∃ bit, 0 <= bit < 32768 ∧ lba = block_lba bit.
Definition dufs_sec (sec : Z) : Prop := sec = 1 ∨ 18 <= sec < DUFS_DATA_LBA.

Definition data_block (sb : dufs_super) (lba : Z) : Prop := ∃ bit, 0 <= bit < n_blocks sb ∧ lba = block_lba bit.
Definition bit_of (lba : Z) : Z := (lba - DUFS_DATA_LBA) / 8.

Lemma bit_of_lba bit : bit_of (block_lba bit) = bit.
Proof. unfold bit_of, block_lba. replace (DUFS_DATA_LBA + bit * 8 - DUFS_DATA_LBA) with (bit * 8) by lia. apply Z.div_mul. lia. Qed.

Lemma data_block_blk sb lba : super_ok sb → data_block sb lba → dufs_blk lba ∧ lba ≠ 0 ∧ lba ≠ 2 ∧ lba ≠ 10 ∧ is_u32 lba.
Proof.
  intros Hs (bit & Hb & ->). unfold n_blocks in Hb. split; [right; right; exists bit; split; [lia|done]|].
  unfold block_lba, DUFS_DATA_LBA, is_u32 in *. lia.
Qed.

Definition inode_ix (k : Z) : Prop := 0 <= k < DUFS_INODE_COUNT.

Record inode_wf (n : dufs_inode) : Prop := {
  iw_type : is_u16 (i_type n); iw_link : is_u16 (i_link_count n); iw_size : is_u32 (i_size n);
  iw_count : is_u32 (i_block_count n); iw_mtime : is_u32 (i_mtime n); iw_atime : is_u32 (i_atime n);
  iw_direct : length (i_direct n) = 12%nat ∧ Forall is_u32 (i_direct n);
  iw_indirect : is_u32 (i_indirect n); iw_double : is_u32 (i_double n);
  iw_pad : length (i_pad n) = 52%nat ∧ bytes (i_pad n);
}.

(** ** Ownership

    Over the pointers as a function of inode number and position. *)

Definition ptrs := Z → pos → Z.

Record owned (sb : dufs_super) (bm : list Z) (P : ptrs) : Prop := {
  ow_block k p : inode_ix k → pos_ok p → P k p ≠ 0 → data_block sb (P k p) ∧ bmap_test bm (bit_of (P k p)) = true;
  ow_inj k p k' p' : inode_ix k → pos_ok p → inode_ix k' → pos_ok p' →
    P k p ≠ 0 → P k p = P k' p' → k = k' ∧ p = p';
}.

Definition set_ptr (P : ptrs) (k : Z) (p : pos) (lba : Z) : ptrs :=
  λ k' p', if bool_decide (k' = k ∧ p' = p) then lba else P k' p'.

Lemma set_ptr_eq P k p lba : set_ptr P k p lba k p = lba.
Proof. unfold set_ptr. by rewrite bool_decide_true. Qed.
Lemma set_ptr_ne P k p lba k' p' : ¬ (k' = k ∧ p' = p) → set_ptr P k p lba k' p' = P k' p'.
Proof. intros. unfold set_ptr. by rewrite bool_decide_false. Qed.

Definition fresh (P : ptrs) (lba : Z) : Prop := ∀ k p, inode_ix k → pos_ok p → P k p ≠ lba.

Lemma owned_attach sb bm P k p lba :
  owned sb bm P → fresh P lba → data_block sb lba → bmap_test bm (bit_of lba) = true →
  owned sb bm (set_ptr P k p lba).
Proof.
  intros [Hb Hi] Hf Hd Ht. split.
  - intros k' p' Hk' Hp'. unfold set_ptr. case_bool_decide; [done|]. by apply Hb.
  - intros k1 p1 k2 p2 Hk1 Hp1 Hk2 Hp2. unfold set_ptr.
    case_bool_decide as E1; case_bool_decide as E2.
    + intros _ _. destruct E1 as [-> ->]. naive_solver.
    + intros _ E'. by destruct (Hf k2 p2).
    + intros _ E'. by destruct (Hf k1 p1).
    + by apply Hi.
Qed.

Lemma owned_ext sb bm P P' :
  (∀ k p, inode_ix k → pos_ok p → P' k p = P k p) → owned sb bm P → owned sb bm P'.
Proof.
  intros E [Hb Hi]. split.
  - intros k p Hk Hp. rewrite E by done. by apply Hb.
  - intros k p k' p' ????. rewrite !E by done. by apply Hi.
Qed.

(** ** The bitmap *)

Definition bitmap_ok (bm : list Z) : Prop := length bm = 4096%nat ∧ bytes bm.

Lemma bit_split bit : 0 <= bit → Z.shiftr bit 3 = bit / 8 ∧ bit &u 7 = bit mod 8.
Proof.
  intros. split; [by rewrite Z.shiftr_div_pow2 by lia|]. change 7 with (Z.ones 3). by rewrite Z.land_ones by lia.
Qed.

Lemma bmap_set_ok bm bit : bitmap_ok bm → bitmap_ok (bmap_set bm bit).
Proof.
  intros [Hl Hb]. unfold bmap_set. split; [by rewrite length_arr_set|].
  unfold arr_set. apply Forall_insert; [done|]. apply lor_u8; [by apply bytes_at|apply u8_range].
Qed.

Lemma bmap_clr_ok bm bit : bitmap_ok bm → bitmap_ok (bmap_clr bm bit).
Proof.
  intros [Hl Hb]. unfold bmap_clr. split; [by rewrite length_arr_set|].
  unfold arr_set. apply Forall_insert; [done|]. apply land_u8; [by apply bytes_at|]. apply u8_range.
Qed.

Lemma bmap_test_set bm bit b :
  bitmap_ok bm → 0 <= bit < 32768 → 0 <= b < 32768 →
  bmap_test (bmap_set bm bit) b = (b =? bit) || bmap_test bm b.
Proof.
  intros [Hl Hb] Hbit Hx. unfold bmap_test, bmap_set.
  destruct (bit_split bit) as [-> ->]; [lia|]. destruct (bit_split b) as [-> ->]; [lia|].
  assert (0 <= b / 8 < 4096) by (split; [apply Z.div_pos; lia|apply Z.div_lt_upper_bound; lia]).
  assert (0 <= bit / 8 < 4096) by (split; [apply Z.div_pos; lia|apply Z.div_lt_upper_bound; lia]).
  assert (0 <= b mod 8 < 8 ∧ 0 <= bit mod 8 < 8) as [Hbm Hbitm] by (split; apply Z.mod_pos_bound; lia).
  rewrite arr_get_set by lia. destruct (Z.eqb_spec (bit / 8) (b / 8)) as [E|E].
  - rewrite Z.lor_spec, testbit_u8, Z.shiftl_1_l, Z.pow2_bits_eqb by lia. rewrite E.
    destruct (Z.ltb_spec (b mod 8) 8); [|lia]. cbn [andb].
    destruct (Z.eqb_spec (bit mod 8) (b mod 8)) as [Em|Em].
    + assert (b = bit) as -> by (pose proof (Z.div_mod b 8); pose proof (Z.div_mod bit 8); lia). rewrite Z.eqb_refl. by rewrite orb_true_r.
    + rewrite (proj2 (Z.eqb_neq b bit)) by congruence. by rewrite orb_false_r.
  - rewrite (proj2 (Z.eqb_neq b bit)) by congruence. done.
Qed.

Lemma bmap_test_clr bm bit b :
  bitmap_ok bm → 0 <= bit < 32768 → 0 <= b < 32768 →
  bmap_test (bmap_clr bm bit) b = negb (b =? bit) && bmap_test bm b.
Proof.
  intros [Hl Hb] Hbit Hx. unfold bmap_test, bmap_clr.
  destruct (bit_split bit) as [-> ->]; [lia|]. destruct (bit_split b) as [-> ->]; [lia|].
  assert (0 <= b / 8 < 4096) by (split; [apply Z.div_pos; lia|apply Z.div_lt_upper_bound; lia]).
  assert (0 <= bit / 8 < 4096) by (split; [apply Z.div_pos; lia|apply Z.div_lt_upper_bound; lia]).
  assert (0 <= b mod 8 < 8 ∧ 0 <= bit mod 8 < 8) as [Hbm Hbitm] by (split; apply Z.mod_pos_bound; lia).
  rewrite arr_get_set by lia. destruct (Z.eqb_spec (bit / 8) (b / 8)) as [E|E].
  - rewrite Z.land_spec, testbit_u8, Z.lnot_spec, Z.shiftl_1_l, Z.pow2_bits_eqb by lia. rewrite E.
    destruct (Z.ltb_spec (b mod 8) 8); [|lia]. cbn [andb].
    destruct (Z.eqb_spec (bit mod 8) (b mod 8)) as [Em|Em].
    + assert (b = bit) as -> by (pose proof (Z.div_mod b 8); pose proof (Z.div_mod bit 8); lia). rewrite Z.eqb_refl. by rewrite andb_false_r.
    + rewrite (proj2 (Z.eqb_neq b bit)) by congruence. by rewrite andb_true_r.
  - rewrite (proj2 (Z.eqb_neq b bit)) by congruence. done.
Qed.

(** Setting a clear bit and clearing it again gives the bitmap back. *)
Lemma bmap_ext bm bm' :
  bitmap_ok bm → bitmap_ok bm' → (∀ b, 0 <= b < 32768 → bmap_test bm b = bmap_test bm' b) → bm = bm'.
Proof.
  intros [Hl Hb] [Hl' Hb'] Ht. apply arr_ext; [lia|]. intros k Hk. apply Z.bits_inj'. intros m Hm.
  destruct (Z.ltb_spec m 8).
  - specialize (Ht (k * 8 + m) ltac:(lia)). unfold bmap_test in Ht. destruct (bit_split (k * 8 + m)) as [E1 E2]; [lia|].
    rewrite E1, E2 in Ht. rewrite Z.div_add_l, Z.div_small, Z.add_0_r in Ht by lia.
    rewrite Z.add_comm, Z.mod_add, Z.mod_small in Ht by lia. done.
  - rewrite !(testbit_high 8); [done|lia|by apply bytes_at|lia|lia|by apply bytes_at|lia].
Qed.

(** ** Pointers when blocks change *)

(** Changing one block moves no pointer of an inode that has no table there. *)
Lemma ptr_frame B B' n lba p :
  (∀ x, x ≠ lba → B' x = B x) → lba ≠ 0 →
  (∀ t, is_table t = true → pos_ok t → ptr B n t ≠ lba) → pos_ok p → ptr B' n p = ptr B n p.
Proof.
  intros Hb H0 Ht Hp.
  assert (∀ t i, t ≠ lba → ptr1 B' t i = ptr1 B t i) as H1.
  { intros t i Hne. unfold ptr1. destruct (t =? 0); [done|]. by rewrite Hb. }
  destruct p as [i| |i| |i|i j]; cbn in *; try done.
  - apply H1. by apply (Ht PInd).
  - apply H1. by apply (Ht PDbl).
  - rewrite (H1 (i_double n)) by by apply (Ht PDbl). apply H1. apply (Ht (PL1 i)); [done|apply Hp].
Qed.

(** ** File contents *)

Definition fbyte (B : Z → list Z) (n : dufs_inode) (off : Z) : option Z :=
  let lba := ptr B n (data_pos (off / 4096)) in
  if lba =? 0 then None else Some (B lba).[off mod 4096].

Lemma off_blocks off : 0 <= off < 2 ^ 32 → 0 <= off / 4096 < max_blocks.
Proof.
  intros Ho. unfold max_blocks. change (2 ^ 32) with (4096 * 2 ^ 20) in Ho.
  split; [apply Z.div_pos; lia|]. enough (off / 4096 < 2 ^ 20) by lia. apply Z.div_lt_upper_bound; lia.
Qed.

(** ** The inode codec *)

Lemma blen_bytes_of n : inode_wf n → blen (bytes_of n) = 128.
Proof.
  intros [_ _ _ _ _ _ [Hd _] _ _ [Hp _]]. unfold bytes_of, le32_bytes, le16_bytes.
  destruct n as [ty lk sz bc mt at_ d i1 i2 pad]. simpl in *.
  do 12 (destruct d as [|? d]; [done|]). destruct d; [|done]. unfold blen. simpl. lia.
Qed.

Lemma inode_bytes_roundtrip n : inode_wf n → inode_of (bytes_of n) = n.
Proof.
  intros [H1 H2 H3 H4 H5 H6 [Hd Hdu] H8 H9 [Hp _]]. destruct n as [ty lk sz bc mt at_ d i1 i2 pad]. simpl in *.
  do 12 (destruct d as [|? d]; [done|]). destruct d; [|done]. rewrite !Forall_cons in Hdu.
  destruct Hdu as (? & ? & ? & ? & ? & ? & ? & ? & ? & ? & ? & ? & _).
  unfold inode_of, bytes_of, le32_bytes, le16_bytes. cbn [i_type i_link_count i_size i_block_count i_mtime i_atime i_direct i_indirect i_double i_pad].
  cbn [fmap list_fmap concat app]. change (seqZ 0 DUFS_DIRECT_BLOCKS) with [0; 1; 2; 3; 4; 5; 6; 7; 8; 9; 10; 11].
  cbn [fmap list_fmap].
  unfold get16, get32, arr_get. cbn [Z.to_nat Z.add Z.mul Pos.to_nat Pos.add Pos.succ Pos.mul Pos.iter_op Init.Nat.add lookup_total list_lookup_total].
  f_equal; try (by apply le32_value); try (by apply le16_value); [|].
  - repeat f_equal; by apply le32_value.
  - unfold slice. simpl. apply take_ge. by rewrite Hp.
Qed.

Lemma get16_u16 b o : bytes b → is_u16 (get16 b o).
Proof. intros Hb. unfold get16. pose proof (bytes_at b o Hb). pose proof (bytes_at b (o + 1) Hb). unfold is_u8, is_u16 in *. lia. Qed.

Lemma inode_of_wf b : bytes b → blen b = 128 → inode_wf (inode_of b).
Proof.
  intros Hb Hl. split; cbn; auto using get16_u16, get32_u32.
  - split; [done|]. rewrite Forall_fmap. apply Forall_true. intros i. by apply get32_u32.
  - split; [|by apply bytes_slice]. pose proof (blen_slice b 76 52) as E. unfold blen in *. lia.
Qed.

Lemma bytes_bytes_of n : inode_wf n → bytes (bytes_of n).
Proof.
  intros Hw. unfold bytes_of. repeat (apply Forall_app; split); try apply bytes_le32; try apply bytes_le16; [|apply Hw].
  apply Forall_concat. rewrite Forall_fmap. apply Forall_true. intros. apply bytes_le32.
Qed.

(** ** Contents *)

Section io.
Context {St : Type} {BS : BlockStore St} {Heap : Type} {KA : KAllocator Heap} {C : Type} {CK : Clock C}.
Context {SV : StoreView St} {BL : SureStoreLaws St dufs_blk dufs_sec}.
Implicit Types (s : fsys St Heap C) (n : dufs_inode).

Definition blk s (lba : Z) : list Z := st_block (fs_st s) lba.
Definition dinode s (k : Z) : dufs_inode :=
  inode_of (slice (st_sector (fs_st s) (18 + k / 4)) (k mod 4 * 128) 128).

Record fs_ok s : Prop := {
  fo_dev : g_blkdev (fs_mnt s) = st_dev;
  fo_super : super_ok (g_super (fs_mnt s));
  fo_ibm : bitmap_ok (g_inode_bitmap (fs_mnt s));
  fo_bbm : bitmap_ok (g_block_bitmap (fs_mnt s));
  fo_st : st_inv (fs_st s);
}.

Definition same_sectors s s' : Prop := ∀ x, dufs_sec x → st_sector (fs_st s') x = st_sector (fs_st s) x.
Definition same_blocks s s' : Prop := ∀ b, dufs_blk b → blk s' b = blk s b.

Record quiet s s' : Prop := {
  qu_ok : fs_ok s';
  qu_mnt : fs_mnt s' = fs_mnt s;
  qu_blk : same_blocks s s';
  qu_sec : same_sectors s s';
}.

Lemma quiet_refl s : fs_ok s → quiet s s.
Proof. by split. Qed.
Lemma quiet_trans s1 s2 s3 : quiet s1 s2 → quiet s2 s3 → quiet s1 s3.
Proof.
  intros [A1 A2 A3 A4] [B1 B2 B3 B4]. split; [done|congruence|..].
  - intros b Hb. by rewrite B3, A3.
  - intros x Hx. by rewrite B4, A4.
Qed.

Lemma quiet_hp s h : fs_ok s → quiet s (with_hp h s).
Proof. intros [? ? ? ? ?]. by split. Qed.

Lemma malloc_quiet s size : fs_ok s → quiet s (fs_malloc s size).2.
Proof. intros Hs. unfold fs_malloc. destruct (ka_malloc _ _). by apply quiet_hp. Qed.
Lemma kfree_quiet s p : fs_ok s → quiet s (fs_kfree s p).
Proof. apply quiet_hp. Qed.
Lemma time_quiet s : fs_ok s → quiet s (arch_time_unix_seconds s).2.
Proof. intros [? ? ? ? ?]. unfold arch_time_unix_seconds. destruct (clock_seconds _). by split. Qed.

Lemma inode_sector k : inode_ix k → dufs_sec (18 + k / 4) ∧ 0 <= k mod 4 * 128 ∧ k mod 4 * 128 + 128 <= 512.
Proof.
  unfold inode_ix, DUFS_INODE_COUNT, dufs_sec, DUFS_DATA_LBA. intros Hk.
  assert (0 <= k / 4 < 256) by (split; [apply Z.div_pos; lia|apply Z.div_lt_upper_bound; lia]).
  pose proof (Z.mod_pos_bound k 4 ltac:(lia)). lia.
Qed.

Lemma dinode_wf s k : fs_ok s → inode_ix k → inode_wf (dinode s k).
Proof.
  intros Hs Hk. destruct (inode_sector k Hk) as (Hx & ? & ?).
  destruct (st_sector_len (fs_st s) _ (fo_st _ Hs) Hx) as [Hl Hb].
  apply inode_of_wf; [by apply bytes_slice|]. apply blen_slice; unfold blen; lia.
Qed.

Lemma dinode_same s s' k : same_sectors s s' → inode_ix k → dinode s' k = dinode s k.
Proof. intros Hs Hk. unfold dinode. rewrite Hs; [done|]. by apply inode_sector. Qed.

Lemma dinode_quiet s s' k : quiet s s' → inode_ix k → dinode s' k = dinode s k.
Proof. intros Hq. apply dinode_same. apply Hq. Qed.

(** ** Steps *)

Lemma read_block_spec s lba :
  fs_ok s → dufs_blk lba →
  quiet s (read_block s lba).2 ∧ ∀ b, (read_block s lba).1 = Some b → b = blk s lba.
Proof.
  intros Hs Hb. unfold read_block. destruct Hs as [H1 H2 H3 H4 H5]. rewrite H1.
  destruct (bs_read (fs_st s) st_dev lba) as [r st'] eqn:E.
  destruct (bs_read_ok _ _ _ _ H5 Hb E) as (Hi & Hr & Hblk & Hsec). by split.
Qed.

Lemma write_block_spec s lba buf :
  fs_ok s → dufs_blk lba → length buf = 4096%nat → bytes buf →
  let '(ok, s') := write_block s lba buf in
  ok = true ∧ fs_ok s' ∧ fs_mnt s' = fs_mnt s ∧ same_sectors s s' ∧
  ∀ b, dufs_blk b → blk s' b = if bool_decide (b = lba) then buf else blk s b.
Proof.
  intros Hs Hb Hl Hby. unfold write_block. destruct Hs as [H1 H2 H3 H4 H5]. rewrite H1.
  destruct (bs_write (fs_st s) st_dev lba buf) as [ok st'] eqn:E.
  destruct (bs_write_ok _ _ _ _ _ H5 Hb Hl Hby E) as (Hi & Hr & Hblk & Hsec). split; [done|]. split; [by split|]. done.
Qed.

Lemma table_sector s k : fs_ok s → inode_ix k →
  sb_inode_table_lba (g_super (fs_mnt s)) +u k / DUFS_INODES_PER_SECTOR = 18 + k / 4.
Proof.
  intros Hs Hk. rewrite (so_tab _ (fo_super _ Hs)). unfold DUFS_INODES_PER_SECTOR. apply u32_small.
  destruct (inode_sector k Hk) as ([|] & _); unfold is_u32, DUFS_DATA_LBA in *; lia.
Qed.

Lemma inode_read_spec s k :
  fs_ok s → inode_ix k →
  quiet s (inode_read s k).2 ∧ ∀ n, (inode_read s k).1 = Some n → n = dinode s k.
Proof.
  intros Hs Hk. unfold inode_read. rewrite (table_sector s k Hs Hk). destruct Hs as [H1 H2 H3 H4 H5]. rewrite H1.
  destruct (sec_read (fs_st s) st_dev (18 + k / 4)) as [r st'] eqn:E.
  destruct (sec_read_ok _ _ _ _ H5 (proj1 (inode_sector k Hk)) E) as (Hi & Hr & Hblk & Hsec).
  split; [by split|]. intros n. destruct r as [b|]; [|done]. intros [= <-]. by rewrite (Hr b eq_refl).
Qed.

(** Writing an inode changes that inode alone, or nothing. *)
Lemma inode_write_spec s k n :
  fs_ok s → inode_ix k → inode_wf n →
  let '(ok, s') := inode_write s k n in
  fs_ok s' ∧ fs_mnt s' = fs_mnt s ∧ same_blocks s s' ∧
  (∀ j, inode_ix j → dinode s' j = if ok && (j =? k) then n else dinode s j) ∧ (ok = true ∨ (inode_read s k).1 = None).
Proof.
  intros Hs Hk Hn. pose proof (table_sector s k Hs Hk) as Et. unfold inode_write. rewrite Et.
  destruct Hs as [H1 H2 H3 H4 H5]. rewrite H1. destruct (inode_sector k Hk) as (Hx & Ho & Hle).
  destruct (sec_read (fs_st s) st_dev (18 + k / 4)) as [r st1] eqn:E.
  destruct (sec_read_ok _ _ _ _ H5 Hx E) as (Hi & Hr & Hblk & Hsec). destruct r as [b|].
  2:{ split; [by split|]. split; [done|]. split; [done|]. split; [|right; unfold inode_read; by rewrite Et, H1, E].
      intros j Hj. cbn [andb]. unfold dinode. cbn [fs_st with_st]. rewrite Hsec; [done|]. by apply inode_sector. }
  rewrite (Hr b eq_refl). clear Hr E. set (buf := st_sector (fs_st s) (18 + k / 4)).
  destruct (st_sector_len (fs_st s) _ H5 Hx) as [Hl Hby]. fold buf in Hl, Hby.
  assert (blen buf = 512) as Hbl by (unfold blen; lia). pose proof (blen_bytes_of n Hn) as Hnl.
  unfold DUFS_INODES_PER_SECTOR, DUFS_INODE_SIZE. set (buf' := splice buf (k mod 4 * 128) (bytes_of n)).
  assert (blen buf' = 512) as Hbl' by (unfold buf'; rewrite blen_splice; lia).
  destruct (sec_write st1 st_dev (18 + k / 4) buf') as [ok st2] eqn:E.
  assert (length buf' = 512%nat) as Hlen' by (unfold blen in Hbl'; lia).
  destruct (sec_write_ok _ _ _ _ _ Hi Hx Hlen' (bytes_splice _ _ _ Hby (bytes_bytes_of n Hn)) E)
    as (Hi2 & -> & Hsec2 & Hblk2).
  split; [by split|]. split; [done|]. split; [intros x Hxb; unfold blk; cbn; by rewrite Hblk2, Hblk|]. split; [|by left].
  intros j Hj. cbn [andb]. destruct (inode_sector j Hj) as (Hxj & Hoj & Hlej). unfold dinode. cbn [fs_st with_st].
  rewrite Hsec2 by done. case_bool_decide as Es.
  - unfold buf'. rewrite Es. fold buf. destruct (Z.eqb_spec j k) as [->|Hne].
    + rewrite <-Hnl. rewrite slice_splice_same by lia. by apply inode_bytes_roundtrip.
    + rewrite slice_splice_other; [done|lia|lia|lia|lia|lia|]. rewrite Hnl.
      assert (j mod 4 ≠ k mod 4).
      { intros Em. apply Hne. rewrite (Z.div_mod j 4), (Z.div_mod k 4) by lia. lia. }
      pose proof (Z.mod_pos_bound j 4). pose proof (Z.mod_pos_bound k 4). lia.
  - rewrite Hsec by done. destruct (Z.eqb_spec j k) as [->|Hne]; [done|done].
Qed.

Lemma blk_len s lba : fs_ok s → dufs_blk lba → length (blk s lba) = 4096%nat ∧ bytes (blk s lba).
Proof. intros Hs. exact (st_block_len (fs_st s) lba (fo_st _ Hs)). Qed.

(** ** Entries of a pointer table *)

Lemma entry_u32 b i : bytes b → is_u32 (entry b i).
Proof. apply get32_u32. Qed.

Lemma dufs_entry_set b i v j :
  is_u32 v → length b = 4096%nat → ent_ix i → ent_ix j →
  entry (set_entry b i v) j = if j =? i then v else entry b j.
Proof.
  unfold ent_ix, DUFS_INDIR_ENTRIES. intros Hv Hl Hi Hj. unfold entry, set_entry.
  rewrite get32_set32; [|done|lia|unfold blen; lia|lia|lia].
  destruct (Z.eqb_spec (4 * j) (4 * i)), (Z.eqb_spec j i); lia || done.
Qed.

Lemma dufs_set_entry_ok b i v : length b = 4096%nat → bytes b → ent_ix i → length (set_entry b i v) = 4096%nat ∧ bytes (set_entry b i v).
Proof.
  unfold ent_ix, DUFS_INDIR_ENTRIES. intros Hl Hb Hi. unfold set_entry. split; [|by apply bytes_set32].
  pose proof (blen_set32 b (4 * i) v) as E. unfold blen in E. lia.
Qed.

Lemma entry_zeros i : ent_ix i → entry (zeros_buf DUFS_BLOCK_SIZE) i = 0.
Proof. unfold ent_ix, DUFS_INDIR_ENTRIES, DUFS_BLOCK_SIZE. intros. apply get32_zeros; lia. Qed.

Lemma zeros_ok : length (zeros_buf DUFS_BLOCK_SIZE) = 4096%nat ∧ bytes (zeros_buf DUFS_BLOCK_SIZE).
Proof. split; [unfold zeros_buf; by rewrite length_replicate|apply bytes_zeros]. Qed.
End io.
