(* ===== verification/DufsGrow.v ===== *)
(** * DUFS: allocation and growth

    [grows] is what allocating does to a file: blocks are added, nothing that was
    there changes.  [block_ensure] grows a file by the block asked for. *)

From S2P Require Import Prelude Interfaces Bytes Dufs DufsSpec.

Definition upd_inode (I : Z → dufs_inode) (K : Z) (n : dufs_inode) : Z → dufs_inode := λ k, if k =? K then n else I k.

Lemma upd_inode_eq I K n : upd_inode I K n K = n.
Proof. unfold upd_inode. by rewrite Z.eqb_refl. Qed.
Lemma upd_inode_ne I K n k : k ≠ K → upd_inode I K n k = I k.
Proof. intros. unfold upd_inode. by rewrite (proj2 (Z.eqb_neq k K)). Qed.
Lemma upd_inode_id I K k : upd_inode I K (I K) k = I k.
Proof. unfold upd_inode. by destruct (Z.eqb_spec k K) as [->|]. Qed.

(** The fields that are not block pointers or the block count. *)
Definition same_meta (n n' : dufs_inode) : Prop :=
  i_type n' = i_type n ∧ i_link_count n' = i_link_count n ∧ i_size n' = i_size n ∧ i_mtime n' = i_mtime n ∧
  i_atime n' = i_atime n ∧ i_pad n' = i_pad n.

Lemma same_meta_trans n1 n2 n3 : same_meta n1 n2 → same_meta n2 n3 → same_meta n1 n3.
Proof. unfold same_meta. intuition congruence. Qed.

Section alloc.
Context {St : Type} {BS : BlockStore St} {Heap : Type} {KA : KAllocator Heap} {C : Type} {CK : Clock C}.
Context {SV : StoreView St} {BL : SureStoreLaws St dufs_blk dufs_sec}.
Implicit Types (s : fsys St Heap C) (n : dufs_inode) (I : Z → dufs_inode).

Definition ptrs_of s I : ptrs := λ k p, ptr (blk s) (I k) p.
Definition bm s : list Z := g_block_bitmap (fs_mnt s).
Definition own s I : Prop := owned (g_super (fs_mnt s)) (bm s) (ptrs_of s I).

(** No read fails and memory does not run out; no block is free. *)
Definition reliable : Prop :=
  (∀ st lba, st_inv st → dufs_blk lba → (bs_read st st_dev lba).1 ≠ None) ∧
  (∀ st x, st_inv st → dufs_sec x → (sec_read st st_dev x).1 ≠ None) ∧
  (∀ h : Heap, (ka_malloc h DUFS_BLOCK_SIZE).1 ≠ 0).
Definition full s : Prop := ∀ bit, 0 <= bit < n_blocks (g_super (fs_mnt s)) → bmap_test (bm s) bit = true.

Lemma ptrs_quiet s s' I k p :
  fs_ok s → own s I → quiet s s' → inode_ix k → pos_ok p → ptrs_of s' I k p = ptrs_of s I k p.
Proof.
  intros Hs Ho Hq Hk Hp. unfold ptrs_of.
  assert (∀ t i, t = 0 ∨ dufs_blk t → ptr1 (blk s') t i = ptr1 (blk s) t i) as H1.
  { intros t i Ht. unfold ptr1. destruct (Z.eqb_spec t 0); [done|]. rewrite (qu_blk _ _ Hq); [done|]. by destruct Ht. }
  assert (∀ q, pos_ok q → ptrs_of s I k q = 0 ∨ dufs_blk (ptrs_of s I k q)) as Ht.
  { intros q Hq'. destruct (Z.eq_dec (ptrs_of s I k q) 0); [by left|right].
    destruct (ow_block _ _ _ Ho k q Hk Hq' n) as [Hd _]. by apply (data_block_blk _ _ (fo_super _ Hs)). }
  destruct p as [i| |i| |i|i j]; cbn in *; try done.
  - apply H1. by apply (Ht PInd).
  - apply H1. by apply (Ht PDbl).
  - rewrite (H1 (i_double (I k))) by by apply (Ht PDbl). apply H1. apply (Ht (PL1 i)). apply Hp.
Qed.

Lemma own_quiet s s' I : fs_ok s → own s I → quiet s s' → own s' I.
Proof.
  intros Hs Ho Hq. unfold own, bm. rewrite (qu_mnt _ _ Hq). eapply owned_ext; [|exact Ho].
  intros k p Hk Hp. by apply ptrs_quiet.
Qed.

(** ** One block *)

Lemma max_bits_eq s : fs_ok s → max_bits (fs_mnt s) = n_blocks (g_super (fs_mnt s)).
Proof.
  intros Hs. destruct (fo_super _ Hs) as [_ _ _ Hd Ht]. unfold max_bits, n_blocks, DUFS_SECS_PER_BLOCK. rewrite Hd.
  rewrite u32_small by (unfold is_u32, DUFS_DATA_LBA in *; lia). destruct (Z.ltb_spec (4096 * 8) ((sb_total_sectors (g_super (fs_mnt s)) - DUFS_DATA_LBA) / 8)); lia.
Qed.

Lemma n_blocks_bound s : fs_ok s → n_blocks (g_super (fs_mnt s)) <= 32768.
Proof. unfold n_blocks. lia. Qed.

Lemma block_alloc_spec s :
  fs_ok s →
  let '(lba, s') := block_alloc s in
  (lba = 0 ∧ s' = s ∧ full s) ∨
  (∃ bit, 0 <= bit < n_blocks (g_super (fs_mnt s)) ∧ bmap_test (bm s) bit = false ∧ lba = block_lba bit ∧
     s' = with_mnt (set_block_bitmap (bmap_set (bm s) bit) (fs_mnt s)) s).
Proof.
  intros Hs. unfold block_alloc. rewrite max_bits_eq by done. set (N := n_blocks (g_super (fs_mnt s))).
  pose proof (n_blocks_bound s Hs) as HN. fold N in HN.
  match goal with |- context [for_exit 0 ?m ?body ?s0] =>
    pose proof (for_exit_inv (λ k s', s' = s ∧ ∀ b, 0 <= b < k → bmap_test (bm s) b = true)
      (λ r, ∃ bit, 0 <= bit < N ∧ bmap_test (bm s) bit = false ∧ r = (block_lba bit,
         with_mnt (set_block_bitmap (bmap_set (bm s) bit) (fs_mnt s)) s)) body 0 m s0) as Hl end.
  lapply Hl; clear Hl; [intros Hl; lapply Hl; clear Hl; [intros Hl|split; [done|lia]]|].
  - destruct (for_exit _ _ _ _) as [[lba s']|s'].
    + destruct Hl as (bit & Hb & Ht & [= -> ->]). right. by exists bit.
    + destruct Hl as [-> Hl]. left. split; [done|]. split; [done|]. intros bit Hb. apply Hl. fold N in Hb. lia.
  - intros k s' Hk [-> Hall]. fold (bm s). destruct (bmap_test (bm s) k) eqn:Et; cbn [negb].
    + split; [done|]. intros b Hb. destruct (Z.eq_dec b k) as [->|]; [done|]. apply Hall. lia.
    + exists k. split; [lia|]. split; [done|]. f_equal. rewrite (so_data _ (fo_super _ Hs)).
      unfold DUFS_SECS_PER_BLOCK, block_lba, DUFS_DATA_LBA. rewrite !u32_small; [done|..]; unfold is_u32; rewrite ?u32_small; unfold is_u32; lia.
Qed.

Lemma block_free_eq s lba :
  fs_ok s → data_block (g_super (fs_mnt s)) lba →
  block_free s lba = with_mnt (set_block_bitmap (bmap_clr (bm s) (bit_of lba)) (fs_mnt s)) s.
Proof.
  intros Hs (bit & Hb & ->). unfold block_free. rewrite (so_data _ (fo_super _ Hs)). rewrite bit_of_lba.
  pose proof (n_blocks_bound s Hs). pose proof (bit_of_lba bit) as Eb. unfold bit_of, DUFS_SECS_PER_BLOCK in *. rewrite Eb.
  destruct (Z.ltb_spec (block_lba bit) DUFS_DATA_LBA); [unfold block_lba in *; lia|].
  by destruct (Z.ltb_spec bit (4096 * 8)); [|lia].
Qed.

Lemma with_bitmap_ok s b : fs_ok s → bitmap_ok b → fs_ok (with_mnt (set_block_bitmap b (fs_mnt s)) s).
Proof. intros [? ? ? ? ?] ?. by split. Qed.

(** A new zeroed block, or nothing. *)
Lemma alloc_zeroed_spec s :
  fs_ok s →
  let '(lba, s') := alloc_zeroed s in
  if lba =? 0 then quiet s s' ∧ (reliable → full s')
  else ∃ bit, 0 <= bit < n_blocks (g_super (fs_mnt s)) ∧ lba = block_lba bit ∧ bmap_test (bm s) bit = false ∧
    fs_ok s' ∧ same_sectors s s' ∧ fs_mnt s' = set_block_bitmap (bmap_set (bm s) bit) (fs_mnt s) ∧
    ∀ b, dufs_blk b → blk s' b = if bool_decide (b = lba) then zeros_buf DUFS_BLOCK_SIZE else blk s b.
Proof.
  intros Hs. unfold alloc_zeroed. pose proof (block_alloc_spec s Hs) as Ha. destruct (block_alloc s) as [lba s1].
  destruct Ha as [(-> & -> & Hf)|(bit & Hb & Ht & -> & ->)].
  { cbn. split; [by apply quiet_refl|done]. }
  set (s1 := with_mnt _ s). pose proof (n_blocks_bound s Hs) as HN.
  assert (fs_ok s1) as Hs1 by (apply with_bitmap_ok; [done|]; apply bmap_set_ok, Hs).
  assert (data_block (g_super (fs_mnt s)) (block_lba bit)) as Hd by by exists bit.
  destruct (data_block_blk _ _ (fo_super _ Hs) Hd) as (Hbl & H0 & _). rewrite (proj2 (Z.eqb_neq _ _)) by done.
  unfold write_zeroed_block. pose proof (malloc_quiet s1 DUFS_BLOCK_SIZE Hs1) as Hm.
  destruct (fs_malloc s1 DUFS_BLOCK_SIZE) as [z s2] eqn:Em. cbn [snd] in Hm. destruct (Z.eqb_spec z 0) as [->|Hz].
  - cbn [negb]. cbn [Z.eqb]. rewrite block_free_eq; [|apply Hm|by rewrite (qu_mnt _ _ Hm)].
    rewrite bit_of_lba. unfold bm. rewrite (qu_mnt _ _ Hm).
    assert (bmap_clr (bmap_set (bm s) bit) bit = bm s) as Ebm.
    { apply bmap_ext; [apply bmap_clr_ok, bmap_set_ok, Hs|apply Hs|]. intros b Hbb.
      rewrite bmap_test_clr, bmap_test_set; [|apply Hs|lia|lia|apply bmap_set_ok, Hs|lia|lia].
      destruct (Z.eqb_spec b bit) as [->|]; [by rewrite Ht|done]. }
    split.
    + split; cbn; [|by rewrite Ebm; destruct s as [[]]|intros b Hbb; apply (qu_blk _ _ Hm b Hbb)|intros x Hx; apply (qu_sec _ _ Hm x Hx)].
      destruct (qu_ok _ _ Hm) as [A1 A2 A3 A4 A5]. rewrite (qu_mnt _ _ Hm) in *. split; cbn in *; try done. apply bmap_clr_ok, bmap_set_ok, Hs.
    + intros (_ & _ & Hmal). exfalso. apply (Hmal (fs_hp s1)). unfold fs_malloc in Em. destruct (ka_malloc (fs_hp s1) DUFS_BLOCK_SIZE). by injection Em as <-.
  - pose proof (write_block_spec s2 (block_lba bit) (zeros_buf DUFS_BLOCK_SIZE) (qu_ok _ _ Hm) Hbl (proj1 zeros_ok) (proj2 zeros_ok)) as Hw.
    destruct (write_block s2 _ _) as [ok s3]. destruct Hw as (-> & Hs3 & Hm3 & Hsec & Hblk). cbn [negb].
    rewrite (proj2 (Z.eqb_neq (block_lba bit) 0)) by done. exists bit.
    do 3 (split; [done|]). pose proof (kfree_quiet s3 z Hs3) as Hk. split; [apply Hk|]. split; [|split].
    + intros x Hx. rewrite (qu_sec _ _ Hk), Hsec by done. apply (qu_sec _ _ Hm x Hx).
    + rewrite (qu_mnt _ _ Hk), Hm3, (qu_mnt _ _ Hm). done.
    + intros b Hbb. rewrite (qu_blk _ _ Hk) by done. rewrite Hblk by done. case_bool_decide; [done|]. apply (qu_blk _ _ Hm b Hbb).
Qed.

(** ** Growth *)

Record grows (K : Z) (Q : pos → Prop) s I s' I' : Prop := {
  gr_ok : fs_ok s';
  gr_own : own s' I';
  gr_sec : same_sectors s s';
  gr_mnt : ∃ b, fs_mnt s' = set_block_bitmap b (fs_mnt s);
  gr_bits : ∀ bit, 0 <= bit < 32768 → bmap_test (bm s) bit = true → bmap_test (bm s') bit = true;
  gr_other : ∀ k, k ≠ K → I' k = I k;
  gr_meta : same_meta (I K) (I' K);
  gr_wf : inode_wf (I K) → inode_wf (I' K);
  gr_keep : ∀ k p, inode_ix k → pos_ok p → ptrs_of s I k p ≠ 0 → ptrs_of s' I' k p = ptrs_of s I k p;
  gr_frame : ∀ k p, inode_ix k → pos_ok p → k ≠ K → ptrs_of s' I' k p = ptrs_of s I k p;
  gr_only : ∀ p, pos_ok p → is_table p = false → ¬ Q p → ptrs_of s' I' K p = ptrs_of s I K p;
  gr_data : ∀ k p, inode_ix k → pos_ok p → is_table p = false → ptrs_of s I k p ≠ 0 →
    blk s' (ptrs_of s I k p) = blk s (ptrs_of s I k p);
  gr_new : ∀ p, pos_ok p → is_table p = false → ptrs_of s I K p = 0 → ptrs_of s' I' K p ≠ 0 →
    blk s' (ptrs_of s' I' K p) = zeros_buf DUFS_BLOCK_SIZE;
}.

Lemma grows_weaken K (Q Q' : pos → Prop) s I s' I' :
  (∀ p, Q p → Q' p) → grows K Q s I s' I' → grows K Q' s I s' I'.
Proof. intros HQ []. split; auto. Qed.

Lemma grows_trans K Q s1 I1 s2 I2 s3 I3 :
  inode_ix K → grows K Q s1 I1 s2 I2 → grows K Q s2 I2 s3 I3 → grows K Q s1 I1 s3 I3.
Proof.
  intros HK [A1 A2 A3 [b1 A4] A5 A6 A7 A8 A9 A10 A11 A12 A13] [B1 B2 B3 [b2 B4] B5 B6 B7 B8 B9 B10 B11 B12 B13].
  assert (∀ k p, inode_ix k → pos_ok p → ptrs_of s1 I1 k p ≠ 0 → ptrs_of s3 I3 k p = ptrs_of s1 I1 k p) as Hkeep.
  { intros k p Hk Hp Hn. rewrite B9, A9; try done. by rewrite A9. }
  split; try done.
  - intros x Hx. by rewrite B3, A3.
  - exists b2. rewrite B4, A4. done.
  - auto.
  - intros k Hk. by rewrite B6, A6.
  - by eapply same_meta_trans.
  - auto.
  - intros k p Hk Hp Hne. by rewrite B10, A10.
  - intros p Hp Ht HQ. by rewrite B11, A11.
  - intros k p Hk Hp Ht Hn. rewrite <-(A12 k p) by done. rewrite <-(A9 k p) by done. apply B12; [done|done|done|]. by rewrite A9.
  - intros p Hp Ht H0 Hn. destruct (Z.eq_dec (ptrs_of s2 I2 K p) 0) as [E|E]; [by apply B13|].
    rewrite (B9 K p) by done. rewrite B12 by done. by apply A13.
Qed.

Lemma grows_quiet K Q s I s' : inode_ix K → fs_ok s → own s I → quiet s s' → grows K Q s I s' I.
Proof.
  intros HK Hs Ho Hq. pose proof (ptrs_quiet s s' I) as Hp. split.
  - apply Hq.
  - by eapply own_quiet.
  - apply Hq.
  - exists (bm s). rewrite (qu_mnt _ _ Hq). unfold bm. by destruct (fs_mnt s).
  - unfold bm. rewrite (qu_mnt _ _ Hq). auto.
  - done.
  - done.
  - done.
  - auto.
  - auto.
  - auto.
  - intros k p Hk Hpp Ht Hn. apply (qu_blk _ _ Hq). destruct (ow_block _ _ _ Ho k p Hk Hpp Hn) as [Hd _].
    by apply (data_block_blk _ _ (fo_super _ Hs)).
  - intros p Hpp Ht H0 Hn. by rewrite Hp in Hn.
Qed.
End alloc.

(** ** Pointers after one assignment *)

Definition is_root (p : pos) : bool := match p with PDir _ | PInd | PDbl => true | _ => false end.

Definition set_root (p : pos) (lba : Z) (n : dufs_inode) : dufs_inode :=
  match p with
  | PDir i => set_direct (i_direct n).[i <- lba] n
  | PInd => set_indirect lba n
  | PDbl => set_double lba n
  | _ => n
  end.

Lemma ptr_inc B n p : ptr B (inc_block_count n) p = ptr B n p.
Proof. by destruct p. Qed.

Lemma ptr1_zeros B t i : (t ≠ 0 → entry (B t) i = 0) → ptr1 B t i = 0.
Proof. unfold ptr1. destruct (Z.eqb_spec t 0); auto. Qed.

Lemma ptr_set_root B n p lba q :
  is_root p = true → pos_ok p → pos_ok q → length (i_direct n) = 12%nat → ptr B n p = 0 →
  (∀ i, ent_ix i → entry (B lba) i = 0) →
  ptr B (set_root p lba n) q = if bool_decide (q = p) then lba else ptr B n q.
Proof.
  intros Hr Hp Hq Hl H0 Hz.
  assert (∀ i, ent_ix i → ptr1 B lba i = 0) as H1 by (intros; apply ptr1_zeros; auto).
  destruct p; try done; cbn [set_root]; destruct q as [a| |a| |a|a b]; cbn in *;
    try (rewrite bool_decide_false by congruence; done); try (rewrite bool_decide_true by congruence; done).
  - rewrite arr_get_set by (unfold DUFS_DIRECT_BLOCKS in *; lia). destruct (Z.eqb_spec i a) as [->|].
    + by rewrite bool_decide_true.
    + rewrite bool_decide_false by congruence. done.
  - rewrite H1 by done. rewrite bool_decide_false by done. by rewrite H0.
  - rewrite H1 by done. rewrite bool_decide_false by done. by rewrite H0.
  - destruct Hq. rewrite H1 by done. rewrite bool_decide_false by done. by rewrite H0.
Qed.

(** Writing entry [idx] of the table [t]. *)
Lemma ptr_set_entry B B' n pt t idx lba q :
  is_table pt = true → pos_ok pt → ptr B n pt = t → t ≠ 0 → lba ≠ 0 → lba ≠ t → is_u32 lba → ent_ix idx → pos_ok q →
  length (B t) = 4096%nat → entry (B t) idx = 0 → (∀ j, ent_ix j → entry (B lba) j = 0) →
  (∀ x, pos_ok x → is_table x = true → ptr B n x = t → x = pt) →
  B' t = set_entry (B t) idx lba → (∀ b, b = lba ∨ b ≠ t ∧ b ≠ 0 ∧ (∃ x, pos_ok x ∧ is_table x = true ∧ ptr B n x = b) → B' b = B b) →
  ptr B' n q = if bool_decide (q = child pt idx) then lba else ptr B n q.
Proof.
  intros Hpt Hptok Ht Ht0 Hl0 Hlt Hu Hidx Hq Hlen He Hz Hinj HBt HB.
  assert (∀ j, ent_ix j → ptr1 B' t j = if j =? idx then lba else ptr1 B t j) as Hent.
  { intros j Hj. unfold ptr1. rewrite (proj2 (Z.eqb_neq t 0)) by done. rewrite HBt. by apply dufs_entry_set. }
  assert (∀ x j, pos_ok x → is_table x = true → x ≠ pt → ptr1 B' (ptr B n x) j = ptr1 B (ptr B n x) j) as Hoth.
  { intros x j Hx Hxt Hne. unfold ptr1. destruct (Z.eqb_spec (ptr B n x) 0); [done|]. rewrite HB; [done|]. right.
    split; [intros E; by apply Hne, Hinj|]. split; [done|by exists x]. }
  assert (∀ j, ent_ix j → ptr1 B' lba j = 0) as Hlz.
  { intros j Hj. apply ptr1_zeros. intros _. rewrite HB by by left. by apply Hz. }
  destruct q as [a| |a| |a|a b]; cbn [ptr pos_ok] in *.
  - rewrite bool_decide_false; [done|by destruct pt].
  - rewrite bool_decide_false; [done|by destruct pt].
  - destruct pt as [| | | |k|]; try done; cbn [child ptr] in *.
    + rewrite Ht. rewrite Hent by done. destruct (Z.eqb_spec a idx) as [->|]; [by rewrite bool_decide_true|].
      by rewrite bool_decide_false by congruence.
    + rewrite bool_decide_false by done. by apply (Hoth PInd).
    + rewrite bool_decide_false by done. by apply (Hoth PInd).
  - rewrite bool_decide_false; [done|by destruct pt].
  - destruct pt as [| | | |k|]; try done; cbn [child ptr] in *.
    + rewrite bool_decide_false by done. by apply (Hoth PDbl).
    + rewrite Ht. rewrite Hent by done. destruct (Z.eqb_spec a idx) as [->|]; [by rewrite bool_decide_true|].
      by rewrite bool_decide_false by congruence.
    + rewrite bool_decide_false by done. by apply (Hoth PDbl).
  - destruct Hq as [Ha Hb]. destruct pt as [| | | |k|]; try done; cbn [child ptr] in *.
    + rewrite bool_decide_false by done. pose proof (Hoth PDbl a ltac:(done) ltac:(done) ltac:(done)) as E1. cbn [ptr] in E1. rewrite E1.
      by apply (Hoth (PL1 a)).
    + rewrite Ht. rewrite Hent by done. rewrite bool_decide_false by done. destruct (Z.eqb_spec a idx) as [->|Hne].
      * rewrite Hlz by done. unfold ptr1 at 2. rewrite (proj2 (Z.eqb_neq t 0)) by done. by rewrite He.
      * pose proof (Hoth (PL1 a) b ltac:(done) ltac:(done) ltac:(done)) as E1. cbn [ptr] in E1. by rewrite Ht in E1.
    + pose proof (Hoth PDbl a ltac:(done) ltac:(done) ltac:(done)) as E1. cbn [ptr] in E1. rewrite E1.
      destruct (Z.eq_dec a k) as [->|Hne].
      * rewrite Ht. rewrite Hent by done. destruct (Z.eqb_spec b idx) as [->|]; [by rewrite bool_decide_true|].
        by rewrite bool_decide_false by congruence.
      * rewrite bool_decide_false by congruence. apply (Hoth (PL1 a)); [done|done|congruence].
Qed.

Lemma set_root_wf p lba n : is_root p = true → is_u32 lba → inode_wf n → inode_wf (inc_block_count (set_root p lba n)).
Proof.
  intros Hr Hu [H1 H2 H3 H4 H5 H6 [Hl Hd] H8 H9 H10]. destruct p; try done; split; cbn; auto using u32_range.
  split; [by rewrite length_arr_set|]. unfold arr_set. by apply Forall_insert.
Qed.

Section grow.
Context {St : Type} {BS : BlockStore St} {Heap : Type} {KA : KAllocator Heap} {C : Type} {CK : Clock C}.
Context {SV : StoreView St} {BL : SureStoreLaws St dufs_blk dufs_sec}.
Implicit Types (s : fsys St Heap C) (n : dufs_inode) (I : Z → dufs_inode).

Lemma fresh_clear s I bit :
  fs_ok s → own s I → 0 <= bit < n_blocks (g_super (fs_mnt s)) → bmap_test (bm s) bit = false →
  fresh (ptrs_of s I) (block_lba bit).
Proof.
  intros Hs Ho Hb Ht k p Hk Hp E.
  assert (block_lba bit ≠ 0) as H0 by (unfold block_lba, DUFS_DATA_LBA; lia).
  destruct (ow_block _ _ _ Ho k p Hk Hp) as [_ Hset]; [by rewrite E|]. rewrite E, bit_of_lba in Hset. congruence.
Qed.

(** A new block at one position. *)
Lemma grows_attach K Q s I s' I' p bit :
  inode_ix K → pos_ok p → (is_table p = false → Q p) → fs_ok s → own s I →
  0 <= bit < n_blocks (g_super (fs_mnt s)) → bmap_test (bm s) bit = false →
  fs_ok s' → same_sectors s s' → fs_mnt s' = set_block_bitmap (bmap_set (bm s) bit) (fs_mnt s) →
  (∀ k, k ≠ K → I' k = I k) → same_meta (I K) (I' K) → (inode_wf (I K) → inode_wf (I' K)) →
  ptrs_of s I K p = 0 →
  (∀ k q, inode_ix k → pos_ok q → ptrs_of s' I' k q = set_ptr (ptrs_of s I) K p (block_lba bit) k q) →
  (∀ k q, inode_ix k → pos_ok q → is_table q = false → ptrs_of s I k q ≠ 0 →
     blk s' (ptrs_of s I k q) = blk s (ptrs_of s I k q)) →
  (is_table p = false → blk s' (block_lba bit) = zeros_buf DUFS_BLOCK_SIZE) →
  grows K Q s I s' I'.
Proof.
  intros HK Hp HQ Hs Ho Hbit Ht Hs' Hsec Hm Hoth Hmeta Hwf H0 HP Hdata Hzero.
  pose proof (n_blocks_bound s Hs). pose proof (fresh_clear s I bit Hs Ho Hbit Ht) as Hf.
  assert (bm s' = bmap_set (bm s) bit) as Ebm by (unfold bm; by rewrite Hm).
  assert (∀ b, 0 <= b < 32768 → bmap_test (bm s) b = true → bmap_test (bm s') b = true) as Hbits.
  { intros b Hb Hset. rewrite Ebm, bmap_test_set by (apply Hs || lia). rewrite Hset. apply orb_true_r. }
  split; try done.
  - unfold own. rewrite Hm. cbn [g_super set_block_bitmap]. eapply owned_ext; [exact HP|].
    apply owned_attach; [|done|by exists bit|].
    + destruct Ho as [Hb Hi]. split; [|done]. intros k q Hk Hq Hn. destruct (Hb k q Hk Hq Hn) as [Hd Hset].
      split; [done|]. apply Hbits; [|done]. destruct Hd as (b & Hb' & ->). rewrite bit_of_lba. lia.
    + rewrite bit_of_lba, Ebm, bmap_test_set by (apply Hs || lia). by rewrite Z.eqb_refl.
  - by eexists.
  - intros k q Hk Hq Hn. rewrite HP by done. apply set_ptr_ne. intros [-> ->]. done.
  - intros k q Hk Hq Hne. rewrite HP by done. apply set_ptr_ne. by intros [-> _].
  - intros q Hq Hqt HnQ. rewrite HP by done. apply set_ptr_ne. intros [_ ->]. auto.
  - intros q Hq Hqt E0 Hn. rewrite HP in * by done. destruct (decide (q = p)) as [->|Hne].
    + rewrite set_ptr_eq. auto.
    + rewrite set_ptr_ne in Hn by by intros [_ ?]. done.
Qed.

Lemma zero_entries s lba j :
  blk s lba = zeros_buf DUFS_BLOCK_SIZE → ent_ix j → entry (blk s lba) j = 0.
Proof. intros ->. apply entry_zeros. Qed.

(** The blocks that are not [lba] are as before. *)
Definition zeroed_at s s' (lba : Z) : Prop :=
  ∀ b, dufs_blk b → blk s' b = if bool_decide (b = lba) then zeros_buf DUFS_BLOCK_SIZE else blk s b.

Lemma own_blk s I k p : fs_ok s → own s I → inode_ix k → pos_ok p → ptrs_of s I k p ≠ 0 →
  data_block (g_super (fs_mnt s)) (ptrs_of s I k p) ∧ dufs_blk (ptrs_of s I k p) ∧ is_u32 (ptrs_of s I k p).
Proof.
  intros Hs Ho Hk Hp Hn. destruct (ow_block _ _ _ Ho k p Hk Hp Hn) as [Hd _]. split; [done|].
  destruct (data_block_blk _ _ (fo_super _ Hs) Hd) as (? & _ & _ & _ & ?). done.
Qed.

(** Pointers do not change with a block that holds no table of the inode. *)
Lemma ptrs_frame s s' I X k p :
  (∀ x, pos_ok x → is_table x = true → ptrs_of s I k x = 0 ∨ (dufs_blk (ptrs_of s I k x) ∧ ptrs_of s I k x ≠ X)) →
  (∀ b, dufs_blk b → b ≠ X → blk s' b = blk s b) → pos_ok p → ptrs_of s' I k p = ptrs_of s I k p.
Proof.
  intros Ht Hz Hp. unfold ptrs_of in *.
  assert (∀ t i, t = 0 ∨ (dufs_blk t ∧ t ≠ X) → ptr1 (blk s') t i = ptr1 (blk s) t i) as H1.
  { intros t i Hc. unfold ptr1. destruct (Z.eqb_spec t 0); [done|]. destruct Hc as [|[Hb Hne]]; [done|]. by rewrite Hz. }
  destruct p as [i| |i| |i|i j]; cbn in *; try done.
  - apply H1. by apply (Ht PInd).
  - apply H1. by apply (Ht PDbl).
  - rewrite (H1 (i_double (I k))) by by apply (Ht PDbl). apply H1. apply (Ht (PL1 i)); [apply Hp|done].
Qed.

Lemma ptrs_zeroed s s' I lba k p :
  fs_ok s → own s I → fresh (ptrs_of s I) lba → zeroed_at s s' lba → inode_ix k → pos_ok p →
  ptrs_of s' I k p = ptrs_of s I k p.
Proof.
  intros Hs Ho Hf Hz Hk Hp. apply (ptrs_frame s s' I lba); [|intros b Hb Hne; rewrite Hz by done; by rewrite bool_decide_false|done].
  intros x Hx _. destruct (Z.eq_dec (ptrs_of s I k x) 0) as [|Hn]; [by left|right].
  split; [|by apply Hf]. by apply (own_blk s I k x).
Qed.

(** [alloc_zeroed] and a pointer in the inode itself. *)
Lemma attach_root K Q s I p :
  inode_ix K → is_root p = true → pos_ok p → (is_table p = false → Q p) → fs_ok s → own s I → inode_wf (I K) →
  ptrs_of s I K p = 0 →
  let '(lba, s') := alloc_zeroed s in
  if lba =? 0 then grows K (λ _, False) s I s' I ∧ (reliable (St := St) (Heap := Heap) → full s')
  else grows K Q s I s' (upd_inode I K (inc_block_count (set_root p lba (I K)))) ∧
       ptrs_of s' (upd_inode I K (inc_block_count (set_root p lba (I K)))) K p = lba.
Proof.
  intros HK Hr Hp HQ Hs Ho Hwf H0. pose proof (alloc_zeroed_spec s Hs) as Ha. destruct (alloc_zeroed s) as [lba s'].
  destruct (Z.eqb_spec lba 0) as [->|Hl].
  { destruct Ha as [Hq Hf]. split; [by apply grows_quiet|done]. }
  destruct Ha as (bit & Hbit & -> & Ht & Hs' & Hsec & Hm & Hz). change (zeroed_at s s' (block_lba bit)) in Hz.
  pose proof (fresh_clear s I bit Hs Ho Hbit Ht) as Hf. set (lba := block_lba bit) in *.
  assert (data_block (g_super (fs_mnt s)) lba) as Hd by by exists bit.
  destruct (data_block_blk _ _ (fo_super _ Hs) Hd) as (Hlb & _ & _ & _ & Hu).
  assert (blk s' lba = zeros_buf DUFS_BLOCK_SIZE) as Hzl by (rewrite Hz by done; by rewrite bool_decide_true).
  set (n' := inc_block_count (set_root p lba (I K))).
  assert (∀ k q, inode_ix k → pos_ok q → ptrs_of s' (upd_inode I K n') k q = set_ptr (ptrs_of s I) K p lba k q) as HP.
  { intros k q Hk Hq. unfold ptrs_of at 1. destruct (Z.eq_dec k K) as [->|Hne].
    - rewrite upd_inode_eq. unfold n'. rewrite ptr_inc.
      rewrite (ptr_set_root (blk s') (I K) p lba q Hr Hp Hq (proj1 (iw_direct _ Hwf))).
      + destruct (decide (q = p)) as [->|Hne]; [by rewrite bool_decide_true, set_ptr_eq|].
        rewrite bool_decide_false, set_ptr_ne by first [done|intros [_ ?]; done]. by apply (ptrs_zeroed s s' I lba).
      + change (ptrs_of s' I K p = 0). by rewrite (ptrs_zeroed s s' I lba).
      + intros i Hi. by apply zero_entries.
    - rewrite upd_inode_ne by done. rewrite set_ptr_ne by naive_solver. by apply (ptrs_zeroed s s' I lba). }
  split; [|by rewrite HP, set_ptr_eq].
  apply (grows_attach K Q s I s' _ p bit); try done.
  - intros k Hk. by apply upd_inode_ne.
  - rewrite upd_inode_eq. unfold n'. by destruct p.
  - rewrite upd_inode_eq. intros _. by apply set_root_wf.
  - intros k q Hk Hq Hqt Hn. rewrite Hz by by apply (own_blk s I k q). by rewrite bool_decide_false by by apply Hf.
Qed.

Lemma grows_ext K Q s I s' I' I'' :
  inode_ix K → (∀ k, I'' k = I' k) → grows K Q s I s' I' → grows K Q s I s' I''.
Proof.
  intros HK E [A1 A2 A3 A4 A5 A6 A7 A8 A9 A10 A11 A12 A13].
  assert (∀ k p, ptrs_of s' I'' k p = ptrs_of s' I' k p) as EP by (intros k p; unfold ptrs_of; by rewrite E).
  split; try done.
  - eapply owned_ext; [|exact A2]. auto.
  - intros k Hk. rewrite E. by apply A6.
  - by rewrite E.
  - by rewrite E.
  - intros k p ???. rewrite EP. by apply A9.
  - intros k p ???. rewrite EP. by apply A10.
  - intros p ???. rewrite EP. by apply A11.
  - intros p ???. rewrite EP. by apply A13.
Qed.

(** [alloc_zeroed] and an entry of a pointer table. *)
Lemma attach_entry K Q s I pt idx :
  inode_ix K → is_table pt = true → pos_ok pt → ent_ix idx →
  (is_table (child pt idx) = false → Q (child pt idx)) → fs_ok s → own s I →
  ptrs_of s I K pt ≠ 0 → ptrs_of s I K (child pt idx) = 0 →
  let t := ptrs_of s I K pt in
  let I' := upd_inode I K (inc_block_count (I K)) in
  let '(lba, s') := alloc_zeroed s in
  if lba =? 0 then grows K (λ _, False) s I s' I ∧ (reliable (St := St) (Heap := Heap) → full s')
  else let '(ok, s'') := write_block s' t (set_entry (blk s t) idx lba) in
       ok = true ∧ grows K Q s I s'' I' ∧ ptrs_of s'' I' K (child pt idx) = lba.
Proof.
  intros HK Hpt Hptok Hidx HQ Hs Ho Ht0 H0. pose proof (alloc_zeroed_spec s Hs) as Ha. destruct (alloc_zeroed s) as [lba s2].
  cbn zeta. set (t := ptrs_of s I K pt) in *. set (I' := upd_inode I K _).
  destruct (Z.eqb_spec lba 0) as [->|Hl].
  { destruct Ha as [Hq Hf]. split; [by apply grows_quiet|done]. }
  destruct Ha as (bit & Hbit & -> & Ht & Hs2 & Hsec & Hm & Hz). change (zeroed_at s s2 (block_lba bit)) in Hz.
  pose proof (fresh_clear s I bit Hs Ho Hbit Ht) as Hf. set (lba := block_lba bit) in *.
  assert (data_block (g_super (fs_mnt s)) lba) as Hd by by exists bit.
  destruct (data_block_blk _ _ (fo_super _ Hs) Hd) as (Hlb & _ & _ & _ & Hu).
  destruct (own_blk s I K pt Hs Ho HK Hptok Ht0) as (_ & Htb & _). fold t in Htb.
  assert (t ≠ lba) as Htl by by apply Hf.
  assert (blk s2 t = blk s t) as Et by (rewrite Hz by done; by rewrite bool_decide_false).
  assert (blk s2 lba = zeros_buf DUFS_BLOCK_SIZE) as Hzl by (rewrite Hz by done; by rewrite bool_decide_true).
  destruct (blk_len s t Hs Htb) as [Hlen Hby]. destruct (dufs_set_entry_ok (blk s t) idx lba Hlen Hby Hidx) as [Hlen' Hby'].
  pose proof (write_block_spec s2 t (set_entry (blk s t) idx lba) Hs2 Htb Hlen' Hby') as Hw.
  destruct (write_block s2 t _) as [ok s3]. destruct Hw as (-> & Hs3 & Hm3 & Hsec3 & Hblk). split; [done|].
  assert (∀ k q, inode_ix k → pos_ok q → ptrs_of s2 I k q = ptrs_of s I k q) as HP2.
  { intros k q Hk Hq. by apply (ptrs_zeroed s s2 I lba). }
  assert (∀ k q, inode_ix k → pos_ok q → ptrs_of s I k q = t → k = K ∧ q = pt) as Hinj.
  { intros k q Hk Hq E. destruct (ow_inj _ _ _ Ho K pt k q HK Hptok Hk Hq Ht0) as [-> ->]; [by rewrite E|done]. }
  assert (∀ k q, inode_ix k → pos_ok q → ptrs_of s3 I' k q = set_ptr (ptrs_of s I) K (child pt idx) lba k q) as HP.
  { intros k q Hk Hq. destruct (Z.eq_dec k K) as [->|Hne].
    - unfold ptrs_of at 1, I'. rewrite upd_inode_eq, ptr_inc.
      rewrite (ptr_set_entry (blk s2) (blk s3) (I K) pt t idx lba q); try done.
      + destruct (decide (q = child pt idx)) as [->|Hne]; [by rewrite bool_decide_true, set_ptr_eq|].
        rewrite bool_decide_false, set_ptr_ne by first [done|intros [_ ?]; done]. by apply HP2.
      + by apply (HP2 K pt).
      + by rewrite Et.
      + rewrite <-H0. unfold ptrs_of. rewrite ptr_child by done. fold (ptrs_of s I K pt). fold t. unfold ptr1.
        rewrite (proj2 (Z.eqb_neq t 0)) by done. by rewrite Et.
      + intros j Hj. by apply zero_entries.
      + intros x Hx _ E. apply (Hinj K x HK Hx). rewrite <-HP2 by done. exact E.
      + rewrite Hblk, bool_decide_true by done. by rewrite Et.
      + intros b [->|(Hbt & Hb0 & x & Hx & _ & <-)].
        * by rewrite Hblk, bool_decide_false by done.
        * change (ptr (blk s2) (I K) x) with (ptrs_of s2 I K x) in *. rewrite HP2 in * by done.
          rewrite Hblk by by apply (own_blk s I K x). by rewrite bool_decide_false.
    - rewrite set_ptr_ne by naive_solver. rewrite <-HP2 by done.
      transitivity (ptrs_of s3 I k q); [unfold ptrs_of, I'; by rewrite upd_inode_ne|].
      apply (ptrs_frame s2 s3 I t); [|intros b Hb Hbt; rewrite Hblk by done; by rewrite bool_decide_false|done].
      intros x Hx _. rewrite HP2 by done. destruct (Z.eq_dec (ptrs_of s I k x) 0) as [|Hn]; [by left|right].
      split; [by apply (own_blk s I k x)|]. intros E. by destruct (Hinj k x). }
  assert (pos_ok (child pt idx)) as Hcok by by apply child_ok.
  split; [|by rewrite HP, set_ptr_eq].
  apply (grows_attach K Q s I s3 I' (child pt idx) bit); try done.
  - intros x Hx. by rewrite Hsec3, Hsec.
  - by rewrite Hm3.
  - intros k Hk. by apply upd_inode_ne.
  - unfold I'. by rewrite upd_inode_eq.
  - unfold I'. rewrite upd_inode_eq. intros []. split; cbn; auto using u32_range.
  - intros k q Hk Hq Hqt Hn. destruct (own_blk s I k q Hs Ho Hk Hq Hn) as (_ & Hb & _).
    rewrite Hblk, bool_decide_false by first [done|intros E; destruct (Hinj k q Hk Hq E) as [_ ->]; congruence].
    rewrite Hz, bool_decide_false by first [done|by apply Hf]. done.
  - intros _. by rewrite Hblk, bool_decide_false.
Qed.
End grow.

(** [c] blocks were added to the count, at least [l] and at most [m]. *)
Definition counted (l m : Z) n n' : Prop := ∃ c, l <= c <= m ∧ i_block_count n' = u32 (i_block_count n + c).

Lemma counted_refl n m : inode_wf n → 0 <= m → counted 0 m n n.
Proof. intros Hw Hm. exists 0. split; [lia|]. rewrite Z.add_0_r, u32_small; [done|apply Hw]. Qed.

Lemma counted_inc n l m : l <= 1 <= m → counted l m n (inc_block_count n).
Proof. intros Hm. by exists 1. Qed.

Lemma counted_root n p lba l m : l <= 1 <= m → counted l m n (inc_block_count (set_root p lba n)).
Proof. intros Hm. exists 1. split; [lia|by destruct p]. Qed.

Lemma counted_trans l1 l2 m1 m2 n1 n2 n3 : counted l1 m1 n1 n2 → counted l2 m2 n2 n3 → counted (l1 + l2) (m1 + m2) n1 n3.
Proof. intros (c1 & H1 & E1) (c2 & H2 & E2). exists (c1 + c2). split; [lia|]. rewrite E2, E1. unfold u32. zsolve. Qed.

Lemma counted_weaken l m l' m' n n' : l' <= l → m <= m' → counted l m n n' → counted l' m' n n'.
Proof. intros ?? (c & ? & ?). exists c. split; [lia|done]. Qed.

Section ensure.
Context {St : Type} {BS : BlockStore St} {Heap : Type} {KA : KAllocator Heap} {C : Type} {CK : Clock C}.
Context {SV : StoreView St} {BL : SureStoreLaws St dufs_blk dufs_sec}.
Implicit Types (s : fsys St Heap C) (n : dufs_inode) (I : Z → dufs_inode).

Notation rel := (reliable (St := St) (Heap := Heap)).

(** What ensuring the block at [p] gives: only growth, at data positions in [Q]
    only, and the pointer now at [p], or 0 when the disk is full or something
    failed; then no data block was added. *)
Definition ensures (m : Z) K Q s I p (r : Z * dufs_inode * fsys St Heap C) : Prop :=
  let '(lba, n, s') := r in
  grows K (λ q, lba ≠ 0 ∧ Q q) s I s' (upd_inode I K n) ∧
  counted (if bool_decide (is_table p = false ∧ lba ≠ 0 ∧ ptrs_of s I K p = 0) then 1 else 0) m (I K) n ∧
  if lba =? 0 then rel → full s' else ptrs_of s' (upd_inode I K n) K p = lba.

Lemma reliable_read s lba : rel → fs_ok s → dufs_blk lba → (read_block s lba).1 ≠ None.
Proof.
  intros (Hr & _) Hs Hb. specialize (Hr (fs_st s) lba (fo_st _ Hs) Hb). unfold read_block. rewrite (fo_dev _ Hs).
  by destruct (bs_read _ _ _).
Qed.

Lemma reliable_malloc s : rel → (fs_malloc s DUFS_BLOCK_SIZE).1 ≠ 0.
Proof. intros (_ & _ & Hm). specialize (Hm (fs_hp s)). unfold fs_malloc. by destruct (ka_malloc _ _). Qed.

Lemma reliable_inode s k : rel → fs_ok s → inode_ix k → (inode_read s k).1 ≠ None.
Proof.
  intros (_ & Hr & _) Hs Hk. unfold inode_read. rewrite (table_sector s k Hs Hk), (fo_dev _ Hs).
  specialize (Hr (fs_st s) _ (fo_st _ Hs) (proj1 (inode_sector k Hk))). by destruct (sec_read _ _ _) as [[]].
Qed.

Lemma grows_self K Q s I s' I' : inode_ix K → fs_ok s → own s I → quiet s s' → (∀ k, I' k = I k) → grows K Q s I s' I'.
Proof. intros. apply (grows_ext _ _ _ _ _ I); [done|done|]. by apply grows_quiet. Qed.

(** One more step after growth. *)
Lemma ensures_after m1 m K Q s I s1 I1 p r :
  inode_ix K → pos_ok p → grows K (λ _, False) s I s1 I1 → counted 0 m1 (I K) (I1 K) →
  ensures m K Q s1 I1 p r → ensures (m1 + m) K Q s I p r.
Proof.
  intros HK Hpos H1 Hc1. destruct r as [[lba n] s']. intros (H2 & Hc & Hp).
  assert (∀ k, upd_inode I K n k = upd_inode I1 K n k) as E.
  { intros k. unfold upd_inode. destruct (Z.eqb_spec k K); [done|]. by rewrite (gr_other _ _ _ _ _ _ H1). }
  split; [|split].
  - apply (grows_ext _ _ _ _ _ _ _ HK E). eapply grows_trans; [done| |exact H2]. by apply (grows_weaken K (λ _, False)).
  - pose proof (counted_trans _ _ _ _ _ _ _ Hc1 Hc) as H. eapply counted_weaken; [| |exact H]; [|lia].
    destruct (decide (is_table p = false ∧ lba ≠ 0 ∧ ptrs_of s I K p = 0)) as [Hx|Hx].
    + rewrite (bool_decide_true _ Hx). destruct Hx as (Hd & Hl & H0). rewrite bool_decide_true; [lia|].
      split; [done|]. split; [done|]. rewrite (gr_only _ _ _ _ _ _ H1); auto.
    + rewrite (bool_decide_false _ Hx). case_bool_decide; lia.
  - destruct (lba =? 0); [done|]. unfold ptrs_of in *. by rewrite E.
Qed.

Lemma ensures_quiet m K Q s I p lba n s1 s2 :
  inode_ix K → ensures m K Q s I p (lba, n, s1) → pos_ok p → quiet s1 s2 → ensures m K Q s I p (lba, n, s2).
Proof.
  intros HK (H1 & Hc & Hp) Hpos Hq. split; [|split; [done|]].
  - eapply grows_trans; [done|exact H1|]. apply grows_quiet; [done|apply H1|apply H1|done].
  - destruct (lba =? 0).
    + intros Hr b. unfold full, bm in *. rewrite (qu_mnt _ _ Hq). by apply Hp.
    + rewrite (ptrs_quiet s1 s2); [done|apply H1|apply H1|done|done|done].
Qed.

Lemma ensures_weaken m m' K Q s I p r : m <= m' → ensures m K Q s I p r → ensures m' K Q s I p r.
Proof. destruct r as [[lba n] s']. intros Hm (H1 & Hc & H2). split; [done|]. split; [|done]. eapply counted_weaken; [| |exact Hc]; lia. Qed.

(** Nothing was added. *)
Lemma ensures_none m K Q s I p s' :
  inode_ix K → 0 <= m → inode_wf (I K) → grows K (λ _, False) s I s' I → (rel → full s') → ensures m K Q s I p (0, I K, s').
Proof.
  intros HK Hm Hw Hg Hf. assert (∀ k, upd_inode I K (I K) k = I k) as Eid by (intros; apply upd_inode_id). split; [|split].
  - apply (grows_ext _ _ _ _ _ I); [done|done|]. by apply (grows_weaken K (λ _, False)).
  - rewrite bool_decide_false by naive_solver. by apply counted_refl.
  - done.
Qed.

Lemma ensure_in_spec K Q s I pt idx :
  inode_ix K → is_table pt = true → pos_ok pt → ent_ix idx →
  (is_table (child pt idx) = false → Q (child pt idx)) → fs_ok s → own s I → inode_wf (I K) → ptrs_of s I K pt ≠ 0 →
  ensures 1 K Q s I (child pt idx) (ensure_in s (I K) (ptrs_of s I K pt) idx).
Proof.
  intros HK Hpt Hptok Hidx HQ Hs Ho Hwf Ht0. unfold ensure_in.
  destruct (own_blk s I K pt Hs Ho HK Hptok Ht0) as (_ & Htb & _). set (t := ptrs_of s I K pt) in *.
  assert (∀ k, upd_inode I K (I K) k = I k) as Eid by (intros; apply upd_inode_id).
  pose proof (read_block_spec s t Hs Htb) as [Hq Hb]. pose proof (λ Hr, reliable_read s t Hr Hs Htb) as Hrel.
  destruct (read_block s t) as [[b|] s1]; cbn [fst snd] in Hq, Hb, Hrel.
  2:{ apply ensures_none; [done|lia|done|by apply grows_quiet|]. intros Hr. by destruct (Hrel Hr). }
  rewrite (Hb b eq_refl). clear b Hb Hrel.
  assert (ptrs_of s I K (child pt idx) = entry (blk s t) idx) as Ec.
  { unfold ptrs_of. rewrite ptr_child by done. fold (ptrs_of s I K pt). fold t. unfold ptr1. by rewrite (proj2 (Z.eqb_neq t 0)). }
  pose proof (child_ok pt idx Hpt Hptok Hidx) as Hcok.
  assert (own s1 I) as Ho1 by by eapply own_quiet.
  pose proof (ptrs_quiet s s1 I K (child pt idx) Hs Ho Hq HK Hcok) as Ec1.
  pose proof (ptrs_quiet s s1 I K pt Hs Ho Hq HK Hptok) as Et1. fold t in Et1.
  destruct (Z.eqb_spec (entry (blk s t) idx) 0) as [E0|Hn].
  - pose proof (attach_entry K Q s1 I pt idx HK Hpt Hptok Hidx HQ (qu_ok _ _ Hq) Ho1) as Ha.
    rewrite Et1 in Ha. specialize (Ha Ht0). rewrite Ec1, Ec in Ha. specialize (Ha E0). cbn zeta in Ha.
    rewrite (qu_blk _ _ Hq t Htb) in Ha.
    assert (∀ Q', grows K Q' s I s1 I) as Hg1 by (intros; by apply grows_quiet).
    destruct (alloc_zeroed s1) as [lba s2]. destruct (Z.eqb_spec lba 0) as [->|Hl].
    + destruct Ha as [Hg Hf]. apply ensures_none; [done|lia|done| |done]. by eapply grows_trans; [|apply Hg1|].
    + destruct (write_block s2 t _) as [ok s3]. destruct Ha as (-> & Hg & Hp). cbn [negb].
      split; [eapply grows_trans; [done|apply Hg1|]; eapply grows_weaken; [|exact Hg]; auto|].
      split; [apply counted_inc; case_bool_decide; lia|].
      by rewrite (proj2 (Z.eqb_neq lba 0)).
  - split; [by apply grows_self|]. split; [rewrite bool_decide_false by (rewrite Ec; naive_solver); by apply counted_refl|].
    rewrite (proj2 (Z.eqb_neq _ 0)) by done. unfold ptrs_of in *. rewrite upd_inode_id. by rewrite Ec1.
Qed.

(** The pointer table of an inode, allocated if there is none. *)
Definition root_ensure s n (p : pos) : bool * dufs_inode * fsys St Heap C :=
  if ptr (blk s) n p =? 0 then
    let '(lba, s) := alloc_zeroed s in
    if lba =? 0 then (false, n, s) else (true, inc_block_count (set_root p lba n), s)
  else (true, n, s).

Lemma root_ensure_spec K Q s I p :
  inode_ix K → is_root p = true → pos_ok p → (is_table p = false → Q p) → fs_ok s → own s I → inode_wf (I K) →
  let '(ok, n, s') := root_ensure s (I K) p in
  grows K Q s I s' (upd_inode I K n) ∧ counted 0 1 (I K) n ∧ if ok then ptrs_of s' (upd_inode I K n) K p ≠ 0 else rel → full s'.
Proof.
  intros HK Hr Hp HQ Hs Ho Hwf. assert (∀ k, upd_inode I K (I K) k = I k) as Eid by (intros; apply upd_inode_id).
  unfold root_ensure. destruct (Z.eqb_spec (ptr (blk s) (I K) p) 0) as [H0|Hn].
  - pose proof (attach_root K Q s I p HK Hr Hp HQ Hs Ho Hwf H0) as Ha. destruct (alloc_zeroed s) as [lba s1].
    destruct (Z.eqb_spec lba 0).
    + destruct Ha as [Hg Hf]. split; [|split; [by apply counted_refl|done]]. apply (grows_ext _ _ _ _ _ I); [done|done|]. by apply (grows_weaken K (λ _, False)).
    + destruct Ha as [Hg Hf]. split; [done|]. split; [|by rewrite Hf]. apply counted_root; lia.
  - split; [by apply grows_self; [..|apply quiet_refl|]|]. split; [by apply counted_refl|]. unfold ptrs_of. by rewrite upd_inode_id.
Qed.

(** [block_ensure] as steps at positions. *)
Definition table_ensure s n (root : pos) (f : fsys St Heap C → dufs_inode → Z * dufs_inode * fsys St Heap C) :
    Z * dufs_inode * fsys St Heap C :=
  let '(ok, n, s) := root_ensure s n root in
  if negb ok then (0, n, s)
  else let '(buf, s) := fs_malloc s DUFS_BLOCK_SIZE in
       if buf =? 0 then (0, n, s)
       else let '(result, n, s) := f s n in (result, n, fs_kfree s buf).

Lemma table_ensure_spec m K Q s I root p f :
  inode_ix K → 0 <= m → is_root root = true → is_table root = true → pos_ok root → pos_ok p → fs_ok s → own s I → inode_wf (I K) →
  (∀ s1 I1, fs_ok s1 → own s1 I1 → inode_wf (I1 K) → ptrs_of s1 I1 K root ≠ 0 → ensures m K Q s1 I1 p (f s1 (I1 K))) →
  ensures (1 + m) K Q s I p (table_ensure s (I K) root f).
Proof.
  intros HK Hm0 Hr Ht Hrok Hp Hs Ho Hwf Hf. unfold table_ensure.
  pose proof (root_ensure_spec K (λ _, False) s I root HK Hr Hrok ltac:(congruence) Hs Ho Hwf) as H1.
  destruct (root_ensure s (I K) root) as [[ok n1] s1]. destruct H1 as (Hg & Hc & H1).
  destruct ok; cbn [negb].
  2:{ split; [by apply (grows_weaken K (λ _, False))|]. split; [|done]. rewrite bool_decide_false by naive_solver.
      eapply counted_weaken; [| |exact Hc]; lia. }
  eapply ensures_after; [done|done|exact Hg|by rewrite upd_inode_eq|]. set (I1 := upd_inode I K n1) in *.
  assert (I1 K = n1) as EI by apply upd_inode_eq.
  pose proof (gr_ok _ _ _ _ _ _ Hg) as Hs1. pose proof (gr_own _ _ _ _ _ _ Hg) as Ho1.
  pose proof (malloc_quiet s1 DUFS_BLOCK_SIZE Hs1) as Hq. pose proof (reliable_malloc s1) as Hm.
  destruct (fs_malloc s1 DUFS_BLOCK_SIZE) as [buf s2]. cbn [fst snd] in *.
  assert (∀ k, upd_inode I1 K n1 k = I1 k) as Eid by (intros; rewrite <-EI; apply upd_inode_id).
  destruct (Z.eqb_spec buf 0) as [->|].
  - rewrite <-EI. apply ensures_none; [done|lia|by apply Hg|by apply grows_quiet|]. intros Hrel. by destruct (Hm Hrel).
  - rewrite <-EI. pose proof (Hf s2 I1 (qu_ok _ _ Hq) ltac:(by eapply own_quiet) ltac:(by apply Hg)) as H2.
    rewrite (ptrs_quiet s1 s2) in H2 by done. specialize (H2 H1).
    destruct (f s2 (I1 K)) as [[lba n3] s3].
    apply (ensures_quiet _ _ _ _ _ _ _ _ s3); [done| |done|apply kfree_quiet; apply H2].
    apply (ensures_after 0 m K Q s1 I1 s2 I1); [done|done|by apply grows_self|apply counted_refl; [by apply Hg|lia]|done].
Qed.

(** ** [block_ensure] *)

Lemma block_ensure_eq s n idx :
  0 <= idx →
  block_ensure s n idx =
    if idx <? 12 then
      if (i_direct n).[idx] =? 0 then
        let '(lba, s) := alloc_zeroed s in
        if lba =? 0 then (0, n, s) else (lba, inc_block_count (set_root (PDir idx) lba n), s)
      else ((i_direct n).[idx], n, s)
    else if idx <? 1036 then table_ensure s n PInd (λ s n, ensure_in s n (i_indirect n) (idx - 12))
    else if idx <? max_blocks then
      table_ensure s n PDbl (λ s n,
        let '(l1_lba, n, s) := ensure_in s n (i_double n) ((idx - 1036) / 1024) in
        if l1_lba =? 0 then (0, n, s) else ensure_in s n l1_lba ((idx - 1036) mod 1024))
    else (0, n, s).
Proof.
  intros Hi. unfold block_ensure, table_ensure, root_ensure, DUFS_DIRECT_BLOCKS, DUFS_INDIR_ENTRIES, max_blocks. cbn [ptr set_root].
  destruct (Z.ltb_spec idx 12); [done|]. destruct (Z.ltb_spec (idx - 12) 1024), (Z.ltb_spec idx 1036); try lia.
  - done.
  - change (2 ^ 20) with 1048576. change (1024 * 1024) with 1048576.
    replace (idx - 12 - 1024) with (idx - 1036) by lia.
    destruct (Z.ltb_spec (idx - 1036) 1048576), (Z.ltb_spec idx (1036 + 1048576)); try lia; [|done].
    destruct (i_double n =? 0).
    + destruct (alloc_zeroed s) as [lba s1]. destruct (lba =? 0); [done|]. cbn [negb].
      destruct (fs_malloc _ _) as [buf s2]. destruct (buf =? 0); [done|].
      destruct (ensure_in s2 _ _ _) as [[l1 n3] s3]. by destruct (l1 =? 0).
    + cbn [negb]. destruct (fs_malloc _ _) as [buf s2]. destruct (buf =? 0); [done|].
      destruct (ensure_in s2 _ _ _) as [[l1 n3] s3]. by destruct (l1 =? 0).
Qed.

Lemma block_ensure_spec K s I idx :
  inode_ix K → fs_ok s → own s I → inode_wf (I K) → 0 <= idx < max_blocks →
  ensures 3 K (λ q, q = data_pos idx) s I (data_pos idx) (block_ensure s (I K) idx).
Proof.
  intros HK Hs Ho Hwf Hi. destruct (data_pos_ok idx Hi) as [Hp Hd]. rewrite block_ensure_eq by lia.
  assert (∀ k, upd_inode I K (I K) k = I k) as Eid by (intros; apply upd_inode_id).
  unfold data_pos in *. destruct (Z.ltb_spec idx 12).
  - pose proof (attach_root K (λ q, q = PDir idx) s I (PDir idx) HK eq_refl Hp ltac:(done) Hs Ho Hwf) as Ha.
    unfold ptrs_of at 1 in Ha. cbn [ptr] in Ha.
    destruct (Z.eqb_spec (i_direct (I K)).[idx] 0) as [E0|Hn].
    + specialize (Ha E0). destruct (alloc_zeroed s) as [lba s1]. destruct (Z.eqb_spec lba 0) as [->|Hl].
      * destruct Ha as [Hg Hf]. apply ensures_none; [done|lia|done..].
      * destruct Ha as [Hg Hf]. split; [eapply grows_weaken; [|exact Hg]; auto|]. split; [apply counted_root; case_bool_decide; lia|].
        by rewrite (proj2 (Z.eqb_neq lba 0)).
    + split; [by apply grows_self; [..|apply quiet_refl|]|].
      split; [rewrite bool_decide_false by (unfold ptrs_of; cbn [ptr]; naive_solver); by apply counted_refl|].
      rewrite (proj2 (Z.eqb_neq _ 0)) by done. unfold ptrs_of. by rewrite upd_inode_id.
  - destruct (Z.ltb_spec idx 1036).
    + apply (ensures_weaken (1 + 1)); [lia|]. apply table_ensure_spec; try done. intros s1 I1 Hs1 Ho1 Hwf1 Ht.
      apply (ensure_in_spec K (λ q, q = PIndE (idx - 12)) s1 I1 PInd (idx - 12)); done.
    + rewrite (proj2 (Z.ltb_lt idx max_blocks)) by lia. destruct Hp as [Hi1 Hi2].
      apply (table_ensure_spec (1 + 1)); try done. intros s1 I1 Hs1 Ho1 Hwf1 Ht.
      pose proof (ensure_in_spec K (λ _, False) s1 I1 PDbl ((idx - 1036) / 1024)
        HK eq_refl Logic.I Hi1 ltac:(done) Hs1 Ho1 Hwf1 Ht) as H1.
      change (ptrs_of s1 I1 K PDbl) with (i_double (I1 K)) in H1.
      destruct (ensure_in s1 (I1 K) (i_double (I1 K)) _) as [[l1 n2] s2]. destruct H1 as (Hg & Hc & H1). cbn [child] in *.
      rewrite bool_decide_false in Hc by by intros [? _].
      apply (grows_weaken _ _ (λ _, False)) in Hg; [|by intros ? []].
      destruct (Z.eqb_spec l1 0) as [->|Hl].
      { split; [by apply (grows_weaken K (λ _, False))|]. split; [|done]. rewrite bool_decide_false by naive_solver.
        eapply counted_weaken; [| |exact Hc]; lia. }
      eapply ensures_after; [done|done|exact Hg|by rewrite upd_inode_eq|]. set (I2 := upd_inode I1 K n2) in *.
      replace n2 with (I2 K) by apply upd_inode_eq. rewrite <-H1.
      apply (ensure_in_spec K (λ q, q = PL2 ((idx - 1036) / 1024) ((idx - 1036) mod 1024)) s2 I2 (PL1 ((idx - 1036) / 1024))
        ((idx - 1036) mod 1024)); try done; [apply Hg|apply Hg|by apply Hg|by rewrite H1].
Qed.

(** ** [block_map] *)

Lemma block_map_spec K s I idx :
  inode_ix K → fs_ok s → own s I → 0 <= idx < max_blocks →
  let '(lba, s') := block_map s (I K) idx in
  quiet s s' ∧ (lba = ptrs_of s I K (data_pos idx) ∨ lba = 0 ∧ ¬ rel).
Proof.
  intros HK Hs Ho Hi. destruct (data_pos_ok idx Hi) as [Hp Hd]. unfold block_map, DUFS_DIRECT_BLOCKS, DUFS_INDIR_ENTRIES.
  unfold data_pos in *. destruct (Z.ltb_spec idx 12); [split; [by apply quiet_refl|by left]|].
  pose proof (malloc_quiet s DUFS_BLOCK_SIZE Hs) as Hq. pose proof (reliable_malloc s) as Hm.
  destruct (fs_malloc s DUFS_BLOCK_SIZE) as [buf s1]. cbn [fst snd] in *. destruct (Z.eqb_spec buf 0) as [->|_].
  { split; [done|]. right. split; [done|]. intros Hr. by destruct (Hm Hr). }
  assert (∀ t s1, quiet s s1 → pos_ok t → ptrs_of s I K t ≠ 0 → let '(r, s2) := read_block s1 (ptrs_of s I K t) in
    quiet s s2 ∧ (r = Some (blk s (ptrs_of s I K t)) ∨ r = None ∧ ¬ rel)) as Hread.
  { intros t s3 Hq3 Ht Hn. destruct (own_blk s I K t Hs Ho HK Ht Hn) as (_ & Hb & _).
    pose proof (read_block_spec s3 _ (qu_ok _ _ Hq3) Hb) as [Hq' Hv].
    pose proof (λ Hr, reliable_read s3 _ Hr (qu_ok _ _ Hq3) Hb) as Hr.
    destruct (read_block s3 _) as [r s4]. cbn [fst snd] in *. split; [by eapply quiet_trans|].
    destruct r as [b|]; [left|right]; [|split; [done|intros Hx; by destruct (Hr Hx)]].
    rewrite (Hv b eq_refl). by rewrite (qu_blk _ _ Hq3). }
  destruct (Z.ltb_spec (idx - 12) 1024), (Z.ltb_spec idx 1036); try lia.
  - pose proof (Hread PInd s1 Hq Logic.I) as Hr. change (ptrs_of s I K PInd) with (i_indirect (I K)) in Hr.
    unfold ptrs_of, ptr, ptr1. destruct (Z.eqb_spec (i_indirect (I K)) 0); [split; [|by left]; eapply quiet_trans; [exact Hq|apply kfree_quiet; apply Hq]|].
    specialize (Hr n). destruct (read_block s1 _) as [r s2]. destruct Hr as [Hq2 Hr].
    assert (quiet s (fs_kfree s2 buf)) by (eapply quiet_trans; [exact Hq2|apply kfree_quiet; apply Hq2]).
    destruct Hr as [->|[-> Hr]]; split; auto.
  - replace (idx - 12 - 1024) with (idx - 1036) by lia. change (1024 * 1024) with (2 ^ 20). unfold max_blocks in Hi.
    rewrite (proj2 (Z.ltb_lt (idx - 1036) (2 ^ 20))) by lia.
    pose proof (Hread PDbl s1 Hq Logic.I) as Hr. change (ptrs_of s I K PDbl) with (i_double (I K)) in Hr.
    unfold ptrs_of. cbn [ptr]. unfold ptr1 at 2. destruct (Z.eqb_spec (i_double (I K)) 0) as [_|Hn].
    { split; [|by left]. eapply quiet_trans; [exact Hq|apply kfree_quiet; apply Hq]. }
    specialize (Hr Hn). destruct (read_block s1 _) as [r s2]. destruct Hr as [Hq2 Hr].
    assert (quiet s (fs_kfree s2 buf)) as Hqf by (eapply quiet_trans; [exact Hq2|apply kfree_quiet; apply Hq2]).
    destruct Hr as [->|[-> Hr]]; [|split; auto].
    set (l1 := entry (blk s (i_double (I K))) ((idx - 1036) / 1024)).
    assert (ptrs_of s I K (PL1 ((idx - 1036) / 1024)) = l1) as El.
    { unfold ptrs_of. cbn [ptr]. unfold ptr1. by rewrite (proj2 (Z.eqb_neq _ 0)). }
    unfold ptr1. destruct (Z.eqb_spec l1 0) as [_|Hl]; [by split; [|left]|].
    pose proof (Hread (PL1 ((idx - 1036) / 1024)) s2 Hq2 (proj1 Hp)) as Hr. rewrite El in Hr. specialize (Hr Hl).
    destruct (read_block s2 _) as [r s3]. destruct Hr as [Hq3 Hr].
    assert (quiet s (fs_kfree s3 buf)) as Hqf3 by (eapply quiet_trans; [exact Hq3|apply kfree_quiet; apply Hq3]).
    destruct Hr as [->|[-> Hr]]; split; auto.
Qed.
End ensure.
