(* ===== verification/DufsWrite.v ===== *)
(** * DUFS: the loops of reading and writing

    What [read_loop] returns are the bytes of the file, in order; what
    [write_loop] changes are the bytes it reports. *)

From S2P Require Import Prelude Interfaces Bytes Dufs DufsSpec DufsGrow.

(** ** Offsets *)

Lemma off_split off i :
  0 <= off → 0 <= i → off mod 4096 + i < 4096 → (off + i) / 4096 = off / 4096 ∧ (off + i) mod 4096 = off mod 4096 + i.
Proof.
  intros Ho Hi Hl. pose proof (Z.div_mod off 4096 ltac:(lia)). pose proof (Z.mod_pos_bound off 4096 ltac:(lia)).
  split; symmetry; [apply Z.div_unique with (off mod 4096 + i)|apply Z.mod_unique with (off / 4096)]; lia.
Qed.

(** Rounds left when the transfer is at [cur] of [e]. *)
Definition rounds (cur e : Z) : Z := if cur <? e then (e - 1) / 4096 - cur / 4096 + 2 else 1.

Lemma rounds_io_fuel off count : 0 <= off → 0 <= count → rounds off (off + count) <= Z.of_nat (io_fuel count).
Proof.
  intros Ho Hc. unfold rounds, io_fuel, DUFS_BLOCK_SIZE. pose proof (Z.div_pos count 4096 Hc ltac:(lia)).
  destruct (Z.ltb_spec off (off + count)); [|lia].
  enough ((off + count - 1) / 4096 < off / 4096 + count / 4096 + 2) by lia. apply Z.div_lt_upper_bound; [lia|].
  pose proof (Z.mod_pos_bound off 4096 ltac:(lia)). pose proof (Z.div_mod off 4096 ltac:(lia)).
  pose proof (Z.mod_pos_bound count 4096 ltac:(lia)). pose proof (Z.div_mod count 4096 ltac:(lia)). lia.
Qed.

Lemma rounds_step cur e chunk :
  0 <= cur < e → chunk = Z.min (4096 - cur mod 4096) (e - cur) → 0 < chunk ∧ rounds (cur + chunk) e <= rounds cur e - 1.
Proof.
  intros Hc ->. pose proof (Z.mod_pos_bound cur 4096 ltac:(lia)). pose proof (Z.div_mod cur 4096 ltac:(lia)).
  split; [lia|]. unfold rounds. rewrite (proj2 (Z.ltb_lt cur e)) by lia.
  assert (cur / 4096 <= (e - 1) / 4096) by (apply Z.div_le_mono; lia).
  destruct (Z.ltb_spec (cur + Z.min (4096 - cur mod 4096) (e - cur)) e); [|lia].
  rewrite Z.min_l by lia. replace (cur + (4096 - cur mod 4096)) with ((cur / 4096 + 1) * 4096) by lia. rewrite Z.div_mul by lia. lia.
Qed.

(** [out] is what the file holds from [off] on. *)
Definition holds_at (B : Z → list Z) n (off : Z) (out : list Z) : Prop :=
  ∀ i, 0 <= i < blen out → fbyte B n (off + i) = Some out.[i].

Lemma app_at b c i : 0 <= i → (b ++ c).[i] = if i <? blen b then b.[i] else c.[i - blen b].
Proof.
  intros Hi. unfold arr_get, blen. rewrite !list_lookup_total_alt. f_equal. destruct (Z.ltb_spec i (Z.of_nat (length b))).
  - by rewrite lookup_app_l by lia.
  - rewrite lookup_app_r by lia. do 2 f_equal. lia.
Qed.

Lemma holds_app B n off a b : holds_at B n off a → holds_at B n (off + blen a) b → holds_at B n off (a ++ b).
Proof.
  intros Ha Hb i Hi. rewrite blen_app in Hi. rewrite app_at by lia. destruct (Z.ltb_spec i (blen a)); [apply Ha; lia|].
  rewrite <-(Hb (i - blen a)) by lia. f_equal. lia.
Qed.

Section read.
Context {St : Type} {BS : BlockStore St} {Heap : Type} {KA : KAllocator Heap} {C : Type} {CK : Clock C}.
Context {SV : StoreView St} {BL : SureStoreLaws St dufs_blk dufs_sec}.
Implicit Types (s : fsys St Heap C) (n : dufs_inode) (I : Z → dufs_inode).

Notation rel := (reliable (St := St) (Heap := Heap)).

Lemma fs_read_loop_spec s0 I K off count fuel s got :
  inode_ix K → fs_ok s0 → own s0 I → quiet s0 s → 0 <= off → 0 <= count → off + count < 2 ^ 32 →
  holds_at (blk s0) (I K) off got → blen got <= count → rounds (off + blen got) (off + count) <= Z.of_nat fuel →
  let '(r, s') := read_loop fuel s (I K) off count got in
  quiet s0 s' ∧
  ∃ out, r = inr out ∧ blen out <= count ∧ holds_at (blk s0) (I K) off out ∧
    (blen out < count → ¬ rel ∨ fbyte (blk s0) (I K) (off + blen out) = None).
Proof.
  intros HK Hs0 Ho Hq Hoff Hc Hlt. revert s got Hq. induction fuel as [|fuel IH]; intros s got Hq Hg Hle Hf.
  { pose proof (blen_nonneg got). exfalso. unfold rounds in Hf. destruct (Z.ltb_spec (off + blen got) (off + count)); [|lia].
    assert ((off + blen got) / 4096 <= (off + count - 1) / 4096) by (apply Z.div_le_mono; lia). lia. }
  pose proof (blen_nonneg got) as Hg0. cbn [read_loop]. destruct (Z.ltb_spec (blen got) count) as [Hlt'|].
  2:{ split; [done|]. exists got. split; [done|]. split; [lia|]. split; [done|lia]. }
  rewrite u32_small by (unfold is_u32; lia). unfold DUFS_BLOCK_SIZE. remember (off + blen got) as cur eqn:Ecur.
  assert (own s I) as Hos by by eapply own_quiet.
  pose proof (off_blocks cur ltac:(lia)) as Hix. destruct (data_pos_ok _ Hix) as [Hp _].
  pose proof (block_map_spec K s I (cur / 4096) HK (qu_ok _ _ Hq) Hos Hix) as Hm.
  rewrite (ptrs_quiet s0 s) in Hm by done.
  destruct (block_map s (I K) (cur / 4096)) as [lba s1]. destruct Hm as [Hq1 Hm].
  assert (quiet s0 s1) as Hq01 by by eapply quiet_trans.
  destruct (Z.eqb_spec lba 0) as [->|Hn].
  { split; [done|]. exists got. split; [done|]. split; [lia|]. split; [done|]. intros _. destruct Hm as [Hm|[_ Hm]]; [right|by left].
    unfold fbyte. rewrite <-Ecur. unfold ptrs_of in Hm. by rewrite <-Hm. }
  destruct Hm as [Hm|[? _]]; [|done].
  assert (ptrs_of s0 I K (data_pos (cur / 4096)) ≠ 0) as Hn' by by rewrite <-Hm.
  destruct (own_blk s0 I K _ Hs0 Ho HK Hp Hn') as (_ & Hb & _). rewrite <-Hm in Hb.
  pose proof (read_block_spec s1 lba (qu_ok _ _ Hq01) Hb) as [Hq2 Hv]. pose proof (λ Hr, reliable_read s1 lba Hr (qu_ok _ _ Hq01) Hb) as Hr.
  destruct (read_block s1 lba) as [[b|] s2]; cbn [fst snd] in *.
  2:{ split; [by eapply quiet_trans|]. exists got. split; [done|]. split; [lia|]. split; [done|]. intros _. left. intros Hx. by destruct (Hr Hx). }
  rewrite (Hv b eq_refl), (qu_blk _ _ Hq01 lba Hb). clear Hv Hr b.
  destruct (blk_len s0 lba Hs0 Hb) as [Hbl _].
  match goal with |- context [slice _ _ ?c0] => set (chunk := c0) end.
  assert (chunk = Z.min (4096 - cur mod 4096) (off + count - cur)) as Ec.
  { unfold chunk. destruct (Z.ltb_spec (4096 - cur mod 4096) (count - blen got)); lia. }
  destruct (rounds_step cur (off + count) chunk ltac:(lia) Ec) as [Hc0 Hrd].
  pose proof (Z.mod_pos_bound cur 4096 ltac:(lia)) as Hmb.
  assert (blen (slice (blk s0 lba) (cur mod 4096) chunk) = chunk) as Hsl by (apply blen_slice; unfold blen; lia).
  apply IH.
  - by eapply quiet_trans.
  - apply holds_app; [done|]. intros i Hi. rewrite Hsl in Hi. rewrite <-Ecur. rewrite slice_at by lia.
    destruct (off_split cur i ltac:(lia) ltac:(lia) ltac:(lia)) as [E1 E2]. unfold fbyte. rewrite E1, E2.
    unfold ptrs_of in Hm. rewrite <-Hm. by rewrite (proj2 (Z.eqb_neq lba 0)).
  - rewrite blen_app, Hsl. lia.
  - rewrite blen_app, Hsl. replace (off + (blen got + chunk)) with (cur + chunk) by lia. lia.
Qed.

(** A read gives bytes of the file and changes nothing. *)
Lemma fs_read_spec s k offset count rc out s' :
  fs_ok s → own s (dinode s) → inode_ix k → is_u32 offset → 0 <= count → offset + count < 2 ^ 32 →
  fs_read s k offset count = (rc, out, s') →
  let n := dinode s k in
  let want := Z.max 0 (Z.min count (i_size n - offset)) in
  quiet s s' ∧
  (rc = -1 ∧ out = [] ∧ ¬ rel ∨
   rc = s32 (blen out) ∧ blen out <= want ∧ holds_at (blk s) n offset out ∧
   (blen out < want → ¬ rel ∨ fbyte (blk s) n (offset + blen out) = None)).
Proof.
  intros Hs Ho Hk Hoff Hc Hlt. unfold fs_read. cbn zeta. set (n := dinode s k).
  assert (∀ w, w <= 0 → ((0, [], s) : Z * list Z * fsys St Heap C).1.1 = s32 0 ∧ blen [] <= Z.max 0 w ∧ holds_at (blk s) n offset [] ∧
     (blen [] < Z.max 0 w → ¬ rel ∨ fbyte (blk s) n (offset + blen []) = None)) as Hnil.
  { intros w Hw. change (blen []) with 0. repeat split; try lia. intros i. change (blen []) with 0. lia. }
  destruct (Z.eqb_spec count 0) as [->|Hc0].
  { intros [= <- <- <-]. split; [by apply quiet_refl|]. right. apply Hnil. lia. }
  pose proof (inode_read_spec s k Hs Hk) as [Hq Hv]. pose proof (λ Hr, reliable_inode s k Hr Hs Hk) as Hr.
  destruct (inode_read s k) as [[n'|] s1]; cbn [fst snd] in *.
  2:{ intros [= <- <- <-]. split; [done|]. left. split; [done|]. split; [done|]. intros Hx. by destruct (Hr Hx). }
  rewrite (Hv n' eq_refl). fold n. clear Hv Hr n'. pose proof (iw_size _ (dinode_wf s k Hs Hk)) as Hsz. fold n in Hsz.
  destruct (Z.leb_spec (i_size n) offset).
  { intros [= <- <- <-]. split; [done|]. right. apply Hnil. lia. }
  rewrite u32_small by (unfold is_u32 in *; lia).
  match goal with |- context [fs_malloc s1 _] => idtac end.
  set (c := if i_size n <? offset + count then i_size n - offset else count).
  assert (c = Z.max 0 (Z.min count (i_size n - offset))) as Ec.
  { unfold c. destruct (Z.ltb_spec (i_size n) (offset + count)); lia. }
  pose proof (malloc_quiet s1 DUFS_BLOCK_SIZE (qu_ok _ _ Hq)) as Hq2. pose proof (reliable_malloc s1) as Hm.
  destruct (fs_malloc s1 DUFS_BLOCK_SIZE) as [buf s2]. cbn [fst snd] in *.
  assert (quiet s s2) as Hq02 by by eapply quiet_trans. destruct (Z.eqb_spec buf 0) as [->|_].
  { intros [= <- <- <-]. split; [done|]. left. split; [done|]. split; [done|]. intros Hx. by destruct (Hm Hx). }
  unfold is_u32 in Hoff, Hsz.
  pose proof (fs_read_loop_spec s (dinode s) k offset c (io_fuel c) s2 [] Hk Hs Ho Hq02 ltac:(lia) ltac:(lia) ltac:(lia)
    ltac:(intros i; change (blen []) with 0; lia) ltac:(change (blen []) with 0; lia)
    ltac:(change (blen []) with 0; rewrite Z.add_0_r; apply rounds_io_fuel; lia)) as Hl.
  fold n in Hl. destruct (read_loop _ s2 n offset c []) as [r s3]. destruct Hl as [Hq3 (got & -> & Hle & Hh & Hend)].
  intros [= <- <- <-]. split; [eapply quiet_trans; [exact Hq3|apply kfree_quiet; apply Hq3]|]. right. rewrite <-Ec. auto.
Qed.
End read.

(** A byte that is not written stays, or a hole becomes a zero. *)
Definition same_or_zero (old new : option Z) : Prop := new = old ∨ old = None ∧ new = Some 0.

Lemma same_or_zero_trans a b c : same_or_zero a b → same_or_zero b c → same_or_zero a c.
Proof. unfold same_or_zero. intuition congruence. Qed.

(** The fields that writing does not touch. *)
Definition write_meta n n' : Prop :=
  i_type n' = i_type n ∧ i_link_count n' = i_link_count n ∧ i_atime n' = i_atime n ∧ i_pad n' = i_pad n.

Definition file_off (o : Z) : Prop := 0 <= o < 2 ^ 32.

Lemma ptr_set_size B n e p : ptr B (set_size e n) p = ptr B n p.
Proof. by destruct p. Qed.

Section write.
Context {St : Type} {BS : BlockStore St} {Heap : Type} {KA : KAllocator Heap} {C : Type} {CK : Clock C}.
Context {SV : StoreView St} {BL : SureStoreLaws St dufs_blk dufs_sec}.
Implicit Types (s : fsys St Heap C) (n : dufs_inode) (I : Z → dufs_inode).

Notation rel := (reliable (St := St) (Heap := Heap)).

(** The blocks and the inode of [K] alone have changed; it lost no block, and no
    byte of another file moved. *)
Record touched (K : Z) s0 I0 s I : Prop := {
  tc_ok : fs_ok s;
  tc_own : own s I;
  tc_sec : same_sectors s0 s;
  tc_mnt : ∃ b, fs_mnt s = set_block_bitmap b (fs_mnt s0);
  tc_other : ∀ k, k ≠ K → I k = I0 k;
  tc_wf : inode_wf (I K);
  tc_keep : ∀ p, pos_ok p → ptrs_of s0 I0 K p ≠ 0 → ptrs_of s I K p = ptrs_of s0 I0 K p;
  tc_frame : ∀ k o, inode_ix k → k ≠ K → file_off o → fbyte (blk s) (I k) o = fbyte (blk s0) (I0 k) o;
}.

Record wrote (K lo hi : Z) (buf : list Z) s0 I0 s I : Prop := {
  wr_touched : touched K s0 I0 s I;
  wr_meta : write_meta (I0 K) (I K) ∧ i_mtime (I K) = i_mtime (I0 K);
  wr_size : i_size (I K) = if hi =? lo then i_size (I0 K) else Z.max (i_size (I0 K)) hi;
  wr_bytes : ∀ o, file_off o →
    if (lo <=? o) && (o <? hi) then fbyte (blk s) (I K) o = Some buf.[o - lo]
    else same_or_zero (fbyte (blk s0) (I0 K) o) (fbyte (blk s) (I K) o);
}.

Lemma wr_ok K lo hi buf s0 I0 s I : wrote K lo hi buf s0 I0 s I → fs_ok s.
Proof. intros H. apply H. Qed.
Lemma wr_own K lo hi buf s0 I0 s I : wrote K lo hi buf s0 I0 s I → own s I.
Proof. intros H. apply H. Qed.
Lemma wr_wf K lo hi buf s0 I0 s I : wrote K lo hi buf s0 I0 s I → inode_wf (I K).
Proof. intros H. apply H. Qed.

Lemma data_pos_off o : file_off o → pos_ok (data_pos (o / 4096)) ∧ is_table (data_pos (o / 4096)) = false.
Proof. intros Ho. apply data_pos_ok. by apply off_blocks. Qed.

Lemma fbyte_ptrs s I k o : fbyte (blk s) (I k) o =
  (let lba := ptrs_of s I k (data_pos (o / 4096)) in if lba =? 0 then None else Some (blk s lba).[o mod 4096]).
Proof. done. Qed.

Lemma fbyte_grows K Q s I s' I' k o :
  inode_ix K → grows K Q s I s' I' → inode_ix k → file_off o →
  (k ≠ K → fbyte (blk s') (I' k) o = fbyte (blk s) (I k) o) ∧
  (fbyte (blk s) (I k) o ≠ None → fbyte (blk s') (I' k) o = fbyte (blk s) (I k) o) ∧
  (k = K → same_or_zero (fbyte (blk s) (I k) o) (fbyte (blk s') (I' k) o)).
Proof.
  intros HK Hg Hk Ho. destruct (data_pos_off o Ho) as [Hp Hd]. rewrite !fbyte_ptrs. cbn zeta.
  set (p := data_pos (o / 4096)) in *.
  destruct (Z.eqb_spec (ptrs_of s I k p) 0) as [E0|Hn].
  - split; [|split; [done|]].
    + intros Hne. by rewrite (gr_frame _ _ _ _ _ _ Hg), E0.
    + intros ->. destruct (Z.eqb_spec (ptrs_of s' I' K p) 0) as [|Hn']; [by left|]. right. split; [done|].
      rewrite (gr_new _ _ _ _ _ _ Hg p Hp Hd E0 Hn'). unfold DUFS_BLOCK_SIZE. rewrite zeros_at; [done|]. apply Z.mod_pos_bound. lia.
  - rewrite (gr_keep _ _ _ _ _ _ Hg k p Hk Hp Hn). rewrite (proj2 (Z.eqb_neq _ 0)) by done.
    rewrite (gr_data _ _ _ _ _ _ Hg k p Hk Hp Hd Hn). split; [done|]. split; [done|]. by left.
Qed.

Lemma touched_grows K Q s0 I0 s I s' I' :
  inode_ix K → touched K s0 I0 s I → grows K Q s I s' I' → touched K s0 I0 s' I'.
Proof.
  intros HK [A1 A2 A3 [b A4] A5 A6 A9 A10] Hg. pose proof (λ k o, fbyte_grows K Q s I s' I' k o HK Hg) as Hb.
  destruct Hg as [B1 B2 B3 [b' B4] B5 B6 B7 B8 B9 B10 B11 B12 B13]. split; try done.
  - intros x Hx. by rewrite B3, A3.
  - exists b'. by rewrite B4, A4.
  - intros k Hk. by rewrite B6, A5.
  - auto.
  - intros p Hp Hn. rewrite B9, A9; try done. by rewrite A9.
  - intros k o Hk Hne Ho. destruct (Hb k o Hk Ho) as [E _]. by rewrite E, A10.
Qed.

Lemma wrote_grows K Q lo hi buf s0 I0 s I s' I' :
  inode_ix K → wrote K lo hi buf s0 I0 s I → grows K Q s I s' I' → wrote K lo hi buf s0 I0 s' I'.
Proof.
  intros HK [A0 A7 A8 A11] Hg. pose proof (λ o, fbyte_grows K Q s I s' I' K o HK Hg HK) as Hb.
  destruct (gr_meta _ _ _ _ _ _ Hg) as (T1 & T2 & T3 & T4 & T5 & T6).
  destruct A7 as [(M1 & M2 & M3 & M4) M5]. split.
  - by eapply touched_grows.
  - unfold write_meta. intuition congruence.
  - congruence.
  - intros o Ho. specialize (A11 o Ho). destruct (Hb o Ho) as (_ & E & Hz). destruct ((lo <=? o) && (o <? hi)).
    + rewrite E; [done|by rewrite A11].
    + eapply same_or_zero_trans; [exact A11|by apply Hz].
Qed.

(** Putting bytes into one data block of [K]. *)
Lemma data_write s I K idx (x : list Z) :
  inode_ix K → fs_ok s → own s I → 0 <= idx < max_blocks → ptrs_of s I K (data_pos idx) ≠ 0 → length x = 4096%nat → bytes x →
  let lba := ptrs_of s I K (data_pos idx) in
  let '(ok, s') := write_block s lba x in
  ok = true ∧ fs_ok s' ∧ own s' I ∧ same_sectors s s' ∧ fs_mnt s' = fs_mnt s ∧
  (∀ k p, inode_ix k → pos_ok p → ptrs_of s' I k p = ptrs_of s I k p) ∧
  (∀ k o, inode_ix k → file_off o → fbyte (blk s') (I k) o =
     if bool_decide (k = K ∧ o / 4096 = idx) then Some x.[o mod 4096] else fbyte (blk s) (I k) o).
Proof.
  intros HK Hs Ho Hi Hn Hl Hx lba. destruct (data_pos_ok idx Hi) as [Hp Hd].
  destruct (own_blk s I K _ Hs Ho HK Hp Hn) as (_ & Hb & _).
  pose proof (write_block_spec s lba x Hs Hb Hl Hx) as Hw. destruct (write_block s lba x) as [ok s'].
  destruct Hw as (-> & Hs' & Hm & Hsec & Hblk). split; [done|].
  assert (∀ k q, inode_ix k → pos_ok q → ptrs_of s I k q = lba → k = K ∧ q = data_pos idx) as Hinj.
  { intros k q Hk Hq E. destruct (ow_inj _ _ _ Ho K (data_pos idx) k q HK Hp Hk Hq Hn) as [-> ->]; [by rewrite E|done]. }
  assert (∀ k p, inode_ix k → pos_ok p → ptrs_of s' I k p = ptrs_of s I k p) as HP.
  { intros k p Hk Hpp. apply (ptrs_frame s s' I lba); [|intros b Hbb Hne; rewrite Hblk by done; by rewrite bool_decide_false|done].
    intros y Hy Hty. destruct (Z.eq_dec (ptrs_of s I k y) 0) as [|Hny]; [by left|right].
    split; [by apply (own_blk s I k y)|]. intros E. destruct (Hinj k y Hk Hy E) as [_ ->]. congruence. }
  split; [done|]. split; [unfold own, bm; rewrite Hm; by eapply owned_ext|]. do 3 (split; [done|]).
  intros k o Hk Hof. destruct (data_pos_off o Hof) as [Hpo Hdo]. rewrite !fbyte_ptrs. cbn zeta. rewrite HP by done.
  case_bool_decide as E.
  - destruct E as [-> ->]. rewrite (proj2 (Z.eqb_neq _ 0)) by done. fold lba. by rewrite Hblk, bool_decide_true.
  - destruct (Z.eqb_spec (ptrs_of s I k (data_pos (o / 4096))) 0) as [|Hny]; [done|].
    rewrite Hblk by by apply (own_blk s I k). rewrite bool_decide_false; [done|]. intros Elba.
    destruct (Hinj k _ Hk Hpo Elba) as [-> Eq]. apply E. split; [done|]. destruct Hof.
    apply data_pos_inj; [apply Z.div_pos; lia|lia|done].
Qed.

Lemma touched_data K s0 I0 s I idx x :
  inode_ix K → touched K s0 I0 s I → 0 <= idx < max_blocks → ptrs_of s I K (data_pos idx) ≠ 0 → length x = 4096%nat → bytes x →
  let '(ok, s') := write_block s (ptrs_of s I K (data_pos idx)) x in ok = true ∧ touched K s0 I0 s' I.
Proof.
  intros HK [A1 A2 A3 [b A4] A5 A6 A9 A10] Hi Hn Hl Hx. pose proof (data_write s I K idx x HK A1 A2 Hi Hn Hl Hx) as Hw. cbn zeta in Hw.
  destruct (write_block s _ x) as [ok s']. destruct Hw as (-> & Hs' & Ho' & Hsec & Hm & HP & HF). split; [done|]. split; try done.
  - intros y Hy. by rewrite Hsec, A3.
  - exists b. by rewrite Hm.
  - intros q Hq Hnq. rewrite HP by done. by apply A9.
  - intros k o Hk Hne Hof. rewrite HF by done. rewrite bool_decide_false by by intros [? _]. by apply A10.
Qed.

(** The inode changes in fields that are no pointers. *)
Lemma touched_inode K s0 I0 s I n :
  inode_ix K → touched K s0 I0 s I → inode_wf n → (∀ B p, ptr B n p = ptr B (I K) p) → touched K s0 I0 s (upd_inode I K n).
Proof.
  intros HK [A1 A2 A3 A4 A5 A6 A9 A10] Hw Hp.
  assert (∀ k p, ptrs_of s (upd_inode I K n) k p = ptrs_of s I k p) as HP.
  { intros k p. unfold ptrs_of. destruct (Z.eq_dec k K) as [->|]; [by rewrite upd_inode_eq, Hp|by rewrite upd_inode_ne]. }
  split; try done.
  - eapply owned_ext; [|exact A2]. auto.
  - intros k Hk. rewrite upd_inode_ne by done. auto.
  - by rewrite upd_inode_eq.
  - intros p Hpp Hn. rewrite HP. auto.
  - intros k o Hk Hne Hof. rewrite upd_inode_ne by done. auto.
Qed.

Definition grown n e : dufs_inode := if i_size n <? e then set_size e n else n.

Lemma ptr_grown B n e p : ptr B (grown n e) p = ptr B n p.
Proof. unfold grown. destruct (i_size n <? e); [apply ptr_set_size|done]. Qed.

Lemma ptrs_grown s I K e k p : ptrs_of s (upd_inode I K (grown (I K) e)) k p = ptrs_of s I k p.
Proof.
  unfold ptrs_of. destruct (Z.eq_dec k K) as [->|]; [by rewrite upd_inode_eq, ptr_grown|by rewrite upd_inode_ne].
Qed.

Lemma fbyte_grown s I K e k o :
  fbyte (blk s) (upd_inode I K (grown (I K) e) k) o = fbyte (blk s) (I k) o.
Proof. rewrite !fbyte_ptrs. by rewrite ptrs_grown. Qed.

Lemma wrote_step K lo hi buf s0 I0 s I chunk :
  inode_ix K → wrote K lo hi buf s0 I0 s I → 0 <= lo <= hi → 0 < chunk <= 4096 - hi mod 4096 → hi + chunk < 2 ^ 32 →
  hi - lo + chunk <= blen buf → bytes buf → ptrs_of s I K (data_pos (hi / 4096)) ≠ 0 →
  let lba := ptrs_of s I K (data_pos (hi / 4096)) in
  let '(ok, s') := write_block s lba (splice (blk s lba) (hi mod 4096) (slice buf (hi - lo) chunk)) in
  ok = true ∧ wrote K lo (hi + chunk) buf s0 I0 s' (upd_inode I K (grown (I K) (hi + chunk))).
Proof.
  intros HK Hw Hlo Hc Hlt Hlen Hby Hn lba. pose proof (off_blocks hi ltac:(lia)) as Hi. destruct (data_pos_ok _ Hi) as [Hp Hd].
  pose proof (wr_ok _ _ _ _ _ _ _ _ Hw) as Hs. pose proof (wr_own _ _ _ _ _ _ _ _ Hw) as Ho.
  destruct (own_blk s I K _ Hs Ho HK Hp Hn) as (_ & Hb & _). fold lba in Hb. destruct (blk_len s lba Hs Hb) as [Hbl Hbb].
  pose proof (Z.mod_pos_bound hi 4096 ltac:(lia)) as Hmb. pose proof (Z.div_mod hi 4096 ltac:(lia)) as Hdm.
  set (x := splice _ _ _). assert (blen (slice buf (hi - lo) chunk) = chunk) as Hsl by (apply blen_slice; lia).
  assert (blen x = 4096) as Hxl by (unfold x; rewrite blen_splice; unfold blen in *; lia).
  assert (length x = 4096%nat) as Hx4 by (unfold blen in Hxl; lia).
  pose proof (bytes_splice _ (hi mod 4096) _ Hbb (bytes_slice _ (hi - lo) chunk Hby)) as Hxb.
  pose proof (data_write s I K (hi / 4096) x HK Hs Ho Hi Hn Hx4 Hxb) as Hdw.
  pose proof (touched_data K s0 I0 s I (hi / 4096) x HK (wr_touched _ _ _ _ _ _ _ _ Hw) Hi Hn Hx4 Hxb) as Ht.
  cbn zeta in Hdw. fold lba in Hdw, Ht. destruct (write_block s lba x) as [ok s'].
  destruct Hdw as (-> & Hs' & Ho' & Hsec & Hm & HP & HF). destruct Ht as [_ Ht]. split; [done|].
  destruct Hw as [A0 [[A7 A7'] A7''] A8 A11]. split.
  - apply touched_inode; [done|done| |intros; apply ptr_grown].
    pose proof (tc_wf _ _ _ _ _ A0) as A6. unfold grown. destruct (i_size (I K) <? hi + chunk); [|done]. destruct A6. split; cbn; try done. unfold is_u32. lia.
  - rewrite upd_inode_eq. unfold grown. by destruct (i_size (I K) <? hi + chunk).
  - rewrite upd_inode_eq. rewrite (proj2 (Z.eqb_neq (hi + chunk) lo)) by lia. unfold grown.
    destruct (Z.ltb_spec (i_size (I K)) (hi + chunk)); cbn [i_size set_size]; destruct (Z.eqb_spec hi lo); lia.
  - intros o Hof. rewrite fbyte_grown, HF by done. specialize (A11 o Hof). unfold file_off in Hof.
    pose proof (Z.mod_pos_bound o 4096 ltac:(lia)) as Hom. pose proof (Z.div_mod o 4096 ltac:(lia)) as Hod.
    assert (o / 4096 = hi / 4096 → x.[o mod 4096] = if (hi <=? o) && (o <? hi + chunk) then buf.[o - lo] else (blk s lba).[o mod 4096]) as Hx.
    { intros E. unfold x. rewrite splice_at by (unfold blen in *; lia). rewrite Hsl.
      destruct (Z.leb_spec (hi mod 4096) (o mod 4096)), (Z.ltb_spec (o mod 4096) (hi mod 4096 + chunk)), (Z.leb_spec hi o), (Z.ltb_spec o (hi + chunk));
        cbn [andb]; try lia; try done. rewrite slice_at by lia. f_equal. lia. }
    assert (fbyte (blk s) (I K) o = if o / 4096 =? hi / 4096 then Some (blk s lba).[o mod 4096] else fbyte (blk s) (I K) o) as Hold.
    { destruct (Z.eqb_spec (o / 4096) (hi / 4096)) as [E|]; [|done]. rewrite fbyte_ptrs, E. cbn zeta. fold lba. by rewrite (proj2 (Z.eqb_neq lba 0)). }
    case_bool_decide as E.
    + destruct E as [_ E]. rewrite Hx by done. rewrite E, Z.eqb_refl in Hold. rewrite Hold in A11.
      destruct (Z.leb_spec lo o), (Z.ltb_spec o hi), (Z.leb_spec hi o), (Z.ltb_spec o (hi + chunk)); cbn [andb] in *; try lia; done.
    + assert (o / 4096 ≠ hi / 4096) as E' by naive_solver.
      assert (¬ (hi <= o < hi + chunk)) as Hout.
      { intros Hin. apply E'. replace o with (hi + (o - hi)) by lia. by apply off_split; lia. }
      destruct (Z.leb_spec lo o), (Z.ltb_spec o hi), (Z.ltb_spec o (hi + chunk)); cbn [andb] in *; try lia; done.
Qed.

Lemma write_loop_spec K off buf s0 I0 fuel s I written dirty :
  inode_ix K → 0 <= off → off + blen buf < 2 ^ 32 → bytes buf → 0 <= written <= blen buf →
  wrote K off (off + written) buf s0 I0 s I → (0 < written → dirty = true) →
  rounds (off + written) (off + blen buf) <= Z.of_nat fuel →
  let '(r, s') := write_loop fuel s (I K) off buf written dirty in
  ∃ w d I', r = Some (w, d, I' K) ∧ written <= w <= blen buf ∧ wrote K off (off + w) buf s0 I0 s' I' ∧
    (0 < w → d = true) ∧ (w < blen buf → rel → full s').
Proof.
  intros HK Hoff Hlt Hby. revert s I written dirty. induction fuel as [|fuel IH]; intros s I written dirty Hwr Hw Hd Hf.
  { exfalso. unfold rounds in Hf. destruct (Z.ltb_spec (off + written) (off + blen buf)); [|lia].
    assert ((off + written) / 4096 <= (off + blen buf - 1) / 4096) by (apply Z.div_le_mono; lia). lia. }
  cbn [write_loop]. destruct (Z.ltb_spec written (blen buf)) as [Hlt'|].
  2:{ exists written, dirty, I. split; [done|]. split; [lia|]. split; [done|]. split; [done|lia]. }
  rewrite (u32_small (off + written)) by (unfold is_u32; lia). unfold DUFS_BLOCK_SIZE. remember (off + written) as cur eqn:Ecur.
  pose proof (off_blocks cur ltac:(lia)) as Hix.
  pose proof (block_ensure_spec K s I (cur / 4096) HK (wr_ok _ _ _ _ _ _ _ _ Hw) (wr_own _ _ _ _ _ _ _ _ Hw) (wr_wf _ _ _ _ _ _ _ _ Hw) Hix) as He.
  destruct (block_ensure s (I K) (cur / 4096)) as [[lba n1] s1]. destruct He as (Hg & _ & Hl).
  apply (wrote_grows _ _ _ _ _ _ _ _ _ _ _ HK Hw) in Hg. set (I1 := upd_inode I K n1) in *. replace n1 with (I1 K) by apply upd_inode_eq.
  destruct (Z.eqb_spec lba 0) as [->|Hn].
  { exists written, dirty, I1. rewrite <-Ecur. split; [done|]. split; [lia|]. done. }
  destruct (data_pos_ok _ Hix) as [Hp _].
  assert (ptrs_of s1 I1 K (data_pos (cur / 4096)) ≠ 0) as Hn' by by rewrite Hl.
  pose proof (wr_ok _ _ _ _ _ _ _ _ Hg) as Hs1.
  destruct (own_blk s1 I1 K _ Hs1 (wr_own _ _ _ _ _ _ _ _ Hg) HK Hp Hn') as (_ & Hb & _). rewrite Hl in Hb.
  pose proof (read_block_spec s1 lba Hs1 Hb) as [Hq Hv]. pose proof (λ Hr, reliable_read s1 lba Hr Hs1 Hb) as Hr.
  destruct (read_block s1 lba) as [rb s2]; cbn [fst snd] in *.
  assert (wrote K off cur buf s0 I0 s2 I1) as Hw2.
  { eapply wrote_grows; [done|exact Hg|]. apply (grows_quiet K (λ _, True)); [done|done|apply Hg|done]. }
  destruct rb as [b|].
  2:{ exists written, true, I1. rewrite <-Ecur. split; [done|]. split; [lia|]. split; [done|]. split; [done|]. intros _ Hx. by destruct (Hr Hx). }
  rewrite (Hv b eq_refl). rewrite <-(qu_blk _ _ Hq lba Hb). clear Hv Hr b.
  match goal with |- context [slice buf written ?c0] => set (chunk := c0) end.
  assert (chunk = Z.min (4096 - cur mod 4096) (off + blen buf - cur)) as Ec.
  { unfold chunk. destruct (Z.ltb_spec (4096 - cur mod 4096) (blen buf - written)); lia. }
  destruct (rounds_step cur (off + blen buf) chunk ltac:(lia) Ec) as [Hc0 Hrd].
  assert (ptrs_of s2 I1 K (data_pos (cur / 4096)) = lba) as El2.
  { rewrite (ptrs_quiet s1 s2); [done|done|apply Hg|done|done|done]. }
  pose proof (wrote_step K off cur buf s0 I0 s2 I1 chunk HK Hw2 ltac:(lia) ltac:(lia) ltac:(lia) ltac:(lia) Hby) as Hst.
  cbn zeta in Hst. rewrite El2 in Hst. specialize (Hst Hn). replace (cur - off) with written in Hst by lia.
  destruct (write_block s2 lba _) as [ok s3]. destruct Hst as [-> Hw3]. cbn [negb].
  rewrite (u32_small (cur + chunk)) by (unfold is_u32; lia). rewrite (u32_small (written + chunk)) by (unfold is_u32; lia).
  set (I3 := upd_inode I1 K (grown (I1 K) (cur + chunk))) in *.
  replace (if i_size (I1 K) <? cur + chunk then set_size (cur + chunk) (I1 K) else I1 K) with (I3 K) by apply upd_inode_eq.
  assert (off + (written + chunk) = cur + chunk) as E3 by lia.
  pose proof (IH s3 I3 (written + chunk) true ltac:(lia) ltac:(by rewrite E3) ltac:(done) ltac:(rewrite E3; lia)) as H3.
  destruct (write_loop fuel s3 (I3 K) off buf (written + chunk) true) as [r s4].
  destruct H3 as (w & d & I4 & -> & Hle & H3). exists w, d, I4. split; [done|]. split; [lia|]. done.
Qed.
End write.
