(* ===== verification/DufsFile.v ===== *)
(** * DUFS: writing a file back, and clearing a range

    After the loop the inode goes to disk; [others_kept] is what every operation
    on one file leaves alone. *)

From S2P Require Import Prelude Interfaces Bytes Dufs DufsSpec DufsGrow DufsWrite.

Lemma owned_sub sb bm P P' :
  owned sb bm P → (∀ k p, inode_ix k → pos_ok p → P' k p = 0 ∨ P' k p = P k p) → owned sb bm P'.
Proof.
  intros [Hb Hi] Hs. split.
  - intros k p Hk Hp Hn. destruct (Hs k p Hk Hp) as [|E]; [done|]. rewrite E in *. by apply Hb.
  - intros k p k' p' Hk Hp Hk' Hp' Hn E. destruct (Hs k p Hk Hp) as [|E1]; [done|]. destruct (Hs k' p' Hk' Hp') as [E2|E2]; [congruence|].
    apply Hi; congruence.
Qed.

(** An inode whose own pointers are a part of another's, over the same blocks. *)
Lemma ptr_sub B n n' p :
  (∀ q, is_root q = true → pos_ok q → ptr B n q ≠ 0 → ptr B n' q = ptr B n q) → pos_ok p → ptr B n p = 0 ∨ ptr B n p = ptr B n' p.
Proof.
  intros Hr Hp.
  assert (∀ q, is_root q = true → pos_ok q → ptr B n q = 0 ∨ ptr B n q = ptr B n' q) as H1.
  { intros q Hq Hqok. destruct (Z.eq_dec (ptr B n q) 0) as [|Hn]; [by left|right]. by rewrite Hr. }
  assert (∀ a b i, a = 0 ∨ a = b → ptr1 B a i = 0 ∨ ptr1 B a i = ptr1 B b i) as H2.
  { intros a b i [->| ->]; [by left|by right]. }
  destruct p as [i| |i| |i|i j]; [by apply H1|by apply H1|..].
  - apply H2. by apply (H1 PInd).
  - by apply H1.
  - apply H2. by apply (H1 PDbl).
  - apply H2, H2. by apply (H1 PDbl).
Qed.

Lemma empty_range a o : (a <=? o) && (o <? a) = false.
Proof. destruct (Z.leb_spec a o), (Z.ltb_spec o a); cbn [andb]; lia || done. Qed.

Section write.
Context {St : Type} {BS : BlockStore St} {Heap : Type} {KA : KAllocator Heap} {C : Type} {CK : Clock C}.
Context {SV : StoreView St} {BL : SureStoreLaws St dufs_blk dufs_sec}.
Implicit Types (s : fsys St Heap C) (n : dufs_inode) (I : Z → dufs_inode).

Notation rel := (reliable (St := St) (Heap := Heap)).

Lemma wrote_refl K lo buf s I : inode_ix K → fs_ok s → own s I → inode_wf (I K) → wrote K lo lo buf s I s I.
Proof.
  intros HK Hs Ho Hwf. split; try done.
  - split; try done. exists (bm s). unfold bm. by destruct (fs_mnt s).
  - by rewrite Z.eqb_refl.
  - intros o Ho'. destruct (Z.leb_spec lo o), (Z.ltb_spec o lo); cbn [andb]; try lia; by left.
Qed.

Lemma wrote_quiet K lo hi buf s0 I0 s I s' :
  inode_ix K → wrote K lo hi buf s0 I0 s I → quiet s s' → wrote K lo hi buf s0 I0 s' I.
Proof.
  intros HK Hw Hq. eapply wrote_grows; [done|exact Hw|]. apply (grows_quiet K (λ _, True)); [done|by eapply wr_ok|by eapply wr_own|done].
Qed.

(** Pointers and bytes over the same blocks. *)
Lemma ptrs_same s s' I I' k p :
  fs_ok s → own s I → same_blocks s s' → I' k = I k → inode_ix k → pos_ok p → ptrs_of s' I' k p = ptrs_of s I k p.
Proof.
  intros Hs Ho Hb E Hk Hp. transitivity (ptrs_of s' I k p); [unfold ptrs_of; by rewrite E|].
  apply (ptrs_frame s s' I 0); [|auto|done]. intros x Hx _.
  destruct (Z.eq_dec (ptrs_of s I k x) 0) as [|Hn]; [by left|right]. split; [by apply (own_blk s I k x)|done].
Qed.

Lemma fbyte_same s s' I I' k o :
  fs_ok s → own s I → same_blocks s s' → I' k = I k → inode_ix k → file_off o →
  fbyte (blk s') (I' k) o = fbyte (blk s) (I k) o.
Proof.
  intros Hs Ho Hb E Hk Hof. destruct (data_pos_off o Hof) as [Hp _]. rewrite !fbyte_ptrs. cbn zeta.
  rewrite (ptrs_same s s' I I') by done. destruct (Z.eqb_spec (ptrs_of s I k (data_pos (o / 4096))) 0) as [|Hn]; [done|].
  rewrite Hb; [done|]. by apply (own_blk s I k).
Qed.

(** The block bitmap is no file's block. *)
Lemma flush_spec s I :
  fs_ok s → own s I →
  let s' := (flush_block_bitmap s).2 in
  fs_ok s' ∧ fs_mnt s' = fs_mnt s ∧ same_sectors s s' ∧ own s' I ∧ blk s' 10 = bm s ∧
  ∀ k o, inode_ix k → file_off o → fbyte (blk s') (I k) o = fbyte (blk s) (I k) o.
Proof.
  intros Hs Ho. unfold flush_block_bitmap. rewrite (so_bbm _ (fo_super _ Hs)).
  assert (dufs_blk 10) as H10 by (right; by left).
  pose proof (write_block_spec s 10 (g_block_bitmap (fs_mnt s)) Hs H10 (proj1 (fo_bbm _ Hs)) (proj2 (fo_bbm _ Hs))) as Hw.
  destruct (write_block s 10 _) as [ok s']. destruct Hw as (_ & Hs' & Hm & Hsec & Hblk). cbn [snd].
  assert (∀ k p, inode_ix k → pos_ok p → ptrs_of s I k p = 0 ∨ dufs_blk (ptrs_of s I k p) ∧ ptrs_of s I k p ≠ 10) as Hne.
  { intros k p Hk Hp. destruct (Z.eq_dec (ptrs_of s I k p) 0) as [|Hn]; [by left|right].
    destruct (own_blk s I k p Hs Ho Hk Hp Hn) as (Hd & Hb & _). split; [done|]. by apply (data_block_blk _ _ (fo_super _ Hs)). }
  assert (∀ k p, inode_ix k → pos_ok p → ptrs_of s' I k p = ptrs_of s I k p) as HP.
  { intros k p Hk Hp. apply (ptrs_frame s s' I 10); [auto| |done]. intros b Hb Hb10. rewrite Hblk by done. by rewrite bool_decide_false. }
  do 3 (split; [done|]). split; [unfold own, bm; rewrite Hm; by eapply owned_ext|]. split; [by rewrite Hblk, bool_decide_true|].
  intros k o Hk Hof. destruct (data_pos_off o Hof) as [Hp _]. rewrite !fbyte_ptrs. cbn zeta. rewrite HP by done.
  destruct (Z.eqb_spec (ptrs_of s I k (data_pos (o / 4096))) 0) as [|Hn]; [done|].
  destruct (Hne k _ Hk Hp) as [|[Hb H1]]; [done|]. by rewrite Hblk, bool_decide_false.
Qed.

(** What a write of [w] bytes of [buf] at [lo] did to the files. *)
Record file_written k lo w buf s s' : Prop := {
  fw_size : i_size (dinode s' k) = if w =? 0 then i_size (dinode s k) else Z.max (i_size (dinode s k)) (lo + w);
  fw_meta : write_meta (dinode s k) (dinode s' k);
  fw_bytes : ∀ o, file_off o →
    if (lo <=? o) && (o <? lo + w) then fbyte (blk s') (dinode s' k) o = Some buf.[o - lo]
    else same_or_zero (fbyte (blk s) (dinode s k) o) (fbyte (blk s') (dinode s' k) o);
}.

(** The file system is in order and no other file has changed. *)
Record others_kept k s s' : Prop := {
  ok_fs : fs_ok s';
  ok_own : own s' (dinode s');
  ok_inodes : ∀ j, inode_ix j → j ≠ k → dinode s' j = dinode s j;
  ok_bytes : ∀ j o, inode_ix j → j ≠ k → file_off o → fbyte (blk s') (dinode s' j) o = fbyte (blk s) (dinode s j) o;
}.

Lemma others_quiet k s s' : fs_ok s → own s (dinode s) → quiet s s' → others_kept k s s'.
Proof.
  intros Hs Ho Hq.
  assert (∀ j, inode_ix j → dinode s' j = dinode s j) as E by (intros; by apply dinode_quiet).
  split.
  - apply Hq.
  - unfold own, bm. rewrite (qu_mnt _ _ Hq). eapply owned_ext; [|exact Ho]. intros j p Hj Hp. apply ptrs_same; auto. apply Hq.
  - auto.
  - intros j o Hj Hne Hof. apply fbyte_same; auto. apply Hq.
Qed.

(** The inode is written back. *)
Lemma write_back_others k s s1 I n s2 ok :
  inode_ix k → fs_ok s → touched k s (dinode s) s1 I → inode_wf n → (∀ B p, ptr B n p = ptr B (I k) p) →
  inode_write s1 k n = (ok, s2) →
  others_kept k s s2 ∧ fs_mnt s2 = fs_mnt s1 ∧ (ok = false → ¬ rel) ∧ (ok = true → dinode s2 k = n) ∧ same_blocks s1 s2.
Proof.
  intros Hk Hs Ht Hwf Hpn E. pose proof (tc_ok _ _ _ _ _ Ht) as Hs1. pose proof (tc_own _ _ _ _ _ Ht) as Ho1.
  pose proof (inode_write_spec s1 k n Hs1 Hk Hwf) as Hi. rewrite E in Hi. destruct Hi as (Hs2 & Hm & Hblk & Hdi & Hok).
  assert (∀ j, inode_ix j → j ≠ k → dinode s2 j = dinode s j) as Hoth.
  { intros j Hj Hne. rewrite Hdi by done. rewrite (proj2 (Z.eqb_neq j k)) by done. rewrite andb_false_r.
    apply dinode_same; [apply Ht|done]. }
  assert (∀ j, inode_ix j → j ≠ k → dinode s2 j = I j) as HothI by (intros j Hj Hne; rewrite Hoth by done; symmetry; by apply Ht).
  assert (∀ p, pos_ok p → ptrs_of s2 I k p = ptrs_of s1 I k p) as HPk by (intros; by apply ptrs_same).
  split; [split|split; [done|split; [|split; [|done]]]].
  - done.
  - unfold own, bm. rewrite Hm. apply (owned_sub _ _ (ptrs_of s1 I)); [done|]. intros j p Hj Hp. destruct (Z.eq_dec j k) as [->|Hne].
    + rewrite <-HPk by done. unfold ptrs_of. rewrite Hdi, Z.eqb_refl, andb_true_r by done. destruct ok; [right; apply Hpn|].
      apply ptr_sub; [|done]. intros q Hq Hqok Hnz. pose proof (tc_keep _ _ _ _ _ Ht q Hqok) as Hkp.
      unfold ptrs_of in Hkp. rewrite (dinode_same s s1) in Hnz |- * by (done || apply Ht).
      destruct q; try done; cbn [ptr] in *; by apply Hkp.
    + right. by apply ptrs_same; auto.
  - done.
  - intros j o Hj Hne Hof. rewrite <-(tc_frame _ _ _ _ _ Ht j o) by done. apply fbyte_same; auto.
  - intros -> Hr. destruct Hok as [|Hok]; [done|]. by apply (reliable_inode s1 k Hr Hs1 Hk).
  - intros ->. rewrite Hdi by done. by rewrite Z.eqb_refl.
Qed.

(** The end of [fs_write]. *)
Lemma write_back k lo hi buf s s1 I n s2 ok :
  inode_ix k → fs_ok s → wrote k lo hi buf s (dinode s) s1 I → n = I k ∨ (∃ t, n = set_mtime (u32 t) (I k)) →
  inode_write s1 k n = (ok, s2) →
  others_kept k s s2 ∧ fs_mnt s2 = fs_mnt s1 ∧ (ok = false → ¬ rel) ∧ (ok = true → 0 <= lo <= hi → file_written k lo (hi - lo) buf s s2).
Proof.
  intros Hk Hs Hw Hn E.
  assert (inode_wf n) as Hwf.
  { pose proof (wr_wf _ _ _ _ _ _ _ _ Hw) as Hwf. destruct Hn as [->|[t ->]]; [done|]. destruct Hwf. split; cbn; auto using u32_range. }
  assert (∀ B p, ptr B n p = ptr B (I k) p) as Hpn by (intros B p; destruct Hn as [->|[t ->]]; by destruct p).
  destruct (write_back_others k s s1 I n s2 ok Hk Hs (wr_touched _ _ _ _ _ _ _ _ Hw) Hwf Hpn E) as (Hoth & Hm & Hbad & Hdi & Hblk).
  split; [done|]. split; [done|]. split; [done|]. intros Eok Hle. specialize (Hdi Eok).
  assert (∀ o, file_off o → fbyte (blk s2) (dinode s2 k) o = fbyte (blk s1) (I k) o) as Hf.
  { intros o Hof. rewrite <-(fbyte_same s1 s2 I I k o) by (done || apply Hw). rewrite Hdi. unfold fbyte. by rewrite Hpn. }
  destruct Hw as [_ [(M1 & M2 & M3 & M4) _] A8 A11]. split.
  - rewrite Hdi. replace (lo + (hi - lo)) with hi by lia. replace (hi - lo =? 0) with (hi =? lo).
    + rewrite <-A8. destruct Hn as [->|[t ->]]; done.
    + destruct (Z.eqb_spec hi lo), (Z.eqb_spec (hi - lo) 0); lia || done.
  - rewrite Hdi. unfold write_meta. destruct Hn as [->|[t ->]]; done.
  - intros o Hof. rewrite Hf by done. replace (lo + (hi - lo)) with hi by lia. by apply A11.
Qed.

(** A write puts the bytes it reports and touches nothing else. *)
Lemma fs_write_spec s k offset buf rc s' :
  fs_ok s → own s (dinode s) → inode_ix k → 0 <= offset → offset + blen buf < 2 ^ 32 → blen buf < 2 ^ 31 → bytes buf →
  fs_write s k offset buf = (rc, s') →
  others_kept k s s' ∧
  (rc = -1 ∧ ¬ rel ∨
   0 <= rc <= blen buf ∧ file_written k offset rc buf s s' ∧ (rc < blen buf → rel → full s') ∧
   (0 < rc → blk s' 10 = bm s')).
Proof.
  intros Hs Ho Hk Hoff Hlt Hsm Hby. pose proof (blen_nonneg buf) as Hb0. unfold fs_write.
  assert (∀ s', quiet s s' → file_written k offset 0 buf s s') as Hq0.
  { intros s1 Hq. assert (dinode s1 k = dinode s k) as E by by apply dinode_quiet. split; [by rewrite E|by rewrite E|].
    intros o Hof. rewrite (fbyte_same s s1 (dinode s)) by (done || apply Hq).
    destruct (Z.leb_spec offset o), (Z.ltb_spec o (offset + 0)); cbn [andb]; try lia; by left. }
  destruct (Z.eqb_spec (blen buf) 0) as [Eb|Hb].
  { intros [= <- <-]. split; [apply others_quiet; [done|done|by apply quiet_refl]|]. right. split; [lia|].
    split; [apply Hq0; by apply quiet_refl|]. split; lia. }
  pose proof (inode_read_spec s k Hs Hk) as [Hq Hv]. pose proof (λ Hr, reliable_inode s k Hr Hs Hk) as Hr.
  destruct (inode_read s k) as [[n|] s1]; cbn [fst snd] in *.
  2:{ intros [= <- <-]. split; [by apply others_quiet|]. left. split; [done|]. intros Hx. by destruct (Hr Hx). }
  rewrite (Hv n eq_refl). clear Hv Hr n.
  pose proof (malloc_quiet s1 DUFS_BLOCK_SIZE (qu_ok _ _ Hq)) as Hq2. pose proof (reliable_malloc s1) as Hm.
  destruct (fs_malloc s1 DUFS_BLOCK_SIZE) as [p s2]. cbn [fst snd] in *.
  assert (quiet s s2) as Hq02 by by eapply quiet_trans. destruct (Z.eqb_spec p 0) as [->|_].
  { intros [= <- <-]. split; [by apply others_quiet|]. left. split; [done|]. intros Hx. by destruct (Hm Hx). }
  assert (wrote k offset (offset + 0) buf s (dinode s) s2 (dinode s)) as Hw.
  { rewrite Z.add_0_r. eapply wrote_quiet; [done| |exact Hq02]. apply wrote_refl; auto. by apply dinode_wf. }
  pose proof (write_loop_spec k offset buf s (dinode s) (io_fuel (blen buf)) s2 (dinode s) 0 false Hk Hoff Hlt Hby ltac:(lia) Hw
    ltac:(lia) ltac:(rewrite Z.add_0_r; apply rounds_io_fuel; lia)) as Hl.
  destruct (write_loop _ s2 (dinode s k) offset buf 0 false) as [r s3].
  destruct Hl as (w & d & I & -> & Hle & Hw3 & Hd & Hfull).
  pose proof (kfree_quiet s3 p (wr_ok _ _ _ _ _ _ _ _ Hw3)) as Hqf.
  pose proof (wrote_quiet _ _ _ _ _ _ _ _ _ Hk Hw3 Hqf) as Hw4. set (s4 := fs_kfree s3 p) in *.
  assert (rel → w < blen buf → full s4) as Hfull4 by auto.
  destruct (if 0 <? w then _ else _) as [n s5] eqn:E5.
  assert (quiet s4 s5 ∧ (n = I k ∨ ∃ t, n = set_mtime (u32 t) (I k))) as [Hq5 Hn].
  { destruct (0 <? w).
    - pose proof (time_quiet s4 (wr_ok _ _ _ _ _ _ _ _ Hw4)) as Ht. unfold arch_time_unix_seconds in *. destruct (clock_seconds _).
      injection E5 as <- <-. split; [done|]. right. eauto.
    - injection E5 as <- <-. split; [apply quiet_refl; apply Hw4|by left]. }
  pose proof (wrote_quiet _ _ _ _ _ _ _ _ _ Hk Hw4 Hq5) as Hw5.
  destruct (inode_write s5 k n) as [ok s6] eqn:E6.
  destruct (write_back k offset (offset + w) buf s s5 I n s6 ok Hk Hs Hw5 Hn E6) as (Hoth & Hm6 & Hbad & Hgood).
  destruct ok; cbn [negb].
  2:{ intros [= <- <-]. split; [done|]. left. split; [done|]. by apply Hbad. }
  specialize (Hgood eq_refl ltac:(lia)). replace (offset + w - offset) with w in Hgood by lia.
  assert (bm s6 = bm s4) as Ebm by (unfold bm; by rewrite Hm6, (qu_mnt _ _ Hq5)).
  intros [= <- <-]. assert (s32 w = w) as -> by (unfold s32; rewrite Z.mod_small; lia). destruct d.
  - destruct (flush_spec s6 (dinode s6) (ok_fs _ _ _ Hoth) (ok_own _ _ _ Hoth)) as (F1 & F2 & F3 & F4 & F5 & F6).
    set (s7 := (flush_block_bitmap s6).2) in *.
    assert (∀ j, inode_ix j → dinode s7 j = dinode s6 j) as Ed by (intros; by apply dinode_same).
    assert (∀ j o, inode_ix j → file_off o → fbyte (blk s7) (dinode s7 j) o = fbyte (blk s6) (dinode s6 j) o) as Ef.
    { intros j o Hj Hof. rewrite Ed by done. by apply F6. }
    split.
    + destruct Hoth as [G1 G2 G3 G4]. split; [done| | |].
      * unfold own. eapply owned_ext; [|exact F4]. intros j q Hj Hq'. unfold ptrs_of. by rewrite Ed.
      * intros j Hj Hne. rewrite Ed by done. auto.
      * intros j o Hj Hne Hof. rewrite Ef by done. auto.
    + right. split; [lia|]. split; [|split].
      * destruct Hgood as [G1 G2 G3]. split; [by rewrite Ed|by rewrite Ed|]. intros o Hof. rewrite Ef by done. exact (G3 o Hof).
      * intros Hlt' Hx. unfold full, bm. rewrite F2. fold (bm s6). rewrite Ebm. rewrite Hm6, (qu_mnt _ _ Hq5). by apply Hfull4.
      * intros _. rewrite F5. unfold bm. by rewrite F2.
  - assert (w = 0) as -> by (destruct (Z.ltb_spec 0 w) as [Hx|]; [specialize (Hd Hx)|]; lia || done).
    split; [done|]. right. split; [lia|]. split; [done|]. split; [|lia].
    intros Hlt' Hx. unfold full. rewrite Ebm. rewrite Hm6, (qu_mnt _ _ Hq5). by apply Hfull4.
Qed.
End write.

Section file.
Context {St : Type} {BS : BlockStore St} {Heap : Type} {KA : KAllocator Heap} {C : Type} {CK : Clock C}.
Context {SV : StoreView St} {BL : SureStoreLaws St dufs_blk dufs_sec}.
Implicit Types (s : fsys St Heap C) (n : dufs_inode).

Notation rel := (reliable (St := St) (Heap := Heap)).

Lemma others_refl k s : fs_ok s → own s (dinode s) → others_kept k s s.
Proof. by split. Qed.

Lemma others_trans k s1 s2 s3 : others_kept k s1 s2 → others_kept k s2 s3 → others_kept k s1 s3.
Proof.
  intros [A1 A2 A3 A4] [B1 B2 B3 B4]. split; try done.
  - intros j Hj Hne. by rewrite B3, A3.
  - intros j o Hj Hne Ho. by rewrite B4, A4.
Qed.

(** The bytes of [[a, b)] are zero now, the others as before. *)
Record file_zeroed k a b s s' : Prop := {
  fz_others : others_kept k s s';
  fz_size : i_size (dinode s' k) = if b =? a then i_size (dinode s k) else Z.max (i_size (dinode s k)) b;
  fz_meta : write_meta (dinode s k) (dinode s' k);
  fz_bytes : ∀ o, file_off o →
    if (a <=? o) && (o <? b) then fbyte (blk s') (dinode s' k) o = Some 0
    else same_or_zero (fbyte (blk s) (dinode s k) o) (fbyte (blk s') (dinode s' k) o);
}.

Lemma file_zeroed_refl k a s : fs_ok s → own s (dinode s) → file_zeroed k a a s s.
Proof.
  intros Hs Ho. split; [by apply others_refl|by rewrite Z.eqb_refl|done|].
  intros o _. destruct (Z.leb_spec a o), (Z.ltb_spec o a); cbn [andb]; try lia; by left.
Qed.

Lemma file_zeroed_write k a b w s s1 s' :
  a <= b → 0 < w → file_zeroed k a b s s1 → others_kept k s1 s' → file_written k b w (zeros_buf w) s1 s' →
  file_zeroed k a (b + w) s s'.
Proof.
  intros Hab Hw [A1 A2 A3 A4] B1 [C1 C2 C3]. split.
  - by eapply others_trans.
  - rewrite C1, A2. rewrite (proj2 (Z.eqb_neq w 0)), (proj2 (Z.eqb_neq (b + w) a)) by lia. destruct (Z.eqb_spec b a); lia.
  - unfold write_meta in *. intuition congruence.
  - intros o Ho. specialize (A4 o Ho). specialize (C3 o Ho).
    destruct (Z.leb_spec a o), (Z.ltb_spec o b), (Z.leb_spec b o), (Z.ltb_spec o (b + w)); cbn [andb] in *; try lia.
    + rewrite A4 in C3. destruct C3 as [|[? _]]; done.
    + rewrite C3, zeros_at by lia. done.
    + by eapply same_or_zero_trans.
    + by eapply same_or_zero_trans.
Qed.

Lemma zero_loop_spec k e fuel s0 s a off :
  inode_ix k → 0 <= a <= off → off <= e → e < 2 ^ 32 → file_zeroed k a off s0 s → (e - off + 127) / 128 < Z.of_nat fuel →
  let '(r, s') := zero_loop fuel s k off e in
  ∃ ok, r = Some ok ∧ if ok then file_zeroed k a e s0 s'
                      else others_kept k s0 s' ∧ (rel → full s').
Proof.
  intros Hk Ha Hoff He. revert s off Ha Hoff. induction fuel as [|fuel IH]; intros s off Ha Hoff Hz Hf.
  { pose proof (Z.div_pos (e - off + 127) 128 ltac:(lia) ltac:(lia)). lia. }
  cbn [zero_loop]. destruct (Z.ltb_spec off e) as [Hlt|].
  2:{ assert (off = e) as -> by lia. by exists true. }
  set (chunk := if 128 <? e - off then 128 else e - off).
  assert (chunk = Z.min 128 (e - off)) as Ec by (unfold chunk; destruct (Z.ltb_spec 128 (e - off)); lia).
  destruct (fs_write s k off (zeros_buf chunk)) as [rc s1] eqn:E.
  assert (blen (zeros_buf chunk) = chunk) as El by (apply blen_zeros; lia).
  destruct (fs_write_spec s k off (zeros_buf chunk) rc s1 (ok_fs _ _ _ (fz_others _ _ _ _ _ Hz)) (ok_own _ _ _ (fz_others _ _ _ _ _ Hz)) Hk ltac:(lia)
    ltac:(lia) ltac:(lia) (bytes_zeros chunk) E) as [Ho Hw]. rewrite El in Hw.
  destruct (Z.eqb_spec rc chunk) as [->|Hne]; cbn [negb].
  - rewrite u32_small by (unfold is_u32; lia). destruct Hw as [[? _]|(Hr & Hw & _)]; [lia|].
    apply IH; [lia|lia| |].
    + apply (file_zeroed_write k a off chunk s0 s s1); [lia|lia|done|done|done].
    + destruct (Z.ltb_spec 128 (e - off)).
      * assert (chunk = 128) as -> by lia. replace (e - off + 127) with ((e - (off + 128) + 127) + 1 * 128) in Hf by lia.
        rewrite Z.div_add in Hf by lia. lia.
      * assert (chunk = e - off) as -> by lia. replace (e - (off + (e - off)) + 127) with 127 by lia.
        assert (1 <= (e - off + 127) / 128) by (apply Z.div_le_lower_bound; lia). change (127 / 128) with 0. lia.
  - exists false. split; [done|]. assert (others_kept k s0 s1) by (eapply others_trans; [apply Hz|done]).
    split; [done|]. intros Hr. destruct Hw as [[_ Hbad]|(Hle & _ & Hfull & _)]; [by destruct (Hbad Hr)|].
    apply Hfull; [lia|done].
Qed.

Lemma zero_range_spec s k start e :
  fs_ok s → own s (dinode s) → inode_ix k → 0 <= start → e < 2 ^ 32 → start < e →
  let '(ok, s') := fs_zero_range s k start e in
  if ok then file_zeroed k start e s s' else others_kept k s s' ∧ (rel → full s').
Proof.
  intros Hs Ho Hk Hst He Hlt. unfold fs_zero_range. rewrite (proj2 (Z.leb_gt e start)) by lia.
  pose proof (zero_loop_spec k e (Z.to_nat ((e - start) / 128 + 2)) s s start start Hk ltac:(lia) ltac:(lia) He
    (file_zeroed_refl k start s Hs Ho)) as Hl.
  assert ((e - start + 127) / 128 < Z.of_nat (Z.to_nat ((e - start) / 128 + 2))) as Hf.
  { pose proof (Z.div_pos (e - start) 128 ltac:(lia) ltac:(lia)). rewrite Z2Nat.id by lia. apply Z.div_lt_upper_bound; [lia|].
    pose proof (Z.mod_pos_bound (e - start) 128 ltac:(lia)). pose proof (Z.div_mod (e - start) 128 ltac:(lia)). lia. }
  specialize (Hl Hf). destruct (zero_loop _ _ _ _ _) as [r s']. destruct Hl as (ok & -> & Hok). cbn [default].
  by destruct ok.
Qed.

(** The inode alone is written: no pointer moves. *)
Lemma inode_meta_write s k n :
  fs_ok s → own s (dinode s) → inode_ix k → inode_wf n → (∀ B p, ptr B n p = ptr B (dinode s k) p) →
  let '(ok, s') := inode_write s k n in
  others_kept k s s' ∧ dinode s' k = (if ok then n else dinode s k) ∧ fs_mnt s' = fs_mnt s ∧ (ok = false → ¬ rel) ∧
  (∀ o, file_off o → fbyte (blk s') (dinode s' k) o = fbyte (blk s) (dinode s k) o) ∧
  (∀ p, pos_ok p → ptrs_of s' (dinode s') k p = ptrs_of s (dinode s) k p) ∧ same_blocks s s'.
Proof.
  intros Hs Ho Hk Hwf Hp. destruct (inode_write s k n) as [ok s'] eqn:E.
  assert (touched k s (dinode s) s (dinode s)) as Ht.
  { split; try done; [|by apply dinode_wf]. exists (bm s). unfold bm. by destruct (fs_mnt s). }
  destruct (write_back_others k s s (dinode s) n s' ok Hk Hs Ht Hwf Hp E) as (H1 & H2 & H3 & H4 & H5).
  pose proof (inode_write_spec s k n Hs Hk Hwf) as Hw. rewrite E in Hw. destruct Hw as (_ & _ & _ & Hd & _).
  assert (dinode s' k = if ok then n else dinode s k) as Hdk by (rewrite Hd by done; by rewrite Z.eqb_refl, andb_true_r).
  assert (∀ B p, ptr B (dinode s' k) p = ptr B (dinode s k) p) as Hpk by (intros; rewrite Hdk; by destruct ok).
  assert (∀ p, pos_ok p → ptrs_of s' (dinode s') k p = ptrs_of s (dinode s) k p) as HP.
  { intros p Hpp. rewrite <-(ptrs_same s s' (dinode s) (dinode s)) by done. unfold ptrs_of. apply Hpk. }
  do 4 (split; [done|]). split; [|done].
  intros o Hof. rewrite <-(fbyte_same s s' (dinode s) (dinode s) k o) by done. unfold fbyte. by rewrite Hpk.
Qed.
(** Truncating. *)
Lemma fs_truncate_spec s k size rc s' :
  fs_ok s → own s (dinode s) → inode_ix k → is_u32 size → fs_truncate s k size = (rc, s') →
  let n := dinode s k in
  others_kept k s s' ∧
  (rc = 0 ∧ i_type n = DUFS_TYPE_FILE ∧ i_size (dinode s' k) = size ∧ write_meta n (dinode s' k) ∧
   (∀ o, file_off o →
      if (Z.min (i_size n) size <=? o) && (o <? Z.max (i_size n) size) then fbyte (blk s') (dinode s' k) o = Some 0
      else same_or_zero (fbyte (blk s) n o) (fbyte (blk s') (dinode s' k) o)) ∨
   rc = -1 ∧ (i_type n = DUFS_TYPE_FILE → rel → full s')).
Proof.
  intros Hs Ho Hk Hsz. unfold fs_truncate. cbn zeta. pose proof (dinode_wf s k Hs Hk) as Hwf.
  pose proof (inode_read_spec s k Hs Hk) as [Hq Hv]. pose proof (λ Hr, reliable_inode s k Hr Hs Hk) as Hr.
  destruct (inode_read s k) as [[n|] s1]; cbn [fst snd] in *.
  2:{ intros [= <- <-]. split; [by apply others_quiet|]. right. split; [done|]. intros _ Hx. by destruct (Hr Hx). }
  rewrite (Hv n eq_refl) in *. clear Hv Hr n. pose proof (others_quiet k s s1 Hs Ho Hq) as Hk1. pose proof Hk1 as [A1 A2 _ _].
  assert (dinode s1 k = dinode s k) as Ed by by apply dinode_quiet.
  assert (∀ o, file_off o → fbyte (blk s1) (dinode s1 k) o = fbyte (blk s) (dinode s k) o) as Ef.
  { intros o Hof. apply fbyte_same; try done. apply Hq. }
  set (n := dinode s k) in *. pose proof (iw_size _ Hwf) as Hns. unfold is_u32 in *.
  destruct (Z.eqb_spec (i_type n) DUFS_TYPE_FILE) as [Ht|Ht]; cbn [negb].
  2:{ intros [= <- <-]. split; [done|]. by right. }
  destruct (Z.eqb_spec (i_size n) size) as [<-|Hne].
  { intros [= <- <-]. split; [done|]. left. rewrite Ed. do 4 (split; [done|]). intros o Hof. pose proof (Ef o Hof) as E. rewrite Ed in E. rewrite E.
    rewrite Z.min_id, Z.max_id, empty_range. left. reflexivity. }
  destruct (Z.ltb_spec (i_size n) size) as [Hlt|Hge].
  - pose proof (zero_range_spec s1 k (i_size n) size A1 A2 Hk ltac:(lia) ltac:(lia) Hlt) as Hz.
    destruct (fs_zero_range s1 k (i_size n) size) as [ok s2]. destruct ok; intros [= <- <-].
    + destruct Hz as [Z1 Z2 Z3 Z4]. split; [by eapply others_trans|]. left. split; [done|]. split; [done|].
      rewrite Ed in *. rewrite (proj2 (Z.eqb_neq size (i_size n))) in Z2 by done. split; [fold n in Z2; lia|]. split; [done|].
      intros o Hof. specialize (Z4 o Hof). rewrite (Ef o Hof) in Z4. by rewrite Z.min_l, Z.max_r by lia.
    + destruct Hz as [Z1 Z2]. split; [by eapply others_trans|]. by right.
  - pose proof (zero_range_spec s1 k size (i_size n) A1 A2 Hk ltac:(lia) ltac:(lia) ltac:(lia)) as Hz.
    destruct (fs_zero_range s1 k size (i_size n)) as [ok s2]. destruct ok; cbn [negb].
    2:{ intros [= <- <-]. destruct Hz as [Z1 Z2]. split; [by eapply others_trans|]. by right. }
    destruct Hz as [Z1 Z2 Z3 Z4]. rewrite Ed in *. fold n in Z2, Z3.
    assert (others_kept k s s2) as Hk2 by by eapply others_trans. pose proof Hk2 as [W1 W2 _ _].
    pose proof (inode_read_spec s2 k W1 Hk) as [Hq2 Hv]. pose proof (λ Hr, reliable_inode s2 k Hr W1 Hk) as Hr.
    destruct (inode_read s2 k) as [[n2|] s3]; cbn [fst snd] in *.
    2:{ intros [= <- <-]. split; [by eapply others_trans; [exact Hk2|apply others_quiet]|].
        right. split; [done|]. intros _ Hx. by destruct (Hr Hx). }
    rewrite (Hv n2 eq_refl). clear Hv Hr n2. pose proof (others_quiet k s2 s3 W1 W2 Hq2) as Hk3. pose proof Hk3 as [V1 V2 _ _].
    pose proof (time_quiet s3 V1) as Hqt. unfold arch_time_unix_seconds in *. destruct (clock_seconds (fs_clk s3)) as [t c]. cbn [snd] in Hqt.
    set (s4 := mk_fsys _ _ _ c) in *. pose proof (others_quiet k s3 s4 V1 V2 Hqt) as Hk4. pose proof Hk4 as [U1 U2 _ _].
    assert (dinode s4 k = dinode s2 k) as Ed4 by (rewrite (dinode_quiet s3 s4) by done; by apply dinode_quiet).
    assert (∀ o, file_off o → fbyte (blk s4) (dinode s4 k) o = fbyte (blk s2) (dinode s2 k) o) as Ef4.
    { intros o Hof. rewrite (fbyte_same s3 s4 (dinode s3)); [|done|done|apply Hqt|by apply dinode_quiet|done|done].
      apply fbyte_same; [done|done|apply Hq2|by apply dinode_quiet|done|done]. }
    set (n4 := set_mtime (u32 t) (set_size size (dinode s2 k))).
    assert (inode_wf n4) as Hwf4.
    { pose proof (dinode_wf s2 k W1 Hk) as []. split; cbn; try done. apply u32_range. }
    pose proof (inode_meta_write s4 k n4 U1 U2 Hk Hwf4 ltac:(intros B p; rewrite Ed4; by destruct p)) as Hw.
    destruct (inode_write s4 k n4) as [ok s5]. destruct Hw as (Hoth & Hd5 & _ & Hbad & Hf5 & _). intros [= <- <-].
    split; [eapply others_trans; [exact Hk2|]; eapply others_trans; [exact Hk3|]; by eapply others_trans|]. destruct ok.
    + left. split; [done|]. split; [done|]. rewrite Hd5. split; [done|]. split.
      * unfold write_meta in *. cbn. done.
      * intros o Hof. specialize (Z4 o Hof). rewrite <-Hd5, Hf5, Ef4 by done.
        rewrite (Ef o Hof) in Z4. by rewrite Z.min_r, Z.max_l by lia.
    + right. split; [done|]. intros _ Hx. by destruct (Hbad eq_refl).
Qed.
End file.
