(* ===== verification/DufsFree.v ===== *)
(** * DUFS: freeing the blocks of an inode

    [cleared] is what freeing does to the bitmap: the bits of a set of blocks
    go, all of them unless a read or an allocation fails, and nothing else
    changes. *)

From S2P Require Import Prelude Interfaces Bytes Dufs DufsSpec DufsGrow.

Section free.
Context {St : Type} {BS : BlockStore St} {Heap : Type} {KA : KAllocator Heap} {C : Type} {CK : Clock C}.
Context {SV : StoreView St} {BL : SureStoreLaws St dufs_blk dufs_sec}.
Implicit Types (s : fsys St Heap C) (n : dufs_inode) (I : Z → dufs_inode) (U : Z → Prop).

Notation rel := (reliable (St := St) (Heap := Heap)).

Record cleared s s' U : Prop := {
  cl_ok : fs_ok s';
  cl_mnt : ∃ b, fs_mnt s' = set_block_bitmap b (fs_mnt s);
  cl_blk : same_blocks s s';
  cl_sec : same_sectors s s';
  cl_bits : ∃ X : Z → Prop, (∀ l, X l → U l) ∧ (rel → ∀ l, U l → X l) ∧
    ∀ b, 0 <= b < 32768 → bmap_test (bm s') b = true ↔ bmap_test (bm s) b = true ∧ ¬ X (block_lba b);
}.

Lemma cleared_super s s' U : cleared s s' U → g_super (fs_mnt s') = g_super (fs_mnt s).
Proof. intros [_ [b ->] _ _ _]. done. Qed.

Lemma cleared_quiet s s' U : quiet s s' → (rel → ∀ l, ¬ U l) → cleared s s' U.
Proof.
  intros [H1 H2 H3 H4] HU. split; try done.
  - exists (bm s). rewrite H2. unfold bm. by destruct (fs_mnt s).
  - exists (λ _, False). split; [done|]. split; [intros Hr l Hl; by apply (HU Hr l)|]. intros b _. unfold bm. rewrite H2. tauto.
Qed.

Lemma cleared_trans s1 s2 s3 U1 U2 : cleared s1 s2 U1 → cleared s2 s3 U2 → cleared s1 s3 (λ l, U1 l ∨ U2 l).
Proof.
  intros [A1 [a A2] A3 A4 (X1 & A5 & A6 & A7)] [B1 [b B2] B3 B4 (X2 & B5 & B6 & B7)]. split; try done.
  - exists b. by rewrite B2, A2.
  - intros l Hl. by rewrite B3, A3.
  - intros x Hx. by rewrite B4, A4.
  - exists (λ l, X1 l ∨ X2 l). split; [intros l [|]; auto|]. split; [intros Hr l [|]; auto|].
    intros c Hc. rewrite B7, A7 by done. tauto.
Qed.

Lemma cleared_ext s s' U U' : (∀ l, U l ↔ U' l) → cleared s s' U → cleared s s' U'.
Proof.
  intros HU [A1 A2 A3 A4 (X & A5 & A6 & A7)]. split; try done. exists X. split; [intros l Hl; by apply HU, A5|].
  split; [intros Hr l Hl; by apply A6, HU|done].
Qed.

Lemma block_free_cleared s lba : fs_ok s → data_block (g_super (fs_mnt s)) lba → cleared s (block_free s lba) (λ l, l = lba).
Proof.
  intros Hs Hd. rewrite block_free_eq by done. destruct Hd as (bit & Hb & ->). rewrite bit_of_lba.
  pose proof (n_blocks_bound s Hs). split; try done.
  - apply with_bitmap_ok; [done|]. apply bmap_clr_ok, Hs.
  - by eexists.
  - exists (λ l, l = block_lba bit). split; [done|]. split; [done|]. intros b Hbb. unfold bm. cbn [fs_mnt with_mnt g_block_bitmap set_block_bitmap].
    rewrite bmap_test_clr by (apply Hs || lia). unfold block_lba.
    destruct (Z.eqb_spec b bit) as [->|]; cbn [negb andb]; split; intros Hx; [done|by destruct Hx|split; [done|lia]|apply Hx].
Qed.

Lemma cleared_loop s0 (n : nat) body (U : Z → Z → Prop) :
  fs_ok s0 →
  (∀ i s V, 0 <= i < Z.of_nat n → cleared s0 s V → cleared s (body i s) (U i)) →
  cleared s0 (for_loop 0 n body s0) (λ l, ∃ i, 0 <= i < Z.of_nat n ∧ U i l).
Proof.
  intros Hs Hstep.
  pose proof (for_loop_inv (λ k s, cleared s0 s (λ l, ∃ i, 0 <= i < k ∧ U i l)) body 0 n s0) as Hl.
  apply Hl.
  - intros k s Hk Hc. eapply cleared_ext; [|eapply cleared_trans; [exact Hc|eapply Hstep; [lia|exact Hc]]].
    intros l. split.
    + intros [(i & Hi & Hu)|Hu]; [exists i; split; [lia|done]|exists k; split; [lia|done]].
    + intros (i & Hi & Hu). destruct (Z.eq_dec i k) as [->|]; [by right|left; exists i; split; [lia|done]].
  - apply cleared_quiet; [by apply quiet_refl|]. intros _ l (i & Hi & _). lia.
Qed.

(** A table whose entries are empty or data blocks. *)
Lemma free_entries_cleared s b :
  fs_ok s → (∀ i, ent_ix i → entry b i ≠ 0 → data_block (g_super (fs_mnt s)) (entry b i)) →
  cleared s (free_entries s b) (λ l, l ≠ 0 ∧ ∃ i, ent_ix i ∧ entry b i = l).
Proof.
  intros Hs Hd. unfold free_entries.
  eapply cleared_ext; [|apply (cleared_loop s _ _ (λ i l, entry b i ≠ 0 ∧ l = entry b i)); [done|]].
  - intros l. unfold ent_ix, DUFS_INDIR_ENTRIES. split.
    + intros (i & Hi & Hn & ->). split; [done|]. exists i. split; [lia|done].
    + intros (Hn & i & Hi & <-). exists i. split; [lia|done].
  - intros i s1 V Hi Hc. assert (ent_ix i) as Hix by (unfold ent_ix, DUFS_INDIR_ENTRIES in *; lia).
    destruct (Z.eqb_spec (entry b i) 0); cbn [negb].
    + apply cleared_quiet; [apply quiet_refl; apply Hc|]. tauto.
    + eapply cleared_ext; [|apply block_free_cleared; [apply Hc|rewrite (cleared_super _ _ _ Hc); by apply Hd]]. tauto.
Qed.

(** Reading a block that is there, and freeing what it points to. *)
Lemma table_cleared s0 s V I K t (f : list Z → fsys St Heap C → fsys St Heap C) U :
  inode_ix K → fs_ok s0 → own s0 I → cleared s0 s V → pos_ok t → ptrs_of s0 I K t ≠ 0 →
  (∀ s1 W, cleared s0 s1 W → cleared s1 (f (blk s0 (ptrs_of s0 I K t)) s1) U) →
  cleared s (match read_block s (ptrs_of s0 I K t) with (Some b, s) => f b s | (None, s) => s end) U.
Proof.
  intros HK Hs Ho Hc Ht Hn Hf. destruct (own_blk s0 I K t Hs Ho HK Ht Hn) as (_ & Hb & _).
  pose proof (read_block_spec s _ (cl_ok _ _ _ Hc) Hb) as [Hq Hv]. pose proof (λ Hr, reliable_read s _ Hr (cl_ok _ _ _ Hc) Hb) as Hr.
  destruct (read_block s _) as [[b|] s1]; cbn [fst snd] in *.
  - rewrite (Hv b eq_refl), (cl_blk _ _ _ Hc) by done.
    assert (cleared s s1 (λ _, False)) as H1 by (apply cleared_quiet; [done|tauto]).
    eapply cleared_ext; [|eapply cleared_trans; [exact H1|eapply Hf; eapply cleared_trans; [exact Hc|exact H1]]]. tauto.
  - apply cleared_quiet; [done|]. intros Hx. by destruct (Hr Hx).
Qed.

Definition owns_block s I K (l : Z) : Prop := l ≠ 0 ∧ ∃ p, pos_ok p ∧ ptrs_of s I K p = l.

Lemma cleared_malloc s : fs_ok s → cleared s (fs_malloc s DUFS_BLOCK_SIZE).2 (λ _, False).
Proof. intros Hs. apply cleared_quiet; [by apply malloc_quiet|tauto]. Qed.

Lemma cleared_then s1 s2 s3 U : cleared s1 s2 (λ _, False) → cleared s2 s3 U → cleared s1 s3 U.
Proof. intros H1 H2. eapply cleared_ext; [|eapply cleared_trans; [exact H1|exact H2]]. tauto. Qed.

Lemma cleared_last s1 s2 s3 U : cleared s1 s2 U → quiet s2 s3 → cleared s1 s3 U.
Proof. intros H1 H2. eapply cleared_ext; [|eapply cleared_trans; [exact H1|apply (cleared_quiet _ _ (λ _, False)); [exact H2|tauto]]]. tauto. Qed.

(** The entries of the table at [t]. *)
Lemma entries_owned s I K t i :
  fs_ok s → own s I → inode_ix K → pos_ok t → is_table t = true → ptrs_of s I K t ≠ 0 → ent_ix i →
  entry (blk s (ptrs_of s I K t)) i = ptrs_of s I K (child t i) ∧
  (entry (blk s (ptrs_of s I K t)) i ≠ 0 → data_block (g_super (fs_mnt s)) (entry (blk s (ptrs_of s I K t)) i)).
Proof.
  intros Hs Ho HK Hp Ht Hn Hi.
  assert (ptrs_of s I K (child t i) = entry (blk s (ptrs_of s I K t)) i) as E.
  { unfold ptrs_of. rewrite ptr_child by done. unfold ptr1. fold (ptrs_of s I K t). by rewrite (proj2 (Z.eqb_neq _ 0)). }
  split; [done|]. rewrite <-E. intros Hx. by apply (own_blk s I K (child t i)); [..|apply child_ok|].
Qed.

(** What a table and everything below it holds. *)
Definition below s I K (t : pos) (l : Z) : Prop :=
  ptrs_of s I K t ≠ 0 ∧ (l = ptrs_of s I K t ∨ l ≠ 0 ∧ ∃ i, ent_ix i ∧
    (ptrs_of s I K (child t i) = l ∨
     is_table (child t i) = true ∧ ∃ j, ent_ix j ∧ ptrs_of s I K (child (child t i) j) = l)).

Lemma free_entries_at s0 s V I K t :
  fs_ok s0 → own s0 I → inode_ix K → cleared s0 s V → pos_ok t → is_table t = true → ptrs_of s0 I K t ≠ 0 →
  cleared s (free_entries s (blk s0 (ptrs_of s0 I K t))) (λ l, l ≠ 0 ∧ ∃ i, ent_ix i ∧ ptrs_of s0 I K (child t i) = l).
Proof.
  intros Hs Ho HK Hc Hp Ht Hn. eapply cleared_ext; [|apply free_entries_cleared; [apply Hc|]].
  - intros l. split; intros (Hl & i & Hi & E); (split; [done|exists i; split; [done|]]);
      destruct (entries_owned s0 I K t i Hs Ho HK Hp Ht Hn Hi) as [Ei _]; congruence.
  - intros i Hi. rewrite (cleared_super _ _ _ Hc). by apply (entries_owned s0 I K t i).
Qed.

Lemma free_table s0 s V I K t (f : list Z → fsys St Heap C → fsys St Heap C) U :
  fs_ok s0 → own s0 I → inode_ix K → cleared s0 s V → pos_ok t → ptrs_of s0 I K t ≠ 0 →
  cleared s (f (blk s0 (ptrs_of s0 I K t)) s) U → cleared s (block_free (f (blk s0 (ptrs_of s0 I K t)) s) (ptrs_of s0 I K t)) (λ l, U l ∨ l = ptrs_of s0 I K t).
Proof.
  intros Hs Ho HK Hc Hp Hn Hf. eapply cleared_trans; [exact Hf|]. apply block_free_cleared; [apply Hf|].
  rewrite (cleared_super _ _ _ Hf), (cleared_super _ _ _ Hc). by apply (own_blk s0 I K t).
Qed.

Lemma free_direct s0 I K :
  fs_ok s0 → own s0 I → inode_ix K → length (i_direct (I K)) = 12%nat →
  let '(direct, s) :=
    for_loop 0 (Z.to_nat DUFS_DIRECT_BLOCKS)
      (λ i '(direct, s), if negb (direct.[i] =? 0) then (direct.[i <- 0], block_free s direct.[i]) else (direct, s))
      (i_direct (I K), s0) in
  (length direct = 12%nat ∧ ∀ i, 0 <= i < 12 → direct.[i] = 0) ∧
  cleared s0 s (λ l, l ≠ 0 ∧ ∃ i, pos_ok (PDir i) ∧ ptrs_of s0 I K (PDir i) = l).
Proof.
  intros Hs Ho HK Hl. unfold DUFS_DIRECT_BLOCKS. set (d0 := i_direct (I K)) in *.
  match goal with |- context [for_loop 0 ?m ?body ?st] =>
    pose proof (for_loop_inv (λ k '(direct, s), length direct = 12%nat ∧
      (∀ i, 0 <= i < 12 → direct.[i] = if i <? k then 0 else d0.[i]) ∧
      cleared s0 s (λ l, l ≠ 0 ∧ ∃ i, 0 <= i < k ∧ d0.[i] = l)) body 0 m st) as Hi end.
  lapply Hi; clear Hi; [intros Hi; lapply Hi; clear Hi; [intros Hi|]|].
  - destruct (for_loop _ _ _ _) as [direct s]. destruct Hi as (H1 & H2 & H3). split; [split; [done|]|].
    + intros i Hi. rewrite H2 by done. by rewrite (proj2 (Z.ltb_lt _ _)) by lia.
    + eapply cleared_ext; [|exact H3]. intros l. unfold pos_ok, DUFS_DIRECT_BLOCKS. done.
  - split; [done|]. split.
    + intros i Hi. by rewrite (proj2 (Z.ltb_ge _ _)) by lia.
    + apply cleared_quiet; [by apply quiet_refl|]. intros _ l (_ & i & Hi & _). lia.
  - intros k [direct s] Hk (H1 & H2 & H3). rewrite H2 by lia. rewrite (proj2 (Z.ltb_ge k k)) by lia.
    destruct (Z.eqb_spec d0.[k] 0) as [E|E]; cbn [negb].
    + split; [done|]. split.
      * intros i Hi. rewrite H2 by done. destruct (Z.ltb_spec i k), (Z.ltb_spec i (k + 1)); try lia; try done. by replace i with k by lia.
      * eapply cleared_ext; [|exact H3]. intros l. split; intros (Hn & i & Hi & El); (split; [done|]); exists i; (split; [|done]); try lia.
        destruct (Z.eq_dec i k) as [->|]; [congruence|lia].
    + split; [by rewrite length_arr_set|]. split.
      * intros i Hi. rewrite arr_get_set by lia. destruct (Z.eqb_spec k i) as [->|]; [by rewrite (proj2 (Z.ltb_lt _ _)) by lia|].
        rewrite H2 by done. destruct (Z.ltb_spec i k), (Z.ltb_spec i (k + 1)); try lia; done.
      * eapply cleared_ext; [|eapply cleared_trans; [exact H3|apply block_free_cleared; [apply H3|]]].
        -- intros l. split.
           ++ intros [(Hn & i & Hi & El)| ->]; [split; [done|]; exists i; split; [lia|done]|split; [done|]; exists k; split; [lia|done]].
           ++ intros (Hn & i & Hi & El). destruct (Z.eq_dec i k) as [->|]; [by right|left; split; [done|]; exists i; split; [lia|done]].
        -- rewrite (cleared_super _ _ _ H3). change d0.[k] with (ptrs_of s0 I K (PDir k)).
           by apply own_blk.
Qed.

Lemma free_one_table s0 s V I K :
  fs_ok s0 → own s0 I → inode_ix K → cleared s0 s V → i_indirect (I K) ≠ 0 →
  let t := i_indirect (I K) in
  let '(buf, s1) := fs_malloc s DUFS_BLOCK_SIZE in
  let s2 := if buf =? 0 then s1
            else match read_block s1 t with (Some b, s) => free_entries s b | (None, s) => s end in
  cleared s (block_free (fs_kfree s2 buf) t) (below s0 I K PInd).
Proof.
  intros Hs Ho HK Hc Hn t. pose proof (cleared_malloc s (cl_ok _ _ _ Hc)) as Hm. pose proof (reliable_malloc s) as Hrm.
  destruct (fs_malloc s DUFS_BLOCK_SIZE) as [buf s1]. cbn [fst snd] in *.
  assert (cleared s0 s1 (λ l, V l ∨ False)) as Hc1 by by eapply cleared_trans.
  set (s2 := if buf =? 0 then s1 else _). cbn zeta.
  set (U := λ l, l ≠ 0 ∧ ∃ i, ent_ix i ∧ ptrs_of s0 I K (child PInd i) = l).
  assert (cleared s1 s2 U) as H2.
  { unfold s2. destruct (Z.eqb_spec buf 0) as [->|_].
    - apply cleared_quiet; [apply quiet_refl; apply Hm|]. intros Hr. by destruct (Hrm Hr).
    - apply (table_cleared s0 s1 _ I K PInd (λ b s, free_entries s b) U HK Hs Ho Hc1 Logic.I Hn).
      intros s' W Hw. by apply (free_entries_at s0 s' W). }
  assert (cleared s (fs_kfree s2 buf) U) as H3.
  { eapply cleared_then; [exact Hm|]. eapply cleared_last; [exact H2|]. apply kfree_quiet, H2. }
  eapply cleared_ext; [|eapply cleared_trans; [exact H3|apply block_free_cleared; [apply H3|]]].
  - intros l. unfold below, U. change (ptrs_of s0 I K PInd) with t. cbn [child is_table]. split.
    + intros [(Hl & i & Hi & E)| ->]; (split; [done|]); [right; split; [done|]; exists i; auto|by left].
    + intros (_ & [->|(Hl & i & Hi & [E|[? _]])]); [by right|left; split; [done|]; by exists i|done].
  - rewrite (cleared_super _ _ _ H3), (cleared_super _ _ _ Hc). by apply (own_blk s0 I K PInd).
Qed.

Lemma free_two_tables s0 s V I K :
  fs_ok s0 → own s0 I → inode_ix K → cleared s0 s V → i_double (I K) ≠ 0 →
  let t := i_double (I K) in
  let '(l0buf, s1) := fs_malloc s DUFS_BLOCK_SIZE in
  let '(l1buf, s2) := fs_malloc s1 DUFS_BLOCK_SIZE in
  let s3 := if (l0buf =? 0) || (l1buf =? 0) then s2
            else match read_block s2 t with
                 | (None, s) => s
                 | (Some l0, s) =>
                     for_loop 0 (Z.to_nat DUFS_INDIR_ENTRIES)
                       (λ i s, if entry l0 i =? 0 then s
                               else let s := match read_block s (entry l0 i) with
                                             | (Some l1, s) => free_entries s l1
                                             | (None, s) => s
                                             end in block_free s (entry l0 i)) s
                 end in
  cleared s (block_free (fs_kfree (fs_kfree s3 l0buf) l1buf) t) (below s0 I K PDbl).
Proof.
  intros Hs Ho HK Hc Hn t.
  pose proof (cleared_malloc s (cl_ok _ _ _ Hc)) as Hm1. pose proof (reliable_malloc s) as Hr1.
  destruct (fs_malloc s DUFS_BLOCK_SIZE) as [l0buf s1]. cbn [fst snd] in *.
  pose proof (cleared_malloc s1 (cl_ok _ _ _ Hm1)) as Hm2. pose proof (reliable_malloc s1) as Hr2.
  destruct (fs_malloc s1 DUFS_BLOCK_SIZE) as [l1buf s2]. cbn [fst snd] in *.
  assert (cleared s s2 (λ _, False)) as Hm by by eapply cleared_then.
  assert (cleared s0 s2 (λ l, V l ∨ False)) as Hc2 by by eapply cleared_trans.
  set (s3 := if (l0buf =? 0) || (l1buf =? 0) then s2 else _). cbn zeta.
  set (U1 := λ i l, ptrs_of s0 I K (PL1 i) ≠ 0 ∧ (l = ptrs_of s0 I K (PL1 i) ∨ l ≠ 0 ∧ ∃ j, ent_ix j ∧ ptrs_of s0 I K (PL2 i j) = l)).
  set (U := λ l, ∃ i, 0 <= i < Z.of_nat (Z.to_nat DUFS_INDIR_ENTRIES) ∧ U1 i l).
  assert (cleared s2 s3 U) as H3.
  { unfold s3. destruct (Z.eqb_spec l0buf 0) as [->|_]; [|destruct (Z.eqb_spec l1buf 0) as [->|_]]; cbn [orb].
    - apply cleared_quiet; [apply quiet_refl; apply Hm|]. intros Hr. by destruct (Hr1 Hr).
    - apply cleared_quiet; [apply quiet_refl; apply Hm|]. intros Hr. by destruct (Hr2 Hr).
    - set (loop := λ l0 (s : fsys St Heap C), for_loop 0 (Z.to_nat DUFS_INDIR_ENTRIES)
        (λ i s, if entry l0 i =? 0 then s
                else let s := match read_block s (entry l0 i) with
                              | (Some l1, s) => free_entries s l1
                              | (None, s) => s
                              end in block_free s (entry l0 i)) s).
      apply (table_cleared s0 s2 _ I K PDbl loop U HK Hs Ho Hc2 Logic.I Hn). unfold loop.
      intros s' W Hw; apply cleared_loop; [apply Hw|]; intros i s'' V' Hi Hc'.
      assert (ent_ix i) as Hix by (unfold ent_ix, DUFS_INDIR_ENTRIES in *; lia).
      destruct (entries_owned s0 I K PDbl i Hs Ho HK Logic.I eq_refl Hn Hix) as [Ei _].
      cbn [child] in Ei; rewrite Ei.
      destruct (Z.eqb_spec (ptrs_of s0 I K (PL1 i)) 0) as [E1|E1].
      { apply cleared_quiet; [apply quiet_refl; apply Hc'|]. by intros _ l [Hx _]. }
      assert (cleared s0 s'' (λ l, W l ∨ V' l)) as Hc'' by by eapply cleared_trans.
      pose proof (table_cleared s0 s'' _ I K (PL1 i) (λ b s, free_entries s b) _ HK Hs Ho Hc'' Hix E1
             (λ s1 W1 Hw1, free_entries_at s0 s1 W1 I K (PL1 i) Hs Ho HK Hw1 Hix eq_refl E1)) as H4.
      cbn zeta; eapply cleared_ext; [|eapply cleared_trans; [exact H4|apply block_free_cleared; [apply H4|]]].
      + intros l. unfold U1. cbn [child].
        split; [intros [H| ->]; (split; [done|]); [by right|by left]|intros (_ & [->|H]); [by right|by left]].
      + rewrite (cleared_super _ _ _ H4), (cleared_super _ _ _ Hc''). by apply (own_blk s0 I K (PL1 i)). }
  assert (cleared s (fs_kfree (fs_kfree s3 l0buf) l1buf) U) as H4.
  { eapply cleared_then; [exact Hm|]. eapply cleared_last; [exact H3|].
    assert (quiet s3 (fs_kfree s3 l0buf)) as Hq by apply kfree_quiet, H3. eapply quiet_trans; [exact Hq|]. apply kfree_quiet, Hq. }
  eapply cleared_ext; [|eapply cleared_trans; [exact H4|apply block_free_cleared; [apply H4|]]].
  - intros l. unfold below, U, U1, ent_ix, DUFS_INDIR_ENTRIES. change (ptrs_of s0 I K PDbl) with t. cbn [child is_table]. split.
    + intros [(i & Hi & Hp & [->|(Hl & j & Hj & E)])| ->]; (split; [done|]).
      * right. split; [done|]. exists i. split; [lia|by left].
      * right. split; [done|]. exists i. split; [lia|]. right. split; [done|]. by exists j.
      * by left.
    + intros (_ & [->|(Hl & i & Hi & [E|(_ & j & Hj & E)])]); [by right|left; exists i; split; [lia|]..].
      * split; [congruence|]. left. congruence.
      * split; [|right; split; [done|]; by exists j]. intros E0. apply Hl. rewrite <-E. unfold ptrs_of in *. cbn [ptr] in *.
        unfold ptr1 at 1. by rewrite E0.
  - rewrite (cleared_super _ _ _ H4), (cleared_super _ _ _ Hc). by apply (own_blk s0 I K PDbl).
Qed.

Lemma owns_block_split s I K l :
  owns_block s I K l ↔
  (l ≠ 0 ∧ ∃ i, pos_ok (PDir i) ∧ ptrs_of s I K (PDir i) = l) ∨ below s I K PInd l ∨ below s I K PDbl l.
Proof.
  unfold owns_block, below. split.
  - intros (Hl & p & Hp & <-). destruct p as [i| |i| |i|i j].
    + left. split; [done|]. by exists i.
    + right; left. split; [done|by left].
    + right; left. unfold ptrs_of in *. cbn [ptr] in *. unfold ptr1 in *. destruct (Z.eqb_spec (i_indirect (I K)) 0); [done|].
      split; [done|]. right. split; [done|]. exists i. split; [done|]. left. cbn [child ptr]. unfold ptr1. by rewrite (proj2 (Z.eqb_neq _ 0)).
    + right; right. split; [done|by left].
    + right; right. unfold ptrs_of in *. cbn [ptr] in *. unfold ptr1 in Hl. destruct (Z.eqb_spec (i_double (I K)) 0) as [|Hd]; [done|].
      split; [done|]. right. unfold ptr1 at 1. rewrite (proj2 (Z.eqb_neq _ 0)) by done. split; [done|]. exists i. split; [done|]. left. done.
    + right; right. destruct Hp. assert (i_double (I K) ≠ 0) as Hd.
      { intros E. apply Hl. unfold ptrs_of. cbn [ptr]. unfold ptr1 at 2. by rewrite E. }
      split; [done|]. right. split; [done|]. exists i. split; [done|]. right. split; [done|]. by exists j.
  - intros [(Hl & i & Hi & E)|[(Hn & [->|(Hl & i & Hi & [E|[? _]])])|(Hn & [->|(Hl & i & Hi & [E|(_ & j & Hj & E)])])]];
      try done; (split; [done|]); eexists; (split; [|first [exact E|reflexivity]]); done.
Qed.

Lemma free_inode_blocks_spec s I K :
  fs_ok s → own s I → inode_ix K → inode_wf (I K) →
  let '(n, s') := free_inode_blocks s (I K) in
  cleared s s' (owns_block s I K) ∧ (∀ B p, pos_ok p → ptr B n p = 0) ∧ inode_wf n ∧
  i_size n = 0 ∧ i_block_count n = 0 ∧ i_type n = i_type (I K) ∧ i_link_count n = i_link_count (I K).
Proof.
  intros Hs Ho HK Hwf. unfold free_inode_blocks.
  pose proof (free_direct s I K Hs Ho HK (proj1 (iw_direct _ Hwf))) as H1.
  destruct (for_loop 0 (Z.to_nat DUFS_DIRECT_BLOCKS) _ _) as [direct s1]. destruct H1 as [[Hlen Hz] H1].
  cbn [i_indirect set_direct].
  set (n1 := set_direct direct (I K)).
  set (U1 := λ l, l ≠ 0 ∧ ∃ i, pos_ok (PDir i) ∧ ptrs_of s I K (PDir i) = l) in *.
  pose proof (free_one_table s s1 U1 I K Hs Ho HK H1) as HI.
  destruct (if negb (i_indirect (I K) =? 0) then _ else _) as [n2 s2] eqn:E2.
  assert (n2 = set_indirect 0 n1 ∧ cleared s1 s2 (below s I K PInd)) as [-> H2].
  { destruct (Z.eqb_spec (i_indirect (I K)) 0) as [E|E]; cbn [negb] in E2.
    - injection E2 as <- <-. split.
      + destruct (I K). cbn in E. subst. done.
      + apply cleared_quiet; [apply quiet_refl; apply H1|]. intros _ l [Hx _]. by apply Hx.
    - specialize (HI E). cbn zeta in HI. destruct (fs_malloc s1 DUFS_BLOCK_SIZE) as [buf s1'].
      apply pair_equal_spec in E2 as [<- <-]. split; [reflexivity|exact HI]. }
  cbn [i_double set_indirect n1 set_direct].
  assert (cleared s s2 (λ l, U1 l ∨ below s I K PInd l)) as H12 by by eapply cleared_trans.
  pose proof (free_two_tables s s2 _ I K Hs Ho HK H12) as HD.
  destruct (if negb (i_double (I K) =? 0) then _ else _) as [n3 s3] eqn:E3.
  assert (n3 = set_double 0 (set_indirect 0 n1) ∧ cleared s2 s3 (below s I K PDbl)) as [-> H3].
  { destruct (Z.eqb_spec (i_double (I K)) 0) as [E|E]; cbn [negb] in E3.
    - injection E3 as <- <-. split.
      + unfold n1. destruct (I K). cbn in E. subst. done.
      + apply cleared_quiet; [apply quiet_refl; apply H2|]. intros _ l [Hx _]. by apply Hx.
    - specialize (HD E). cbn zeta in HD. destruct (fs_malloc s2 DUFS_BLOCK_SIZE) as [l0buf s2'].
      destruct (fs_malloc s2' DUFS_BLOCK_SIZE) as [l1buf s2''].
      apply pair_equal_spec in E3 as [<- <-]. split; [reflexivity|exact HD]. }
  split; [|split; [|split]].
  - eapply cleared_ext; [|eapply cleared_trans; [exact H12|exact H3]]. intros l. rewrite owns_block_split. unfold U1. tauto.
  - intros B p Hp. destruct p as [i| |i| |i|i j]; try done. cbn. by apply Hz.
  - destruct Hwf as [W1 W2 W3 W4 W5 W6 W7 W8 W9 W10]. split; cbn; try done; try (unfold is_u32; lia).
    split; [done|]. apply Forall_lookup. intros i x Hx. assert (i < 12)%nat as Hi by (rewrite <-Hlen; by eapply lookup_lt_Some).
    assert (x = 0) as ->; [|unfold is_u32; lia]. rewrite <-(Hz (Z.of_nat i)) by lia. symmetry. apply arr_get_lookup; [lia|]. by rewrite Nat2Z.id.
  - done.
Qed.

Lemma cleared_ptrs s s' U I k p :
  fs_ok s → own s I → cleared s s' U → inode_ix k → pos_ok p → ptrs_of s' I k p = ptrs_of s I k p.
Proof.
  intros Hs Ho Hc Hk Hp. apply (ptrs_frame s s' I 0); [|intros b Hb _; by apply Hc|done].
  intros x Hx _. destruct (Z.eq_dec (ptrs_of s I k x) 0) as [|Hn]; [by left|right]. split; [by apply (own_blk s I k x)|done].
Qed.

(** The inode without its pointers, the blocks free: still everything has one owner. *)
Lemma cleared_own s s' I K n :
  fs_ok s → own s I → inode_ix K → cleared s s' (owns_block s I K) → (∀ B p, pos_ok p → ptr B n p = 0) →
  own s' (upd_inode I K n).
Proof.
  intros Hs Ho HK Hc Hn. pose proof (n_blocks_bound s Hs) as HN.
  assert (∀ k p, inode_ix k → pos_ok p → k ≠ K → ptrs_of s' (upd_inode I K n) k p = ptrs_of s I k p) as HP.
  { intros k p Hk Hp Hne. rewrite <-(cleared_ptrs s s' _ I k p Hs Ho Hc Hk Hp). unfold ptrs_of. by rewrite upd_inode_ne. }
  assert (∀ p, pos_ok p → ptrs_of s' (upd_inode I K n) K p = 0) as H0 by (intros; unfold ptrs_of; rewrite upd_inode_eq; auto).
  split.
  - intros k p Hk Hp Hx. rewrite (cleared_super _ _ _ Hc). destruct (Z.eq_dec k K) as [->|Hne]; [by rewrite H0 in Hx|].
    rewrite HP in * by done. destruct (ow_block _ _ _ Ho k p Hk Hp Hx) as [Hd Hset]. split; [done|].
    destruct (cl_bits _ _ _ Hc) as (X & HX & _ & Hb). pose proof Hd as (bit & Hbit & E). rewrite E, bit_of_lba in *.
    apply Hb; [lia|]. split; [done|]. intros Hxx. apply HX in Hxx. destruct Hxx as (_ & q & Hq & Eq).
    destruct (ow_inj _ _ _ Ho K q k p HK Hq Hk Hp) as [-> _]; [rewrite Eq; unfold block_lba, DUFS_DATA_LBA; lia|by rewrite Eq|done].
  - intros k p k' p' Hk Hp Hk' Hp' Hx E.
    destruct (Z.eq_dec k K) as [->|Hne]; [by rewrite H0 in Hx|]. destruct (Z.eq_dec k' K) as [->|Hne']; [by rewrite E, H0 in Hx|].
    rewrite !HP in * by done. by apply (ow_inj _ _ _ Ho).
Qed.

(** Freeing. *)
Lemma free_inode_blocks_sure s k n s' :
  fs_ok s → own s (dinode s) → inode_ix k → free_inode_blocks s (dinode s k) = (n, s') →
  (i_size n = 0 ∧ i_block_count n = 0 ∧ i_type n = i_type (dinode s k) ∧ i_link_count n = i_link_count (dinode s k) ∧
   ∀ B p, pos_ok p → ptr B n p = 0) ∧
  fs_ok s' ∧ own s' (upd_inode (dinode s) k n) ∧ same_blocks s s' ∧ same_sectors s s' ∧
  ∀ b, 0 <= b < 32768 →
    (bmap_test (bm s') b = true → bmap_test (bm s) b = true) ∧
    (bmap_test (bm s) b = true → ¬ owns_block s (dinode s) k (block_lba b) → bmap_test (bm s') b = true) ∧
    (rel → owns_block s (dinode s) k (block_lba b) → bmap_test (bm s') b = false).
Proof.
  intros Hs Ho Hk E. pose proof (free_inode_blocks_spec s (dinode s) k Hs Ho Hk (dinode_wf s k Hs Hk)) as Hf. rewrite E in Hf.
  destruct Hf as (Hc & Hp & _ & H1 & H2 & H3 & H4). split; [done|]. pose proof (cleared_own s s' (dinode s) k n Hs Ho Hk Hc Hp) as Ho'.
  destruct Hc as [A1 _ A3 A4 (X & A5 & A6 & A7)]. do 4 (split; [done|]). intros b Hb. specialize (A7 b Hb). split; [|split].
  - intros Hx. by apply A7.
  - intros Hx Hn. apply A7. split; [done|]. intros Hl. by apply Hn, A5.
  - intros Hr Ho1. apply not_true_is_false. intros Ht. apply A7 in Ht as [_ Hn]. by apply Hn, A6.
Qed.
End free.
