(* ===== verification/DufsDir.v ===== *)
(** * DUFS: directories and paths (kernel/fs/fs.c)

    Directory blocks hold 15 entries of a 256-byte name and an inode number.  A
    path is the bytes before its NUL; the code takes a NULL pointer for an empty
    path (fs_readlink alone answers differently, and the switch never passes
    NULL).  A name in a block ends at its first NUL.  The loops over
    [block_count] blocks are structural; walking a path runs on its length,
    following symlinks on the depth limit. *)

From S2P Require Import Prelude Interfaces Vfs Bytes Dufs.

(** [entries[e]] of a directory block. *)
Definition entry_ino (b : list Z) (e : Z) : Z := get32 b (DUFS_DIRENT_SIZE * e + DUFS_MAX_NAME).
Definition entry_name (b : list Z) (e : Z) : list Z := until_nul (slice b (DUFS_DIRENT_SIZE * e) DUFS_MAX_NAME).

(** [k_strncmp(entries[e].name, name, DUFS_MAX_NAME) == 0] *)
Definition name_is (b : list Z) (e : Z) (name : list Z) : bool :=
  bool_decide (entry_name b e = take (Z.to_nat DUFS_MAX_NAME) name).

(** The name cut to 255 bytes and padded with NULs. *)
Definition name_field (name : list Z) : list Z :=
  let nm := take (Z.to_nat (DUFS_MAX_NAME - 1)) name in nm ++ zeros_buf (DUFS_MAX_NAME - blen nm).

Definition put_entry (b : list Z) (e : Z) (name : list Z) (ino : Z) : list Z :=
  splice b (DUFS_DIRENT_SIZE * e) (name_field name ++ le32_bytes ino).
Definition clear_entry (b : list Z) (e : Z) : list Z :=
  splice (set32 b (DUFS_DIRENT_SIZE * e + DUFS_MAX_NAME) 0) (DUFS_DIRENT_SIZE * e) [0].

Definition slots : list Z := seqZ 0 DUFS_DIRENTS_PER_BLOCK.
Definition find_entry (b : list Z) (name : list Z) : option Z :=
  snd <$> list_find (λ e, negb (entry_ino b e =? 0) && name_is b e name = true) slots.
Definition find_empty (b : list Z) : option Z := snd <$> list_find (λ e, entry_ino b e = 0) slots.
Definition count_used (b : list Z) : Z := Z.of_nat (length (filter (λ e, entry_ino b e ≠ 0) slots)).

(** [out + NUL] must fit [outsz] bytes. *)
Definition symlink_target_path (link_path target : list Z) (outsz : Z) : option (list Z) :=
  if bool_decide (target = []) then None
  else
    match (if char_at target 0 =? ch_slash then None else last_slash link_path) with
    | None => if outsz <? blen target +u 1 then None else Some target
    | Some i =>
        if outsz <? u32 i +u 1 +u blen target +u 1 then None
        else Some (take (Z.to_nat i) link_path ++ [ch_slash] ++ target)
    end.

Definition symlink_target_path_with_tail (link_path target tail : list Z) (outsz : Z) : option (list Z) :=
  match symlink_target_path link_path target outsz with
  | None => None
  | Some out =>
      if bool_decide (tail = []) then Some out
      else
        let need_sep := if bool_decide (out = [ch_slash]) then 0 else 1 in
        if outsz <? blen out +u need_sep +u blen tail +u 1 then None
        else Some (out ++ (if need_sep =? 1 then [ch_slash] else []) ++ tail)
  end.

Section dir.
Context {St : Type} `{BlockStore St} {Heap : Type} `{KAllocator Heap} {C : Type} `{Clock C}.
Implicit Types (s : fsys St Heap C) (n : dufs_inode).

(** The blocks of a directory, in order, until [f] finds something in one; a
    block that is a hole or cannot be read is skipped. *)
Definition dir_scan {R} s n (f : Z → list Z → option R) : option R * fsys St Heap C :=
  match for_exit 0 (Z.to_nat (i_block_count n))
          (λ blk s,
             let '(lba, s) := block_map s n blk in
             if lba =? 0 then inr s
             else match read_block s lba with
                  | (None, s) => inr s
                  | (Some b, s) => match f lba b with Some r => inl (r, s) | None => inr s end
                  end) s with
  | inl (r, s) => (Some r, s)
  | inr s => (None, s)
  end.

Definition dir_lookup s (dir_ino : Z) (name : list Z) : Z * fsys St Heap C :=
  let '(r, s) := inode_read s dir_ino in
  match r with
  | None => (0, s)
  | Some dir =>
      let '(buf, s) := fs_malloc s DUFS_BLOCK_SIZE in
      if buf =? 0 then (0, s)
      else
        let '(found, s) := dir_scan s dir (λ _ b, entry_ino b <$> find_entry b name) in
        (default 0 found, fs_kfree s buf)
  end.

(** [true] is the return of 0. *)
Definition dir_add s (dir_ino : Z) (name : list Z) (child_ino : Z) : bool * fsys St Heap C :=
  let '(r, s) := inode_read s dir_ino in
  match r with
  | None => (false, s)
  | Some dir =>
      let '(buf, s) := fs_malloc s DUFS_BLOCK_SIZE in
      if buf =? 0 then (false, s)
      else
        match dir_scan s dir (λ lba b, (λ e, (lba, b, e)) <$> find_empty b) with
        | (Some (lba, b, e), s) =>
            let '(t, s) := arch_time_unix_seconds s in
            let '(ok, s) := inode_write s dir_ino (set_mtime t dir) in
            if negb ok then (false, fs_kfree s buf)
            else let '(rc, s) := write_block s lba (put_entry b e name child_ino) in (rc, fs_kfree s buf)
        | (None, s) =>
            let '(new_lba, dir, s) := block_ensure s dir (i_block_count dir) in
            if new_lba =? 0 then (false, fs_kfree s buf)
            else
              let '(t, s) := arch_time_unix_seconds s in
              let '(ok, s) := write_block s new_lba (put_entry (zeros_buf DUFS_BLOCK_SIZE) 0 name child_ino) in
              let s := fs_kfree s buf in
              if negb ok then (false, s) else inode_write s dir_ino (set_mtime t dir)
        end
  end.

Definition dir_remove s (dir_ino : Z) (name : list Z) : Z * fsys St Heap C :=
  let '(r, s) := inode_read s dir_ino in
  match r with
  | None => (0, s)
  | Some dir =>
      let '(buf, s) := fs_malloc s DUFS_BLOCK_SIZE in
      if buf =? 0 then (0, s)
      else
        match dir_scan s dir (λ lba b, (λ e, (lba, b, e)) <$> find_entry b name) with
        | (None, s) => (0, fs_kfree s buf)
        | (Some (lba, b, e), s) =>
            let '(t, s) := arch_time_unix_seconds s in
            let '(ok, s) := inode_write s dir_ino (set_mtime t dir) in
            if negb ok then (0, fs_kfree s buf)
            else let '(_, s) := write_block s lba (clear_entry b e) in (entry_ino b e, fs_kfree s buf)
        end
  end.

Definition dir_count_entries s (dir_ino : Z) : Z * fsys St Heap C :=
  let '(r, s) := inode_read s dir_ino in
  match r with
  | None => (-1, s)
  | Some dir =>
      let '(buf, s) := fs_malloc s DUFS_BLOCK_SIZE in
      if buf =? 0 then (-1, s)
      else
        let '(count, s) :=
          for_loop 0 (Z.to_nat (i_block_count dir))
            (λ blk '(count, s),
               let '(lba, s) := block_map s dir blk in
               if lba =? 0 then (count, s)
               else match read_block s lba with
                    | (None, s) => (count, s)
                    | (Some b, s) => (count + count_used b, s)
                    end) (0, s) in
        (count, fs_kfree s buf)
  end.

(** ** Paths *)

Definition read_symlink_target s (ino outsz : Z) : option (list Z) * fsys St Heap C :=
  let '(r, s) := inode_read s ino in
  match r with
  | None => (None, s)
  | Some inode =>
      if negb (i_type inode =? DUFS_TYPE_SYMLINK) then (None, s)
      else if outsz <? i_size inode +u 1 then (None, s)
      else
        let '(n, out, s) := fs_read s ino 0 (i_size inode) in
        if negb (n =? s32 (i_size inode)) then (None, s)
        else ((if s32 (i_size inode) <? 0 then None else Some (until_nul out)), s)
  end.

(** [if (p) kfree(p)] *)
Definition kfree_opt s (p : Z) : fsys St Heap C := if p =? 0 then s else fs_kfree s p.

(** The path the symlink [ino] at [link_path] stands for; [use] is what the
    caller does with it before the two buffers are freed. *)
Definition with_target {R} s (ino : Z) (link_path : list Z) (fail : R)
    (use : fsys St Heap C → list Z → R * fsys St Heap C) : R * fsys St Heap C :=
  let '(target, s) := fs_malloc s 4096 in
  let '(next, s) := fs_malloc s 4096 in
  if (target =? 0) || (next =? 0) then (fail, kfree_opt (kfree_opt s target) next)
  else
    let '(r, s) := read_symlink_target s ino 4096 in
    match (match r with Some t => symlink_target_path link_path t 4096 | None => None end) with
    | None => (fail, fs_kfree (fs_kfree s target) next)
    | Some path => let '(res, s) := use s path in (res, fs_kfree (fs_kfree s target) next)
    end.

Definition first_slash (p : list Z) : option nat := fst <$> list_find (λ c, c = ch_slash) p.

(** The inode of the containing directory and the leaf, or the error. *)
Definition resolved : Type := Z + Z * list Z.

(** One pass over the components; [pre] is what precedes [p] after the leading
    slash, [follow] restarts at a symlink. *)
Fixpoint path_walk (fuel : nat) (follow : fsys St Heap C → list Z → resolved * fsys St Heap C)
    s (cur_dir : Z) (pre p : list Z) : resolved * fsys St Heap C :=
  match fuel with
  | O => (inl (-1), s)
  | S fuel =>
      match first_slash p with
      | None =>
          let leaf := take (Z.to_nat (DUFS_MAX_NAME - 1)) p in
          ((if bool_decide (leaf = []) then inl (-1) else inr (cur_dir, leaf)), s)
      | Some i =>
          let comp := take i p in
          let tail := drop (S i) p in
          if (Z.of_nat i =? 0) || (DUFS_MAX_NAME <=? Z.of_nat i) then (inl (-1), s)
          else
            let '(ino, s) := dir_lookup s cur_dir comp in
            if ino =? 0 then (inl (-1), s)
            else
              let '(r, s) := inode_read s ino in
              match r with
              | None => (inl (-1), s)
              | Some dinode =>
                  if i_type dinode =? DUFS_TYPE_SYMLINK then
                    let '(link_path, s) := fs_malloc s 4096 in
                    let '(target, s) := fs_malloc s 4096 in
                    let '(next, s) := fs_malloc s 4096 in
                    let free s := fs_kfree (fs_kfree (fs_kfree s link_path) target) next in
                    if (link_path =? 0) || (target =? 0) || (next =? 0) then
                      (inl (-1), kfree_opt (kfree_opt (kfree_opt s link_path) target) next)
                    else if 4096 <? blen (pre ++ comp) +u 1 then (inl (-1), free s)
                    else
                      let '(r, s) := read_symlink_target s ino 4096 in
                      match (match r with
                             | Some t => symlink_target_path_with_tail (pre ++ comp) t tail 4096
                             | None => None
                             end) with
                      | None => (inl (-1), free s)
                      | Some path => let '(rc, s) := follow s path in (rc, free s)
                      end
                  else if negb (i_type dinode =? DUFS_TYPE_DIR) then (inl (-1), s)
                  else if bool_decide (tail = []) then (inl (-1), s)
                  else path_walk fuel follow s ino (pre ++ comp ++ [ch_slash]) tail
              end
      end
  end.

(** [depth] counts down from 9: the code's [depth] is [9 - depth]. *)
Fixpoint path_resolve_follow (depth : nat) s (path : list Z) : resolved * fsys St Heap C :=
  match path with
  | [] => (inl (-1), s)
  | c :: rest =>
      match depth with
      | O => (inl (-40), s)
      | S depth =>
          let p := if c =? ch_slash then rest else path in
          if bool_decide (p = []) then (inl (-1), s)
          else path_walk (S (length p)) (path_resolve_follow depth) s 1 [] p
      end
  end.

Definition path_resolve s (path : list Z) : resolved * fsys St Heap C := path_resolve_follow 9 s path.
End dir.
