(* ===== verification/DufsApi.v ===== *)
(** * DUFS: the operations on paths (kernel/fs/fs.c)

    Opening, creating, removing, renaming and linking files and directories,
    and their listings and attributes.  [fs_init] is the only operation that
    starts without a superblock. *)

From S2P Require Import Prelude Interfaces Vfs Bytes Dufs DufsDir.

Section api.
Context {St : Type} `{BlockStore St} {Heap : Type} `{KAllocator Heap} {C : Type} `{Clock C}.
Implicit Types (s : fsys St Heap C) (n : dufs_inode).

(** The superblock and the bitmaps of device [dev]. *)
Definition fs_init s (dev : Z) : Z * fsys St Heap C :=
  let m := fs_mnt s in
  let s := with_mnt {| g_blkdev := dev; g_super := g_super m; g_inode_bitmap := g_inode_bitmap m; g_block_bitmap := g_block_bitmap m |} s in
  if dev =? 0 then (-1, s)
  else
    let '(r, st) := sec_read (fs_st s) dev 1 in
    let s := with_st st s in
    match r with
    | None => (-1, s)
    | Some buf =>
        let s := with_mnt {| g_blkdev := dev; g_super := super_of buf; g_inode_bitmap := g_inode_bitmap m; g_block_bitmap := g_block_bitmap m |} s in
        if negb (sb_magic (super_of buf) =? DUFS_MAGIC) then (-2, s)
        else match read_block s (sb_inode_bitmap_lba (super_of buf)) with
             | (None, s) => (-1, s)
             | (Some b, s) =>
                 let s := with_mnt (set_inode_bitmap b (fs_mnt s)) s in
                 match read_block s (sb_block_bitmap_lba (super_of buf)) with
                 | (None, s) => (-1, s)
                 | (Some b, s) => (0, with_mnt (set_block_bitmap b (fs_mnt s)) s)
                 end
             end
    end.

(** [path_resolve] and [dir_lookup] of the leaf: the directory, the leaf and
    the inode, 0 when there is no such entry. *)
Definition find_path s (path : list Z) : option (Z * list Z * Z) * fsys St Heap C :=
  match path_resolve s path with
  | (inl _, s) => (None, s)
  | (inr (dir_ino, leaf), s) => let '(ino, s) := dir_lookup s dir_ino leaf in (Some (dir_ino, leaf, ino), s)
  end.

(** The inode number and the size, or the error; [depth] counts down from 9. *)
Fixpoint fs_open_follow (depth : nat) s (path : list Z) : (Z + Z * Z) * fsys St Heap C :=
  match depth with
  | O => (inl (-40), s)
  | S depth =>
      match find_path s path with
      | (None, s) => (inl (-1), s)
      | (Some (_, _, ino), s) =>
          if ino =? 0 then (inl (-1), s)
          else
            let '(r, s) := inode_read s ino in
            match r with
            | None => (inl (-1), s)
            | Some inode =>
                if i_type inode =? DUFS_TYPE_SYMLINK then with_target s ino path (inl (-1)) (fs_open_follow depth)
                else if negb (i_type inode =? DUFS_TYPE_FILE) then (inl (-1), s)
                else (inr (ino, i_size inode), s)
            end
      end
  end.

Definition fs_open s (path : list Z) : (Z + Z * Z) * fsys St Heap C := fs_open_follow 9 s path.

(** A new inode of a type, with one link, allocated and written. *)
Definition new_inode (type t : Z) : dufs_inode :=
  set_atime t (set_mtime t (set_link_count 1 (set_type type zero_inode))).

Definition flush_bitmaps s : fsys St Heap C := (flush_block_bitmap (flush_inode_bitmap s).2).2.

Definition alloc_inode_of s (type : Z) : Z * dufs_inode * fsys St Heap C :=
  let '(ino, s) := inode_alloc s in
  if ino =? 0 then (0, zero_inode, s)
  else
    let '(t, s) := arch_time_unix_seconds s in
    let inode := new_inode type t in
    let '(ok, s) := inode_write s ino inode in
    if negb ok then (0, inode, (flush_inode_bitmap (inode_free s ino)).2) else (ino, inode, s).

Definition fs_create s (path : list Z) : Z * fsys St Heap C :=
  match find_path s path with
  | (None, s) => (-1, s)
  | (Some (dir_ino, leaf, existing), s) =>
      if negb (existing =? 0) then
        let '(r, s) := inode_read s existing in
        match r with
        | None => (-1, s)
        | Some inode =>
            if negb (i_type inode =? DUFS_TYPE_FILE) then (-1, s)
            else
              let '(inode, s) := free_inode_blocks s inode in
              let '(t, s) := arch_time_unix_seconds s in
              let '(ok, s) := inode_write s existing (set_mtime t inode) in
              if negb ok then (-1, s) else (s32 existing, (flush_block_bitmap s).2)
        end
      else
        let '(new_ino, _, s) := alloc_inode_of s DUFS_TYPE_FILE in
        if new_ino =? 0 then (-1, s)
        else
          let '(ok, s) := dir_add s dir_ino leaf new_ino in
          if negb ok then (-1, flush_bitmaps (inode_free s new_ino)) else (s32 new_ino, flush_bitmaps s)
  end.

Definition fs_flush_inode s (inode_num : Z) : Z * fsys St Heap C := (0, s).

(** The last link is gone: blocks and inode are free. *)
Definition release_inode s (ino : Z) n : fsys St Heap C :=
  let '(n, s) := free_inode_blocks s n in
  flush_bitmaps (inode_write (inode_free s ino) ino n).2.

Definition fs_unlink s (path : list Z) : Z * fsys St Heap C :=
  if bool_decide (path = []) then (-1, s)
  else match find_path s path with
       | (None, s) => (-1, s)
       | (Some (dir_ino, leaf, child_ino), s) =>
           if child_ino =? 0 then (-1, s)
           else
             let '(r, s) := inode_read s child_ino in
             match r with
             | None => (-1, s)
             | Some inode =>
                 if negb (i_type inode =? DUFS_TYPE_FILE) && negb (i_type inode =? DUFS_TYPE_SYMLINK) then (-1, s)
                 else
                   let inode := if 0 <? i_link_count inode then set_link_count (i_link_count inode - 1) inode else inode in
                   let s := if i_link_count inode =? 0 then release_inode s child_ino inode
                            else (inode_write s child_ino inode).2 in
                   let '(removed, s) := dir_remove s dir_ino leaf in
                   ((if removed =? 0 then -1 else 0), s)
             end
       end.

Definition fs_mkdir s (path : list Z) : Z * fsys St Heap C :=
  if bool_decide (path = []) then (-1, s)
  else match find_path s path with
       | (None, s) => (-1, s)
       | (Some (dir_ino, leaf, existing), s) =>
           if negb (existing =? 0) then (-1, s)
           else
             let '(new_ino, _, s) := alloc_inode_of s DUFS_TYPE_DIR in
             if new_ino =? 0 then (-1, s)
             else
               let '(ok, s) := dir_add s dir_ino leaf new_ino in
               if negb ok then (-1, flush_bitmaps (inode_free s new_ino)) else (0, flush_bitmaps s)
       end.

Definition fs_rmdir s (path : list Z) : Z * fsys St Heap C :=
  if bool_decide (path = []) then (-1, s)
  else match find_path s path with
       | (None, s) => (-1, s)
       | (Some (par_ino, leaf, dir_ino), s) =>
           if dir_ino =? 0 then (-1, s)
           else
             let '(r, s) := inode_read s dir_ino in
             match r with
             | None => (-1, s)
             | Some inode =>
                 if negb (i_type inode =? DUFS_TYPE_DIR) then (-1, s)
                 else
                   let '(count, s) := dir_count_entries s dir_ino in
                   if 0 <? count then (-1, s)
                   else
                     let '(removed, s) := dir_remove (release_inode s dir_ino inode) par_ino leaf in
                     ((if removed =? 0 then -1 else 0), s)
             end
       end.

Definition fs_rename s (oldpath newpath : list Z) : Z * fsys St Heap C :=
  if bool_decide (oldpath = []) || bool_decide (newpath = []) then (-1, s)
  else match path_resolve s oldpath with
       | (inl _, s) => (-1, s)
       | (inr (old_dir_ino, old_leaf), s) =>
           match path_resolve s newpath with
           | (inl _, s) => (-1, s)
           | (inr (new_dir_ino, new_leaf), s) =>
               let '(src_ino, s) := dir_lookup s old_dir_ino old_leaf in
               if src_ino =? 0 then (-1, s)
               else
                 let '(r, s) := inode_read s src_ino in
                 match r with
                 | None => (-1, s)
                 | Some _ =>
                     let '(dst_ino, s) := dir_lookup s new_dir_ino new_leaf in
                     let '(early, s) :=
                       if dst_ino =? 0 then (None, s)
                       else if dst_ino =? src_ino then (Some 0, s)
                       else
                         let '(r, s) := inode_read s dst_ino in
                         match r with
                         | None => (Some (-1), s)
                         | Some dst_inode =>
                             if i_type dst_inode =? DUFS_TYPE_DIR then (Some (-1), s)
                             else
                               let links := if 0 <? i_link_count dst_inode then i_link_count dst_inode - 1 else 0 in
                               let s := if links =? 0 then release_inode s dst_ino (set_link_count links dst_inode) else s in
                               (None, (dir_remove s new_dir_ino new_leaf).2)
                         end in
                     match early with
                     | Some rc => (rc, s)
                     | None =>
                         let '(ok, s) := dir_add s new_dir_ino new_leaf src_ino in
                         if negb ok then (-1, s) else (0, (dir_remove s old_dir_ino old_leaf).2)
                     end
                 end
           end
       end.

Fixpoint fs_link_source_inode (depth : nat) (follow : bool) s (path : list Z) : (Z + Z) * fsys St Heap C :=
  match depth with
  | O => (inl (-40), s)
  | S depth =>
      match find_path s path with
      | (None, s) => (inl (-1), s)
      | (Some (_, _, src_ino), s) =>
          if src_ino =? 0 then (inl (-1), s)
          else
            let '(r, s) := inode_read s src_ino in
            match r with
            | None => (inl (-1), s)
            | Some inode =>
                if follow && (i_type inode =? DUFS_TYPE_SYMLINK)
                then with_target s src_ino path (inl (-1)) (fs_link_source_inode depth follow)
                else (inr src_ino, s)
            end
      end
  end.

Definition fs_link s (oldpath newpath : list Z) (follow : Z) : Z * fsys St Heap C :=
  if bool_decide (oldpath = []) || bool_decide (newpath = []) then (-1, s)
  else match fs_link_source_inode 9 (negb (follow =? 0)) s oldpath with
       | (inl rc, s) => (rc, s)
       | (inr src_ino, s) =>
           let '(r, s) := inode_read s src_ino in
           match r with
           | None => (-1, s)
           | Some inode =>
               if i_type inode =? DUFS_TYPE_DIR then (-1, s)
               else match find_path s newpath with
                    | (None, s) => (-1, s)
                    | (Some (new_dir_ino, new_leaf, existing), s) =>
                        if negb (existing =? 0) then (-1, s)
                        else
                          let '(ok, s) := dir_add s new_dir_ino new_leaf src_ino in
                          if negb ok then (-1, s)
                          else
                            let '(t, s) := arch_time_unix_seconds s in
                            let '(ok, s) := inode_write s src_ino (set_mtime t (set_link_count (u16 (i_link_count inode + 1)) inode)) in
                            ((if ok then 0 else -1), s)
                    end
           end
       end.

(** A half-made symlink is taken back; [n] is the inode if it cannot be read. *)
Definition undo_symlink s (new_ino : Z) n : fsys St Heap C :=
  let '(r, s) := inode_read s new_ino in release_inode s new_ino (default n r).

Definition fs_symlink s (target linkpath : list Z) : Z * fsys St Heap C :=
  if bool_decide (target = []) || bool_decide (linkpath = []) then (-1, s)
  else match find_path s linkpath with
       | (None, s) => (-1, s)
       | (Some (dir_ino, leaf, existing), s) =>
           if negb (existing =? 0) then (-1, s)
           else if 4096 <=? blen target then (-1, s)
           else
             let '(new_ino, inode, s) := alloc_inode_of s DUFS_TYPE_SYMLINK in
             if new_ino =? 0 then (-1, s)
             else
               let '(rc, s) := fs_write s new_ino 0 target in
               if negb (rc =? blen target) then (-1, undo_symlink s new_ino inode)
               else
                 let '(ok, s) := dir_add s dir_ino leaf new_ino in
                 if negb ok then (-1, undo_symlink s new_ino inode) else (0, flush_bitmaps s)
       end.

Definition fs_readlink s (path : list Z) (bufsz : Z) : Z * list Z * fsys St Heap C :=
  if bufsz =? 0 then (-22, [], s)
  else match find_path s path with
       | (None, s) => (-2, [], s)
       | (Some (_, _, ino), s) =>
           if ino =? 0 then (-2, [], s)
           else
             let '(r, s) := inode_read s ino in
             match r with
             | None => (-2, [], s)
             | Some inode =>
                 if negb (i_type inode =? DUFS_TYPE_SYMLINK) then (-22, [], s)
                 else
                   let n := if bufsz <? i_size inode then bufsz else i_size inode in
                   if n =? 0 then (0, [], s)
                   else let '(rc, out, s) := fs_read s ino 0 n in ((if rc =? s32 n then s32 n else -1), out, s)
             end
       end.

(** ** Listing *)

(** The bytes of [name] up to the first that no longer fits before [bufsz - 2];
    [true] when one did not fit. *)
Fixpoint copy_name (name : list Z) (bufsz : Z) (out : list Z) : list Z * bool :=
  match name with
  | [] => (out, false)
  | c :: name => if bufsz -u 2 <=? blen out then (out, true) else copy_name name bufsz (out ++ [c])
  end.

Definition list_entry s (b : list Z) (bufsz e : Z) (out : list Z) : list Z * bool * fsys St Heap C :=
  if entry_ino b e =? 0 then (out, false, s)
  else
    let '(out, cut) := copy_name (entry_name b e) bufsz out in
    if cut then (out, true, s)
    else
      let '(r, s) := inode_read s (entry_ino b e) in
      let is_dir := match r with Some child => i_type child =? DUFS_TYPE_DIR | None => false end in
      let out := if is_dir && (blen out <? bufsz -u 1) then out ++ [ch_slash] else out in
      ((if blen out <? bufsz then out ++ [0] else out), false, s).

(** The entries of a block, until one is cut off. *)
Definition list_block s (b : list Z) (bufsz : Z) (out : list Z) :
    (list Z * fsys St Heap C) + (list Z * fsys St Heap C) :=
  for_exit 0 (Z.to_nat DUFS_DIRENTS_PER_BLOCK)
    (λ e '(out, s),
       let '(out, cut, s) := list_entry s b bufsz e out in
       if cut then inl (out, s) else inr (out, s)) (out, s).

Definition list_dir s (dir_ino bufsz : Z) : Z * list Z * fsys St Heap C :=
  let '(r, s) := inode_read s dir_ino in
  match r with
  | None => (-1, [], s)
  | Some dir =>
      let '(block, s) := fs_malloc s DUFS_BLOCK_SIZE in
      if block =? 0 then (-1, [], s)
      else
        match for_exit 0 (Z.to_nat (i_block_count dir))
                (λ blk '(out, s),
                   let '(lba, s) := block_map s dir blk in
                   if lba =? 0 then inr (out, s)
                   else match read_block s lba with
                        | (None, s) => inr (out, s)
                        | (Some b, s) => list_block s b bufsz out
                        end) ([], s) with
        | inl (out, s) | inr (out, s) => (s32 (blen out), out, fs_kfree s block)
        end
  end.

Definition fs_list s (path : list Z) (bufsz : Z) : Z * list Z * fsys St Heap C :=
  if bool_decide (path = []) then list_dir s 1 bufsz
  else match find_path s path with
       | (None, s) => (-1, [], s)
       | (Some (_, _, dir_ino), s) =>
           if dir_ino =? 0 then (-1, [], s)
           else
             let '(r, s) := inode_read s dir_ino in
             match r with
             | None => (-1, [], s)
             | Some dinode => if negb (i_type dinode =? DUFS_TYPE_DIR) then (-1, [], s) else list_dir s dir_ino bufsz
             end
       end.

(** ** Attributes *)

Definition stat_from_inode n : vfs_stat_t :=
  {| st_type := i_type n; st_size := i_size n; st_link_count := i_link_count n; st_mtime := i_mtime n |}.

Fixpoint fs_stat_common (depth : nat) (follow : bool) s (path : list Z) : (Z + vfs_stat_t) * fsys St Heap C :=
  match depth with
  | O => (inl (-40), s)
  | S depth =>
      match find_path s path with
      | (None, s) => (inl (-1), s)
      | (Some (_, _, ino), s) =>
          if ino =? 0 then (inl (-1), s)
          else
            let '(r, s) := inode_read s ino in
            match r with
            | None => (inl (-1), s)
            | Some inode =>
                if follow && (i_type inode =? DUFS_TYPE_SYMLINK)
                then with_target s ino path (inl (-1)) (fs_stat_common depth follow)
                else (inr (stat_from_inode inode), s)
            end
      end
  end.

Definition fs_stat s (path : list Z) : (Z + vfs_stat_t) * fsys St Heap C := fs_stat_common 9 true s path.
Definition fs_lstat s (path : list Z) : (Z + vfs_stat_t) * fsys St Heap C := fs_stat_common 9 false s path.
End api.
