(* ===== verification/DufsDirSpec.v ===== *)
(** * DUFS: directories as finite maps

    The entries of a directory block, [dir_is] with what preserves it, and the
    scan of a directory. *)

From S2P Require Import Prelude Interfaces Vfs Bytes Dufs DufsSpec DufsGrow DufsWrite DufsFile DufsDir.

(** ** Entries *)

Lemma slice_splice_in b o x i n :
  0 <= o → o + blen x <= blen b → 0 <= i → 0 <= n → i + n <= blen x → slice (splice b o x) (o + i) n = slice x i n.
Proof.
  intros Ho Hl Hi Hn Hin. apply buf_ext; [by rewrite !blen_slice by (rewrite ?blen_splice; lia)|].
  rewrite blen_slice by (rewrite ?blen_splice; lia). intros j Hj. rewrite !slice_at, splice_at by lia.
  destruct (Z.leb_spec o (o + i + j)), (Z.ltb_spec (o + i + j) (o + blen x)); try lia. cbn [andb]. f_equal. lia.
Qed.

Lemma get32_word b o : 0 <= o → get32 b o = get32 (slice b o 4) 0.
Proof. intros Ho. rewrite get32_slice by lia. by rewrite Z.add_0_r. Qed.

Lemma until_nul_stop a b : 0 ∉ a → until_nul (a ++ 0 :: b) = a.
Proof.
  induction a as [|c a IH]; [done|]. intros Hc. apply not_elem_of_cons in Hc as [H1 H2]. cbn.
  destruct (Z.eqb_spec c 0); [congruence|]. by rewrite IH.
Qed.

Definition name_ok (nm : list Z) : Prop := nm ≠ [] ∧ (length nm <= 255)%nat ∧ 0 ∉ nm ∧ bytes nm.
Definition slot_ix (e : Z) : Prop := 0 <= e < DUFS_DIRENTS_PER_BLOCK.

Lemma name_ok_take nm : name_ok nm → take (Z.to_nat DUFS_MAX_NAME) nm = nm ∧ take (Z.to_nat (DUFS_MAX_NAME - 1)) nm = nm.
Proof. intros (_ & Hl & _). change (Z.to_nat DUFS_MAX_NAME) with 256%nat. change (Z.to_nat (DUFS_MAX_NAME - 1)) with 255%nat. split; apply take_ge; lia. Qed.

Lemma name_field_spec nm : name_ok nm → blen (name_field nm) = 256 ∧ bytes (name_field nm) ∧ until_nul (name_field nm) = nm.
Proof.
  intros Hn. pose proof Hn as (_ & Hl & H0 & Hb). unfold name_field. cbn zeta. rewrite (proj2 (name_ok_take nm Hn)).
  assert (0 <= DUFS_MAX_NAME - blen nm) as Hp by (unfold blen, DUFS_MAX_NAME; lia).
  split; [|split].
  - rewrite blen_app, blen_zeros by done. unfold DUFS_MAX_NAME. lia.
  - apply Forall_app. split; [done|apply bytes_zeros].
  - unfold zeros_buf. destruct (Z.to_nat (DUFS_MAX_NAME - blen nm)) as [|m] eqn:E; [unfold blen, DUFS_MAX_NAME in *; lia|].
    cbn [replicate]. by apply until_nul_stop.
Qed.

Lemma dirent_bounds e : slot_ix e → 0 <= 260 * e ∧ 260 * e + 260 <= 4096.
Proof. unfold slot_ix, DUFS_DIRENTS_PER_BLOCK. lia. Qed.

Lemma put_entry_at b e nm ino e' :
  blen b = 4096 → slot_ix e → slot_ix e' → name_ok nm → is_u32 ino →
  entry_ino (put_entry b e nm ino) e' = (if e' =? e then ino else entry_ino b e') ∧
  entry_name (put_entry b e nm ino) e' = (if e' =? e then nm else entry_name b e').
Proof.
  intros Hb He He' Hn Hu. destruct (dirent_bounds e He) as [? ?]. destruct (dirent_bounds e' He') as [? ?].
  destruct (name_field_spec nm Hn) as (Hl & _ & Hnul). unfold entry_ino, entry_name, put_entry, DUFS_DIRENT_SIZE, DUFS_MAX_NAME.
  set (x := name_field nm ++ le32_bytes ino).
  assert (blen x = 260) as Hx by (unfold x; rewrite blen_app, Hl; done).
  destruct (Z.eqb_spec e' e) as [->|Hne].
  - split.
    + rewrite get32_word by lia. rewrite slice_splice_in by lia. rewrite <-get32_word by lia.
      unfold x, get32, arr_get. rewrite !list_lookup_total_alt.
      unfold blen in Hl. assert (length (name_field nm) = 256%nat) as Hl' by lia.
      rewrite !lookup_app_r by lia. rewrite Hl'. cbn. by apply le32_value.
    + replace (260 * e) with (260 * e + 0) at 2 by lia. rewrite slice_splice_in by lia. unfold x, slice. cbn [Z.to_nat].
      rewrite drop_0. rewrite take_app_length' by (unfold blen in Hl; lia). done.
  - split.
    + rewrite get32_word, slice_splice_other, <-get32_word by lia. done.
    + rewrite slice_splice_other by lia. done.
Qed.

Lemma put_entry_ok b e nm ino : length b = 4096%nat → bytes b → slot_ix e → name_ok nm →
  length (put_entry b e nm ino) = 4096%nat ∧ bytes (put_entry b e nm ino).
Proof.
  intros Hl Hb He Hn. destruct (dirent_bounds e He). destruct (name_field_spec nm Hn) as (Hf & Hfb & _).
  unfold put_entry, DUFS_DIRENT_SIZE. split.
  - assert (blen (splice b (260 * e) (name_field nm ++ le32_bytes ino)) = blen b) as E.
    { apply blen_splice; [lia|]. rewrite blen_app, Hf. change (blen (le32_bytes ino)) with 4. unfold blen. lia. }
    unfold blen in E. lia.
  - apply bytes_splice; [done|]. apply Forall_app. split; [done|apply bytes_le32].
Qed.

Lemma clear_entry_at b e e' :
  blen b = 4096 → slot_ix e → slot_ix e' →
  entry_ino (clear_entry b e) e' = (if e' =? e then 0 else entry_ino b e') ∧
  (e' ≠ e → entry_name (clear_entry b e) e' = entry_name b e').
Proof.
  intros Hb He He'. destruct (dirent_bounds e He) as [? ?]. destruct (dirent_bounds e' He') as [? ?].
  unfold entry_ino, entry_name, clear_entry, DUFS_DIRENT_SIZE, DUFS_MAX_NAME.
  assert (blen (set32 b (260 * e + 256) 0) = 4096) as Hs by (rewrite blen_set32; lia).
  split.
  - rewrite get32_word, slice_splice_other, <-get32_word by (change (blen [0]) with 1; lia).
    rewrite get32_set32 by (unfold is_u32; lia). destruct (Z.eqb_spec (260 * e' + 256) (260 * e + 256)), (Z.eqb_spec e' e); lia || done.
  - intros Hne. rewrite slice_splice_other by (change (blen [0]) with 1; lia). unfold set32.
    rewrite slice_splice_other by (change (blen (le32_bytes 0)) with 4; lia). done.
Qed.

Lemma clear_entry_ok b e : length b = 4096%nat → bytes b → slot_ix e → length (clear_entry b e) = 4096%nat ∧ bytes (clear_entry b e).
Proof.
  intros Hl Hb He. destruct (dirent_bounds e He). unfold clear_entry, DUFS_DIRENT_SIZE, DUFS_MAX_NAME. split.
  - assert (blen (splice (set32 b (260 * e + 256) 0) (260 * e) [0]) = blen b) as E.
    { rewrite blen_splice; [|lia|]; rewrite blen_set32; try (change (blen [0]) with 1); unfold blen; lia. }
    unfold blen in E. lia.
  - apply bytes_splice; [by apply bytes_set32|]. repeat constructor; unfold is_u8; lia.
Qed.

Lemma entry_ino_zeros e : slot_ix e → entry_ino (zeros_buf DUFS_BLOCK_SIZE) e = 0.
Proof. intros He. destruct (dirent_bounds e He). unfold entry_ino, DUFS_DIRENT_SIZE, DUFS_MAX_NAME, DUFS_BLOCK_SIZE. apply get32_zeros; lia. Qed.

Lemma elem_slots e : e ∈ slots ↔ slot_ix e.
Proof. unfold slots, slot_ix. rewrite elem_of_seqZ. lia. Qed.

Lemma find_entry_spec b nm : name_ok nm →
  match find_entry b nm with
  | Some e => slot_ix e ∧ entry_ino b e ≠ 0 ∧ entry_name b e = nm
  | None => ∀ e, slot_ix e → entry_ino b e ≠ 0 → entry_name b e ≠ nm
  end.
Proof.
  intros Hn. unfold find_entry, name_is. rewrite (proj1 (name_ok_take nm Hn)).
  destruct (list_find _ slots) as [[i e]|] eqn:E; cbn.
  - apply list_find_Some in E as (Hi & Hp & _). apply list_elem_of_lookup_2, elem_slots in Hi.
    apply andb_true_iff in Hp as [H1 H2]. apply negb_true_iff, Z.eqb_neq in H1. apply bool_decide_eq_true in H2. done.
  - apply list_find_None in E. rewrite Forall_forall in E. intros e He Hne Hnm. apply elem_slots in He. apply (E e He).
    rewrite (proj2 (Z.eqb_neq _ 0)) by done. cbn. by apply bool_decide_eq_true.
Qed.

Lemma find_empty_spec b :
  match find_empty b with
  | Some e => slot_ix e ∧ entry_ino b e = 0
  | None => ∀ e, slot_ix e → entry_ino b e ≠ 0
  end.
Proof.
  unfold find_empty. destruct (list_find _ slots) as [[i e]|] eqn:E; cbn.
  - apply list_find_Some in E as (Hi & Hp & _). by apply list_elem_of_lookup_2, elem_slots in Hi.
  - apply list_find_None in E. rewrite Forall_forall in E. intros e He Hne. apply elem_slots in He. by apply (E e He).
Qed.

(** ** Directories *)

Definition slot (B : Z → list Z) n (i e : Z) : option (list Z * Z) :=
  let lba := ptr B n (data_pos i) in
  if lba =? 0 then None else if entry_ino (B lba) e =? 0 then None else Some (entry_name (B lba) e, entry_ino (B lba) e).

Definition visible n (i e : Z) : Prop := 0 <= i < i_block_count n ∧ slot_ix e.

Section dir.
Context {St : Type} {BS : BlockStore St} {Heap : Type} {KA : KAllocator Heap} {C : Type} {CK : Clock C}.
Context {SV : StoreView St} {BL : SureStoreLaws St dufs_blk dufs_sec}.
Implicit Types (s : fsys St Heap C) (n : dufs_inode) (D : gmap (list Z) Z).

(** The entries of directory [k] are the map [D]; no name is there twice and no
    block lies beyond the counted ones. *)
Record dir_is s (k : Z) D : Prop := {
  di_lookup nm ino : D !! nm = Some ino ↔ ∃ i e, visible (dinode s k) i e ∧ slot (blk s) (dinode s k) i e = Some (nm, ino);
  di_unique i e i' e' nm ino ino' : visible (dinode s k) i e → visible (dinode s k) i' e' →
    slot (blk s) (dinode s k) i e = Some (nm, ino) → slot (blk s) (dinode s k) i' e' = Some (nm, ino') → i = i' ∧ e = e';
  di_tail i : i_block_count (dinode s k) <= i < 2 ^ 20 → ptr (blk s) (dinode s k) (data_pos i) = 0;
  di_count : 0 <= i_block_count (dinode s k) <= 2 ^ 20;
}.

(** A directory is its bytes. *)
Lemma slot_bytes s s' n n' i e :
  fs_ok s → fs_ok s' → 0 <= i < 2 ^ 20 →
  (ptr (blk s) n (data_pos i) ≠ 0 → dufs_blk (ptr (blk s) n (data_pos i))) →
  (ptr (blk s') n' (data_pos i) ≠ 0 → dufs_blk (ptr (blk s') n' (data_pos i))) →
  (∀ o, file_off o → fbyte (blk s') n' o = fbyte (blk s) n o) →
  slot (blk s') n' i e = slot (blk s) n i e ∧ (ptr (blk s) n (data_pos i) = 0 → ptr (blk s') n' (data_pos i) = 0).
Proof.
  intros Hs Hs' Hi Hb Hb' Hf.
  assert (∀ j, 0 <= j < 4096 → file_off (i * 4096 + j) ∧ (i * 4096 + j) / 4096 = i ∧ (i * 4096 + j) mod 4096 = j) as Ho.
  { intros j Hj. change (2 ^ 20) with 1048576 in Hi. unfold file_off. change (2 ^ 32) with 4294967296. split; [lia|].
    split; symmetry; [apply Z.div_unique with j|apply Z.mod_unique with i]; lia. }
  assert (∀ j, 0 <= j < 4096 → (if ptr (blk s') n' (data_pos i) =? 0 then None else Some (blk s' (ptr (blk s') n' (data_pos i))).[j]) =
    (if ptr (blk s) n (data_pos i) =? 0 then None else Some (blk s (ptr (blk s) n (data_pos i))).[j])) as Hb1.
  { intros j Hj. destruct (Ho j Hj) as (Hof & E1 & E2). specialize (Hf _ Hof). unfold fbyte in Hf. by rewrite E1, E2 in Hf. }
  unfold slot. pose proof (Hb1 0 ltac:(lia)) as H0.
  destruct (Z.eqb_spec (ptr (blk s) n (data_pos i)) 0) as [E|E], (Z.eqb_spec (ptr (blk s') n' (data_pos i)) 0) as [E'|E']; try done.
  assert (blk s' (ptr (blk s') n' (data_pos i)) = blk s (ptr (blk s) n (data_pos i))) as ->; [|done].
  destruct (blk_len s _ Hs (Hb E)) as [L1 _]. destruct (blk_len s' _ Hs' (Hb' E')) as [L2 _].
  apply buf_ext; unfold blen; rewrite ?L1, ?L2; [done|]. intros j Hj. specialize (Hb1 j ltac:(lia)). by injection Hb1.
Qed.

Lemma own_ptr_blk s k p : fs_ok s → own s (dinode s) → inode_ix k → pos_ok p →
  ptr (blk s) (dinode s k) p ≠ 0 → dufs_blk (ptr (blk s) (dinode s k) p).
Proof. intros Hs Ho Hk Hp Hn. by apply (own_blk s (dinode s) k p). Qed.

Lemma data_ix i : 0 <= i < 2 ^ 20 → pos_ok (data_pos i) ∧ is_table (data_pos i) = false.
Proof. intros Hi. apply data_pos_ok. unfold max_blocks. lia. Qed.

(** What keeps the other files keeps the other directories. *)
Lemma dir_is_others k s s' j D :
  fs_ok s → own s (dinode s) → others_kept k s s' → inode_ix j → j ≠ k → dir_is s j D → dir_is s' j D.
Proof.
  intros Hs Ho [H1 H2 H3 H4] Hj Hne [A1 A2 A3 A4].
  assert (dinode s' j = dinode s j) as Ed by auto.
  assert (∀ i e, 0 <= i < 2 ^ 20 → slot (blk s') (dinode s' j) i e = slot (blk s) (dinode s j) i e ∧
    (ptr (blk s) (dinode s j) (data_pos i) = 0 → ptr (blk s') (dinode s' j) (data_pos i) = 0)) as Hsl.
  { intros i e Hi. destruct (data_ix i Hi) as [Hp _].
    apply slot_bytes; try done; [intros; by apply own_ptr_blk|intros; by apply own_ptr_blk|intros; by apply H4]. }
  rewrite Ed in *. assert (∀ i e, visible (dinode s j) i e → slot (blk s') (dinode s j) i e = slot (blk s) (dinode s j) i e) as Hv.
  { intros i e [Hi _]. apply Hsl. lia. }
  split; rewrite ?Ed.
  - intros nm ino. rewrite A1. split; intros (i & e & Hi & E); exists i, e; (split; [done|]).
    + by rewrite Hv.
    + by rewrite <-Hv.
  - intros i e i' e' nm ino ino' Hi Hi'. rewrite !Hv by done. by apply A2.
  - intros i Hi. apply Hsl; [exact 0|lia|]. apply A3. lia.
  - done.
Qed.
End dir.

Section ops.
Context {St : Type} {BS : BlockStore St} {Heap : Type} {KA : KAllocator Heap} {C : Type} {CK : Clock C}.
Context {SV : StoreView St} {BL : SureStoreLaws St dufs_blk dufs_sec}.
Implicit Types (s : fsys St Heap C) (n : dufs_inode) (D : gmap (list Z) Z).

Notation rel := (reliable (St := St) (Heap := Heap)).

(** ** Scanning *)

Lemma dir_scan_spec {R} s0 s k (f : Z → list Z → option R) :
  fs_ok s0 → own s0 (dinode s0) → inode_ix k → quiet s0 s → i_block_count (dinode s0 k) <= 2 ^ 20 →
  let '(r, s') := dir_scan s (dinode s0 k) f in
  quiet s0 s' ∧
  match r with
  | Some x => ∃ i, 0 <= i < i_block_count (dinode s0 k) ∧
      let lba := ptr (blk s0) (dinode s0 k) (data_pos i) in lba ≠ 0 ∧ f lba (blk s0 lba) = Some x
  | None => rel → ∀ i, 0 <= i < i_block_count (dinode s0 k) →
      let lba := ptr (blk s0) (dinode s0 k) (data_pos i) in lba ≠ 0 → f lba (blk s0 lba) = None
  end.
Proof.
  intros Hs Ho Hk Hq Hc. unfold dir_scan. set (n := dinode s0 k) in *. set (P := λ i, ptr (blk s0) n (data_pos i)).
  match goal with |- context [for_exit 0 ?m ?body ?st] =>
    pose proof (for_exit_inv (λ j s', quiet s0 s' ∧ (rel → ∀ i, 0 <= i < j → P i ≠ 0 → f (P i) (blk s0 (P i)) = None))
      (λ '(x, s'), quiet s0 s' ∧ ∃ i, 0 <= i < i_block_count n ∧ P i ≠ 0 ∧ f (P i) (blk s0 (P i)) = Some x) body 0 m st) as Hl end.
  lapply Hl; clear Hl; [intros Hl; lapply Hl; clear Hl; [intros Hl|split; [done|lia]]|].
  - destruct (for_exit _ _ _ _) as [[x s']|s'].
    + destruct Hl as [? (i & Hi & Hn & E)]. split; [done|]. by exists i.
    + destruct Hl as [? Hl]. split; [done|]. intros Hr i Hi. apply Hl; [done|]. lia.
  - intros j s' Hj [Hq' Hall]. assert (0 <= j < max_blocks) as Hix by (unfold max_blocks; lia).
    pose proof (block_map_spec k s' (dinode s0) j Hk (qu_ok _ _ Hq') ltac:(by eapply own_quiet) Hix) as Hm.
    destruct (data_pos_ok j Hix) as [Hp _]. rewrite (ptrs_quiet s0 s') in Hm by done. fold n in Hm. change (ptrs_of s0 (dinode s0) k (data_pos j)) with (P j) in Hm.
    destruct (block_map s' n j) as [lba s1]. destruct Hm as [Hq1 Hm]. assert (quiet s0 s1) as Hq01 by by eapply quiet_trans.
    assert (∀ s2, quiet s0 s2 → (rel → P j ≠ 0 → f (P j) (blk s0 (P j)) = None) →
      quiet s0 s2 ∧ (rel → ∀ i, 0 <= i < j + 1 → P i ≠ 0 → f (P i) (blk s0 (P i)) = None)) as Hnext.
    { intros s2 H2 Hjn. split; [done|]. intros Hr i Hi Hn. destruct (Z.eq_dec i j) as [->|]; [auto|]. apply Hall; [done|lia|done]. }
    destruct (Z.eqb_spec lba 0) as [->|Hn].
    { apply Hnext; [done|]. intros Hr HP. destruct Hm as [Hm|[_ Hm]]; [congruence|by destruct (Hm Hr)]. }
    destruct Hm as [Hm|[? _]]; [|done]. rewrite Hm in *.
    destruct (own_blk s0 (dinode s0) k _ Hs Ho Hk Hp Hn) as (_ & Hb & _). change (ptrs_of s0 (dinode s0) k (data_pos j)) with (P j) in Hb.
    pose proof (read_block_spec s1 (P j) (qu_ok _ _ Hq01) Hb) as [Hq2 Hv]. pose proof (λ Hr, reliable_read s1 (P j) Hr (qu_ok _ _ Hq01) Hb) as Hr.
    destruct (read_block s1 (P j)) as [[b|] s2]; cbn [fst snd] in *.
    + rewrite (Hv b eq_refl), (qu_blk _ _ Hq01) by done. assert (quiet s0 s2) as Hq02 by by eapply quiet_trans.
      destruct (f (P j) (blk s0 (P j))) as [x|] eqn:E.
      * split; [done|]. exists j. split; [lia|done].
      * apply Hnext; done.
    + apply Hnext; [by eapply quiet_trans|]. intros Hx. by destruct (Hr Hx).
Qed.

(** The directory's inode and a buffer. *)
Lemma dir_open s k :
  fs_ok s → inode_ix k →
  let '(r, s1) := inode_read s k in
  quiet s s1 ∧ match r with
  | None => ¬ rel
  | Some n => n = dinode s k ∧
      let '(buf, s2) := fs_malloc s1 DUFS_BLOCK_SIZE in quiet s s2 ∧ (buf = 0 → ¬ rel)
  end.
Proof.
  intros Hs Hk. pose proof (inode_read_spec s k Hs Hk) as [Hq Hv]. pose proof (λ Hr, reliable_inode s k Hr Hs Hk) as Hr.
  destruct (inode_read s k) as [[n|] s1]; cbn [fst snd] in *; (split; [done|]).
  - split; [by apply Hv|]. pose proof (malloc_quiet s1 DUFS_BLOCK_SIZE (qu_ok _ _ Hq)) as Hq2. pose proof (reliable_malloc s1) as Hm.
    destruct (fs_malloc s1 DUFS_BLOCK_SIZE) as [buf s2]. cbn [fst snd] in *. split; [by eapply quiet_trans|].
    intros -> Hx. by destruct (Hm Hx).
  - intros Hx. by destruct (Hr Hx).
Qed.

Lemma slot_some s k i e nm ino :
  slot (blk s) (dinode s k) i e = Some (nm, ino) ↔
  let lba := ptr (blk s) (dinode s k) (data_pos i) in
  lba ≠ 0 ∧ entry_ino (blk s lba) e ≠ 0 ∧ entry_name (blk s lba) e = nm ∧ entry_ino (blk s lba) e = ino.
Proof.
  unfold slot. cbn zeta. destruct (Z.eqb_spec (ptr (blk s) (dinode s k) (data_pos i)) 0); [naive_solver|].
  destruct (Z.eqb_spec (entry_ino (blk s (ptr (blk s) (dinode s k) (data_pos i))) e) 0); naive_solver.
Qed.

Lemma kfree_last s s1 p : quiet s s1 → quiet s (fs_kfree s1 p).
Proof. intros Hq. eapply quiet_trans; [exact Hq|apply kfree_quiet, Hq]. Qed.

Lemma dir_lookup_spec s k D nm :
  fs_ok s → own s (dinode s) → inode_ix k → dir_is s k D → name_ok nm →
  let '(found, s') := dir_lookup s k nm in
  quiet s s' ∧ (found = default 0 (D !! nm) ∨ found = 0 ∧ ¬ rel).
Proof.
  intros Hs Ho Hk HD Hn. unfold dir_lookup. pose proof (dir_open s k Hs Hk) as H1.
  destruct (inode_read s k) as [[n|] s1]; [|by destruct H1; auto]. destruct H1 as [Hq1 [-> H1]].
  destruct (fs_malloc s1 DUFS_BLOCK_SIZE) as [buf s2]. destruct H1 as [Hq2 Hm].
  destruct (Z.eqb_spec buf 0) as [->|_]; [by auto|].
  pose proof (dir_scan_spec s s2 k (λ _ b, entry_ino b <$> find_entry b nm) Hs Ho Hk Hq2 ltac:(apply (di_count _ _ _ HD))) as Hsc.
  destruct (dir_scan s2 (dinode s k) _) as [r s3]. destruct Hsc as [Hq3 Hr]. split; [by apply kfree_last|].
  destruct r as [x|]; cbn [default].
  - left. destruct Hr as (i & Hi & Hp & E). pose proof (find_entry_spec (blk s (ptr (blk s) (dinode s k) (data_pos i))) nm Hn) as Hf.
    destruct (find_entry _ nm) as [e|]; [|done]. destruct Hf as (He & Hne & Hnm). injection E as <-.
    assert (D !! nm = Some (entry_ino (blk s (ptr (blk s) (dinode s k) (data_pos i))) e)) as ->; [|done].
    apply (di_lookup _ _ _ HD). exists i, e. split; [done|]. apply slot_some. done.
  - destruct (D !! nm) as [ino|] eqn:E; [|by left]. right. split; [done|]. intros Hrel.
    apply (di_lookup _ _ _ HD) in E as (i & e & [Hi He] & Hsl). apply slot_some in Hsl as (Hp & H0 & Hnm & _).
    specialize (Hr Hrel i Hi Hp). pose proof (find_entry_spec (blk s (ptr (blk s) (dinode s k) (data_pos i))) nm Hn) as Hf.
    destruct (find_entry _ nm) as [e'|]; [done|]. by apply (Hf e He).
Qed.

(** ** Changing one block *)

(** The block [idx] of the directory becomes [x]. *)
Lemma dir_put s k I idx x :
  inode_ix k → fs_ok s → own s I → 0 <= idx < 2 ^ 20 → ptrs_of s I k (data_pos idx) ≠ 0 → length x = 4096%nat → bytes x →
  let '(ok, s') := write_block s (ptrs_of s I k (data_pos idx)) x in
  (∀ i, 0 <= i < 2 ^ 20 → ptr (blk s') (I k) (data_pos i) = ptr (blk s) (I k) (data_pos i)) ∧
  ∀ i e, 0 <= i < 2 ^ 20 → slot (blk s') (I k) i e =
    if i =? idx then (if entry_ino x e =? 0 then None else Some (entry_name x e, entry_ino x e)) else slot (blk s) (I k) i e.
Proof.
  intros Hk Hs Ho Hi Hn Hl Hx. destruct (data_ix idx Hi) as [Hp _].
  assert (0 <= idx < max_blocks) as Hmx by (unfold max_blocks; lia).
  pose proof (data_write s I k idx x Hk Hs Ho Hmx Hn Hl Hx) as Hd. cbn zeta in Hd.
  destruct (own_blk s I k _ Hs Ho Hk Hp Hn) as (_ & Hb & _). set (lba := ptrs_of s I k (data_pos idx)) in *.
  pose proof (write_block_spec s lba x Hs Hb Hl Hx) as Hw. destruct (write_block s lba x) as [ok s'].
  destruct Hw as (_ & _ & _ & _ & Hblk). destruct Hd as (_ & _ & _ & _ & _ & HP & _).
  assert (∀ i, 0 <= i < 2 ^ 20 → ptr (blk s') (I k) (data_pos i) = ptr (blk s) (I k) (data_pos i)) as HPi.
  { intros i Hii. apply (HP k (data_pos i) Hk). by apply data_ix. }
  split; [done|]. intros i e Hii. unfold slot. rewrite HPi by done. destruct (Z.eqb_spec i idx) as [->|Hne].
  - change (ptr (blk s) (I k) (data_pos idx)) with lba. rewrite (proj2 (Z.eqb_neq lba 0)) by done. by rewrite Hblk, bool_decide_true.
  - destruct (Z.eqb_spec (ptr (blk s) (I k) (data_pos i)) 0) as [|Hni]; [done|]. destruct (data_ix i Hii) as [Hpi _].
    destruct (own_blk s I k _ Hs Ho Hk Hpi Hni) as (_ & Hbi & _). change (ptrs_of s I k (data_pos i)) with (ptr (blk s) (I k) (data_pos i)) in Hbi.
    rewrite Hblk by done. rewrite bool_decide_false; [done|]. intros E. destruct (ow_inj _ _ _ Ho k _ k _ Hk Hpi Hk Hp Hni E) as [_ Eq].
    apply Hne. apply data_pos_inj; [lia|lia|done].
Qed.

(** One entry of the directory was filled, or emptied. *)
Lemma dir_is_filled s s' k D i0 e0 nm ino :
  dir_is s k D → visible (dinode s' k) i0 e0 → D !! nm = None →
  i_block_count (dinode s k) <= i_block_count (dinode s' k) <= 2 ^ 20 →
  (∀ i, i_block_count (dinode s' k) <= i < 2 ^ 20 → ptr (blk s') (dinode s' k) (data_pos i) = 0) →
  (visible (dinode s k) i0 e0 → slot (blk s) (dinode s k) i0 e0 = None) →
  slot (blk s') (dinode s' k) i0 e0 = Some (nm, ino) →
  (∀ i e, visible (dinode s' k) i e → (i, e) ≠ (i0, e0) →
     slot (blk s') (dinode s' k) i e = if i <? i_block_count (dinode s k) then slot (blk s) (dinode s k) i e else None) →
  dir_is s' k (<[nm := ino]> D).
Proof.
  intros [A1 A2 A3 A4] Hv0 Hnm Hc Htail Hfree Hnew Hsame.
  assert (∀ i e, visible (dinode s k) i e → visible (dinode s' k) i e) as Hmono by (intros i e [? ?]; split; [lia|done]).
  assert (∀ i e x, visible (dinode s' k) i e → (i, e) ≠ (i0, e0) → slot (blk s') (dinode s' k) i e = Some x →
    visible (dinode s k) i e ∧ slot (blk s) (dinode s k) i e = Some x) as Hold.
  { intros i e x Hv Hne E. rewrite Hsame in E by done. destruct (Z.ltb_spec i (i_block_count (dinode s k))); [|done].
    split; [|done]. destruct Hv as [? ?]. split; [lia|done]. }
  split; [|..|done|lia].
  - intros nm' ino'. rewrite lookup_insert_Some, A1. split.
    + intros [[<- <-]|[Hne (i & e & Hv & E)]]; [by exists i0, e0|]. exists i, e. split; [auto|].
      rewrite Hsame; [|auto|].
      * destruct Hv as [? ?]. by rewrite (proj2 (Z.ltb_lt _ _)) by lia.
      * intros [= -> ->]. by rewrite Hfree in E.
    + intros (i & e & Hv & E). destruct (decide ((i, e) = (i0, e0))) as [[= -> ->]|Hne].
      * left. rewrite Hnew in E. by injection E.
      * right. destruct (Hold i e _ Hv Hne E) as [Hv' E']. split; [|by exists i, e].
        intros <-. assert (D !! nm = Some ino') as E2 by (apply A1; by exists i, e). congruence.
  - assert (∀ i e ino', visible (dinode s' k) i e → (i, e) ≠ (i0, e0) → slot (blk s') (dinode s' k) i e ≠ Some (nm, ino')) as Hno.
    { intros i e ino' Hv Hne E. destruct (Hold i e _ Hv Hne E) as [Hv' E'].
      assert (D !! nm = Some ino') as E2 by (apply A1; by exists i, e). congruence. }
    intros i e i' e' nm' x x' Hv Hv' E E'. destruct (decide ((i, e) = (i0, e0))) as [Eq|Hne], (decide ((i', e') = (i0, e0))) as [Eq'|Hne'].
    + split; congruence.
    + injection Eq as -> ->. rewrite Hnew in E. injection E as <- <-. by destruct (Hno i' e' x').
    + injection Eq' as -> ->. rewrite Hnew in E'. injection E' as <- <-. by destruct (Hno i e x).
    + destruct (Hold i e _ Hv Hne E) as [Hw Ew]. destruct (Hold i' e' _ Hv' Hne' E') as [Hw' Ew']. by eapply A2.
Qed.

Lemma dir_is_emptied s s' k D i0 e0 nm ino :
  dir_is s k D → visible (dinode s k) i0 e0 → slot (blk s) (dinode s k) i0 e0 = Some (nm, ino) →
  i_block_count (dinode s' k) = i_block_count (dinode s k) →
  (∀ i, i_block_count (dinode s k) <= i < 2 ^ 20 → ptr (blk s') (dinode s' k) (data_pos i) = 0) →
  slot (blk s') (dinode s' k) i0 e0 = None →
  (∀ i e, visible (dinode s k) i e → (i, e) ≠ (i0, e0) → slot (blk s') (dinode s' k) i e = slot (blk s) (dinode s k) i e) →
  dir_is s' k (delete nm D).
Proof.
  intros [A1 A2 A3 A4] Hv0 Hnm Hc Htail Hnew Hsame.
  assert (∀ i e, visible (dinode s' k) i e ↔ visible (dinode s k) i e) as Hvis by (intros i e; unfold visible; by rewrite Hc).
  assert (∀ i e x, visible (dinode s k) i e → slot (blk s') (dinode s' k) i e = Some x →
    (i, e) ≠ (i0, e0) ∧ slot (blk s) (dinode s k) i e = Some x) as Hold.
  { intros i e x Hv E. assert ((i, e) ≠ (i0, e0)) as Hne by (intros [= -> ->]; congruence). split; [done|]. by rewrite <-Hsame. }
  split.
  - intros nm' ino'. rewrite lookup_delete_Some, A1. split.
    + intros [Hne (i & e & Hv & E)]. exists i, e. split; [by apply Hvis|]. rewrite Hsame; [done|done|]. intros [= -> ->]. congruence.
    + intros (i & e & Hv & E). apply Hvis in Hv. destruct (Hold i e _ Hv E) as [Hne E']. split; [|by exists i, e].
      intros <-. destruct (A2 i e i0 e0 nm ino' ino Hv Hv0 E' Hnm) as [-> ->]. done.
  - intros i e i' e' nm' x x' Hv Hv' E E'. apply Hvis in Hv, Hv'. destruct (Hold i e _ Hv E) as [_ Ew]. destruct (Hold i' e' _ Hv' E') as [_ Ew']. by eapply A2.
  - intros i Hi. apply Htail. lia.
  - lia.
Qed.

(** ** States that differ elsewhere *)

Lemma dir_is_same s s' k D :
  i_block_count (dinode s' k) = i_block_count (dinode s k) →
  (∀ i e, 0 <= i < 2 ^ 20 → slot (blk s') (dinode s' k) i e = slot (blk s) (dinode s k) i e) →
  (∀ i, i_block_count (dinode s k) <= i < 2 ^ 20 → ptr (blk s) (dinode s k) (data_pos i) = 0 → ptr (blk s') (dinode s' k) (data_pos i) = 0) →
  dir_is s k D → dir_is s' k D.
Proof.
  intros Hc Hsl Hp [A1 A2 A3 A4].
  assert (∀ i e, visible (dinode s' k) i e ↔ visible (dinode s k) i e) as Hvis by (intros i e; unfold visible; by rewrite Hc).
  assert (∀ i e, visible (dinode s k) i e → slot (blk s') (dinode s' k) i e = slot (blk s) (dinode s k) i e) as Hv.
  { intros i e [Hi _]. apply Hsl. lia. }
  split.
  - intros nm ino. rewrite A1. split; intros (i & e & Hi & E); exists i, e.
    + split; [by apply Hvis|]. by rewrite Hv.
    + apply Hvis in Hi. split; [done|]. by rewrite <-Hv.
  - intros i e i' e' nm ino ino' Hi Hi'. apply Hvis in Hi, Hi'. rewrite !Hv by done. by apply A2.
  - intros i Hi. rewrite Hc in Hi. apply Hp; [done|]. by apply A3.
  - by rewrite Hc.
Qed.

Lemma dir_is_quiet s s' k D : fs_ok s → own s (dinode s) → inode_ix k → quiet s s' → dir_is s k D → dir_is s' k D.
Proof.
  intros Hs Ho Hk Hq HD. assert (dinode s' k = dinode s k) as Ed by by apply dinode_quiet.
  apply (dir_is_same s); [by rewrite Ed| | |done]; rewrite Ed.
  - intros i e Hi. destruct (data_ix i Hi) as [Hp _]. unfold slot. fold (ptrs_of s' (dinode s) k (data_pos i)).
    rewrite (ptrs_quiet s s') by done. change (ptrs_of s (dinode s) k (data_pos i)) with (ptr (blk s) (dinode s k) (data_pos i)).
    destruct (Z.eqb_spec (ptr (blk s) (dinode s k) (data_pos i)) 0) as [|Hn]; [done|].
    rewrite (qu_blk _ _ Hq); [done|]. by apply own_ptr_blk.
  - intros i Hi <-. apply (ptrs_quiet s s' (dinode s) k (data_pos i)); try done. apply data_ix. destruct (di_count _ _ _ HD). lia.
Qed.

(** The data position [i] is not touched by growth elsewhere. *)
Lemma slot_grows K (Q : pos → Prop) s I s' I' i e :
  inode_ix K → grows K Q s I s' I' → 0 <= i < 2 ^ 20 → ¬ Q (data_pos i) →
  slot (blk s') (I' K) i e = slot (blk s) (I K) i e ∧ ptr (blk s') (I' K) (data_pos i) = ptr (blk s) (I K) (data_pos i).
Proof.
  intros HK Hg Hi HQ. destruct (data_ix i Hi) as [Hp Hd].
  assert (ptr (blk s') (I' K) (data_pos i) = ptr (blk s) (I K) (data_pos i)) as E by by apply (gr_only _ _ _ _ _ _ Hg).
  split; [|done]. unfold slot. rewrite E. destruct (Z.eqb_spec (ptr (blk s) (I K) (data_pos i)) 0) as [|Hn]; [done|].
  pose proof (gr_data _ _ _ _ _ _ Hg K (data_pos i) HK Hp Hd Hn) as Eb. unfold ptrs_of in Eb. by rewrite Eb.
Qed.

(** The inode on disk is the old one: what it lost it never had. *)
Lemma touched_lost k s s' I :
  inode_ix k → fs_ok s → touched k s (dinode s) s' I →
  others_kept k s s' ∧ dinode s' k = dinode s k ∧
  ∀ p, pos_ok p → ptrs_of s' (dinode s') k p = 0 ∨ ptrs_of s' (dinode s') k p = ptrs_of s' I k p.
Proof.
  intros Hk Hs Ht.
  assert (∀ j, inode_ix j → dinode s' j = dinode s j) as Ed by (intros; apply dinode_same; [apply Ht|done]).
  assert (∀ p, pos_ok p → ptrs_of s' (dinode s') k p = 0 ∨ ptrs_of s' (dinode s') k p = ptrs_of s' I k p) as Hsub.
  { intros p Hp. unfold ptrs_of. rewrite Ed by done. apply ptr_sub; [|done]. intros q Hq Hqok Hnz.
    pose proof (tc_keep _ _ _ _ _ Ht q Hqok) as Hkp. unfold ptrs_of in Hkp. destruct q; try done; cbn [ptr] in *; by apply Hkp. }
  split; [split|by split; [apply Ed|]].
  - apply Ht.
  - unfold own, bm. apply (owned_sub _ _ (ptrs_of s' I)); [apply Ht|]. intros j p Hj Hp. destruct (Z.eq_dec j k) as [->|Hne]; [auto|].
    right. unfold ptrs_of. rewrite Ed by done. by rewrite (tc_other _ _ _ _ _ Ht).
  - auto.
  - intros j o Hj Hne Hof. rewrite <-(tc_frame _ _ _ _ _ Ht j o) by done. rewrite Ed by done. by rewrite (tc_other _ _ _ _ _ Ht).
Qed.

(** Pointers that were there are still reached from the old inode. *)
Lemma ptr_kept B B0 n n' p :
  (∀ q, is_root q = true → pos_ok q → ptr B0 n q ≠ 0 → ptr B0 n' q = ptr B0 n q) → pos_ok p → ptr B0 n p ≠ 0 → ptr B n p = ptr B n' p.
Proof.
  intros Hr Hp Hn. destruct p as [i| |i| |i|i j]; cbn [ptr] in *.
  - symmetry. by apply (Hr (PDir i)).
  - symmetry. by apply (Hr PInd).
  - assert (i_indirect n' = i_indirect n) as ->; [|done]. apply (Hr PInd); [done|done|]. intros E. cbn in E. by rewrite E in Hn.
  - symmetry. by apply (Hr PDbl).
  - assert (i_double n' = i_double n) as ->; [|done]. apply (Hr PDbl); [done|done|]. intros E. cbn in E. by rewrite E in Hn.
  - assert (i_double n' = i_double n) as ->; [|done]. apply (Hr PDbl); [done|done|]. intros E. cbn in E. by rewrite E in Hn.
Qed.
End ops.
