(* ===== verification/DufsDirProps.v ===== *)
(** * DUFS: directories refine finite maps *)

From S2P Require Import Prelude Interfaces Vfs Bytes Dufs DufsSpec DufsGrow DufsWrite DufsFile DufsDir DufsDirSpec.

Section props.
Context {St : Type} {BS : BlockStore St} {Heap : Type} {KA : KAllocator Heap} {C : Type} {CK : Clock C}.
Context {SV : StoreView St} {BL : SureStoreLaws St dufs_blk dufs_sec}.
Implicit Types (s : fsys St Heap C) (n : dufs_inode) (D : gmap (list Z) Z).

Notation rel := (reliable (St := St) (Heap := Heap)).

(** What a directory keeps when its entries change. *)
Definition dir_meta n n' : Prop := i_type n' = i_type n ∧ i_link_count n' = i_link_count n ∧ i_size n' = i_size n.

Lemma touched_refl k s : fs_ok s → own s (dinode s) → inode_ix k → touched k s (dinode s) s (dinode s).
Proof. intros Hs Ho Hk. split; try done; [|by apply dinode_wf]. exists (bm s). unfold bm. by destruct (fs_mnt s). Qed.

Lemma dir_write s k idx x :
  inode_ix k → fs_ok s → own s (dinode s) → 0 <= idx < 2 ^ 20 → ptr (blk s) (dinode s k) (data_pos idx) ≠ 0 → length x = 4096%nat → bytes x →
  let '(ok, s') := write_block s (ptr (blk s) (dinode s k) (data_pos idx)) x in
  ok = true ∧ others_kept k s s' ∧ dinode s' k = dinode s k ∧
  (∀ i, 0 <= i < 2 ^ 20 → ptr (blk s') (dinode s' k) (data_pos i) = ptr (blk s) (dinode s k) (data_pos i)) ∧
  ∀ i e, 0 <= i < 2 ^ 20 → slot (blk s') (dinode s' k) i e =
    if i =? idx then (if entry_ino x e =? 0 then None else Some (entry_name x e, entry_ino x e)) else slot (blk s) (dinode s k) i e.
Proof.
  intros Hk Hs Ho Hi Hn Hl Hx. pose proof (dir_put s k (dinode s) idx x Hk Hs Ho Hi Hn Hl Hx) as Hp.
  assert (0 <= idx < max_blocks) as Hmx by (unfold max_blocks; lia).
  pose proof (touched_data k s (dinode s) s (dinode s) idx x Hk (touched_refl k s Hs Ho Hk) Hmx Hn Hl Hx) as Ht.
  change (ptr (blk s) (dinode s k) (data_pos idx)) with (ptrs_of s (dinode s) k (data_pos idx)).
  destruct (write_block s _ x) as [ok s']. destruct Hp as [Hp1 Hp2]. destruct Ht as [-> Ht]. split; [done|].
  destruct (touched_lost k s s' (dinode s) Hk Hs Ht) as (Ho' & Ed & _). rewrite Ed. done.
Qed.

(** The inode gets a new time: the directory is the same. *)
Lemma dir_touch s k t D :
  fs_ok s → own s (dinode s) → inode_ix k → dir_is s k D →
  let '(ok, s') := inode_write s k (set_mtime (u32 t) (dinode s k)) in
  others_kept k s s' ∧ dir_is s' k D ∧ dir_meta (dinode s k) (dinode s' k) ∧ i_block_count (dinode s' k) = i_block_count (dinode s k) ∧
  (ok = false → ¬ rel) ∧ (∀ p, pos_ok p → ptr (blk s') (dinode s' k) p = ptr (blk s) (dinode s k) p) ∧ same_blocks s s'.
Proof.
  intros Hs Ho Hk HD. pose proof (dinode_wf s k Hs Hk) as Hwf.
  assert (inode_wf (set_mtime (u32 t) (dinode s k))) as Hwf' by (destruct Hwf; split; cbn; auto using u32_range).
  pose proof (inode_meta_write s k _ Hs Ho Hk Hwf' ltac:(intros B p; by destruct p)) as Hw.
  destruct (inode_write s k _) as [ok s']. destruct Hw as (H1 & Hd & Hm & Hbad & Hf & HP & Hb).
  assert (i_block_count (dinode s' k) = i_block_count (dinode s k)) as Hc by (rewrite Hd; by destruct ok).
  split; [done|]. split; [|split; [unfold dir_meta; rewrite Hd; by destruct ok|done]].
  apply (dir_is_same s); [done| | |done].
  - intros i e Hi. destruct (data_ix i Hi) as [Hp _]. unfold slot. rewrite (HP (data_pos i) Hp : ptr _ _ _ = ptr _ _ _).
    destruct (Z.eqb_spec (ptr (blk s) (dinode s k) (data_pos i)) 0) as [|Hn]; [done|]. rewrite Hb; [done|]. by apply own_ptr_blk.
  - intros i Hi <-. apply HP. apply data_ix. destruct (di_count _ _ _ HD). lia.
Qed.

Lemma visible_ix n i e : visible n i e → i_block_count n <= 2 ^ 20 → 0 <= i < 2 ^ 20.
Proof. intros [? _] ?. lia. Qed.

(** The end of a change: what is released changes nothing. *)
Lemma dir_end s s1 s2 k D n :
  inode_ix k → others_kept k s s1 → dir_meta n (dinode s1 k) → dir_is s1 k D → quiet s1 s2 →
  others_kept k s s2 ∧ dir_meta n (dinode s2 k) ∧ dir_is s2 k D.
Proof.
  intros Hk Ho Hm HD Hq. pose proof (ok_fs _ _ _ Ho) as H1. pose proof (ok_own _ _ _ Ho) as H2. split; [|split].
  - eapply others_trans; [exact Ho|]. by apply others_quiet.
  - by rewrite (dinode_quiet s1).
  - by apply (dir_is_quiet s1).
Qed.

Lemma dir_remove_spec s k D nm :
  fs_ok s → own s (dinode s) → inode_ix k → dir_is s k D → name_ok nm →
  let '(found, s') := dir_remove s k nm in
  others_kept k s s' ∧ dir_meta (dinode s k) (dinode s' k) ∧
  (found = default 0 (D !! nm) ∧ dir_is s' k (delete nm D) ∨ found = 0 ∧ ¬ rel ∧ dir_is s' k D).
Proof.
  intros Hs Ho Hk HD Hn. unfold dir_remove. pose proof (dir_open s k Hs Hk) as H1.
  assert (∀ s', quiet s s' → others_kept k s s' ∧ dir_meta (dinode s k) (dinode s' k) ∧ dir_is s' k D) as Hquiet.
  { intros s' Hq. split; [by apply others_quiet|]. split; [unfold dir_meta; by rewrite (dinode_quiet s s')|by apply (dir_is_quiet s)]. }
  destruct (inode_read s k) as [[n|] s1].
  2:{ destruct H1 as [Hq Hr]. destruct (Hquiet _ Hq) as (? & ? & ?). split; [done|]. split; [done|]. by right. }
  destruct H1 as [Hq1 [-> H1]]. destruct (fs_malloc s1 DUFS_BLOCK_SIZE) as [buf s2]. destruct H1 as [Hq2 Hm].
  destruct (Z.eqb_spec buf 0) as [->|_]; [destruct (Hquiet _ Hq2) as (? & ? & ?); split; [done|]; split; [done|]; right; auto|].
  pose proof (dir_scan_spec s s2 k (λ lba b, (λ e, (lba, b, e)) <$> find_entry b nm) Hs Ho Hk Hq2 ltac:(apply (di_count _ _ _ HD))) as Hsc.
  destruct (dir_scan s2 (dinode s k) _) as [r s3]. destruct Hsc as [Hq3 Hr]. destruct r as [[[lba b] e]|].
  2:{ pose proof (kfree_last s s3 buf Hq3) as Hqf. destruct (Hquiet _ Hqf) as (Hk1 & Hk2 & Hk3). split; [done|]. split; [done|].
      destruct (D !! nm) as [ino|] eqn:E; [|left; split; [done|]; by rewrite delete_id].
      right. split; [done|]. split; [|done]. intros Hrel.
      apply (di_lookup _ _ _ HD) in E as (i & e & [Hi He] & Hsl). apply slot_some in Hsl as (Hp & H0 & Hnm & _).
      specialize (Hr Hrel i Hi Hp). pose proof (find_entry_spec (blk s (ptr (blk s) (dinode s k) (data_pos i))) nm Hn) as Hf.
      destruct (find_entry _ nm) as [e'|]; [done|]. by apply (Hf e He). }
  destruct Hr as (i & Hi & Hp & E). pose proof (find_entry_spec (blk s (ptr (blk s) (dinode s k) (data_pos i))) nm Hn) as Hf.
  destruct (find_entry _ nm) as [e0|]; [|done]. injection E as <- <- <-. destruct Hf as (He & Hne & Hnm).
  assert (0 <= i < 2 ^ 20) as Hix by (destruct (di_count _ _ _ HD); lia).
  remember (ptr (blk s) (dinode s k) (data_pos i)) as lba eqn:El. symmetry in El. remember (entry_ino (blk s lba) e0) as ino eqn:Eino. symmetry in Eino.
  assert (slot (blk s) (dinode s k) i e0 = Some (nm, ino)) as Hsl by (apply slot_some; cbn zeta; rewrite El, Eino; done).
  assert (D !! nm = Some ino) as HDnm by (apply (di_lookup _ _ _ HD); by exists i, e0). rewrite HDnm. cbn [default].
  unfold arch_time_unix_seconds. pose proof (time_quiet s3 (qu_ok _ _ Hq3)) as Hqt. unfold arch_time_unix_seconds in Hqt.
  destruct (clock_seconds (fs_clk s3)) as [t c]. cbn [snd] in Hqt. set (s4 := mk_fsys _ _ _ c) in *.
  assert (quiet s s4) as Hq4 by by eapply quiet_trans. destruct (Hquiet _ Hq4) as (Hk4 & Hm4 & HD4).
  assert (dinode s4 k = dinode s k) as Ed4 by by apply dinode_quiet.
  pose proof (dir_touch s4 k t D (ok_fs _ _ _ Hk4) (ok_own _ _ _ Hk4) Hk HD4) as Hw. rewrite Ed4 in Hw.
  destruct (inode_write s4 k _) as [ok s5]. destruct Hw as (Hk5 & HD5 & Hm5 & Hc5 & Hbad & HP5 & Hb5).
  assert (others_kept k s s5) as Hk05 by by eapply others_trans.
  destruct ok; cbn [negb].
  2:{ pose proof (kfree_quiet s5 buf (ok_fs _ _ _ Hk5)) as Hqf.
      destruct (dir_end s s5 _ k D (dinode s k) Hk Hk05 Hm5 HD5 Hqf) as (? & ? & ?).
      split; [done|]. split; [done|]. right. split; [done|]. split; [by apply Hbad|done]. }
  assert (pos_ok (data_pos i)) as Hpi by by apply data_ix.
  assert (ptr (blk s4) (dinode s k) (data_pos i) = lba) as El4.
  { rewrite <-El. exact (ptrs_quiet s s4 (dinode s) k (data_pos i) Hs Ho Hq4 Hk Hpi). }
  assert (ptr (blk s5) (dinode s5 k) (data_pos i) = lba) as El5 by by rewrite HP5.
  assert (blk s5 lba = blk s lba) as Eb5.
  { assert (dufs_blk lba) by (rewrite <-El; apply own_ptr_blk; try done; by rewrite El). rewrite Hb5 by done. by apply (qu_blk _ _ Hq4). }
  destruct (blk_len s lba Hs) as [Hbl Hbb]; [rewrite <-El; apply own_ptr_blk; try done; by rewrite El|].
  destruct (clear_entry_ok (blk s lba) e0 Hbl Hbb He) as [Hxl Hxb].
  pose proof (dir_write s5 k i (clear_entry (blk s lba) e0) Hk (ok_fs _ _ _ Hk5) (ok_own _ _ _ Hk5) Hix ltac:(by rewrite El5) Hxl Hxb) as Hw.
  rewrite El5 in Hw. destruct (write_block s5 lba _) as [rc s6]. destruct Hw as (_ & Hk6 & Ed6 & HP6 & Hs6).
  assert (dir_is s6 k (delete nm D)) as HD6.
  { assert (slot (blk s5) (dinode s5 k) i e0 = Some (nm, ino)) as Hsl5.
    { apply slot_some. cbn zeta. rewrite El5, Eb5, Eino. done. }
    refine (dir_is_emptied s5 s6 k D i e0 nm ino HD5 _ Hsl5 _ _ _ _).
    - split; [by rewrite Hc5|done].
    - by rewrite Ed6.
    - intros j Hj. rewrite HP6 by (destruct (di_count _ _ _ HD5); lia). by apply (di_tail _ _ _ HD5).
    - rewrite Hs6, Z.eqb_refl by done. destruct (clear_entry_at (blk s lba) e0 e0) as [Ei _]; [unfold blen; lia|done|done|].
      rewrite Ei, Z.eqb_refl. done.
    - intros j e Hv Hne'. pose proof (visible_ix _ _ _ Hv (proj2 (di_count _ _ _ HD5))) as Hj. rewrite Hs6 by done.
      destruct (Z.eqb_spec j i) as [->|]; [|done]. assert (e ≠ e0) as Hee by congruence. destruct Hv as [_ Hev].
      destruct (clear_entry_at (blk s lba) e0 e) as [Ei En]; [unfold blen; lia|done|done|]. specialize (En Hee).
      rewrite Ei, (proj2 (Z.eqb_neq e e0)), En by done. unfold slot. rewrite El5, Eb5. by rewrite (proj2 (Z.eqb_neq lba 0)). }
  pose proof (kfree_quiet s6 buf (ok_fs _ _ _ Hk6)) as Hqf.
  destruct (dir_end s s6 _ k _ (dinode s k) Hk ltac:(by eapply others_trans) ltac:(by rewrite Ed6) HD6 Hqf) as (? & ? & ?).
  split; [done|]. split; [done|]. by left.
Qed.

(** ** Adding *)

(** The old inode reads the new blocks as the new one, where the pointers are the same. *)
Lemma lost_slot s k s' I i e :
  inode_ix k → fs_ok s → touched k s (dinode s) s' I → 0 <= i < 2 ^ 20 →
  slot (blk s') (I k) i e = slot (blk s) (dinode s k) i e → ptr (blk s') (I k) (data_pos i) = ptr (blk s) (dinode s k) (data_pos i) →
  slot (blk s') (dinode s' k) i e = slot (blk s) (dinode s k) i e ∧ ptr (blk s') (dinode s' k) (data_pos i) = ptr (blk s) (dinode s k) (data_pos i).
Proof.
  intros Hk Hs Ht Hi Es Ep. destruct (data_ix i Hi) as [Hp _]. destruct (touched_lost k s s' I Hk Hs Ht) as (_ & Ed & Hl).
  assert (ptr (blk s') (dinode s' k) (data_pos i) = ptr (blk s') (I k) (data_pos i)) as E.
  { destruct (Z.eq_dec (ptr (blk s) (dinode s k) (data_pos i)) 0) as [E0|Hn].
    - destruct (Hl (data_pos i) Hp) as [E|E]; unfold ptrs_of in E; [by rewrite E, Ep|done].
    - rewrite Ed. apply (ptr_kept (blk s') (blk s)); [|done|done]. intros q Hq Hqok Hnz.
      pose proof (tc_keep _ _ _ _ _ Ht q Hqok) as Hkp. unfold ptrs_of in Hkp. destruct q; try done; cbn [ptr] in *; by apply Hkp. }
  rewrite E. split; [|done]. rewrite <-Es. unfold slot. by rewrite E.
Qed.

(** Blocks that stay are read alike. *)
Lemma slot_blocks s s' I n k i e :
  fs_ok s → own s I → inode_ix k → 0 <= i < 2 ^ 20 → same_blocks s s' → (∀ B p, ptr B n p = ptr B (I k) p) →
  slot (blk s') n i e = slot (blk s) (I k) i e ∧ ptr (blk s') n (data_pos i) = ptr (blk s) (I k) (data_pos i).
Proof.
  intros Hs Ho Hk Hi Hb Hp. destruct (data_ix i Hi) as [Hpi _].
  pose proof (ptrs_same s s' I I k (data_pos i) Hs Ho Hb eq_refl Hk Hpi) as E. unfold ptrs_of in E.
  unfold slot. rewrite Hp, E. split; [|done]. destruct (Z.eqb_spec (ptr (blk s) (I k) (data_pos i)) 0) as [|Hn]; [done|].
  rewrite Hb; [done|]. by apply (own_blk s I k (data_pos i)).
Qed.

(** A directory's block is put where the block was ensured. *)
Lemma extend_slots s k idx lba n1 s1 s2 x ok s3 :
  inode_ix k → fs_ok s → own s (dinode s) → 0 <= idx < 2 ^ 20 → lba ≠ 0 → length x = 4096%nat → bytes x →
  block_ensure s (dinode s k) idx = (lba, n1, s1) → quiet s1 s2 → write_block s2 lba x = (ok, s3) →
  let I := upd_inode (dinode s) k n1 in
  ok = true ∧ touched k s (dinode s) s3 I ∧ counted 0 3 (dinode s k) n1 ∧
  (ptr (blk s) (dinode s k) (data_pos idx) = 0 → counted 1 3 (dinode s k) n1) ∧
  (∀ i e, 0 <= i < 2 ^ 20 → i ≠ idx →
     slot (blk s3) (I k) i e = slot (blk s) (dinode s k) i e ∧ ptr (blk s3) (I k) (data_pos i) = ptr (blk s) (dinode s k) (data_pos i)) ∧
  ∀ e, slot (blk s3) (I k) idx e = if entry_ino x e =? 0 then None else Some (entry_name x e, entry_ino x e).
Proof.
  intros Hk Hs Ho Hi Hn Hl Hx E1 Hq E2 I. assert (0 <= idx < max_blocks) as Hmx by (unfold max_blocks; lia).
  pose proof (block_ensure_spec k s (dinode s) idx Hk Hs Ho (dinode_wf s k Hs Hk) Hmx) as He. rewrite E1 in He.
  destruct He as (Hg & Hc & Hp). rewrite (proj2 (Z.eqb_neq lba 0)) in Hp by done. fold I in Hg, Hp.
  pose proof (grows_quiet k (λ _, False) s1 I s2 Hk (gr_ok _ _ _ _ _ _ Hg) (gr_own _ _ _ _ _ _ Hg) Hq) as Hg2.
  assert (touched k s (dinode s) s2 I) as Ht2.
  { eapply touched_grows; [done| |exact Hg2]. eapply touched_grows; [done| |exact Hg]. by apply touched_refl. }
  destruct (data_ix idx Hi) as [Hpi Hdi].
  assert (ptrs_of s2 I k (data_pos idx) = lba) as El.
  { rewrite (ptrs_quiet s1 s2 I k (data_pos idx)); [done|apply Hg|apply Hg|done|done|done]. }
  pose proof (dir_put s2 k I idx x Hk (tc_ok _ _ _ _ _ Ht2) (tc_own _ _ _ _ _ Ht2) Hi ltac:(by rewrite El) Hl Hx) as Hd.
  pose proof (touched_data k s (dinode s) s2 I idx x Hk Ht2 Hmx ltac:(by rewrite El) Hl Hx) as Ht3.
  rewrite El, E2 in Hd, Ht3. destruct Hd as [Hd1 Hd2]. destruct Ht3 as [-> Ht3]. split; [done|]. split; [done|].
  split; [eapply counted_weaken; [| |exact Hc]; [case_bool_decide; lia|lia]|].
  split; [intros H0; eapply counted_weaken; [| |exact Hc]; [rewrite bool_decide_true; [lia|]; done|lia]|].
  split.
  - intros i e Hii Hne.
    destruct (slot_grows k _ s (dinode s) s1 I i e Hk Hg Hii) as [A1 A2].
    { intros [_ Eq]. apply Hne. apply data_pos_inj; [unfold max_blocks; lia|lia|done]. }
    destruct (slot_grows k _ s1 I s2 I i e Hk Hg2 Hii) as [B1 B2]; [intros []|].
    rewrite Hd1, Hd2 by done. rewrite (proj2 (Z.eqb_neq i idx)) by done. by rewrite B1, B2.
  - intros e. rewrite Hd2 by done. by rewrite Z.eqb_refl.
Qed.

(** The names a directory shows; it may hold blocks beyond the counted ones. *)
Definition dir_shows s (k : Z) D : Prop :=
  ∀ nm ino, D !! nm = Some ino ↔ ∃ i e, visible (dinode s k) i e ∧ slot (blk s) (dinode s k) i e = Some (nm, ino).

Lemma dir_shows_same s s' k D :
  dir_is s k D → i_block_count (dinode s' k) = i_block_count (dinode s k) →
  (∀ i e, 0 <= i < i_block_count (dinode s k) → slot (blk s') (dinode s' k) i e = slot (blk s) (dinode s k) i e) → dir_shows s' k D.
Proof.
  intros HD Hc Hs nm ino. rewrite (di_lookup _ _ _ HD). unfold visible. rewrite Hc.
  split; intros (i & e & Hv & E); exists i, e; (split; [done|]); destruct Hv; [by rewrite Hs|by rewrite <-Hs].
Qed.

(** What [dir_add] does when no block has room; [f] releases the buffer. *)
Definition dir_extend s (k : Z) n x (f : fsys St Heap C → fsys St Heap C) : bool * fsys St Heap C :=
  let '(new_lba, dir, s) := block_ensure s n (i_block_count n) in
  if new_lba =? 0 then (false, f s)
  else
    let '(t, s) := arch_time_unix_seconds s in
    let '(ok, s) := write_block s new_lba x in
    let s := f s in
    if negb ok then (false, s) else inode_write s k (set_mtime t dir).

Definition added s k D nm ino (r : bool * fsys St Heap C) : Prop :=
  let '(ok, s') := r in
  others_kept k s s' ∧
  (ok = true ∧ dir_is s' k (<[nm := ino]> D) ∨
   ok = false ∧ dir_is s' k D ∧ (rel → full s') ∨
   ok = false ∧ ¬ rel ∧ dir_shows s' k D).

(** No room and no block for it. *)
Lemma extend_full s k D n1 s1 s2 :
  inode_ix k → fs_ok s → own s (dinode s) → dir_is s k D → 0 <= i_block_count (dinode s k) < 2 ^ 20 →
  block_ensure s (dinode s k) (i_block_count (dinode s k)) = (0, n1, s1) → quiet s1 s2 →
  others_kept k s s2 ∧ dir_is s2 k D ∧ (rel → full s2).
Proof.
  intros Hk Hs Ho HD Hi E1 Hq. assert (0 <= i_block_count (dinode s k) < max_blocks) as Hmx by (unfold max_blocks; lia).
  pose proof (block_ensure_spec k s (dinode s) _ Hk Hs Ho (dinode_wf s k Hs Hk) Hmx) as He. rewrite E1 in He.
  destruct He as (Hg & _ & Hf). cbn [Z.eqb] in Hf. set (I := upd_inode (dinode s) k n1) in *.
  pose proof (touched_grows k _ s (dinode s) s (dinode s) s1 I Hk (touched_refl k s Hs Ho Hk) Hg) as Ht1.
  destruct (touched_lost k s s1 I Hk Hs Ht1) as (Hk1 & Ed & _).
  assert (∀ i e, 0 <= i < 2 ^ 20 → slot (blk s1) (dinode s1 k) i e = slot (blk s) (dinode s k) i e ∧
    ptr (blk s1) (dinode s1 k) (data_pos i) = ptr (blk s) (dinode s k) (data_pos i)) as Hsl.
  { intros i e Hii. destruct (slot_grows k _ s (dinode s) s1 I i e Hk Hg Hii) as [A1 A2]; [naive_solver|]. by apply (lost_slot s k s1 I). }
  assert (dir_is s1 k D) as HD1.
  { apply (dir_is_same s); [by rewrite Ed|intros i e Hii; by apply Hsl| |done].
    intros i Hii <-. apply (Hsl i 0). lia. }
  pose proof Hk1 as [A1 A2 _ _]. split; [eapply others_trans; [exact Hk1|by apply others_quiet]|]. split; [by apply (dir_is_quiet s1)|].
  intros Hr b. unfold full, bm in *. rewrite (qu_mnt _ _ Hq). by apply Hf.
Qed.

(** The inode is put back last. *)
Lemma extend_back s k D nm ino n1 s3 s4 t :
  inode_ix k → fs_ok s → own s (dinode s) → dir_is s k D → is_u32 ino → ino ≠ 0 → D !! nm = None →
  i_block_count (dinode s k) + 3 <= 2 ^ 20 →
  let I := upd_inode (dinode s) k n1 in let bc := i_block_count (dinode s k) in
  touched k s (dinode s) s3 I → counted 1 3 (dinode s k) n1 → quiet s3 s4 →
  (∀ i e, 0 <= i < 2 ^ 20 → i ≠ bc →
     slot (blk s3) (I k) i e = slot (blk s) (dinode s k) i e ∧ ptr (blk s3) (I k) (data_pos i) = ptr (blk s) (dinode s k) (data_pos i)) →
  (∀ e, slot_ix e → slot (blk s3) (I k) bc e = if e =? 0 then Some (nm, ino) else None) →
  added s k D nm ino (inode_write s4 k (set_mtime (u32 t) n1)).
Proof.
  intros Hk Hs Ho HD Hu H0 Hno Hlim I bc Ht Hc Hqf Hoth Hnew. pose proof (di_count _ _ _ HD) as Hbc. fold bc in Hlim, Hbc.
  assert (I k = n1) as EI by apply upd_inode_eq.
  assert (touched k s (dinode s) s4 I) as Ht4.
  { eapply touched_grows; [done|exact Ht|]. apply (grows_quiet k (λ _, False)); [done|apply Ht|apply Ht|done]. }
  assert (∀ n, (∀ B p, ptr B n p = ptr B (I k) p) → ∀ s5, same_blocks s4 s5 → ∀ i e, 0 <= i < 2 ^ 20 →
    slot (blk s5) n i e = slot (blk s3) (I k) i e ∧ ptr (blk s5) n (data_pos i) = ptr (blk s3) (I k) (data_pos i)) as Hread.
  { intros n Hp s5 Hb i e Hii. apply slot_blocks; [apply Ht|apply Ht|done|done| |done]. intros b Hbb. rewrite Hb by done. by apply Hqf. }
  pose proof (tc_wf _ _ _ _ _ Ht) as Hwf. rewrite EI in Hwf.
  assert (inode_wf (set_mtime (u32 t) n1)) as Hwf5 by (destruct Hwf; split; cbn; auto using u32_range).
  assert (∀ B p, ptr B (set_mtime (u32 t) n1) p = ptr B (I k) p) as Hp5 by (intros B p; rewrite EI; by destruct p).
  pose proof (inode_write_spec s4 k _ (tc_ok _ _ _ _ _ Ht4) Hk Hwf5) as Hw.
  destruct (inode_write s4 k _) as [ok s5] eqn:E5.
  destruct (write_back_others k s s4 I _ s5 ok Hk Hs Ht4 Hwf5 Hp5 E5) as (Hk5 & _ & Hbad & Hd5 & Hb5).
  unfold added. split; [done|]. destruct ok.
  - left. split; [done|]. specialize (Hd5 eq_refl). destruct Hc as (c & Hcr & Ec). fold bc in Ec.
    change (2 ^ 20) with 1048576 in Hlim. rewrite u32_small in Ec by (unfold is_u32; lia).
    assert (i_block_count (dinode s5 k) = bc + c) as Ec5 by (rewrite Hd5; exact Ec).
    assert (∀ i e, 0 <= i < 2 ^ 20 → slot (blk s5) (dinode s5 k) i e = slot (blk s3) (I k) i e ∧
      ptr (blk s5) (dinode s5 k) (data_pos i) = ptr (blk s3) (I k) (data_pos i)) as Hr5 by (rewrite Hd5; by apply Hread).
    refine (dir_is_filled s s5 k D bc 0 nm ino HD _ Hno _ _ _ _ _); rewrite ?Ec5.
    + split; [rewrite Ec5; lia|done].
    + fold bc. change (2 ^ 20) with 1048576. lia.
    + intros i Hi. destruct (Hr5 i 0 ltac:(lia)) as [_ ->]. destruct (Hoth i 0 ltac:(lia) ltac:(lia)) as [_ ->].
      apply (di_tail _ _ _ HD). fold bc. lia.
    + intros [Hv _]. fold bc in Hv. lia.
    + destruct (Hr5 bc 0 ltac:(lia)) as [-> _]. by rewrite Hnew.
    + intros i e [Hi He] Hne. rewrite Ec5 in Hi. fold bc. assert (0 <= i < 2 ^ 20) as Hix by (change (2 ^ 20) with 1048576; lia).
      destruct (Hr5 i e Hix) as [-> _]. destruct (Z.eq_dec i bc) as [->|Hnb].
      * rewrite Hnew, Z.ltb_irrefl by done. by rewrite (proj2 (Z.eqb_neq e 0)) by congruence.
      * destruct (Hoth i e Hix Hnb) as [-> _]. destruct (Z.ltb_spec i bc); [done|].
        unfold slot. by rewrite (di_tail _ _ _ HD) by (fold bc; lia).
  - right. right. split; [done|]. split; [by apply Hbad|].
    destruct Hw as (_ & _ & _ & Hdi & _). cbn [andb] in Hdi.
    assert (dinode s5 k = dinode s k) as Ed.
    { rewrite Hdi by done. apply dinode_same; [apply Ht4|done]. }
    apply (dir_shows_same s); [done|by rewrite Ed|]. intros i e Hi. fold bc in Hi. assert (0 <= i < 2 ^ 20) as Hix by lia.
    destruct (Hoth i e Hix ltac:(lia)) as [A1 A2].
    assert (slot (blk s5) (dinode s5 k) i e = slot (blk s4) (dinode s4 k) i e) as ->.
    + refine (proj1 (slot_blocks s4 s5 (dinode s4) (dinode s5 k) k i e (tc_ok _ _ _ _ _ Ht4) _ Hk Hix Hb5 _)).
      * by destruct (touched_lost k s s4 I Hk Hs Ht4) as ([] & _).
      * intros B p. by rewrite Hdi.
    + destruct (Hread (I k) ltac:(done) s4 ltac:(done) i e Hix) as [B1 B2].
      apply (lost_slot s k s4 I); [done|done|done|done|by rewrite B1|by rewrite B2].
Qed.

Lemma dir_extend_spec s k D nm ino f :
  inode_ix k → fs_ok s → own s (dinode s) → dir_is s k D → name_ok nm → is_u32 ino → ino ≠ 0 → D !! nm = None →
  i_block_count (dinode s k) + 3 <= 2 ^ 20 → (∀ s', fs_ok s' → quiet s' (f s')) →
  added s k D nm ino (dir_extend s k (dinode s k) (put_entry (zeros_buf DUFS_BLOCK_SIZE) 0 nm ino) f).
Proof.
  intros Hk Hs Ho HD Hnm Hu H0 Hno Hlim Hf. unfold dir_extend. pose proof (di_count _ _ _ HD) as Hbc.
  set (bc := i_block_count (dinode s k)) in *. assert (0 <= bc < 2 ^ 20) as Hi by lia.
  destruct (block_ensure s (dinode s k) bc) as [[lba n1] s1] eqn:E1.
  assert (fs_ok s1) as Hs1.
  { assert (0 <= bc < max_blocks) as Hmx by (unfold max_blocks; lia).
    pose proof (block_ensure_spec k s (dinode s) bc Hk Hs Ho (dinode_wf s k Hs Hk) Hmx) as He. rewrite E1 in He. apply He. }
  destruct (Z.eqb_spec lba 0) as [->|Hn].
  { destruct (extend_full s k D n1 s1 (f s1) Hk Hs Ho HD Hi E1 (Hf _ Hs1)) as (A1 & A2 & A3). split; [done|]. right. by left. }
  unfold arch_time_unix_seconds. pose proof (time_quiet s1 Hs1) as Hqt. unfold arch_time_unix_seconds in Hqt.
  destruct (clock_seconds (fs_clk s1)) as [t c]. cbn [snd] in Hqt. set (s2 := mk_fsys _ _ _ c) in *. clearbody s2.
  set (x := put_entry (zeros_buf DUFS_BLOCK_SIZE) 0 nm ino).
  assert (slot_ix 0) as Hs0 by done.
  destruct (put_entry_ok (zeros_buf DUFS_BLOCK_SIZE) 0 nm ino ltac:(done) (bytes_zeros _) Hs0 Hnm) as [Hxl Hxb]. fold x in Hxl, Hxb.
  destruct (write_block s2 lba x) as [ok s3] eqn:E3.
  destruct (extend_slots s k bc lba n1 s1 s2 x ok s3 Hk Hs Ho Hi Hn Hxl Hxb E1 Hqt E3) as (-> & Ht & _ & Hc & Hoth & Hnew).
  cbn [negb]. set (I := upd_inode (dinode s) k n1) in *. specialize (Hc (di_tail _ _ _ HD bc ltac:(lia))).
  pose proof (Hf s3 (tc_ok _ _ _ _ _ Ht)) as Hqf. set (s4 := f s3) in *. clearbody s4.
  apply (extend_back s k D nm ino n1 s3 s4 t); try done.
  intros e He. rewrite Hnew. unfold x. destruct (put_entry_at (zeros_buf DUFS_BLOCK_SIZE) 0 nm ino e) as [-> ->]; try done.
  destruct (Z.eqb_spec e 0) as [->|]; [by rewrite (proj2 (Z.eqb_neq ino 0))|]. by rewrite entry_ino_zeros.
Qed.

(** An empty entry is filled. *)
Lemma dir_fill s k D nm ino i e0 lba t f :
  fs_ok s → own s (dinode s) → inode_ix k → dir_is s k D → name_ok nm → is_u32 ino → ino ≠ 0 → D !! nm = None →
  visible (dinode s k) i e0 → ptr (blk s) (dinode s k) (data_pos i) = lba → lba ≠ 0 → entry_ino (blk s lba) e0 = 0 →
  (∀ s', fs_ok s' → quiet s' (f s')) →
  added s k D nm ino
    (let '(ok, s1) := inode_write s k (set_mtime (u32 t) (dinode s k)) in
     if negb ok then (false, f s1)
     else let '(rc, s2) := write_block s1 lba (put_entry (blk s lba) e0 nm ino) in (rc, f s2)).
Proof.
  intros Hs Ho Hk HD Hnm Hu H0 Hno Hv El Hn He0 Hf. pose proof Hv as [Hi He]. pose proof (visible_ix _ _ _ Hv (proj2 (di_count _ _ _ HD))) as Hix.
  assert (dufs_blk lba) as Hbl by (rewrite <-El; apply own_ptr_blk; try done; [by apply data_ix|by rewrite El]).
  pose proof (dir_touch s k t D Hs Ho Hk HD) as Hw. destruct (inode_write s k _) as [ok s1]. destruct Hw as (Hk1 & HD1 & Hm1 & Hc1 & Hbad & HP1 & Hb1).
  destruct ok; cbn [negb].
  2:{ destruct (dir_end s s1 _ k D (dinode s k) Hk Hk1 Hm1 HD1 (Hf _ (ok_fs _ _ _ Hk1))) as (? & _ & ?).
      split; [done|]. right. left. split; [done|]. split; [done|]. intros Hr. by destruct (Hbad eq_refl). }
  assert (ptr (blk s1) (dinode s1 k) (data_pos i) = lba) as El1 by (rewrite HP1; [done|by apply data_ix]).
  assert (blk s1 lba = blk s lba) as Eb1 by by rewrite Hb1.
  destruct (blk_len s lba Hs Hbl) as [Hl Hb]. destruct (put_entry_ok (blk s lba) e0 nm ino Hl Hb He Hnm) as [Hxl Hxb].
  pose proof (dir_write s1 k i _ Hk (ok_fs _ _ _ Hk1) (ok_own _ _ _ Hk1) Hix ltac:(by rewrite El1) Hxl Hxb) as Hw.
  rewrite El1 in Hw. destruct (write_block s1 lba _) as [rc s2]. destruct Hw as (-> & Hk2 & Ed2 & HP2 & Hs2).
  assert (dir_is s2 k (<[nm := ino]> D)) as HD2.
  { refine (dir_is_filled s1 s2 k D i e0 nm ino HD1 _ Hno _ _ _ _ _); rewrite ?Ed2, ?Hc1.
    - split; [by rewrite Hc1|done].
    - pose proof (di_count _ _ _ HD). lia.
    - intros j Hj. rewrite <-Ed2, HP2 by (pose proof (di_count _ _ _ HD); lia). apply (di_tail _ _ _ HD1). by rewrite Hc1.
    - intros _. unfold slot. rewrite El1, Eb1, He0. by rewrite (proj2 (Z.eqb_neq lba 0)).
    - rewrite <-Ed2, Hs2, Z.eqb_refl by done. destruct (put_entry_at (blk s lba) e0 nm ino e0) as [-> ->]; [unfold blen; lia|done..|].
      rewrite Z.eqb_refl. by rewrite (proj2 (Z.eqb_neq ino 0)).
    - intros j e Hvj Hne. unfold visible in Hvj. rewrite Hc1 in Hvj. rewrite (proj2 (Z.ltb_lt _ _)) by lia.
      assert (0 <= j < 2 ^ 20) as Hj by (pose proof (di_count _ _ _ HD); lia). rewrite <-Ed2 at 1. rewrite Hs2 by done.
      destruct (Z.eqb_spec j i) as [->|]; [|done]. assert (e ≠ e0) as Hee by congruence.
      destruct (put_entry_at (blk s lba) e0 nm ino e) as [-> ->]; [unfold blen; lia|done|apply Hvj|done|done|].
      rewrite (proj2 (Z.eqb_neq e e0)) by done. unfold slot. rewrite El1, Eb1. by rewrite (proj2 (Z.eqb_neq lba 0)). }
  destruct (dir_end s s2 _ k _ (dinode s k) Hk ltac:(by eapply others_trans) ltac:(by rewrite Ed2) HD2 (Hf _ (ok_fs _ _ _ Hk2))) as (? & _ & ?).
  split; [done|]. by left.
Qed.

Lemma added_quiet s s1 k D nm ino r :
  fs_ok s → own s (dinode s) → inode_ix k → quiet s s1 → added s1 k D nm ino r → added s k D nm ino r.
Proof.
  intros Hs Ho Hk Hq. destruct r as [ok s']. intros [H1 H2]. split; [|done]. eapply others_trans; [|exact H1]. by apply others_quiet.
Qed.

Lemma dir_add_spec s k D nm ino :
  fs_ok s → own s (dinode s) → inode_ix k → dir_is s k D → name_ok nm → is_u32 ino → ino ≠ 0 → D !! nm = None →
  i_block_count (dinode s k) + 3 <= 2 ^ 20 → added s k D nm ino (dir_add s k nm ino).
Proof.
  intros Hs Ho Hk HD Hn Hu H0 Hno Hlim. unfold dir_add. pose proof (dir_open s k Hs Hk) as H1.
  assert (∀ s', quiet s s' → ¬ rel → added s k D nm ino (false, s')) as Hquiet.
  { intros s' Hq Hr. split; [by apply others_quiet|]. right. left. split; [done|]. split; [by apply (dir_is_quiet s)|done]. }
  destruct (inode_read s k) as [[n|] s1]; [|destruct H1; auto]. destruct H1 as [Hq1 [-> H1]].
  destruct (fs_malloc s1 DUFS_BLOCK_SIZE) as [buf s2]. destruct H1 as [Hq2 Hm].
  destruct (Z.eqb_spec buf 0) as [->|_]; [auto|].
  pose proof (dir_scan_spec s s2 k (λ lba b, (λ e, (lba, b, e)) <$> find_empty b) Hs Ho Hk Hq2 ltac:(apply (di_count _ _ _ HD))) as Hsc.
  destruct (dir_scan s2 (dinode s k) _) as [r s3]. destruct Hsc as [Hq3 Hr].
  assert (∀ s', quiet s s' → fs_ok s' ∧ own s' (dinode s') ∧ dir_is s' k D ∧ dinode s' k = dinode s k) as Hsame.
  { intros s' Hq. destruct (others_quiet k s s' Hs Ho Hq) as [? ? _ _]. split; [done|]. split; [done|]. split; [by apply (dir_is_quiet s)|by apply dinode_quiet]. }
  assert (∀ s', fs_ok s' → quiet s' (fs_kfree s' buf)) as Hf by (intros; by apply kfree_quiet).
  destruct r as [[[lba b] e]|].
  - destruct Hr as (i & Hi & Hp & E). pose proof (find_empty_spec (blk s (ptr (blk s) (dinode s k) (data_pos i)))) as Hfe.
    destruct (find_empty _) as [e0|]; [|done]. injection E as <- <- <-. destruct Hfe as (He & He0).
    remember (ptr (blk s) (dinode s k) (data_pos i)) as lba eqn:El. symmetry in El.
    unfold arch_time_unix_seconds. pose proof (time_quiet s3 (qu_ok _ _ Hq3)) as Hqt. unfold arch_time_unix_seconds in Hqt.
    destruct (clock_seconds (fs_clk s3)) as [t c]. cbn [snd] in Hqt. set (s4 := mk_fsys _ _ _ c) in *.
    assert (quiet s s4) as Hq4 by by eapply quiet_trans. clear Hqt. clearbody s4. destruct (Hsame _ Hq4) as (A1 & A2 & A3 & Ed).
    assert (dufs_blk lba) as Hbl.
    { rewrite <-El. apply own_ptr_blk; try done; [|by rewrite El]. apply data_ix. pose proof (di_count _ _ _ HD). lia. }
    assert (blk s4 lba = blk s lba) as Eb by by apply (qu_blk _ _ Hq4).
    assert (ptr (blk s4) (dinode s4 k) (data_pos i) = lba) as El4.
    { rewrite Ed, <-El. apply (ptrs_quiet s s4 (dinode s) k (data_pos i)); try done. apply data_ix. pose proof (di_count _ _ _ HD). lia. }
    apply (added_quiet s s4); [done..|]. rewrite <-Ed, <-Eb.
    apply (dir_fill s4 k D nm ino i e0 lba t (λ s', fs_kfree s' buf)); try done; [split; [by rewrite Ed|done]|by rewrite Eb].
  - destruct (Hsame _ Hq3) as (A1 & A2 & A3 & Ed). apply (added_quiet s s3); [done..|].
    rewrite <-Ed. apply (dir_extend_spec s3 k D nm ino (λ s', fs_kfree s' buf)); try done. by rewrite Ed.
Qed.

(** ** Directories are finite maps *)

Lemma dir_lookup_sure s k D nm found s' :
  fs_ok s → own s (dinode s) → inode_ix k → dir_is s k D → name_ok nm → dir_lookup s k nm = (found, s') →
  quiet s s' ∧ dir_is s' k D ∧ (found = default 0 (D !! nm) ∨ found = 0 ∧ ¬ rel).
Proof.
  intros Hs Ho Hk HD Hn E. pose proof (dir_lookup_spec s k D nm Hs Ho Hk HD Hn) as Hl. rewrite E in Hl. destruct Hl as [Hq Hf].
  split; [done|]. split; [by apply (dir_is_quiet s)|done].
Qed.

Lemma dir_add_sure s k D nm ino ok s' :
  fs_ok s → own s (dinode s) → inode_ix k → dir_is s k D → name_ok nm → is_u32 ino → ino ≠ 0 → D !! nm = None →
  i_block_count (dinode s k) + 3 <= 2 ^ 20 → dir_add s k nm ino = (ok, s') →
  others_kept k s s' ∧ (∀ j E, inode_ix j → j ≠ k → dir_is s j E → dir_is s' j E) ∧
  (ok = true ∧ dir_is s' k (<[nm := ino]> D) ∨
   ok = false ∧ dir_is s' k D ∧ (rel → full s') ∨
   ok = false ∧ ¬ rel ∧ dir_shows s' k D).
Proof.
  intros Hs Ho Hk HD Hn Hu H0 Hno Hlim E. pose proof (dir_add_spec s k D nm ino Hs Ho Hk HD Hn Hu H0 Hno Hlim) as Ha. rewrite E in Ha.
  destruct Ha as [Hoth Hr]. split; [done|]. split; [|done]. intros j E' Hj Hne. by apply (dir_is_others k s).
Qed.

Lemma dir_remove_sure s k D nm found s' :
  fs_ok s → own s (dinode s) → inode_ix k → dir_is s k D → name_ok nm → dir_remove s k nm = (found, s') →
  others_kept k s s' ∧ (∀ j E, inode_ix j → j ≠ k → dir_is s j E → dir_is s' j E) ∧ dir_meta (dinode s k) (dinode s' k) ∧
  (found = default 0 (D !! nm) ∧ dir_is s' k (delete nm D) ∨ found = 0 ∧ ¬ rel ∧ dir_is s' k D).
Proof.
  intros Hs Ho Hk HD Hn E. pose proof (dir_remove_spec s k D nm Hs Ho Hk HD Hn) as Hr. rewrite E in Hr.
  destruct Hr as (Hoth & Hm & Hr). split; [done|]. split; [|done]. intros j E' Hj Hne. by apply (dir_is_others k s).
Qed.
End props.
