(* ===== verification/DufsSim.v ===== *)
(** * DUFS: runs on a store and on its shadow

    What the store, the heap, the clock and the cached bitmaps keep, every
    operation keeps ([sticky]).  As long as nothing fails an operation does on
    the shadow of a store what it does on the store itself ([sim]). *)

From S2P Require Import Prelude Interfaces Vfs Bytes Dufs DufsDir.

Create HintDb stick.

(** The predicate after a chain of calls and tests. *)
Ltac stick :=
  cbv zeta; cbn [fst snd];
  first
    [ assumption
    | solve [auto with stick]
    | lazymatch goal with
      | |- _ (snd (match ?e with _ => _ end)) => stick_on e
      | |- _ (match ?e with _ => _ end) => stick_on e
      end; stick ]
with stick_on e :=
  lazymatch type of e with
  | (_ * fsys _ _ _)%type =>
      let H := fresh "Hst" in
      lazymatch goal with |- ?D _ => assert (D (snd e)) as H by stick end; destruct e; cbn [snd] in H
  | _ => destruct e
  end.

Section sticky.
Context {St : Type} {BS : BlockStore St} {Heap : Type} {KA : KAllocator Heap} {C : Type} {CK : Clock C}.
Implicit Types (s : fsys St Heap C) (n : dufs_inode).

(** Kept by everything but writes, and by writes too. *)
Class steady_reads (D : fsys St Heap C → Prop) : Prop := {
  sk_mnt s m : D s → D (with_mnt m s);
  sk_read s dev lba : D s → D (with_st (bs_read (fs_st s) dev lba).2 s);
  sk_sread s dev x : D s → D (with_st (sec_read (fs_st s) dev x).2 s);
  sk_malloc s z : D s → D (with_hp (ka_malloc (fs_hp s) z).2 s);
  sk_free s p : D s → D (with_hp (ka_free (fs_hp s) p) s);
  sk_clock s c : D s → D (mk_fsys (fs_mnt s) (fs_st s) (fs_hp s) c);
}.
Class sticky (D : fsys St Heap C → Prop) : Prop := {
  sk_reads : steady_reads D;
  sk_write s dev lba b : D s → D (with_st (bs_write (fs_st s) dev lba b).2 s);
  sk_swrite s dev x b : D s → D (with_st (sec_write (fs_st s) dev x b).2 s);
}.

Section reads.
Context (D : fsys St Heap C → Prop) {HR : steady_reads D}.

Lemma read_block_stick s lba : D s → D (read_block s lba).2.
Proof. intros Hs. pose proof (sk_read s (g_blkdev (fs_mnt s)) lba Hs) as H. unfold read_block. by destruct (bs_read _ _ _). Qed.
Hint Resolve read_block_stick : stick.
Lemma malloc_stick s z : D s → D (fs_malloc s z).2.
Proof. intros Hs. pose proof (sk_malloc s z Hs) as H. unfold fs_malloc. by destruct (ka_malloc _ _). Qed.
Hint Resolve malloc_stick : stick.
Lemma kfree_stick s p : D s → D (fs_kfree s p).
Proof. apply sk_free. Qed.
Hint Resolve kfree_stick : stick.
Lemma mnt_stick s m : D s → D (with_mnt m s).
Proof. apply sk_mnt. Qed.
Hint Resolve mnt_stick : stick.
Lemma time_stick s : D s → D (arch_time_unix_seconds s).2.
Proof. intros Hs. unfold arch_time_unix_seconds. destruct (clock_seconds _). by apply sk_clock. Qed.
Hint Resolve time_stick : stick.
Lemma inode_read_stick s k : D s → D (inode_read s k).2.
Proof.
  intros Hs. unfold inode_read. cbv zeta. set (x := _ +u _). pose proof (sk_sread s (g_blkdev (fs_mnt s)) x Hs) as H.
  by destruct (sec_read _ _ _).
Qed.
Hint Resolve inode_read_stick : stick.
Lemma for_state_stick {R} i m (f : Z → fsys St Heap C → (R * fsys St Heap C) + fsys St Heap C) s :
  (∀ i s, D s → match f i s with inl r => D r.2 | inr s => D s end) → D s →
  match for_exit i m f s with inl r => D r.2 | inr s => D s end.
Proof.
  intros Hf. revert i s. induction m as [|m IH]; intros i s Hs; [done|]. cbn [for_exit]. specialize (Hf i s Hs).
  destruct (f i s) as [r|s']; [done|]. by apply IH.
Qed.
Lemma for_loop_stick i m (f : Z → fsys St Heap C → fsys St Heap C) s :
  (∀ i s, D s → D (f i s)) → D s → D (for_loop i m f s).
Proof. intros Hf. revert i s. induction m as [|m IH]; intros i s Hs; [done|]. cbn [for_loop]. auto. Qed.
Lemma block_alloc_stick s : D s → D (block_alloc s).2.
Proof.
  intros Hs. unfold block_alloc.
  pose proof (for_state_stick 0 (Z.to_nat (max_bits (fs_mnt s)))
    (λ i s, if negb (bmap_test (g_block_bitmap (fs_mnt s)) i) then
              inl (sb_data_lba (g_super (fs_mnt s)) +u i *u DUFS_SECS_PER_BLOCK,
                   with_mnt (set_block_bitmap (bmap_set (g_block_bitmap (fs_mnt s)) i) (fs_mnt s)) s)
            else inr s) s) as H.
  lapply H; clear H; [intros H; lapply H; clear H; [|done]|].
  - by destruct (for_exit _ _ _ _).
  - intros i s0 H0. destruct (negb _); [by apply mnt_stick|done].
Qed.
Hint Resolve block_alloc_stick : stick.
Lemma block_free_stick s lba : D s → D (block_free s lba).
Proof. intros Hs. unfold block_free. cbv zeta. destruct (_ <? _); [done|]. destruct (_ <? _); [by apply mnt_stick|done]. Qed.
Hint Resolve block_free_stick : stick.
Lemma block_map_stick s n i : D s → D (block_map s n i).2.
Proof. intros. unfold block_map. stick. Qed.
Hint Resolve block_map_stick : stick.
Lemma free_entries_stick s b : D s → D (free_entries s b).
Proof. intros Hs. apply for_loop_stick; [|done]. intros i s0 H0. destruct (negb _); auto with stick. Qed.
Hint Resolve free_entries_stick : stick.
Lemma read_loop_stick fuel s n o c got : D s → D (read_loop fuel s n o c got).2.
Proof. revert s got. induction fuel as [|fuel IH]; intros s got Hs; cbn [read_loop]; stick. Qed.
Hint Resolve read_loop_stick : stick.
Lemma fs_read_stick s k o c : D s → D (fs_read s k o c).2.
Proof. intros. unfold fs_read. stick. Qed.
Hint Resolve fs_read_stick : stick.
Lemma dir_scan_stick {R} s n (f : Z → list Z → option R) : D s → D (dir_scan s n f).2.
Proof.
  intros Hs. unfold dir_scan. match goal with |- context [for_exit 0 ?m ?g s] => pose proof (for_state_stick 0 m g s) as H end.
  lapply H; clear H; [intros H; lapply H; clear H; [|done]|].
  - by destruct (for_exit _ _ _ _) as [[]|].
  - intros i s0 H0. pose proof (block_map_stick s0 n i H0) as H1. destruct (block_map s0 n i) as [lba s1]. cbn [snd] in H1.
    destruct (lba =? 0); [done|]. pose proof (read_block_stick s1 lba H1) as H2. destruct (read_block s1 lba) as [[b|] s2]; [|done].
    by destruct (f lba b).
Qed.
Hint Resolve dir_scan_stick : stick.
Lemma dir_lookup_stick s k nm : D s → D (dir_lookup s k nm).2.
Proof. intros. unfold dir_lookup. stick. Qed.
Lemma free_inode_blocks_stick s n : D s → D (free_inode_blocks s n).2.
Proof.
  intros Hs. unfold free_inode_blocks.
  match goal with |- context [for_loop 0 ?m ?g (i_direct n, s)] =>
    assert (∀ a, D (for_loop a m g (i_direct n, s)).2) as H end.
  { intros a. generalize (i_direct n). generalize (Z.to_nat DUFS_DIRECT_BLOCKS) as m. intros m. revert a s Hs.
    induction m as [|m IH]; intros a s Hs l; [done|]. cbn [for_loop]. destruct (negb _); apply IH; auto with stick. }
  specialize (H 0). destruct (for_loop _ _ _ _) as [d s1]. cbn [snd] in H. cbv zeta.
  set (n1 := set_direct d n). clearbody n1.
  match goal with |- D (snd (match ?e with _ => _ end)) => assert (D e.2) as H2; [|destruct e as [n2 s2]; cbn [snd] in H2] end.
  { destruct (negb _); [|done]. pose proof (malloc_stick s1 DUFS_BLOCK_SIZE H) as H3. destruct (fs_malloc s1 _) as [p s3].
    apply block_free_stick, kfree_stick. destruct (p =? 0); [done|].
    pose proof (read_block_stick s3 (i_indirect n1) H3) as H4. destruct (read_block s3 _) as [[b|] s4]; [|done].
    by apply free_entries_stick. }
  match goal with |- D (snd (match ?e with _ => _ end)) => assert (D e.2) as H3; [|destruct e as [n3 s3]; exact H3] end.
  destruct (negb _); [|done].
  pose proof (malloc_stick s2 DUFS_BLOCK_SIZE H2) as H3. destruct (fs_malloc s2 _) as [p s3]. cbn [snd] in H3.
  pose proof (malloc_stick s3 DUFS_BLOCK_SIZE H3) as H4. destruct (fs_malloc s3 _) as [q s4]. cbn [snd] in *.
  apply block_free_stick, kfree_stick, kfree_stick. destruct (_ || _); [done|].
  pose proof (read_block_stick s4 (i_double n2) H4) as H5. destruct (read_block s4 _) as [[l0|] s5]; [|done].
  apply for_loop_stick; [|done]. intros i s6 H6. destruct (_ =? 0); [done|]. apply block_free_stick.
  pose proof (read_block_stick s6 (entry l0 i) H6) as H7. destruct (read_block s6 _) as [[l1|] s7]; [|done]. by apply free_entries_stick.
Qed.
End reads.
End sticky.
#[export] Existing Instance sk_reads.

(** The lemma for a call, whatever the predicate. *)
Ltac stick_read :=
  lazymatch goal with
  | |- ?P (snd (read_block _ _)) => apply (read_block_stick P)
  | |- ?P (snd (fs_malloc _ _)) => apply (malloc_stick P)
  | |- ?P (snd (arch_time_unix_seconds _)) => apply (time_stick P)
  | |- ?P (snd (inode_read _ _)) => apply (inode_read_stick P)
  | |- ?P (snd (block_alloc _)) => apply (block_alloc_stick P)
  | |- ?P (snd (block_map _ _ _)) => apply (block_map_stick P)
  | |- ?P (snd (free_inode_blocks _ _)) => apply (free_inode_blocks_stick P)
  | |- ?P (snd (read_loop _ _ _ _ _ _)) => apply (read_loop_stick P)
  | |- ?P (snd (fs_read _ _ _ _)) => apply (fs_read_stick P)
  | |- ?P (snd (dir_scan _ _ _)) => apply (dir_scan_stick P)
  | |- ?P (fs_kfree _ _) => apply (kfree_stick P)
  | |- ?P (block_free _ _) => apply (block_free_stick P)
  | |- ?P (free_entries _ _) => apply (free_entries_stick P)
  end.
Hint Extern 2 => stick_read : stick.

Section writes.
Context {St : Type} {BS : BlockStore St} {Heap : Type} {KA : KAllocator Heap} {C : Type} {CK : Clock C}.
Implicit Types (s : fsys St Heap C) (n : dufs_inode).
Context (D : fsys St Heap C → Prop) {HD : sticky D}.

Lemma write_block_stick s lba b : D s → D (write_block s lba b).2.
Proof. intros Hs. pose proof (sk_write s (g_blkdev (fs_mnt s)) lba b Hs) as H. unfold write_block. by destruct (bs_write _ _ _ _). Qed.
Hint Resolve write_block_stick : stick.
Lemma inode_write_stick s k n : D s → D (inode_write s k n).2.
Proof.
  intros Hs. unfold inode_write. cbv zeta. set (x := _ +u _). set (dev := g_blkdev _).
  pose proof (sk_sread s dev x Hs) as H. destruct (sec_read _ _ _) as [[b|] st]; [|done].
  set (b' := splice _ _ _). pose proof (sk_swrite (with_st st s) dev x b' H) as H'. cbn [fs_st with_st] in H'.
  by destruct (sec_write _ _ _ _).
Qed.
Hint Resolve inode_write_stick : stick.
Lemma write_zeroed_stick s lba : D s → D (write_zeroed_block s lba).2.
Proof. intros. unfold write_zeroed_block. stick. Qed.
Hint Resolve write_zeroed_stick : stick.
Lemma flush_stick s : D s → D (flush_block_bitmap s).2.
Proof. intros. unfold flush_block_bitmap. stick. Qed.
Hint Resolve flush_stick : stick.
Lemma alloc_zeroed_stick s : D s → D (alloc_zeroed s).2.
Proof. intros. unfold alloc_zeroed. stick. Qed.
Hint Resolve alloc_zeroed_stick : stick.
Lemma ensure_in_stick s n t i : D s → D (ensure_in s n t i).2.
Proof. intros. unfold ensure_in. stick. Qed.
Hint Resolve ensure_in_stick : stick.
Lemma block_ensure_stick s n i : D s → D (block_ensure s n i).2.
Proof. intros. unfold block_ensure. stick. Qed.
Hint Resolve block_ensure_stick : stick.
Lemma write_loop_stick fuel s n o b w d : D s → D (write_loop fuel s n o b w d).2.
Proof. revert s n w d. induction fuel as [|fuel IH]; intros s n w d Hs; cbn [write_loop]; stick. Qed.
Hint Resolve write_loop_stick : stick.
Lemma fs_write_stick s k o b : D s → D (fs_write s k o b).2.
Proof. intros. unfold fs_write. stick. Qed.
Hint Resolve fs_write_stick : stick.
Lemma zero_loop_stick fuel s k o e : D s → D (zero_loop fuel s k o e).2.
Proof. revert s o. induction fuel as [|fuel IH]; intros s o Hs; cbn [zero_loop]; stick. Qed.
Hint Resolve zero_loop_stick : stick.
Lemma zero_range_stick s k a e : D s → D (fs_zero_range s k a e).2.
Proof. intros. unfold fs_zero_range. stick. Qed.
Hint Resolve zero_range_stick : stick.
Lemma fs_truncate_stick s k z : D s → D (fs_truncate s k z).2.
Proof. intros. unfold fs_truncate. stick. Qed.
Lemma dir_add_stick s k nm c : D s → D (dir_add s k nm c).2.
Proof. intros. unfold dir_add. stick. Qed.
Lemma dir_remove_stick s k nm : D s → D (dir_remove s k nm).2.
Proof. intros. unfold dir_remove. stick. Qed.
End writes.

Ltac stick_write :=
  lazymatch goal with
  | |- ?P (snd (write_block _ _ _)) => apply (write_block_stick P)
  | |- ?P (snd (inode_write _ _ _)) => apply (inode_write_stick P)
  | |- ?P (snd (write_zeroed_block _ _)) => apply (write_zeroed_stick P)
  | |- ?P (snd (flush_block_bitmap _)) => apply (flush_stick P)
  | |- ?P (snd (alloc_zeroed _)) => apply (alloc_zeroed_stick P)
  | |- ?P (snd (ensure_in _ _ _ _)) => apply (ensure_in_stick P)
  | |- ?P (snd (block_ensure _ _ _)) => apply (block_ensure_stick P)
  | |- ?P (snd (write_loop _ _ _ _ _ _ _)) => apply (write_loop_stick P)
  | |- ?P (snd (fs_write _ _ _ _)) => apply (fs_write_stick P)
  | |- ?P (snd (zero_loop _ _ _ _ _)) => apply (zero_loop_stick P)
  | |- ?P (snd (fs_zero_range _ _ _ _)) => apply (zero_range_stick P)
  end.
Hint Extern 2 => stick_write : stick.


(** ** Both runs *)

Lemma if_cases {A} (b : bool) (x y : A) : b = true ∧ (if b then x else y) = x ∨ b = false ∧ (if b then x else y) = y.
Proof. destruct b; auto. Qed.

Section sim.
Context {St : Type} {BS : BlockStore St} {SV : StoreView St} {SF : StoreFaults St} {SL : StoreFaultLaws St}.
Context {Heap : Type} {KA : KAllocator Heap} {AF : AllocFaults Heap} {AL : AllocFaultLaws Heap}.
Context {C : Type} {CK : Clock C} (total : bool) (w0 r0 a0 : nat).

Notation real := (fsys St Heap C).
Notation ideal := (fsys (shadow total St) (lender total Heap) C).
Implicit Types (s : real) (n : dufs_inode).

Definition lift s : ideal :=
  mk_fsys (fs_mnt s) (mk_shadow (fs_st s) None) (mk_lender (fs_hp s) false) (fs_clk s).

(** Something failed since the counts were [w0], [r0] and [a0]; the shadow died. *)
Definition hit s : Prop :=
  (w0 < wr_faults (fs_st s))%nat ∨
  total = true ∧ ((r0 < rd_faults (fs_st s))%nat ∨ (a0 < al_faults (fs_hp s))%nat).
Definition dead (t : ideal) : Prop := sh_mem (fs_st t) ≠ None ∨ ln_out (fs_hp t) = true.
Definition counting s : Prop :=
  (w0 <= wr_faults (fs_st s))%nat ∧ (r0 <= rd_faults (fs_st s))%nat ∧ (a0 <= al_faults (fs_hp s))%nat.

#[local] Instance sticky_hit : sticky hit.
Proof.
  assert (∀ a b c a' b' c' : nat, (a <= a' → b <= b' → c <= c' →
    (w0 < a ∨ total = true ∧ (r0 < b ∨ a0 < c)) → w0 < a' ∨ total = true ∧ (r0 < b' ∨ a0 < c'))%nat) as Hmono.
  { intros a b c a' b' c' ??? [|[? [|]]]; [left|right; split; [done|left]|right; split; [done|right]]; lia. }
  split; [split|..]; unfold hit; cbn [fs_st fs_hp fs_mnt with_mnt with_st with_hp]; try done.
  - intros s dev lba. destruct (bs_read_counts (fs_st s) dev lba) as [E H]. destruct (bs_read _ _ _) as [[] ?]; cbn [fst snd] in *; apply Hmono; lia.
  - intros s dev lba. destruct (sec_read_counts (fs_st s) dev lba) as [E H]. destruct (sec_read _ _ _) as [[] ?]; cbn [fst snd] in *; apply Hmono; lia.
  - intros s z. rewrite ka_malloc_counts. destruct (_ =? 0); apply Hmono; lia.
  - intros s p. by rewrite ka_free_counts.
  - intros s dev lba b. destruct (bs_write_counts (fs_st s) dev lba b) as [E H]. destruct (bs_write _ _ _ _) as [[] ?]; cbn [fst snd] in *; apply Hmono; lia.
  - intros s dev lba b. destruct (sec_write_counts (fs_st s) dev lba b) as [E H]. destruct (sec_write _ _ _ _) as [[] ?]; cbn [fst snd] in *; apply Hmono; lia.
Qed.

#[local] Instance sticky_dead : sticky dead.
Proof.
  split; [split|..]; unfold dead; cbn [fs_st fs_hp fs_mnt with_mnt with_st with_hp]; try done.
  - intros s dev lba [H|H]; [left|by right]. cbn. unfold shadow_read. by destruct (sh_mem (fs_st s)) eqn:E; cbn; rewrite ?E.
  - intros s dev lba [H|H]; [left|by right]. cbn. unfold shadow_read. by destruct (sh_mem (fs_st s)) eqn:E; cbn; rewrite ?E.
  - intros s z [H|H]; [by left|right]. cbn. destruct (ka_malloc _ _) as [p h]. by destruct (_ && _).
  - intros s dev lba b [H|H]; [left|by right]. cbn. unfold shadow_write. by destruct (sh_mem (fs_st s)) eqn:E; cbn; rewrite ?E.
  - intros s dev lba b [H|H]; [left|by right]. cbn. unfold shadow_write. by destruct (sh_mem (fs_st s)) eqn:E; cbn; rewrite ?E.
Qed.

(** The same result and live, or failed and dead. *)
Definition sim {A} (x : A * real) (y : A * ideal) : Prop :=
  y = (x.1, lift x.2) ∧ counting x.2 ∨ hit x.2 ∧ dead y.2.

Lemma sim_ret {A} (a : A) s : counting s → sim (a, s) (a, lift s).
Proof. by left. Qed.

Lemma sim_dead {A} (x : A * real) (y : A * ideal) : hit x.2 → dead y.2 → sim x y.
Proof. by right. Qed.

Lemma sim_snd {A B} (x : A * real) (y : A * ideal) (b : B) : sim x y → sim (b, x.2) (b, y.2).
Proof. intros [[-> Hc]|[Hh Hd]]; [by left|by right]. Qed.

(** ** Primitives *)

Lemma mnt_lift s m : with_mnt m (lift s) = lift (with_mnt m s).
Proof. done. Qed.
Lemma fs_mnt_lift s : fs_mnt (lift s) = fs_mnt s.
Proof. done. Qed.
Lemma kfree_lift s p : fs_kfree (lift s) p = lift (fs_kfree s p).
Proof. done. Qed.
Lemma kfree_counting s p : counting s → counting (fs_kfree s p).
Proof. unfold counting, fs_kfree. cbn. by rewrite ka_free_counts. Qed.

Lemma read_sim s (f : St → option (list Z) * St) look :
  read_count (fs_st s) (f (fs_st s)) → counting s →
  sim (let '(r, st) := f (fs_st s) in (r, with_st st s))
    (let '(r, st) := shadow_read f look (fs_st (lift s)) in (r, with_st st (lift s))).
Proof.
  intros [Hw Hr] (H1 & H2 & H3). unfold shadow_read. cbn [fs_st lift sh_mem sh_st].
  destruct (f (fs_st s)) as [[b|] st]; cbn [fst snd] in *.
  - left. split; [done|]. unfold counting. cbn. rewrite Hw, Hr. done.
  - match goal with |- context [if total then ?x else ?y] => destruct (if_cases total x y) as [[E ->]|[E ->]] end.
    + right. split; [|by left]. unfold hit. cbn. right. split; [done|]. left. lia.
    + left. split; [done|]. unfold counting. cbn. lia.
Qed.

Lemma write_sim s (f : St → bool * St) upd :
  write_count (fs_st s) (f (fs_st s)) → counting s →
  sim (let '(r, st) := f (fs_st s) in (r, with_st st s))
    (let '(r, st) := shadow_write f upd (fs_st (lift s)) in (r, with_st st (lift s))).
Proof.
  intros [Hw Hr] (H1 & H2 & H3). unfold shadow_write. cbn [fs_st lift sh_mem sh_st].
  destruct (f (fs_st s)) as [[] st]; cbn [fst snd] in *.
  - left. split; [done|]. unfold counting. cbn. rewrite Hw, Hr. done.
  - right. split; [|by left]. unfold hit. cbn. left. lia.
Qed.

Lemma read_block_sim s lba : counting s → sim (read_block s lba) (read_block (lift s) lba).
Proof. apply (read_sim s (λ st, bs_read st _ lba)). apply bs_read_counts. Qed.
Lemma write_block_sim s lba b : counting s → sim (write_block s lba b) (write_block (lift s) lba b).
Proof. apply (write_sim s (λ st, bs_write st _ lba b)). apply bs_write_counts. Qed.

Lemma malloc_sim s z : counting s → sim (fs_malloc s z) (fs_malloc (lift s) z).
Proof.
  intros (H1 & H2 & H3). unfold fs_malloc. cbn. pose proof (ka_malloc_counts (fs_hp s) z) as Hc.
  destruct (ka_malloc (fs_hp s) z) as [p h]. cbn [fst snd] in *. destruct (p =? 0) eqn:Ep; rewrite ?andb_true_r, ?andb_false_r.
  - match goal with |- context [if total then ?x else ?y] => destruct (if_cases total x y) as [[E ->]|[E ->]] end.
    + right. split; [|by right]. unfold hit. cbn. right. split; [done|]. right. lia.
    + left. split; [done|]. unfold counting. cbn. lia.
  - left. split; [done|]. unfold counting. cbn. lia.
Qed.

Lemma time_sim s : counting s → sim (arch_time_unix_seconds s) (arch_time_unix_seconds (lift s)).
Proof. intros Hc. unfold arch_time_unix_seconds. cbn. destruct (clock_seconds _). by left. Qed.

Lemma inode_read_sim s k : counting s → sim (inode_read s k) (inode_read (lift s) k).
Proof.
  intros Hc. unfold inode_read. rewrite fs_mnt_lift. cbv zeta. set (x := _ +u _).
  pose proof (read_sim s (λ st, sec_read st (g_blkdev (fs_mnt s)) x) (λ m, m.2 x) (sec_read_counts _ _ _) Hc) as H. cbv beta in H.
  change (shadow_read _ _ _) with (sec_read (fs_st (lift s)) (g_blkdev (fs_mnt s)) x) in H.
  destruct (sec_read (fs_st s) _ x) as [r st], (sec_read (fs_st (lift s)) _ x) as [r' st'].
  destruct H as [[[= -> ->] Hl]|[Hh Hd]]; [by left|by right].
Qed.

Lemma inode_write_sim s k n : counting s → sim (inode_write s k n) (inode_write (lift s) k n).
Proof.
  intros Hc. unfold inode_write. rewrite fs_mnt_lift. cbv zeta. set (x := _ +u _). set (dev := g_blkdev _).
  pose proof (read_sim s (λ st, sec_read st dev x) (λ m, m.2 x) (sec_read_counts _ _ _) Hc) as H. cbv beta in H.
  change (shadow_read _ _ _) with (sec_read (fs_st (lift s)) dev x) in H.
  pose proof (λ t : real, sk_swrite (D := hit) t dev x) as Kh. pose proof (λ t : ideal, sk_swrite (D := dead) t dev x) as Kd.
  destruct (sec_read (fs_st s) dev x) as [r st], (sec_read (fs_st (lift s)) dev x) as [r' st'].
  destruct H as [[[= -> ->] Hl]|[Hh Hd]].
  - destruct r as [b|]; [|by left]. cbn [snd] in *. set (b' := splice _ _ _).
    exact (write_sim (with_st st s) (λ st, sec_write st dev x b') _ (sec_write_counts _ _ _ _) Hl).
  - apply sim_dead; [destruct r as [b|]|destruct r' as [b|]]; try done.
    + set (b' := splice _ _ _). specialize (Kh (with_st st s) b' Hh). cbn [fs_st with_st] in Kh. by destruct (sec_write st dev x b').
    + set (b' := splice _ _ _). specialize (Kd (with_st st' (lift s)) b' Hd). cbn [fs_st with_st] in Kd. by destruct (sec_write st' dev x b').
Qed.

(** ** The bitmap *)

Lemma block_alloc_lift s : block_alloc (lift s) = ((block_alloc s).1, lift (block_alloc s).2).
Proof.
  unfold block_alloc. rewrite fs_mnt_lift.
  assert (∀ m i s,
    for_exit i m (λ i t, if negb (bmap_test (g_block_bitmap (fs_mnt t)) i) then
      inl (sb_data_lba (g_super (fs_mnt t)) +u i *u DUFS_SECS_PER_BLOCK,
           with_mnt (set_block_bitmap (bmap_set (g_block_bitmap (fs_mnt t)) i) (fs_mnt t)) t) else inr t) (lift s) =
    match for_exit i m (λ i s, if negb (bmap_test (g_block_bitmap (fs_mnt s)) i) then
      inl (sb_data_lba (g_super (fs_mnt s)) +u i *u DUFS_SECS_PER_BLOCK,
           with_mnt (set_block_bitmap (bmap_set (g_block_bitmap (fs_mnt s)) i) (fs_mnt s)) s) else inr s) s with
    | inl r => inl (r.1, lift r.2) | inr s => inr (lift s) end) as ->.
  { intros m. induction m as [|m IH]; intros i t; [done|]. cbn [for_exit]. rewrite fs_mnt_lift. destruct (negb _); [done|]. apply IH. }
  by destruct (for_exit _ _ _ _).
Qed.


Lemma block_alloc_sim s : counting s → sim (block_alloc s) (block_alloc (lift s)).
Proof.
  intros Hc. left. split; [apply block_alloc_lift|]. unfold block_alloc.
  match goal with |- context [for_exit 0 ?m ?f ?z] => pose proof (for_state_stick counting 0 m f z) as H end.
  lapply H; clear H; [intros H; lapply H; clear H; [|done]|].
  - by destruct (for_exit _ _ _ _).
  - intros i t Ht. by destruct (negb _).
Qed.

Lemma block_free_lift s lba : block_free (lift s) lba = lift (block_free s lba).
Proof. unfold block_free. rewrite fs_mnt_lift. cbv zeta. destruct (_ <? _); [done|]. by destruct (_ <? _). Qed.
Lemma block_free_counting s lba : counting s → counting (block_free s lba).
Proof. intros. unfold block_free. cbv zeta. destruct (_ <? _); [done|]. by destruct (_ <? _). Qed.

Lemma for_loop_lift i m (f : Z → real → real) (g : Z → ideal → ideal) s :
  (∀ i s, g i (lift s) = lift (f i s) ∧ (counting s → counting (f i s))) →
  for_loop i m g (lift s) = lift (for_loop i m f s) ∧ (counting s → counting (for_loop i m f s)).
Proof.
  intros Hf. revert s i. induction m as [|m IH]; intros s i; [done|]. cbn [for_loop].
  destruct (Hf i s) as [-> H1]. destruct (IH (f i s) (i + 1)) as [-> H2]. auto.
Qed.

Lemma free_entries_lift s b : free_entries (lift s) b = lift (free_entries s b) ∧ (counting s → counting (free_entries s b)).
Proof. apply for_loop_lift. intros i t. destruct (negb _); [|done]. split; [apply block_free_lift|apply block_free_counting]. Qed.

(** ** The operations *)


Create HintDb sim.
Hint Resolve kfree_counting block_free_counting read_block_sim write_block_sim malloc_sim time_sim inode_read_sim inode_write_sim
  block_alloc_sim : sim.

(** One call on both sides, or one test. *)
Ltac simulate :=
  cbv zeta; rewrite ?fs_mnt_lift, ?mnt_lift, ?kfree_lift, ?block_free_lift; cbn [fst snd];
  lazymatch goal with
  | |- sim (_, if ?b then _ else _) _ => destruct b; simulate
  | |- sim (_, snd _) _ => apply sim_snd; auto with sim
  | |- sim (_, _) _ => apply sim_ret; auto with sim
  | |- sim (match ?e with _ => _ end) (match ?e' with _ => _ end) =>
      lazymatch type of e with
      | (_ * fsys _ _ _)%type =>
          let H := fresh in
          let a := fresh "a" in let t := fresh "t" in
          let a' := fresh "a" in let t' := fresh "t" in
          let Hc := fresh "Hc" in let Hh := fresh "Hh" in let Hd := fresh "Hd" in
          assert (sim e e') as H by simulate;
          destruct e as [a t], e' as [a' t']; destruct H as [[[= -> ->] Hc]|[Hh Hd]]; cbn [fst snd] in *;
            [simulate|apply sim_dead; [stick|stick]]
      | _ => destruct e; simulate
      end
  | |- _ => solve [auto with sim]
  end.

Lemma write_zeroed_sim s lba : counting s → sim (write_zeroed_block s lba) (write_zeroed_block (lift s) lba).
Proof. intros Hc. unfold write_zeroed_block. simulate. Qed.
Lemma flush_sim s : counting s → sim (flush_block_bitmap s) (flush_block_bitmap (lift s)).
Proof. intros Hc. unfold flush_block_bitmap. simulate. Qed.
Hint Resolve write_zeroed_sim flush_sim : sim.
Lemma block_map_sim s n i : counting s → sim (block_map s n i) (block_map (lift s) n i).
Proof. intros Hc. unfold block_map. simulate. Qed.
Lemma alloc_zeroed_sim s : counting s → sim (alloc_zeroed s) (alloc_zeroed (lift s)).
Proof. intros Hc. unfold alloc_zeroed. simulate. Qed.
Hint Resolve block_map_sim alloc_zeroed_sim : sim.
Lemma ensure_in_sim s n t i : counting s → sim (ensure_in s n t i) (ensure_in (lift s) n t i).
Proof. intros Hc. unfold ensure_in. simulate. Qed.
Hint Resolve ensure_in_sim : sim.
Lemma block_ensure_sim s n i : counting s → sim (block_ensure s n i) (block_ensure (lift s) n i).
Proof. intros Hc. unfold block_ensure. simulate. Qed.
Hint Resolve block_ensure_sim : sim.

Lemma read_loop_sim fuel s n o c got : counting s → sim (read_loop fuel s n o c got) (read_loop fuel (lift s) n o c got).
Proof. revert s got. induction fuel as [|fuel IH]; intros s got Hc; cbn [read_loop]; simulate. Qed.
Lemma write_loop_sim fuel s n o b w d : counting s → sim (write_loop fuel s n o b w d) (write_loop fuel (lift s) n o b w d).
Proof. revert s n w d. induction fuel as [|fuel IH]; intros s n w d Hc; cbn [write_loop]; simulate. Qed.
Hint Resolve read_loop_sim write_loop_sim : sim.
Lemma fs_read_sim s k o c : counting s → sim (fs_read s k o c) (fs_read (lift s) k o c).
Proof. intros Hc. unfold fs_read. simulate. Qed.
Lemma fs_write_sim s k o b : counting s → sim (fs_write s k o b) (fs_write (lift s) k o b).
Proof. intros Hc. unfold fs_write. simulate. Qed.
Hint Resolve fs_read_sim fs_write_sim : sim.
Lemma zero_loop_sim fuel s k o e : counting s → sim (zero_loop fuel s k o e) (zero_loop fuel (lift s) k o e).
Proof. revert s o. induction fuel as [|fuel IH]; intros s o Hc; cbn [zero_loop]; simulate. Qed.
Hint Resolve zero_loop_sim : sim.
Lemma zero_range_sim s k a e : counting s → sim (fs_zero_range s k a e) (fs_zero_range (lift s) k a e).
Proof. intros Hc. unfold fs_zero_range. simulate. Qed.
Hint Resolve zero_range_sim : sim.
Lemma fs_truncate_sim s k z : counting s → sim (fs_truncate s k z) (fs_truncate (lift s) k z).
Proof. intros Hc. unfold fs_truncate. simulate. Qed.

(** ** Directories *)

Definition scan_step {St' Heap' : Type} {BS' : BlockStore St'} {KA' : KAllocator Heap'} {R} n (f : Z → list Z → option R)
    (blk : Z) (s : fsys St' Heap' C) : (R * fsys St' Heap' C) + fsys St' Heap' C :=
  let '(lba, s) := block_map s n blk in
  if lba =? 0 then inr s
  else match read_block s lba with
       | (None, s) => inr s
       | (Some b, s) => match f lba b with Some r => inl (r, s) | None => inr s end
       end.

Definition scan {St' Heap' : Type} {BS' : BlockStore St'} {KA' : KAllocator Heap'} {R} n (f : Z → list Z → option R)
    (i : Z) (m : nat) (s : fsys St' Heap' C) : option R * fsys St' Heap' C :=
  match for_exit i m (scan_step n f) s with
  | inl (r, s) => (Some r, s)
  | inr s => (None, s)
  end.

Lemma scan_S {St' Heap' : Type} {BS' : BlockStore St'} {KA' : KAllocator Heap'} {R} n (f : Z → list Z → option R) i m
    (s : fsys St' Heap' C) :
  scan n f i (S m) s =
  let '(lba, s) := block_map s n i in
  if lba =? 0 then scan n f (i + 1) m s
  else let '(b, s) := read_block s lba in
       match b with
       | None => scan n f (i + 1) m s
       | Some b => match f lba b with Some r => (Some r, s) | None => scan n f (i + 1) m s end
       end.
Proof.
  unfold scan. cbn [for_exit]. unfold scan_step at 1. destruct (block_map s n i) as [lba s1]. destruct (lba =? 0); [done|].
  destruct (read_block s1 lba) as [[b|] s2]; [|done]. by destruct (f lba b).
Qed.

Lemma scan_stick {St' Heap' : Type} {BS' : BlockStore St'} {KA' : KAllocator Heap'} {R} (D : fsys St' Heap' C → Prop) {HD : sticky D} n
    (f : Z → list Z → option R) i m (s : fsys St' Heap' C) :
  D s → D (scan n f i m s).2.
Proof.
  revert i s. induction m as [|m IH]; intros i s Hs; [done|]. rewrite scan_S.
  pose proof (block_map_stick D s n i Hs) as H1. destruct (block_map s n i) as [lba s1].
  destruct (lba =? 0); [by apply IH|]. pose proof (read_block_stick D s1 lba H1) as H2.
  destruct (read_block s1 lba) as [[b|] s2]; [|by apply IH]. destruct (f lba b); [done|by apply IH].
Qed.

Hint Extern 2 => match goal with |- ?P (snd (scan _ _ _ _ _)) => apply (scan_stick P) end : stick.

Lemma scan_sim {R} n (f : Z → list Z → option R) i m s : counting s → sim (scan n f i m s) (scan n f i m (lift s)).
Proof.
  revert i s. induction m as [|m IH]; intros i s Hc; [by apply sim_ret|]. rewrite !scan_S. simulate.
Qed.

Lemma dir_scan_sim {R} s n (f : Z → list Z → option R) : counting s → sim (dir_scan s n f) (dir_scan (lift s) n f).
Proof. exact (scan_sim n f 0 (Z.to_nat (i_block_count n)) s). Qed.
Hint Resolve dir_scan_sim : sim.

Lemma dir_lookup_sim s k nm : counting s → sim (dir_lookup s k nm) (dir_lookup (lift s) k nm).
Proof. intros Hc. unfold dir_lookup. simulate. Qed.
Lemma dir_add_sim s k nm c : counting s → sim (dir_add s k nm c) (dir_add (lift s) k nm c).
Proof. intros Hc. unfold dir_add. simulate. Qed.
Lemma dir_remove_sim s k nm : counting s → sim (dir_remove s k nm) (dir_remove (lift s) k nm).
Proof. intros Hc. unfold dir_remove. simulate. Qed.

(** ** Freeing *)

(** A step that gives only a state. *)
Definition sim_state s (t : ideal) : Prop := t = lift s ∧ counting s ∨ hit s ∧ dead t.

Lemma state_free s t lba : sim_state s t → sim_state (block_free s lba) (block_free t lba).
Proof.
  intros [[-> Hc]|[Hh Hd]]; [left; by rewrite block_free_lift; auto using block_free_counting|right].
  split; stick.
Qed.
Lemma state_kfree s t p : sim_state s t → sim_state (fs_kfree s p) (fs_kfree t p).
Proof.
  intros [[-> Hc]|[Hh Hd]]; [left; by rewrite kfree_lift; auto using kfree_counting|right].
  split; stick.
Qed.
Lemma malloc_state s t z : sim_state s t → sim (fs_malloc s z) (fs_malloc t z).
Proof.
  intros [[-> Hc]|[Hh Hd]]; [by apply malloc_sim|]. apply sim_dead; stick.
Qed.
Lemma state_table s t lba g g' :
  sim_state s t → (∀ b s, counting s → sim_state (g b s) (g' b (lift s))) →
  (∀ b s, hit s → hit (g b s)) → (∀ b t, dead t → dead (g' b t)) →
  sim_state (match read_block s lba with (Some b, s) => g b s | (None, s) => s end)
    (match read_block t lba with (Some b, s) => g' b s | (None, s) => s end).
Proof.
  intros Hst Hg Hgh Hgd.
  assert (∀ x y, @sim (option (list Z)) x y →
    sim_state (match x with (Some b, s) => g b s | (None, s) => s end) (match y with (Some b, s) => g' b s | (None, s) => s end)) as Hgo.
  { intros [b s1] [b' t1] [[[= -> ->] Hc]|[Hh Hd]]; cbn [fst snd] in *; [destruct b; [by apply Hg|by left]|].
    right. destruct b, b'; auto. }
  apply Hgo. destruct Hst as [[-> Hc]|[Hh Hd]]; [by apply read_block_sim|].
  apply sim_dead; stick.
Qed.

Lemma state_loop i m f g s t :
  sim_state s t → (∀ i s t, sim_state s t → sim_state (f i s) (g i t)) → sim_state (for_loop i m f s) (for_loop i m g t).
Proof. intros Hs Hf. revert i s t Hs. induction m as [|m IH]; intros i s t Hs; [done|]. cbn [for_loop]. auto. Qed.

Lemma state_entries b s t : sim_state s t → sim_state (free_entries s b) (free_entries t b).
Proof. intros Hs. apply state_loop; [done|]. intros i s0 t0 H0. destruct (negb _); [by apply state_free|done]. Qed.

Lemma sim_pair {A} (a : A) s t : sim_state s t → sim (a, s) (a, t).
Proof. intros [[-> Hc]|[Hh Hd]]; [by left|by right]. Qed.

Lemma free_inode_blocks_sim s n : counting s → sim (free_inode_blocks s n) (free_inode_blocks (lift s) n).
Proof.
  intros Hc. unfold free_inode_blocks.
  match goal with |- sim (match for_loop 0 ?m ?f _ with _ => _ end) (match for_loop 0 ?m ?g _ with _ => _ end) =>
    assert (∀ i l s t, sim_state s t → (for_loop i m f (l, s)).1 = (for_loop i m g (l, t)).1 ∧
      sim_state (for_loop i m f (l, s)).2 (for_loop i m g (l, t)).2) as H end.
  { generalize (Z.to_nat DUFS_DIRECT_BLOCKS) as m. intros m. induction m as [|m IH]; intros i l s0 t0 H0; [done|].
    cbn [for_loop]. destruct (negb _); apply IH; [by apply state_free|done]. }
  destruct (H 0 (i_direct n) s (lift s) ltac:(by left)) as [E Hs]. clear H.
  destruct (for_loop _ _ _ (i_direct n, s)) as [d s1], (for_loop _ _ _ (i_direct n, lift s)) as [d' t1]. cbn [fst snd] in *.
  subst d'. cbv zeta. set (n1 := set_direct d n). clearbody n1.
  match goal with |- sim (match ?e with _ => _ end) (match ?e' with _ => _ end) =>
    assert (e.1 = e'.1 ∧ sim_state e.2 e'.2) as [E2 H2]; [|destruct e as [n2 s2], e' as [n2' t2]] end.
  { destruct (negb _); [|done]. pose proof (malloc_state s1 t1 DUFS_BLOCK_SIZE Hs) as Hm.
    destruct (fs_malloc s1 _) as [p s2], (fs_malloc t1 _) as [p' t2]. split; [done|]. cbn [snd]. apply state_free.
    destruct Hm as [[[= -> ->] Hl]|[Hh Hd]]; cbn [fst snd] in *.
    - apply state_kfree. destruct (p =? 0); [by left|]. apply (state_table _ _ _ (λ b x, free_entries x b) (λ b x, free_entries x b));
        [by left|intros; apply state_entries; by left|intros; stick|intros; stick].
    - right. split; [apply (kfree_stick hit)|apply (kfree_stick dead)]; (destruct (_ =? 0); [done|stick]). }
  cbn [fst snd] in *. subst n2'.
  match goal with |- sim (match ?e with _ => _ end) (match ?e' with _ => _ end) =>
    assert (e.1 = e'.1 ∧ sim_state e.2 e'.2) as [E3 H3];
      [|destruct e as [n3 s3], e' as [n3' t3]; cbn [fst snd] in *; subst n3'; by apply sim_pair] end.
  destruct (negb _); [|done]. pose proof (malloc_state s2 t2 DUFS_BLOCK_SIZE H2) as Hm.
  destruct (fs_malloc s2 _) as [p s3], (fs_malloc t2 _) as [p' t3].
  pose proof (malloc_state s3 t3 DUFS_BLOCK_SIZE) as Hm2.
  assert (sim_state s3 t3) as H3 by (destruct Hm as [[[= -> ->] Hl]|[Hh Hd]]; [by left|by right]). specialize (Hm2 H3).
  pose proof (malloc_stick hit s3 DUFS_BLOCK_SIZE) as Kh. pose proof (malloc_stick dead t3 DUFS_BLOCK_SIZE) as Kd.
  destruct (fs_malloc s3 _) as [q s4], (fs_malloc t3 _) as [q' t4]. split; [done|]. cbn [fst snd] in *. apply state_free.
  assert (∀ l0 i s, hit s → hit (if entry l0 i =? 0 then s
    else block_free (match read_block s (entry l0 i) with (Some l1, s) => free_entries s l1 | (None, s) => s end) (entry l0 i))) as Bh.
  { intros l0 i s0 H0. destruct (_ =? 0); [done|]. apply (block_free_stick hit). stick. }
  assert (∀ l0 i t, dead t → dead (if entry l0 i =? 0 then t
    else block_free (match read_block t (entry l0 i) with (Some l1, s) => free_entries s l1 | (None, s) => s end) (entry l0 i))) as Bd.
  { intros l0 i t0 H0. destruct (_ =? 0); [done|]. apply (block_free_stick dead). stick. }
  assert (hit s4 ∧ dead t4 ∨ p' = p ∧ q' = q ∧ t4 = lift s4 ∧ counting s4) as [[Hh Hd]|(-> & -> & -> & Hl)].
  { destruct Hm as [[[= -> ->] Hl]|[Hh Hd]]; [|left; auto]. destruct Hm2 as [[[= -> ->] Hl2]|[Hh Hd]]; [by right|by left]. }
  - right. split; [do 2 apply (kfree_stick hit)|do 2 apply (kfree_stick dead)]; (destruct (_ || _); [done|]).
    + pose proof (read_block_stick hit s4 (i_double n2) Hh) as H5. destruct (read_block s4 _) as [[l0|] s5]; [|done].
      apply (for_loop_stick hit); [apply Bh|done].
    + pose proof (read_block_stick dead t4 (i_double n2) Hd) as H5. destruct (read_block t4 _) as [[l0|] s5]; [|done].
      apply (for_loop_stick dead); [apply Bd|done].
  - apply state_kfree, state_kfree. destruct (_ || _); [by left|].
    apply (state_table s4 (lift s4) (i_double n2)
      (λ l0 x, for_loop 0 (Z.to_nat DUFS_INDIR_ENTRIES) (λ i y, if entry l0 i =? 0 then y
        else block_free (match read_block y (entry l0 i) with (Some l1, z) => free_entries z l1 | (None, z) => z end) (entry l0 i)) x)
      (λ l0 x, for_loop 0 (Z.to_nat DUFS_INDIR_ENTRIES) (λ i y, if entry l0 i =? 0 then y
        else block_free (match read_block y (entry l0 i) with (Some l1, z) => free_entries z l1 | (None, z) => z end) (entry l0 i)) x)); [by left|..]; cbv beta.
    + intros l0 s5 Hl5. apply state_loop; [by left|]. intros i s6 t6 H6. destruct (_ =? 0); [done|]. apply state_free.
      apply (state_table _ _ _ (λ b x, free_entries x b) (λ b x, free_entries x b)); [done|..].
      * intros b s7 H7. apply state_entries. by left.
      * intros. stick.
      * intros. stick.
    + intros l0 s5 H5. apply (for_loop_stick hit); [apply Bh|done].
    + intros l0 s5 H5. apply (for_loop_stick dead); [apply Bd|done].
Qed.
End sim.
