(* ===== verification/DufsProps.v ===== *)
(** * DUFS: files and directories on a disk that may fail

    The store takes a write or refuses it, a read may fail and the heap may run
    out.  [write_failed s s'] says that a write failed between two states,
    [starved s s'] that a read or an allocation did.  The proofs go through the
    shadow of the store: as long as no write failed the run is the run on the
    shadow, where every write succeeds. *)

From S2P Require Import Prelude Interfaces Vfs Bytes Dufs DufsSpec DufsGrow DufsWrite DufsFile DufsFree DufsDir DufsDirSpec DufsDirProps DufsSim.

#[export] Instance dufs_shadow_view {total St} {SV : StoreView St} : StoreView (shadow total St) := shadow_view dufs_blk dufs_sec.
#[export] Instance dufs_shadow_laws {total St} {BS : BlockStore St} {SV : StoreView St} {BL : BlockStoreLaws St dufs_blk dufs_sec} :
  SureStoreLaws (shadow total St) dufs_blk dufs_sec := shadow_laws dufs_blk dufs_sec.

Section props.
Context {St : Type} {BS : BlockStore St} {SV : StoreView St} {BL : BlockStoreLaws St dufs_blk dufs_sec}.
Context {SF : StoreFaults St} {SL : StoreFaultLaws St}.
Context {Heap : Type} {KA : KAllocator Heap} {AF : AllocFaults Heap} {AL : AllocFaultLaws Heap}.
Context {C : Type} {CK : Clock C}.
Implicit Types (s : fsys St Heap C) (n : dufs_inode) (D : gmap (list Z) Z).

Definition writes_lost s : nat := wr_faults (fs_st s).
Definition write_failed s s' : Prop := (writes_lost s < writes_lost s')%nat.
Definition starved s s' : Prop :=
  (rd_faults (fs_st s) < rd_faults (fs_st s'))%nat ∨ (al_faults (fs_hp s) < al_faults (fs_hp s'))%nat.

(** ** From the shadow to the store *)

Section lift.
Context (total : bool).
Notation lift := (lift total).

Lemma fs_ok_lift s : fs_ok (lift s) ↔ fs_ok s.
Proof. split; intros []; by split. Qed.

Lemma quiet_lift s s' : quiet (lift s) (lift s') → quiet s s'.
Proof. intros [? ? ? ?]. split; try done. by apply fs_ok_lift. Qed.

Lemma others_lift k s s' : others_kept k (lift s) (lift s') → others_kept k s s'.
Proof. intros [? ? ? ?]. split; try done. by apply fs_ok_lift. Qed.

Lemma written_lift k lo w buf s s' : file_written k lo w buf (lift s) (lift s') → file_written k lo w buf s s'.
Proof. intros [? ? ?]. by split. Qed.

Lemma dir_is_lift s k D : dir_is (lift s) k D ↔ dir_is s k D.
Proof. split; intros []; by split. Qed.

Lemma shadow_reliable : total = true → reliable (St := shadow total St) (Heap := lender total Heap).
Proof.
  intros ->. split; [|split].
  - intros [st [m|]] lba _ _; cbn; [done|]. unfold shadow_read. cbn. by destruct (bs_read _ _ _) as [[] ?].
  - intros [st [m|]] lba _ _; cbn; [done|]. unfold shadow_read. cbn. by destruct (sec_read _ _ _) as [[] ?].
  - intros h. cbn. destruct (ka_malloc _ _) as [p r]. by destruct (Z.eqb_spec p 0).
Qed.
End lift.

(** A run on the store is, unless a write failed, the run on one of the shadows:
    on one that never fails unless a read or an allocation failed. *)
Lemma run_cases {A} s (x : A * fsys St Heap C) (y : ∀ total, A * fsys (shadow total St) (lender total Heap) C) :
  (∀ total, sim total (writes_lost s) (rd_faults (fs_st s)) (al_faults (fs_hp s)) x (y total)) →
  write_failed s x.2 ∨
  ∃ total, y total = (x.1, lift total x.2) ∧
    (starved s x.2 ∨ reliable (St := shadow total St) (Heap := lender total Heap)).
Proof.
  intros Hsim. assert (starved s x.2 ∨ ¬ starved s x.2) as [Hst|Hst] by (unfold starved; lia).
  - destruct (Hsim false) as [[E _]|[[Hw|[? _]] _]]; [|by left|done]. right. exists false. auto.
  - destruct (Hsim true) as [[E _]|[[Hw|[_ Hr]] _]]; [|by left|by destruct Hst]. right. exists true. split; [done|].
    right. by apply shadow_reliable.
Qed.

(** What reads, and what writes, do to the counts. *)
#[local] Instance reads_lose_none w : steady_reads (λ s : fsys St Heap C, writes_lost s = w).
Proof.
  split; unfold writes_lost; cbn [fs_st with_st with_mnt with_hp]; try done.
  - intros s dev lba <-. apply (bs_read_counts (fs_st s)).
  - intros s dev x <-. apply (sec_read_counts (fs_st s)).
Qed.

Lemma reads_keep {A} s (x : A * fsys St Heap C) : writes_lost x.2 = writes_lost s → ¬ write_failed s x.2.
Proof. unfold write_failed. lia. Qed.

(** ** Reading *)

Lemma fs_read_cases s k offset count rc out s' :
  fs_ok s → own s (dinode s) → inode_ix k → is_u32 offset → 0 <= count → offset + count < 2 ^ 32 →
  fs_read s k offset count = (rc, out, s') →
  let n := dinode s k in
  let want := Z.max 0 (Z.min count (i_size n - offset)) in
  quiet s s' ∧
  (rc = -1 ∧ out = [] ∧ starved s s' ∨
   rc = s32 (blen out) ∧ blen out <= want ∧ holds_at (blk s) n offset out ∧
   (blen out < want → starved s s' ∨ fbyte (blk s) n (offset + blen out) = None)).
Proof.
  intros Hs Ho Hk Hu Hc Hlt E.
  pose proof (fs_read_stick (λ t, writes_lost t = writes_lost s) s k offset count eq_refl) as Hkeep. cbv beta in Hkeep.
  destruct (run_cases s (fs_read s k offset count) (λ total, fs_read (lift total s) k offset count)) as [Hw|(total & E' & Hrel)].
  { intros total. by apply fs_read_sim. }
  { unfold write_failed in Hw. lia. }
  rewrite E in *. cbn [fst snd] in *.
  destruct (fs_read_spec (lift total s) k offset count rc out (lift total s') ltac:(by apply fs_ok_lift) Ho Hk Hu Hc Hlt E') as [Hq Hr].
  split; [by apply (quiet_lift total)|]. destruct Hr as [(? & ? & ?)|(? & ? & ? & Hsh)]; [left; naive_solver|right].
  split; [done|]. split; [done|]. split; [done|]. intros Hlt'. destruct (Hsh Hlt'), Hrel; auto; naive_solver.
Qed.

(** C22: fs_read returns bytes of the file from the offset on, never past its
    size, and changes nothing on disk; it gives fewer bytes than asked for and
    there only at a hole of the file or when a read or an allocation failed.
    Offset and count together stay below 2^32. *)
Theorem fs_read_correct s k offset count rc out s' :
  fs_ok s → own s (dinode s) → inode_ix k → is_u32 offset → 0 <= count → offset + count < 2 ^ 32 →
  fs_read s k offset count = (rc, out, s') →
  let n := dinode s k in
  let want := Z.max 0 (Z.min count (i_size n - offset)) in
  quiet s s' ∧
  (rc = -1 ∧ out = [] ∧ starved s s' ∨
   rc = s32 (blen out) ∧ blen out <= want ∧ holds_at (blk s) n offset out ∧
   (blen out < want → starved s s' ∨ fbyte (blk s) n (offset + blen out) = None)).
Proof. apply fs_read_cases. Qed.

(** ** What a failed write makes of the result

    Every write but the last one, of the block bitmap, is checked. *)

Definition reported {A} s (good : A → Prop) (x : A * fsys St Heap C) : Prop :=
  good x.1 → writes_lost x.2 = writes_lost s.

Lemma write_block_reported s lba b : reported s (λ ok, ok = true) (write_block s lba b).
Proof.
  unfold reported, writes_lost, write_block. destruct (bs_write_counts (fs_st s) (g_blkdev (fs_mnt s)) lba b) as [_ H].
  by destruct (bs_write _ _ _ _) as [[] ?].
Qed.

Lemma inode_write_reported s k n : reported s (λ ok, ok = true) (inode_write s k n).
Proof.
  unfold reported, writes_lost, inode_write. cbv zeta. set (x := _ +u _). set (dev := g_blkdev _).
  destruct (sec_read_counts (fs_st s) dev x) as [H _]. destruct (sec_read _ dev x) as [[b|] st]; [|done]. cbn [fst snd] in H.
  set (b' := splice _ _ _). destruct (sec_write_counts st dev x b') as [_ H'].
  destruct (sec_write st dev x b') as [[] st2]; [|done]. cbn in *. intros _. congruence.
Qed.

Lemma alloc_zeroed_reported s : reported s (λ lba, lba ≠ 0) (alloc_zeroed s).
Proof.
  unfold reported, alloc_zeroed. pose proof (block_alloc_stick (λ t, writes_lost t = writes_lost s) s eq_refl) as H1. cbv beta in H1.
  destruct (block_alloc s) as [lba s1]. destruct (lba =? 0) eqn:E0; [by cbn; lia|]. unfold write_zeroed_block.
  pose proof (malloc_stick (λ t, writes_lost t = writes_lost s) s1 DUFS_BLOCK_SIZE H1) as H2. cbv beta in H2.
  destruct (fs_malloc s1 _) as [z s2]. destruct (z =? 0); [by cbn|].
  pose proof (write_block_reported s2 lba (zeros_buf DUFS_BLOCK_SIZE)) as H3. unfold reported in H3.
  destruct (write_block s2 _ _) as [[] s3]; [|by cbn]. cbn in *. intros _. rewrite <-H2. by apply H3.
Qed.

Lemma ensure_in_reported s n t i : reported s (λ r, r.1 ≠ 0) (ensure_in s n t i).
Proof.
  unfold reported, ensure_in. pose proof (read_block_stick (λ t, writes_lost t = writes_lost s) s t eq_refl) as H1. cbv beta in H1.
  destruct (read_block s t) as [[b|] s1]; [|done]. destruct (entry b i =? 0); [|by cbn].
  pose proof (alloc_zeroed_reported s1) as H2. unfold reported in H2. destruct (alloc_zeroed s1) as [lba s2].
  destruct (lba =? 0) eqn:E0; [by cbn|]. pose proof (write_block_reported s2 t (set_entry b i lba)) as H3. unfold reported in H3.
  destruct (write_block s2 _ _) as [[] s3]; [|by cbn]. cbn in *. intros Hl. rewrite H3, H2 by done. done.
Qed.

Lemma table_reported s n p (f : Z → dufs_inode) :
  reported s (λ r, r.1 = true)
    (if p =? 0 then let '(lba, s) := alloc_zeroed s in if lba =? 0 then (false, n, s) else (true, f lba, s) else (true, n, s)).
Proof.
  unfold reported. destruct (p =? 0); [|done]. pose proof (alloc_zeroed_reported s) as H. unfold reported in H.
  destruct (alloc_zeroed s) as [lba s1]. destruct (Z.eqb_spec lba 0); cbn in *; auto.
Qed.

Lemma malloc_lost s z : writes_lost (fs_malloc s z).2 = writes_lost s.
Proof. exact (malloc_stick (λ t, writes_lost t = writes_lost s) s z eq_refl). Qed.

Lemma block_ensure_reported s n i : reported s (λ r, r.1 ≠ 0) (block_ensure s n i).
Proof.
  unfold reported, block_ensure. destruct (i <? _).
  { destruct (_ =? 0); [|done]. pose proof (alloc_zeroed_reported s) as H. unfold reported in H.
    destruct (alloc_zeroed s) as [lba s1]. destruct (lba =? 0); cbn in *; auto. }
  cbv zeta. destruct (_ <? _).
  - pose proof (table_reported s n (i_indirect n) (λ lba, inc_block_count (set_indirect lba n))) as H1. unfold reported in H1.
    match goal with |- context [match ?e with (_, _) => _ end] => destruct e as [[ok n1] s1] end. destruct ok; [|done].
    specialize (H1 eq_refl). pose proof (malloc_lost s1 DUFS_BLOCK_SIZE) as H2. cbn [negb fst snd] in *.
    destruct (fs_malloc s1 _) as [buf s2]. destruct (buf =? 0); [done|].
    pose proof (ensure_in_reported s2 n1 (i_indirect n1) (i - DUFS_DIRECT_BLOCKS)) as H3. unfold reported in H3.
    destruct (ensure_in s2 _ _ _) as [[r n2] s3]. cbn in *. intros Hr. specialize (H3 Hr). unfold writes_lost in *. cbn. congruence.
  - destruct (_ <? _); [|done].
    pose proof (table_reported s n (i_double n) (λ lba, inc_block_count (set_double lba n))) as H1. unfold reported in H1.
    match goal with |- context [match ?e with (_, _) => _ end] => destruct e as [[ok n1] s1] end. destruct ok; [|done].
    specialize (H1 eq_refl). pose proof (malloc_lost s1 DUFS_BLOCK_SIZE) as H2. cbn [negb fst snd] in *.
    destruct (fs_malloc s1 _) as [buf s2]. destruct (buf =? 0); [done|]. set (j := i - _ - _).
    pose proof (ensure_in_reported s2 n1 (i_double n1) (j / DUFS_INDIR_ENTRIES)) as H3. unfold reported in H3.
    destruct (ensure_in s2 _ _ _) as [[l1 n2] s3]. destruct (Z.eqb_spec l1 0); [done|]. cbn in H3.
    pose proof (ensure_in_reported s3 n2 l1 (j mod DUFS_INDIR_ENTRIES)) as H4. unfold reported in H4.
    destruct (ensure_in s3 _ _ _) as [[r n3] s4]. cbn in *. intros Hr. specialize (H4 Hr). specialize (H3 ltac:(done)).
    unfold writes_lost in *. cbn. congruence.
Qed.

Lemma write_loop_reported fuel s n o buf w d :
  0 <= w <= blen buf → blen buf < 2 ^ 31 →
  match (write_loop fuel s n o buf w d).1 with
  | Some (w', _, _) => 0 <= w' <= blen buf ∧ (w' = blen buf → writes_lost (write_loop fuel s n o buf w d).2 = writes_lost s)
  | None => True
  end.
Proof.
  intros Hw Hb. revert s n w d Hw. induction fuel as [|fuel IH]; intros s n w d Hw; [done|]. cbn [write_loop].
  destruct (Z.ltb_spec w (blen buf)); [|done]. cbv zeta. set (co := o +u w).
  pose proof (block_ensure_reported s n (co / DUFS_BLOCK_SIZE)) as H1. unfold reported in H1.
  destruct (block_ensure s n _) as [[lba n1] s1]. destruct (Z.eqb_spec lba 0); [cbn; lia|]. cbn [fst snd] in H1.
  pose proof (read_block_stick (λ t, writes_lost t = writes_lost s) s1 lba ltac:(by apply H1)) as H2. cbv beta in H2.
  destruct (read_block s1 lba) as [[b|] s2]; [|cbn; lia].
  match goal with |- context [write_block s2 lba ?x] => pose proof (write_block_reported s2 lba x) as H3; unfold reported in H3;
    destruct (write_block s2 lba x) as [[] s3] end; [|cbn; lia].
  cbn [negb fst snd] in *. specialize (H3 eq_refl). set (chunk := if DUFS_BLOCK_SIZE - co mod DUFS_BLOCK_SIZE <? blen buf - w then DUFS_BLOCK_SIZE - co mod DUFS_BLOCK_SIZE else blen buf - w).
  pose proof (Z.mod_pos_bound co DUFS_BLOCK_SIZE ltac:(done)).
  assert (0 < chunk <= blen buf - w) as Hch by (unfold chunk, DUFS_BLOCK_SIZE in *; destruct (Z.ltb_spec (4096 - co mod 4096) (blen buf - w)); lia).
  rewrite (u32_small (w + chunk)) by (unfold is_u32; lia).
  match goal with |- context [write_loop fuel s3 ?m o buf (w + chunk) true] =>
    specialize (IH s3 m (w + chunk) true ltac:(lia)); destruct (write_loop fuel s3 m o buf (w + chunk) true) as [[[[w' d'] n']|] s4] end; [|done].
  cbn [fst snd] in *. destruct IH as [? IH]. split; [done|]. intros E. rewrite (IH E). congruence.
Qed.

(** Only the block bitmap was not written. *)
Definition flush_lost s s' : Prop := ∃ s1, writes_lost s1 = writes_lost s ∧ flush_block_bitmap s1 = (false, s').

Lemma fs_write_reported s k o buf :
  blen buf < 2 ^ 31 → (fs_write s k o buf).1 = blen buf → write_failed s (fs_write s k o buf).2 → flush_lost s (fs_write s k o buf).2.
Proof.
  intros Hb. unfold write_failed, fs_write. pose proof (blen_nonneg buf) as Hb0. destruct (Z.eqb_spec (blen buf) 0); [cbn; lia|].
  pose proof (inode_read_stick (λ t, writes_lost t = writes_lost s) s k eq_refl) as H1. cbv beta in H1.
  destruct (inode_read s k) as [[n1|] s1]; [|cbn; lia].
  pose proof (malloc_lost s1 DUFS_BLOCK_SIZE) as H2. destruct (fs_malloc s1 _) as [p s2]. destruct (p =? 0); [cbn; lia|].
  pose proof (write_loop_reported (io_fuel (blen buf)) s2 n1 o buf 0 false ltac:(lia) Hb) as H3.
  destruct (write_loop _ s2 n1 o buf 0 false) as [[[[w d] n2]|] s3]; [|cbn; lia]. cbn [fst snd] in *. destruct H3 as [Hw H3].
  cbv zeta. set (s4 := fs_kfree s3 p). assert (writes_lost s4 = writes_lost s3) as H4 by done.
  match goal with |- context [match (if ?c then ?x else ?y) with (_, _) => _ end] =>
    assert (writes_lost (if c then x else y).2 = writes_lost s4) as H5; [|destruct (if c then x else y) as [n3 s5]] end.
  { destruct (0 <? w); [|done]. pose proof (time_stick (λ t, writes_lost t = writes_lost s4) s4 eq_refl) as H. cbv beta in H.
    by destruct (arch_time_unix_seconds s4). }
  pose proof (inode_write_reported s5 k n3) as H6. unfold reported in H6. destruct (inode_write s5 k n3) as [[] s6]; [|cbn; lia].
  cbn [negb fst snd] in *. specialize (H6 eq_refl). intros E. unfold s32 in E. rewrite Z.mod_small in E by lia.
  specialize (H3 ltac:(lia)). assert (writes_lost s6 = writes_lost s) as H7 by congruence.
  destruct d; [|lia]. pose proof (write_block_reported s6 (sb_block_bitmap_lba (g_super (fs_mnt s6))) (g_block_bitmap (fs_mnt s6))) as H8.
  unfold reported in H8. fold (flush_block_bitmap s6) in H8. intros Hl. exists s6. split; [done|].
  destruct (flush_block_bitmap s6) as [[] s7]; [|done]. cbn in *. specialize (H8 eq_refl). lia.
Qed.
Lemma fs_write_cases s k offset buf rc s' :
  fs_ok s → own s (dinode s) → inode_ix k → 0 <= offset → offset + blen buf < 2 ^ 32 → blen buf < 2 ^ 31 → bytes buf →
  fs_write s k offset buf = (rc, s') →
  write_failed s s' ∧ (rc = blen buf → flush_lost s s') ∨
  others_kept k s s' ∧
  (rc = -1 ∧ starved s s' ∨
   0 <= rc <= blen buf ∧ file_written k offset rc buf s s' ∧ (rc < blen buf → full s' ∨ starved s s') ∧
   (0 < rc → blk s' 10 = bm s')).
Proof.
  intros Hs Ho Hk Hoff Hlt Hsm Hby E.
  destruct (run_cases s (fs_write s k offset buf) (λ total, fs_write (lift total s) k offset buf)) as [Hw|(total & E' & Hrel)];
    [intros; by apply fs_write_sim| |]; rewrite E in *; cbn [fst snd] in *.
  { left. split; [done|]. intros ->. pose proof (fs_write_reported s k offset buf Hsm) as Hr. rewrite E in Hr. by apply Hr. }
  right. destruct (fs_write_spec (lift total s) k offset buf rc (lift total s') ltac:(by apply fs_ok_lift) Ho Hk Hoff Hlt Hsm Hby E')
    as [Hoth Hr].
  split; [by apply (others_lift total)|]. destruct Hr as [[? ?]|(? & Hfw & Hsh & ?)]; [left; naive_solver|right].
  split; [done|]. split; [by apply (written_lift total)|]. split; [|done].
  intros Hl. destruct Hrel as [|Hrel]; [by right|left]. exact (Hsh Hl Hrel).
Qed.

(** ** A file among others *)

Inductive file_op := OpWrite (j offset : Z) (buf : list Z) | OpTruncate (j size : Z) | OpRead (j offset count : Z).

Definition run_op s (op : file_op) : fsys St Heap C :=
  match op with
  | OpWrite j offset buf => (fs_write s j offset buf).2
  | OpTruncate j size => (fs_truncate s j size).2
  | OpRead j offset count => (fs_read s j offset count).2
  end.

Definition other_op (k : Z) (op : file_op) : Prop :=
  match op with
  | OpWrite j offset buf =>
      inode_ix j ∧ j ≠ k ∧ 0 <= offset ∧ offset + blen buf < 2 ^ 32 ∧ blen buf < 2 ^ 31 ∧ bytes buf
  | OpTruncate j size => inode_ix j ∧ j ≠ k ∧ is_u32 size
  | OpRead j offset count => inode_ix j ∧ is_u32 offset ∧ 0 <= count ∧ offset + count < 2 ^ 32
  end.

(** The file [k] as it was. *)
Record file_kept k s s' : Prop := {
  fk_ok : fs_ok s';
  fk_own : own s' (dinode s');
  fk_inode : dinode s' k = dinode s k;
  fk_bytes o : file_off o → fbyte (blk s') (dinode s' k) o = fbyte (blk s) (dinode s k) o;
}.

Lemma others_file j k s s' : others_kept j s s' → inode_ix k → k ≠ j → file_kept k s s'.
Proof. intros []. split; auto. Qed.

#[local] Instance loses_more w : sticky (λ s : fsys St Heap C, w <= writes_lost s)%nat.
Proof.
  split; [split|..]; unfold writes_lost; cbn [fs_st with_st with_mnt with_hp]; try done; intros s dev x.
  - by destruct (bs_read_counts (fs_st s) dev x) as [-> _].
  - by destruct (sec_read_counts (fs_st s) dev x) as [-> _].
  - intros b. destruct (bs_write_counts (fs_st s) dev x b) as [_ H]. destruct (bs_write _ _ _ _) as [[] ?]; cbn in *; lia.
  - intros b. destruct (sec_write_counts (fs_st s) dev x b) as [_ H]. destruct (sec_write _ _ _ _) as [[] ?]; cbn in *; lia.
Qed.

Lemma run_op_lost s op : (writes_lost s <= writes_lost (run_op s op))%nat.
Proof.
  destruct op; cbn [run_op];
    [apply (fs_write_stick (λ t, writes_lost s <= writes_lost t)%nat)
    |apply (fs_truncate_stick (λ t, writes_lost s <= writes_lost t)%nat)
    |apply (fs_read_stick (λ t, writes_lost s <= writes_lost t)%nat)]; done.
Qed.

Lemma run_ops_lost ops s : (writes_lost s <= writes_lost (foldl run_op s ops))%nat.
Proof. revert s. induction ops as [|op ops IH]; intros s; cbn; [done|]. pose proof (run_op_lost s op). specialize (IH (run_op s op)). lia. Qed.

Lemma run_op_kept k s op : fs_ok s → own s (dinode s) → inode_ix k → other_op k op → write_failed s (run_op s op) ∨ file_kept k s (run_op s op).
Proof.
  intros Hs Ho Hk. assert (∀ total, fs_ok (lift total s)) as Hl by (intros; by apply fs_ok_lift).
  destruct op as [j off buf|j size|j off count]; cbn [run_op other_op].
  - intros (Hj & Hne & ? & ? & ? & ?). destruct (run_cases s (fs_write s j off buf) (λ total, fs_write (lift total s) j off buf))
      as [|(total & E & _)]; [intros; by apply fs_write_sim|by left|right].
    destruct (fs_write_spec (lift total s) j off buf _ _ (Hl total) Ho Hj ltac:(done) ltac:(done) ltac:(done) ltac:(done) E) as [Hoth _].
    apply (others_file j); [by apply (others_lift total)|done|congruence].
  - intros (Hj & Hne & ?). destruct (run_cases s (fs_truncate s j size) (λ total, fs_truncate (lift total s) j size))
      as [|(total & E & _)]; [intros; by apply fs_truncate_sim|by left|right].
    destruct (fs_truncate_spec (lift total s) j size _ _ (Hl total) Ho Hj ltac:(done) E) as [Hoth _].
    apply (others_file j); [by apply (others_lift total)|done|congruence].
  - intros (Hj & ? & ? & ?). destruct (fs_read s j off count) as [[rc out] s'] eqn:E. right.
    destruct (fs_read_cases s j off count rc out s' Hs Ho Hj ltac:(done) ltac:(done) ltac:(done) E) as [Hq _].
    pose proof (others_quiet (k + 1) s s' Hs Ho Hq) as Hoth. apply (others_file (k + 1)); [done|done|lia].
Qed.
Lemma run_ops_kept k ops s :
  fs_ok s → own s (dinode s) → inode_ix k → Forall (other_op k) ops →
  write_failed s (foldl run_op s ops) ∨ file_kept k s (foldl run_op s ops).
Proof.
  intros Hs Ho Hk Hops. revert s Hs Ho. induction Hops as [|op ops Hop Hops IH]; intros s Hs Ho; cbn [foldl].
  { right. by split. }
  pose proof (run_op_lost s op). pose proof (run_ops_lost ops (run_op s op)). unfold write_failed in *.
  destruct (run_op_kept k s op Hs Ho Hk Hop) as [Hw|[A1 A2 A3 A4]]; [left; unfold write_failed in *; lia|].
  destruct (IH (run_op s op) A1 A2) as [|[B1 B2 B3 B4]]; [left; lia|right]. split; [done|done|congruence|].
  intros o Hof. rewrite B4, A4 by done. done.
Qed.

(** C19: what was written to a file is read back, whatever other files are
    written and truncated and whatever is read in between, unless a write to the
    disk failed; a read or an allocation that fails during the reading only cuts
    it short.  Offset and count together stay below 2^32, the count below
    2^31. *)
Theorem fs_write_read s k offset buf s1 ops rc out s3 :
  fs_ok s → own s (dinode s) → inode_ix k → bytes buf → Forall (other_op k) ops →
  0 <= offset → offset + blen buf < 2 ^ 32 → blen buf < 2 ^ 31 →
  fs_write s k offset buf = (blen buf, s1) → fs_read (foldl run_op s1 ops) k offset (blen buf) = (rc, out, s3) →
  write_failed s s3 ∨
  rc = -1 ∧ starved (foldl run_op s1 ops) s3 ∨
  rc = blen out ∧ out `prefix_of` buf ∧ (out = buf ∨ starved (foldl run_op s1 ops) s3).
Proof.
  intros Hs Ho Hk Hby Hops Hoff Hlt Hsm E1 E3. pose proof (blen_nonneg buf) as Hb0. set (s2 := foldl run_op s1 ops) in *.
  pose proof (run_ops_lost ops s1) as L2. fold s2 in L2.
  pose proof (fs_read_stick (λ t, writes_lost t = writes_lost s2) s2 k offset (blen buf) eq_refl) as L3. rewrite E3 in L3. cbn [snd] in L3.
  pose proof (fs_write_stick (λ t, writes_lost s <= writes_lost t)%nat s k offset buf (le_n _)) as L1. rewrite E1 in L1. cbn [snd] in L1.
  unfold write_failed.
  destruct (run_cases s (fs_write s k offset buf) (λ total, fs_write (lift total s) k offset buf)) as [Hw|(total & E & _)];
    [intros; by apply fs_write_sim|left; unfold write_failed in Hw; rewrite E1 in Hw; cbn [snd] in Hw; lia|]. rewrite E1 in E. cbn [fst snd] in E.
  destruct (fs_write_spec (lift total s) k offset buf _ _ ltac:(by apply fs_ok_lift) Ho Hk Hoff Hlt Hsm Hby E) as [Hoth Hr].
  apply (others_lift total) in Hoth as [A1 A2 _ _]. destruct Hr as [[? _]|(_ & Hfw & _)]; [lia|]. apply (written_lift total) in Hfw as [Hsz _ Hw].
  destruct (run_ops_kept k ops s1 A1 A2 Hk Hops) as [Hf|[B1 B2 B3 B4]]; [left; unfold write_failed in Hf; fold s2 in Hf; lia|right]. fold s2 in B1, B2, B3, B4.
  assert (is_u32 offset) as Hu by (unfold is_u32; lia).
  destruct (fs_read_cases s2 k offset (blen buf) rc out s3 B1 B2 Hk Hu Hb0 Hlt E3) as [_ [(-> & _ & ?)|(-> & Hle & Hh & Hshort)]]; [by left|right].
  assert (∀ i, 0 <= i < blen buf → fbyte (blk s2) (dinode s2 k) (offset + i) = Some buf.[i]) as Hf.
  { intros i Hi. rewrite B4 by (unfold file_off; lia). specialize (Hw (offset + i) ltac:(unfold file_off; lia)).
    destruct (Z.leb_spec offset (offset + i)), (Z.ltb_spec (offset + i) (offset + blen buf)); try lia. cbn [andb] in Hw.
    rewrite Hw. do 2 f_equal. lia. }
  assert (blen buf <= i_size (dinode s2 k) - offset ∨ blen buf = 0) as Hsize.
  { rewrite B3, Hsz. destruct (Z.eqb_spec (blen buf) 0); [by right|left; lia]. }
  pose proof (blen_nonneg out) as Hout.
  assert (out = slice buf 0 (blen out)) as Eout.
  { apply buf_ext; [by rewrite blen_slice by lia|]. intros i Hi. rewrite slice_at by lia. specialize (Hh i Hi). rewrite Hf in Hh by lia.
    by injection Hh. }
  split; [unfold s32; rewrite Z.mod_small; lia|]. split.
  { exists (drop (Z.to_nat (blen out)) buf). rewrite Eout at 1. unfold slice. rewrite drop_0. by rewrite take_drop. }
  destruct (Z.eq_dec (blen out) (blen buf)) as [El|Hne].
  - left. rewrite Eout, El. unfold slice, blen. by rewrite Nat2Z.id, drop_0, firstn_all.
  - right. destruct Hshort as [|Hhole]; [lia|done|]. rewrite Hf in Hhole by lia. done.
Qed.

(** C20: fs_truncate changes nothing but a regular file: it ends up with the size
    asked for, every byte between the two sizes is zero and the others are as
    before; it fails only on another kind of inode, on a full disk or when a
    read or an allocation failed.  All of this unless a write to the disk
    failed. *)
Theorem fs_truncate_correct s k size rc s' :
  fs_ok s → own s (dinode s) → inode_ix k → is_u32 size → fs_truncate s k size = (rc, s') →
  let n := dinode s k in
  write_failed s s' ∨
  others_kept k s s' ∧
  (rc = 0 ∧ i_type n = DUFS_TYPE_FILE ∧ i_size (dinode s' k) = size ∧ write_meta n (dinode s' k) ∧
   (∀ o, file_off o →
      if (Z.min (i_size n) size <=? o) && (o <? Z.max (i_size n) size) then fbyte (blk s') (dinode s' k) o = Some 0
      else same_or_zero (fbyte (blk s) n o) (fbyte (blk s') (dinode s' k) o)) ∨
   rc = -1 ∧ (i_type n = DUFS_TYPE_FILE → full s' ∨ starved s s')).
Proof.
  intros Hs Ho Hk Hsz E. cbn zeta.
  destruct (run_cases s (fs_truncate s k size) (λ total, fs_truncate (lift total s) k size)) as [Hw|(total & E' & Hrel)];
    [intros; by apply fs_truncate_sim|left; by rewrite E in Hw|right]. rewrite E in E', Hrel. cbn [fst snd] in *.
  destruct (fs_truncate_spec (lift total s) k size rc (lift total s') ltac:(by apply fs_ok_lift) Ho Hk Hsz E') as [Hoth Hr].
  split; [by apply (others_lift total)|]. destruct Hr as [?|[? Hf]]; [by left|right]. split; [done|]. intros Ht.
  destruct Hrel as [|Hrel]; [by right|left; exact (Hf Ht Hrel)].
Qed.

(** ** Removing *)

Lemma cleared_bits_lift total s b : bmap_test (bm (lift total s)) b = bmap_test (bm s) b.
Proof. done. Qed.

(** C21: free_inode_blocks empties the inode and gives back every block it owned,
    data and tables, unless a read or an allocation failed on the way; no other
    block is freed, none becomes used, and no block on disk changes. *)
Theorem free_inode_blocks_correct s k n s' :
  fs_ok s → own s (dinode s) → inode_ix k → free_inode_blocks s (dinode s k) = (n, s') →
  (i_size n = 0 ∧ i_block_count n = 0 ∧ i_type n = i_type (dinode s k) ∧ i_link_count n = i_link_count (dinode s k) ∧
   ∀ B p, pos_ok p → ptr B n p = 0) ∧
  fs_ok s' ∧ own s' (upd_inode (dinode s) k n) ∧ same_blocks s s' ∧ same_sectors s s' ∧
  ∀ b, 0 <= b < 32768 →
    (bmap_test (bm s') b = true → bmap_test (bm s) b = true) ∧
    (bmap_test (bm s) b = true → ¬ owns_block s (dinode s) k (block_lba b) → bmap_test (bm s') b = true) ∧
    (owns_block s (dinode s) k (block_lba b) → bmap_test (bm s') b = false ∨ starved s s').
Proof.
  intros Hs Ho Hk E.
  pose proof (free_inode_blocks_stick (λ t, writes_lost t = writes_lost s) s (dinode s k) eq_refl) as Hkeep. cbv beta in Hkeep.
  destruct (run_cases s (free_inode_blocks s (dinode s k)) (λ total, free_inode_blocks (lift total s) (dinode s k)))
    as [Hw|(total & E' & Hrel)]; [intros; by apply free_inode_blocks_sim|unfold write_failed in Hw; lia|].
  rewrite E in E', Hrel. cbn [fst snd] in *.
  destruct (free_inode_blocks_sure (lift total s) k n (lift total s') ltac:(by apply fs_ok_lift) Ho Hk E') as (H1 & H2 & H3 & H4 & H5 & Hb).
  split; [done|]. split; [by apply (fs_ok_lift total)|]. do 3 (split; [done|]). intros b Hr. destruct (Hb b Hr) as (B1 & B2 & B3).
  split; [done|]. split; [done|]. intros Hown. destruct Hrel as [|Hrel]; [by right|left; exact (B3 Hrel Hown)].
Qed.
Lemma dir_scan_lost {R} s n (f : Z → list Z → option R) : writes_lost (dir_scan s n f).2 = writes_lost s.
Proof. exact (dir_scan_stick (λ t, writes_lost t = writes_lost s) s n f eq_refl). Qed.
Lemma inode_read_lost s k : writes_lost (inode_read s k).2 = writes_lost s.
Proof. exact (inode_read_stick (λ t, writes_lost t = writes_lost s) s k eq_refl). Qed.
Lemma time_lost s : writes_lost (arch_time_unix_seconds s).2 = writes_lost s.
Proof. exact (time_stick (λ t, writes_lost t = writes_lost s) s eq_refl). Qed.

Lemma dir_add_reported s k nm ino : reported s (λ ok, ok = true) (dir_add s k nm ino).
Proof.
  unfold reported, dir_add. pose proof (inode_read_lost s k) as H1. destruct (inode_read s k) as [[n1|] s1]; [|done].
  pose proof (malloc_lost s1 DUFS_BLOCK_SIZE) as H2. destruct (fs_malloc s1 _) as [p s2]. destruct (p =? 0); [done|].
  match goal with |- context [dir_scan s2 n1 ?f] => pose proof (dir_scan_lost s2 n1 f) as H3; destruct (dir_scan s2 n1 f) as [[[[lba b] e]|] s3] end.
  - pose proof (time_lost s3) as H4. destruct (arch_time_unix_seconds s3) as [t s4].
    pose proof (inode_write_reported s4 k (set_mtime t n1)) as H5. unfold reported in H5. destruct (inode_write s4 _ _) as [[] s5]; [|done].
    match goal with |- context [write_block s5 lba ?x] => pose proof (write_block_reported s5 lba x) as H6; unfold reported in H6;
      destruct (write_block s5 lba x) as [[] s6] end; [|done].
    cbn [fst snd negb] in *. intros _. unfold writes_lost in *. cbn. rewrite H6, H5 by done. congruence.
  - pose proof (block_ensure_reported s3 n1 (i_block_count n1)) as H4. unfold reported in H4.
    destruct (block_ensure s3 n1 _) as [[lba n2] s4]. destruct (Z.eqb_spec lba 0); [done|]. cbn [fst snd] in H4.
    pose proof (time_lost s4) as H5. destruct (arch_time_unix_seconds s4) as [t s5].
    match goal with |- context [write_block s5 lba ?x] => pose proof (write_block_reported s5 lba x) as H6; unfold reported in H6;
      destruct (write_block s5 lba x) as [[] s6] end; [|done].
    cbn [fst snd negb] in *. intros Hok. pose proof (inode_write_reported (fs_kfree s6 p) k (set_mtime t n2)) as H7. unfold reported in H7.
    rewrite H7 by done. unfold writes_lost in *. cbn. rewrite H6 by done. rewrite H5, H4 by done. congruence.
Qed.

(** ** Directories are finite maps *)

Lemma dirs_lift total k s s' :
  (∀ j E, inode_ix j → j ≠ k → dir_is (lift total s) j E → dir_is (lift total s') j E) →
  ∀ j E, inode_ix j → j ≠ k → dir_is s j E → dir_is s' j E.
Proof. intros H j E Hj Hne HE. apply (dir_is_lift total), H; [done..|]. by apply dir_is_lift. Qed.

Lemma dir_lookup_refines s k D nm found s' :
  fs_ok s → own s (dinode s) → inode_ix k → dir_is s k D → name_ok nm → dir_lookup s k nm = (found, s') →
  quiet s s' ∧ dir_is s' k D ∧ (found = default 0 (D !! nm) ∨ found = 0 ∧ starved s s').
Proof.
  intros Hs Ho Hk HD Hn E.
  pose proof (dir_lookup_stick (λ t, writes_lost t = writes_lost s) s k nm eq_refl) as Hkeep. cbv beta in Hkeep.
  destruct (run_cases s (dir_lookup s k nm) (λ total, dir_lookup (lift total s) k nm)) as [Hw|(total & E' & Hrel)];
    [intros; by apply dir_lookup_sim|unfold write_failed in Hw; lia|]. rewrite E in E', Hrel. cbn [fst snd] in *.
  destruct (dir_lookup_sure (lift total s) k D nm found (lift total s') ltac:(by apply fs_ok_lift) Ho Hk ltac:(by apply dir_is_lift) Hn E')
    as (Hq & HD' & Hf).
  split; [by apply (quiet_lift total)|]. split; [by apply (dir_is_lift total)|]. naive_solver.
Qed.

Lemma dir_add_cases s k D nm ino ok s' :
  fs_ok s → own s (dinode s) → inode_ix k → dir_is s k D → name_ok nm → is_u32 ino → ino ≠ 0 → D !! nm = None →
  i_block_count (dinode s k) + 3 <= 2 ^ 20 → dir_add s k nm ino = (ok, s') →
  write_failed s s' ∧ ok = false ∨
  others_kept k s s' ∧ (∀ j E, inode_ix j → j ≠ k → dir_is s j E → dir_is s' j E) ∧
  (ok = true ∧ dir_is s' k (<[nm := ino]> D) ∨
   ok = false ∧ dir_is s' k D ∧ (full s' ∨ starved s s') ∨
   ok = false ∧ starved s s' ∧ dir_shows s' k D).
Proof.
  intros Hs Ho Hk HD Hn Hu H0 Hno Hlim E.
  destruct (run_cases s (dir_add s k nm ino) (λ total, dir_add (lift total s) k nm ino)) as [Hw|(total & E' & Hrel)];
    [intros; by apply dir_add_sim| |]; rewrite E in *; cbn [fst snd] in *.
  { left. split; [done|]. pose proof (dir_add_reported s k nm ino) as Hr. unfold reported in Hr. rewrite E in Hr. cbn [fst snd] in Hr.
    destruct ok; [|done]. unfold write_failed in Hw. specialize (Hr eq_refl). lia. }
  right. destruct (dir_add_sure (lift total s) k D nm ino ok (lift total s') ltac:(by apply fs_ok_lift) Ho Hk ltac:(by apply dir_is_lift)
    Hn Hu H0 Hno Hlim E') as (Hoth & Hdirs & Hr).
  split; [by apply (others_lift total)|]. split; [by apply (dirs_lift total k)|].
  destruct Hr as [[? H]|[(? & H & Hf)|(? & Hf & H)]].
  - left. split; [done|]. by apply (dir_is_lift total).
  - right; left. split; [done|]. split; [by apply (dir_is_lift total)|]. destruct Hrel as [|Hrel]; [by right|left; exact (Hf Hrel)].
  - right; right. split; [done|]. split; [|done]. destruct Hrel as [|Hrel]; [done|]. by destruct (Hf Hrel).
Qed.
(** Only the block of the entry was not written. *)
Definition entry_lost s s' : Prop :=
  ∃ s1 s2 lba b p, writes_lost s1 = writes_lost s ∧ write_block s1 lba b = (false, s2) ∧ s' = fs_kfree s2 p.

Lemma dir_remove_reported s k nm :
  (dir_remove s k nm).1 ≠ 0 → write_failed s (dir_remove s k nm).2 → entry_lost s (dir_remove s k nm).2.
Proof.
  unfold dir_remove, write_failed. pose proof (inode_read_lost s k) as H1. destruct (inode_read s k) as [[n1|] s1]; [|done].
  pose proof (malloc_lost s1 DUFS_BLOCK_SIZE) as H2. destruct (fs_malloc s1 _) as [p s2]. destruct (p =? 0); [done|].
  match goal with |- context [dir_scan s2 n1 ?f] => pose proof (dir_scan_lost s2 n1 f) as H3; destruct (dir_scan s2 n1 f) as [[[[lba b] e]|] s3] end;
    [|done].
  pose proof (time_lost s3) as H4. destruct (arch_time_unix_seconds s3) as [t s4].
  pose proof (inode_write_reported s4 k (set_mtime t n1)) as H5. unfold reported in H5. destruct (inode_write s4 _ _) as [[] s5]; [|done].
  cbn [fst snd negb] in *. specialize (H5 eq_refl). assert (writes_lost s5 = writes_lost s) as H by congruence.
  pose proof (write_block_reported s5 lba (clear_entry b e)) as H6. unfold reported in H6.
  destruct (write_block s5 lba (clear_entry b e)) as [[] s6] eqn:E; cbn [fst snd] in *; intros _ Hl.
  - unfold writes_lost in *. cbn in Hl. rewrite H6 in Hl by done. lia.
  - by exists s5, s6, lba, (clear_entry b e), p.
Qed.

(** C17: dir_add adds exactly the name to the directory, and nothing else changes:
    the other files and directories are as before.  It fails only on a full disk
    or when a read, an allocation or a write failed.  The directory is one with
    no block attached beyond the counted ones; a failed read or allocation may
    leave one, and shows the names it had.  After a failed write the call has
    failed, and nothing is said of the disk. *)
Theorem dir_add_refines s k D nm ino ok s' :
  fs_ok s → own s (dinode s) → inode_ix k → dir_is s k D → name_ok nm → is_u32 ino → ino ≠ 0 → D !! nm = None →
  i_block_count (dinode s k) + 3 <= 2 ^ 20 → dir_add s k nm ino = (ok, s') →
  write_failed s s' ∧ ok = false ∨
  others_kept k s s' ∧ (∀ j E, inode_ix j → j ≠ k → dir_is s j E → dir_is s' j E) ∧
  (ok = true ∧ dir_is s' k (<[nm := ino]> D) ∨
   ok = false ∧ dir_is s' k D ∧ (full s' ∨ starved s s') ∨
   ok = false ∧ starved s s' ∧ dir_shows s' k D).
Proof. apply dir_add_cases. Qed.

(** C18: dir_remove returns the inode of the name and takes exactly that name out
    of the directory; every other name, file and directory stays.  It misses a
    name that is there only when a read or an allocation failed.  If a write to
    the disk failed the call has failed too, unless it was that of the block of
    the entry, which dir_remove does not look at. *)
Theorem dir_remove_refines s k D nm found s' :
  fs_ok s → own s (dinode s) → inode_ix k → dir_is s k D → name_ok nm → dir_remove s k nm = (found, s') →
  write_failed s s' ∧ (found ≠ 0 → entry_lost s s') ∨
  others_kept k s s' ∧ (∀ j E, inode_ix j → j ≠ k → dir_is s j E → dir_is s' j E) ∧ dir_meta (dinode s k) (dinode s' k) ∧
  (found = default 0 (D !! nm) ∧ dir_is s' k (delete nm D) ∨ found = 0 ∧ starved s s' ∧ dir_is s' k D).
Proof.
  intros Hs Ho Hk HD Hn E.
  destruct (run_cases s (dir_remove s k nm) (λ total, dir_remove (lift total s) k nm)) as [Hw|(total & E' & Hrel)];
    [intros; by apply dir_remove_sim| |]; rewrite E in *; cbn [fst snd] in *.
  { left. split; [done|]. intros Hf. pose proof (dir_remove_reported s k nm) as Hr. rewrite E in Hr. by apply Hr. }
  right.
  destruct (dir_remove_sure (lift total s) k D nm found (lift total s') ltac:(by apply fs_ok_lift) Ho Hk ltac:(by apply dir_is_lift) Hn E')
    as (Hoth & Hdirs & Hm & Hr).
  split; [by apply (others_lift total)|]. split; [by apply (dirs_lift total k)|]. split; [done|].
  destruct Hr as [[? H]|(? & Hf & H)]; [left|right]; (split; [done|]); [by apply (dir_is_lift total)|].
  split; [by destruct Hrel|by apply (dir_is_lift total)].
Qed.
End props.
