(* ===== verification/DufsDemo.v ===== *)
(** * DUFS: a small disk

    A disk in memory whose reads and writes fail by a plan, a heap that never
    runs out and a clock; the theorems at concrete files and directories, and
    what fs.c does when a write fails. *)

From S2P Require Import Prelude Interfaces Vfs Bytes Dufs DufsSpec DufsGrow DufsWrite DufsFile DufsFree DufsDir DufsDirSpec DufsDirProps DufsSim DufsProps.

(** Blocks and sectors that were never written are zero.  The plan says whether
    the next operations succeed; they do when it is used up. *)
Record ram_disk := mk_ram {
  rd_blocks : gmap Z (list Z);
  rd_sectors : gmap Z (list Z);
  rd_plan : list bool;
  rd_reads_lost : nat;
  rd_writes_lost : nat;
}.

Definition rd_block (d : ram_disk) (lba : Z) : list Z := default (zeros_buf 4096) (rd_blocks d !! lba).
Definition rd_sector (d : ram_disk) (sec : Z) : list Z := default (zeros_buf 512) (rd_sectors d !! sec).

Definition rd_next (d : ram_disk) : bool := default true (head (rd_plan d)).

Definition rd_read (x : list Z) (d : ram_disk) : option (list Z) * ram_disk :=
  if rd_next d then (Some x, mk_ram (rd_blocks d) (rd_sectors d) (tail (rd_plan d)) (rd_reads_lost d) (rd_writes_lost d))
  else (None, mk_ram (rd_blocks d) (rd_sectors d) (tail (rd_plan d)) (S (rd_reads_lost d)) (rd_writes_lost d)).

Definition rd_write (blocks sectors : gmap Z (list Z)) (d : ram_disk) : bool * ram_disk :=
  if rd_next d then (true, mk_ram blocks sectors (tail (rd_plan d)) (rd_reads_lost d) (rd_writes_lost d))
  else (false, mk_ram (rd_blocks d) (rd_sectors d) (tail (rd_plan d)) (rd_reads_lost d) (S (rd_writes_lost d))).

#[export] Instance ram_store : BlockStore ram_disk := {
  bs_read d _ lba := rd_read (rd_block d lba) d;
  bs_write d _ lba buf := rd_write (<[lba := buf]> (rd_blocks d)) (rd_sectors d) d;
  sec_read d _ sec := rd_read (rd_sector d sec) d;
  sec_write d _ sec buf := rd_write (rd_blocks d) (<[sec := buf]> (rd_sectors d)) d;
}.

Definition sized (n : nat) (b : list Z) : Prop := length b = n ∧ bytes b.

#[export] Instance ram_view : StoreView ram_disk := {
  st_dev := 1;
  st_inv d := map_Forall (λ _, sized 4096) (rd_blocks d) ∧ map_Forall (λ _, sized 512) (rd_sectors d);
  st_block := rd_block;
  st_sector := rd_sector;
}.

Lemma default_sized (m : gmap Z (list Z)) n lba :
  map_Forall (λ _, sized n) m → sized n (default (zeros_buf (Z.of_nat n)) (m !! lba)).
Proof.
  intros Hm. destruct (m !! lba) as [b|] eqn:E; [by apply (Hm lba)|]. split; [|apply bytes_zeros].
  unfold zeros_buf. cbn. by rewrite length_replicate, Nat2Z.id.
Qed.

Lemma default_insert (m : gmap Z (list Z)) z lba b x :
  default z (<[lba := b]> m !! x) = if bool_decide (x = lba) then b else default z (m !! x).
Proof. case_bool_decide as E; [by rewrite E, lookup_insert_eq|by rewrite lookup_insert_ne]. Qed.

#[export] Instance ram_laws : BlockStoreLaws ram_disk dufs_blk dufs_sec.
Proof.
  split; cbn [bs_read bs_write sec_read sec_write ram_store]; unfold rd_read, rd_write.
  - intros d lba [H _] _. exact (default_sized _ 4096 _ H).
  - intros d sec [_ H] _. exact (default_sized _ 512 _ H).
  - intros d lba r d' Hd _. destruct (rd_next d); intros [= <- <-]; (split; [done|]); (split; [by intros b [= <-]|done]).
  - intros d lba buf d' [H1 H2] _ Hl Hb. destruct (rd_next d); intros [= <-]. split; [split; [by apply map_Forall_insert_2|done]|].
    split; [|done]. intros b _. apply default_insert.
  - intros d sec r d' Hd _. destruct (rd_next d); intros [= <- <-]; (split; [done|]); (split; [by intros b [= <-]|done]).
  - intros d sec buf d' [H1 H2] _ Hl Hb. destruct (rd_next d); intros [= <-]. split; [split; [done|by apply map_Forall_insert_2]|].
    split; [|done]. intros x _. apply default_insert.
Qed.

#[export] Instance ram_faults : StoreFaults ram_disk := { wr_faults := rd_writes_lost; rd_faults := rd_reads_lost }.
#[export] Instance ram_fault_laws : StoreFaultLaws ram_disk.
Proof.
  split; intros; unfold read_count, write_count; cbn [bs_read bs_write sec_read sec_write ram_store]; unfold rd_read, rd_write;
    by destruct (rd_next _).
Qed.

(** The next address, and the seconds. *)
Record bump := { next_addr : nat }.
#[export] Instance bump_heap : KAllocator bump := {
  ka_malloc h _ := (Z.of_nat (S (next_addr h)), {| next_addr := S (next_addr h) |});
  ka_free h _ := h;
}.
#[export] Instance bump_faults : AllocFaults bump := { al_faults _ := 0%nat }.
#[export] Instance bump_fault_laws : AllocFaultLaws bump.
Proof. by split. Qed.
#[export] Instance ticks : Clock Z := { clock_seconds c := (c, c + 1) }.

Notation demo_state := (fsys ram_disk bump Z).

(** The disk [s] with a plan. *)
Definition planned (plan : list bool) (s : demo_state) : demo_state :=
  with_st (mk_ram (rd_blocks (fs_st s)) (rd_sectors (fs_st s)) plan 0 0) s.

(** Ten data blocks, none used; inode 2 is an empty regular file. *)
Definition demo_super : dufs_super :=
  {| sb_magic := DUFS_MAGIC; sb_total_sectors := 354; sb_inode_count := 1024; sb_inode_bitmap_lba := 2;
     sb_block_bitmap_lba := 10; sb_inode_table_lba := 18; sb_data_lba := 274 |}.

Definition demo_file : dufs_inode := set_type DUFS_TYPE_FILE zero_inode.

Definition demo_fs : demo_state :=
  mk_fsys {| g_blkdev := 1; g_super := demo_super; g_inode_bitmap := zeros_buf 4096; g_block_bitmap := zeros_buf 4096 |}
    (mk_ram ∅ {[18 := splice (zeros_buf 512) 256 (bytes_of demo_file)]} [] 0 0) {| next_addr := 0 |} 1000.

Lemma zero_bitmap_ok : bitmap_ok (zeros_buf 4096).
Proof. split; [unfold zeros_buf; by rewrite length_replicate|apply bytes_zeros]. Qed.

Lemma demo_fs_ok : fs_ok demo_fs.
Proof.
  split; [done| |apply zero_bitmap_ok|apply zero_bitmap_ok|].
  - by split.
  - split; [apply map_Forall_empty|]. apply map_Forall_singleton. split; [vm_compute; reflexivity|].
    apply (bool_decide_unpack _). vm_compute. exact I.
Qed.

Lemma demo_inode k : inode_ix k → dinode demo_fs k = if k =? 2 then demo_file else zero_inode.
Proof.
  intros Hk. unfold dinode. change (st_sector (fs_st demo_fs) (18 + k / 4)) with (rd_sector (fs_st demo_fs) (18 + k / 4)).
  unfold rd_sector. cbn [fs_st demo_fs rd_sectors]. pose proof (Z.mod_pos_bound k 4 ltac:(lia)). pose proof (Z.div_mod k 4 ltac:(lia)).
  assert (k mod 4 = 0 ∨ k mod 4 = 1 ∨ k mod 4 = 2 ∨ k mod 4 = 3) as Hm by lia.
  destruct (decide (k / 4 = 0)) as [E|E].
  - rewrite E. assert (k = 0 ∨ k = 1 ∨ k = 2 ∨ k = 3) as [-> |[-> |[-> | ->]]] by lia; vm_compute; reflexivity.
  - rewrite lookup_singleton_ne by lia. rewrite (proj2 (Z.eqb_neq k 2)) by (intros ->; by apply E).
    destruct Hm as [-> |[-> |[-> | ->]]]; vm_compute; reflexivity.
Qed.

Lemma demo_ptr k p : inode_ix k → pos_ok p → ptrs_of demo_fs (dinode demo_fs) k p = 0.
Proof.
  intros Hk Hp. unfold ptrs_of. rewrite demo_inode by done.
  assert ((if k =? 2 then demo_file else zero_inode) = set_type (if k =? 2 then DUFS_TYPE_FILE else 0) zero_inode) as ->
    by (by destruct (k =? 2)).
  destruct p as [i| |i| |i|i j]; try reflexivity. cbn in *. apply arr_get_replicate. change (Z.to_nat DUFS_DIRECT_BLOCKS) with 12%nat.
  unfold DUFS_DIRECT_BLOCKS in *. lia.
Qed.

Lemma demo_own : own demo_fs (dinode demo_fs).
Proof.
  split.
  - intros k p Hk Hp Hn. by rewrite demo_ptr in Hn.
  - intros k p k' p' Hk Hp _ _ Hn. by rewrite demo_ptr in Hn.
Qed.

Lemma demo_ix : inode_ix 1 ∧ inode_ix 2 ∧ inode_ix 3.
Proof. unfold inode_ix, DUFS_INODE_COUNT. lia. Qed.

Lemma fst_pair {A B} (x : A * B) a : x.1 = a → x = (a, x.2).
Proof. by intros <-; destruct x. Qed.

Lemma pair_eta3 {A B C} (x : A * B * C) : x = (x.1.1, x.1.2, x.2).
Proof. by destruct x as [[]]. Qed.

(** Nothing fails where the counts are the same. *)
Lemma no_write_failed (s s' : demo_state) : writes_lost s' = writes_lost s → ¬ write_failed s s'.
Proof. unfold write_failed. lia. Qed.
Lemma not_starved (s s' : demo_state) : rd_reads_lost (fs_st s') = rd_reads_lost (fs_st s) → ¬ starved s s'.
Proof. unfold starved. cbn. lia. Qed.

(** File 2 gets three bytes at offset 5; then files 3 and 1 are written, 3 is read. *)
Definition demo_bytes : list Z := [1; 2; 3].
Definition demo_fs1 : demo_state := (fs_write demo_fs 2 5 demo_bytes).2.
Definition demo_ops : list file_op := [OpWrite 3 4094 [7; 8; 9]; OpRead 3 0 4; OpWrite 1 0 [6]; OpTruncate 3 0].

Lemma demo_write1 : fs_write demo_fs 2 5 demo_bytes = (3, demo_fs1).
Proof. unfold demo_fs1. refine (fst_pair (fs_write demo_fs 2 5 demo_bytes) 3 _). vm_compute. reflexivity. Qed.

Lemma demo_fs1_quiet : ¬ write_failed demo_fs demo_fs1 ∧ ¬ starved demo_fs demo_fs1.
Proof. split; [apply no_write_failed|apply not_starved]; vm_compute; reflexivity. Qed.

Lemma demo_bytes_ok : bytes demo_bytes.
Proof. repeat constructor; unfold is_u8; lia. Qed.

Lemma demo_fs1_ok : fs_ok demo_fs1 ∧ own demo_fs1 (dinode demo_fs1).
Proof.
  destruct (fs_write_cases demo_fs 2 5 demo_bytes 3 demo_fs1 demo_fs_ok demo_own (proj1 (proj2 demo_ix))
    ltac:(lia) ltac:(reflexivity) ltac:(reflexivity) demo_bytes_ok demo_write1) as [[Hw _]|[[H1 H2 _ _] _]];
    [by destruct (proj1 demo_fs1_quiet)|done].
Qed.

Lemma fs_read_correct_witness :
  (fs_read demo_fs1 2 4 10).1 = (4, [0; 1; 2; 3]) ∧ holds_at (blk demo_fs1) (dinode demo_fs1 2) 4 [0; 1; 2; 3].
Proof.
  assert ((fs_read demo_fs1 2 4 10).1 = (4, [0; 1; 2; 3])) as E by (vm_compute; reflexivity). split; [exact E|].
  destruct (fs_read_correct demo_fs1 2 4 10 4 [0; 1; 2; 3] (fs_read demo_fs1 2 4 10).2 (proj1 demo_fs1_ok) (proj2 demo_fs1_ok) (proj1 (proj2 demo_ix))
    ltac:(unfold is_u32; lia) ltac:(lia) ltac:(lia) ltac:(by apply fst_pair)) as [_ [(H & _)|(_ & _ & H & _)]]; [discriminate H|exact H].
Defined.


Lemma demo_ops_other : Forall (other_op 2) demo_ops.
Proof. repeat constructor; cbn; unfold inode_ix, is_u32, DUFS_INODE_COUNT; try lia; repeat constructor; unfold is_u8; lia. Qed.

Definition demo_back : Z * list Z * demo_state := fs_read (foldl run_op demo_fs1 demo_ops) 2 5 (blen demo_bytes).

Lemma demo_back_eq : fs_read (foldl run_op demo_fs1 demo_ops) 2 5 (blen demo_bytes) = (demo_back.1.1, demo_back.1.2, demo_back.2).
Proof. unfold demo_back. apply pair_eta3. Qed.

Lemma fs_write_read_witness : demo_back.1.2 = demo_bytes ∧ demo_back.1.1 = blen demo_back.1.2.
Proof.
  assert (¬ write_failed demo_fs demo_back.2) as Hw by (apply no_write_failed; vm_compute; reflexivity).
  assert (¬ starved (foldl run_op demo_fs1 demo_ops) demo_back.2) as Hst by (apply not_starved; vm_compute; reflexivity).
  destruct (fs_write_read demo_fs 2 5 demo_bytes demo_fs1 demo_ops demo_back.1.1 demo_back.1.2 demo_back.2 demo_fs_ok demo_own (proj1 (proj2 demo_ix))
    demo_bytes_ok demo_ops_other ltac:(lia) ltac:(reflexivity) ltac:(reflexivity) demo_write1 demo_back_eq)
    as [H|[[_ H]|(H1 & _ & [H2|H2])]]; [destruct (Hw H)|destruct (Hst H)|split; [exact H2|exact H1]|destruct (Hst H2)].
Defined.

(** The file of eight bytes. *)
Lemma demo_fs1_file : i_type (dinode demo_fs1 2) = DUFS_TYPE_FILE ∧ i_size (dinode demo_fs1 2) = 8.
Proof. vm_compute. done. Qed.

Lemma fs_truncate_correct_witness :
  (fs_truncate demo_fs1 2 6).1 = 0 ∧ i_size (dinode (fs_truncate demo_fs1 2 6).2 2) = 6.
Proof.
  assert ((fs_truncate demo_fs1 2 6).1 = 0) as E by (vm_compute; reflexivity). split; [exact E|].
  assert (¬ write_failed demo_fs1 (fs_truncate demo_fs1 2 6).2) as Hw by (apply no_write_failed; vm_compute; reflexivity).
  destruct (fs_truncate_correct demo_fs1 2 6 0 (fs_truncate demo_fs1 2 6).2 (proj1 demo_fs1_ok) (proj2 demo_fs1_ok) (proj1 (proj2 demo_ix))
    ltac:(unfold is_u32; lia) ltac:(by apply fst_pair)) as [H|[_ [(_ & _ & H & _)|[H _]]]]; [destruct (Hw H)|exact H|discriminate H].
Defined.

Definition demo_name : list Z := [97; 98].
Lemma demo_name_ok : name_ok demo_name.
Proof.
  split; [done|]. split; [cbn; lia|]. split; [|repeat constructor; unfold is_u8; lia].
  unfold demo_name. rewrite !elem_of_cons, elem_of_nil. lia.
Qed.

Lemma demo_dir_empty : dir_is demo_fs 1 ∅.
Proof.
  assert (i_block_count (dinode demo_fs 1) = 0) as E by (vm_compute; reflexivity).
  split; rewrite ?E.
  - intros nm ino. rewrite lookup_empty. split; [done|]. intros (i & e & [Hi _] & _). rewrite E in Hi. lia.
  - intros i e i' e' nm ino ino' [Hi _]. rewrite E in Hi. lia.
  - intros i Hi. apply (demo_ptr 1 (data_pos i) (proj1 demo_ix)). apply data_ix. lia.
  - lia.
Qed.

Definition demo_dir1 : demo_state := (dir_add demo_fs 1 demo_name 5).2.

Lemma demo_add : dir_add demo_fs 1 demo_name 5 = (true, demo_dir1).
Proof. unfold demo_dir1. refine (fst_pair (dir_add demo_fs 1 demo_name 5) true _). vm_compute. reflexivity. Qed.

Lemma demo_lim : i_block_count (dinode demo_fs 1) + 3 <= 2 ^ 20.
Proof. assert (i_block_count (dinode demo_fs 1) = 0) as -> by (vm_compute; reflexivity). lia. Qed.

Lemma demo_dir1_is : others_kept 1 demo_fs demo_dir1 ∧ dir_is demo_dir1 1 {[demo_name := 5]}.
Proof.
  destruct (dir_add_cases demo_fs 1 ∅ demo_name 5 true demo_dir1 demo_fs_ok demo_own (proj1 demo_ix) demo_dir_empty demo_name_ok
    ltac:(unfold is_u32; lia) ltac:(lia) (lookup_empty _) demo_lim demo_add) as [[_ H]|(H1 & _ & [[_ H2]|[[H _]|[H _]]])];
    [discriminate H| |discriminate H|discriminate H]. split; [exact H1|exact H2].
Qed.

Lemma dir_add_refines_witness :
  (dir_add demo_fs 1 demo_name 5).1 = true ∧ dir_is demo_dir1 1 (<[demo_name := 5]> ∅).
Proof.
  split; [vm_compute; reflexivity|].
  destruct (dir_add_refines demo_fs 1 ∅ demo_name 5 true demo_dir1 demo_fs_ok demo_own (proj1 demo_ix) demo_dir_empty demo_name_ok
    ltac:(unfold is_u32; lia) ltac:(lia) (lookup_empty _) demo_lim demo_add) as [[_ H]|(_ & _ & [[_ H]|[[H _]|[H _]]])];
    [discriminate H|exact H|discriminate H|discriminate H].
Defined.

Lemma demo_dir1_ok : fs_ok demo_dir1 ∧ own demo_dir1 (dinode demo_dir1).
Proof. destruct demo_dir1_is as [[H1 H2 _ _] _]. split; [exact H1|exact H2]. Qed.

Lemma dir_remove_refines_witness :
  (dir_remove demo_dir1 1 demo_name).1 = 5 ∧ dir_is (dir_remove demo_dir1 1 demo_name).2 1 (delete demo_name {[demo_name := 5]}).
Proof.
  assert (¬ write_failed demo_dir1 (dir_remove demo_dir1 1 demo_name).2) as Hw by (apply no_write_failed; vm_compute; reflexivity).
  assert (¬ starved demo_dir1 (dir_remove demo_dir1 1 demo_name).2) as Hst by (apply not_starved; vm_compute; reflexivity).
  destruct (dir_remove_refines demo_dir1 1 {[demo_name := 5]} demo_name (dir_remove demo_dir1 1 demo_name).1 (dir_remove demo_dir1 1 demo_name).2
    (proj1 demo_dir1_ok) (proj2 demo_dir1_ok) (proj1 demo_ix) (proj2 demo_dir1_is) demo_name_ok (surjective_pairing _))
    as [[H _]|(_ & _ & _ & [[H H']|(_ & H & _)])]; [destruct (Hw H)| |destruct (Hst H)].
  rewrite lookup_singleton_eq in H. split; [exact H|exact H'].
Defined.

(** File 2 has one block. *)
Definition demo_freed : dufs_inode * demo_state := free_inode_blocks demo_fs1 (dinode demo_fs1 2).

Lemma free_inode_blocks_correct_witness :
  bmap_test (bm demo_fs1) 0 = true ∧ bmap_test (bm demo_freed.2) 0 = false ∧ i_size demo_freed.1 = 0.
Proof.
  split; [vm_compute; reflexivity|].
  assert (¬ starved demo_fs1 demo_freed.2) as Hst by (apply not_starved; vm_compute; reflexivity).
  destruct (free_inode_blocks_correct demo_fs1 2 demo_freed.1 demo_freed.2 (proj1 demo_fs1_ok) (proj2 demo_fs1_ok) (proj1 (proj2 demo_ix)) (surjective_pairing _))
    as ((H & _) & _ & _ & _ & _ & Hb).
  split; [|exact H]. destruct (Hb 0 ltac:(lia)) as (_ & _ & Hf). destruct Hf as [Hf|Hf]; [|exact Hf|destruct (Hst Hf)]. split.
  - unfold block_lba. discriminate.
  - refine (ex_intro _ (PDir 0) (conj _ _)); [cbn; unfold DUFS_DIRECT_BLOCKS; lia|vm_compute; reflexivity].
Defined.

(** ** When a write fails *)

(** fs_write does not look at the write of the bitmap: it reports every byte, and
    the bitmap on disk still has the block free. *)
Lemma fs_write_loses_bitmap :
  let '(rc, s) := fs_write (planned [true; true; true; true; true; true; false] demo_fs) 2 5 demo_bytes in
  rc = 3 ∧ writes_lost s = 1%nat ∧ bmap_test (bm s) 0 = true ∧ bmap_test (blk s 10) 0 = false.
Proof. vm_compute. done. Qed.

(** dir_remove does not look at the write of the entry's block: it returns the
    inode, and the name is still there. *)
Lemma dir_remove_keeps_name :
  let '(found, s) := dir_remove (planned [true; true; true; true; false] demo_dir1) 1 demo_name in
  found = 5 ∧ writes_lost s = 1%nat ∧ (dir_lookup s 1 demo_name).1 = 5.
Proof. vm_compute. done. Qed.

(** A directory whose direct blocks are holes and whose block 12, reached through the
    table, is full. *)
Definition demo_full : list Z :=
  for_loop 0 (Z.to_nat DUFS_DIRENTS_PER_BLOCK) (λ e b, put_entry b e [99; e + 1] 7) (zeros_buf 4096).
Definition demo_dir : dufs_inode := set_indirect (block_lba 0) (inc_block_count (inc_block_count (set_type DUFS_TYPE_DIR zero_inode))).
Definition demo_big : demo_state :=
  mk_fsys {| g_blkdev := 1; g_super := demo_super; g_inode_bitmap := zeros_buf 4096; g_block_bitmap := bmap_set (bmap_set (zeros_buf 4096) 0) 1 |}
    (mk_ram {[block_lba 0 := set32 (zeros_buf 4096) 0 (block_lba 1); block_lba 1 := demo_full]}
      {[18 := splice (zeros_buf 512) 128 (bytes_of (Nat.iter 12 inc_block_count demo_dir))]} [] 0 0) {| next_addr := 0 |} 1000.

(** A dir_add that fails by a read leaves a block attached that is not counted;
    the next one succeeds in it, and the name is not found. *)
Lemma dir_add_loses_name :
  let '(ok1, s1) := dir_add (planned (replicate 8 true ++ [false]) demo_big) 1 demo_name 5 in
  let '(ok2, s2) := dir_add s1 1 demo_name 5 in
  (dir_lookup demo_big 1 [99; 1]).1 = 7 ∧ ok1 = false ∧ writes_lost s2 = 0%nat ∧ ok2 = true ∧ (dir_lookup s2 1 demo_name).1 = 0.
Proof. vm_compute. done. Qed.
