(* ===== verification/StoreCache.v ===== *)
(** * The store of DUFS over the block cache

    Blocks are read through [bcache_read] and written through
    [bcache_write_through], sectors go to the device, as [fs.c] does; the failures are counted.
    The cache is then never dirty, so that a block can always be read with 64
    rounds, and the laws of a store of blocks follow from what is proved of the cache.
    Any heap with a count of the refused blocks has the laws of [AllocFaults]. *)

From S2P Require Import Prelude Interfaces Bytes Bcache BcacheSpec BcacheProps Dufs DufsSpec.

Record cached (D : Type) := mk_cached { ca_cache : bcache; ca_disk : D; ca_reads_lost : nat; ca_writes_lost : nat }.
Arguments mk_cached {D}.
Arguments ca_cache {D}.
Arguments ca_disk {D}.
Arguments ca_reads_lost {D}.
Arguments ca_writes_lost {D}.

Section store.
Context {D : Type} {BD : BlockDevice D}.
Implicit Types (s : cached D) (c : bcache) (d : D).

(** The counts go up by one when the operation failed. *)
Definition read_done s c d (r : option (list Z)) : option (list Z) * cached D :=
  (r, mk_cached c d (if r then ca_reads_lost s else S (ca_reads_lost s)) (ca_writes_lost s)).
Definition write_done s c d (ok : bool) : bool * cached D :=
  (ok, mk_cached c d (ca_reads_lost s) (if ok then ca_writes_lost s else S (ca_writes_lost s))).

#[export] Instance cached_store : BlockStore (cached D) := {
  bs_read s dev lba :=
    match bcache_read (Z.to_nat BCACHE_SLOTS) (ca_cache s) (ca_disk s) dev lba true with
    | Some (r, c, d) => read_done s c d r
    | None => read_done s (ca_cache s) (ca_disk s) None
    end;
  bs_write s dev lba buf :=
    let '(rc, c, d) := bcache_write_through (ca_cache s) (ca_disk s) dev lba (Some buf) in write_done s c d (rc =? 0);
  sec_read s dev sec := read_done s (ca_cache s) (ca_disk s) (bd_read (ca_disk s) dev sec);
  sec_write s dev sec buf := let '(ok, d) := bd_write (ca_disk s) dev sec buf in write_done s (ca_cache s) d ok;
}.

#[export] Instance cached_faults : StoreFaults (cached D) := { wr_faults := ca_writes_lost; rd_faults := ca_reads_lost }.

#[export] Instance cached_fault_laws : StoreFaultLaws (cached D).
Proof.
  split; intros s dev x; try intros buf; unfold read_count, write_count; cbn [bs_read bs_write sec_read sec_write cached_store].
  - destruct (bcache_read _ _ _ _ _ _) as [[[[] ?] ?]|]; done.
  - destruct (bcache_write_through _ _ _ _ _) as [[rc ?] ?]. by destruct (rc =? 0).
  - by destruct (bd_read _ _ _).
  - destruct (bd_write _ _ _ _) as [[] ?]; done.
Qed.

Context {bd_media : D → Z → Z → list Z} {BL : BlockDeviceLaws D bd_media} (dev : Z) (dev_set : dev ≠ 0).
Notation disk := (disk_block (bd_media := bd_media)).
Notation contents := (contents (bd_media := bd_media)).

(** The blocks of DUFS on the device it is mounted from. *)
Definition dufs_block (dv lba : Z) : Prop := dv = dev ∧ dufs_blk lba.
Notation bc_inv := (bc_inv (bd_media := bd_media) (is_block := dufs_block)).

Lemma dufs_layout : block_layout dufs_block.
Proof.
  split.
  - by intros dv lba [-> _].
  - intros dv lba [_ [->|[->|(bit & Hb & ->)]]]; unfold fits, BCACHE_SECS_PER_BLK, block_lba, DUFS_DATA_LBA; lia.
  - intros dv a b [-> Ha] [_ Hb] Hne. right. unfold BCACHE_SECS_PER_BLK.
    destruct Ha as [->|[->|(i & Hi & ->)]], Hb as [->|[->|(j & Hj & ->)]]; unfold block_lba, DUFS_DATA_LBA in *; lia.
Qed.

(** No slot is dirty. *)
Definition all_clean c : Prop := ∀ i, slot_ix i → reusable c i.

Definition sectors_bytes d : Prop := ∀ x, Forall is_u8 (bd_media d dev x).

Definition cached_view : StoreView (cached D) := {|
  st_dev := dev;
  st_inv s := bc_inv (ca_cache s) (ca_disk s) ∧ all_clean (ca_cache s) ∧ sectors_bytes (ca_disk s);
  st_block s := contents (ca_cache s) (ca_disk s) dev;
  st_sector s := bd_media (ca_disk s) dev;
|}.

(** ** Slots stay clean *)

Lemma clean_core c c' : same_core c c' → all_clean c → all_clean c'.
Proof. intros Hc Hcl i Hi. unfold reusable. destruct (core_fields _ _ (Hc i Hi)) as (_ & _ & -> & -> & _). by apply Hcl. Qed.

Lemma clean_upd c i f :
  lru_all c → slot_ix i → s_valid (f (g_slots c).[i]) && s_dirty (f (g_slots c).[i]) = false → all_clean c → all_clean (upd c i f).
Proof.
  intros Hl Hi Hf Hcl j Hj. unfold reusable. rewrite upd_get by (by apply lru_slots || done || by apply slot_ix_nonneg).
  destruct (Z.eqb_spec i j); [done|by apply Hcl].
Qed.

Lemma clean_touch c i : lru_all c → slot_ix i → all_clean c → all_clean (lru_touch c i).
Proof. intros Hl Hi. apply clean_core. by apply touch_all. Qed.

Lemma clean_demote c i : lru_all c → slot_ix i → all_clean c → all_clean (lru_demote c i).
Proof. intros Hl Hi. apply clean_core. by apply demote_all. Qed.

(** With every slot clean nothing is written back. *)
Lemma acquire_clean fuel c d lba r c' d' :
  lru_all c → all_clean c → acquire_slot (S fuel) c d dev lba = Some (r, c', d') →
  d' = d ∧ all_clean c'.
Proof.
  intros Hl Hcl. unfold acquire_slot. destruct (find_slot c dev lba) as [i|] eqn:Ef.
  { intros [= <- <- <-]. split; [done|]. apply clean_touch; [done| |done]. by apply find_slot_Some in Ef as [? _]. }
  destruct (tail_full c Hl) as (l & i & _ & Hp & ->). assert (slot_ix i) as Hi.
  { apply (in_all i _ Hp). rewrite elem_of_app. right. by apply list_elem_of_singleton. }
  cbn [find_victim]. pose proof (Hcl i Hi) as Hr. unfold reusable in Hr.
  assert (negb (s_valid (g_slots c).[i]) || negb (s_dirty (g_slots c).[i]) = true) as -> by (by destruct (s_valid _), (s_dirty _)).
  intros [= <- <- <-]. split; [done|].
  set (c0 := if s_valid _ then _ else c). assert (lru_all c0 ∧ all_clean c0) as [Hl0 Hcl0].
  { unfold c0. destruct (s_valid _); [|done]. split; [by apply stats_lru_all|done]. }
  apply clean_touch; [apply lru_all_upd; done|done|]. by apply clean_upd.
Qed.

Lemma read_clean c d lba r c' d' :
  bc_inv c d → all_clean c → bcache_read (Z.to_nat BCACHE_SLOTS) c d dev lba true = Some (r, c', d') →
  d' = d ∧ all_clean c'.
Proof.
  intros Hinv Hcl. pose proof (proj1 Hinv) as Hl. unfold bcache_read. rewrite (proj2 (Z.eqb_neq dev 0)) by done. cbn [negb orb].
  destruct (find_slot c dev lba) as [i|] eqn:Ef.
  { intros [= <- <- <-]. split; [done|]. pose proof (find_slot_Some _ _ _ _ Ef) as [Hi _].
    exact (clean_touch c i Hl Hi Hcl). }
  pose proof (acquire_spec dufs_layout (Z.to_nat BCACHE_SLOTS) c d dev lba Hinv) as Hacq.
  destruct (acquire_slot _ c d dev lba) as [[[r1 c1] d1]|] eqn:Ea; [|done].
  destruct Hacq as (i & -> & (Hi & [Hl1 _] & _) & _). apply (acquire_clean 63) in Ea as [-> Hcl1]; [|done|done].
  destruct (disk_read_block d dev lba _) as [part|data]; intros [= <- <- <-]; (split; [done|]).
  - apply clean_demote; [by apply lru_all_upd|done|]. by apply clean_upd.
  - assert (all_clean (upd c1 i (λ x : bcache_slot, with_flags true false (with_data data x)))) as H by by apply clean_upd. exact H.
Qed.

Lemma write_clean c d lba buf rc c' d' :
  lru_all c → all_clean c → bcache_write_through c d dev lba (Some buf) = (rc, c', d') → all_clean c'.
Proof.
  intros Hl Hcl. unfold bcache_write_through. destruct (dev =? 0); [by intros [= _ <- _]|].
  destruct (disk_write_block d dev lba buf) as [r d1]. destruct (negb _); [by intros [= _ <- _]|].
  change (find_slot (set_stats c inc_write_through) dev lba) with (find_slot c dev lba).
  destruct (find_slot c dev lba) as [i|] eqn:Ef; [|by intros [= _ <- _]].
  intros [= _ <- _]. pose proof (find_slot_Some _ _ _ _ Ef) as [Hi _].
  assert (lru_all (set_stats c inc_write_through)) as Hl0 by by apply stats_lru_all.
  apply clean_touch; [by apply lru_all_upd|done|]. apply clean_upd; [done|done| |done]. cbn. by rewrite andb_false_r.
Qed.

(** ** The laws *)

Lemma disk_block_len d lba : length (disk d dev lba) = 4096%nat.
Proof.
  unfold disk_block. assert (∀ x, length (bd_media d dev x) = 512%nat) as Hl by (intros; apply (bd_media_length d)).
  change (seqZ 0 BCACHE_SECS_PER_BLK) with [0; 1; 2; 3; 4; 5; 6; 7]. cbn [fmap list_fmap mjoin list_join].
  rewrite !length_app, !Hl. done.
Qed.

Lemma disk_block_bytes d lba : sectors_bytes d → Forall is_u8 (disk d dev lba).
Proof. intros Hb. unfold disk_block. change (seqZ 0 BCACHE_SECS_PER_BLK) with [0; 1; 2; 3; 4; 5; 6; 7]. cbn [fmap list_fmap mjoin list_join].
  rewrite !Forall_app. repeat split; try apply Hb. by apply Forall_nil. Qed.

Lemma contents_clean c d lba : bc_inv c d → all_clean c → contents c d dev lba = disk d dev lba.
Proof.
  intros [_ Hs] Hcl. unfold contents. destruct (find_slot c dev lba) as [i|] eqn:Ef; [|done].
  apply find_slot_Some in Ef as [Hi Hm]. apply key_match_true in Hm as (Hv & <- & <-).
  apply (si_clean _ _ Hs); [done|done|]. specialize (Hcl i Hi). unfold reusable in Hcl. by rewrite Hv in Hcl.
Qed.

(** A block that was written through, and the sectors beside it. *)
Lemma write_sectors c d lba buf c' d' :
  dufs_blk lba → length buf = Z.to_nat BCACHE_BLOCK_SIZE → Forall is_u8 buf →
  bcache_write_through c d dev lba (Some buf) = (0, c', d') →
  (sectors_bytes d → sectors_bytes d') ∧ ∀ x, x < lba ∨ lba + BCACHE_SECS_PER_BLK <= x → bd_media d' dev x = bd_media d dev x.
Proof.
  intros Hb Hl Hby E. assert ((disk_write_block d dev lba buf).1 = 0 ∧ d' = (disk_write_block d dev lba buf).2) as [Hrc ->].
  { unfold bcache_write_through in E. rewrite (proj2 (Z.eqb_neq dev 0)) in E by done.
    destruct (disk_write_block d dev lba buf) as [r d1]. destruct (Z.eqb_spec r 0) as [->|]; [|done]. cbn [negb] in E.
    destruct (find_slot _ dev lba); injection E; by intros -> _. }
  pose proof (disk_write_media d dev lba buf Hl (bl_fits _ dufs_layout dev lba ltac:(done))) as Hw.
  destruct (disk_write_block d dev lba buf) as [r d1]. cbn [fst snd] in *. subst r. destruct Hw as (_ & Hin & Hout).
  specialize (Hin eq_refl). split; [|intros x Hx; apply Hout; by right].
  intros Hs x. destruct (decide (lba <= x < lba + BCACHE_SECS_PER_BLK)).
  - replace x with (lba + (x - lba)) by lia. rewrite Hin by lia. by apply Forall_take, Forall_drop.
  - rewrite Hout by lia. apply Hs.
Qed.

Lemma sec_apart sec lba : dufs_sec sec → dufs_blk lba → sec < lba ∨ lba + BCACHE_SECS_PER_BLK <= sec.
Proof.
  unfold BCACHE_SECS_PER_BLK. intros [->|Hs] [->|[->|(i & Hi & ->)]]; unfold block_lba, DUFS_DATA_LBA in *; lia.
Qed.

(** The device changes in one sector of the inode table. *)
Lemma sector_inv c d d' sec :
  dufs_sec sec → (∀ x, x ≠ sec → bd_media d' dev x = bd_media d dev x) → bc_inv c d →
  bc_inv c d' ∧ ∀ lba, dufs_blk lba → contents c d' dev lba = contents c d dev lba.
Proof.
  intros Hsec Hfr [Hl [H1 H2 H3 H4]]. assert (∀ lba, dufs_blk lba → disk d' dev lba = disk d dev lba) as Hd.
  { intros lba Hb. apply disk_block_ext. intros i Hi. apply Hfr. pose proof (sec_apart sec lba Hsec Hb). lia. }
  split.
  - split; [done|]. split; [done..|]. intros i Hi Hv Hc. rewrite (H4 i Hi Hv Hc). destruct (H2 i Hi Hv) as [-> Hb]. by rewrite Hd.
  - intros lba Hb. unfold contents. destruct (find_slot c dev lba); [done|by apply Hd].
Qed.

Lemma cached_laws : @BlockStoreLaws (cached D) cached_store cached_view dufs_blk dufs_sec.
Proof.
  split; cbn [bs_read bs_write sec_read sec_write cached_store st_inv st_block st_sector st_dev cached_view].
  - intros s lba (Hi & Hcl & Hs) _. rewrite contents_clean by done. split; [apply disk_block_len|by apply disk_block_bytes].
  - intros s sec (Hi & Hcl & Hs) _. split; [apply (bd_media_length (ca_disk s))|apply Hs].
  - intros s lba r s' (Hi & Hcl & Hs) Hb E.
    assert (∃ x, slot_ix x ∧ usable (ca_cache s) x) as Hx.
    { exists 0. split; [unfold slot_ix, BCACHE_SLOTS; lia|left]. by apply Hcl. }
    destruct (bcache_read_total (Z.to_nat BCACHE_SLOTS) (ca_cache s) (ca_disk s) dev lba Hi dev_set (or_intror Hx) (le_n _))
      as [[[r1 c1] d1] Er]. rewrite Er in E. injection E as <- <-.
    destruct (bcache_read_spec dufs_layout _ _ _ _ _ _ _ _ Hi (conj eq_refl Hb) Er) as (Hi1 & Hc1 & Hr1).
    destruct (read_clean _ _ _ _ _ _ Hi Hcl Er) as [-> Hcl1]. cbn [ca_cache ca_disk]. split; [done|].
    split; [by intros b ->|]. split; [|done]. intros b Hbb. by apply Hc1.
  - intros s lba buf s' (Hi & Hcl & Hs) Hb Hl Hby.
    destruct (bcache_write_through (ca_cache s) (ca_disk s) dev lba (Some buf)) as [[rc c1] d1] eqn:Ew. unfold write_done.
    destruct (Z.eqb_spec rc 0) as [->|]; [|done]. intros [= <-]. cbn [ca_cache ca_disk].
    destruct (bcache_write_through_correct dufs_layout _ _ _ _ _ _ _ Hi (conj eq_refl Hb) Hl Ew) as (Hi1 & _ & Hc1).
    destruct (write_sectors _ _ _ _ _ _ Hb Hl Hby Ew) as [Hs1 Hfr].
    split; [split; [done|]; split; [by eapply write_clean; [apply Hi| |exact Ew]|by apply Hs1]|]. split.
    + intros b Hbb. rewrite Hc1 by done. case_bool_decide as E; case_bool_decide as E'; try done; naive_solver.
    + intros x Hx. by apply Hfr, sec_apart.
  - intros s sec r s' (Hi & Hcl & Hs) Hsec [= <- <-]. cbn [ca_cache ca_disk]. split; [done|].
    split; [intros b; apply bd_read_ok|done].
  - intros s sec buf s' (Hi & Hcl & Hs) Hsec Hl Hby. pose proof (bd_write_ok (ca_disk s) dev sec buf) as Hok.
    pose proof (λ x, bd_write_frame (ca_disk s) dev sec buf dev x) as Hfr.
    destruct (bd_write (ca_disk s) dev sec buf) as [[] d1]; [|done]. intros [= <-]. cbn [ca_cache ca_disk snd] in *.
    specialize (Hok d1 eq_refl Hl). assert (∀ x, x ≠ sec → bd_media d1 dev x = bd_media (ca_disk s) dev x) as Hfr' by auto.
    destruct (sector_inv _ _ d1 sec Hsec Hfr' Hi) as [Hi1 Hc1]. split; [split; [done|]; split; [done|]|].
    + intros x. destruct (Z.eq_dec x sec) as [->|]; [by rewrite Hok|by rewrite Hfr'].
    + split; [|done]. intros x _. case_bool_decide as E; [by subst|by apply Hfr'].
Qed.

(** After [bcache_init] the store is in order. *)
Lemma cached_init d c :
  sectors_bytes d → length (g_slots c) = Z.to_nat BCACHE_SLOTS →
  (∀ i, slot_ix i → length (s_data (g_slots c).[i]) = Z.to_nat BCACHE_BLOCK_SIZE) →
  st_inv (StoreView := cached_view) (mk_cached (bcache_init c) d 0 0).
Proof.
  intros Hs Hl Hd. split; [|split; [|done]]; cbn [ca_cache ca_disk].
  - by apply bcache_init_inv.
  - intros i Hi. unfold reusable. by rewrite (proj1 (proj2 (init_lru c Hl Hd) i Hi)).
Qed.
End store.

(** ** A heap with a count *)

Record counting_heap (H : Type) := mk_counted { co_heap : H; co_refused : nat }.
Arguments mk_counted {H}.
Arguments co_heap {H}.
Arguments co_refused {H}.

#[export] Instance counted_heap {H} {KA : KAllocator H} : KAllocator (counting_heap H) := {
  ka_malloc h n :=
    let '(p, r) := ka_malloc (co_heap h) n in (p, mk_counted r (if p =? 0 then S (co_refused h) else co_refused h));
  ka_free h p := mk_counted (ka_free (co_heap h) p) (co_refused h);
}.
#[export] Instance counted_faults {H} : AllocFaults (counting_heap H) := { al_faults := co_refused }.
#[export] Instance counted_laws {H} {KA : KAllocator H} : AllocFaultLaws (counting_heap H).
Proof. split; [|done]. intros h n. cbn. by destruct (ka_malloc _ _). Qed.

